(* ===== verification/_CoqProject ===== *)
-Q . S2P
Prelude.v
JsString.v
Json.v
DeltaOp.v
DeltaApply.v
DeltaMatch.v
DeltaDiff.v
DeltaDiffFacts.v
DeltaCodec.v
DeltaPending.v
DeltaTheorems.v
StorageTypes.v
SortedIds.v
MemoryCommit.v
DocumentFacts.v
TableFacts.v
MemoryFacts.v
MemoryRead.v
ReadFacts.v
VisibleFacts.v
MemoryHistory.v
StorageTheorems.v
ConversationTails.v
TaskGraph.v
TaskGraphFacts.v
SessionTheorems.v
EditText.v
EditDiff.v
EditFacts.v
EditOverlay.v
EditMatch.v
EditShown.v
EditTheorems.v
LinkMessage.v
LinkWriter.v
LinkBinary.v
LinkFacts.v
LinkPart.v
LinkTheorems.v
StreamValue.v
StreamParser.v
StreamSpec.v
StreamRel.v
StreamChanges.v
StreamRefine.v
StreamStrings.v
StreamInvariant.v
StreamContainers.v
StreamAppend.v
StreamGrammar.v
StreamReading.v
StreamArguments.v
StreamTheorems.v
ContextModel.v
ContextReads.v
ContextCache.v
ContextTheorems.v
SessionTypes.v
SessionTransaction.v
SessionCommit.v
BatchFacts.v
SessionInvariant.v
TransactionFacts.v
TransactionDocuments.v
BatchPlans.v
BatchCommit.v
CommitInvariant.v
CommitReplicas.v
SessionKeys.v
CommitTheorems.v
SessionWriter.v
WriterInvariant.v
WriterLine.v
WriterTheorems.v
AgentTranscript.v
AgentLoop.v
AgentFacts.v
AgentRun.v
AgentConcurrent.v
AgentTheorems.v
