(* ===== verification/Prelude.v ===== *)
(** * A verified model of the state machinery of hummin

    hummin is a coding agent. Its application runs on two libraries of the repository:
    chord (src/packages/chord), whose delta layer describes, sends and applies changes of
    JSON documents, and durable (src/packages/durable), which stores conversations,
    entries, tasks, submissions and documents in a [Storage] and runs an agent on top.
    Hosts talk over chord's links, whose messages are bytes. The arguments of a tool call
    stream from a model provider as pieces of JSON text, which the ai package
    (src/packages/ai) shows while they arrive. The loop that asks the model and runs the tools
    it calls is the agent package (src/packages/agent). The agent's most used tool replaces
    text in files (src/packages/coding-agent). This development models the code of these
    five that has no input or output in it.

    ** Parts, files and sources

    - Shared: [Prelude] (the error monad [res], [slice], list lemmas, the tactics
      [inv_res] and [bool_to_prop]), [JsString] (strings, decimal numbers, JSON text of
      paths), [Json] (values with the identity of their containers, [equalJson], the
      document [doc] of a value).
    - Deltas, src/packages/chord/src/delta: [DeltaOp] (operations and validators of
      index.ts), [DeltaApply] ([apply] and its path walks), [DeltaCodec] ([encoder] and
      [decoder]), [DeltaMatch] and [DeltaDiff] ([diffRevisions] of diff.ts; pairings of
      array elements and the strategies built on them), [DeltaPending] ([PendingOps] of
      pending.ts). [DeltaDiffFacts] holds the facts, [DeltaTheorems] the properties.
    - Storage, src/packages/durable/src: [StorageTypes] (the records and writes of
      types.ts), [SortedIds] (the sorted lists of memory.ts, the cursors of
      storage/scan.ts, [scanAll] of harness/util.ts), [MemoryCommit] (the state of
      [MemoryStorage] and [commit]), [MemoryRead] (lookups, scans, visible entries, head
      markers, document content). [DocumentFacts], [TableFacts], [MemoryFacts],
      [ReadFacts], [VisibleFacts] and [MemoryHistory] hold the facts, [StorageTheorems]
      the properties.
    - What a Session keeps beside its storage: [ConversationTails]
      (session/conversation-tails.ts), [TaskGraph] (harness/task-graph.ts, with the
      [BlockedSubject] of harness/scheduler.ts) and [TaskGraphFacts]; the properties are
      in [SessionTheorems].
    - The documents and the commits of a Session, src/packages/durable/src: [SessionTypes]
      (documents.ts, the state of session/session.ts, loading and storing held changes, and
      session/forks.ts), [SessionTransaction] (the operations of [Tx] in
      session/transaction.ts), [SessionCommit] (settlement, stored and held commits, and
      the steps of callbacks and Sessions, [tx_step] and [session_step]). [BatchFacts] (what
      an accepted batch does), [SessionInvariant], [TransactionFacts],
      [TransactionDocuments], [BatchPlans], [BatchCommit] and [CommitInvariant] show that
      every step keeps the invariant [session_ok]; [CommitReplicas] has what commits never do
      and their observers; the properties are in [CommitTheorems].
    - The writer of a Session and the reads of its line: [SessionKeys] (session/keys.ts with
      [writeKeys] of session/transaction.ts, and that reads only depend on their keys),
      [SessionWriter] (the class [Writer] of session/writer.ts: one definition per stretch of
      code between two awaits, and its steps), [WriterInvariant] (two positions of the line
      that say what is in each of its maps), [WriterLine] (the writer over a
      [MemoryStorage]); [WriterTheorems] has [touch] of session/session.ts and the
      properties.
    - The model context, src/packages/durable/src/harness/context.ts: [ContextModel] (the
      whole file, and the interface [ConversationSource] of what it asks a Session),
      [ContextReads] (what is settled stays; the visible history that a source shows,
      [SourceLaws]), [ContextCache] ([MemoryStorage] as a source, and the range that
      scheduler.ts keeps for a conversation, as steps); the properties are in [ContextTheorems].
    - Links, src/packages/chord/src/link: [LinkMessage] (UTF-8 as the platform's encoder and
      decoder have it, and the messages of message.ts), [LinkWriter] (the [Writer] of
      binary.ts), [LinkBinary] (its [Reader] and its codec), [LinkPart]
      (part.ts: sizes, limits, compression). [LinkWriter] and [LinkFacts] hold the
      facts, [LinkTheorems] the properties.
    - The streaming JSON parser, src/packages/ai/src/utils/streaming-json.ts:
      [StreamValue] (values over a heap of containers, the trees they stand for, tokens),
      [StreamParser] (the class [StreamingJsonParser]; its methods keep their names),
      [StreamSpec] (its specification: a machine that reads one character after the other
      and holds trees), [StreamArguments] (sequences of
      calls, and [ToolCallArgumentsStream]). [StreamRel] and [StreamInvariant] say how
      the two are related, [StreamChanges] what reported changes do; [StreamRefine],
      [StreamStrings], [StreamContainers] and [StreamAppend] (with snapshots) show it of one
      operation each, [StreamGrammar] and [StreamReading] that the machine reads JSON. The properties are in [StreamTheorems].
    - The edit tool, src/packages/coding-agent/src/core/tools/edit-diff.ts, the file
      round trip of edit.ts and [splitBom] of utils/text.ts: [EditText] (texts as lists
      of UTF-16 code units), [EditDiff] (the whole model), [EditFacts] (replacing, and the
      search space without indentation), [EditOverlay] (untouched
      lines), [EditMatch] (what a match is), [EditShown] (the diff shown, and line
      endings); the properties are in [EditTheorems].
    - The agent loop: [AgentTranscript] (src/packages/ai/src/utils/transcript.ts: what system
      messages say of the prompt and the tools), [AgentLoop] (src/packages/agent/src/agent-loop.ts:
      the record [Hooks] of what the loop asks host, model and tools, the state monad [act]
      over their world, the log of events and what the queues gave, and the loop itself). [AgentFacts] has the protocol of the events and triples [spec] of what an action
      returns, emits and polls, [AgentRun] the turns and the run, [AgentConcurrent] concurrent
      calls; the properties are in [AgentTheorems].

    ** How the parts interact

    A document's revisions are JSON values; [diffRevisions] computes the operations
    between them, [encode] and [decode] carry these over a link, [push] and [take] queue
    them for a slow reader, and [apply] performs them on a copy. A [StorageWrite] that
    changes a document carries such operations; [MemoryStorage] checks them at a commit
    and replays them with [apply] when it is asked for the document. A Session commits
    batches of writes to its storage and advances its tails and its task graph from what
    was committed. The model composes these by the same calls: [prepareDocumentActions]
    and [materializeDocument] call [apply], the graph's [build] calls [scanTasks] and
    [scanConversations] through [scanAll].

    A commit's callback stages writes in a [Transaction]; [assemble] makes the batch that
    [MemoryStorage] stores, or [hold_commit] queues its operations in the [PendingOps] of each
    document, until [storeHolds] or a stored commit takes them. Memory's value of a document
    is thus ahead of the stored one by what is held.

    The line admits a settled commit as a part with its batch and the keys it writes. The
    writer sends the parts admitted while no call is in flight to the storage in one
    [commit], takes the receipts, and publishes part by part; a job that reads touches the
    keys of its read first and waits for the gate of the part that writes them. In
    [WriterLine] these are steps of the pair of a writer and a storage, in which the host,
    the storage and observers choose their answers, and IDs are minted at any time.

    A context is read from a Session; the theorems about it are proved against
    [SourceLaws], which [ContextCache] discharges from the theorems of the storage's scans,
    head markers and visible entries. The scheduler keeps the range of a read; commits
    advance it, and reads that began before a commit end after it.

    A provider appends the pieces of a tool call's text to an [ArgumentsStream], which hands
    them to its parser and takes a snapshot; the durable harness applies the changes that
    [append] returns to a document instead. Here snapshots and changes share the parser's
    objects, so the containers are in a heap and a reference is a place in it.

    The agent loop is one action of [act]: it declares the tools that changed on the messages
    it delivers, asks for a response, runs its calls and asks again. Its transcript helpers
    are those the providers use to send a transcript. Concurrent calls are stages, of which
    the host picks the one that goes on.

    State is passed explicitly; an exception is the [Throw] of [res], with a constructor
    for each message. A Map is a [gmap] where its order is not observed and an association
    list where it is (objects, least recently used maps, the path dictionaries). Object
    identity is a number on a container of a JSON value, because [diffRevisions] relies on
    [===] of containers. An iterator or a promise that only delivers values is the list of
    the values.

    ** What the theorems show

    - Deltas: a difference applied to the old revision gives the new one; decoding gives
      what was encoded, across batches and after a replacement; folded pending operations
      have the effect of those pushed; alignments are increasing, the semantic one is a
      longest one; validators accept exactly the well-formed tuples.
    - Storage: every reachable storage keeps its tables and indexes consistent; a commit
      stores whole batches up to the first refused one; stored conversations, entries and
      document histories never change; a live document can be read and holds what its
      commits say; scans return every match once, in order, over all pages; the two walks
      over the entries visible in a fork agree.
    - Session: the tails answer what the storage would and stay small; building the task
      graph ends, and along every sequence of commits and registry changes the graph is
      the one that would be built again.
    - Documents of a Session: along every run the stored value of a cached document, with
      what is held of it, is the value memory shows; a commit that settles is accepted by
      the storage; observers who follow the publications have what is stored; a fork copies
      the right documents once; live documents have their owners; what has ended stays.
    - Writer of a Session: parts are published in the order of the line; a gate is closed as
      long as a part that writes the key is not published; every part settles, however the
      storage answers and whenever the Session fails; group commits store what commits of
      one batch each would; a read that waited for its keys answers as if everything admitted
      were stored; a settled commit names all keys of its batch.
    - Model context: a range that is extended is the range derived anew; a read that has a
      kept range answers as one that has none; the range a scheduler keeps stays the context
      of the conversation whatever interleaves; each assistant message is followed by one
      result for each call.
    - Links: a message is decoded as it was encoded, whatever its kind, by a writer that
      loses no byte and keeps little more than the message; no message is the front of
      another; a part opens as the text it was made of, or with the error of the first
      limit it passes, at every end.
    - Streaming parser: in whatever pieces a text comes, and with snapshots taken anywhere,
      the parser raises nothing and is in the state of the machine that reads the whole
      text; a JSON text is read as its value; the changes of the pieces, replayed on a
      copy, make the value; what was returned never changes; the copies that snapshots make
      stay linear in the text. The lemma [dropped_word_stays] evaluates a text whose
      snapshot is out of date.
    - Agent loop: the events of a run follow their protocol; each response is followed by the
      results of its calls, in their order; queued messages are delivered, in order; with hooks
      that answer alike, concurrent calls give what sequential ones give; a run ends when
      tool calls, queued messages and decisions to continue do. What is delivered leaves a
      transcript that declares the tools that can be executed; a collapsed transcript says what
      the transcript says; additions in place lead to the current tools.
    - Edit tool: exact edits replace exactly the matched occurrences, and succeed exactly
      when these are unique and disjoint; a fuzzy run matches ranges that read as the old
      texts but for indentation and keeps every other line byte for byte; replacements
      change indentation only; the byte order mark and the line endings survive; the diff
      shown is that of a reference. Five lemmas at the end of [EditTheorems] evaluate
      inputs on which the tool does something else than its comments say.

    ** Bounds and fuel

    Integers are [N] or [Z]; the bounds of the code ([MAX_SAFE_INTEGER], the capacities and
    limits) are checked where the code checks them. Recursions that are not structural
    take fuel: [diff_fuel] of [DeltaDiff] is twice the size of both revisions,
    and [DeltaDiffFacts] shows that it suffices; a walk up a chain of forks needs no more than
    the ID of the conversation, since a fork's parent is older; [scanAll] needs one more
    than the number of its items, since a page that has a successor is not empty, and so do
    the scans of a context; [all_documents] takes one more than the next ID, of which there are
    more than documents; [rangeEntry] one more than the number of entries;
    [split_on] the length of the text; a varint has at most one digit more than its binary
    logarithm, and a long text takes at most as many rounds as it has units; [append_loop] of the
    streaming parser needs two rounds for a character at most, since a round reads a
    character or ends a number or word. [run_together] of the agent loop takes the steps that
    its calls have left ([stage_work]); [runLoop] takes a bound of the number of turns, and
    [run_ends] gives one. Theorems about these state that enough fuel gives a result.

    ** Assumptions

    A JavaScript string of the delta and storage parts is a Rocq [string], whose 256
    characters stand for the code units; no code of these parts depends on a unit above
    255. [EditText] has all code units. JSON numbers are decimals with their exponent, and
    [-0]. The edit tool's [normalize("NFKC")] is the parameter [nfkc], about which the
    theorems assume that it leaves folded text as it is ([nfkc_stable]) or puts no carriage
    return in a text, both of which Unicode guarantees; the line diff of the package diff
    is an argument. The links' texts have all code units too; [JSON.stringify] and
    [JSON.parse] are the interface [JsonText], with the laws [JsonTextLaws] that a value's
    text has no lone surrogate and parses to the value; compressors are arguments, assumed
    to inflate what they deflated. The streaming parser's numbers are those of the parameter
    [Number], which reads a token; the members of its objects are in the order they were
    created (JavaScript lists keys that are array indices first), and the final parse
    [parseToolCallArguments] is a parameter. What the scheduler says of a task is the parameter [blocked].
    A message of a context is the object at its place in its entry; a head is not
    after its marker ([storage_history] for a storage). What [knownLatestEntryId] says is
    nothing or the newest entry, as [tails_answer] shows of the tails. The operations of a
    commit's callback run one after the other, and one that throws ends it; commits, reads
    and stored holds of a Session follow each other in [session_step]; the writer's model has
    their stores run behind the line. Publication and discarding of a part do not call the
    writer, and discarding and failing the Session do not throw; of a storage call that was
    rejected the receipts are those of what it stored. A gated read assumes of the storage
    that chains of forks are acyclic and that entries are newer than the points where older
    forks branch off ([chains_ok], [appends_after]). What a draft's tracker records is any
    well-formed operations that make the new value ([performs]); the values of documents are
    plain JSON, and their definitions and the clock are arguments.

    The host, the model and the tools of the agent loop are functions over a world, so what
    happens while the loop waits is what the next call finds. [validateToolArguments],
    [prepareArguments] and what makes the request from the messages are such functions; those
    that the loop does not guard (emit, the queues, finishTurn, preparation, the response)
    do not throw. What a tool reports after it settled is dropped by the loop and does not
    occur in the model. Tool schemas stand for their JSON text, a system message's content for
    its joined text; names of sections are not array indices.

    ** Not modelled

    Input and output, and what is asynchronous: the queue of jobs of a Session's line with
    its outcome fence, the cache of reads (session/cached-storage.ts), timers, retention and
    watches; gated reads that look a document up by its address or scope, or a submission by
    its request, have no theorem about what they answer; what a harness stages with a new conversation, the scheduler and the harness, the SQLite, IndexedDB and JSONL storages, chord's host
    and the transport, schema checks and text codec of its links, the AI providers, the interactive application, the terminal
    library, of the agent loop the event streams around it and [runToolCall], MCP and code mode. The proxies of delta/tracker.ts and delta/draft.ts, which
    record mutations of live objects. Of index.ts, the sharing of containers in
    [applyImmutableBatches]. Of edit-diff.ts, the preview that reads the file and the
    unified patch of the package diff. The task graph's observers, which receive its
    revisions. Of context.ts, freezing, which changes no value; of the kept contexts, when
    an idle one expires (a drop at any time). *)
From stdpp Require Export base tactics functions list gmap strings pretty.
From Stdlib Require Export ZArith NArith Lia.

#[global] Arguments String.append : simpl nomatch.

(** ** Outcomes of fallible code

    A JavaScript function that may throw returns a [res]: [Ok v] when it returns
    [v], [Throw e] when it throws [e]. *)
Inductive res (E A : Type) : Type :=
| Ok (a : A)
| Throw (e : E).
Arguments Ok {E A} a.
Arguments Throw {E A} e.

#[export] Instance res_ret {E} : MRet (res E) := fun A a => Ok a.
#[export] Instance res_bind {E} : MBind (res E) := fun A B f m =>
  match m with Ok a => f a | Throw e => Throw e end.
#[export] Instance res_fmap {E} : FMap (res E) := fun A B f m =>
  match m with Ok a => Ok (f a) | Throw e => Throw e end.

(** [res_of d o]: the value of [o], or the error [d] when there is none. *)
Definition res_of {E A} (d : E) (o : option A) : res E A :=
  match o with Some a => Ok a | None => Throw d end.

(** [check b e]: throw [e] unless [b]. *)
Definition check {E} (b : bool) (e : E) : res E unit := if b then Ok tt else Throw e.

(** Run [f] over a list, left to right, stopping at the first error. *)
Fixpoint res_foldl {E A B} (f : A -> B -> res E A) (a : A) (bs : list B) : res E A :=
  match bs with
  | [] => Ok a
  | b :: bs' => a' ← f a b; res_foldl f a' bs'
  end.

Fixpoint res_mapM {E A B} (f : A -> res E B) (l : list A) : res E (list B) :=
  match l with
  | [] => Ok []
  | a :: l' => b ← f a; bs ← res_mapM f l'; Ok (b :: bs)
  end.

Definition is_some {A} (o : option A) : bool := match o with Some _ => true | None => false end.

Definition is_Ok {E A} (r : res E A) : Prop := exists a, r = Ok a.

(** ** Array slices

    [slice i j l] is [l.slice(i, j)] for [i <= j]; [splice_at i d items l] is what
    [l.splice(i, d, ...items)] leaves in the array: both clamp to the length. *)
Definition slice {A} (i j : nat) (l : list A) : list A := take (j - i) (drop i l).
Definition splice_at {A} (i d : nat) (items l : list A) : list A :=
  take i l ++ items ++ drop (i + d) l.

(** ** Tactics *)

(** Split every conjunction and existential of the context. *)
Ltac destr_all :=
  repeat match goal with
  | H : _ /\ _ |- _ => destruct H as [? ?]
  | H : exists _, _ |- _ => destruct H as [? ?]
  end.

(** Case analysis on the scrutinee of a match in a hypothesis or the goal. *)
Ltac case_res :=
  match goal with
  | H : context [match ?x with _ => _ end] |- _ => destruct x eqn:?; simplify_eq/=
  | |- context [match ?x with _ => _ end] => destruct x eqn:?; simplify_eq/=
  end.

(** Rewrite boolean tests of the context into propositions. *)
Ltac bool_to_prop :=
  repeat match goal with
  | H : _ && _ = true |- _ => apply andb_true_iff in H as [? ?]
  | H : Is_true _ |- _ => apply Is_true_eq_true in H
  | H : negb _ = true |- _ => apply negb_true_iff in H
  | H : negb _ = false |- _ => apply negb_false_iff in H
  | H : (_ =? _)%nat = true |- _ => apply Nat.eqb_eq in H
  | H : (_ =? _)%nat = false |- _ => apply Nat.eqb_neq in H
  | H : (_ <? _)%nat = true |- _ => apply Nat.ltb_lt in H
  | H : (_ <? _)%nat = false |- _ => apply Nat.ltb_ge in H
  | H : (_ <=? _)%nat = true |- _ => apply Nat.leb_le in H
  | H : (_ <=? _)%nat = false |- _ => apply Nat.leb_gt in H
  | H : (_ =? _)%N = true |- _ => apply N.eqb_eq in H
  | H : (_ =? _)%N = false |- _ => apply N.eqb_neq in H
  | H : (_ <? _)%N = true |- _ => apply N.ltb_lt in H
  | H : (_ <? _)%N = false |- _ => apply N.ltb_ge in H
  | H : (_ <=? _)%N = true |- _ => apply N.leb_le in H
  | H : (_ <=? _)%N = false |- _ => apply N.leb_gt in H
  | H : String.eqb _ _ = true |- _ => apply String.eqb_eq in H
  | H : String.eqb _ _ = false |- _ => apply String.eqb_neq in H
  | H : bool_decide _ = true |- _ => apply bool_decide_eq_true in H
  | H : bool_decide _ = false |- _ => apply bool_decide_eq_false in H
  end.

(** ** Lemmas on outcomes *)

Lemma res_bind_Ok {E A B} (m : res E A) (f : A -> res E B) b :
  m ≫= f = Ok b <-> exists a, m = Ok a /\ f a = Ok b.
Proof.
  destruct m as [a|e]; cbn; split.
  - intros H. by exists a.
  - intros (a' & [= <-] & H). done.
  - done.
  - by intros (a' & [=] & _).
Qed.

Lemma check_Ok {E} (b : bool) (e : E) u : check b e = Ok u <-> b = true.
Proof. destruct b, u; cbn; naive_solver. Qed.

Lemma res_of_Ok {E A} (d : E) (o : option A) a : res_of d o = Ok a <-> o = Some a.
Proof. destruct o; cbn; naive_solver. Qed.

Lemma res_foldl_app {E A B} (f : A -> B -> res E A) a bs bs' :
  res_foldl f a (bs ++ bs') = (a' ← res_foldl f a bs; res_foldl f a' bs').
Proof.
  revert a; induction bs as [|b bs IH]; intros a; [done|].
  cbn. destruct (f a b); cbn; [apply IH | done].
Qed.

Lemma res_foldl_app_Ok {E A B} (f : A -> B -> res E A) a bs bs' a' :
  res_foldl f a bs = Ok a' ->
  res_foldl f a (bs ++ bs') = res_foldl f a' bs'.
Proof. intros H. rewrite res_foldl_app, H. done. Qed.

Lemma res_mapM_Ok_fmap {E A B C} (f : A -> res E B) (g : C -> A) (h : C -> B) (l : list C) :
  (forall c, c ∈ l -> f (g c) = Ok (h c)) -> res_mapM f (g <$> l) = Ok (h <$> l).
Proof.
  induction l as [|c l IH]; intros Hl; [done|].
  cbn. rewrite (Hl c) by constructor. cbn.
  rewrite IH; [done|]. intros c' Hc'. apply Hl. by constructor.
Qed.

(** [inv_res]: read every successful bind of the context backwards. *)
Ltac inv_res :=
  repeat match goal with
  | H : _ ≫= _ = Ok _ |- _ =>
      let x := fresh "v" in let Hx := fresh "Hv" in
      apply res_bind_Ok in H; destruct H as (x & Hx & H); cbn in H
  | H : check _ _ = Ok _ |- _ => apply check_Ok in H
  | H : res_of _ _ = Ok _ |- _ => apply res_of_Ok in H
  | H : Ok _ = Ok _ |- _ => injection H as H; subst
  | H : Throw _ = Ok _ |- _ => discriminate H
  end.

(** ** Lemmas on slices *)

Lemma slice_length {A} i j (l : list A) :
  i <= j -> j <= length l -> length (slice i j l) = j - i.
Proof. intros. unfold slice. rewrite length_take, length_drop. lia. Qed.

Lemma slice_lookup {A} i j (l : list A) k :
  k < j - i -> slice i j l !! k = l !! (i + k).
Proof. intros. unfold slice. rewrite lookup_take_lt by lia. apply lookup_drop. Qed.

Lemma slice_split {A} i j k (l : list A) :
  i <= j -> j <= k -> slice i k l = slice i j l ++ slice j k l.
Proof.
  intros Hij Hjk. unfold slice.
  replace (drop j l) with (drop (j - i) (drop i l)) by (rewrite drop_drop; f_equal; lia).
  rewrite take_take_drop. f_equal. lia.
Qed.

Lemma slice_one {A} j x (l : list A) : l !! j = Some x -> slice j (S j) l = [x].
Proof.
  intros H. unfold slice. rewrite (drop_S _ _ _ H). by replace (S j - j) with 1 by lia.
Qed.

Lemma slice_full {A} (l : list A) : slice 0 (length l) l = l.
Proof. unfold slice. by rewrite Nat.sub_0_r, drop_0, take_ge. Qed.

Lemma slice_nil {A} i j (l : list A) : j <= i -> slice i j l = [].
Proof. intros. unfold slice. by replace (j - i) with 0 by lia. Qed.

Lemma sum_list_with_slice {A} (f : A -> nat) i j k m (l : list A) :
  (forall x, 1 <= f x) -> i <= j -> j <= k -> k <= m -> m <= length l ->
  sum_list_with f (slice j k l) + (j - i) + (m - k) <= sum_list_with f (slice i m l).
Proof.
  intros Hf Hij Hjk Hkm Hm.
  assert (Hge : forall l', length l' <= sum_list_with f l').
  { induction l' as [|x l' IH]; cbn; [lia|]. specialize (Hf x). lia. }
  rewrite (slice_split i j m), (slice_split j k m) by lia.
  rewrite !sum_list_with_app.
  pose proof (Hge (slice i j l)) as H1. pose proof (Hge (slice k m l)) as H2.
  rewrite slice_length in H1, H2 by lia. lia.
Qed.

Lemma splice_at_app {A} i (l items : list A) :
  i <= length l -> splice_at i 0 items l = take i l ++ items ++ drop i l.
Proof. intros. unfold splice_at. by rewrite Nat.add_0_r. Qed.

Lemma splice_at_nested {A} (i o : nat) (xs ys l : list A) :
  length xs = o ->
  splice_at (i + o) 0 ys (splice_at i 0 xs l) = splice_at i 0 (xs ++ ys) l.
Proof.
  intros Ho. unfold splice_at. rewrite !Nat.add_0_r. cbn.
  destruct (decide (i <= length l)) as [Hi|Hi].
  - assert (Hl : length (take i l ++ xs) = i + o).
    { rewrite length_app, length_take. lia. }
    rewrite (app_assoc (take i l) xs), take_app_length', drop_app_length' by done.
    by rewrite <- !app_assoc.
  - rewrite (take_ge l), (drop_ge l), !app_nil_r by lia.
    rewrite take_ge, drop_ge by (rewrite length_app; lia).
    by rewrite !app_nil_r, <- app_assoc.
Qed.

Lemma rev_reverse {A} (l : list A) : rev l = reverse l.
Proof. apply List.rev_alt. Qed.

Lemma fmap_rev {A B} (f : A -> B) l : f <$> rev l = rev (f <$> l).
Proof. induction l as [|x l IH]; [done|]. cbn. by rewrite fmap_app, IH. Qed.

Create Rewrite HintDb list_length.
#[export] Hint Rewrite @length_app @length_take @length_drop @length_fmap
  @length_insert @length_replicate @length_seq : list_length.
