(* ===== verification/JsString.v ===== *)
(** JavaScript strings and the number formats the code prints.

    A string is a Rocq [string]: a sequence of code units (the units 0 to 255).
    This file holds the slices and searches [chord/src/delta] performs on strings,
    the decimal form [String(n)] of a JSON number, and [JSON.stringify] of a path,
    with the injectivity that lets the encoder use that text as a map key. *)
From S2P Require Import Prelude.
From Stdlib Require Import Ascii.

(** ** Slices *)

(** [s.slice(n)] and [s.slice(0, n)]. *)
Fixpoint str_drop (n : nat) (s : string) : string :=
  match n, s with
  | 0, _ => s
  | S n', String _ s' => str_drop n' s'
  | S _, EmptyString => ""
  end.

Fixpoint str_take (n : nat) (s : string) : string :=
  match n, s with
  | S n', String c s' => String c (str_take n' s')
  | _, _ => ""
  end.

(** [text.indexOf(head, from)]; [None] is the result -1. *)
Definition str_indexOf (text head : string) (from : nat) : option nat :=
  String.index from head text.

(** ** Characters of a text *)

Fixpoint str_Forall (P : ascii -> Prop) (s : string) : Prop :=
  match s with
  | EmptyString => True
  | String c s' => P c /\ str_Forall P s'
  end.

Definition starts_not (P : ascii -> Prop) (s : string) : Prop :=
  match s with EmptyString => True | String c _ => ~ P c end.

(** ** Decimal numbers

    A finite double is given by the decimal that [Number::toString] prints for it:
    [Dec s e] is [s * 10 ^ e] with [s] the shortest digits (no trailing zero), and
    [NegZero] is the double -0. *)
Inductive num : Type :=
| Dec (s e : Z)
| NegZero.

Definition num_canonical (n : num) : bool :=
  match n with
  | NegZero => true
  | Dec s e => if (s =? 0)%Z then (e =? 0)%Z else negb (s mod 10 =? 0)%Z
  end.

(** [===] on numbers: -0 and 0 are equal. *)
Definition num_norm (n : num) : Z * Z :=
  match n with NegZero => (0, 0)%Z | Dec s e => (s, e) end.

Definition num_eqb (n m : num) : bool :=
  (fst (num_norm n) =? fst (num_norm m))%Z && (snd (num_norm n) =? snd (num_norm m))%Z.

Fixpoint zeros (n : nat) : string :=
  match n with 0 => "" | S n' => String "0" (zeros n') end.

(** [Number::toString] on the digits [ds] of the significand, [k] of them, and [n] with the
    value being [0.ds * 10 ^ n]. *)
Definition format_exponent (e : Z) : string :=
  "e" +:+ (if (e <? 0)%Z then "-" else "+") +:+ pretty (Z.to_N (Z.abs e)).

Definition format_digits (ds : string) (n : Z) : string :=
  let k := Z.of_nat (String.length ds) in
  if ((k <=? n) && (n <=? 21))%Z then ds +:+ zeros (Z.to_nat (n - k))
  else if ((0 <? n) && (n <=? 21))%Z then
    str_take (Z.to_nat n) ds +:+ "." +:+ str_drop (Z.to_nat n) ds
  else if ((-6 <? n) && (n <=? 0))%Z then "0." +:+ zeros (Z.to_nat (- n)) +:+ ds
  else match ds with
       | String d EmptyString => ds +:+ format_exponent (n - 1)
       | String d rest => String d ("." +:+ rest +:+ format_exponent (n - 1))
       | EmptyString => ""
       end.

(** [String(value)]. *)
Definition num_to_string (v : num) : string :=
  match v with
  | NegZero => "0"
  | Dec s e =>
      if (s =? 0)%Z then "0"
      else
        let ds := pretty (Z.to_N (Z.abs s)) in
        (if (s <? 0)%Z then "-" else "")
          +:+ format_digits ds (Z.of_nat (String.length ds) + e)
  end.

(** The number whose value is the natural number [n]. *)
Fixpoint strip10 (fuel : nat) (s : N) (e : nat) : N * nat :=
  match fuel with
  | 0 => (s, e)
  | S fuel' =>
      if (s =? 0)%N then (s, e)
      else if (s mod 10 =? 0)%N then strip10 fuel' (s / 10)%N (S e) else (s, e)
  end.

Definition num_of_N (n : N) : num :=
  let '(s, e) := strip10 (N.size_nat n) n 0 in Dec (Z.of_N s) (Z.of_nat e).

(** [Number.isInteger(v)] with the integer it is; -0 counts as 0. *)
Definition num_to_Z (v : num) : option Z :=
  match v with
  | NegZero => Some 0%Z
  | Dec s e =>
      if (0 <=? e)%Z then Some (s * 10 ^ e)%Z
      else if (s mod 10 ^ (- e) =? 0)%Z then Some (s / 10 ^ (- e))%Z else None
  end.

(** [Number.isInteger(v) && v >= 0]. *)
Definition num_to_N (v : num) : option N :=
  match num_to_Z v with
  | Some z => if (0 <=? z)%Z then Some (Z.to_N z) else None
  | None => None
  end.

(** The property key a non-negative integer is, [String(n)]. *)
Definition int_to_string (n : N) : string := num_to_string (num_of_N n).

(** ** [JSON.stringify] of a string *)

Definition hex_digit (n : nat) : ascii :=
  ascii_of_nat (if (n <? 10)%nat then 48 + n else 87 + n).

Definition json_escape (c : ascii) : string :=
  let n := nat_of_ascii c in
  let bs := ascii_of_nat 92 in
  if (n =? 34)%nat then String bs (String c "")
  else if (n =? 92)%nat then String bs (String c "")
  else if (n =? 8)%nat then String bs "b"
  else if (n =? 9)%nat then String bs "t"
  else if (n =? 10)%nat then String bs "n"
  else if (n =? 12)%nat then String bs "f"
  else if (n =? 13)%nat then String bs "r"
  else if (n <? 32)%nat then
    String bs ("u00" +:+ String (hex_digit (n / 16)) (String (hex_digit (n mod 16)) ""))
  else String c "".

Fixpoint json_escape_all (s : string) : string :=
  match s with
  | EmptyString => ""
  | String c s' => json_escape c +:+ json_escape_all s'
  end.

Definition dquote : ascii := ascii_of_nat 34.

Definition json_quote (s : string) : string :=
  String dquote (json_escape_all s +:+ String dquote "").

(** ** Lemmas on slices *)

Lemma str_app_assoc (a b c : string) : (a +:+ b) +:+ c = a +:+ (b +:+ c).
Proof. induction a; cbn; [done | by f_equal]. Qed.

Lemma str_app_nil_r (a : string) : a +:+ "" = a.
Proof. induction a; cbn; [done | by f_equal]. Qed.

Lemma str_length_app (a b : string) :
  String.length (a +:+ b) = String.length a + String.length b.
Proof. induction a; cbn; [done | by f_equal]. Qed.

Lemma str_take_drop n (s : string) : str_take n s +:+ str_drop n s = s.
Proof. revert s; induction n; intros [|c s]; cbn; [done..|]. by f_equal. Qed.

Lemma str_drop_0 (s : string) : str_drop 0 s = s.
Proof. by destruct s. Qed.

Lemma str_drop_drop i j (s : string) : str_drop i (str_drop j s) = str_drop (j + i) s.
Proof.
  revert s; induction j as [|j IH]; intros [|c s]; cbn; [done..| |apply IH].
  by destruct i.
Qed.

Lemma str_drop_length n (s : string) : String.length (str_drop n s) = String.length s - n.
Proof. revert s; induction n; intros [|c s]; cbn; try done; apply IHn. Qed.

Lemma str_drop_ge n (s : string) : String.length s <= n -> str_drop n s = "".
Proof. revert s; induction n; intros [|c s]; cbn; intros; try done; [lia|]. apply IHn. lia. Qed.

Lemma str_app_inj_r (a b c : string) : a +:+ b = a +:+ c -> b = c.
Proof. induction a; cbn; [done|]. intros [= H]. auto. Qed.

(** ** Cutting a text at a character class *)

Lemma str_Forall_app P a b : str_Forall P (a +:+ b) <-> str_Forall P a /\ str_Forall P b.
Proof. induction a as [|c a IH]; cbn; [tauto|]. rewrite IH. tauto. Qed.

Lemma str_Forall_impl (P Q : ascii -> Prop) s :
  (forall c, P c -> Q c) -> str_Forall P s -> str_Forall Q s.
Proof. intros H. induction s as [|c s IH]; cbn; [done|]. intros [Hc Hs]. auto. Qed.

(** Two texts that agree up to where a character class ends agree on both sides. *)
Lemma str_cut (P : ascii -> Prop) a1 a2 r1 r2 :
  str_Forall P a1 -> str_Forall P a2 -> starts_not P r1 -> starts_not P r2 ->
  a1 +:+ r1 = a2 +:+ r2 -> a1 = a2 /\ r1 = r2.
Proof.
  revert a2; induction a1 as [|c a1 IH]; intros [|d a2]; cbn.
  - done.
  - intros _ [Hd _] H1 _ ->. cbn in H1. done.
  - intros [Hc _] _ _ H2 <-. cbn in H2. done.
  - intros [Hc Ha1] [Hd Ha2] H1 H2 [= -> H].
    destruct (IH a2) as [-> ->]; done.
Qed.

(** ** Digits *)

Definition is_digit (c : ascii) : Prop := 48 <= nat_of_ascii c <= 57.

(** The value a digit string denotes. *)
Definition digit_val (c : ascii) : N := N.of_nat (nat_of_ascii c - 48).

Fixpoint digits_val_acc (acc : N) (s : string) : N :=
  match s with
  | EmptyString => acc
  | String c s' => digits_val_acc (acc * 10 + digit_val c) s'
  end.

Lemma pretty_N_char_digit (x : N) :
  (x < 10)%N -> is_digit (pretty_N_char x) /\ digit_val (pretty_N_char x) = x.
Proof.
  intros H.
  assert (x = 0 \/ x = 1 \/ x = 2 \/ x = 3 \/ x = 4 \/ x = 5 \/ x = 6 \/ x = 7 \/ x = 8 \/ x = 9)%N
    as Hx by lia.
  unfold is_digit.
  repeat (destruct Hx as [->|Hx]; [split; [split; by apply Nat.leb_le|reflexivity]|]).
  subst. split; [split; by apply Nat.leb_le|reflexivity].
Qed.

Lemma pretty_N_go_length (x : N) (s : string) :
  String.length (pretty_N_go x s) = String.length (pretty_N_go x "") + String.length s.
Proof.
  revert s; induction (N.lt_wf_0 x) as [x _ IH]; intros s.
  destruct (decide (x = 0)%N) as [->|Hx]; [done|].
  rewrite (pretty_N_go_step x s), (pretty_N_go_step x "") by lia.
  assert (x / 10 < x)%N by (apply N.div_lt; lia).
  rewrite (IH (x / 10)%N) by done.
  rewrite (IH (x / 10)%N ltac:(done) (String _ "")).
  cbn. lia.
Qed.

Lemma pretty_N_go_digits (x : N) (s : string) :
  str_Forall is_digit s -> str_Forall is_digit (pretty_N_go x s).
Proof.
  revert s; induction (N.lt_wf_0 x) as [x _ IH]; intros s Hs.
  destruct (decide (x = 0)%N) as [->|Hx]; [done|].
  rewrite (pretty_N_go_step x s) by lia.
  apply IH; [apply N.div_lt; lia|]. cbn. split; [|done].
  apply pretty_N_char_digit, N.mod_lt. lia.
Qed.

Lemma pretty_digits (x : N) : str_Forall is_digit (pretty x).
Proof.
  unfold pretty, pretty_N. case_decide; [repeat split; by apply Nat.leb_le|].
  by apply pretty_N_go_digits.
Qed.

Lemma pretty_N_go_val (x : N) (s : string) acc :
  digits_val_acc acc (pretty_N_go x s)
  = digits_val_acc (acc * 10 ^ N.of_nat (String.length (pretty_N_go x "")) + x) s.
Proof.
  revert s acc. induction (N.lt_wf_0 x) as [x _ IH]. intros s acc.
  destruct (decide (x = 0)%N) as [->|Hx].
  { rewrite !pretty_N_go_0. cbn. f_equal. lia. }
  rewrite (pretty_N_go_step x s), (pretty_N_go_step x "") by lia.
  assert (Hm : (x mod 10 < 10)%N) by (apply N.mod_lt; lia).
  destruct (pretty_N_char_digit _ Hm) as [_ Hd].
  assert (Hdm := N.div_mod x 10 ltac:(lia)).
  rewrite IH by (apply N.div_lt; lia). cbn [digits_val_acc]. rewrite Hd.
  f_equal. rewrite (pretty_N_go_length _ (String _ "")). cbn [String.length].
  rewrite Nat.add_1_r, Nat2N.inj_succ, N.pow_succ_r'. nia.
Qed.

Lemma digits_val_pretty (x : N) acc :
  digits_val_acc acc (pretty x) = (acc * 10 ^ N.of_nat (String.length (pretty x)) + x)%N.
Proof.
  unfold pretty, pretty_N. case_decide as H.
  - subst. cbn [digits_val_acc]. change (digit_val "0") with 0%N.
    change (10 ^ N.of_nat (String.length "0"))%N with 10%N. lia.
  - by rewrite pretty_N_go_val.
Qed.

Lemma digits_val_app (a b : string) acc :
  digits_val_acc acc (a +:+ b) = digits_val_acc (digits_val_acc acc a) b.
Proof. revert acc; induction a; intros acc; cbn; auto. Qed.

Lemma digits_val_zeros n acc : digits_val_acc acc (zeros n) = (acc * 10 ^ N.of_nat n)%N.
Proof.
  revert acc; induction n as [|n IH]; intros acc; cbn [zeros digits_val_acc].
  - cbn. lia.
  - rewrite IH. change (digit_val "0") with 0%N. rewrite Nat2N.inj_succ, N.pow_succ_r'. lia.
Qed.

Lemma zeros_digits n : str_Forall is_digit (zeros n).
Proof. induction n; cbn; [done|]. split; [split; by apply Nat.leb_le|done]. Qed.

(** ** The decimal of a natural number *)

Lemma strip10_value fuel s e s' e' :
  strip10 fuel s e = (s', e') -> (s' * 10 ^ N.of_nat e' = s * 10 ^ N.of_nat e)%N.
Proof.
  revert s e; induction fuel as [|fuel IH]; intros s e; cbn; [by intros [= -> ->]|].
  destruct (s =? 0)%N; [by intros [= -> ->]|].
  destruct (s mod 10 =? 0)%N eqn:Hm; [|by intros [= -> ->]].
  intros ->%IH. apply N.eqb_eq in Hm.
  rewrite Nat2N.inj_succ, N.pow_succ_r'.
  pose proof (N.div_mod s 10 ltac:(lia)) as Hd. rewrite Hm in Hd. nia.
Qed.

Lemma strip10_canonical fuel s e s' e' :
  (s < 2 ^ N.of_nat fuel)%N -> (s = 0%N -> e = 0) -> strip10 fuel s e = (s', e') ->
  num_canonical (Dec (Z.of_N s') (Z.of_nat e')) = true.
Proof.
  revert s e; induction fuel as [|fuel IH]; intros s e Hs Hz; cbn [strip10].
  - intros [= -> ->]. assert (s' = 0)%N as -> by (cbn in Hs; lia). by rewrite Hz.
  - destruct (s =? 0)%N eqn:H0.
    { intros [= -> ->]. apply N.eqb_eq in H0 as ->. by rewrite Hz. }
    apply N.eqb_neq in H0. pose proof (N.div_mod s 10 ltac:(lia)) as Hd.
    destruct (s mod 10 =? 0)%N eqn:Hm.
    + apply N.eqb_eq in Hm. apply IH.
      * rewrite Nat2N.inj_succ, N.pow_succ_r' in Hs. rewrite Hm in Hd. lia.
      * intros Hq. rewrite Hm, Hq in Hd. lia.
    + intros [= -> ->]. apply N.eqb_neq in Hm. cbn.
      rewrite (proj2 (Z.eqb_neq _ _)) by lia.
      apply negb_true_iff, Z.eqb_neq.
      change 10%Z with (Z.of_N 10). rewrite <- N2Z.inj_mod. lia.
Qed.

Lemma num_of_N_canonical n : num_canonical (num_of_N n) = true.
Proof.
  unfold num_of_N. destruct (strip10 _ _ _) as [s e] eqn:H.
  eapply strip10_canonical, H; [|done].
  destruct n as [|p]; [cbn; lia|]. cbn [N.size_nat].
  clear H. induction p as [p IH|p IH|]; cbn [Pos.size_nat];
    rewrite ?Nat2N.inj_succ, ?N.pow_succ_r'; lia.
Qed.

Lemma num_to_N_of_N n : num_to_N (num_of_N n) = Some n.
Proof.
  unfold num_to_N, num_to_Z, num_of_N. destruct (strip10 _ _ _) as [s e] eqn:H.
  apply strip10_value in H. cbn in H.
  rewrite (proj2 (Z.leb_le 0 (Z.of_nat e))) by lia.
  replace (Z.of_N s * 10 ^ Z.of_nat e)%Z with (Z.of_N n).
  - rewrite (proj2 (Z.leb_le 0 _)) by lia. by rewrite N2Z.id.
  - transitivity (Z.of_N (s * 10 ^ N.of_nat e)); [by rewrite H, N.mul_1_r|].
    rewrite N2Z.inj_mul, N2Z.inj_pow. by rewrite nat_N_Z.
Qed.

(** Reading [String(n)] back: a device for the injectivity below. *)
Fixpoint cut_e (s : string) : string * option string :=
  match s with
  | EmptyString => ("", None)
  | String c s' =>
      if decide (c = "e"%char) then ("", Some s')
      else let '(a, r) := cut_e s' in (String c a, r)
  end.

Fixpoint drop_dots (s : string) : string :=
  match s with
  | EmptyString => ""
  | String c s' => if decide (c = "."%char) then drop_dots s' else String c (drop_dots s')
  end.

Definition int_of_string (t : string) : N :=
  match cut_e t with
  | (m, None) => digits_val_acc 0 m
  | (m, Some x) =>
      let ds := drop_dots m in
      (digits_val_acc 0 ds * 10 ^ (digits_val_acc 0 (str_drop 1 x) - (N.of_nat (String.length ds) - 1)))%N
  end.

Lemma is_digit_not_e c : is_digit c -> c <> "e"%char.
Proof. unfold is_digit. intros [_ H] ->. apply Nat.leb_le in H. by vm_compute in H. Qed.
Lemma is_digit_not_dot c : is_digit c -> c <> "."%char.
Proof. unfold is_digit. intros [H _] ->. apply Nat.leb_le in H. by vm_compute in H. Qed.

Lemma cut_e_cons c s :
  c <> "e"%char -> cut_e (String c s) = let '(a, r) := cut_e s in (String c a, r).
Proof. intros H. cbn. by rewrite decide_False. Qed.

Lemma cut_e_digits s r :
  str_Forall is_digit s -> cut_e (s +:+ String "e" r) = (s, Some r) /\ cut_e s = (s, None).
Proof.
  induction s as [|c s IH]; [done|]. intros [Hc Hs].
  destruct (IH Hs) as [H1 H2]. cbn.
  rewrite !decide_False by (by apply is_digit_not_e). by rewrite H1, H2.
Qed.

Lemma drop_dots_digits s : str_Forall is_digit s -> drop_dots s = s.
Proof.
  induction s as [|c s IH]; [done|]. intros [Hc Hs]. cbn.
  rewrite decide_False by (by apply is_digit_not_dot). by rewrite IH.
Qed.

Lemma int_of_string_exponent d rest s k :
  pretty s = String d rest ->
  int_of_string
    (match rest with
     | EmptyString => String d "" +:+ "e+" +:+ pretty (N.of_nat (String.length (pretty s)) + k - 1)%N
     | _ => String d ("." +:+ rest +:+ "e+" +:+ pretty (N.of_nat (String.length (pretty s)) + k - 1)%N)
     end) = (s * 10 ^ k)%N.
Proof.
  intros Hp. pose proof (pretty_digits s) as Hd. rewrite Hp in Hd. destruct Hd as [Hd Hr].
  pose proof (digits_val_pretty s 0) as Hv. rewrite N.mul_0_l, N.add_0_l, Hp in Hv.
  rewrite Hp. cbn [String.length].
  set (E := (N.of_nat (S (String.length rest)) + k - 1)%N).
  destruct rest as [|c rest].
  - unfold int_of_string. cbn. rewrite decide_False by (by apply is_digit_not_e).
    rewrite (decide_True (P:="e"%char = "e"%char)) by done.
    cbn. rewrite decide_False by (by apply is_digit_not_dot). cbn in Hv |- *.
    rewrite Hv, digits_val_pretty. f_equal. f_equal. unfold E. cbn. lia.
  - remember (String c rest) as rs eqn:Hrs. clear Hrs. unfold int_of_string.
    change (String d ("." +:+ rs +:+ "e+" +:+ pretty E))
      with (String d (String "." (rs +:+ String "e" (String "+" (pretty E))))).
    rewrite !cut_e_cons by first [done | by apply is_digit_not_e].
    destruct (cut_e_digits rs (String "+" (pretty E)) Hr) as [-> _].
    cbn [drop_dots]. rewrite decide_False by (by apply is_digit_not_dot).
    rewrite decide_True by done. rewrite (drop_dots_digits _ Hr), Hv.
    cbn [str_drop String.length]. rewrite ?str_drop_0, digits_val_pretty. f_equal. f_equal.
    unfold E. lia.
Qed.

Lemma format_exponent_nonneg (n : N) (z : Z) :
  z = Z.of_N n -> format_exponent z = "e+" +:+ pretty n.
Proof.
  intros ->. unfold format_exponent. rewrite (proj2 (Z.ltb_ge (Z.of_N n) 0)) by lia.
  by rewrite Z.abs_eq, N2Z.id by lia.
Qed.

Lemma int_of_to_string n : int_of_string (int_to_string n) = n.
Proof.
  unfold int_to_string, num_of_N. destruct (strip10 _ _ _) as [s e] eqn:H.
  apply strip10_value in H. cbn in H. rewrite N.mul_1_r in H. unfold num_to_string.
  destruct (Z.of_N s =? 0)%Z eqn:H0.
  { apply Z.eqb_eq in H0. assert (s = 0)%N as -> by lia. by rewrite <- H. }
  apply Z.eqb_neq in H0. rewrite (proj2 (Z.ltb_ge (Z.of_N s) 0)) by lia.
  rewrite Z.abs_eq, N2Z.id by lia. cbn [String.append].
  change (?x +:+ ?y) with y. unfold format_digits.
  set (k := Z.of_nat (String.length (pretty s))).
  rewrite (proj2 (Z.leb_le k (k + Z.of_nat e))) by lia. cbn [andb].
  destruct (k + Z.of_nat e <=? 21)%Z eqn:H21.
  { replace (k + Z.of_nat e - k)%Z with (Z.of_nat e) by lia. rewrite Nat2Z.id.
    unfold int_of_string.
    destruct (cut_e_digits (pretty s +:+ zeros e) "") as [_ ->].
    { apply str_Forall_app. auto using pretty_digits, zeros_digits. }
    by rewrite digits_val_app, digits_val_pretty, digits_val_zeros, N.mul_0_l, N.add_0_l. }
  rewrite andb_false_r. apply Z.leb_gt in H21.
  rewrite (proj2 (Z.leb_gt (k + Z.of_nat e) 0)), andb_false_r by lia.
  destruct (pretty s) as [|d rest] eqn:Hp.
  { exfalso. pose proof (digits_val_pretty s 0) as Hv. rewrite Hp in Hv. cbn in Hv. lia. }
  rewrite <- H, <- (int_of_string_exponent d rest s (N.of_nat e) Hp). f_equal.
  rewrite (format_exponent_nonneg (N.of_nat (String.length (pretty s)) + N.of_nat e - 1))
    by (unfold k; rewrite Hp; cbn [String.length]; lia).
  by destruct rest.
Qed.

Lemma int_to_string_inj n m : int_to_string n = int_to_string m -> n = m.
Proof. intros H. rewrite <- (int_of_to_string n), <- (int_of_to_string m). by rewrite H. Qed.

(** ** Injectivity of [JSON.stringify] on strings *)

Definition json_unescape (s : string) : option (ascii * string) :=
  match s with
  | EmptyString => None
  | String c s' =>
      if (nat_of_ascii c =? 34)%nat then None
      else if (nat_of_ascii c =? 92)%nat then
        match s' with
        | String "b" r => Some (ascii_of_nat 8, r)
        | String "t" r => Some (ascii_of_nat 9, r)
        | String "n" r => Some (ascii_of_nat 10, r)
        | String "f" r => Some (ascii_of_nat 12, r)
        | String "r" r => Some (ascii_of_nat 13, r)
        | String "u" (String _ (String _ (String h (String l r)))) =>
            let v (x : ascii) := let n := nat_of_ascii x in if (n <? 58)%nat then n - 48 else n - 87 in
            Some (ascii_of_nat (16 * v h + v l), r)
        | String d r => Some (d, r)
        | EmptyString => None
        end
      else Some (c, s')
  end.

Lemma json_unescape_escape c s : json_unescape (json_escape c +:+ s) = Some (c, s).
Proof. destruct c as [[] [] [] [] [] [] [] []]; reflexivity. Qed.

Lemma json_quote_cut s1 s2 r1 r2 :
  json_quote s1 +:+ r1 = json_quote s2 +:+ r2 -> s1 = s2 /\ r1 = r2.
Proof.
  assert (Hq : forall r, json_unescape (String dquote r) = None) by done.
  unfold json_quote. cbn. intros [= H]. rewrite !str_app_assoc in H. cbn in H.
  revert s2 H; induction s1 as [|c1 s1 IH]; intros [|c2 s2]; cbn; intros H.
  - by injection H as ->.
  - rewrite str_app_assoc in H. apply (f_equal json_unescape) in H.
    rewrite Hq, json_unescape_escape in H. done.
  - rewrite str_app_assoc in H. apply (f_equal json_unescape) in H.
    rewrite Hq, json_unescape_escape in H. done.
  - rewrite !str_app_assoc in H. apply (f_equal json_unescape) in H.
    rewrite !json_unescape_escape in H. injection H as -> H.
    destruct (IH s2 H) as [-> ->]. done.
Qed.

(** ** The characters of [String(n)] *)

Definition is_num_char (c : ascii) : Prop :=
  is_digit c \/ c = "."%char \/ c = "e"%char \/ c = "+"%char.

Lemma digits_num_chars s : str_Forall is_digit s -> str_Forall is_num_char s.
Proof. apply str_Forall_impl. by left. Qed.

Lemma int_to_string_chars n : str_Forall is_num_char (int_to_string n).
Proof.
  unfold int_to_string, num_of_N. destruct (strip10 _ _ _) as [s e]. unfold num_to_string.
  destruct (Z.of_N s =? 0)%Z eqn:H0; [by apply digits_num_chars; apply (pretty_digits 0)|].
  apply Z.eqb_neq in H0. rewrite (proj2 (Z.ltb_ge (Z.of_N s) 0)) by lia.
  rewrite Z.abs_eq, N2Z.id by lia. cbn [String.append].
  change (?x +:+ ?y) with y. unfold format_digits.
  pose proof (digits_num_chars _ (pretty_digits s)) as Hd.
  set (k := Z.of_nat (String.length (pretty s))).
  rewrite (proj2 (Z.leb_le k (k + Z.of_nat e))) by lia. cbn [andb].
  destruct (k + Z.of_nat e <=? 21)%Z eqn:H21.
  { apply str_Forall_app. auto using digits_num_chars, zeros_digits. }
  rewrite andb_false_r. apply Z.leb_gt in H21.
  rewrite (proj2 (Z.leb_gt (k + Z.of_nat e) 0)), andb_false_r by lia.
  destruct (pretty s) as [|d rest] eqn:Hp; [done|].
  rewrite (format_exponent_nonneg (Z.to_N (k + Z.of_nat e - 1))) by lia.
  destruct Hd as [Hd Hr]. unfold is_num_char in *.
  destruct rest; cbn; rewrite ?str_Forall_app; cbn; rewrite ?str_Forall_app;
    repeat split; auto using digits_num_chars, pretty_digits; try apply Hr;
    by apply digits_num_chars, pretty_digits.
Qed.

Lemma int_to_string_nonempty n : int_to_string n <> "".
Proof.
  intros H. pose proof (int_of_to_string n) as Hn. rewrite H in Hn. cbn in Hn. subst.
  by vm_compute in H.
Qed.
