(* ===== verification/Json.v ===== *)
(** JSON values as the program holds them.

    A container carries the identity of the JavaScript object it is: two containers
    of two revisions with the same identity are one object. [None] is an object no
    other value under consideration shares. [===] compares identities, [equalJson]
    (chord/src/delta/diff.ts) compares contents, and [doc] is the content itself:
    the document, with an object as a finite map. *)
From S2P Require Import Prelude JsString.

Unset Elimination Schemes.
Inductive json : Type :=
| JNull
| JBool (b : bool)
| JNum (n : num)
| JStr (s : string)
| JArr (id : option N) (items : list json)
| JObj (id : option N) (fields : list (string * json)).
Set Elimination Schemes.

#[export] Instance json_inhabited : Inhabited json := populate JNull.

(** A container just created by the code. *)
Abbreviation jarr := (JArr None).
Abbreviation jobj := (JObj None).

(** ** Own properties of an object

    The fields are listed in the order of [Object.keys]: array-index keys first, in
    ascending order, then the other keys in the order they were created. *)

(** The keys [Object.keys] lists first, with the index they are. *)
Definition is_digitb (c : Ascii.ascii) : bool :=
  (48 <=? Ascii.nat_of_ascii c)%nat && (Ascii.nat_of_ascii c <=? 57)%nat.

Fixpoint all_digits (s : string) : bool :=
  match s with
  | EmptyString => true
  | String c s' => is_digitb c && all_digits s'
  end.

Definition array_index_key (s : string) : option N :=
  match s with
  | EmptyString => None
  | String c rest =>
      if negb (all_digits s) || ((Ascii.nat_of_ascii c =? 48)%nat && negb (String.eqb rest "")) then None
      else
        let n := digits_val_acc 0 s in
        if (n <? 4294967295)%N then Some n else None
  end.

Section Fields.
Context {A : Type}.
Implicit Types (k : string) (v : A) (fs : list (string * A)).

(** [Object.hasOwn(o, k) ? o[k] : undefined]. *)
Fixpoint obj_get k fs : option A :=
  match fs with
  | [] => None
  | (k', v) :: fs' => if String.eqb k k' then Some v else obj_get k fs'
  end.

(** [Object.keys(o)]. *)
Definition obj_keys fs : list string := fs.*1.

(** Overwrite the property [k] where it is. *)
Fixpoint obj_update k v fs : list (string * A) :=
  match fs with
  | [] => []
  | (k', v') :: fs' =>
      if String.eqb k k' then (k', v) :: fs' else (k', v') :: obj_update k v fs'
  end.

(** Create the array-index key [k], of index [n], among the ascending ones. *)
Fixpoint obj_insert_index (n : N) k v fs : list (string * A) :=
  match fs with
  | [] => [(k, v)]
  | (k', v') :: fs' =>
      match array_index_key k' with
      | Some m => if (m <? n)%N then (k', v') :: obj_insert_index n k v fs' else (k, v) :: fs
      | None => (k, v) :: fs
      end
  end.

(** Define the data property [k] of an object: [Object.defineProperty(o, k, {value, ...})]. *)
Definition obj_set k v fs : list (string * A) :=
  match obj_get k fs with
  | Some _ => obj_update k v fs
  | None =>
      match array_index_key k with
      | Some n => obj_insert_index n k v fs
      | None => fs ++ [(k, v)]
      end
  end.

(** [delete o[k]]. *)
Fixpoint obj_delete k fs : list (string * A) :=
  match fs with
  | [] => []
  | (k', v) :: fs' => if String.eqb k k' then fs' else (k', v) :: obj_delete k fs'
  end.
End Fields.

(** ** Equality *)

(** [left === right]: primitives by value, containers by identity. *)
Definition same_id (i j : option N) : bool :=
  match i, j with Some i, Some j => (i =? j)%N | _, _ => false end.

Definition strict_eq (left right : json) : bool :=
  match left, right with
  | JNull, JNull => true
  | JBool a, JBool b => Bool.eqb a b
  | JNum a, JNum b => num_eqb a b
  | JStr a, JStr b => String.eqb a b
  | JArr i _, JArr j _ => same_id i j
  | JObj i _, JObj j _ => same_id i j
  | _, _ => false
  end.

(** [equalJson] of chord/src/delta/diff.ts. *)
Fixpoint equalJson (left right : json) {struct left} : bool :=
  strict_eq left right ||
  match left, right with
  | JArr _ xs, JArr _ ys =>
      (length xs =? length ys)%nat &&
      (fix go xs ys :=
         match xs, ys with
         | x :: xs', y :: ys' => equalJson x y && go xs' ys'
         | _, _ => true
         end) xs ys
  | JObj _ fs, JObj _ gs =>
      (length (obj_keys fs) =? length (obj_keys gs))%nat &&
      (fix go fs :=
         match fs with
         | [] => true
         | (k, v) :: fs' =>
             match obj_get k gs with
             | Some w => equalJson v w
             | None => false
             end && go fs'
         end) fs
  | _, _ => false
  end.

(** ** Contents *)

(** A JSON document: what is left of a value when identities, the order of the keys
    and the sign of zero are forgotten. *)
Unset Elimination Schemes.
Inductive doc : Type :=
| DNull
| DBool (b : bool)
| DNum (s e : Z)
| DStr (s : string)
| DArr (items : list doc)
| DObj (fields : gmap string doc).
Set Elimination Schemes.

Fixpoint doc_of (v : json) : doc :=
  match v with
  | JNull => DNull
  | JBool b => DBool b
  | JNum n => DNum (num_norm n).1 (num_norm n).2
  | JStr s => DStr s
  | JArr _ xs => DArr (map doc_of xs)
  | JObj _ fs => DObj (list_to_map (map (fun kv => (kv.1, doc_of kv.2)) fs))
  end.

(** A strict JSON value: canonical numbers, every key once. *)
Fixpoint json_wf (v : json) : bool :=
  match v with
  | JNull | JBool _ | JStr _ => true
  | JNum n => num_canonical n
  | JArr _ xs => forallb json_wf xs
  | JObj _ fs =>
      bool_decide (NoDup (obj_keys fs)) && forallb (fun kv => json_wf kv.2) fs
  end.

(** Every container of [v] with an identity is the object [h] has there. Two values that
    are in one [h] are two views of one store: an identity they share has one content. *)
Fixpoint in_store (h : N -> json) (v : json) : Prop :=
  match v with
  | JArr i xs =>
      match i with Some n => h n = JArr i xs | None => True end /\ foldr (fun x P => in_store h x /\ P) True xs
  | JObj i fs =>
      match i with Some n => h n = JObj i fs | None => True end /\ foldr (fun kv P => in_store h kv.2 /\ P) True fs
  | _ => True
  end.

(** The number of values in [v]; the recursion of the code is bounded by it. *)
Fixpoint json_size (v : json) : nat :=
  match v with
  | JArr _ xs => S (sum_list_with json_size xs)
  | JObj _ fs => S (sum_list_with (fun kv => json_size kv.2) fs)
  | _ => 1
  end.

(** ** Induction *)

Section JsonInd.
Context (P : json -> Prop).
Context (Hnull : P JNull) (Hbool : forall b, P (JBool b)) (Hnum : forall n, P (JNum n))
  (Hstr : forall s, P (JStr s))
  (Harr : forall i xs, Forall P xs -> P (JArr i xs))
  (Hobj : forall i fs, Forall (fun kv => P kv.2) fs -> P (JObj i fs)).

Fixpoint json_ind (v : json) : P v :=
  match v with
  | JNull => Hnull
  | JBool b => Hbool b
  | JNum n => Hnum n
  | JStr s => Hstr s
  | JArr i xs => Harr i xs
      ((fix go l : Forall P l :=
          match l with [] => Forall_nil_2 _ | x :: l' => Forall_cons_2 _ _ _ (json_ind x) (go l') end) xs)
  | JObj i fs => Hobj i fs
      ((fix go l : Forall (fun kv => P kv.2) l :=
          match l with [] => Forall_nil_2 _ | kv :: l' => Forall_cons_2 _ _ _ (json_ind kv.2) (go l') end) fs)
  end.
End JsonInd.

(** ** Lemmas on own properties *)

Section FieldFacts.
Context {A : Type}.
Implicit Types (k : string) (v : A) (fs : list (string * A)).

Lemma obj_get_map k fs : (list_to_map fs : gmap string A) !! k = obj_get k fs.
Proof.
  induction fs as [|[k' v] fs IH]; cbn; [done|].
  destruct (String.eqb_spec k k') as [->|Hne]; [apply lookup_insert_eq|].
  by rewrite lookup_insert_ne.
Qed.

Lemma obj_get_fmap {B} (f : A -> B) k fs :
  obj_get k (map (fun kv => (kv.1, f kv.2)) fs) = f <$> obj_get k fs.
Proof. induction fs as [|[k' v] fs IH]; cbn; [done|]. by destruct (String.eqb k k'). Qed.

Lemma obj_get_None k fs : obj_get k fs = None <-> k ∉ obj_keys fs.
Proof.
  rewrite <- obj_get_map. symmetry. apply not_elem_of_list_to_map.
Qed.

Lemma obj_get_Some_key k v fs : obj_get k fs = Some v -> k ∈ obj_keys fs.
Proof. intros H. destruct (decide (k ∈ obj_keys fs)) as [|Hn]; [done|].
  apply obj_get_None in Hn. congruence. Qed.

Lemma obj_get_is_Some k fs : is_Some (obj_get k fs) <-> k ∈ obj_keys fs.
Proof.
  destruct (obj_get k fs) eqn:H.
  - split; [by intros; eapply obj_get_Some_key | by eexists].
  - apply obj_get_None in H. by split; [intros [? [=]]|].
Qed.

Lemma obj_get_elem k v fs : obj_get k fs = Some v -> (k, v) ∈ fs.
Proof. rewrite <- obj_get_map. apply elem_of_list_to_map_2. Qed.

Lemma obj_get_unique k v fs : NoDup (obj_keys fs) -> (k, v) ∈ fs -> obj_get k fs = Some v.
Proof. intros. rewrite <- obj_get_map. by apply elem_of_list_to_map_1. Qed.

Lemma obj_update_keys k v fs : obj_keys (obj_update k v fs) = obj_keys fs.
Proof.
  induction fs as [|[k' v'] fs IH]; cbn; [done|].
  destruct (String.eqb k k'); cbn; [done|]. by f_equal.
Qed.

Lemma obj_get_update k v k' fs :
  is_Some (obj_get k fs) ->
  obj_get k' (obj_update k v fs) = if String.eqb k' k then Some v else obj_get k' fs.
Proof.
  induction fs as [|[k1 v1] fs IH]; cbn; [by intros [? [=]]|].
  destruct (String.eqb_spec k k1) as [->|Hne]; cbn.
  - by destruct (String.eqb k' k1).
  - intros Hs. rewrite IH by done.
    destruct (String.eqb_spec k' k1) as [->|]; [|done].
    destruct (String.eqb_spec k1 k); congruence.
Qed.

Lemma obj_insert_index_Permutation n k v fs : obj_insert_index n k v fs ≡ₚ (k, v) :: fs.
Proof.
  induction fs as [|[k' v'] fs IH]; cbn; [done|].
  destruct (array_index_key k') as [m|]; [|done].
  destruct (m <? n)%N; [|done]. rewrite IH. constructor.
Qed.

Lemma obj_get_insert_index n k v k' fs :
  obj_get k fs = None ->
  obj_get k' (obj_insert_index n k v fs) = if String.eqb k' k then Some v else obj_get k' fs.
Proof.
  induction fs as [|[k1 v1] fs IH]; cbn; [done|].
  destruct (String.eqb_spec k k1) as [->|Hne]; [done|]. intros Hn.
  destruct (array_index_key k1) as [m|]; [|done].
  destruct (m <? n)%N; [|done]. cbn. rewrite IH by done.
  destruct (String.eqb_spec k' k1) as [->|]; [|done].
  destruct (String.eqb_spec k1 k); congruence.
Qed.

Lemma obj_get_app k fs gs :
  obj_get k (fs ++ gs) = match obj_get k fs with Some v => Some v | None => obj_get k gs end.
Proof. induction fs as [|[k' v] fs IH]; cbn; [done|]. by destruct (String.eqb k k'). Qed.

Lemma obj_get_set k v k' fs :
  obj_get k' (obj_set k v fs) = if String.eqb k' k then Some v else obj_get k' fs.
Proof.
  unfold obj_set. destruct (obj_get k fs) eqn:Hk; [by apply obj_get_update|].
  destruct (array_index_key k); [by apply obj_get_insert_index|].
  rewrite obj_get_app. cbn. destruct (String.eqb_spec k' k) as [->|].
  - by rewrite Hk.
  - by destruct (obj_get k' fs).
Qed.

Lemma obj_get_set_eq k v fs : obj_get k (obj_set k v fs) = Some v.
Proof. by rewrite obj_get_set, String.eqb_refl. Qed.

Lemma obj_get_set_ne k v k' fs : k' <> k -> obj_get k' (obj_set k v fs) = obj_get k' fs.
Proof. intros. rewrite obj_get_set. by destruct (String.eqb_spec k' k). Qed.

Lemma obj_set_Permutation k v fs :
  obj_get k fs = None -> obj_set k v fs ≡ₚ (k, v) :: fs.
Proof.
  intros Hk. unfold obj_set. rewrite Hk.
  destruct (array_index_key k); [apply obj_insert_index_Permutation|].
  by rewrite (comm (++)).
Qed.

Lemma obj_set_keys k v fs :
  obj_keys (obj_set k v fs) ≡ₚ if decide (k ∈ obj_keys fs) then obj_keys fs else k :: obj_keys fs.
Proof.
  case_decide as Hin.
  - unfold obj_set. destruct (obj_get k fs) eqn:Hk; [by rewrite obj_update_keys|].
    by apply obj_get_None in Hk.
  - apply obj_get_None in Hin. unfold obj_keys. by rewrite obj_set_Permutation.
Qed.

Lemma obj_set_NoDup k v fs : NoDup (obj_keys fs) -> NoDup (obj_keys (obj_set k v fs)).
Proof. intros. rewrite obj_set_keys. case_decide; [done|]. by constructor. Qed.

Lemma obj_set_elem k v fs kv : kv ∈ obj_set k v fs -> kv = (k, v) \/ kv ∈ fs.
Proof.
  unfold obj_set. destruct (obj_get k fs) eqn:Hk.
  - clear Hk. induction fs as [|[k' v'] fs IH]; cbn; [by intros ?%elem_of_nil|].
    destruct (String.eqb_spec k k') as [->|]; rewrite !elem_of_cons.
    + intros [|]; auto.
    + intros [|[|]%IH]; auto.
  - pose proof (obj_set_Permutation k v fs Hk) as Hp. unfold obj_set in Hp. rewrite Hk in Hp.
    intros Hin. rewrite Hp, elem_of_cons in Hin. done.
Qed.

(** Setting an existing property twice, and to what it is. *)
Lemma obj_update_update k v v' fs : obj_update k v' (obj_update k v fs) = obj_update k v' fs.
Proof.
  induction fs as [|[k' w] fs IH]; cbn; [done|].
  destruct (String.eqb k k') eqn:E; cbn; rewrite E; [done|]. by f_equal.
Qed.

Lemma obj_update_id k v fs : obj_get k fs = Some v -> obj_update k v fs = fs.
Proof.
  induction fs as [|[k' w] fs IH]; cbn; [done|].
  destruct (String.eqb_spec k k') as [->|]; [by intros [= ->]|]. intros. by rewrite IH.
Qed.

Lemma obj_update_insert_index n k v v' fs :
  obj_get k fs = None ->
  obj_update k v' (obj_insert_index n k v fs) = obj_insert_index n k v' fs.
Proof.
  induction fs as [|[k1 v1] fs IH]; cbn; [by rewrite String.eqb_refl|].
  destruct (String.eqb_spec k k1) as [->|Hne]; [done|]. intros Hn.
  destruct (array_index_key k1) as [m|]; [destruct (m <? n)%N|]; cbn;
    rewrite ?String.eqb_refl; [|done..].
  destruct (String.eqb_spec k k1); [done|]. by rewrite IH.
Qed.

Lemma obj_update_app k v fs gs :
  obj_get k fs = None -> obj_update k v (fs ++ gs) = fs ++ obj_update k v gs.
Proof.
  induction fs as [|[k1 v1] fs IH]; cbn; [done|].
  destruct (String.eqb k k1); [done|]. intros. by rewrite IH.
Qed.

Lemma obj_set_set k v v' fs : obj_set k v' (obj_set k v fs) = obj_set k v' fs.
Proof.
  unfold obj_set at 1. rewrite obj_get_set_eq.
  unfold obj_set. destruct (obj_get k fs) eqn:Hk; [apply obj_update_update|].
  destruct (array_index_key k); [by apply obj_update_insert_index|].
  rewrite obj_update_app by done. cbn. by rewrite String.eqb_refl.
Qed.

Lemma obj_set_present k v fs : is_Some (obj_get k fs) -> obj_set k v fs = obj_update k v fs.
Proof. unfold obj_set. by intros [w ->]. Qed.

Lemma obj_delete_keys k fs : obj_keys (obj_delete k fs) `sublist_of` obj_keys fs.
Proof.
  induction fs as [|[k' v] fs IH]; cbn; [done|].
  destruct (String.eqb k k'); [by apply sublist_cons | by apply sublist_skip].
Qed.

Lemma obj_delete_NoDup k fs : NoDup (obj_keys fs) -> NoDup (obj_keys (obj_delete k fs)).
Proof. intros. eapply sublist_NoDup; eauto using obj_delete_keys. Qed.

Lemma obj_get_delete k k' fs :
  NoDup (obj_keys fs) ->
  obj_get k' (obj_delete k fs) = if String.eqb k' k then None else obj_get k' fs.
Proof.
  induction fs as [|[k1 v] fs IH]; cbn; [by destruct (String.eqb k' k)|].
  intros [Hk1 Hnd]%NoDup_cons.
  destruct (String.eqb_spec k k1) as [->|Hne].
  - destruct (String.eqb_spec k' k1) as [->|]; [|done].
    by apply obj_get_None.
  - cbn. rewrite IH by done. destruct (String.eqb_spec k' k1) as [->|]; [|done].
    destruct (String.eqb_spec k1 k); congruence.
Qed.

Lemma obj_delete_elem k fs kv : kv ∈ obj_delete k fs -> kv ∈ fs.
Proof.
  induction fs as [|[k1 v] fs IH]; cbn; [done|].
  destruct (String.eqb k k1); rewrite ?elem_of_cons; [by right|]. intros [|]; auto.
Qed.
End FieldFacts.

#[export] Hint Resolve obj_set_NoDup obj_delete_NoDup : core.

(** ** Lemmas on contents *)

Lemma doc_of_obj_lookup fs k :
  (list_to_map (map (fun kv => (kv.1, doc_of kv.2)) fs) : gmap string doc) !! k
  = doc_of <$> obj_get k fs.
Proof. by rewrite obj_get_map, obj_get_fmap. Qed.

Lemma doc_of_obj_eq i j fs gs :
  doc_of (JObj i fs) = doc_of (JObj j gs) <->
  (forall k, doc_of <$> obj_get k fs = doc_of <$> obj_get k gs).
Proof.
  cbn. split.
  - intros [= H] k. by rewrite <- !doc_of_obj_lookup, H.
  - intros H. f_equal. apply map_eq. intros k. by rewrite !doc_of_obj_lookup.
Qed.

Lemma doc_of_arr_eq i j xs ys :
  doc_of (JArr i xs) = doc_of (JArr j ys) <-> doc_of <$> xs = doc_of <$> ys.
Proof. cbn. split; [by intros [= H] | intros H; f_equal; exact H]. Qed.

Lemma json_wf_arr i xs : json_wf (JArr i xs) = true <-> Forall (fun x => json_wf x = true) xs.
Proof. cbn. rewrite forallb_forall, Forall_forall. by setoid_rewrite list_elem_of_In. Qed.

Lemma json_wf_obj i fs :
  json_wf (JObj i fs) = true <->
  NoDup (obj_keys fs) /\ Forall (fun kv => json_wf kv.2 = true) fs.
Proof.
  cbn. rewrite andb_true_iff, bool_decide_eq_true, forallb_forall, Forall_forall.
  by setoid_rewrite list_elem_of_In.
Qed.

Lemma json_wf_obj_get i fs k v :
  json_wf (JObj i fs) = true -> obj_get k fs = Some v -> json_wf v = true.
Proof. rewrite json_wf_obj, Forall_forall. intros [_ H] Hk%obj_get_elem. apply (H (k, v) Hk). Qed.

Lemma json_wf_arr_get i xs n x :
  json_wf (JArr i xs) = true -> xs !! n = Some x -> json_wf x = true.
Proof. rewrite json_wf_arr, Forall_lookup. intros H. apply H. Qed.

Lemma in_store_arr h i xs :
  in_store h (JArr i xs) <->
  match i with Some n => h n = JArr i xs | None => True end /\ Forall (in_store h) xs.
Proof.
  cbn. f_equiv. induction xs as [|x xs IH]; cbn; [by rewrite Forall_nil|].
  by rewrite IH, Forall_cons.
Qed.

Lemma in_store_obj h i fs :
  in_store h (JObj i fs) <->
  match i with Some n => h n = JObj i fs | None => True end /\ Forall (fun kv => in_store h kv.2) fs.
Proof.
  cbn. f_equiv. induction fs as [|x xs IH]; cbn; [by rewrite Forall_nil|].
  by rewrite IH, Forall_cons.
Qed.

Lemma in_store_arr_get h i xs n x : in_store h (JArr i xs) -> xs !! n = Some x -> in_store h x.
Proof. rewrite in_store_arr, Forall_lookup. intros [_ H]. apply H. Qed.

Lemma in_store_obj_get h i fs k v : in_store h (JObj i fs) -> obj_get k fs = Some v -> in_store h v.
Proof. rewrite in_store_obj, Forall_forall. intros [_ H] Hk%obj_get_elem. apply (H (k, v) Hk). Qed.

#[export] Hint Resolve json_wf_obj_get json_wf_arr_get in_store_arr_get in_store_obj_get : core.

Lemma num_eqb_norm n m : num_eqb n m = true <-> num_norm n = num_norm m.
Proof.
  unfold num_eqb. rewrite andb_true_iff, !Z.eqb_eq.
  destruct (num_norm n), (num_norm m); cbn. naive_solver.
Qed.

Lemma same_id_eq i j : same_id i j = true <-> exists n, i = Some n /\ j = Some n.
Proof.
  destruct i as [i|], j as [j|]; cbn; rewrite ?N.eqb_eq;
    (split; [try done; intros ->; by eexists | by intros (n & [= ->] & [=])]).
Qed.

(** The same value has the same content. *)
Lemma strict_eq_doc h a b :
  in_store h a -> in_store h b -> strict_eq a b = true -> doc_of a = doc_of b.
Proof.
  destruct a, b; cbn [strict_eq]; try done.
  - by intros _ _ ->%Bool.eqb_prop.
  - intros _ _ H%num_eqb_norm. cbn. by rewrite H.
  - by intros _ _ ->%String.eqb_eq.
  - rewrite !in_store_arr. intros [H1 _] [H2 _] (n & -> & ->)%same_id_eq. congruence.
  - rewrite !in_store_obj. intros [H1 _] [H2 _] (n & -> & ->)%same_id_eq. congruence.
Qed.

Lemma equalJson_unfold a b :
  equalJson a b = strict_eq a b ||
    match a, b with
    | JArr _ xs, JArr _ ys =>
        (length xs =? length ys)%nat && forallb (fun xy => equalJson xy.1 xy.2) (zip xs ys)
    | JObj _ fs, JObj _ gs =>
        (length (obj_keys fs) =? length (obj_keys gs))%nat &&
        forallb (fun kv => match obj_get kv.1 gs with
                           | Some w => equalJson kv.2 w | None => false end) fs
    | _, _ => false
    end.
Proof.
  destruct a as [| | | |i xs|i fs], b as [| | | |j ys|j gs]; cbn; try done; f_equal; f_equal.
  - revert ys; induction xs as [|x xs IH]; intros [|y ys]; cbn; [done..|]. by rewrite IH.
  - induction fs as [|[k v] fs IH]; cbn; [done|]. by rewrite IH.
Qed.

(** Two objects with as many keys, each key of the first in the second, have the same keys. *)
Lemma obj_keys_same {A B} (fs : list (string * A)) (gs : list (string * B)) :
  NoDup (obj_keys fs) -> length (obj_keys fs) = length (obj_keys gs) ->
  (forall k, k ∈ obj_keys fs -> k ∈ obj_keys gs) -> forall k, k ∈ obj_keys gs -> k ∈ obj_keys fs.
Proof.
  intros Hnd Hlen Hsub k Hk.
  assert (Hp : obj_keys fs ≡ₚ obj_keys gs).
  { apply submseteq_length_Permutation; [|lia]. by apply NoDup_submseteq. }
  by rewrite Hp.
Qed.

Lemma equalJson_sound h a b :
  json_wf a = true -> in_store h a -> in_store h b ->
  equalJson a b = true -> doc_of a = doc_of b.
Proof.
  revert b. induction a as [|b0|n|s|i xs IH|i fs IH] using json_ind; intros b Hwf Ha Hb;
    rewrite equalJson_unfold, orb_true_iff; (intros [H|H]; [by eapply strict_eq_doc|]);
    destruct b as [|b1|m|t|j ys|j gs]; try done; apply andb_true_iff in H as [Hlen%Nat.eqb_eq H].
  - apply doc_of_arr_eq. apply list_eq_same_length with (length xs); rewrite ?length_fmap; [done..|].
    intros n x y Hn. rewrite !list_lookup_fmap.
    destruct (xs !! n) as [x'|] eqn:Hx; [|done]. destruct (ys !! n) as [y'|] eqn:Hy; [|done].
    intros [= <-] [= <-]. rewrite forallb_forall in H. rewrite Forall_lookup in IH.
    eapply IH; eauto. apply (H (x', y')). apply list_elem_of_In, list_elem_of_lookup.
    exists n. by rewrite lookup_zip_with, Hx; cbn; rewrite Hy.
  - rewrite forallb_forall in H. rewrite Forall_forall in IH.
    apply json_wf_obj in Hwf as Hwf'. destruct Hwf' as [Hnd _].
    assert (Hkv : forall k v, obj_get k fs = Some v ->
      exists w, obj_get k gs = Some w /\ doc_of v = doc_of w).
    { intros k v Hk. apply obj_get_elem in Hk as Hin.
      specialize (H (k, v) (proj1 (list_elem_of_In _ _) Hin)). cbn in H.
      destruct (obj_get k gs) as [w|] eqn:Hw; [|done]. exists w. split; [done|].
      eapply (IH (k, v) Hin); eauto. }
    apply doc_of_obj_eq. intros k. destruct (obj_get k fs) as [v|] eqn:Hk; cbn.
    { destruct (Hkv _ _ Hk) as (w & -> & Hvw). cbn. by rewrite Hvw. }
    destruct (obj_get k gs) as [w|] eqn:Hw; [|done].
    apply obj_get_None in Hk. apply obj_get_Some_key in Hw. destruct Hk.
    eapply obj_keys_same; eauto. intros k' Hk'.
    destruct (obj_get k' fs) as [v|] eqn:Hf; [|by apply obj_get_None in Hf].
    destruct (Hkv _ _ Hf) as (w' & Hw' & _). by eapply obj_get_Some_key.
Qed.

Lemma equalJson_complete a b :
  json_wf a = true -> json_wf b = true -> doc_of a = doc_of b -> equalJson a b = true.
Proof.
  revert b. induction a as [|b0|n|s|i xs IH|i fs IH] using json_ind; intros b Ha Hb Hd;
    rewrite equalJson_unfold; destruct b as [|b1|m|t|j ys|j gs]; try done; cbn [strict_eq].
  - injection Hd as ->. by destruct b1.
  - injection Hd as H1 H2. rewrite (proj2 (num_eqb_norm n m)); [done|].
    destruct (num_norm n), (num_norm m). cbn in *. congruence.
  - injection Hd as ->. by rewrite String.eqb_refl.
  - apply orb_true_iff. right. apply doc_of_arr_eq in Hd.
    pose proof (f_equal length Hd) as Hl. rewrite !length_fmap in Hl.
    rewrite Hl, Nat.eqb_refl. apply forallb_forall. intros [x y] Hxy%list_elem_of_In.
    apply list_elem_of_lookup in Hxy as [k Hk]. apply lookup_zip_with_Some in Hk as (x' & y' & [= -> ->] & Hx & Hy).
    rewrite Forall_lookup in IH. eapply IH; eauto.
    apply (f_equal (.!! k)) in Hd. rewrite !list_lookup_fmap, Hx, Hy in Hd. by injection Hd.
  - apply orb_true_iff. right. rewrite doc_of_obj_eq in Hd.
    apply json_wf_obj in Ha as Ha'. destruct Ha' as [Hnf _].
    apply json_wf_obj in Hb as Hb'. destruct Hb' as [Hng _].
    assert (Hp : obj_keys fs ≡ₚ obj_keys gs).
    { apply NoDup_Permutation; [done..|]. intros k. specialize (Hd k).
      rewrite <- !obj_get_is_Some. by destruct (obj_get k fs), (obj_get k gs). }
    rewrite Hp, Nat.eqb_refl. apply forallb_forall. intros [k v] Hin%list_elem_of_In.
    cbn. pose proof (Hd k) as Hk. rewrite (obj_get_unique k v fs Hnf Hin) in Hk. cbn in Hk.
    destruct (obj_get k gs) as [w|] eqn:Hw; [|done]. injection Hk as Hk.
    rewrite Forall_forall in IH. apply (IH (k, v) Hin); eauto.
    apply json_wf_obj in Ha as [_ Hf]. rewrite Forall_forall in Hf. apply (Hf (k, v) Hin).
Qed.

(** ** Sizes *)

Lemma json_size_pos v : 1 <= json_size v.
Proof. destruct v; cbn; lia. Qed.

Lemma json_size_arr_get i xs n x : xs !! n = Some x -> json_size x < json_size (JArr i xs).
Proof.
  intros H%list_elem_of_lookup_2. cbn.
  induction H as [x xs|x y xs H IH]; cbn; lia.
Qed.

Lemma json_size_obj_get i fs k v : obj_get k fs = Some v -> json_size v < json_size (JObj i fs).
Proof.
  intros H%obj_get_elem. cbn. remember (k, v) as kv.
  induction H as [x xs|x y xs H IH]; subst; cbn; [lia|]. specialize (IH eq_refl). lia.
Qed.
