(* ===== verification/DeltaOp.v ===== *)
(** The operations of chord/src/delta/index.ts: the tuples that travel ([Op], [WireOp]),
    their validators [assertValidOp], [assertValidWireOp], and path safety. *)
From S2P Require Import Prelude JsString Json.

(** ** Paths *)

(** A path segment: a property name or an array index. *)
Inductive seg : Type :=
| SStr (s : string)
| SNum (n : N).

Abbreviation path := (list seg).

#[export] Instance seg_eq_dec : EqDecision seg.
Proof. solve_decision. Defined.

(** The tuple form of a path, as it is in memory and on the wire. *)
Definition seg_to_json (g : seg) : json :=
  match g with SStr s => JStr s | SNum n => JNum (num_of_N n) end.

(** A path inline, or an id assigned by the encoder on second use. *)
Inductive PathRef : Type :=
| RPath (p : path)
| RId (n : N).

(** ** Errors *)

Inductive delta_error : Type :=
| TypeError (message : string)
| UnknownVerb (verb : json)
| UnsafePathError (segment : json)
| PathError (p : path)
| PathIdError (n : N).

Abbreviation result := (res delta_error).

(** ** Operations *)

Inductive Op : Type :=
| OpR (value : json)
| OpS (p : path) (value : json)
| OpD (p : path)
| OpA (p : path) (text : string)
| OpT (p : path) (count : N)
| OpP (p : path) (index remove : N) (items : list json)
| OpM (p : path) (permutation : list N).

(** [None] is the short form: the path of the previous operation of the batch. *)
Inductive WireOp : Type :=
| WR (value : json)
| WS (r : option PathRef) (value : json)
| WD (r : option PathRef)
| WA (r : option PathRef) (text : string)
| WT (r : option PathRef) (count : N)
| WP (r : option PathRef) (index remove : N) (items : list json)
| WM (r : option PathRef) (permutation : list N)
| WDef (id : N) (p : path).

(** The tuples: [["s", path, value]] and the like. *)
Definition path_to_json (p : path) : json := jarr (seg_to_json <$> p).
Definition N_to_json (n : N) : json := JNum (num_of_N n).

Definition op_to_json (op : Op) : json :=
  match op with
  | OpR v => jarr [JStr "r"; v]
  | OpS p v => jarr [JStr "s"; path_to_json p; v]
  | OpD p => jarr [JStr "d"; path_to_json p]
  | OpA p s => jarr [JStr "a"; path_to_json p; JStr s]
  | OpT p n => jarr [JStr "t"; path_to_json p; N_to_json n]
  | OpP p i r items => jarr [JStr "p"; path_to_json p; N_to_json i; N_to_json r; jarr items]
  | OpM p perm => jarr [JStr "m"; path_to_json p; jarr (N_to_json <$> perm)]
  end.

Definition ref_to_json (r : option PathRef) : list json :=
  match r with
  | Some (RPath p) => [path_to_json p]
  | Some (RId n) => [N_to_json n]
  | None => []
  end.

Definition wire_to_json (op : WireOp) : json :=
  match op with
  | WR v => jarr [JStr "r"; v]
  | WS r v => jarr (JStr "s" :: ref_to_json r ++ [v])
  | WD r => jarr (JStr "d" :: ref_to_json r)
  | WA r s => jarr (JStr "a" :: ref_to_json r ++ [JStr s])
  | WT r n => jarr (JStr "t" :: ref_to_json r ++ [N_to_json n])
  | WP r i d items => jarr (JStr "p" :: ref_to_json r ++ [N_to_json i; N_to_json d; jarr items])
  | WM r perm => jarr (JStr "m" :: ref_to_json r ++ [jarr (N_to_json <$> perm)])
  | WDef n p => jarr [JStr "#"; N_to_json n; path_to_json p]
  end.

(** ** Classification *)

Definition isReplace (op : json) : bool :=
  match op with
  | JArr _ (v :: _) => strict_eq v (JStr "r")
  | _ => false
  end.

(** A batch begins with a replacement. *)
Definition isBase (ops : list json) : bool :=
  match ops with
  | [] => false
  | op :: _ => isReplace op
  end.

(** ** Path safety *)

Definition RESERVED_SEGMENTS : list string := ["__proto__"; "constructor"; "prototype"].

Definition reserved (s : string) : bool := bool_decide (s ∈ RESERVED_SEGMENTS).

(** One segment of [assertSafePath]. *)
Definition assertSafeSeg (v : json) : result seg :=
  match v with
  | JStr s => if reserved s then Throw (UnsafePathError v) else Ok (SStr s)
  | JNum n => match num_to_N n with Some i => Ok (SNum i) | None => Throw (UnsafePathError v) end
  | _ => Throw (UnsafePathError v)
  end.

Definition assertSafePath (p : list json) : result path := res_mapM assertSafeSeg p.

Definition assertPathArg (p : json) (nonEmpty : bool) : result path :=
  match p with
  | JArr _ l =>
      _ ← check (negb (nonEmpty && (length l =? 0)%nat)) (TypeError "path is empty");
      assertSafePath l
  | _ => Throw (TypeError "path is not an array")
  end.

(** ** The validator of decoded operations *)

(** [Number.isInteger(v) && v >= 0], with the integer. *)
Definition nonneg_integer (v : json) : option N :=
  match v with JNum n => num_to_N n | _ => None end.

(** The loop of [assertPermutation]; [seen] is the [Uint8Array]. *)
Fixpoint permutation_loop (len : N) (seen : list bool) (l : list json) : result (list N) :=
  match l with
  | [] => Ok []
  | v :: l' =>
      index ← res_of (TypeError "m permutation is not a bijection") (nonneg_integer v);
      _ ← check ((index <? len)%N && bool_decide (seen !! N.to_nat index = Some false))
            (TypeError "m permutation is not a bijection");
      rest ← permutation_loop len (<[N.to_nat index := true]> seen) l';
      Ok (index :: rest)
  end.

Definition assertPermutation (v : json) : result (list N) :=
  match v with
  | JArr _ l => permutation_loop (N.of_nat (length l)) (replicate (length l) false) l
  | _ => Throw (TypeError "m permutation is not an array")
  end.

(** [assertValidOp(op)]: the operation [op] is, or the error. *)
Definition assertValidOp (op : json) : result Op :=
  match op with
  | JArr _ (JStr verb :: args) =>
      if String.eqb verb "r" then
        match args with [v] => Ok (OpR v) | _ => Throw (TypeError "r arity") end
      else if String.eqb verb "s" then
        match args with
        | [p; v] => p' ← assertPathArg p true; Ok (OpS p' v)
        | _ => Throw (TypeError "s arity")
        end
      else if String.eqb verb "d" then
        match args with
        | [p] => p' ← assertPathArg p true; Ok (OpD p')
        | _ => Throw (TypeError "d arity")
        end
      else if String.eqb verb "a" then
        match args with
        | [p; JStr s] => p' ← assertPathArg p true; Ok (OpA p' s)
        | _ => Throw (TypeError "a shape")
        end
      else if String.eqb verb "t" then
        match args with
        | [p; v] =>
            n ← res_of (TypeError "t shape") (nonneg_integer v);
            p' ← assertPathArg p true; Ok (OpT p' n)
        | _ => Throw (TypeError "t shape")
        end
      else if String.eqb verb "p" then
        match args with
        | [p; vi; vr; vitems] =>
            p' ← assertPathArg p false;
            i ← res_of (TypeError "p index") (nonneg_integer vi);
            r ← res_of (TypeError "p remove") (nonneg_integer vr);
            match vitems with
            | JArr _ items => Ok (OpP p' i r items)
            | _ => Throw (TypeError "p items")
            end
        | _ => Throw (TypeError "p arity")
        end
      else if String.eqb verb "m" then
        match args with
        | [p; v] =>
            p' ← assertPathArg p false;
            perm ← assertPermutation v;
            Ok (OpM p' perm)
        | _ => Throw (TypeError "m arity")
        end
      else Throw (UnknownVerb (JStr verb))
  | JArr _ (v :: _) => Throw (UnknownVerb v)
  | _ => Throw (TypeError "op is not a tuple")
  end.

(** ** The validator of wire operations *)

Definition okRef (r : json) : result PathRef :=
  match r with
  | JNum n => RId <$> res_of (TypeError "bad path id") (num_to_N n)
  | JArr _ l => RPath <$> assertSafePath l
  | _ => Throw (TypeError "path is not an array")
  end.

Definition wire_splice (r : option PathRef) (vi vr vitems : json) : result WireOp :=
  i ← res_of (TypeError "p index") (nonneg_integer vi);
  d ← res_of (TypeError "p remove") (nonneg_integer vr);
  match vitems with
  | JArr _ items => Ok (WP r i d items)
  | _ => Throw (TypeError "p items")
  end.

Definition assertValidWireOp (op : json) : result WireOp :=
  match op with
  | JArr _ (JStr verb :: args) =>
      if String.eqb verb "r" then
        match args with [v] => Ok (WR v) | _ => Throw (TypeError "r arity") end
      else if String.eqb verb "s" then
        match args with
        | [r; v] => r' ← okRef r; Ok (WS (Some r') v)
        | [v] => Ok (WS None v)
        | _ => Throw (TypeError "s arity")
        end
      else if String.eqb verb "d" then
        match args with
        | [r] => r' ← okRef r; Ok (WD (Some r'))
        | [] => Ok (WD None)
        | _ => Throw (TypeError "d arity")
        end
      else if String.eqb verb "a" then
        match args with
        | [r; v] =>
            r' ← okRef r;
            match v with
            | JStr s => Ok (WA (Some r') s)
            | _ => Throw (TypeError "a value")
            end
        | [JStr s] => Ok (WA None s)
        | [_] => Throw (TypeError "a value")
        | _ => Throw (TypeError "a arity")
        end
      else if String.eqb verb "t" then
        match args with
        | [r; v] =>
            r' ← okRef r;
            n ← res_of (TypeError "t count") (nonneg_integer v);
            Ok (WT (Some r') n)
        | [v] => n ← res_of (TypeError "t count") (nonneg_integer v); Ok (WT None n)
        | _ => Throw (TypeError "t arity")
        end
      else if String.eqb verb "p" then
        match args with
        | [r; vi; vr; vitems] => r' ← okRef r; wire_splice (Some r') vi vr vitems
        | [vi; vr; vitems] => wire_splice None vi vr vitems
        | _ => Throw (TypeError "p arity")
        end
      else if String.eqb verb "m" then
        match args with
        | [r; v] => r' ← okRef r; perm ← assertPermutation v; Ok (WM (Some r') perm)
        | [v] => perm ← assertPermutation v; Ok (WM None perm)
        | _ => Throw (TypeError "m arity")
        end
      else if String.eqb verb "#" then
        match args with
        | [vid; JArr _ l] =>
            n ← res_of (TypeError "# shape") (nonneg_integer vid);
            p ← assertSafePath l;
            Ok (WDef n p)
        | _ => Throw (TypeError "# shape")
        end
      else Throw (UnknownVerb (JStr verb))
  | JArr _ (v :: _) => Throw (UnknownVerb v)
  | _ => Throw (TypeError "op is not a tuple")
  end.

(** ** What the validators accept *)

Definition safe_seg (g : seg) : bool :=
  match g with SStr s => negb (reserved s) | SNum _ => true end.

Definition safe_path (p : path) : bool := forallb safe_seg p.

Definition is_permutation (l : list N) : Prop := l ≡ₚ N.of_nat <$> seq 0 (length l).

Definition op_ok (op : Op) : Prop :=
  match op with
  | OpR _ => True
  | OpS p _ | OpD p | OpA p _ | OpT p _ => p <> [] /\ safe_path p = true
  | OpP p _ _ _ => safe_path p = true
  | OpM p perm => safe_path p = true /\ is_permutation perm
  end.

Definition ref_ok (r : option PathRef) : Prop :=
  match r with Some (RPath p) => safe_path p = true | _ => True end.

Definition wire_ok (op : WireOp) : Prop :=
  match op with
  | WR _ => True
  | WS r _ | WD r | WA r _ | WT r _ | WP r _ _ _ => ref_ok r
  | WM r perm => ref_ok r /\ is_permutation perm
  | WDef _ p => safe_path p = true
  end.

(** ** Lemmas on paths *)

Lemma assertSafeSeg_tuple g :
  assertSafeSeg (seg_to_json g) = if safe_seg g then Ok g else Throw (UnsafePathError (seg_to_json g)).
Proof.
  destruct g as [s|n]; cbn.
  - by destruct (reserved s).
  - by rewrite num_to_N_of_N.
Qed.

Lemma assertSafeSeg_safe v g : assertSafeSeg v = Ok g -> safe_seg g = true.
Proof.
  destruct v as [| |n|s| |]; cbn; try done.
  - destruct (num_to_N n); by intros [= <-].
  - destruct (reserved s) eqn:Hr; [done|]. intros [= <-]. cbn. by rewrite Hr.
Qed.

Lemma safe_path_app p q : safe_path (p ++ q) = safe_path p && safe_path q.
Proof. apply forallb_app. Qed.

Lemma assertSafePath_tuple p : safe_path p = true -> assertSafePath (seg_to_json <$> p) = Ok p.
Proof.
  unfold assertSafePath, safe_path. induction p as [|g p IH]; [done|].
  cbn. rewrite andb_true_iff. intros [Hg Hp].
  rewrite assertSafeSeg_tuple, Hg. cbn. by rewrite IH.
Qed.

Lemma assertSafePath_tuple_inv p q :
  assertSafePath (seg_to_json <$> p) = Ok q -> q = p /\ safe_path p = true.
Proof.
  unfold assertSafePath, safe_path. revert q; induction p as [|g p IH]; intros q; [by intros [= <-]|].
  cbn. rewrite assertSafeSeg_tuple. destruct (safe_seg g); [|done]. cbn. intros H. inv_res.
  destruct (IH _ Hv) as [-> ->]. done.
Qed.

Lemma assertSafePath_safe l p :
  assertSafePath l = Ok p -> safe_path p = true /\ length p = length l.
Proof.
  unfold assertSafePath, safe_path. revert p; induction l as [|v l IH]; intros p; cbn.
  - by intros [= <-].
  - intros H. inv_res. destruct (IH _ Hv0) as [Hs Hl].
    cbn. rewrite (assertSafeSeg_safe _ _ Hv), Hs, Hl. done.
Qed.

Lemma assertPathArg_safe v b p :
  assertPathArg v b = Ok p -> safe_path p = true /\ (b = true -> p <> []).
Proof.
  destruct v as [| | | |i l|]; cbn; try done. intros H. inv_res.
  destruct (assertSafePath_safe _ _ H) as [Hs Hl]. split; [done|].
  intros -> ->. cbn in Hl. rewrite <- Hl in Hv. done.
Qed.

Lemma assertPathArg_tuple p b :
  safe_path p = true -> (b = true -> p <> []) -> assertPathArg (path_to_json p) b = Ok p.
Proof.
  intros Hs Hb. cbn. rewrite assertSafePath_tuple by done.
  destruct b, p; cbn; try done. by destruct (Hb eq_refl).
Qed.

Lemma assertPathArg_tuple_inv p b q :
  assertPathArg (path_to_json p) b = Ok q -> q = p /\ safe_path p = true /\ (b = true -> p <> []).
Proof.
  intros H. destruct (assertPathArg_safe _ _ _ H) as [Hs Hb]. cbn in H. inv_res.
  apply assertSafePath_tuple_inv in H as [-> _]. done.
Qed.

(** ** Permutations *)

Lemma permutation_loop_spec len seen l p :
  permutation_loop len seen l = Ok p ->
  length p = length l /\ NoDup p /\
  Forall (fun i => (i < len)%N /\ seen !! N.to_nat i = Some false) p.
Proof.
  revert seen p; induction l as [|v l IH]; intros seen p; cbn.
  - intros [= <-]. repeat constructor.
  - intros H. inv_res. bool_to_prop.
    destruct (IH _ _ Hv1) as (Hl & Hnd & Hall). cbn. rewrite Hl.
    assert (Hv1' : seen !! N.to_nat v0 = Some false) by done.
    split; [done|]. split.
    + constructor; [|done]. intros Hin. rewrite Forall_forall in Hall.
      destruct (Hall _ Hin) as [_ Hs]. rewrite list_lookup_insert_eq in Hs; [done|].
      by eapply lookup_lt_Some.
    + constructor; [done|]. eapply Forall_impl; [exact Hall|]. cbn. intros i [Hi Hs].
      split; [done|]. destruct (decide (N.to_nat v0 = N.to_nat i)) as [He|He].
      * rewrite He, list_lookup_insert_eq in Hs; [done|].
        apply lookup_lt_Some in Hv1'. lia.
      * by rewrite list_lookup_insert_ne in Hs.
Qed.

Lemma permutation_loop_complete len seen p :
  NoDup p -> Forall (fun i => (i < len)%N /\ seen !! N.to_nat i = Some false) p ->
  permutation_loop len seen (N_to_json <$> p) = Ok p.
Proof.
  revert seen; induction p as [|i p IH]; intros seen; cbn; [done|].
  intros [Hi Hnd]%NoDup_cons [[Hlt Hs] Hall]%Forall_cons.
  rewrite num_to_N_of_N. cbn. rewrite (proj2 (N.ltb_lt _ _) Hlt), bool_decide_true by done. cbn.
  rewrite IH; [done..|]. rewrite Forall_forall in Hall |- *. intros j Hj.
  destruct (Hall j Hj) as [Hlt' Hs']. split; [done|].
  rewrite list_lookup_insert_ne; [done|]. intros He. apply Hi.
  by rewrite <- (N2Nat.inj _ _ He) in Hj.
Qed.

Lemma is_permutation_iff p :
  is_permutation p <-> NoDup p /\ Forall (fun i => (i < N.of_nat (length p))%N) p.
Proof.
  unfold is_permutation. split.
  - intros H. split.
    + rewrite H. apply NoDup_fmap_2; [apply _|]. apply NoDup_seq.
    + apply Forall_forall. intros x Hx. rewrite H in Hx.
      apply list_elem_of_fmap in Hx as (n & -> & Hn%elem_of_seq). lia.
  - intros [Hnd Hall]. apply submseteq_length_Permutation.
    + apply NoDup_submseteq; [done|]. intros x Hx. rewrite Forall_forall in Hall.
      apply list_elem_of_fmap. exists (N.to_nat x). rewrite N2Nat.id. split; [done|].
      apply elem_of_seq. specialize (Hall x Hx). cbn in Hall. lia.
    + by rewrite length_fmap, length_seq.
Qed.

Lemma assertPermutation_sound v p : assertPermutation v = Ok p -> is_permutation p.
Proof.
  destruct v as [| | | |i l|]; cbn; try done. intros H.
  destruct (permutation_loop_spec _ _ _ _ H) as (Hl & Hnd & Hall).
  apply is_permutation_iff. split; [done|]. rewrite Hl.
  eapply Forall_impl; [exact Hall|]. by intros ? [].
Qed.

Lemma assertPermutation_tuple p :
  is_permutation p -> assertPermutation (jarr (N_to_json <$> p)) = Ok p.
Proof.
  intros [Hnd Hall]%is_permutation_iff. cbn. rewrite length_fmap.
  apply permutation_loop_complete; [done|].
  eapply Forall_impl; [exact Hall|]. cbn. intros i Hi. split; [done|].
  apply lookup_replicate_2. lia.
Qed.

Lemma assertPermutation_tuple_inv p q :
  assertPermutation (jarr (N_to_json <$> p)) = Ok q -> q = p.
Proof.
  cbn. rewrite length_fmap. generalize (N.of_nat (length p)), (replicate (length p) false).
  revert q; induction p as [|i p IH]; intros q len seen; cbn; [by intros [= <-]|].
  rewrite num_to_N_of_N. cbn. intros H. inv_res. by rewrite (IH _ _ _ Hv0).
Qed.

(** ** Lemmas on the validators *)

(** Split a validator's run into the tests it passed. *)
Ltac inv_validator :=
  repeat (case_res || (progress inv_res)).

Lemma assertValidOp_ok v op : assertValidOp v = Ok op -> op_ok op.
Proof.
  unfold assertValidOp. intros H. repeat case_match; simplify_eq/=; inv_res;
    repeat match goal with
    | H : assertPathArg _ _ = Ok _ |- _ => apply assertPathArg_safe in H as [? ?]
    | H : assertPermutation _ = Ok _ |- _ => apply assertPermutation_sound in H
    end; cbn; auto.
Qed.

Lemma nonneg_integer_N n : nonneg_integer (N_to_json n) = Some n.
Proof. apply num_to_N_of_N. Qed.

Lemma assertValidOp_complete op : op_ok op -> assertValidOp (op_to_json op) = Ok op.
Proof.
  destruct op as [v|p v|p|p s|p n|p i r items|p perm]; unfold op_to_json, assertValidOp;
    cbn [String.eqb Ascii.eqb Bool.eqb op_ok]; rewrite ?nonneg_integer_N; cbn [res_of mbind res_bind].
  - done.
  - intros [Hne Hs]. by rewrite assertPathArg_tuple.
  - intros [Hne Hs]. by rewrite assertPathArg_tuple.
  - intros [Hne Hs]. by rewrite assertPathArg_tuple.
  - intros [Hne Hs]. by rewrite assertPathArg_tuple.
  - intros Hs. by rewrite assertPathArg_tuple.
  - intros [Hs Hp]. rewrite assertPathArg_tuple by done. cbn [mbind res_bind].
    by rewrite assertPermutation_tuple.
Qed.

Lemma assertValidOp_tuple_inv op op' : assertValidOp (op_to_json op) = Ok op' -> op' = op.
Proof.
  destruct op as [v|p v|p|p s|p n|p i r items|p perm]; unfold op_to_json, assertValidOp;
    cbn [String.eqb Ascii.eqb Bool.eqb]; rewrite ?nonneg_integer_N; cbn [res_of mbind res_bind];
    try (destruct (assertPathArg (path_to_json p) _) as [q|] eqn:Hq; [|done];
         apply assertPathArg_tuple_inv in Hq as [-> _]); cbn [mbind res_bind]; try congruence.
  destruct (assertPermutation _) as [q|] eqn:Hq; [|done].
  apply assertPermutation_tuple_inv in Hq as ->. cbn. congruence.
Qed.

Lemma okRef_tuple r : ref_ok (Some r) -> okRef (match r with RPath p => path_to_json p | RId n => N_to_json n end) = Ok r.
Proof.
  destruct r as [p|n]; cbn.
  - intros Hs. by rewrite assertSafePath_tuple.
  - by rewrite num_to_N_of_N.
Qed.

Lemma okRef_safe v r : okRef v = Ok r -> ref_ok (Some r).
Proof.
  destruct v as [| |n| |i l|]; cbn; try done.
  - destruct (num_to_N n); cbn; by intros [= <-].
  - destruct (assertSafePath l) as [p|] eqn:Hp; cbn; [|done]. intros [= <-].
    by apply assertSafePath_safe in Hp as [? _].
Qed.

Lemma assertValidWireOp_complete op : wire_ok op -> assertValidWireOp (wire_to_json op) = Ok op.
Proof.
  assert (Hp : forall p, safe_path p = true -> okRef (path_to_json p) = Ok (RPath p))
    by (intros p; apply (okRef_tuple (RPath p))).
  assert (Hi : forall n, okRef (N_to_json n) = Ok (RId n)) by (intros n; by apply (okRef_tuple (RId n))).
  destruct op as [v|[[p|n']|] v|[[p|n']|]|[[p|n']|] s|[[p|n']|] n|[[p|n']|] i d items|[[p|n']|] perm|n p];
    unfold wire_to_json, assertValidWireOp, ref_to_json, wire_splice;
    cbn [String.eqb Ascii.eqb Bool.eqb app wire_ok ref_ok];
    intros Hop; repeat match goal with H : _ /\ _ |- _ => destruct H end;
    rewrite ?Hi, ?Hp by done; cbn [mbind res_bind]; rewrite ?nonneg_integer_N;
    cbn [mbind res_bind res_of]; rewrite ?assertPermutation_tuple by done; try done.
  unfold path_to_json. by rewrite assertSafePath_tuple.
Qed.

Lemma assertValidWireOp_ok v op : assertValidWireOp v = Ok op -> wire_ok op.
Proof.
  unfold assertValidWireOp, wire_splice. intros H. repeat case_match; simplify_eq/=; inv_res;
    repeat case_match; simplify_eq/=; inv_res;
    repeat match goal with
    | H : okRef _ = Ok _ |- _ => apply okRef_safe in H
    | H : assertSafePath _ = Ok _ |- _ => apply assertSafePath_safe in H as [? ?]
    | H : assertPermutation _ = Ok _ |- _ => apply assertPermutation_sound in H
    end; cbn; auto.
  - by destruct (num_to_N n); simplify_eq/=.
  - match goal with H : RPath <$> ?x = Ok _ |- _ => destruct x eqn:Hp; simplify_eq/= end.
    by apply assertSafePath_safe in Hp as [? _].
Qed.
