(* ===== verification/DeltaApply.v ===== *)
(** [apply] of chord/src/delta/index.ts: the operations performed on a mutable value that
    shares no container with itself, so that mutating the container a path leads to is
    replacing it in the tree. [applyImmutable], which copies what it changes, is modelled by
    the value it returns, which is that of [apply] on a copy. *)
From S2P Require Import Prelude JsString Json DeltaOp.

(** ** Own properties *)

(** The property key a segment names on an object. *)
Definition prop_key (g : seg) : string :=
  match g with SStr s => s | SNum n => int_to_string n end.

Definition arr_get (xs : list json) (n : N) : option json :=
  if (n <? N.of_nat (length xs))%N then xs !! N.to_nat n else None.

(** [Object.hasOwn(v, g) ? v[g] : undefined], for the pairs the code reads: an array is
    only read at a number. *)
Definition own_get (v : json) (g : seg) : option json :=
  match v, g with
  | JArr _ xs, SNum n => arr_get xs n
  | JObj _ fs, _ => obj_get (prop_key g) fs
  | _, _ => None
  end.

(** ** Walking a path *)

Definition isObj (v : json) : bool :=
  match v with JArr _ _ | JObj _ _ => true | _ => false end.

(** The loop of [resolveValue]; [whole] is the path its errors name. *)
Fixpoint resolve_loop (whole : path) (node : json) (p : path) : result json :=
  match p with
  | [] => Ok node
  | g :: p' =>
      _ ← check (isObj node) (PathError whole);
      match node, g with
      | JArr _ _, SStr s => Throw (UnsafePathError (JStr s))
      | _, _ =>
          child ← res_of (PathError whole) (own_get node g);
          resolve_loop whole child p'
      end
  end.

Definition resolveValue (root : json) (p : path) : result json := resolve_loop p root p.

Definition resolve (root : json) (p : path) : result json :=
  node ← resolveValue root p;
  _ ← check (isObj node) (PathError p);
  Ok node.

(** The tree after the container at [p] became [w]. *)
Fixpoint replace_at (v : json) (p : path) (w : json) : json :=
  match p with
  | [] => w
  | g :: p' =>
      match v, g with
      | JArr i xs, SNum n =>
          match arr_get xs n with
          | Some c => JArr i (<[N.to_nat n := replace_at c p' w]> xs)
          | None => v
          end
      | JObj i fs, _ =>
          match obj_get (prop_key g) fs with
          | Some c => JObj i (obj_update (prop_key g) (replace_at c p' w) fs)
          | None => v
          end
      | _, _ => v
      end
  end.

(** ** Mutating one container *)

(** [Object.defineProperty(parent, key, {value, ...})]; an index is at most the length. *)
Definition define_prop (parent : json) (key : seg) (v : json) : json :=
  match parent, key with
  | JArr i xs, SNum n =>
      if (n =? N.of_nat (length xs))%N then JArr i (xs ++ [v]) else JArr i (<[N.to_nat n := v]> xs)
  | JObj i fs, _ => JObj i (obj_set (prop_key key) v fs)
  | _, _ => parent
  end.

(** [l.splice(i, d, ...items)]: start and count clamp to the array. *)
Definition splice_n {A} (i d : N) (items l : list A) : list A :=
  let i' := N.min i (N.of_nat (length l)) in
  let d' := N.min d (N.of_nat (length l) - i') in
  splice_at (N.to_nat i') (N.to_nat d') items l.

Definition chunkSize : N := 10000.

(** The loop that inserts the items of a splice chunk by chunk. *)
Fixpoint insert_chunks {A} (fuel : nat) (chunk start : N) (items l : list A) : list A :=
  match fuel, items with
  | 0, _ | _, [] => l
  | S fuel', _ =>
      insert_chunks fuel' chunk (start + chunk) (drop (N.to_nat chunk) items)
        (splice_n start 0 (take (N.to_nat chunk) items) l)
  end.

Definition splice_items (index remove : N) (items l : list json) : list json :=
  insert_chunks (length items) chunkSize index items (splice_n index remove [] l).

(** [assertIndexInRange] and the array-key test of [apply]. *)
Definition check_key (parent : json) (key : seg) : result unit :=
  match parent, key with
  | JArr _ _, SStr s => Throw (UnsafePathError (JStr s))
  | JArr _ xs, SNum n =>
      check (n <=? N.of_nat (length xs))%N (UnsafePathError (JNum (num_of_N n)))
  | _, _ => Ok tt
  end.

(** What [s], [d], [a] and [t] leave in the container that holds the key. *)
Definition mutate_key (p : path) (op : Op) (parent : json) (key : seg) : result json :=
  match op with
  | OpS _ v => Ok (define_prop parent key v)
  | OpD _ =>
      match parent, key with
      | JArr i xs, SNum n =>
          if (N.of_nat (length xs) <=? n)%N then Throw (PathError p)
          else Ok (JArr i (splice_n n 1 [] xs))
      | JObj i fs, _ => Ok (JObj i (obj_delete (prop_key key) fs))
      | _, _ => Throw (PathError p)
      end
  | OpA _ s =>
      match own_get parent key with
      | Some (JStr current) => Ok (define_prop parent key (JStr (current +:+ s)))
      | _ => Throw (PathError p)
      end
  | OpT _ n =>
      match own_get parent key with
      | Some (JStr current) =>
          Ok (define_prop parent key
                (JStr (str_drop (N.to_nat (N.min n (N.of_nat (String.length current)))) current)))
      | _ => Throw (PathError p)
      end
  | _ => Ok parent
  end.

(** What [p] and [m] leave in the array they address. *)
Definition mutate_array (p : path) (op : Op) (target : json) : result json :=
  match target, op with
  | JArr id xs, OpP _ i r items => Ok (JArr id (splice_items i r items xs))
  | JArr id xs, OpM _ perm =>
      _ ← check (length xs =? length perm)%nat (PathError p);
      Ok (JArr id ((fun j => default JNull (arr_get xs j)) <$> perm))
  | _, _ => Throw (PathError p)
  end.

(** ** [apply] *)

(** [p] and [m] on the value [root]: the target is [root] itself for the empty path. *)
Definition apply_array (root : json) (p : path) (op : Op) : result json :=
  target ← (if decide (p = []) then Ok root else resolve root p);
  target' ← mutate_array p op target;
  Ok (replace_at root p target').

(** [s], [d], [a] and [t]: their path is not empty. *)
Definition apply_key (root : json) (p : path) (op : Op) : result json :=
  let q := removelast p in
  parent ← resolve root q;
  match last p with
  | Some key =>
      _ ← check_key parent key;
      parent' ← mutate_key p op parent key;
      Ok (replace_at root q parent')
  | None => Throw (PathError p)
  end.

(** One validated operation on the root, which is [undefined] before a first [r]. *)
Definition apply_op (root : option json) (op : Op) : result (option json) :=
  match op, root with
  | OpR v, _ => Ok (Some v)
  | (OpP p _ _ _ | OpM p _), None => Throw (PathError p)
  | (OpP p _ _ _ | OpM p _), Some v => Some <$> apply_array v p op
  | (OpS p _ | OpD p | OpA p _ | OpT p _), None => Throw (PathError (removelast p))
  | (OpS p _ | OpD p | OpA p _ | OpT p _), Some v => Some <$> apply_key v p op
  end.

(** The body of the loop of [applyOps]: validate, then perform. *)
Definition apply_tuple (root : option json) (raw : json) : result (option json) :=
  op ← assertValidOp raw; apply_op root op.

Definition applyOps (target : option json) (ops : list json) : result (option json) :=
  res_foldl apply_tuple target ops.

(** [apply(target, ops)]. *)
Definition apply (target : option json) (ops : list json) : result (option json) :=
  applyOps target ops.

(** The batch as tuples. *)
Abbreviation tuples := (fmap op_to_json).

(** ** Reading a path, when it resolves *)

Fixpoint get_at (v : json) (p : path) : option json :=
  match p with
  | [] => Some v
  | g :: p' => match own_get v g with Some c => get_at c p' | None => None end
  end.

(** [transforms p ops b r]: wherever [b] stands at [p], the batch turns it into [r] and
    changes nothing else. *)
Definition transforms (p : path) (ops : list Op) (b r : json) : Prop :=
  forall root, get_at root p = Some b ->
    applyOps (Some root) (tuples ops) = Ok (Some (replace_at root p r)).

(** ** Lemmas on walking *)

Lemma arr_get_Some xs n c : arr_get xs n = Some c <-> xs !! N.to_nat n = Some c.
Proof.
  unfold arr_get. destruct (N.ltb_spec n (N.of_nat (length xs))); [done|].
  split; [done|]. intros Hl%lookup_lt_Some. lia.
Qed.

Lemma arr_get_nat xs k : arr_get xs (N.of_nat k) = xs !! k.
Proof.
  destruct (xs !! k) as [c|] eqn:Hk.
  - apply arr_get_Some. by rewrite Nat2N.id.
  - unfold arr_get. rewrite Nat2N.id, Hk. by destruct (_ <? _)%N.
Qed.

Lemma own_get_isObj v g c : own_get v g = Some c -> isObj v = true.
Proof. by destruct v, g. Qed.

Lemma resolve_loop_Ok whole v p w : resolve_loop whole v p = Ok w <-> get_at v p = Some w.
Proof.
  revert v; induction p as [|g p IH]; intros v; cbn.
  { split; by intros [= ->]. }
  destruct (own_get v g) as [c|] eqn:Hg.
  - rewrite (own_get_isObj _ _ _ Hg). cbn. rewrite <- IH. by destruct v, g.
  - split; [|done]. intros H. inv_res. by destruct v, g; inv_res.
Qed.

Lemma resolve_Ok v p w : resolve v p = Ok w <-> get_at v p = Some w /\ isObj w = true.
Proof.
  unfold resolve, resolveValue. split.
  - intros H. inv_res. by apply resolve_loop_Ok in Hv.
  - intros [H1 H2]. rewrite (proj2 (resolve_loop_Ok p v p w) H1). cbn. by rewrite H2.
Qed.

Lemma get_at_app v p q : get_at v (p ++ q) = get_at v p ≫= (fun m => get_at m q).
Proof.
  revert v; induction p as [|g p IH]; intros v; cbn; [done|].
  destruct (own_get v g); [apply IH|done].
Qed.

Lemma get_at_snoc v p g c :
  get_at v (p ++ [g]) = Some c <-> exists m, get_at v p = Some m /\ own_get m g = Some c.
Proof.
  rewrite get_at_app. cbn. destruct (get_at v p) as [m|]; cbn.
  - destruct (own_get m g) eqn:H; split.
    + intros [= <-]. eauto.
    + intros (m' & [= <-] & H'). congruence.
    + done.
    + intros (m' & [= <-] & H'). congruence.
  - split; [done|]. by intros (m' & [=] & _).
Qed.

Lemma own_get_replace v g c w : own_get v g = Some c -> own_get (replace_at v [g] w) g = Some w.
Proof.
  destruct v as [|b0|m|t|i xs|i fs], g as [s|n]; cbn; try done.
  - intros H. rewrite H. cbn. apply arr_get_Some in H. apply arr_get_Some.
    apply list_lookup_insert_eq. by eapply lookup_lt_Some.
  - intros H. rewrite H. cbn. rewrite obj_get_update by (by rewrite H). by rewrite String.eqb_refl.
  - intros H. rewrite H. cbn. rewrite obj_get_update by (by rewrite H). by rewrite String.eqb_refl.
Qed.

Lemma replace_at_cons v g c p w :
  own_get v g = Some c -> replace_at v (g :: p) w = replace_at v [g] (replace_at c p w).
Proof. destruct v, g; cbn; try done; by intros ->. Qed.

Lemma replace_at_twice v g w w' : replace_at (replace_at v [g] w) [g] w' = replace_at v [g] w'.
Proof.
  destruct v as [|b0|m|t|i xs|i fs], g as [s|n]; cbn; try done.
  - destruct (arr_get xs n) as [c|] eqn:H; cbn; rewrite ?H; [|done].
    apply arr_get_Some in H as H'. apply lookup_lt_Some in H' as Hlt.
    assert (arr_get (<[N.to_nat n:=w]> xs) n = Some w) as ->
      by (apply arr_get_Some; by rewrite list_lookup_insert_eq).
    by rewrite list_insert_insert_eq.
  - destruct (obj_get s fs) as [c|] eqn:H; cbn; rewrite ?H; [|done].
    rewrite obj_get_update, String.eqb_refl by (by rewrite H). by rewrite obj_update_update.
  - destruct (obj_get (int_to_string n) fs) as [c|] eqn:H; cbn; rewrite ?H; [|done].
    rewrite obj_get_update, String.eqb_refl by (by rewrite H). by rewrite obj_update_update.
Qed.

Lemma replace_at_own_id v g c : own_get v g = Some c -> replace_at v [g] c = v.
Proof.
  destruct v as [|b0|m|t|i xs|i fs], g as [s|n]; cbn; try done; intros H; rewrite H.
  - apply arr_get_Some in H. by rewrite list_insert_id.
  - by rewrite obj_update_id.
  - by rewrite obj_update_id.
Qed.

Lemma get_replace_at v p b w : get_at v p = Some b -> get_at (replace_at v p w) p = Some w.
Proof.
  revert v; induction p as [|g p IH]; intros v; [done|].
  cbn [get_at]. destruct (own_get v g) as [c|] eqn:Hg; [|done]. intros Hp.
  rewrite (replace_at_cons _ _ _ _ _ Hg), (own_get_replace _ _ _ _ Hg). by apply IH.
Qed.

Lemma replace_at_replace_at v p b w w' :
  get_at v p = Some b -> replace_at (replace_at v p w) p w' = replace_at v p w'.
Proof.
  revert v; induction p as [|g p IH]; intros v; [done|].
  cbn [get_at]. destruct (own_get v g) as [c|] eqn:Hg; [|done]. intros Hp.
  rewrite (replace_at_cons _ _ _ _ _ Hg).
  rewrite (replace_at_cons _ _ _ _ _ (own_get_replace _ _ _ _ Hg)).
  rewrite replace_at_twice, IH by done. symmetry. by apply replace_at_cons.
Qed.

Lemma replace_at_id v p b : get_at v p = Some b -> replace_at v p b = v.
Proof.
  revert v; induction p as [|g p IH]; intros v; [by intros [= ->]|].
  cbn [get_at]. destruct (own_get v g) as [c|] eqn:Hg; [|done]. intros Hp.
  rewrite (replace_at_cons _ _ _ _ _ Hg), IH by done. by apply replace_at_own_id.
Qed.

Lemma replace_at_app v p q b w :
  get_at v p = Some b -> replace_at v (p ++ q) w = replace_at v p (replace_at b q w).
Proof.
  revert v; induction p as [|g p IH]; intros v; [by intros [= ->]|].
  cbn [get_at]. destruct (own_get v g) as [c|] eqn:Hg; [|done]. intros Hp.
  cbn [app]. rewrite (replace_at_cons _ _ _ (p ++ q) _ Hg), (replace_at_cons _ _ _ p _ Hg).
  by rewrite IH.
Qed.

(** ** Lemmas on splices *)

Lemma splice_n_nat {A} (i d : nat) (items l : list A) :
  splice_n (N.of_nat i) (N.of_nat d) items l = splice_at i d items l.
Proof.
  unfold splice_n, splice_at. f_equal; [|f_equal].
  - destruct (decide (i <= length l)) as [H|H].
    + f_equal. lia.
    + rewrite (take_ge l i), (take_ge l) by lia. done.
  - destruct (decide (i + d <= length l)) as [H|H].
    + f_equal. lia.
    + rewrite (drop_ge l (i + d)), (drop_ge l) by lia. done.
Qed.

Lemma splice_n_insert_nat {A} (i : nat) (items l : list A) :
  splice_n (N.of_nat i) 0 items l = splice_at i 0 items l.
Proof. apply (splice_n_nat i 0). Qed.

Lemma insert_chunks_spec {A} fuel (chunk : N) (i : nat) (items l : list A) :
  (0 < chunk)%N -> length items <= fuel ->
  insert_chunks fuel chunk (N.of_nat i) items l = splice_at i 0 items l.
Proof.
  intros Hc. revert i items l; induction fuel as [|fuel IH]; intros i items l Hf.
  { destruct items; [|cbn in Hf; lia]. cbn. unfold splice_at. cbn.
    by rewrite Nat.add_0_r, take_drop. }
  destruct items as [|x items]; cbn [insert_chunks].
  { unfold splice_at. cbn. by rewrite Nat.add_0_r, take_drop. }
  set (its := x :: items) in *.
  assert (Hlen : 0 < length its) by (cbn; lia).
  replace (N.of_nat i + chunk)%N with (N.of_nat (i + N.to_nat chunk)) by lia.
  rewrite IH by (rewrite length_drop; lia).
  rewrite splice_n_insert_nat.
  destruct (decide (N.to_nat chunk <= length its)) as [Hle|Hgt].
  - rewrite splice_at_nested by (rewrite length_take; lia). by rewrite take_drop.
  - rewrite (drop_ge its), (take_ge its) by lia. unfold splice_at at 1. cbn.
    by rewrite Nat.add_0_r, take_drop.
Qed.

Lemma splice_items_spec (i d : nat) items l :
  splice_items (N.of_nat i) (N.of_nat d) items l = splice_at i d items l.
Proof.
  unfold splice_items. rewrite insert_chunks_spec by (done || lia).
  rewrite splice_n_nat. unfold splice_at. cbn. rewrite Nat.add_0_r.
  destruct (decide (i <= length l)) as [Hi|Hi].
  - assert (Hl : length (take i l) = i) by (rewrite length_take; lia).
    rewrite take_app_length', drop_app_length' by done. done.
  - rewrite (drop_ge l (i + d)), (take_ge l i), !app_nil_r by lia.
    rewrite take_ge, drop_ge by lia. by rewrite app_nil_r.
Qed.

(** ** One operation at its place *)

Lemma applyOps_one root op :
  op_ok op -> applyOps root (tuples [op]) = apply_op root op.
Proof.
  intros Hok. unfold applyOps. cbn. unfold apply_tuple.
  rewrite assertValidOp_complete by done. cbn. by destruct (apply_op root op).
Qed.

Lemma applyOps_app_Ok root ops ops' r :
  applyOps root ops = Ok r -> applyOps root (ops ++ ops') = applyOps r ops'.
Proof. apply res_foldl_app_Ok. Qed.

Lemma apply_key_at root q k op parent :
  get_at root q = Some parent -> isObj parent = true ->
  apply_key root (q ++ [k]) op =
    (_ ← check_key parent k;
     parent' ← mutate_key (q ++ [k]) op parent k;
     Ok (replace_at root q parent')).
Proof.
  intros Hq Ho. unfold apply_key. rewrite removelast_last, last_snoc.
  by rewrite (proj2 (resolve_Ok root q parent)).
Qed.

Lemma check_key_own parent k c : own_get parent k = Some c -> check_key parent k = Ok tt.
Proof.
  destruct parent as [|b0|m|t|i xs|i fs], k as [s|n]; cbn; try done.
  intros H%arr_get_Some%lookup_lt_Some. by rewrite (proj2 (N.leb_le _ _)) by lia.
Qed.

(** Defining a property that is there replaces it. *)
Lemma define_prop_own parent k c v :
  own_get parent k = Some c -> define_prop parent k v = replace_at parent [k] v.
Proof.
  destruct parent as [|b0|m|t|i xs|i fs], k as [s|n]; cbn; try done; intros H; rewrite H.
  - apply arr_get_Some, lookup_lt_Some in H. by rewrite (proj2 (N.eqb_neq _ _)) by lia.
  - by rewrite obj_set_present by (by rewrite H).
  - by rewrite obj_set_present by (by rewrite H).
Qed.

Lemma removelast_snoc_ne {A} (p : list A) : p <> [] -> exists q k, p = q ++ [k].
Proof. destruct p as [|x p _] using rev_ind; [done|]. eauto. Qed.

(** [s], [a] and [t] on a value that is there. *)
Lemma apply_key_existing root p op b w :
  p <> [] -> get_at root p = Some b ->
  (forall parent k, own_get parent k = Some b ->
     mutate_key p op parent k = Ok (define_prop parent k w)) ->
  apply_key root p op = Ok (replace_at root p w).
Proof.
  intros (q & k & ->)%removelast_snoc_ne (parent & Hq & Hk)%get_at_snoc Hm.
  rewrite (apply_key_at _ _ _ _ _ Hq (own_get_isObj _ _ _ Hk)).
  rewrite (check_key_own _ _ _ Hk). cbn. rewrite (Hm _ _ Hk). cbn.
  rewrite (define_prop_own _ _ _ _ Hk). by rewrite (replace_at_app _ _ _ _ _ Hq).
Qed.

(** ** [transforms] *)

Lemma transforms_nil p b : transforms p [] b b.
Proof. intros root Hp. by rewrite (replace_at_id _ _ _ Hp). Qed.

Lemma transforms_app p o1 o2 b m r :
  transforms p o1 b m -> transforms p o2 m r -> transforms p (o1 ++ o2) b r.
Proof.
  intros H1 H2 root Hp. rewrite fmap_app.
  rewrite (applyOps_app_Ok _ _ _ _ (H1 root Hp)).
  rewrite H2 by (by eapply get_replace_at).
  by rewrite (replace_at_replace_at _ _ _ _ _ Hp).
Qed.

Lemma transforms_child p g ops v c c' :
  own_get v g = Some c -> transforms (p ++ [g]) ops c c' ->
  transforms p ops v (replace_at v [g] c').
Proof.
  intros Hg H root Hp. rewrite H.
  - by rewrite (replace_at_app _ _ _ _ _ Hp).
  - apply get_at_snoc. eauto.
Qed.

Lemma transforms_r v b : transforms [] [OpR v] b v.
Proof. intros root _. by rewrite applyOps_one. Qed.

Lemma transforms_s p v b :
  p <> [] -> safe_path p = true -> transforms p [OpS p v] b v.
Proof.
  intros Hne Hs root Hp. rewrite applyOps_one by done. cbn.
  by rewrite (apply_key_existing _ _ _ _ v Hne Hp).
Qed.

Lemma transforms_a p s t :
  p <> [] -> safe_path p = true -> transforms p [OpA p t] (JStr s) (JStr (s +:+ t)).
Proof.
  intros Hne Hs root Hp. rewrite applyOps_one by done. cbn.
  rewrite (apply_key_existing _ _ _ _ (JStr (s +:+ t)) Hne Hp); [done|].
  intros parent k Hk. cbn. by rewrite Hk.
Qed.

Lemma transforms_t p s (n : nat) :
  p <> [] -> safe_path p = true ->
  transforms p [OpT p (N.of_nat n)] (JStr s) (JStr (str_drop n s)).
Proof.
  intros Hne Hs root Hp. rewrite applyOps_one by done. cbn.
  rewrite (apply_key_existing _ _ _ _ (JStr (str_drop n s)) Hne Hp); [done|].
  intros parent k Hk. cbn. rewrite Hk. do 3 f_equal.
  rewrite <- Nat2N.inj_min, Nat2N.id.
  destruct (decide (n <= String.length s)) as [H|H]; [f_equal; lia|].
  rewrite !str_drop_ge by lia. done.
Qed.

Lemma apply_array_at root p op b w :
  get_at root p = Some b -> mutate_array p op b = Ok w ->
  apply_array root p op = Ok (replace_at root p w).
Proof.
  intros Hp Hm. unfold apply_array.
  assert (Ho : isObj b = true) by (by destruct b).
  assert (Ht : (if decide (p = []) then Ok root else resolve root p) = Ok b).
  { case_decide; [|by apply resolve_Ok]. subst. by injection Hp as ->. }
  rewrite Ht. cbn. by rewrite Hm.
Qed.

Lemma transforms_p p id l (i d : nat) items :
  safe_path p = true ->
  transforms p [OpP p (N.of_nat i) (N.of_nat d) items] (JArr id l) (JArr id (splice_at i d items l)).
Proof.
  intros Hs root Hp. rewrite applyOps_one by done. cbn.
  rewrite (apply_array_at _ _ _ _ (JArr id (splice_at i d items l)) Hp); [done|].
  cbn. by rewrite splice_items_spec.
Qed.

Lemma transforms_m p id l (perm : list nat) :
  safe_path p = true -> is_permutation (N.of_nat <$> perm) -> length perm = length l ->
  transforms p [OpM p (N.of_nat <$> perm)] (JArr id l)
    (JArr id ((fun j => default JNull (l !! j)) <$> perm)).
Proof.
  intros Hs Hm Hl root Hp. rewrite applyOps_one by done. cbn.
  erewrite apply_array_at; [done|exact Hp|]. cbn. rewrite length_fmap, Hl, Nat.eqb_refl. cbn.
  do 2 f_equal. rewrite <- list_fmap_compose. apply list_fmap_ext. intros _ j _. cbn.
  by rewrite arr_get_nat.
Qed.

Lemma safe_path_snoc p g : safe_path (p ++ [g]) = safe_path p && safe_seg g.
Proof. rewrite safe_path_app. cbn. by rewrite andb_true_r. Qed.

Lemma snoc_not_nil {A} (p : list A) g : p ++ [g] <> [].
Proof. by destruct p. Qed.

(** Creating or overwriting a property of an object. *)
Lemma transforms_set_key p id fs k v :
  safe_path p = true -> reserved k = false ->
  transforms p [OpS (p ++ [SStr k]) v] (JObj id fs) (JObj id (obj_set k v fs)).
Proof.
  intros Hs Hk root Hp. rewrite applyOps_one.
  - cbn. by rewrite (apply_key_at _ _ _ _ _ Hp).
  - cbn. rewrite safe_path_snoc, Hs. cbn. rewrite Hk. split; [apply snoc_not_nil|done].
Qed.

Lemma transforms_delete_key p id fs k :
  safe_path p = true -> reserved k = false ->
  transforms p [OpD (p ++ [SStr k])] (JObj id fs) (JObj id (obj_delete k fs)).
Proof.
  intros Hs Hk root Hp. rewrite applyOps_one.
  - cbn. by rewrite (apply_key_at _ _ _ _ _ Hp).
  - cbn. rewrite safe_path_snoc, Hs. cbn. rewrite Hk. split; [apply snoc_not_nil|done].
Qed.
