(* ===== verification/DeltaMatch.v ===== *)
(** How chord/src/delta/diff.ts pairs the elements of two arrays: a permutation, a
    subsequence, a longest increasing chain of identical elements, a longest common
    subsequence. A pairing is a list of index pairs, increasing on both sides. *)
From S2P Require Import Prelude JsString Json.

Abbreviation ArrayMatch := (nat * nat)%type.

(** [left === right || equalJson(left, right)]. *)
Definition sameValue (left right : json) : bool := strict_eq left right || equalJson left right.

(** ** Maps keyed by identity ([Map<JsonValue, ...>]) *)

Section JsonMap.
Context {V : Type}.

Fixpoint jmap_get (k : json) (m : list (json * V)) : option V :=
  match m with
  | [] => None
  | (k', v) :: m' => if strict_eq k' k then Some v else jmap_get k m'
  end.

(** [m.set(k, v)], also for the update of the entry [k] has. *)
Fixpoint jmap_set (k : json) (v : V) (m : list (json * V)) : list (json * V) :=
  match m with
  | [] => [(k, v)]
  | (k', v') :: m' => if strict_eq k' k then (k', v) :: m' else (k', v') :: jmap_set k v m'
  end.
End JsonMap.

(** ** [permutation] *)

(** An entry [{indices, used}]. *)
Abbreviation perm_map := (list (json * (list nat * nat))).

Fixpoint perm_positions (before : list json) (index : nat) (m : perm_map) : perm_map :=
  match before with
  | [] => m
  | v :: before' =>
      perm_positions before' (S index)
        (match jmap_get v m with
         | None => jmap_set v ([index], 0) m
         | Some (indices, used) => jmap_set v (indices ++ [index], used) m
         end)
  end.

Fixpoint perm_take (after : list json) (m : perm_map) : option (list nat) :=
  match after with
  | [] => Some []
  | v :: after' =>
      match jmap_get v m with
      | None => None
      | Some (indices, used) =>
          match indices !! used with
          | None => None
          | Some i =>
              match perm_take after' (jmap_set v (indices, S used) m) with
              | None => None
              | Some rest => Some (i :: rest)
              end
          end
      end
  end.

Definition permutation (before after : list json) : option (list nat) :=
  if (length before =? length after)%nat then perm_take after (perm_positions before 0 [])
  else None.

(** ** [lcsMatches] *)

Section Lcs.
Context (equal : json -> json -> bool) (before after : list json).

Definition width : nat := S (length after).

(** One cell of the flat table. *)
Definition lcs_cell (lengths : list nat) (left right : nat) : list nat :=
  let at_ := left * width + right in
  <[at_ := if equal (before !!! left) (after !!! right)
           then S (lengths !!! (S left * width + S right))
           else Nat.max (lengths !!! (S left * width + right)) (lengths !!! (left * width + S right))]>
    lengths.

(** [for (right = n - 1; right >= 0; right--)]. *)
Fixpoint lcs_row (lengths : list nat) (left n : nat) : list nat :=
  match n with 0 => lengths | S right_ => lcs_row (lcs_cell lengths left right_) left right_ end.

(** [for (left = n - 1; left >= 0; left--)]. *)
Fixpoint lcs_fill (lengths : list nat) (n : nat) : list nat :=
  match n with 0 => lengths | S left_ => lcs_fill (lcs_row lengths left_ (length after)) left_ end.

Definition lcs_table : list nat :=
  lcs_fill (replicate (S (length before) * width) 0) (length before).

(** The walk that reads the matches off the table. *)
Fixpoint lcs_walk (fuel : nat) (lengths : list nat) (left right : nat) : list ArrayMatch :=
  match fuel with
  | 0 => []
  | S fuel' =>
      if ((left <? length before) && (right <? length after))%nat then
        if equal (before !!! left) (after !!! right)
           && (lengths !!! (left * width + right) =? S (lengths !!! (S left * width + S right)))%nat
        then (left, right) :: lcs_walk fuel' lengths (S left) (S right)
        else if (lengths !!! (left * width + S right) <=? lengths !!! (S left * width + right))%nat
        then lcs_walk fuel' lengths (S left) right
        else lcs_walk fuel' lengths left (S right)
      else []
  end.

Definition lcsMatches (maxCells : N) : option (list ArrayMatch) :=
  if ((length before =? 0) || (length after =? 0))%nat then Some []
  else if (maxCells <? N.of_nat (length before) * N.of_nat (length after))%N then None
  else Some (lcs_walk (length before + length after) lcs_table 0 0).
End Lcs.

(** ** [semanticallyAligned] *)

Definition semanticallyAligned (left right : json) : bool :=
  if sameValue left right then true
  else match left, right with
       | JArr _ xs, JArr _ ys =>
           (length xs =? length ys)%nat &&
           existsb (fun xy => match xy.1 with JArr _ _ | JObj _ _ => strict_eq xy.1 xy.2 | _ => false end)
             (zip xs ys)
       | JObj _ fs, JObj _ gs =>
           existsb (fun kv => match kv.2 with
                              | JArr _ _ | JObj _ _ =>
                                  match obj_get kv.1 gs with Some w => strict_eq kv.2 w | None => false end
                              | _ => false
                              end) fs
       | _, _ => false
       end.

(** ** [lowerBound] *)

Fixpoint lowerBound_loop (fuel : nat) (values : list nat) (value low high : nat) : nat :=
  match fuel with
  | 0 => low
  | S fuel' =>
      if (low <? high)%nat then
        let middle := Nat.div2 (low + high) in
        if (values !!! middle <? value)%nat
        then lowerBound_loop fuel' values value (S middle) high
        else lowerBound_loop fuel' values value low middle
      else low
  end.

Definition lowerBound (values : list nat) (value : nat) : nat :=
  lowerBound_loop (S (length values)) values value 0 (length values).

(** ** [identitySubsequence] *)

(** [while (i < end && p(i)) i += 1], with [n = end - i] steps left. *)
Fixpoint skip_while (p : nat -> bool) (i n : nat) : nat :=
  match n with 0 => i | S n' => if p i then skip_while p (S i) n' else i end.

Section Regions.
Context (before after : list json).

(** Every element of [after[j..j+n)] in [before[i..beforeEnd)], in order. *)
Fixpoint subsequence_of_before (i beforeEnd j n : nat) : option (list ArrayMatch) :=
  match n with
  | 0 => Some []
  | S n' =>
      let i' := skip_while (fun i => negb (strict_eq (before !!! i) (after !!! j))) i (beforeEnd - i) in
      if (i' =? beforeEnd)%nat then None
      else match subsequence_of_before (S i') beforeEnd (S j) n' with
           | None => None
           | Some ms => Some ((i', j) :: ms)
           end
  end.

Fixpoint subsequence_of_after (i n j afterEnd : nat) : option (list ArrayMatch) :=
  match n with
  | 0 => Some []
  | S n' =>
      let j' := skip_while (fun j => negb (strict_eq (before !!! i) (after !!! j))) j (afterEnd - j) in
      if (j' =? afterEnd)%nat then None
      else match subsequence_of_after (S i) n' (S j') afterEnd with
           | None => None
           | Some ms => Some ((i, j') :: ms)
           end
  end.

Definition identitySubsequence (bs be as_ ae : nat) : option (list ArrayMatch) :=
  let beforeCount := be - bs in
  let afterCount := ae - as_ in
  if (afterCount <? beforeCount)%nat then subsequence_of_before bs be as_ afterCount
  else if (beforeCount <? afterCount)%nat then subsequence_of_after bs beforeCount as_ ae
  else None.

(** ** [identityAnchors] *)

Abbreviation positions_map := (list (json * list nat)).

Fixpoint anchor_positions (index n : nat) (m : positions_map) : positions_map :=
  match n with
  | 0 => m
  | S n' =>
      let v := before !!! index in
      anchor_positions (S index) n'
        (match jmap_get v m with
         | None => jmap_set v [index] m
         | Some existing => jmap_set v (existing ++ [index]) m
         end)
  end.

(** [from] is [previous + 1]. *)
Fixpoint greedyIdentityAnchors (positions : positions_map) (from index n : nat) : list ArrayMatch :=
  match n with
  | 0 => []
  | S n' =>
      match jmap_get (after !!! index) positions with
      | None => greedyIdentityAnchors positions from (S index) n'
      | Some candidates =>
          match candidates !! lowerBound candidates from with
          | None => greedyIdentityAnchors positions from (S index) n'
          | Some beforeIndex =>
              (beforeIndex, index) :: greedyIdentityAnchors positions (S beforeIndex) (S index) n'
          end
      end
  end.

Definition MAX_IDENTITY_CANDIDATES : N := 200000.

(** The candidate count; [None] once it exceeds the bound. *)
Fixpoint count_candidates (positions : positions_map) (count : N) (index n : nat) : option N :=
  match n with
  | 0 => Some count
  | S n' =>
      let count' := (count + match jmap_get (after !!! index) positions with
                             | Some l => N.of_nat (length l) | None => 0 end)%N in
      if (MAX_IDENTITY_CANDIDATES <? count')%N then None
      else count_candidates positions count' (S index) n'
  end.

Record MatchCandidate : Type := {
  c_before : nat;
  c_after : nat;
  c_previous : option nat;
}.

Record chains : Type := {
  ch_candidates : list MatchCandidate;
  ch_tails : list nat;
  ch_tailValues : list nat;
}.

(** [a[i] = v] for [i <= a.length]. *)
Definition set_or_push {A} (i : nat) (v : A) (l : list A) : list A :=
  if (i =? length l)%nat then l ++ [v] else <[i := v]> l.

Definition chain_step (afterIndex : nat) (st : chains) (beforeIndex : nat) : chains :=
  let at_ := lowerBound (ch_tailValues st) beforeIndex in
  let candidateIndex := length (ch_candidates st) in
  {| ch_candidates := ch_candidates st ++
       [{| c_before := beforeIndex; c_after := afterIndex;
           c_previous := match at_ with 0 => None | S p => ch_tails st !! p end |}];
     ch_tails := set_or_push at_ candidateIndex (ch_tails st);
     ch_tailValues := set_or_push at_ beforeIndex (ch_tailValues st) |}.

Fixpoint chain_loop (positions : positions_map) (index n : nat) (st : chains) : chains :=
  match n with
  | 0 => st
  | S n' =>
      chain_loop positions (S index) n'
        (match jmap_get (after !!! index) positions with
         | None => st
         | Some beforePositions => foldl (chain_step index) st (rev beforePositions)
         end)
  end.

(** The chain that ends in a candidate, last match first. *)
Fixpoint chain_walk (fuel : nat) (candidates : list MatchCandidate) (index : option nat) : list ArrayMatch :=
  match fuel, index with
  | S fuel', Some i =>
      match candidates !! i with
      | Some c => (c_before c, c_after c) :: chain_walk fuel' candidates (c_previous c)
      | None => []
      end
  | _, _ => []
  end.

Definition identityAnchors (bs be as_ ae : nat) : list ArrayMatch :=
  let positions := anchor_positions bs (be - bs) [] in
  match count_candidates positions 0 as_ (ae - as_) with
  | None => greedyIdentityAnchors positions 0 as_ (ae - as_)
  | Some count =>
      if (count =? 0)%N then []
      else
        let st := chain_loop positions as_ (ae - as_)
                    {| ch_candidates := []; ch_tails := []; ch_tailValues := [] |} in
        rev (chain_walk (length (ch_candidates st)) (ch_candidates st) (last (ch_tails st)))
  end.
End Regions.

(** ** What every pairing is *)

(** The matches are within the two regions and increasing on both sides. *)
Fixpoint matches_ok (bs be as_ ae : nat) (ms : list ArrayMatch) : Prop :=
  match ms with
  | [] => True
  | (b, a) :: ms' => bs <= b < be /\ as_ <= a < ae /\ matches_ok (S b) be (S a) ae ms'
  end.

(** ** Facts on pairings *)

Lemma matches_ok_weaken bs bs' be be' as_ as' ae ae' ms :
  matches_ok bs be as_ ae ms -> bs' <= bs -> be <= be' -> as' <= as_ -> ae <= ae' ->
  matches_ok bs' be' as' ae' ms.
Proof.
  revert bs bs' as_ as'; induction ms as [|[b a] ms IH]; intros bs bs' as_ as'; cbn; [done|].
  intros (Hb & Ha & Hms) ????. split; [lia|]. split; [lia|]. eapply IH; eauto; lia.
Qed.

Lemma matches_ok_snoc bs be as_ ae ms b a :
  matches_ok bs b as_ a ms -> bs <= b < be -> as_ <= a < ae ->
  matches_ok bs be as_ ae (ms ++ [(b, a)]).
Proof.
  revert bs as_; induction ms as [|[b' a'] ms IH]; intros bs as_; cbn; [auto|].
  intros (Hb & Ha & Hms) ??. split; [lia|]. split; [lia|]. apply IH; [done|lia..].
Qed.

Lemma matches_ok_shift bs be as_ ae k l ms :
  matches_ok bs be as_ ae ms ->
  matches_ok (k + bs) (k + be) (l + as_) (l + ae) ((fun '(b, a) => (k + b, l + a)) <$> ms).
Proof.
  revert bs as_; induction ms as [|[b a] ms IH]; intros bs as_; cbn; [done|].
  intros (Hb & Ha & Hms). split; [lia|]. split; [lia|].
  apply IH in Hms. by rewrite !Nat.add_succ_r in Hms.
Qed.

Lemma skip_while_bounds p i n : i <= skip_while p i n <= i + n.
Proof.
  revert i; induction n as [|n IH]; intros i; cbn; [lia|].
  destruct (p i); [|lia]. specialize (IH (S i)). lia.
Qed.

Lemma skip_while_stop p i n : skip_while p i n < i + n -> p (skip_while p i n) = false.
Proof.
  revert i; induction n as [|n IH]; intros i; cbn; [lia|].
  destruct (p i) eqn:Hp; [|done]. intros. apply IH. lia.
Qed.

Section SubsequenceFacts.
Context (before after : list json).

Lemma subsequence_of_before_ok i be j n ms :
  i <= be -> subsequence_of_before before after i be j n = Some ms -> matches_ok i be j (j + n) ms.
Proof.
  revert i j ms; induction n as [|n IH]; intros i j ms Hi; cbn; [by intros [= <-]|].
  set (i' := skip_while _ _ _).
  assert (Hb : i <= i' <= be) by (pose proof (skip_while_bounds (fun i => negb (strict_eq (before !!! i) (after !!! j))) i (be - i)); lia).
  destruct (Nat.eqb_spec i' be) as [|Hne]; [done|].
  destruct (subsequence_of_before _ _ _ _ _ _) as [ms'|] eqn:Hms; [|done].
  intros [= <-]. apply IH in Hms; [|lia]. cbn. split; [lia|]. split; [lia|].
  by rewrite Nat.add_succ_comm in Hms.
Qed.

Lemma subsequence_of_after_ok i n j ae ms :
  j <= ae -> subsequence_of_after before after i n j ae = Some ms -> matches_ok i (i + n) j ae ms.
Proof.
  revert i j ms; induction n as [|n IH]; intros i j ms Hj; cbn; [by intros [= <-]|].
  set (j' := skip_while _ _ _).
  assert (Hb : j <= j' <= ae) by (pose proof (skip_while_bounds (fun j => negb (strict_eq (before !!! i) (after !!! j))) j (ae - j)); lia).
  destruct (Nat.eqb_spec j' ae) as [|Hne]; [done|].
  destruct (subsequence_of_after _ _ _ _ _ _) as [ms'|] eqn:Hms; [|done].
  intros [= <-]. apply IH in Hms; [|lia]. cbn. split; [lia|]. split; [lia|].
  by rewrite Nat.add_succ_comm in Hms.
Qed.

Lemma identitySubsequence_ok bs be as_ ae ms :
  bs <= be -> as_ <= ae -> identitySubsequence before after bs be as_ ae = Some ms ->
  matches_ok bs be as_ ae ms.
Proof.
  unfold identitySubsequence. intros Hb Ha.
  destruct (ae - as_ <? be - bs)%nat.
  { intros H%subsequence_of_before_ok; [|done]. by replace (as_ + (ae - as_)) with ae in H by lia. }
  destruct (be - bs <? ae - as_)%nat; [|done].
  intros H%subsequence_of_after_ok; [|done]. by replace (bs + (be - bs)) with be in H by lia.
Qed.
End SubsequenceFacts.

(** ** Facts on [lowerBound] *)

Lemma lowerBound_loop_spec fuel values value low high :
  high - low < fuel -> low <= high -> high <= length values ->
  (forall i j x y, i <= j -> values !! i = Some x -> values !! j = Some y -> x <= y) ->
  (forall i x, i < low -> values !! i = Some x -> x < value) ->
  (forall i x, high <= i -> values !! i = Some x -> value <= x) ->
  let r := lowerBound_loop fuel values value low high in
  r <= length values /\
  (forall i x, i < r -> values !! i = Some x -> x < value) /\
  (forall i x, r <= i -> values !! i = Some x -> value <= x).
Proof.
  revert low high; induction fuel as [|fuel IH]; intros low high Hf Hlh Hhl Hs Hlow Hhigh; [lia|].
  cbn [lowerBound_loop]. destruct (Nat.ltb_spec low high) as [Hlt|Hge].
  2:{ split; [lia|]. split; [done|]. intros i x Hi. apply Hhigh. lia. }
  set (mid := Nat.div2 (low + high)).
  assert (Hmid : low <= mid < high).
  { unfold mid. rewrite Nat.div2_div. split.
    - apply Nat.div_le_lower_bound; lia.
    - apply Nat.Div0.div_lt_upper_bound; lia. }
  destruct (lookup_lt_is_Some_2 values mid ltac:(lia)) as [y Hy].
  rewrite (list_lookup_total_correct _ _ _ Hy).
  destruct (Nat.ltb_spec y value) as [Hyv|Hyv]; apply IH; try done; try lia.
  - intros i x Hi Hx. assert (x <= y) by (eapply Hs; [|exact Hx|exact Hy]; lia). lia.
  - intros i x Hi Hx. assert (y <= x) by (eapply Hs; [|exact Hy|exact Hx]; lia). lia.
Qed.

Lemma lowerBound_spec values value :
  (forall i j x y, i <= j -> values !! i = Some x -> values !! j = Some y -> x <= y) ->
  lowerBound values value <= length values /\
  (forall i x, i < lowerBound values value -> values !! i = Some x -> x < value) /\
  (forall i x, lowerBound values value <= i -> values !! i = Some x -> value <= x).
Proof.
  intros Hs. apply lowerBound_loop_spec; try lia; try done.
  intros i x Hi Hx%lookup_lt_Some. lia.
Qed.

(** ** Facts on the position maps *)

Lemma jmap_get_set {V} k k' (v : V) m :
  jmap_get k' (jmap_set k v m) = Some v \/ jmap_get k' (jmap_set k v m) = jmap_get k' m.
Proof.
  induction m as [|[k1 v1] m IH]; cbn.
  - destruct (strict_eq k k'); auto.
  - destruct (strict_eq k1 k); cbn; destruct (strict_eq k1 k'); auto.
Qed.

Lemma jmap_get_elem {V} k (v : V) m :
  jmap_get k m = Some v -> exists k', (k', v) ∈ m /\ strict_eq k' k = true.
Proof.
  induction m as [|[k1 v1] m IH]; cbn; [done|].
  destruct (strict_eq k1 k) eqn:He.
  - intros [= ->]. exists k1. split; [by left|done].
  - intros (k' & Hk & ?)%IH. exists k'. split; [by right|done].
Qed.

Lemma jmap_set_elem {V} k (v : V) m kv :
  kv ∈ jmap_set k v m -> kv = (k, v) \/ kv ∈ m \/ exists k', strict_eq k' k = true /\ kv = (k', v) /\ exists v', (k', v') ∈ m.
Proof.
  induction m as [|[k1 v1] m IH]; cbn.
  - rewrite list_elem_of_singleton. auto.
  - destruct (strict_eq k1 k) eqn:He; rewrite !elem_of_cons.
    + intros [->|]; [|by auto]. right. right. exists k1. split; [done|]. split; [done|].
      exists v1. by left.
    + intros [->|[->|[H|(k' & Hk & -> & v' & Hv)]]%IH]; auto.
      right. right. exists k'. split; [done|]. split; [done|]. exists v'. by right.
Qed.

(** A property of every value of the map is kept by a set. *)
Lemma jmap_set_Forall {V} (P : V -> Prop) k v (m : list (json * V)) :
  P v -> (forall k' w, jmap_get k' m = Some w -> P w) ->
  forall k' w, jmap_get k' (jmap_set k v m) = Some w -> P w.
Proof.
  intros Hv Hm k' w Hw. destruct (jmap_get_set k k' v m) as [H|H]; rewrite H in Hw.
  - by injection Hw as <-.
  - eauto.
Qed.

(** ** Increasing positions *)

(** Strictly increasing numbers, all in [[lo, hi)]. *)
Definition increasing (lo hi : nat) (l : list nat) : Prop :=
  (forall i j x y, i < j -> l !! i = Some x -> l !! j = Some y -> x < y) /\
  Forall (fun x => lo <= x < hi) l.

Lemma increasing_snoc lo hi l : increasing lo hi l -> lo <= hi -> increasing lo (S hi) (l ++ [hi]).
Proof.
  intros [Hi Ha] Hlh. split.
  - intros i j x y Hij Hx Hy.
    destruct (decide (j < length l)) as [Hj|Hj].
    + rewrite lookup_app_l in Hx, Hy by lia. eauto.
    + rewrite lookup_app_r in Hy by lia.
      assert (j - length l = 0) as Hj0 by (apply lookup_lt_Some in Hy; cbn in Hy; lia).
      rewrite Hj0 in Hy. injection Hy as <-. rewrite lookup_app_l in Hx by lia.
      rewrite Forall_lookup in Ha. specialize (Ha _ _ Hx). lia.
  - rewrite Forall_app, Forall_singleton. split; [|lia].
    eapply Forall_impl; [exact Ha|]. cbn. lia.
Qed.

Lemma anchor_positions_increasing before lo index n m :
  lo <= index ->
  (forall k l, jmap_get k m = Some l -> increasing lo index l) ->
  forall k l, jmap_get k (anchor_positions before index n m) = Some l -> increasing lo (index + n) l.
Proof.
  revert index m; induction n as [|n IH]; intros index m Hlo Hm; cbn [anchor_positions].
  { by rewrite Nat.add_0_r. }
  rewrite <- Nat.add_succ_comm. apply IH; [lia|].
  assert (Hup : forall k l, jmap_get k m = Some l -> increasing lo (S index) l).
  { intros k l Hk. destruct (Hm _ _ Hk) as [Hi Ha]. split; [done|].
    eapply Forall_impl; [exact Ha|]. cbn. lia. }
  destruct (jmap_get (before !!! index) m) as [existing|] eqn:Hex;
    apply (jmap_set_Forall (increasing lo (S index))); try done.
  - apply increasing_snoc; eauto.
  - apply (increasing_snoc lo index []); [|done]. by split.
Qed.

Lemma greedyIdentityAnchors_ok after positions lo hi from index n :
  (forall k l, jmap_get k positions = Some l -> increasing lo hi l) ->
  matches_ok (Nat.max lo from) hi index (index + n)
    (greedyIdentityAnchors after positions from index n).
Proof.
  intros Hp. revert from index; induction n as [|n IH]; intros from index; cbn; [done|].
  assert (Hskip : matches_ok (Nat.max lo from) hi index (index + S n)
    (greedyIdentityAnchors after positions from (S index) n)).
  { eapply matches_ok_weaken; [apply IH|lia..]. }
  destruct (jmap_get _ _) as [cs|] eqn:Hcs; [|done].
  destruct (cs !! _) as [b|] eqn:Hb; [|done].
  destruct (Hp _ _ Hcs) as [Hi Ha].
  assert (Hs : forall i j x y, i <= j -> cs !! i = Some x -> cs !! j = Some y -> x <= y).
  { intros i j x y Hij Hx Hy. destruct (decide (i = j)) as [->|]; [by simplify_eq|].
    assert (x < y) by (eapply Hi; [|done|done]; lia). lia. }
  destruct (lowerBound_spec cs from Hs) as (_ & _ & Hge).
  rewrite Forall_lookup in Ha. specialize (Ha _ _ Hb). specialize (Hge _ _ (Nat.le_refl _) Hb).
  cbn. split; [lia|]. split; [lia|]. eapply matches_ok_weaken; [apply IH|lia..].
Qed.

(** ** The increasing chains of [identityAnchors] *)

(** Chain [i] of [candidates]: the matches [chain_walk] reads from it, first match first. *)
Definition chain_at (candidates : list MatchCandidate) (i : nat) : list ArrayMatch :=
  rev (chain_walk (length candidates) candidates (Some i)).

(** Every candidate continues an earlier one that is smaller on both sides. *)
Definition linked (bs be as_ ae : nat) (candidates : list MatchCandidate) : Prop :=
  forall i c, candidates !! i = Some c ->
    bs <= c_before c < be /\ as_ <= c_after c < ae /\
    match c_previous c with
    | None => True
    | Some p => p < i /\ exists d, candidates !! p = Some d /\
                  c_before d < c_before c /\ c_after d < c_after c
    end.

Lemma chain_walk_ok bs be as_ ae candidates fuel i c :
  linked bs be as_ ae candidates -> candidates !! i = Some c -> i < fuel ->
  matches_ok bs (S (c_before c)) as_ (S (c_after c)) (rev (chain_walk fuel candidates (Some i))).
Proof.
  intros Hl. revert i c; induction fuel as [|fuel IH]; intros i c Hc Hf; [lia|].
  cbn [chain_walk]. rewrite Hc. cbn [rev].
  destruct (Hl _ _ Hc) as (Hb & Ha & Hprev).
  apply matches_ok_snoc; [|lia..].
  destruct (c_previous c) as [p|].
  - destruct Hprev as (Hp & d & Hd & Hdb & Hda).
    eapply matches_ok_weaken; [by eapply IH; [exact Hd|lia]|lia..].
  - by destruct fuel.
Qed.

(** The state of the loop while it works on after-index [a] and has still to see only
    before-indexes smaller than [ub]. *)
Record chain_inv (bs be as_ a ub : nat) (st : chains) : Prop := {
  inv_linked : linked bs be as_ (S a) (ch_candidates st);
  inv_length : length (ch_tails st) = length (ch_tailValues st);
  inv_sorted : forall i j x y, i < j ->
    ch_tailValues st !! i = Some x -> ch_tailValues st !! j = Some y -> x < y;
  inv_tails : forall k t, ch_tails st !! k = Some t -> exists c,
    ch_candidates st !! t = Some c /\ ch_tailValues st !! k = Some (c_before c) /\
    (c_after c < a \/ ub <= c_before c);
}.

Lemma set_or_push_lookup {A} i (v : A) l k :
  i <= length l -> set_or_push i v l !! k = if decide (k = i) then Some v else l !! k.
Proof.
  intros Hi. unfold set_or_push. destruct (Nat.eqb_spec i (length l)) as [->|Hne].
  - case_decide as Hk; [subst; by rewrite lookup_app_r, Nat.sub_diag|].
    destruct (decide (k < length l)); [by rewrite lookup_app_l|].
    rewrite lookup_app_r, (lookup_ge_None_2 l) by lia.
    apply lookup_ge_None. cbn. lia.
  - case_decide as Hk; [subst; apply list_lookup_insert_eq; lia|].
    by rewrite list_lookup_insert_ne.
Qed.

Lemma set_or_push_length {A} i (v : A) l :
  i <= length l -> length (set_or_push i v l) = Nat.max (S i) (length l).
Proof.
  intros Hi. unfold set_or_push. destruct (Nat.eqb_spec i (length l)) as [->|Hne].
  - rewrite length_app. cbn. lia.
  - rewrite length_insert. lia.
Qed.

Lemma chain_inv_sorted_le bs be as_ a ub st :
  chain_inv bs be as_ a ub st ->
  forall i j x y, i <= j -> ch_tailValues st !! i = Some x -> ch_tailValues st !! j = Some y -> x <= y.
Proof.
  intros H i j x y Hij Hx Hy. destruct (decide (i = j)) as [->|]; [by simplify_eq|].
  assert (x < y) by (apply (inv_sorted _ _ _ _ _ _ H i j); [lia|done|done]). lia.
Qed.

Lemma linked_snoc bs be as_ a cs c :
  linked bs be as_ (S a) cs -> bs <= c_before c < be -> as_ <= c_after c <= a ->
  match c_previous c with
  | None => True
  | Some p => exists d, cs !! p = Some d /\ c_before d < c_before c /\ c_after d < c_after c
  end -> linked bs be as_ (S a) (cs ++ [c]).
Proof.
  intros Hl Hb Ha Hp i c'. destruct (decide (i < length cs)) as [Hi|Hi].
  - rewrite lookup_app_l by done. intros Hc. destruct (Hl _ _ Hc) as (? & ? & Hprev).
    split; [done|]. split; [done|]. destruct (c_previous c') as [p|]; [|done].
    destruct Hprev as (Hpi & d & Hd & ?). split; [done|]. exists d.
    by rewrite lookup_app_l by lia.
  - rewrite lookup_app_r by lia. intros Hc. assert (i = length cs) as ->.
    { apply lookup_lt_Some in Hc. cbn in Hc. lia. }
    rewrite Nat.sub_diag in Hc. injection Hc as <-.
    split; [done|]. split; [lia|]. destruct (c_previous c) as [p|]; [|done].
    destruct Hp as (d & Hd & ?). pose proof (lookup_lt_Some _ _ _ Hd).
    split; [done|]. exists d. by rewrite lookup_app_l.
Qed.

Lemma chain_step_inv bs be as_ a ub st b :
  chain_inv bs be as_ a ub st -> bs <= b < be -> b < ub -> as_ <= a ->
  chain_inv bs be as_ a b (chain_step a st b).
Proof.
  intros Hinv Hb Hub Ha. pose proof (chain_inv_sorted_le _ _ _ _ _ _ Hinv) as Hs.
  destruct (lowerBound_spec _ b Hs) as (Hat & Hlow & Hhigh).
  destruct Hinv as [Hl Hlen Hsrt Ht].
  unfold chain_step. generalize dependent (lowerBound (ch_tailValues st) b).
  intros at_ Hat Hlow Hhigh.
  set (c := {| c_before := b; c_after := a;
               c_previous := match at_ with 0 => None | S p => ch_tails st !! p end |}).
  split; cbn -[set_or_push].
  - apply (linked_snoc bs be as_ a _ c); cbn; [done|lia|lia|].
    destruct at_ as [|p]; [done|]. destruct (ch_tails st !! p) as [t|] eqn:Hp; [|done].
    destruct (Ht _ _ Hp) as (d & Hd & Hv & Hor). exists d. split; [done|].
    specialize (Hlow p (c_before d) ltac:(lia) Hv). lia.
  - rewrite !set_or_push_length by lia. by rewrite Hlen.
  - intros i j x y Hij. rewrite !set_or_push_lookup by done.
    repeat case_decide; simplify_eq; try lia.
    + intros [= <-] Hy. assert (j < length (ch_tailValues st)) by (by eapply lookup_lt_Some).
      destruct (lookup_lt_is_Some_2 (ch_tailValues st) at_ ltac:(lia)) as [z Hz].
      assert (z < y) by (eapply Hsrt; [|exact Hz|exact Hy]; lia).
      specialize (Hhigh at_ z (Nat.le_refl _) Hz). lia.
    + intros Hx [= <-]. eapply Hlow; [|exact Hx]. lia.
    + eauto.
  - intros k t. rewrite !set_or_push_lookup by (done || lia). case_decide as Hk.
    + intros [= <-]. exists c. rewrite lookup_app_r, Nat.sub_diag by lia. cbn. auto.
    + intros Htk. destruct (Ht _ _ Htk) as (d & Hd & Hv & Hor). exists d.
      rewrite lookup_app_l by (by eapply lookup_lt_Some). split; [done|]. split; [done|]. lia.
Qed.

Lemma chain_inv_ub bs be as_ a ub ub' st :
  chain_inv bs be as_ a ub st -> ub' <= ub -> chain_inv bs be as_ a ub' st.
Proof.
  intros [Hl Hn Hs Ht] Hub. split; try done. intros k t Hk.
  destruct (Ht _ _ Hk) as (c & ? & ? & ?). exists c. split; [done|]. split; [done|]. lia.
Qed.

Lemma chain_row_inv bs be as_ a ub st l :
  chain_inv bs be as_ a ub st -> as_ <= a -> be <= ub ->
  increasing bs be l -> chain_inv bs be as_ a 0 (foldl (chain_step a) st (rev l)).
Proof.
  intros Hinv Ha Hub [Hi Hall].
  assert (Hgen : forall l ub st, chain_inv bs be as_ a ub st ->
    (forall i j x y, i < j -> l !! i = Some x -> l !! j = Some y -> y < x) ->
    Forall (fun x => bs <= x < be /\ x < ub) l ->
    chain_inv bs be as_ a 0 (foldl (chain_step a) st l)).
  { clear - Ha. induction l as [|b l IH]; intros ub st Hinv Hd Hall; cbn.
    - eapply chain_inv_ub; [done|lia].
    - apply Forall_cons in Hall as [[Hb Hlt] Hall].
      eapply (IH b); [by eapply chain_step_inv| |].
      + intros i j x y Hij Hx Hy. by apply (Hd (S i) (S j) x y ltac:(lia)).
      + rewrite Forall_lookup in Hall |- *. intros i x Hx.
        specialize (Hall _ _ Hx). specialize (Hd 0 (S i) b x ltac:(lia) eq_refl Hx). lia. }
  eapply Hgen; [done| |].
  - intros i j x y Hij Hx Hy. rewrite rev_reverse in Hx, Hy.
    apply reverse_lookup_Some in Hx as [Hx Hil]. apply reverse_lookup_Some in Hy as [Hy Hjl].
    eapply Hi; [|exact Hy|exact Hx]. lia.
  - rewrite rev_reverse, Forall_reverse. eapply Forall_impl; [exact Hall|]. cbn. lia.
Qed.

Lemma chain_inv_next bs be as_ a ub ub' st :
  chain_inv bs be as_ a ub st -> chain_inv bs be as_ (S a) ub' st.
Proof.
  intros [Hl Hn Hs Ht]. split; try done.
  - intros i c Hc. destruct (Hl _ _ Hc) as (? & ? & ?). split; [done|]. split; [lia|done].
  - intros k t Hk. destruct (Ht _ _ Hk) as (c & Hc & ? & ?). exists c.
    split; [done|]. split; [done|]. left. destruct (Hl _ _ Hc) as (_ & ? & _). lia.
Qed.

Lemma chain_loop_inv after positions bs be as_ index n st :
  (forall k l, jmap_get k positions = Some l -> increasing bs be l) ->
  as_ <= index -> chain_inv bs be as_ index be st ->
  chain_inv bs be as_ (index + n) be (chain_loop after positions index n st).
Proof.
  intros Hp. revert index st; induction n as [|n IH]; intros index st Hi Hinv; cbn [chain_loop].
  { by rewrite Nat.add_0_r. }
  rewrite <- Nat.add_succ_comm. apply IH; [lia|].
  destruct (jmap_get _ _) as [l|] eqn:Hl; eapply chain_inv_next; [|done].
  eapply chain_row_inv; eauto.
Qed.

Lemma identityAnchors_ok before after bs be as_ ae :
  bs <= be -> as_ <= ae -> matches_ok bs be as_ ae (identityAnchors before after bs be as_ ae).
Proof.
  intros Hb Ha. unfold identityAnchors.
  set (positions := anchor_positions before bs (be - bs) []).
  assert (Hp : forall k l, jmap_get k positions = Some l -> increasing bs be l).
  { intros k l Hk. replace be with (bs + (be - bs)) by lia.
    eapply (anchor_positions_increasing before bs bs); [done| |exact Hk]. done. }
  destruct (count_candidates _ _ _ _ _) as [n|].
  2:{ pose proof (greedyIdentityAnchors_ok after positions bs be 0 as_ (ae - as_) Hp) as H.
      eapply matches_ok_weaken; [exact H|lia..]. }
  destruct (n =? 0)%N; [done|].
  set (st := chain_loop _ _ _ _ _).
  assert (Hinv : chain_inv bs be as_ ae be st).
  { replace ae with (as_ + (ae - as_)) by lia. apply chain_loop_inv; [done..|].
    split; cbn; try done. }
  destruct (last (ch_tails st)) as [t|] eqn:Ht; [|by destruct (length (ch_candidates st))].
  rewrite last_lookup in Ht. destruct (inv_tails _ _ _ _ _ _ Hinv _ _ Ht) as (c & Hc & _ & Hor).
  pose proof (inv_linked _ _ _ _ _ _ Hinv) as Hl.
  destruct (Hl _ _ Hc) as (Hcb & Hca & _).
  eapply matches_ok_weaken; [eapply chain_walk_ok; [done|exact Hc|by eapply lookup_lt_Some]|lia..].
Qed.

(** ** [lcsMatches] is a longest common alignment *)

Section LcsFacts.
Context (equal : json -> json -> bool) (before after : list json).

Local Abbreviation n := (length before).
Local Abbreviation m := (length after).
Local Abbreviation w := (width after).

Definition cell (t : list nat) (i j : nat) : nat := t !!! (i * w + j).

Definition cell_ok (t : list nat) (i j : nat) : Prop :=
  cell t i j = if equal (before !!! i) (after !!! j) then S (cell t (S i) (S j))
               else Nat.max (cell t (S i) j) (cell t i (S j)).

(** The table while row [left] is filled down to column [right]. *)
Record table_inv (t : list nat) (left_ right_ : nat) : Prop := {
  table_length : length t = S n * w;
  table_bottom : forall j, j <= m -> cell t n j = 0;
  table_side : forall i, i <= n -> cell t i m = 0;
  table_filled : forall i j, i < n -> j < m ->
    left_ < i \/ (i = left_ /\ right_ <= j) -> cell_ok t i j;
}.

Lemma cell_index i j i' j' : j < w -> j' < w -> i * w + j = i' * w + j' -> i = i' /\ j = j'.
Proof. intros Hj Hj' H. assert (i = i') by nia. subst. lia. Qed.

Lemma cell_insert t i j i' j' v :
  length t = S n * w -> i <= n -> j < w -> j' < w ->
  cell (<[i * w + j := v]> t) i' j' = if decide (i = i' /\ j = j') then v else cell t i' j'.
Proof.
  intros Hl Hi Hj Hj'. unfold cell. case_decide as H.
  - destruct H as [-> ->]. apply list_lookup_total_insert_eq. rewrite Hl. nia.
  - apply list_lookup_total_insert_ne. intros He. by apply H, cell_index.
Qed.

Lemma table_inv_cell t i j :
  table_inv t i (S j) -> i < n -> j < m -> table_inv (lcs_cell equal before after t i j) i j.
Proof.
  intros [Hl Hb Hs Hf] Hi Hj. unfold lcs_cell.
  assert (Hc : forall v i' j', j' <= m -> cell (<[i * w + j := v]> t) i' j'
    = if decide (i = i' /\ j = j') then v else cell t i' j').
  { intros v i' j' Hj'. apply cell_insert; unfold width; lia || done. }
  split.
  - by rewrite length_insert.
  - intros j' Hj'. rewrite Hc by done. rewrite decide_False by lia. auto.
  - intros i' Hi'. rewrite Hc by done. rewrite decide_False by lia. auto.
  - intros i' j' Hi' Hj' Hor. unfold cell_ok. rewrite !Hc by lia.
    destruct (decide (i = i' /\ j = j')) as [[-> ->]|Hne].
    + rewrite !(decide_False (P := _ /\ _)) by lia. done.
    + rewrite !(decide_False (P := i = S i' /\ _)), (decide_False (P := i = i' /\ j = S j')) by lia.
      apply Hf; [done|done|lia].
Qed.

Lemma table_inv_row t i k :
  table_inv t i k -> i < n -> k <= m -> table_inv (lcs_row equal before after t i k) i 0.
Proof.
  revert t; induction k as [|k IH]; intros t Ht Hi Hk; [done|].
  cbn. apply IH; [|done|lia]. by apply table_inv_cell.
Qed.

Lemma table_inv_fill t k :
  table_inv t k 0 -> k <= n -> table_inv (lcs_fill equal before after t k) 0 0.
Proof.
  revert t; induction k as [|k IH]; intros t Ht Hk; [done|].
  cbn. apply IH; [|lia]. apply table_inv_row; [|done..].
  destruct Ht as [Hl Hb Hs Hf]. split; [done..|].
  intros i j Hi Hj Hor. apply Hf; [done..|]. lia.
Qed.

Lemma lcs_table_inv : table_inv (lcs_table equal before after) 0 0.
Proof.
  apply table_inv_fill; [|done].
  assert (Hz : forall k, replicate (S n * w) 0 !!! k = 0).
  { intros k. destruct (decide (k < S n * w)) as [Hk|Hk].
    - apply list_lookup_total_correct. by apply lookup_replicate_2.
    - rewrite list_lookup_total_alt, lookup_ge_None_2; [done|]. rewrite length_replicate. lia. }
  split.
  - apply length_replicate.
  - intros j _. apply Hz.
  - intros i _. apply Hz.
  - intros; lia.
Qed.

(** A common alignment: the matched elements are [equal]. *)
Definition alignment (i j : nat) (ms : list ArrayMatch) : Prop :=
  matches_ok i n j m ms /\ Forall (fun '(b, a) => equal (before !!! b) (after !!! a) = true) ms.

Local Abbreviation T := (lcs_table equal before after).

Lemma cell_zero i j : i <= n -> j <= m -> n <= i \/ m <= j -> cell T i j = 0.
Proof.
  intros Hi Hj [H|H].
  - replace i with n by lia. by apply (table_bottom _ _ _ lcs_table_inv).
  - replace j with m by lia. by apply (table_side _ _ _ lcs_table_inv).
Qed.

Lemma cell_step i j : i < n -> j < m -> cell_ok T i j.
Proof. intros. apply (table_filled _ _ _ lcs_table_inv); [done..|lia]. Qed.

Lemma lcs_walk_ok fuel i j :
  matches_ok i n j m (lcs_walk equal before after fuel T i j) /\
  Forall (fun '(b, a) => equal (before !!! b) (after !!! a) = true)
    (lcs_walk equal before after fuel T i j).
Proof.
  revert i j; induction fuel as [|fuel IH]; intros i j; cbn [lcs_walk]; [done|].
  destruct (Nat.ltb_spec i n); [|done]. destruct (Nat.ltb_spec j m); [|done]. cbn [andb].
  destruct (equal _ _) eqn:He; cbn [andb].
  - destruct (_ =? _)%nat.
    + destruct (IH (S i) (S j)) as [H1 H2]. split; [|by constructor].
      cbn. split; [lia|]. split; [lia|done].
    + destruct (_ <=? _)%nat; destruct (IH (S i) j) as [H1 H2]; destruct (IH i (S j)) as [H3 H4];
        (split; [eapply matches_ok_weaken; [eassumption|lia..]|done]).
  - destruct (_ <=? _)%nat; destruct (IH (S i) j) as [H1 H2]; destruct (IH i (S j)) as [H3 H4];
      (split; [eapply matches_ok_weaken; [eassumption|lia..]|done]).
Qed.

Lemma lcs_walk_length fuel i j :
  i <= n -> j <= m -> (n - i) + (m - j) <= fuel ->
  length (lcs_walk equal before after fuel T i j) = cell T i j.
Proof.
  revert i j; induction fuel as [|fuel IH]; intros i j Hi Hj Hf; cbn [lcs_walk].
  { symmetry. apply cell_zero; lia. }
  destruct (Nat.ltb_spec i n); [|by rewrite cell_zero by lia].
  destruct (Nat.ltb_spec j m); [|by rewrite cell_zero by lia]. cbn [andb].
  pose proof (cell_step i j ltac:(done) ltac:(done)) as Hc. unfold cell_ok in Hc.
  change (T !!! (i * w + j)) with (cell T i j).
  change (T !!! (S i * w + S j)) with (cell T (S i) (S j)).
  change (T !!! (i * w + S j)) with (cell T i (S j)).
  change (T !!! (S i * w + j)) with (cell T (S i) j).
  destruct (equal _ _) eqn:He; cbn [andb].
  - rewrite Hc, Nat.eqb_refl. cbn. rewrite IH by lia. done.
  - destruct (Nat.leb_spec (cell T i (S j)) (cell T (S i) j)); rewrite IH by lia; lia.
Qed.

Lemma alignment_weaken i j i' j' ms : alignment i' j' ms -> i <= i' -> j <= j' -> alignment i j ms.
Proof. intros [H1 H2] ??. split; [|done]. eapply matches_ok_weaken; [done|lia..]. Qed.

Lemma alignment_bound i j ms : i <= n -> j <= m -> alignment i j ms -> length ms <= cell T i j.
Proof.
  remember ((n - i) + (m - j)) as d eqn:Hd.
  revert i j ms Hd; induction (Nat.lt_wf_0 d) as [d _ IH]; intros i j ms Hd Hi Hj Ha.
  destruct ms as [|[b a] ms]; [cbn; lia|].
  destruct Ha as [(Hb & Hab & Hok) [Heq Hall]%Forall_cons].
  pose proof (cell_step i j ltac:(lia) ltac:(lia)) as Hc. unfold cell_ok in Hc. rewrite Hc.
  assert (Hrest : alignment (S b) (S a) ms) by done.
  destruct (equal (before !!! i) (after !!! j)) eqn:He.
  - cbn [length]. apply le_n_S. eapply IH; [|reflexivity|lia..|]; [lia|].
    eapply alignment_weaken; [done|lia..].
  - destruct (decide (b = i)) as [->|Hbi].
    + assert (a <> j) by congruence.
      assert (length ((i, a) :: ms) <= cell T i (S j)); [|lia].
      eapply IH; [|reflexivity|lia..|]; [lia|]. split; [|by constructor]. cbn. split; [lia|]. split; [lia|done].
    + assert (length ((b, a) :: ms) <= cell T (S i) j); [|lia].
      eapply IH; [|reflexivity|lia..|]; [lia|]. split; [|by constructor]. cbn. split; [lia|]. split; [lia|done].
Qed.

Lemma lcsMatches_spec maxCells ms :
  lcsMatches equal before after maxCells = Some ms ->
  alignment 0 0 ms /\ forall ms', alignment 0 0 ms' -> length ms' <= length ms.
Proof.
  unfold lcsMatches. destruct (_ || _) eqn:He.
  - intros [= <-]. split; [done|]. intros ms' Ha.
    pose proof (alignment_bound 0 0 ms' ltac:(lia) ltac:(lia) Ha) as Hbound.
    rewrite cell_zero in Hbound; [done|lia..|].
    apply orb_true_iff in He as [He%Nat.eqb_eq|He%Nat.eqb_eq]; rewrite He; lia.
  - destruct (maxCells <? _)%N; [done|]. intros [= <-]. split; [split; apply lcs_walk_ok|].
    intros ms' Ha. rewrite lcs_walk_length by lia. apply alignment_bound; try done; lia.
Qed.

(** The table is refused only for its size. *)
Lemma lcsMatches_total maxCells :
  (N.of_nat n * N.of_nat m <= maxCells)%N -> is_Some (lcsMatches equal before after maxCells).
Proof.
  intros Hm. unfold lcsMatches. destruct (_ || _); [eauto|].
  rewrite (proj2 (N.ltb_ge _ _)) by done. eauto.
Qed.
End LcsFacts.

(** ** [permutation] is a rearrangement *)

Section PermutationFacts.
Context (h : N -> json).

(** The indexes of an entry that are still to be taken. *)
Definition unused (m : perm_map) : list nat := concat ((fun e => drop e.2.2 e.2.1) <$> m).

(** Every index of an entry holds the value of its key. *)
Definition entries_ok (before : list json) (m : perm_map) : Prop :=
  forall k is_ u, (k, (is_, u)) ∈ m -> in_store h k /\
    Forall (fun i => i < length before /\ doc_of (before !!! i) = doc_of k) is_.

Lemma jmap_set_unused k v (m : perm_map) is_ u :
  jmap_get k m = Some (is_, u) ->
  exists rest, unused m ≡ₚ drop u is_ ++ rest /\
    unused (jmap_set k v m) ≡ₚ drop v.2 v.1 ++ rest.
Proof.
  induction m as [|[k1 [is1 u1]] m IH]; cbn; [done|].
  destruct (strict_eq k1 k).
  - intros [= -> ->]. exists (unused m). done.
  - intros (rest & H1 & H2)%IH. exists (drop u1 is1 ++ rest). unfold unused in *. cbn.
    rewrite H1, H2. split; rewrite !app_assoc; f_equiv; apply (comm (++)).
Qed.

Lemma jmap_set_fresh k v (m : perm_map) :
  jmap_get k m = None -> jmap_set k v m = m ++ [(k, v)].
Proof.
  induction m as [|[k1 v1] m IH]; cbn; [done|].
  destruct (strict_eq k1 k); [done|]. intros H. by rewrite IH.
Qed.

Lemma jmap_set_existing_elem {V} k (v w : V) m kv :
  jmap_get k m = Some w -> kv ∈ jmap_set k v m ->
  kv ∈ m \/ exists k', (k', w) ∈ m /\ strict_eq k' k = true /\ kv = (k', v).
Proof.
  induction m as [|[k1 v1] m IH]; cbn; [done|].
  destruct (strict_eq k1 k) eqn:He.
  - intros [= ->]. rewrite !elem_of_cons. intros [->|Hin]; [|by auto].
    right. exists k1. split; [by left|done].
  - intros Hg. rewrite !elem_of_cons. intros [->|Hin]; [by auto|].
    destruct (IH Hg Hin) as [|(k' & Hk & Hs & ->)]; [by auto|].
    right. exists k'. split; [by right|done].
Qed.

Lemma entries_ok_set before k m is_ u is' u' :
  entries_ok before m -> in_store h k -> jmap_get k m = Some (is_, u) ->
  (forall i, i ∈ is' -> i ∈ is_ \/ (i < length before /\ doc_of (before !!! i) = doc_of k)) ->
  entries_ok before (jmap_set k (is', u') m).
Proof.
  intros Hm Hk Hget His k' is2 u2 Hin.
  destruct (jmap_set_existing_elem _ _ _ _ _ Hget Hin) as [|(k1 & Hk1 & He & [= -> -> ->])]; [by eapply Hm|].
  destruct (Hm _ _ _ Hk1) as [Hk1in Hall]. split; [done|].
  rewrite Forall_forall in Hall |- *. intros i Hi. destruct (His i Hi) as [|[Hlt Hd]]; [by auto|].
  split; [done|]. rewrite Hd. symmetry. by eapply strict_eq_doc.
Qed.

Lemma unused_app m1 m2 : unused (m1 ++ m2) = unused m1 ++ unused m2.
Proof. unfold unused. by rewrite fmap_app, concat_app. Qed.

Lemma perm_take_length after m p : perm_take after m = Some p -> length p = length after.
Proof.
  revert m p; induction after as [|v after IH]; intros m p; cbn; [by intros [= <-]|].
  intros H. repeat (case_match; try done). simplify_eq. cbn. f_equal. eauto.
Qed.

Lemma perm_take_spec before after m p :
  Forall (in_store h) after -> entries_ok before m ->
  perm_take after m = Some p ->
  (exists rest, unused m ≡ₚ p ++ rest) /\
  Forall2 (fun i v => i < length before /\ doc_of (before !!! i) = doc_of v) p after.
Proof.
  revert m p; induction after as [|v after IH]; intros m p Hin Hm; cbn.
  { intros [= <-]. split; [|constructor]. by exists (unused m). }
  apply Forall_cons in Hin as [Hv Hin].
  destruct (jmap_get v m) as [[is_ u]|] eqn:Hget; [|done].
  destruct (is_ !! u) as [i|] eqn:Hi; [|done].
  destruct (perm_take after _) as [rest|] eqn:Hrest; [|done]. intros [= <-].
  destruct (jmap_get_elem _ _ _ Hget) as (k & Hk & Heq).
  destruct (Hm _ _ _ Hk) as [Hkin Hall].
  assert (Hm' : entries_ok before (jmap_set v (is_, S u) m)).
  { eapply entries_ok_set; eauto. }
  destruct (IH _ _ Hin Hm' Hrest) as [(r & Hr) HF2].
  destruct (jmap_set_unused v (is_, S u) m _ _ Hget) as (r' & Hu1 & Hu2). cbn in Hu2.
  split.
  - exists r. rewrite Hu1, (drop_S _ _ _ Hi). cbn. f_equiv. by rewrite <- Hr, Hu2.
  - constructor; [|done]. rewrite Forall_lookup in Hall. destruct (Hall _ _ Hi) as [Hlt Hd].
    split; [done|]. rewrite Hd. by eapply strict_eq_doc.
Qed.

Lemma perm_positions_spec before0 before index m :
  (forall i, i < length before -> before0 !! (index + i) = before !! i) ->
  Forall (in_store h) before -> entries_ok before0 m ->
  (forall k is_ u, jmap_get k m = Some (is_, u) -> u = 0) ->
  unused m ≡ₚ seq 0 index ->
  entries_ok before0 (perm_positions before index m) /\
  unused (perm_positions before index m) ≡ₚ seq 0 (index + length before).
Proof.
  revert index m; induction before as [|v before IH]; intros index m Hb Hin Hm H0 Hu; cbn [perm_positions].
  { cbn. by rewrite Nat.add_0_r. }
  apply Forall_cons in Hin as [Hv Hin].
  assert (Hv0 : before0 !! index = Some v).
  { specialize (Hb 0 ltac:(cbn; lia)). by rewrite Nat.add_0_r in Hb. }
  assert (Hnew : index < length before0 /\ doc_of (before0 !!! index) = doc_of v).
  { split; [by eapply lookup_lt_Some|]. by rewrite (list_lookup_total_correct _ _ _ Hv0). }
  cbn [length]. rewrite <- Nat.add_succ_comm. apply IH.
  - intros i Hi. rewrite Nat.add_succ_comm. apply (Hb (S i)). cbn. lia.
  - done.
  - destruct (jmap_get v m) as [[is_ u]|] eqn:Hget.
    + eapply entries_ok_set; eauto. intros i. rewrite elem_of_app, list_elem_of_singleton.
      intros [?| ->]; auto.
    + rewrite jmap_set_fresh by done. intros k is_ u. rewrite elem_of_app, list_elem_of_singleton.
      intros [Hk|Hk]; [by eapply Hm|]. injection Hk as -> -> ->. split; [done|]. by apply Forall_singleton.
  - intros k is_ u. destruct (jmap_get v m) as [[is0 u0]|] eqn:Hget.
    + destruct (jmap_get_set v k (is0 ++ [index], u0) m) as [-> | ->].
      * intros [= <- <-]. eauto.
      * eauto.
    + destruct (jmap_get_set v k ([index], 0) m) as [-> | ->].
      * by intros [= <- <-].
      * eauto.
  - rewrite seq_S. cbn. rewrite <- Hu. destruct (jmap_get v m) as [[is_ u]|] eqn:Hget.
    + rewrite (H0 _ _ _ Hget). destruct (jmap_set_unused v (is_ ++ [index], 0) m _ _ Hget) as (r & H1 & H2).
      rewrite H2, H1, (H0 _ _ _ Hget). cbn. rewrite !drop_0. rewrite <- !app_assoc. f_equiv. apply (comm (++)).
    + rewrite jmap_set_fresh by done. by rewrite unused_app.
Qed.

Lemma permutation_spec before after p :
  Forall (in_store h) before -> Forall (in_store h) after ->
  permutation before after = Some p ->
  length p = length before /\ p ≡ₚ seq 0 (length before) /\
  Forall2 (fun i v => doc_of (before !!! i) = doc_of v) p after.
Proof.
  intros Hb Ha. unfold permutation. destruct (Nat.eqb_spec (length before) (length after)) as [Hl|]; [|done].
  intros Hp.
  assert (entries_ok before (perm_positions before 0 []) /\
    unused (perm_positions before 0 []) ≡ₚ seq 0 (0 + length before)) as [Hm Hu].
  { apply perm_positions_spec; try done. intros k is_ u Hk. by apply elem_of_nil in Hk. }
  destruct (perm_take_spec before after _ p Ha Hm Hp) as [(r & Hr) HF2].
  pose proof (perm_take_length _ _ _ Hp) as Hlp. cbn in Hu. rewrite Hr in Hu.
  assert (r = []) as ->.
  { apply Permutation_length in Hu. rewrite length_app, length_seq in Hu.
    apply nil_length_inv. lia. }
  rewrite app_nil_r in Hu. split; [lia|]. split; [done|].
  eapply Forall2_impl; [exact HF2|]. by intros i v [_ ?].
Qed.
End PermutationFacts.
