(* ===== verification/DeltaDiff.v ===== *)
(** [diffRevisions] of chord/src/delta/diff.ts: a batch of operations that turns one
    revision into another. The recursion is bounded by a fuel that [diff_fuel] provides;
    [None] is running out of it, which the facts of [DeltaDiffFacts] exclude. *)
From S2P Require Import Prelude JsString Json DeltaOp DeltaMatch.

(** ** Overlap of two strings (chord/src/delta/index.ts) *)

(** The loop over the candidates of one probe; [left_] tries remain. *)
Fixpoint overlap_probe (left_ : nat) (tail b head : string) (k : option nat) : option nat :=
  match left_, k with
  | S left', Some k =>
      let n := String.length tail - k in
      if (n <=? String.length b)%nat && String.eqb (str_drop k tail) (str_take n b)
      then Some n
      else overlap_probe left' tail b head (str_indexOf tail head (S k))
  | _, _ => None
  end.

(** The loop over the probe lengths; it stops after the length 1. *)
Fixpoint overlap_probes (hs : list nat) (maxCandidates : nat) (tail b : string) : nat :=
  match hs with
  | [] => 0
  | h :: hs' =>
      let head := str_take h b in
      match overlap_probe maxCandidates tail b head (str_indexOf tail head 0) with
      | Some n => n
      | None => if (h =? 1)%nat then 0 else overlap_probes hs' maxCandidates tail b
      end
  end.

Definition overlap (a b : string) (scan : N) (probe maxCandidates : nat) : nat :=
  if (String.length a =? 0)%nat || (String.length b =? 0)%nat || (scan =? 0)%N then 0
  else
    let tail :=
      if (scan <? N.of_nat (String.length a))%N
      then str_drop (String.length a - N.to_nat scan) a else a in
    overlap_probes [Nat.min probe (String.length b); 1] maxCandidates tail b.

(** [`${text.slice(start)} `.slice(0, -1)]. *)
Definition ownedSlice (text : string) (start : nat) : string :=
  let copy := str_drop start text +:+ " " in
  str_take (String.length copy - 1) copy.

(** ** The batch being written *)

Definition DEFAULT_OVERLAP_SCAN : N := 65536.
Definition MAX_DELTA_OPERATIONS : N := 4096.
Definition MAX_SEMANTIC_CELLS : N := 65536.

(** The operations, and whether the batch is in [overflowedBatches]. *)
Record batch : Type := {
  b_ops : list Op;
  b_overflowed : bool;
}.

Definition emitOperation (st : batch) (op : Op) : batch :=
  if b_overflowed st then st
  else if (MAX_DELTA_OPERATIONS <=? N.of_nat (length (b_ops st)))%N
  then {| b_ops := b_ops st; b_overflowed := true |}
  else {| b_ops := b_ops st ++ [op]; b_overflowed := false |}.

Definition emitSet (p : path) (v : json) (st : batch) : batch :=
  if decide (p = []) then emitOperation st (OpR v) else emitOperation st (OpS p v).

Definition emitString (before after : string) (p : path) (st : batch) : batch :=
  let nb := String.length before in
  let na := String.length after in
  if String.eqb before after then st
  else if (nb <? na)%nat && String.eqb (str_take nb after) before
  then emitOperation st (OpA p (ownedSlice after nb))
  else
    let shared := overlap before after DEFAULT_OVERLAP_SCAN 64 8 in
    if (shared =? 0)%nat then emitOperation st (OpS p (JStr after))
    else
      let st' := emitOperation st (OpT p (N.of_nat (nb - shared))) in
      if (shared <? na)%nat then emitOperation st' (OpA p (ownedSlice after shared)) else st'.

(** ** Arrays *)

(** How many leading elements of the two regions are the same, up to [n]. *)
Fixpoint same_front (before after : list json) (bs as_ n : nat) : nat :=
  match n with
  | 0 => 0
  | S n' => if sameValue (before !!! bs) (after !!! as_)
            then S (same_front before after (S bs) (S as_) n') else 0
  end.

(** The same for the trailing elements. *)
Fixpoint same_back (before after : list json) (be ae n : nat) : nat :=
  match n with
  | 0 => 0
  | S n' => if sameValue (before !!! (be - 1)) (after !!! (ae - 1))
            then S (same_back before after (be - 1) (ae - 1) n') else 0
  end.

(** The positions of two regions of one length that hold the same value. *)
Definition positional_matches (before after : list json) (bs as_ count : nat) : list ArrayMatch :=
  (fun offset => (bs + offset, as_ + offset)) <$>
    filter (fun offset => sameValue (before !!! (bs + offset)) (after !!! (as_ + offset)) = true)
      (seq 0 count).

Section Arrays.
(** [diffValue] and [diffArrayRegion], one level down. *)
Context (value : json -> json -> path -> batch -> option batch).
Context (before after : list json) (p : path).
Context (region : nat -> nat -> nat -> nat -> nat -> batch -> option batch).

Fixpoint processArrayMatches (bs be as_ ae out : nat) (ms : list ArrayMatch) (st : batch)
  : option batch :=
  if b_overflowed st then Some st
  else match ms with
       | [] => region bs be as_ ae out st
       | (beforeMatch, afterMatch) :: ms' =>
           st1 ← region bs beforeMatch as_ afterMatch out st;
           let out1 := out + (afterMatch - as_) in
           st2 ← (if sameValue (before !!! beforeMatch) (after !!! afterMatch) then Some st1
                  else value (before !!! beforeMatch) (after !!! afterMatch)
                         (p ++ [SNum (N.of_nat out1)]) st1);
           processArrayMatches (S beforeMatch) be (S afterMatch) ae (S out1) ms' st2
       end.

(** [diffArrayRegion] after the loops that shrink the region. *)
Definition diffTrimmedRegion (bs be as_ ae out : nat) (st : batch) : option batch :=
  let beforeCount := be - bs in
  let afterCount := ae - as_ in
  let process ms := processArrayMatches bs be as_ ae out ms st in
  let splice := Some (emitOperation st
    (OpP p (N.of_nat out) (N.of_nat beforeCount) (slice as_ ae after))) in
  let positional :=
    if (beforeCount =? afterCount)%nat then positional_matches before after bs as_ beforeCount else [] in
  let subsequence := default [] (identitySubsequence before after bs be as_ ae) in
  let identity := identityAnchors before after bs be as_ ae in
  let semantic :=
    default [] (lcsMatches semanticallyAligned (slice bs be before) (slice as_ ae after) MAX_SEMANTIC_CELLS) in
  if ((beforeCount =? 0) && (afterCount =? 0))%nat then Some st
  else if ((beforeCount =? 0) || (afterCount =? 0))%nat then splice
  else if negb (length positional =? 0)%nat then process positional
  else if negb (length subsequence =? 0)%nat then process subsequence
  else if negb (length identity =? 0)%nat then process identity
  else if negb (length semantic =? 0)%nat
  then process ((fun '(b, a) => (bs + b, as_ + a)) <$> semantic)
  else if ((beforeCount =? 1) && (afterCount =? 1))%nat
  then value (before !!! bs) (after !!! as_) (p ++ [SNum (N.of_nat out)]) st
  else splice.
End Arrays.

(** The loops that drop the common ends of the regions. *)
Definition trimmed (before after : list json) (bs be as_ ae : nat) : nat * nat :=
  let front := same_front before after bs as_ (Nat.min (be - bs) (ae - as_)) in
  let back := same_back before after be ae (Nat.min (be - (bs + front)) (ae - (as_ + front))) in
  (front, back).

Definition diffArray (region : nat -> nat -> nat -> nat -> nat -> batch -> option batch)
    (b a : json) (before after : list json) (p : path) (st : batch) : option batch :=
  if strict_eq b a || equalJson b a then Some st
  else
    let order :=
      if ((length before =? length after) && (1 <? length before))%nat
         && negb (sameValue (before !!! 0) (after !!! 0))
         && negb (sameValue (before !!! (length before - 1)) (after !!! (length after - 1)))
      then permutation before after else None in
    match order with
    | Some perm => Some (emitOperation st (OpM p (N.of_nat <$> perm)))
    | None => region 0 (length before) 0 (length after) 0 st
    end.

(** ** Objects *)

Section Objects.
Context (value : json -> json -> path -> batch -> option batch) (p : path).

Fixpoint diff_after_keys (before after : list (string * json)) (st : batch) : option batch :=
  match after with
  | [] => Some st
  | (k, v) :: after' =>
      if b_overflowed st then Some st
      else
        st' ← match obj_get k before with
              | Some b => value b v (p ++ [SStr k]) st
              | None => Some (emitSet (p ++ [SStr k]) v st)
              end;
        diff_after_keys before after' st'
  end.

Fixpoint diff_before_keys (before after : list (string * json)) (st : batch) : batch :=
  match before with
  | [] => st
  | (k, _) :: before' =>
      if b_overflowed st then st
      else
        diff_before_keys before' after
          (match obj_get k after with
           | Some _ => st
           | None => emitOperation st (OpD (p ++ [SStr k]))
           end)
  end.

Definition diffObject (b a : json) (before after : list (string * json)) (st : batch)
  : option batch :=
  if existsb reserved (obj_keys before ++ obj_keys after) then
    Some (if equalJson b a then st else emitSet p a st)
  else
    st' ← diff_after_keys before after st;
    Some (diff_before_keys before after st').
End Objects.

(** ** Values *)

Fixpoint diffValue (fuel : nat) (before after : json) (p : path) (st : batch) {struct fuel}
  : option batch :=
  match fuel with
  | 0 => None
  | S fuel' =>
      if strict_eq before after || b_overflowed st then Some st
      else match before, after with
           | JStr b, JStr a =>
               if decide (p = []) then Some (emitSet p after st) else Some (emitString b a p st)
           | JArr _ bs, JArr _ as_ =>
               diffArray (diffArrayRegion fuel' bs as_ p) before after bs as_ p st
           | JObj _ bs, JObj _ as_ => diffObject (diffValue fuel') p before after bs as_ st
           | _, _ => Some (emitSet p after st)
           end
  end
with diffArrayRegion (fuel : nat) (before after : list json) (p : path)
       (bs be as_ ae out : nat) (st : batch) {struct fuel} : option batch :=
  match fuel with
  | 0 => None
  | S fuel' =>
      if b_overflowed st then Some st
      else
        let '(front, back) := trimmed before after bs be as_ ae in
        diffTrimmedRegion (diffValue fuel') before after p (diffArrayRegion fuel' before after p)
          (bs + front) (be - back) (as_ + front) (ae - back) (out + front) st
  end.

(** ** Costs *)

Definition len (s : string) : N := N.of_nat (String.length s).

(** [index === 0 ? 0 : 1]. *)
Definition comma (index : nat) : N := match index with 0 => 0 | S _ => 1 end.

Fixpoint jsonCost (v : json) : N :=
  match v with
  | JNull => 4
  | JStr s => len s + 2
  | JNum n => len (num_to_string n)
  | JBool b => if b then 4 else 5
  | JArr _ xs =>
      (fix go index xs cost :=
         match xs with
         | [] => cost
         | x :: xs' => go (S index) xs' (cost + jsonCost x + comma index)
         end) 0%nat xs 2
  | JObj _ fs =>
      (fix go index fs cost :=
         match fs with
         | [] => cost
         | (k, x) :: fs' => go (S index) fs' (cost + len k + 3 + jsonCost x + comma index)
         end) 0%nat fs 2
  end%N.

Definition segCost (g : seg) : N :=
  match g with SStr s => len s + 2 | SNum n => len (int_to_string n) end%N.

Fixpoint pathCost_loop (index : nat) (p : path) (cost : N) : N :=
  match p with
  | [] => cost
  | g :: p' => pathCost_loop (S index) p' (cost + segCost g + comma index)
  end%N.

Definition pathCost (p : path) : N := pathCost_loop 0 p 2.

Definition operationCost (op : Op) : N :=
  match op with
  | OpR v => 6 + jsonCost v
  | OpS p v => 7 + pathCost p + jsonCost v
  | OpD p => 6 + pathCost p
  | OpA p s => 7 + pathCost p + len s + 2
  | OpT p n => 7 + pathCost p + len (int_to_string n)
  | OpP p i r items =>
      10 + pathCost p + len (int_to_string i) + len (int_to_string r) + jsonCost (jarr items)
  | OpM p perm => 7 + pathCost p + jsonCost (jarr (N_to_json <$> perm))
  end%N.

(** ** [diffRevisions] *)

Definition diff_fuel (before after : json) : nat := 2 * (json_size before + json_size after).

Definition is_OpR (op : Op) : bool := match op with OpR _ => true | _ => false end.

(** The choice between the operations and the snapshot. *)
Definition choose_batch (st : batch) (after : json) : list Op :=
  if b_overflowed st then [OpR after]
  else
    match b_ops st with
    | [] => []
    | op :: _ =>
        if is_OpR op then b_ops st
        else
          let deltaCost := foldl (fun cost op => cost + operationCost op + 1)%N 2%N (b_ops st) in
          if (deltaCost <? 65536)%N then b_ops st
          else if (jsonCost after + 6 <=? deltaCost)%N then [OpR after] else b_ops st
    end.

Definition diffRevisions (before after : json) : option (list Op) :=
  st ← diffValue (diff_fuel before after) before after [] {| b_ops := []; b_overflowed := false |};
  Some (choose_batch st after).
