(* ===== verification/DeltaDiffFacts.v ===== *)
(** The batch [diffRevisions] writes performs the change: what each function of
    [DeltaDiff] emits, applied where its value stands, leaves the content of the new
    revision there. *)
From S2P Require Import Prelude JsString Json DeltaOp DeltaApply DeltaMatch DeltaDiff.

(** ** What a function that writes to the batch does *)

(** From [st] to [st'] the function appended operations that satisfy [P], unless the batch
    overflowed; an overflowed batch stays so. *)
Definition writes (st st' : batch) (P : list Op -> Prop) : Prop :=
  (b_overflowed st = true -> b_overflowed st' = true) /\
  (b_overflowed st' = false -> exists ops, b_ops st' = b_ops st ++ ops /\ P ops).

Lemma writes_nil st (P : list Op -> Prop) : P [] -> writes st st P.
Proof. intros H. split; [done|]. intros _. exists []. by rewrite app_nil_r. Qed.

Lemma writes_overflowed st P : b_overflowed st = true -> writes st st P.
Proof. intros H. split; [done|]. congruence. Qed.

Lemma writes_emit st op (P : list Op -> Prop) : P [op] -> writes st (emitOperation st op) P.
Proof.
  intros H. unfold emitOperation. destruct (b_overflowed st) eqn:Ho; [by apply writes_overflowed|].
  destruct (_ <=? _)%N; split; cbn; try done; [by rewrite Ho|]. intros _. by exists [op].
Qed.

Lemma writes_app st st1 st2 (P Q R : list Op -> Prop) :
  writes st st1 P -> writes st1 st2 Q ->
  (forall o1 o2, P o1 -> Q o2 -> R (o1 ++ o2)) -> writes st st2 R.
Proof.
  intros [Ho1 H1] [Ho2 H2] HR. split; [by auto|]. intros Hf.
  destruct (H2 Hf) as (o2 & E2 & Q2).
  destruct (b_overflowed st1) eqn:E; [by rewrite Ho2 in Hf|].
  destruct (H1 eq_refl) as (o1 & E1 & P1).
  exists (o1 ++ o2). rewrite E2, E1, app_assoc. auto.
Qed.

Lemma writes_impl st st' (P Q : list Op -> Prop) :
  writes st st' P -> (forall ops, P ops -> Q ops) -> writes st st' Q.
Proof. intros [H1 H2] HQ. split; [done|]. intros Hf. destruct (H2 Hf) as (ops & ? & ?). eauto. Qed.

(** Applied where [b] stands at [p], the batch leaves a value with the content of [a]. *)
Definition becomes (p : path) (b a : json) (ops : list Op) : Prop :=
  exists r, transforms p ops b r /\ doc_of r = doc_of a.

Lemma becomes_same p b a : doc_of b = doc_of a -> becomes p b a [].
Proof. intros H. exists b. split; [apply transforms_nil|done]. Qed.

(** ** Strings *)

Lemma overlap_probe_spec left_ tail b head k n :
  overlap_probe left_ tail b head k = Some n ->
  n <= String.length tail /\ str_drop (String.length tail - n) tail = str_take n b.
Proof.
  revert k; induction left_ as [|left_ IH]; intros k; cbn; [done|].
  destruct k as [k|]; [|done]. destruct (_ && _) eqn:Hc; [|apply IH].
  apply andb_true_iff in Hc as [_ Hc%String.eqb_eq]. intros [= <-]. split; [lia|].
  rewrite <- Hc. destruct (decide (k <= String.length tail)); [f_equal; lia|].
  rewrite !str_drop_ge; [done|lia..].
Qed.

Lemma overlap_probes_spec hs mc tail b :
  overlap_probes hs mc tail b <= String.length tail /\
  (overlap_probes hs mc tail b <> 0 ->
   str_drop (String.length tail - overlap_probes hs mc tail b) tail = str_take (overlap_probes hs mc tail b) b).
Proof.
  induction hs as [|h hs IH]; cbn; [split; [lia|done]|].
  destruct (overlap_probe _ _ _ _ _) as [n|] eqn:Hp.
  - apply overlap_probe_spec in Hp as [??]. done.
  - destruct (h =? 1)%nat; [split; [lia|done]|done].
Qed.

Lemma overlap_suffix_prefix a b scan probe mc :
  let n := overlap a b scan probe mc in
  n <= String.length a /\ str_drop (String.length a - n) a = str_take n b.
Proof.
  cbn. unfold overlap. destruct (_ || _).
  { split; [lia|]. by rewrite Nat.sub_0_r, str_drop_ge. }
  set (tail := if (scan <? N.of_nat (String.length a))%N then _ else a).
  assert (Hd : exists d, tail = str_drop d a /\ d <= String.length a).
  { unfold tail. destruct (_ <? _)%N; [eexists; split; [done|lia]|].
    exists 0. rewrite str_drop_0. split; [done|lia]. }
  destruct Hd as (d & Hd & Hda).
  destruct (overlap_probes_spec [Nat.min probe (String.length b); 1] mc tail b) as [Hn Hs].
  set (n := overlap_probes _ _ _ _) in *.
  assert (Hl : String.length tail = String.length a - d) by (rewrite Hd; apply str_drop_length).
  split; [lia|]. destruct (decide (n = 0)) as [H0|H0].
  { rewrite H0, Nat.sub_0_r, str_drop_ge by lia. by destruct b. }
  transitivity (str_drop (String.length tail - n) tail); [|by apply Hs].
  clearbody n. rewrite Hl, Hd, str_drop_drop. f_equal. lia.
Qed.

Lemma str_take_app_length (a b : string) : str_take (String.length a) (a +:+ b) = a.
Proof. induction a; cbn; [by destruct b|]. by f_equal. Qed.

Lemma ownedSlice_drop text start : ownedSlice text start = str_drop start text.
Proof.
  unfold ownedSlice. rewrite str_length_app. cbn. rewrite Nat.add_sub.
  apply str_take_app_length.
Qed.

Lemma emitString_writes b a p st :
  p <> [] -> safe_path p = true ->
  writes st (emitString b a p st) (becomes p (JStr b) (JStr a)).
Proof.
  intros Hne Hs. unfold emitString.
  destruct (String.eqb_spec b a) as [->|Hba]; [by apply writes_nil, becomes_same|].
  destruct (_ && _) eqn:Happ.
  { apply andb_true_iff in Happ as [_ Hpre%String.eqb_eq]. apply writes_emit.
    eexists. split; [by apply transforms_a|]. rewrite ownedSlice_drop, <- Hpre at 1.
    by rewrite str_take_drop. }
  destruct (overlap_suffix_prefix b a DEFAULT_OVERLAP_SCAN 64 8) as [Hn Hov].
  set (n := overlap _ _ _ _ _) in *.
  destruct (n =? 0)%nat.
  { apply writes_emit. eexists. split; [by apply transforms_s|done]. }
  eapply writes_app with (P := fun ops => transforms p ops (JStr b) (JStr (str_take n a)))
    (Q := fun ops => transforms p ops (JStr (str_take n a)) (JStr a)).
  - apply writes_emit. rewrite <- Hov. by apply transforms_t.
  - destruct (Nat.ltb_spec n (String.length a)) as [Hlt|Hge].
    + apply writes_emit. rewrite ownedSlice_drop.
      rewrite <- (str_take_drop n a) at 3. by apply transforms_a.
    + apply writes_nil. rewrite <- (str_take_drop n a) at 2.
      rewrite str_drop_ge, str_app_nil_r by lia. apply transforms_nil.
  - intros o1 o2 H1 H2. exists (JStr a). split; [by eapply transforms_app|done].
Qed.

(** ** Replacing a value *)

Lemma emitSet_writes b v p st :
  safe_path p = true -> writes st (emitSet p v st) (becomes p b v).
Proof.
  intros Hs. unfold emitSet. case_decide as Hp; apply writes_emit; exists v; (split; [|done]).
  - subst. apply transforms_r.
  - by apply transforms_s.
Qed.

(** ** Regions of an array *)

(** Applied to an array that holds the region [[bs, be)] of [before] from index [out] on,
    the batch leaves the contents of the region [[as_, ae)] of [after] in its place. *)
Definition region_becomes (before after : list json) (p : path) (bs be as_ ae out : nat)
    (ops : list Op) : Prop :=
  exists r, doc_of <$> r = doc_of <$> slice as_ ae after /\
    forall id pre post, length pre = out ->
      transforms p ops (JArr id (pre ++ slice bs be before ++ post)) (JArr id (pre ++ r ++ post)).

Section Regions.
Context (before after : list json) (p : path).
Context (Hsafe : safe_path p = true).

Local Abbreviation becomes_region := (region_becomes before after p).

Lemma region_same bs be as_ ae out :
  doc_of <$> slice bs be before = doc_of <$> slice as_ ae after ->
  becomes_region bs be as_ ae out [].
Proof. intros H. exists (slice bs be before). split; [done|]. intros. apply transforms_nil. Qed.

Lemma region_splice bs be as_ ae out :
  bs <= be -> be <= length before ->
  becomes_region bs be as_ ae out
    [OpP p (N.of_nat out) (N.of_nat (be - bs)) (slice as_ ae after)].
Proof.
  intros Hb Hl. exists (slice as_ ae after). split; [done|]. intros id pre post <-.
  pose proof (transforms_p p id (pre ++ slice bs be before ++ post) (length pre) (be - bs)
    (slice as_ ae after) Hsafe) as H.
  unfold splice_at in H. rewrite take_app_length in H.
  rewrite drop_app_add, drop_app_length' in H; [done|].
  rewrite slice_length; lia.
Qed.

Lemma region_app bs b be as_ a ae out o1 o2 :
  bs <= b -> b <= be -> as_ <= a -> a <= ae -> ae <= length after ->
  becomes_region bs b as_ a out o1 ->
  becomes_region b be a ae (out + (a - as_)) o2 ->
  becomes_region bs be as_ ae out (o1 ++ o2).
Proof.
  intros ????? (r1 & D1 & T1) (r2 & D2 & T2). exists (r1 ++ r2). split.
  { rewrite (slice_split as_ a ae), !fmap_app by lia. by rewrite D1, D2. }
  intros id pre post Hpre.
  assert (Hl : length r1 = a - as_).
  { rewrite <- (length_fmap doc_of), D1, length_fmap, slice_length; lia. }
  eapply transforms_app.
  - rewrite (slice_split bs b be), <- app_assoc by lia. by apply T1.
  - rewrite <- app_assoc, !(app_assoc pre). apply T2. rewrite length_app. lia.
Qed.

Lemma transforms_elem id pre post out b r ops :
  length pre = out -> transforms (p ++ [SNum (N.of_nat out)]) ops b r ->
  transforms p ops (JArr id (pre ++ b :: post)) (JArr id (pre ++ r :: post)).
Proof.
  intros Hpre H.
  assert (Hg : (pre ++ b :: post) !! out = Some b) by (by rewrite <- Hpre, list_lookup_middle).
  pose proof (transforms_child p (SNum (N.of_nat out)) ops (JArr id (pre ++ b :: post)) b r) as Hc.
  cbn in Hc. rewrite arr_get_nat, Hg, Nat2N.id in Hc. specialize (Hc eq_refl H).
  by rewrite <- Hpre, insert_app_r_alt, Nat.sub_diag in Hc.
Qed.

Lemma region_one b a out ops :
  b < length before -> a < length after ->
  becomes (p ++ [SNum (N.of_nat out)]) (before !!! b) (after !!! a) ops ->
  becomes_region b (S b) a (S a) out ops.
Proof.
  intros [x Hx]%lookup_lt_is_Some_2 [y Hy]%lookup_lt_is_Some_2.
  rewrite (list_lookup_total_correct _ _ _ Hx), (list_lookup_total_correct _ _ _ Hy).
  intros (r & T & D). exists [r]. rewrite (slice_one _ _ _ Hx), (slice_one _ _ _ Hy). cbn.
  split; [by rewrite D|]. intros id pre post Hpre. by eapply transforms_elem.
Qed.
End Regions.

(** ** Pairing the elements of two regions *)

Section Store.
Context (h : N -> json).

(** A strict JSON value of the store. *)
Definition ok (v : json) : Prop := json_wf v = true /\ in_store h v.

Lemma ok_arr i xs : ok (JArr i xs) -> Forall ok xs.
Proof.
  intros [Hw Hs]. apply Forall_lookup. intros n x Hx. split; [by eapply json_wf_arr_get|].
  by eapply in_store_arr_get.
Qed.

Lemma ok_obj_get i fs k v : ok (JObj i fs) -> obj_get k fs = Some v -> ok v.
Proof. intros [Hw Hs] Hk. split; [by eapply json_wf_obj_get|by eapply in_store_obj_get]. Qed.

Lemma sameValue_doc b a : ok b -> ok a -> sameValue b a = true -> doc_of b = doc_of a.
Proof.
  intros [Hb Hsb] [Ha Hsa]. unfold sameValue. rewrite orb_true_iff.
  intros [H|H]; [by eapply strict_eq_doc|by eapply equalJson_sound].
Qed.

Lemma ok_elem l i : Forall ok l -> i < length l -> ok (l !!! i).
Proof. intros Hl [x Hx]%lookup_lt_is_Some_2. rewrite (list_lookup_total_correct _ _ _ Hx).
  by eapply Forall_lookup_1. Qed.

Lemma slices_same before after bs as_ k :
  bs + k <= length before -> as_ + k <= length after ->
  (forall i, i < k -> doc_of (before !!! (bs + i)) = doc_of (after !!! (as_ + i))) ->
  doc_of <$> slice bs (bs + k) before = doc_of <$> slice as_ (as_ + k) after.
Proof.
  intros Hb Ha H. apply list_eq. intros i. rewrite !list_lookup_fmap.
  destruct (decide (i < k)) as [Hi|Hi].
  - rewrite !slice_lookup by lia. specialize (H i Hi).
    destruct (lookup_lt_is_Some_2 before (bs + i) ltac:(lia)) as [x Hx].
    destruct (lookup_lt_is_Some_2 after (as_ + i) ltac:(lia)) as [y Hy].
    rewrite (list_lookup_total_correct _ _ _ Hx), (list_lookup_total_correct _ _ _ Hy) in H.
    rewrite Hx, Hy. cbn. by rewrite H.
  - rewrite !lookup_ge_None_2; [done|rewrite slice_length; lia..].
Qed.

Section Trim.
Context (before after : list json).
Context (Hb : Forall ok before) (Ha : Forall ok after).

Lemma same_front_spec bs as_ n :
  bs + n <= length before -> as_ + n <= length after ->
  same_front before after bs as_ n <= n /\
  forall i, i < same_front before after bs as_ n ->
    doc_of (before !!! (bs + i)) = doc_of (after !!! (as_ + i)).
Proof.
  revert bs as_; induction n as [|n IH]; intros bs as_ Hbn Han; cbn; [split; [lia|lia]|].
  destruct (sameValue _ _) eqn:Hs; [|split; lia].
  destruct (IH (S bs) (S as_) ltac:(lia) ltac:(lia)) as [Hle Hall]. split; [lia|].
  intros [|i] Hi.
  - rewrite !Nat.add_0_r. apply sameValue_doc; [apply ok_elem; [done|lia]..|done].
  - specialize (Hall i ltac:(lia)). by rewrite !Nat.add_succ_r.
Qed.

Lemma same_back_spec be ae n :
  n <= be -> n <= ae -> be <= length before -> ae <= length after ->
  same_back before after be ae n <= n /\
  forall i, i < same_back before after be ae n ->
    doc_of (before !!! (be - same_back before after be ae n + i))
    = doc_of (after !!! (ae - same_back before after be ae n + i)).
Proof.
  revert be ae; induction n as [|n IH]; intros be ae Hbn Han Hbl Hal; cbn; [split; lia|].
  destruct (sameValue _ _) eqn:Hs; [|split; lia].
  destruct (IH (be - 1) (ae - 1)) as [Hle Hall]; [lia..|].
  set (k := same_back before after (be - 1) (ae - 1) n) in *. split; [lia|].
  intros i Hi. destruct (decide (i = k)) as [->|Hne].
  - replace (be - S k + k) with (be - 1) by lia. replace (ae - S k + k) with (ae - 1) by lia.
    apply sameValue_doc; [apply ok_elem; [done|lia]..|done].
  - specialize (Hall i ltac:(lia)). by rewrite <- !Nat.sub_add_distr in Hall.
Qed.
End Trim.

Lemma positional_matches_ok (before after : list json) bs as_ s c :
  matches_ok (bs + s) (bs + (s + c)) (as_ + s) (as_ + (s + c))
    ((fun offset => (bs + offset, as_ + offset)) <$>
       filter (fun offset => sameValue (before !!! (bs + offset)) (after !!! (as_ + offset)) = true) (seq s c)).
Proof.
  revert s; induction c as [|c IH]; intros s; [done|]. cbn [seq].
  specialize (IH (S s)). rewrite !Nat.add_succ_r, <- Nat.add_succ_l.
  destruct (decide (sameValue (before !!! (bs + s)) (after !!! (as_ + s)) = true)) as [H|H].
  - rewrite filter_cons_True by done. cbn. split; [lia|]. split; [lia|].
    eapply matches_ok_weaken; [exact IH|lia..].
  - rewrite filter_cons_False by done. eapply matches_ok_weaken; [exact IH|lia..].
Qed.

Section Process.
Context (value : json -> json -> path -> batch -> option batch).
Context (before after : list json) (p : path).
Context (region : nat -> nat -> nat -> nat -> nat -> batch -> option batch).
Context (bs0 be as0 ae : nat).
Context (Hb : Forall ok before) (Ha : Forall ok after) (Hsafe : safe_path p = true).
Context (Hbe : be <= length before) (Hae : ae <= length after).
Context (Hvalue : forall b a out st, bs0 <= b < be -> as0 <= a < ae ->
  let q := p ++ [SNum (N.of_nat out)] in
  exists st', value (before !!! b) (after !!! a) q st = Some st' /\
              writes st st' (becomes q (before !!! b) (after !!! a))).
Context (Hregion : forall bs' be' as' ae' out st,
  bs0 <= bs' -> bs' <= be' -> be' <= be -> as0 <= as' -> as' <= ae' -> ae' <= ae ->
  (be' - bs') + (ae' - as') < (be - bs0) + (ae - as0) ->
  exists st', region bs' be' as' ae' out st = Some st' /\
              writes st st' (region_becomes before after p bs' be' as' ae' out)).

Lemma process_pair b a out st :
  bs0 <= b < be -> as0 <= a < ae ->
  exists st', (if sameValue (before !!! b) (after !!! a) then Some st
               else value (before !!! b) (after !!! a) (p ++ [SNum (N.of_nat out)]) st) = Some st' /\
    writes st st' (region_becomes before after p b (S b) a (S a) out).
Proof.
  intros Hbb Haa. destruct (sameValue _ _) eqn:Hs.
  - exists st. split; [done|]. apply writes_nil, region_one; [lia..|].
    apply becomes_same, sameValue_doc; [apply ok_elem; [done|lia]..|done].
  - destruct (Hvalue b a out st Hbb Haa) as (st' & -> & Hw). exists st'. split; [done|].
    eapply writes_impl; [exact Hw|]. intros ops Hops. apply region_one; [lia..|done].
Qed.

Lemma processArrayMatches_writes ms bs as_ out st :
  matches_ok bs be as_ ae ms -> bs0 <= bs -> bs <= be -> as0 <= as_ -> as_ <= ae ->
  ms <> [] \/ (be - bs) + (ae - as_) < (be - bs0) + (ae - as0) ->
  exists st', processArrayMatches value before after p region bs be as_ ae out ms st = Some st' /\
    writes st st' (region_becomes before after p bs be as_ ae out).
Proof.
  revert bs as_ out st; induction ms as [|[b a] ms IH]; intros bs as_ out st Hok H1 H2 H3 H4 Hor;
    cbn [processArrayMatches]; (destruct (b_overflowed st) eqn:Ho; [exists st; split; [done|by apply writes_overflowed]|]).
  { apply Hregion; try lia. by destruct Hor. }
  destruct Hok as (Hbb & Haa & Hok).
  destruct (Hregion bs b as_ a out st) as (st1 & -> & W1); [lia..|]. cbn [mbind option_bind].
  destruct (process_pair b a (out + (a - as_)) st1) as (st2 & -> & W2); [lia..|]. cbn [mbind option_bind].
  destruct (IH (S b) (S a) (S (out + (a - as_))) st2 Hok) as (st3 & -> & W3); [lia..|right; lia|].
  exists st3. split; [done|]. eapply writes_app; [exact W1| |].
  - eapply writes_app; [exact W2|exact W3|]. intros o2 o3 B2 B3.
    instantiate (1 := region_becomes before after p b be a ae (out + (a - as_))).
    eapply (region_app _ _ _ b (S b) be a (S a)); [lia..|exact B2|].
    by replace (out + (a - as_) + (S a - a)) with (S (out + (a - as_))) by lia.
  - intros o1 o2 B1 B2. eapply (region_app _ _ _ bs b be as_ a); [lia..|exact B1|exact B2].
Qed.

Lemma diffTrimmedRegion_writes out st :
  bs0 <= be -> as0 <= ae ->
  exists st', diffTrimmedRegion value before after p region bs0 be as0 ae out st = Some st' /\
    writes st st' (region_becomes before after p bs0 be as0 ae out).
Proof.
  intros Hbb Haa. unfold diffTrimmedRegion.
  assert (Hproc : forall ms, matches_ok bs0 be as0 ae ms -> negb (length ms =? 0)%nat = true ->
    exists st', processArrayMatches value before after p region bs0 be as0 ae out ms st = Some st' /\
      writes st st' (region_becomes before after p bs0 be as0 ae out)).
  { intros ms Hms Hne. apply processArrayMatches_writes; try done. left. by intros ->. }
  assert (Hsplice : exists st', Some (emitOperation st
      (OpP p (N.of_nat out) (N.of_nat (be - bs0)) (slice as0 ae after))) = Some st' /\
      writes st st' (region_becomes before after p bs0 be as0 ae out)).
  { eexists. split; [reflexivity|]. apply writes_emit. by apply region_splice. }
  destruct (_ && _) eqn:H00.
  { exists st. split; [done|]. apply andb_true_iff in H00 as [Hz1%Nat.eqb_eq Hz2%Nat.eqb_eq].
    apply writes_nil, region_same. by rewrite !slice_nil by lia. }
  destruct (_ || _); [done|].
  destruct (negb (length (if _ : bool then _ else _) =? 0)%nat) eqn:Hpos.
  { apply Hproc; [|done]. destruct (Nat.eqb_spec (be - bs0) (ae - as0)) as [He|]; [|done].
    pose proof (positional_matches_ok before after bs0 as0 0 (be - bs0)) as Hm.
    eapply matches_ok_weaken; [exact Hm|lia..]. }
  destruct (negb (length (default [] (identitySubsequence _ _ _ _ _ _)) =? 0)%nat) eqn:Hsub.
  { apply Hproc; [|done]. destruct (identitySubsequence _ _ _ _ _ _) eqn:Hi; [|done].
    by apply identitySubsequence_ok in Hi. }
  destruct (negb (length (identityAnchors _ _ _ _ _ _) =? 0)%nat) eqn:Hid.
  { apply Hproc; [|done]. by apply identityAnchors_ok. }
  destruct (negb (length (default [] (lcsMatches _ _ _ _)) =? 0)%nat) eqn:Hsem.
  { apply Hproc; [|by rewrite length_fmap].
    destruct (lcsMatches _ _ _ _) as [ms|] eqn:Hl; [|done]. cbn.
    apply lcsMatches_spec in Hl as [[Hl _] _]. rewrite !slice_length in Hl by lia.
    apply (matches_ok_shift _ _ _ _ bs0 as0) in Hl.
    eapply matches_ok_weaken; [exact Hl|lia..]. }
  destruct ((be - bs0 =? 1) && (ae - as0 =? 1))%nat eqn:H11; [|exact Hsplice].
  apply andb_true_iff in H11 as [Hz1%Nat.eqb_eq Hz2%Nat.eqb_eq].
  destruct (Hvalue bs0 as0 out st) as (st' & -> & Hw); [lia..|]. exists st'. split; [done|].
  eapply writes_impl; [exact Hw|]. intros ops Hops.
  replace be with (S bs0) by lia. replace ae with (S as0) by lia. apply region_one; [lia..|done].
Qed.
End Process.

(** ** Regions, arrays and objects *)

(** The callee for a pair of values writes what turns one into the other. *)
Definition value_writes (value : json -> json -> path -> batch -> option batch) (b a : json) : Prop :=
  forall q st, safe_path q = true ->
    exists st', value b a q st = Some st' /\ writes st st' (becomes q b a).

Definition region_writes (region : nat -> nat -> nat -> nat -> nat -> batch -> option batch)
    (before after : list json) (p : path) (bs be as_ ae : nat) : Prop :=
  forall out st, exists st', region bs be as_ ae out st = Some st' /\
    writes st st' (region_becomes before after p bs be as_ ae out).

Lemma safe_index p n : safe_path p = true -> safe_path (p ++ [SNum n]) = true.
Proof. intros H. by rewrite safe_path_snoc, H. Qed.

Lemma trimmed_writes value region (before after : list json) p bs be as_ ae :
  Forall ok before -> Forall ok after -> safe_path p = true ->
  bs <= be -> be <= length before -> as_ <= ae -> ae <= length after ->
  (forall b a, bs <= b < be -> as_ <= a < ae -> value_writes value (before !!! b) (after !!! a)) ->
  (forall bs' be' as' ae', bs <= bs' -> bs' <= be' -> be' <= be -> as_ <= as' -> as' <= ae' -> ae' <= ae ->
     (be' - bs') + (ae' - as') < (be - bs) + (ae - as_) ->
     region_writes region before after p bs' be' as' ae') ->
  region_writes (fun bs be as_ ae out st =>
    let '(front, back) := trimmed before after bs be as_ ae in
    diffTrimmedRegion value before after p region
      (bs + front) (be - back) (as_ + front) (ae - back) (out + front) st) before after p bs be as_ ae.
Proof.
  intros Hb Ha Hs Hbe Hbl Hae Hal Hvalue Hregion out st. unfold trimmed.
  destruct (same_front_spec before after Hb Ha bs as_ (Nat.min (be - bs) (ae - as_))) as [Hf Hfd]; [lia..|].
  set (front := same_front _ _ _ _ _) in *.
  destruct (same_back_spec before after Hb Ha be ae
    (Nat.min (be - (bs + front)) (ae - (as_ + front)))) as [Hk Hkd]; [lia..|].
  set (back := same_back _ _ _ _ _) in *. clearbody front back.
  destruct (diffTrimmedRegion_writes value before after p region
    (bs + front) (be - back) (as_ + front) (ae - back)) with (out := out + front) (st := st)
    as (st' & E & W); try done; try lia.
  - intros b a o st1 ??. apply Hvalue; [lia..|]. by apply safe_index.
  - intros. apply Hregion; lia.
  - exists st'. split; [done|]. eapply writes_impl; [exact W|]. intros ops B.
    change ops with ([] ++ ops). eapply (region_app _ _ _ _ (bs + front) _ _ (as_ + front)); [lia..| |].
    + apply region_same. apply slices_same; [lia..|done].
    + rewrite <- (app_nil_r ops).
      eapply (region_app _ _ _ _ (be - back) _ _ (ae - back)); [lia..| |].
      * by replace (out + (as_ + front - as_)) with (out + front) by lia.
      * apply region_same.
        pose proof (slices_same before after (be - back) (ae - back) back) as H.
        rewrite !Nat.sub_add in H by lia. apply H; [lia..|done].
Qed.

Lemma permutation_doc before after perm :
  Forall ok before -> Forall ok after -> permutation before after = Some perm ->
  is_permutation (N.of_nat <$> perm) /\ length perm = length before /\
  doc_of <$> ((fun j => default JNull (before !! j)) <$> perm) = doc_of <$> after.
Proof.
  intros Hb Ha Hp.
  destruct (permutation_spec h before after perm) as (Hl & Hp' & Hall); [..|done|].
  1-2: eapply Forall_impl; [eassumption|by intros ? []].
  split; [|split; [done|]].
  - unfold is_permutation. by rewrite length_fmap, Hl, Hp'.
  - rewrite <- list_fmap_compose. clear Hp.
    assert (Hlt : Forall (fun i => i < length before) perm).
    { apply Forall_forall. intros i Hi. rewrite Hp' in Hi. by apply elem_of_seq in Hi as [_ ?]. }
    clear Hp' Hl. induction Hall as [|i v perm after Hd Hall IH]; [done|].
    apply Forall_cons in Hlt as [Hi Hlt]. apply Forall_cons in Ha as [_ Ha]. cbn.
    rewrite IH by done. f_equal. rewrite <- Hd.
    apply lookup_lt_is_Some_2 in Hi as [x Hx].
    by rewrite (list_lookup_total_correct _ _ _ Hx), Hx.
Qed.

Lemma diffArray_writes region i j before after p st :
  ok (JArr i before) -> ok (JArr j after) -> safe_path p = true ->
  region_writes region before after p 0 (length before) 0 (length after) ->
  exists st', diffArray region (JArr i before) (JArr j after) before after p st = Some st' /\
    writes st st' (becomes p (JArr i before) (JArr j after)).
Proof.
  intros Hb Ha Hs Hregion. unfold diffArray.
  destruct (strict_eq _ _ || equalJson _ _) eqn:He.
  { exists st. split; [done|]. apply writes_nil, becomes_same.
    destruct Hb, Ha. apply orb_true_iff in He as [He|He]; [by eapply strict_eq_doc|by eapply equalJson_sound]. }
  clear He. destruct (if _ : bool then permutation _ _ else _) as [perm|] eqn:Ho.
  - destruct (_ && _); [|done].
    destruct (permutation_doc before after perm) as (Hp & Hl & Hd); [by eapply ok_arr..|done|].
    eexists. split; [reflexivity|]. apply writes_emit.
    eexists. split; [by apply transforms_m|]. by apply doc_of_arr_eq.
  - clear Ho. destruct (Hregion 0 st) as (st' & -> & W). exists st'. split; [done|].
    eapply writes_impl; [exact W|]. intros ops (r & D & T).
    rewrite slice_full in D. exists (JArr i r). split; [|by apply doc_of_arr_eq].
    specialize (T i [] [] eq_refl). by rewrite slice_full, !app_nil_r in T.
Qed.

Section Fields.
Context (value : json -> json -> path -> batch -> option batch) (p : path) (i : option N).
Context (Hs : safe_path p = true).

(** One key of the new object, over an object that still has the old field. *)
Lemma after_key_writes before k v st :
  reserved k = false ->
  (forall b, obj_get k before = Some b -> value_writes value b v) ->
  exists st', match obj_get k before with
              | Some b => value b v (p ++ [SStr k]) st
              | None => Some (emitSet (p ++ [SStr k]) v st)
              end = Some st' /\
    writes st st' (fun ops => forall cur, obj_get k cur = obj_get k before ->
      exists r, doc_of r = doc_of v /\ transforms p ops (JObj i cur) (JObj i (obj_set k r cur))).
Proof.
  intros Hk Hv. destruct (obj_get k before) as [b|] eqn:Hb.
  - destruct (Hv b eq_refl (p ++ [SStr k]) st) as (st' & -> & W).
    { rewrite safe_path_snoc, Hs. cbn. by rewrite Hk. }
    exists st'. split; [done|]. eapply writes_impl; [exact W|].
    intros ops (r & T & D) cur Hc. exists r. split; [done|].
    pose proof (transforms_child p (SStr k) ops (JObj i cur) b r Hc T) as H.
    cbn in H. rewrite Hc in H. by rewrite obj_set_present by (by rewrite Hc).
  - eexists. split; [done|]. unfold emitSet. rewrite decide_False by apply snoc_not_nil.
    apply writes_emit. intros cur Hc. exists v. split; [done|]. by apply transforms_set_key.
Qed.

(** Applied to an object with the fields [cur], the batch leaves one whose field [k] has
    the content [f k cur]. *)
Definition fields_become (f : string -> list (string * json) -> option doc)
    (pre : list (string * json) -> Prop) (ops : list Op) : Prop :=
  forall cur, NoDup (obj_keys cur) -> pre cur ->
    exists r, transforms p ops (JObj i cur) (JObj i r) /\ NoDup (obj_keys r) /\
      forall k, doc_of <$> obj_get k r = f k cur.

Lemma diff_after_keys_writes before rest st :
  NoDup (obj_keys rest) -> Forall (fun k => reserved k = false) (obj_keys rest) ->
  (forall k b v, obj_get k before = Some b -> obj_get k rest = Some v -> value_writes value b v) ->
  exists st', diff_after_keys value p before rest st = Some st' /\
    writes st st' (fields_become
      (fun k cur => match obj_get k rest with
                    | Some v => Some (doc_of v) | None => doc_of <$> obj_get k cur end)
      (fun cur => forall k, k ∈ obj_keys rest -> obj_get k cur = obj_get k before)).
Proof.
  revert st; induction rest as [|[k v] rest IH]; intros st Hnd Hres Hv; cbn [diff_after_keys].
  { exists st. split; [done|]. apply writes_nil. intros cur Hc _. exists cur.
    split; [apply transforms_nil|done]. }
  destruct (b_overflowed st) eqn:Ho; [exists st; split; [done|by apply writes_overflowed]|].
  apply NoDup_cons in Hnd as [Hk Hnd]. apply Forall_cons in Hres as [Hk' Hres].
  destruct (after_key_writes before k v st Hk') as (st1 & -> & W1).
  { intros b Hb. eapply Hv; [done|]. cbn. by rewrite String.eqb_refl. }
  destruct (IH st1 Hnd Hres) as (st2 & E & W2).
  { intros k' b v' Hb Hv'. eapply Hv; [done|]. cbn. destruct (String.eqb_spec k' k) as [->|]; [|done].
    by apply obj_get_Some_key in Hv'. }
  exists st2. split; [exact E|]. eapply writes_app; [exact W1|exact W2|].
  intros o1 o2 B1 B2 cur Hc Hpre.
  destruct (B1 cur) as (r1 & D1 & T1); [apply Hpre; left|].
  destruct (B2 (obj_set k r1 cur)) as (r & T2 & Hn & D2); [by apply obj_set_NoDup| |].
  { intros k' Hk2. rewrite obj_get_set_ne by (by intros ->). apply Hpre. by right. }
  exists r. split; [by eapply transforms_app|]. split; [done|].
  intros k'. rewrite D2. cbn. rewrite obj_get_set.
  destruct (String.eqb_spec k' k) as [->|]; [|done].
  rewrite (proj2 (obj_get_None k rest) Hk). cbn. by rewrite D1.
Qed.

Lemma diff_before_keys_writes rest (after : list (string * json)) st :
  Forall (fun k => reserved k = false) (obj_keys rest) ->
  writes st (diff_before_keys p rest after st) (fields_become
    (fun k cur => if decide (k ∈ obj_keys rest /\ obj_get k after = None) then None
                  else doc_of <$> obj_get k cur) (fun _ => True)).
Proof.
  clear value. revert st; induction rest as [|[k v] rest IH]; intros st Hres; cbn [diff_before_keys].
  { apply writes_nil. intros cur Hc _. exists cur. split; [apply transforms_nil|].
    split; [done|]. intros k. rewrite decide_False; [done|]. by intros [?%elem_of_nil _]. }
  destruct (b_overflowed st) eqn:Ho; [by apply writes_overflowed|].
  apply Forall_cons in Hres as [Hk Hres]. specialize (IH
    (match obj_get k after with Some _ => st | None => emitOperation st (OpD (p ++ [SStr k])) end) Hres).
  destruct (obj_get k after) eqn:Ha.
  - eapply writes_impl; [exact IH|]. intros ops B cur Hc _.
    destruct (B cur Hc I) as (r & T & Hn & D). exists r. do 2 (split; [done|]).
    intros k'. rewrite D. apply decide_ext. cbn. rewrite elem_of_cons.
    split; [naive_solver|]. intros [[->|] ?]; [congruence|done].
  - eapply writes_app; [exact (writes_emit st _ (fun ops => ops = [OpD (p ++ [SStr k])]) eq_refl)|exact IH|].
    intros ? o2 -> B cur Hc _. destruct (B (obj_delete k cur)) as (r & T & Hn & D);
      [by apply obj_delete_NoDup|done|].
    exists r. split; [eapply transforms_app; [by apply transforms_delete_key|exact T]|].
    split; [done|]. intros k'. rewrite D, obj_get_delete by done. cbn.
    destruct (String.eqb_spec k' k) as [->|Hne].
    + rewrite (decide_True (P := _ ∈ k :: _ /\ _)) by (split; [left|done]). by case_decide.
    + apply decide_ext. rewrite elem_of_cons. naive_solver.
Qed.
End Fields.

Lemma diffObject_writes value i j before after p st :
  ok (JObj i before) -> ok (JObj j after) -> safe_path p = true ->
  (forall k b v, obj_get k before = Some b -> obj_get k after = Some v -> value_writes value b v) ->
  exists st', diffObject value p (JObj i before) (JObj j after) before after st = Some st' /\
    writes st st' (becomes p (JObj i before) (JObj j after)).
Proof.
  intros Hb Ha Hs Hv. unfold diffObject. destruct (existsb _ _) eqn:Hr.
  { eexists. split; [reflexivity|]. destruct (equalJson _ _) eqn:He.
    - apply writes_nil, becomes_same. destruct Hb, Ha. by eapply equalJson_sound.
    - by apply emitSet_writes. }
  assert (Hres : Forall (fun k => reserved k = false) (obj_keys before ++ obj_keys after)).
  { apply Forall_forall. intros k Hk. apply not_true_is_false. intros Ht.
    apply not_true_iff_false in Hr. apply Hr, existsb_exists. exists k.
    split; [by apply list_elem_of_In|done]. }
  apply Forall_app in Hres as [Hrb Hra].
  destruct Hb as [Hwb _], Ha as [Hwa _].
  apply json_wf_obj in Hwb as [Hnb _], Hwa as [Hna _].
  destruct (diff_after_keys_writes value p i Hs before after st Hna Hra Hv) as (st1 & -> & W1).
  eexists. split; [reflexivity|].
  eapply writes_app; [exact W1|by apply (diff_before_keys_writes p i Hs)|].
  intros o1 o2 B1 B2. destruct (B1 before Hnb) as (r1 & T1 & N1 & D1); [done|].
  destruct (B2 r1 N1 I) as (r & T2 & _ & D2).
  exists (JObj i r). split; [by eapply transforms_app|]. apply doc_of_obj_eq. intros k.
  rewrite D2, D1. destruct (obj_get k after) eqn:Hk.
  - rewrite decide_False; [done|]. by intros [_ ?].
  - case_decide as Hd; [done|]. cbn. destruct (obj_get k before) eqn:Hkb; [|done].
    destruct Hd. split; [by eapply obj_get_Some_key|done].
Qed.

(** ** The recursion *)

Definition region_size (l : list json) (i j : nat) : nat := sum_list_with json_size (slice i j l).

Lemma region_size_full l : region_size l 0 (length l) = sum_list_with json_size l.
Proof. unfold region_size. by rewrite slice_full. Qed.

Lemma region_size_split i j k l :
  i <= j -> j <= k -> region_size l i k = region_size l i j + region_size l j k.
Proof.
  intros. unfold region_size. rewrite (slice_split i j k) by done.
  apply sum_list_with_app.
Qed.

Lemma region_size_ge l i j : i <= j -> j <= length l -> j - i <= region_size l i j.
Proof.
  intros Hij Hl. rewrite <- (slice_length i j l) by done. unfold region_size.
  generalize (slice i j l) as m; intros m. induction m as [|x m IH]; cbn; [done|].
  pose proof (json_size_pos x). lia.
Qed.

Lemma region_size_elem l i j n :
  i <= n < j -> j <= length l -> json_size (l !!! n) <= region_size l i j.
Proof.
  intros Hn Hl. destruct (lookup_lt_is_Some_2 l n ltac:(lia)) as [x Hx].
  rewrite (region_size_split i n j), (region_size_split n (S n) j) by lia.
  unfold region_size at 2. rewrite (slice_one _ _ _ Hx), (list_lookup_total_correct _ _ _ Hx).
  cbn. lia.
Qed.

Lemma region_size_sub l i j i' j' :
  i <= i' -> i' <= j' -> j' <= j -> j <= length l ->
  region_size l i' j' + (i' - i) + (j - j') <= region_size l i j.
Proof.
  intros. rewrite (region_size_split i i' j), (region_size_split i' j' j) by lia.
  pose proof (region_size_ge l i i' ltac:(lia) ltac:(lia)).
  pose proof (region_size_ge l j' j ltac:(lia) ltac:(lia)). lia.
Qed.

Lemma json_size_arr i xs : json_size (JArr i xs) = S (sum_list_with json_size xs).
Proof. reflexivity. Qed.

(** The fuel is enough for a pair of values, and for a pair of regions. *)
Lemma diff_writes fuel :
  (forall b a, ok b -> ok a -> 2 * (json_size b + json_size a) <= fuel ->
     value_writes (diffValue fuel) b a) /\
  (forall before after p bs be as_ ae, Forall ok before -> Forall ok after -> safe_path p = true ->
     bs <= be -> be <= length before -> as_ <= ae -> ae <= length after ->
     2 * (region_size before bs be + region_size after as_ ae) < fuel ->
     region_writes (diffArrayRegion fuel before after p) before after p bs be as_ ae).
Proof.
  induction fuel as [|fuel [IHv IHr]].
  { split; [|lia]. intros b a _ _ Hf. pose proof (json_size_pos b). lia. }
  split.
  - intros b a Hb Ha Hf q st Hq. cbn [diffValue].
    destruct (strict_eq b a || b_overflowed st) eqn:Hs.
    { exists st. split; [done|]. apply orb_true_iff in Hs as [Hs|Ho]; [|by apply writes_overflowed].
      apply writes_nil, becomes_same. destruct Hb, Ha. by eapply strict_eq_doc. }
    clear Hs. destruct b as [| | |sb|i bs|i bs], a as [| | |sa|j as_|j as_];
      try (eexists; split; [reflexivity|by apply emitSet_writes]).
    + case_decide as Hp; (eexists; split; [reflexivity|]); [by apply emitSet_writes|].
      by apply emitString_writes.
    + rewrite !json_size_arr in Hf. apply diffArray_writes; try done.
      apply IHr; try done; try lia; try (by eapply ok_arr).
      rewrite !region_size_full. lia.
    + apply diffObject_writes; try done. intros k b v Hkb Hkv. apply IHv;
        [by apply (ok_obj_get i bs k)|by apply (ok_obj_get j as_ k)|].
      pose proof (json_size_obj_get i bs k b Hkb). pose proof (json_size_obj_get j as_ k v Hkv). lia.
  - intros before after p bs be as_ ae Hb Ha Hs H1 H2 H3 H4 Hf out st. cbn [diffArrayRegion].
    destruct (b_overflowed st) eqn:Ho; [exists st; split; [done|by apply writes_overflowed]|].
    apply (trimmed_writes (diffValue fuel) (diffArrayRegion fuel before after p)); try done.
    + intros b a ??. apply IHv; [apply ok_elem; [done|lia]..|].
      pose proof (region_size_elem before bs be b ltac:(lia) H2).
      pose proof (region_size_elem after as_ ae a ltac:(lia) H4). lia.
    + intros bs' be' as' ae' ???????. apply IHr; try done; try lia.
      pose proof (region_size_sub before bs be bs' be' ltac:(lia) ltac:(lia) ltac:(lia) H2).
      pose proof (region_size_sub after as_ ae as' ae' ltac:(lia) ltac:(lia) ltac:(lia) H4). lia.
Qed.

Lemma choose_batch_applies st before after ops :
  (b_overflowed st = false -> exists r,
     applyOps (Some before) (tuples (b_ops st)) = Ok (Some r) /\ doc_of r = doc_of after) ->
  choose_batch st after = ops ->
  exists r, applyOps (Some before) (tuples ops) = Ok (Some r) /\ doc_of r = doc_of after.
Proof.
  intros H <-.
  assert (Hsnap : exists r, applyOps (Some before) (tuples [OpR after]) = Ok (Some r) /\
                            doc_of r = doc_of after).
  { exists after. split; [|done]. by rewrite applyOps_one. }
  unfold choose_batch. destruct (b_overflowed st); [exact Hsnap|]. specialize (H eq_refl).
  destruct (b_ops st) as [|op l]; [done|].
  cbv zeta. by repeat case_match.
Qed.

(** [diffRevisions] writes a batch, and applying it to the old revision gives the content
    of the new one. *)
Lemma diffRevisions_applies before after :
  ok before -> ok after ->
  exists ops r, diffRevisions before after = Some ops /\
    apply (Some before) (tuples ops) = Ok (Some r) /\ doc_of r = doc_of after.
Proof.
  intros Hb Ha. unfold diffRevisions.
  destruct (proj1 (diff_writes (diff_fuel before after)) before after Hb Ha) with (q := [] : path)
    (st := {| b_ops := []; b_overflowed := false |}) as (st & -> & _ & W); [done|done|].
  cbn [mbind option_bind]. eexists.
  destruct (choose_batch_applies st before after (choose_batch st after)) as (r & E & D).
  - intros Ho. destruct (W Ho) as (ops & -> & r & T & D). exists r. split; [|done].
    exact (T before eq_refl).
  - reflexivity.
  - exists r. split; [reflexivity|]. done.
Qed.
End Store.
