(* ===== verification/DeltaCodec.v ===== *)
(** The codec of chord/src/delta/index.ts: [encoder] drops and interns paths, [decoder]
    restores them. Both keep their dictionaries across batches; a replacement resets
    them. *)
From S2P Require Import Prelude JsString Json DeltaOp.
From Stdlib Require Import Ascii.

(** ** Path keys *)

(** [JSON.stringify] of a segment and of a path. *)
Definition seg_text (g : seg) : string :=
  match g with SStr s => json_quote s | SNum n => int_to_string n end.

Fixpoint segs_text (p : path) : string :=
  match p with
  | [] => "]"
  | [g] => seg_text g +:+ "]"
  | g :: p' => seg_text g +:+ "," +:+ segs_text p'
  end.

Definition pathKey (p : path) : string := "[" +:+ segs_text p.

(** ** The encoder *)

Record encoder : Type := {
  e_seen : gset string;
  e_ids : gmap string N;
  e_nextId : N;
}.

Definition encoder_new : encoder := {| e_seen := ∅; e_ids := ∅; e_nextId := 0 |}.

(** The path of an operation; a replacement has none. *)
Definition op_path (op : Op) : option path :=
  match op with
  | OpR _ => None
  | OpS p _ | OpD p | OpA p _ | OpT p _ | OpP p _ _ _ | OpM p _ => Some p
  end.

(** The tuple of an operation with the path given by a reference, or left out. *)
Definition with_ref (op : Op) (r : option PathRef) : WireOp :=
  match op with
  | OpR v => WR v
  | OpS _ v => WS r v
  | OpD _ => WD r
  | OpA _ s => WA r s
  | OpT _ n => WT r n
  | OpP _ i d items => WP r i d items
  | OpM _ perm => WM r perm
  end.

(** The reference of a path that is not the previous one, the definition that goes before
    the operation, and the dictionaries after it. *)
Definition encode_ref (e : encoder) (p : path) : encoder * list WireOp * PathRef :=
  let key := pathKey p in
  match e_ids e !! key with
  | Some existing => (e, [], RId existing)
  | None =>
      if decide (key ∈ e_seen e) then
        let id := e_nextId e in
        ({| e_seen := e_seen e; e_ids := <[key := id]> (e_ids e); e_nextId := (id + 1)%N |},
         [WDef id p], RId id)
      else
        ({| e_seen := {[key]} ∪ e_seen e; e_ids := e_ids e; e_nextId := e_nextId e |},
         [], RPath p)
  end.

(** The loop of [encode]; [previous] is the key of the last path of the batch. *)
Fixpoint encode_loop (e : encoder) (previous : option string) (ops : list Op)
  : encoder * list WireOp :=
  match ops with
  | [] => (e, [])
  | op :: ops' =>
      match op_path op with
      | None =>
          let '(e', out) := encode_loop encoder_new None ops' in
          (e', with_ref op None :: out)
      | Some p =>
          if decide (previous = Some (pathKey p)) then
            let '(e', out) := encode_loop e previous ops' in
            (e', with_ref op None :: out)
          else
            let '(e1, definition, ref) := encode_ref e p in
            let '(e', out) := encode_loop e1 (Some (pathKey p)) ops' in
            (e', definition ++ with_ref op (Some ref) :: out)
      end
  end.

Definition encode (e : encoder) (ops : list Op) : encoder * list WireOp := encode_loop e None ops.

(** ** The decoder *)

(** The dictionary of a decoder. *)
Abbreviation decoder := (gmap N path).

Definition decoder_new : decoder := ∅.

(** The reference of a wire operation, and the operation it stands for once the path is
    known. *)
Definition wire_ref (w : WireOp) : option PathRef :=
  match w with
  | WS r _ | WD r | WA r _ | WT r _ | WP r _ _ _ | WM r _ => r
  | WR _ | WDef _ _ => None
  end.

Definition resolve_ref (paths : decoder) (previous : option path) (r : option PathRef) : result path :=
  match r with
  | None => res_of (PathError []) previous
  | Some (RId n) => res_of (PathIdError n) (paths !! n)
  | Some (RPath p) => Ok p
  end.

Definition with_path (w : WireOp) (p : path) : result Op :=
  let nonEmpty := check (negb (length p =? 0)%nat) (PathError p) in
  match w with
  | WS _ v => _ ← nonEmpty; Ok (OpS p v)
  | WD _ => _ ← nonEmpty; Ok (OpD p)
  | WA _ s => _ ← nonEmpty; Ok (OpA p s)
  | WT _ n => _ ← nonEmpty; Ok (OpT p n)
  | WP _ i d items => Ok (OpP p i d items)
  | WM _ perm => Ok (OpM p perm)
  | WR v => Ok (OpR v)
  | WDef _ _ => Throw (PathError p)
  end.

(** The loop of [decode]: the dictionary it leaves, also when it throws, and the
    operations. *)
Fixpoint decode_loop (paths : decoder) (previous : option path) (wire : list json)
  : decoder * result (list Op) :=
  match wire with
  | [] => (paths, Ok [])
  | raw :: wire' =>
      match assertValidWireOp raw with
      | Throw e => (paths, Throw e)
      | Ok (WDef n p) => decode_loop (<[n := p]> paths) previous wire'
      | Ok (WR v) =>
          let '(paths', out) := decode_loop ∅ None wire' in (paths', cons (OpR v) <$> out)
      | Ok w =>
          match resolve_ref paths previous (wire_ref w) with
          | Throw e => (paths, Throw e)
          | Ok p =>
              match with_path w p with
              | Throw e => (paths, Throw e)
              | Ok op =>
                  let '(paths', out) := decode_loop paths (Some p) wire' in
                  (paths', cons op <$> out)
              end
          end
      end
  end.

Definition decode (d : decoder) (wire : list json) : decoder * result (list Op) :=
  decode_loop d None wire.

(** ** Streams of batches *)

(** The batches of one encoder, in order. *)
Fixpoint encode_batches (e : encoder) (batches : list (list Op)) : encoder * list (list WireOp) :=
  match batches with
  | [] => (e, [])
  | ops :: batches' =>
      let '(e1, w) := encode e ops in
      let '(e2, ws) := encode_batches e1 batches' in
      (e2, w :: ws)
  end.

(** The batches one decoder receives, in order. *)
Fixpoint decode_batches (d : decoder) (wires : list (list json)) : decoder * result (list (list Op)) :=
  match wires with
  | [] => (d, Ok [])
  | w :: wires' =>
      match decode d w with
      | (d1, Throw e) => (d1, Throw e)
      | (d1, Ok ops) => let '(d2, out) := decode_batches d1 wires' in (d2, cons ops <$> out)
      end
  end.

(** ** The keys of paths *)

Definition sep (s : string) : Prop := match s with String "," _ | String "]" _ => True | _ => False end.

Lemma num_char_not c : is_num_char c -> c <> ","%char /\ c <> "]"%char /\ c <> dquote.
Proof.
  intros [[H1 H2]|[->|[->| ->]]]; [|done..]. repeat split; intros ->; revert H1 H2; vm_compute; lia.
Qed.

Lemma sep_not_num s : sep s -> starts_not is_num_char s.
Proof.
  destruct s as [|c s]; [done|]. intros Hs Hc%num_char_not.
  assert (c = ","%char \/ c = "]"%char) as [-> | ->]; [|naive_solver..].
  destruct c as [[] [] [] [] [] [] [] []]; first [by destruct Hs|by left|by right].
Qed.

Lemma int_to_string_head n :
  exists c s, int_to_string n = String c s /\ c <> dquote /\ c <> "]"%char.
Proof.
  pose proof (int_to_string_nonempty n) as Hn. pose proof (int_to_string_chars n) as Hc.
  destruct (int_to_string n) as [|c s]; [done|]. exists c, s. split; [done|].
  destruct Hc as [Hc%num_char_not _]. naive_solver.
Qed.

Lemma seg_text_cut g1 g2 r1 r2 :
  sep r1 -> sep r2 -> seg_text g1 +:+ r1 = seg_text g2 +:+ r2 -> g1 = g2 /\ r1 = r2.
Proof.
  intros H1 H2. destruct g1 as [s1|n1], g2 as [s2|n2]; cbn [seg_text].
  - intros [-> ->]%json_quote_cut. done.
  - destruct (int_to_string_head n2) as (c & s & -> & Hc & _). cbn. by intros [= <-].
  - destruct (int_to_string_head n1) as (c & s & -> & Hc & _). cbn. by intros [= ->].
  - intros H. apply (str_cut is_num_char) in H as [Hn ->];
      auto using int_to_string_chars, sep_not_num.
    by apply int_to_string_inj in Hn as ->.
Qed.

Lemma segs_text_not_close g p : segs_text (g :: p) <> "]".
Proof.
  assert (H : forall r, seg_text g +:+ r <> "]").
  { intros r. destruct g as [s|n]; [done|]. cbn [seg_text].
    destruct (int_to_string_head n) as (c & s & -> & _ & Hc). by intros [= -> _]. }
  destruct p; cbn [segs_text]; apply H.
Qed.

Lemma segs_text_inj p q : segs_text p = segs_text q -> p = q.
Proof.
  assert (Htail : forall g p, exists r, segs_text (g :: p) = seg_text g +:+ r /\ sep r /\
                     r = match p with [] => "]" | _ => "," +:+ segs_text p end).
  { intros g [|h p']; cbn [segs_text]; eexists; done. }
  revert q; induction p as [|g p IH]; intros [|h q] H.
  - done.
  - by destruct (segs_text_not_close h q).
  - by destruct (segs_text_not_close g p).
  - destruct (Htail g p) as (r1 & E1 & S1 & R1), (Htail h q) as (r2 & E2 & S2 & R2).
    rewrite E1, E2 in H. destruct (seg_text_cut g h r1 r2 S1 S2 H) as [-> Hr].
    f_equal. rewrite R1, R2 in Hr. destruct p, q; try done. apply IH. by injection Hr.
Qed.

Lemma pathKey_injective p q : pathKey p = pathKey q -> p = q.
Proof. unfold pathKey. cbn. intros [= H]. by apply segs_text_inj. Qed.

(** ** Decoding undoes encoding *)

(** The dictionary of the decoder knows every id the encoder has given out. *)
Definition linked (e : encoder) (d : decoder) : Prop :=
  (forall p id, e_ids e !! pathKey p = Some id -> d !! id = Some p) /\
  (forall key id, e_ids e !! key = Some id -> (id < e_nextId e)%N).

Definition previous_linked (key : option string) (previous : option path) : Prop :=
  forall p, key = Some (pathKey p) -> previous = Some p.

Lemma linked_new d : linked encoder_new d.
Proof. split; intros *; cbn; by rewrite lookup_empty. Qed.

(** Putting [ops] in front of what a run of the decoder returns. *)
Definition prepend (ops : list Op) (r : decoder * result (list Op)) : decoder * result (list Op) :=
  (r.1, app ops <$> r.2).

Lemma prepend_app o1 o2 r : prepend o1 (prepend o2 r) = prepend (o1 ++ o2) r.
Proof. destruct r as [d [o|e]]; [|done]. unfold prepend. cbn. by rewrite app_assoc. Qed.

Lemma prepend_nil r : prepend [] r = r.
Proof. by destruct r as [d [o|e]]. Qed.

(** One operation whose reference stands for its path. *)
Lemma decode_op d previous op p r rest :
  op_ok op -> op_path op = Some p -> ref_ok r -> resolve_ref d previous r = Ok p ->
  decode_loop d previous (wire_to_json (with_ref op r) :: rest)
  = prepend [op] (decode_loop d (Some p) rest).
Proof.
  intros Hok Hp Hr Hres. cbn [decode_loop].
  rewrite assertValidWireOp_complete.
  - destruct op as [v|q v|q|q s|q n|q i k items|q perm]; simplify_eq/=; rewrite Hres; cbn;
      [destruct p; [by destruct Hok|]..| |];
      by match goal with |- context [decode_loop ?a ?b ?c] => destruct (decode_loop a b c) as [? [?|?]] end.
  - destruct op; try done. by destruct Hok.
Qed.

Lemma decode_replace d previous v rest :
  decode_loop d previous (wire_to_json (WR v) :: rest) = prepend [OpR v] (decode_loop ∅ None rest).
Proof.
  cbn [decode_loop]. rewrite assertValidWireOp_complete by done.
  by destruct (decode_loop ∅ None rest) as [? [?|?]].
Qed.

Lemma decode_definition d previous n p rest :
  safe_path p = true ->
  decode_loop d previous (wire_to_json (WDef n p) :: rest) = decode_loop (<[n := p]> d) previous rest.
Proof. intros Hs. cbn [decode_loop]. by rewrite assertValidWireOp_complete. Qed.

Lemma op_ok_path op p : op_ok op -> op_path op = Some p -> safe_path p = true.
Proof. destruct op; cbn; intros Hok; intros; simplify_eq; try done; apply Hok. Qed.

(** The definition and the reference [encode_ref] writes lead the decoder to the path. *)
Lemma encode_ref_decode e d previous p e' definition ref :
  linked e d -> safe_path p = true -> encode_ref e p = (e', definition, ref) ->
  exists d', linked e' d' /\ ref_ok (Some ref) /\
    (forall q, resolve_ref d' q (Some ref) = Ok p) /\
    forall rest, decode_loop d previous ((wire_to_json <$> definition) ++ rest)
                 = decode_loop d' previous rest.
Proof.
  intros [L1 L2] Hs. unfold encode_ref. destruct (e_ids e !! pathKey p) as [id|] eqn:Hid.
  { intros [= <- <- <-]. exists d. split; [done|]. split; [done|].
    cbn. by rewrite (L1 _ _ Hid). }
  case_decide as Hseen; intros [= <- <- <-].
  - exists (<[e_nextId e := p]> d). split; [split|].
    + cbn. intros q id. destruct (decide (pathKey p = pathKey q)) as [He|He].
      * apply pathKey_injective in He as <-. rewrite lookup_insert_eq. intros [= <-].
        apply lookup_insert_eq.
      * rewrite lookup_insert_ne by done. intros Hq. rewrite lookup_insert_ne; [by apply L1|].
        apply L2 in Hq. lia.
    + cbn. intros key id [[_ <-]|[_ Hk%L2]]%lookup_insert_Some; lia.
    + split; [done|]. split; [intros q; cbn; by rewrite lookup_insert_eq|].
      intros rest. cbn [fmap list_fmap app]. by apply decode_definition.
  - exists d. done.
Qed.

(** A batch decodes to its operations, and what follows it in the same batch is decoded
    with dictionaries that stay linked. *)
Lemma encode_loop_decode ops : forall e key d previous e' out,
  Forall op_ok ops -> linked e d -> previous_linked key previous ->
  encode_loop e key ops = (e', out) ->
  exists d' previous', linked e' d' /\ forall rest,
    decode_loop d previous ((wire_to_json <$> out) ++ rest) = prepend ops (decode_loop d' previous' rest).
Proof.
  induction ops as [|op ops IH]; intros e key d previous e' out Hok HL Hprev; cbn [encode_loop].
  { intros [= <- <-]. exists d, previous. split; [done|]. intros rest. by rewrite prepend_nil. }
  apply Forall_cons in Hok as [Hop Hok]. destruct (op_path op) as [p|] eqn:Hp.
  2: { destruct op; try done. destruct (encode_loop encoder_new None ops) as [e1 out1] eqn:E.
       intros [= <- <-].
       destruct (IH encoder_new None ∅ None e1 out1 Hok (linked_new ∅)) with (2 := E) as (d' & pr & HL' & Hrun); [done|].
       exists d', pr. split; [done|]. intros rest. cbn [fmap list_fmap app with_ref].
       by rewrite decode_replace, Hrun, prepend_app. }
  pose proof (op_ok_path op p Hop Hp) as Hs. case_decide as Hk.
  - destruct (encode_loop e key ops) as [e1 out1] eqn:E. intros [= <- <-].
    pose proof (Hprev p Hk) as ->.
    destruct (IH _ _ d (Some p) _ _ Hok HL Hprev E) as (d' & pr & HL' & Hrun).
    exists d', pr. split; [done|]. intros rest. cbn [fmap list_fmap app].
    by rewrite (decode_op _ _ _ p), Hrun, prepend_app.
  - destruct (encode_ref e p) as [[e1 def] ref] eqn:Er.
    destruct (encode_loop e1 _ ops) as [e2 out2] eqn:E. intros [= <- <-].
    destruct (encode_ref_decode e d previous p e1 def ref HL Hs Er) as (d1 & HL1 & Hr & Hres & Hdef).
    destruct (IH e1 (Some (pathKey p)) d1 (Some p) e2 out2 Hok HL1) with (2 := E) as (d' & pr & HL' & Hrun).
    { intros q Hq%(inj Some)%pathKey_injective. by rewrite Hq. }
    exists d', pr. split; [done|]. intros rest.
    rewrite fmap_app, <- app_assoc, Hdef. cbn [fmap list_fmap app].
    by rewrite (decode_op _ _ _ p), Hrun, prepend_app.
Qed.

Lemma encode_decode e d ops e' out :
  Forall op_ok ops -> linked e d -> encode e ops = (e', out) ->
  exists d', linked e' d' /\ decode d (wire_to_json <$> out) = (d', Ok ops).
Proof.
  intros Hok HL E. destruct (encode_loop_decode ops e None d None e' out) as (d' & pr & HL' & Hrun);
    [done..|]. exists d'. split; [done|].
  specialize (Hrun []). rewrite app_nil_r in Hrun. unfold decode. rewrite Hrun.
  unfold prepend. cbn. by rewrite app_nil_r.
Qed.

(** Consecutive batches may be concatenated into one. *)
Lemma encode_batches_concat bs : forall e d e' ws,
  Forall (Forall op_ok) bs -> linked e d -> encode_batches e bs = (e', ws) ->
  exists d', linked e' d' /\ decode d (wire_to_json <$> concat ws) = (d', Ok (concat bs)).
Proof.
  assert (H : forall bs e d previous e' ws,
    Forall (Forall op_ok) bs -> linked e d -> encode_batches e bs = (e', ws) ->
    exists d' previous', linked e' d' /\ forall rest,
      decode_loop d previous ((wire_to_json <$> concat ws) ++ rest)
      = prepend (concat bs) (decode_loop d' previous' rest)).
  { clear. induction bs as [|ops bs IH]; intros e d previous e' ws Hok HL; cbn [encode_batches].
    - intros [= <- <-]. exists d, previous. split; [done|]. intros. by rewrite prepend_nil.
    - apply Forall_cons in Hok as [Hops Hok].
      destruct (encode e ops) as [e1 w] eqn:E1. destruct (encode_batches e1 bs) as [e2 ws2] eqn:E2.
      intros [= <- <-].
      destruct (encode_loop_decode ops e None d previous e1 w) as (d1 & p1 & L1 & R1); [done..|].
      destruct (IH e1 d1 p1 e2 ws2) as (d2 & p2 & L2 & R2); [done..|].
      exists d2, p2. split; [done|]. intros rest. cbn [concat].
      by rewrite fmap_app, <- app_assoc, R1, R2, prepend_app. }
  intros e d e' ws Hok HL E. destruct (H bs e d None e' ws) as (d' & pr & HL' & Hrun); [done..|].
  exists d'. split; [done|]. specialize (Hrun []). rewrite app_nil_r in Hrun.
  unfold decode. rewrite Hrun. unfold prepend. cbn. by rewrite app_nil_r.
Qed.

(** A link that coalesces what waits sends the batches of one encoder in groups. *)
Fixpoint encode_groups (e : encoder) (groups : list (list (list Op))) : encoder * list (list WireOp) :=
  match groups with
  | [] => (e, [])
  | g :: groups' =>
      let '(e1, ws) := encode_batches e g in
      let '(e2, out) := encode_groups e1 groups' in
      (e2, concat ws :: out)
  end.

Lemma encode_groups_decode groups : forall e d e' out,
  Forall (Forall (Forall op_ok)) groups -> linked e d -> encode_groups e groups = (e', out) ->
  exists d', linked e' d' /\
    decode_batches d (map (fmap wire_to_json) out) = (d', Ok (@concat Op <$> groups)).
Proof.
  induction groups as [|g groups IH]; intros e d e' out Hok HL; cbn [encode_groups].
  { intros [= <- <-]. by exists d. }
  apply Forall_cons in Hok as [Hg Hok].
  destruct (encode_batches e g) as [e1 ws] eqn:E1. destruct (encode_groups e1 groups) as [e2 out2] eqn:E2.
  intros [= <- <-].
  destruct (encode_batches_concat g e d e1 ws Hg HL E1) as (d1 & L1 & R1).
  destruct (IH e1 d1 e2 out2 Hok L1 E2) as (d2 & L2 & R2).
  exists d2. split; [done|]. cbn. by rewrite R1, R2.
Qed.

(** A decoder that starts at a replacement needs nothing of what came before. *)
Lemma encode_decode_base e d v ops e' out :
  Forall op_ok ops -> encode e (OpR v :: ops) = (e', out) ->
  exists d', linked e' d' /\ decode d (wire_to_json <$> out) = (d', Ok (OpR v :: ops)).
Proof.
  intros Hok. unfold encode. cbn [encode_loop op_path with_ref].
  destruct (encode_loop encoder_new None ops) as [e1 out1] eqn:E. intros [= <- <-].
  destruct (encode_decode encoder_new ∅ ops e1 out1) as (d' & HL & H); [done|apply linked_new|done|].
  exists d'. split; [done|]. unfold decode in *. cbn [fmap list_fmap].
  by rewrite decode_replace, H.
Qed.
