(* ===== verification/DeltaPending.v ===== *)
(** [PendingOps] of chord/src/delta/pending.ts: the operations one slow consumer of a state
    has not taken yet, folded while they wait, and the proof that the folded operations do
    what the pushed ones did. *)
From S2P Require Import Prelude JsString Json DeltaOp DeltaApply DeltaCodec.

(** ** The queue *)

Definition MAX_PENDING_OPS : N := 10000.

Record Folding : Type := {
  f_ops : list Op;
  f_leaves : gmap string nat;
}.

Inductive State : Type :=
| Empty
| Batch (ops : list Op)
| FoldingState (f : Folding)
| Replace.

Inductive PendingTake : Type :=
| TakeOps (ops : list Op)
| TakeReplace.

Definition isPrimitive (v : json) : bool := negb (isObj v).

(** [next] folded into [previous] (same path), or [None] when they do not fold. *)
Definition merge (previous next : Op) : option Op :=
  match next with
  | OpS _ _ => Some next
  | OpA _ t =>
      match previous with
      | OpA p s => Some (OpA p (s +:+ t))
      | OpS p (JStr s) => Some (OpS p (JStr (s +:+ t)))
      | _ => None
      end
  | _ => None
  end.

(** [inl] is the folding after a merge, [inr] the folding that has indexed the operation
    at the position it is about to be pushed to. *)
Definition mergeLeaf (op : Op) (p : path) (f : Folding) : Folding + Folding :=
  let key := pathKey p in
  let index := inr {| f_ops := f_ops f; f_leaves := <[key := length (f_ops f)]> (f_leaves f) |} in
  match f_leaves f !! key with
  | Some at_ =>
      match f_ops f !! at_ with
      | Some previous =>
          match merge previous op with
          | Some merged => inl {| f_ops := <[at_ := merged]> (f_ops f); f_leaves := f_leaves f |}
          | None => index
          end
      | None => index
      end
  | None => index
  end.

(** The [switch] of [#fold]: whether the operation merged, and the folding before it is
    pushed. *)
Definition fold_case (op : Op) (f : Folding) : Folding + Folding :=
  let cleared := {| f_ops := f_ops f; f_leaves := ∅ |} in
  match op with
  | OpR _ => inr {| f_ops := []; f_leaves := ∅ |}
  | OpA p _ => mergeLeaf op p f
  | OpS p v => if isPrimitive v then mergeLeaf op p f else inr cleared
  | _ => inr cleared
  end.

(** The loop of [#fold]; [None] is the overflow. *)
Fixpoint fold (ops : list Op) (f : Folding) : option Folding :=
  match ops with
  | [] => Some f
  | op :: ops' =>
      match fold_case op f with
      | inl f' => fold ops' f'
      | inr f' =>
          let pushed := {| f_ops := f_ops f' ++ [op]; f_leaves := f_leaves f' |} in
          if (MAX_PENDING_OPS <? N.of_nat (length (f_ops pushed)))%N then None else fold ops' pushed
      end
  end.

Definition starts_with_r (ops : list Op) : bool :=
  match ops with OpR _ :: _ => true | _ => false end.

Definition state_of (r : option Folding) : State :=
  match r with Some f => FoldingState f | None => Replace end.

(** Queue the operations of one commit. *)
Definition push (st : State) (ops : list Op) : State :=
  match ops with
  | [] => st
  | _ =>
      if starts_with_r ops then Batch ops
      else match st with
           | Empty => Batch ops
           | Batch waiting =>
               state_of (f ← fold waiting {| f_ops := []; f_leaves := ∅ |}; fold ops f)
           | FoldingState f => state_of (fold ops f)
           | Replace => Replace
           end
  end.

Definition size (st : State) : nat :=
  match st with
  | Empty => 0
  | Batch ops => length ops
  | FoldingState f => length (f_ops f)
  | Replace => 1
  end.

(** Hand over everything pending and start empty. *)
Definition take_pending (st : State) : State * PendingTake :=
  (Empty, match st with
          | Empty => TakeOps []
          | Batch ops => TakeOps ops
          | FoldingState f => TakeOps (f_ops f)
          | Replace => TakeReplace
          end).

(** ** Leaf operations *)

(** An append, or a set of a primitive, with its path. *)
Definition leaf_path (op : Op) : option path :=
  match op with
  | OpA p _ => Some p
  | OpS p v => if isPrimitive v then Some p else None
  | _ => None
  end.

(** A child that a segment of its own kind addresses: a property by a name, an element by
    an index. *)
Definition child (v : json) (g : seg) : option json :=
  match v, g with
  | JArr _ xs, SNum n => arr_get xs n
  | JObj _ fs, SStr k => obj_get k fs
  | _, _ => None
  end.

(** The segments of a path are of the kinds of the containers they address. *)
Fixpoint typed_path (v : json) (p : path) : bool :=
  match p with
  | [] => true
  | g :: p' =>
      match v, g with
      | JArr _ _, SNum _ | JObj _ _, SStr _ =>
          match child v g with Some c => typed_path c p' | None => true end
      | JArr _ _, _ | JObj _ _, _ => false
      | _, _ => true
      end
  end.

(** The leaf operations of a run write through typed paths: what the tracker,
    [diffRevisions] and [appendText] produce. *)
Fixpoint typed_run (root : option json) (ops : list Op) : Prop :=
  match ops with
  | [] => True
  | op :: ops' =>
      match root, leaf_path op with Some v, Some p => typed_path v p = true | _, _ => True end /\
      match apply_op root op with Ok root' => typed_run root' ops' | Throw _ => True end
  end.

(** ** Writing one child *)

Definition can_write (v : json) (g : seg) : bool :=
  match v, g with
  | JArr _ xs, SNum n => (n <=? N.of_nat (length xs))%N
  | JObj _ _, SStr _ => true
  | _, _ => false
  end.

Lemma child_can_write v g c : child v g = Some c -> can_write v g = true.
Proof.
  destruct v, g; cbn; try done. intros H%arr_get_Some%lookup_lt_Some.
  apply N.leb_le. lia.
Qed.

Lemma define_prop_arr i xs n w : (n <= N.of_nat (length xs))%N ->
  exists ys, define_prop (JArr i xs) (SNum n) w = JArr i ys /\
    ys = (if decide (N.to_nat n = length xs) then xs ++ [w] else <[N.to_nat n := w]> xs).
Proof.
  intros H. eexists. split; [|done]. cbn. destruct (N.eqb_spec n (N.of_nat (length xs))).
  - rewrite decide_True by lia. done.
  - rewrite decide_False by lia. done.
Qed.

Lemma child_define_eq v g w : can_write v g = true -> child (define_prop v g w) g = Some w.
Proof.
  destruct v as [|b0|m0|t0|i xs|i fs], g as [s|n]; cbn [can_write]; try done.
  - intros Hn%N.leb_le. destruct (define_prop_arr i xs n w Hn) as (ys & -> & ->). cbn.
    apply arr_get_Some. case_decide as Hd.
    + rewrite Hd. by apply list_lookup_middle.
    + apply list_lookup_insert_eq. lia.
  - intros _. cbn. apply obj_get_set_eq.
Qed.

Lemma arr_get_lookup xs n : arr_get xs n = xs !! N.to_nat n.
Proof. rewrite <- (N2Nat.id n) at 1. apply arr_get_nat. Qed.

Lemma child_define_ne v g h w :
  can_write v g = true -> g <> h -> child (define_prop v g w) h = child v h.
Proof.
  destruct v as [|b0|m0|t0|i xs|i fs], g as [s|n]; cbn [can_write]; try done.
  - intros Hn%N.leb_le Hne. destruct (define_prop_arr i xs n w Hn) as (ys & -> & ->). cbn.
    destruct h as [|m]; [done|]. rewrite !arr_get_lookup.
    assert (N.to_nat n <> N.to_nat m) by (intros ?%N2Nat.inj; congruence).
    case_decide as Hd; [|by apply list_lookup_insert_ne].
    destruct (decide (N.to_nat m < length xs)); [by apply lookup_app_l|].
    rewrite !lookup_ge_None_2; [done|lia|rewrite length_app; cbn; lia].
  - intros _ Hne. cbn. destruct h; [|done]. apply obj_get_set_ne. congruence.
Qed.

Lemma can_write_define v g h w :
  can_write v g = true -> g <> h -> can_write v h = true -> can_write (define_prop v g w) h = true.
Proof.
  destruct v as [|b0|m0|t0|i xs|i fs], g as [s|n], h as [t|m]; cbn [can_write]; try done.
  intros Hn%N.leb_le Hne Hm%N.leb_le. destruct (define_prop_arr i xs n w Hn) as (ys & -> & ->).
  cbn. apply N.leb_le. case_decide; rewrite ?length_app, ?length_insert; cbn; lia.
Qed.

(** Writing an element that is there does not change which keys can be written. *)
Lemma can_write_define_child v g h w c :
  child v g = Some c -> can_write (define_prop v g w) h = can_write v h.
Proof.
  destruct v as [|b0|m0|t0|i xs|i fs], g as [s|n], h as [t|m]; cbn; try done.
  - intros H%arr_get_Some%lookup_lt_Some. by destruct (_ =? _)%N.
  - intros H%arr_get_Some%lookup_lt_Some. rewrite (proj2 (N.eqb_neq _ _)) by lia.
    cbn. by rewrite length_insert.
Qed.

Lemma define_define_eq v g w w' :
  can_write v g = true -> define_prop (define_prop v g w) g w' = define_prop v g w'.
Proof.
  destruct v as [|b0|m0|t0|i xs|i fs], g as [s|n]; cbn; try done.
  - intros Hn%N.leb_le. destruct (N.eqb_spec n (N.of_nat (length xs))) as [->|Hd]; cbn.
    + rewrite length_app. cbn. rewrite (proj2 (N.eqb_neq _ _)) by lia.
      rewrite Nat2N.id. by rewrite insert_app_r_alt, Nat.sub_diag by lia.
    + rewrite length_insert, (proj2 (N.eqb_neq _ _)) by done. by rewrite list_insert_insert_eq.
  - intros _. by rewrite obj_set_set.
Qed.

Lemma obj_update_comm {A} k1 k2 (v1 v2 : A) fs :
  k1 <> k2 -> obj_update k1 v1 (obj_update k2 v2 fs) = obj_update k2 v2 (obj_update k1 v1 fs).
Proof.
  intros Hne. induction fs as [|[k v] fs IH]; [done|]. cbn.
  destruct (String.eqb_spec k2 k) as [->|H2]; destruct (String.eqb_spec k1 k) as [->|H1]; cbn;
    rewrite ?String.eqb_refl; try done.
  - destruct (String.eqb_spec k1 k); [done|]. done.
  - destruct (String.eqb_spec k2 k); [done|]. done.
  - destruct (String.eqb_spec k1 k), (String.eqb_spec k2 k); try done. by rewrite IH.
Qed.

Lemma obj_update_insert_index_ne {A} n k1 (v1 : A) k2 v2 fs :
  k1 <> k2 ->
  obj_update k2 v2 (obj_insert_index n k1 v1 fs) = obj_insert_index n k1 v1 (obj_update k2 v2 fs).
Proof.
  intros Hne. induction fs as [|[k v] fs IH]; cbn.
  { by rewrite (proj2 (String.eqb_neq k2 k1)) by done. }
  destruct (String.eqb k2 k) eqn:Hk; destruct (array_index_key k) as [m|] eqn:Hm; cbn;
    rewrite ?Hm; [destruct (m <? n)%N|..|destruct (m <? n)%N|]; cbn;
    rewrite ?Hk, ?(proj2 (String.eqb_neq k2 k1)) by done; try done; by rewrite ?IH, ?Hk.
Qed.

Lemma obj_update_app_l {A} k (v c : A) fs gs :
  obj_get k fs = Some c -> obj_update k v (fs ++ gs) = obj_update k v fs ++ gs.
Proof.
  induction fs as [|[k1 v1] fs IH]; cbn; [done|]. destruct (String.eqb k k1); [done|].
  intros. cbn. by rewrite IH.
Qed.

Lemma obj_set_comm {A} k1 k2 (v1 v2 c : A) fs :
  k1 <> k2 -> obj_get k2 fs = Some c ->
  obj_set k2 v2 (obj_set k1 v1 fs) = obj_set k1 v1 (obj_set k2 v2 fs).
Proof.
  intros Hne Hc.
  rewrite (obj_set_present k2 v2 fs) by (by rewrite Hc).
  rewrite (obj_set_present k2) by (by rewrite obj_get_set_ne, Hc by congruence).
  unfold obj_set. rewrite obj_get_update by (by rewrite Hc).
  rewrite (proj2 (String.eqb_neq k1 k2)) by done.
  destruct (obj_get k1 fs); [by apply obj_update_comm|].
  destruct (array_index_key k1); [by apply obj_update_insert_index_ne|].
  by eapply obj_update_app_l.
Qed.

Lemma define_comm v g h w d c :
  g <> h -> can_write v g = true -> child v h = Some c ->
  define_prop (define_prop v g w) h d = define_prop (define_prop v h d) g w.
Proof.
  destruct v as [|b0|m0|t0|i xs|i fs], g as [s|n], h as [t|m]; cbn [can_write child]; try done.
  - intros Hne Hn%N.leb_le Hm%arr_get_Some%lookup_lt_Some. cbn.
    assert (N.to_nat n <> N.to_nat m) by (intros ?%N2Nat.inj; congruence).
    rewrite (proj2 (N.eqb_neq m (N.of_nat (length xs)))) by lia.
    destruct (N.eqb_spec n (N.of_nat (length xs))); cbn.
    + rewrite length_app, length_insert. cbn. rewrite (proj2 (N.eqb_neq m _)) by lia.
      rewrite (proj2 (N.eqb_eq n _)) by done. by rewrite insert_app_l.
    + rewrite !length_insert, (proj2 (N.eqb_neq m _)), (proj2 (N.eqb_neq n _)) by lia.
      by rewrite list_insert_insert_ne.
  - intros Hne _ Hc. cbn. by rewrite (obj_set_comm _ _ _ _ c) by congruence.
Qed.

(** ** Writing at a path *)

(** Write [w] at a path whose container is there. *)
Fixpoint put (v : json) (p : path) (w : json) : option json :=
  match p with
  | [] => None
  | [g] => if can_write v g then Some (define_prop v g w) else None
  | g :: p' => c ← child v g; c' ← put c p' w; Some (define_prop v g c')
  end.

Fixpoint get (v : json) (p : path) : option json :=
  match p with
  | [] => Some v
  | g :: p' => c ← child v g; get c p'
  end.

Lemma put_cons v g p w :
  p <> [] -> put v (g :: p) w = (c ← child v g; c' ← put c p w; Some (define_prop v g c')).
Proof. by destruct p. Qed.

(** Reading after a write, where neither path is a prefix of the other. *)
Lemma get_put_ne p : forall q v w v',
  ~ p `prefix_of` q -> ~ q `prefix_of` p -> put v p w = Some v' -> get v' q = get v q.
Proof.
  induction p as [|g p IH]; intros [|h q] v w v' Hpq Hqp; try done;
    [by destruct Hqp; apply prefix_nil|].
  destruct (decide (p = [])) as [->|Hne].
  - cbn. destruct (can_write v g) eqn:Hw; [|done]. intros [= <-].
    rewrite child_define_ne; [done|done|]. intros ->.
    destruct Hpq. apply prefix_cons, prefix_nil.
  - rewrite put_cons by done. destruct (child v g) as [c|] eqn:Hc; [|done]. cbn.
    destruct (put c p w) as [c'|] eqn:Hp; [|done]. intros [= <-].
    destruct (decide (g = h)) as [<-|Hgh].
    + rewrite child_define_eq by (by eapply child_can_write). rewrite Hc. cbn.
      eapply IH; [..|done]; intros ?; [apply Hpq|apply Hqp]; by apply prefix_cons.
    + by rewrite child_define_ne by (done || by eapply child_can_write).
Qed.

Lemma get_put_eq p : forall v w v', put v p w = Some v' -> get v' p = Some w.
Proof.
  induction p as [|g p IH]; intros v w v'; [done|].
  destruct (decide (p = [])) as [->|Hne].
  - cbn. destruct (can_write v g) eqn:Hw; [|done]. intros [= <-].
    by rewrite child_define_eq.
  - rewrite put_cons by done. destruct (child v g) as [c|] eqn:Hc; [|done]. cbn.
    destruct (put c p w) as [c'|] eqn:Hp; [|done]. intros [= <-].
    rewrite child_define_eq by (by eapply child_can_write). cbn. by eapply IH.
Qed.

(** A second write at the path replaces the first. *)
Lemma put_put_eq p : forall v w v' u,
  put v p w = Some v' -> put v' p u = put v p u.
Proof.
  induction p as [|g p IH]; intros v w v' u; [done|].
  destruct (decide (p = [])) as [->|Hne].
  - cbn. destruct (can_write v g) eqn:Hw; [|done]. intros [= <-].
    assert (can_write (define_prop v g w) g = true) as ->.
    { eapply child_can_write, child_define_eq, Hw. }
    by rewrite define_define_eq.
  - rewrite !put_cons by done. destruct (child v g) as [c|] eqn:Hc; [|done]. cbn.
    destruct (put c p w) as [c'|] eqn:Hp; [|done]. intros [= <-].
    pose proof (child_can_write _ _ _ Hc) as Hw.
    rewrite child_define_eq by done. cbn. rewrite (IH _ _ _ u Hp).
    destruct (put c p u); [|done]. cbn. by rewrite define_define_eq.
Qed.

(** What a write leaves in the child it goes through. *)
Definition puts_child (v : json) (g : seg) (p : path) (w d : json) : Prop :=
  can_write v g = true /\
  ((p = [] /\ d = w) \/ (p <> [] /\ exists c, child v g = Some c /\ put c p w = Some d)).

Lemma put_child v g p w v' :
  put v (g :: p) w = Some v' <-> exists d, puts_child v g p w d /\ v' = define_prop v g d.
Proof.
  unfold puts_child. destruct (decide (p = [])) as [->|Hne].
  - cbn. destruct (can_write v g) eqn:Hw; split.
    + intros [= <-]. exists w. auto.
    + by intros (d & (_ & [[_ ->]|[? _]]) & ->).
    + done.
    + by intros (d & [? _] & _).
  - rewrite put_cons by done. split.
    + destruct (child v g) as [c|] eqn:Hc; [|done]. cbn. destruct (put c p w) as [d|] eqn:Hp; [|done].
      intros [= <-]. exists d. split; [|done]. split; [by eapply child_can_write|]. right. eauto.
    + intros (d & (_ & [[? _]|(_ & c & Hc & Hp)]) & ->); [done|]. rewrite Hc. cbn. by rewrite Hp.
Qed.

(** Two writes at paths neither of which is a prefix of the other, the second at a path
    that is there, may be swapped. *)
Lemma put_comm p : forall q v w u v1 v2 b,
  ~ p `prefix_of` q -> ~ q `prefix_of` p -> get v q = Some b ->
  put v p w = Some v1 -> put v1 q u = Some v2 ->
  exists v', put v q u = Some v' /\ put v' p w = Some v2.
Proof.
  induction p as [|g p IH]; intros [|h q] v w u v1 v2 b Hpq Hqp; try done.
  cbn [get]. destruct (child v h) as [ch|] eqn:Hch; [|done]. cbn [mbind option_bind]. intros Hget.
  pose proof (child_can_write _ _ _ Hch) as Hwh.
  intros (d1 & [Hw1 Hs1] & ->)%put_child (d2 & [Hw2 Hs2] & ->)%put_child.
  setoid_rewrite put_child.
  destruct (decide (g = h)) as [<-|Hgh].
  - assert (p <> []) by (intros ->; destruct Hpq; apply prefix_cons, prefix_nil).
    assert (q <> []) by (intros ->; destruct Hqp; apply prefix_cons, prefix_nil).
    destruct Hs1 as [[? _]|(_ & c & Hc & H1)], Hs2 as [[? _]|(_ & c' & Hc' & H2)]; [done..|].
    rewrite child_define_eq in Hc' by done. simplify_eq.
    destruct (IH q ch w u c' d2 b) as (d & E1 & E2); [| |done..|].
    { intros ?. apply Hpq. by apply prefix_cons. }
    { intros ?. apply Hqp. by apply prefix_cons. }
    eexists. split; [exists d; split; [|done]; split; [done|]; right; eauto|].
    exists d2. rewrite !define_define_eq by done. split; [|done].
    split; [by rewrite (can_write_define_child _ _ _ _ ch)|].
    right. rewrite child_define_eq by done. eauto.
  - exists (define_prop v h d2). split.
    + exists d2. split; [|done]. split; [done|].
      by rewrite child_define_ne in Hs2.
    + exists d1. rewrite (define_comm v g h d1 d2 ch) by done. split; [|done].
      split; [by rewrite (can_write_define_child _ _ _ _ ch)|].
      by rewrite child_define_ne by done.
Qed.

(** ** Leaf operations as writes *)

(** What a leaf operation writes over the value that stands at its path. *)
Definition leaf_value (op : Op) (current : option json) : option json :=
  match op, current with
  | OpS _ v, _ => Some v
  | OpA _ t, Some (JStr s) => Some (JStr (s +:+ t))
  | _, _ => None
  end.

Definition leaf_step (v : json) (op : Op) (p : path) : option json :=
  w ← leaf_value op (get v p); put v p w.

Lemma leaf_value_primitive op p cur w :
  leaf_path op = Some p -> leaf_value op cur = Some w -> isPrimitive w = true.
Proof.
  destruct op; cbn; try done; [destruct (isPrimitive value) eqn:H; congruence|].
  intros _. destruct cur as [[]|]; by intros [= <-].
Qed.

Lemma get_app v p q : get v (p ++ q) = get v p ≫= (fun m => get m q).
Proof.
  revert v; induction p as [|g p IH]; intros v; [done|]. cbn. destruct (child v g); [apply IH|done].
Qed.

Lemma child_own v g c : child v g = Some c -> own_get v g = Some c.
Proof. by destruct v, g. Qed.

Lemma get_get_at v p c : get v p = Some c -> get_at v p = Some c.
Proof.
  revert v; induction p as [|g p IH]; intros v; [done|]. cbn.
  destruct (child v g) as [d|] eqn:Hd; [|done]. rewrite (child_own _ _ _ Hd). apply IH.
Qed.

(** A typed path reads what an untyped walk reads. *)
Lemma typed_get q : forall v k parent,
  typed_path v (q ++ [k]) = true -> get_at v q = Some parent ->
  get v q = Some parent /\ typed_path parent [k] = true.
Proof.
  induction q as [|g q IH]; intros v k parent; [by intros ? [= <-]|].
  cbn [app get_at get]. destruct (own_get v g) as [c|] eqn:Hc; [|done]. intros Ht Hg.
  assert (child v g = Some c) as Hch.
  { destruct v as [|b0|m0|t0|i xs|i fs], g as [s|n]; cbn in *; done. }
  rewrite Hch. cbn. apply IH; [|done].
  destruct v as [|b0|m0|t0|i xs|i fs], g as [s|n]; cbn in *; try done; by rewrite Hch in Ht.
Qed.

Lemma put_snoc q : forall v k w v',
  put v (q ++ [k]) w = Some v' <->
  exists parent, get v q = Some parent /\ can_write parent k = true /\
    v' = replace_at v q (define_prop parent k w).
Proof.
  induction q as [|g q IH]; intros v k w v'.
  - cbn. split.
    + destruct (can_write v k) eqn:Hw; [|done]. intros [= <-]. eauto.
    + by intros (parent & [= <-] & -> & ->).
  - cbn [app]. rewrite put_cons by apply snoc_not_nil. cbn [get].
    destruct (child v g) as [c|] eqn:Hc; cbn [mbind option_bind].
    2: { split; [done|]. by intros (? & ? & _). }
    pose proof (child_own _ _ _ Hc) as Ho. split.
    + destruct (put c (q ++ [k]) w) as [d|] eqn:Hp; [|done]. cbn [mbind option_bind]. intros [= <-].
      apply IH in Hp as (parent & Hg & Hw & ->). exists parent. split; [done|]. split; [done|].
      by rewrite (define_prop_own _ _ _ _ Ho), (replace_at_cons _ _ _ q _ Ho).
    + intros (parent & Hg & Hw & ->).
      rewrite (proj2 (IH c k w (replace_at c q (define_prop parent k w)))) by eauto. cbn [mbind option_bind].
      by rewrite (define_prop_own _ _ _ _ Ho), (replace_at_cons _ _ _ q _ Ho).
Qed.

Lemma can_write_check v k : can_write v k = true -> check_key v k = Ok tt /\ isObj v = true.
Proof. destruct v, k; cbn; try done. by intros ->. Qed.

Lemma typed_can_write v k : typed_path v [k] = true -> isObj v = true -> check_key v k = Ok tt ->
  can_write v k = true.
Proof. destruct v, k; cbn; try done. intros _ _. by destruct (_ <=? _)%N. Qed.

(** On a typed key, the mutation of a leaf operation is a write. *)
Lemma mutate_leaf op p p' parent k : leaf_path op = Some p -> can_write parent k = true ->
  mutate_key p' op parent k =
  match leaf_value op (child parent k) with
  | Some w => Ok (define_prop parent k w) | None => Throw (PathError p')
  end.
Proof.
  intros Hl Hw.
  assert (own_get parent k = child parent k) as Ho by (by destruct parent, k).
  destruct op; try done; cbn; rewrite Ho. by destruct (child parent k) as [[]|].
Qed.

Lemma apply_op_leaf v op p : leaf_path op = Some p ->
  apply_op (Some v) op = Some <$> apply_key v p op.
Proof. destruct op; cbn; try done; [destruct (isPrimitive value)|]; congruence. Qed.

Lemma leaf_step_apply v op p v' :
  leaf_path op = Some p -> leaf_step v op p = Some v' -> apply_op (Some v) op = Ok (Some v').
Proof.
  intros Hl. unfold leaf_step. destruct (leaf_value op (get v p)) as [w|] eqn:Hv; [|done].
  cbn [mbind option_bind]. rewrite (apply_op_leaf _ _ _ Hl). intros Hput.
  destruct p as [|k q _] using rev_ind; [done|].
  apply put_snoc in Hput as (parent & Hg & Hw & ->).
  destruct (can_write_check _ _ Hw) as [Hck Hobj].
  rewrite (apply_key_at _ _ _ _ parent) by (done || by apply get_get_at).
  rewrite Hck. cbn. rewrite (mutate_leaf op _ _ _ _ Hl Hw).
  rewrite get_app, Hg in Hv. cbn in Hv.
  destruct (child parent k) as [c|]; cbn in Hv; by rewrite Hv.
Qed.

Lemma apply_leaf_step v op p r :
  leaf_path op = Some p -> p <> [] -> typed_path v p = true -> apply_op (Some v) op = Ok r ->
  exists v', r = Some v' /\ leaf_step v op p = Some v'.
Proof.
  intros Hl Hne Ht. rewrite (apply_op_leaf _ _ _ Hl).
  destruct p as [|k q _] using rev_ind; [done|]. unfold leaf_step.
  destruct (apply_key v (q ++ [k]) op) as [v'|] eqn:Ha; [|done]. cbn. intros [= <-].
  exists v'. split; [done|]. pose proof Ha as Ha'. unfold apply_key in Ha.
  rewrite removelast_last in Ha. inv_res. apply resolve_Ok in Hv as [Hg Hobj].
  destruct (typed_get _ _ _ _ Ht Hg) as [Hget Htk].
  rewrite (apply_key_at _ _ _ _ _ Hg Hobj) in Ha'. clear Ha. inv_res. destruct v1.
  pose proof (typed_can_write _ _ Htk Hobj Hv) as Hw.
  rewrite (mutate_leaf op _ _ _ _ Hl Hw) in Hv0.
  rewrite get_app, Hget. cbn.
  assert (Hc : (c ← child v0 k; Some c) = child v0 k) by (by destruct (child v0 k)).
  rewrite Hc. destruct (leaf_value op (child v0 k)) as [w|]; [|done]. injection Hv0 as <-.
  cbn. apply put_snoc. eauto.
Qed.

(** ** Runs *)

(** One operation of a typed run: a leaf operation is a write, any other is [apply]. *)
Definition step (root : option json) (op : Op) : option (option json) :=
  match leaf_path op, root with
  | Some p, Some v => Some <$> leaf_step v op p
  | Some _, None => None
  | None, _ => match apply_op root op with Ok root' => Some root' | Throw _ => None end
  end.

Fixpoint run (root : option json) (ops : list Op) : option (option json) :=
  match ops with
  | [] => Some root
  | op :: ops' => root' ← step root op; run root' ops'
  end.

Lemma run_app root o1 o2 : run root (o1 ++ o2) = (root' ← run root o1; run root' o2).
Proof.
  revert root; induction o1 as [|op o1 IH]; intros root; [done|]. cbn.
  destruct (step root op); [apply IH|done].
Qed.

Lemma leaf_path_ok op p : op_ok op -> leaf_path op = Some p -> p <> [].
Proof.
  destruct op; cbn; try done; [destruct (isPrimitive value)|]; intros [? _]; congruence.
Qed.

Lemma step_apply root op r : step root op = Some r -> apply_op root op = Ok r.
Proof.
  unfold step. destruct (leaf_path op) as [p|] eqn:Hl; [|by destruct (apply_op root op); intros [= ->]].
  destruct root as [v|]; [|done]. destruct (leaf_step v op p) as [v'|] eqn:Hs; [|done].
  cbn. intros [= <-]. by eapply leaf_step_apply.
Qed.

Lemma run_applyOps root ops r :
  Forall op_ok ops -> run root ops = Some r -> applyOps root (tuples ops) = Ok r.
Proof.
  intros Hok. revert root; induction Hok as [|op ops Hop Hok IH]; intros root; cbn.
  { by intros [= ->]. }
  destruct (step root op) as [root'|] eqn:Hs; [|done]. cbn. intros Hr.
  pose proof (applyOps_one root op Hop) as H1. rewrite (step_apply _ _ _ Hs) in H1.
  etransitivity; [exact (applyOps_app_Ok _ [op_to_json op] (tuples ops) _ H1)|by apply IH].
Qed.

Lemma applyOps_run root ops r :
  Forall op_ok ops -> typed_run root ops -> applyOps root (tuples ops) = Ok r -> run root ops = Some r.
Proof.
  intros Hok. revert root; induction Hok as [|op ops Hop Hok IH]; intros root; cbn.
  { by intros _ [= ->]. }
  intros [Ht Hrest] Happ.
  pose proof (applyOps_one root op Hop) as H1.
  destruct (apply_op root op) as [root'|e] eqn:Ha.
  - pose proof (applyOps_app_Ok _ [op_to_json op] (tuples ops) _ H1) as H2.
    rewrite <- (IH root' Hrest (eq_trans (eq_sym H2) Happ)).
    assert (step root op = Some root') as ->; [|done].
    unfold step. destruct (leaf_path op) as [p|] eqn:Hl; [|by rewrite Ha].
    destruct root as [v|].
    + destruct (apply_leaf_step v op p root') as (v' & -> & ->); try done. by eapply leaf_path_ok.
    + by destruct op; simplify_eq/=.
  - exfalso. unfold applyOps in *. cbn in H1, Happ.
    destruct (apply_tuple root (op_to_json op)); done.
Qed.

(** ** Moving a leaf operation back over others *)

Fixpoint leaf_run (v : json) (ops : list Op) : option json :=
  match ops with
  | [] => Some v
  | op :: ops' => p ← leaf_path op; v' ← leaf_step v op p; leaf_run v' ops'
  end.

Lemma leaf_run_run v ops r :
  Forall (fun op => is_Some (leaf_path op)) ops -> run (Some v) ops = Some r ->
  exists v', r = Some v' /\ leaf_run v ops = Some v'.
Proof.
  intros Hl. revert v; induction Hl as [|op ops [p Hp] Hl IH]; intros v; cbn.
  { intros [= <-]. eauto. }
  unfold step. rewrite Hp. cbn. destruct (leaf_step v op p) as [v'|]; [|done]. cbn. apply IH.
Qed.

Lemma run_leaf_run v ops v' : leaf_run v ops = Some v' -> run (Some v) ops = Some (Some v').
Proof.
  revert v; induction ops as [|op ops IH]; intros v; cbn; [by intros [= ->]|].
  destruct (leaf_path op) as [p|] eqn:Hp; [|done]. unfold step. rewrite Hp. cbn.
  destruct (leaf_step v op p); [|done]. cbn. apply IH.
Qed.

(** A primitive stands on the way to the path, so nothing can be written there. *)
Definition blocked (v : json) (p : path) : Prop :=
  exists q b, q `prefix_of` p /\ q <> p /\ get v q = Some b /\ isPrimitive b = true.

Lemma get_primitive b p : isPrimitive b = true -> p <> [] -> get b p = None.
Proof. destruct p as [|g p]; [done|]. by destruct b, g. Qed.

Lemma put_primitive b p w : isPrimitive b = true -> put b p w = None.
Proof. destruct p as [|g [|h p]]; [done|..]; by destruct b, g. Qed.

Lemma put_prefix q p v w v' :
  put v (q ++ p) w = Some v' -> p <> [] -> exists b, get v q = Some b /\ is_Some (put b p w).
Proof.
  intros H Hp. revert v v' H; induction q as [|g q IH]; intros v v'; cbn [app get]; [eauto|].
  rewrite put_cons by (by destruct q). destruct (child v g); [|done]. cbn.
  destruct (put _ _ _) eqn:H; [|done]. intros _. by eapply IH.
Qed.

Lemma blocked_put v p w : blocked v p -> put v p w = None.
Proof.
  intros (q & b & [r ->] & Hne & Hg & Hb). destruct (put v (q ++ r) w) eqn:H; [|done].
  assert (r <> []) by (intros ->; by rewrite app_nil_r in Hne).
  apply put_prefix in H as (b' & Hg' & [? Hs]); [|done]. simplify_eq.
  by rewrite put_primitive in Hs.
Qed.

Lemma prefix_cases (p q : path) :
  p = q \/ (p `prefix_of` q /\ p <> q) \/ (q `prefix_of` p /\ p <> q) \/
  (~ p `prefix_of` q /\ ~ q `prefix_of` p).
Proof.
  destruct (decide (p = q)); [by left|].
  destruct (decide (p `prefix_of` q)); [by right; left|].
  destruct (decide (q `prefix_of` p)); [by right; right; left|]. by do 3 right.
Qed.

Lemma blocked_step v op x p v' :
  leaf_path op = Some x -> leaf_step v op x = Some v' -> blocked v p -> blocked v' p.
Proof.
  intros Hl. unfold leaf_step. destruct (leaf_value op (get v x)) as [w|] eqn:Hw; [|done].
  cbn. intros Hput (q & b & Hq & Hne & Hg & Hb).
  pose proof (leaf_value_primitive _ _ _ _ Hl Hw) as Hpw.
  destruct (prefix_cases x q) as [->|[[Hx Hxq]|[[Hx Hxq]|[H1 H2]]]].
  - exists q, w. eauto using get_put_eq.
  - exists x, w. split; [by etrans|]. split; [|split; [by eapply get_put_eq|done]].
    intros ->. apply Hxq. by apply (anti_symm prefix).
  - rewrite blocked_put in Hput; [done|]. exists q, b. done.
  - exists q, b. do 2 (split; [done|]). split; [|done]. by rewrite (get_put_ne _ _ _ _ _ H1 H2 Hput).
Qed.

Lemma blocked_leaf_run ops : forall v v' p, leaf_run v ops = Some v' -> blocked v p -> blocked v' p.
Proof.
  induction ops as [|op ops IH]; intros v v' p; cbn; [by intros [= ->]|].
  destruct (leaf_path op) as [x|] eqn:Hx; [|done]. cbn.
  destruct (leaf_step v op x) as [v1|] eqn:Hs; [|done]. cbn. intros Hr Hb.
  eapply IH; [done|]. by eapply blocked_step.
Qed.

(** A leaf operation that follows leaf operations on other paths may come first, when its
    path holds a primitive there. *)
Lemma move_back ls : forall v v1 v2 b next p,
  leaf_path next = Some p -> get v p = Some b -> isPrimitive b = true ->
  Forall (fun op => leaf_path op <> Some p) ls ->
  leaf_run v ls = Some v1 -> leaf_step v1 next p = Some v2 ->
  exists v', leaf_step v next p = Some v' /\ leaf_run v' ls = Some v2.
Proof.
  induction ls as [|op ls IH]; intros v v1 v2 b next p Hp Hg Hb Hne; cbn.
  { intros [= <-]. eauto. }
  apply Forall_cons in Hne as [Hx Hne]. destruct (leaf_path op) as [x|] eqn:Hl; [|done]. cbn.
  destruct (leaf_step v op x) as [vl|] eqn:Hs; [|done]. cbn. intros Hrun Hnext.
  pose proof Hs as Hs'. unfold leaf_step in Hs'.
  destruct (leaf_value op (get v x)) as [w|] eqn:Hw; [|done]. cbn in Hs'.
  destruct (prefix_cases x p) as [->|[[H1 H2]|[[H1 H2]|[H1 H2]]]]; [done|..].
  - (* the operation writes a primitive above the path: the last one could not run *)
    exfalso. assert (blocked v1 p) as Hbl.
    { eapply blocked_leaf_run; [exact Hrun|]. exists x, w. do 2 (split; [done|]).
      split; [by eapply get_put_eq|]. by eapply leaf_value_primitive. }
    revert Hnext. unfold leaf_step. destruct (leaf_value next _); [|done]. cbn.
    by rewrite blocked_put.
  - (* the operation writes below the primitive *)
    exfalso. rewrite blocked_put in Hs'; [done|]. by exists p, b.
  - destruct (IH vl v1 v2 b next p) as (v' & E1 & E2); [done| |done..|].
    { by rewrite (get_put_ne _ _ _ _ _ H1 H2 Hs'). }
    unfold leaf_step in E1. destruct (leaf_value next (get vl p)) as [u|] eqn:Hu; [|done]. cbn in E1.
    destruct (put_comm x p v w u vl v' b) as (v'' & F1 & F2); [done..|].
    exists v''. rewrite (get_put_ne _ _ _ _ _ H1 H2 Hs') in Hu. unfold leaf_step. split.
    + by rewrite Hu.
    + rewrite (get_put_ne _ _ _ _ _ H2 H1 F1), Hw. cbn. by rewrite F2.
Qed.

(** ** Folding keeps what a run does *)

Lemma merge_step v previous next p v1 v2 m :
  leaf_path previous = Some p -> leaf_path next = Some p -> merge previous next = Some m ->
  leaf_step v previous p = Some v1 -> leaf_step v1 next p = Some v2 ->
  leaf_path m = Some p /\ leaf_step v m p = Some v2.
Proof.
  unfold leaf_step. intros Hp Hn Hm H1 H2.
  destruct (leaf_value previous (get v p)) as [w|] eqn:Hw; [|done]. cbn in H1.
  rewrite (get_put_eq _ _ _ _ H1) in H2.
  destruct (leaf_value next (Some w)) as [u|] eqn:Hu; [|done]. cbn in H2.
  rewrite (put_put_eq _ _ _ _ u H1) in H2.
  destruct next as [|q y| |q t| | |]; try done; cbn in Hm, Hu.
  - simplify_eq. by cbn.
  - destruct previous as [|q' y| |q' s| | |]; try done; cbn in Hp, Hw.
    + destruct y; simplify_eq/=. done.
    + simplify_eq/=. destruct (get v p) as [[]|]; simplify_eq/=. split; [done|].
      by rewrite <- str_app_assoc.
Qed.

(** The index points at leaf operations that only leaf operations on other paths follow. *)
Definition fold_inv (f : Folding) : Prop :=
  forall p at_, f_leaves f !! pathKey p = Some at_ ->
    (leaf_path <$> f_ops f) !! at_ = Some (Some p) /\
    forall j x, at_ < j -> (leaf_path <$> f_ops f) !! j = Some x -> is_Some x /\ x <> Some p.

(** Where the index points, the operations split. *)
Lemma fold_inv_split f p at_ :
  fold_inv f -> f_leaves f !! pathKey p = Some at_ ->
  exists before previous ls, f_ops f = before ++ previous :: ls /\ at_ = length before /\
    leaf_path previous = Some p /\
    Forall (fun op => is_Some (leaf_path op) /\ leaf_path op <> Some p) ls.
Proof.
  intros Hf Hat. destruct (Hf p at_ Hat) as [Hp Hls].
  rewrite list_lookup_fmap in Hp. destruct (f_ops f !! at_) as [o|] eqn:Ho; [|done].
  exists (take at_ (f_ops f)), o, (drop (S at_) (f_ops f)).
  rewrite take_drop_middle by done. split; [done|].
  split; [rewrite length_take; apply lookup_lt_Some in Ho; lia|].
  split; [by injection Hp|]. apply Forall_lookup. intros j x Hj.
  rewrite lookup_drop in Hj. apply (Hls (S at_ + j)); [lia|].
  by rewrite list_lookup_fmap, Hj.
Qed.

Lemma run_leafs root ls r :
  Forall (fun op => is_Some (leaf_path op)) ls -> run root ls = Some r ->
  ls = [] /\ r = root \/ exists v v', root = Some v /\ r = Some v' /\ leaf_run v ls = Some v'.
Proof.
  intros Hl H. destruct ls as [|op ls]; [left; by injection H|]. right.
  destruct root as [v|].
  - destruct (leaf_run_run v _ r Hl H) as (v' & -> & Hr). eauto.
  - apply Forall_cons in Hl as [[p Hp] _]. cbn in H. unfold step in H. by rewrite Hp in H.
Qed.

(** Merging into an operation that only leaf operations on other paths follow. *)
Lemma run_merge before previous ls next p m root r r' :
  leaf_path previous = Some p -> leaf_path next = Some p ->
  Forall (fun op => is_Some (leaf_path op) /\ leaf_path op <> Some p) ls ->
  merge previous next = Some m ->
  run root (before ++ previous :: ls) = Some r -> step r next = Some r' ->
  run root (before ++ m :: ls) = Some r' /\ leaf_path m = Some p.
Proof.
  intros Hp Hn Hls Hm. rewrite !run_app.
  destruct (run root before) as [[v|]|]; [|cbn; unfold step; by rewrite Hp|done].
  cbn [mbind option_bind run]. unfold step at 1. rewrite Hp.
  destruct (leaf_step v previous p) as [v1|] eqn:H1; [|done]. cbn [fmap option_fmap option_map mbind option_bind].
  intros Hrun. destruct (leaf_run_run v1 ls r) as (v2 & -> & Hls'); [|done|].
  { eapply Forall_impl; [exact Hls|]. by intros ? []. }
  unfold step at 1. rewrite Hn. destruct (leaf_step v2 next p) as [v3|] eqn:H3; [|done].
  intros [= <-].
  assert (Hw : exists b, get v1 p = Some b /\ isPrimitive b = true).
  { unfold leaf_step in H1. destruct (leaf_value previous (get v p)) as [w|] eqn:Hw; [|done].
    exists w. split; [by eapply get_put_eq|]. exact (leaf_value_primitive _ _ _ _ Hp Hw). }
  destruct Hw as (b & Hg & Hb).
  destruct (move_back ls v1 v2 v3 b next p) as (v' & E1 & E2); try done.
  { eapply Forall_impl; [exact Hls|]. by intros ? []. }
  destruct (merge_step v previous next p v1 v' m) as [Hmp Hms]; [done..|].
  split; [|done]. unfold step. rewrite Hmp, Hms. by apply run_leaf_run.
Qed.

(** Pushing an operation that is not merged. *)
Definition pushed (f : Folding) (op : Op) : Folding :=
  {| f_ops := f_ops f ++ [op]; f_leaves := f_leaves f |}.

Lemma fold_inv_empty ops : fold_inv {| f_ops := ops; f_leaves := ∅ |}.
Proof. intros p at_. cbn. by rewrite lookup_empty. Qed.

(** Indexing a leaf operation at the position it is pushed to. *)
Lemma fold_inv_index f op p :
  fold_inv f -> leaf_path op = Some p ->
  fold_inv {| f_ops := f_ops f ++ [op]; f_leaves := <[pathKey p := length (f_ops f)]> (f_leaves f) |}.
Proof.
  intros Hf Hp q at_. cbn [f_ops f_leaves]. rewrite fmap_app. cbn [fmap list_fmap]. rewrite Hp.
  destruct (decide (pathKey p = pathKey q)) as [He|He].
  - apply pathKey_injective in He as <-. rewrite lookup_insert_eq. intros [= <-]. split.
    + apply list_lookup_middle. by rewrite length_fmap.
    + intros j x Hj Hx%lookup_lt_Some. rewrite length_app, length_fmap in Hx. cbn in Hx. lia.
  - rewrite lookup_insert_ne by done. intros Hq. destruct (Hf q at_ Hq) as [H1 H2].
    split; [by apply lookup_app_l_Some|]. intros j x Hj [Hx|[_ Hx]]%lookup_app_Some; [by eapply H2|].
    apply list_lookup_singleton_Some in Hx as [_ <-]. split; [eauto|]. by intros [= ->].
Qed.

Lemma fold_inv_merge f p m at_ :
  fold_inv f -> f_leaves f !! pathKey p = Some at_ -> leaf_path m = Some p ->
  fold_inv {| f_ops := <[at_ := m]> (f_ops f); f_leaves := f_leaves f |}.
Proof.
  intros Hf Hat Hm. unfold fold_inv. cbn [f_ops f_leaves].
  rewrite list_fmap_insert, Hm, list_insert_id; [exact Hf|]. by apply Hf.
Qed.

(** One operation of the loop of [#fold]. *)
Lemma mergeLeaf_spec f op p root r r' :
  fold_inv f -> leaf_path op = Some p -> run root (f_ops f) = Some r -> step r op = Some r' ->
  match mergeLeaf op p f with
  | inl f' => fold_inv f' /\ run root (f_ops f') = Some r'
  | inr f' => fold_inv (pushed f' op) /\ run root (f_ops (pushed f' op)) = Some r'
  end.
Proof.
  intros Hf Hp Hr Hs. unfold mergeLeaf.
  assert (Hindex : fold_inv {| f_ops := f_ops f ++ [op];
             f_leaves := <[pathKey p := length (f_ops f)]> (f_leaves f) |} /\
           run root (f_ops f ++ [op]) = Some r').
  { split; [by apply fold_inv_index|]. rewrite run_app, Hr. cbn. by rewrite Hs. }
  destruct (f_leaves f !! pathKey p) as [at_|] eqn:Hat; [|exact Hindex].
  destruct (fold_inv_split f p at_ Hf Hat) as (before & previous & ls & E & Hl & Hpr & Hls).
  rewrite E in Hr |- *. rewrite Hl, list_lookup_middle by done.
  destruct (merge previous op) as [m|] eqn:Hm; [|by rewrite E in Hindex].
  destruct (run_merge before previous ls op p m root r r') as [Hrun Hmp]; [done..|].
  rewrite insert_app_r_alt, Nat.sub_diag by lia. cbn [f_ops list_insert].
  pose proof (fold_inv_merge f p m at_ Hf Hat Hmp) as Hi.
  rewrite E, Hl, insert_app_r_alt, Nat.sub_diag in Hi by lia. done.
Qed.

Lemma fold_case_spec f op root r r' :
  fold_inv f -> run root (f_ops f) = Some r -> step r op = Some r' ->
  match fold_case op f with
  | inl f' => fold_inv f' /\ run root (f_ops f') = Some r'
  | inr f' => fold_inv (pushed f' op) /\ run root (f_ops (pushed f' op)) = Some r'
  end.
Proof.
  intros Hf Hr Hs.
  assert (Hclear : fold_inv {| f_ops := f_ops f ++ [op]; f_leaves := ∅ |} /\
                   run root (f_ops f ++ [op]) = Some r').
  { split; [apply fold_inv_empty|]. rewrite run_app, Hr. cbn. by rewrite Hs. }
  destruct op as [v|p v|p|p s|p n|p i k items|p perm]; try exact Hclear.
  - split; [apply fold_inv_empty|]. cbn in *. by rewrite Hs.
  - cbn [fold_case]. destruct (isPrimitive v) eqn:Hv; [|exact Hclear].
    eapply mergeLeaf_spec; try done. cbn. by rewrite Hv.
  - by eapply mergeLeaf_spec.
Qed.

Lemma fold_spec ops : forall f f' root r r',
  fold_inv f -> run root (f_ops f) = Some r -> run r ops = Some r' -> fold ops f = Some f' ->
  fold_inv f' /\ run root (f_ops f') = Some r'.
Proof.
  induction ops as [|op ops IH]; intros f f' root r r' Hf Hr Hops; cbn in *.
  { intros [= <-]. injection Hops as <-. done. }
  destruct (step r op) as [r1|] eqn:Hs; [|done]. cbn in Hops.
  pose proof (fold_case_spec f op root r r1 Hf Hr Hs) as Hc.
  destruct (fold_case op f) as [f1|f1]; destruct Hc as [Hi Hrun]; [by apply (IH f1 f' root r1)|].
  destruct (_ <? _)%N; [done|]. by apply (IH (pushed f1 op) f' root r1).
Qed.

(** ** The queue *)

Lemma fold_app o1 o2 f : fold (o1 ++ o2) f = (f' ← fold o1 f; fold o2 f').
Proof.
  revert f; induction o1 as [|op o1 IH]; intros f; [done|]. cbn.
  destruct (fold_case op f); [apply IH|]. destruct (_ <? _)%N; [done|apply IH].
Qed.

(** What the queue holds does to any value what the history of pushed operations does. *)
Definition represents (st : State) (history : list Op) : Prop :=
  forall root r, run root history = Some r ->
    match st with
    | Empty => root = r
    | Batch ops => run root ops = Some r
    | FoldingState f => fold_inv f /\ run root (f_ops f) = Some r
    | Replace => True
    end.

Lemma run_starts_with_r ops root root' : starts_with_r ops = true -> run root ops = run root' ops.
Proof. by destruct ops as [|[] ops]. Qed.

Lemma push_represents st history ops :
  represents st history -> represents (push st ops) (history ++ ops).
Proof.
  intros Hst root r Hrun. rewrite run_app in Hrun.
  destruct (run root history) as [r0|] eqn:Hh; [|done]. cbn in Hrun.
  specialize (Hst root r0 Hh). unfold push.
  destruct ops as [|op ops]; [by injection Hrun as <-|].
  destruct (starts_with_r (op :: ops)) eqn:Hr.
  { by rewrite (run_starts_with_r _ root r0). }
  destruct st as [|waiting|f|]; [by subst| | |done].
  - rewrite <- fold_app. destruct (fold (waiting ++ op :: ops) _) as [f|] eqn:Hf; [|done].
    eapply (fold_spec _ {| f_ops := []; f_leaves := ∅ |} f root root); [apply fold_inv_empty|done| |exact Hf].
    rewrite run_app, Hst. exact Hrun.
  - destruct Hst as [Hi Hf]. destruct (fold (op :: ops) f) as [f'|] eqn:E; [|done].
    by eapply (fold_spec _ f f' root r0).
Qed.

Lemma pushes_represent batches : forall st history,
  represents st history -> represents (foldl push st batches) (history ++ concat batches).
Proof.
  induction batches as [|ops batches IH]; intros st history Hst; cbn; [by rewrite app_nil_r|].
  rewrite app_assoc. by apply IH, push_represents.
Qed.

(** The operations of a queue satisfy what the pushed ones do. *)
Definition state_ok (P : Op -> Prop) (st : State) : Prop :=
  match st with
  | Empty | Replace => True
  | Batch ops => Forall P ops
  | FoldingState f => Forall P (f_ops f)
  end.

Lemma merge_ok previous next m :
  op_ok previous -> op_ok next -> merge previous next = Some m -> op_ok m.
Proof.
  destruct next as [| | |p s| | |]; try done; [intros; by simplify_eq/=|].
  destruct previous as [|q v| |q t| | |]; try done; cbn; [|intros; by simplify_eq].
  destruct v; try done. intros; by simplify_eq.
Qed.

Section Every.
Context (P : Op -> Prop) (Hmerge : forall previous next m, P previous -> P next -> merge previous next = Some m -> P m).

Lemma fold_case_every op f f' :
  P op -> Forall P (f_ops f) -> fold_case op f = inl f' \/ fold_case op f = inr f' -> Forall P (f_ops f').
Proof.
  intros Hop Hf.
  assert (Hm : forall p, mergeLeaf op p f = inl f' \/ mergeLeaf op p f = inr f' -> Forall P (f_ops f')).
  { intros p. unfold mergeLeaf. destruct (f_leaves f !! pathKey p) as [at_|]; [|naive_solver].
    destruct (f_ops f !! at_) as [previous|] eqn:Hat; [|naive_solver].
    destruct (merge previous op) as [m|] eqn:Hm; [|naive_solver].
    intros [[= <-]|[=]]. apply Forall_insert; [done|]. eapply Hmerge; [|exact Hop|exact Hm].
    by eapply Forall_lookup_1. }
  destruct op; cbn [fold_case]; try (intros [[=]|[= <-]]; by cbn); [|apply Hm].
  destruct (isPrimitive value); [apply Hm|]. by intros [[=]|[= <-]].
Qed.

Lemma fold_every ops : forall f f',
  Forall P ops -> Forall P (f_ops f) -> fold ops f = Some f' -> Forall P (f_ops f').
Proof.
  induction ops as [|op ops IH]; intros f f' Hops Hf; cbn; [by intros [= <-]|].
  apply Forall_cons in Hops as [Hop Hops].
  destruct (fold_case op f) as [f1|f1] eqn:E.
  - apply IH; [done|]. eapply fold_case_every; [exact Hop|exact Hf|by left].
  - destruct (_ <? _)%N; [done|]. apply IH; [done|]. cbn. apply Forall_app. split; [|by repeat constructor].
    eapply fold_case_every; [exact Hop|exact Hf|by right].
Qed.

Lemma push_every st ops : state_ok P st -> Forall P ops -> state_ok P (push st ops).
Proof.
  intros Hst Hops. unfold push. destruct ops as [|op ops]; [done|].
  destruct (starts_with_r _); [done|]. destruct st as [|waiting|f|]; [done| | |done].
  - rewrite <- fold_app. destruct (fold _ _) as [f|] eqn:E; [|done].
    apply (fold_every _ _ _ ) in E; [done| |constructor]. by apply Forall_app.
  - destruct (fold _ _) as [f'|] eqn:E; [|done]. by eapply fold_every.
Qed.
End Every.

Lemma push_ok st ops : state_ok op_ok st -> Forall op_ok ops -> state_ok op_ok (push st ops).
Proof. apply push_every, merge_ok. Qed.

Lemma pushes_ok batches : forall st,
  state_ok op_ok st -> Forall (Forall op_ok) batches -> state_ok op_ok (foldl push st batches).
Proof.
  induction batches as [|ops batches IH]; intros st Hst Hb; [done|]. cbn.
  apply Forall_cons in Hb as [Hops Hb]. apply IH; [|done]. by apply push_ok.
Qed.

(** Taking what waits is as good as having taken every batch. *)
Lemma take_applies batches root r ops :
  Forall (Forall op_ok) batches -> typed_run root (concat batches) ->
  applyOps root (tuples (concat batches)) = Ok r ->
  (take_pending (foldl push Empty batches)).2 = TakeOps ops ->
  applyOps root (tuples ops) = Ok r.
Proof.
  intros Hok Ht Happ Htake.
  assert (Hrun : run root (concat batches) = Some r).
  { apply applyOps_run; [|done..]. clear -Hok. induction Hok; [constructor|]. by apply Forall_app. }
  pose proof (pushes_represent batches Empty []) as Hrep.
  specialize (Hrep ltac:(by intros ?? [= ->]) root r Hrun).
  pose proof (pushes_ok batches Empty I Hok) as Hst.
  destruct (foldl push Empty batches) as [|ops'|f|]; cbn in Htake; simplify_eq; [done|..].
  - by apply run_applyOps.
  - destruct Hrep. by apply run_applyOps.
Qed.

(** ** Bounds *)

Lemma fold_case_length op f :
  match fold_case op f with
  | inl f' => length (f_ops f') = length (f_ops f)
  | inr f' => length (f_ops f') <= length (f_ops f)
  end.
Proof.
  assert (Hm : forall p, match mergeLeaf op p f with
    | inl f' => length (f_ops f') = length (f_ops f)
    | inr f' => length (f_ops f') <= length (f_ops f) end).
  { intros p. unfold mergeLeaf. destruct (_ !! pathKey p); [|done].
    destruct (_ !! _); [|done]. destruct (merge _ _); [|done]. apply length_insert. }
  destruct op; cbn [fold_case]; try done; [cbn; lia| |apply Hm].
  destruct (isPrimitive value); [apply Hm|done].
Qed.

(** Folding never lengthens the queue, and stops past the limit. *)
Lemma fold_length ops : forall f,
  match fold ops f with
  | Some f' => length (f_ops f') <= length (f_ops f) + length ops /\
      ((N.of_nat (length (f_ops f)) <= MAX_PENDING_OPS)%N ->
       (N.of_nat (length (f_ops f')) <= MAX_PENDING_OPS)%N)
  | None => (MAX_PENDING_OPS < N.of_nat (length (f_ops f) + length ops))%N
  end.
Proof.
  induction ops as [|op ops IH]; intros f; cbn [fold]; [cbn; lia|].
  pose proof (fold_case_length op f) as Hl. destruct (fold_case op f) as [f1|f1].
  - specialize (IH f1). destruct (fold ops f1); cbn [length]; rewrite Hl in IH; lia.
  - cbn [f_ops]. destruct (N.ltb_spec MAX_PENDING_OPS (N.of_nat (length (f_ops f1 ++ [op])))) as [Hlt|Hge].
    + rewrite length_app in Hlt. cbn [length] in *. lia.
    + specialize (IH {| f_ops := f_ops f1 ++ [op]; f_leaves := f_leaves f1 |}). cbn [f_ops] in *.
      destruct (fold ops _); rewrite length_app in *; cbn [length] in *; lia.
Qed.

Lemma push_length st ops :
  match push st ops with
  | Replace => st = Replace \/ (MAX_PENDING_OPS < N.of_nat (size st + length ops))%N
  | st' => size st' <= size st + length ops
  end.
Proof.
  unfold push. destruct ops as [|op ops]; [destruct st; cbn; auto; lia|].
  destruct (starts_with_r _); [cbn; lia|]. destruct st as [|waiting|f|]; [cbn; lia| | |by left].
  - rewrite <- fold_app. pose proof (fold_length (waiting ++ op :: ops) {| f_ops := []; f_leaves := ∅ |}) as H.
    destruct (fold _ _); rewrite length_app in H; cbn in *; [lia|right; lia].
  - pose proof (fold_length (op :: ops) f) as H.
    destruct (fold _ _); cbn in *; [lia|right; lia].
Qed.
