(* ===== verification/DeltaTheorems.v ===== *)
(** What holds of the deltas of chord/src/delta: a difference makes the next revision, the
    wire form decodes to what was encoded, and the operations that wait for a slow reader
    can be folded. Each theorem with hypotheses has a witness, an instance on concrete
    documents. *)
From S2P Require Import Prelude JsString Json DeltaOp DeltaApply DeltaMatch DeltaDiff DeltaDiffFacts.
From S2P Require Import DeltaCodec DeltaPending.

(** ** Sample documents *)

Definition n1 : json := JNum (num_of_N 1).
Definition n2 : json := JNum (num_of_N 2).
Definition n3 : json := JNum (num_of_N 3).

(** Two revisions that share the array with the identity 1. *)
Definition sample_before : json :=
  JObj (Some 0%N) [("text", JStr "hello"); ("list", JArr None [n1; n2]); ("kept", JArr (Some 1%N) [n3])].
Definition sample_after : json :=
  JObj (Some 2%N) [("text", JStr "hello world"); ("list", JArr None [n1; n3; n2]); ("kept", JArr (Some 1%N) [n3]);
                   ("new", JBool true)].
Definition sample_store (n : N) : json :=
  match n with 0%N => sample_before | 1%N => JArr (Some 1%N) [n3] | _ => sample_after end.

Lemma sample_ok : ok sample_store sample_before /\ ok sample_store sample_after.
Proof. by repeat split. Qed.

Definition path_text : path := [SStr "text"].
Definition path_list : path := [SStr "list"].

Definition sample_ops : list Op :=
  [OpA path_text " world"; OpP path_list 1 0 [n3]; OpS [SStr "new"] (JBool true); OpT path_text 6].

Lemma sample_ops_ok : Forall op_ok sample_ops.
Proof. repeat constructor; done. Qed.

(** ** Differences *)

(** C1. The batch [diffRevisions] makes of two revisions turns the first into a document
    equal to the second: [apply] accepts every operation of it. The revisions are strict
    JSON values of one store, where an identity they share has one content; the difference
    never runs out of the model's fuel. *)
Theorem diffRevisions_correct h before after :
  ok h before -> ok h after ->
  exists ops r, diffRevisions before after = Some ops /\
    apply (Some before) (tuples ops) = Ok (Some r) /\ doc_of r = doc_of after.
Proof. apply diffRevisions_applies. Qed.

Lemma diffRevisions_correct_witness :
  exists ops r, diffRevisions sample_before sample_after = Some ops /\
    apply (Some sample_before) (tuples ops) = Ok (Some r) /\ doc_of r = doc_of sample_after.
Proof. apply (diffRevisions_correct sample_store); apply sample_ok. Defined.

(** [equalJson] decides whether two strict JSON values of one store are the same
    document: its shortcut on one object, its numbers ([-0] is [0]) and its objects, whose
    keys come in any order. *)
Lemma equalJson_correct h a b :
  ok h a -> ok h b -> equalJson a b = true <-> doc_of a = doc_of b.
Proof.
  intros [Ha Hsa] [Hb Hsb]. split; [by apply (equalJson_sound h)|by apply equalJson_complete].
Qed.

Lemma equalJson_correct_witness :
  equalJson sample_before sample_after = true <-> doc_of sample_before = doc_of sample_after.
Proof. apply (equalJson_correct sample_store); apply sample_ok. Defined.

(** The matches [lcsMatches] finds pair equal elements, grow on both sides, and are a
    longest such list. It gives up only on more cells than it may fill. *)
Lemma lcsMatches_longest equal before after maxCells :
  ((N.of_nat (length before) * N.of_nat (length after) <= maxCells)%N ->
     is_Some (lcsMatches equal before after maxCells)) /\
  forall ms, lcsMatches equal before after maxCells = Some ms ->
    alignment equal before after 0 0 ms /\
    forall ms', alignment equal before after 0 0 ms' -> length ms' <= length ms.
Proof. split; [apply lcsMatches_total|intros ms; apply lcsMatches_spec]. Qed.

Lemma lcsMatches_longest_witness :
  let before := [n1; n2; n3] in let after := [n2; n1; n3] in
  exists ms, lcsMatches sameValue before after 100 = Some ms /\ length ms = 2 /\
    forall ms', alignment sameValue before after 0 0 ms' -> length ms' <= 2.
Proof.
  cbn zeta. destruct (lcsMatches_longest sameValue [n1; n2; n3] [n2; n1; n3] 100) as [_ Hl].
  destruct (lcsMatches sameValue [n1; n2; n3] [n2; n1; n3] 100) as [ms|] eqn:E; [|by vm_compute in E].
  assert (Hlen : length ms = 2) by (vm_compute in E; by injection E as <-).
  exists ms. split; [done|]. split; [done|]. rewrite <- Hlen. by apply Hl.
Defined.

(** The anchors found by identity are an alignment of the region, on both of the ways
    they are found: the chain of candidates and the greedy walk. *)
Lemma identityAnchors_align before after bs be as_ ae :
  bs <= be -> as_ <= ae -> matches_ok bs be as_ ae (identityAnchors before after bs be as_ ae).
Proof. apply identityAnchors_ok. Qed.

Lemma identityAnchors_align_witness :
  matches_ok 0 3 0 3 (identityAnchors [n1; n2; n3] [n3; n1; n2] 0 3 0 3).
Proof. apply identityAnchors_align; lia. Defined.

(** When [permutation] recognises a reordering, its indices are a permutation of the
    positions, and the operation [m] that carries it makes the array of the next revision. *)
Lemma permutation_correct h before after perm :
  Forall (ok h) before -> Forall (ok h) after -> permutation before after = Some perm ->
  is_permutation (N.of_nat <$> perm) /\ length perm = length before /\
  doc_of <$> ((fun j => default JNull (before !! j)) <$> perm) = doc_of <$> after.
Proof. apply permutation_doc. Qed.

Lemma permutation_correct_witness :
  permutation [n1; n2; n3] [n3; n1; n2] = Some [2; 0; 1] /\
  doc_of <$> ((fun j => default JNull ([n1; n2; n3] !! j)) <$> [2; 0; 1]) = doc_of <$> [n3; n1; n2].
Proof.
  split; [by vm_compute|]. apply (permutation_correct sample_store); [by repeat constructor..|by vm_compute].
Defined.

(** [overlap] returns a length that is a suffix of the old text and a prefix of the
    new one, whatever its bounds on the scan, so a string that lost its head and grew at
    its end is sent as [t] and [a]. *)
Lemma overlap_correct a b scan probe maxCandidates :
  let n := overlap a b scan probe maxCandidates in
  n <= String.length a /\ str_drop (String.length a - n) a = str_take n b.
Proof. apply overlap_suffix_prefix. Qed.

(** ** Operations *)


(** [assertValidWireOp] accepts exactly the tuples of well-formed wire operations,
    with their path, its identifier or neither. *)
Lemma assertValidWireOp_exact op :
  (forall v, assertValidWireOp v = Ok op -> wire_ok op) /\
  (wire_ok op <-> assertValidWireOp (wire_to_json op) = Ok op).
Proof.
  split; [intros v; apply assertValidWireOp_ok|]. split; [apply assertValidWireOp_complete|apply assertValidWireOp_ok].
Qed.

(** Inserting the items of a splice in chunks of 10000 is one splice. *)
Lemma splice_items_correct (index remove : nat) items l :
  splice_items (N.of_nat index) (N.of_nat remove) items l = splice_at index remove items l.
Proof. apply splice_items_spec. Qed.

(** An operation on an existing path changes that path and nothing else: the root
    after the batch is the root with the new value put there. *)
Lemma leaf_operations_local p :
  (forall v b, p <> [] -> safe_path p = true -> transforms p [OpS p v] b v) /\
  (forall s t, p <> [] -> safe_path p = true -> transforms p [OpA p t] (JStr s) (JStr (s +:+ t))) /\
  (forall s n, p <> [] -> safe_path p = true -> transforms p [OpT p (N.of_nat n)] (JStr s) (JStr (str_drop n s))) /\
  (forall id l i d items, safe_path p = true ->
     transforms p [OpP p (N.of_nat i) (N.of_nat d) items] (JArr id l) (JArr id (splice_at i d items l))).
Proof.
  split_and!; [intros *|intros *|intros *|intros *]; intros.
  - by apply transforms_s.
  - by apply transforms_a.
  - by apply transforms_t.
  - by apply transforms_p.
Qed.

(** ** The wire form *)

(** Path identifiers are looked up by the text of a path: two paths with one text are
    one path, so an identifier never stands for another path. *)
Lemma pathKey_injective_paths p q : pathKey p = pathKey q <-> p = q.
Proof. split; [apply pathKey_injective|by intros ->]. Qed.

(** C2. What an encoder sends, batch after batch, a linked decoder reads back as the same
    operations, also when the messages of several batches arrive as one; their
    dictionaries stay linked. An encoder and a decoder start linked. *)
Theorem encoder_decoder_round_trip bs e d e' ws :
  Forall (Forall op_ok) bs -> linked e d -> encode_batches e bs = (e', ws) ->
  (exists d', linked e' d' /\ decode d (wire_to_json <$> concat ws) = (d', Ok (concat bs))) /\
  forall d0, linked encoder_new d0.
Proof. intros. split; [by eapply encode_batches_concat|intros; apply linked_new]. Qed.

Lemma encoder_decoder_round_trip_witness :
  exists d', (decode ∅ (wire_to_json <$> concat (encode_batches encoder_new [sample_ops; sample_ops]).2)
              = (d', Ok (sample_ops ++ sample_ops))).
Proof.
  destruct (encode_batches encoder_new [sample_ops; sample_ops]) as [e' ws] eqn:E.
  destruct (encoder_decoder_round_trip [sample_ops; sample_ops] encoder_new ∅ e' ws) as [(d' & _ & Hd) _];
    [repeat constructor; done|apply linked_new|done|].
  exists d'. exact Hd.
Defined.

(** A message for each group of batches decodes to one batch for each group. *)
Lemma encode_groups_round_trip groups e d e' out :
  Forall (Forall (Forall op_ok)) groups -> linked e d -> encode_groups e groups = (e', out) ->
  exists d', linked e' d' /\
    decode_batches d (map (fmap wire_to_json) out) = (d', Ok (@concat Op <$> groups)).
Proof. apply encode_groups_decode. Qed.

Lemma encode_groups_round_trip_witness :
  exists d', decode_batches ∅ (map (fmap wire_to_json) (encode_groups encoder_new [[sample_ops]; [sample_ops]]).2)
             = (d', Ok [sample_ops; sample_ops]).
Proof.
  destruct (encode_groups encoder_new [[sample_ops]; [sample_ops]]) as [e' out] eqn:E.
  destruct (encode_groups_round_trip [[sample_ops]; [sample_ops]] encoder_new ∅ e' out) as (d' & _ & Hd);
    [repeat constructor; done|apply linked_new|done|].
  by exists d'.
Defined.

(** A base recovers a reader that missed messages: any decoder, whatever its
    dictionary, reads a batch that starts with [r], and is linked from then on. *)
Lemma base_recovers_decoder e d v ops e' out :
  Forall op_ok ops -> encode e (OpR v :: ops) = (e', out) ->
  exists d', linked e' d' /\ decode d (wire_to_json <$> out) = (d', Ok (OpR v :: ops)).
Proof. apply encode_decode_base. Qed.

Lemma base_recovers_decoder_witness :
  exists d', decode (<[0%N := [SStr "stale"]]> ∅) (wire_to_json <$> (encode encoder_new (OpR n1 :: sample_ops)).2)
             = (d', Ok (OpR n1 :: sample_ops)).
Proof.
  destruct (encode encoder_new (OpR n1 :: sample_ops)) as [e' out] eqn:E.
  destruct (base_recovers_decoder encoder_new (<[0%N := [SStr "stale"]]> ∅) n1 sample_ops e' out) as (d' & _ & Hd);
    [apply sample_ops_ok|done|].
  by exists d'.
Defined.

(** ** Pending operations *)

(** C3. The operations [take] hands over do what all the batches pushed since the last
    one do, in order: the appends and primitive sets folded into earlier ones change
    nothing about the result. The batches are well formed and apply; leaf operations reach
    their place through segments of the kinds of their containers. *)
Theorem pending_take_equivalent batches root r ops :
  Forall (Forall op_ok) batches -> typed_run root (concat batches) ->
  applyOps root (tuples (concat batches)) = Ok r ->
  (take_pending (foldl push Empty batches)).2 = TakeOps ops ->
  applyOps root (tuples ops) = Ok r.
Proof. apply take_applies. Qed.

Definition appends : list (list Op) :=
  [[OpA path_text " a"]; [OpP path_list 0 1 []]; [OpA path_text "b"]; [OpS [SStr "new"] JNull; OpA path_text "c"]].

Lemma pending_take_equivalent_witness :
  (take_pending (foldl push Empty appends)).2
  = TakeOps [OpA path_text " a"; OpP path_list 0 1 []; OpA path_text "bc"; OpS [SStr "new"] JNull] /\
  applyOps (Some sample_before)
    (tuples [OpA path_text " a"; OpP path_list 0 1 []; OpA path_text "bc"; OpS [SStr "new"] JNull])
  = applyOps (Some sample_before) (tuples (concat appends)).
Proof.
  split; [by vm_compute|].
  destruct (applyOps (Some sample_before) (tuples (concat appends))) as [r|e] eqn:E; [|by vm_compute in E].
  eapply (pending_take_equivalent appends (Some sample_before) r).
  - repeat constructor; done.
  - vm_compute. by repeat split.
  - exact E.
  - by vm_compute.
Defined.

(** Folding never queues more operations than were pushed; only beyond
    [MAX_PENDING_OPS] of them, or once replaced, is the queue given up for a replacement. *)
Lemma pending_bounded st ops :
  match push st ops with
  | Replace => st = Replace \/ (MAX_PENDING_OPS < N.of_nat (size st + length ops))%N
  | st' => size st' <= size st + length ops
  end.
Proof. apply push_length. Qed.
