(* ===== verification/StorageTypes.v ===== *)
(** The records of the durable storage boundary (durable/src/types.ts): conversations,
    entries, tasks, submissions and documents, and the writes of a commit. Identifiers are
    positive safe integers, here [N]; a sequence number is one too. JSON payloads are
    [json]; a record itself is an immutable value. *)
From S2P Require Import Prelude JsString Json DeltaOp.

(** ** Cloning

    [clone] of durable/src/storage/memory.ts: the same content in fresh containers. *)
Class Clone (A : Type) := clone : A -> A.

Fixpoint clone_json (v : json) : json :=
  match v with
  | JArr _ xs => jarr (map clone_json xs)
  | JObj _ fs => jobj (map (fun '(k, x) => (k, clone_json x)) fs)
  | _ => v
  end.

#[export] Instance Clone_json : Clone json := clone_json.
#[export] Instance Clone_option {A} `{Clone A} : Clone (option A) := fmap clone.
#[export] Instance Clone_list {A} `{Clone A} : Clone (list A) := fmap clone.

(** ** Conversations and entries *)

Record ParentLink : Type := { pl_conversationId : N; pl_at : N }.
Record OwnerLink : Type := { ol_conversationId : N; ol_taskId : N }.

Record ConversationRecord : Type := {
  c_id : N;
  c_parent : option ParentLink;
  c_owner : option OwnerLink;
}.

(** [ContextEdit]: [None] omits the target's messages, [Some] replaces them. *)
Record ContextEdit : Type := { ce_target : N; ce_messages : option (list json) }.

Record EntryRecord : Type := {
  e_id : N;
  e_conversationId : N;
  e_kind : string;
  e_model : option (list json);
  e_data : option json;
  e_head : option N;
  e_edits : option (list ContextEdit);
  e_byTaskId : option N;
}.

(** ** Submissions *)

Inductive SubmissionStatus : Type := queued | placed | done_ | unanswered.

#[export] Instance SubmissionStatus_eq_dec : EqDecision SubmissionStatus.
Proof. solve_decision. Defined.

(** The [type], the [status] and the fields that go with them. *)
Inductive SubmissionState : Type :=
| InputQueued
| InputPlaced (entry : N)
| InputDone (entry answer : N)
| InputUnanswered (entry : option N) (reason : string) (detail : option json)
| WriteQueued
| WriteDone (entry : N)
| WriteUnanswered (reason : string) (detail : option json)
| ContinuePlaced
| ContinueDone (answer : N)
| ContinueUnanswered (reason : string) (detail : option json).

Record SubmissionRecord : Type := {
  s_trace : option json;
  s_id : N;
  s_conversationId : N;
  s_requestId : option string;
  s_state : SubmissionState;
}.

Definition submission_status (st : SubmissionState) : SubmissionStatus :=
  match st with
  | InputQueued | WriteQueued => queued
  | InputPlaced _ | ContinuePlaced => placed
  | InputDone _ _ | WriteDone _ | ContinueDone _ => done_
  | InputUnanswered _ _ _ | WriteUnanswered _ _ | ContinueUnanswered _ _ => unanswered
  end.

Definition s_status (r : SubmissionRecord) : SubmissionStatus := submission_status (s_state r).

(** ** Tasks *)

Record TaskOutcomeError : Type := { oe_message : string; oe_detail : option json }.

Inductive TaskOutcome : Type :=
| OCompleted (result : json)
| OFailed (error : TaskOutcomeError) (result : option json)
| OAborted (reason : option string) (result : option json)
| OOrphaned (reason : string)
| OFaulted (error : TaskOutcomeError).

Inductive JoinPolicy : Type := failFast | allSettled.

Inductive TaskStatus : Type := pending | running | waiting | sleeping | completing | terminal.

#[export] Instance TaskStatus_eq_dec : EqDecision TaskStatus.
Proof. solve_decision. Defined.

Inductive TaskState : Type :=
| TPending (checkpoint : json)
| TRunning (checkpoint : json)
| TWaiting (checkpoint : json) (on : list N) (policy : JoinPolicy)
| TSleeping (checkpoint : json) (until : num)
| TCompleting (outcome : TaskOutcome)
| TTerminal (outcome : TaskOutcome).

Record TaskRecord : Type := {
  t_trace : option json;
  t_links : option (list json);
  t_id : N;
  t_conversationId : N;
  t_kind : string;
  t_version : N;
  t_input : json;
  t_owner : option N;
  t_background : bool;
  t_abortRequested : bool;
  t_abortReason : bool;
  t_abandonOnRestart : bool;
  t_startedAt : option num;
  t_endedAt : option num;
  t_restarts : option N;
  t_state : TaskState;
  t_memos : option (list (string * json));
}.

Definition task_status (st : TaskState) : TaskStatus :=
  match st with
  | TPending _ => pending
  | TRunning _ => running
  | TWaiting _ _ _ => waiting
  | TSleeping _ _ => sleeping
  | TCompleting _ => completing
  | TTerminal _ => terminal
  end.

Definition t_status (r : TaskRecord) : TaskStatus := task_status (t_state r).

(** ** Documents *)

Inductive ForkMode : Type := ForkAsOf | ForkCurrent | ForkInitial.

#[export] Instance ForkMode_eq_dec : EqDecision ForkMode.
Proof. solve_decision. Defined.

(** The scope of a document; [rewindable] is the [history] of a conversation document. *)
Inductive Scope : Type :=
| ScopeSession
| ScopeConversation (conversationId : N)
| ScopeTask (taskId : N).

#[export] Instance Scope_eq_dec : EqDecision Scope.
Proof. solve_decision. Defined.

Inductive History : Type := HLatest | HRewindable.

#[export] Instance History_eq_dec : EqDecision History.
Proof. solve_decision. Defined.

(** [history] and [fork] are present exactly in conversation scope, which the Session
    guarantees; the storage only compares them. *)
Record DocumentCreate : Type := {
  dc_id : N;
  dc_kind : string;
  dc_key : option string;
  dc_scope : Scope;
  dc_history : option History;
  dc_fork : option ForkMode;
}.

Record DocumentRecord : Type := {
  d_create : DocumentCreate;
  d_createdAt : N;
  d_retiredAt : option N;
}.

Inductive DocumentPoint : Type :=
| PCurrent
| PSeq (seq : N).

Record DocumentAddress : Type := {
  da_kind : string;
  da_scope : Scope;
  da_key : option string;
}.

Inductive Content : Type :=
| CBase (value : json)
| CDelta (ops : list Op).

Record DocumentContent : Type := { dcn_version : N; dcn_content : Content }.

Record DocumentCopySource : Type := { cs_id : N; cs_at : DocumentPoint }.

Record StoredDocument : Type := {
  sd_record : DocumentRecord;
  sd_version : N;
  sd_value : json;
  sd_deltasSinceBase : nat;
}.

(** ** Writes *)

Inductive StorageWrite : Type :=
| WConversation (value : ConversationRecord)
| WEntry (value : EntryRecord)
| WTask (value : TaskRecord)
| WSubmission (value : SubmissionRecord)
| WDocumentCreate (record : DocumentCreate) (version : N) (base : json)
| WDocumentCopy (record : DocumentCreate) (source : DocumentCopySource)
| WDocumentChange (id : N) (content : DocumentContent)
| WDocumentRetire (id : N).

(** ** Cloning records *)

#[export] Instance Clone_edit : Clone ContextEdit := fun r =>
  {| ce_target := ce_target r; ce_messages := clone (ce_messages r) |}.

#[export] Instance Clone_conversation : Clone ConversationRecord := fun r => r.

#[export] Instance Clone_entry : Clone EntryRecord := fun r =>
  {| e_id := e_id r; e_conversationId := e_conversationId r; e_kind := e_kind r;
     e_model := clone (e_model r); e_data := clone (e_data r); e_head := e_head r;
     e_edits := clone (e_edits r); e_byTaskId := e_byTaskId r |}.

#[export] Instance Clone_submission_state : Clone SubmissionState := fun st =>
  match st with
  | InputUnanswered e reason d => InputUnanswered e reason (clone d)
  | WriteUnanswered reason d => WriteUnanswered reason (clone d)
  | ContinueUnanswered reason d => ContinueUnanswered reason (clone d)
  | _ => st
  end.

#[export] Instance Clone_submission : Clone SubmissionRecord := fun r =>
  {| s_trace := clone (s_trace r); s_id := s_id r; s_conversationId := s_conversationId r;
     s_requestId := s_requestId r; s_state := clone (s_state r) |}.

#[export] Instance Clone_outcome_error : Clone TaskOutcomeError := fun e =>
  {| oe_message := oe_message e; oe_detail := clone (oe_detail e) |}.

#[export] Instance Clone_outcome : Clone TaskOutcome := fun o =>
  match o with
  | OCompleted v => OCompleted (clone v)
  | OFailed e v => OFailed (clone e) (clone v)
  | OAborted reason v => OAborted reason (clone v)
  | OOrphaned reason => OOrphaned reason
  | OFaulted e => OFaulted (clone e)
  end.

#[export] Instance Clone_task_state : Clone TaskState := fun st =>
  match st with
  | TPending c => TPending (clone c)
  | TRunning c => TRunning (clone c)
  | TWaiting c on policy => TWaiting (clone c) on policy
  | TSleeping c until => TSleeping (clone c) until
  | TCompleting o => TCompleting (clone o)
  | TTerminal o => TTerminal (clone o)
  end.

#[export] Instance Clone_fields : Clone (list (string * json)) := fmap (fun kv => (kv.1, clone kv.2)).

#[export] Instance Clone_task : Clone TaskRecord := fun r =>
  {| t_trace := clone (t_trace r); t_links := clone (t_links r); t_id := t_id r;
     t_conversationId := t_conversationId r; t_kind := t_kind r; t_version := t_version r;
     t_input := clone (t_input r); t_owner := t_owner r; t_background := t_background r;
     t_abortRequested := t_abortRequested r; t_abortReason := t_abortReason r;
     t_abandonOnRestart := t_abandonOnRestart r; t_startedAt := t_startedAt r;
     t_endedAt := t_endedAt r; t_restarts := t_restarts r; t_state := clone (t_state r);
     t_memos := clone (t_memos r) |}.

#[export] Instance Clone_document_record : Clone DocumentRecord := fun r => r.

#[export] Instance Clone_op : Clone Op := fun op =>
  match op with
  | OpR v => OpR (clone v)
  | OpS p v => OpS p (clone v)
  | OpP p i d items => OpP p i d (clone items)
  | _ => op
  end.

#[export] Instance Clone_content : Clone DocumentContent := fun c =>
  {| dcn_version := dcn_version c;
     dcn_content := match dcn_content c with
                    | CBase v => CBase (clone v) | CDelta ops => CDelta (clone ops) end |}.

#[export] Instance Clone_write : Clone StorageWrite := fun w =>
  match w with
  | WConversation v => WConversation (clone v)
  | WEntry v => WEntry (clone v)
  | WTask v => WTask (clone v)
  | WSubmission v => WSubmission (clone v)
  | WDocumentCreate record version base => WDocumentCreate record version (clone base)
  | WDocumentCopy record source => WDocumentCopy record source
  | WDocumentChange id content => WDocumentChange id (clone content)
  | WDocumentRetire id => WDocumentRetire id
  end.

(** ** Queries

    The [order] of a query and a cursor come from callers, so they are any string and any
    JSON object until [scanStart] has read them. *)
Inductive ScanOrder : Type := ascending | descending.

#[export] Instance ScanOrder_eq_dec : EqDecision ScanOrder.
Proof. solve_decision. Defined.

Definition order_text (o : ScanOrder) : string :=
  match o with ascending => "ascending" | descending => "descending" end.

Abbreviation Cursor := (list (string * json)).

Record ConversationQuery : Type := {
  cq_ownerConversationId : option N;
  cq_ownerTaskId : option N;
  cq_order : option string;
}.

Record EntryQuery : Type := {
  eq_conversationId : N;
  eq_minEntryId : option N;
  eq_maxEntryId : option N;
  eq_order : option string;
}.

Record TaskQuery : Type := {
  tq_conversationId : option N;
  tq_kind : option string;
  tq_status : option TaskStatus;
  tq_abortRequested : option bool;
  tq_background : option bool;
  tq_order : option string;
}.

Record SubmissionQuery : Type := {
  sq_conversationId : option N;
  sq_status : option SubmissionStatus;
  sq_order : option string;
}.

Record DocumentQuery : Type := {
  dq_scope : Scope;
  dq_at : DocumentPoint;
  dq_kind : option string;
}.

Record Page (T : Type) : Type := { page_items : list T; page_next : option Cursor }.
Arguments page_items {T}.
Arguments page_next {T}.

(** ** Lemmas on cloning *)

(** A clone has the content of the value, and none of its containers is shared. *)
Lemma clone_json_doc v : doc_of (clone_json v) = doc_of v.
Proof.
  induction v as [|b|n|s|i xs IH|i fs IH] using json_ind; try done.
  - cbn [clone_json]. apply doc_of_arr_eq. rewrite <- list_fmap_compose.
    induction IH as [|x xs Hx _ IH]; [done|]. cbn. by rewrite Hx, IH.
  - cbn [clone_json]. apply doc_of_obj_eq. intros k.
    induction IH as [|[k' x] fs Hx _ IH]; [done|]. cbn. cbn in Hx.
    destruct (String.eqb k k'); [|done]. cbn. by rewrite Hx.
Qed.

Lemma clone_json_idem v : clone_json (clone_json v) = clone_json v.
Proof.
  induction v as [|b|n|s|i xs IH|i fs IH] using json_ind; try done; cbn [clone_json]; f_equal.
  - induction IH as [|x xs Hx _ IH]; [done|]. cbn. by rewrite Hx, IH.
  - induction IH as [|[k' x] fs Hx _ IH]; [done|]. cbn. cbn in Hx. by rewrite Hx, IH.
Qed.
