(* ===== verification/SortedIds.v ===== *)
(** Sorted ID lists and scans over them: the search and update functions of
    durable/src/storage/memory.ts and the cursors of durable/src/storage/scan.ts. *)
From S2P Require Import Prelude JsString Json DeltaOp StorageTypes.
From Stdlib Require Import Sorted.

(** ** Errors of the storage *)

Inductive TableName : Type := TConversation | TEntry | TTask | TSubmission | TDocument.

#[export] Instance TableName_eq_dec : EqDecision TableName.
Proof. solve_decision. Defined.

Inductive storage_error : Type :=
| InvalidScanOrder (requested : string)
| InvalidCursor
| CursorOrder (order : ScanOrder) (requested : string)
| Closed
| SeqNotIncreasing (seq : Z)
| IdTaken (id : N) (existing : TableName)
| IdTwice (id : N)
| IdTwoTypes (id : N)
| TwoContents (id : N)
| RetiredTwice (id : N)
| UnknownDocument (id : N)
| DocumentExists (id : N)
| DocumentRetired (id : N)
| DeltaNoBase (id : N)
| VersionTransition (id : N)
| AddressOccupied
| CopyRejected (id : N) (cause : storage_error)
| SourceChanged (id : N)
| SourceUnreadable (id : N)
| SourceMismatch (id : N)
| NoHistory (id : N)
| MissingBase (id : N)
| VersionBoundary (id : N)
| DeltaFailed (e : delta_error)
| UnknownConversation (id : N)
| IdSpaceExhausted
| CopyNotResolved
| UndefinedValue.

Abbreviation sres := (res storage_error).

(** ** Bounds *)

(** A number an ID is compared with: an integer or an infinity. *)
Inductive bound : Type := NegInf | Fin (z : Z) | PosInf.

Definition id_lt (id : N) (b : bound) : bool :=
  match b with NegInf => false | Fin z => (Z.of_N id <? z)%Z | PosInf => true end.

Definition id_le (id : N) (b : bound) : bool :=
  match b with NegInf => false | Fin z => (Z.of_N id <=? z)%Z | PosInf => true end.

Definition fin (id : N) : bound := Fin (Z.of_N id).

(** [Math.min] with an ID. *)
Definition bound_min (b : bound) (id : N) : bound :=
  match b with NegInf => NegInf | Fin z => Fin (Z.min z (Z.of_N id)) | PosInf => fin id end.

Definition bound_lt (b c : bound) : bool :=
  match b, c with
  | NegInf, NegInf | PosInf, _ | Fin _, NegInf => false
  | NegInf, _ | Fin _, PosInf => true
  | Fin x, Fin y => (x <? y)%Z
  end.

(** ** Search *)

(** The loop of [lowerBound] and [upperBound]; [p] is the comparison with the target. Array
    lengths stay under 2^31, where [>>> 1] is the half. *)
Fixpoint bisect (fuel : nat) (p : N -> bool) (ids : list N) (low high : nat) : nat :=
  match fuel with
  | 0 => low
  | S fuel' =>
      if (low <? high)%nat then
        let middle := Nat.div2 (low + high) in
        if p (ids !!! middle) then bisect fuel' p ids (S middle) high
        else bisect fuel' p ids low middle
      else low
  end.

Definition lowerBound (ids : list N) (target : bound) : nat :=
  bisect (length ids) (fun id => id_lt id target) ids 0 (length ids).

Definition upperBound (ids : list N) (target : bound) : nat :=
  bisect (length ids) (fun id => id_le id target) ids 0 (length ids).

(** ** Update *)

Definition insertSorted (ids : list N) (id : N) : list N :=
  if (length ids =? 0)%nat || (default 0 (last ids) <? id)%N then ids ++ [id]
  else splice_at (lowerBound ids (fin id)) 0 [id] ids.

Definition removeSorted (ids : list N) (id : N) : list N :=
  let index := lowerBound ids (fin id) in
  if decide (ids !! index = Some id) then splice_at index 1 [] ids else ids.

Definition insertMapId {K} `{Countable K} (index : gmap K (list N)) (key : K) (id : N)
  : gmap K (list N) :=
  <[key := insertSorted (default [] (index !! key)) id]> index.

(** ** Cursors *)

Record ScanStart : Type := { ss_order : ScanOrder; ss_after : option Z }.

Definition MAX_SAFE_INTEGER : Z := 9007199254740991.

(** [Number.isSafeInteger(v)], with the integer. *)
Definition safe_integer (v : json) : option Z :=
  match v with
  | JNum n => z ← num_to_Z n; if (Z.abs z <=? MAX_SAFE_INTEGER)%Z then Some z else None
  | _ => None
  end.

Definition order_of_string (s : string) : option ScanOrder :=
  if String.eqb s "ascending" then Some ascending
  else if String.eqb s "descending" then Some descending else None.

Definition order_of_json (v : json) : option ScanOrder :=
  match v with JStr s => order_of_string s | _ => None end.

Definition scanStart (requested : option string) (cursor : option Cursor) (fallback : ScanOrder)
  : sres ScanStart :=
  wanted ← match requested with
           | None => Ok None
           | Some s => Some <$> res_of (InvalidScanOrder s) (order_of_string s)
           end;
  match cursor with
  | None => Ok {| ss_order := default fallback wanted; ss_after := None |}
  | Some c =>
      after ← res_of InvalidCursor (v ← obj_get "after" c; safe_integer v);
      stored ← match obj_get "order" c with
               | None => Ok None
               | Some v => Some <$> res_of InvalidCursor (order_of_json v)
               end;
      let order := default fallback stored in
      _ ← match wanted with
          | Some o => check (bool_decide (o = order)) (CursorOrder order (order_text o))
          | None => Ok tt
          end;
      Ok {| ss_order := order; ss_after := Some after |}
  end.

Definition nextCursor (id : N) (order : ScanOrder) : Cursor :=
  [("after", N_to_json id); ("order", JStr (order_text order))].

(** [cursorId]: the position of a cursor without an order. *)
Definition cursorId (cursor : option Cursor) : sres (option Z) :=
  match cursor ≫= obj_get "after" with
  | None => Ok None
  | Some v => Some <$> res_of InvalidCursor (safe_integer v)
  end.

(** The indexes of sorted IDs in scan order, after the cursor's ID when there is one. *)
Definition scanIndexes (ids : list N) (start : ScanStart) : list nat :=
  match ss_order start with
  | ascending =>
      let first := match ss_after start with None => 0 | Some after => upperBound ids (Fin after) end in
      seq first (length ids - first)
  | descending =>
      let end_ := match ss_after start with
                  | None => length ids | Some after => lowerBound ids (Fin after) end in
      rev (seq 0 end_)
  end.

(** The loop of a scan: the records that pass [keep], until there is one more than [limit]. *)
Fixpoint scan_loop {R} (get : N -> option R) (keep : R -> bool) (limit : nat) (ids : list N)
    (indexes : list nat) (values : list R) : sres (list R) :=
  match indexes with
  | [] => Ok values
  | index :: indexes' =>
      if (limit <? length values)%nat then Ok values
      else
        value ← res_of UndefinedValue (id ← ids !! index; get id);
        scan_loop get keep limit ids indexes' (if keep value then values ++ [value] else values)
  end.

(** [page]: the values up to the limit and the cursor of the rest. *)
Definition page {R} `{Clone R} (id_of : R -> N) (values : list R) (limit : nat) (order : ScanOrder)
  : sres (Page R) :=
  let items := take limit values in
  if (length values <=? limit)%nat then Ok {| page_items := clone items; page_next := None |}
  else
    l ← res_of UndefinedValue (last items);
    Ok {| page_items := clone items; page_next := Some (nextCursor (id_of l) order) |}.

(** ** Sorted lists as sets *)

(** The IDs with the property, in ascending order. *)
Definition indexes (ids : list N) (P : N -> Prop) : Prop :=
  StronglySorted N.lt ids /\ forall i, i ∈ ids <-> P i.

Lemma indexes_ext ids (P Q : N -> Prop) :
  indexes ids P -> (forall i, P i <-> Q i) -> indexes ids Q.
Proof. intros [Hs Hin] H. split; [done|]. intros i. by rewrite Hin, H. Qed.

Lemma indexes_nil (P : N -> Prop) : (forall i, ~ P i) -> indexes [] P.
Proof. intros H. split; [constructor|]. intros i. rewrite elem_of_nil. naive_solver. Qed.

Lemma StronglySorted_lookup ids i j x y :
  StronglySorted N.lt ids -> ids !! i = Some x -> ids !! j = Some y -> i < j -> (x < y)%N.
Proof.
  intros H. revert i j; induction H as [|a l Hl IH Ha]; intros i j Hi Hj Hij; [done|].
  destruct i as [|i], j as [|j]; cbn in *; try lia.
  - injection Hi as ->. rewrite Forall_forall in Ha. apply Ha. by apply list_elem_of_lookup_2 in Hj.
  - eapply IH; [done..|lia].
Qed.

Lemma StronglySorted_app_lt (l1 l2 : list N) :
  StronglySorted N.lt (l1 ++ l2) <->
  StronglySorted N.lt l1 /\ StronglySorted N.lt l2 /\ forall x y, x ∈ l1 -> y ∈ l2 -> (x < y)%N.
Proof.
  induction l1 as [|a l1 IH]; cbn.
  - split; [intros H; split; [constructor|split; [done|]]; by intros x y ?%elem_of_nil|by intros (_ & ? & _)].
  - split.
    + intros H. apply StronglySorted_inv in H as [H Ha]. apply IH in H as (H1 & H2 & H12).
      apply Forall_app in Ha as [Ha1 Ha2]. split; [by constructor|]. split; [done|].
      intros x y [->|Hx]%elem_of_cons Hy; [|by apply H12]. rewrite Forall_forall in Ha2. by apply Ha2.
    + intros (H1 & H2 & H12). apply StronglySorted_inv in H1 as [H1 Ha]. constructor.
      * apply IH. split; [done|]. split; [done|]. intros x y Hx. apply H12. by right.
      * apply Forall_app. split; [done|]. apply Forall_forall. intros y Hy. apply H12; [left|done].
Qed.

Lemma StronglySorted_NoDup ids : StronglySorted N.lt ids -> NoDup ids.
Proof.
  induction 1 as [|a l Hl IH Ha]; constructor; [|done].
  intros Hin. rewrite Forall_forall in Ha. specialize (Ha a Hin). lia.
Qed.

Lemma indexes_unique ids ids' P : indexes ids P -> indexes ids' P -> ids = ids'.
Proof.
  intros [S1 M1] [S2 M2].
  assert (Hp : ids ≡ₚ ids').
  { apply NoDup_Permutation; [by apply StronglySorted_NoDup..|]. intros x. by rewrite M1, M2. }
  clear M1 M2. revert ids' S2 Hp; induction S1 as [|a l Hl IH Ha]; intros ids' S2 Hp.
  - by apply Permutation_nil in Hp.
  - destruct S2 as [|b l' Hl' Hb]; [by apply Permutation_sym, Permutation_nil in Hp|].
    assert (a = b) as <-.
    { assert (a ∈ b :: l') as [->|Ha']%elem_of_cons by (rewrite <- Hp; left); [done|].
      assert (b ∈ a :: l) as [->|Hb']%elem_of_cons by (rewrite Hp; left); [done|].
      rewrite Forall_forall in Ha, Hb. specialize (Ha b Hb'). specialize (Hb a Ha'). lia. }
    f_equal. apply IH; [done|]. by apply Permutation_cons_inv in Hp.
Qed.

(** ** The searches *)

Lemma bisect_split p l1 l2 fuel : forall low high,
  Forall (fun x => p x = true) l1 -> Forall (fun x => p x = false) l2 ->
  low <= length l1 -> length l1 <= high -> high <= length (l1 ++ l2) -> high - low <= fuel ->
  bisect fuel p (l1 ++ l2) low high = length l1.
Proof.
  induction fuel as [|fuel IH]; intros low high H1 H2 Hl Hh Hle Hf; cbn [bisect]; [lia|].
  destruct (Nat.ltb_spec low high) as [Hlt|]; [|lia].
  set (middle := Nat.div2 (low + high)).
  assert (Hm : low <= middle < high) by (unfold middle; rewrite Nat.div2_div; split;
    [apply Nat.div_le_lower_bound; lia|apply Nat.Div0.div_lt_upper_bound; lia]).
  destruct (decide (middle < length l1)) as [Hml|Hml].
  - assert (p ((l1 ++ l2) !!! middle) = true) as ->.
    { rewrite lookup_total_app_l by done. rewrite Forall_forall in H1. apply H1.
      by apply list_elem_of_lookup_total_2. }
    apply IH; try done; lia.
  - assert (p ((l1 ++ l2) !!! middle) = false) as ->.
    { rewrite lookup_total_app_r by lia. rewrite Forall_forall in H2. apply H2.
      apply list_elem_of_lookup_total_2. rewrite length_app in Hle. lia. }
    apply IH; try done; lia.
Qed.

(** A sorted list splits where a downward closed test stops holding. *)
Lemma sorted_split (p : N -> bool) ids :
  StronglySorted N.lt ids -> (forall x y, (x < y)%N -> p y = true -> p x = true) ->
  ids = filter (fun x => p x = true) ids ++ filter (fun x => p x = false) ids.
Proof.
  intros Hs Hp. induction Hs as [|a l Hl IH Ha]; [done|].
  destruct (p a) eqn:Hpa.
  - rewrite filter_cons_True, filter_cons_False by (done || by rewrite Hpa). cbn. by rewrite <- IH.
  - rewrite filter_cons_False, filter_cons_True by (done || by rewrite Hpa).
    assert (filter (fun x => p x = true) l = []) as ->.
    { clear IH Hl. induction Ha as [|b l Hb Ha IH]; [done|]. rewrite filter_cons_False; [done|].
      intros Hpb. by rewrite (Hp a b Hb Hpb) in Hpa. }
    cbn. f_equal. clear IH Hl. induction Ha as [|b l Hb Ha IH]; [done|].
    rewrite filter_cons_True, <- IH; [done|]. destruct (p b) eqn:Hpb; [|done].
    by rewrite (Hp a b Hb Hpb) in Hpa.
Qed.

Lemma bisect_spec p ids :
  StronglySorted N.lt ids -> (forall x y, (x < y)%N -> p y = true -> p x = true) ->
  let k := bisect (length ids) p ids 0 (length ids) in
  k <= length ids /\ take k ids = filter (fun x => p x = true) ids /\
  drop k ids = filter (fun x => p x = false) ids.
Proof.
  intros Hs Hp. cbn. pose proof (sorted_split p ids Hs Hp) as E.
  set (l1 := filter _ ids) in *. set (l2 := filter _ ids) in *.
  assert (bisect (length ids) p ids 0 (length ids) = length l1) as ->.
  { rewrite E. apply bisect_split; rewrite ?length_app; try lia.
    - apply Forall_forall. intros x Hx. by apply list_elem_of_filter in Hx as [? _].
    - apply Forall_forall. intros x Hx. by apply list_elem_of_filter in Hx as [? _]. }
  split; [rewrite E, length_app; lia|].
  rewrite E at 1 2. by rewrite take_app_length, drop_app_length.
Qed.

Lemma lowerBound_ids_spec ids b :
  StronglySorted N.lt ids ->
  take (lowerBound ids b) ids = filter (fun id => id_lt id b = true) ids /\
  drop (lowerBound ids b) ids = filter (fun id => id_lt id b = false) ids.
Proof.
  intros Hs. destruct (bisect_spec (fun id => id_lt id b) ids Hs) as (_ & H1 & H2); [|done].
  intros x y Hxy. destruct b; cbn; try done. rewrite !Z.ltb_lt. lia.
Qed.

Lemma upperBound_ids_spec ids b :
  StronglySorted N.lt ids ->
  take (upperBound ids b) ids = filter (fun id => id_le id b = true) ids /\
  drop (upperBound ids b) ids = filter (fun id => id_le id b = false) ids.
Proof.
  intros Hs. destruct (bisect_spec (fun id => id_le id b) ids Hs) as (_ & H1 & H2); [|done].
  intros x y Hxy. destruct b; cbn; try done. rewrite !Z.leb_le. lia.
Qed.

(** ** The updates *)

Lemma last_max ids x : StronglySorted N.lt ids -> x ∈ ids -> (x <= default 0 (last ids))%N.
Proof.
  intros Hs Hx. destruct ids as [|y l _] using rev_ind; [by apply elem_of_nil in Hx|].
  rewrite last_snoc. cbn. apply StronglySorted_app_lt in Hs as (_ & _ & H).
  apply elem_of_app in Hx as [Hx|Hx%list_elem_of_singleton]; [|lia].
  specialize (H x y Hx ltac:(left)). lia.
Qed.

Lemma insertSorted_indexes ids P id :
  indexes ids P -> ~ P id -> indexes (insertSorted ids id) (fun i => i = id \/ P i).
Proof.
  intros [Hs Hin] Hid. unfold insertSorted. destruct (_ || _) eqn:Hlast.
  - split.
    + apply StronglySorted_app_lt. split; [done|]. split; [repeat constructor|].
      intros x y Hx ->%list_elem_of_singleton. apply orb_true_iff in Hlast as [Hl|Hl].
      * apply Nat.eqb_eq, nil_length_inv in Hl. subst. by apply elem_of_nil in Hx.
      * apply N.ltb_lt in Hl. pose proof (last_max ids x Hs Hx). lia.
    + intros i. rewrite elem_of_app, list_elem_of_singleton, Hin. tauto.
  - destruct (lowerBound_ids_spec ids (fin id) Hs) as [H1 H2]. unfold splice_at. rewrite Nat.add_0_r, H1, H2.
    split.
    + rewrite (sorted_split (fun x => id_lt x (fin id)) ids Hs) in Hs.
      2: { intros x y Hxy. cbn. rewrite !Z.ltb_lt. lia. }
      apply StronglySorted_app_lt in Hs as (S1 & S2 & S12).
      apply StronglySorted_app_lt. split; [done|]. split.
      * apply StronglySorted_app_lt. split; [repeat constructor|]. split; [done|].
        intros x y ->%list_elem_of_singleton [Hy Hyi]%list_elem_of_filter. cbn in Hy.
        apply Z.ltb_ge in Hy. apply Hin in Hyi. assert (y <> id) by (by intros ->). lia.
      * intros x y [Hx _]%list_elem_of_filter Hy. cbn in Hx. apply Z.ltb_lt in Hx.
        apply elem_of_cons in Hy as [->|[Hy _]%list_elem_of_filter]; [lia|].
        cbn in Hy. apply Z.ltb_ge in Hy. lia.
    + intros i. rewrite !elem_of_app, list_elem_of_singleton, !list_elem_of_filter, Hin.
      destruct (id_lt i (fin id)); naive_solver.
Qed.

Lemma removeSorted_indexes ids P id :
  indexes ids P -> indexes (removeSorted ids id) (fun i => i <> id /\ P i).
Proof.
  intros [Hs Hin]. unfold removeSorted.
  destruct (lowerBound_ids_spec ids (fin id) Hs) as [H1 H2]. set (k := lowerBound ids (fin id)) in *.
  case_decide as Hk.
  - unfold splice_at. cbn.
    assert (E : ids = take k ids ++ id :: drop (S k) ids) by (by rewrite take_drop_middle).
    rewrite Nat.add_1_r. rewrite E in Hs. apply StronglySorted_app_lt in Hs as (S1 & S2 & S12).
    pose proof S2 as S2'. apply StronglySorted_inv in S2 as [S2 Hgt]. rewrite Forall_forall in Hgt.
    split.
    + apply StronglySorted_app_lt. split; [done|]. split; [done|]. intros x y Hx Hy.
      apply S12; [done|by right].
    + intros i. rewrite <- Hin.
      assert (Hids : i ∈ ids <-> i ∈ take k ids \/ i = id \/ i ∈ drop (S k) ids)
        by (rewrite E at 1; by rewrite elem_of_app, elem_of_cons).
      rewrite Hids, elem_of_app. cbn [app]. split.
      * intros [Hi|Hi]; (split; [|tauto]); intros ->.
        -- specialize (S12 id id Hi ltac:(left)). lia.
        -- specialize (Hgt id Hi). lia.
      * intros [Hne [?|[?|?]]]; tauto.
  - split; [done|]. intros i. rewrite Hin. split; [|tauto]. intros Hi. split; [|done].
    intros ->. apply Hin in Hi. apply Hk.
    assert (Hd : id ∈ drop k ids).
    { rewrite H2. apply list_elem_of_filter. split; [|done]. cbn. apply Z.ltb_irrefl. }
    apply list_elem_of_lookup in Hd as [j Hj]. rewrite lookup_drop in Hj.
    destruct j as [|j]; [by rewrite Nat.add_0_r in Hj|].
    assert (Hl : k < length ids) by (apply lookup_lt_Some in Hj; lia).
    apply lookup_lt_is_Some_2 in Hl as [x Hx].
    assert (x < id)%N by (eapply StronglySorted_lookup; [done..|lia]).
    assert (x ∈ drop k ids) as Hxd.
    { apply list_elem_of_lookup. exists 0. by rewrite lookup_drop, Nat.add_0_r. }
    rewrite H2 in Hxd. apply list_elem_of_filter in Hxd as [Hxd _]. cbn in Hxd.
    apply Z.ltb_ge in Hxd. lia.
Qed.

(** A map of sorted lists: under each key the IDs with the property of the key. *)
Definition map_indexes {K} `{Countable K} (m : gmap K (list N)) (P : K -> N -> Prop) : Prop :=
  forall k, indexes (default [] (m !! k)) (P k).

Lemma map_indexes_ext {K} `{Countable K} (m : gmap K (list N)) (P Q : K -> N -> Prop) :
  map_indexes m P -> (forall k i, P k i <-> Q k i) -> map_indexes m Q.
Proof. intros Hm HPQ k. eapply indexes_ext; [apply Hm|done]. Qed.

Lemma insertMapId_indexes {K} `{Countable K} (m : gmap K (list N)) P key id :
  map_indexes m P -> ~ P key id ->
  map_indexes (insertMapId m key id) (fun k i => (k = key /\ i = id) \/ P k i).
Proof.
  intros Hm Hid k. unfold insertMapId. destruct (decide (key = k)) as [->|Hne].
  - rewrite lookup_insert_eq. cbn. eapply indexes_ext; [by apply insertSorted_indexes, Hid; apply Hm|].
    naive_solver.
  - rewrite lookup_insert_ne by done. eapply indexes_ext; [apply Hm|]. naive_solver.
Qed.

(** ** Scans *)

Lemma filter_id {A} (P : A -> Prop) `{Hdec : forall x, Decision (P x)} (l : list A) :
  (forall x, x ∈ l -> P x) -> filter P l = l.
Proof.
  induction l as [|a l IH]; intros Hl; [done|]. rewrite filter_cons_True by (apply Hl; left).
  f_equal. apply IH. intros x Hx. apply Hl. by right.
Qed.

Lemma filter_none {A} (P : A -> Prop) `{Hdec : forall x, Decision (P x)} (l : list A) :
  (forall x, x ∈ l -> ~ P x) -> filter P l = [].
Proof.
  induction l as [|a l IH]; intros Hl; [done|]. rewrite filter_cons_False by (apply Hl; left).
  apply IH. intros x Hx. apply Hl. by right.
Qed.

(** The IDs a scan visits. *)
Definition scan_ids (ids : list N) (start : ScanStart) : list N :=
  omap (fun i => ids !! i) (scanIndexes ids start).

Lemma omap_lookup_seq {A} (l : list A) i n :
  i + n <= length l -> omap (fun i => l !! i) (seq i n) = take n (drop i l).
Proof.
  revert i; induction n as [|n IH]; intros i Hi; [done|]. cbn [seq omap list_omap].
  destruct (lookup_lt_is_Some_2 l i ltac:(lia)) as [x Hx]. rewrite Hx, IH by lia.
  by rewrite (drop_S l x i Hx).
Qed.

Lemma omap_rev {A B} (f : A -> option B) l : omap f (rev l) = rev (omap f l).
Proof.
  induction l as [|a l IH]; [done|]. cbn. rewrite omap_app, IH. cbn.
  destruct (f a); cbn; [done|by rewrite app_nil_r].
Qed.

Lemma bisect_le p ids fuel : forall low high, low <= high -> bisect fuel p ids low high <= high.
Proof.
  induction fuel as [|fuel IH]; intros low high H; cbn [bisect]; [done|].
  destruct (Nat.ltb_spec low high); [|done].
  assert (Nat.div2 (low + high) < high) by (rewrite Nat.div2_div; apply Nat.Div0.div_lt_upper_bound; lia).
  destruct (p _); [apply IH; lia|]. etransitivity; [apply IH|]; [|lia].
  rewrite Nat.div2_div. apply Nat.div_le_lower_bound; lia.
Qed.

Lemma scan_ids_all ids order :
  scan_ids ids {| ss_order := order; ss_after := None |}
  = match order with ascending => ids | descending => rev ids end.
Proof.
  unfold scan_ids, scanIndexes. destruct order; cbn [ss_order ss_after].
  - rewrite omap_lookup_seq by lia. by rewrite Nat.sub_0_r, drop_0, firstn_all.
  - rewrite omap_rev, omap_lookup_seq by lia. by rewrite drop_0, firstn_all.
Qed.

Lemma scan_ids_after ids order after :
  StronglySorted N.lt ids ->
  scan_ids ids {| ss_order := order; ss_after := Some after |}
  = match order with
    | ascending => filter (fun id => id_le id (Fin after) = false) ids
    | descending => rev (filter (fun id => id_lt id (Fin after) = true) ids)
    end.
Proof.
  intros Hs. unfold scan_ids, scanIndexes. destruct order; cbn [ss_order ss_after].
  - destruct (upperBound_ids_spec ids (Fin after) Hs) as [_ H2]. rewrite <- H2.
    pose proof (bisect_le (fun id => id_le id (Fin after)) ids (length ids) 0 (length ids) ltac:(lia)) as Hle.
    fold (upperBound ids (Fin after)) in Hle. rewrite omap_lookup_seq by lia.
    rewrite firstn_all2; [done|]. rewrite length_drop. lia.
  - destruct (lowerBound_ids_spec ids (Fin after) Hs) as [H1 _]. rewrite <- H1.
    pose proof (bisect_le (fun id => id_lt id (Fin after)) ids (length ids) 0 (length ids) ltac:(lia)) as Hle.
    fold (lowerBound ids (Fin after)) in Hle. by rewrite omap_rev, omap_lookup_seq, drop_0 by lia.
Qed.

(** After the ID at which a scan stopped, a scan from there visits the rest. *)
Lemma scan_ids_resume ids order A x B :
  StronglySorted N.lt ids ->
  scan_ids ids {| ss_order := order; ss_after := None |} = A ++ x :: B ->
  scan_ids ids {| ss_order := order; ss_after := Some (Z.of_N x) |} = B.
Proof.
  intros Hs. rewrite scan_ids_all, scan_ids_after by done.
  assert (Hsplit : forall l1 l2, StronglySorted N.lt (l1 ++ x :: l2) ->
    filter (fun id => id_le id (Fin (Z.of_N x)) = false) (l1 ++ x :: l2) = l2 /\
    filter (fun id => id_lt id (Fin (Z.of_N x)) = true) (l1 ++ x :: l2) = l1).
  { intros l1 l2 H. apply StronglySorted_app_lt in H as (_ & H2 & H12).
    apply StronglySorted_inv in H2 as [_ Hgt]. rewrite Forall_forall in Hgt.
    assert (Hlt : forall y, y ∈ l1 -> (y < x)%N) by (intros y Hy; apply H12; [done|left]).
    rewrite !filter_app. split.
    - rewrite (filter_cons_False _ x) by (cbn; by rewrite Z.leb_refl).
      rewrite (filter_none _ l1), (filter_id _ l2); [done|..].
      + intros y Hy. cbn. apply Z.leb_gt. specialize (Hgt y Hy). lia.
      + intros y Hy. cbn. specialize (Hlt y Hy). rewrite (proj2 (Z.leb_le _ _)); [done|lia].
    - rewrite (filter_cons_False _ x) by (cbn; by rewrite Z.ltb_irrefl).
      rewrite (filter_none _ l2), (filter_id _ l1), app_nil_r; [done|..].
      + intros y Hy. cbn. apply Z.ltb_lt. specialize (Hlt y Hy). lia.
      + intros y Hy. cbn. specialize (Hgt y Hy). rewrite (proj2 (Z.ltb_ge _ _)); [done|lia]. }
  destruct order; intros E.
  - rewrite E in Hs |- *. by apply Hsplit.
  - assert (E' : ids = rev B ++ x :: rev A).
    { rewrite <- (rev_involutive ids), E, rev_app_distr. cbn. by rewrite <- app_assoc. }
    rewrite E' in Hs |- *. destruct (Hsplit _ _ Hs) as [_ ->]. apply rev_involutive.
Qed.

(** The loop returns the matches, up to one more than the limit. *)
Lemma scan_loop_spec {R} (get : N -> option R) keep limit ids idxs : forall values,
  Forall (fun i => is_Some (id ← ids !! i; get id)) idxs -> length values <= S limit ->
  scan_loop get keep limit ids idxs values
  = Ok (take (S limit) (values ++ filter (fun r => keep r = true)
                                    (omap (fun i => id ← ids !! i; get id) idxs))).
Proof.
  induction idxs as [|i idxs IH]; intros values Hall Hlen.
  { cbn [scan_loop omap list_omap]. by rewrite filter_nil, app_nil_r, firstn_all2. }
  apply Forall_cons in Hall as [[r Hr] Hall]. cbn [scan_loop].
  destruct (Nat.ltb_spec limit (length values)).
  { rewrite take_app_le, firstn_all2 by lia. done. }
  rewrite Hr. cbn [res_of mbind res_bind omap list_omap]. rewrite Hr.
  destruct (keep r) eqn:Hk.
  - rewrite IH; [|done|rewrite length_app; cbn; lia].
    rewrite filter_cons_True, <- app_assoc by done. done.
  - rewrite IH by (done || lia). by rewrite filter_cons_False by (by rewrite Hk).
Qed.

(** ** Paged scans

    The interface of a scan to its callers: it returns the matches [L] page by page. *)
Section Paged.
Context {R : Type} `{Clone R} (id_of : R -> N).

Definition page_of (limit : nat) (order : ScanOrder) (L : list R) : Page R :=
  {| page_items := clone (take limit L);
     page_next := if (length L <=? limit)%nat then None
                  else r ← last (take limit L); Some (nextCursor (id_of r) order) |}.

Class PagedScan (scan : option Cursor -> sres (Page R)) (limit : nat) (order : ScanOrder)
    (L : list R) : Prop := {
  paged_first : scan None = Ok (page_of limit order L);
  paged_next : forall A r B, L = A ++ r :: B ->
    scan (Some (nextCursor (id_of r) order)) = Ok (page_of limit order B);
}.

Lemma page_spec limit order (L : list R) :
  0 < limit -> page id_of (take (S limit) L) limit order = Ok (page_of limit order L).
Proof.
  intros Hlim. unfold page, page_of. rewrite take_take, Nat.min_l by lia.
  rewrite length_take.
  destruct (Nat.leb_spec (length L) limit).
  { by rewrite (proj2 (Nat.leb_le (Nat.min (S limit) (length L)) limit)) by lia. }
  rewrite (proj2 (Nat.leb_gt (Nat.min (S limit) (length L)) limit)) by lia.
  destruct (last (take limit L)) as [r|] eqn:Hr; [done|].
  apply last_None in Hr. assert (length (take limit L) = 0) as Hz by (by rewrite Hr).
  rewrite length_take in Hz. lia.
Qed.

(** [scanAll] of durable/src/harness/util.ts; the fuel bounds the pages. *)
Fixpoint scanAll (fuel : nat) (scan : option Cursor -> sres (Page R)) (cursor : option Cursor)
    (items : list R) : option (sres (list R)) :=
  match fuel with
  | 0 => None
  | S fuel' =>
      match scan cursor with
      | Throw e => Some (Throw e)
      | Ok p =>
          match page_next p with
          | None => Some (Ok (items ++ page_items p))
          | Some c => scanAll fuel' scan (Some c) (items ++ page_items p)
          end
      end
  end.

(** Collecting the pages gives every match once, in order. *)
Lemma scanAll_spec scan limit order L fuel :
  PagedScan scan limit order L -> 0 < limit -> length L < fuel ->
  scanAll fuel scan None [] = Some (Ok (clone L)).
Proof.
  intros [Hfirst Hnext] Hlim Hfuel.
  assert (Hgen : forall fuel B A cursor items, length B < fuel -> L = A ++ B ->
    scan cursor = Ok (page_of limit order B) ->
    scanAll fuel scan cursor items = Some (Ok (items ++ clone B))).
  { clear fuel Hfuel. induction fuel as [|fuel IH]; intros B A cursor items Hf HL Hs; [lia|].
    cbn [scanAll]. rewrite Hs. cbn [page_of page_next page_items].
    destruct (Nat.leb_spec (length B) limit) as [Hle|Hgt]; [by rewrite firstn_all2|].
    destruct (last (take limit B)) as [r|] eqn:Hr.
    2: { apply last_None in Hr. assert (length (take limit B) = 0) as Hz by (by rewrite Hr).
         rewrite length_take in Hz. lia. }
    cbn [mbind option_bind]. apply last_Some in Hr as [A' Hr].
    assert (HB : B = (A' ++ [r]) ++ drop limit B) by (rewrite <- Hr; by rewrite take_drop).
    rewrite (IH (drop limit B) (A ++ A' ++ [r])).
    - do 2 f_equal. rewrite <- app_assoc. f_equal. unfold clone, Clone_list.
      by rewrite <- fmap_app, take_drop.
    - rewrite length_drop. lia.
    - rewrite HL. rewrite HB at 1. by rewrite <- !app_assoc.
    - apply (Hnext (A ++ A')). rewrite HL. rewrite HB at 1. by rewrite <- !app_assoc. }
  by apply (Hgen _ _ [] None []).
Qed.
End Paged.

(** A cursor written by a page is read back. *)
Lemma scanStart_next requested fallback id order :
  requested = None \/ requested = Some (order_text order) -> (Z.of_N id <= MAX_SAFE_INTEGER)%Z ->
  scanStart requested (Some (nextCursor id order)) fallback
  = Ok {| ss_order := order; ss_after := Some (Z.of_N id) |}.
Proof.
  intros Hr Hid.
  assert (Ha : (v ← obj_get "after" (nextCursor id order); safe_integer v) = Some (Z.of_N id)).
  { cbn. pose proof (num_to_N_of_N id) as Hn. unfold num_to_N in Hn.
    destruct (num_to_Z (num_of_N id)) as [z|]; [|done]. destruct (Z.leb_spec 0 z); [|done].
    injection Hn as Hn. cbn. rewrite (proj2 (Z.leb_le _ _)) by lia. f_equal. lia. }
  unfold scanStart. rewrite Ha. by destruct Hr as [-> | ->], order.
Qed.
