(* ===== verification/MemoryCommit.v ===== *)
(** The state of [MemoryStorage] (durable/src/storage/memory.ts) and its commits:
    [prepareCommit] checks a batch of writes against the state, [applyPreparedCommit]
    performs it. The tables of the source's [State] are grouped by the record they hold. *)
From S2P Require Import Prelude JsString Json DeltaOp DeltaApply DeltaCodec StorageTypes SortedIds.

(** ** Document keys *)

(** [JSON.stringify] of a list of texts that are JSON already. *)
Fixpoint json_items (l : list string) : string :=
  match l with
  | [] => "]"
  | [t] => t +:+ "]"
  | t :: l' => t +:+ "," +:+ json_items l'
  end.

Definition json_array (l : list string) : string := "[" +:+ json_items l.

Definition scopeKey (scope : Scope) : string :=
  match scope with
  | ScopeSession => json_array [json_quote "session"]
  | ScopeConversation id => json_array [json_quote "conversation"; int_to_string id]
  | ScopeTask id => json_array [json_quote "task"; int_to_string id]
  end.

Definition addressKey (address : DocumentAddress) : string :=
  json_array
    [json_quote (da_kind address);
     json_quote (scopeKey (da_scope address));
     match da_key address with
     | None => json_array [json_quote "singleton"]
     | Some key => json_array [json_quote "family"; json_quote key]
     end].

Definition create_address (record : DocumentCreate) : DocumentAddress :=
  {| da_kind := dc_kind record; da_scope := dc_scope record; da_key := dc_key record |}.

Definition recordAddressKey (record : DocumentCreate) : string := addressKey (create_address record).

#[global] Arguments scopeKey : simpl never.
#[global] Arguments addressKey : simpl never.
#[global] Arguments recordAddressKey : simpl never.

(** ** The state *)

Record DocumentRevision : Type := { rv_version : N; rv_content : Content; rv_seq : N }.

Record StoredDocumentState : Type := {
  st_record : DocumentRecord;
  st_revisions : list DocumentRevision;
}.

Record DocumentAddressIndex : Type := { ai_ids : list N; ai_currentId : option N }.

Record ConversationTables : Type := {
  conversations : gmap N ConversationRecord;
  conversationIds : list N;
  conversationIdsByOwnerConversation : gmap N (list N);
  conversationIdsByOwnerTask : gmap N (list N);
}.

Record EntryTables : Type := {
  entries : gmap N EntryRecord;
  entryIds : gmap N (list N);
  headEntryIds : gmap N (list N);
  entryCommitSeqs : gmap N N;
}.

Record TaskTables : Type := {
  tasks : gmap N TaskRecord;
  taskIds : list N;
  taskIdsByStatus : TaskStatus -> list N;
}.

Record SubmissionTables : Type := {
  submissions : gmap N SubmissionRecord;
  submissionIds : list N;
  submissionIdsByStatus : SubmissionStatus -> list N;
  submissionIdsByRequest : gmap N (gmap string N);
}.

Record DocumentTables : Type := {
  documents : gmap N StoredDocumentState;
  documentAddresses : gmap string DocumentAddressIndex;
  documentIdsByScope : gmap string (list N);
}.

Record State : Type := {
  recordTypes : gmap N TableName;
  conversation_tables : ConversationTables;
  entry_tables : EntryTables;
  task_tables : TaskTables;
  submission_tables : SubmissionTables;
  document_tables : DocumentTables;
}.

Record MemoryStorage : Type := {
  state : State;
  nextId : N;
  nextSeq : N;
  closed : bool;
}.

Definition empty_state : State := {|
  recordTypes := ∅;
  conversation_tables := {| conversations := ∅; conversationIds := [];
    conversationIdsByOwnerConversation := ∅; conversationIdsByOwnerTask := ∅ |};
  entry_tables := {| entries := ∅; entryIds := ∅; headEntryIds := ∅; entryCommitSeqs := ∅ |};
  task_tables := {| tasks := ∅; taskIds := []; taskIdsByStatus := fun _ => [] |};
  submission_tables := {| submissions := ∅; submissionIds := []; submissionIdsByStatus := fun _ => [];
    submissionIdsByRequest := ∅ |};
  document_tables := {| documents := ∅; documentAddresses := ∅; documentIdsByScope := ∅ |};
|}.

Definition memory_new : MemoryStorage :=
  {| state := empty_state; nextId := 2; nextSeq := 1; closed := false |}.

Definition assertOpen (m : MemoryStorage) : sres unit := check (negb (closed m)) Closed.

(** ** Table records *)

Definition apply_conversation (v : ConversationRecord) (t : ConversationTables) : ConversationTables :=
  {| conversations := <[c_id v := v]> (conversations t);
     conversationIds := insertSorted (conversationIds t) (c_id v);
     conversationIdsByOwnerConversation :=
       match c_owner v with
       | Some o => insertMapId (conversationIdsByOwnerConversation t) (ol_conversationId o) (c_id v)
       | None => conversationIdsByOwnerConversation t
       end;
     conversationIdsByOwnerTask :=
       match c_owner v with
       | Some o => insertMapId (conversationIdsByOwnerTask t) (ol_taskId o) (c_id v)
       | None => conversationIdsByOwnerTask t
       end |}.

Definition apply_entry (v : EntryRecord) (seq : N) (t : EntryTables) : EntryTables :=
  {| entries := <[e_id v := v]> (entries t);
     entryIds := insertMapId (entryIds t) (e_conversationId v) (e_id v);
     headEntryIds :=
       match e_head v with
       | Some _ => insertMapId (headEntryIds t) (e_conversationId v) (e_id v)
       | None => headEntryIds t
       end;
     entryCommitSeqs := <[e_id v := seq]> (entryCommitSeqs t) |}.

Definition apply_task (v : TaskRecord) (t : TaskTables) : TaskTables :=
  let byStatus := taskIdsByStatus t in
  {| tasks := <[t_id v := v]> (tasks t);
     taskIds :=
       match tasks t !! t_id v with None => insertSorted (taskIds t) (t_id v) | Some _ => taskIds t end;
     taskIdsByStatus :=
       match tasks t !! t_id v with
       | None => <[t_status v := insertSorted (byStatus (t_status v)) (t_id v)]> byStatus
       | Some previous =>
           if decide (t_status previous = t_status v) then byStatus
           else
             let byStatus' := <[t_status previous := removeSorted (byStatus (t_status previous)) (t_id v)]> byStatus in
             <[t_status v := insertSorted (byStatus' (t_status v)) (t_id v)]> byStatus'
       end |}.

(** The request of the previous record leaves the index when it still points here. *)
Definition drop_request (previous : option SubmissionRecord) (id : N) (index : gmap N (gmap string N))
  : gmap N (gmap string N) :=
  match previous with
  | Some p =>
      match s_requestId p, index !! s_conversationId p with
      | Some requestId, Some requests =>
          if decide (requests !! requestId = Some id) then
            let requests' := delete requestId requests in
            if decide (requests' = ∅) then delete (s_conversationId p) index
            else <[s_conversationId p := requests']> index
          else index
      | _, _ => index
      end
  | None => index
  end.

Definition add_request (v : SubmissionRecord) (index : gmap N (gmap string N))
  : gmap N (gmap string N) :=
  match s_requestId v with
  | Some requestId =>
      <[s_conversationId v := <[requestId := s_id v]> (default ∅ (index !! s_conversationId v))]> index
  | None => index
  end.

Definition apply_submission (v : SubmissionRecord) (t : SubmissionTables) : SubmissionTables :=
  let byStatus := submissionIdsByStatus t in
  let previous := submissions t !! s_id v in
  {| submissions := <[s_id v := v]> (submissions t);
     submissionIds :=
       match previous with
       | None => insertSorted (submissionIds t) (s_id v) | Some _ => submissionIds t end;
     submissionIdsByStatus :=
       match previous with
       | None => <[s_status v := insertSorted (byStatus (s_status v)) (s_id v)]> byStatus
       | Some p =>
           if decide (s_status p = s_status v) then byStatus
           else
             let byStatus' := <[s_status p := removeSorted (byStatus (s_status p)) (s_id v)]> byStatus in
             <[s_status v := insertSorted (byStatus' (s_status v)) (s_id v)]> byStatus'
       end;
     submissionIdsByRequest := add_request v (drop_request previous (s_id v) (submissionIdsByRequest t)) |}.

(** ** Reading a document *)

Definition isAliveAt (record : DocumentRecord) (at_ : DocumentPoint) : bool :=
  match at_ with
  | PCurrent => bool_decide (d_retiredAt record = None)
  | PSeq s =>
      (d_createdAt record <=? s)%N &&
      match d_retiredAt record with None => true | Some r => (s <? r)%N end
  end.

Definition isCurrentOnly (record : DocumentRecord) : bool :=
  match dc_scope (d_create record) with
  | ScopeConversation _ => bool_decide (dc_history (d_create record) = Some HLatest)
  | _ => true
  end.

Definition is_base (c : Content) : bool := match c with CBase _ => true | CDelta _ => false end.

(** The loop that looks for the newest base. *)
Fixpoint base_index (revisions : list DocumentRevision) (n : nat) : option nat :=
  match n with
  | 0 => None
  | S n' =>
      match revisions !! n' with
      | Some r => if is_base (rv_content r) then Some n' else base_index revisions n'
      | None => base_index revisions n'
      end
  end.

(** The deltas after a base, applied in order ([applyImmutableBatches] over
    [documentDeltaBatches]). *)
Fixpoint replay (id version : N) (revisions : list DocumentRevision) (value : option json)
  : sres (option json) :=
  match revisions with
  | [] => Ok value
  | r :: revisions' =>
      match rv_content r with
      | CDelta ops =>
          if (rv_version r =? version)%N then
            match apply value (tuples ops) with
            | Ok value' => replay id version revisions' value'
            | Throw e => Throw (DeltaFailed e)
            end
          else Throw (VersionBoundary id)
      | CBase _ => Throw (VersionBoundary id)
      end
  end.

Definition materializeDocument (t : DocumentTables) (id : N) (at_ : DocumentPoint)
  : sres (option StoredDocument) :=
  match documents t !! id with
  | None => Ok None
  | Some stored =>
      _ ← check (match at_ with PCurrent => true | PSeq _ => negb (isCurrentOnly (st_record stored)) end)
            (NoHistory id);
      if isAliveAt (st_record stored) at_ then
        let revisions := match at_ with
                         | PCurrent => st_revisions stored
                         | PSeq s => filter (fun r => (rv_seq r <= s)%N) (st_revisions stored)
                         end in
        match base_index revisions (length revisions) with
        | Some baseIndex =>
            match revisions !! baseIndex with
            | Some {| rv_version := version; rv_content := CBase base |} =>
                value ← replay id version (drop (S baseIndex) revisions) (Some base);
                v ← res_of UndefinedValue value;
                Ok (Some {| sd_record := st_record stored; sd_version := version; sd_value := v;
                            sd_deltasSinceBase := length revisions - baseIndex - 1 |})
            | _ => Throw (MissingBase id)
            end
        | None => Throw (MissingBase id)
        end
      else Ok None
  end.

(** ** Document copies *)

(** The documents a batch changes. *)
Definition changed_document (w : StorageWrite) : option N :=
  match w with
  | WDocumentCreate record _ _ | WDocumentCopy record _ => Some (dc_id record)
  | WDocumentChange id _ | WDocumentRetire id => Some id
  | _ => None
  end.

Definition is_conversation_scope (s : Scope) : bool :=
  match s with ScopeConversation _ => true | _ => false end.

(** One copy, as the creation it stands for. *)
Definition resolve_copy (t : DocumentTables) (changed : list N) (record : DocumentCreate)
    (source : DocumentCopySource) : sres StorageWrite :=
  _ ← check (bool_decide (cs_id source ∉ changed)) (SourceChanged (cs_id source));
  found ← materializeDocument t (cs_id source) (cs_at source);
  stored ← res_of (SourceUnreadable (cs_id source)) found;
  let from := d_create (sd_record stored) in
  _ ← check (is_conversation_scope (dc_scope from) && is_conversation_scope (dc_scope record)
             && bool_decide (dc_kind from = dc_kind record) && bool_decide (dc_key from = dc_key record)
             && bool_decide (dc_history from = dc_history record)
             && bool_decide (dc_fork from = dc_fork record))
        (SourceMismatch (cs_id source));
  Ok (WDocumentCreate record (sd_version stored) (sd_value stored)).

Definition resolveDocumentCopies (t : DocumentTables) (writes : list StorageWrite)
  : sres (list StorageWrite) :=
  let changed := omap changed_document writes in
  res_mapM (fun w =>
    match w with
    | WDocumentCopy record source =>
        match resolve_copy t changed record source with
        | Ok w' => Ok w'
        | Throw e => Throw (CopyRejected (dc_id record) e)
        end
    | _ => Ok w
    end) writes.

(** ** Checks *)

(** The ID a write claims and the table it claims it for. *)
Definition claim (w : StorageWrite) : option (N * TableName) :=
  match w with
  | WConversation v => Some (c_id v, TConversation)
  | WEntry v => Some (e_id v, TEntry)
  | WTask v => Some (t_id v, TTask)
  | WSubmission v => Some (s_id v, TSubmission)
  | WDocumentCreate record _ _ | WDocumentCopy record _ => Some (dc_id record, TDocument)
  | WDocumentChange _ _ | WDocumentRetire _ => None
  end.

(** Conversations, entries and documents are written once. *)
Definition once (table : TableName) : bool :=
  match table with TConversation | TEntry | TDocument => true | TTask | TSubmission => false end.

Definition check_claim (types claimed : gmap N TableName) (id : N) (table : TableName) : sres unit :=
  let existing := types !! id in
  let earlier := claimed !! id in
  if once table then
    _ ← match existing with Some e => Throw (IdTaken id e) | None => Ok tt end;
    check (bool_decide (earlier = None)) (IdTwice id)
  else
    _ ← match existing with
        | Some e => check (bool_decide (e = table)) (IdTaken id e)
        | None => Ok tt
        end;
    match earlier with
    | Some e => check (bool_decide (e = table)) (IdTwoTypes id)
    | None => Ok tt
    end.

Fixpoint checkGlobalIds (types claimed : gmap N TableName) (writes : list StorageWrite) : sres unit :=
  match writes with
  | [] => Ok tt
  | w :: writes' =>
      match claim w with
      | None => checkGlobalIds types claimed writes'
      | Some (id, table) =>
          _ ← check_claim types claimed id table;
          checkGlobalIds types (<[id := table]> claimed) writes'
      end
  end.

Record DocumentAction : Type := {
  a_create : option DocumentCreate;
  a_content : option DocumentContent;
  a_retire : bool;
}.

(** The actions of a batch by document, in the order the documents first appear. *)
Abbreviation Actions := (list (N * DocumentAction)).

Fixpoint action_get (id : N) (actions : Actions) : option DocumentAction :=
  match actions with
  | [] => None
  | (id', a) :: actions' => if (id =? id')%N then Some a else action_get id actions'
  end.

Fixpoint action_set (id : N) (a : DocumentAction) (actions : Actions) : Actions :=
  match actions with
  | [] => [(id, a)]
  | (id', a') :: actions' =>
      if (id =? id')%N then (id', a) :: actions' else (id', a') :: action_set id a actions'
  end.

Definition new_action : DocumentAction := {| a_create := None; a_content := None; a_retire := false |}.

Definition prepare_action (actions : Actions) (w : StorageWrite) : sres Actions :=
  match w with
  | WDocumentCreate record version base =>
      let a := default new_action (action_get (dc_id record) actions) in
      _ ← check (bool_decide (a_create a = None) && negb (is_some (a_content a)))
            (TwoContents (dc_id record));
      Ok (action_set (dc_id record)
            {| a_create := Some record;
               a_content := Some {| dcn_version := version; dcn_content := CBase base |};
               a_retire := a_retire a |} actions)
  | WDocumentChange id content =>
      let a := default new_action (action_get id actions) in
      _ ← check (negb (is_some (a_content a))) (TwoContents id);
      Ok (action_set id {| a_create := a_create a; a_content := Some content; a_retire := a_retire a |} actions)
  | WDocumentRetire id =>
      let a := default new_action (action_get id actions) in
      _ ← check (negb (a_retire a)) (RetiredTwice id);
      Ok (action_set id {| a_create := a_create a; a_content := a_content a; a_retire := true |} actions)
  | _ => Ok actions
  end.

Definition prepareDocumentActions (writes : list StorageWrite) : sres Actions :=
  res_foldl prepare_action [] writes.

(** ** Document actions *)

(** The check of one action; the result is the address it concerns and the number of live
    incarnations it leaves there, given the count [live] from before. *)
Definition check_action (t : DocumentTables) (liveCounts : gmap string Z) (id : N) (a : DocumentAction)
  : sres (gmap string Z) :=
  let existing := documents t !! id in
  _ ← check (negb (negb (is_some (a_create a)) && negb (is_some existing))) (UnknownDocument id);
  _ ← check (negb (is_some (a_create a) && is_some existing)) (DocumentExists id);
  _ ← check (negb (is_some (existing ≫= fun s => d_retiredAt (st_record s)))) (DocumentRetired id);
  _ ← match a_content a with
      | Some {| dcn_version := version; dcn_content := CDelta _ |} =>
          previous ← res_of (DeltaNoBase id) (existing ≫= fun s => last (st_revisions s));
          check (rv_version previous =? version)%N (VersionTransition id)
      | _ => Ok tt
      end;
  record ← match a_create a, existing with
           | Some c, _ => Ok c
           | None, Some s => Ok (d_create (st_record s))
           | None, None => Throw UndefinedValue
           end;
  let key := recordAddressKey record in
  let currentId := documentAddresses t !! key ≫= ai_currentId in
  let live := match liveCounts !! key with
              | Some n => n
              | None => match currentId with None => 0 | Some _ => 1 end
              end%Z in
  let live1 := if a_retire a && bool_decide (currentId = Some id) then (live - 1)%Z else live in
  let live2 := if is_some (a_create a) && negb (a_retire a) then (live1 + 1)%Z else live1 in
  Ok (<[key := live2]> liveCounts).

Fixpoint check_actions (t : DocumentTables) (liveCounts : gmap string Z) (actions : Actions)
  : sres (gmap string Z) :=
  match actions with
  | [] => Ok liveCounts
  | (id, a) :: actions' =>
      counts ← check_action t liveCounts id a;
      check_actions t counts actions'
  end.

Definition checkDocumentActions (t : DocumentTables) (actions : Actions) : sres unit :=
  counts ← check_actions t ∅ actions;
  check (bool_decide (map_Forall (fun _ live => live <= 1)%Z counts)) AddressOccupied.

(** The storing of a created incarnation. *)
Definition apply_create (t : DocumentTables) (id : N) (create : DocumentCreate) (stored : StoredDocumentState)
  : DocumentTables :=
  let key := recordAddressKey create in
  let address := default {| ai_ids := []; ai_currentId := None |} (documentAddresses t !! key) in
  {| documents := <[id := stored]> (documents t);
     documentAddresses :=
       <[key := {| ai_ids := insertSorted (ai_ids address) id; ai_currentId := ai_currentId address |}]>
         (documentAddresses t);
     documentIdsByScope := insertMapId (documentIdsByScope t) (scopeKey (dc_scope create)) id |}.

Definition set_current (t : DocumentTables) (key : string) (f : option N -> option N) : option DocumentTables :=
  address ← documentAddresses t !! key;
  Some {| documents := documents t;
          documentAddresses :=
            <[key := {| ai_ids := ai_ids address; ai_currentId := f (ai_currentId address) |}]>
              (documentAddresses t);
          documentIdsByScope := documentIdsByScope t |}.

Definition set_document (t : DocumentTables) (id : N) (stored : StoredDocumentState) : DocumentTables :=
  {| documents := <[id := stored]> (documents t);
     documentAddresses := documentAddresses t;
     documentIdsByScope := documentIdsByScope t |}.

Definition revision_of (content : DocumentContent) (seq : N) : DocumentRevision :=
  {| rv_version := dcn_version content; rv_content := dcn_content content; rv_seq := seq |}.

(** The incarnation after a content command. *)
Definition add_revision (stored : StoredDocumentState) (content : DocumentContent) (seq : N)
  : StoredDocumentState :=
  let revision := revision_of content seq in
  {| st_record := st_record stored;
     st_revisions :=
       if is_base (rv_content revision) && isCurrentOnly (st_record stored) then [revision]
       else st_revisions stored ++ [revision] |}.

(** The incarnation after a retirement in the commit [seq]. *)
Definition retire (stored : StoredDocumentState) (created : bool) (seq : N) : StoredDocumentState :=
  let record := if created then st_record stored
                else {| d_create := d_create (st_record stored); d_createdAt := d_createdAt (st_record stored);
                        d_retiredAt := Some seq |} in
  {| st_record := record;
     st_revisions := if isCurrentOnly record then [] else st_revisions stored |}.

(** One action; [None] is reading [undefined]. *)
Definition apply_action (t : DocumentTables) (id : N) (a : DocumentAction) (seq : N)
  : option DocumentTables :=
  (* the content *)
  '(t1, stored) ←
    match a_create a with
    | Some create =>
        content ← a_content a;
        let record := {| d_create := create; d_createdAt := seq;
                         d_retiredAt := if a_retire a then Some seq else None |} in
        let stored := {| st_record := record; st_revisions := [revision_of content seq] |} in
        Some (apply_create t id create stored, Some stored)
    | None =>
        match a_content a with
        | Some content =>
            stored ← documents t !! id;
            let stored' := add_revision stored content seq in
            Some (set_document t id stored', Some stored')
        | None => Some (t, documents t !! id)
        end
    end;
  (* the retirement *)
  '(t2, stored2) ←
    (if a_retire a then
       s ← stored;
       let s' := retire s (is_some (a_create a)) seq in
       Some (set_document t1 id s', Some s')
     else Some (t1, stored));
  (* the address *)
  if is_some (a_create a) || a_retire a then
    s ← stored2;
    set_current t2 (recordAddressKey (d_create (st_record s)))
      (fun current =>
         let current1 := if a_retire a && bool_decide (current = Some id) then None else current in
         if is_some (a_create a) && negb (a_retire a) then Some id else current1)
  else Some t2.

Fixpoint applyDocumentActions (t : DocumentTables) (actions : Actions) (seq : N) : option DocumentTables :=
  match actions with
  | [] => Some t
  | (id, a) :: actions' => t' ← apply_action t id a seq; applyDocumentActions t' actions' seq
  end.

(** ** Commits *)

(** One table write. *)
Definition apply_write (seq : N) (acc : State * N) (w : StorageWrite) : State * N :=
  let '(st, next) := acc in
  match w with
  | WConversation v =>
      ({| recordTypes := <[c_id v := TConversation]> (recordTypes st);
          conversation_tables := apply_conversation v (conversation_tables st);
          entry_tables := entry_tables st; task_tables := task_tables st;
          submission_tables := submission_tables st; document_tables := document_tables st |},
       N.max next (c_id v + 1))
  | WEntry v =>
      ({| recordTypes := <[e_id v := TEntry]> (recordTypes st);
          conversation_tables := conversation_tables st;
          entry_tables := apply_entry v seq (entry_tables st); task_tables := task_tables st;
          submission_tables := submission_tables st; document_tables := document_tables st |},
       N.max next (e_id v + 1))
  | WTask v =>
      ({| recordTypes := <[t_id v := TTask]> (recordTypes st);
          conversation_tables := conversation_tables st;
          entry_tables := entry_tables st; task_tables := apply_task v (task_tables st);
          submission_tables := submission_tables st; document_tables := document_tables st |},
       N.max next (t_id v + 1))
  | WSubmission v =>
      ({| recordTypes := <[s_id v := TSubmission]> (recordTypes st);
          conversation_tables := conversation_tables st;
          entry_tables := entry_tables st; task_tables := task_tables st;
          submission_tables := apply_submission v (submission_tables st);
          document_tables := document_tables st |},
       N.max next (s_id v + 1))
  | _ => (st, next)
  end.

(** The record types and the next ID after the creations of the actions. *)
Definition created_ids (actions : Actions) : list N :=
  omap (fun '(id, a) => if is_some (a_create a) then Some id else None) actions.

Definition is_copy (w : StorageWrite) : bool := match w with WDocumentCopy _ _ => true | _ => false end.

Record PreparedMemoryCommit : Type := {
  p_seq : N;
  p_writes : list StorageWrite;
  p_actions : Actions;
}.

Definition applyPreparedCommit (m : MemoryStorage) (p : PreparedMemoryCommit) : option MemoryStorage :=
  if existsb is_copy (p_writes p) then None
  else
    let '(st, next) := foldl (apply_write (p_seq p)) (state m, nextId m) (p_writes p) in
    documents' ← applyDocumentActions (document_tables st) (p_actions p) (p_seq p);
    let ids := created_ids (p_actions p) in
    Some {| state :=
              {| recordTypes := foldl (fun types id => <[id := TDocument]> types) (recordTypes st) ids;
                 conversation_tables := conversation_tables st; entry_tables := entry_tables st;
                 task_tables := task_tables st; submission_tables := submission_tables st;
                 document_tables := documents' |};
            nextId := foldl (fun n id => N.max n (id + 1)) next ids;
            nextSeq := p_seq p + 1;
            closed := closed m |}.

(** Check and detach a batch; the state is not changed. *)
Definition prepareCommit (m : MemoryStorage) (writes : list StorageWrite) (seq : option N)
  : sres PreparedMemoryCommit :=
  _ ← assertOpen m;
  let s := default (nextSeq m) seq in
  _ ← check ((Z.of_N s <=? MAX_SAFE_INTEGER)%Z && negb (s <? nextSeq m)%N) (SeqNotIncreasing (Z.of_N s));
  detachedWrites ← resolveDocumentCopies (document_tables (state m)) (clone writes);
  _ ← checkGlobalIds (recordTypes (state m)) ∅ detachedWrites;
  actions ← prepareDocumentActions detachedWrites;
  _ ← checkDocumentActions (document_tables (state m)) actions;
  Ok {| p_seq := s; p_writes := detachedWrites; p_actions := actions |}.

(** What a commit reports: the receipts by index, and [CommitResult], or that an
    application threw. *)
Record CommitResult : Type := { stored : nat; refused : option storage_error }.

Fixpoint commit_loop (m : MemoryStorage) (batches : list (list StorageWrite)) (seqs : list N)
  : MemoryStorage * list N * option (option storage_error) :=
  match batches with
  | [] => (m, seqs, Some None)
  | writes :: batches' =>
      match prepareCommit m writes None with
      | Throw e => (m, seqs, Some (Some e))
      | Ok prepared =>
          match applyPreparedCommit m prepared with
          | Some m' => commit_loop m' batches' (seqs ++ [p_seq prepared])
          | None => (m, seqs, None)
          end
      end
  end.

Definition commit (m : MemoryStorage) (batches : list (list StorageWrite))
  : sres (MemoryStorage * list (nat * N) * option CommitResult) :=
  _ ← assertOpen m;
  let '(m', seqs, outcome) := commit_loop m batches [] in
  Ok (m', imap pair seqs,
      r ← outcome; Some {| stored := length seqs; refused := r |}).

Definition mintId (m : MemoryStorage) : sres (MemoryStorage * N) :=
  _ ← assertOpen m;
  _ ← check (Z.of_N (nextId m) <=? MAX_SAFE_INTEGER)%Z IdSpaceExhausted;
  Ok ({| state := state m; nextId := nextId m + 1; nextSeq := nextSeq m; closed := closed m |}, nextId m).

Definition close (m : MemoryStorage) : MemoryStorage :=
  {| state := state m; nextId := nextId m; nextSeq := nextSeq m; closed := true |}.
