(* ===== verification/DocumentFacts.v ===== *)
(** The documents of [MemoryStorage]: address keys identify addresses, the indexes agree
    with the incarnations stored, every address has at most one live incarnation, and a
    checked batch of document actions always applies. *)
From S2P Require Import Prelude JsString Json DeltaOp DeltaApply DeltaCodec StorageTypes SortedIds.
From S2P Require Import MemoryCommit.
From Stdlib Require Import Sorted.

(** ** Keys *)

Lemma scopeKey_inj s1 s2 : scopeKey s1 = scopeKey s2 -> s1 = s2.
Proof.
  assert (Hn : forall n m r, int_to_string n +:+ "]" = int_to_string m +:+ "]" +:+ r -> n = m).
  { intros n m r H. apply (str_cut is_num_char) in H as [H _]; auto using int_to_string_chars.
    - by apply int_to_string_inj.
    - intros Hc%num_char_not. naive_solver.
    - intros Hc%num_char_not. naive_solver. }
  destruct s1 as [|n|n], s2 as [|m|m]; try done; unfold scopeKey, json_array; cbn -[int_to_string];
    intros H; repeat injection H as H; try done; f_equal; by apply (Hn n m "").
Qed.

Lemma json_quote_app_inj s1 s2 r1 r2 :
  json_quote s1 +:+ r1 = json_quote s2 +:+ r2 -> s1 = s2 /\ r1 = r2.
Proof. apply json_quote_cut. Qed.

Lemma addressKey_inj a b : addressKey a = addressKey b -> a = b.
Proof.
  destruct a as [k1 s1 o1], b as [k2 s2 o2]. unfold addressKey, json_array. cbn [da_kind da_scope da_key].
  cbn [json_items]. intros H. apply str_app_inj_r in H.
  apply json_quote_app_inj in H as [-> H]. apply str_app_inj_r in H.
  apply json_quote_app_inj in H as [Hs H]. apply str_app_inj_r in H.
  apply scopeKey_inj in Hs as ->. f_equal.
  destruct o1 as [x1|], o2 as [x2|]; try done.
  rewrite !str_app_assoc in H. do 3 apply str_app_inj_r in H.
  by apply json_quote_app_inj in H as [-> _].
Qed.

Lemma recordAddressKey_inj r1 r2 :
  recordAddressKey r1 = recordAddressKey r2 -> create_address r1 = create_address r2.
Proof. apply addressKey_inj. Qed.

(** ** The incarnations *)

Definition key_of (s : StoredDocumentState) : string := recordAddressKey (d_create (st_record s)).
Definition scope_of (s : StoredDocumentState) : string := scopeKey (dc_scope (d_create (st_record s))).
Definition live (s : StoredDocumentState) : Prop := d_retiredAt (st_record s) = None.

#[export] Instance live_dec s : Decision (live s).
Proof. unfold live. apply _. Defined.

(** Deltas have the version of the revision before them. *)
Fixpoint versions_ok (version : N) (revisions : list DocumentRevision) : Prop :=
  match revisions with
  | [] => True
  | r :: revisions' =>
      (is_base (rv_content r) = true \/ rv_version r = version) /\ versions_ok (rv_version r) revisions'
  end.

Definition starts_with_base (revisions : list DocumentRevision) : Prop :=
  match revisions with
  | [] => False
  | r :: revisions' => is_base (rv_content r) = true /\ versions_ok (rv_version r) revisions'
  end.

(** An incarnation at a time when the next commit is [next]. *)
Record incarnation_ok (next id : N) (s : StoredDocumentState) : Prop := {
  inc_id : dc_id (d_create (st_record s)) = id;
  inc_created : (d_createdAt (st_record s) < next)%N;
  inc_retired : forall r, d_retiredAt (st_record s) = Some r ->
    (d_createdAt (st_record s) <= r < next)%N;
  inc_sorted : StronglySorted N.lt (rv_seq <$> st_revisions s);
  inc_seqs : Forall (fun r => (d_createdAt (st_record s) <= rv_seq r < next)%N) (st_revisions s);
  inc_until : forall r, d_retiredAt (st_record s) = Some r ->
    Forall (fun v => (rv_seq v <= r)%N) (st_revisions s);
  inc_revisions : if isCurrentOnly (st_record s) && negb (bool_decide (live s))
                  then st_revisions s = [] else starts_with_base (st_revisions s);
  inc_first : isCurrentOnly (st_record s) = false ->
    rv_seq <$> head (st_revisions s) = Some (d_createdAt (st_record s));
}.

(** What an action leaves of an incarnation. *)
Definition doc_content (a : DocumentAction) (seq : N) (old : option StoredDocumentState)
  : option StoredDocumentState :=
  match a_create a with
  | Some create =>
      content ← a_content a;
      Some {| st_record := {| d_create := create; d_createdAt := seq;
                              d_retiredAt := if a_retire a then Some seq else None |};
              st_revisions := [revision_of content seq] |}
  | None =>
      match a_content a with
      | Some content => s ← old; Some (add_revision s content seq)
      | None => old
      end
  end.

Definition doc_after (a : DocumentAction) (seq : N) (old : option StoredDocumentState)
  : option StoredDocumentState :=
  s ← doc_content a seq old;
  Some (if a_retire a then retire s (is_some (a_create a)) seq else s).

(** What the checks establish about an action on the incarnation [old]. *)
Record action_ok (id : N) (a : DocumentAction) (old : option StoredDocumentState) : Prop := {
  ok_create : forall c, a_create a = Some c -> dc_id c = id /\ old = None /\
    exists version base, a_content a = Some {| dcn_version := version; dcn_content := CBase base |};
  ok_existing : a_create a = None -> is_Some old;
  ok_live : forall s, old = Some s -> live s;
  ok_delta : forall version ops s,
    a_content a = Some {| dcn_version := version; dcn_content := CDelta ops |} -> old = Some s ->
    exists previous, last (st_revisions s) = Some previous /\ rv_version previous = version;
}.

Lemma versions_ok_snoc v l r :
  versions_ok v l ->
  is_base (rv_content r) = true \/ rv_version r = default v (rv_version <$> last l) ->
  versions_ok v (l ++ [r]).
Proof.
  revert v; induction l as [|x l IH]; intros v; cbn; [tauto|]. intros [Hx Hl] Hr. split; [done|].
  apply IH; [done|]. destruct Hr as [Hr|Hr]; [by left|right].
  rewrite Hr, last_cons. by destruct (last l).
Qed.

Lemma starts_with_base_snoc l r :
  starts_with_base l ->
  is_base (rv_content r) = true \/ Some (rv_version r) = rv_version <$> last l ->
  starts_with_base (l ++ [r]).
Proof.
  destruct l as [|x l]; [done|]. cbn. intros [Hb Hl] Hr. split; [done|].
  apply versions_ok_snoc; [done|]. destruct Hr as [Hr|Hr]; [by left|right].
  rewrite last_cons in Hr. destruct (last l); cbn in *; by injection Hr.
Qed.

Lemma current_only_live s : live s ->
  (if isCurrentOnly (st_record s) && negb (bool_decide (live s)) then st_revisions s = []
   else starts_with_base (st_revisions s)) -> starts_with_base (st_revisions s).
Proof. intros Hl. rewrite bool_decide_true by done. by rewrite andb_false_r. Qed.

Lemma doc_content_ok next id a old s seq :
  (next <= seq)%N -> action_ok id a old ->
  (forall o, old = Some o -> incarnation_ok next id o) -> doc_content a seq old = Some s ->
  dc_id (d_create (st_record s)) = id /\
  (d_createdAt (st_record s) <= seq)%N /\
  StronglySorted N.lt (rv_seq <$> st_revisions s) /\
  Forall (fun r => (d_createdAt (st_record s) <= rv_seq r <= seq)%N) (st_revisions s) /\
  starts_with_base (st_revisions s) /\
  (isCurrentOnly (st_record s) = false ->
    rv_seq <$> head (st_revisions s) = Some (d_createdAt (st_record s))) /\
  d_retiredAt (st_record s) = (if is_some (a_create a) && a_retire a then Some seq else None).
Proof.
  intros Hseq Hok Hold. unfold doc_content. destruct (a_create a) as [c|] eqn:Hc.
  - destruct (ok_create _ _ _ Hok c Hc) as (Hid & -> & version & base & ->). cbn.
    intros [= <-]. cbn. repeat split; try done; try lia; repeat constructor; cbn; lia.
  - destruct (ok_existing _ _ _ Hok Hc) as [o ->].
    destruct (Hold o eq_refl) as [Hid Hcr _ Hsorted Hseqs _ Hrev Hfirst].
    pose proof (ok_live _ _ _ Hok o eq_refl) as Hlive.
    apply (current_only_live _ Hlive) in Hrev.
    assert (Hle : Forall (fun r => (d_createdAt (st_record o) <= rv_seq r <= seq)%N) (st_revisions o)).
    { eapply Forall_impl; [exact Hseqs|]. cbn. lia. }
    destruct (a_content a) as [content|] eqn:Hcon; cbn.
    2: { intros [= <-]. repeat split; try done; lia. }
    intros [= <-]. unfold add_revision. cbn.
    destruct (is_base (dcn_content content) && isCurrentOnly (st_record o)) eqn:Hb; cbn.
    { apply andb_true_iff in Hb as [Hb Hco]. rewrite Hco.
      repeat split; try done; try lia; repeat constructor; cbn; lia. }
    split; [done|]. split; [lia|]. split.
    { rewrite fmap_app. apply StronglySorted_app_lt. split; [done|]. split; [repeat constructor|].
      intros x y (r & -> & Hr)%list_elem_of_fmap Hy. apply list_elem_of_singleton in Hy as ->. cbn.
      rewrite Forall_forall in Hseqs. specialize (Hseqs r Hr). cbn in Hseqs. lia. }
    split; [apply Forall_app; split; [done|]; apply Forall_singleton; cbn; lia|]. split.
    { apply starts_with_base_snoc; [done|]. cbn.
      destruct content as [version [base|ops]]; cbn; [by left|right].
      destruct (ok_delta _ _ _ Hok version ops o Hcon eq_refl) as (p & -> & <-). done. }
    split; [|done]. intros Hco. specialize (Hfirst Hco).
    destruct (st_revisions o); [done|exact Hfirst].
Qed.

(** An action keeps the incarnation well formed. *)
Lemma doc_after_ok next id a old s seq :
  (next <= seq)%N -> action_ok id a old ->
  (forall o, old = Some o -> incarnation_ok next id o) -> doc_after a seq old = Some s ->
  incarnation_ok (seq + 1) id s /\
  d_retiredAt (st_record s) = (if a_retire a then Some seq else None) /\
  (forall o, old = Some o -> d_create (st_record s) = d_create (st_record o) /\
                             d_createdAt (st_record s) = d_createdAt (st_record o)).
Proof.
  intros Hseq Hok Hold. unfold doc_after. destruct (doc_content a seq old) as [s1|] eqn:E; [|done].
  cbn. intros [= <-].
  destruct (doc_content_ok next id a old s1 seq Hseq Hok Hold E) as (H1 & H2 & H3 & H4 & H5 & H6 & H7).
  assert (Hco : forall o, old = Some o -> d_create (st_record s1) = d_create (st_record o) /\
                             d_createdAt (st_record s1) = d_createdAt (st_record o)).
  { intros o ->. unfold doc_content in E. destruct (a_create a) as [c|] eqn:Hc.
    - by destruct (ok_create _ _ _ Hok c Hc) as (_ & ? & _).
    - destruct (a_content a); cbn in E; by injection E as <-. }
  assert (H4' : Forall (fun r => (d_createdAt (st_record s1) <= rv_seq r < seq + 1)%N) (st_revisions s1)).
  { eapply Forall_impl; [exact H4|]. cbn. lia. }
  assert (H4'' : Forall (fun r => (rv_seq r <= seq)%N) (st_revisions s1)).
  { eapply Forall_impl; [exact H4|]. cbn. lia. }
  destruct (a_retire a) eqn:Hr.
  - assert (Hret : d_retiredAt (st_record (retire s1 (is_some (a_create a)) seq)) = Some seq).
    { unfold retire. destruct (is_some (a_create a)) eqn:Hc; cbn; [by rewrite H7|done]. }
    assert (Hrec : d_create (st_record (retire s1 (is_some (a_create a)) seq)) = d_create (st_record s1) /\
                   d_createdAt (st_record (retire s1 (is_some (a_create a)) seq)) = d_createdAt (st_record s1)).
    { unfold retire. by destruct (is_some (a_create a)). }
    destruct Hrec as [Hr1 Hr2].
    assert (Hrevs : st_revisions (retire s1 (is_some (a_create a)) seq)
                    = if isCurrentOnly (st_record s1) then [] else st_revisions s1).
    { unfold retire. by destruct (is_some (a_create a)). }
    assert (Hcur : isCurrentOnly (st_record (retire s1 (is_some (a_create a)) seq)) = isCurrentOnly (st_record s1)).
    { unfold isCurrentOnly. by rewrite Hr1. }
    split; [|split; [done|by rewrite Hr1, Hr2]]. split.
    + by rewrite Hr1.
    + rewrite Hr2. lia.
    + intros r. rewrite Hret, Hr2. intros [= <-]. lia.
    + rewrite Hrevs. destruct (isCurrentOnly _); [constructor|done].
    + rewrite Hrevs, Hr2. destruct (isCurrentOnly _); [constructor|done].
    + intros r. rewrite Hret, Hrevs. intros [= <-]. destruct (isCurrentOnly _); [constructor|done].
    + rewrite Hrevs, Hcur. rewrite bool_decide_false by (unfold live; by rewrite Hret).
      by destruct (isCurrentOnly _).
    + rewrite Hcur, Hrevs, Hr2. intros Hf. rewrite Hf. by apply H6.
  - rewrite andb_false_r in H7. split; [|done]. split; try done.
    + lia.
    + intros r. by rewrite H7.
    + intros r. by rewrite H7.
    + rewrite bool_decide_true by done. by rewrite andb_false_r.
Qed.

(** ** The indexes *)

Record doc_index_ok (t : DocumentTables) : Prop := {
  di_addresses : forall key, indexes (default [] (ai_ids <$> documentAddresses t !! key))
    (fun i => exists s, documents t !! i = Some s /\ key_of s = key);
  di_scopes : map_indexes (documentIdsByScope t)
    (fun k i => exists s, documents t !! i = Some s /\ scope_of s = k);
  di_known : forall i s, documents t !! i = Some s -> is_Some (documentAddresses t !! key_of s);
}.

Definition cur (t : DocumentTables) (key : string) : option N := documentAddresses t !! key ≫= ai_currentId.

(** The current incarnation of the action's address after the action. *)
Definition cur_step (a : DocumentAction) (id : N) (c : option N) : option N :=
  let c1 := if a_retire a && bool_decide (c = Some id) then None else c in
  if is_some (a_create a) && negb (a_retire a) then Some id else c1.

(** Replacing an incarnation by one with its address and scope keeps the indexes. *)
Lemma set_document_index t id s o :
  doc_index_ok t -> documents t !! id = Some o -> d_create (st_record s) = d_create (st_record o) ->
  doc_index_ok (set_document t id s).
Proof.
  intros [Ha Hsc Hk] Ho Hc.
  assert (Hsame : forall (P : DocumentCreate -> Prop) i,
    (exists x, <[id := s]> (documents t) !! i = Some x /\ P (d_create (st_record x))) <->
    (exists x, documents t !! i = Some x /\ P (d_create (st_record x)))).
  { intros P i. destruct (decide (id = i)) as [<-|Hne].
    - rewrite lookup_insert_eq, Ho. split; intros (x & [= <-] & Hx); eexists; (split; [done|congruence]).
    - by rewrite lookup_insert_ne. }
  split; cbn.
  - intros key. eapply indexes_ext; [apply Ha|]. intros i. symmetry.
    apply (Hsame (fun d => recordAddressKey d = key)).
  - eapply map_indexes_ext; [exact Hsc|]. intros k i. symmetry.
    apply (Hsame (fun d => scopeKey (dc_scope d) = k)).
  - intros i x Hx. destruct (decide (id = i)) as [<-|Hne].
    + rewrite lookup_insert_eq in Hx. injection Hx as <-. unfold key_of. rewrite Hc. by apply (Hk id).
    + rewrite lookup_insert_ne in Hx by done. by apply (Hk i).
Qed.

Lemma set_current_spec t key f :
  is_Some (documentAddresses t !! key) ->
  exists t', set_current t key f = Some t' /\ documents t' = documents t /\
    (doc_index_ok t -> doc_index_ok t') /\
    forall k, cur t' k = if decide (k = key) then f (cur t k) else cur t k.
Proof.
  intros [address Hadd]. unfold set_current. rewrite Hadd. cbn. eexists. split; [done|].
  split; [done|]. split.
  - intros [Ha Hsc Hk]. split; cbn; [|done|].
    + intros k. specialize (Ha k). destruct (decide (key = k)) as [<-|Hne].
      * rewrite lookup_insert_eq. by rewrite Hadd in Ha.
      * by rewrite lookup_insert_ne.
    + intros i s Hs. destruct (decide (key = key_of s)) as [->|Hne].
      * rewrite lookup_insert_eq. eauto.
      * rewrite lookup_insert_ne by done. eauto.
  - intros k. unfold cur. cbn. case_decide as Hd.
    + subst. by rewrite lookup_insert_eq, Hadd.
    + by rewrite lookup_insert_ne.
Qed.

Lemma apply_create_spec t id create s :
  doc_index_ok t -> documents t !! id = None -> d_create (st_record s) = create ->
  doc_index_ok (apply_create t id create s) /\
  is_Some (documentAddresses (apply_create t id create s) !! recordAddressKey create) /\
  forall k, cur (apply_create t id create s) k = cur t k.
Proof.
  intros [Ha Hsc Hk] Hid <-. unfold apply_create, cur. set (key := recordAddressKey _).
  set (address := default _ _).
  assert (Hids : indexes (ai_ids address) (fun i => exists s, documents t !! i = Some s /\ key_of s = key)).
  { specialize (Ha key). unfold address. by destruct (documentAddresses t !! key). }
  assert (Hnew : forall (P : StoredDocumentState -> Prop) i,
    (i = id /\ P s) \/ (exists x, documents t !! i = Some x /\ P x) <->
    (exists x, <[id := s]> (documents t) !! i = Some x /\ P x)).
  { intros P i. destruct (decide (id = i)) as [<-|Hne].
    - rewrite lookup_insert_eq, Hid. naive_solver.
    - rewrite lookup_insert_ne by done. naive_solver. }
  split; [split; cbn|split; cbn].
  - intros k. destruct (decide (key = k)) as [<-|Hne].
    + rewrite lookup_insert_eq. cbn. eapply indexes_ext.
      * apply insertSorted_indexes; [exact Hids|]. intros (? & Hx & _). congruence.
      * intros i. rewrite <- (Hnew (fun x => key_of x = key) i). unfold key_of at 2. fold key. naive_solver.
    + rewrite lookup_insert_ne by done. eapply indexes_ext; [apply Ha|].
      intros i. rewrite <- (Hnew (fun x => key_of x = k) i). unfold key_of at 2. fold key. naive_solver.
  - eapply map_indexes_ext; [apply insertMapId_indexes; [exact Hsc|]|].
    + intros (? & Hx & _). congruence.
    + intros k i. cbn. rewrite <- (Hnew (fun x => scope_of x = k) i). unfold scope_of at 2. naive_solver.
  - intros i x Hx. destruct (decide (key = key_of x)) as [->|Hne].
    + rewrite lookup_insert_eq. eauto.
    + rewrite lookup_insert_ne by done. destruct (decide (id = i)) as [<-|Hni].
      * rewrite lookup_insert_eq in Hx. injection Hx as <-. by destruct Hne.
      * rewrite lookup_insert_ne in Hx by done. eauto.
  - rewrite lookup_insert_eq. eauto.
  - intros k. destruct (decide (key = k)) as [<-|Hne].
    + rewrite lookup_insert_eq. cbn. unfold address. by destruct (documentAddresses t !! key).
    + by rewrite lookup_insert_ne.
Qed.

Lemma add_revision_create s content seq : d_create (st_record (add_revision s content seq)) = d_create (st_record s).
Proof. done. Qed.

Lemma retire_create s b seq : d_create (st_record (retire s b seq)) = d_create (st_record s).
Proof. unfold retire. by destruct b. Qed.

(** One checked action applies, changes its document only and moves its address. *)
Lemma apply_action_spec t id a seq :
  doc_index_ok t -> action_ok id a (documents t !! id) ->
  exists t' s, apply_action t id a seq = Some t' /\ doc_index_ok t' /\
    doc_after a seq (documents t !! id) = Some s /\ documents t' = <[id := s]> (documents t) /\
    forall k, cur t' k = if decide (k = key_of s) then cur_step a id (cur t k) else cur t k.
Proof.
  intros Hok Ha. unfold apply_action, doc_after, doc_content, cur_step.
  destruct (a_create a) as [c|] eqn:Hc; cbn [is_some].
  - destruct (ok_create _ _ _ Ha c Hc) as (Hid & Hnone & version & base & ->).
    cbn [mbind option_bind]. set (content := {| dcn_version := version; dcn_content := CBase base |}).
    set (s0 := {| st_record := _; st_revisions := [revision_of content seq] |}).
    destruct (apply_create_spec t id c s0 Hok Hnone eq_refl) as (H1 & H2 & H3).
    set (t1 := apply_create t id c s0) in *.
    assert (Ht1 : documents t1 = <[id := s0]> (documents t)) by done. clearbody t1.
    destruct (a_retire a) eqn:Hr; cbn [mbind option_bind orb].
    + set (s1 := retire s0 true seq).
      pose proof (set_document_index t1 id s1 s0 H1) as Hi.
      destruct (set_current_spec (set_document t1 id s1) (recordAddressKey (d_create (st_record s1)))
        (fun current => if true && bool_decide (current = Some id) then None else current))
        as (t' & Ht' & Hd & Hidx & Hcur); [exact H2|].
      exists t', s1. split; [exact Ht'|]. split; [apply Hidx, Hi; [|done]; by rewrite Ht1, lookup_insert_eq|].
      split; [done|]. split; [by rewrite Hd; cbn; rewrite Ht1, insert_insert_eq|].
      intros k. rewrite Hcur. change (cur (set_document t1 id s1) k) with (cur t1 k).
      by rewrite H3.
    + destruct (set_current_spec t1 (recordAddressKey (d_create (st_record s0))) (fun _ => Some id))
        as (t' & Ht' & Hd & Hidx & Hcur); [exact H2|].
      exists t', s0. split; [exact Ht'|]. split; [by apply Hidx|].
      split; [done|]. split; [by rewrite Hd|]. intros k. rewrite Hcur. unfold key_of.
      by rewrite H3.
  - destruct (ok_existing _ _ _ Ha Hc) as [o Ho]. rewrite Ho. cbn [mbind option_bind].
    assert (Hcontent : exists t1 s1,
      match a_content a with
      | Some content =>
          Some (set_document t id (add_revision o content seq), Some (add_revision o content seq))
      | None => Some (t, Some o)
      end = Some (t1, Some s1) /\
      match a_content a with Some content => Some (add_revision o content seq) | None => Some o end = Some s1 /\
      d_create (st_record s1) = d_create (st_record o) /\ doc_index_ok t1 /\
      documents t1 = <[id := s1]> (documents t) /\ forall k, cur t1 k = cur t k).
    { destruct (a_content a) as [content|].
      - do 2 eexists. split; [done|]. split; [done|]. split; [done|]. split; [|done].
        by eapply set_document_index.
      - do 2 eexists. split; [done|]. split; [done|]. split; [done|]. split; [done|].
        split; [by rewrite insert_id|done]. }
    destruct Hcontent as (t1 & s1 & E1 & E2 & Hcr & Hok1 & Hd1 & Hcur1).
    assert (Hk1 : is_Some (documentAddresses t1 !! key_of s1)).
    { apply (di_known _ Hok1 id). by rewrite Hd1, lookup_insert_eq. }
    destruct (a_content a) as [content|]; cbn [mbind option_bind] in *; injection E1 as -> ->;
      clear E2;
      (destruct (a_retire a) eqn:Hr; cbn [mbind option_bind orb andb negb];
       [set (s2 := retire s1 false seq);
        destruct (set_current_spec (set_document t1 id s2) (recordAddressKey (d_create (st_record s2)))
          (fun current => if true && bool_decide (current = Some id) then None else current))
          as (t' & Ht' & Hd & Hidx & Hcur); [exact Hk1|];
        exists t', s2; split; [exact Ht'|]; split;
        [apply Hidx; eapply set_document_index; [done|by rewrite Hd1, lookup_insert_eq|done]|];
        split; [done|]; split; [by rewrite Hd; cbn; rewrite Hd1, insert_insert_eq|];
        intros k; rewrite Hcur; change (cur (set_document t1 id s2) k) with (cur t1 k); first [done|by rewrite Hcur1]
       |exists t1, s1; split; [done|]; split; [done|]; split; [done|]; split; [done|];
        intros k; try rewrite Hcur1; by case_decide]).
Qed.

(** ** The loop over the actions *)

Lemma action_get_elem id a actions : NoDup (actions.*1) -> (id, a) ∈ actions -> action_get id actions = Some a.
Proof.
  induction actions as [|[id' a'] l IH]; [by intros _ ?%elem_of_nil|]. cbn.
  intros [Hni Hnd]%NoDup_cons [[= -> ->]|Hin]%elem_of_cons; [by rewrite N.eqb_refl|].
  destruct (N.eqb_spec id id') as [->|]; [|by apply IH].
  destruct Hni. apply list_elem_of_fmap. by exists (id', a).
Qed.

Lemma action_get_Some id a actions : action_get id actions = Some a -> (id, a) ∈ actions.
Proof.
  induction actions as [|[id' a'] l IH]; [done|]. cbn.
  destruct (N.eqb_spec id id') as [->|]; [intros [= ->]; left|]. intros H. right. auto.
Qed.

Lemma action_get_None id actions : action_get id actions = None -> id ∉ actions.*1.
Proof.
  induction actions as [|[id' a'] l IH]; cbn; [by intros _ ?%elem_of_nil|].
  destruct (N.eqb_spec id id') as [->|]; [done|]. intros H [?|?]%elem_of_cons; [done|by apply IH].
Qed.

(** The key of the address an action concerns. *)
Definition action_key (t : DocumentTables) (id : N) (a : DocumentAction) : option string :=
  match a_create a with
  | Some c => Some (recordAddressKey c)
  | None => key_of <$> documents t !! id
  end.

Lemma action_key_after t id a seq s :
  action_ok id a (documents t !! id) -> doc_after a seq (documents t !! id) = Some s ->
  action_key t id a = Some (key_of s).
Proof.
  intros Hok. unfold doc_after, doc_content, action_key, key_of.
  destruct (a_create a) as [c|] eqn:Hc.
  - destruct (ok_create _ _ _ Hok c Hc) as (_ & _ & v & b & ->). cbn.
    destruct (a_retire a); by intros [= <-].
  - destruct (ok_existing _ _ _ Hok Hc) as [o Ho]. rewrite Ho. cbn.
    destruct (a_content a), (a_retire a); by intros [= <-].
Qed.

Definition cur_fold (t : DocumentTables) (key : string) (actions : Actions) (c : option N) : option N :=
  foldl (fun c '(id, a) => if decide (action_key t id a = Some key) then cur_step a id c else c) c actions.

Lemma applyDocumentActions_spec seq actions : forall t,
  NoDup (actions.*1) -> doc_index_ok t ->
  (forall id a, (id, a) ∈ actions -> action_ok id a (documents t !! id)) ->
  exists t', applyDocumentActions t actions seq = Some t' /\ doc_index_ok t' /\
    (forall i, documents t' !! i = match action_get i actions with
                                   | Some a => doc_after a seq (documents t !! i)
                                   | None => documents t !! i end) /\
    forall k, cur t' k = cur_fold t k actions (cur t k).
Proof.
  induction actions as [|[id a] l IH]; intros t Hnd Hok Hall; [by exists t|].
  cbn in Hnd. apply NoDup_cons in Hnd as [Hni Hnd].
  pose proof (Hall id a ltac:(left)) as Hact.
  destruct (apply_action_spec t id a seq Hok Hact) as (t1 & s & E1 & Hok1 & Hs & Hd1 & Hc1).
  assert (Hother : forall i, i ∈ l.*1 -> documents t1 !! i = documents t !! i).
  { intros i Hi. rewrite Hd1, lookup_insert_ne; [done|]. by intros <-. }
  destruct (IH t1 Hnd Hok1) as (t' & E & Hok' & Hd & Hc).
  { intros i x Hi. rewrite Hother; [by apply Hall; right|].
    apply list_elem_of_fmap. by exists (i, x). }
  exists t'. cbn [applyDocumentActions]. rewrite E1. cbn [mbind option_bind]. split; [done|].
  split; [done|]. split.
  - intros i. rewrite Hd. cbn. destruct (N.eqb_spec i id) as [->|Hne].
    + destruct (action_get id l) eqn:Hg.
      * apply action_get_Some in Hg. destruct Hni. apply list_elem_of_fmap. by eexists (id, _).
      * by rewrite Hd1, lookup_insert_eq, Hs.
    + assert (documents t1 !! i = documents t !! i) as -> by (by rewrite Hd1, lookup_insert_ne). done.
  - intros k. rewrite Hc. unfold cur_fold. cbn [foldl]. rewrite Hc1.
    rewrite (action_key_after t id a seq s Hact Hs).
    assert (Hext : forall c, foldl (fun c '(id, a) => if decide (action_key t1 id a = Some k)
                        then cur_step a id c else c) c l
                      = foldl (fun c '(id, a) => if decide (action_key t id a = Some k)
                        then cur_step a id c else c) c l).
    { clear -Hother. induction l as [|[i x] l IHl]; intros c; [done|]. cbn [foldl].
      assert (action_key t1 i x = action_key t i x) as ->
        by (unfold action_key; by rewrite Hother by (cbn; left)).
      apply IHl. intros j Hj. apply Hother. cbn. by right. }
    rewrite Hext. f_equal. destruct (decide (k = key_of s)) as [->|]; [by rewrite decide_True|].
    by rewrite decide_False by congruence.
Qed.

(** ** One live incarnation per address *)

Definition creates (t : DocumentTables) (key : string) (x : N * DocumentAction) : bool :=
  is_some (a_create x.2) && negb (a_retire x.2) && bool_decide (action_key t x.1 x.2 = Some key).

Definition retires (t : DocumentTables) (key : string) (x : N * DocumentAction) : bool :=
  a_retire x.2 && bool_decide (cur t key = Some x.1) && bool_decide (action_key t x.1 x.2 = Some key).

Definition live_before (t : DocumentTables) (key : string) : Z :=
  match cur t key with Some _ => 1 | None => 0 end.

Lemma check_action_counts t counts id a counts' key :
  check_action t counts id a = Ok counts' ->
  (default (live_before t key) (counts' !! key) = default (live_before t key) (counts !! key)
    + (if creates t key (id, a) then 1 else 0) - (if retires t key (id, a) then 1 else 0))%Z.
Proof.
  unfold check_action. intros H. inv_res.
  assert (Hkey : action_key t id a = Some (recordAddressKey v3)).
  { unfold action_key, key_of. destruct (a_create a); [by simplify_eq|].
    destruct (documents t !! id); by simplify_eq. }
  unfold creates, retires. cbn [fst snd]. rewrite Hkey.
  destruct (decide (recordAddressKey v3 = key)) as [<-|Hne].
  - rewrite !(bool_decide_true (Some _ = Some _)) by done. rewrite !andb_true_r.
    rewrite lookup_insert_eq. change (documentAddresses t !! recordAddressKey v3 ≫= ai_currentId)
      with (cur t (recordAddressKey v3)).
    unfold live_before. destruct (bool_decide (cur t _ = Some id)), (a_retire a), (is_some (a_create a)),
      (counts !! recordAddressKey v3), (cur t (recordAddressKey v3)); cbn; lia.
  - rewrite !(bool_decide_false (Some _ = Some key)) by congruence. rewrite !andb_false_r.
    rewrite lookup_insert_ne by done. lia.
Qed.

Lemma check_actions_counts t key actions : forall counts counts',
  check_actions t counts actions = Ok counts' ->
  (default (live_before t key) (counts' !! key) = default (live_before t key) (counts !! key)
    + Z.of_nat (length (filter (fun x => creates t key x = true) actions))
    - Z.of_nat (length (filter (fun x => retires t key x = true) actions)))%Z.
Proof.
  induction actions as [|[id a] l IH]; intros counts counts'; cbn [check_actions].
  { intros [= ->]. cbn. lia. }
  intros H. inv_res. rewrite (IH _ _ H), (check_action_counts _ _ _ _ _ key Hv), !filter_cons.
  destruct (creates t key (id, a)), (retires t key (id, a)); repeat case_decide; cbn [length];
    try done; lia.
Qed.

Lemma checkDocumentActions_counts t actions key :
  checkDocumentActions t actions = Ok tt ->
  (live_before t key + Z.of_nat (length (filter (fun x => creates t key x = true) actions))
    - Z.of_nat (length (filter (fun x => retires t key x = true) actions)) <= 1)%Z.
Proof.
  unfold checkDocumentActions. intros H. inv_res.
  pose proof (check_actions_counts t key actions _ _ Hv) as E. rewrite lookup_empty in E. cbn in E.
  apply bool_decide_eq_true in H. destruct (v !! key) as [n|] eqn:Hn; cbn in E.
  - specialize (H key n Hn). cbn in H. lia.
  - unfold live_before in *. destruct (cur t key); lia.
Qed.

(** The current incarnation of an address is the live one; there is at most one. *)
Definition doc_current_ok (t : DocumentTables) : Prop :=
  forall key id, cur t key = Some id <-> exists s, documents t !! id = Some s /\ key_of s = key /\ live s.

Lemma cur_fold_app t key l1 l2 c : cur_fold t key (l1 ++ l2) c = cur_fold t key l2 (cur_fold t key l1 c).
Proof. apply foldl_app. Qed.

(** The action retires [id] at the address. *)
Definition hits (t : DocumentTables) (key : string) (id : N) (x : N * DocumentAction) : bool :=
  a_retire x.2 && bool_decide (x.1 = id) && bool_decide (action_key t x.1 x.2 = Some key).

(** Without creations at the address, only the retirement of its incarnation matters. *)
Lemma cur_fold_no_create t key actions : forall c,
  filter (fun x => creates t key x = true) actions = [] ->
  cur_fold t key actions c =
  match c with
  | Some id => if existsb (hits t key id) actions then None else Some id
  | None => None
  end.
Proof.
  induction actions as [|[id a] l IH]; intros c; [by destruct c|].
  rewrite filter_cons. destruct (creates t key (id, a)) eqn:Hc; [by rewrite decide_True|].
  rewrite decide_False by done. intros Hf. unfold cur_fold. cbn [foldl].
  change (foldl _ ?c0 l) with (cur_fold t key l c0). rewrite IH by done.
  unfold creates in Hc. cbn [fst snd] in Hc. cbn [existsb].
  case_decide as Hk.
  - rewrite bool_decide_true, andb_true_r in Hc by done.
    unfold cur_step. rewrite Hc.
    destruct c as [i|]; [|by rewrite bool_decide_false, andb_false_r by done].
    unfold hits at 2. cbn [fst snd].
    rewrite (bool_decide_true (_ = Some key)), andb_true_r by done.
    destruct (decide (id = i)) as [->|Hne].
    + rewrite !bool_decide_true by done. rewrite andb_true_r. by destruct (a_retire a).
    + rewrite !bool_decide_false by congruence. by rewrite !andb_false_r.
  - destruct c as [i|]; [|done]. unfold hits at 2. cbn [fst snd].
    by rewrite (bool_decide_false (_ = Some key)), andb_false_r by done.
Qed.

Lemma filter_single {A} (P : A -> Prop) `{Hdec : forall x, Decision (P x)} (l : list A) x :
  filter P l = [x] -> exists l1 l2, l = l1 ++ x :: l2 /\ filter P l1 = [] /\ filter P l2 = [] /\ P x.
Proof.
  induction l as [|a l IH]; [done|]. rewrite filter_cons. case_decide as Ha.
  - intros [= -> Hl]. exists [], l. done.
  - intros H. destruct (IH H) as (l1 & l2 & -> & H1 & H2 & HP). exists (a :: l1), l2.
    by rewrite filter_cons_False.
Qed.

(** A creation makes its incarnation current, whatever the other actions are. *)
Lemma cur_fold_create t key actions x c :
  NoDup (actions.*1) -> filter (fun x => creates t key x = true) actions = [x] ->
  cur_fold t key actions c = Some x.1.
Proof.
  intros Hnd (l1 & l2 & -> & H1 & H2 & Hx)%filter_single.
  rewrite fmap_app in Hnd. cbn in Hnd. apply NoDup_app in Hnd as (_ & _ & [Hni _]%NoDup_cons).
  rewrite cur_fold_app. unfold cur_fold at 1. cbn [foldl]. destruct x as [id a].
  change (foldl _ ?c0 l2) with (cur_fold t key l2 c0). rewrite cur_fold_no_create by done.
  unfold creates in Hx. cbn [fst snd] in *. bool_to_prop. rewrite decide_True by done.
  assert (Hstep : forall c', cur_step a id c' = Some id).
  { intros c'. unfold cur_step. by rewrite H, H3. }
  rewrite Hstep. destruct (existsb _ l2) eqn:He; [|done].
  apply existsb_exists in He as ([i y] & Hi & Hh). unfold hits in Hh. cbn in Hh. bool_to_prop. subst.
  destruct Hni. apply list_elem_of_fmap. exists (id, y). split; [done|]. by apply list_elem_of_In.
Qed.

(** The retirements at an address are of its current incarnation, so at most one. *)
Lemma retires_at_most t key actions :
  NoDup (actions.*1) ->
  (Z.of_nat (length (filter (fun x => retires t key x = true) actions)) <= live_before t key)%Z.
Proof.
  intros Hnd. destruct (filter _ actions) as [|x [|y l]] eqn:E; cbn.
  - unfold live_before. by destruct (cur t key).
  - assert (Hx : x ∈ [x]) by left. rewrite <- E in Hx. apply list_elem_of_filter in Hx as [Hx _].
    unfold retires in Hx. bool_to_prop. unfold live_before. by rewrite H1.
  - exfalso. assert (Hs : x :: y :: l `sublist_of` actions) by (rewrite <- E; apply sublist_filter).
    assert (Hxy : x ∈ filter (fun x => retires t key x = true) actions /\
                  y ∈ filter (fun x => retires t key x = true) actions)
      by (rewrite E; split; [left|right; left]).
    destruct Hxy as [[Hx _]%list_elem_of_filter [Hy _]%list_elem_of_filter].
    unfold retires in Hx, Hy. bool_to_prop.
    assert (x.1 = y.1) as Heq by congruence.
    apply (fmap_sublist fst) in Hs. apply (sublist_NoDup _ _ Hnd) in Hs. cbn in Hs.
    apply NoDup_cons in Hs as [Hn _]. apply Hn. rewrite Heq. left.
Qed.

Section After.
Context (t t' : DocumentTables) (actions : Actions) (seq next : N).
Context (Hcur : doc_current_ok t) (Hnd : NoDup (actions.*1)).
Context (Hall : forall id a, (id, a) ∈ actions -> action_ok id a (documents t !! id)).
Context (Hcheck : checkDocumentActions t actions = Ok tt) (Hseq : (next <= seq)%N).
Context (Hinc : forall id o, documents t !! id = Some o -> incarnation_ok next id o).
Context (Hdocs : forall i, documents t' !! i = match action_get i actions with
                                       | Some a => doc_after a seq (documents t !! i)
                                       | None => documents t !! i end).

Lemma doc_after_is_Some id a : action_ok id a (documents t !! id) ->
  is_Some (doc_after a seq (documents t !! id)).
Proof.
  intros Ha. unfold doc_after, doc_content. destruct (a_create a) as [c|] eqn:Hc.
  - destruct (ok_create _ _ _ Ha c Hc) as (_ & _ & v & b & ->). by eexists.
  - destruct (ok_existing _ _ _ Ha Hc) as [o ->]. destruct (a_content a); by eexists.
Qed.

(** An incarnation live after the actions is created by them, or was live and is not
    retired. *)
Lemma live_after key id :
  (exists s, documents t' !! id = Some s /\ key_of s = key /\ live s) <->
  (exists a, (id, a) ∈ actions /\ creates t key (id, a) = true) \/
  (cur t key = Some id /\ ~ exists a, (id, a) ∈ actions /\ a_retire a = true).
Proof.
  rewrite Hdocs, (Hcur key id). destruct (action_get id actions) as [a|] eqn:Hg.
  - pose proof (action_get_Some _ _ _ Hg) as Hin.
    assert (Huniq : forall b, (id, b) ∈ actions -> b = a).
    { intros b Hb%(action_get_elem _ _ _ Hnd). congruence. }
    pose proof (Hall id a Hin) as Ha. destruct (doc_after_is_Some id a Ha) as [s Hs]. rewrite Hs.
    pose proof (action_key_after t id a seq s Ha Hs) as Hk.
    destruct (doc_after_ok next id a _ s seq Hseq Ha (Hinc id) Hs) as (_ & Hret & Hold).
    unfold creates. cbn [fst snd]. split.
    + intros (s' & [= <-] & Hkey & Hl). unfold live in Hl. rewrite Hret in Hl.
      destruct (a_retire a) eqn:Hr; [done|]. destruct (a_create a) as [c|] eqn:Hc.
      * left. exists a. rewrite Hc, Hr, Hk, Hkey. by rewrite bool_decide_true.
      * right. split.
        -- destruct (ok_existing _ _ _ Ha Hc) as [o Ho]. exists o. split; [done|].
           destruct (Hold o Ho) as [Hd _]. split; [|by apply (ok_live _ _ _ Ha)].
           unfold key_of in *. by rewrite <- Hd.
        -- intros (b & ->%Huniq & Hbr). congruence.
    + intros [(b & Hb & Hcr)|[(o & Ho & Hko & Hlo) Hnr]]; exists s; (split; [done|]).
      * apply Huniq in Hb as ->. bool_to_prop. unfold live. rewrite Hret.
        split; [congruence|by case_match].
      * destruct (Hold o Ho) as [Hd _]. unfold key_of in *. rewrite Hd. split; [done|].
        unfold live. rewrite Hret. destruct (a_retire a) eqn:Hr; [|done].
        destruct Hnr. by exists a.
  - apply action_get_None in Hg.
    assert (Hno : forall a, (id, a) ∉ actions).
    { intros a Ha. destruct Hg. apply list_elem_of_fmap. by exists (id, a). }
    split; [intros H; right; split; [done|]; intros (a & Ha & _); by apply (Hno a)|].
    intros [(a & Ha & _)|[H _]]; [by apply Hno in Ha|done].
Qed.

(** A retired live incarnation is retired at its address. *)
Lemma retire_hits key id a :
  cur t key = Some id -> (id, a) ∈ actions -> a_retire a = true -> hits t key id (id, a) = true.
Proof.
  intros Hc Ha Hr. unfold hits. cbn. rewrite Hr, bool_decide_true by done. cbn.
  apply bool_decide_eq_true. apply Hcur in Hc as (s & Hs & Hk & _).
  unfold action_key. destruct (a_create a) as [c|] eqn:Hcr.
  - destruct (ok_create _ _ _ (Hall id a Ha) c Hcr) as (_ & Hn & _). congruence.
  - rewrite Hs. cbn. by rewrite Hk.
Qed.

(** The checks leave at most one live incarnation per address, and it is the current one. *)
Lemma doc_current_after :
  (forall k, cur t' k = cur_fold t k actions (cur t k)) -> doc_current_ok t'.
Proof.
  intros Hfold key id. rewrite Hfold, live_after.
  pose proof (checkDocumentActions_counts t actions key Hcheck) as Hcount.
  pose proof (retires_at_most t key actions Hnd) as HR.
  destruct (filter (fun x => creates t key x = true) actions) as [|x [|y l]] eqn:HC;
    [| |cbn [length] in Hcount; lia].
  - rewrite cur_fold_no_create by done.
    assert (Hnone : ~ exists a, (id, a) ∈ actions /\ creates t key (id, a) = true).
    { intros (a & Ha & Hcr). assert ((id, a) ∈ filter (fun x => creates t key x = true) actions) as Hin
        by (by apply list_elem_of_filter). rewrite HC in Hin. by apply elem_of_nil in Hin. }
    destruct (cur t key) as [i|] eqn:Hci; [|naive_solver].
    destruct (existsb (hits t key i) actions) eqn:He.
    + apply existsb_exists in He as ([j b] & Hj%list_elem_of_In & Hh). unfold hits in Hh. cbn in Hh.
      bool_to_prop. subst. split; [done|]. intros [?|[[= ->] Hn]]; [done|]. destruct Hn. by exists b.
    + split; [|intros [?|[? _]]; done]. intros [= ->]. right. split; [done|].
      intros (a & Ha & Hr). apply not_true_iff_false in He. apply He, existsb_exists.
      exists (id, a). split; [by apply list_elem_of_In|]. by apply retire_hits.
  - rewrite (cur_fold_create t key actions x) by done.
    assert (Hx : x ∈ actions /\ creates t key x = true).
    { assert (x ∈ filter (fun x => creates t key x = true) actions) as Hin by (rewrite HC; left).
      by apply list_elem_of_filter in Hin as [? ?]. }
    split.
    + intros [= <-]. left. exists x.2. by destruct x.
    + intros [(a & Ha & Hcr)|[Hci Hn]].
      * assert ((id, a) ∈ filter (fun x => creates t key x = true) actions) as Hin
          by (by apply list_elem_of_filter). rewrite HC in Hin.
        by apply list_elem_of_singleton in Hin as <-.
      * exfalso. cbn [length] in Hcount. unfold live_before in Hcount. rewrite Hci in Hcount.
        destruct (filter (fun x => retires t key x = true) actions) as [|[j b] R] eqn:HRe;
          [cbn in Hcount; lia|].
        assert ((j, b) ∈ filter (fun x => retires t key x = true) actions) as Hin by (rewrite HRe; left).
        apply list_elem_of_filter in Hin as [Hrb Hin]. unfold retires in Hrb. cbn in Hrb. bool_to_prop.
        destruct Hn. exists b. split; [|done]. congruence.
Qed.
End After.

(** ** From the checks to the application *)

(** A creation carries its own ID and a base. *)
Definition actions_ok (actions : Actions) : Prop :=
  NoDup (actions.*1) /\
  forall id a, (id, a) ∈ actions -> forall c, a_create a = Some c ->
    dc_id c = id /\ exists version base, a_content a = Some {| dcn_version := version; dcn_content := CBase base |}.

Lemma action_set_keys id a actions :
  (action_set id a actions).*1 = actions.*1 ++ (if decide (id ∈ actions.*1) then [] else [id]).
Proof.
  induction actions as [|[id' a'] l IH]; cbn; [by rewrite decide_False by (by intros ?%elem_of_nil)|].
  destruct (N.eqb_spec id id') as [->|Hne]; cbn.
  - rewrite decide_True by left. by rewrite app_nil_r.
  - rewrite IH. f_equal. f_equal. apply decide_ext. rewrite elem_of_cons. naive_solver.
Qed.

Lemma action_set_elem id a actions x :
  NoDup (actions.*1) -> x ∈ action_set id a actions -> x = (id, a) \/ (x ∈ actions /\ x.1 <> id).
Proof.
  induction actions as [|[id' a'] l IH]; cbn.
  { intros _ ->%list_elem_of_singleton. by left. }
  intros [Hni Hnd]%NoDup_cons. destruct (N.eqb_spec id id') as [->|Hne].
  - intros [->|Hx]%elem_of_cons; [by left|]. right. split; [by right|].
    intros He. destruct Hni. rewrite <- He. by apply list_elem_of_fmap_2.
  - intros [->|Hx]%elem_of_cons; [right; split; [left|by apply not_eq_sym]|].
    destruct (IH Hnd Hx) as [?|[? ?]]; [by left|]. right. split; [by right|done].
Qed.

Lemma action_set_ok id a actions :
  actions_ok actions ->
  (forall c, a_create a = Some c -> dc_id c = id /\
     exists version base, a_content a = Some {| dcn_version := version; dcn_content := CBase base |}) ->
  actions_ok (action_set id a actions).
Proof.
  intros [Hnd Hall] Ha. split.
  - rewrite action_set_keys. case_decide; [by rewrite app_nil_r|].
    apply NoDup_app. split; [done|]. split; [|apply NoDup_singleton].
    by intros x Hx ->%list_elem_of_singleton.
  - intros i x Hx. destruct (action_set_elem _ _ _ _ Hnd Hx) as [[= -> ->]|[Hin _]]; [done|].
    by apply (Hall i).
Qed.

Lemma action_default id actions :
  actions_ok actions ->
  forall c, a_create (default new_action (action_get id actions)) = Some c ->
    dc_id c = id /\ exists version base,
      a_content (default new_action (action_get id actions))
      = Some {| dcn_version := version; dcn_content := CBase base |}.
Proof.
  intros [_ Hall] c. destruct (action_get id actions) as [a|] eqn:Hg; [|done]. cbn.
  apply (Hall id a). by apply action_get_Some.
Qed.

Lemma prepare_action_ok actions w actions' :
  actions_ok actions -> prepare_action actions w = Ok actions' -> actions_ok actions'.
Proof.
  intros Hok. destruct w as [v|v|v|v|record version base|record source|id content|id]; cbn;
    try (by intros [= <-]).
  - intros H. inv_res. apply action_set_ok; [done|]. cbn. intros c [= <-]. split; [done|]. by eexists _, _.
  - intros H. inv_res. apply action_set_ok; [done|]. cbn. intros c Hc.
    destruct (action_default id actions Hok c Hc) as (_ & v0 & b & Hcon). rewrite Hcon in Hv. done.
  - intros H. inv_res. apply action_set_ok; [done|]. cbn. by apply action_default.
Qed.

Lemma prepareDocumentActions_ok writes actions :
  prepareDocumentActions writes = Ok actions -> actions_ok actions.
Proof.
  unfold prepareDocumentActions.
  assert (H0 : actions_ok []) by (split; [constructor|by intros ?? ?%elem_of_nil]).
  revert H0. generalize (@nil (N * DocumentAction)) as l.
  induction writes as [|w ws IH]; intros l Hl; cbn; [by intros [= <-]|].
  intros H. inv_res. eapply IH; [|exact H]. by eapply prepare_action_ok.
Qed.

Lemma check_action_ok t counts id a counts' :
  check_action t counts id a = Ok counts' ->
  (forall c, a_create a = Some c -> dc_id c = id /\
     exists version base, a_content a = Some {| dcn_version := version; dcn_content := CBase base |}) ->
  action_ok id a (documents t !! id).
Proof.
  unfold check_action. intros H Hc. inv_res. clear Hv3. split.
  - intros c Hcr. destruct (Hc c Hcr) as [H1 H2]. split; [done|]. split; [|done].
    rewrite Hcr in Hv0. by destruct (documents t !! id).
  - intros Hcr. rewrite Hcr in Hv. destruct (documents t !! id); [by eexists|done].
  - intros s Hs. rewrite Hs in Hv1. cbn in Hv1. unfold live. by destruct (d_retiredAt (st_record s)).
  - intros version ops s Hcon Hs. rewrite Hcon, Hs in Hv2. cbn in Hv2. inv_res. bool_to_prop.
    eauto.
Qed.

Lemma check_actions_ok t actions : forall counts counts',
  check_actions t counts actions = Ok counts' -> actions_ok actions ->
  forall id a, (id, a) ∈ actions -> action_ok id a (documents t !! id).
Proof.
  intros counts counts' H [_ Hall]. revert counts counts' H.
  induction actions as [|[i x] l IH]; intros counts counts'; [by intros _ ?? ?%elem_of_nil|].
  cbn [check_actions]. intros H. inv_res. intros id a [[= -> ->]|Hin]%elem_of_cons.
  - eapply check_action_ok; [exact Hv|]. apply (Hall i x). left.
  - eapply IH; [|exact H|exact Hin]. intros j y Hj. apply (Hall j y). by right.
Qed.

(** The invariant of the document tables, before the commit [next]. *)
Record doc_inv (next : N) (t : DocumentTables) : Prop := {
  doc_index : doc_index_ok t;
  doc_current : doc_current_ok t;
  doc_incarnations : forall id o, documents t !! id = Some o -> incarnation_ok next id o;
}.

Lemma incarnation_ok_mono next next' id o :
  (next <= next')%N -> incarnation_ok next id o -> incarnation_ok next' id o.
Proof.
  intros Hle [H1 H2 H3 H4 H5 H6 H7 H8]. split; try done.
  - lia.
  - intros r Hr. specialize (H3 r Hr). lia.
  - eapply Forall_impl; [exact H5|]. cbn. lia.
Qed.

(** Checked actions apply, and keep the invariant. *)
Lemma checked_actions_apply next t writes actions seq :
  doc_inv next t -> (next <= seq)%N ->
  prepareDocumentActions writes = Ok actions -> checkDocumentActions t actions = Ok tt ->
  exists t', applyDocumentActions t actions seq = Some t' /\ doc_inv (seq + 1) t' /\
    (forall i, documents t' !! i = match action_get i actions with
                                   | Some a => doc_after a seq (documents t !! i)
                                   | None => documents t !! i end) /\
    forall id a, (id, a) ∈ actions -> action_ok id a (documents t !! id).
Proof.
  intros [Hidx Hcur Hinc] Hseq Hprep Hcheck.
  pose proof (prepareDocumentActions_ok _ _ Hprep) as Hok. destruct Hok as [Hnd Hcr].
  assert (Hall : forall id a, (id, a) ∈ actions -> action_ok id a (documents t !! id)).
  { pose proof Hcheck as H. unfold checkDocumentActions in H. inv_res.
    by eapply check_actions_ok. }
  destruct (applyDocumentActions_spec seq actions t Hnd Hidx Hall) as (t' & E & Hidx' & Hdocs & Hfold).
  exists t'. split; [done|]. split; [|done]. split; [done| |].
  - by eapply doc_current_after.
  - intros id o. rewrite Hdocs. destruct (action_get id actions) as [a|] eqn:Hg.
    + intros Ho. pose proof (Hall id a (action_get_Some _ _ _ Hg)) as Ha.
      by destruct (doc_after_ok next id a _ o seq Hseq Ha (Hinc id) Ho) as (H & _).
    + intros Ho. eapply incarnation_ok_mono; [|by apply Hinc]. lia.
Qed.
