(* ===== verification/TableFacts.v ===== *)
(** The record tables of [MemoryStorage]: every index of conversations, entries, tasks and
    submissions lists, in ascending order, exactly the records it stands for. *)
From S2P Require Import Prelude JsString Json StorageTypes SortedIds MemoryCommit.
From Stdlib Require Import Sorted.

(** ** Conversations *)

Definition owned_by (t : ConversationTables) (f : OwnerLink -> N) (k i : N) : Prop :=
  exists c o, conversations t !! i = Some c /\ c_owner c = Some o /\ f o = k.

Record conversation_inv (t : ConversationTables) : Prop := {
  cv_id : forall i c, conversations t !! i = Some c -> c_id c = i;
  cv_ids : indexes (conversationIds t) (fun i => is_Some (conversations t !! i));
  cv_conversation : map_indexes (conversationIdsByOwnerConversation t) (owned_by t ol_conversationId);
  cv_task : map_indexes (conversationIdsByOwnerTask t) (owned_by t ol_taskId);
}.

Lemma insert_fresh_exists {A} (m : gmap N A) (id : N) (v : A) (P : A -> Prop) i :
  m !! id = None ->
  (exists x, <[id := v]> m !! i = Some x /\ P x) <->
  (i = id /\ P v) \/ (exists x, m !! i = Some x /\ P x).
Proof.
  intros Hid. destruct (decide (id = i)) as [<-|Hne].
  - rewrite lookup_insert_eq, Hid. naive_solver.
  - rewrite lookup_insert_ne by done. naive_solver.
Qed.

Lemma insert_fresh_is_Some {A} (m : gmap N A) (id : N) (v : A) i :
  is_Some (<[id := v]> m !! i) <-> i = id \/ is_Some (m !! i).
Proof.
  destruct (decide (id = i)) as [<-|Hne].
  - rewrite lookup_insert_eq. split; [by left|by eexists].
  - rewrite lookup_insert_ne by done. naive_solver.
Qed.

Lemma apply_conversation_inv v t :
  conversation_inv t -> conversations t !! c_id v = None -> conversation_inv (apply_conversation v t).
Proof.
  intros [Hid Hids Hc Ht] Hnone.
  assert (Hown : forall f m, map_indexes m (owned_by t f) ->
    map_indexes (match c_owner v with Some o => insertMapId m (f o) (c_id v) | None => m end)
      (owned_by (apply_conversation v t) f)).
  { intros f m Hm.
    assert (Heq : forall k i, owned_by (apply_conversation v t) f k i <->
              (i = c_id v /\ exists o, c_owner v = Some o /\ f o = k) \/ owned_by t f k i).
    { intros k i. unfold owned_by. cbn.
      pose proof (insert_fresh_exists (conversations t) (c_id v) v
        (fun c => exists o, c_owner c = Some o /\ f o = k) i Hnone) as H. naive_solver. }
    destruct (c_owner v) as [o|] eqn:Ho.
    - eapply map_indexes_ext; [apply insertMapId_indexes; [exact Hm|]|].
      + intros (c & o' & Hlk & _). congruence.
      + intros k i. rewrite Heq. naive_solver.
    - eapply map_indexes_ext; [exact Hm|]. intros k i. rewrite Heq. naive_solver. }
  split; cbn.
  - intros i c [[<- <-]|[_ ?]]%lookup_insert_Some; [done|by apply Hid].
  - eapply indexes_ext; [apply insertSorted_indexes; [exact Hids|]|].
    + intros [x Hx]. congruence.
    + intros i. by rewrite insert_fresh_is_Some.
  - exact (Hown ol_conversationId _ Hc).
  - exact (Hown ol_taskId _ Ht).
Qed.

(** ** Entries *)

Record entry_inv (next : N) (t : EntryTables) : Prop := {
  en_id : forall i e, entries t !! i = Some e -> e_id e = i;
  en_ids : map_indexes (entryIds t)
    (fun k i => exists e, entries t !! i = Some e /\ e_conversationId e = k);
  en_heads : map_indexes (headEntryIds t)
    (fun k i => exists e, entries t !! i = Some e /\ e_conversationId e = k /\ is_Some (e_head e));
  en_seqs : forall i, is_Some (entries t !! i) <-> is_Some (entryCommitSeqs t !! i);
  en_seq : forall i s, entryCommitSeqs t !! i = Some s -> (s < next)%N;
}.

Lemma apply_entry_inv next v seq t :
  entry_inv next t -> entries t !! e_id v = None -> (next <= seq + 1)%N ->
  entry_inv (seq + 1) (apply_entry v seq t).
Proof.
  intros [Hid Hids Hh Hs Hseq] Hnone Hle. split; cbn.
  - intros i e [[<- <-]|[_ ?]]%lookup_insert_Some; [done|by apply Hid].
  - eapply map_indexes_ext; [apply insertMapId_indexes; [exact Hids|]|].
    + intros (e & He & _). congruence.
    + intros k i. cbn. rewrite insert_fresh_exists by done. naive_solver.
  - destruct (e_head v) as [h|] eqn:Hhd.
    + eapply map_indexes_ext; [apply insertMapId_indexes; [exact Hh|]|].
      * intros (e & He & _). congruence.
      * intros k i. cbn. rewrite insert_fresh_exists by done. rewrite Hhd. naive_solver.
    + eapply map_indexes_ext; [exact Hh|]. intros k i. cbn. rewrite insert_fresh_exists by done.
      rewrite Hhd. split; [by right|]. intros [(_ & _ & [? [=]])|?]; done.
  - intros i. by rewrite !insert_fresh_is_Some, Hs.
  - intros i s [[<- <-]|[_ H]]%lookup_insert_Some; [lia|]. specialize (Hseq i s H). lia.
Qed.

(** ** Tasks *)

Record task_inv (t : TaskTables) : Prop := {
  tk_id : forall i r, tasks t !! i = Some r -> t_id r = i;
  tk_ids : indexes (taskIds t) (fun i => is_Some (tasks t !! i));
  tk_status : forall s, indexes (taskIdsByStatus t s)
    (fun i => exists r, tasks t !! i = Some r /\ t_status r = s);
}.

(** Moving an ID between status lists, or adding it to one. *)
Section Status.
Context {S : Type} `{EqDecision S} {R : Type} (status : R -> S).

Definition status_lists (m : gmap N R) (byStatus : S -> list N) : Prop :=
  forall s, indexes (byStatus s) (fun i => exists r, m !! i = Some r /\ status r = s).

Definition move_status (m : gmap N R) (byStatus : S -> list N) (id : N) (v : R) : S -> list N :=
  match m !! id with
  | None => <[status v := insertSorted (byStatus (status v)) id]> byStatus
  | Some previous =>
      if decide (status previous = status v) then byStatus
      else
        let byStatus' := <[status previous := removeSorted (byStatus (status previous)) id]> byStatus in
        <[status v := insertSorted (byStatus' (status v)) id]> byStatus'
  end.

Lemma move_status_lists m byStatus id v :
  status_lists m byStatus -> status_lists (<[id := v]> m) (move_status m byStatus id v).
Proof.
  intros Hb s.
  assert (Hext : forall i, (exists r, <[id := v]> m !! i = Some r /\ status r = s) <->
    (i = id /\ status v = s) \/ (i <> id /\ exists r, m !! i = Some r /\ status r = s)).
  { intros i. destruct (decide (id = i)) as [<-|Hne].
    - rewrite lookup_insert_eq. naive_solver.
    - rewrite lookup_insert_ne by done. naive_solver. }
  unfold move_status. destruct (m !! id) as [p|] eqn:Hid.
  - case_decide as Hsame.
    + eapply indexes_ext; [apply Hb|]. intros i. rewrite Hext. split.
      * intros (r & Hr & Hs). destruct (decide (i = id)) as [->|]; [left|right; eauto].
        split; [done|]. congruence.
      * intros [[-> Hs]|[_ ?]]; [|done]. exists p. split; [done|]. congruence.
    + cbn zeta. destruct (decide (s = status v)) as [->|Hv].
      * rewrite fn_lookup_insert, fn_lookup_insert_ne by done. eapply indexes_ext; [apply insertSorted_indexes; [apply Hb|]|].
        -- intros (r & Hr & Hs). congruence.
        -- intros i. rewrite Hext. split; [|naive_solver].
           intros [->|(r & Hr & Hs)]; [by left|]. right. split; [congruence|eauto].
      * rewrite fn_lookup_insert_ne by done.
        destruct (decide (s = status p)) as [->|Hp].
        -- rewrite fn_lookup_insert. eapply indexes_ext; [apply removeSorted_indexes, Hb|].
           intros i. rewrite Hext. naive_solver.
        -- rewrite fn_lookup_insert_ne by done. eapply indexes_ext; [apply Hb|].
           intros i. rewrite Hext. split; [|naive_solver].
           intros (r & Hr & Hs). right. split; [congruence|eauto].
  - destruct (decide (s = status v)) as [->|Hv].
    + rewrite fn_lookup_insert. eapply indexes_ext; [apply insertSorted_indexes; [apply Hb|]|].
      * intros (r & Hr & Hs). congruence.
      * intros i. rewrite Hext. split; [|naive_solver].
        intros [->|(r & Hr & Hs)]; [by left|]. right. split; [congruence|eauto].
    + rewrite fn_lookup_insert_ne by done. eapply indexes_ext; [apply Hb|].
      intros i. rewrite Hext. split; [|naive_solver].
      intros (r & Hr & Hs). right. split; [congruence|eauto].
Qed.
End Status.

(** The ID list of a table whose records may be replaced. *)
Lemma replace_ids {R} (m : gmap N R) ids id (v : R) :
  indexes ids (fun i => is_Some (m !! i)) ->
  indexes (match m !! id with None => insertSorted ids id | Some _ => ids end)
    (fun i => is_Some (<[id := v]> m !! i)).
Proof.
  intros Hids. destruct (m !! id) eqn:Hid.
  - eapply indexes_ext; [exact Hids|]. intros i. rewrite insert_fresh_is_Some.
    split; [by right|]. intros [->|?]; [by rewrite Hid|done].
  - eapply indexes_ext; [apply insertSorted_indexes; [exact Hids|]|].
    + intros [x Hx]. congruence.
    + intros i. by rewrite insert_fresh_is_Some.
Qed.

Lemma apply_task_inv v t : task_inv t -> task_inv (apply_task v t).
Proof.
  intros [Hid Hids Hst]. split; cbn.
  - intros i r [[<- <-]|[_ ?]]%lookup_insert_Some; [done|by apply Hid].
  - by apply replace_ids.
  - exact (move_status_lists t_status (tasks t) (taskIdsByStatus t) (t_id v) v Hst).
Qed.

(** ** Submissions *)

Record submission_inv (t : SubmissionTables) : Prop := {
  sb_id : forall i r, submissions t !! i = Some r -> s_id r = i;
  sb_ids : indexes (submissionIds t) (fun i => is_Some (submissions t !! i));
  sb_status : forall s, indexes (submissionIdsByStatus t s)
    (fun i => exists r, submissions t !! i = Some r /\ s_status r = s);
  sb_request : forall c requests request i,
    submissionIdsByRequest t !! c = Some requests -> requests !! request = Some i ->
    exists r, submissions t !! i = Some r /\ s_conversationId r = c /\ s_requestId r = Some request;
}.

(** After its previous request is dropped, the index has no entry for the submission. *)
Lemma drop_request_spec t previous id c requests request i :
  submission_inv t -> submissions t !! id = previous ->
  drop_request previous id (submissionIdsByRequest t) !! c = Some requests ->
  requests !! request = Some i ->
  i <> id /\ exists r, submissions t !! i = Some r /\ s_conversationId r = c /\ s_requestId r = Some request.
Proof.
  intros Hinv Hp Hc Hr.
  assert (Hold : forall rs, submissionIdsByRequest t !! c = Some rs -> rs !! request = Some i ->
            exists r, submissions t !! i = Some r /\ s_conversationId r = c /\ s_requestId r = Some request).
  { intros rs H1 H2. by eapply sb_request. }
  unfold drop_request in Hc. destruct previous as [p|].
  2: { destruct (Hold _ Hc Hr) as (r & E & ?). split; [congruence|eauto]. }
  destruct (s_requestId p) as [q|] eqn:Hq.
  2: { destruct (Hold _ Hc Hr) as (r & E & ? & ?). split; [|eauto]. intros ->. congruence. }
  destruct (submissionIdsByRequest t !! s_conversationId p) as [rs|] eqn:Hrs.
  2: { destruct (Hold _ Hc Hr) as (r & E & ? & ?). split; [|eauto]. intros ->. congruence. }
  case_decide as Hqi.
  - assert (Hcases : (c <> s_conversationId p /\ submissionIdsByRequest t !! c = Some requests) \/
                     (c = s_conversationId p /\ requests = delete q rs)).
    { case_decide; [apply lookup_delete_Some in Hc|apply lookup_insert_Some in Hc]; naive_solver. }
    destruct Hcases as [[Hne Hc']|[-> ->]].
    + destruct (Hold _ Hc' Hr) as (r & E & ? & ?). split; [|eauto]. intros ->. congruence.
    + apply lookup_delete_Some in Hr as [Hne Hr].
      destruct (Hold _ Hrs Hr) as (r & E & ? & Hrq). split; [|eauto].
      intros ->. rewrite Hp in E. injection E as <-. congruence.
  - destruct (Hold _ Hc Hr) as (r & E & E2 & E3). split; [|eauto]. intros ->.
    rewrite Hp in E. injection E as <-. rewrite Hq in E3. injection E3 as <-. subst c.
    rewrite Hrs in Hc. by injection Hc as <-.
Qed.

Lemma apply_submission_inv v t : submission_inv t -> submission_inv (apply_submission v t).
Proof.
  intros Hinv. pose proof Hinv as [Hid Hids Hst Hreq]. split; cbn.
  - intros i r [[<- <-]|[_ ?]]%lookup_insert_Some; [done|by apply Hid].
  - by apply replace_ids.
  - exact (move_status_lists s_status (submissions t) (submissionIdsByStatus t) (s_id v) v Hst).
  - intros c requests request i Hc Hr.
    assert (Hdrop : forall rs, drop_request (submissions t !! s_id v) (s_id v) (submissionIdsByRequest t) !! c
              = Some rs -> rs !! request = Some i ->
              exists r, <[s_id v := v]> (submissions t) !! i = Some r /\
                        s_conversationId r = c /\ s_requestId r = Some request).
    { intros rs H1 H2. destruct (drop_request_spec t _ _ c rs request i Hinv eq_refl H1 H2) as (Hne & r & E & ?).
      exists r. by rewrite lookup_insert_ne. }
    unfold add_request in Hc. destruct (s_requestId v) as [q|] eqn:Hq; [|by eapply Hdrop].
    apply lookup_insert_Some in Hc as [[<- <-]|[_ Hc]]; [|by eapply Hdrop].
    apply lookup_insert_Some in Hr as [[<- <-]|[_ Hr]].
    + exists v. by rewrite lookup_insert_eq.
    + destruct (drop_request _ _ _ !! s_conversationId v) as [rs|] eqn:E; [|cbn in Hr; by rewrite lookup_empty in Hr].
      by eapply Hdrop.
Qed.

(** A written request finds its submission. *)
Lemma apply_submission_request v t request :
  s_requestId v = Some request ->
  submissionIdsByRequest (apply_submission v t) !! s_conversationId v ≫= (fun m => m !! request) = Some (s_id v).
Proof.
  intros Hq. cbn. unfold add_request. rewrite Hq, lookup_insert_eq. cbn. apply lookup_insert_eq.
Qed.
