(* ===== verification/MemoryFacts.v ===== *)
(** The invariant of [MemoryStorage] and what its commits guarantee: every reachable
    storage keeps its indexes consistent, an accepted batch always applies, IDs belong to
    one table, and stored conversations, entries and document histories never change. *)
From S2P Require Import Prelude JsString Json DeltaOp DeltaApply StorageTypes SortedIds MemoryCommit.
From S2P Require Import DocumentFacts TableFacts.

(** ** The invariant *)

(** The table holds a record with the ID. *)
Definition in_table (st : State) (table : TableName) (id : N) : Prop :=
  match table with
  | TConversation => is_Some (conversations (conversation_tables st) !! id)
  | TEntry => is_Some (entries (entry_tables st) !! id)
  | TTask => is_Some (tasks (task_tables st) !! id)
  | TSubmission => is_Some (submissions (submission_tables st) !! id)
  | TDocument => is_Some (documents (document_tables st) !! id)
  end.

(** [seq] bounds the commits of entries, [dseq] those of documents: they differ while a
    commit is being applied. *)
Record state_inv (seq dseq next : N) (st : State) : Prop := {
  si_conversations : conversation_inv (conversation_tables st);
  si_entries : entry_inv seq (entry_tables st);
  si_tasks : task_inv (task_tables st);
  si_submissions : submission_inv (submission_tables st);
  si_documents : doc_inv dseq (document_tables st);
  si_types : forall id table, recordTypes st !! id = Some table <-> in_table st table id;
  si_next : forall id table, recordTypes st !! id = Some table -> (id < next)%N;
}.

Definition storage_inv (m : MemoryStorage) : Prop := state_inv (nextSeq m) (nextSeq m) (nextId m) (state m).

Lemma not_in_table seq dseq next st id table :
  state_inv seq dseq next st -> recordTypes st !! id = None -> ~ in_table st table id.
Proof. intros H Hn Hin. apply (si_types _ _ _ _ H) in Hin. congruence. Qed.

Lemma empty_inv : storage_inv memory_new.
Proof.
  assert (Hi : indexes [] (fun _ => False)) by (apply indexes_nil; tauto).
  split; cbn.
  - split; cbn; [done|by apply indexes_nil; intros i [x Hx]; rewrite lookup_empty in Hx|..].
    all: intros k; rewrite lookup_empty; apply indexes_nil; intros i (c & o & Hc & _); cbn in Hc;
      by rewrite lookup_empty in Hc.
  - split; cbn; try (by intros *; rewrite !lookup_empty).
    all: intros k; rewrite lookup_empty; apply indexes_nil; intros i (c & Hc & _); by rewrite lookup_empty in Hc.
  - split; cbn; [done|by apply indexes_nil; intros i [x Hx]; rewrite lookup_empty in Hx|].
    intros s. apply indexes_nil. intros i (c & Hc & _). by rewrite lookup_empty in Hc.
  - split; cbn; [done|by apply indexes_nil; intros i [x Hx]; rewrite lookup_empty in Hx|..].
    + intros s. apply indexes_nil. intros i (c & Hc & _). by rewrite lookup_empty in Hc.
    + intros *. by rewrite lookup_empty.
  - split; [split; cbn|..].
    + intros key. rewrite lookup_empty. apply indexes_nil. intros i (c & Hc & _). by rewrite lookup_empty in Hc.
    + intros key. rewrite lookup_empty. apply indexes_nil. intros i (c & Hc & _). by rewrite lookup_empty in Hc.
    + intros *. by rewrite lookup_empty.
    + intros key id. unfold cur. cbn. rewrite lookup_empty. split; [done|].
      intros (c & Hc & _). by rewrite lookup_empty in Hc.
    + intros *. cbn. by rewrite lookup_empty.
  - intros id table. rewrite lookup_empty. split; [done|].
    by destruct table; cbn; intros [x Hx]; rewrite lookup_empty in Hx.
  - intros *. by rewrite lookup_empty.
Qed.

(** ** Claims *)

Lemma check_claim_spec types claimed id table u :
  check_claim types claimed id table = Ok u ->
  (if once table then types !! id = None /\ claimed !! id = None
   else (forall e, types !! id = Some e -> e = table) /\ (forall e, claimed !! id = Some e -> e = table)).
Proof.
  unfold check_claim. destruct (once table).
  - intros H. inv_res. bool_to_prop. by destruct (types !! id).
  - intros H. inv_res. split; intros e He; rewrite He in *.
    + apply check_Ok in Hv. by bool_to_prop.
    + apply check_Ok in H. by bool_to_prop.
Qed.

(** One table write on a state whose record types agree with the claims so far. *)
Lemma apply_write_inv seq dseq next st w :
  state_inv (seq + 1) dseq next st ->
  (forall id table, claim w = Some (id, table) -> table <> TDocument ->
     if once table then recordTypes st !! id = None
     else forall e, recordTypes st !! id = Some e -> e = table) ->
  let '(st', next') := apply_write seq (st, next) w in
  state_inv (seq + 1) dseq next' st' /\ (next <= next')%N /\
  document_tables st' = document_tables st /\
  (forall id table, recordTypes st' !! id = Some table <->
     (claim w = Some (id, table) /\ table <> TDocument) \/ recordTypes st !! id = Some table).
Proof.
  intros Hinv Hc. pose proof Hinv as [H1 H2 H3 H4 H5 H6 H7].
  assert (Hids : forall id table next', (forall e, recordTypes st !! id = Some e -> e = table) ->
    (next' = N.max next (id + 1))%N ->
    (forall i t, <[id := table]> (recordTypes st) !! i = Some t -> (i < next')%N) /\
    (next <= next')%N /\
    (forall i t, <[id := table]> (recordTypes st) !! i = Some t <->
       (Some (id, table) = Some (i, t)) \/ recordTypes st !! i = Some t)).
  { intros id table next' He ->. split; [|split; [lia|]].
    - intros i t [[<- <-]|[_ Hi]]%lookup_insert_Some; [lia|]. apply H7 in Hi. lia.
    - intros i t. destruct (decide (id = i)) as [<-|Hne].
      + rewrite lookup_insert_eq. split; [intros [= ->]; by left|].
        intros [[= ->]|Hi]; [done|]. by rewrite (He t Hi).
      + rewrite lookup_insert_ne by done. split; [by right|]. intros [[= ? ?]|?]; done. }
  assert (Hfresh : forall id table, recordTypes st !! id = None ->
    forall e, recordTypes st !! id = Some e -> e = table) by congruence.
  destruct w as [v|v|v|v|record version base|record source|id content|id]; cbn [apply_write claim] in *;
    try (by split; [done|]; split; [lia|]; split; [done|]; intros i t;
         split; [by right|]; intros [[[= ? ?] ?]|?]; congruence).
  - pose proof (Hc _ _ eq_refl ltac:(done)) as Hn. cbn in Hn.
    destruct (Hids (c_id v) TConversation _ (Hfresh _ _ Hn) eq_refl) as (Hlt & Hle & Ht).
    split; [|split; [done|split; [done|]]].
    2: { cbn. intros i t. rewrite Ht. naive_solver. }
    split; cbn; try done.
    + apply apply_conversation_inv; [done|].
      pose proof (not_in_table _ _ _ _ _ TConversation Hinv Hn) as Hno. cbn in Hno.
      by apply eq_None_not_Some.
    + intros i t. rewrite Ht, H6. destruct t; cbn; rewrite ?insert_fresh_is_Some; naive_solver.
  - pose proof (Hc _ _ eq_refl ltac:(done)) as Hn. cbn in Hn.
    destruct (Hids (e_id v) TEntry _ (Hfresh _ _ Hn) eq_refl) as (Hlt & Hle & Ht).
    split; [|split; [done|split; [done|]]].
    2: { cbn. intros i t. rewrite Ht. naive_solver. }
    split; cbn; try done.
    + eapply apply_entry_inv; [done| |lia].
      pose proof (not_in_table _ _ _ _ _ TEntry Hinv Hn) as Hno. cbn in Hno.
      by apply eq_None_not_Some.
    + intros i t. rewrite Ht, H6. destruct t; cbn; rewrite ?insert_fresh_is_Some; naive_solver.
  - pose proof (Hc _ _ eq_refl ltac:(done)) as Hn. cbn in Hn.
    destruct (Hids (t_id v) TTask _ Hn eq_refl) as (Hlt & Hle & Ht).
    split; [|split; [done|split; [done|]]].
    2: { cbn. intros i t. rewrite Ht. naive_solver. }
    split; cbn; try done.
    + by apply apply_task_inv.
    + intros i t. rewrite Ht, H6. destruct t; cbn; rewrite ?insert_fresh_is_Some; naive_solver.
  - pose proof (Hc _ _ eq_refl ltac:(done)) as Hn. cbn in Hn.
    destruct (Hids (s_id v) TSubmission _ Hn eq_refl) as (Hlt & Hle & Ht).
    split; [|split; [done|split; [done|]]].
    2: { cbn. intros i t. rewrite Ht. naive_solver. }
    split; cbn; try done.
    + by apply apply_submission_inv.
    + intros i t. rewrite Ht, H6. destruct t; cbn; rewrite ?insert_fresh_is_Some; naive_solver.
Qed.

(** What the checks of a batch say of its claims, given the claims of earlier writes. *)
Lemma checkGlobalIds_cons types claimed w ws :
  checkGlobalIds types claimed (w :: ws) = Ok tt ->
  exists claimed', checkGlobalIds types claimed' ws = Ok tt /\
    (forall id table, claimed' !! id = Some table <->
       claim w = Some (id, table) \/ claimed !! id = Some table) /\
    forall id table, claim w = Some (id, table) ->
      (if once table then types !! id = None /\ claimed !! id = None
       else (forall e, types !! id = Some e -> e = table) /\ (forall e, claimed !! id = Some e -> e = table)).
Proof.
  cbn [checkGlobalIds]. destruct (claim w) as [[id table]|].
  - intros H. inv_res. apply check_claim_spec in Hv. exists (<[id := table]> claimed).
    split; [done|]. split; [|by intros ?? [= <- <-]].
    intros i t. destruct (decide (id = i)) as [<-|Hne].
    + rewrite lookup_insert_eq. split; [intros [= ->]; by left|]. intros [[= ->]|Hc]; [done|].
      destruct (once table); [destruct Hv; congruence|]. destruct Hv as [_ Hv]. by rewrite (Hv t Hc).
    + rewrite lookup_insert_ne by done. split; [by right|]. intros [[= ? ?]|?]; done.
  - intros H. exists claimed. split; [done|]. split; [|done]. intros i t. naive_solver.
Qed.

(** The claims of a list of writes. *)
Definition claims (ws : list StorageWrite) : list (N * TableName) := omap claim ws.

Lemma apply_writes_inv seq dseq types ws : forall claimed st next,
  checkGlobalIds types claimed ws = Ok tt ->
  state_inv (seq + 1) dseq next st ->
  (forall id table, recordTypes st !! id = Some table ->
     types !! id = Some table \/ claimed !! id = Some table) ->
  let '(st', next') := foldl (apply_write seq) (st, next) ws in
  state_inv (seq + 1) dseq next' st' /\ (next <= next')%N /\
  document_tables st' = document_tables st /\
  (forall id table, recordTypes st' !! id = Some table <->
     ((id, table) ∈ claims ws /\ table <> TDocument) \/ recordTypes st !! id = Some table).
Proof.
  induction ws as [|w ws IH]; intros claimed st next Hcheck Hinv Hsub.
  { cbn. split; [done|]. split; [lia|]. split; [done|]. intros id table.
    rewrite elem_of_nil. naive_solver. }
  destruct (checkGlobalIds_cons _ _ _ _ Hcheck) as (claimed' & Hcheck' & Hclaimed & Hw).
  cbn [foldl].
  pose proof (apply_write_inv seq dseq next st w Hinv) as Hstep.
  destruct (apply_write seq (st, next) w) as [st1 next1]. destruct Hstep as (Hinv1 & Hle1 & Hd1 & Ht1).
  { intros id table Hc _. specialize (Hw id table Hc). destruct (once table).
    - destruct Hw as [Hw1 Hw2]. destruct (recordTypes st !! id) as [e|] eqn:He; [|done].
      destruct (Hsub id e He); congruence.
    - destruct Hw as [Hw1 Hw2]. intros e He. destruct (Hsub id e He); auto. }
  specialize (IH claimed' st1 next1 Hcheck' Hinv1).
  destruct (foldl (apply_write seq) (st1, next1) ws) as [st' next'].
  destruct IH as (Hinv' & Hle' & Hd' & Ht').
  { intros id table [[Hc _]|Hr]%Ht1; [right; apply Hclaimed; by left|].
    destruct (Hsub id table Hr); [by left|right; apply Hclaimed; by right]. }
  split; [done|]. split; [lia|]. split; [congruence|].
  intros id table. rewrite Ht', Ht1. unfold claims. cbn [omap list_omap].
  destruct (claim w) as [c|]; [rewrite elem_of_cons|]; naive_solver.
Qed.

(** A document claimed by a batch is new, and no other table claims its ID. *)
Lemma checkGlobalIds_document types ws : forall claimed id,
  checkGlobalIds types claimed ws = Ok tt ->
  (id, TDocument) ∈ claims ws ->
  types !! id = None /\ claimed !! id = None /\ forall table, (id, table) ∈ claims ws -> table = TDocument.
Proof.
  assert (Hlater : forall ws claimed id, checkGlobalIds types claimed ws = Ok tt ->
            claimed !! id = Some TDocument -> forall table, (id, table) ∉ claims ws).
  { clear. induction ws as [|w ws IH]; intros claimed id Hcheck Hcl table; [by intros ?%elem_of_nil|].
    destruct (checkGlobalIds_cons _ _ _ _ Hcheck) as (claimed' & Hcheck' & Hclaimed & Hw).
    unfold claims. cbn [omap list_omap]. destruct (claim w) as [[i t]|] eqn:Hc.
    - intros [[= <- <-]|Hin]%elem_of_cons.
      + specialize (Hw id table eq_refl). destruct (once table) eqn:Ho; [naive_solver|].
        destruct Hw as [_ Hw]. specialize (Hw _ Hcl). by subst.
      + eapply IH; [exact Hcheck'| |exact Hin]. apply Hclaimed. by right.
    - intros Hin. eapply IH; [exact Hcheck'| |exact Hin]. apply Hclaimed. by right. }
  induction ws as [|w ws IH]; intros claimed id Hcheck; [by intros ?%elem_of_nil|].
  destruct (checkGlobalIds_cons _ _ _ _ Hcheck) as (claimed' & Hcheck' & Hclaimed & Hw).
  unfold claims. cbn [omap list_omap]. destruct (claim w) as [[i t]|] eqn:Hc.
  - intros [[= <- <-]|Hin]%elem_of_cons.
    + destruct (Hw id TDocument eq_refl) as [H1 H2]. split; [done|]. split; [done|].
      intros table [[= ->]|Hin]%elem_of_cons; [done|].
      exfalso. eapply (Hlater ws claimed' id Hcheck'); [|exact Hin]. apply Hclaimed. by left.
    + destruct (IH claimed' id Hcheck' Hin) as (H1 & H2 & H3).
      assert (i <> id).
      { intros ->. specialize (Hclaimed id t). destruct Hclaimed as [_ Hclaimed].
        rewrite Hclaimed in H2 by (by left). done. }
      split; [done|]. split.
      * destruct (claimed !! id) as [e|] eqn:He; [|done].
        specialize (Hclaimed id e). destruct Hclaimed as [_ Hclaimed].
        by rewrite Hclaimed in H2 by (by right).
      * intros table [[= ->]|Ht]%elem_of_cons; [done|]. by apply H3.
  - intros Hin. destruct (IH claimed' id Hcheck' Hin) as (H1 & H2 & H3). split; [done|]. split; [|done].
    destruct (claimed !! id) as [e|] eqn:He; [|done].
    specialize (Hclaimed id e). destruct Hclaimed as [_ Hclaimed]. by rewrite Hclaimed in H2 by (by right).
Qed.

(** A creation among the actions comes from a creation among the writes. *)
Lemma prepare_create writes : forall actions0 actions id a,
  actions_ok actions0 ->
  res_foldl prepare_action actions0 writes = Ok actions -> (id, a) ∈ actions -> is_some (a_create a) = true ->
  (id, TDocument) ∈ claims writes \/ exists a0, (id, a0) ∈ actions0 /\ is_some (a_create a0) = true.
Proof.
  induction writes as [|w ws IH]; intros actions0 actions id a Hok; cbn.
  { intros [= <-]. eauto. }
  intros H Hin Ha. inv_res. pose proof (prepare_action_ok _ _ _ Hok Hv) as Hok1.
  destruct (IH _ _ _ _ Hok1 H Hin Ha) as [Hc|(a0 & Hin0 & Ha0)].
  { left. destruct (claim w); [by right|done]. }
  assert (Hset : forall i b, v = action_set i b actions0 ->
    (i = id -> is_some (a_create b) = true -> (id, TDocument) ∈ claims (w :: ws) \/
               exists a0, (id, a0) ∈ actions0 /\ is_some (a_create a0) = true) ->
    (id, TDocument) ∈ claims (w :: ws) \/ exists a0, (id, a0) ∈ actions0 /\ is_some (a_create a0) = true).
  { intros i b -> Hb. destruct (action_set_elem _ _ _ _ (proj1 Hok) Hin0) as [[= -> ->]|[? _]].
    - by apply Hb.
    - right. eauto. }
  assert (Hget : forall i, is_some (a_create (default new_action (action_get i actions0))) = true ->
            exists a0, (i, a0) ∈ actions0 /\ is_some (a_create a0) = true).
  { intros i. destruct (action_get i actions0) eqn:Hg; [|done]. cbn. intros.
    eexists. split; [by apply action_get_Some|done]. }
  change (match claim w with Some b => _ | None => _ end) with (claims (w :: ws)) in *.
  destruct w as [c|c|c|c|record version base|record source|i content|i]; cbn in Hv; inv_res;
    try (right; by eauto).
  - eapply Hset; [done|]. intros <- _. left. left.
  - eapply Hset; [done|]. intros <- Hb. right. by apply Hget.
  - eapply Hset; [done|]. intros <- Hb. right. by apply Hget.
Qed.

(** ** Accepted batches apply *)

Lemma res_mapM_Forall {E A B} (f : A -> res E B) (P : B -> Prop) l l' :
  res_mapM f l = Ok l' -> (forall a b, f a = Ok b -> P b) -> Forall P l'.
Proof.
  revert l'; induction l as [|a l IH]; intros l'; cbn; [by intros [= <-]; constructor|].
  intros H HP. inv_res. constructor; [by eapply HP|]. by apply IH.
Qed.

Lemma resolved_no_copy t writes resolved :
  resolveDocumentCopies t writes = Ok resolved -> existsb is_copy resolved = false.
Proof.
  intros H. apply not_true_iff_false. intros He. apply existsb_exists in He as (w & Hw & Hc).
  assert (Hall : Forall (fun w => is_copy w = false) resolved).
  { eapply res_mapM_Forall; [exact H|]. intros a b. destruct a; cbn; try (by intros [= <-]).
    destruct (resolve_copy _ _ _ _) eqn:E; [|done]. intros [= <-]. unfold resolve_copy in E. by inv_res. }
  rewrite Forall_forall in Hall. rewrite Hall in Hc; [done|]. by apply list_elem_of_In.
Qed.

Lemma foldl_insert_types (ids : list N) (types : gmap N TableName) id :
  foldl (fun types id => <[id := TDocument]> types) types ids !! id
  = if decide (id ∈ ids) then Some TDocument else types !! id.
Proof.
  revert types; induction ids as [|i ids IH]; intros types; cbn [foldl].
  { by rewrite decide_False by (by intros ?%elem_of_nil). }
  rewrite IH. destruct (decide (id ∈ ids)) as [Hin|Hin].
  - by rewrite decide_True by (by right).
  - destruct (decide (i = id)) as [->|Hne].
    + rewrite decide_True by left. apply lookup_insert_eq.
    + rewrite decide_False by (intros [?|?]%elem_of_cons; congruence). by apply lookup_insert_ne.
Qed.

Lemma foldl_max_ids (ids : list N) n :
  let n' := foldl (fun n id => N.max n (id + 1)) n ids in
  (n <= n')%N /\ forall id, id ∈ ids -> (id < n')%N.
Proof.
  revert n; induction ids as [|i ids IH]; intros n; cbn.
  { split; [lia|]. by intros id ?%elem_of_nil. }
  destruct (IH (N.max n (i + 1))) as [H1 H2]. split; [lia|].
  intros id [->|Hin]%elem_of_cons; [lia|]. by apply H2.
Qed.

Lemma created_ids_elem id actions :
  id ∈ created_ids actions <-> exists a, (id, a) ∈ actions /\ is_some (a_create a) = true.
Proof.
  unfold created_ids. rewrite list_elem_of_omap. split.
  - intros ([i a] & Hin & Hc). destruct (is_some (a_create a)) eqn:Hs; [|done]. injection Hc as <-. eauto.
  - intros (a & Hin & Hs). exists (id, a). by rewrite Hs.
Qed.

Lemma entry_inv_mono next next' t : (next <= next')%N -> entry_inv next t -> entry_inv next' t.
Proof. intros Hle [H1 H2 H3 H4 H5]. split; try done. intros i s Hs. specialize (H5 i s Hs). lia. Qed.

(** What a commit leaves, besides the invariant. *)
Record committed (m : MemoryStorage) (p : PreparedMemoryCommit) (m' : MemoryStorage) : Prop := {
  co_seq : (nextSeq m <= p_seq p)%N /\ nextSeq m' = (p_seq p + 1)%N;
  co_next : (nextId m <= nextId m')%N;
  co_closed : closed m' = closed m;
  co_tables : exists st next, foldl (apply_write (p_seq p)) (state m, nextId m) (p_writes p) = (st, next) /\
    conversation_tables (state m') = conversation_tables st /\ entry_tables (state m') = entry_tables st /\
    task_tables (state m') = task_tables st /\ submission_tables (state m') = submission_tables st;
  co_documents : forall i, documents (document_tables (state m')) !! i =
    match action_get i (p_actions p) with
    | Some a => doc_after a (p_seq p) (documents (document_tables (state m)) !! i)
    | None => documents (document_tables (state m)) !! i end;
  co_actions : forall id a, (id, a) ∈ p_actions p ->
    action_ok id a (documents (document_tables (state m)) !! id);
  co_checked : checkGlobalIds (recordTypes (state m)) ∅ (p_writes p) = Ok tt;
}.

Lemma prepared_applies m writes seq p :
  storage_inv m -> prepareCommit m writes seq = Ok p ->
  exists m', applyPreparedCommit m p = Some m' /\ storage_inv m' /\ committed m p m'.
Proof.
  intros Hinv H. unfold prepareCommit in H. inv_res. rename v1 into ws. destruct v2. rename v3 into actions. destruct v4.
  bool_to_prop. set (s := default (nextSeq m) seq) in *.
  pose proof (resolved_no_copy _ _ _ Hv1) as Hnc.
  unfold applyPreparedCommit. cbn [p_writes p_seq p_actions]. rewrite Hnc.
  assert (Hseq : (nextSeq m <= s)%N) by (by bool_to_prop).
  assert (Hinv1 : state_inv (s + 1) (nextSeq m) (nextId m) (state m)).
  { destruct Hinv as [H1 H2 H3 H4 H5 H6 H7]. split; try done. eapply entry_inv_mono; [|exact H2]. lia. }
  pose proof (apply_writes_inv s (nextSeq m) _ ws ∅ (state m) (nextId m) Hv2 Hinv1) as Hw.
  destruct (foldl (apply_write s) (state m, nextId m) ws) as [st next] eqn:Efold.
  destruct Hw as (Hst & Hle & Hdt & Htypes); [by intros; left|].
  rewrite Hdt.
  destruct (checked_actions_apply (nextSeq m) (document_tables (state m)) ws actions s
    (si_documents _ _ _ _ Hinv) Hseq Hv3 Hv4) as (t' & Et & Hd' & Hdocs & Hacts).
  rewrite Et. cbn [mbind option_bind]. eexists. split; [done|].
  set (ids := created_ids actions).
  assert (Hfresh : forall id, id ∈ ids -> recordTypes st !! id = None).
  { intros id (a & Hin & Ha)%created_ids_elem.
    destruct (prepare_create ws [] actions id a) as [Hc|(a0 & Hin0 & _)]; try done.
    - split; [constructor|]. by intros ?? ?%elem_of_nil.
    - destruct (checkGlobalIds_document _ _ _ _ Hv2 Hc) as (H1 & _ & H3).
      destruct (recordTypes st !! id) as [t|] eqn:E; [|done].
      apply Htypes in E as [[Hcl Hne]|E]; [by apply H3 in Hcl|congruence].
    - by apply elem_of_nil in Hin0. }
  assert (Hdoc : forall id, is_Some (documents t' !! id) <->
            id ∈ ids \/ is_Some (documents (document_tables (state m)) !! id)).
  { intros id. rewrite Hdocs. destruct (action_get id actions) as [a|] eqn:Hg.
    - pose proof (action_get_Some _ _ _ Hg) as Hin. pose proof (Hacts id a Hin) as Hok.
      split; [|intros _; by apply doc_after_is_Some]. intros _.
      destruct (a_create a) eqn:Hc.
      + left. apply created_ids_elem. exists a. by rewrite Hc.
      + right. by apply (ok_existing _ _ _ Hok).
    - split; [by right|]. intros [Hi|?]; [|done]. apply created_ids_elem in Hi as (a & Hin & _).
      apply action_get_None in Hg. destruct Hg. apply list_elem_of_fmap. by exists (id, a). }
  split.
  - destruct Hst as [H1 H2 H3 H4 H5 H6 H7]. split; cbn; try done.
    + intros id table. rewrite foldl_insert_types. case_decide as Hid.
      * specialize (Hfresh id Hid). split.
        -- intros [= <-]. cbn. apply Hdoc. by left.
        -- destruct table; cbn; [..|done]; intros Hin; exfalso;
             [assert (Ht : in_table st TConversation id) by exact Hin
             |assert (Ht : in_table st TEntry id) by exact Hin
             |assert (Ht : in_table st TTask id) by exact Hin
             |assert (Ht : in_table st TSubmission id) by exact Hin];
             apply H6 in Ht; congruence.
      * rewrite H6. destruct table; cbn; try done. rewrite Hdoc, Hdt. naive_solver.
    + intros id table. rewrite foldl_insert_types.
      destruct (foldl_max_ids ids next) as [Hn1 Hn2]. case_decide as Hid.
      * intros _. by apply Hn2.
      * intros Ht. apply H7 in Ht. cbn in Hn1. lia.
  - destruct (foldl_max_ids ids next) as [Hn1 _]. split; cbn; try done.
    + cbn in Hn1. lia.
    + by exists st, next.
Qed.
