(* ===== verification/MemoryRead.v ===== *)
(** The reads of [MemoryStorage] (durable/src/storage/memory.ts): lookups, paged scans, and
    the entries visible through a conversation's chain of forks. *)
From S2P Require Import Prelude JsString Json DeltaOp DeltaApply StorageTypes SortedIds MemoryCommit.

(** ** Lookups *)

Definition conversation (m : MemoryStorage) (id : N) : sres (option ConversationRecord) :=
  _ ← assertOpen m; Ok (clone (conversations (conversation_tables (state m)) !! id)).

Definition task (m : MemoryStorage) (id : N) : sres (option TaskRecord) :=
  _ ← assertOpen m; Ok (clone (tasks (task_tables (state m)) !! id)).

Definition submission (m : MemoryStorage) (id : N) : sres (option SubmissionRecord) :=
  _ ← assertOpen m; Ok (clone (submissions (submission_tables (state m)) !! id)).

Definition submissionByRequest (m : MemoryStorage) (conversationId : N) (requestId : string)
  : sres (option SubmissionRecord) :=
  _ ← assertOpen m;
  match submissionIdsByRequest (submission_tables (state m)) !! conversationId ≫= fun r => r !! requestId with
  | None => Ok None
  | Some id =>
      v ← res_of UndefinedValue (submissions (submission_tables (state m)) !! id);
      Ok (Some (clone v))
  end.

(** [entry(id)]: the entry and the sequence of its commit. *)
Definition entry (m : MemoryStorage) (id : N) : sres (option (EntryRecord * N)) :=
  _ ← assertOpen m;
  match entries (entry_tables (state m)) !! id with
  | None => Ok None
  | Some e =>
      s ← res_of UndefinedValue (entryCommitSeqs (entry_tables (state m)) !! id);
      Ok (Some (clone e, s))
  end.

Definition findDocument (m : MemoryStorage) (address : DocumentAddress) (at_ : DocumentPoint)
  : sres (option DocumentRecord) :=
  _ ← assertOpen m;
  let t := document_tables (state m) in
  let index := documentAddresses t !! addressKey address in
  match at_ with
  | PCurrent =>
      match index ≫= ai_currentId with
      | None => Ok None
      | Some id => s ← res_of UndefinedValue (documents t !! id); Ok (Some (clone (st_record s)))
      end
  | PSeq _ =>
      (fix find (ids : list N) :=
         match ids with
         | [] => Ok None
         | id :: ids' =>
             s ← res_of UndefinedValue (documents t !! id);
             if isAliveAt (st_record s) at_ then Ok (Some (clone (st_record s))) else find ids'
         end) (default [] (ai_ids <$> index))
  end.

Definition document (m : MemoryStorage) (id : N) (at_ : DocumentPoint) : sres (option StoredDocument) :=
  _ ← assertOpen m;
  found ← materializeDocument (document_tables (state m)) id at_;
  match found with
  | None => Ok None
  | Some s => Ok (Some {| sd_record := clone (sd_record s); sd_version := sd_version s;
                          sd_value := clone (sd_value s); sd_deltasSinceBase := sd_deltasSinceBase s |})
  end.

(** ** Scans *)

(** [field === undefined || field === value]. *)
Definition matches_opt {A} `{EqDecision A} (wanted : option A) (value : A) : bool :=
  match wanted with None => true | Some w => bool_decide (w = value) end.

Definition scan {R} `{Clone R} (get : N -> option R) (id_of : R -> N) (keep : R -> bool) (ids : list N)
    (start : ScanStart) (limit : nat) : sres (Page R) :=
  values ← scan_loop get keep limit ids (scanIndexes ids start) [];
  page id_of values limit (ss_order start).

Definition keep_conversation (query : ConversationQuery) (c : ConversationRecord) : bool :=
  match cq_ownerConversationId query with
  | None => true
  | Some k => bool_decide (ol_conversationId <$> c_owner c = Some k)
  end.

Definition scanConversations (m : MemoryStorage) (query : ConversationQuery) (limit : nat)
    (cursor : option Cursor) : sres (Page ConversationRecord) :=
  _ ← assertOpen m;
  let t := conversation_tables (state m) in
  let ids :=
    match cq_ownerTaskId query, cq_ownerConversationId query with
    | Some k, _ => default [] (conversationIdsByOwnerTask t !! k)
    | None, Some k => default [] (conversationIdsByOwnerConversation t !! k)
    | None, None => conversationIds t
    end in
  start ← scanStart (cq_order query) cursor ascending;
  scan (fun id => conversations t !! id) c_id (keep_conversation query) ids start limit.

Definition keep_task (query : TaskQuery) (r : TaskRecord) : bool :=
  matches_opt (tq_conversationId query) (t_conversationId r) && matches_opt (tq_kind query) (t_kind r)
  && matches_opt (tq_abortRequested query) (t_abortRequested r)
  && matches_opt (tq_background query) (t_background r).

Definition scanTasks (m : MemoryStorage) (query : TaskQuery) (limit : nat) (cursor : option Cursor)
  : sres (Page TaskRecord) :=
  _ ← assertOpen m;
  let t := task_tables (state m) in
  start ← scanStart (tq_order query) cursor ascending;
  let ids := match tq_status query with None => taskIds t | Some s => taskIdsByStatus t s end in
  scan (fun id => tasks t !! id) t_id (keep_task query) ids start limit.

Definition scanSubmissions (m : MemoryStorage) (query : SubmissionQuery) (limit : nat)
    (cursor : option Cursor) : sres (Page SubmissionRecord) :=
  _ ← assertOpen m;
  let t := submission_tables (state m) in
  start ← scanStart (sq_order query) cursor ascending;
  let ids := match sq_status query with None => submissionIds t | Some s => submissionIdsByStatus t s end in
  scan (fun id => submissions t !! id) s_id
    (fun r => matches_opt (sq_conversationId query) (s_conversationId r)) ids start limit.

Definition keep_document (query : DocumentQuery) (s : StoredDocumentState) : bool :=
  matches_opt (dq_kind query) (dc_kind (d_create (st_record s))) && isAliveAt (st_record s) (dq_at query).

Definition scanDocuments (m : MemoryStorage) (query : DocumentQuery) (limit : nat) (cursor : option Cursor)
  : sres (Page DocumentRecord) :=
  _ ← assertOpen m;
  let t := document_tables (state m) in
  let ids := default [] (documentIdsByScope t !! scopeKey (dq_scope query)) in
  after ← cursorId cursor;
  values ← scan_loop (fun id => documents t !! id) (keep_document query) limit ids
             (scanIndexes ids {| ss_order := ascending; ss_after := after |}) [];
  page (fun r => dc_id (d_create r)) (st_record <$> values) limit ascending.

(** ** Visible entries

    The generators are lazy in the source, so a caller that stops early does not walk the
    rest of the chain; here a walk returns all its IDs and the caller takes what it reads.
    The walks up the chain of forks take fuel: the number of conversations of the chain.
    [None] is running out of it, which a chain without cycles never does. *)

(** The entries of one conversation, newest first: up to [upper], until one is below
    [lower]. *)
Fixpoint take_down (ids : list N) (lower : bound) (n : nat) : list N :=
  match n with
  | 0 => []
  | S index =>
      match ids !! index with
      | Some id => if id_lt id lower then [] else id :: take_down ids lower index
      | None => []
      end
  end.

Definition entry_records (t : EntryTables) (ids : list N) : sres (list EntryRecord) :=
  res_mapM (fun id => res_of UndefinedValue (entries t !! id)) ids.

Fixpoint visible_ids (fuel : nat) (st : State) (current : N) (lower upper : bound)
  : option (sres (list N)) :=
  match fuel with
  | 0 => None
  | S fuel' =>
      let ids := default [] (entryIds (entry_tables st) !! current) in
      let here := take_down ids lower (upperBound ids upper) in
      match conversations (conversation_tables st) !! current with
      | None => Some (Throw UndefinedValue)
      | Some c =>
          match c_parent c with
          | None => Some (Ok here)
          | Some parent =>
              let upper' := bound_min upper (pl_at parent) in
              if bound_lt upper' lower then Some (Ok here)
              else
                match visible_ids fuel' st (pl_conversationId parent) lower upper' with
                | Some (Ok rest) => Some (Ok (here ++ rest))
                | r => r
                end
          end
      end
  end.

(** [visibleEntries], newest first. *)
Definition visibleEntries (fuel : nat) (st : State) (conversationId : N) (lower upper : bound)
  : option (sres (list N)) :=
  match conversations (conversation_tables st) !! conversationId with
  | None => Some (Throw (UnknownConversation conversationId))
  | Some _ => visible_ids fuel st conversationId lower upper
  end.

(** The segments [visibleEntriesAscending] collects, from the conversation up. *)
Fixpoint segments (fuel : nat) (st : State) (current : N) (lower upper : bound)
  : option (sres (list (N * bound))) :=
  match fuel with
  | 0 => None
  | S fuel' =>
      match conversations (conversation_tables st) !! current with
      | None => Some (Throw UndefinedValue)
      | Some c =>
          match c_parent c with
          | None => Some (Ok [(current, upper)])
          | Some parent =>
              let upper' := bound_min upper (pl_at parent) in
              if bound_lt upper' lower then Some (Ok [(current, upper)])
              else
                match segments fuel' st (pl_conversationId parent) lower upper' with
                | Some (Ok rest) => Some (Ok ((current, upper) :: rest))
                | r => r
                end
          end
      end
  end.

(** One segment, oldest first: from the lower bound until an entry is above [upper]. *)
Fixpoint take_up (ids : list N) (upper : bound) : list N :=
  match ids with
  | [] => []
  | id :: ids' => if id_le id upper then id :: take_up ids' upper else []
  end.

Definition segment_ids (st : State) (lower : bound) (segment : N * bound) : list N :=
  let ids := default [] (entryIds (entry_tables st) !! segment.1) in
  take_up (drop (lowerBound ids lower) ids) segment.2.

Definition visibleEntriesAscending (fuel : nat) (st : State) (conversationId : N) (lower upper : bound)
  : option (sres (list N)) :=
  match conversations (conversation_tables st) !! conversationId with
  | None => Some (Throw (UnknownConversation conversationId))
  | Some _ =>
      match segments fuel st conversationId lower upper with
      | Some (Ok chain) => Some (Ok (concat (segment_ids st lower <$> rev chain)))
      | Some (Throw e) => Some (Throw e)
      | None => None
      end
  end.

(** The records of the IDs until there is one more than the limit. *)
Definition first_entries (t : EntryTables) (limit : nat) (ids : list N) : sres (list EntryRecord) :=
  entry_records t (take (S limit) ids).

Definition opt_bound (default_ : bound) (id : option N) : bound :=
  match id with Some i => fin i | None => default_ end.

(** [Math.max] with an ID. *)
Definition bound_max (b : bound) (z : Z) : bound :=
  match b with NegInf => Fin z | Fin x => Fin (Z.max x z) | PosInf => PosInf end.

Definition bound_minZ (b : bound) (z : Z) : bound :=
  match b with NegInf => NegInf | Fin x => Fin (Z.min x z) | PosInf => Fin z end.

Definition scanEntries (fuel : nat) (m : MemoryStorage) (query : EntryQuery) (limit : nat)
    (cursor : option Cursor) : option (sres (Page EntryRecord)) :=
  match (_ ← assertOpen m; scanStart (eq_order query) cursor descending) with
  | Throw e => Some (Throw e)
  | Ok start =>
      let minId := opt_bound NegInf (eq_minEntryId query) in
      let maxId := opt_bound PosInf (eq_maxEntryId query) in
      let upper := match ss_after start, ss_order start with
                   | Some after, descending => bound_minZ maxId (after - 1) | _, _ => maxId end in
      let lower := match ss_after start, ss_order start with
                   | Some after, ascending => bound_max minId (after + 1) | _, _ => minId end in
      found ← (match ss_order start with
               | descending => visibleEntries fuel (state m) (eq_conversationId query) lower upper
               | ascending => visibleEntriesAscending fuel (state m) (eq_conversationId query) lower upper
               end : option (sres (list N)));
      Some (ids ← (found : sres (list N));
            visible ← first_entries (entry_tables (state m)) limit ids;
            page e_id visible limit (ss_order start))
  end.

(** [entry(conversationId, id)]: only when the entry is visible from the conversation. *)
Definition entry_visible (fuel : nat) (m : MemoryStorage) (conversationId id : N)
  : option (sres (option (EntryRecord * N))) :=
  match assertOpen m with
  | Throw e => Some (Throw e)
  | Ok _ =>
      found ← visibleEntries fuel (state m) conversationId (fin id) (fin id);
      Some (ids ← (found : sres (list N));
            match ids with
            | [] => Ok None
            | i :: _ =>
                e ← res_of UndefinedValue (entries (entry_tables (state m)) !! i);
                s ← res_of UndefinedValue (entryCommitSeqs (entry_tables (state m)) !! id);
                Ok (Some (clone e, s))
            end)
  end.

(** The loop of [findLatestHeadMarker]. *)
Fixpoint head_marker (fuel : nat) (st : State) (current : N) (upper : bound) : option (sres (option N)) :=
  match fuel with
  | 0 => None
  | S fuel' =>
      let ids := default [] (headEntryIds (entry_tables st) !! current) in
      match upperBound ids upper with
      | S index => Some (Ok (ids !! index))
      | 0 =>
          match conversations (conversation_tables st) !! current with
          | None => Some (Throw UndefinedValue)
          | Some c =>
              match c_parent c with
              | None => Some (Ok None)
              | Some parent =>
                  head_marker fuel' st (pl_conversationId parent) (bound_min upper (pl_at parent))
              end
          end
      end
  end.

Definition findLatestHeadMarker (fuel : nat) (m : MemoryStorage) (conversationId : N) (atOrBefore : option N)
  : option (sres (option EntryRecord)) :=
  match (_ ← assertOpen m;
         check (is_some (conversations (conversation_tables (state m)) !! conversationId))
           (UnknownConversation conversationId)) with
  | Throw e => Some (Throw e)
  | Ok _ =>
      found ← head_marker fuel (state m) conversationId (opt_bound PosInf atOrBefore);
      Some (id ← (found : sres (option N));
            match id with
            | None => Ok None
            | Some i => e ← res_of UndefinedValue (entries (entry_tables (state m)) !! i); Ok (Some (clone e))
            end)
  end.

(** ** Fuel *)

(** A fork's parent is older, so a chain of forks is no longer than the ID. *)
Definition chain_fuel (conversationId : N) : nat := S (N.to_nat conversationId).

(** A computation with fuel, which is enough. *)
Definition ran {A} (r : option (sres A)) : sres A := default (Throw UndefinedValue) r.
