(* ===== verification/ReadFacts.v ===== *)
(** What the reads of [MemoryStorage] return: paging through a scan gives every match once
    and in order, both walks over visible entries agree, and the newest head marker is the
    first marker among them. *)
From S2P Require Import Prelude JsString Json StorageTypes SortedIds MemoryCommit DocumentFacts TableFacts.
From S2P Require Import MemoryFacts MemoryRead.
From Stdlib Require Import Sorted.

(** ** Scans over sorted IDs *)

(** The matches of a scan, in its order. *)
Definition scan_matches {R} (get : N -> option R) (keep : R -> bool) (ids : list N) (order : ScanOrder)
  : list R :=
  filter (fun r => keep r = true)
    (omap get (scan_ids ids {| ss_order := order; ss_after := None |})).

Lemma omap_filter_split {R} (get : N -> option R) (keep : R -> bool) (S : list N) A r B :
  filter (fun r => keep r = true) (omap get S) = A ++ r :: B ->
  exists SA x SB, S = SA ++ x :: SB /\ get x = Some r /\
    filter (fun r => keep r = true) (omap get SB) = B.
Proof.
  revert A; induction S as [|x S IH]; intros A; [by destruct A|]. cbn.
  destruct (get x) as [y|] eqn:Hg.
  2: { intros H. destruct (IH A H) as (SA & z & SB & -> & ? & ?). exists (x :: SA), z, SB. done. }
  rewrite filter_cons. case_decide as Hk.
  - destruct A as [|a A]; cbn.
    + intros [= -> H]. exists [], x, S. done.
    + intros [= -> H]. destruct (IH A H) as (SA & z & SB & -> & ? & ?). exists (x :: SA), z, SB. done.
  - intros H. destruct (IH A H) as (SA & z & SB & -> & ? & ?). exists (x :: SA), z, SB. done.
Qed.

Section Scan.
Context {R : Type} `{Clone R} (get : N -> option R) (id_of : R -> N).

Lemma scan_indexes_get ids start :
  omap (fun i => id ← ids !! i; get id) (scanIndexes ids start) = omap get (scan_ids ids start).
Proof.
  unfold scan_ids. induction (scanIndexes ids start) as [|i l IH]; [done|]. cbn.
  destruct (ids !! i) as [x|]; cbn; [|done]. destruct (get x); by rewrite IH.
Qed.

Lemma scanIndexes_known ids start :
  StronglySorted N.lt ids -> (forall id, id ∈ ids -> is_Some (get id)) ->
  Forall (fun i => is_Some (id ← ids !! i; get id)) (scanIndexes ids start).
Proof.
  intros Hs Hget. apply Forall_forall. intros i Hi.
  assert (Hlt : i < length ids).
  { unfold scanIndexes in Hi. destruct (ss_order start).
    - apply elem_of_seq in Hi. destruct (ss_after start) as [a|]; [|lia].
      pose proof (bisect_le (fun id => id_le id (Fin a)) ids (length ids) 0 (length ids) ltac:(lia)) as Hle.
      fold (upperBound ids (Fin a)) in Hle. lia.
    - apply list_elem_of_In, in_rev, list_elem_of_In, elem_of_seq in Hi.
      destruct (ss_after start) as [a|]; [|lia].
      pose proof (bisect_le (fun id => id_lt id (Fin a)) ids (length ids) 0 (length ids) ltac:(lia)) as Hle.
      fold (lowerBound ids (Fin a)) in Hle. lia. }
  apply lookup_lt_is_Some_2 in Hlt as [x Hx]. rewrite Hx. cbn. apply Hget.
  by eapply list_elem_of_lookup_2.
Qed.

Lemma scan_spec keep ids start limit :
  0 < limit -> StronglySorted N.lt ids -> (forall id, id ∈ ids -> is_Some (get id)) ->
  scan get id_of keep ids start limit
  = Ok (page_of id_of limit (ss_order start)
          (filter (fun r => keep r = true) (omap get (scan_ids ids start)))).
Proof.
  intros Hlim Hs Hget. unfold scan.
  rewrite scan_loop_spec by (try (by apply scanIndexes_known); cbn; lia).
  cbn [mbind res_bind]. rewrite scan_indexes_get. by apply page_spec.
Qed.

(** Continuing after a returned record gives the matches that follow it. *)
Lemma scan_resume keep ids order limit A r B :
  0 < limit -> StronglySorted N.lt ids -> (forall id, id ∈ ids -> is_Some (get id)) ->
  (forall id x, get id = Some x -> id_of x = id) ->
  scan_matches get keep ids order = A ++ r :: B ->
  scan get id_of keep ids {| ss_order := order; ss_after := Some (Z.of_N (id_of r)) |} limit
  = Ok (page_of id_of limit order B).
Proof.
  intros Hlim Hs Hget Hid (SA & x & SB & HS & Hx & <-)%omap_filter_split.
  rewrite scan_spec by done. cbn [ss_order]. rewrite (Hid x r Hx).
  by rewrite (scan_ids_resume ids order SA x SB Hs HS).
Qed.
End Scan.

(** ** The paged scans of the storage *)

Definition order_or (requested : option string) (fallback : ScanOrder) : ScanOrder :=
  default fallback (requested ≫= order_of_string).

Definition valid_order (requested : option string) : Prop :=
  match requested with None => True | Some s => is_Some (order_of_string s) end.

(** A storage in use: open, consistent, its IDs safe integers. *)
Record usable (m : MemoryStorage) : Prop := {
  us_open : closed m = false;
  us_inv : storage_inv m;
  us_safe : (Z.of_N (nextId m) <= MAX_SAFE_INTEGER + 1)%Z;
}.

Lemma usable_id m id table : usable m -> in_table (state m) table id -> (Z.of_N id <= MAX_SAFE_INTEGER)%Z.
Proof.
  intros Hu Hin. apply (si_types _ _ _ _ (us_inv _ Hu)) in Hin.
  apply (si_next _ _ _ _ (us_inv _ Hu)) in Hin. pose proof (us_safe _ Hu). lia.
Qed.

Lemma order_of_text o : order_of_string (order_text o) = Some o.
Proof. by destruct o. Qed.

Lemma scanStart_first requested fallback :
  valid_order requested ->
  scanStart requested None fallback = Ok {| ss_order := order_or requested fallback; ss_after := None |}.
Proof.
  unfold scanStart, order_or. destruct requested as [s|]; [|done]. intros [o Ho]. cbn. by rewrite Ho.
Qed.

Lemma scanStart_again requested fallback id :
  valid_order requested -> (Z.of_N id <= MAX_SAFE_INTEGER)%Z ->
  scanStart requested (Some (nextCursor id (order_or requested fallback))) fallback
  = Ok {| ss_order := order_or requested fallback; ss_after := Some (Z.of_N id) |}.
Proof.
  intros Hv Hid. apply scanStart_next; [|done]. unfold order_or. destruct requested as [s|]; [|by left].
  right. destruct Hv as [o Ho]. cbn. rewrite Ho. cbn. f_equal.
  unfold order_of_string in Ho.
  destruct (String.eqb_spec s "ascending") as [->|]; [by injection Ho as <-|].
  destruct (String.eqb_spec s "descending") as [->|]; [by injection Ho as <-|done].
Qed.

(** A scan with a sorted index of a table is paged. *)
Lemma scan_paged {R} `{Clone R} (get : N -> option R) (id_of : R -> N) keep ids requested fallback limit
    (run : option Cursor -> sres (Page R)) :
  (forall c, run c = (start ← scanStart requested c fallback; scan get id_of keep ids start limit)) ->
  0 < limit -> valid_order requested ->
  StronglySorted N.lt ids -> (forall id, id ∈ ids -> is_Some (get id)) ->
  (forall id x, get id = Some x -> id_of x = id) ->
  (forall id x, get id = Some x -> (Z.of_N id <= MAX_SAFE_INTEGER)%Z) ->
  PagedScan id_of run limit (order_or requested fallback)
    (scan_matches get keep ids (order_or requested fallback)).
Proof.
  intros Hrun Hlim Hv Hs Hget Hid Hsafe. split.
  - rewrite Hrun, scanStart_first by done. cbn [mbind res_bind]. by apply scan_spec.
  - intros A r B HL. rewrite Hrun.
    pose proof HL as (SA & x & SB & _ & Hx & _)%omap_filter_split.
    rewrite scanStart_again; [|done|rewrite (Hid x r Hx); by eapply Hsafe].
    cbn [mbind res_bind]. by eapply scan_resume.
Qed.

Definition task_ids (m : MemoryStorage) (query : TaskQuery) : list N :=
  match tq_status query with
  | None => taskIds (task_tables (state m))
  | Some s => taskIdsByStatus (task_tables (state m)) s
  end.

Lemma scanTasks_paged m query limit :
  usable m -> 0 < limit -> valid_order (tq_order query) ->
  PagedScan t_id (scanTasks m query limit) limit (order_or (tq_order query) ascending)
    (scan_matches (fun id => tasks (task_tables (state m)) !! id) (keep_task query) (task_ids m query)
       (order_or (tq_order query) ascending)).
Proof.
  intros Hu Hlim Hv. pose proof (si_tasks _ _ _ _ (us_inv _ Hu)) as [Hid Hids Hst].
  apply scan_paged; try done.
  - intros c. unfold scanTasks, assertOpen. by rewrite (us_open _ Hu).
  - unfold task_ids. destruct (tq_status query); [apply Hst|apply Hids].
  - intros id. unfold task_ids. destruct (tq_status query).
    + rewrite (proj2 (Hst t) id). intros (r & -> & _). by eexists.
    + by rewrite (proj2 Hids id).
  - intros id x Hx. apply (usable_id m id TTask Hu). by eexists.
Qed.

Definition submission_ids (m : MemoryStorage) (query : SubmissionQuery) : list N :=
  match sq_status query with
  | None => submissionIds (submission_tables (state m))
  | Some s => submissionIdsByStatus (submission_tables (state m)) s
  end.

Lemma scanSubmissions_paged m query limit :
  usable m -> 0 < limit -> valid_order (sq_order query) ->
  PagedScan s_id (scanSubmissions m query limit) limit (order_or (sq_order query) ascending)
    (scan_matches (fun id => submissions (submission_tables (state m)) !! id)
       (fun r => matches_opt (sq_conversationId query) (s_conversationId r)) (submission_ids m query)
       (order_or (sq_order query) ascending)).
Proof.
  intros Hu Hlim Hv. pose proof (si_submissions _ _ _ _ (us_inv _ Hu)) as [Hid Hids Hst _].
  apply scan_paged; try done.
  - intros c. unfold scanSubmissions, assertOpen. by rewrite (us_open _ Hu).
  - unfold submission_ids. destruct (sq_status query); [apply Hst|apply Hids].
  - intros id. unfold submission_ids. destruct (sq_status query).
    + rewrite (proj2 (Hst s) id). intros (r & -> & _). by eexists.
    + by rewrite (proj2 Hids id).
  - intros id x Hx. apply (usable_id m id TSubmission Hu). by eexists.
Qed.

Definition conversation_ids (m : MemoryStorage) (query : ConversationQuery) : list N :=
  let t := conversation_tables (state m) in
  match cq_ownerTaskId query, cq_ownerConversationId query with
  | Some k, _ => default [] (conversationIdsByOwnerTask t !! k)
  | None, Some k => default [] (conversationIdsByOwnerConversation t !! k)
  | None, None => conversationIds t
  end.

Lemma scanConversations_paged m query limit :
  usable m -> 0 < limit -> valid_order (cq_order query) ->
  PagedScan c_id (scanConversations m query limit) limit (order_or (cq_order query) ascending)
    (scan_matches (fun id => conversations (conversation_tables (state m)) !! id)
       (keep_conversation query) (conversation_ids m query) (order_or (cq_order query) ascending)).
Proof.
  intros Hu Hlim Hv. pose proof (si_conversations _ _ _ _ (us_inv _ Hu)) as [Hid Hids Hc Ht].
  apply scan_paged; try done.
  - intros c. unfold scanConversations, assertOpen. by rewrite (us_open _ Hu).
  - unfold conversation_ids. destruct (cq_ownerTaskId query), (cq_ownerConversationId query);
      first [apply Ht|apply Hc|apply Hids].
  - intros id. unfold conversation_ids. destruct (cq_ownerTaskId query), (cq_ownerConversationId query).
    1-2: rewrite (proj2 (Ht n) id); intros (r & o & -> & _); by eexists.
    + rewrite (proj2 (Hc n) id). intros (r & o & -> & _). by eexists.
    + by rewrite (proj2 Hids id).
  - intros id x Hx. apply (usable_id m id TConversation Hu). by eexists.
Qed.

Definition ordered (order : ScanOrder) (l : list N) : Prop :=
  match order with ascending => StronglySorted N.lt l | descending => StronglySorted N.lt (rev l) end.

Lemma scan_ids_elem ids order id :
  id ∈ scan_ids ids {| ss_order := order; ss_after := None |} <-> id ∈ ids.
Proof. rewrite scan_ids_all. destruct order; [done|]. by rewrite !list_elem_of_In, <- in_rev. Qed.

Lemma scan_matches_elem {R} (get : N -> option R) keep ids order r :
  r ∈ scan_matches get keep ids order <-> keep r = true /\ exists id, id ∈ ids /\ get id = Some r.
Proof.
  unfold scan_matches. rewrite list_elem_of_filter, list_elem_of_omap. setoid_rewrite scan_ids_elem. done.
Qed.

Lemma filter_omap_sorted {R} (get : N -> option R) (id_of : R -> N) keep l :
  (forall id x, get id = Some x -> id_of x = id) -> StronglySorted N.lt l ->
  StronglySorted N.lt (id_of <$> filter (fun r => keep r = true) (omap get l)).
Proof.
  intros Hid. induction 1 as [|x l Hl IH Hx]; [constructor|]. cbn.
  destruct (get x) as [r|] eqn:Hr; [|done]. rewrite filter_cons. case_decide; [|done]. cbn.
  constructor; [done|]. rewrite (Hid x r Hr). apply Forall_forall.
  intros y (r' & -> & [_ Hin]%list_elem_of_filter)%list_elem_of_fmap.
  apply list_elem_of_omap in Hin as (z & Hz & Hg). rewrite (Hid z r' Hg).
  rewrite Forall_forall in Hx. by apply Hx.
Qed.

Lemma filter_rev {A} (P : A -> Prop) `{!forall x, Decision (P x)} l : filter P (rev l) = rev (filter P l).
Proof.
  induction l as [|x l IH]; [done|]. cbn. rewrite filter_app, IH, !filter_cons.
  destruct (decide (P x)); cbn; [done|]. by rewrite app_nil_r.
Qed.

(** Every match once: the IDs of the matches are in the order of the scan. *)
Lemma scan_matches_ordered {R} (get : N -> option R) (id_of : R -> N) keep ids order :
  (forall id x, get id = Some x -> id_of x = id) -> StronglySorted N.lt ids ->
  ordered order (id_of <$> scan_matches get keep ids order).
Proof.
  intros Hid Hs. unfold scan_matches, ordered. rewrite scan_ids_all. destruct order.
  - by apply filter_omap_sorted.
  - rewrite omap_rev, filter_rev, fmap_rev, rev_involutive. by apply filter_omap_sorted.
Qed.

(** ** All pages of a scan *)

Definition conversation_matches (st : State) (query : ConversationQuery) (c : ConversationRecord) : Prop :=
  conversations (conversation_tables st) !! c_id c = Some c /\
  match cq_ownerConversationId query with
  | None => True
  | Some k => ol_conversationId <$> c_owner c = Some k
  end /\
  match cq_ownerTaskId query with None => True | Some k => ol_taskId <$> c_owner c = Some k end.

(** Collecting the pages ends and gives the matching records, each once and in order. *)
Lemma scanTasks_all m query limit :
  usable m -> 0 < limit -> valid_order (tq_order query) ->
  exists L,
    (forall fuel, length L < fuel -> scanAll fuel (scanTasks m query limit) None [] = Some (Ok (clone L))) /\
    ordered (order_or (tq_order query) ascending) (t_id <$> L) /\
    forall r, r ∈ L <-> tasks (task_tables (state m)) !! t_id r = Some r /\ keep_task query r = true /\
                        match tq_status query with Some s => t_status r = s | None => True end.
Proof.
  intros Hu Hlim Hv. eexists. split; [intros fuel Hf; by eapply scanAll_spec; [by apply scanTasks_paged|..]|].
  pose proof (si_tasks _ _ _ _ (us_inv _ Hu)) as [Hid Hids Hst]. split.
  - apply scan_matches_ordered; [done|]. unfold task_ids. destruct (tq_status query); [apply Hst|apply Hids].
  - intros r. rewrite scan_matches_elem. unfold task_ids. split.
    + intros (Hk & id & Hin & Hr). rewrite (Hid id r Hr). split_and!; [done|done|].
      destruct (tq_status query) as [st|]; [|done]. apply (proj2 (Hst st) id) in Hin as (r' & Hr' & <-). congruence.
    + intros (Hr & Hk & Hs). split; [done|]. exists (t_id r). split; [|done].
      destruct (tq_status query) as [st|]; [apply (proj2 (Hst st)); by exists r|apply (proj2 Hids); by eexists].
Qed.

Lemma scanConversations_all m query limit :
  usable m -> 0 < limit -> valid_order (cq_order query) ->
  exists L,
    (forall fuel, length L < fuel -> scanAll fuel (scanConversations m query limit) None [] = Some (Ok (clone L))) /\
    ordered (order_or (cq_order query) ascending) (c_id <$> L) /\
    forall c, c ∈ L <-> conversation_matches (state m) query c.
Proof.
  intros Hu Hlim Hv. eexists. split; [intros fuel Hf; by eapply scanAll_spec; [by apply scanConversations_paged|..]|].
  pose proof (si_conversations _ _ _ _ (us_inv _ Hu)) as [Hid Hids Hc Ht]. split.
  - apply scan_matches_ordered; [done|]. unfold conversation_ids.
    destruct (cq_ownerTaskId query), (cq_ownerConversationId query); first [apply Ht|apply Hc|apply Hids].
  - intros c. rewrite scan_matches_elem. unfold conversation_ids, conversation_matches, keep_conversation.
    assert (Hkeep : match cq_ownerConversationId query with
                    | None => true | Some k => bool_decide (ol_conversationId <$> c_owner c = Some k) end = true <->
                    match cq_ownerConversationId query with
                    | None => True | Some k => ol_conversationId <$> c_owner c = Some k end).
    { destruct (cq_ownerConversationId query); [apply bool_decide_eq_true|done]. }
    rewrite Hkeep. split.
    + intros (Hk & id & Hin & Hr). rewrite (Hid id c Hr). split_and!; [done|done|].
      destruct (cq_ownerTaskId query) as [k|]; [|done]. apply (proj2 (Ht k) id) in Hin as (c' & o & Hr' & Ho & <-).
      assert (c' = c) as -> by congruence. by rewrite Ho.
    + intros (Hr & Hk & Hs). split; [done|]. exists (c_id c). split; [|done].
      destruct (cq_ownerTaskId query) as [k|].
      * apply (proj2 (Ht k)). destruct (c_owner c) as [o|] eqn:Ho; [|done]. injection Hs as <-. by exists c, o.
      * destruct (cq_ownerConversationId query) as [k|]; [|apply (proj2 Hids); by eexists].
        apply (proj2 (Hc k)). destruct (c_owner c) as [o|] eqn:Ho; [|done]. injection Hk as <-. by exists c, o.
Qed.

(** ** Documents of a scope *)

Lemma scan_loop_map {R R'} (f : R -> R') (get : N -> option R) (keep : R' -> bool) limit ids indexes : forall values,
  scan_loop (fun id => f <$> get id) keep limit ids indexes (f <$> values)
  = match scan_loop get (fun r => keep (f r)) limit ids indexes values with Ok vs => Ok (f <$> vs) | Throw e => Throw e end.
Proof.
  induction indexes as [|i indexes IH]; intros values; [done|]. cbn [scan_loop]. rewrite length_fmap.
  destruct (limit <? length values)%nat; [done|]. destruct (ids !! i) as [id|]; [|done]. cbn [mbind option_bind].
  destruct (get id) as [r|]; [|done]. cbn [fmap option_fmap option_map res_of mbind res_bind].
  rewrite <- IH. f_equal. destruct (keep (f r)); [by rewrite fmap_app|done].
Qed.

Definition keep_record (query : DocumentQuery) (r : DocumentRecord) : bool :=
  matches_opt (dq_kind query) (dc_kind (d_create r)) && isAliveAt r (dq_at query).

Abbreviation record_id := (fun r : DocumentRecord => dc_id (d_create r)).
Abbreviation record_at m id := (st_record <$> documents (document_tables (state m)) !! id).

Definition document_ids (m : MemoryStorage) (query : DocumentQuery) : list N :=
  default [] (documentIdsByScope (document_tables (state m)) !! scopeKey (dq_scope query)).

Lemma scanDocuments_scan m query limit cursor after : usable m -> cursorId cursor = Ok after ->
  scanDocuments m query limit cursor
  = scan (fun id => record_at m id) record_id (keep_record query) (document_ids m query) {| ss_order := ascending; ss_after := after |} limit.
Proof.
  intros Hu Hc. unfold scanDocuments, assertOpen. rewrite (us_open _ Hu), Hc. cbn [negb check mbind res_bind].
  unfold scan, document_ids. cbn [ss_order].
  pose proof (scan_loop_map st_record (fun id => documents (document_tables (state m)) !! id) (keep_record query) limit
    (default [] (documentIdsByScope (document_tables (state m)) !! scopeKey (dq_scope query)))
    (scanIndexes (default [] (documentIdsByScope (document_tables (state m)) !! scopeKey (dq_scope query))) {| ss_order := ascending; ss_after := after |}) []) as E.
  change (st_record <$> []) with (@nil DocumentRecord) in E. rewrite E. clear E.
  change (fun r => keep_record query (st_record r)) with (keep_document query). by destruct (scan_loop _ _ _ _ _ []).
Qed.

Lemma scanDocuments_paged m query limit : usable m -> 0 < limit ->
  PagedScan record_id (scanDocuments m query limit) limit ascending
    (scan_matches (fun id => record_at m id) (keep_record query) (document_ids m query) ascending).
Proof.
  intros Hu Hlim. pose proof (si_documents _ _ _ _ (us_inv _ Hu)) as Hd.
  assert (Hids : StronglySorted N.lt (document_ids m query) /\ forall id : N, id ∈ document_ids m query -> is_Some (record_at m id)).
  { destruct (di_scopes _ (doc_index _ _ Hd) (scopeKey (dq_scope query))) as [Hs Hin]. split; [exact Hs|].
    intros id (o & -> & _)%Hin. by eexists. }
  assert (Hid : forall (id : N) r, record_at m id = Some r -> record_id r = id).
  { intros id r H. destruct (documents (document_tables (state m)) !! id) as [o|] eqn:Ho; [|done]. injection H as <-.
    apply (inc_id _ _ _ (doc_incarnations _ _ Hd _ _ Ho)). }
  destruct Hids as [Hsort Hget]. split.
  - rewrite (scanDocuments_scan m query limit None None Hu eq_refl). by apply scan_spec.
  - intros A r B HL. pose proof HL as (SA & x & SB & _ & Hx & _)%omap_filter_split.
    rewrite (scanDocuments_scan m query limit _ (Some (Z.of_N (record_id r))) Hu).
    + by apply (scan_resume (fun id => record_at m id) record_id (keep_record query) (document_ids m query) ascending limit A).
    + assert (Hsafe : (Z.of_N (record_id r) <= MAX_SAFE_INTEGER)%Z).
      { rewrite (Hid x r Hx). apply (usable_id m x TDocument Hu). cbn. by destruct (documents _ !! x). }
      pose proof (scanStart_again None ascending (record_id r) I Hsafe) as E. unfold scanStart, cursorId in *. cbn [mbind option_bind res_bind] in *.
      destruct (obj_get "after" _) as [v|]; [|done]. cbn [mbind option_bind] in *. by destruct (safe_integer v) as [z|]; cbn in *; simplify_eq.
Qed.

(** Collecting the pages ends and gives the documents of the scope that are alive at the
    point, each once. *)
Lemma scanDocuments_all m query limit : usable m -> 0 < limit ->
  exists L,
    (forall fuel, length L < fuel -> scanAll fuel (scanDocuments m query limit) None [] = Some (Ok (clone L))) /\
    StronglySorted N.lt (record_id <$> L) /\
    forall r, r ∈ L <-> record_at m (record_id r) = Some r /\ dc_scope (d_create r) = dq_scope query /\ keep_record query r = true.
Proof.
  intros Hu Hlim. pose proof (si_documents _ _ _ _ (us_inv _ Hu)) as Hd. eexists. split; [intros fuel Hf; by eapply scanAll_spec; [by apply scanDocuments_paged|..]|].
  destruct (di_scopes _ (doc_index _ _ Hd) (scopeKey (dq_scope query))) as [Hs Hin].
  assert (Hid : forall (id : N) r, record_at m id = Some r -> record_id r = id).
  { intros id r H. destruct (documents (document_tables (state m)) !! id) as [o|] eqn:Ho; [|done]. injection H as <-.
    apply (inc_id _ _ _ (doc_incarnations _ _ Hd _ _ Ho)). }
  split.
  - by apply (scan_matches_ordered (fun id => record_at m id) record_id (keep_record query) (document_ids m query) ascending).
  - intros r. rewrite scan_matches_elem. split.
    + intros (Hk & id & (o & Ho & Ek)%Hin & Hr). rewrite (Hid id r Hr). split; [done|]. split; [|done].
      rewrite Ho in Hr. injection Hr as <-. by apply scopeKey_inj.
    + intros (Hr & Esc & Hk). split; [done|]. exists (record_id r). split; [|done]. apply Hin.
      destruct (documents (document_tables (state m)) !! record_id r) as [o|]; [|done]. injection Hr as Er. exists o.
      unfold scope_of. by rewrite Er, Esc.
Qed.
