(* ===== verification/VisibleFacts.v ===== *)
(** The entries visible from a conversation: its own and, up the chain of forks, those of
    its ancestors up to the fork. Both walks of [MemoryStorage] return exactly these, in
    the two orders; a chain has no more conversations than the ID says, so the fuel is
    enough; scans over them are paged. *)
From S2P Require Import Prelude JsString Json StorageTypes SortedIds MemoryCommit DocumentFacts TableFacts.
From S2P Require Import MemoryFacts MemoryRead ReadFacts.
From Stdlib Require Import Sorted.

(** ** The specification *)

Definition in_range (lower upper : bound) (id : N) : bool := negb (id_lt id lower) && id_le id upper.

Definition own_ids (st : State) (c : N) : list N := default [] (entryIds (entry_tables st) !! c).

Definition parent_of (st : State) (c : N) : option ParentLink :=
  r ← conversations (conversation_tables st) !! c; c_parent r.

(** An entry is visible from its conversation and from the forks after it. *)
Inductive visible (st : State) : N -> N -> Prop :=
| visible_own c id : id ∈ own_ids st c -> visible st c id
| visible_fork c p id :
    parent_of st c = Some p -> visible st (pl_conversationId p) id -> (id <= pl_at p)%N -> visible st c id.

(** The parent of a conversation exists and is older. *)
Definition ancestry_ok (st : State) : Prop :=
  forall c r p, conversations (conversation_tables st) !! c = Some r -> c_parent r = Some p ->
    (pl_conversationId p < c)%N /\ is_Some (conversations (conversation_tables st) !! pl_conversationId p).

(** A fork's own entries are newer than the entry it forked at. *)
Definition forks_ok (st : State) : Prop :=
  forall c p id, parent_of st c = Some p -> id ∈ own_ids st c -> (pl_at p < id)%N.

Definition entries_sorted (st : State) : Prop := forall c, StronglySorted N.lt (own_ids st c).

Lemma storage_entries_sorted m : storage_inv m -> entries_sorted (state m).
Proof.
  intros Hi c. pose proof (en_ids _ _ (si_entries _ _ _ _ Hi) c) as [Hs _]. exact Hs.
Qed.

(** ** Ranges *)

Lemma filter_and (p q : N -> bool) (l : list N) :
  filter (fun x => p x = true) (filter (fun x => q x = true) l) = filter (fun x => p x && q x = true) l.
Proof.
  induction l as [|x l IH]; [done|]. rewrite !filter_cons.
  destruct (decide (q x = true)) as [Hq|Hq]; rewrite ?filter_cons;
    destruct (decide (p x = true)) as [Hp|Hp]; destruct (decide (p x && q x = true)) as [H|H];
    rewrite ?IH; try done; exfalso; rewrite andb_true_iff in H; tauto.
Qed.

Lemma filter_sorted (P : N -> Prop) `{!forall x, Decision (P x)} l :
  StronglySorted N.lt l -> StronglySorted N.lt (filter P l).
Proof.
  induction 1 as [|x l Hl IH Hx]; [constructor|]. rewrite filter_cons. case_decide; [|done].
  constructor; [done|]. rewrite Forall_forall in *. intros y [_ Hy]%list_elem_of_filter. by apply Hx.
Qed.

(** The walk from the newest entry of one conversation. *)
Lemma take_down_spec ids lower n :
  StronglySorted N.lt ids -> n <= length ids ->
  take_down ids lower n = rev (filter (fun id => negb (id_lt id lower) = true) (take n ids)).
Proof.
  intros Hs. induction n as [|n IH]; intros Hn; [done|]. cbn [take_down].
  destruct (lookup_lt_is_Some_2 ids n ltac:(lia)) as [x Hx]. rewrite Hx.
  rewrite (take_S_r _ _ _ Hx), filter_app. destruct (id_lt x lower) eqn:Hl.
  - rewrite (filter_none _ [x]), app_nil_r by (intros y ->%list_elem_of_singleton; by rewrite Hl).
    rewrite (filter_none _ (take n ids)); [done|]. intros y Hy.
    apply list_elem_of_lookup in Hy as [i Hi]. apply lookup_take_Some in Hi as [Hi Hin].
    pose proof (StronglySorted_lookup ids i n y x Hs Hi Hx Hin) as Hyx.
    destruct lower; cbn in *; try done. apply Z.ltb_lt in Hl. rewrite (proj2 (Z.ltb_lt _ _)); [done|lia].
  - rewrite (filter_id _ [x]) by (by intros y ->%list_elem_of_singleton; rewrite Hl).
    rewrite rev_app_distr. cbn. by rewrite IH by lia.
Qed.

Lemma own_down ids lower upper :
  StronglySorted N.lt ids ->
  take_down ids lower (upperBound ids upper) = rev (filter (fun id => in_range lower upper id = true) ids).
Proof.
  intros Hs. rewrite take_down_spec by (try done; apply bisect_le; lia).
  rewrite (proj1 (upperBound_ids_spec ids upper Hs)). by rewrite filter_and.
Qed.

Lemma take_up_spec ids upper :
  StronglySorted N.lt ids -> take_up ids upper = filter (fun id => id_le id upper = true) ids.
Proof.
  induction 1 as [|x l Hl IH Hx]; [done|]. cbn [take_up]. rewrite filter_cons.
  destruct (id_le x upper) eqn:Hle.
  - rewrite decide_True by done. by rewrite IH.
  - rewrite decide_False by done. rewrite filter_none; [done|]. intros y Hy.
    rewrite Forall_forall in Hx. specialize (Hx y Hy). destruct upper; cbn in *; try done.
    apply Z.leb_gt in Hle. rewrite (proj2 (Z.leb_gt _ _)); [done|lia].
Qed.

Lemma own_up ids lower upper :
  StronglySorted N.lt ids ->
  take_up (drop (lowerBound ids lower) ids) upper = filter (fun id => in_range lower upper id = true) ids.
Proof.
  intros Hs. rewrite (proj2 (lowerBound_ids_spec ids lower Hs)). rewrite take_up_spec by by apply filter_sorted.
  transitivity (filter (fun x => id_le x upper && negb (id_lt x lower) = true) ids).
  - rewrite <- filter_and. f_equal. apply list_filter_iff. intros x. by destruct (id_lt x lower).
  - apply list_filter_iff. intros x. unfold in_range. by rewrite andb_comm.
Qed.

(** ** The two walks *)

Definition segment_down (st : State) (lower : bound) (segment : N * bound) : list N :=
  rev (filter (fun id => in_range lower segment.2 id = true) (own_ids st segment.1)).

Definition res_fmap {E A B} (f : A -> B) (r : res E A) : res E B := x ← r; Ok (f x).

Lemma visible_ids_segments st fuel : forall c lower upper,
  entries_sorted st ->
  visible_ids fuel st c lower upper
  = res_fmap (fun chain => concat (segment_down st lower <$> chain)) <$> segments fuel st c lower upper.
Proof.
  induction fuel as [|fuel IH]; intros c lower upper Hs; [done|]. cbn [visible_ids segments].
  fold (own_ids st c). rewrite own_down by apply Hs.
  destruct (conversations (conversation_tables st) !! c) as [r|]; [|done].
  destruct (c_parent r) as [p|]; cbn; [|by rewrite app_nil_r].
  destruct (bound_lt _ lower); cbn; [by rewrite app_nil_r|].
  rewrite IH by done. by destruct (segments fuel st _ lower _) as [[chain|e]|].
Qed.

Lemma concat_rev {A} (ls : list (list A)) : concat (rev ls) = rev (concat (@rev A <$> ls)).
Proof.
  induction ls as [|l ls IH]; [done|]. cbn. rewrite concat_app, IH, rev_app_distr, rev_involutive. cbn.
  by rewrite app_nil_r.
Qed.

Lemma visible_ascending st fuel c lower upper :
  entries_sorted st ->
  visibleEntriesAscending fuel st c lower upper = res_fmap (@rev N) <$> visibleEntries fuel st c lower upper.
Proof.
  intros Hs. unfold visibleEntriesAscending, visibleEntries.
  destruct (conversations (conversation_tables st) !! c); [|done].
  rewrite visible_ids_segments by done. destruct (segments fuel st c lower upper) as [[chain|e]|]; [|done..].
  cbn. do 2 f_equal. rewrite fmap_rev, concat_rev. do 2 f_equal.
  rewrite <- list_fmap_compose. apply list_fmap_ext. intros i seg _. cbn.
  unfold segment_ids, segment_down. fold (own_ids st seg.1). by rewrite own_up by apply Hs.
Qed.

(** ** What is visible *)

Lemma id_le_min id b z : id_le id (bound_min b z) = id_le id b && (id <=? z)%N.
Proof.
  destruct b as [|x|]; cbn; [done| |].
  - destruct (Z.leb_spec (Z.of_N id) (Z.min x (Z.of_N z))), (Z.leb_spec (Z.of_N id) x), (N.leb_spec id z);
      cbn; lia.
  - destruct (Z.leb_spec (Z.of_N id) (Z.of_N z)), (N.leb_spec id z); cbn; lia.
Qed.

Lemma in_range_min lower upper z id :
  in_range lower (bound_min upper z) id = in_range lower upper id && (id <=? z)%N.
Proof. unfold in_range. by rewrite id_le_min, andb_assoc. Qed.

Lemma bound_lt_empty lower upper id : bound_lt upper lower = true -> in_range lower upper id = false.
Proof.
  unfold in_range. destruct lower, upper; cbn; try done; intros H.
  - by rewrite andb_false_r.
  - apply Z.ltb_lt in H. destruct (Z.ltb_spec (Z.of_N id) z), (Z.leb_spec (Z.of_N id) z0); cbn; lia.
Qed.

Lemma visible_iff st c id :
  visible st c id <->
  id ∈ own_ids st c \/ exists p, parent_of st c = Some p /\ visible st (pl_conversationId p) id /\ (id <= pl_at p)%N.
Proof.
  split.
  - intros [|? p]; [by left|right; by exists p].
  - intros [?|(p & ? & ? & ?)]; [by apply visible_own|by eapply visible_fork].
Qed.

Lemma visible_ids_spec st fuel : forall c lower upper,
  entries_sorted st -> ancestry_ok st -> is_Some (conversations (conversation_tables st) !! c) ->
  N.to_nat c < fuel ->
  exists ids, visible_ids fuel st c lower upper = Some (Ok ids) /\
    (forall id, id ∈ ids <-> visible st c id /\ in_range lower upper id = true) /\
    (forks_ok st -> StronglySorted N.lt (rev ids)).
Proof.
  induction fuel as [|fuel IH]; intros c lower upper Hs Ha [r Hr] Hfuel; [lia|]. cbn [visible_ids].
  fold (own_ids st c). rewrite own_down by apply Hs. rewrite Hr.
  assert (Hp : parent_of st c = c_parent r) by (unfold parent_of; by rewrite Hr).
  assert (Hown : forall id, id ∈ rev (filter (fun id => in_range lower upper id = true) (own_ids st c))
                 <-> id ∈ own_ids st c /\ in_range lower upper id = true).
  { intros id. rewrite list_elem_of_In, <- in_rev, <- list_elem_of_In, list_elem_of_filter. tauto. }
  assert (Hso : StronglySorted N.lt (filter (fun id => in_range lower upper id = true) (own_ids st c)))
    by apply filter_sorted, Hs.
  destruct (c_parent r) as [p|] eqn:Hcp.
  2: { eexists. split; [done|]. rewrite rev_involutive. split; [|done]. intros id.
       rewrite Hown, (visible_iff st c). rewrite Hp. naive_solver. }
  destruct (Ha c r p Hr Hcp) as [Hlt Hpar].
  destruct (bound_lt (bound_min upper (pl_at p)) lower) eqn:Hb.
  - eexists. split; [done|]. rewrite rev_involutive. split; [|done]. intros id.
    rewrite Hown, (visible_iff st c), Hp. split; [tauto|]. intros [[Hin|(q & [= <-] & _ & Hle)] Hrg]; [done|].
    pose proof (bound_lt_empty _ _ id Hb) as Hf. rewrite in_range_min, Hrg in Hf. cbn in Hf.
    apply N.leb_gt in Hf. lia.
  - destruct (IH (pl_conversationId p) lower (bound_min upper (pl_at p)) Hs Ha Hpar ltac:(lia))
      as (rest & -> & Hrest & Hsort).
    eexists. split; [done|]. split.
    + intros id. rewrite elem_of_app, Hown, Hrest, (visible_iff st c), Hp, in_range_min, andb_true_iff, N.leb_le.
      naive_solver.
    + intros Hf. rewrite rev_app_distr, rev_involutive. apply StronglySorted_app_lt. split; [by apply Hsort|].
      split; [done|]. intros x y Hx Hy. rewrite list_elem_of_In, <- in_rev, <- list_elem_of_In in Hx.
      apply list_elem_of_filter in Hy as [_ Hy]. specialize (Hf c p y Hp Hy).
      apply Hrest in Hx as [_ Hx]. rewrite in_range_min, andb_true_iff, N.leb_le in Hx. lia.
Qed.

(** ** Scans over visible entries *)

Lemma id_lt_max id b z : id_lt id (bound_max b z) = id_lt id b || (Z.of_N id <? z)%Z.
Proof.
  destruct b as [|x|]; cbn; [done| |done].
  destruct (Z.ltb_spec (Z.of_N id) (Z.max x z)), (Z.ltb_spec (Z.of_N id) x), (Z.ltb_spec (Z.of_N id) z);
    cbn; lia.
Qed.

Lemma id_le_minZ id b z : id_le id (bound_minZ b z) = id_le id b && (Z.of_N id <=? z)%Z.
Proof.
  destruct b as [|x|]; cbn; [done| |done].
  destruct (Z.leb_spec (Z.of_N id) (Z.min x z)), (Z.leb_spec (Z.of_N id) x), (Z.leb_spec (Z.of_N id) z);
    cbn; lia.
Qed.

Lemma indexes_suffix F P A x B :
  indexes F P -> F = A ++ x :: B -> indexes B (fun y => P y /\ (x < y)%N) /\ indexes A (fun y => P y /\ (y < x)%N).
Proof.
  intros [Hs HP] ->. apply StronglySorted_app_lt in Hs as (HA & HB & HAB).
  apply StronglySorted_inv in HB as [HB Hx]. rewrite Forall_forall in Hx.
  split; (split; [done|]); intros y; rewrite <- HP, elem_of_app, elem_of_cons.
  - split; [intros Hy; split; [tauto|by apply Hx]|]. intros [[Hy|[->|Hy]] Hlt]; [|lia|done].
    specialize (HAB y x Hy ltac:(by left)). lia.
  - split; [intros Hy; split; [tauto|apply HAB; [done|by left]]|]. intros [[Hy|[->|Hy]] Hlt]; [done|lia|].
    specialize (Hx y Hy). lia.
Qed.

Definition entry_list (st : State) (ids : list N) : list EntryRecord :=
  omap (fun id => entries (entry_tables st) !! id) ids.

Lemma entry_records_ok st ids :
  (forall id, id ∈ ids -> is_Some (entries (entry_tables st) !! id)) ->
  entry_records (entry_tables st) ids = Ok (entry_list st ids).
Proof.
  induction ids as [|id ids IH]; intros Hk; [done|]. unfold entry_records, entry_list. cbn.
  destruct (Hk id ltac:(by left)) as [e He]. rewrite He. cbn. unfold entry_records in IH.
  rewrite IH; [done|]. intros i Hi. apply Hk. by right.
Qed.

Section Entries.
Context (m : MemoryStorage) (Hu : usable m).
Context (Ha : ancestry_ok (state m)) (Hf : forks_ok (state m)).

Lemma visible_stored c id : visible (state m) c id -> exists e, entries (entry_tables (state m)) !! id = Some e /\ e_id e = id.
Proof.
  intros Hv. pose proof (si_entries _ _ _ _ (us_inv _ Hu)) as He.
  induction Hv as [c id Hin|]; [|done].
  apply (en_ids _ _ He c) in Hin as (e & Hg & _). exists e. split; [done|]. by eapply en_id.
Qed.

Lemma entry_list_ids c ids :
  (forall id, id ∈ ids -> visible (state m) c id) -> e_id <$> entry_list (state m) ids = ids.
Proof.
  induction ids as [|id ids IH]; intros Hv; [done|]. unfold entry_list. cbn.
  destruct (visible_stored c id) as (e & -> & Hid); [apply Hv; by left|]. cbn. rewrite Hid. f_equal.
  apply IH. intros i Hi. apply Hv. by right.
Qed.

Lemma entry_list_of l :
  Forall (fun e => entries (entry_tables (state m)) !! e_id e = Some e) l ->
  entry_list (state m) (e_id <$> l) = l.
Proof. induction 1 as [|e l He Hl IH]; [done|]. unfold entry_list in *. cbn. by rewrite He, IH. Qed.

Lemma entry_list_known ids :
  Forall (fun e => entries (entry_tables (state m)) !! e_id e = Some e) (entry_list (state m) ids).
Proof.
  apply Forall_forall. intros e (id & _ & Hg)%list_elem_of_omap.
  by rewrite (en_id _ _ (si_entries _ _ _ _ (us_inv _ Hu)) id e Hg).
Qed.

Definition in_order (order : ScanOrder) (ids : list N) : list N :=
  match order with ascending => ids | descending => rev ids end.

(** The bounds of a scan with a cursor. *)
Definition entry_lower (query : EntryQuery) (start : ScanStart) : bound :=
  match ss_after start, ss_order start with
  | Some after, ascending => bound_max (opt_bound NegInf (eq_minEntryId query)) (after + 1)
  | _, _ => opt_bound NegInf (eq_minEntryId query)
  end.

Definition entry_upper (query : EntryQuery) (start : ScanStart) : bound :=
  match ss_after start, ss_order start with
  | Some after, descending => bound_minZ (opt_bound PosInf (eq_maxEntryId query)) (after - 1)
  | _, _ => opt_bound PosInf (eq_maxEntryId query)
  end.

Lemma scanEntries_start fuel query limit cursor start :
  0 < limit -> is_Some (conversations (conversation_tables (state m)) !! eq_conversationId query) ->
  N.to_nat (eq_conversationId query) < fuel ->
  scanStart (eq_order query) cursor descending = Ok start ->
  exists ids,
    indexes ids (fun id => visible (state m) (eq_conversationId query) id /\
      in_range (entry_lower query start) (entry_upper query start) id = true) /\
    scanEntries fuel m query limit cursor
    = Some (Ok (page_of e_id limit (ss_order start) (entry_list (state m) (in_order (ss_order start) ids)))).
Proof.
  intros Hlim Hc Hfuel Hstart. pose proof (storage_entries_sorted m (us_inv _ Hu)) as Hs.
  destruct (visible_ids_spec (state m) fuel (eq_conversationId query) (entry_lower query start)
    (entry_upper query start) Hs Ha Hc Hfuel) as (ids & Hids & Hin & Hsort).
  assert (Hix : indexes (rev ids) (fun id => visible (state m) (eq_conversationId query) id /\
      in_range (entry_lower query start) (entry_upper query start) id = true)).
  { split; [by apply Hsort|]. intros id. rewrite <- Hin. by rewrite !list_elem_of_In, <- in_rev. }
  exists (rev ids). split; [done|]. unfold scanEntries, assertOpen. rewrite (us_open _ Hu), Hstart.
  cbn [mbind res_bind negb check]. cbv zeta. fold (entry_lower query start) (entry_upper query start).
  assert (Hrun : (match ss_order start with
               | descending => visibleEntries fuel (state m) (eq_conversationId query)
                   (entry_lower query start) (entry_upper query start)
               | ascending => visibleEntriesAscending fuel (state m) (eq_conversationId query)
                   (entry_lower query start) (entry_upper query start)
               end : option (sres (list N))) = Some (Ok (in_order (ss_order start) (rev ids)))).
  { rewrite visible_ascending by done. unfold visibleEntries. destruct Hc as [r Hr]. rewrite Hr, Hids.
    destruct (ss_order start); cbn; [done|]. by rewrite rev_involutive. }
  rewrite Hrun. cbn [mbind option_bind res_bind]. do 1 f_equal. unfold first_entries.
  assert (Hvis : forall id, id ∈ in_order (ss_order start) (rev ids) ->
    visible (state m) (eq_conversationId query) id).
  { intros id Hid. apply Hin. destruct (ss_order start); cbn in Hid.
    - by apply list_elem_of_In, in_rev, list_elem_of_In in Hid.
    - by rewrite rev_involutive in Hid. }
  rewrite entry_records_ok.
  2: { intros id Hid. destruct (visible_stored (eq_conversationId query) id) as (e & -> & _); [|by eexists].
       apply Hvis. rewrite <- (take_drop (S limit)), elem_of_app. by left. }
  cbn [mbind res_bind]. rewrite <- page_spec by done. f_equal.
  set (l := in_order _ _) in *. clearbody l. clear -Hvis Hu.
  revert Hvis. generalize (S limit). intros n. revert n. induction l as [|x l IH]; intros n Hvis; [by destruct n|].
  destruct n as [|n]; [done|]. unfold entry_list. cbn.
  destruct (visible_stored (eq_conversationId query) x) as (e & -> & _); [apply Hvis; by left|]. cbn. f_equal.
  apply IH. intros i Hi. apply Hvis. by right.
Qed.

Lemma scanEntries_fails fuel query limit cursor e :
  scanStart (eq_order query) cursor descending = Throw e ->
  scanEntries fuel m query limit cursor = Some (Throw e).
Proof. intros Hstart. unfold scanEntries, assertOpen. by rewrite (us_open _ Hu), Hstart. Qed.

Lemma visible_safe c id : visible (state m) c id -> (Z.of_N id <= MAX_SAFE_INTEGER)%Z.
Proof.
  intros Hv. destruct (visible_stored c id Hv) as (e & He & _). apply (usable_id m id TEntry Hu). by eexists.
Qed.

(** The entries a query asks for, in its order. *)
Definition query_entries (query : EntryQuery) (L : list EntryRecord) : Prop :=
  ordered (order_or (eq_order query) descending) (e_id <$> L) /\
  forall e, e ∈ L <-> entries (entry_tables (state m)) !! e_id e = Some e /\
    visible (state m) (eq_conversationId query) (e_id e) /\
    in_range (opt_bound NegInf (eq_minEntryId query)) (opt_bound PosInf (eq_maxEntryId query)) (e_id e) = true.

Lemma elem_of_entry_list ids e :
  e ∈ entry_list (state m) ids <-> e_id e ∈ ids /\ entries (entry_tables (state m)) !! e_id e = Some e.
Proof.
  unfold entry_list. rewrite list_elem_of_omap. split.
  - intros (id & Hid & Hg). by rewrite (en_id _ _ (si_entries _ _ _ _ (us_inv _ Hu)) id e Hg).
  - intros [? ?]. by exists (e_id e).
Qed.

Lemma in_order_elem order ids id : id ∈ in_order order ids <-> id ∈ ids.
Proof. destruct order; [done|]. cbn. by rewrite !list_elem_of_In, <- in_rev. Qed.

Lemma scanEntries_paged fuel query limit :
  0 < limit -> valid_order (eq_order query) ->
  is_Some (conversations (conversation_tables (state m)) !! eq_conversationId query) ->
  N.to_nat (eq_conversationId query) < fuel ->
  exists run L, (forall cursor, scanEntries fuel m query limit cursor = Some (run cursor)) /\
    query_entries query L /\ PagedScan e_id run limit (order_or (eq_order query) descending) L.
Proof.
  intros Hlim Hv Hc Hfuel.
  set (ord := order_or (eq_order query) descending).
  destruct (scanEntries_start fuel query limit None _ Hlim Hc Hfuel (scanStart_first _ descending Hv))
    as (ids & [Hids Hin] & Hfirst). cbn [ss_order] in Hfirst. fold ord in Hfirst.
  exists (fun cursor => default (Throw UndefinedValue) (scanEntries fuel m query limit cursor)),
    (entry_list (state m) (in_order ord ids)).
  assert (Hvis : forall id, id ∈ in_order ord ids -> visible (state m) (eq_conversationId query) id).
  { intros id Hid%in_order_elem. by apply Hin. }
  split; [|split; [split|split]].
  - intros cursor. destruct (scanStart (eq_order query) cursor descending) as [start|e] eqn:Hstart.
    + destruct (scanEntries_start fuel query limit cursor start Hlim Hc Hfuel Hstart) as (? & _ & ->). done.
    + by rewrite (scanEntries_fails fuel query limit cursor e Hstart).
  - rewrite (entry_list_ids (eq_conversationId query)) by done. fold ord. unfold ordered, in_order.
    destruct ord; [done|]. by rewrite rev_involutive.
  - intros e. rewrite elem_of_entry_list, in_order_elem, Hin. cbn. tauto.
  - by rewrite Hfirst.
  - intros A r B HL.
    assert (Hsplit : in_order ord ids = (e_id <$> A) ++ e_id r :: (e_id <$> B)).
    { by rewrite <- (entry_list_ids (eq_conversationId query) (in_order ord ids)), HL, fmap_app by done. }
    assert (HB : entry_list (state m) (e_id <$> B) = B).
    { apply entry_list_of. pose proof (entry_list_known (in_order ord ids)) as Hk. rewrite HL in Hk.
      apply Forall_app in Hk as [_ Hk]. by apply Forall_cons in Hk as [_ ?]. }
    assert (Hr : visible (state m) (eq_conversationId query) (e_id r)).
    { apply Hvis. rewrite Hsplit, elem_of_app. right. by left. }
    destruct (scanEntries_start fuel query limit _ _ Hlim Hc Hfuel
      (scanStart_again _ descending (e_id r) Hv (visible_safe _ _ Hr))) as (ids' & Hids' & Hnext).
    cbn [ss_order] in Hnext. fold ord in Hnext, Hids'. rewrite Hnext. unfold default, from_option, id.
    rewrite <- HB. do 3 f_equal. destruct ord eqn:Hord; cbn [in_order] in *.
    + eapply indexes_unique; [exact Hids'|].
      destruct (indexes_suffix _ _ _ _ _ (conj Hids Hin) Hsplit) as [Hsuf _].
      eapply indexes_ext; [exact Hsuf|]. intros id. cbn. unfold in_range.
      rewrite id_lt_max. rewrite negb_orb, !andb_true_iff, !negb_true_iff, Z.ltb_ge.
      assert ((e_id r < id)%N <-> (Z.of_N (e_id r) + 1 <= Z.of_N id)%Z) by lia. tauto.
    + rewrite <- (rev_involutive (e_id <$> B)). f_equal.
      assert (Hsplit' : ids = rev (e_id <$> B) ++ e_id r :: rev (e_id <$> A)).
      { rewrite <- (rev_involutive ids), Hsplit, rev_app_distr. cbn. by rewrite <- app_assoc. }
      eapply indexes_unique; [exact Hids'|].
      destruct (indexes_suffix _ _ _ _ _ (conj Hids Hin) Hsplit') as [_ Hpre].
      eapply indexes_ext; [exact Hpre|]. intros id. cbn. unfold in_range.
      rewrite id_le_minZ, !andb_true_iff, Z.leb_le.
      assert ((id < e_id r)%N <-> (Z.of_N id <= Z.of_N (e_id r) - 1)%Z) by lia. tauto.
Qed.
End Entries.

(** ** The newest head marker *)

Definition has_head (st : State) (id : N) : bool :=
  match entries (entry_tables st) !! id with Some e => is_some (e_head e) | None => false end.

Lemma own_heads t c :
  forall next, entry_inv next t ->
  default [] (headEntryIds t !! c)
  = filter (fun id => match entries t !! id with Some e => is_some (e_head e) | None => false end = true)
      (default [] (entryIds t !! c)).
Proof.
  intros next Hi. pose proof (en_ids _ _ Hi c) as Hids. pose proof (en_heads _ _ Hi c) as Hh.
  eapply indexes_unique; [exact Hh|]. split; [apply filter_sorted, Hids|]. intros id.
  rewrite list_elem_of_filter, (proj2 Hids id). cbn. split.
  - intros [Hb (e & He & Hc)]. rewrite He in Hb. exists e. by destruct (e_head e).
  - intros (e & He & Hc & [h Hh']). rewrite He, Hh'. split; [done|]. by exists e.
Qed.

Lemma bound_lt_NegInf b : bound_lt b NegInf = false.
Proof. by destruct b. Qed.

Lemma head_last_rev {A} (l : list A) : head (rev l) = last l.
Proof.
  induction l as [|x l IH] using rev_ind; [done|]. by rewrite rev_app_distr, last_snoc.
Qed.

Lemma head_app_nil {A} (l k : list A) : head (l ++ k) = match l with [] => head k | x :: _ => Some x end.
Proof. by destruct l. Qed.

Lemma filter_comm (p q : N -> bool) (l : list N) :
  filter (fun x => p x = true) (filter (fun x => q x = true) l)
  = filter (fun x => q x = true) (filter (fun x => p x = true) l).
Proof. rewrite !filter_and. apply list_filter_iff. intros x. by rewrite andb_comm. Qed.

Lemma head_marker_spec st fuel : forall next c upper ids,
  entry_inv next (entry_tables st) ->
  visible_ids fuel st c NegInf upper = Some (Ok ids) ->
  head_marker fuel st c upper = Some (Ok (head (filter (fun id => has_head st id = true) ids))).
Proof.
  induction fuel as [|fuel IH]; intros next c upper ids Hi; [done|]. cbn [visible_ids head_marker].
  rewrite (own_heads _ c next Hi). set (own := default [] (entryIds (entry_tables st) !! c)).
  assert (Hs : StronglySorted N.lt own) by apply (en_ids _ _ Hi c).
  set (heads := filter _ own). rewrite own_down by done. assert (Hsh : StronglySorted N.lt heads) by by apply filter_sorted.
  assert (Hle : filter (fun id => in_range NegInf upper id = true) own
                = filter (fun id => id_le id upper = true) own) by by apply list_filter_iff.
  rewrite Hle. set (mine := filter (fun id => id_le id upper = true) own).
  assert (Hmine : filter (fun id => has_head st id = true) (rev mine) = rev (take (upperBound heads upper) heads)).
  { rewrite filter_rev. f_equal. rewrite (proj1 (upperBound_ids_spec heads upper Hsh)). apply filter_comm. }
  pose proof (bisect_le (fun id => id_le id upper) heads (length heads) 0 (length heads) ltac:(lia)) as Hlen.
  fold (upperBound heads upper) in Hlen.
  destruct (conversations (conversation_tables st) !! c) as [r|]; [|done].
  intros Hv. assert (exists rest, ids = rev mine ++ rest /\
    (rest = [] /\ c_parent r = None \/ exists p, c_parent r = Some p /\
       visible_ids fuel st (pl_conversationId p) NegInf (bound_min upper (pl_at p)) = Some (Ok rest)))
    as (rest & -> & Hrest).
  { destruct (c_parent r) as [p|]; [|injection Hv as <-; exists []; rewrite app_nil_r; tauto].
    rewrite bound_lt_NegInf in Hv.
    destruct (visible_ids fuel st (pl_conversationId p) NegInf (bound_min upper (pl_at p))) as [[rest|e]|] eqn:Hrest;
      [|done..].
    injection Hv as <-. exists rest. split; [done|]. right. by exists p. }
  rewrite filter_app, Hmine, head_app_nil.
  destruct (upperBound heads upper) as [|index].
  - cbn. destruct Hrest as [[-> ->]|(p & -> & Hrest)]; [done|]. by apply (IH next).
  - destruct (lookup_lt_is_Some_2 heads index ltac:(lia)) as [x Hx].
    rewrite (take_S_r _ _ _ Hx), rev_app_distr, Hx. done.
Qed.

(** The entry is a head marker visible from the conversation, at or before the cutoff. *)
Definition is_marker (st : State) (c : N) (cutoff : bound) (e : EntryRecord) : Prop :=
  entries (entry_tables st) !! e_id e = Some e /\ is_Some (e_head e) /\
  visible st c (e_id e) /\ id_le (e_id e) cutoff = true.

(** The newest of them, or that there is none. *)
Definition newest_marker (st : State) (c : N) (cutoff : bound) (r : option EntryRecord) : Prop :=
  match r with
  | Some e => is_marker st c cutoff e /\ forall e', is_marker st c cutoff e' -> (e_id e' <= e_id e)%N
  | None => forall e, ~ is_marker st c cutoff e
  end.

Lemma findLatestHeadMarker_spec m fuel c atOrBefore :
  usable m -> ancestry_ok (state m) -> forks_ok (state m) ->
  is_Some (conversations (conversation_tables (state m)) !! c) -> N.to_nat c < fuel ->
  exists r, findLatestHeadMarker fuel m c atOrBefore = Some (Ok (clone r)) /\
    newest_marker (state m) c (opt_bound PosInf atOrBefore) r.
Proof.
  intros Hu Ha Hf Hc Hfuel. pose proof (storage_entries_sorted m (us_inv _ Hu)) as Hs.
  pose proof (si_entries _ _ _ _ (us_inv _ Hu)) as Hi.
  destruct (visible_ids_spec (state m) fuel c NegInf (opt_bound PosInf atOrBefore) Hs Ha Hc Hfuel)
    as (ids & Hids & Hin & Hsort). specialize (Hsort Hf).
  pose proof (head_marker_spec _ _ _ _ _ _ Hi Hids) as Hm.
  set (marked := filter (fun id => has_head (state m) id = true) ids) in Hm.
  assert (Hmark : forall id, id ∈ marked <-> exists e, e_id e = id /\
    entries (entry_tables (state m)) !! e_id e = Some e /\ is_Some (e_head e) /\
    visible (state m) c (e_id e) /\ id_le (e_id e) (opt_bound PosInf atOrBefore) = true).
  { intros id. unfold marked. rewrite list_elem_of_filter, Hin. unfold has_head, in_range. cbn. split.
    - intros (Hh & Hvis & Hle). destruct (entries (entry_tables (state m)) !! id) as [e|] eqn:He; [|done].
      pose proof (en_id _ _ Hi id e He) as Heid. exists e. rewrite Heid. destruct (e_head e); [|done]. by repeat split.
    - intros (e & <- & -> & [h ->] & ? & ?). by repeat split. }
  assert (Hsm : StronglySorted N.lt (rev marked)).
  { unfold marked. rewrite <- filter_rev. by apply filter_sorted. }
  unfold findLatestHeadMarker, assertOpen. rewrite (us_open _ Hu). destruct Hc as [r Hr]. rewrite Hr.
  cbn [mbind res_bind negb check is_some]. rewrite Hm. cbn [mbind option_bind res_bind].
  destruct marked as [|id rest]; cbn [head mbind res_bind].
  - exists None. split; [done|]. intros e He. destruct (Hmark (e_id e)) as [_ Hx].
    by specialize (Hx (ex_intro _ e (conj eq_refl He))) as ?%elem_of_nil.
  - destruct (proj1 (Hmark id) ltac:(by left)) as (e & <- & He & Hh & Hvis & Hle).
    exists (Some e). rewrite He. cbn. split; [done|]. split; [done|]. intros e' He'.
    destruct (Hmark (e_id e')) as [_ Hx]. specialize (Hx (ex_intro _ e' (conj eq_refl He'))).
    apply elem_of_cons in Hx as [->|Hx]; [done|]. cbn in Hsm. apply StronglySorted_app_lt in Hsm as (_ & _ & Hlt).
    specialize (Hlt (e_id e') (e_id e)). apply N.lt_le_incl, Hlt; [|by left].
    by rewrite list_elem_of_In, <- in_rev, <- list_elem_of_In.
Qed.

(** ** One entry *)

Lemma entry_visible_spec m fuel c id :
  usable m -> ancestry_ok (state m) -> is_Some (conversations (conversation_tables (state m)) !! c) ->
  N.to_nat c < fuel ->
  exists r, entry_visible fuel m c id = Some (Ok r) /\
    (visible (state m) c id -> exists e s, r = Some (clone e, s) /\
       entries (entry_tables (state m)) !! id = Some e /\ entryCommitSeqs (entry_tables (state m)) !! id = Some s) /\
    (~ visible (state m) c id -> r = None).
Proof.
  intros Hu Ha Hc Hfuel. pose proof (storage_entries_sorted m (us_inv _ Hu)) as Hs.
  pose proof (si_entries _ _ _ _ (us_inv _ Hu)) as Hi.
  destruct (visible_ids_spec (state m) fuel c (fin id) (fin id) Hs Ha Hc Hfuel) as (ids & Hids & Hin & _).
  assert (Hone : forall x, in_range (fin id) (fin id) x = true <-> x = id).
  { intros x. unfold in_range. cbn. rewrite andb_true_iff, negb_true_iff, Z.ltb_ge, Z.leb_le. lia. }
  setoid_rewrite Hone in Hin. unfold entry_visible, assertOpen, visibleEntries. rewrite (us_open _ Hu).
  destruct Hc as [cr Hcr]. rewrite Hcr, Hids. cbn [negb check mbind option_bind res_bind].
  destruct ids as [|i ids].
  - exists None. split; [done|]. split; [|done]. intros Hv.
    by pose proof (proj2 (Hin id) (conj Hv eq_refl)) as ?%elem_of_nil.
  - destruct (proj1 (Hin i) ltac:(by left)) as [Hv ->].
    destruct (visible_stored m Hu c id Hv) as (e & He & _). rewrite He. cbn.
    destruct (proj1 (en_seqs _ _ Hi id) ltac:(by eexists)) as [s Hseq]. rewrite Hseq. cbn.
    eexists. split; [done|]. split; [|done]. intros _. by exists e, s.
Qed.
