(* ===== verification/MemoryHistory.v ===== *)
(** Sequences of operations on a [MemoryStorage]: every reachable storage is consistent,
    commits store what they are given and never change stored conversations, entries or the
    history of documents, and a document's content is what its commits say. *)
From S2P Require Import Prelude JsString Json DeltaOp DeltaApply StorageTypes SortedIds MemoryCommit.
From S2P Require Import DocumentFacts TableFacts MemoryFacts MemoryRead.
From Stdlib Require Import Sorted.

(** ** Operations *)

Inductive storage_step : MemoryStorage -> MemoryStorage -> Prop :=
| step_commit m batches m' receipts outcome :
    commit m batches = Ok (m', receipts, outcome) -> storage_step m m'
| step_mint m m' id : mintId m = Ok (m', id) -> storage_step m m'
| step_close m : storage_step m (close m).

Definition later : MemoryStorage -> MemoryStorage -> Prop := rtc storage_step.

(** One accepted batch. *)
Definition committed_batch (m m' : MemoryStorage) : Prop :=
  exists writes p, prepareCommit m writes None = Ok p /\ applyPreparedCommit m p = Some m'.

Lemma mint_inv m m' id : mintId m = Ok (m', id) -> storage_inv m -> storage_inv m'.
Proof.
  unfold mintId. intros H Hi. inv_res. destruct Hi as [H1 H2 H3 H4 H5 H6 H7]. split; cbn; try done.
  intros i table Ht. specialize (H7 i table Ht). lia.
Qed.

Lemma close_inv m : storage_inv m -> storage_inv (close m).
Proof. intros [H1 H2 H3 H4 H5 H6 H7]. by split. Qed.

Lemma batch_spec m m' :
  storage_inv m -> committed_batch m m' -> storage_inv m' /\ exists writes p,
    prepareCommit m writes None = Ok p /\ committed m p m'.
Proof.
  intros Hi (writes & p & Hp & Ha). destruct (prepared_applies m writes None p Hi Hp) as (m1 & Hm1 & Hi1 & Hc).
  rewrite Ha in Hm1. injection Hm1 as <-. split; [done|]. by exists writes, p.
Qed.

Lemma prepared_seq m writes p : prepareCommit m writes None = Ok p -> p_seq p = nextSeq m.
Proof. intros H. unfold prepareCommit in H. by inv_res. Qed.

(** The commit loop applies accepted batches until one is refused. *)
Lemma commit_loop_spec batches : forall m seqs,
  storage_inv m ->
  exists m' n r,
    commit_loop m batches seqs
      = (m', seqs ++ ((fun i => (nextSeq m + N.of_nat i)%N) <$> seq 0 n), Some r) /\
    storage_inv m' /\ rtc committed_batch m m' /\ nextSeq m' = (nextSeq m + N.of_nat n)%N /\
    (nextId m <= nextId m')%N /\ closed m' = closed m /\
    n <= length batches /\ (r = None <-> n = length batches) /\
    (forall e, r = Some e -> exists writes, batches !! n = Some writes /\ prepareCommit m' writes None = Throw e).
Proof.
  induction batches as [|writes batches IH]; intros m seqs Hi; cbn [commit_loop].
  { exists m, 0, None. cbn. rewrite app_nil_r. split_and!; try done; try apply rtc_refl; lia. }
  destruct (prepareCommit m writes None) as [p|e] eqn:Hp.
  2: { exists m, 0, (Some e). cbn. rewrite app_nil_r. split_and!; try done; try apply rtc_refl; try lia.
       intros e' [= <-]. by exists writes. }
  destruct (prepared_applies m writes None p Hi Hp) as (m1 & Hm1 & Hi1 & Hc). rewrite Hm1.
  destruct (IH m1 (seqs ++ [p_seq p]) Hi1)
    as (m' & n & r & -> & Hi' & Hr & Hs & Hid & Hcl & Hn & Hrn & He).
  destruct (co_seq _ _ _ Hc) as [_ Hs1]. rewrite (prepared_seq _ _ _ Hp) in *.
  exists m', (S n), r. split.
  { f_equal. f_equal. rewrite <- app_assoc. f_equal. cbn. f_equal; [lia|]. rewrite <- fmap_S_seq.
    rewrite <- list_fmap_compose. apply list_fmap_ext. intros i x _. cbn. lia. }
  pose proof (co_next _ _ _ Hc). pose proof (co_closed _ _ _ Hc). cbn [length].
  split_and!; try done; try lia; try congruence.
  - eapply rtc_l; [|exact Hr]. by exists writes, p.
  - rewrite Hrn. lia.
Qed.

Lemma step_inv m m' : storage_step m m' -> storage_inv m -> storage_inv m'.
Proof.
  intros [m0 batches ? ? ? Hc|? ? ? Hm|?] Hi; [|by eapply mint_inv|by apply close_inv].
  unfold commit in Hc. inv_res.
  destruct (commit_loop_spec batches m0 [] Hi) as (m1 & n & r & E & Hi1 & _).
  rewrite E in Hc. by injection Hc as <- <- <-.
Qed.

Lemma later_inv m m' : later m m' -> storage_inv m -> storage_inv m'.
Proof. induction 1; [done|]. intros Hi. by apply IHrtc, (step_inv x). Qed.

(** What a step does to the state: nothing, or the batches of one commit. *)
Lemma step_batches m m' :
  storage_inv m -> storage_step m m' -> state m' = state m /\ (nextSeq m' = nextSeq m) \/ rtc committed_batch m m'.
Proof.
  intros Hi Hst. revert Hi. destruct Hst as [m0 batches ? ? ? Hc|? ? ? Hm|?]; intros Hi; [right|left|by left].
  - unfold commit in Hc. inv_res.
    destruct (commit_loop_spec batches m0 [] Hi) as (m1 & n & r & E & _ & Hr & _).
    rewrite E in Hc. by injection Hc as <- <- <-.
  - unfold mintId in Hm. by inv_res.
Qed.

(** A property kept by every batch holds later. *)
Lemma later_ind (P : State -> N -> Prop) m m' :
  (forall m1 m2, storage_inv m1 -> committed_batch m1 m2 -> P (state m1) (nextSeq m1) -> P (state m2) (nextSeq m2)) ->
  storage_inv m -> later m m' -> P (state m) (nextSeq m) -> P (state m') (nextSeq m').
Proof.
  intros Hstep Hi Hl. induction Hl as [|m1 m2 m3 Hs _ IH]; [done|]. intros HP.
  apply IH; [by eapply step_inv|]. destruct (step_batches _ _ Hi Hs) as [[-> ->]|Hr]; [done|].
  clear -Hstep Hi Hr HP. induction Hr as [|x y z Hxy _ IH]; [done|].
  apply IH; [by apply (batch_spec x)|by eapply Hstep].
Qed.

(** ** Records a batch writes *)

Section Written.
Context {R : Type} (get : State -> gmap N R) (id_of : R -> N) (pick : StorageWrite -> option R).

(** Each write of the batch inserts what [pick] reads from it. *)
Definition inserts : Prop :=
  forall seq st next w, get (apply_write seq (st, next) w).1
    = match pick w with Some v => <[id_of v := v]> (get st) | None => get st end.

(** The last record of the batch with the ID. *)
Definition written (id : N) (ws : list StorageWrite) : option R :=
  last (filter (fun v => id_of v = id) (omap pick ws)).

Lemma apply_writes_written seq ws id : inserts -> forall st next,
  get (foldl (apply_write seq) (st, next) ws).1 !! id
  = match written id ws with Some v => Some v | None => get st !! id end.
Proof.
  intros Hins. induction ws as [|w ws IH] using rev_ind; intros st next; [done|].
  rewrite foldl_snoc. destruct (foldl (apply_write seq) (st, next) ws) as [st1 next1] eqn:E.
  specialize (IH st next). rewrite E in IH. cbn [fst] in IH. rewrite Hins.
  unfold written in *. rewrite omap_app, filter_app. cbn.
  destruct (pick w) as [v|]; [|by rewrite app_nil_r]. rewrite filter_cons.
  destruct (decide (id_of v = id)) as [<-|Hne]; cbn.
  - by rewrite lookup_insert_eq, last_snoc.
  - by rewrite lookup_insert_ne, app_nil_r by done.
Qed.

(** Records whose IDs are used once keep their value. *)
Lemma written_once types ws table id :
  (forall w v, pick w = Some v -> claim w = Some (id_of v, table)) -> once table = true ->
  checkGlobalIds types ∅ ws = Ok tt -> is_Some (types !! id) -> written id ws = None.
Proof.
  intros Hpick Honce Hcheck [t Ht]. unfold written. rewrite filter_none; [done|].
  intros v (w & Hw & Hv)%list_elem_of_omap Hid. specialize (Hpick w v Hv). rewrite Hid in Hpick. clear Hv Hid.
  revert Hcheck. generalize (∅ : gmap N TableName).
  induction ws as [|w' ws IH]; intros claimed Hcheck; [by apply elem_of_nil in Hw|].
  destruct (checkGlobalIds_cons _ _ _ _ Hcheck) as (claimed' & Hcheck' & _ & Hown).
  apply elem_of_cons in Hw as [->|Hw]; [|by apply (IH Hw claimed')].
  specialize (Hown id table Hpick). rewrite Honce in Hown. destruct Hown. congruence.
Qed.
End Written.

Definition pick_conversation (w : StorageWrite) : option ConversationRecord :=
  match w with WConversation v => Some v | _ => None end.
Definition pick_entry (w : StorageWrite) : option EntryRecord :=
  match w with WEntry v => Some v | _ => None end.
Definition pick_task (w : StorageWrite) : option TaskRecord :=
  match w with WTask v => Some v | _ => None end.
Definition pick_submission (w : StorageWrite) : option SubmissionRecord :=
  match w with WSubmission v => Some v | _ => None end.

Definition conversations_of (st : State) := conversations (conversation_tables st).
Definition entries_of (st : State) := entries (entry_tables st).
Definition tasks_of (st : State) := tasks (task_tables st).
Definition submissions_of (st : State) := submissions (submission_tables st).

Lemma inserts_conversation : inserts conversations_of c_id pick_conversation.
Proof. by intros seq st next []. Qed.
Lemma inserts_entry : inserts entries_of e_id pick_entry.
Proof. by intros seq st next []. Qed.
Lemma inserts_task : inserts tasks_of t_id pick_task.
Proof. by intros seq st next []. Qed.
Lemma inserts_submission : inserts submissions_of s_id pick_submission.
Proof. by intros seq st next []. Qed.

Definition or_old {R} (new old : option R) : option R := match new with Some v => Some v | None => old end.

(** A commit stores the last record its batch has for an ID, and no other record changes. *)
Lemma committed_records m p m' id :
  committed m p m' ->
  conversations_of (state m') !! id
  = or_old (written c_id pick_conversation id (p_writes p)) (conversations_of (state m) !! id) /\
  entries_of (state m') !! id
  = or_old (written e_id pick_entry id (p_writes p)) (entries_of (state m) !! id) /\
  tasks_of (state m') !! id
  = or_old (written t_id pick_task id (p_writes p)) (tasks_of (state m) !! id) /\
  submissions_of (state m') !! id
  = or_old (written s_id pick_submission id (p_writes p)) (submissions_of (state m) !! id).
Proof.
  intros Hc. destruct (co_tables _ _ _ Hc) as (st & next & Hf & E1 & E2 & E3 & E4).
  unfold conversations_of, entries_of, tasks_of, submissions_of. rewrite E1, E2, E3, E4.
  pose proof (apply_writes_written _ _ _ (p_seq p) (p_writes p) id inserts_conversation (state m) (nextId m)) as H1.
  pose proof (apply_writes_written _ _ _ (p_seq p) (p_writes p) id inserts_entry (state m) (nextId m)) as H2.
  pose proof (apply_writes_written _ _ _ (p_seq p) (p_writes p) id inserts_task (state m) (nextId m)) as H3.
  pose proof (apply_writes_written _ _ _ (p_seq p) (p_writes p) id inserts_submission (state m) (nextId m)) as H4.
  rewrite Hf in H1, H2, H3, H4. done.
Qed.

(** Stored conversations and entries are immutable. *)
Lemma later_records m m' id :
  storage_inv m -> later m m' ->
  (forall c, conversations_of (state m) !! id = Some c -> conversations_of (state m') !! id = Some c) /\
  (forall e, entries_of (state m) !! id = Some e -> entries_of (state m') !! id = Some e).
Proof.
  intros Hi Hl.
  apply (later_ind (fun st _ =>
    (forall c, conversations_of (state m) !! id = Some c -> conversations_of st !! id = Some c) /\
    (forall e, entries_of (state m) !! id = Some e -> entries_of st !! id = Some e)) m m'); try done.
  intros m1 m2 Hi1 Hb [Hcv He]. destruct (batch_spec m1 m2 Hi1 Hb) as (_ & writes & p & _ & Hc).
  destruct (committed_records m1 p m2 id Hc) as (R1 & R2 & _ & _). pose proof (co_checked _ _ _ Hc) as Hck.
  split.
  - intros c Hcm. specialize (Hcv c Hcm). rewrite R1, (written_once _ _ (recordTypes (state m1)) _ TConversation); try done.
    + by intros [] v [= <-].
    + exists TConversation. apply (si_types _ _ _ _ Hi1). by exists c.
  - intros e Hem. specialize (He e Hem). rewrite R2, (written_once _ _ (recordTypes (state m1)) _ TEntry); try done.
    + by intros [] v [= <-].
    + exists TEntry. apply (si_types _ _ _ _ Hi1). by exists e.
Qed.

(** ** The content of documents *)

(** Content at a point: version, value and the number of deltas after the base. *)
Definition content_at (t : DocumentTables) (id : N) (at_ : DocumentPoint) : sres (option (N * json * nat)) :=
  match materializeDocument t id at_ with
  | Ok (Some s) => Ok (Some (sd_version s, sd_value s, sd_deltasSinceBase s))
  | Ok None => Ok None
  | Throw e => Throw e
  end.

(** The value of the newest base and the deltas after it. *)
Definition replay_from (id : N) (revisions : list DocumentRevision) : sres (option (N * json * nat)) :=
  match base_index revisions (length revisions) with
  | Some baseIndex =>
      match revisions !! baseIndex with
      | Some {| rv_version := version; rv_content := CBase base |} =>
          match replay id version (drop (S baseIndex) revisions) (Some base) with
          | Ok (Some v) => Ok (Some (version, v, length revisions - baseIndex - 1))
          | Ok None => Throw UndefinedValue
          | Throw e => Throw e
          end
      | _ => Throw (MissingBase id)
      end
  | None => Throw (MissingBase id)
  end.

Definition revisions_at (s : StoredDocumentState) (at_ : DocumentPoint) : list DocumentRevision :=
  match at_ with
  | PCurrent => st_revisions s
  | PSeq n => filter (fun r => (rv_seq r <= n)%N) (st_revisions s)
  end.

Definition needs_history (at_ : DocumentPoint) : bool := match at_ with PCurrent => false | PSeq _ => true end.

Lemma content_at_eq t id at_ s :
  documents t !! id = Some s ->
  content_at t id at_
  = if needs_history at_ && isCurrentOnly (st_record s) then Throw (NoHistory id)
    else if isAliveAt (st_record s) at_ then replay_from id (revisions_at s at_) else Ok None.
Proof.
  intros Hs. unfold content_at, materializeDocument, revisions_at. rewrite Hs.
  assert (Hr : forall revisions, replay_from id revisions =
    match (match base_index revisions (length revisions) with
           | Some baseIndex =>
               match revisions !! baseIndex with
               | Some {| rv_version := version; rv_content := CBase base |} =>
                   value ← replay id version (drop (S baseIndex) revisions) (Some base);
                   v ← res_of UndefinedValue value;
                   Ok (Some {| sd_record := st_record s; sd_version := version; sd_value := v;
                               sd_deltasSinceBase := length revisions - baseIndex - 1 |})
               | _ => Throw (MissingBase id)
               end
           | None => Throw (MissingBase id)
           end) with
    | Ok (Some s) => Ok (Some (sd_version s, sd_value s, sd_deltasSinceBase s))
    | Ok None => Ok None
    | Throw e => Throw e
    end).
  { intros revisions. unfold replay_from. destruct (base_index _ _) as [i|]; [|done].
    destruct (revisions !! i) as [[v [base|ops] q]|]; [|done..].
    by destruct (replay id v _ (Some base)) as [[x|]|]. }
  destruct at_ as [|n].
  - rewrite Hr. by destruct (isAliveAt (st_record s) PCurrent).
  - rewrite Hr. destruct (isCurrentOnly (st_record s)); [done|].
    by destruct (isAliveAt (st_record s) (PSeq n)).
Qed.

(** An action leaves the content before its commit. *)
Lemma doc_after_history id a old o' seq n :
  action_ok id a (Some old) -> doc_after a seq (Some old) = Some o' -> (n < seq)%N ->
  d_create (st_record o') = d_create (st_record old) /\
  isAliveAt (st_record o') (PSeq n) = isAliveAt (st_record old) (PSeq n) /\
  (isCurrentOnly (st_record old) = false -> revisions_at o' (PSeq n) = revisions_at old (PSeq n)).
Proof.
  intros Hok. unfold doc_after, doc_content. destruct (a_create a) as [c|] eqn:Hc.
  { by destruct (ok_create _ _ _ Hok c Hc) as (_ & ? & _). }
  pose proof (ok_live _ _ _ Hok old eq_refl) as Hlive. unfold live in Hlive.
  assert (Hadd : forall content, isCurrentOnly (st_record old) = false -> (n < seq)%N ->
    filter (fun r => (rv_seq r <= n)%N) (st_revisions (add_revision old content seq))
    = filter (fun r => (rv_seq r <= n)%N) (st_revisions old)).
  { intros content Hco Hn. unfold add_revision. cbn. rewrite Hco, andb_false_r, filter_app.
    rewrite (filter_none _ [_]); [by rewrite app_nil_r|]. intros r ->%list_elem_of_singleton. cbn. lia. }
  assert (Hret : forall s, isCurrentOnly (st_record s) = false ->
    st_revisions (retire s (is_some (None (A := DocumentCreate))) seq) = st_revisions s).
  { intros s Hco. unfold retire. cbn. unfold isCurrentOnly in *. cbn. by rewrite Hco. }
  destruct (a_content a) as [content|], (a_retire a); cbn [mbind option_bind];
    intros [= <-] Hn; (split; [done|]); split; try done; unfold revisions_at.
  - cbn. rewrite Hlive. by rewrite (proj2 (N.ltb_lt _ _) Hn).
  - intros Hco. rewrite Hret by done. by apply Hadd.
  - intros Hco. by apply Hadd.
  - cbn. rewrite Hlive. by rewrite (proj2 (N.ltb_lt _ _) Hn).
  - intros Hco. by rewrite Hret.
Qed.

(** The content of a stored document at a past commit never changes. *)
Lemma later_content m m' id n s :
  storage_inv m -> later m m' -> documents (document_tables (state m)) !! id = Some s -> (n < nextSeq m)%N ->
  content_at (document_tables (state m')) id (PSeq n) = content_at (document_tables (state m)) id (PSeq n).
Proof.
  intros Hi Hl Hs Hn.
  apply (later_ind (fun st next => (nextSeq m <= next)%N /\ is_Some (documents (document_tables st) !! id) /\
    content_at (document_tables st) id (PSeq n) = content_at (document_tables (state m)) id (PSeq n)) m m');
    [|done..|split_and!; [lia|by eexists|done]].
  intros m1 m2 Hi1 Hb (Hle & [o Ho] & Heq). destruct (batch_spec m1 m2 Hi1 Hb) as (_ & writes & p & _ & Hc).
  destruct (co_seq _ _ _ Hc) as [Hge Hnext]. pose proof (co_documents _ _ _ Hc id) as Hd.
  split; [lia|]. destruct (action_get id (p_actions p)) as [a|] eqn:Hg.
  2: { rewrite Hd. split; [by eexists|]. rewrite <- Heq. unfold content_at, materializeDocument. by rewrite Hd. }
  pose proof (co_actions _ _ _ Hc id a (action_get_Some _ _ _ Hg)) as Hok. rewrite Ho in Hok, Hd.
  destruct (doc_after a (p_seq p) (Some o)) as [o'|] eqn:Ha.
  2: { exfalso. unfold doc_after, doc_content in Ha. destruct (a_create a) as [c|] eqn:Hcr.
       - by destruct (ok_create _ _ _ Hok c Hcr) as (_ & ? & _).
       - by destruct (a_content a). }
  rewrite Hd. split; [by eexists|]. rewrite <- Heq.
  destruct (doc_after_history id a o o' (p_seq p) n Hok Ha ltac:(lia)) as (Hcr & Hal & Hrev).
  rewrite (content_at_eq _ _ _ _ Hd), (content_at_eq _ _ _ _ Ho), Hal.
  assert (Hco : isCurrentOnly (st_record o') = isCurrentOnly (st_record o)) by (unfold isCurrentOnly; by rewrite Hcr).
  rewrite Hco. destruct (isCurrentOnly (st_record o)); [done|]. by rewrite Hrev.
Qed.

(** Revisions as their newest base with its deltas. *)
Definition deltas_of (version : N) (ds : list DocumentRevision) : Prop :=
  Forall (fun r => rv_version r = version /\ is_base (rv_content r) = false) ds.

Lemma base_index_split pre r ds :
  is_base (rv_content r) = true -> Forall (fun d => is_base (rv_content d) = false) ds ->
  base_index (pre ++ r :: ds) (length (pre ++ r :: ds)) = Some (length pre).
Proof.
  intros Hr. induction ds as [|d ds IH] using rev_ind; intros Hds.
  - rewrite length_app. cbn [length]. rewrite Nat.add_1_r. cbn [base_index].
    rewrite list_lookup_middle by done. by rewrite Hr.
  - apply Forall_app in Hds as [Hds Hd]. apply Forall_cons in Hd as [Hd _].
    assert (Happ : pre ++ r :: ds ++ [d] = (pre ++ r :: ds) ++ [d]) by by rewrite <- app_assoc.
    rewrite Happ, (length_app _ [d]). cbn [length]. rewrite Nat.add_1_r. cbn [base_index].
    rewrite list_lookup_middle by done. rewrite Hd, <- (IH Hds).
    set (l := pre ++ r :: ds). generalize (le_n (length l)). generalize (length l) at 1 3 4.
    induction n as [|n IHn]; intros Hn; [done|]. cbn [base_index]. rewrite lookup_app_l by lia.
    destruct (l !! n) as [x|]; [destruct (is_base (rv_content x)); [done|]|]; apply IHn; lia.
Qed.

Lemma replay_from_split id pre v b q ds :
  deltas_of v ds ->
  replay_from id (pre ++ {| rv_version := v; rv_content := CBase b; rv_seq := q |} :: ds)
  = match replay id v ds (Some b) with
    | Ok (Some x) => Ok (Some (v, x, length ds))
    | Ok None => Throw UndefinedValue
    | Throw e => Throw e
    end.
Proof.
  intros Hds. unfold replay_from. rewrite base_index_split; [|done|by eapply Forall_impl; [exact Hds|]; intros ? []].
  rewrite list_lookup_middle by done.
  rewrite (drop_app_ge pre _ (S (length pre))) by lia. replace (S (length pre) - length pre) with 1 by lia.
  change (drop 1 ({| rv_version := v; rv_content := CBase b; rv_seq := q |} :: ds)) with (drop 0 ds).
  rewrite drop_0.
  destruct (replay id v ds (Some b)) as [[x|]|]; [|done..]. do 3 f_equal.
  rewrite length_app. cbn. lia.
Qed.

Lemma versions_ok_split v l r ds :
  versions_ok v (l ++ r :: ds) -> Forall (fun d => is_base (rv_content d) = false) ds -> deltas_of (rv_version r) ds.
Proof.
  revert v. induction l as [|x l IH]; intros v; cbn.
  - intros [_ Hv] Hds. revert r Hv. induction ds as [|d ds IH]; intros r; [constructor|].
    apply Forall_cons in Hds as [Hd Hds]. cbn. intros [[?|Hv] Hrest]; [congruence|].
    constructor; [done|]. rewrite <- Hv. by apply IH.
  - intros [_ H]. by apply (IH (rv_version x)).
Qed.

Lemma newest_base l :
  starts_with_base l ->
  exists pre v b q ds, l = pre ++ {| rv_version := v; rv_content := CBase b; rv_seq := q |} :: ds /\ deltas_of v ds.
Proof.
  intros Hl. assert (Hsplit : exists pre r ds, l = pre ++ r :: ds /\ is_base (rv_content r) = true /\
    Forall (fun d => is_base (rv_content d) = false) ds).
  { destruct l as [|r0 l]; [done|]. destruct Hl as [H0 _]. induction l as [|x l IH] using rev_ind.
    { exists [], r0, []. split_and!; [done|done|constructor]. }
    destruct (is_base (rv_content x)) eqn:Hx; [exists (r0 :: l), x, []; split_and!; [done|done|constructor]|].
    destruct IH as (pre & r & ds & E & Hr & Hds). exists pre, r, (ds ++ [x]). split.
    { change (r0 :: l ++ [x]) with ((r0 :: l) ++ [x]). rewrite E. by rewrite <- app_assoc. }
    split; [done|]. apply Forall_app. by repeat constructor. }
  destruct Hsplit as (pre & r & ds & -> & Hr & Hds). destruct r as [v [b|] q] eqn:Er; [|done].
  exists pre, v, b, q, ds. split; [done|]. rewrite <- Er in Hl.
  replace v with (rv_version r) by by rewrite Er. clear Er. destruct pre as [|p pre]; cbn in Hl.
  - destruct Hl as [Hb Hl]. apply (versions_ok_split (rv_version r) []); [|done]. split; [by left|done].
  - destruct Hl as [_ Hl]. by eapply versions_ok_split.
Qed.

(** A batch on a value leaves a value. *)
Lemma apply_op_some op x r : apply_op (Some x) op = Ok r -> is_Some r.
Proof.
  destruct op; cbn; try (by intros [= <-]).
  1-4: destruct (apply_key _ _ _); intros [= <-]; by eexists.
  all: destruct (apply_array _ _ _); intros [= <-]; by eexists.
Qed.

Lemma apply_some ops : forall x r, apply (Some x) ops = Ok r -> is_Some r.
Proof.
  unfold apply, applyOps. induction ops as [|raw ops IH]; intros x r; cbn; [by intros [= <-]|].
  intros H. inv_res. assert (Hs : is_Some v).
  { unfold apply_tuple in Hv. inv_res. by eapply apply_op_some. }
  destruct Hs as [y ->]. by eapply IH.
Qed.

Lemma replay_some id v ds : forall x r, replay id v ds (Some x) = Ok r -> is_Some r.
Proof.
  induction ds as [|d ds IH]; intros x r; cbn; [by intros [= <-]|].
  destruct (rv_content d) as [|ops]; [done|]. destruct (rv_version d =? v)%N; [|done].
  destruct (apply (Some x) (tuples ops)) as [y|] eqn:Hy; [|done].
  destruct (apply_some _ _ _ Hy) as [z ->]. apply IH.
Qed.

(** The content a delta makes of the content before it. *)
Definition content_step (content : DocumentContent) (before : sres (option (N * json * nat)))
  : sres (option (N * json * nat)) :=
  match dcn_content content with
  | CBase b => Ok (Some (dcn_version content, b, 0))
  | CDelta ops =>
      match before with
      | Ok (Some (v, x, n)) =>
          match apply (Some x) (tuples ops) with
          | Ok (Some y) => Ok (Some (v, y, S n))
          | Ok None => Throw UndefinedValue
          | Throw e => Throw (DeltaFailed e)
          end
      | r => r
      end
  end.

Lemma replay_app id v ds d ops x :
  deltas_of v ds -> rv_version d = v -> rv_content d = CDelta ops ->
  replay id v (ds ++ [d]) x
  = match replay id v ds x with
    | Ok y => match apply y (tuples ops) with Ok z => Ok z | Throw e => Throw (DeltaFailed e) end
    | Throw e => Throw e
    end.
Proof.
  intros Hds Hv Hc. revert x. induction Hds as [|r ds [Hrv Hrb] Hds IH]; intros x; cbn.
  - rewrite Hc, Hv, N.eqb_refl. by destruct (apply x (tuples ops)).
  - destruct (rv_content r) as [|ops']; [done|]. rewrite Hrv, N.eqb_refl.
    destruct (apply x (tuples ops')); [apply IH|done].
Qed.

Lemma replay_from_snoc id l content q :
  starts_with_base l ->
  (forall ops r, dcn_content content = CDelta ops -> last l = Some r -> dcn_version content = rv_version r) ->
  replay_from id (l ++ [revision_of content q]) = content_step content (replay_from id l).
Proof.
  intros Hl Hver. unfold content_step, revision_of. destruct content as [cv [b|ops]]; cbn in *.
  - by rewrite (replay_from_split id l cv b q []) by constructor.
  - destruct (newest_base l Hl) as (pre & v & b & bq & ds & -> & Hds).
    assert (Hcv : cv = v).
    { destruct ds as [|d ds] using rev_ind.
      - apply (Hver ops {| rv_version := v; rv_content := CBase b; rv_seq := bq |}); [done|].
        by rewrite last_snoc.
      - apply Forall_app in Hds as [_ Hd]. apply Forall_cons in Hd as [[Hd _] _]. rewrite <- Hd.
        apply (Hver ops d); [done|]. by rewrite app_comm_cons, app_assoc, last_snoc. }
    subst cv. rewrite <- app_assoc. cbn [app].
    rewrite !replay_from_split; [|done|apply Forall_app; by repeat constructor].
    rewrite (replay_app id v ds _ ops) by done.
    destruct (replay id v ds (Some b)) as [[x|]|] eqn:Hr; [| |done].
    2: { by apply replay_some in Hr as [? ?]. }
    destruct (apply (Some x) (tuples ops)) as [[y|]|]; [|done..]. rewrite length_app. cbn. do 3 f_equal. lia.
Qed.

(** ** What a batch does to a document *)

Definition content_write (id : N) (w : StorageWrite) : option DocumentContent :=
  match w with
  | WDocumentCreate record version base =>
      if decide (dc_id record = id) then Some {| dcn_version := version; dcn_content := CBase base |} else None
  | WDocumentChange i content => if decide (i = id) then Some content else None
  | _ => None
  end.

Definition retire_write (id : N) (w : StorageWrite) : bool :=
  match w with WDocumentRetire i => bool_decide (i = id) | _ => false end.

(** The content a batch gives a document, and whether it retires it. *)
Definition batch_content (id : N) (ws : list StorageWrite) : option DocumentContent :=
  head (omap (content_write id) ws).
Definition batch_retires (id : N) (ws : list StorageWrite) : bool := existsb (retire_write id) ws.

Lemma action_get_set id a actions i :
  action_get i (action_set id a actions) = if decide (i = id) then Some a else action_get i actions.
Proof.
  induction actions as [|[j b] l IH]; cbn.
  - destruct (N.eqb_spec i id); by case_decide.
  - destruct (N.eqb_spec id j) as [->|Hne]; cbn.
    + destruct (N.eqb_spec i j); by case_decide.
    + rewrite IH. destruct (N.eqb_spec i j) as [->|]; [|done]. by rewrite decide_False.
Qed.

Definition action_at (id : N) (actions : Actions) : DocumentAction := default new_action (action_get id actions).

Lemma prepare_action_at w actions actions' id :
  prepare_action actions w = Ok actions' ->
  a_content (action_at id actions')
  = match content_write id w with Some c => Some c | None => a_content (action_at id actions) end /\
  (is_Some (content_write id w) -> a_content (action_at id actions) = None) /\
  a_retire (action_at id actions') = a_retire (action_at id actions) || retire_write id w.
Proof.
  unfold action_at. destruct w as [c|c|c|c|record version base|record source|i content|i]; cbn; intros H;
    try (injection H as <-; split_and!; [done|by intros []|by rewrite orb_false_r]).
  all: inv_res; bool_to_prop; rewrite action_get_set.
  - destruct (decide (id = dc_id record)) as [->|Hne].
    + rewrite decide_True by done. cbn. rewrite orb_false_r. split_and!; [done| |done]. intros _.
      by destruct (a_content _).
    + rewrite decide_False by done. rewrite orb_false_r. split_and!; [done|by intros []|done].
  - destruct (decide (id = i)) as [->|Hne].
    + rewrite decide_True by done. cbn. rewrite orb_false_r. split_and!; [done| |done]. intros _.
      by destruct (a_content _).
    + rewrite decide_False by done. rewrite orb_false_r. split_and!; [done|by intros []|done].
  - destruct (decide (id = i)) as [->|Hne]; cbn.
    + rewrite bool_decide_eq_true_2, orb_true_r by done. split_and!; [done|by intros []|done].
    + rewrite bool_decide_eq_false_2, orb_false_r by done. split_and!; [done|by intros []|done].
Qed.

Lemma prepare_actions_at ws id : forall actions0 actions,
  res_foldl prepare_action actions0 ws = Ok actions ->
  a_content (action_at id actions)
  = match a_content (action_at id actions0) with Some c => Some c | None => batch_content id ws end /\
  a_retire (action_at id actions) = a_retire (action_at id actions0) || batch_retires id ws.
Proof.
  induction ws as [|w ws IH]; intros actions0 actions; cbn [res_foldl].
  { intros [= <-]. unfold batch_content. cbn. rewrite orb_false_r. by destruct (a_content _). }
  intros H. inv_res. destruct (prepare_action_at _ _ _ id Hv) as (Hc & Hn & Hr).
  destruct (IH _ _ H) as [-> ->]. rewrite Hc, Hr. unfold batch_retires. cbn [existsb].
  rewrite orb_assoc. split; [|done]. unfold batch_content. cbn. destruct (content_write id w) as [c|]; [|done]. by rewrite Hn by by eexists.
Qed.

(** The content an action leaves to an incarnation it does not retire. *)
Lemma doc_after_current next id a o o' seq :
  incarnation_ok next id o -> action_ok id a (Some o) -> a_retire a = false -> doc_after a seq (Some o) = Some o' ->
  live o' /\ replay_from id (st_revisions o')
  = match a_content a with
    | Some content => content_step content (replay_from id (st_revisions o))
    | None => replay_from id (st_revisions o)
    end.
Proof.
  intros Hinc Hok Hr. pose proof (ok_live _ _ _ Hok o eq_refl) as Hlive.
  pose proof (current_only_live o Hlive (inc_revisions _ _ _ Hinc)) as Hbase.
  unfold doc_after, doc_content. rewrite Hr. destruct (a_create a) as [c|] eqn:Hc.
  { by destruct (ok_create _ _ _ Hok c Hc) as (_ & ? & _). }
  destruct (a_content a) as [content|] eqn:Hcon; cbn [mbind option_bind]; intros [= <-]; [|done].
  split; [done|]. unfold add_revision. cbn [st_revisions].
  destruct (is_base (rv_content (revision_of content seq)) && isCurrentOnly (st_record o)) eqn:Hb.
  - apply andb_true_iff in Hb as [Hb _]. destruct content as [v [b|ops]]; [|done]. cbn.
    done.
  - apply replay_from_snoc; [done|]. intros ops r Hops Hlast.
    destruct content as [v cc]. cbn in *. subst cc.
    destruct (ok_delta _ _ _ Hok v ops o Hcon eq_refl) as (r' & Hr' & <-). congruence.
Qed.

(** The content of a document after a batch. *)
Lemma current_content m writes p m' id :
  storage_inv m -> prepareCommit m writes None = Ok p -> applyPreparedCommit m p = Some m' ->
  content_at (document_tables (state m')) id PCurrent
  = if batch_retires id (p_writes p) then Ok None
    else match batch_content id (p_writes p) with
         | Some content => content_step content (content_at (document_tables (state m)) id PCurrent)
         | None => content_at (document_tables (state m)) id PCurrent
         end.
Proof.
  intros Hi Hp Ha. destruct (prepared_applies m writes None p Hi Hp) as (m1 & Hm1 & Hi1 & Hc).
  rewrite Ha in Hm1. injection Hm1 as <-. pose proof (co_documents _ _ _ Hc id) as Hd.
  assert (Hact : prepareDocumentActions (p_writes p) = Ok (p_actions p)).
  { unfold prepareCommit in Hp. by inv_res. }
  destruct (prepare_actions_at _ id _ _ Hact) as [Hcon Hret]. cbn in Hcon, Hret. rewrite <- Hcon, <- Hret.
  unfold action_at. destruct (action_get id (p_actions p)) as [a|] eqn:Hg; cbn.
  2: { unfold content_at, materializeDocument. by rewrite Hd. }
  pose proof (co_actions _ _ _ Hc id a (action_get_Some _ _ _ Hg)) as Hok.
  set (old := documents (document_tables (state m)) !! id) in *.
  assert (Hs : is_Some (doc_after a (p_seq p) old)).
  { unfold doc_after, doc_content. destruct (a_create a) as [c|] eqn:Hcr.
    - destruct (ok_create _ _ _ Hok c Hcr) as (_ & _ & v & b & ->). cbn. by eexists.
    - destruct (ok_existing _ _ _ Hok Hcr) as [o ->]. destruct (a_content a); cbn; by eexists. }
  destruct Hs as [o' Ho']. rewrite Ho' in Hd. rewrite (content_at_eq _ _ _ _ Hd). cbn [needs_history andb].
  pose proof (si_documents _ _ _ _ Hi) as Hdi. destruct (co_seq _ _ _ Hc) as [Hseq _].
  destruct (doc_after_ok (nextSeq m) id a old o' (p_seq p) Hseq Hok) as (_ & Hretired & _); [|done|].
  { intros o Ho. by apply (doc_incarnations _ _ Hdi). }
  unfold isAliveAt. rewrite Hretired. destruct (a_retire a) eqn:Hr; [done|].
  rewrite bool_decide_eq_true_2 by done. unfold revisions_at. destruct old as [o|] eqn:Hold.
  - pose proof (doc_incarnations _ _ Hdi _ _ Hold) as Hinc.
    destruct (doc_after_current _ _ _ _ _ _ Hinc Hok Hr Ho') as [_ ->].
    rewrite (content_at_eq _ _ _ _ Hold). cbn [needs_history andb]. unfold isAliveAt.
    rewrite (ok_live _ _ _ Hok o eq_refl). by rewrite bool_decide_eq_true_2.
  - unfold doc_after, doc_content in Ho'. destruct (a_create a) as [c|] eqn:Hcr.
    2: { by destruct (ok_existing _ _ _ Hok Hcr). }
    destruct (ok_create _ _ _ Hok c Hcr) as (_ & _ & v & b & Hcont). rewrite Hcont in *. cbn in Ho'.
    rewrite Hr in Ho'. injection Ho' as <-. done.
Qed.

(** A live document always has its base and deltas of one version: reading it only fails
    where an operation does. *)
Lemma live_content m id s :
  storage_inv m -> documents (document_tables (state m)) !! id = Some s -> live s ->
  (exists v x n, content_at (document_tables (state m)) id PCurrent = Ok (Some (v, x, n))) \/
  exists e, content_at (document_tables (state m)) id PCurrent = Throw (DeltaFailed e).
Proof.
  intros Hi Hs Hlive. rewrite (content_at_eq _ _ _ _ Hs). cbn [needs_history andb]. unfold isAliveAt.
  rewrite bool_decide_eq_true_2 by done. unfold revisions_at.
  pose proof (doc_incarnations _ _ (si_documents _ _ _ _ Hi) _ _ Hs) as Hinc.
  destruct (newest_base _ (current_only_live s Hlive (inc_revisions _ _ _ Hinc))) as (pre & v & b & q & ds & -> & Hds).
  rewrite replay_from_split by done. destruct (replay id v ds (Some b)) as [r|e] eqn:Hr.
  - destruct (replay_some _ _ _ _ _ Hr) as [x ->]. left. by eexists _, _, _.
  - right. clear -Hr Hds. revert Hr. generalize (Some b). induction Hds as [|d ds [Hv Hb] Hds IH]; intros x; cbn; [done|].
    destruct (rv_content d) as [|ops]; [done|]. rewrite Hv, N.eqb_refl.
    destruct (apply x (tuples ops)); [apply IH|]. intros [= <-]. by eexists.
Qed.

(** ** Addresses *)

Lemma findDocument_current m address :
  storage_inv m -> closed m = false ->
  exists r, findDocument m address PCurrent = Ok r /\
    forall record, r = Some record <->
      exists s, documents (document_tables (state m)) !! dc_id (d_create record) = Some s /\
        record = st_record s /\ create_address (d_create record) = address /\ d_retiredAt record = None.
Proof.
  intros Hi Hopen. pose proof (si_documents _ _ _ _ Hi) as [_ Hcur Hinc].
  unfold findDocument, assertOpen. rewrite Hopen. cbn [negb check mbind res_bind].
  fold (cur (document_tables (state m)) (addressKey address)).
  destruct (cur (document_tables (state m)) (addressKey address)) as [id|] eqn:Hc.
  - pose proof Hc as (s & Hs & Hk & Hl)%Hcur. rewrite Hs. cbn. exists (Some (st_record s)).
    split; [done|]. intros record. split.
    + intros [= <-]. exists s. rewrite (inc_id _ _ _ (Hinc _ _ Hs)). split_and!; [done|done| |done].
      by apply addressKey_inj.
    + intros (s' & Hs' & -> & Ha & Hr). f_equal. 
      assert (Hc' : cur (document_tables (state m)) (addressKey address) = Some (dc_id (d_create (st_record s')))).
      { apply Hcur. exists s'. split_and!; [done| |done]. unfold key_of, recordAddressKey. by rewrite Ha. }
      rewrite Hc in Hc'. injection Hc' as ->. rewrite Hs in Hs'. by injection Hs' as <-.
  - exists None. split; [done|]. intros record. split; [done|]. intros (s & Hs & -> & Ha & Hr).
    assert (Hc' : cur (document_tables (state m)) (addressKey address) = Some (dc_id (d_create (st_record s)))).
    { apply Hcur. exists s. split_and!; [done| |done]. unfold key_of, recordAddressKey. by rewrite Ha. }
    congruence.
Qed.

(** ** Minted IDs *)

Lemma later_next m m' : storage_inv m -> later m m' -> (nextId m <= nextId m')%N /\ (nextSeq m <= nextSeq m')%N.
Proof.
  intros Hi Hl. induction Hl as [m|m1 m2 m3 Hs Hl IH]; [lia|]. specialize (IH (step_inv _ _ Hs Hi)).
  enough ((nextId m1 <= nextId m2)%N /\ (nextSeq m1 <= nextSeq m2)%N) by lia. clear IH Hl. revert Hi.
  destruct Hs as [m0 batches m' receipts outcome Hc|m0 m' id Hm|m0]; intros Hi; [| |cbn; lia].
  - unfold commit in Hc. inv_res.
    destruct (commit_loop_spec batches m0 [] Hi) as (m1 & n & r & E & _ & _ & Hs & Hid & _).
    rewrite E in Hc. injection Hc as <- <- <-. lia.
  - unfold mintId in Hm. inv_res. cbn. lia.
Qed.

(** A minted ID is new, and never minted again. *)
Lemma mint_fresh m m1 id m2 m3 id' :
  storage_inv m -> mintId m = Ok (m1, id) -> later m1 m2 -> mintId m2 = Ok (m3, id') ->
  (forall table, ~ in_table (state m) table id) /\ (id < id')%N.
Proof.
  intros Hi Hm Hl Hm'. pose proof (mint_inv _ _ _ Hm Hi) as Hi1.
  destruct (later_next _ _ Hi1 Hl) as [Hle _]. unfold mintId in Hm, Hm'. inv_res. cbn in Hle. split; [|lia].
  intros table Hin. apply (si_types _ _ _ _ Hi) in Hin. apply (si_next _ _ _ _ Hi) in Hin. lia.
Qed.

(** ** Commits of several batches *)

Lemma commit_loop_prefix batches : forall m seqs m' seqs' r,
  commit_loop m batches seqs = (m', seqs', r) ->
  exists n, length seqs' = length seqs + n /\ (commit_loop m (take n batches) seqs).1.1 = m'.
Proof.
  induction batches as [|writes batches IH]; intros m seqs m' seqs' r; cbn [commit_loop].
  { intros [= <- <- _]. exists 0. by rewrite Nat.add_0_r. }
  destruct (prepareCommit m writes None) as [p|e] eqn:Hp.
  2: { intros [= <- <- _]. exists 0. by rewrite Nat.add_0_r. }
  destruct (applyPreparedCommit m p) as [m1|] eqn:Ha.
  2: { intros [= <- <- _]. exists 0. by rewrite Nat.add_0_r. }
  intros H. destruct (IH _ _ _ _ _ H) as (n & Hl & Hm). exists (S n). cbn [take commit_loop]. rewrite Hp, Ha.
  split; [rewrite Hl, length_app; cbn; lia|done].
Qed.

Lemma commit_spec m batches m' receipts outcome :
  storage_inv m -> commit m batches = Ok (m', receipts, outcome) ->
  exists n refusal,
    outcome = Some {| stored := n; refused := refusal |} /\
    m' = (commit_loop m (take n batches) []).1.1 /\
    receipts = imap pair ((fun i => (nextSeq m + N.of_nat i)%N) <$> seq 0 n) /\
    n <= length batches /\ (refusal = None <-> n = length batches) /\
    forall e, refusal = Some e ->
      exists writes, batches !! n = Some writes /\ prepareCommit m' writes None = Throw e.
Proof.
  intros Hi H. unfold commit in H. inv_res.
  destruct (commit_loop_spec batches m [] Hi) as (m1 & n & r & E & _ & _ & _ & _ & _ & Hn & Hr & He).
  destruct (commit_loop_prefix _ _ _ _ _ _ E) as (n' & Hl & Hm). cbn in Hl.
  rewrite length_fmap, length_seq in Hl. subst n'.
  rewrite E in H. injection H as <- <- <-. exists n, r. cbn. rewrite length_fmap, length_seq. by split_and!.
Qed.
