(* ===== verification/StorageTheorems.v ===== *)
(** What holds of [MemoryStorage] (durable/src/storage/memory.ts): its commits are atomic
    and keep it consistent, what is stored stays as it was, reads return what was written,
    and scans page through everything they match. Each theorem with hypotheses has a
    witness, an instance on the storage [sample]. *)
From S2P Require Import Prelude JsString Json DeltaOp DeltaApply StorageTypes SortedIds MemoryCommit.
From S2P Require Import DocumentFacts TableFacts MemoryFacts MemoryRead ReadFacts VisibleFacts MemoryHistory.
From Stdlib Require Import Sorted.

(** ** A sample storage *)

Definition sample_conversation (id : N) (parent : option ParentLink) : ConversationRecord :=
  {| c_id := id; c_parent := parent; c_owner := None |}.

Definition sample_entry (id conversation : N) (head : option N) : EntryRecord :=
  {| e_id := id; e_conversationId := conversation; e_kind := "message"; e_model := None; e_data := Some (JStr "hi");
     e_head := head; e_edits := None; e_byTaskId := None |}.

Definition sample_task (id conversation : N) (st : TaskState) : TaskRecord :=
  {| t_trace := None; t_links := None; t_id := id; t_conversationId := conversation; t_kind := "turn"; t_version := 1;
     t_input := JNull; t_owner := None; t_background := false; t_abortRequested := false; t_abortReason := false;
     t_abandonOnRestart := false; t_startedAt := None; t_endedAt := None; t_restarts := None; t_state := st;
     t_memos := None |}.

Definition sample_document : DocumentCreate :=
  {| dc_id := 8; dc_kind := "notes"; dc_key := None; dc_scope := ScopeConversation 1;
     dc_history := Some HRewindable; dc_fork := Some ForkAsOf |}.

Definition sample_delta : DocumentContent :=
  {| dcn_version := 1; dcn_content := CDelta [OpA [SStr "text"] " world"] |}.

Definition batch1 : list StorageWrite :=
  [WConversation (sample_conversation 1 None); WEntry (sample_entry 2 1 (Some 2%N)); WEntry (sample_entry 3 1 None);
   WTask (sample_task 6 1 (TPending (jobj [("phase", JStr "start")])));
   WSubmission {| s_trace := None; s_id := 7; s_conversationId := 1; s_requestId := Some "r"; s_state := InputQueued |};
   WDocumentCreate sample_document 1 (jobj [("text", JStr "hello")])].

Definition batch2 : list StorageWrite :=
  [WConversation (sample_conversation 4 (Some {| pl_conversationId := 1; pl_at := 2 |}));
   WEntry (sample_entry 5 4 None); WTask (sample_task 9 1 (TRunning (jobj [("phase", JStr "run")]))) ].

(** A batch that changes the document. *)
Definition batch3 : list StorageWrite := [WDocumentChange 8 sample_delta].

(** A batch that is refused: the entry exists. *)
Definition batch_refused : list StorageWrite := [WEntry (sample_entry 3 1 None)].

Definition commit_state (m : MemoryStorage) (batches : list (list StorageWrite)) : MemoryStorage :=
  (commit_loop m batches []).1.1.

Definition sample : MemoryStorage := commit_state memory_new [batch1; batch2].
Definition sample' : MemoryStorage := commit_state sample [batch3].

Lemma commit_state_step m batches : closed m = false -> storage_step m (commit_state m batches).
Proof.
  intros Hopen. destruct (commit_loop m batches []) as [[m' seqs] r] eqn:E.
  replace (commit_state m batches) with m' by (unfold commit_state; by rewrite E).
  eapply step_commit. unfold commit, assertOpen. rewrite Hopen. cbn. by rewrite E.
Qed.

Lemma sample_later : later memory_new sample /\ later sample sample'.
Proof.
  split; (eapply rtc_l; [apply commit_state_step; by vm_compute|apply rtc_refl]).
Qed.

Lemma sample_inv : storage_inv sample.
Proof. eapply later_inv; [apply sample_later|apply empty_inv]. Qed.

Lemma sample_usable : usable sample.
Proof. split; [by vm_compute|apply sample_inv|by vm_compute]. Qed.

(** Forks checked by evaluation. *)
Definition forks_check (st : State) : bool :=
  forallb (fun '(c, r) =>
    match c_parent r with
    | None => true
    | Some p =>
        (pl_conversationId p <? c)%N &&
        is_some (conversations (conversation_tables st) !! pl_conversationId p) &&
        forallb (fun id => (pl_at p <? id)%N) (own_ids st c)
    end) (map_to_list (conversations (conversation_tables st))).

Lemma forks_check_sound st : forks_check st = true -> ancestry_ok st /\ forks_ok st.
Proof.
  unfold forks_check. rewrite forallb_forall. intros Hall.
  assert (H : forall c r p, conversations (conversation_tables st) !! c = Some r -> c_parent r = Some p ->
    (pl_conversationId p < c)%N /\ is_Some (conversations (conversation_tables st) !! pl_conversationId p) /\
    forall id, id ∈ own_ids st c -> (pl_at p < id)%N).
  { intros c r p Hr Hp. specialize (Hall (c, r)). cbn in Hall. rewrite Hp, !andb_true_iff in Hall.
    destruct Hall as [[H1 H2] H3]; [by apply list_elem_of_In, elem_of_map_to_list|].
    split; [by apply N.ltb_lt|]. split; [by destruct (_ !! pl_conversationId p)|].
    intros id Hid. rewrite forallb_forall in H3. by apply N.ltb_lt, H3, list_elem_of_In. }
  split.
  - intros c r p Hr Hp. by destruct (H c r p Hr Hp) as (? & ? & _).
  - intros c p id Hp Hid. unfold parent_of in Hp.
    destruct (conversations (conversation_tables st) !! c) as [r|] eqn:Hr; [|done].
    destruct (H c r p Hr Hp) as (_ & _ & Hf). by apply Hf.
Qed.

Lemma sample_forks : ancestry_ok (state sample) /\ forks_ok (state sample).
Proof. apply forks_check_sound. by vm_compute. Qed.

(** ** Commits *)

(** C4. Every storage that commits, minted IDs and a close lead to is consistent: each
    index (IDs by owner, by conversation, by status, by request, by scope and address)
    lists exactly the records it is an index of, in order; an ID is in one table and below
    the next ID; deltas follow a base of their version; and at an address at most one
    document is live, the indexed one. *)
Theorem reachable_storage_consistent m : later memory_new m -> storage_inv m.
Proof. intros Hl. eapply later_inv; [exact Hl|apply empty_inv]. Qed.

Lemma reachable_storage_consistent_witness : storage_inv sample.
Proof. apply reachable_storage_consistent, sample_later. Defined.

(** C5. A commit stores the batches before the first refused one and nothing of that or
    the later ones: an accepted batch always applies, so a commit never stops halfway. The
    sequence numbers are the next ones, one for each stored batch; nothing is refused
    exactly when all are stored, and the refusal is that of the storage it leaves. *)
Theorem commit_prefix m batches m' receipts outcome :
  storage_inv m -> commit m batches = Ok (m', receipts, outcome) ->
  exists n refusal,
    outcome = Some {| stored := n; refused := refusal |} /\
    m' = commit_state m (take n batches) /\
    receipts = imap pair ((fun i => (nextSeq m + N.of_nat i)%N) <$> seq 0 n) /\
    n <= length batches /\ (refusal = None <-> n = length batches) /\
    forall e, refusal = Some e ->
      exists writes, batches !! n = Some writes /\ prepareCommit m' writes None = Throw e.
Proof. apply commit_spec. Qed.

Lemma commit_prefix_witness :
  exists m' receipts, commit sample [batch3; batch_refused; batch2]
    = Ok (m', receipts, Some {| stored := 1; refused := Some (IdTaken 3 TEntry) |}) /\
    m' = commit_state sample [batch3].
Proof.
  assert (E : commit sample [batch3; batch_refused; batch2]
    = Ok (commit_state sample [batch3; batch_refused; batch2], [(0, 3%N)],
          Some {| stored := 1; refused := Some (IdTaken 3 TEntry) |})) by by vm_compute.
  destruct (commit_prefix sample [batch3; batch_refused; batch2] _ _ _ sample_inv E)
    as (n & refusal & [= <- <-] & Hm & _).
  eexists _, _. split; [exact E|exact Hm].
Defined.

(** A committed batch stores, in each table, the last record it has for an ID and
    leaves every other record as it was. *)
Lemma commit_stores_records m writes p id :
  storage_inv m -> prepareCommit m writes None = Ok p ->
  exists m', applyPreparedCommit m p = Some m' /\ storage_inv m' /\
    conversations_of (state m') !! id
    = or_old (written c_id pick_conversation id (p_writes p)) (conversations_of (state m) !! id) /\
    entries_of (state m') !! id
    = or_old (written e_id pick_entry id (p_writes p)) (entries_of (state m) !! id) /\
    tasks_of (state m') !! id
    = or_old (written t_id pick_task id (p_writes p)) (tasks_of (state m) !! id) /\
    submissions_of (state m') !! id
    = or_old (written s_id pick_submission id (p_writes p)) (submissions_of (state m) !! id).
Proof.
  intros Hi Hp. destruct (prepared_applies m writes None p Hi Hp) as (m' & Ha & Hi' & Hc).
  exists m'. split; [done|]. split; [done|]. by apply committed_records.
Qed.

Lemma commit_stores_records_witness :
  exists p m', prepareCommit sample [WTask (sample_task 6 1 (TRunning JNull))] None = Ok p /\
    applyPreparedCommit sample p = Some m' /\
    tasks_of (state m') !! 6%N = Some (sample_task 6 1 (TRunning JNull)).
Proof.
  destruct (prepareCommit sample [WTask (sample_task 6 1 (TRunning JNull))] None) as [p|] eqn:E; [|by vm_compute in E].
  destruct (commit_stores_records sample _ p 6 sample_inv E) as (m' & Ha & _ & _ & _ & Ht & _).
  exists p, m'. split; [done|]. split; [done|]. rewrite Ht.
  assert (Hw : p_writes p = [WTask (sample_task 6 1 (TRunning JNull))]) by (vm_compute in E; by injection E as <-).
  by rewrite Hw.
Defined.

(** Stored conversations and entries never change, whatever is committed later. *)
Lemma conversations_and_entries_immutable m m' id :
  storage_inv m -> later m m' ->
  (forall c, conversations_of (state m) !! id = Some c -> conversations_of (state m') !! id = Some c) /\
  (forall e, entries_of (state m) !! id = Some e -> entries_of (state m') !! id = Some e).
Proof. apply later_records. Qed.

Lemma conversations_and_entries_immutable_witness :
  entries_of (state sample') !! 3%N = Some (sample_entry 3 1 None).
Proof.
  apply (conversations_and_entries_immutable sample sample' 3 sample_inv (proj2 sample_later)). by vm_compute.
Defined.

(** C24. The past of a document is immutable: what a stored document held at a commit made
    so far (its version, its value, the number of deltas after its base, or that it holds
    no history) it holds there after any later operations. *)
Theorem document_history_immutable m m' id n s :
  storage_inv m -> later m m' -> documents (document_tables (state m)) !! id = Some s -> (n < nextSeq m)%N ->
  content_at (document_tables (state m')) id (PSeq n) = content_at (document_tables (state m)) id (PSeq n).
Proof. apply later_content. Qed.

Lemma document_history_immutable_witness :
  content_at (document_tables (state sample')) 8 (PSeq 2)
  = Ok (Some (1%N, jobj [("text", JStr "hello")], 0)).
Proof.
  destruct (documents (document_tables (state sample)) !! 8%N) as [s|] eqn:Hs; [|by vm_compute in Hs].
  rewrite (document_history_immutable sample sample' 8 2 s sample_inv (proj2 sample_later) Hs); by vm_compute.
Defined.

(** What a document holds after a batch: nothing when the batch retires it, the base
    it is given, or what the operations of its delta make of what it held. Copies are
    resolved to creations with the source's content before ([p_writes p]). *)
Lemma document_content_after_commit m writes p m' id :
  storage_inv m -> prepareCommit m writes None = Ok p -> applyPreparedCommit m p = Some m' ->
  content_at (document_tables (state m')) id PCurrent
  = if batch_retires id (p_writes p) then Ok None
    else match batch_content id (p_writes p) with
         | Some content => content_step content (content_at (document_tables (state m)) id PCurrent)
         | None => content_at (document_tables (state m)) id PCurrent
         end.
Proof. apply current_content. Qed.

Lemma document_content_after_commit_witness :
  exists p m', prepareCommit sample batch3 None = Ok p /\ applyPreparedCommit sample p = Some m' /\
    content_at (document_tables (state m')) 8 PCurrent
    = Ok (Some (1%N, jobj [("text", JStr "hello world")], 1)).
Proof.
  destruct (prepareCommit sample batch3 None) as [p|] eqn:E; [|by vm_compute in E].
  destruct (prepared_applies sample batch3 None p sample_inv E) as (m' & Ha & _).
  exists p, m'. split; [done|]. split; [done|].
  rewrite (document_content_after_commit sample batch3 p m' 8 sample_inv E Ha).
  assert (Hw : p_writes p = batch3) by (vm_compute in E; by injection E as <-).
  rewrite Hw. by vm_compute.
Defined.

(** A live document can always be read, except where one of its operations fails: its
    base is never missing and its deltas never cross a version. *)
Lemma live_document_readable m id s :
  storage_inv m -> documents (document_tables (state m)) !! id = Some s -> live s ->
  (exists v x n, content_at (document_tables (state m)) id PCurrent = Ok (Some (v, x, n))) \/
  exists e, content_at (document_tables (state m)) id PCurrent = Throw (DeltaFailed e).
Proof. apply live_content. Qed.

Lemma live_document_readable_witness :
  (exists v x n, content_at (document_tables (state sample)) 8 PCurrent = Ok (Some (v, x, n))) \/
  exists e, content_at (document_tables (state sample)) 8 PCurrent = Throw (DeltaFailed e).
Proof.
  destruct (documents (document_tables (state sample)) !! 8%N) as [s|] eqn:Hs; [|by vm_compute in Hs].
  apply (live_document_readable sample 8 s sample_inv Hs). vm_compute in Hs. by injection Hs as <-.
Defined.

(** [findDocument] for the present returns the one live document of the address, and
    nothing exactly when there is none. *)
Lemma findDocument_finds_live m address :
  storage_inv m -> closed m = false ->
  exists r, findDocument m address PCurrent = Ok r /\
    forall record, r = Some record <->
      exists s, documents (document_tables (state m)) !! dc_id (d_create record) = Some s /\
        record = st_record s /\ create_address (d_create record) = address /\ d_retiredAt record = None.
Proof. apply findDocument_current. Qed.

Lemma findDocument_finds_live_witness :
  exists r, findDocument sample (create_address sample_document) PCurrent = Ok r /\
    forall record, r = Some record <->
      exists s, documents (document_tables (state sample)) !! dc_id (d_create record) = Some s /\
        record = st_record s /\ create_address (d_create record) = create_address sample_document /\
        d_retiredAt record = None.
Proof. apply findDocument_finds_live; [apply sample_inv|by vm_compute]. Defined.

(** A minted ID is in no table, and is smaller than every ID minted later. *)
Lemma minted_ids_fresh m m1 id m2 m3 id' :
  storage_inv m -> mintId m = Ok (m1, id) -> later m1 m2 -> mintId m2 = Ok (m3, id') ->
  (forall table, ~ in_table (state m) table id) /\ (id < id')%N.
Proof. apply mint_fresh. Qed.

Lemma minted_ids_fresh_witness :
  (forall table, ~ in_table (state sample) table 10) /\ (10 < 11)%N.
Proof.
  eapply (minted_ids_fresh sample _ 10 _ _ 11); [apply sample_inv|reflexivity|apply rtc_refl|reflexivity].
Defined.

(** The keys of the address index tell addresses apart: kinds, scopes and keys with
    any characters. *)
Lemma addressKey_injective a b : addressKey a = addressKey b <-> a = b.
Proof. split; [apply addressKey_inj|by intros ->]. Qed.

(** ** Reads *)

(** Collecting the pages of [scanTasks] ends and gives every task that matches the
    query once, in the order of the query, with its content as stored; the page size only
    changes the pages. *)
Lemma scanTasks_complete m query limit :
  usable m -> 0 < limit -> valid_order (tq_order query) ->
  exists L,
    (forall fuel, length L < fuel -> scanAll fuel (scanTasks m query limit) None [] = Some (Ok (clone L))) /\
    ordered (order_or (tq_order query) ascending) (t_id <$> L) /\
    forall r, r ∈ L <-> tasks_of (state m) !! t_id r = Some r /\ keep_task query r = true /\
                        match tq_status query with Some s => t_status r = s | None => True end.
Proof. apply scanTasks_all. Qed.

Definition running_tasks : TaskQuery :=
  {| tq_conversationId := None; tq_kind := None; tq_status := Some running; tq_abortRequested := None;
     tq_background := None; tq_order := Some "descending" |}.

Lemma scanTasks_complete_witness :
  exists L, (forall fuel, length L < fuel -> scanAll fuel (scanTasks sample running_tasks 1) None [] = Some (Ok (clone L))) /\
    sample_task 9 1 (TRunning (jobj [("phase", JStr "run")])) ∈ L.
Proof.
  destruct (scanTasks_complete sample running_tasks 1 sample_usable) as (L & HL & _ & Hin); [lia|by eexists|].
  exists L. split; [exact HL|]. apply Hin. split_and!; by vm_compute.
Defined.

(** The pages of [scanEntries] are those of the entries visible from the conversation
    within the query's bounds, in its order, and a cursor continues after its entry. The
    fuel, the ID of the conversation, is enough for the chain of forks. *)
Lemma scanEntries_pages m fuel query limit :
  usable m -> ancestry_ok (state m) -> forks_ok (state m) ->
  0 < limit -> valid_order (eq_order query) ->
  is_Some (conversations (conversation_tables (state m)) !! eq_conversationId query) ->
  N.to_nat (eq_conversationId query) < fuel ->
  exists run L, (forall cursor, scanEntries fuel m query limit cursor = Some (run cursor)) /\
    query_entries m query L /\ PagedScan e_id run limit (order_or (eq_order query) descending) L.
Proof. intros. by apply scanEntries_paged. Qed.

Definition fork_query : EntryQuery :=
  {| eq_conversationId := 4; eq_minEntryId := None; eq_maxEntryId := None; eq_order := None |}.

Lemma scanEntries_pages_witness :
  exists run L, (forall cursor, scanEntries 5 sample fork_query 1 cursor = Some (run cursor)) /\
    query_entries sample fork_query L /\ PagedScan e_id run 1 descending L.
Proof.
  apply (scanEntries_pages sample 5 fork_query 1 sample_usable); [apply sample_forks..|lia|done| |cbn; lia].
  vm_compute. by eexists.
Defined.

(** C31. The walks up a chain of forks end, and both return the entries visible from the
    conversation in the range, each once: one newest first, the other its reverse. *)
Theorem visible_walks_agree st fuel c lower upper :
  entries_sorted st -> ancestry_ok st -> forks_ok st ->
  is_Some (conversations (conversation_tables st) !! c) -> N.to_nat c < fuel ->
  exists ids,
    visibleEntries fuel st c lower upper = Some (Ok ids) /\
    visibleEntriesAscending fuel st c lower upper = Some (Ok (rev ids)) /\
    StronglySorted N.lt (rev ids) /\
    forall id, id ∈ ids <-> visible st c id /\ in_range lower upper id = true.
Proof.
  intros Hs Ha Hf Hc Hfuel. destruct (visible_ids_spec st fuel c lower upper Hs Ha Hc Hfuel) as (ids & Hids & Hin & Hsort).
  exists ids. rewrite visible_ascending by done. unfold visibleEntries. destruct Hc as [r ->]. rewrite Hids.
  split_and!; [done|done|by apply Hsort|done].
Qed.

Lemma visible_walks_agree_witness :
  exists ids, visibleEntries 5 (state sample) 4 NegInf PosInf = Some (Ok ids) /\
    visibleEntriesAscending 5 (state sample) 4 NegInf PosInf = Some (Ok (rev ids)) /\
    StronglySorted N.lt (rev ids) /\
    forall id, id ∈ ids <-> visible (state sample) 4 id /\ in_range NegInf PosInf id = true.
Proof.
  apply visible_walks_agree; [apply storage_entries_sorted, sample_inv|apply sample_forks..| |lia].
  vm_compute. by eexists.
Defined.

(** [findLatestHeadMarker] returns the newest visible entry with a head at or before
    the cutoff, and nothing exactly when there is none. *)
Lemma findLatestHeadMarker_newest m fuel c atOrBefore :
  usable m -> ancestry_ok (state m) -> forks_ok (state m) ->
  is_Some (conversations (conversation_tables (state m)) !! c) -> N.to_nat c < fuel ->
  exists r, findLatestHeadMarker fuel m c atOrBefore = Some (Ok (clone r)) /\
    newest_marker (state m) c (opt_bound PosInf atOrBefore) r.
Proof. apply findLatestHeadMarker_spec. Qed.

Lemma findLatestHeadMarker_newest_witness :
  exists r, findLatestHeadMarker 5 sample 4 None = Some (Ok (clone r)) /\
    newest_marker (state sample) 4 PosInf r.
Proof.
  apply (findLatestHeadMarker_newest sample 5 4 None sample_usable); [apply sample_forks..| |lia].
  vm_compute. by eexists.
Defined.

(** [entry] with a conversation returns the entry and its commit exactly when the
    entry is visible from the conversation. *)
Lemma entry_when_visible m fuel c id :
  usable m -> ancestry_ok (state m) -> is_Some (conversations (conversation_tables (state m)) !! c) ->
  N.to_nat c < fuel ->
  exists r, entry_visible fuel m c id = Some (Ok r) /\
    (visible (state m) c id -> exists e s, r = Some (clone e, s) /\
       entries (entry_tables (state m)) !! id = Some e /\ entryCommitSeqs (entry_tables (state m)) !! id = Some s) /\
    (~ visible (state m) c id -> r = None).
Proof. apply entry_visible_spec. Qed.

Lemma entry_when_visible_witness :
  exists r, entry_visible 5 sample 4 2 = Some (Ok r) /\
    (visible (state sample) 4 2 -> exists e s, r = Some (clone e, s) /\
       entries (entry_tables (state sample)) !! 2%N = Some e /\
       entryCommitSeqs (entry_tables (state sample)) !! 2%N = Some s) /\
    (~ visible (state sample) 4 2 -> r = None).
Proof.
  apply (entry_when_visible sample 5 4 2 sample_usable); [apply sample_forks| |lia]. vm_compute. by eexists.
Defined.

(** Inserting and removing keep a sorted list of IDs sorted, and change its members
    by that one ID. *)
Lemma sorted_ids_updates ids id :
  StronglySorted N.lt ids ->
  (id ∉ ids -> StronglySorted N.lt (insertSorted ids id) /\
     forall i, i ∈ insertSorted ids id <-> i = id \/ i ∈ ids) /\
  StronglySorted N.lt (removeSorted ids id) /\ forall i, i ∈ removeSorted ids id <-> i <> id /\ i ∈ ids.
Proof.
  intros Hs. assert (Hi : indexes ids (fun i => i ∈ ids)) by done. split.
  - intros Hn. by apply (insertSorted_indexes ids (fun i => i ∈ ids)).
  - by apply (removeSorted_indexes ids (fun i => i ∈ ids)).
Qed.

Lemma sorted_ids_updates_witness : removeSorted [2; 5; 9]%N 5 = [2; 9]%N /\ 5%N ∉ removeSorted [2; 5; 9]%N 5.
Proof.
  split; [by vm_compute|]. destruct (sorted_ids_updates [2; 5; 9]%N 5) as (_ & _ & Hr).
  - repeat constructor; lia.
  - rewrite Hr. tauto.
Defined.
