(* ===== verification/ConversationTails.v ===== *)
(** The newest entry and the newest head marker of recently used conversations
    (durable/src/session/conversation-tails.ts): two maps bounded by a count, kept current
    from the Session's commits. What they know is what the storage would answer. *)
From S2P Require Import Prelude JsString Json StorageTypes SortedIds MemoryCommit DocumentFacts TableFacts.
From S2P Require Import MemoryFacts MemoryRead ReadFacts VisibleFacts.
From Stdlib Require Import Sorted.

(** ** Maps with least recently used eviction

    A JavaScript [Map] iterates in insertion order: the first key is the least recently
    used one. *)
Abbreviation lru V := (list (N * V)).

Fixpoint lru_get {V} (key : N) (map : lru V) : option V :=
  match map with
  | [] => None
  | (k, v) :: map' => if (k =? key)%N then Some v else lru_get key map'
  end.

Definition lru_delete {V} (key : N) (map : lru V) : lru V := filter (fun kv => kv.1 <> key) map.

(** [use]: the value, made the most recently used. *)
Definition use {V} (map : lru V) (key : N) : lru V * option V :=
  match lru_get key map with
  | None => (map, None)
  | Some value => (lru_delete key map ++ [(key, value)], Some value)
  end.

Definition put {V} (map : lru V) (key : N) (value : V) (capacity : nat) : lru V :=
  let map' := lru_delete key map ++ [(key, value)] in
  if capacity <? length map' then tail map' else map'.

(** ** The tails *)

Definition LATEST_CAPACITY : nat := 4096.
Definition MARKER_CAPACITY : nat := 256.

(** The inner [None] is [null]: a conversation known to have no entry or no marker. *)
Record ConversationTails : Type := {
  tl_latest : lru (option N);
  tl_markers : lru (option EntryRecord);
}.

Definition tails_new : ConversationTails := {| tl_latest := []; tl_markers := [] |}.

(** [latest]; [read] is what reading the storage gives. *)
Definition latest (t : ConversationTails) (conversationId : N) (read : sres (option N))
  : ConversationTails * sres (option N) :=
  match use (tl_latest t) conversationId with
  | (used, Some known) => ({| tl_latest := used; tl_markers := tl_markers t |}, Ok known)
  | (_, None) =>
      match read with
      | Ok found =>
          ({| tl_latest := put (tl_latest t) conversationId found LATEST_CAPACITY; tl_markers := tl_markers t |},
           Ok found)
      | Throw e => (t, Throw e)
      end
  end.

(** The end of [marker], which reads the storage: only a read that no newer entry can
    change is kept. *)
Definition marker_read (t : ConversationTails) (conversationId : N) (atOrBefore : option N)
    (read : sres (option EntryRecord)) : ConversationTails * sres (option EntryRecord) :=
  let known := lru_get conversationId (tl_latest t) in
  match read with
  | Throw e => (t, Throw e)
  | Ok found =>
      let keep :=
        match atOrBefore, known with
        | None, _ => true
        | Some cutoff, Some newest => (default 0 newest <=? cutoff)%N
        | Some _, None => false
        end in
      (if keep then
         {| tl_latest := tl_latest t;
            tl_markers := put (tl_markers t) conversationId found MARKER_CAPACITY |}
       else t, Ok found)
  end.

(** [marker]. *)
Definition marker (t : ConversationTails) (conversationId : N) (atOrBefore : option N)
    (read : sres (option EntryRecord)) : ConversationTails * sres (option EntryRecord) :=
  let '(used, known) := use (tl_markers t) conversationId in
  let t1 := {| tl_latest := tl_latest t; tl_markers := used |} in
  let answers m := match atOrBefore with None => true | Some cutoff => (e_id m <=? cutoff)%N end in
  match known with
  | Some None => (t1, Ok None)
  | Some (Some m) =>
      if answers m then (t1, Ok (Some m))
      else marker_read t1 conversationId atOrBefore read
  | None => marker_read t1 conversationId atOrBefore read
  end.

(** [peek]. *)
Definition peek (t : ConversationTails) (conversationId : N) : option (option N) :=
  lru_get conversationId (tl_latest t).

Definition tails_write (t : ConversationTails) (w : StorageWrite) : ConversationTails :=
  match w with
  | WConversation v =>
      match c_parent v with
      | Some _ => t
      | None =>
          {| tl_latest := put (tl_latest t) (c_id v) None LATEST_CAPACITY;
             tl_markers := put (tl_markers t) (c_id v) None MARKER_CAPACITY |}
      end
  | WEntry v =>
      {| tl_latest := put (tl_latest t) (e_conversationId v) (Some (e_id v)) LATEST_CAPACITY;
         tl_markers := if is_some (e_head v)
                       then put (tl_markers t) (e_conversationId v) (Some v) MARKER_CAPACITY
                       else tl_markers t |}
  | _ => t
  end.

(** [apply]: at the publication of a durable batch. *)
Definition apply_tails (t : ConversationTails) (writes : list StorageWrite) : ConversationTails :=
  foldl tails_write t writes.

(** ** Lemmas on the maps *)

Definition lru_ok {V} (map : lru V) : Prop := NoDup (map.*1).

Lemma lru_get_app {V} key (m1 m2 : lru V) :
  lru_get key (m1 ++ m2) = match lru_get key m1 with Some v => Some v | None => lru_get key m2 end.
Proof. induction m1 as [|[k v] m1 IH]; cbn; [done|]. by destruct (k =? key)%N. Qed.

Lemma lru_get_delete {V} key k (m : lru V) :
  lru_get k (lru_delete key m) = if decide (k = key) then None else lru_get k m.
Proof.
  unfold lru_delete. induction m as [|[k' v] m IH]; [by case_decide|]. rewrite filter_cons. cbn [fst].
  destruct (decide (k' <> key)) as [Hk|Hk]; cbn [lru_get]; rewrite IH.
  - destruct (N.eqb_spec k' k) as [->|]; [by rewrite decide_False|done].
  - destruct (N.eqb_spec k' k) as [->|]; [|done]. destruct (decide (k = key)); [done|tauto].
Qed.

Lemma lru_delete_ok {V} key (m : lru V) : lru_ok m -> lru_ok (lru_delete key m).
Proof. unfold lru_ok, lru_delete. intros H. eapply sublist_NoDup; [exact H|]. apply fmap_sublist, sublist_filter. Qed.

Lemma lru_snoc_ok {V} key (v : V) m : lru_ok m -> lru_ok (lru_delete key m ++ [(key, v)]).
Proof.
  intros H. unfold lru_ok. rewrite fmap_app. apply NoDup_app. split; [by apply lru_delete_ok|].
  split; [|apply NoDup_singleton]. intros k Hk Hk'%list_elem_of_singleton. cbn in Hk'. subst k.
  apply list_elem_of_fmap in Hk as ([k' v'] & Hk & [Hne _]%list_elem_of_filter). cbn in *. congruence.
Qed.

Lemma lru_get_tail {V} k (m : lru V) v : lru_ok m -> lru_get k (tail m) = Some v -> lru_get k m = Some v.
Proof.
  destruct m as [|[k' v'] m]; [done|]. unfold lru_ok. cbn. intros [Hni _]%NoDup_cons Hg.
  destruct (N.eqb_spec k' k) as [->|]; [|done]. destruct Hni.
  clear -Hg. induction m as [|[k' v''] m IH]; [done|]. cbn in *. destruct (N.eqb_spec k' k) as [->|]; [left|right; by apply IH].
Qed.

Lemma tail_ok {V} (m : lru V) : lru_ok m -> lru_ok (tail m).
Proof. destruct m; [done|]. unfold lru_ok. cbn. by intros [_ ?]%NoDup_cons. Qed.

Lemma put_ok {V} key (v : V) capacity m : lru_ok m -> lru_ok (put m key v capacity).
Proof.
  intros H. unfold put. pose proof (lru_snoc_ok key v m H).
  destruct (_ <? _)%nat; [by apply tail_ok|done].
Qed.

(** What a map knows after [put]: the new value, or what it knew. *)
Lemma put_get {V} key (v : V) capacity m k w :
  lru_ok m -> lru_get k (put m key v capacity) = Some w ->
  (k = key /\ w = v) \/ (k <> key /\ lru_get k m = Some w).
Proof.
  intros H Hg. unfold put in Hg. pose proof (lru_snoc_ok key v m H) as Hok.
  assert (Hg' : lru_get k (lru_delete key m ++ [(key, v)]) = Some w).
  { destruct (_ <? _)%nat in Hg; [by apply lru_get_tail|done]. }
  rewrite lru_get_app, lru_get_delete in Hg'. case_decide as Hk; cbn in Hg'.
  - subst. rewrite N.eqb_refl in Hg'. left. by injection Hg'.
  - right. split; [done|]. destruct (lru_get k m); [done|]. by destruct (N.eqb_spec key k).
Qed.

Lemma put_length {V} key (v : V) capacity m : length m <= capacity -> length (put m key v capacity) <= capacity.
Proof.
  intros Hl. unfold put. destruct (Nat.ltb_spec capacity (length (lru_delete key m ++ [(key, v)]))) as [Hc|]; [|done].
  pose proof (length_filter (fun kv : N * V => kv.1 <> key) m) as Hd.
  rewrite length_app in Hc. cbn in Hc. fold (lru_delete key m) in Hd.
  destruct (lru_delete key m ++ [(key, v)]) as [|x l] eqn:E; [cbn; lia|]. cbn.
  apply (f_equal length) in E. rewrite length_app in E. cbn in E. lia.
Qed.

Lemma use_spec {V} (m : lru V) key :
  lru_ok m ->
  (use m key).2 = lru_get key m /\ lru_ok (use m key).1 /\ (forall k, lru_get k (use m key).1 = lru_get k m) /\
  length (use m key).1 <= length m.
Proof.
  intros Hok. unfold use. destruct (lru_get key m) as [v|] eqn:Hg; [|done]. cbn. split; [done|].
  split; [by apply lru_snoc_ok|]. split.
  - intros k. rewrite lru_get_app, lru_get_delete. case_decide as Hk; cbn.
    + subst. by rewrite N.eqb_refl.
    + destruct (lru_get k m) eqn:E; [done|]. by destruct (N.eqb_spec key k).
  - rewrite length_app. cbn.
    assert (Hin : (key, v) ∈ m).
    { clear -Hg. induction m as [|[k w] m IH]; [done|]. cbn in Hg. destruct (N.eqb_spec k key) as [->|].
      - injection Hg as ->. left.
      - right. by apply IH. }
    apply list_elem_of_split in Hin as (l1 & l2 & ->). unfold lru_delete. rewrite filter_app, filter_cons.
    rewrite decide_False by (cbn; tauto). rewrite !length_app. cbn.
    pose proof (length_filter (fun kv : N * V => kv.1 <> key) l1).
    pose proof (length_filter (fun kv : N * V => kv.1 <> key) l2). lia.
Qed.

(** ** What the storage answers *)

(** The newest entry visible from a conversation. *)
Definition newest (st : State) (c : N) (r : option N) : Prop :=
  match r with
  | Some id => visible st c id /\ forall id', visible st c id' -> (id' <= id)%N
  | None => forall id, ~ visible st c id
  end.

(** What the tails know is what the storage would answer; entries are compared as their
    copies. *)
Record tails_ok (st : State) (t : ConversationTails) : Prop := {
  to_latest : lru_ok (tl_latest t);
  to_markers : lru_ok (tl_markers t);
  to_newest : forall c r, lru_get c (tl_latest t) = Some r ->
    is_Some (conversations (conversation_tables st) !! c) /\ newest st c r;
  to_marker : forall c m, lru_get c (tl_markers t) = Some m ->
    is_Some (conversations (conversation_tables st) !! c) /\
    exists r, newest_marker st c PosInf r /\ clone m = clone r;
}.

(** How a Session writes: a conversation is new, and an entry is newer than every entry
    and every fork point. *)
Definition write_grows (st : State) (w : StorageWrite) : Prop :=
  match w with
  | WConversation v =>
      conversations (conversation_tables st) !! c_id v = None /\ own_ids st (c_id v) = [] /\
      forall c p, parent_of st c = Some p -> pl_conversationId p <> c_id v
  | WEntry v =>
      is_Some (conversations (conversation_tables st) !! e_conversationId v) /\
      (forall c id, id ∈ own_ids st c -> (id < e_id v)%N) /\
      forall c p, parent_of st c = Some p -> (pl_at p < e_id v)%N
  | _ => True
  end.

Lemma visible_below st c id bound :
  visible st c id -> (forall c id, id ∈ own_ids st c -> (id < bound)%N) -> (id < bound)%N.
Proof. induction 1 as [c id Hin|]; intros Hb; [by eapply Hb|by auto]. Qed.

Lemma own_ids_entry seq st next v c :
  StronglySorted N.lt (own_ids st (e_conversationId v)) -> e_id v ∉ own_ids st (e_conversationId v) ->
  forall id, id ∈ own_ids (apply_write seq (st, next) (WEntry v)).1 c <->
    id ∈ own_ids st c \/ (c = e_conversationId v /\ id = e_id v).
Proof.
  intros Hs Hn id. unfold own_ids in *. cbn. unfold insertMapId.
  destruct (decide (c = e_conversationId v)) as [->|Hne].
  - rewrite lookup_insert_eq. cbn.
    destruct (insertSorted_indexes _ (fun i => i ∈ default [] (entryIds (entry_tables st) !! e_conversationId v))
      (e_id v) (conj Hs (fun i => iff_refl _)) Hn) as [_ Hin].
    rewrite Hin. tauto.
  - rewrite lookup_insert_ne by done. tauto.
Qed.

Lemma visible_entry seq st next v c id :
  entries_sorted st -> write_grows st (WEntry v) ->
  visible (apply_write seq (st, next) (WEntry v)).1 c id <->
  visible st c id \/ (c = e_conversationId v /\ id = e_id v).
Proof.
  intros Hs (_ & Hnew & Hat).
  assert (Hn : e_id v ∉ own_ids st (e_conversationId v)) by (intros H; specialize (Hnew _ _ H); lia).
  assert (Hown := own_ids_entry seq st next v). set (st' := (apply_write seq (st, next) (WEntry v)).1) in *.
  assert (Hpar : forall c, parent_of st' c = parent_of st c) by done.
  split.
  - induction 1 as [c id Hin|c p id Hp _ IH Hle].
    + apply Hown in Hin as [Hin|?]; [by left; constructor|by right|apply Hs|done].
    + rewrite Hpar in Hp. destruct IH as [IH|[_ ->]]; [left; by eapply visible_fork|].
      specialize (Hat c p Hp). lia.
  - intros [Hv|[-> ->]].
    + induction Hv as [c id Hin|c p id Hp _ IH Hle]; [|by eapply visible_fork].
      constructor. apply Hown; [apply Hs|done|by left].
    + constructor. apply Hown; [apply Hs|done|by right].
Qed.

Lemma visible_conversation seq st next v c id :
  write_grows st (WConversation v) -> c <> c_id v ->
  visible (apply_write seq (st, next) (WConversation v)).1 c id <-> visible st c id.
Proof.
  intros (Hnone & _ & Hfresh) Hc. set (st' := (apply_write seq (st, next) (WConversation v)).1).
  assert (Hpar : forall c, c <> c_id v -> parent_of st' c = parent_of st c).
  { intros c' Hc'. unfold parent_of. cbn. by rewrite lookup_insert_ne. }
  split.
  - intros Hv. revert Hc. induction Hv as [c id Hin|c p id Hp _ IH Hle]; intros Hc; [by constructor|].
    rewrite Hpar in Hp by done. eapply visible_fork; [exact Hp| |done]. apply IH. by eapply Hfresh.
  - intros Hv. revert Hc. induction Hv as [c id Hin|c p id Hp _ IH Hle]; intros Hc; [by constructor|].
    eapply visible_fork; [by rewrite Hpar| |done]. apply IH. by eapply Hfresh.
Qed.

Lemma visible_new_root seq st next v id :
  write_grows st (WConversation v) -> c_parent v = None ->
  ~ visible (apply_write seq (st, next) (WConversation v)).1 (c_id v) id.
Proof.
  intros (_ & Hown & _) Hp Hv. inversion Hv as [? ? Hin|? p ? Hpar]; subst.
  - unfold own_ids in *. cbn in Hin. rewrite Hown in Hin. by apply elem_of_nil in Hin.
  - unfold parent_of in Hpar. cbn in Hpar. rewrite lookup_insert_eq in Hpar. cbn in Hpar. congruence.
Qed.

(** A write of another table leaves what is visible. *)
Lemma newest_ext st st' c r :
  (forall id, visible st' c id <-> visible st c id) -> newest st c r -> newest st' c r.
Proof.
  intros He. destruct r as [id|]; cbn.
  - intros [Hv Hm]. split; [by apply He|]. intros id' Hv'. apply Hm. by apply He.
  - intros Hn id Hv. apply (Hn id). by apply He.
Qed.

Lemma newest_marker_ext st st' c b b' r :
  (forall e, is_marker st' c b' e <-> is_marker st c b e) -> newest_marker st c b r -> newest_marker st' c b' r.
Proof.
  intros He. destruct r as [e|]; cbn.
  - intros [Hv Hm]. split; [by apply He|]. intros e' Hv'. apply Hm. by apply He.
  - intros Hn e Hv. apply (Hn e). by apply He.
Qed.

Lemma tails_conversation seq st next v t :
  tails_ok st t -> write_grows st (WConversation v) ->
  tails_ok (apply_write seq (st, next) (WConversation v)).1 (tails_write t (WConversation v)).
Proof.
  intros [H1 H2 H3 H4] Hg. pose proof Hg as (Hnone & _ & _).
  set (st' := (apply_write seq (st, next) (WConversation v)).1).
  assert (Hold : forall c, is_Some (conversations (conversation_tables st) !! c) ->
    c <> c_id v /\ is_Some (conversations (conversation_tables st') !! c)).
  { intros c [x Hx]. assert (Hc : c <> c_id v) by congruence. split; [done|].
    cbn. rewrite lookup_insert_ne by done. by eexists. }
  assert (Hn : forall c r, is_Some (conversations (conversation_tables st) !! c) -> newest st c r -> newest st' c r).
  { intros c r Hc. apply newest_ext. intros id. by apply visible_conversation, Hold. }
  assert (Hm : forall c b r, is_Some (conversations (conversation_tables st) !! c) ->
    newest_marker st c b r -> newest_marker st' c b r).
  { intros c b r Hc. apply newest_marker_ext. intros e. unfold is_marker.
    pose proof (visible_conversation seq st next v c (e_id e) Hg (proj1 (Hold c Hc))) as Hx.
    fold st' in Hx. by rewrite Hx. }
  cbn [tails_write]. destruct (c_parent v) as [p|] eqn:Hp.
  - split; [done|done|..].
    + intros c r Hc. destruct (H3 c r Hc) as [Hs Hr]. split; [by apply Hold|by apply Hn].
    + intros c m Hc. destruct (H4 c m Hc) as (Hs & r & Hr & He). split; [by apply Hold|].
      exists r. split; [by apply Hm|done].
  - assert (Hself : is_Some (conversations (conversation_tables st') !! c_id v)).
    { cbn. rewrite lookup_insert_eq. by eexists. }
    assert (Hempty : forall id, ~ visible st' (c_id v) id) by (intros id; by apply visible_new_root).
    split; cbn [tl_latest tl_markers]; [by apply put_ok|by apply put_ok|..].
    + intros c r [[-> ->]|[Hne Hc]]%put_get; [by split| |done].
      destruct (H3 c r Hc) as [Hs Hr]. split; [by apply Hold|by apply Hn].
    + intros c m [[-> ->]|[Hne Hc]]%put_get; [| |done].
      * split; [done|]. exists None. split; [|done]. intros e (_ & _ & Hv & _). by apply (Hempty (e_id e)).
      * destruct (H4 c m Hc) as (Hs & r & Hr & He). split; [by apply Hold|].
        exists r. split; [by apply Hm|done].
Qed.

Lemma visible_not_new st v c id :
  write_grows st (WEntry v) -> visible st c id -> (id < e_id v)%N.
Proof. intros (_ & Hnew & _) Hv. by eapply visible_below. Qed.

Lemma markers_entry seq st next v c b e :
  entries_sorted st -> write_grows st (WEntry v) ->
  is_marker (apply_write seq (st, next) (WEntry v)).1 c b e <->
  is_marker st c b e \/ (e = v /\ c = e_conversationId v /\ is_Some (e_head v) /\ id_le (e_id v) b = true).
Proof.
  intros Hs Hg. unfold is_marker. rewrite (visible_entry seq st next v c (e_id e) Hs Hg). cbn.
  destruct (decide (e_id e = e_id v)) as [Heq|Hne].
  - rewrite Heq, lookup_insert_eq. split.
    + intros ([= <-] & Hh & [Hv|[-> _]] & Hb); [|by right].
      pose proof (visible_not_new st v c _ Hg Hv). lia.
    + intros [(Hl & Hh & Hv & Hb)|(-> & -> & Hh & Hb)]; [|by split_and!; try done; right].
      pose proof (visible_not_new st v c _ Hg Hv). lia.
  - rewrite lookup_insert_ne by done. naive_solver.
Qed.

Lemma tails_entry seq st next v t :
  entries_sorted st -> tails_ok st t -> write_grows st (WEntry v) ->
  tails_ok (apply_write seq (st, next) (WEntry v)).1 (tails_write t (WEntry v)).
Proof.
  intros Hs [H1 H2 H3 H4] Hg. pose proof Hg as (Hconv & _ & _).
  pose proof (visible_entry seq st next v) as Hvis. pose proof (markers_entry seq st next v) as Hmark.
  set (st' := (apply_write seq (st, next) (WEntry v)).1) in *.
  assert (Hother : forall c m, c <> e_conversationId v \/ e_head v = None ->
    lru_get c (tl_markers t) = Some m -> is_Some (conversations (conversation_tables st') !! c) /\
    exists r, newest_marker st' c PosInf r /\ clone m = clone r).
  { intros c m Hc Hm. destruct (H4 c m Hm) as (Hs' & r & Hr & He). split; [done|]. exists r. split; [|done].
    eapply newest_marker_ext; [|exact Hr]. intros e. rewrite Hmark by done. split; [|by left].
    intros [?|(-> & -> & [h Hh] & _)]; [done|]. destruct Hc; congruence. }
  split; cbn [tails_write tl_latest tl_markers].
  - by apply put_ok.
  - destruct (is_some (e_head v)); [by apply put_ok|done].
  - intros c r [[-> ->]|[Hne Hc]]%put_get; [| |done].
    + split; [done|]. split; [apply Hvis; [done|done|by right]|]. intros id' Hv'.
      apply Hvis in Hv' as [Hv'|[_ ->]]; [|done|done|done]. pose proof (visible_not_new st v _ _ Hg Hv'). lia.
    + destruct (H3 c r Hc) as [Hs' Hr]. split; [done|]. eapply newest_ext; [|exact Hr]. intros id.
      rewrite Hvis by done. split; [|by left]. by intros [?|[? _]].
  - destruct (e_head v) as [h|] eqn:Hh; cbn [is_some].
    + intros c m [[-> ->]|[Hne Hc]]%put_get; [| |done].
      * split; [done|]. exists (Some v). split; [|done]. cbn. split.
        -- apply Hmark; [done|done|]. right. split_and!; [done|done|rewrite ?Hh; by eexists|done].
        -- intros e' He'. apply Hmark in He' as [(_ & _ & Hv & _)|[-> _]]; [|done|done|done].
           pose proof (visible_not_new st v _ _ Hg Hv). lia.
      * apply Hother; [by left|done].
    + intros c m Hc. apply Hother; [by right|done].
Qed.

Lemma visible_mono st st' c id :
  conversation_tables st' = conversation_tables st -> entry_tables st' = entry_tables st ->
  visible st c id -> visible st' c id.
Proof.
  intros Hc He. induction 1 as [c id Hin|c p id Hp _ IH Hle].
  - constructor. unfold own_ids. by rewrite He.
  - eapply visible_fork; [|exact IH|done]. unfold parent_of. by rewrite Hc.
Qed.

(** Writes of the other tables change nothing of it. *)
Lemma tails_same st st' t :
  conversation_tables st' = conversation_tables st -> entry_tables st' = entry_tables st ->
  tails_ok st t -> tails_ok st' t.
Proof.
  intros Hc He [H1 H2 H3 H4].
  assert (Hv : forall c id, visible st' c id <-> visible st c id) by (intros c id; split; by apply visible_mono).
  split; [done|done|..]; rewrite Hc.
  - intros c r Hr. destruct (H3 c r Hr) as [? Hn]. split; [done|].
    eapply newest_ext; [|exact Hn]. intros id. apply Hv.
  - intros c m Hm. destruct (H4 c m Hm) as (? & r & Hr & ?). split; [done|]. exists r. split; [|done].
    eapply newest_marker_ext; [|exact Hr]. intros e. unfold is_marker. by rewrite He, Hv.
Qed.

Lemma tails_write_ok seq st next w t :
  entries_sorted st -> tails_ok st t -> write_grows st w ->
  tails_ok (apply_write seq (st, next) w).1 (tails_write t w).
Proof.
  intros Hs Ht Hg. destruct w as [v|v|v|v|record version base|record source|i content|i];
    [by apply tails_conversation|by apply tails_entry|..]; by apply (tails_same st).
Qed.

Lemma entries_sorted_write seq st next w :
  entries_sorted st -> write_grows st w -> entries_sorted (apply_write seq (st, next) w).1.
Proof.
  intros Hs Hg. destruct w as [v|v|v|v|record version base|record source|i content|i]; try done.
  intros c. destruct Hg as (_ & Hnew & _). unfold own_ids. cbn. unfold insertMapId.
  destruct (decide (c = e_conversationId v)) as [->|Hne]; [|rewrite lookup_insert_ne by done; apply Hs].
  rewrite lookup_insert_eq. cbn.
  apply (insertSorted_indexes _ (fun i => i ∈ default [] (entryIds (entry_tables st) !! e_conversationId v))).
  - split; [apply Hs|done].
  - intros Hin. specialize (Hnew _ _ Hin). lia.
Qed.

(** Each write of the batch grows the state the earlier ones leave. *)
Fixpoint batch_grows (seq : N) (acc : State * N) (writes : list StorageWrite) : Prop :=
  match writes with
  | [] => True
  | w :: writes' => write_grows acc.1 w /\ batch_grows seq (apply_write seq acc w) writes'
  end.

Lemma apply_tails_ok seq writes : forall st next t,
  entries_sorted st -> tails_ok st t -> batch_grows seq (st, next) writes ->
  tails_ok (foldl (apply_write seq) (st, next) writes).1 (apply_tails t writes).
Proof.
  induction writes as [|w ws IH]; intros st next t Hs Ht; [done|]. cbn [batch_grows]. intros [Hg Hgs].
  cbn [foldl apply_tails]. unfold apply_tails in IH. cbn [fst] in Hg.
  pose proof (tails_write_ok seq st next w t Hs Ht Hg) as Ht'.
  pose proof (entries_sorted_write seq st next w Hs Hg) as Hs'.
  destruct (apply_write seq (st, next) w) as [st' next']. by apply IH.
Qed.

(** ** What the tails answer *)

Lemma newest_unique st c r r' : newest st c r -> newest st c r' -> r = r'.
Proof.
  destruct r as [id|], r' as [id'|]; cbn.
  - intros [Hv Hm] [Hv' Hm']. f_equal. apply N.le_antisymm; auto.
  - intros [Hv _] Hn. by destruct (Hn id).
  - intros Hn [Hv _]. by destruct (Hn id').
  - done.
Qed.

(** [latest] answers what the storage would, and keeps the tails right. *)
Lemma latest_spec st t c read r :
  tails_ok st t -> is_Some (conversations (conversation_tables st) !! c) -> read = Ok r -> newest st c r ->
  (latest t c read).2 = Ok r /\ tails_ok st (latest t c read).1.
Proof.
  intros Ht Hc -> Hr. pose proof Ht as [H1 H2 H3 H4].
  destruct (use_spec (tl_latest t) c H1) as (Hu & Huok & Hget & _). unfold latest.
  destruct (use (tl_latest t) c) as [used [known|]]; cbn in *; symmetry in Hu.
  - split; [f_equal; eapply newest_unique; [apply (H3 c known Hu)|done]|].
    split; cbn; [done|done| |done]. intros c' r' Hc'. apply H3. by rewrite <- Hget.
  - split; [done|]. split; cbn; [by apply put_ok|done| |done].
    intros c' r' [[-> ->]|[_ Hc']]%put_get; [by split|by apply H3|done].
Qed.

(** The newest marker is the newest one up to any cutoff at or after it, and up to any
    cutoff at or after the newest entry. *)
Lemma newest_marker_cutoff st c m cutoff :
  newest_marker st c PosInf (Some m) -> (e_id m <= cutoff)%N -> newest_marker st c (fin cutoff) (Some m).
Proof.
  intros [(He & Hh & Hv & _) Hmax] Hle. split.
  - split_and!; [done|done|done|]. cbn. apply Z.leb_le. lia.
  - intros e' (He' & Hh' & Hv' & _). by apply Hmax.
Qed.

Lemma newest_marker_none st c b : newest_marker st c PosInf None -> newest_marker st c b None.
Proof. intros Hn e (He & Hh & Hv & _). apply (Hn e). by split_and!. Qed.

Lemma newest_marker_all st c cutoff r known :
  newest st c known -> (default 0 known <= cutoff)%N ->
  newest_marker st c (fin cutoff) r -> newest_marker st c PosInf r.
Proof.
  intros Hk Hle. apply newest_marker_ext. intros e. unfold is_marker. split; intros (He & Hh & Hv & _);
    (split_and!; [done|done|done|]); [|done].
  cbn. apply Z.leb_le. destruct known as [id|]; cbn in *; [|by destruct (Hk (e_id e))].
  destruct Hk as [_ Hmax]. specialize (Hmax _ Hv). lia.
Qed.

Lemma newest_marker_id st c b r r' :
  newest_marker st c b r -> newest_marker st c b r' -> r = r'.
Proof.
  destruct r as [e|], r' as [e'|]; cbn.
  - intros [Hv Hm] [Hv' Hm'].
    assert (Hid : e_id e = e_id e') by (apply N.le_antisymm; auto).
    destruct Hv as (He & _), Hv' as (He' & _). rewrite Hid in He. congruence.
  - intros [Hv _] Hn. by destruct (Hn e).
  - intros Hn [Hv _]. by destruct (Hn e').
  - done.
Qed.

Lemma clone_id (m r : EntryRecord) : clone m = clone r -> e_id m = e_id r.
Proof. intros H. by apply (f_equal e_id) in H. Qed.

Definition cutoff_bound (atOrBefore : option N) : bound := opt_bound PosInf atOrBefore.

(** Reading the storage for a marker keeps the tails right. *)
Lemma marker_read_spec st t c atOrBefore m r :
  tails_ok st t -> is_Some (conversations (conversation_tables st) !! c) ->
  newest_marker st c (cutoff_bound atOrBefore) r -> clone m = clone r ->
  (marker_read t c atOrBefore (Ok m)).2 = Ok m /\ tails_ok st (marker_read t c atOrBefore (Ok m)).1.
Proof.
  intros Ht Hc Hr Hm. split; [done|]. pose proof Ht as [H1 H2 H3 H4].
  assert (Hput : newest_marker st c PosInf r ->
    tails_ok st {| tl_latest := tl_latest t; tl_markers := put (tl_markers t) c m MARKER_CAPACITY |}).
  { intros Hn. split; cbn; [done|by apply put_ok|done|].
    intros c' m' [[-> ->]|[_ Hc']]%put_get; [split; [done|by exists r]|by apply H4|done]. }
  unfold marker_read. cbn [fst]. destruct atOrBefore as [cutoff|]; [|by apply Hput].
  destruct (lru_get c (tl_latest t)) as [known|] eqn:Hk; [|done].
  destruct (N.leb_spec (default 0%N known) cutoff); [|done]. apply Hput.
  destruct (H3 c known Hk) as [_ Hnew]. by eapply newest_marker_all.
Qed.

(** [marker] answers the newest marker up to the cutoff, and keeps the tails right. *)
Lemma marker_spec st t c atOrBefore m r :
  tails_ok st t -> is_Some (conversations (conversation_tables st) !! c) ->
  newest_marker st c (cutoff_bound atOrBefore) r -> clone m = clone r ->
  exists m', (marker t c atOrBefore (Ok m)).2 = Ok m' /\ clone m' = clone r /\
    tails_ok st (marker t c atOrBefore (Ok m)).1.
Proof.
  intros Ht Hc Hr Hm. pose proof Ht as [H1 H2 H3 H4].
  destruct (use_spec (tl_markers t) c H2) as (Hu & Huok & Hget & _). unfold marker.
  destruct (use (tl_markers t) c) as [used known]; cbn in *.
  set (t1 := {| tl_latest := tl_latest t; tl_markers := used |}).
  assert (Ht1 : tails_ok st t1).
  { split; cbn; [done|done|done|]. intros c' m' Hc'. apply H4. by rewrite <- Hget. }
  assert (Hread : exists m', (marker_read t1 c atOrBefore (Ok m)).2 = Ok m' /\ clone m' = clone r /\
    tails_ok st (marker_read t1 c atOrBefore (Ok m)).1).
  { destruct (marker_read_spec st t1 c atOrBefore m r Ht1 Hc Hr Hm) as [Hm2 Ht2]. by exists m. }
  symmetry in Hu. destruct known as [[km|]|]; [| |exact Hread].
  - destruct (match atOrBefore with None => true | Some cutoff => (e_id km <=? cutoff)%N end) eqn:Ha;
      [|exact Hread].
    exists (Some km). split; [done|]. split; [|done].
    destruct (H4 c (Some km) Hu) as (_ & r' & Hr' & Hcl). rewrite Hcl. f_equal.
    destruct r' as [e'|]; [|done]. eapply newest_marker_id; [|exact Hr].
    destruct atOrBefore as [cutoff|]; [|done]. apply newest_marker_cutoff; [done|].
    apply N.leb_le in Ha. injection Hcl as Hcl. by rewrite <- Hcl.
  - exists None. split; [done|]. split; [|done].
    destruct (H4 c None Hu) as (_ & r' & Hr' & Hcl). destruct r' as [e'|]; [done|].
    f_equal. eapply newest_marker_id; [|exact Hr]. by apply newest_marker_none.
Qed.

(** The maps stay within their capacities. *)
Lemma tails_bounded t w :
  length (tl_latest t) <= LATEST_CAPACITY -> length (tl_markers t) <= MARKER_CAPACITY ->
  length (tl_latest (tails_write t w)) <= LATEST_CAPACITY /\
  length (tl_markers (tails_write t w)) <= MARKER_CAPACITY.
Proof.
  intros Hl Hm. destruct w as [v|v|v|v|record version base|record source|i content|i]; try done; cbn [tails_write].
  - destruct (c_parent v); [done|]. split; by apply put_length.
  - split; [by apply put_length|]. cbn [tl_markers]. destruct (is_some (e_head v)); [by apply put_length|done].
Qed.

(** A failing read leaves what the tails know. *)
Lemma latest_fail st t c e : tails_ok st t -> tails_ok st (latest t c (Throw e)).1.
Proof.
  intros Ht. pose proof Ht as [H1 H2 H3 H4]. destruct (use_spec (tl_latest t) c H1) as (Hu & Huok & Hget & _).
  unfold latest. destruct (use (tl_latest t) c) as [used [known|]]; cbn in *; [|done].
  split; cbn; [done|done| |done]. intros c' r' Hc'. apply H3. by rewrite <- Hget.
Qed.

Lemma marker_fail st t c atOrBefore e : tails_ok st t -> tails_ok st (marker t c atOrBefore (Throw e)).1.
Proof.
  intros Ht. pose proof Ht as [H1 H2 H3 H4]. destruct (use_spec (tl_markers t) c H2) as (Hu & Huok & Hget & _).
  unfold marker. destruct (use (tl_markers t) c) as [used known]; cbn in *.
  assert (Ht1 : tails_ok st {| tl_latest := tl_latest t; tl_markers := used |}).
  { split; cbn; [done|done|done|]. intros c' m' Hc'. apply H4. by rewrite <- Hget. }
  destruct known as [[km|]|]; [|done|done]. by destruct (match atOrBefore with None => true | Some cutoff => _ end).
Qed.

Definition tails_small (t : ConversationTails) : Prop :=
  length (tl_latest t) <= LATEST_CAPACITY /\ length (tl_markers t) <= MARKER_CAPACITY.

Lemma apply_small t writes : tails_small t -> tails_small (apply_tails t writes).
Proof.
  unfold apply_tails. revert t; induction writes as [|w ws IH]; intros t; [done|]. intros [Hl Hm]. cbn.
  apply IH. by apply tails_bounded.
Qed.

Lemma use_length {V} (m : lru V) key : lru_ok m -> length (use m key).1 <= length m.
Proof. intros H. by destruct (use_spec m key H) as (_ & _ & _ & ?). Qed.

Lemma latest_small st t c read : tails_ok st t -> tails_small t -> tails_small (latest t c read).1.
Proof.
  intros [H1 _ _ _] [Hl Hm]. pose proof (use_length (tl_latest t) c H1) as Hu. unfold latest.
  destruct (use (tl_latest t) c) as [used [known|]]; cbn in Hu; [split; cbn; [lia|done]|].
  destruct read; [|done]. split; [by apply put_length|done].
Qed.

Lemma marker_read_small t c atOrBefore read : tails_small t -> tails_small (marker_read t c atOrBefore read).1.
Proof.
  intros [Hl Hm]. unfold marker_read. destruct read; [|done]. cbn [fst]. destruct (match atOrBefore with None => true | Some cutoff => _ end); [|done].
  split; [done|by apply put_length].
Qed.

Lemma marker_small st t c atOrBefore read : tails_ok st t -> tails_small t -> tails_small (marker t c atOrBefore read).1.
Proof.
  intros [_ H2 _ _] [Hl Hm]. pose proof (use_length (tl_markers t) c H2) as Hu. unfold marker.
  destruct (use (tl_markers t) c) as [used known]; cbn in Hu.
  assert (Ht1 : tails_small {| tl_latest := tl_latest t; tl_markers := used |}) by (split; cbn; [done|lia]).
  destruct known as [[km|]|]; [|done|by apply marker_read_small].
  destruct (match atOrBefore with None => true | Some cutoff => _ end); [done|by apply marker_read_small].
Qed.
