(* ===== verification/TaskGraph.v ===== *)
(** The graph of the live tasks of a Session (durable/src/harness/task-graph.ts): built
    from the storage when it is first observed, and advanced from the commits after that.
    What the scheduler says about a task ([blocked]) is a parameter, as it is a callback of
    the view. *)
From S2P Require Import Prelude JsString Json DeltaOp DeltaApply StorageTypes SortedIds MemoryCommit.
From S2P Require Import DocumentFacts TableFacts MemoryFacts MemoryRead ReadFacts MemoryHistory.
From Stdlib Require Import Sorted.
From stdpp Require Import sorting.

(** ** Nodes *)

Inductive OutcomeStatus : Type := OSCompleted | OSFailed | OSAborted | OSOrphaned | OSFaulted.

Definition outcome_status (o : TaskOutcome) : OutcomeStatus :=
  match o with
  | OCompleted _ => OSCompleted
  | OFailed _ _ => OSFailed
  | OAborted _ _ => OSAborted
  | OOrphaned _ => OSOrphaned
  | OFaulted _ => OSFaulted
  end.

(** A phase is the text a checkpoint has there; [None] is one that has none. *)
Inductive TaskGraphState : Type :=
| GPending (phase : option string)
| GRunning (phase : option string)
| GWaiting (phase : option string) (on : list N) (policy : JoinPolicy)
| GSleeping (phase : option string) (until : num)
| GCompleting (outcome : OutcomeStatus).

Record TaskGraphNode : Type := {
  g_id : N;
  g_kind : string;
  g_conversationId : N;
  g_owner : option N;
  g_background : bool;
  g_abortRequested : bool;
  g_state : TaskGraphState;
  g_conversations : list N;
  g_blocked : option string;
}.

(** [BlockedSubject], the part of a record the blocked reason reads. *)
Record BlockedSubject : Type := {
  bs_id : N;
  bs_kind : string;
  bs_version : N;
  bs_abortRequested : bool;
  bs_abortReason : bool;
  bs_status : TaskStatus;
}.

Definition blockedSubject (r : TaskRecord) : BlockedSubject :=
  {| bs_id := t_id r; bs_kind := t_kind r; bs_version := t_version r;
     bs_abortRequested := t_abortRequested r; bs_abortReason := t_abortReason r; bs_status := t_status r |}.

Definition phaseOf (checkpoint : json) : option string :=
  match checkpoint with
  | JObj _ fs => match obj_get "phase" fs with Some (JStr s) => Some s | _ => None end
  | _ => None
  end.

Definition stateOf (r : TaskRecord) : TaskGraphState :=
  match t_state r with
  | TPending checkpoint => GPending (phaseOf checkpoint)
  | TRunning checkpoint => GRunning (phaseOf checkpoint)
  | TWaiting checkpoint on policy => GWaiting (phaseOf checkpoint) on policy
  | TSleeping checkpoint until => GSleeping (phaseOf checkpoint) until
  | TCompleting outcome | TTerminal outcome => GCompleting (outcome_status outcome)
  end.

Definition nodeOf (r : TaskRecord) (conversations : list N) (blocked : option string) : TaskGraphNode :=
  {| g_id := t_id r; g_kind := t_kind r; g_conversationId := t_conversationId r; g_owner := t_owner r;
     g_background := t_background r; g_abortRequested := t_abortRequested r; g_state := stateOf r;
     g_conversations := conversations; g_blocked := blocked |}.

(** ** Comparing nodes *)

(** The node as its [JSON.stringify] text tells it: [-0] is written as [0]. *)
Definition text_num (n : num) : num := match n with NegZero => Dec 0 0 | Dec _ _ => n end.

Definition text_state (s : TaskGraphState) : TaskGraphState :=
  match s with GSleeping p until => GSleeping p (text_num until) | _ => s end.

Definition text_node (n : TaskGraphNode) : TaskGraphNode :=
  {| g_id := g_id n; g_kind := g_kind n; g_conversationId := g_conversationId n; g_owner := g_owner n;
     g_background := g_background n; g_abortRequested := g_abortRequested n; g_state := text_state (g_state n);
     g_conversations := g_conversations n; g_blocked := g_blocked n |}.

#[export] Instance OutcomeStatus_eq_dec : EqDecision OutcomeStatus.
Proof. solve_decision. Defined.
#[export] Instance JoinPolicy_eq_dec : EqDecision JoinPolicy.
Proof. solve_decision. Defined.
#[export] Instance num_eq_dec : EqDecision num.
Proof. solve_decision. Defined.
#[export] Instance TaskGraphState_eq_dec : EqDecision TaskGraphState.
Proof. solve_decision. Defined.
#[export] Instance TaskGraphNode_eq_dec : EqDecision TaskGraphNode.
Proof. solve_decision. Defined.

(** [JSON.stringify(next) === JSON.stringify(previous)]: the fields come in one order. *)
Definition same_text (next previous : TaskGraphNode) : bool := bool_decide (text_node next = text_node previous).

(** [(a, b) => a - b]. *)
Definition sort_ids (ids : list N) : list N := merge_sort N.le ids.

(** ** The mount *)

(** The operations the graph publishes; the keys are the decimal IDs. *)
Inductive GraphOp : Type :=
| GDelete (id : N)
| GSet (id : N) (node : TaskGraphNode)
| GSetConversations (id : N) (conversations : list N)
| GSetBlocked (id : N) (reason : string)
| GDeleteBlocked (id : N).

Abbreviation Tasks := (gmap N TaskGraphNode).

(** The observers get the value and the operations of each revision; they are not state. *)
Record Mount : Type := { m_tasks : Tasks; m_records : gmap N BlockedSubject }.

Definition with_conversations (n : TaskGraphNode) (ids : list N) : TaskGraphNode :=
  {| g_id := g_id n; g_kind := g_kind n; g_conversationId := g_conversationId n; g_owner := g_owner n;
     g_background := g_background n; g_abortRequested := g_abortRequested n; g_state := g_state n;
     g_conversations := ids; g_blocked := g_blocked n |}.

Definition with_blocked (n : TaskGraphNode) (reason : option string) : TaskGraphNode :=
  {| g_id := g_id n; g_kind := g_kind n; g_conversationId := g_conversationId n; g_owner := g_owner n;
     g_background := g_background n; g_abortRequested := g_abortRequested n; g_state := g_state n;
     g_conversations := g_conversations n; g_blocked := reason |}.

(** What an operation does to the graph ([applyImmutable]). *)
Definition apply_graph_op (tasks : Tasks) (op : GraphOp) : Tasks :=
  match op with
  | GDelete id => delete id tasks
  | GSet id node => <[id := node]> tasks
  | GSetConversations id ids => alter (fun n => with_conversations n ids) id tasks
  | GSetBlocked id reason => alter (fun n => with_blocked n (Some reason)) id tasks
  | GDeleteBlocked id => alter (fun n => with_blocked n None) id tasks
  end.

(** [publish]; without operations nothing is published. *)
Definition publish (m : Mount) (ops : list GraphOp) : Mount :=
  {| m_tasks := foldl apply_graph_op (m_tasks m) ops; m_records := m_records m |}.

Section View.
Context (blocked : BlockedSubject -> option string).

(** ** [advance] *)

(** The state of the loop over the tasks of a publication. *)
Record Advance : Type := {
  ad_records : gmap N BlockedSubject;
  ad_ops : list GraphOp;
  ad_changed : gmap N (option TaskGraphNode);
}.

(** The closure [node]. *)
Definition node_at (tasks : Tasks) (changed : gmap N (option TaskGraphNode)) (id : N) : option TaskGraphNode :=
  match changed !! id with Some n => n | None => tasks !! id end.

Definition advance_task (tasks : Tasks) (a : Advance) (record : TaskRecord) : Advance :=
  let key := t_id record in
  let previous := node_at tasks (ad_changed a) key in
  match t_status record with
  | terminal =>
      {| ad_records := delete key (ad_records a);
         ad_ops := if is_some previous then ad_ops a ++ [GDelete key] else ad_ops a;
         ad_changed := if is_some previous then <[key := None]> (ad_changed a) else ad_changed a |}
  | _ =>
      let subject := blockedSubject record in
      let next := nodeOf record (default [] (g_conversations <$> previous)) (blocked subject) in
      let same := match previous with Some p => same_text next p | None => false end in
      {| ad_records := <[key := subject]> (ad_records a);
         ad_ops := if same then ad_ops a else ad_ops a ++ [GSet key next];
         ad_changed := if same then ad_changed a else <[key := Some next]> (ad_changed a) |}
  end.

(** The map [created]: the new conversations by owner task, in insertion order. *)
Fixpoint created_add (key id : N) (created : list (N * list N)) : list (N * list N) :=
  match created with
  | [] => [(key, [id])]
  | (k, ids) :: created' => if (k =? key)%N then (k, ids ++ [id]) :: created' else (k, ids) :: created_add key id created'
  end.

Definition created_step (tasks : Tasks) (changed : gmap N (option TaskGraphNode)) (created : list (N * list N))
    (c : ConversationRecord) : list (N * list N) :=
  match c_owner c with
  | Some o => if is_some (node_at tasks changed (ol_taskId o)) then created_add (ol_taskId o) (c_id c) created else created
  | None => created
  end.

Definition conversations_op (tasks : Tasks) (changed : gmap N (option TaskGraphNode)) (created : N * list N) : GraphOp :=
  GSetConversations created.1
    (sort_ids (default [] (g_conversations <$> node_at tasks changed created.1) ++ created.2)).

(** [advance]: the mount after a publication and the operations it hands out. *)
Definition advance (m : Mount) (changes : list StorageWrite) : Mount * list GraphOp :=
  let a := foldl (advance_task (m_tasks m)) {| ad_records := m_records m; ad_ops := []; ad_changed := ∅ |}
             (omap pick_task changes) in
  let created := foldl (created_step (m_tasks m) (ad_changed a)) [] (omap pick_conversation changes) in
  let ops := ad_ops a ++ (conversations_op (m_tasks m) (ad_changed a) <$> created) in
  (publish {| m_tasks := m_tasks m; m_records := ad_records a |} ops, ops).

(** ** [#refreshBlocked] *)

Definition blocked_op (tasks : Tasks) (entry : N * BlockedSubject) : option GraphOp :=
  let reason := blocked entry.2 in
  if bool_decide (reason = (tasks !! entry.1) ≫= g_blocked) then None
  else Some (match reason with Some r => GSetBlocked entry.1 r | None => GDeleteBlocked entry.1 end).

Definition refreshBlocked (m : Mount) : Mount * list GraphOp :=
  let ops := omap (blocked_op (m_tasks m)) (map_to_list (m_records m)) in
  (publish m ops, ops).

(** ** [#build] *)

Definition LIVE_STATUSES : list TaskStatus := [pending; running; waiting; sleeping; completing].
Definition SCAN_PAGE_SIZE : nat := 256.

Definition status_query (s : TaskStatus) : TaskQuery :=
  {| tq_conversationId := None; tq_kind := None; tq_status := Some s; tq_abortRequested := None;
     tq_background := None; tq_order := None |}.

Definition owner_query (task : N) : ConversationQuery :=
  {| cq_ownerConversationId := None; cq_ownerTaskId := Some task; cq_order := None |}.

(** The scans of a list, collected; [None] is running out of fuel. *)
Fixpoint collect {A R} (scan_of : A -> option (sres (list R))) (l : list A) : option (sres (list R)) :=
  match l with
  | [] => Some (Ok [])
  | a :: l' =>
      match scan_of a with
      | Some (Ok items) =>
          match collect scan_of l' with
          | Some (Ok rest) => Some (Ok (items ++ rest))
          | r => r
          end
      | r => r
      end
  end.

Fixpoint build_nodes (fuel : nat) (st : MemoryStorage) (records : list TaskRecord) (m : Mount) : option (sres Mount) :=
  match records with
  | [] => Some (Ok m)
  | r :: records' =>
      match scanAll fuel (scanConversations st (owner_query (t_id r)) SCAN_PAGE_SIZE) None [] with
      | Some (Ok owned) =>
          let subject := blockedSubject r in
          build_nodes fuel st records'
            {| m_tasks := <[t_id r := nodeOf r (sort_ids (c_id <$> owned)) (blocked subject)]> (m_tasks m);
               m_records := <[t_id r := subject]> (m_records m) |}
      | Some (Throw e) => Some (Throw e)
      | None => None
      end
  end.

(** By ID; the sort of the records. *)
Definition by_id (a b : TaskRecord) : Prop := (t_id a <= t_id b)%N.

#[global] Instance by_id_dec a b : Decision (by_id a b).
Proof. unfold by_id. apply _. Defined.

Definition build (fuel : nat) (st : MemoryStorage) : option (sres Mount) :=
  match collect (fun s => scanAll fuel (scanTasks st (status_query s) SCAN_PAGE_SIZE) None []) LIVE_STATUSES with
  | Some (Ok records) => build_nodes fuel st (merge_sort by_id records) {| m_tasks := ∅; m_records := ∅ |}
  | Some (Throw e) => Some (Throw e)
  | None => None
  end.
End View.
