(* ===== verification/TaskGraphFacts.v ===== *)
(** The task graph of durable/src/harness/task-graph.ts shows the storage: building it
    gives the live tasks with the conversations they own, and advancing it from a commit's
    changes, or from a change of the registry, gives what building it again would. *)
From S2P Require Import Prelude JsString Json DeltaOp DeltaApply StorageTypes SortedIds MemoryCommit.
From S2P Require Import DocumentFacts TableFacts MemoryFacts MemoryRead ReadFacts MemoryHistory TaskGraph.
From Stdlib Require Import Sorted.
From stdpp Require Import sorting.

(** ** The graph of a storage *)

(** The conversations a task owns, in ID order. *)
Definition owned (st : State) (id : N) : list N :=
  default [] (conversationIdsByOwnerTask (conversation_tables st) !! id).

Definition live_task (r : TaskRecord) : bool := negb (bool_decide (t_status r = terminal)).

Definition live_record (st : State) (id : N) : option TaskRecord :=
  r ← tasks_of st !! id; if live_task r then Some r else None.

Section View.
Context (blocked : BlockedSubject -> option string).

Definition expected (st : State) (id : N) : option TaskGraphNode :=
  (fun r => nodeOf r (owned st id) (blocked (blockedSubject r))) <$> live_record st id.

(** The mount shows the storage: each live task has its node, up to the text of its time,
    and what its blocked reason reads. *)
Definition mount_ok (st : State) (m : Mount) : Prop :=
  (forall id, text_node <$> m_tasks m !! id = text_node <$> expected st id) /\
  (forall id, m_records m !! id = blockedSubject <$> live_record st id).

(** ** [advance] *)

Lemma text_node_conversations (n n' : option TaskGraphNode) :
  text_node <$> n = text_node <$> n' -> g_conversations <$> n = g_conversations <$> n'.
Proof. destruct n as [n|], n' as [n'|]; cbn; [|done..]. intros [= H1 H2 H3 H4 H5 H6 H7 H8 H9]. by rewrite H8. Qed.

Lemma text_node_some (n n' : option TaskGraphNode) :
  text_node <$> n = text_node <$> n' -> is_some n = is_some n'.
Proof. by destruct n, n'. Qed.

(** The record of a list of distinct ones with the ID. *)
Definition record_of {R} (id_of : R -> N) (id : N) (l : list R) : option R := last (filter (fun v => id_of v = id) l).

Lemma record_of_none {R} (id_of : R -> N) id l : id ∉ id_of <$> l -> record_of id_of id l = None.
Proof.
  intros Hn. unfold record_of. rewrite filter_none; [done|]. intros v Hv Hid. apply Hn.
  apply list_elem_of_fmap. by exists v.
Qed.

Lemma record_of_snoc {R} (id_of : R -> N) id l v :
  record_of id_of id (l ++ [v]) = if decide (id_of v = id) then Some v else record_of id_of id l.
Proof.
  unfold record_of. rewrite filter_app, filter_cons. case_decide; cbn; [by rewrite last_snoc|by rewrite app_nil_r].
Qed.

Lemma record_of_Some {R} (id_of : R -> N) id l v :
  NoDup (id_of <$> l) -> record_of id_of id l = Some v <-> v ∈ l /\ id_of v = id.
Proof.
  induction l as [|x l IH] using rev_ind; intros Hnd.
  { split; [done|]. by intros [?%elem_of_nil _]. }
  rewrite fmap_app in Hnd. apply NoDup_app in Hnd as (Hnd & Hdis & _). rewrite record_of_snoc, elem_of_app.
  case_decide as Hid.
  - split; [intros [= <-]; split; [right; by left|done]|]. intros [[Hv|Hv] Hv'].
    + destruct (Hdis (id_of v)); [by apply list_elem_of_fmap_2|]. rewrite Hv', <- Hid. by left.
    + apply list_elem_of_singleton in Hv. by subst.
  - rewrite IH by done. split; [tauto|]. intros [[Hv|Hv] Hv']; [done|].
    apply list_elem_of_singleton in Hv. congruence.
Qed.

(** The node after the tasks of a publication. *)
Definition node_next (tasks : Tasks) (rs : list TaskRecord) (id : N) : option TaskGraphNode :=
  match record_of t_id id rs with
  | Some r =>
      if live_task r
      then Some (nodeOf r (default [] (g_conversations <$> tasks !! id)) (blocked (blockedSubject r)))
      else None
  | None => tasks !! id
  end.

Definition record_next (records : gmap N BlockedSubject) (rs : list TaskRecord) (id : N) : option BlockedSubject :=
  match record_of t_id id rs with
  | Some r => if live_task r then Some (blockedSubject r) else None
  | None => records !! id
  end.

(** The loop over the tasks: its operations make the nodes it sees. *)
Record advance_inv (m : Mount) (rs : list TaskRecord) (a : Advance) : Prop := {
  ai_node : forall id, text_node <$> node_at (m_tasks m) (ad_changed a) id = text_node <$> node_next (m_tasks m) rs id;
  ai_records : forall id, ad_records a !! id = record_next (m_records m) rs id;
  ai_ops : forall id, foldl apply_graph_op (m_tasks m) (ad_ops a) !! id = node_at (m_tasks m) (ad_changed a) id;
}.

Lemma node_at_insert tasks changed key n id :
  node_at tasks (<[key := n]> changed) id = if decide (key = id) then n else node_at tasks changed id.
Proof. unfold node_at. case_decide; [subst; by rewrite lookup_insert_eq|by rewrite lookup_insert_ne]. Qed.

Lemma advance_task_terminal tasks a r :
  live_task r = false ->
  advance_task blocked tasks a r =
  let some := is_some (node_at tasks (ad_changed a) (t_id r)) in
  {| ad_records := delete (t_id r) (ad_records a);
     ad_ops := if some then ad_ops a ++ [GDelete (t_id r)] else ad_ops a;
     ad_changed := if some then <[t_id r := None]> (ad_changed a) else ad_changed a |}.
Proof. unfold advance_task, live_task. by destruct (t_status r). Qed.

Lemma advance_task_live tasks a r :
  live_task r = true ->
  advance_task blocked tasks a r =
  let previous := node_at tasks (ad_changed a) (t_id r) in
  let next := nodeOf r (default [] (g_conversations <$> previous)) (blocked (blockedSubject r)) in
  let same := match previous with Some p => same_text next p | None => false end in
  {| ad_records := <[t_id r := blockedSubject r]> (ad_records a);
     ad_ops := if same then ad_ops a else ad_ops a ++ [GSet (t_id r) next];
     ad_changed := if same then ad_changed a else <[t_id r := Some next]> (ad_changed a) |}.
Proof. unfold advance_task, live_task. by destruct (t_status r). Qed.

Lemma advance_task_inv m rs r a :
  t_id r ∉ t_id <$> rs -> advance_inv m rs a -> advance_inv m (rs ++ [r]) (advance_task blocked (m_tasks m) a r).
Proof.
  intros Hn [H1 H2 H3]. pose proof (H1 (t_id r)) as Hprev.
  assert (Hnext : node_next (m_tasks m) rs (t_id r) = m_tasks m !! t_id r).
  { unfold node_next. by rewrite record_of_none. }
  rewrite Hnext in Hprev.
  assert (Hrec : forall id, record_next (m_records m) (rs ++ [r]) id
    = if decide (t_id r = id) then (if live_task r then Some (blockedSubject r) else None)
      else record_next (m_records m) rs id).
  { intros id. unfold record_next. rewrite record_of_snoc. by case_decide. }
  assert (Hnode : forall id, node_next (m_tasks m) (rs ++ [r]) id
    = if decide (t_id r = id) then
        (if live_task r then Some (nodeOf r (default [] (g_conversations <$> m_tasks m !! id)) (blocked (blockedSubject r)))
         else None)
      else node_next (m_tasks m) rs id).
  { intros id. unfold node_next. rewrite record_of_snoc. by case_decide. }
  destruct (live_task r) eqn:Hl.
  - rewrite advance_task_live by done. cbn zeta.
    rewrite (text_node_conversations _ _ Hprev) in *.
    set (next := nodeOf r (default [] (g_conversations <$> m_tasks m !! t_id r)) (blocked (blockedSubject r))).
    destruct (match node_at (m_tasks m) (ad_changed a) (t_id r) with Some p => same_text next p | None => false end)
      eqn:Hsame; split; cbn [ad_records ad_ops ad_changed].
    + intros id. rewrite Hnode. case_decide as Hid; [|apply H1]. subst id.
      destruct (node_at (m_tasks m) (ad_changed a) (t_id r)) as [p|]; [|done].
      apply bool_decide_eq_true in Hsame. cbn. by rewrite <- Hsame.
    + intros id. rewrite Hrec. case_decide as Hid; [subst; by rewrite lookup_insert_eq|by rewrite lookup_insert_ne].
    + done.
    + intros id. rewrite Hnode, node_at_insert. case_decide as Hid; [by subst|apply H1].
    + intros id. rewrite Hrec. case_decide as Hid; [subst; by rewrite lookup_insert_eq|by rewrite lookup_insert_ne].
    + intros id. rewrite foldl_snoc, node_at_insert. cbn [apply_graph_op].
      case_decide as Hid; [subst; by rewrite lookup_insert_eq|by rewrite lookup_insert_ne, H3].
  - rewrite advance_task_terminal by done. cbn zeta.
    assert (Hr : forall id, delete (t_id r) (ad_records a) !! id = record_next (m_records m) (rs ++ [r]) id).
    { intros id. rewrite Hrec. case_decide as Hid; [subst; by rewrite lookup_delete_eq|by rewrite lookup_delete_ne]. }
    destruct (node_at (m_tasks m) (ad_changed a) (t_id r)) as [p|] eqn:Hp; cbn [is_some]; split;
      cbn [ad_records ad_ops ad_changed]; try done.
    + intros id. rewrite Hnode, node_at_insert. case_decide as Hid; [done|apply H1].
    + intros id. rewrite foldl_snoc, node_at_insert. cbn [apply_graph_op].
      case_decide as Hid; [subst; by rewrite lookup_delete_eq|by rewrite lookup_delete_ne, H3].
    + intros id. rewrite Hnode. case_decide as Hid; [subst; by rewrite Hp|apply H1].
Qed.

Lemma advance_tasks_inv m rs :
  NoDup (t_id <$> rs) ->
  advance_inv m rs (foldl (advance_task blocked (m_tasks m)) {| ad_records := m_records m; ad_ops := []; ad_changed := ∅ |} rs).
Proof.
  induction rs as [|r rs IH] using rev_ind; intros Hnd.
  { split; cbn; [done|done|]. intros id. unfold node_at. by rewrite lookup_empty. }
  rewrite fmap_app in Hnd. apply NoDup_app in Hnd as (Hnd & Hdis & _). rewrite foldl_snoc.
  apply advance_task_inv; [|by apply IH]. intros Hin. destruct (Hdis _ Hin). by left.
Qed.

(** *** The conversations of a publication *)

Fixpoint created_get (key : N) (created : list (N * list N)) : option (list N) :=
  match created with
  | [] => None
  | (k, ids) :: created' => if (k =? key)%N then Some ids else created_get key created'
  end.

Lemma created_get_add key id created k :
  created_get k (created_add key id created)
  = if decide (key = k) then Some (default [] (created_get k created) ++ [id]) else created_get k created.
Proof.
  induction created as [|[k' ids] l IH]; cbn.
  - destruct (N.eqb_spec key k); by case_decide.
  - destruct (N.eqb_spec k' key) as [->|Hne]; cbn.
    + destruct (N.eqb_spec key k); by case_decide.
    + rewrite IH. destruct (N.eqb_spec k' k) as [->|]; [|done]. by rewrite decide_False.
Qed.

Lemma created_add_keys key id created :
  (created_add key id created).*1 = created.*1 ++ (if decide (key ∈ created.*1) then [] else [key]).
Proof.
  induction created as [|[k ids] l IH]; cbn; [by rewrite decide_False by (by intros ?%elem_of_nil)|].
  destruct (N.eqb_spec k key) as [->|Hne]; cbn.
  - rewrite decide_True by left. by rewrite app_nil_r.
  - rewrite IH. do 2 f_equal. apply decide_ext. rewrite elem_of_cons. split; [by right|]. by intros [->|?].
Qed.

(** The new conversations of an owner task. *)
Definition owner_task (c : ConversationRecord) : option N := ol_taskId <$> c_owner c.
Definition created_for (cs : list ConversationRecord) (key : N) : list N :=
  c_id <$> filter (fun c => owner_task c = Some key) cs.

Lemma created_spec tasks changed cs :
  let created := foldl (created_step tasks changed) [] cs in
  NoDup (created.*1) /\
  forall key, created_get key created
    = if is_some (node_at tasks changed key) && negb (bool_decide (created_for cs key = []))
      then Some (created_for cs key) else None.
Proof.
  induction cs as [|c cs [Hnd IH]] using rev_ind; cbn zeta in *.
  { split; [constructor|]. intros key. cbn. by rewrite andb_false_r. }
  rewrite foldl_snoc. set (created := foldl (created_step tasks changed) [] cs) in *.
  assert (Hfor : forall key, created_for (cs ++ [c]) key
    = created_for cs key ++ (if decide (owner_task c = Some key) then [c_id c] else [])).
  { intros key. unfold created_for. rewrite filter_app, fmap_app, filter_cons. by case_decide. }
  unfold created_step. destruct (c_owner c) as [o|] eqn:Ho.
  2: { split; [done|]. intros key. rewrite Hfor. unfold owner_task. rewrite Ho. cbn. by rewrite app_nil_r. }
  assert (Hown : owner_task c = Some (ol_taskId o)) by (unfold owner_task; by rewrite Ho).
  destruct (is_some (node_at tasks changed (ol_taskId o))) eqn:Hn.
  - split.
    { rewrite created_add_keys. case_decide; [by rewrite app_nil_r|]. apply NoDup_app. split; [done|].
      split; [|apply NoDup_singleton]. by intros x Hx ->%list_elem_of_singleton. }
    intros key. rewrite created_get_add, IH, Hfor, Hown. case_decide as Hk.
    + subst key. rewrite Hn, decide_True by done. cbn [andb].
      rewrite (bool_decide_eq_false_2 (created_for cs (ol_taskId o) ++ [c_id c] = [])) by (by destruct (created_for cs _)).
      case_bool_decide as He; cbn; [by rewrite He|done].
    + rewrite (decide_False (P := Some (ol_taskId o) = Some key)) by congruence. by rewrite app_nil_r.
  - split; [done|]. intros key. rewrite IH, Hfor, Hown. case_decide as Hk; [|by rewrite app_nil_r].
    injection Hk as <-. by rewrite Hn.
Qed.

(** The operations for the new conversations. *)
Lemma conversations_ops_apply tasks changed created base :
  NoDup (created.*1) -> (forall id, base !! id = node_at tasks changed id) ->
  forall id, foldl apply_graph_op base (conversations_op tasks changed <$> created) !! id
    = match created_get id created with
      | Some ids => (fun n => with_conversations n (sort_ids (g_conversations n ++ ids))) <$> node_at tasks changed id
      | None => node_at tasks changed id
      end.
Proof.
  revert base. induction created as [|[k ids] l IH] using rev_ind; intros base Hnd Hb id; [by cbn|].
  rewrite fmap_app in Hnd. apply NoDup_app in Hnd as (Hnd & Hdis & _).
  rewrite fmap_app, foldl_app. cbn [fmap list_fmap foldl apply_graph_op conversations_op fst snd].
  assert (Hget : forall key, created_get key (l ++ [(k, ids)])
    = match created_get key l with Some x => Some x | None => if (k =? key)%N then Some ids else None end).
  { intros key. clear. induction l as [|[k' x] l IH]; cbn; [done|]. by destruct (k' =? key)%N. }
  rewrite Hget.
  destruct (decide (k = id)) as [->|Hne].
  - rewrite N.eqb_refl, lookup_alter_eq, IH by done.
    assert (Hno : created_get id l = None).
    { destruct (created_get id l) as [x|] eqn:E; [|done]. exfalso. apply (Hdis id); [|by left].
      clear -E. induction l as [|[k' y] l IHl]; [done|]. cbn in E. destruct (N.eqb_spec k' id) as [->|]; [left|].
      right. by apply IHl. }
    rewrite Hno. by destruct (node_at tasks changed id).
  - rewrite lookup_alter_ne, IH by done. destruct (N.eqb_spec k id); [done|]. by destruct (created_get id l).
Qed.

(** The mount after a publication. *)
Lemma advance_tasks_after m changes id :
  NoDup (t_id <$> omap pick_task changes) ->
  text_node <$> m_tasks (advance blocked m changes).1 !! id
  = (fun n => text_node (match created_for (omap pick_conversation changes) id with
                         | [] => n
                         | ids => with_conversations n (sort_ids (g_conversations n ++ ids))
                         end)) <$> node_next (m_tasks m) (omap pick_task changes) id /\
  m_records (advance blocked m changes).1 !! id = record_next (m_records m) (omap pick_task changes) id.
Proof.
  intros Hnd. pose proof (advance_tasks_inv m _ Hnd) as [H1 H2 H3]. unfold advance, publish. cbn [fst m_tasks m_records].
  set (a := foldl (advance_task blocked (m_tasks m)) _ (omap pick_task changes)) in *. split; [|apply H2].
  destruct (created_spec (m_tasks m) (ad_changed a) (omap pick_conversation changes)) as [Hck Hcg].
  rewrite foldl_app, conversations_ops_apply by done. rewrite Hcg.
  specialize (H1 id). set (ids := created_for (omap pick_conversation changes) id) in *.
  destruct (node_at (m_tasks m) (ad_changed a) id) as [n|], (node_next (m_tasks m) (omap pick_task changes) id) as [n'|];
    try done; cbn [is_some andb fmap option_fmap option_map] in *.
  destruct ids as [|i ids]; cbn [bool_decide negb]; [done|].
  injection H1 as E1 E2 E3 E4 E5 E6 E7 E8 E9. cbn. unfold text_node, with_conversations. cbn. by rewrite E1, E2, E3, E4, E5, E6, E7, E8, E9.
Qed.

(** *** What a commit does to the owners *)

Lemma sort_ids_spec ids : sort_ids ids ≡ₚ ids /\ (NoDup ids -> StronglySorted N.lt (sort_ids ids)).
Proof.
  assert (Hp : sort_ids ids ≡ₚ ids) by apply merge_sort_Permutation. split; [done|]. intros Hnd.
  assert (Hs : StronglySorted N.le (sort_ids ids)).
  { apply StronglySorted_merge_sort; [intros x y z; apply N.le_trans|intros x y; lia]. }
  rewrite <- Hp in Hnd. revert Hs Hnd. generalize (sort_ids ids). clear Hp.
  induction 1 as [|x l Hl IH Hx]; [constructor|]. intros [Hni Hnd]%NoDup_cons. constructor; [by apply IH|].
  rewrite Forall_forall in *. intros y Hy. specialize (Hx y Hy). assert (x <> y) by (by intros ->). lia.
Qed.

(** A batch creates each of its conversations once. *)
Lemma checked_conversations types ws : forall claimed,
  checkGlobalIds types claimed ws = Ok tt ->
  NoDup (c_id <$> omap pick_conversation ws) /\
  forall c, c ∈ omap pick_conversation ws -> types !! c_id c = None /\ claimed !! c_id c = None.
Proof.
  induction ws as [|w ws IH]; intros claimed Hc; [split; [constructor|by intros c ?%elem_of_nil]|].
  destruct (checkGlobalIds_cons _ _ _ _ Hc) as (claimed' & Hc' & Hclaimed & Hown).
  destruct (IH claimed' Hc') as [Hnd Hfresh].
  assert (Hrest : forall c, c ∈ omap pick_conversation ws -> types !! c_id c = None /\ claimed !! c_id c = None).
  { intros c Hin. destruct (Hfresh c Hin) as [H1 H2]. split; [done|].
    destruct (claimed !! c_id c) as [t|] eqn:E; [|done]. rewrite (proj2 (Hclaimed (c_id c) t)) in H2; [done|by right]. }
  cbn. destruct w as [v|v|v|v|record version base|record source|i content|i]; cbn; try done.
  specialize (Hown (c_id v) TConversation eq_refl). cbn in Hown. split.
  - apply NoDup_cons. split; [|done]. intros (c & Hid & Hin)%list_elem_of_fmap. destruct (Hfresh c Hin) as [_ H2].
    rewrite <- Hid, (proj2 (Hclaimed (c_id v) TConversation)) in H2; [done|by left].
  - intros c [->|Hin]%elem_of_cons; [done|by apply Hrest].
Qed.

Section Commit.
Context (m m' : MemoryStorage) (p : PreparedMemoryCommit).
Context (Hinv : storage_inv m) (Hinv' : storage_inv m') (Hc : committed m p m').

Let cs := omap pick_conversation (p_writes p).
Let rs := omap pick_task (p_writes p).

Lemma new_conversations :
  NoDup (c_id <$> cs) /\ forall c, c ∈ cs -> conversations_of (state m) !! c_id c = None.
Proof.
  destruct (checked_conversations _ _ _ (co_checked _ _ _ Hc)) as [Hnd Hf]. split; [done|]. intros c Hin.
  destruct (conversations_of (state m) !! c_id c) as [x|] eqn:E; [|done]. exfalso.
  apply (not_in_table _ _ _ _ (c_id c) TConversation Hinv (proj1 (Hf c Hin))). by exists x.
Qed.

Lemma owned_by_after k i :
  owned_by (conversation_tables (state m')) ol_taskId k i <->
  owned_by (conversation_tables (state m)) ol_taskId k i \/ i ∈ created_for cs k.
Proof.
  destruct new_conversations as [Hnd Hfresh].
  destruct (committed_records m p m' i Hc) as (Hcv & _). unfold conversations_of, written in Hcv.
  fold cs in Hcv. fold (record_of c_id i cs) in Hcv.
  assert (Hin : i ∈ created_for cs k <-> exists c o, record_of c_id i cs = Some c /\ c_owner c = Some o /\ ol_taskId o = k).
  { unfold created_for. rewrite list_elem_of_fmap. setoid_rewrite list_elem_of_filter.
    setoid_rewrite record_of_Some; [|done]. unfold owner_task. split.
    - intros (c & -> & Ho & Hcin). destruct (c_owner c) as [o|] eqn:E; [|done]. injection Ho as Ho. by exists c, o.
    - intros (c & o & [Hcin <-] & Ho & Hk). exists c. rewrite Ho. cbn. by rewrite Hk. }
  rewrite Hin. unfold owned_by. rewrite Hcv. destruct (record_of c_id i cs) as [c|] eqn:Hr; cbn.
  - apply record_of_Some in Hr as [Hcin <-]; [|done].
    assert (Hnone : conversations (conversation_tables (state m)) !! c_id c = None) by by apply Hfresh.
    rewrite Hnone. naive_solver.
  - naive_solver.
Qed.

Lemma owned_after k :
  owned (state m') k = match created_for cs k with [] => owned (state m) k | ids => sort_ids (owned (state m) k ++ ids) end.
Proof.
  destruct new_conversations as [Hnd Hfresh].
  pose proof (cv_task _ (si_conversations _ _ _ _ Hinv) k) as [Hs Hi].
  pose proof (cv_task _ (si_conversations _ _ _ _ Hinv') k) as Hi'.
  eapply indexes_unique; [exact Hi'|]. fold (owned (state m) k) in Hs, Hi.
  pose proof (owned_by_after k) as Hafter.
  assert (Hnd' : NoDup (owned (state m) k ++ created_for cs k)).
  { apply NoDup_app. split; [by apply StronglySorted_NoDup|]. split.
    - intros i (c & o & Hci & _)%Hi (c' & -> & [_ Hin]%list_elem_of_filter)%list_elem_of_fmap.
      specialize (Hfresh c' Hin). unfold conversations_of in Hfresh. congruence.
    - unfold created_for. eapply sublist_NoDup; [exact Hnd|]. apply fmap_sublist, sublist_filter. }
  destruct (created_for cs k) as [|i0 ids] eqn:Hf.
  - split; [done|]. intros i. rewrite Hafter, Hi. rewrite elem_of_nil. tauto.
  - destruct (sort_ids_spec (owned (state m) k ++ i0 :: ids)) as [Hperm Hsorted]. split; [by apply Hsorted|].
    intros i. rewrite Hperm, Hafter, <- Hi, elem_of_app. tauto.
Qed.

Lemma live_record_after id : live_record (state m') id
  = match record_of t_id id rs with Some r => if live_task r then Some r else None | None => live_record (state m) id end.
Proof.
  destruct (committed_records m p m' id Hc) as (_ & _ & Ht & _). unfold live_record, tasks_of in *. rewrite Ht.
  unfold written. fold rs. fold (record_of t_id id rs). by destruct (record_of t_id id rs).
Qed.

(** Advancing the mount from a commit's changes gives what building it again would. *)
Lemma advance_commit mount :
  mount_ok (state m) mount -> NoDup (t_id <$> rs) ->
  (forall id, live_record (state m) id = None -> is_Some (live_record (state m') id) -> owned (state m) id = []) ->
  mount_ok (state m') (advance blocked mount (p_writes p)).1.
Proof.
  intros [Hn Hr] Hnd Hfirst. split; intros id; destruct (advance_tasks_after mount (p_writes p) id Hnd) as [H1 H2].
  - rewrite H1. fold rs cs. unfold expected, node_next. rewrite owned_after, live_record_after.
    specialize (Hfirst id). rewrite live_record_after in Hfirst. specialize (Hn id). unfold expected in Hn.
    pose proof (text_node_conversations _ _ Hn) as Hcon.
    destruct (record_of t_id id rs) as [r|].
    + destruct (live_task r); [|done]. cbn.
      assert (Hprev : default [] (g_conversations <$> m_tasks mount !! id) = owned (state m) id).
      { rewrite Hcon. destruct (live_record (state m) id) as [x|]; cbn; [done|]. symmetry. apply Hfirst; [done|by eexists]. }
      rewrite Hprev. by destruct (created_for cs id).
    + destruct (m_tasks mount !! id) as [n|], (live_record (state m) id) as [x|]; try done. cbn in *.
      injection Hn as E1 E2 E3 E4 E5 E6 E7 E8 E9.
      destruct (created_for cs id) as [|i ids]; unfold text_node, with_conversations; cbn;
        by rewrite E1, E2, E3, E4, E5, E6, E7, E8, E9.
  - rewrite H2. unfold record_next. fold rs. rewrite live_record_after.
    destruct (record_of t_id id rs) as [r|]; [by destruct (live_task r)|apply Hr].
Qed.
End Commit.
End View.

(** ** [#refreshBlocked] *)

Section Refresh.
Context (blocked : BlockedSubject -> option string).

Fixpoint assoc_get {V} (key : N) (l : list (N * V)) : option V :=
  match l with
  | [] => None
  | (k, v) :: l' => if (k =? key)%N then Some v else assoc_get key l'
  end.

Lemma assoc_get_map {V} (mp : gmap N V) key : assoc_get key (map_to_list mp) = mp !! key.
Proof.
  assert (H : forall l : list (N * V), NoDup (l.*1) -> forall v, assoc_get key l = Some v <-> (key, v) ∈ l).
  { induction l as [|[k v] l IH]; cbn; intros Hnd w; [split; [done|by intros ?%elem_of_nil]|].
    apply NoDup_cons in Hnd as [Hni Hnd]. destruct (N.eqb_spec k key) as [->|Hne].
    - split; [intros [= ->]; left|]. intros [[= ->]|Hin]%elem_of_cons; [done|]. destruct Hni.
      apply list_elem_of_fmap. by exists (key, w).
    - rewrite IH by done. split; [by right|]. intros [[= ? ?]|Hin]%elem_of_cons; [by subst|done]. }
  destruct (mp !! key) as [v|] eqn:E.
  - apply H; [apply NoDup_fst_map_to_list|]. by apply elem_of_map_to_list.
  - destruct (assoc_get key (map_to_list mp)) as [v|] eqn:E'; [|done].
    apply H in E'; [|apply NoDup_fst_map_to_list]. apply elem_of_map_to_list in E'. congruence.
Qed.

Lemma with_blocked_same n : with_blocked n (g_blocked n) = n.
Proof. by destruct n. Qed.

Lemma blocked_ops_apply tasks l : forall base,
  NoDup (l.*1) -> (forall id, id ∈ l.*1 -> base !! id = tasks !! id) ->
  forall id, foldl apply_graph_op base (omap (blocked_op blocked tasks) l) !! id
    = match assoc_get id l with
      | Some s => (fun n => with_blocked n (blocked s)) <$> base !! id
      | None => base !! id
      end.
Proof.
  induction l as [|[k s] l IH]; intros base Hnd Hb id; [done|]. cbn in Hnd. apply NoDup_cons in Hnd as [Hni Hnd].
  assert (Hk : base !! k = tasks !! k) by (apply Hb; by left). cbn [omap list_omap assoc_get].
  unfold blocked_op at 1. cbn [fst snd]. case_bool_decide as He; cbn [foldl].
  - rewrite IH; [|done|intros i Hi; apply Hb; by right]. destruct (N.eqb_spec k id) as [<-|]; [|done].
    assert (Hnone : assoc_get k l = None).
    { destruct (assoc_get k l) as [x|] eqn:E; [|done]. destruct Hni. clear -E.
      induction l as [|[k' y] l IHl]; [done|]. cbn in E. destruct (N.eqb_spec k' k) as [->|]; [left|].
      right. by apply IHl. }
    rewrite Hnone, Hk, He. destruct (tasks !! k) as [n|]; [|done]. cbn. by rewrite with_blocked_same.
  - set (op := match blocked s with Some r => GSetBlocked k r | None => GDeleteBlocked k end).
    assert (Hop : forall i, apply_graph_op base op !! i
      = if decide (k = i) then (fun n => with_blocked n (blocked s)) <$> base !! i else base !! i).
    { intros i. unfold op. destruct (blocked s); cbn [apply_graph_op]; case_decide; subst;
        by rewrite ?lookup_alter_eq, ?lookup_alter_ne by done. }
    rewrite IH; [|done|].
    2: { intros i Hi. rewrite Hop, decide_False by (by intros ->). apply Hb. by right. }
    rewrite Hop. destruct (N.eqb_spec k id) as [<-|Hne]; [|by rewrite decide_False].
    rewrite decide_True by done.
    assert (Hnone : assoc_get k l = None).
    { destruct (assoc_get k l) as [x|] eqn:E; [|done]. destruct Hni. clear -E.
      induction l as [|[k' y] l IHl]; [done|]. cbn in E. destruct (N.eqb_spec k' k) as [->|]; [left|].
      right. by apply IHl. }
    by rewrite Hnone.
Qed.

(** After a change of the registry the mount shows the new reasons. *)
Lemma refreshBlocked_ok before st m :
  mount_ok before st m -> mount_ok blocked st (refreshBlocked blocked m).1.
Proof.
  intros [Hn Hr]. split; [|done]. intros id. cbn [fst refreshBlocked publish m_tasks].
  rewrite (blocked_ops_apply (m_tasks m)); [|apply NoDup_fst_map_to_list|done].
  rewrite assoc_get_map, Hr. specialize (Hn id). unfold expected in *.
  destruct (live_record st id) as [r|]; cbn in *; [|by destruct (m_tasks m !! id)].
  destruct (m_tasks m !! id) as [n|]; [|done]. cbn in *. injection Hn as E1 E2 E3 E4 E5 E6 E7 E8 E9.
  unfold text_node, with_blocked. cbn. by rewrite E1, E2, E3, E4, E5, E6, E7, E8.
Qed.
End Refresh.

(** ** [#build] *)

Section Build.
Context (blocked : BlockedSubject -> option string) (m : MemoryStorage) (Hu : usable m).

(** A scan that ends with [L] when its fuel is enough. *)
Definition ends {R} (scan_of : nat -> option (sres R)) (L : R) : Prop :=
  exists n, forall fuel, n <= fuel -> scan_of fuel = Some (Ok L).

Lemma ends_after {R} (scan_of : nat -> option (sres R)) n L :
  (forall fuel, n < fuel -> scan_of fuel = Some (Ok L)) -> ends scan_of L.
Proof. intros H. exists (S n). intros fuel Hf. apply H. lia. Qed.

Lemma collect_all {A R} (scan_of : nat -> A -> option (sres (list R))) (P : A -> R -> Prop) l :
  (forall a, a ∈ l -> exists L, ends (fun fuel => scan_of fuel a) L /\ forall r, r ∈ L <-> P a r) ->
  exists L, ends (fun fuel => collect (scan_of fuel) l) L /\ forall r, r ∈ L <-> exists a, a ∈ l /\ P a r.
Proof.
  induction l as [|a l IH]; intros H.
  - exists []. split; [by exists 0|]. intros r. split; [by intros ?%elem_of_nil|by intros (a & ?%elem_of_nil & _)].
  - destruct (H a ltac:(left)) as (La & [na Ha] & HPa).
    destruct IH as (L & [n Hn] & HP); [intros b Hb; apply H; by right|].
    exists (La ++ L). split.
    + exists (na `max` n). intros fuel Hf. cbn. by rewrite Ha, Hn by lia.
    + intros r. rewrite elem_of_app, HPa, HP. setoid_rewrite elem_of_cons. naive_solver.
Qed.

Lemma status_clone r : t_status (clone r) = t_status r.
Proof. unfold t_status. cbn. by destruct (t_state r). Qed.

Lemma subject_clone r : blockedSubject (clone r) = blockedSubject r.
Proof. unfold blockedSubject. by rewrite status_clone. Qed.

Lemma obj_get_clone (f : json -> json) k fs : obj_get k (map (fun '(k', x) => (k', f x)) fs) = f <$> obj_get k fs.
Proof. induction fs as [|[k' v] fs IH]; [done|]. cbn [map obj_get]. by destruct (String.eqb k k'). Qed.

Lemma phase_clone c : phaseOf (clone c) = phaseOf c.
Proof.
  destruct c as [| | | | |b fs]; try done. unfold phaseOf. change (clone (JObj b fs)) with (jobj (map (fun '(k, x) => (k, clone_json x)) fs)).
  cbv beta iota. rewrite obj_get_clone. by destruct (obj_get "phase" fs) as [[]|].
Qed.

Lemma node_clone r ids reason : nodeOf (clone r) ids reason = nodeOf r ids reason.
Proof.
  unfold nodeOf, stateOf. cbn. f_equal. destruct (t_state r) as [c|c|c on p|c u|o|o]; cbn; try (by rewrite phase_clone);
    by destruct o.
Qed.

(** The records of the live tasks. *)
Lemma collect_tasks :
  exists L, ends (fun fuel => collect (fun s => scanAll fuel (scanTasks m (status_query s) SCAN_PAGE_SIZE) None []) LIVE_STATUSES) L /\
    forall r, r ∈ L <-> exists r', r = clone r' /\ live_record (state m) (t_id r') = Some r'.
Proof.
  destruct (collect_all (fun fuel s => scanAll fuel (scanTasks m (status_query s) SCAN_PAGE_SIZE) None [])
    (fun s r => exists r', r = clone r' /\ tasks_of (state m) !! t_id r' = Some r' /\ t_status r' = s) LIVE_STATUSES)
    as (L & HL & HP).
  - intros s _. destruct (scanTasks_all m (status_query s) SCAN_PAGE_SIZE Hu) as (L & HL & _ & Hin);
      [unfold SCAN_PAGE_SIZE; lia|done|].
    exists (clone L). split; [by eapply ends_after|]. intros r. unfold clone at 1, Clone_list. rewrite list_elem_of_fmap.
    setoid_rewrite Hin. cbn. split; [|intros (r' & -> & H1 & H2); by exists r'].
    intros (r' & -> & H1 & _ & H2). by exists r'.
  - exists L. split; [done|]. intros r. rewrite HP. unfold live_record, live_task. split.
    + intros (s & Hs & r' & -> & Hr & Hst). exists r'. split; [done|]. rewrite Hr. cbn.
      rewrite bool_decide_eq_false_2; [done|]. intros Ht. rewrite <- Hst, Ht in Hs.
      unfold LIVE_STATUSES in Hs. repeat (apply elem_of_cons in Hs as [Hs|Hs]; [done|]). by apply elem_of_nil in Hs.
    + intros (r' & -> & Hr). destruct (tasks_of (state m) !! t_id r') as [x|] eqn:E; [|done]. cbn in Hr.
      destruct (bool_decide_reflect (t_status x = terminal)) as [|Ht]; [done|]. injection Hr as ->.
      exists (t_status r'). split; [|by exists r']. unfold LIVE_STATUSES.
      destruct (t_status r'); by repeat ((by left) || right).
Qed.

(** The conversations of a task. *)
Lemma scan_owned id :
  exists L, ends (fun fuel => scanAll fuel (scanConversations m (owner_query id) SCAN_PAGE_SIZE) None []) L /\
    sort_ids (c_id <$> L) = owned (state m) id.
Proof.
  destruct (scanConversations_all m (owner_query id) SCAN_PAGE_SIZE Hu) as (L & HL & Hord & Hin);
    [unfold SCAN_PAGE_SIZE; lia|done|].
  exists L. split.
  - eapply ends_after. intros fuel Hf. rewrite HL by done. do 2 f_equal. unfold clone, Clone_list.
    rewrite <- (list_fmap_id L) at 2. done.
  - cbn in Hord. eapply indexes_unique; [|apply (cv_task _ (si_conversations _ _ _ _ (us_inv _ Hu)) id)].
    destruct (sort_ids_spec (c_id <$> L)) as [Hp Hs]. split; [by apply Hs, StronglySorted_NoDup|].
    intros i. rewrite Hp, list_elem_of_fmap. setoid_rewrite Hin. unfold conversation_matches, owned_by. cbn. split.
    + intros (c & -> & Hc & _ & Ho). destruct (c_owner c) as [o|] eqn:E; [|done]. injection Ho as <-. by exists c, o.
    + intros (c & o & Hc & Ho & <-). exists c. pose proof (cv_id _ (si_conversations _ _ _ _ (us_inv _ Hu)) _ _ Hc).
      subst i. rewrite Ho. by split_and!.
Qed.

(** What the loop adds for a record. *)
Definition add_node (mt : Mount) (r : TaskRecord) : Mount :=
  {| m_tasks := <[t_id r := nodeOf r (owned (state m) (t_id r)) (blocked (blockedSubject r))]> (m_tasks mt);
     m_records := <[t_id r := blockedSubject r]> (m_records mt) |}.

Lemma build_nodes_all rs mt : ends (fun fuel => build_nodes blocked fuel m rs mt) (foldl add_node mt rs).
Proof.
  revert mt; induction rs as [|r rs IH]; intros mt; [by exists 0|].
  destruct (scan_owned (t_id r)) as (L & [n Hn] & HL). destruct (IH (add_node mt r)) as [n' Hn'].
  exists (n `max` n'). intros fuel Hf. cbn [build_nodes foldl]. rewrite Hn by lia. rewrite HL. apply Hn'. lia.
Qed.

Lemma add_nodes_lookup rs mt id r :
  r ∈ rs -> t_id r = id -> (forall r', r' ∈ rs -> t_id r' = id -> r' = r) ->
  m_tasks (foldl add_node mt rs) !! id = Some (nodeOf r (owned (state m) id) (blocked (blockedSubject r))) /\
  m_records (foldl add_node mt rs) !! id = Some (blockedSubject r).
Proof.
  induction rs as [|x rs IH] using rev_ind; [by intros ?%elem_of_nil|]. intros Hr Hid Huniq. rewrite foldl_snoc. cbn.
  destruct (decide (t_id x = id)) as [Hx|Hx].
  - rewrite Hx, !lookup_insert_eq. rewrite (Huniq x) by (done || (apply elem_of_app; right; by left)). done.
  - rewrite !lookup_insert_ne by done. apply IH; [|done|].
    + apply elem_of_app in Hr as [?|Hr%list_elem_of_singleton]; congruence || done.
    + intros r' Hr'. apply Huniq. apply elem_of_app. by left.
Qed.

Lemma add_nodes_none rs mt id :
  id ∉ t_id <$> rs -> m_tasks (foldl add_node mt rs) !! id = m_tasks mt !! id /\
    m_records (foldl add_node mt rs) !! id = m_records mt !! id.
Proof.
  induction rs as [|x rs IH] using rev_ind; [done|]. rewrite fmap_app, elem_of_app. intros Hn.
  rewrite foldl_snoc. cbn. assert (t_id x <> id) by (intros <-; apply Hn; right; by left).
  rewrite !lookup_insert_ne by done. apply IH. tauto.
Qed.

(** Building ends, and its mount shows the storage. *)
Lemma build_ok : exists mt, ends (fun fuel => build blocked fuel m) mt /\ mount_ok blocked (state m) mt.
Proof.
  destruct collect_tasks as (L & [n Hn] & Hin). set (rs := merge_sort by_id L).
  set (m0 := {| m_tasks := ∅; m_records := ∅ |}). destruct (build_nodes_all rs m0) as [n' Hn'].
  exists (foldl add_node m0 rs). split.
  { exists (n `max` n'). intros fuel Hf. unfold build. rewrite Hn by lia. apply Hn'. lia. }
  assert (Hrs : forall r, r ∈ rs <-> exists r', r = clone r' /\ live_record (state m) (t_id r') = Some r').
  { intros r. unfold rs. rewrite (merge_sort_Permutation by_id L). apply Hin. }
  assert (Hboth : forall id, m_tasks (foldl add_node m0 rs) !! id = expected blocked (state m) id /\
    m_records (foldl add_node m0 rs) !! id = blockedSubject <$> live_record (state m) id).
  { intros id. unfold expected. destruct (live_record (state m) id) as [r|] eqn:E.
    - assert (Hid : t_id r = id).
      { unfold live_record in E. destruct (tasks_of (state m) !! id) as [x|] eqn:Ex; [|done]. cbn in E.
        destruct (live_task x); [|done]. injection E as ->. by eapply (tk_id _ (si_tasks _ _ _ _ (us_inv _ Hu))). }
      destruct (add_nodes_lookup rs m0 id (clone r)) as [H1 H2].
      + apply Hrs. exists r. by rewrite Hid.
      + done.
      + intros x (x' & -> & Hx')%Hrs Hxid. cbn in Hxid. rewrite Hxid, E in Hx'. by injection Hx' as ->.
      + rewrite H1, H2. cbn [fmap option_fmap option_map]. by rewrite node_clone, subject_clone.
    - apply add_nodes_none. intros (r & -> & (r' & -> & Hr')%Hrs)%list_elem_of_fmap. cbn in E. congruence. }
  split; intros id; by rewrite (proj1 (Hboth id)) || rewrite (proj2 (Hboth id)).
Qed.
End Build.
