(* ===== verification/SessionTheorems.v ===== *)
(** What the Session keeps beside the storage shows the storage: the tails of the
    conversations (durable/src/session/conversation-tails.ts) and the graph of the live
    tasks (durable/src/harness/task-graph.ts), along every sequence of commits and reads. *)
From S2P Require Import Prelude JsString Json DeltaOp DeltaApply StorageTypes SortedIds MemoryCommit DocumentFacts.
From S2P Require Import TableFacts MemoryFacts MemoryRead ReadFacts VisibleFacts MemoryHistory StorageTheorems.
From S2P Require Import ConversationTails TaskGraph TaskGraphFacts.
From Stdlib Require Import Sorted.

(** ** Conversation tails *)

(** The tails of a Session: new, at the publication of a batch, and after reads, where a
    read of the storage answers what the storage holds or fails. *)
Inductive tails_run : State -> ConversationTails -> Prop :=
| run_new st : entries_sorted st -> tails_run st tails_new
| run_apply st t seq next writes :
    tails_run st t -> batch_grows seq (st, next) writes ->
    tails_run (foldl (apply_write seq) (st, next) writes).1 (apply_tails t writes)
| run_latest st t c read :
    tails_run st t -> is_Some (conversations (conversation_tables st) !! c) ->
    match read with Ok r => newest st c r | Throw _ => True end -> tails_run st (latest t c read).1
| run_marker st t c cutoff read :
    tails_run st t -> is_Some (conversations (conversation_tables st) !! c) ->
    match read with
    | Ok m => exists r, newest_marker st c (cutoff_bound cutoff) r /\ clone m = clone r
    | Throw _ => True
    end -> tails_run st (marker t c cutoff read).1.

Lemma batch_sorted seq writes : forall st next,
  entries_sorted st -> batch_grows seq (st, next) writes -> entries_sorted (foldl (apply_write seq) (st, next) writes).1.
Proof.
  induction writes as [|w ws IH]; intros st next Hs; [done|]. cbn [batch_grows foldl]. intros [Hg Hgs].
  pose proof (entries_sorted_write seq st next w Hs Hg) as Hs'. destruct (apply_write seq (st, next) w) as [st' next'].
  by apply IH.
Qed.

Lemma tails_run_inv st t : tails_run st t -> entries_sorted st /\ tails_ok st t /\ tails_small t.
Proof.
  induction 1 as [st Hs|st t seq next ws _ (Hs & Ht & Hb) Hg|st t c read _ (Hs & Ht & Hb) Hc Hr|st t c cutoff read _ (Hs & Ht & Hb) Hc Hr].
  - split_and!; [done| |split; cbn; lia]. split; cbn; [constructor|constructor|done|done].
  - split_and!; [by apply batch_sorted|by apply apply_tails_ok|by apply apply_small].
  - split_and!; [done| |by eapply latest_small]. destruct read as [r|e]; [|by apply latest_fail].
    by apply (latest_spec st t c (Ok r) r).
  - split_and!; [done| |by eapply marker_small]. destruct read as [m|e]; [|by apply marker_fail].
    destruct Hr as (r & Hr & Hm). by destruct (marker_spec st t c cutoff m r) as (? & _ & _ & ?).
Qed.

(** C39. After every sequence of batches and reads, [latest] and [marker] answer what the
    storage would, whether they read it or know the answer, and the maps stay within their
    capacities. *)
Theorem tails_answer st t c cutoff r m marker_ :
  tails_run st t -> is_Some (conversations (conversation_tables st) !! c) ->
  newest st c r -> newest_marker st c (cutoff_bound cutoff) marker_ -> clone m = clone marker_ ->
  (latest t c (Ok r)).2 = Ok r /\
  (exists m', (marker t c cutoff (Ok m)).2 = Ok m' /\ clone m' = clone marker_) /\
  length (tl_latest t) <= LATEST_CAPACITY /\ length (tl_markers t) <= MARKER_CAPACITY.
Proof.
  intros (Hs & Ht & Hb)%tails_run_inv Hc Hr Hm Hcl. split; [by apply (latest_spec st t c (Ok r) r)|]. split; [|done].
  destruct (marker_spec st t c cutoff m marker_ Ht Hc Hm Hcl) as (m' & H1 & H2 & _). by exists m'.
Qed.

Lemma below_three id : id ∈ [2; 3]%N -> (id <= 3)%N.
Proof. intros H. apply elem_of_cons in H as [->|H]; [lia|]. apply list_elem_of_singleton in H as ->. lia. Qed.

Lemma sample_newest : newest (state sample) 1 (Some 3%N).
Proof.
  assert (Hown : own_ids (state sample) 1 = [2; 3]%N) by by vm_compute.
  split; [constructor; rewrite Hown; right; by left|]. intros id Hv. inversion Hv as [? ? Hin|? p ? Hp]; subst.
  - rewrite Hown in Hin. by exact (below_three id Hin).
  - exfalso. revert Hp. by vm_compute.
Qed.

Lemma sample_sorted : entries_sorted (state sample).
Proof. apply storage_entries_sorted, sample_inv. Qed.

(** What the tails know after the read of the newest entry, a second read need not know. *)
Definition sample_tails : ConversationTails := (latest tails_new 1 (Ok (Some 3%N))).1.

Lemma sample_tails_run : tails_run (state sample) sample_tails.
Proof.
  apply (run_latest _ _ 1 (Ok (Some 3%N))); [constructor; apply sample_sorted|by eexists; vm_compute|].
  apply sample_newest.
Qed.

Lemma tails_answer_witness :
  exists marker_, newest_marker (state sample) 1 PosInf marker_ /\
    (latest sample_tails 1 (Ok (Some 3%N))).2 = Ok (Some 3%N) /\
    exists m', (marker sample_tails 1 None (Ok marker_)).2 = Ok m' /\ clone m' = clone marker_.
Proof.
  destruct (findLatestHeadMarker_spec sample 5 1 None sample_usable) as (marker_ & _ & Hm);
    [apply sample_forks..|by eexists; vm_compute|lia|].
  destruct (tails_answer (state sample) sample_tails 1 None (Some 3%N) marker_ marker_ sample_tails_run) as (H1 & H2 & _);
    [by eexists; vm_compute|apply sample_newest|done|done|].
  exists marker_. split; [done|]. split; [done|]. apply H2.
Defined.

(** ** The task graph *)

(** Building the graph ends, given enough fuel for the pages of its scans, whatever the
    page size, and gives exactly the live tasks, each with the conversations it owns in ID
    order and its blocked reason. *)
Lemma graph_built blocked m (Hu : usable m) :
  exists mt, (exists n, forall fuel, n <= fuel -> build blocked fuel m = Some (Ok mt)) /\
    mount_ok blocked (state m) mt.
Proof. apply (build_ok blocked m Hu). Qed.

Definition sample_blocked (s : BlockedSubject) : option string :=
  if String.eqb (bs_kind s) "turn" then None else Some "missing_task".

Lemma graph_built_witness :
  exists mt, mount_ok sample_blocked (state sample) mt /\
    exists n, build sample_blocked n sample = Some (Ok mt).
Proof.
  destruct (graph_built sample_blocked sample sample_usable) as (mt & [n Hn] & Hok).
  exists mt. split; [done|]. exists n. by apply Hn.
Defined.

(** The mount of a view: built from a storage, and advanced by commits and by changes of
    what the registry says. A batch has at most one record for a task, and a task that
    becomes live owns no conversation from before. *)
Inductive view : (BlockedSubject -> option string) -> MemoryStorage -> Mount -> Prop :=
| view_build blocked m fuel n mt :
    usable m -> n <= fuel -> (forall fuel', n <= fuel' -> build blocked fuel' m = Some (Ok mt)) -> view blocked m mt
| view_commit blocked m mt writes p m' :
    view blocked m mt -> prepareCommit m writes None = Ok p -> applyPreparedCommit m p = Some m' ->
    NoDup (t_id <$> omap pick_task (p_writes p)) ->
    (forall id, live_record (state m) id = None -> is_Some (live_record (state m') id) -> owned (state m) id = []) ->
    view blocked m' (advance blocked mt (p_writes p)).1
| view_refresh blocked blocked' m mt : view blocked m mt -> view blocked' m (refreshBlocked blocked' mt).1.

Lemma view_inv blocked m mt : view blocked m mt -> storage_inv m /\ mount_ok blocked (state m) mt.
Proof.
  induction 1 as [blocked m fuel n mt Hu Hf Hb|blocked m mt ws p m' _ [Hi Hm] Hp Ha Hnd Hfirst|blocked blocked' m mt _ [Hi Hm]].
  - split; [apply (us_inv _ Hu)|]. destruct (build_ok blocked m Hu) as (mt' & [n' Hn'] & Hok).
    specialize (Hb (n `max` n') ltac:(lia)). rewrite Hn' in Hb by lia. by injection Hb as <-.
  - destruct (prepared_applies _ _ _ _ Hi Hp) as (m1 & Ha' & Hi' & Hc). rewrite Ha in Ha'. injection Ha' as <-.
    split; [done|]. by apply (advance_commit blocked m m' p Hi Hi' Hc).
  - split; [done|]. by eapply refreshBlocked_ok.
Qed.

(** C38. After every sequence of commits and registry changes the graph is what building it
    again from the storage gives: each live task with its state, the conversations it owns
    and its blocked reason, and no other task. *)
Theorem graph_current blocked m mt :
  view blocked m mt ->
  (forall id, text_node <$> m_tasks mt !! id = text_node <$> expected blocked (state m) id) /\
  forall id, m_records mt !! id = blockedSubject <$> live_record (state m) id.
Proof. intros H. apply (view_inv blocked m mt H). Qed.

(** A batch that ends a task and starts another. *)
Definition batch_tasks : list StorageWrite :=
  [WTask (sample_task 9 1 (TTerminal (OCompleted JNull))); WTask (sample_task 10 1 (TPending (jobj [("phase", JStr "start")])))].

Definition prepared_tasks : PreparedMemoryCommit :=
  match prepareCommit sample batch_tasks None with
  | Ok p => p
  | Throw _ => {| p_seq := 0; p_writes := []; p_actions := [] |}
  end.
Definition sample_ended : MemoryStorage := default memory_new (applyPreparedCommit sample prepared_tasks).

Lemma batch_tasks_commits :
  prepareCommit sample batch_tasks None = Ok prepared_tasks /\ applyPreparedCommit sample prepared_tasks = Some sample_ended.
Proof.
  assert (Hp : prepareCommit sample batch_tasks None = Ok prepared_tasks).
  { unfold prepared_tasks. assert (H : match prepareCommit sample batch_tasks None with Ok _ => true | Throw _ => false end = true) by by vm_compute.
    revert H. by destruct (prepareCommit sample batch_tasks None). }
  split; [exact Hp|]. destruct (prepared_applies _ _ _ _ sample_inv Hp) as (m' & Ha & _). unfold sample_ended. by rewrite Ha.
Qed.

Lemma sample_owned id : owned (state sample) id = [].
Proof.
  assert (H : conversationIdsByOwnerTask (conversation_tables (state sample)) = ∅) by by vm_compute.
  unfold owned. rewrite H, lookup_empty. reflexivity.
Qed.

Lemma graph_current_witness :
  exists mt, view sample_blocked sample_ended mt /\ m_records mt !! 9%N = None /\ is_Some (m_records mt !! 10%N).
Proof.
  destruct (build_ok sample_blocked sample sample_usable) as (mt & [n Hn] & _).
  destruct batch_tasks_commits as [Hp Ha].
  assert (Hv : view sample_blocked sample_ended (advance sample_blocked mt (p_writes prepared_tasks)).1).
  { apply (view_commit _ sample _ batch_tasks); [exact (view_build sample_blocked sample n n mt sample_usable (le_n n) Hn)|exact Hp|exact Ha| |].
    - refine (bool_decide_unpack _ _). by vm_compute.
    - intros id _ _. apply sample_owned. }
  exists (advance sample_blocked mt (p_writes prepared_tasks)).1. split; [exact Hv|].
  destruct (graph_current _ _ _ Hv) as [_ H]. rewrite !H. split; [by vm_compute|by eexists; vm_compute].
Defined.
