(* ===== verification/EditText.v ===== *)
(** JavaScript strings as lists of UTF-16 code units, and the operations the edit tool
    performs on them: search, splitting into lines, trimming. *)
From S2P Require Import Prelude.

Abbreviation text := (list N).

Definition LF : N := 10.
Definition CR : N := 13.
Definition TAB : N := 9.
Definition SPACE : N := 32.

(** ** Search *)

Fixpoint starts_with (p t : text) : bool :=
  match p, t with
  | [], _ => true
  | c :: p', d :: t' => (c =? d)%N && starts_with p' t'
  | _, _ => false
  end.

(** [t.indexOf(p)]; [None] is the result -1. *)
Fixpoint text_indexOf (p t : text) : option nat :=
  if starts_with p t then Some 0
  else match t with [] => None | _ :: t' => S <$> text_indexOf p t' end.

(** [t.includes(p)]. *)
Definition text_includes (p t : text) : bool := is_some (text_indexOf p t).

(** The last newline before the position [n]; [t.lastIndexOf("\n", n - 1)]. *)
Fixpoint last_newline (n : nat) (t : text) : option nat :=
  match n with
  | 0 => None
  | S n' => if decide (t !! n' = Some LF) then Some n' else last_newline n' t
  end.

(** ** Lines *)

(** [t.split("\n")] and [ls.join("\n")]. *)
Fixpoint split_lines (t : text) : list text :=
  match t with
  | [] => [[]]
  | c :: t' =>
      if (c =? LF)%N then [] :: split_lines t'
      else match split_lines t' with l :: ls => (c :: l) :: ls | [] => [[c]] end
  end.

Fixpoint join_lines (ls : list text) : text :=
  match ls with
  | [] => []
  | [l] => l
  | l :: ls' => l ++ LF :: join_lines ls'
  end.

(** [t.match(/[^\n]*\n|[^\n]+/g) ?? []]: the lines with their newlines. *)
Fixpoint splitLinesWithEndings (t : text) : list text :=
  match t with
  | [] => []
  | c :: t' =>
      if (c =? LF)%N then [c] :: splitLinesWithEndings t'
      else match splitLinesWithEndings t' with l :: ls => (c :: l) :: ls | [] => [[c]] end
  end.

(** [t.split(sep)] for a separator that is not empty: the fuel is the length of the text,
    as every piece consumes the separator. *)
Fixpoint split_on (fuel : nat) (sep t : text) : list text :=
  match fuel, text_indexOf sep t with
  | S fuel', Some i => take i t :: split_on fuel' sep (drop (i + length sep) t)
  | _, _ => [t]
  end.

(** [t.split(sep)]; the empty separator splits into code units. *)
Definition text_split (sep t : text) : list text :=
  match sep with [] => (fun c => [c]) <$> t | _ => split_on (length t) sep t end.

(** ** White space *)

(** The white space and line terminators that [trim] removes. *)
Definition is_space (c : N) : bool :=
  ((9 <=? c) && (c <=? 13) || (c =? 32) || (c =? 160) || (c =? 5760) || (8192 <=? c) && (c <=? 8202)
   || (c =? 8232) || (c =? 8233) || (c =? 8239) || (c =? 8287) || (c =? 12288) || (c =? 65279))%N.

Fixpoint trimStart (t : text) : text :=
  match t with c :: t' => if is_space c then trimStart t' else t | [] => [] end.

Definition trimEnd (t : text) : text := rev (trimStart (rev t)).
Definition trim (t : text) : text := trimEnd (trimStart t).

(** [/[ \t]/]. *)
Definition is_indent (c : N) : bool := ((c =? SPACE) || (c =? TAB))%N.

(** [/^[ \t]*/.exec(line)[0]], and the rest of the line. *)
Fixpoint leadingWhitespace (line : text) : text :=
  match line with c :: line' => if is_indent c then c :: leadingWhitespace line' else [] | [] => [] end.

Fixpoint strip_indent (line : text) : text :=
  match line with c :: line' => if is_indent c then strip_indent line' else line | [] => [] end.

(** ** Lemmas on search *)

Lemma starts_with_app p t : starts_with p t = true <-> exists r, t = p ++ r.
Proof.
  revert t; induction p as [|c p IH]; intros [|d t]; cbn.
  - split; [by exists []|done].
  - split; [by eexists|done].
  - split; [done|by intros [r [=]]].
  - rewrite andb_true_iff, N.eqb_eq, IH. split.
    + intros [-> [r ->]]. by exists r.
    + intros [r [= -> ->]]. split; [done|by exists r].
Qed.

(** The text [p] stands at position [i] of [t]. *)
Definition occurs_at (p t : text) (i : nat) : Prop := exists a b, t = a ++ p ++ b /\ length a = i.

Lemma occurs_at_0 p t : occurs_at p t 0 <-> starts_with p t = true.
Proof.
  rewrite starts_with_app. split.
  - intros (a & b & -> & Ha). apply nil_length_inv in Ha as ->. by exists b.
  - intros [r ->]. by exists [], r.
Qed.

Lemma occurs_at_S p c t i : occurs_at p (c :: t) (S i) <-> occurs_at p t i.
Proof.
  split.
  - intros ([|d a] & b & H & Hl); [done|]. injection H as -> ->. injection Hl as Hl. by exists a, b.
  - intros (a & b & -> & Hl). exists (c :: a), b. cbn. by rewrite Hl.
Qed.

(** [indexOf] is the first position the text stands at. *)
Lemma text_indexOf_spec p t :
  match text_indexOf p t with
  | Some i => occurs_at p t i /\ forall j, j < i -> ~ occurs_at p t j
  | None => forall j, ~ occurs_at p t j
  end.
Proof.
  induction t as [|c t IH].
  - cbn. destruct (starts_with p []) eqn:E.
    + split; [by apply occurs_at_0|lia].
    + intros [|j] H; [apply occurs_at_0 in H; congruence|].
      destruct H as (a & b & H & Hl). destruct a; done.
  - cbn. destruct (starts_with p (c :: t)) eqn:E.
    + split; [by apply occurs_at_0|lia].
    + destruct (text_indexOf p t) as [i|]; cbn.
      * destruct IH as [Hi Hlt]. split; [by apply occurs_at_S|].
        intros [|j] Hj H; [apply occurs_at_0 in H; congruence|].
        apply occurs_at_S in H. eapply Hlt; [|done]. lia.
      * intros [|j] H; [apply occurs_at_0 in H; congruence|]. apply occurs_at_S in H. by eapply IH.
Qed.

Lemma text_indexOf_cons p c t :
  starts_with p (c :: t) = false -> text_indexOf p (c :: t) = S <$> text_indexOf p t.
Proof. intros H. cbn. by rewrite H. Qed.

Lemma text_indexOf_Some p t i : text_indexOf p t = Some i -> occurs_at p t i.
Proof. intros H. pose proof (text_indexOf_spec p t) as Hs. rewrite H in Hs. apply Hs. Qed.

Lemma occurs_at_take_drop p t i : occurs_at p t i -> take (length p) (drop i t) = p /\ i + length p <= length t.
Proof.
  intros (a & b & -> & <-). rewrite drop_app_length, take_app_length, !length_app. split; [done|lia].
Qed.

(** ** Lemmas on lines *)

Lemma split_lines_nonempty t : split_lines t <> [].
Proof. destruct t as [|c t]; [done|]. cbn. destruct (c =? LF)%N; [done|]. by destruct (split_lines t). Qed.

Lemma join_lines_cons l ls : ls <> [] -> join_lines (l :: ls) = l ++ LF :: join_lines ls.
Proof. by destruct ls. Qed.

Lemma join_split_lines t : join_lines (split_lines t) = t.
Proof.
  induction t as [|c t IH]; [done|]. cbn. destruct (N.eqb_spec c LF) as [->|Hc].
  - rewrite join_lines_cons by apply split_lines_nonempty. by rewrite IH.
  - pose proof (split_lines_nonempty t) as Hn. destruct (split_lines t) as [|l ls]; [done|].
    rewrite <- IH. by destruct ls.
Qed.

Lemma split_lines_no_LF t : Forall (fun l => LF ∉ l) (split_lines t).
Proof.
  induction t as [|c t IH]; cbn.
  - repeat constructor. apply not_elem_of_nil.
  - destruct (N.eqb_spec c LF) as [->|Hc].
    + constructor; [apply not_elem_of_nil|done].
    + pose proof (split_lines_nonempty t) as Hn. destruct (split_lines t) as [|l ls]; [done|].
      apply Forall_cons in IH as [H1 H2]. constructor; [|done]. by apply not_elem_of_cons.
Qed.

Lemma split_lines_app l t : LF ∉ l -> split_lines (l ++ LF :: t) = l :: split_lines t.
Proof.
  induction l as [|c l IH]; [done|]. intros [Hc Hl]%not_elem_of_cons. cbn -[split_lines].
  cbn [split_lines]. destruct (N.eqb_spec c LF); [done|]. by rewrite IH.
Qed.

Lemma split_lines_one l : LF ∉ l -> split_lines l = [l].
Proof.
  induction l as [|c l IH]; [done|]. intros [Hc Hl]%not_elem_of_cons. cbn.
  destruct (N.eqb_spec c LF); [done|]. by rewrite IH.
Qed.

Lemma split_join_lines ls : ls <> [] -> Forall (fun l => LF ∉ l) ls -> split_lines (join_lines ls) = ls.
Proof.
  induction ls as [|l ls IH]; [done|]. intros _ [Hl Hls]%Forall_cons.
  destruct ls as [|l' ls].
  - by apply split_lines_one.
  - rewrite join_lines_cons by done. by rewrite split_lines_app, IH.
Qed.

Lemma splitLinesWithEndings_concat t : concat (splitLinesWithEndings t) = t.
Proof.
  induction t as [|c t IH]; [done|]. cbn. destruct (c =? LF)%N; cbn; [by rewrite IH|].
  destruct (splitLinesWithEndings t) as [|l ls]; cbn in *; by rewrite <- IH.
Qed.

Lemma splitLinesWithEndings_nonempty t : Forall (fun l => l <> []) (splitLinesWithEndings t).
Proof.
  induction t as [|c t IH]; cbn; [done|]. destruct (c =? LF)%N; [by constructor|].
  destruct (splitLinesWithEndings t) as [|l ls]; [by repeat constructor|].
  apply Forall_cons in IH as [_ IH]. by constructor.
Qed.

(** ** Lemmas on indentation *)

Lemma leading_strip line : leadingWhitespace line ++ strip_indent line = line.
Proof. induction line as [|c line IH]; [done|]. cbn. destruct (is_indent c); [|done]. cbn. by rewrite IH. Qed.

Lemma strip_indent_app_indent w line : forallb is_indent w = true -> strip_indent (w ++ line) = strip_indent line.
Proof. induction w as [|c w IH]; [done|]. cbn. intros [-> H]%andb_true_iff. by apply IH. Qed.

Lemma leadingWhitespace_indent line : forallb is_indent (leadingWhitespace line) = true.
Proof. induction line as [|c line IH]; [done|]. cbn. destruct (is_indent c) eqn:E; [|done]. cbn. by rewrite E. Qed.

Lemma leadingWhitespace_app w line :
  forallb is_indent w = true -> leadingWhitespace (w ++ line) = w ++ leadingWhitespace line.
Proof. induction w as [|c w IH]; [done|]. cbn. intros [-> H]%andb_true_iff. by rewrite IH. Qed.

Lemma strip_indent_fixed line : leadingWhitespace (strip_indent line) = [].
Proof. induction line as [|c line IH]; [done|]. cbn. destruct (is_indent c) eqn:E; [done|]. cbn. by rewrite E. Qed.
