(* ===== verification/EditDiff.v ===== *)
(** The edit tool's text replacement (coding-agent/src/core/tools/edit-diff.ts): the search
    for the old texts, exact and fuzzy, the replacement that keeps untouched lines, and the
    diff that is shown. [normalize("NFKC")] of the Unicode tables is the parameter [nfkc],
    the line diff of the package [diff] an argument of [generateDiffString]. *)
From S2P Require Import Prelude JsString EditText.
From Stdlib Require Import Ascii.

(** ** Line endings *)

Definition CRLF : text := [CR; LF].

(** Whether the ending is CRLF. *)
Definition detectLineEnding (content : text) : bool :=
  match text_indexOf CRLF content, text_indexOf [LF] content with
  | Some crlfIdx, Some lfIdx => crlfIdx <? lfIdx
  | _, _ => false
  end.

(** [.replace(/\r\n/g, "\n")] and [.replace(/\r/g, "\n")]. *)
Fixpoint replace_crlf (t : text) : text :=
  match t with
  | c :: (d :: t'') as t' => if (c =? CR)%N && (d =? LF)%N then LF :: replace_crlf t'' else c :: replace_crlf t'
  | _ => t
  end.

Definition replace_cr (t : text) : text := (fun c => if (c =? CR)%N then LF else c) <$> t.

Definition normalizeToLF (t : text) : text := replace_cr (replace_crlf t).

Definition restoreLineEndings (t : text) (crlf : bool) : text :=
  if crlf then concat ((fun c => if (c =? LF)%N then CRLF else [c]) <$> t) else t.

(** [splitBom] (coding-agent/src/utils/text.ts). *)
Definition BOM : N := 65279.
Definition splitBom (content : text) : text * text :=
  match content with c :: rest => if (c =? BOM)%N then ([BOM], rest) else ([], content) | [] => ([], []) end.

(** ** Fuzzy normalization *)

Definition in_range_N (a b c : N) : bool := ((a <=? c) && (c <=? b))%N.

Definition fold_single_quote (c : N) : N := if in_range_N 8216 8219 c then 39 else c.
Definition fold_double_quote (c : N) : N := if in_range_N 8220 8223 c then 34 else c.
Definition fold_dash (c : N) : N := if in_range_N 8208 8213 c || (c =? 8722)%N then 45 else c.
Definition fold_space (c : N) : N :=
  if (c =? 160)%N || in_range_N 8194 8202 c || (c =? 8239)%N || (c =? 8287)%N || (c =? 12288)%N then 32 else c.

Definition fold_char (c : N) : N := fold_space (fold_dash (fold_double_quote (fold_single_quote c))).

(** ** Search space *)

Definition normalizeForFuzzyMatchSearch (t : text) : text :=
  join_lines (strip_indent <$> split_lines t).

Record SearchSpaceLine : Type := {
  searchStart : nat;
  replacementStart : nat;
  leading : nat;
  searchLength : nat;
}.

(** The loop of [buildSearchSpaceLines]. *)
Fixpoint build_lines (search_at replacement_at : nat) (lines : list text) : list SearchSpaceLine :=
  match lines with
  | [] => []
  | line :: lines' =>
      let leading_ := length (leadingWhitespace line) in
      {| searchStart := search_at; replacementStart := replacement_at; leading := leading_;
         searchLength := length line - leading_ |}
      :: build_lines (search_at + (length line - leading_) + 1) (replacement_at + length line + 1) lines'
  end.

Definition buildSearchSpaceLines (replacementContent : text) : list SearchSpaceLine :=
  build_lines 0 0 (split_lines replacementContent).

(** The start of the range on the line that holds it. *)
Definition map_start (line : SearchSpaceLine) (searchIndex searchEnd : nat) : nat :=
  if S searchIndex =? searchStart line then replacementStart line - 1
  else if (searchIndex =? searchStart line) && (searchStart line + searchLength line <=? searchEnd)
  then replacementStart line
  else replacementStart line + (leading line + (searchIndex - searchStart line)).

(** The loop of [mapSearchRangeToReplacementSpace]: the start and the end of the range. *)
Fixpoint map_range (lines : list SearchSpaceLine) (searchIndex searchEnd : nat) (index : option nat)
  : option (nat * nat) :=
  match lines with
  | [] => None
  | line :: lines' =>
      let searchLineEnd := searchStart line + searchLength line in
      let index' := match index with
                    | Some i => Some i
                    | None => if searchIndex <? searchLineEnd then Some (map_start line searchIndex searchEnd) else None
                    end in
      match index' with
      | Some i =>
          if searchEnd <=? searchLineEnd
          then Some (i, replacementStart line + leading line + searchEnd - searchStart line)
          else map_range lines' searchIndex searchEnd index'
      | None => map_range lines' searchIndex searchEnd index'
      end
  end.

(** The index and the length of the range. *)
Definition mapSearchRangeToReplacementSpace (lines : list SearchSpaceLine) (searchIndex length_ : nat) : nat * nat :=
  match map_range lines searchIndex (searchIndex + length_) None with
  | Some (index, endIndex) => (index, endIndex - index)
  | None => (searchIndex, length_)
  end.

(** ** Indentation of a fuzzy replacement *)

(** What happens to one line after the anchor: [remove] of its indentation goes, or [add] is
    put before it. Blank lines stay. *)
Definition reindent (add : text) (remove : nat) (line : text) : text :=
  let lead := leadingWhitespace line in
  if length lead =? length line then line
  else if 0 <? remove then drop (Nat.min remove (length lead)) lead ++ drop (length lead) line
  else add ++ line.

(** The first line of the file that the match covers, and the line of the old text aligned
    with it; [None] for a match within a line. *)
Definition anchor (baseContent : text) (matchIndex : nat) (oldLines : list text) : option (nat * nat) :=
  if decide (baseContent !! matchIndex = Some LF) then
    match oldLines with
    | [] :: _ :: _ => Some (S matchIndex, 1)
    | _ => None
    end
  else
    let lineStart := match last_newline matchIndex baseContent with Some i => S i | None => 0 end in
    if lineStart =? matchIndex then Some (lineStart, 0) else None.

Definition file_line (baseContent : text) (lineStart : nat) : text :=
  let rest := drop lineStart baseContent in
  match text_indexOf [LF] rest with Some n => take n rest | None => rest end.

Definition adjustReplacementIndentation (baseContent : text) (matchIndex : nat) (oldText newText : text) : text :=
  let oldLines := split_lines oldText in
  let newLines := split_lines newText in
  match anchor baseContent matchIndex oldLines with
  | None => newText
  | Some (lineStart, aligned) =>
      match oldLines !! aligned, newLines !! aligned with
      | Some oldLine, Some newLine =>
          let oldBaseline := leadingWhitespace oldLine in
          let newBaseline := leadingWhitespace newLine in
          let fileBaseline := leadingWhitespace (file_line baseContent lineStart) in
          if negb (bool_decide (newBaseline = oldBaseline)) then newText
          else if bool_decide (newBaseline = fileBaseline) then newText
          else
            let shift add remove :=
              join_lines (take aligned newLines ++ (reindent add remove <$> drop aligned newLines)) in
            if starts_with newBaseline fileBaseline then shift (drop (length newBaseline) fileBaseline) 0
            else if starts_with fileBaseline newBaseline then shift [] (length newBaseline - length fileBaseline)
            else newText
      | _, _ => newText
      end
  end.

(** ** Replacements *)

(** The text of an ASCII literal. *)
Definition codes (s : string) : text := N_of_ascii <$> String.list_ascii_of_string s.

Record LineSpan : Type := { ls_start : nat; ls_end : nat }.

Record MatchedEdit : Type := {
  editIndex : nat;
  matchIndex : nat;
  matchLength : nat;
  newText : text;
}.

Fixpoint line_spans (offset : nat) (lines : list text) : list LineSpan :=
  match lines with
  | [] => []
  | line :: lines' =>
      {| ls_start := offset; ls_end := offset + length line |} :: line_spans (offset + length line) lines'
  end.

Definition getLineSpans (content : text) : list LineSpan := line_spans 0 (splitLinesWithEndings content).

Inductive edit_error : Type :=
| EmptyOldText (i total : nat)
| NotFound (i total : nat) (context : option text)
| Duplicate (i total : nat) (occurrences : Z) (context : option text)
| Overlapping (previous current : nat)
| NoChange (total : nat)
| DifferentLineCount
| OutsideBase.

Abbreviation eres := (res edit_error).

Definition with_context (base : text) (intro : string) (context : option text) : text :=
  match context with Some c => base ++ codes intro ++ [LF; LF] ++ c | None => base end.

Definition number_text (n : N) : text := codes (int_to_string n).
Definition edits_text (i : nat) : text := codes "edits[" ++ number_text (N.of_nat i) ++ codes "]".

(** The message of the error. *)
Definition edit_error_message (path : text) (e : edit_error) : text :=
  match e with
  | EmptyOldText i total =>
      if total =? 1 then codes "oldText must not be empty in " ++ path ++ codes "."
      else edits_text i ++ codes ".oldText must not be empty in " ++ path ++ codes "."
  | NotFound i total context =>
      with_context
        (if total =? 1
         then codes "Could not find the exact text in " ++ path
              ++ codes ". The old text must match exactly including all whitespace and newlines."
         else codes "Could not find " ++ edits_text i ++ codes " in " ++ path
              ++ codes ". The oldText must match exactly including all whitespace and newlines.")
        " Closest match in the file:" context
  | Duplicate i total occurrences context =>
      let n := number_text (Z.to_N occurrences) in
      with_context
        (if total =? 1
         then codes "Found " ++ n ++ codes " occurrences of the text in " ++ path
              ++ codes ". The text must be unique. Please provide more context to make it unique."
         else codes "Found " ++ n ++ codes " occurrences of " ++ edits_text i ++ codes " in " ++ path
              ++ codes ". Each oldText must be unique. Please provide more context to make it unique.")
        " First occurrence:" context
  | Overlapping previous current =>
      edits_text previous ++ codes " and " ++ edits_text current ++ codes " overlap in " ++ path
      ++ codes ". Merge them into one edit or target disjoint regions."
  | NoChange total =>
      if total =? 1
      then codes "No changes made to " ++ path ++ codes ". The replacement produced identical content. This might indicate an issue with special characters or the text not existing as expected."
      else codes "No changes made to " ++ path ++ codes ". The replacements produced identical content."
  | DifferentLineCount => codes "Cannot preserve unchanged lines because the base content has a different line count."
  | OutsideBase => codes "Replacement range is outside the base content."
  end.

(** The first line the start of a replacement is on. *)
Fixpoint start_line (lines : list LineSpan) (start : nat) (i : nat) : option nat :=
  match lines with
  | [] => None
  | line :: lines' =>
      if (ls_start line <=? start) && (start <? ls_end line) then Some i else start_line lines' start (S i)
  end.

(** The [while] loop: the first line from [i] on that ends at or after the replacement. *)
Fixpoint end_line (lines : list LineSpan) (end_ : nat) (i : nat) : option nat :=
  match lines with
  | [] => None
  | line :: lines' => if ls_end line <? end_ then end_line lines' end_ (S i) else Some i
  end.

Definition getReplacementLineRange (lines : list LineSpan) (r : MatchedEdit) : eres (nat * nat) :=
  startLine ← res_of OutsideBase (start_line lines (matchIndex r) 0);
  endLine ← res_of OutsideBase (end_line (drop startLine lines) (matchIndex r + matchLength r) startLine);
  Ok (startLine, S endLine).

(** One replacement; [substring] clamps to the text. *)
Definition replace_one (offset : nat) (result : text) (r : MatchedEdit) : text :=
  take (matchIndex r - offset) result ++ newText r ++ drop (matchIndex r + matchLength r - offset) result.

(** From the last replacement to the first, so that the positions stay valid. *)
Definition applyReplacements (content : text) (replacements : list MatchedEdit) (offset : nat) : text :=
  foldl (replace_one offset) content (rev replacements).

(** A stable sort by position. *)
Fixpoint insert_by_index (r : MatchedEdit) (rs : list MatchedEdit) : list MatchedEdit :=
  match rs with
  | [] => [r]
  | r' :: rs' => if matchIndex r <=? matchIndex r' then r :: rs else r' :: insert_by_index r rs'
  end.

Definition sort_by_index (rs : list MatchedEdit) : list MatchedEdit := foldr insert_by_index [] rs.

Record Group : Type := { g_start : nat; g_end : nat; g_replacements : list MatchedEdit }.

(** The body of the loop that groups replacements sharing a line; the groups are in reverse. *)
Definition group_step (baseLines : list LineSpan) (groups : list Group) (r : MatchedEdit) : eres (list Group) :=
  '(startLine, endLine) ← getReplacementLineRange baseLines r;
  let fresh := {| g_start := startLine; g_end := endLine; g_replacements := [r] |} in
  match groups with
  | current :: groups' =>
      if startLine <? g_end current
      then Ok ({| g_start := g_start current; g_end := Nat.max (g_end current) endLine;
                  g_replacements := g_replacements current ++ [r] |} :: groups')
      else Ok (fresh :: groups)
  | [] => Ok [fresh]
  end.

(** The loop over the groups: the lines between them from the original, theirs from the base. *)
Fixpoint rewrite_groups (originalLines : list text) (baseLines : list LineSpan) (baseContent : text)
    (originalLineIndex : nat) (groups : list Group) : text :=
  match groups with
  | [] => concat (drop originalLineIndex originalLines)
  | g :: groups' =>
      let from := default 0 (ls_start <$> baseLines !! g_start g) in
      let to := default 0 (ls_end <$> baseLines !! (g_end g - 1)) in
      concat (slice originalLineIndex (g_start g) originalLines)
      ++ applyReplacements (slice from to baseContent) (g_replacements g) from
      ++ rewrite_groups originalLines baseLines baseContent (g_end g) groups'
  end.

Definition applyReplacementsPreservingUnchangedLines (originalContent baseContent : text)
    (replacements : list MatchedEdit) : eres text :=
  let originalLines := splitLinesWithEndings originalContent in
  let baseLines := getLineSpans baseContent in
  _ ← check (length originalLines =? length baseLines) DifferentLineCount;
  groups ← res_foldl (group_step baseLines) [] (sort_by_index replacements);
  Ok (rewrite_groups originalLines baseLines baseContent 0 (rev groups)).

(** ** Near misses *)

Definition NEAR_MISS_CONTEXT_LINES : nat := 3.
Definition NEAR_MISS_MAX_LINE_CHARS : nat := 200.

Fixpoint bigrams (t : text) : list (N * N) :=
  match t with c :: (d :: _) as t' => (c, d) :: bigrams t' | _ => [] end.

(** The quotient of two integers as a pair: both are below 2^53 and the code only compares
    quotients. *)
Definition bigramSimilarity (a b : text) : nat * nat :=
  if (length a <? 2) || (length b <? 2)
  then if bool_decide (a = b) && (0 <? length a) then (1, 1) else (0, 1)
  else if bool_decide (a = b) then (1, 1)
  else
    let gramsA : gset (N * N) := list_to_set (bigrams a) in
    let gramsB : gset (N * N) := list_to_set (bigrams b) in
    (2 * Datatypes.length (elements (gramsA ∩ gramsB)),
     Datatypes.length (elements gramsA) + Datatypes.length (elements gramsB)).

Definition score_lt (x y : nat * nat) : bool := x.1 * y.2 <? y.1 * x.2.

(** The loop over the lines: the index of the first line with the best score. *)
Fixpoint best_line (probe : text) (lines : list text) (i : nat) (best : option nat) (bestScore : nat * nat)
  : option nat :=
  match lines with
  | [] => best
  | raw :: lines' =>
      let line := trim raw in
      let score := if text_includes probe line then (1, 1) else bigramSimilarity line probe in
      if score_lt bestScore score then best_line probe lines' (S i) (Some i) score
      else best_line probe lines' (S i) best bestScore
  end.

Definition probe_of (oldText : text) : option text :=
  List.find (fun line => 0 <? length line) (trim <$> split_lines oldText).

Definition nearestMatchContext (content oldText path : text) : option text :=
  probe ← probe_of oldText;
  let lines := split_lines content in
  bestIndex ← best_line probe lines 0 None (0, 1);
  let start := bestIndex - 1 in
  let snippetLines := slice start (start + NEAR_MISS_CONTEXT_LINES) lines in
  Some (join_lines (imap (fun offset line =>
    let shown := if NEAR_MISS_MAX_LINE_CHARS <? length line
                 then take NEAR_MISS_MAX_LINE_CHARS line ++ [8230%N] else line in
    path ++ codes ":" ++ codes (int_to_string (N.of_nat (start + offset + 1))) ++ codes ": " ++ shown) snippetLines)).

Section Edits.
Context (nfkc : text -> text).

Definition normalizeForFuzzyMatch (t : text) : text :=
  fold_char <$> join_lines (trimEnd <$> split_lines (nfkc t)).

(** The index of a text that is not found is not read; it is 0 here, -1 in the code. *)
Record FuzzyMatchResult : Type := {
  found : bool;
  index : nat;
  fm_matchLength : nat;
  usedFuzzyMatch : bool;
  contentForReplacement : text;
}.

Definition fuzzyFindText (content oldText : text) : FuzzyMatchResult :=
  match text_indexOf oldText content with
  | Some exactIndex =>
      {| found := true; index := exactIndex; fm_matchLength := length oldText; usedFuzzyMatch := false;
         contentForReplacement := content |}
  | None =>
      let fuzzyContent := normalizeForFuzzyMatch content in
      let searchContent := normalizeForFuzzyMatchSearch fuzzyContent in
      let searchOldText := normalizeForFuzzyMatchSearch (normalizeForFuzzyMatch oldText) in
      match text_indexOf searchOldText searchContent with
      | None =>
          {| found := false; index := 0; fm_matchLength := 0; usedFuzzyMatch := false;
             contentForReplacement := content |}
      | Some searchIndex =>
          let mapped := mapSearchRangeToReplacementSpace (buildSearchSpaceLines fuzzyContent) searchIndex
                          (length searchOldText) in
          {| found := true; index := mapped.1; fm_matchLength := mapped.2; usedFuzzyMatch := true;
             contentForReplacement := fuzzyContent |}
      end
  end.

Definition countOccurrences (content oldText : text) : Z :=
  let searchContent := normalizeForFuzzyMatchSearch (normalizeForFuzzyMatch content) in
  let searchOldText := normalizeForFuzzyMatchSearch (normalizeForFuzzyMatch oldText) in
  Z.of_nat (length (text_split searchOldText searchContent)) - 1.

(** ** Edits *)

Record Edit : Type := { oldText : text; ed_newText : text }.
Record AppliedEditsResult : Type := { baseContent : text; newContent : text }.

(** The loop that refuses empty old texts. *)
Fixpoint check_empty (total i : nat) (edits : list Edit) : eres unit :=
  match edits with
  | [] => Ok tt
  | e :: edits' =>
      _ ← check (negb (length (oldText e) =? 0)) (EmptyOldText i total);
      check_empty total (S i) edits'
  end.

(** One edit matched against the base; [original] is what the errors show. *)
Definition match_edit (base original path : text) (total i : nat) (e : Edit) : eres MatchedEdit :=
  let matchResult := fuzzyFindText base (oldText e) in
  _ ← check (found matchResult) (NotFound i total (nearestMatchContext original (oldText e) path));
  let occurrences := countOccurrences base (oldText e) in
  _ ← check (negb (1 <? occurrences)%Z) (Duplicate i total occurrences (nearestMatchContext original (oldText e) path));
  Ok {| editIndex := i; matchIndex := index matchResult; matchLength := fm_matchLength matchResult;
        newText := if usedFuzzyMatch matchResult
                   then adjustReplacementIndentation base (index matchResult) (oldText e) (ed_newText e)
                   else ed_newText e |}.

Fixpoint match_edits (base original path : text) (total i : nat) (edits : list Edit) : eres (list MatchedEdit) :=
  match edits with
  | [] => Ok []
  | e :: edits' =>
      m ← match_edit base original path total i e;
      ms ← match_edits base original path total (S i) edits';
      Ok (m :: ms)
  end.

(** Neighbours in the sorted order must not overlap. *)
Fixpoint check_overlap (ms : list MatchedEdit) : eres unit :=
  match ms with
  | previous :: (current :: _) as ms' =>
      _ ← check (negb (matchIndex current <? matchIndex previous + matchLength previous))
            (Overlapping (editIndex previous) (editIndex current));
      check_overlap ms'
  | _ => Ok tt
  end.

Definition normalize_edit (e : Edit) : Edit :=
  {| oldText := normalizeToLF (oldText e); ed_newText := normalizeToLF (ed_newText e) |}.

Definition applyEditsToNormalizedContent (normalizedContent : text) (edits : list Edit) (path : text)
  : eres AppliedEditsResult :=
  let normalizedEdits := normalize_edit <$> edits in
  let total := length edits in
  _ ← check_empty total 0 normalizedEdits;
  let fuzzy := existsb (fun e => usedFuzzyMatch (fuzzyFindText normalizedContent (oldText e))) normalizedEdits in
  let base := if fuzzy then normalizeForFuzzyMatch normalizedContent else normalizedContent in
  unsorted ← match_edits base normalizedContent path total 0 normalizedEdits;
  let matchedEdits := sort_by_index unsorted in
  _ ← check_overlap matchedEdits;
  newContent_ ← (if fuzzy then applyReplacementsPreservingUnchangedLines normalizedContent base matchedEdits
                 else Ok (applyReplacements base matchedEdits 0));
  _ ← check (negb (bool_decide (normalizedContent = newContent_))) (NoChange total);
  Ok {| baseContent := normalizedContent; newContent := newContent_ |}.

(** What the edit tool (coding-agent/src/core/tools/edit.ts) writes to the file, from what it
    read. *)
Definition edit_file (rawContent : text) (edits : list Edit) (path : text) : eres text :=
  let '(bom, content) := splitBom rawContent in
  let originalEnding := detectLineEnding content in
  r ← applyEditsToNormalizedContent (normalizeToLF content) edits path;
  Ok (bom ++ restoreLineEndings (newContent r) originalEnding).
End Edits.

(** ** The diff that is shown *)

(** A part of a line diff. *)
Record Part : Type := { pt_value : text; pt_added : bool; pt_removed : bool }.

(** One line of output; a number is padded to a common width when it is printed. *)
Inductive Shown : Type :=
| SAdded (num : nat) (line : text)
| SRemoved (num : nat) (line : text)
| SContext (num : nat) (line : text)
| SSkipped.

Definition padStart (width : nat) (t : text) : text := replicate (width - length t) SPACE ++ t.

Definition print_shown (width : nat) (s : Shown) : text :=
  let numbered sign num line := codes sign ++ padStart width (codes (int_to_string (N.of_nat num))) ++ [SPACE] ++ line in
  match s with
  | SAdded num line => numbered "+" num line
  | SRemoved num line => numbered "-" num line
  | SContext num line => numbered " " num line
  | SSkipped => codes " " ++ padStart width [] ++ codes " ..."
  end.

(** The lines of a part: a trailing empty one is dropped. *)
Definition part_lines (p : Part) : list text :=
  let raw := split_lines (pt_value p) in
  if decide (last raw = Some []) then removelast raw else raw.

Record DiffState : Type := {
  ds_output : list Shown;
  ds_oldLineNum : nat;
  ds_newLineNum : nat;
  ds_lastWasChange : bool;
  ds_firstChangedLine : option nat;
}.

Definition show_changed (added : bool) (st : DiffState) (line : text) : DiffState :=
  if added then
    {| ds_output := ds_output st ++ [SAdded (ds_newLineNum st) line]; ds_oldLineNum := ds_oldLineNum st;
       ds_newLineNum := S (ds_newLineNum st); ds_lastWasChange := ds_lastWasChange st;
       ds_firstChangedLine := ds_firstChangedLine st |}
  else
    {| ds_output := ds_output st ++ [SRemoved (ds_oldLineNum st) line]; ds_oldLineNum := S (ds_oldLineNum st);
       ds_newLineNum := ds_newLineNum st; ds_lastWasChange := ds_lastWasChange st;
       ds_firstChangedLine := ds_firstChangedLine st |}.

Definition show_context (st : DiffState) (line : text) : DiffState :=
  {| ds_output := ds_output st ++ [SContext (ds_oldLineNum st) line]; ds_oldLineNum := S (ds_oldLineNum st);
     ds_newLineNum := S (ds_newLineNum st); ds_lastWasChange := ds_lastWasChange st;
     ds_firstChangedLine := ds_firstChangedLine st |}.

Definition skip_lines (shown : bool) (n : nat) (st : DiffState) : DiffState :=
  {| ds_output := if shown then ds_output st ++ [SSkipped] else ds_output st; ds_oldLineNum := ds_oldLineNum st + n;
     ds_newLineNum := ds_newLineNum st + n; ds_lastWasChange := ds_lastWasChange st;
     ds_firstChangedLine := ds_firstChangedLine st |}.

(** A part without changes: the lines next to changes are shown, [contextLines] of them. *)
Definition context_part (contextLines : nat) (hasLeadingChange hasTrailingChange : bool) (raw : list text)
    (st : DiffState) : DiffState :=
  if hasLeadingChange && hasTrailingChange then
    if length raw <=? contextLines * 2 then foldl show_context st raw
    else
      let leadingLines := take contextLines raw in
      let trailingLines := drop (length raw - contextLines) raw in
      foldl show_context
        (skip_lines true (length raw - length leadingLines - length trailingLines) (foldl show_context st leadingLines))
        trailingLines
  else if hasLeadingChange then
    let shownLines := take contextLines raw in
    let skippedLines := length raw - length shownLines in
    let st' := foldl show_context st shownLines in
    if 0 <? skippedLines then skip_lines true skippedLines st' else st'
  else if hasTrailingChange then
    let skippedLines := length raw - contextLines in
    let st' := if 0 <? skippedLines then skip_lines true skippedLines st else st in
    foldl show_context st' (drop skippedLines raw)
  else skip_lines false (length raw) st.

Definition is_change (p : Part) : bool := pt_added p || pt_removed p.

Definition set_lastWasChange (b : bool) (st : DiffState) : DiffState :=
  {| ds_output := ds_output st; ds_oldLineNum := ds_oldLineNum st; ds_newLineNum := ds_newLineNum st;
     ds_lastWasChange := b; ds_firstChangedLine := ds_firstChangedLine st |}.

Definition set_firstChangedLine (st : DiffState) : DiffState :=
  {| ds_output := ds_output st; ds_oldLineNum := ds_oldLineNum st; ds_newLineNum := ds_newLineNum st;
     ds_lastWasChange := ds_lastWasChange st;
     ds_firstChangedLine := match ds_firstChangedLine st with None => Some (ds_newLineNum st) | f => f end |}.

Fixpoint diff_parts (contextLines : nat) (parts : list Part) (st : DiffState) : DiffState :=
  match parts with
  | [] => st
  | part :: parts' =>
      let raw := part_lines part in
      let st' :=
        if is_change part then
          set_lastWasChange true (foldl (show_changed (pt_added part)) (set_firstChangedLine st) raw)
        else
          let nextPartIsChange := match parts' with next :: _ => is_change next | [] => false end in
          set_lastWasChange false (context_part contextLines (ds_lastWasChange st) nextPartIsChange raw st) in
      diff_parts contextLines parts' st'
  end.

Definition diff_start : DiffState :=
  {| ds_output := []; ds_oldLineNum := 1; ds_newLineNum := 1; ds_lastWasChange := false;
     ds_firstChangedLine := None |}.

(** The diff and the number of the first changed line. *)
Definition generateDiffString (oldContent newContent : text) (parts : list Part) (contextLines : nat)
  : text * option nat :=
  let maxLineNum := Nat.max (length (split_lines oldContent)) (length (split_lines newContent)) in
  let lineNumWidth := length (codes (int_to_string (N.of_nat maxLineNum))) in
  let st := diff_parts contextLines parts diff_start in
  (join_lines (print_shown lineNumWidth <$> ds_output st), ds_firstChangedLine st).

Definition countLineChanges (parts : list Part) : nat * nat :=
  foldl (fun '(added, removed) part =>
    if negb (is_change part) then (added, removed)
    else if pt_added part then (added + length (part_lines part), removed)
    else (added, removed + length (part_lines part))) (0, 0) parts.
