(* ===== verification/EditFacts.v ===== *)
(** Facts about the edit tool: line endings survive the round trip, replacing from the back is
    splicing from the front, sorted matches that pass the overlap check lie apart; a range
    found in the search space of fuzzy matches is mapped to the range of the text that reads
    as the searched text once indentation is left out, and re-anchoring a replacement changes
    indentation only. *)
From S2P Require Import Prelude JsString EditText EditDiff.
From Stdlib Require Import Sorted.

(** ** Line endings *)

Lemma replace_crlf_cons c t : c <> CR -> replace_crlf (c :: t) = c :: replace_crlf t.
Proof. intros Hc. cbn. destruct t as [|d t]; [done|]. destruct (N.eqb_spec c CR); [done|]. done. Qed.

Lemma replace_crlf_id t : CR ∉ t -> replace_crlf t = t.
Proof.
  induction t as [|c t IH]; [done|]. intros [Hc Ht]%not_elem_of_cons.
  rewrite replace_crlf_cons by congruence. by rewrite IH.
Qed.

Lemma replace_cr_id t : CR ∉ t -> replace_cr t = t.
Proof.
  induction t as [|c t IH]; [done|]. intros [Hc Ht]%not_elem_of_cons. unfold replace_cr in *. cbn.
  destruct (N.eqb_spec c CR); [congruence|]. by rewrite IH.
Qed.

Lemma normalizeToLF_id t : CR ∉ t -> normalizeToLF t = t.
Proof. intros H. unfold normalizeToLF. by rewrite replace_crlf_id, replace_cr_id. Qed.

Lemma normalizeToLF_no_CR t : CR ∉ normalizeToLF t.
Proof.
  unfold normalizeToLF, replace_cr. intros (c & Hc & _)%list_elem_of_fmap.
  destruct (N.eqb_spec c CR); [by vm_compute in Hc|congruence].
Qed.

Lemma restore_cons c t : restoreLineEndings (c :: t) true = (if (c =? LF)%N then CRLF else [c]) ++ restoreLineEndings t true.
Proof. done. Qed.

Lemma replace_crlf_CRLF t : replace_crlf (CRLF ++ t) = LF :: replace_crlf t.
Proof. done. Qed.

Lemma replace_crlf_restore t : CR ∉ t -> replace_crlf (restoreLineEndings t true) = t.
Proof.
  induction t as [|c t IH]; [done|]. intros [Hc Ht]%not_elem_of_cons. rewrite restore_cons.
  destruct (N.eqb_spec c LF) as [->|].
  - by rewrite replace_crlf_CRLF, IH.
  - cbn [app]. rewrite replace_crlf_cons by done. by rewrite IH.
Qed.

Lemma normalize_restore t crlf : CR ∉ t -> normalizeToLF (restoreLineEndings t crlf) = t.
Proof.
  intros H. destruct crlf; [|by apply normalizeToLF_id].
  unfold normalizeToLF. by rewrite replace_crlf_restore, replace_cr_id.
Qed.

Lemma indexOf_restore t :
  CR ∉ t -> LF ∈ t ->
  exists i, text_indexOf CRLF (restoreLineEndings t true) = Some i /\
            text_indexOf [LF] (restoreLineEndings t true) = Some (S i).
Proof.
  induction t as [|c t IH]; [by intros ? ?%elem_of_nil|]. intros [Hc Ht]%not_elem_of_cons Hin.
  rewrite restore_cons. destruct (N.eqb_spec c LF) as [->|Hl].
  - exists 0. done.
  - apply elem_of_cons in Hin as [?|Hin]; [congruence|]. destruct (IH Ht Hin) as (i & H1 & H2).
    exists (S i). cbn [app]. rewrite !text_indexOf_cons, H1, H2; [done| |];
      cbn -[CR LF]; destruct (N.eqb_spec CR c), (N.eqb_spec LF c); try congruence; done.
Qed.

Lemma indexOf_absent t c p : c ∉ t -> text_indexOf (c :: p) t = None.
Proof.
  induction t as [|d t IH]; [done|]. intros [Hc Ht]%not_elem_of_cons.
  rewrite text_indexOf_cons by (cbn; destruct (N.eqb_spec c d); [congruence|done]). by rewrite IH.
Qed.

(** The ending of a file of one kind is recognised. *)
Lemma detect_restore t crlf :
  CR ∉ t -> (crlf = true -> LF ∈ t) -> detectLineEnding (restoreLineEndings t crlf) = crlf.
Proof.
  intros Hc Hl. unfold detectLineEnding. destruct crlf.
  - destruct (indexOf_restore t Hc (Hl eq_refl)) as (i & -> & ->). apply Nat.ltb_lt. lia.
  - cbn [restoreLineEndings]. unfold CRLF. by rewrite indexOf_absent.
Qed.

Lemma splitBom_bom content bom : BOM ∉ take 1 content -> bom = [] \/ bom = [BOM] ->
  splitBom (bom ++ content) = (bom, content).
Proof.
  intros Hb [->| ->]; [|done]. destruct content as [|c content]; [done|]. cbn.
  destruct (N.eqb_spec c BOM) as [->|]; [|done]. destruct Hb. by left.
Qed.

(** ** Replacing *)

(** The text between [pos] and [to] with the replacements of the list done in it, read from
    the front. *)
Fixpoint spliced (content : text) (pos to : nat) (rs : list MatchedEdit) : text :=
  match rs with
  | [] => slice pos to content
  | r :: rs' => slice pos (matchIndex r) content ++ newText r ++ spliced content (matchIndex r + matchLength r) to rs'
  end.

(** The replacements lie in order and apart between [pos] and [to]. *)
Fixpoint apart (pos to : nat) (rs : list MatchedEdit) : Prop :=
  match rs with
  | [] => pos <= to
  | r :: rs' => pos <= matchIndex r /\ apart (matchIndex r + matchLength r) to rs'
  end.

Lemma apart_le pos to rs : apart pos to rs -> pos <= to.
Proof. revert pos; induction rs as [|r rs IH]; cbn; [done|]. intros pos [H1 H2%IH]. lia. Qed.

Lemma apart_weaken pos pos' to rs : apart pos to rs -> pos' <= pos -> apart pos' to rs.
Proof. destruct rs; cbn; [lia|]. intros [H1 H2] H. split; [lia|done]. Qed.

Lemma apart_app pos to rs1 rs2 : apart pos to (rs1 ++ rs2) ->
  apart pos to rs1 /\ exists mid, pos <= mid /\ apart pos mid rs1 /\ apart mid to rs2.
Proof.
  revert pos; induction rs1 as [|r rs1 IH]; cbn; intros pos H.
  - split; [by eapply apart_le|]. exists pos. auto.
  - destruct H as [H1 (H2 & mid & H3 & H4 & H5)%(conj H1)%proj2%IH]. split; [done|].
    exists mid. split; [lia|]. done.
Qed.

Lemma applyReplacements_cons content r rs offset :
  applyReplacements content (r :: rs) offset = replace_one offset (applyReplacements content rs offset) r.
Proof. unfold applyReplacements. cbn [rev]. by rewrite foldl_app. Qed.

Lemma applyReplacements_from base from to rs pos :
  from <= pos -> apart pos to rs -> to <= length base ->
  applyReplacements (slice from to base) rs from = slice from pos base ++ spliced base pos to rs.
Proof.
  revert pos; induction rs as [|r rs IH]; intros pos Hp Ha Hto.
  - cbn in *. by apply slice_split.
  - cbn in Ha. destruct Ha as [H1 H2]. pose proof (apart_le _ _ _ H2) as Hle.
    rewrite applyReplacements_cons, (IH (matchIndex r + matchLength r)) by (done || lia).
    unfold replace_one. cbn [spliced].
    assert (Hsplit : slice from (matchIndex r + matchLength r) base
      = slice from (matchIndex r) base ++ slice (matchIndex r) (matchIndex r + matchLength r) base)
      by (apply slice_split; lia).
    rewrite (drop_app_length' (slice from (matchIndex r + matchLength r) base)) by (rewrite slice_length; lia).
    rewrite Hsplit, <- app_assoc, take_app_length' by (rewrite slice_length; lia).
    rewrite (slice_split from pos (matchIndex r)) by lia. by rewrite <- app_assoc.
Qed.

Lemma applyReplacements_spliced base from to rs :
  apart from to rs -> to <= length base ->
  applyReplacements (slice from to base) rs from = spliced base from to rs.
Proof. intros Ha Hto. rewrite (applyReplacements_from base from to rs from) by (done || lia). by rewrite slice_nil. Qed.

Lemma applyReplacements_whole base rs :
  apart 0 (length base) rs -> applyReplacements base rs 0 = spliced base 0 (length base) rs.
Proof. intros Ha. rewrite <- applyReplacements_spliced by done. by rewrite slice_full. Qed.

(** ** Sorting *)

Definition index_le (a b : MatchedEdit) : Prop := matchIndex a <= matchIndex b.

Lemma insert_by_index_spec r rs :
  Sorted index_le rs -> Sorted index_le (insert_by_index r rs) /\ insert_by_index r rs ≡ₚ r :: rs.
Proof.
  induction rs as [|r' rs IH]; cbn; intros Hs.
  - split; [by repeat constructor|done].
  - destruct (Nat.leb_spec (matchIndex r) (matchIndex r')).
    + split; [|done]. constructor; [done|by constructor].
    + apply Sorted_inv in Hs as [Hs Hh]. destruct (IH Hs) as [IH1 IH2]. split.
      * constructor; [done|]. destruct rs as [|r'' rs]; cbn in *; [constructor; unfold index_le; lia|].
        apply HdRel_inv in Hh. destruct (_ <=? _); constructor; [unfold index_le; lia|done].
      * rewrite IH2. apply perm_swap.
Qed.

Lemma sort_by_index_spec rs : Sorted index_le (sort_by_index rs) /\ sort_by_index rs ≡ₚ rs.
Proof.
  induction rs as [|r rs [IH1 IH2]]; cbn; [by split|]. destruct (insert_by_index_spec r _ IH1) as [H1 H2].
  split; [done|]. by rewrite H2, IH2.
Qed.

(** Sorted matches that pass the check are apart. *)
Lemma check_overlap_apart n ms u :
  Sorted index_le ms -> Forall (fun m => matchIndex m + matchLength m <= n) ms -> check_overlap ms = Ok u ->
  match ms with [] => True | m :: _ => apart (matchIndex m) n ms end.
Proof.
  induction ms as [|m ms IH]; [done|]. intros Hs [Hm Hms]%Forall_cons Hc.
  destruct ms as [|m' ms]; [cbn; lia|]. cbn -[apart check_overlap] in Hc. cbn [check_overlap] in Hc. inv_res.
  bool_to_prop. apply Sorted_inv in Hs as [Hs _]. specialize (IH Hs Hms Hc).
  split; [done|]. eapply apart_weaken; [exact IH|done].
Qed.

Lemma checked_apart n ms u :
  Sorted index_le ms -> Forall (fun m => matchIndex m + matchLength m <= n) ms -> check_overlap ms = Ok u ->
  apart 0 n ms.
Proof.
  intros Hs Hb Hc. pose proof (check_overlap_apart n ms u Hs Hb Hc) as H.
  destruct ms; [cbn; lia|]. eapply apart_weaken; [exact H|lia].
Qed.

(** ** The text without its indentation

    [seen start t] reads a text from a position that is in the indentation of its line
    ([start]) or not; it leaves out the indentation. *)
Fixpoint seen (start : bool) (t : text) : text :=
  match t with
  | [] => []
  | c :: t' =>
      if (c =? LF)%N then c :: seen true t'
      else if start && is_indent c then seen true t' else c :: seen false t'
  end.

(** Whether the position after the text is in the indentation of its line. *)
Fixpoint in_indent (start : bool) (t : text) : bool :=
  match t with
  | [] => start
  | c :: t' => if (c =? LF)%N then in_indent true t' else in_indent (start && is_indent c) t'
  end.

Lemma seen_app s a b : seen s (a ++ b) = seen s a ++ seen (in_indent s a) b.
Proof.
  revert s; induction a as [|c a IH]; intros s; [done|]. cbn. destruct (c =? LF)%N; [cbn; by rewrite IH|].
  destruct (s && is_indent c); cbn; by rewrite IH.
Qed.

Lemma in_indent_app s a b : in_indent s (a ++ b) = in_indent (in_indent s a) b.
Proof. revert s; induction a as [|c a IH]; intros s; [done|]. cbn. destruct (c =? LF)%N; by rewrite IH. Qed.

Lemma seen_false_line l : LF ∉ l -> seen false l = l.
Proof.
  induction l as [|c l IH]; [done|]. intros [Hc Hl]%not_elem_of_cons. cbn.
  destruct (N.eqb_spec c LF); [congruence|]. by rewrite IH.
Qed.

Lemma seen_line l : LF ∉ l -> seen true l = strip_indent l.
Proof.
  induction l as [|c l IH]; [done|]. intros [Hc Hl]%not_elem_of_cons. cbn.
  destruct (N.eqb_spec c LF); [congruence|]. destruct (is_indent c); [by apply IH|]. by rewrite seen_false_line.
Qed.

Lemma seen_cons_LF s t : seen s (LF :: t) = LF :: seen true t.
Proof. done. Qed.

Lemma seen_lines ls : Forall (fun l => LF ∉ l) ls -> seen true (join_lines ls) = join_lines (strip_indent <$> ls).
Proof.
  induction ls as [|l ls IH]; [done|]. intros [Hl Hls]%Forall_cons. destruct ls as [|l' ls].
  - by apply seen_line.
  - rewrite join_lines_cons by done. rewrite fmap_cons, (join_lines_cons (strip_indent l)) by by rewrite fmap_cons.
    rewrite seen_app, seen_line, seen_cons_LF, IH by done. done.
Qed.

(** The search space of a text is the text without its indentation. *)
Lemma search_seen t : normalizeForFuzzyMatchSearch t = seen true t.
Proof.
  unfold normalizeForFuzzyMatchSearch. rewrite <- seen_lines by apply split_lines_no_LF. by rewrite join_split_lines.
Qed.

Lemma strip_indent_length l : length (strip_indent l) = length l - length (leadingWhitespace l).
Proof. rewrite <- (leading_strip l) at 2. rewrite length_app. lia. Qed.

Lemma leading_length l : length (leadingWhitespace l) <= length l.
Proof. rewrite <- (leading_strip l) at 2. rewrite length_app. lia. Qed.

Lemma seen_indent w : forallb is_indent w = true -> seen true w = [] /\ in_indent true w = true.
Proof.
  induction w as [|c w IH]; [done|]. cbn. intros [Hc Hw]%andb_true_iff.
  destruct (N.eqb_spec c LF) as [->|]; [by vm_compute in Hc|]. rewrite Hc. by apply IH.
Qed.

(** The part of a line up to [k] characters after its indentation. *)
Lemma seen_take_line l k :
  LF ∉ l -> seen true (take (length (leadingWhitespace l) + k) l) = take k (strip_indent l).
Proof.
  intros Hl. rewrite <- (leading_strip l) at 2.
  rewrite take_app_add, seen_app. destruct (seen_indent _ (leadingWhitespace_indent l)) as [-> ->]. cbn [app].
  assert (Hs : LF ∉ strip_indent l).
  { intros H. apply Hl. rewrite <- (leading_strip l). apply elem_of_app. by right. }
  assert (Hk : LF ∉ take k (strip_indent l)).
  { intros H. apply Hs. rewrite <- (take_drop k (strip_indent l)). apply elem_of_app. by left. }
  rewrite seen_line by done. destruct k; [done|]. pose proof (strip_indent_fixed l) as Hf.
  destruct (strip_indent l) as [|c l']; [done|]. cbn in *. by destruct (is_indent c).
Qed.

(** A prefix of a text is a prefix of what is seen. *)
Lemma seen_take_prefix t i : seen true (take i t) = take (length (seen true (take i t))) (seen true t).
Proof. rewrite <- (take_drop i t) at 3. by rewrite seen_app, take_app_length. Qed.

Lemma seen_slice t i j :
  i <= j -> j <= length t ->
  seen (in_indent true (take i t)) (slice i j t)
  = slice (length (seen true (take i t))) (length (seen true (take j t))) (seen true t).
Proof.
  intros Hij Hj. assert (Hsplit : take j t = take i t ++ slice i j t).
  { unfold slice. by rewrite take_take_drop, <- Nat.le_add_sub by lia. }
  pose proof (seen_app true (take i t) (slice i j t)) as Happ. rewrite <- Hsplit in Happ.
  assert (Hdrop : seen true t = seen true (take j t) ++ seen (in_indent true (take j t)) (drop j t)).
  { by rewrite <- seen_app, take_drop. }
  rewrite Hdrop, Happ. unfold slice at 2.
  rewrite <- app_assoc, drop_app_length, length_app.
  rewrite take_app_length' by lia. done.
Qed.

(** ** Mapping a range back *)

(** The text before the line [search_at] starts: it ends a line, or is empty. *)
Definition line_start (pre : text) : Prop := pre = [] \/ exists a, pre = a ++ [LF].

Lemma line_start_indent pre : line_start pre -> in_indent true pre = true.
Proof. intros [->|[a ->]]; [done|]. by rewrite in_indent_app. Qed.

Section Mapping.
Context (base : text) (si se : nat).
Context (Hrange : si < se) (Hend : se <= length (seen true base)).

Definition seen_to (i n : nat) : Prop := i <= length base /\ length (seen true (take i base)) = n.

Lemma seen_to_line pre l rest k :
  base = pre ++ l ++ rest -> line_start pre -> LF ∉ l -> k <= length (strip_indent l) ->
  seen_to (length pre + length (leadingWhitespace l) + k) (length (seen true pre) + k).
Proof.
  intros Hbase Hpre Hl Hk. pose proof (strip_indent_length l). pose proof (leading_length l).
  split.
  - rewrite Hbase, !length_app. lia.
  - rewrite Hbase, <- Nat.add_assoc, take_app_add, take_app_le by lia.
    rewrite seen_app, line_start_indent, seen_take_line, length_app, length_take by done. lia.
Qed.

Lemma seen_to_start pre l rest : base = pre ++ l ++ rest -> seen_to (length pre) (length (seen true pre)).
Proof. intros Hbase. split; [rewrite Hbase, length_app; lia|]. by rewrite Hbase, take_app_length. Qed.

(** The newline that ends the text before a line. *)
Lemma seen_to_newline pre l rest :
  base = pre ++ l ++ rest -> line_start pre -> S si = length (seen true pre) -> seen_to (length pre - 1) si.
Proof.
  intros Hbase [->|[a ->]] Hsi; [done|]. rewrite seen_app, length_app in Hsi. cbn in Hsi.
  rewrite length_app. cbn. replace (length a + 1 - 1) with (length a) by lia. split.
  - rewrite Hbase, !length_app. lia.
  - rewrite Hbase, <- !app_assoc, take_app_length. lia.
Qed.

(** What holds when the loop reaches a line: the start is found, or on this line or a later
    one, or at the newline before it. *)
Definition reached (pre : text) (idx : option nat) : Prop :=
  match idx with
  | Some i => seen_to i si /\ length (seen true pre) <= se
  | None => length (seen true pre) <= S si
  end.

Lemma map_start_ok pre l rest :
  base = pre ++ l ++ rest -> line_start pre -> LF ∉ l -> length (seen true pre) <= S si ->
  si < length (seen true pre) + length (strip_indent l) ->
  seen_to (map_start {| searchStart := length (seen true pre); replacementStart := length pre;
                        leading := length (leadingWhitespace l);
                        searchLength := length l - length (leadingWhitespace l) |} si se) si.
Proof.
  intros Hbase Hpre Hl Hle Hlt. unfold map_start. cbn [searchStart replacementStart leading searchLength].
  destruct (Nat.eqb_spec (S si) (length (seen true pre))) as [Heq|Hne]; [by eapply seen_to_newline|].
  destruct (Nat.eqb_spec si (length (seen true pre))) as [Heq|Hne2]; cbn [andb].
  - destruct (_ <=? se).
    + rewrite Heq. by eapply seen_to_start.
    + pose proof (seen_to_line pre l rest 0 Hbase Hpre Hl) as H. rewrite !Nat.add_0_r in H.
      rewrite <- Heq, Nat.sub_diag, Nat.add_0_r. rewrite <- Heq in H. apply H. lia.
  - pose proof (seen_to_line pre l rest (si - length (seen true pre)) Hbase Hpre Hl) as H.
    replace (length (seen true pre) + (si - length (seen true pre))) with si in H by lia.
    rewrite Nat.add_assoc. apply H. lia.
Qed.

Lemma map_range_ok ls pre idx :
  ls <> [] -> Forall (fun l => LF ∉ l) ls -> base = pre ++ join_lines ls -> line_start pre -> reached pre idx ->
  exists i j, map_range (build_lines (length (seen true pre)) (length pre) ls) si se idx = Some (i, j) /\
    seen_to i si /\ seen_to j se.
Proof.
  revert pre idx; induction ls as [|l ls IH]; [done|]. intros pre idx _ [Hl Hls]%Forall_cons Hbase Hpre Hreach.
  assert (exists rest, base = pre ++ l ++ rest /\ (ls = [] -> rest = []) /\
    (ls <> [] -> rest = LF :: join_lines ls)) as (rest & Hb & Hnil & Hcons).
  { destruct ls as [|l' ls].
    - exists []. rewrite app_nil_r. done.
    - exists (LF :: join_lines (l' :: ls)). rewrite join_lines_cons in Hbase by done. done. }
  cbn [build_lines map_range searchStart replacementStart leading searchLength].
  pose proof (strip_indent_length l) as Hlen.
  set (line_end := length (seen true pre) + (length l - length (leadingWhitespace l))).
  set (idx' := match idx with Some i => Some i | None => _ end).
  assert (Hidx : match idx' with
                 | Some i => seen_to i si /\ length (seen true pre) <= se
                 | None => line_end <= si end).
  { unfold idx'. destruct idx as [i|]; [done|]. cbn in Hreach. destruct (Nat.ltb_spec si line_end); [|done].
    split; [|lia]. unfold line_end in *. eapply map_start_ok; try done. lia. }
  assert (Htotal : seen true base = seen true pre ++ strip_indent l ++ seen false rest \/ ls <> []).
  { destruct ls as [|l' ls]; [|by right]. left. rewrite Hb, (Hnil eq_refl). cbn [seen].
    rewrite !app_nil_r, seen_app, line_start_indent, (seen_line l) by done. done. }
  assert (Hnext : line_end < se -> exists i j,
    map_range (build_lines (length (seen true pre) + (length l - length (leadingWhitespace l)) + 1)
                 (length pre + length l + 1) ls) si se idx' = Some (i, j) /\ seen_to i si /\ seen_to j se).
  { intros Hlt. destruct (decide (ls = [])) as [->|Hne].
    { destruct Htotal as [Ht|]; [|done]. rewrite Ht, (Hnil eq_refl), app_nil_r, length_app in Hend.
      unfold line_end in Hlt. lia. }
    assert (Hpre' : line_start (pre ++ l ++ [LF])) by (right; exists (pre ++ l); by rewrite app_assoc).
    assert (Hseen : length (seen true (pre ++ l ++ [LF])) = line_end + 1).
    { rewrite !seen_app, line_start_indent, (seen_line l) by done. cbn [seen]. rewrite !length_app. cbn.
      unfold line_end. lia. }
    destruct (IH (pre ++ l ++ [LF]) idx') as (i & j & Hm & Hi & Hj); [done|done| |done| |].
    - rewrite Hb, (Hcons Hne). by rewrite <- !app_assoc.
    - unfold reached. rewrite Hseen. destruct idx' as [i|]; [|lia]. split; [apply Hidx|lia].
    - exists i, j. split; [|done]. rewrite <- Hm. unfold line_end in Hseen. rewrite Hseen, !length_app. cbn.
      f_equal. f_equal; lia. }
  fold line_end in Hnext |- *. destruct idx' as [i|].
  - destruct (Nat.leb_spec se line_end) as [Hle|Hgt]; [|by apply Hnext].
    destruct Hidx as [Hi Hse]. eexists _, _. split; [done|]. split; [done|].
    pose proof (seen_to_line pre l rest (se - length (seen true pre)) Hb Hpre Hl) as H.
    unfold line_end in Hle. specialize (H ltac:(lia)).
    replace (length (seen true pre) + (se - length (seen true pre))) with se in H by lia.
    replace (length pre + length (leadingWhitespace l) + se - length (seen true pre))
      with (length pre + length (leadingWhitespace l) + (se - length (seen true pre))) by lia. done.
  - apply Hnext. lia.
Qed.
End Mapping.

(** The range of the text for a range of the search space that is not empty. *)
Lemma mapSearchRange_ok base si n :
  0 < n -> si + n <= length (seen true base) ->
  let range := mapSearchRangeToReplacementSpace (buildSearchSpaceLines base) si n in
  range.1 + range.2 <= length base /\
  seen (in_indent true (take range.1 base)) (slice range.1 (range.1 + range.2) base)
  = slice si (si + n) (seen true base).
Proof.
  intros Hn Hlen. unfold mapSearchRangeToReplacementSpace, buildSearchSpaceLines.
  destruct (map_range_ok base si (si + n) ltac:(lia) Hlen (split_lines base) [] None) as (i & j & Hm & Hi & Hj).
  - apply split_lines_nonempty.
  - apply split_lines_no_LF.
  - by rewrite join_split_lines.
  - by left.
  - cbn. lia.
  - change (length (seen true [])) with 0 in Hm. change (length (@nil N)) with 0 in Hm. rewrite Hm. cbn [fst snd].
    destruct Hi as [Hi Hsi], Hj as [Hj Hsj].
    assert (Hij : i <= j).
    { destruct (Nat.le_gt_cases i j) as [|Hgt]; [done|].
      assert (Ht : take i base = take j base ++ slice j i base).
      { unfold slice. by rewrite take_take_drop, <- Nat.le_add_sub by lia. }
      rewrite Ht, seen_app, length_app in Hsi. lia. }
    replace (i + (j - i)) with j by lia. split; [done|]. rewrite seen_slice by done. by rewrite Hsi, Hsj.
Qed.

(** ** Re-anchoring a replacement *)

Lemma reindent_strip add remove line :
  forallb is_indent add = true -> strip_indent (reindent add remove line) = strip_indent line.
Proof.
  intros Hadd. unfold reindent. destruct (_ =? _); [done|]. destruct (0 <? remove).
  - assert (Hd : drop (length (leadingWhitespace line)) line = strip_indent line).
    { rewrite <- (leading_strip line) at 2. apply drop_app_length. }
    rewrite Hd, strip_indent_app_indent.
    + pose proof (leading_strip (strip_indent line)) as H. by rewrite strip_indent_fixed in H.
    + pose proof (leadingWhitespace_indent line) as H. rewrite forallb_forall in *. intros c Hc. apply H.
      rewrite <- (take_drop (remove `min` length (leadingWhitespace line)) (leadingWhitespace line)).
      apply in_or_app. by right.
  - by apply strip_indent_app_indent.
Qed.

Lemma elem_of_drop_in {A} (x : A) n l : x ∈ drop n l -> x ∈ l.
Proof. intros H. rewrite <- (take_drop n l). apply elem_of_app. by right. Qed.

Lemma indent_no_LF w : forallb is_indent w = true -> LF ∉ w.
Proof. rewrite forallb_forall. intros H Hin%list_elem_of_In. by specialize (H _ Hin). Qed.

Lemma reindent_no_LF add remove line :
  forallb is_indent add = true -> LF ∉ line -> LF ∉ reindent add remove line.
Proof.
  intros Hadd%indent_no_LF Hl. unfold reindent. destruct (_ =? _); [done|]. destruct (0 <? remove).
  - rewrite elem_of_app. intros [H|H]; apply Hl.
    + rewrite <- (leading_strip line). apply elem_of_app. left. by apply elem_of_drop_in in H.
    + by apply elem_of_drop_in in H.
  - rewrite elem_of_app. tauto.
Qed.

Lemma reindent_length add remove line :
  length (leadingWhitespace line) <> length line -> remove <= length (leadingWhitespace line) ->
  forallb is_indent add = true -> (0 < remove -> add = []) ->
  length (leadingWhitespace (reindent add remove line)) = length add + length (leadingWhitespace line) - remove.
Proof.
  intros Hb Hr Hadd Hx. unfold reindent. destruct (Nat.eqb_spec (length (leadingWhitespace line)) (length line)); [done|].
  destruct (Nat.ltb_spec 0 remove).
  - rewrite Hx by done. rewrite Nat.min_l by done.
    assert (Hd : drop (length (leadingWhitespace line)) line = strip_indent line).
    { rewrite <- (leading_strip line) at 2. apply drop_app_length. }
    rewrite Hd, leadingWhitespace_app, strip_indent_fixed, app_nil_r, length_drop; [cbn; lia|].
    pose proof (leadingWhitespace_indent line) as H'. rewrite forallb_forall in *. intros c Hc. apply H'.
    rewrite <- (take_drop remove (leadingWhitespace line)). apply in_or_app. by right.
  - rewrite leadingWhitespace_app, length_app by done. lia.
Qed.

(** The lines of a shifted replacement. *)
Lemma split_shift aligned add remove lines :
  lines <> [] -> Forall (fun l => LF ∉ l) lines -> forallb is_indent add = true ->
  split_lines (join_lines (take aligned lines ++ (reindent add remove <$> drop aligned lines)))
  = take aligned lines ++ (reindent add remove <$> drop aligned lines).
Proof.
  intros Hne Hl Hadd. apply split_join_lines.
  - intros H%(f_equal length). rewrite length_app, length_fmap, length_take, length_drop in H.
    destruct lines; [done|]. cbn in H. lia.
  - apply Forall_app. split; [by apply Forall_take|]. apply Forall_fmap, Forall_drop.
    eapply Forall_impl; [exact Hl|]. intros l. by apply reindent_no_LF.
Qed.

Lemma shift_seen aligned add remove t :
  forallb is_indent add = true ->
  normalizeForFuzzyMatchSearch
    (join_lines (take aligned (split_lines t) ++ (reindent add remove <$> drop aligned (split_lines t))))
  = normalizeForFuzzyMatchSearch t.
Proof.
  intros Hadd. unfold normalizeForFuzzyMatchSearch.
  rewrite split_shift by (apply split_lines_nonempty || apply split_lines_no_LF || done).
  f_equal. rewrite fmap_app, <- list_fmap_compose. rewrite <- (take_drop aligned (split_lines t)) at 3.
  rewrite fmap_app. f_equal. apply list_fmap_ext. intros i l _. by apply reindent_strip.
Qed.

Lemma starts_with_length p t : starts_with p t = true -> length p <= length t.
Proof. rewrite starts_with_app. intros [r ->]. rewrite length_app. lia. Qed.

Lemma starts_with_drop_indent (p t : text) : forallb is_indent t = true -> forallb is_indent (drop (length p) t) = true.
Proof.
  rewrite !forallb_forall. intros H c Hc. apply H. rewrite <- (take_drop (length p) t). apply in_or_app. by right.
Qed.

(** What [adjustReplacementIndentation] does: nothing, or a shift of the lines from the
    anchor on by the difference of the indentations. *)
Lemma adjust_cases base mi old new :
  adjustReplacementIndentation base mi old new = new \/
  exists lineStart aligned add remove newLine,
    anchor base mi (split_lines old) = Some (lineStart, aligned) /\ split_lines new !! aligned = Some newLine /\
    forallb is_indent add = true /\ (0 < remove -> add = []) /\ remove <= length (leadingWhitespace newLine) /\
    length add + length (leadingWhitespace newLine) - remove
    = length (leadingWhitespace (file_line base lineStart)) /\
    adjustReplacementIndentation base mi old new
    = join_lines (take aligned (split_lines new) ++ (reindent add remove <$> drop aligned (split_lines new))).
Proof.
  unfold adjustReplacementIndentation. destruct (anchor _ _ _) as [[lineStart aligned]|]; [|by left].
  destruct (split_lines old !! aligned) as [oldLine|]; [|by left].
  destruct (split_lines new !! aligned) as [newLine|] eqn:Hnew; [|by left].
  destruct (negb _); [by left|]. destruct (bool_decide (_ = leadingWhitespace (file_line _ _))); [by left|].
  set (file := leadingWhitespace (file_line base lineStart)).
  destruct (starts_with (leadingWhitespace newLine) file) eqn:H1;
    [|destruct (starts_with file (leadingWhitespace newLine)) eqn:H2; [|by left]]; right.
  - pose proof (starts_with_length _ _ H1).
    exists lineStart, aligned, (drop (length (leadingWhitespace newLine)) file), 0, newLine.
    split_and!; try done; [by apply starts_with_drop_indent, leadingWhitespace_indent|lia|lia|].
    rewrite length_drop. unfold file in *. lia.
  - pose proof (starts_with_length _ _ H2).
    exists lineStart, aligned, [], (length (leadingWhitespace newLine) - length file), newLine.
    split_and!; try done; [lia|unfold file in *; cbn; lia].
Qed.

(** Only indentation changes. *)
Lemma adjust_seen base mi old new :
  normalizeForFuzzyMatchSearch (adjustReplacementIndentation base mi old new) = normalizeForFuzzyMatchSearch new.
Proof.
  destruct (adjust_cases base mi old new) as [->|(ls & al & add & rem & nl & _ & _ & Hadd & _ & _ & _ & ->)]; [done|].
  by apply shift_seen.
Qed.

(** A replacement that is shifted puts its first line, when it is not blank, as deep as the
    line of the file. *)
Lemma adjust_depth base mi old new :
  adjustReplacementIndentation base mi old new = new \/
  exists lineStart aligned line,
    anchor base mi (split_lines old) = Some (lineStart, aligned) /\ split_lines new !! aligned = Some line /\
    (length (leadingWhitespace line) <> length line ->
     exists line', split_lines (adjustReplacementIndentation base mi old new) !! aligned = Some line' /\
       length (leadingWhitespace line') = length (leadingWhitespace (file_line base lineStart))).
Proof.
  destruct (adjust_cases base mi old new) as [?|(ls & al & add & rem & nl & Ha & Hl & Hadd & Hx & Hr & Hlen & Heq)];
    [by left|]. right.
  exists ls, al, nl. split; [done|]. split; [done|]. intros Hb. exists (reindent add rem nl).
  rewrite Heq, split_shift by (apply split_lines_nonempty || apply split_lines_no_LF || done).
  pose proof (lookup_lt_Some _ _ _ Hl). split.
  - rewrite lookup_app_r by (rewrite length_take; lia). rewrite length_take_le by lia.
    by rewrite Nat.sub_diag, list_lookup_fmap, lookup_drop, Nat.add_0_r, Hl.
  - by rewrite reindent_length.
Qed.

Lemma shift_line aligned add remove lines line :
  Forall (fun l => LF ∉ l) lines -> forallb is_indent add = true -> lines !! aligned = Some line ->
  split_lines (join_lines (take aligned lines ++ (reindent add remove <$> drop aligned lines))) !! aligned
  = Some (reindent add remove line).
Proof.
  intros Hf Hadd Hl. pose proof (lookup_lt_Some _ _ _ Hl). rewrite split_shift; [|by intros ->|done|done].
  rewrite lookup_app_r by (rewrite length_take; lia). rewrite length_take_le by lia.
  by rewrite Nat.sub_diag, list_lookup_fmap, lookup_drop, Nat.add_0_r, Hl.
Qed.

(** Where the old and the new line agree in indentation and the file's extends or cuts it,
    the new line is as deep as the file's. *)
Lemma adjust_comparable base mi old new lineStart aligned oldLine newLine :
  anchor base mi (split_lines old) = Some (lineStart, aligned) ->
  split_lines old !! aligned = Some oldLine -> split_lines new !! aligned = Some newLine ->
  leadingWhitespace newLine = leadingWhitespace oldLine -> length (leadingWhitespace newLine) <> length newLine ->
  let file := leadingWhitespace (file_line base lineStart) in
  starts_with (leadingWhitespace newLine) file || starts_with file (leadingWhitespace newLine) = true ->
  exists line, split_lines (adjustReplacementIndentation base mi old new) !! aligned = Some line /\
    length (leadingWhitespace line) = length file.
Proof.
  intros Ha Ho Hn Heq Hb file Hc. unfold adjustReplacementIndentation. rewrite Ha, Ho, Hn. fold file.
  rewrite (bool_decide_eq_true_2 _ Heq). cbn [negb]. destruct (bool_decide_reflect (leadingWhitespace newLine = file)) as [Hf|_].
  { exists newLine. by rewrite Hf. }
  destruct (starts_with (leadingWhitespace newLine) file) eqn:H1; [|rewrite orb_false_l in Hc; rewrite Hc].
  - pose proof (starts_with_length _ _ H1).
    assert (Hi : forallb is_indent (drop (length (leadingWhitespace newLine)) file) = true).
    { apply starts_with_drop_indent. unfold file. by apply leadingWhitespace_indent. }
    rewrite (shift_line _ _ _ _ newLine); [|apply split_lines_no_LF|done|done].
    eexists. split; [done|]. rewrite reindent_length by (done || lia). rewrite length_drop. unfold file in *. lia.
  - pose proof (starts_with_length _ _ Hc).
    rewrite (shift_line _ _ _ _ newLine); [|apply split_lines_no_LF|done|done].
    eexists. split; [done|]. rewrite reindent_length by (done || lia). cbn. unfold file in *. lia.
Qed.
