(* ===== verification/EditOverlay.v ===== *)
(** Replacements on a normalized text laid over the original lines: the lines no replacement
    touches are the original's. *)
From S2P Require Import Prelude JsString EditText EditDiff EditFacts.
From Stdlib Require Import Sorted.

(** ** Positions of lines *)

Section Positions.
Context (lines : list text) (Hne : Forall (fun l => l <> []) lines).

(** Where the line [k] starts. *)
Definition line_pos (k : nat) : nat := length (concat (take k lines)).

Lemma line_pos_S k l : lines !! k = Some l -> line_pos (S k) = line_pos k + length l.
Proof. intros Hl. unfold line_pos. rewrite (take_S_r _ _ _ Hl), concat_app, length_app. cbn. by rewrite app_nil_r. Qed.

Lemma line_pos_lt_S k : k < length lines -> line_pos k < line_pos (S k).
Proof.
  intros [l Hl]%lookup_lt_is_Some_2. rewrite (line_pos_S _ _ Hl).
  assert (l <> []) by (by eapply (Forall_lookup_1 _ _ _ _ Hne Hl)). destruct l; [done|cbn; lia].
Qed.

Lemma line_pos_lt j k : j < k -> k <= length lines -> line_pos j < line_pos k.
Proof.
  intros Hjk Hk. induction Hjk as [|k Hjk IH]; [by apply line_pos_lt_S|].
  etransitivity; [apply IH; lia|]. by apply line_pos_lt_S.
Qed.

Lemma line_pos_le j k : j <= k -> k <= length lines -> line_pos j <= line_pos k.
Proof. intros Hjk Hk. destruct (decide (j = k)) as [->|]; [done|]. apply Nat.lt_le_incl, line_pos_lt; lia. Qed.

Lemma line_pos_cancel j k : line_pos j < line_pos k -> k <= length lines -> j <= length lines -> j < k.
Proof. intros H Hk Hj. destruct (Nat.lt_ge_cases j k) as [|Hge]; [done|]. pose proof (line_pos_le k j Hge Hj). lia. Qed.

Lemma line_pos_all : line_pos (length lines) = length (concat lines).
Proof. unfold line_pos. by rewrite take_ge. Qed.

Lemma line_spans_lookup offset ls k :
  line_spans offset ls !! k
  = (fun l => {| ls_start := offset + length (concat (take k ls));
                 ls_end := offset + length (concat (take k ls)) + length l |}) <$> ls !! k.
Proof.
  revert offset k; induction ls as [|l ls IH]; intros offset [|k]; cbn; [done|done|by rewrite Nat.add_0_r|].
  rewrite IH. destruct (ls !! k); cbn; [|done]. rewrite length_app. f_equal. f_equal; lia.
Qed.

(** The spans of the lines, by their positions. *)
Lemma spans_lookup k :
  line_spans 0 lines !! k
  = if decide (k < length lines) then Some {| ls_start := line_pos k; ls_end := line_pos (S k) |} else None.
Proof.
  rewrite line_spans_lookup. case_decide as Hk.
  - apply lookup_lt_is_Some_2 in Hk as [l Hl]. rewrite Hl, (line_pos_S _ _ Hl). done.
  - rewrite lookup_ge_None_2 by lia. done.
Qed.

Lemma line_spans_length : length (line_spans 0 lines) = length lines.
Proof. generalize 0. induction lines as [|l ls IH]; intros n; cbn; [done|]. inversion Hne; subst. by rewrite IH. Qed.

Lemma line_slice k l : lines !! k = Some l -> l = slice (line_pos k) (line_pos (S k)) (concat lines).
Proof.
  intros Hl. rewrite (line_pos_S _ _ Hl). rewrite <- (take_drop_middle _ _ _ Hl).
  unfold slice. rewrite concat_app, drop_app_length' by done. cbn. by rewrite take_app_length' by lia.
Qed.
End Positions.
#[global] Arguments line_pos : simpl never.

(** ** The lines a replacement touches *)

Section Touched.
Context (base : text).
Abbreviation lines := (splitLinesWithEndings base).
Abbreviation pos := (line_pos lines).

Lemma lines_ne : Forall (fun l => l <> []) lines.
Proof. apply splitLinesWithEndings_nonempty. Qed.

Lemma pos_all : pos (length lines) = length base.
Proof. rewrite line_pos_all. by rewrite splitLinesWithEndings_concat. Qed.

(** The replacement starts on the line [k], or starts before it and reaches into it. *)
Definition touches (r : MatchedEdit) (k : nat) : Prop :=
  k < length lines /\
  (pos k <= matchIndex r < pos (S k) \/ matchIndex r < pos k < matchIndex r + matchLength r).

Lemma start_line_spec spans start i a :
  start_line spans start i = Some a ->
  i <= a /\ exists s, spans !! (a - i) = Some s /\ ls_start s <= start < ls_end s.
Proof.
  revert i; induction spans as [|s spans IH]; intros i; cbn [start_line]; [done|].
  destruct (_ && _) eqn:E.
  - intros [= ->]. split; [done|]. exists s. rewrite Nat.sub_diag. split; [done|]. bool_to_prop. lia.
  - intros (Hi & s' & Hs & H)%IH. split; [lia|]. exists s'. replace (a - i) with (S (a - S i)) by lia. done.
Qed.

Lemma end_line_spec spans e i b :
  end_line spans e i = Some b ->
  i <= b /\ (exists s, spans !! (b - i) = Some s /\ e <= ls_end s) /\
  forall k s, k < b - i -> spans !! k = Some s -> ls_end s < e.
Proof.
  revert i; induction spans as [|s spans IH]; intros i; cbn [end_line]; [done|].
  destruct (Nat.ltb_spec (ls_end s) e).
  - intros (Hi & (s' & Hs & He) & Hlt)%IH. split; [lia|]. split.
    + exists s'. replace (b - i) with (S (b - S i)) by lia. done.
    + intros [|k] s'' Hk; cbn [lookup list_lookup]; [by intros [= <-]|]. apply Hlt. lia.
  - intros [= ->]. split; [done|]. split; [exists s; by rewrite Nat.sub_diag|]. lia.
Qed.

(** The range is exactly the lines the replacement touches. *)
Lemma line_range_spec r a b :
  getReplacementLineRange (getLineSpans base) r = Ok (a, b) ->
  a < b /\ b <= length lines /\ pos a <= matchIndex r < pos (S a) /\ matchIndex r + matchLength r <= pos b /\
  forall k, a <= k < b <-> touches r k.
Proof.
  unfold getReplacementLineRange, getLineSpans. intros H. inv_res. 
  apply start_line_spec in Hv as (_ & s & Hs & Hstart). rewrite Nat.sub_0_r in Hs.
  rewrite spans_lookup in Hs. case_decide as Ha; [|done]. injection Hs as <-. cbn in Hstart.
  apply end_line_spec in Hv0 as (Hge & (s & Hs & He) & Hlt). rewrite lookup_drop in Hs.
  replace (a + (v0 - a)) with v0 in Hs by lia. rewrite spans_lookup in Hs. case_decide as Hb; [|done].
  injection Hs as <-. cbn in He. split; [lia|]. split; [lia|]. split; [done|]. split; [done|].
  intros k. unfold touches. split.
  - intros Hk. split; [lia|]. destruct (decide (k = a)) as [->|]; [by left|]. right. split.
    + pose proof (line_pos_le _ lines_ne (S a) k ltac:(lia) ltac:(lia)). lia.
    + specialize (Hlt (k - 1 - a) {| ls_start := pos (k - 1); ls_end := pos (S (k - 1)) |}). cbn in Hlt.
      replace (S (k - 1)) with k in Hlt by lia. apply Hlt; [lia|]. rewrite lookup_drop.
      replace (a + (k - 1 - a)) with (k - 1) by lia. rewrite spans_lookup, decide_True by lia.
      by replace (S (k - 1)) with k by lia.
  - intros [Hk [[H1 H2]|[H1 H2]]].
    + assert (a < S k) by (apply (line_pos_cancel _ lines_ne); lia).
      assert (k < S a) by (apply (line_pos_cancel _ lines_ne); lia). lia.
    + assert (a < k) by (apply (line_pos_cancel _ lines_ne); lia).
      assert (k < S v0) by (apply (line_pos_cancel _ lines_ne); lia). lia.
Qed.

(** ** The overlay *)

(** [overlay orig i rs out]: the text [out] from the line [i] on, with the replacements [rs]
    done. A line is the original's, or in a block that is rewritten from the base; a block
    is exactly the lines its replacements touch. *)
Inductive overlay (orig : list text) : nat -> list MatchedEdit -> text -> Prop :=
| overlay_end i : length orig <= i -> overlay orig i [] []
| overlay_line i line rs out : orig !! i = Some line -> overlay orig (S i) rs out -> overlay orig i rs (line ++ out)
| overlay_block i j rs1 rs2 out :
    rs1 <> [] -> i < j -> j <= length lines ->
    (forall k, i <= k < j <-> Exists (fun r => touches r k) rs1) ->
    apart (pos i) (pos j) rs1 -> overlay orig j rs2 out ->
    overlay orig i (rs1 ++ rs2) (spliced base (pos i) (pos j) rs1 ++ out).

Lemma overlay_rest orig i : overlay orig i [] (concat (drop i orig)).
Proof.
  remember (length orig - i) as n eqn:Hn. revert i Hn; induction n as [|n IH]; intros i Hn.
  - rewrite drop_ge by lia. apply overlay_end. lia.
  - destruct (orig !! i) as [line|] eqn:Hl; [|apply lookup_ge_None_1 in Hl; lia].
    rewrite (drop_S _ _ _ Hl). cbn. apply overlay_line; [done|]. apply IH. lia.
Qed.

Lemma overlay_lines orig i j rs out :
  i <= j -> j <= length orig -> overlay orig j rs out -> overlay orig i rs (concat (slice i j orig) ++ out).
Proof.
  intros Hij Hj Ho. induction Hij as [|j Hij IH] in Hj, out, Ho |- *; [by rewrite slice_nil|].
  destruct (lookup_lt_is_Some_2 orig j ltac:(lia)) as [line Hl].
  rewrite (slice_split i j (S j)), (slice_one _ _ _ Hl), concat_app by lia. cbn.
  rewrite app_nil_r, <- app_assoc. apply IH; [lia|]. by apply overlay_line.
Qed.

(** ** The groups *)

Record group_ok (g : Group) : Prop := {
  go_some : g_replacements g <> [];
  go_range : g_start g < g_end g;
  go_end : g_end g <= length lines;
  go_touched : forall k, g_start g <= k < g_end g <-> Exists (fun r => touches r k) (g_replacements g);
  go_apart : apart (pos (g_start g)) (pos (g_end g)) (g_replacements g);
}.

(** The groups in reverse: in order, apart, and holding the replacements handled so far. *)
Fixpoint groups_ok (gs : list Group) : Prop :=
  match gs with
  | [] => True
  | g :: gs' => group_ok g /\ match gs' with g' :: _ => g_end g' <= g_start g | [] => True end /\ groups_ok gs'
  end.

Definition grouped (gs : list Group) : list MatchedEdit := concat (g_replacements <$> rev gs).

Lemma apart_snoc p to r rs :
  apart p (matchIndex r) rs -> matchIndex r + matchLength r <= to -> apart p to (rs ++ [r]).
Proof.
  revert p; induction rs as [|r' rs IH]; cbn; intros p H Hto; [done|].
  destruct H as [H1 H2]. split; [done|]. by apply IH.
Qed.

Lemma apart_last p to r rs : apart p to (rs ++ [r]) -> apart p (matchIndex r) rs.
Proof. revert p; induction rs as [|r' rs IH]; cbn; intros p [H1 H2]; [done|]. split; [done|by apply IH]. Qed.

Lemma group_fresh r a b :
  getReplacementLineRange (getLineSpans base) r = Ok (a, b) ->
  group_ok {| g_start := a; g_end := b; g_replacements := [r] |}.
Proof.
  intros (Hab & Hb & Hstart & Hend & Ht)%line_range_spec. split; cbn; try done.
  - intros k. rewrite Ht. rewrite Exists_cons, Exists_nil. tauto.
  - split; lia.
Qed.

Lemma group_extend g r a b :
  group_ok g -> getReplacementLineRange (getLineSpans base) r = Ok (a, b) -> a < g_end g -> g_start g <= a ->
  apart (pos (g_start g)) (matchIndex r) (g_replacements g) ->
  group_ok {| g_start := g_start g; g_end := Nat.max (g_end g) b; g_replacements := g_replacements g ++ [r] |}.
Proof.
  intros Hg (Hab & Hb & Hstart & Hend & Ht)%line_range_spec Ha Hga Hap. destruct Hg as [H1 H2 H3 H4 H5].
  split; cbn.
  - by destruct (g_replacements g).
  - lia.
  - lia.
  - intros k. rewrite Exists_app, <- H4, Exists_cons, Exists_nil, <- Ht. lia.
  - apply apart_snoc; [done|]. etransitivity; [exact Hend|]. apply line_pos_le; [apply lines_ne|lia|lia].
Qed.

(** The replacements before [r] end where [r] starts, and those of the last group do. *)
Lemma group_step_ok gs r rs to gs' :
  groups_ok gs -> apart 0 to (grouped gs ++ r :: rs) -> group_step (getLineSpans base) gs r = Ok gs' ->
  groups_ok gs' /\ grouped gs' = grouped gs ++ [r].
Proof.
  intros Hgs Hap H. unfold group_step in H.
  apply res_bind_Ok in H as ([a b] & Hv & H). cbn beta iota zeta in H.
  pose proof (group_fresh _ _ _ Hv) as Hfresh. pose proof (line_range_spec _ _ _ Hv) as (Hab & Hb & Hstart & _ & _).
  destruct gs as [|g gs]; [injection H as <-; done|]. cbn in Hgs. destruct Hgs as (Hg & Hord & Hgs).
  assert (Hlast : apart 0 (matchIndex r) (grouped gs ++ g_replacements g)).
  { apply (apart_last _ to). unfold grouped in Hap. cbn [rev] in Hap. rewrite fmap_app, concat_app in Hap. cbn in Hap.
    rewrite app_nil_r in Hap. rewrite cons_middle, app_assoc in Hap.
    apply apart_app in Hap as [Hap _]. exact Hap. }
  assert (Hg' : apart (pos (g_start g)) (matchIndex r) (g_replacements g)).
  { apply apart_app in Hlast as (_ & mid & _ & _ & Hm). pose proof (go_apart _ Hg) as H5.
    pose proof (go_some _ Hg) as Hs. destruct (g_replacements g) as [|r0 rs0]; [done|]. cbn in *. tauto. }
  assert (Hge : g_start g <= a).
  { pose proof (apart_le _ _ _ Hg') as Hle. pose proof (go_range _ Hg). pose proof (go_end _ Hg).
    assert (g_start g < S a) by (apply (line_pos_cancel _ lines_ne); lia). lia. }
  destruct (Nat.ltb_spec a (g_end g)); injection H as <-.
  - split.
    + cbn. split; [by eapply group_extend|]. done.
    + unfold grouped. cbn [rev]. rewrite !fmap_app, !concat_app. cbn. by rewrite !app_nil_r, app_assoc.
  - split; [by cbn|]. unfold grouped. cbn [rev]. rewrite !fmap_app, !concat_app. cbn. by rewrite !app_nil_r.
Qed.

Lemma groups_fold_ok rs gs to gs' :
  groups_ok gs -> apart 0 to (grouped gs ++ rs) -> res_foldl (group_step (getLineSpans base)) gs rs = Ok gs' ->
  groups_ok gs' /\ grouped gs' = grouped gs ++ rs.
Proof.
  revert gs; induction rs as [|r rs IH]; intros gs Hgs Hap H.
  - cbn in H. injection H as <-. by rewrite app_nil_r.
  - cbn [res_foldl] in H. apply res_bind_Ok in H as (gs1 & H1 & H).
    destruct (group_step_ok _ _ _ _ _ Hgs Hap H1) as [Hgs1 Heq].
    destruct (IH gs1 Hgs1) as [H2 H3]; [by rewrite Heq, <- app_assoc|done|].
    split; [done|]. by rewrite H3, Heq, <- app_assoc.
Qed.

Lemma rewrite_groups_overlay orig i gs :
  length orig = length lines -> (forall g, g ∈ gs -> group_ok g) ->
  (fix ordered i gs := match gs with [] => True | g :: gs' => i <= g_start g /\ ordered (g_end g) gs' end) i gs ->
  overlay orig i (concat (g_replacements <$> gs)) (rewrite_groups orig (getLineSpans base) base i gs).
Proof.
  intros Hlen. revert i; induction gs as [|g gs IH]; intros i Hok Hord; [apply overlay_rest|].
  destruct Hord as [Hi Hord]. pose proof (Hok g ltac:(by left)) as [H1 H2 H3 H4 H5].
  cbn [rewrite_groups fmap list_fmap concat]. apply overlay_lines; [done|lia|].
  unfold getLineSpans. rewrite !spans_lookup, !decide_True by lia. cbn [default fmap option_fmap option_map ls_start ls_end].
  replace (S (g_end g - 1)) with (g_end g) by lia.
  rewrite applyReplacements_spliced.
  - apply overlay_block; try done. apply IH; [|done]. intros g' Hg'. apply Hok. by right.
  - done.
  - rewrite <- pos_all. by apply line_pos_le; [apply lines_ne|lia|].
Qed.

Lemma groups_ordered gs hd :
  groups_ok gs -> match gs with g :: _ => g_end g <= hd | [] => True end ->
  forall tail, (fix ordered i gs := match gs with [] => True | g :: gs' => i <= g_start g /\ ordered (g_end g) gs' end) hd tail ->
  (fix ordered i gs := match gs with [] => True | g :: gs' => i <= g_start g /\ ordered (g_end g) gs' end) 0 (rev gs ++ tail).
Proof.
  revert hd; induction gs as [|g gs IH]; intros hd Hgs Hhd tail Ht; cbn.
  - destruct tail as [|g' tail]; [done|]. split; [lia|]. apply Ht.
  - destruct Hgs as (Hg & Hord & Hgs). rewrite <- app_assoc. cbn. eapply IH; [done| |].
    + destruct gs; [done|]. exact Hord.
    + cbn. split; [done|]. destruct tail as [|g' tail]; [done|]. destruct Ht as [Ht1 Ht2]. split; [lia|done].
Qed.

Lemma groups_ok_elem gs g : groups_ok gs -> g ∈ gs -> group_ok g.
Proof.
  induction gs as [|g' gs IH]; [by intros _ ?%elem_of_nil|]. intros (Hg & _ & Hgs) [->|Hin]%elem_of_cons; [done|].
  by apply IH.
Qed.

(** What [applyReplacementsPreservingUnchangedLines] returns. *)
Lemma preserving_overlay original rs out :
  apart 0 (length base) (sort_by_index rs) ->
  applyReplacementsPreservingUnchangedLines original base rs = Ok out ->
  length (splitLinesWithEndings original) = length lines /\
  overlay (splitLinesWithEndings original) 0 (sort_by_index rs) out.
Proof.
  intros Hap H. unfold applyReplacementsPreservingUnchangedLines in H.
  apply res_bind_Ok in H as ([] & Hc & H). apply check_Ok in Hc. apply Nat.eqb_eq in Hc.
  apply res_bind_Ok in H as (gs & Hgs & H). injection H as <-.
  unfold getLineSpans in Hc. rewrite (line_spans_length _ lines_ne) in Hc. split; [done|].
  destruct (groups_fold_ok _ [] (length base) gs I Hap Hgs) as [Hok Heq].
  cbn in Heq. rewrite <- Heq. unfold grouped. apply rewrite_groups_overlay; [done| |].
  - intros g Hg. apply (groups_ok_elem gs); [done|]. apply list_elem_of_In, in_rev. by apply list_elem_of_In in Hg.
  - rewrite <- (app_nil_r (rev gs)). eapply (groups_ordered gs (match gs with g :: _ => g_end g | [] => 0 end)); [done| |done].
    by destruct gs.
Qed.

(** ** On its own lines the overlay is the replacement *)

Lemma spliced_app p mid to rs1 rs2 :
  apart p mid rs1 -> apart mid to rs2 ->
  spliced base p to (rs1 ++ rs2) = spliced base p mid rs1 ++ spliced base mid to rs2.
Proof.
  revert p; induction rs1 as [|r rs1 IH]; intros p H1 H2.
  - cbn in *. pose proof (apart_le _ _ _ H2). destruct rs2 as [|r rs2]; cbn.
    + by apply slice_split.
    + destruct H2 as [H2 _]. rewrite (slice_split p mid) by lia. by rewrite <- app_assoc.
  - cbn in *. destruct H1 as [H0 H1]. rewrite IH by done. by rewrite <- !app_assoc.
Qed.

Lemma overlay_apart orig i rs out :
  length orig = length lines -> i <= length lines -> overlay orig i rs out -> apart (pos i) (length base) rs.
Proof.
  intros Hlen Hi Ho. induction Ho as [i Hge|i line rs out Hl _ IH|i j rs1 rs2 out Hn Hij Hj _ Hap _ IH].
  - cbn. rewrite <- pos_all. by apply line_pos_le; [apply lines_ne| |].
  - apply lookup_lt_Some in Hl. eapply apart_weaken; [apply IH; lia|].
    apply Nat.lt_le_incl, line_pos_lt_S; [apply lines_ne|lia].
  - specialize (IH Hj). clear -Hap IH. revert Hap. generalize (pos i).
    induction rs1 as [|r rs1 IHr]; intros p Hap; cbn in *; [by eapply apart_weaken|].
    destruct Hap as [H1 H2]. split; [done|]. by apply IHr.
Qed.

Lemma overlay_same i rs out :
  i <= length lines -> overlay lines i rs out -> out = spliced base (pos i) (length base) rs.
Proof.
  intros Hi Ho. assert (Hbase : forall k line, lines !! k = Some line -> line = slice (pos k) (pos (S k)) base).
  { intros k line Hl%line_slice. by rewrite splitLinesWithEndings_concat in Hl. }
  induction Ho as [i Hge|i line rs out Hl Ho IH|i j rs1 rs2 out Hn Hij Hj Ht Hap Ho IH].
  - cbn. replace i with (length lines) by lia. rewrite pos_all. by rewrite slice_nil.
  - pose proof (lookup_lt_Some _ _ _ Hl) as Hlt. rewrite IH by lia. rewrite (Hbase _ _ Hl).
    assert (Ha : apart (pos (S i)) (length base) rs) by (eapply overlay_apart; [done|lia|done]).
    assert (Hle : pos i <= pos (S i)) by (apply Nat.lt_le_incl, line_pos_lt_S; [apply lines_ne|done]).
    pose proof (spliced_app (pos i) (pos (S i)) (length base) [] rs Hle Ha) as Hs. cbn in Hs. by rewrite Hs.
  - rewrite IH by done. symmetry. apply spliced_app; [done|]. by eapply overlay_apart.
Qed.
End Touched.

(** With the original as the base, keeping untouched lines is plain replacement. *)
Lemma preserving_same base rs out :
  apart 0 (length base) (sort_by_index rs) ->
  applyReplacementsPreservingUnchangedLines base base rs = Ok out ->
  out = applyReplacements base (sort_by_index rs) 0.
Proof.
  intros Ha H. rewrite applyReplacements_whole by done.
  destruct (preserving_overlay base base rs out Ha H) as [_ Ho].
  apply overlay_same in Ho; [done|lia].
Qed.
