(* ===== verification/EditMatch.v ===== *)
(** What the edits are matched to: exact occurrences, or ranges that read as the old text
    once white space and typographic characters are normalized. *)
From S2P Require Import Prelude JsString EditText EditDiff EditFacts EditOverlay.
From Stdlib Require Import Sorted.

(** ** Normalizing twice *)

Lemma fold_space_hit c :
  (c =? 160)%N || in_range_N 8194 8202 c || (c =? 8239)%N || (c =? 8287)%N || (c =? 12288)%N = true ->
  is_space c = true.
Proof.
  unfold is_space, in_range_N. rewrite !orb_true_iff, !andb_true_iff, !N.leb_le, !N.eqb_eq. lia.
Qed.

(** A character is folded to one of four, a space only from a space, or stays. *)
Lemma fold_char_cases c :
  fold_char c = 39%N \/ fold_char c = 34%N \/ fold_char c = 45%N \/ (fold_char c = 32%N /\ is_space c = true) \/
  fold_char c = c.
Proof.
  unfold fold_char. unfold fold_single_quote. destruct (in_range_N 8216 8219 c); [by left|].
  unfold fold_double_quote. destruct (in_range_N 8220 8223 c); [by right; left|].
  unfold fold_dash. destruct (_ || _); [by do 2 right; left|].
  unfold fold_space. destruct (_ || _) eqn:E; [|by do 4 right]. do 3 right. left. split; [done|].
  by apply fold_space_hit.
Qed.

Lemma fold_char_idem c : fold_char (fold_char c) = fold_char c.
Proof. destruct (fold_char_cases c) as [->|[->|[->|[[-> _]|H]]]]; [done..|]. by rewrite !H. Qed.

Lemma fold_char_LF c : fold_char c = LF <-> c = LF.
Proof.
  split; [|by intros ->]. destruct (fold_char_cases c) as [->|[->|[->|[[-> _]|H]]]]; [done..|]. by rewrite H.
Qed.

Lemma fold_char_space c : is_space c = false -> is_space (fold_char c) = false.
Proof. destruct (fold_char_cases c) as [->|[->|[->|[[-> H]|H]]]]; [done..|congruence|]. by rewrite H. Qed.

Lemma fold_lines (t : text) : split_lines (fold_char <$> t) = (fun l : text => fold_char <$> l) <$> split_lines t.
Proof.
  induction t as [|c t IH]; [done|]. rewrite fmap_cons. cbn [split_lines]. destruct (N.eqb_spec c LF) as [->|Hc].
  - change (fold_char LF =? LF)%N with true. by rewrite IH.
  - destruct (N.eqb_spec (fold_char c) LF) as [H|]; [by apply (proj1 (fold_char_LF c)) in H|].
    rewrite IH. by destruct (split_lines t).
Qed.

Lemma trimStart_head t : match trimStart t with c :: _ => is_space c = false | [] => True end.
Proof. induction t as [|c t IH]; cbn; [done|]. by destruct (is_space c) eqn:E. Qed.

Lemma trimStart_id t : match t with c :: _ => is_space c = false | [] => True end -> trimStart t = t.
Proof. destruct t as [|c t]; [done|]. cbn. by intros ->. Qed.

Lemma trimEnd_fold (l : text) : trimEnd (fold_char <$> trimEnd l) = fold_char <$> trimEnd l.
Proof.
  unfold trimEnd. rewrite !fmap_rev, rev_involutive. rewrite trimStart_id; [done|].
  pose proof (trimStart_head (rev l)) as H. destruct (trimStart (rev l)) as [|c t]; [done|]. cbn.
  by apply fold_char_space.
Qed.

Lemma trimEnd_no_LF l : LF ∉ l -> LF ∉ trimEnd l.
Proof.
  unfold trimEnd. intros Hl H. apply Hl. rewrite <- (rev_involutive l).
  apply list_elem_of_In, in_rev. rewrite rev_involutive. apply list_elem_of_In, in_rev, list_elem_of_In in H.
  apply list_elem_of_In. revert H. generalize (rev l) as k. induction k as [|c k IH]; cbn; [done|].
  destruct (is_space c); [|done]. intros ?%IH. by right.
Qed.

Section Matches.
Context (nfkc : text -> text).

(** Text that is folded and trimmed is in normal form: [normalize("NFKC")] leaves a text
    that is already normalized as it is, also where white space was cut from the end of
    lines and typographic characters became ASCII. *)
Definition nfkc_stable : Prop := forall t, nfkc (normalizeForFuzzyMatch nfkc t) = normalizeForFuzzyMatch nfkc t.

Lemma normalize_lines t :
  split_lines (normalizeForFuzzyMatch nfkc t) = (fun l : text => fold_char <$> trimEnd l) <$> split_lines (nfkc t).
Proof.
  unfold normalizeForFuzzyMatch. rewrite fold_lines, split_join_lines, <- list_fmap_compose; [done| |].
  - intros H%fmap_nil_inv. by apply split_lines_nonempty in H.
  - apply Forall_fmap. eapply Forall_impl; [apply split_lines_no_LF|]. intros l. apply trimEnd_no_LF.
Qed.

Lemma normalize_idem t : nfkc_stable ->
  normalizeForFuzzyMatch nfkc (normalizeForFuzzyMatch nfkc t) = normalizeForFuzzyMatch nfkc t.
Proof.
  intros Hs. unfold normalizeForFuzzyMatch at 1. rewrite Hs, normalize_lines.
  rewrite <- list_fmap_compose.
  rewrite <- (join_split_lines (normalizeForFuzzyMatch nfkc t)), normalize_lines.
  assert (Hl : split_lines (fold_char <$> join_lines ((fun l : text => trimEnd (fold_char <$> trimEnd l)) <$> split_lines (nfkc t)))
    = (fun l : text => fold_char <$> trimEnd l) <$> split_lines (nfkc t)).
  { rewrite fold_lines, split_join_lines, <- list_fmap_compose.
    - apply list_fmap_ext. intros i l _. cbn. rewrite trimEnd_fold, <- list_fmap_compose.
      apply list_fmap_ext. intros j c _. apply fold_char_idem.
    - intros H%fmap_nil_inv. by apply split_lines_nonempty in H.
    - apply Forall_fmap. eapply Forall_impl; [apply split_lines_no_LF|]. intros l Hl.
      cbn. rewrite trimEnd_fold. intros (c & Hc%eq_sym & Hin)%list_elem_of_fmap. apply fold_char_LF in Hc as ->.
      by apply trimEnd_no_LF in Hin. }
  rewrite <- Hl. by rewrite join_split_lines.
Qed.

(** ** What an edit is matched to *)

(** The exact text of the edit, at its first place. *)
Definition exact_match (base : text) (e : Edit) (m : MatchedEdit) : Prop :=
  text_indexOf (oldText e) base = Some (matchIndex m) /\ matchLength m = length (oldText e) /\
  newText m = ed_newText e.

(** A range of the base that reads as the old text, both without indentation and
    normalized; the replacement differs from the new text in its indentation only. *)
Definition fuzzy_match (base : text) (e : Edit) (m : MatchedEdit) : Prop :=
  text_indexOf (oldText e) base = None /\ matchIndex m + matchLength m <= length base /\
  seen (in_indent true (take (matchIndex m) base)) (slice (matchIndex m) (matchIndex m + matchLength m) base)
  = normalizeForFuzzyMatchSearch (normalizeForFuzzyMatch nfkc (oldText e)) /\
  newText m = adjustReplacementIndentation base (matchIndex m) (oldText e) (ed_newText e) /\
  normalizeForFuzzyMatchSearch (newText m) = normalizeForFuzzyMatchSearch (ed_newText e).

(** There is something to find in the old text besides white space. *)
Definition visible_text (e : Edit) : Prop :=
  normalizeForFuzzyMatchSearch (normalizeForFuzzyMatch nfkc (oldText e)) <> [].

Lemma match_edit_exact base original path total i e m k :
  match_edit nfkc base original path total i e = Ok m -> text_indexOf (oldText e) base = Some k ->
  exact_match base e m /\ editIndex m = i /\ (countOccurrences nfkc base (oldText e) <= 1)%Z.
Proof.
  unfold match_edit, fuzzyFindText. intros H Hk. rewrite Hk in H.
  apply res_bind_Ok in H as (u1 & _ & H). apply res_bind_Ok in H as (u & Hc & H).
  apply check_Ok, negb_true_iff, Z.ltb_ge in Hc. injection H as <-. by repeat split.
Qed.

Lemma match_edit_fuzzy base original path total i e m :
  match_edit nfkc base original path total i e = Ok m -> text_indexOf (oldText e) base = None ->
  normalizeForFuzzyMatch nfkc base = base -> visible_text e ->
  fuzzy_match base e m /\ editIndex m = i /\ (countOccurrences nfkc base (oldText e) <= 1)%Z.
Proof.
  unfold match_edit, fuzzyFindText, visible_text. intros H Hk Hbase Hv. rewrite Hk, Hbase in H.
  set (old := normalizeForFuzzyMatchSearch (normalizeForFuzzyMatch nfkc (oldText e))) in *.
  destruct (text_indexOf old (normalizeForFuzzyMatchSearch base)) as [si|] eqn:Hsi; [|done].
  apply res_bind_Ok in H as (u1 & _ & H). apply res_bind_Ok in H as (u & Hc & H).
  apply check_Ok, negb_true_iff, Z.ltb_ge in Hc. injection H as <-. cbn [usedFuzzyMatch index fm_matchLength] in *.
  split; [|by split]. apply text_indexOf_Some, occurs_at_take_drop in Hsi as [Hold Hlen].
  rewrite search_seen in Hold, Hlen. assert (Hpos : 0 < length old) by (destruct old; [done|cbn; lia]).
  destruct (mapSearchRange_ok base si (length old) Hpos Hlen) as [Hr Hseen].
  split; [done|]. cbn [matchIndex matchLength newText]. split; [done|]. split; [|split; [done|apply adjust_seen]].
  rewrite Hseen. unfold slice. by replace (si + length old - si) with (length old) by lia.
Qed.

(** Every edit is matched, in its place of the list. *)
Lemma match_edits_spec base original path total i edits ms :
  match_edits nfkc base original path total i edits = Ok ms ->
  Forall2 (fun e m => exists j, match_edit nfkc base original path total j e = Ok m) edits ms /\
  (editIndex <$> ms) = seq i (length edits).
Proof.
  revert i ms; induction edits as [|e edits IH]; intros i ms H; cbn in H.
  - injection H as <-. done.
  - apply res_bind_Ok in H as (m & Hm & H). apply res_bind_Ok in H as (ms' & Hms & H). injection H as <-.
    destruct (IH _ _ Hms) as [IH1 IH2]. split.
    + constructor; [by eexists|done].
    + cbn. rewrite IH2. f_equal. unfold match_edit in Hm.
      apply res_bind_Ok in Hm as (? & _ & Hm). apply res_bind_Ok in Hm as (? & _ & Hm). by injection Hm as <-.
Qed.

Lemma exact_bound base e m : exact_match base e m -> matchIndex m + matchLength m <= length base.
Proof. intros (H & -> & _). by apply text_indexOf_Some, occurs_at_take_drop in H as [_ H]. Qed.

Lemma check_empty_nonempty total i edits u : check_empty total i edits = Ok u -> Forall (fun e => oldText e <> []) edits.
Proof.
  revert i; induction edits as [|e edits IH]; intros i H; [done|]. cbn in H.
  apply res_bind_Ok in H as (v & Hv & H). apply check_Ok, negb_true_iff, Nat.eqb_neq in Hv.
  constructor; [by destruct (oldText e)|by eapply IH].
Qed.

(** Whether some edit is not in the content as it is. *)
Definition fuzzy_run (content : text) (edits : list Edit) : bool :=
  existsb (fun e => usedFuzzyMatch (fuzzyFindText nfkc content (oldText e))) (normalize_edit <$> edits).

(** The text the edits are matched against. *)
Definition match_base (content : text) (edits : list Edit) : text :=
  if fuzzy_run content edits then normalizeForFuzzyMatch nfkc content else content.

Lemma found_exact content e :
  usedFuzzyMatch (fuzzyFindText nfkc content (oldText e)) = false -> found (fuzzyFindText nfkc content (oldText e)) = true ->
  is_Some (text_indexOf (oldText e) content).
Proof.
  unfold fuzzyFindText. destruct (text_indexOf (oldText e) content); [by eexists|].
  by destruct (text_indexOf _ (normalizeForFuzzyMatchSearch _)).
Qed.

(** What the parts of a successful run are. *)
Lemma edits_parts content edits path r :
  applyEditsToNormalizedContent nfkc content edits path = Ok r ->
  exists ms,
    Forall (fun e => oldText e <> []) (normalize_edit <$> edits) /\
    Forall2 (fun e m => exists j, match_edit nfkc (match_base content edits) content path (length edits) j e = Ok m)
      (normalize_edit <$> edits) ms /\
    editIndex <$> ms = seq 0 (length edits) /\
    (exists u, check_overlap (sort_by_index ms) = Ok u) /\
    (if fuzzy_run content edits
     then applyReplacementsPreservingUnchangedLines content (match_base content edits) (sort_by_index ms)
     else Ok (applyReplacements (match_base content edits) (sort_by_index ms) 0)) = Ok (newContent r) /\
    baseContent r = content /\ newContent r <> content.
Proof.
  unfold applyEditsToNormalizedContent. fold (fuzzy_run content edits). fold (match_base content edits). intros H.
  apply res_bind_Ok in H as (u & He & H). apply res_bind_Ok in H as (ms & Hms & H).
  apply res_bind_Ok in H as (u2 & Ho & H). apply res_bind_Ok in H as (nc & Hnc & H).
  apply res_bind_Ok in H as (u3 & Hd & H). injection H as <-. exists ms. cbn.
  apply check_Ok, negb_true_iff, bool_decide_eq_false in Hd.
  split; [by eapply check_empty_nonempty|]. apply match_edits_spec in Hms as [Hms Hi]. rewrite length_fmap in Hi.
  split; [done|]. split; [done|]. split; [by eexists|]. split; [done|]. split; [done|congruence].
Qed.

(** The matches of a run without fuzzy matches are exact. *)
Lemma exact_run_matches content edits path ms :
  fuzzy_run content edits = false ->
  Forall2 (fun e m => exists j, match_edit nfkc (match_base content edits) content path (length edits) j e = Ok m)
    (normalize_edit <$> edits) ms ->
  Forall2 (fun e m => exact_match content e m /\ (countOccurrences nfkc content (oldText e) <= 1)%Z)
    (normalize_edit <$> edits) ms.
Proof.
  intros Hf Hms. unfold match_base in Hms. rewrite Hf in Hms.
  assert (Hall : Forall (fun e => usedFuzzyMatch (fuzzyFindText nfkc content (oldText e)) = false) (normalize_edit <$> edits)).
  { apply List.Forall_forall. intros e He. unfold fuzzy_run in Hf.
    destruct (usedFuzzyMatch _) eqn:E; [|done]. rewrite <- Hf. symmetry. apply existsb_exists. by exists e. }
  induction Hms as [|e m es ms [j Hj] Hms IH]; [constructor|].
  apply Forall_cons in Hall as [He Hall]. constructor; [|by apply IH].
  destruct (found_exact content e He) as [k Hk].
  { unfold match_edit in Hj. apply res_bind_Ok in Hj as (u & Hu & _). by apply check_Ok in Hu. }
  destruct (match_edit_exact _ _ _ _ _ _ _ _ Hj Hk) as (? & _ & ?). done.
Qed.

Lemma matches_apart n ms u :
  Forall (fun m => matchIndex m + matchLength m <= n) ms -> check_overlap (sort_by_index ms) = Ok u ->
  apart 0 n (sort_by_index ms).
Proof.
  intros Hb Hc. destruct (sort_by_index_spec ms) as [Hs Hp]. eapply checked_apart; [done| |exact Hc].
  by rewrite Hp.
Qed.
End Matches.

Lemma sort_sorted rs : Sorted index_le rs -> sort_by_index rs = rs.
Proof.
  induction rs as [|r rs IH]; [done|]. intros [Hs Hh]%Sorted_inv. change (insert_by_index r (sort_by_index rs) = r :: rs). rewrite IH by done.
  destruct Hh as [|r' rs Hle]; [done|]. cbn. by rewrite (proj2 (Nat.leb_le _ _) Hle).
Qed.

Lemma sort_sort rs : sort_by_index (sort_by_index rs) = sort_by_index rs.
Proof. apply sort_sorted, sort_by_index_spec. Qed.
