(* ===== verification/EditShown.v ===== *)
(** What the edit tool shows and writes: the diff that is shown, against a reference (every
    line of the diff with its number, of the unchanged lines those next to a change); and
    that no step puts a carriage return in the text, so that the ending of the file is the one
    it is written back with. *)
From S2P Require Import Prelude JsString EditText EditDiff EditFacts EditOverlay EditMatch.

(** ** The reference *)

Fixpoint numbered (f : nat -> text -> Shown) (k : nat) (ls : list text) : list Shown :=
  match ls with [] => [] | l :: ls' => f k l :: numbered f (S k) ls' end.

(** The line [j] of [total] unchanged lines is near a change before or after them. *)
Definition near (c : nat) (before after : bool) (total j : nat) : bool :=
  (before && (j <? c)) || (after && (total - c <=? j)).

Fixpoint near_lines (c : nat) (before after : bool) (total k j : nat) (ls : list text) : list Shown :=
  match ls with
  | [] => []
  | l :: ls' =>
      if near c before after total j then SContext (k + j) l :: near_lines c before after total k (S j) ls'
      else near_lines c before after total k (S j) ls'
  end.

Definition head_is_change (parts : list Part) : bool := match parts with p :: _ => is_change p | [] => false end.

(** [o] and [n] number the next line of the old and of the new text. *)
Fixpoint reference (c : nat) (before : bool) (o n : nat) (parts : list Part) : list Shown :=
  match parts with
  | [] => []
  | p :: parts' =>
      let ls := part_lines p in
      (if pt_added p then numbered SAdded n ls
       else if pt_removed p then numbered SRemoved o ls
       else near_lines c before (head_is_change parts') (length ls) o 0 ls)
      ++ reference c (is_change p) (if pt_added p then o else o + length ls)
           (if negb (pt_added p) && pt_removed p then n else n + length ls) parts'
  end.

Definition is_line (s : Shown) : bool := match s with SSkipped => false | _ => true end.

(** ** Lemmas on the reference *)

Lemma near_lines_app c b a total k j ls1 ls2 :
  near_lines c b a total k j (ls1 ++ ls2)
  = near_lines c b a total k j ls1 ++ near_lines c b a total k (j + length ls1) ls2.
Proof.
  revert j; induction ls1 as [|l ls1 IH]; intros j; cbn [near_lines app length]; [by rewrite Nat.add_0_r|].
  rewrite IH. replace (S j + length ls1) with (j + S (length ls1)) by lia. by destruct (near _ _ _ _ _).
Qed.

Lemma near_lines_all c b a total k j ls :
  (forall i, j <= i < j + length ls -> near c b a total i = true) ->
  near_lines c b a total k j ls = numbered SContext (k + j) ls.
Proof.
  revert j; induction ls as [|l ls IH]; intros j H; [done|]. cbn [near_lines numbered length] in *.
  rewrite H by lia. f_equal. rewrite IH; [by rewrite Nat.add_succ_r|]. intros i Hi. apply H. lia.
Qed.

Lemma near_lines_none c b a total k j ls :
  (forall i, j <= i < j + length ls -> near c b a total i = false) -> near_lines c b a total k j ls = [].
Proof.
  revert j; induction ls as [|l ls IH]; intros j H; [done|]. cbn [near_lines length] in *.
  rewrite H by lia. apply IH. intros i Hi. apply H. lia.
Qed.

(** ** The loops *)

(** What a step does to the state but for the markers of skipped lines. *)
Definition shows (st st' : DiffState) (out : list Shown) (o n : nat) : Prop :=
  List.filter is_line (ds_output st') = List.filter is_line (ds_output st) ++ out /\
  ds_oldLineNum st' = ds_oldLineNum st + o /\ ds_newLineNum st' = ds_newLineNum st + n /\
  ds_lastWasChange st' = ds_lastWasChange st /\ ds_firstChangedLine st' = ds_firstChangedLine st.

Lemma shows_nil st : shows st st [] 0 0.
Proof. unfold shows. rewrite app_nil_r. by rewrite !Nat.add_0_r. Qed.

Lemma shows_trans st1 st2 st3 out1 out2 o1 o2 n1 n2 :
  shows st1 st2 out1 o1 n1 -> shows st2 st3 out2 o2 n2 -> shows st1 st3 (out1 ++ out2) (o1 + o2) (n1 + n2).
Proof.
  intros (H1 & H2 & H3 & H4 & H5) (J1 & J2 & J3 & J4 & J5). unfold shows.
  rewrite J1, J2, J3, J4, J5, H1, H2, H3, H4, H5, <- app_assoc. split_and!; by rewrite ?Nat.add_assoc.
Qed.

Lemma shows_changed added ls st :
  shows st (foldl (show_changed added) st ls)
    (if added then numbered SAdded (ds_newLineNum st) ls else numbered SRemoved (ds_oldLineNum st) ls)
    (if added then 0 else length ls) (if added then length ls else 0).
Proof.
  revert st; induction ls as [|l ls IH]; intros st; cbn [foldl].
  - destruct added; apply shows_nil.
  - assert (H : shows st (show_changed added st l)
      [if added then SAdded (ds_newLineNum st) l else SRemoved (ds_oldLineNum st) l]
      (if added then 0 else 1) (if added then 1 else 0)).
    { unfold shows, show_changed. destruct added; cbn; rewrite List.filter_app; split_and!; done || lia. }
    pose proof (shows_trans _ _ _ _ _ _ _ _ _ H (IH _)) as Hs. by destruct added.
Qed.

Lemma shows_context ls st :
  shows st (foldl show_context st ls) (numbered SContext (ds_oldLineNum st) ls) (length ls) (length ls).
Proof.
  revert st; induction ls as [|l ls IH]; intros st; cbn [foldl]; [apply shows_nil|].
  assert (H : shows st (show_context st l) [SContext (ds_oldLineNum st) l] 1 1).
  { unfold shows, show_context. cbn; rewrite List.filter_app; split_and!; done || lia. }
  by pose proof (shows_trans _ _ _ _ _ _ _ _ _ H (IH _)).
Qed.

Lemma shows_skip b n st : shows st (skip_lines b n st) [] n n.
Proof.
  unfold shows, skip_lines. destruct b; cbn; rewrite ?List.filter_app, app_nil_r; cbn; by rewrite ?app_nil_r.
Qed.

(** Lines shown up to [x] and from [y] on, and skipped between them. *)
Lemma near_lines_parts c b a k ls x y :
  x <= y -> y <= length ls ->
  (forall i, i < x -> near c b a (length ls) i = true) ->
  (forall i, x <= i < y -> near c b a (length ls) i = false) ->
  (forall i, y <= i < length ls -> near c b a (length ls) i = true) ->
  near_lines c b a (length ls) k 0 ls = numbered SContext k (take x ls) ++ numbered SContext (k + y) (drop y ls).
Proof.
  intros Hxy Hy H1 H2 H3.
  assert (Hls : ls = take x ls ++ take (y - x) (drop x ls) ++ drop y ls).
  { replace y with (x + (y - x)) at 2 by lia. rewrite <- drop_drop, take_drop. by rewrite take_drop. }
  rewrite Hls at 2. rewrite !near_lines_app, !length_take, length_drop.
  rewrite (near_lines_all _ _ _ _ _ 0), Nat.add_0_r, (near_lines_none _ _ _ _ _ (0 + _)), (near_lines_all _ _ _ _ _ (_ + _)).
  - cbn [app]. f_equal. f_equal. lia.
  - intros i. rewrite length_drop. intros Hi. apply H3. lia.
  - intros i. rewrite length_take, length_drop. intros Hi. apply H2. lia.
  - intros i. rewrite length_take. intros Hi. apply H1. lia.
Qed.

Lemma near_true c b a total i : (b = true /\ i < c) \/ (a = true /\ total - c <= i) -> near c b a total i = true.
Proof.
  unfold near. rewrite orb_true_iff, !andb_true_iff, Nat.ltb_lt, Nat.leb_le. done.
Qed.

Lemma near_false c b a total i : (b = true -> c <= i) -> (a = true -> i < total - c) -> near c b a total i = false.
Proof.
  intros H1 H2. unfold near. rewrite orb_false_iff, !andb_false_iff, Nat.ltb_ge, Nat.leb_gt.
  destruct b, a; naive_solver.
Qed.

Lemma shows_parts c b a raw st st1 st2 st3 x y :
  x <= y -> y <= length raw ->
  (forall i, i < x -> near c b a (length raw) i = true) ->
  (forall i, x <= i < y -> near c b a (length raw) i = false) ->
  (forall i, y <= i < length raw -> near c b a (length raw) i = true) ->
  st1 = foldl show_context st (take x raw) ->
  shows st1 st2 [] (y - x) (y - x) ->
  st3 = foldl show_context st2 (drop y raw) ->
  shows st st3 (near_lines c b a (length raw) (ds_oldLineNum st) 0 raw) (length raw) (length raw).
Proof.
  intros Hxy Hy H1 H2 H3 -> Hs ->.
  pose proof (shows_context (take x raw) st) as Hc1. pose proof (shows_context (drop y raw) st2) as Hc2.
  assert (Ho : ds_oldLineNum st2 = ds_oldLineNum st + y).
  { destruct Hc1 as (_ & Hc1 & _), Hs as (_ & Hs & _). rewrite Hs, Hc1, length_take. lia. }
  rewrite (near_lines_parts c b a _ raw x y) by done. rewrite Ho in Hc2.
  pose proof (shows_trans _ _ _ _ _ _ _ _ _ Hc1 (shows_trans _ _ _ _ _ _ _ _ _ Hs Hc2)) as H.
  rewrite length_take, length_drop in H. cbn [app] in H.
  by replace (x `min` length raw + (y - x + (length raw - y))) with (length raw) in H by lia.
Qed.

Lemma shows_context_part c b a raw st :
  shows st (context_part c b a raw st) (near_lines c b a (length raw) (ds_oldLineNum st) 0 raw)
    (length raw) (length raw).
Proof.
  unfold context_part. destruct b, a; cbn [andb].
  - destruct (Nat.leb_spec (length raw) (c * 2)) as [Hle|Hgt].
    + eapply (shows_parts c true true raw st _ _ _ (length raw) (length raw)); try lia;
        [intros i Hi; apply near_true; lia|by rewrite take_ge by lia|rewrite Nat.sub_diag; apply shows_nil|by rewrite drop_ge by lia].
    + rewrite !length_take, !length_drop.
      eapply (shows_parts c true true raw st _ _ _ c (length raw - c)); try lia;
        [intros i Hi; apply near_true; lia|intros i Hi; apply near_false; lia|intros i Hi; apply near_true; lia|done| |done].
      replace (length raw - c `min` length raw - (length raw - (length raw - c))) with (length raw - c - c) by lia.
      apply shows_skip.
  - rewrite length_take. eapply (shows_parts c true false raw st _ _ _ (c `min` length raw) (length raw)); try lia;
      [intros i Hi; apply near_true; lia|intros i Hi; apply near_false; [lia|done]|by rewrite <- take_take, (take_ge raw) by lia| |by rewrite drop_ge by lia].
    cbn zeta. destruct (Nat.ltb_spec 0 (length raw - c `min` length raw)); [apply shows_skip|].
    replace (length raw - c `min` length raw) with 0 by lia. apply shows_nil.
  - eapply (shows_parts c false true raw st st _ _ 0 (length raw - c)); try lia;
      [intros i Hi; apply near_false; [done|lia]|intros i Hi; apply near_true; lia|done| |done].
    rewrite Nat.sub_0_r. cbn zeta. destruct (Nat.ltb_spec 0 (length raw - c)); [apply shows_skip|].
    replace (length raw - c) with 0 by lia. apply shows_nil.
  - eapply (shows_parts c false false raw st st _ _ 0 (length raw)); try lia;
      [intros i Hi; by apply near_false|done| |by rewrite drop_ge by lia].
    rewrite Nat.sub_0_r. apply (shows_skip false).
Qed.

(** ** All parts *)

Lemma diff_parts_reference c parts st :
  List.filter is_line (ds_output (diff_parts c parts st))
  = List.filter is_line (ds_output st)
    ++ reference c (ds_lastWasChange st) (ds_oldLineNum st) (ds_newLineNum st) parts.
Proof.
  revert st; induction parts as [|p parts IH]; intros st; [by rewrite app_nil_r|].
  cbn [diff_parts reference]. rewrite IH. unfold is_change.
  change (match parts with [] => false | next :: _ => pt_added next || pt_removed next end) with (head_is_change parts).
  destruct (pt_added p) eqn:Ha; [|destruct (pt_removed p) eqn:Hr]; cbn [orb andb negb].
  - destruct (shows_changed true (part_lines p) (set_firstChangedLine st)) as (H1 & H2 & H3 & _).
    cbn [ds_output set_lastWasChange ds_oldLineNum ds_newLineNum ds_lastWasChange]. by rewrite H1, H2, H3, <- app_assoc, Nat.add_0_r.
  - destruct (shows_changed false (part_lines p) (set_firstChangedLine st)) as (H1 & H2 & H3 & _).
    cbn [ds_output set_lastWasChange ds_oldLineNum ds_newLineNum ds_lastWasChange]. by rewrite H1, H2, H3, <- app_assoc, Nat.add_0_r.
  - destruct (shows_context_part c (ds_lastWasChange st) (head_is_change parts) (part_lines p) st) as (H1 & H2 & H3 & _).
    cbn [ds_output set_lastWasChange ds_oldLineNum ds_newLineNum ds_lastWasChange]. by rewrite H1, H2, H3, <- app_assoc.
Qed.

(** The number shown for the first change: that of the next line of the new text. *)
Fixpoint first_change (n : nat) (parts : list Part) : option nat :=
  match parts with
  | [] => None
  | p :: parts' => if is_change p then Some n else first_change (n + length (part_lines p)) parts'
  end.

Lemma diff_parts_first c parts st :
  ds_firstChangedLine (diff_parts c parts st)
  = match ds_firstChangedLine st with Some k => Some k | None => first_change (ds_newLineNum st) parts end.
Proof.
  revert st; induction parts as [|p parts IH]; intros st; cbn [diff_parts first_change].
  - by destruct (ds_firstChangedLine st).
  - rewrite IH. destruct (is_change p).
    + destruct (shows_changed (pt_added p) (part_lines p) (set_firstChangedLine st)) as (_ & _ & _ & _ & H5).
      cbn [ds_firstChangedLine set_lastWasChange]. rewrite H5. cbn. by destruct (ds_firstChangedLine st).
    + match goal with |- context [context_part ?c ?b ?a ?l ?s] =>
        destruct (shows_context_part c b a l s) as (_ & _ & H3 & _ & H5) end.
      cbn [ds_firstChangedLine ds_newLineNum set_lastWasChange]. rewrite H3, H5. done.
Qed.

(** ** The numbers of the reference *)

(** The lines of the two texts. *)
Definition old_lines (parts : list Part) : list text :=
  concat (part_lines <$> List.filter (fun p => negb (pt_added p)) parts).
Definition new_lines (parts : list Part) : list text :=
  concat (part_lines <$> List.filter (fun p => negb (negb (pt_added p) && pt_removed p)) parts).

(** The line is in its text, at the number shown. *)
Definition shown_ok (old new : list text) (s : Shown) : Prop :=
  match s with
  | SAdded k l => 0 < k /\ new !! (k - 1) = Some l
  | SRemoved k l | SContext k l => 0 < k /\ old !! (k - 1) = Some l
  | SSkipped => True
  end.

Lemma numbered_elem f k ls s : s ∈ numbered f k ls -> exists j l, s = f (k + j) l /\ ls !! j = Some l.
Proof.
  revert k; induction ls as [|l ls IH]; intros k; cbn; [by intros ?%elem_of_nil|].
  intros [->|H]%elem_of_cons; [exists 0, l; by rewrite Nat.add_0_r|].
  apply IH in H as (j & l' & -> & Hl). exists (S j), l'. by rewrite <- plus_n_Sm.
Qed.

Lemma near_lines_elem c b a total k j ls s :
  s ∈ near_lines c b a total k j ls -> exists i l, s = SContext (k + j + i) l /\ ls !! i = Some l.
Proof.
  revert j; induction ls as [|l ls IH]; intros j; cbn; [by intros ?%elem_of_nil|].
  assert (Hi : s ∈ near_lines c b a total k (S j) ls ->
    exists i l', s = SContext (k + j + i) l' /\ (l :: ls) !! i = Some l').
  { intros (i & l' & -> & Hl)%IH. exists (S i), l'. split; [f_equal; lia|done]. }
  destruct (near _ _ _ _ _); [|done]. intros [->|H]%elem_of_cons; [|by apply Hi].
  exists 0, l. by rewrite Nat.add_0_r.
Qed.

Lemma reference_ok c before parts o n s :
  s ∈ reference c before (S (length o)) (S (length n)) parts ->
  shown_ok (o ++ old_lines parts) (n ++ new_lines parts) s.
Proof.
  revert before o n; induction parts as [|p parts IH]; intros before o n; cbn [reference]; [by intros ?%elem_of_nil|].
  unfold old_lines, new_lines. cbn [List.filter]. intros [H|H]%elem_of_app.
  - assert (Hin : forall t (ls rest : list text) j l, ls !! j = Some l ->
      (t ++ ls ++ rest) !! (S (length t) + j - 1) = Some l).
    { intros t ls rest j l Hl. pose proof (lookup_lt_Some _ _ _ Hl).
      replace (S (length t) + j - 1) with (length t + j) by lia. rewrite lookup_app_r by lia.
      replace (length t + j - length t) with j by lia. by rewrite lookup_app_l. }
    destruct (pt_added p), (pt_removed p); cbn [negb andb] in *;
      (apply numbered_elem in H as (j & l & -> & Hl) || apply near_lines_elem in H as (j & l & -> & Hl));
      cbn [shown_ok]; rewrite ?Nat.add_0_r; (split; [lia|]); by apply Hin.
  - set (ls := part_lines p) in *.
    assert (Hs : forall t : list text, S (length t) + length ls = S (length (t ++ ls))) by (intros t; rewrite length_app; lia).
    rewrite !Hs in H.
    destruct (pt_added p), (pt_removed p); cbn [negb andb fmap list_fmap concat] in *;
      apply IH in H; by rewrite <- ?app_assoc in H.
Qed.

(** ** Counting *)

Definition is_added (s : Shown) : bool := match s with SAdded _ _ => true | _ => false end.
Definition is_removed (s : Shown) : bool := match s with SRemoved _ _ => true | _ => false end.
Definition count (f : Shown -> bool) (out : list Shown) : nat := length (List.filter f out).

Lemma count_app f out1 out2 : count f (out1 ++ out2) = count f out1 + count f out2.
Proof. unfold count. by rewrite List.filter_app, length_app. Qed.

Lemma count_numbered f g k ls b : (forall k l, f (g k l) = b) -> count f (numbered g k ls) = if b then length ls else 0.
Proof.
  intros H. revert k; induction ls as [|l ls IH]; intros k; cbn; [by destruct b|].
  unfold count in *. cbn. rewrite H. specialize (IH (S k)). destruct b; cbn; by rewrite IH.
Qed.

Lemma count_near f c b a total k j ls :
  (forall k l, f (SContext k l) = false) -> count f (near_lines c b a total k j ls) = 0.
Proof.
  intros H. revert j; induction ls as [|l ls IH]; intros j; [done|]. cbn. specialize (IH (S j)).
  destruct (near _ _ _ _ _); [|done]. unfold count in *. cbn. by rewrite H.
Qed.

Lemma count_lines f out : (forall s, f s = true -> is_line s = true) -> count f (List.filter is_line out) = count f out.
Proof.
  intros H. unfold count. induction out as [|s out IH]; [done|]. cbn. specialize (H s).
  destruct (is_line s); cbn; destruct (f s); cbn; rewrite IH; try done. by discriminate H.
Qed.

Lemma countLineChanges_reference c before o n parts added removed :
  foldl (fun '(added, removed) part =>
    if negb (is_change part) then (added, removed)
    else if pt_added part then (added + length (part_lines part), removed)
    else (added, removed + length (part_lines part))) (added, removed) parts
  = (added + count is_added (reference c before o n parts), removed + count is_removed (reference c before o n parts)).
Proof.
  revert before o n added removed; induction parts as [|p parts IH]; intros before o n added removed.
  { cbn. by rewrite !Nat.add_0_r. }
  cbn [foldl reference]. rewrite !count_app. unfold is_change at 2.
  destruct (pt_added p); [|destruct (pt_removed p)]; cbn [orb negb andb]; erewrite IH;
    rewrite ?(count_numbered is_added SAdded _ _ true), ?(count_numbered is_removed SAdded _ _ false),
      ?(count_numbered is_added SRemoved _ _ false), ?(count_numbered is_removed SRemoved _ _ true), ?count_near by done;
    f_equal; lia.
Qed.

(** ** Text without carriage returns *)

Definition no_CR (t : text) : Prop := Forall (fun c => c <> CR) t.

Lemma no_CR_spec t : no_CR t <-> CR ∉ t.
Proof.
  unfold no_CR. rewrite Forall_forall. split; [|by intros H c Hc ->]. intros H Hc. by apply (H CR).
Qed.

Lemma no_CR_join ls : Forall no_CR ls -> no_CR (join_lines ls).
Proof.
  induction 1 as [|l ls Hl _ IH]; [constructor|]. destruct ls as [|l' ls]; [done|].
  rewrite join_lines_cons by done. apply Forall_app. split; [done|]. by constructor.
Qed.

Lemma no_CR_split t : no_CR t -> Forall no_CR (split_lines t).
Proof.
  induction 1 as [|c t Hc _ IH]; cbn; [by repeat constructor|].
  destruct (c =? LF)%N; [by repeat constructor|]. destruct IH; by repeat constructor.
Qed.

Lemma no_CR_concat ls : Forall no_CR ls -> no_CR (concat ls).
Proof. induction 1; cbn; [constructor|]. by apply Forall_app. Qed.

Lemma no_CR_lines t : no_CR t -> Forall no_CR (splitLinesWithEndings t).
Proof.
  induction 1 as [|c t Hc _ IH]; cbn; [constructor|].
  destruct (c =? LF)%N; [by repeat constructor|]. destruct IH; by repeat constructor.
Qed.

Lemma no_CR_slice a b t : no_CR t -> no_CR (slice a b t).
Proof. intros H. by apply Forall_take, Forall_drop. Qed.

Lemma no_CR_indent w : forallb is_indent w = true -> no_CR w.
Proof.
  intros H. apply no_CR_spec. intros Hin%list_elem_of_In. by apply (proj1 (forallb_forall _ _) H) in Hin.
Qed.

Lemma no_CR_reindent add remove l : no_CR add -> no_CR l -> no_CR (reindent add remove l).
Proof.
  intros Ha Hl. unfold reindent. destruct (_ =? _); [done|].
  destruct (0 <? remove); apply Forall_app; (split; [|done || by apply Forall_drop]); [|done].
  apply Forall_drop. rewrite <- (leading_strip l) in Hl. by apply Forall_app in Hl as [? _].
Qed.

Lemma no_CR_adjust base mi old new : no_CR new -> no_CR (adjustReplacementIndentation base mi old new).
Proof.
  intros Hn. destruct (adjust_cases base mi old new) as [->|(ls & al & add & rem & nl & _ & _ & Ha & _ & _ & _ & ->)]; [done|].
  apply no_CR_join. apply no_CR_split in Hn. apply no_CR_indent in Ha. apply Forall_app. split; [by apply Forall_take|].
  apply Forall_fmap. apply (Forall_drop _ al) in Hn. eapply Forall_impl; [exact Hn|]. intros l. by apply no_CR_reindent.
Qed.

(** ** Replacing *)

Lemma no_CR_replacements t rs offset :
  no_CR t -> Forall (fun r => no_CR (newText r)) rs -> no_CR (applyReplacements t rs offset).
Proof.
  intros Ht Hr. unfold applyReplacements. apply Forall_rev in Hr. revert t Ht. 
  generalize dependent (rev rs). clear rs. intros rs Hr.
  induction Hr as [|r rs Hr _ IH]; intros t Ht; [done|]. cbn. apply IH. unfold replace_one.
  apply Forall_app. split; [by apply Forall_take|]. apply Forall_app. split; [done|by apply Forall_drop].
Qed.

Definition clean_group (g : Group) : Prop := Forall (fun r => no_CR (newText r)) (g_replacements g).

Lemma clean_group_step lines gs r gs' :
  group_step lines gs r = Ok gs' -> Forall clean_group gs -> no_CR (newText r) -> Forall clean_group gs'.
Proof.
  unfold group_step. intros H Hg Hr. apply res_bind_Ok in H as ([a b] & _ & H).
  assert (Hone : Forall (fun r => no_CR (newText r)) [r]) by (apply Forall_singleton; done).
  destruct gs as [|g gs]; [injection H as <-; by apply Forall_singleton|].
  destruct (a <? g_end g); injection H as <-; [|by constructor].
  apply Forall_cons in Hg as [Hg Hgs]. constructor; [|done]. by apply Forall_app.
Qed.

Lemma clean_groups lines rs gs gs' :
  res_foldl (group_step lines) gs rs = Ok gs' -> Forall clean_group gs ->
  Forall (fun r => no_CR (newText r)) rs -> Forall clean_group gs'.
Proof.
  intros H Hg Hr. revert gs H Hg; induction Hr as [|r rs Hr _ IH]; intros gs H Hg; [by injection H as <-|].
  cbn [res_foldl] in H. apply res_bind_Ok in H as (g1 & H1 & H). eapply IH; [exact H|]. by eapply clean_group_step.
Qed.

Lemma no_CR_groups lines spans base i gs :
  Forall no_CR lines -> no_CR base -> Forall clean_group gs -> no_CR (rewrite_groups lines spans base i gs).
Proof.
  intros Hl Hb Hg. revert i. induction Hg as [|g gs Hg _ IH]; intros i; cbn.
  - by apply no_CR_concat, Forall_drop.
  - apply Forall_app. split; [apply no_CR_concat; by apply Forall_take, Forall_drop|].
    apply Forall_app. split; [|apply IH]. apply no_CR_replacements; [by apply no_CR_slice|done].
Qed.

Lemma no_CR_preserving original base rs out :
  applyReplacementsPreservingUnchangedLines original base rs = Ok out ->
  no_CR original -> no_CR base -> Forall (fun r => no_CR (newText r)) rs -> no_CR out.
Proof.
  unfold applyReplacementsPreservingUnchangedLines. intros H Ho Hb Hr.
  apply res_bind_Ok in H as (u & _ & H). apply res_bind_Ok in H as (gs & Hgs & H). injection H as <-.
  apply no_CR_groups; [by apply no_CR_lines|done|]. apply Forall_rev. eapply clean_groups; [exact Hgs|constructor|].
  destruct (sort_by_index_spec rs) as [_ Hp]. by rewrite Hp.
Qed.

(** ** Running the edits *)

Section Run.
Context (nfkc : text -> text) (nfkc_no_CR : forall t, no_CR t -> no_CR (nfkc t)).

Lemma no_CR_trimEnd t : no_CR t -> no_CR (trimEnd t).
Proof.
  intros H. apply Forall_rev. apply Forall_rev in H. induction H as [|c k Hc Hk IH]; cbn; [constructor|].
  destruct (is_space c); [done|by constructor].
Qed.

Lemma no_CR_normalize t : no_CR t -> no_CR (normalizeForFuzzyMatch nfkc t).
Proof.
  intros H%nfkc_no_CR%no_CR_split. unfold normalizeForFuzzyMatch. apply Forall_fmap.
  eapply (Forall_impl (fun c => c <> CR)).
  - apply no_CR_join, Forall_fmap. eapply Forall_impl; [exact H|]. intros l. apply no_CR_trimEnd.
  - intros c Hc. cbn. by destruct (fold_char_cases c) as [->|[->|[->|[[-> _]| ->]]]].
Qed.

Lemma normalizeToLF_clean t : no_CR (normalizeToLF t).
Proof. apply no_CR_spec, normalizeToLF_no_CR. Qed.

Lemma no_CR_run content edits path r :
  no_CR content -> applyEditsToNormalizedContent nfkc content edits path = Ok r -> no_CR (newContent r).
Proof.
  intros Hc Hr. destruct (edits_parts _ _ _ _ _ Hr) as (ms & _ & Hms & _ & _ & Hn & _ & _).
  assert (Hb : no_CR (match_base nfkc content edits)) by (unfold match_base; destruct (fuzzy_run _ _ _); [by apply no_CR_normalize|done]).
  assert (Ht : Forall (fun m => no_CR (newText m)) (sort_by_index ms)).
  { destruct (sort_by_index_spec ms) as [_ Hp]. rewrite Hp. clear -Hms. revert Hms.
    generalize (match_base nfkc content edits) as base, (length edits) as total. intros base total Hms.
    assert (He : Forall (fun e => no_CR (ed_newText e)) (normalize_edit <$> edits)).
    { apply Forall_fmap, Forall_true. intros e. apply normalizeToLF_clean. }
    induction Hms as [|e m es ms [j Hj] _ IH]; [constructor|]. apply Forall_cons in He as [He Hes].
    constructor; [|by apply IH]. unfold match_edit in Hj. apply res_bind_Ok in Hj as (? & _ & Hj).
    apply res_bind_Ok in Hj as (? & _ & Hj). injection Hj as <-. cbn.
    destruct (usedFuzzyMatch _); [by apply no_CR_adjust|done]. }
  destruct (fuzzy_run _ _ _).
  - by eapply no_CR_preserving.
  - injection Hn as <-. by apply no_CR_replacements.
Qed.
End Run.
