(* ===== verification/EditTheorems.v ===== *)
(** What holds of the edit tool (coding-agent/src/core/tools/edit-diff.ts and edit.ts): the
    edits are done where their old texts are, and nowhere else; what a fuzzy match is; what
    becomes of the line endings of the file. The witnesses take the identity for
    [normalize("NFKC")]: it is one on ASCII text. *)
From S2P Require Import Prelude JsString EditText EditDiff EditFacts EditOverlay EditMatch EditShown.
From Stdlib Require Import Sorted.

(** ** Exact edits *)

Section Exact.
Context (nfkc : text -> text).






End Exact.


Definition ascii_nfkc (t : text) : text := t.

Definition sample_content : text := codes "int a;" ++ [LF] ++ codes "  int b;" ++ [LF].
Definition sample_edits : list Edit :=
  [{| oldText := codes "int b"; ed_newText := codes "long b" |}; {| oldText := codes "int a"; ed_newText := codes "a" |}].


(** ** Fuzzy edits *)

Section Fuzzy.
Context (nfkc : text -> text).

(** What an edit is matched to on the normalized content. *)
Definition matched (base : text) (e : Edit) (m : MatchedEdit) : Prop :=
  exact_match base e m \/ fuzzy_match nfkc base e m.

Lemma matched_bound base e m : matched base e m -> matchIndex m + matchLength m <= length base.
Proof. intros [H|(_ & H & _)]; [by eapply exact_bound|done]. Qed.

Lemma fuzzy_run_matches content edits path ms :
  nfkc_stable nfkc -> fuzzy_run nfkc content edits = true -> Forall (visible_text nfkc) (normalize_edit <$> edits) ->
  Forall2 (fun e m => exists j,
      match_edit nfkc (match_base nfkc content edits) content path (length edits) j e = Ok m)
    (normalize_edit <$> edits) ms ->
  Forall2 (matched (normalizeForFuzzyMatch nfkc content)) (normalize_edit <$> edits) ms.
Proof.
  intros Hs Hf Hv Hms. unfold match_base in Hms. rewrite Hf in Hms.
  induction Hms as [|e m es ms [j Hj] Hms IH]; [constructor|]. apply Forall_cons in Hv as [He Hv].
  constructor; [|by apply IH]. destruct (text_indexOf (oldText e) (normalizeForFuzzyMatch nfkc content)) as [k|] eqn:Hk.
  - left. by eapply match_edit_exact.
  - right. eapply match_edit_fuzzy; try done. by apply normalize_idem.
Qed.
End Fuzzy.

(** C33. When some old text is not in the content as it is, and the run succeeds, every edit
    is matched in the normalized content, to its exact text or to a range that reads as the
    old text but for indentation, and is replaced by its new text up to indentation; the
    matches do not overlap; and the new content is the content line by line, where a line no
    match touches is the line of the file, byte for byte, and the lines that are touched are
    those of the normalized content with the matches replaced. *)
Theorem edits_fuzzy (nfkc : text -> text) (content path : text) (edits : list Edit) (r : AppliedEditsResult)
  (Hs : nfkc_stable nfkc) (Hv : Forall (visible_text nfkc) (normalize_edit <$> edits))
  (Hf : fuzzy_run nfkc content edits = true)
  (Hr : applyEditsToNormalizedContent nfkc content edits path = Ok r) :
  let base := normalizeForFuzzyMatch nfkc content in
  exists ms,
    Forall2 (matched nfkc base) (normalize_edit <$> edits) ms /\
    apart 0 (length base) (sort_by_index ms) /\
    length (splitLinesWithEndings content) = length (splitLinesWithEndings base) /\
    overlay base (splitLinesWithEndings content) 0 (sort_by_index ms) (newContent r) /\
    newContent r <> content.
Proof.
  destruct (edits_parts _ _ _ _ _ Hr) as (ms & _ & Hms & _ & [u Hu] & Hn & _ & Hne).
  pose proof (fuzzy_run_matches _ _ _ _ _ Hs Hf Hv Hms) as Hm. cbn zeta. exists ms. split; [done|].
  unfold match_base in Hn. rewrite Hf in Hn.
  assert (Hap : apart 0 (length (normalizeForFuzzyMatch nfkc content)) (sort_by_index ms)).
  { eapply matches_apart; [|exact Hu]. clear -Hm. induction Hm as [|e m es ms Hm _ IH]; constructor; [|done].
    by eapply matched_bound. }
  split; [done|]. rewrite <- sort_sort in Hap. destruct (preserving_overlay _ _ _ _ Hap Hn) as [Hl Ho].
  rewrite sort_sort in Ho. done.
Qed.

Definition fuzzy_edits : list Edit :=
  [{| oldText := codes "if (x) {" ++ [LF] ++ codes "  f()"; ed_newText := codes "if (y) {" ++ [LF] ++ codes "  g()" |}].
Definition fuzzy_content : text :=
  codes "// header   " ++ [LF] ++ codes "  if (x) {  " ++ [LF] ++ codes "    f()" ++ [LF] ++ codes "  }  " ++ [LF].

Lemma ascii_stable : nfkc_stable ascii_nfkc.
Proof. done. Qed.

Lemma edits_fuzzy_witness :
  exists r ms, applyEditsToNormalizedContent ascii_nfkc fuzzy_content fuzzy_edits (codes "a.c") = Ok r /\
    newContent r = codes "// header   " ++ [LF] ++ codes "  if (y) {" ++ [LF] ++ codes "    g()" ++ [LF] ++ codes "  }  " ++ [LF] /\
    overlay (normalizeForFuzzyMatch ascii_nfkc fuzzy_content) (splitLinesWithEndings fuzzy_content) 0
      (sort_by_index ms) (newContent r).
Proof.
  destruct (applyEditsToNormalizedContent ascii_nfkc fuzzy_content fuzzy_edits (codes "a.c")) as [r|] eqn:E;
    [|exfalso; revert E; by vm_compute].
  destruct (edits_fuzzy ascii_nfkc fuzzy_content (codes "a.c") fuzzy_edits r ascii_stable
    ltac:(repeat constructor; by vm_compute) ltac:(by vm_compute) E) as (ms & _ & _ & _ & Ho & _).
  exists r, ms. split; [done|]. split; [|done]. revert E. vm_compute. by intros [= <-].
Defined.

(** ** Files *)

Lemma restore_bom t crlf : BOM ∉ take 1 t -> BOM ∉ take 1 (restoreLineEndings t crlf).
Proof.
  destruct crlf; [|done]. destruct t as [|c t]; [done|]. intros H. rewrite restore_cons.
  destruct (c =? LF)%N; [|done]. cbn. by intros ?%list_elem_of_singleton.
Qed.

(** Editing a file with a byte order mark or with CRLF endings is editing its text with
    LF endings: the file written has the mark and the endings of the file read, and reading
    it gives the edited text. *)
Lemma edit_file_endings (nfkc : text -> text) (t bom path : text) (crlf : bool) (edits : list Edit)
  (Hn : forall t', CR ∉ t' -> CR ∉ nfkc t') (Ht : CR ∉ t) (Hl : crlf = true -> LF ∈ t)
  (Hb : (bom = [] /\ BOM ∉ take 1 t) \/ bom = [BOM]) :
  edit_file nfkc (bom ++ restoreLineEndings t crlf) edits path
  = (r ← applyEditsToNormalizedContent nfkc t edits path; Ok (bom ++ restoreLineEndings (newContent r) crlf)) /\
  (forall r, applyEditsToNormalizedContent nfkc t edits path = Ok r ->
   normalizeToLF (restoreLineEndings (newContent r) crlf) = newContent r /\
   (crlf = true -> LF ∈ newContent r -> detectLineEnding (restoreLineEndings (newContent r) crlf) = true)).
Proof.
  split.
  - unfold edit_file. assert (Hs : splitBom (bom ++ restoreLineEndings t crlf) = (bom, restoreLineEndings t crlf)).
    { destruct Hb as [[-> Hb]| ->]; [|done]. apply splitBom_bom; [by apply restore_bom|by left]. }
    rewrite Hs, normalize_restore, detect_restore by done. done.
  - intros r Hr. assert (Hc : CR ∉ newContent r).
    { apply no_CR_spec. eapply no_CR_run; [|by apply no_CR_spec|exact Hr].
      intros t'. rewrite !no_CR_spec. apply Hn. }
    split; [by apply normalize_restore|]. intros -> HLF. by apply detect_restore.
Qed.

Lemma edit_file_endings_witness :
  edit_file ascii_nfkc ([BOM] ++ restoreLineEndings sample_content true) sample_edits (codes "a.c")
  = Ok ([BOM] ++ codes "a;" ++ CRLF ++ codes "  long b;" ++ CRLF).
Proof.
  destruct (edit_file_endings ascii_nfkc sample_content [BOM] (codes "a.c") true sample_edits
    (fun _ H => H)) as [H _].
  - refine (bool_decide_unpack _ _); by vm_compute.
  - intros _. refine (bool_decide_unpack _ _); by vm_compute.
  - by right.
  - rewrite H. by vm_compute.
Defined.

(** ** Indentation *)

(** Re-anchoring a replacement changes nothing but indentation; and where the old and
    the new text agree in the indentation of the line aligned with the file's, and the
    file's is deeper or shallower in the same characters, that line gets the depth of the
    file's. *)
Lemma adjust_follows_file (base old new : text) (mi lineStart aligned : nat) (oldLine newLine : text)
  (Ha : anchor base mi (split_lines old) = Some (lineStart, aligned))
  (Ho : split_lines old !! aligned = Some oldLine) (Hn : split_lines new !! aligned = Some newLine)
  (He : leadingWhitespace newLine = leadingWhitespace oldLine)
  (Hb : length (leadingWhitespace newLine) <> length newLine)
  (Hc : starts_with (leadingWhitespace newLine) (leadingWhitespace (file_line base lineStart))
        || starts_with (leadingWhitespace (file_line base lineStart)) (leadingWhitespace newLine) = true) :
  normalizeForFuzzyMatchSearch (adjustReplacementIndentation base mi old new) = normalizeForFuzzyMatchSearch new /\
  exists line, split_lines (adjustReplacementIndentation base mi old new) !! aligned = Some line /\
    length (leadingWhitespace line) = length (leadingWhitespace (file_line base lineStart)).
Proof. split; [apply adjust_seen|by eapply adjust_comparable]. Qed.

Lemma adjust_follows_file_witness :
  exists line, split_lines (adjustReplacementIndentation (codes "a" ++ [LF] ++ codes "    b") 2 (codes "  b") (codes "  c"))
    !! 0 = Some line /\ length (leadingWhitespace line) = 4.
Proof.
  by apply (adjust_follows_file (codes "a" ++ [LF] ++ codes "    b") (codes "  b") (codes "  c") 2 2 0
    (codes "  b") (codes "  c")).
Defined.

(** ** The diff that is shown *)

(** The diff shows every added and every removed line and exactly the unchanged lines
    within [c] lines of a change, in order, each with its number in the text it is of; the
    first changed line is the number of the first change; and the counts of changed lines
    are the numbers of lines shown as added and as removed. *)
Lemma diff_shows_changes (old new : text) (parts : list Part) (c : nat) :
  exists width shown,
    generateDiffString old new parts c = (join_lines (print_shown width <$> shown), first_change 1 parts) /\
    List.filter is_line shown = reference c false 1 1 parts /\
    Forall (shown_ok (old_lines parts) (new_lines parts)) shown /\
    countLineChanges parts = (count is_added shown, count is_removed shown).
Proof.
  eexists _, (ds_output (diff_parts c parts diff_start)). unfold generateDiffString.
  rewrite diff_parts_first. cbn [ds_firstChangedLine diff_start ds_newLineNum]. split; [done|].
  pose proof (diff_parts_reference c parts diff_start) as H. cbn [ds_output diff_start app List.filter] in H.
  change (ds_lastWasChange diff_start) with false in H. change (ds_oldLineNum diff_start) with 1 in H.
  change (ds_newLineNum diff_start) with 1 in H. split; [done|]. split.
  - apply List.Forall_forall. intros s Hs. destruct (is_line s) eqn:El; [|by destruct s].
    apply (reference_ok c false parts [] []). cbn [length]. rewrite <- H. apply list_elem_of_In, List.filter_In. done.
  - unfold countLineChanges. rewrite (countLineChanges_reference c false 1 1), <- H.
    rewrite !count_lines by (by intros []). done.
Qed.

(** ** What evaluation shows *)

Definition run_edit (content old new : text) : eres text :=
  r ← applyEditsToNormalizedContent ascii_nfkc content [{| oldText := old; ed_newText := new |}] (codes "a");
  Ok (newContent r).

(** A fuzzy match of a text that ends with a newline takes the indentation of the next line
    with it: the line after [foo()] is untouched by the edit and loses its tab. *)
Lemma newline_takes_indentation :
  run_edit ([TAB] ++ codes "foo()" ++ [LF] ++ [TAB] ++ codes "bar()" ++ [LF])
    (codes "    foo()" ++ [LF]) (codes "    baz()" ++ [LF])
  = Ok (codes "    baz()" ++ [LF] ++ codes "bar()" ++ [LF]).
Proof. by vm_compute. Qed.

(** A fuzzy edit of a file whose last line is white space without a newline is refused: the
    line is not in the normalized content. *)
Lemma blank_last_line_refused :
  run_edit (codes "  foo" ++ [LF] ++ codes "  ") ([TAB] ++ codes "foo") ([TAB] ++ codes "bar") = Throw DifferentLineCount.
Proof. by vm_compute. Qed.

(** An old text of white space alone counts every character of the file as an occurrence. *)
Lemma blank_old_text_duplicate :
  exists ctx, run_edit (codes "abc" ++ [TAB; TAB] ++ codes "d") [TAB; TAB] [TAB] = Throw (Duplicate 0 1 5 ctx).
Proof. eexists. by vm_compute. Qed.

(** An exact and unique old text that ends with a space is refused for a longer word. *)
Lemma unique_text_refused :
  exists ctx, run_edit (codes "foo bar" ++ [LF] ++ codes "food" ++ [LF]) (codes "foo ") (codes "baz ")
  = Throw (Duplicate 0 1 2 ctx).
Proof. eexists. by vm_compute. Qed.

(** Indentation added in front of a line of tabs and spaces is not the file's. *)
Lemma mixed_indentation :
  adjustReplacementIndentation ([TAB] ++ codes "  a") 0 ([TAB] ++ codes "b") ([TAB] ++ codes "c")
  = codes "  " ++ [TAB] ++ codes "c".
Proof. by vm_compute. Qed.
