(* ===== verification/LinkMessage.v ===== *)
(** The texts and messages of a link. UTF-8 as [TextEncoder] writes it and the fatal
    [TextDecoder] reads it: texts are lists of UTF-16 code units, a lone surrogate is written
    as U+FFFD, and what is not the shortest form of a code point is refused. The messages of
    chord/src/link/message.ts and part.ts: JSON values in them are of a type [V] with the text
    that [JSON.stringify] and [JSON.parse] give it. *)
From S2P Require Import Prelude JsString EditText.

Abbreviation bytes := (list N).

(** ** Code points *)

Definition is_high (u : N) : bool := ((55296 <=? u) && (u <? 56320))%N.
Definition is_low (u : N) : bool := ((56320 <=? u) && (u <? 57344))%N.
Definition is_surrogate (u : N) : bool := ((55296 <=? u) && (u <? 57344))%N.

Definition pair_point (high low : N) : N := (65536 + (high - 55296) * 1024 + (low - 56320))%N.

(** The code point of a unit alone. *)
Definition unit_point (u : N) : N := if is_surrogate u then 65533 else u.

Definition point_bytes (p : N) : bytes :=
  if (p <? 128)%N then [p]
  else if (p <? 2048)%N then [192 + p / 64; 128 + p mod 64]%N
  else if (p <? 65536)%N then [224 + p / 4096; 128 + p / 64 mod 64; 128 + p mod 64]%N
  else [240 + p / 262144; 128 + p / 4096 mod 64; 128 + p / 64 mod 64; 128 + p mod 64]%N.

(** [TextEncoder.encode]. *)
Fixpoint utf8 (t : text) : bytes :=
  match t with
  | [] => []
  | u :: t' =>
      match t' with
      | v :: t'' =>
          if is_high u && is_low v then point_bytes (pair_point u v) ++ utf8 t''
          else point_bytes (unit_point u) ++ utf8 t'
      | [] => point_bytes (unit_point u)
      end
  end.

(** [TextEncoder.encodeInto] a destination with [room]: the code units read and the bytes
    written. A code point that does not fit ends it. *)
Fixpoint encodeInto (t : text) (room : nat) : nat * bytes :=
  match t with
  | [] => (0, [])
  | u :: t' =>
      let single :=
        let bs := point_bytes (unit_point u) in
        if length bs <=? room
        then let '(read, written) := encodeInto t' (room - length bs) in (S read, bs ++ written)
        else (0, []) in
      match t' with
      | v :: t'' =>
          if is_high u && is_low v then
            let bs := point_bytes (pair_point u v) in
            if length bs <=? room
            then let '(read, written) := encodeInto t'' (room - length bs) in (S (S read), bs ++ written)
            else (0, [])
          else single
      | [] => single
      end
  end.

(** ** Decoding *)

Definition is_continuation (b : N) : bool := ((128 <=? b) && (b <? 192))%N.

(** The code units of a code point. *)
Definition point_units (p : N) : text :=
  if (p <? 65536)%N then [p] else [55296 + (p - 65536) / 1024; 56320 + (p - 65536) mod 1024]%N.

(** The fatal decoder; [None] is its [TypeError]. *)
Fixpoint utf8_decode (bs : bytes) : option text :=
  match bs with
  | [] => Some []
  | b :: bs1 =>
      if (b <? 128)%N then cons b <$> utf8_decode bs1
      else if ((194 <=? b) && (b <? 224))%N then
        match bs1 with
        | c1 :: bs2 =>
            if is_continuation c1
            then app (point_units ((b - 192) * 64 + (c1 - 128))) <$> utf8_decode bs2
            else None
        | _ => None
        end
      else if ((224 <=? b) && (b <? 240))%N then
        match bs1 with
        | c1 :: c2 :: bs3 =>
            let p := ((b - 224) * 4096 + (c1 - 128) * 64 + (c2 - 128))%N in
            if is_continuation c1 && is_continuation c2 && (2048 <=? p)%N && negb (is_surrogate p)
            then app (point_units p) <$> utf8_decode bs3
            else None
        | _ => None
        end
      else if ((240 <=? b) && (b <? 245))%N then
        match bs1 with
        | c1 :: c2 :: c3 :: bs4 =>
            let p := ((b - 240) * 262144 + (c1 - 128) * 4096 + (c2 - 128) * 64 + (c3 - 128))%N in
            if is_continuation c1 && is_continuation c2 && is_continuation c3 && ((65536 <=? p) && (p <? 1114112))%N
            then app (point_units p) <$> utf8_decode bs4
            else None
        | _ => None
        end
      else None
  end.

(** ** Well-formed text *)

Definition unit_ok (u : N) : bool := (u <? 65536)%N.

(** Every surrogate is of a pair. *)
Fixpoint well_formed (t : text) : bool :=
  match t with
  | [] => true
  | u :: t' =>
      match t' with
      | v :: t'' =>
          if is_high u && is_low v then well_formed t''
          else unit_ok u && negb (is_surrogate u) && well_formed t'
      | [] => unit_ok u && negb (is_surrogate u)
      end
  end.

(** ** Lemmas *)

Definition starts_pair (u : N) (t : text) : bool := match t with v :: _ => is_high u && is_low v | [] => false end.

Lemma text_pairs_ind (P : text -> Prop) :
  P [] -> (forall u t, starts_pair u t = false -> P t -> P (u :: t)) ->
  (forall u v t, is_high u && is_low v = true -> P t -> P (u :: v :: t)) -> forall t, P t.
Proof.
  intros H0 H1 H2 t. remember (length t) as n eqn:Hn. revert t Hn. induction (lt_wf n) as [n _ IH]. intros t ->.
  destruct t as [|u t]; [done|]. destruct t as [|v t]; [by apply H1|].
  destruct (is_high u && is_low v) eqn:E.
  - apply H2; [done|]. eapply (IH (length t)); [cbn; lia|done].
  - apply H1; [done|]. eapply (IH (length (v :: t))); [cbn; lia|done].
Qed.

Lemma utf8_single u t : starts_pair u t = false -> utf8 (u :: t) = point_bytes (unit_point u) ++ utf8 t.
Proof. destruct t as [|v t]; [by rewrite app_nil_r|]. cbn [starts_pair utf8]. by intros ->. Qed.

Lemma utf8_pair u v t : is_high u && is_low v = true -> utf8 (u :: v :: t) = point_bytes (pair_point u v) ++ utf8 t.
Proof. cbn [utf8]. by intros ->. Qed.

Lemma encodeInto_single u t room :
  starts_pair u t = false ->
  encodeInto (u :: t) room =
  let bs := point_bytes (unit_point u) in
  if length bs <=? room then let '(read, written) := encodeInto t (room - length bs) in (S read, bs ++ written) else (0, []).
Proof. destruct t as [|v t]; [done|]. cbn [starts_pair encodeInto]. by intros ->. Qed.

Lemma encodeInto_pair u v t room :
  is_high u && is_low v = true ->
  encodeInto (u :: v :: t) room =
  let bs := point_bytes (pair_point u v) in
  if length bs <=? room then let '(read, written) := encodeInto t (room - length bs) in (S (S read), bs ++ written) else (0, []).
Proof. cbn [encodeInto]. by intros ->. Qed.

Lemma point_bytes_length p : 0 < length (point_bytes p) <= 4.
Proof. unfold point_bytes. repeat case_match; cbn; lia. Qed.

(** What [encodeInto] reads and writes. *)
Lemma encodeInto_spec t room read written :
  encodeInto t room = (read, written) ->
  read <= length t /\ length written <= room /\ utf8 t = written ++ utf8 (drop read t) /\
  (length (utf8 t) <= room -> read = length t) /\ (t <> [] -> 4 <= room -> 0 < read).
Proof.
  revert room read written. induction t as [|u t Hs IH|u v t Hp IH] using text_pairs_ind; intros room read written H.
  - injection H as <- <-. split_and!; try done; cbn; lia.
  - rewrite encodeInto_single in H by done. rewrite utf8_single by done. cbn zeta in H.
    pose proof (point_bytes_length (unit_point u)). destruct (Nat.leb_spec (length (point_bytes (unit_point u))) room) as [Hl|Hl].
    + destruct (encodeInto t _) as [r w] eqn:E. injection H as <- <-.
      destruct (IH _ _ _ E) as (H1 & H2 & H3 & H4 & _). cbn [length drop]. rewrite !length_app.
      split_and!; [lia|lia|by rewrite <- app_assoc, <- H3|intros; f_equal; apply H4; lia|lia].
    + injection H as <- <-. cbn [length drop]. rewrite length_app. split_and!; [lia|lia| |lia|lia]. by rewrite utf8_single.
  - rewrite encodeInto_pair in H by done. rewrite utf8_pair by done. cbn zeta in H.
    pose proof (point_bytes_length (pair_point u v)). destruct (Nat.leb_spec (length (point_bytes (pair_point u v))) room) as [Hl|Hl].
    + destruct (encodeInto t _) as [r w] eqn:E. injection H as <- <-.
      destruct (IH _ _ _ E) as (H1 & H2 & H3 & H4 & _). cbn [length drop]. rewrite !length_app.
      split_and!; [lia|lia|by rewrite <- app_assoc, <- H3|intros; do 2 f_equal; apply H4; lia|lia].
    + injection H as <- <-. cbn [length drop]. rewrite length_app. split_and!; [lia|lia| |lia|lia]. by rewrite utf8_pair.
Qed.

Lemma encodeInto_all t room : length (utf8 t) <= room -> encodeInto t room = (length t, utf8 t).
Proof.
  intros H. destruct (encodeInto t room) as [read written] eqn:E. destruct (encodeInto_spec _ _ _ _ E) as (_ & _ & H3 & H4 & _).
  rewrite (H4 H) in *. rewrite drop_all in H3. cbn in H3. by rewrite H3, app_nil_r.
Qed.

(** A surrogate pair takes four bytes. *)
Lemma pair_bytes u v : is_high u && is_low v = true -> length (point_bytes (pair_point u v)) = 4.
Proof.
  unfold is_high, is_low, point_bytes, pair_point. rewrite !andb_true_iff, !N.leb_le, !N.ltb_lt. intros [[H1 H2] [H3 H4]].
  destruct (N.ltb_spec (65536 + (u - 55296) * 1024 + (v - 56320)) 128); [lia|].
  destruct (N.ltb_spec (65536 + (u - 55296) * 1024 + (v - 56320)) 2048); [lia|].
  destruct (N.ltb_spec (65536 + (u - 55296) * 1024 + (v - 56320)) 65536); [lia|done].
Qed.

(** A text of code units takes at most three bytes for each, and at least one. *)
Definition units (t : text) : Prop := Forall (fun u => (u < 65536)%N) t.

Lemma utf8_length t : units t -> length t <= length (utf8 t) <= 3 * length t.
Proof.
  induction t as [|u t Hs IH|u v t Hp IH] using text_pairs_ind; intros Hu; [done| |].
  - apply Forall_cons in Hu as [Hu Ht]. rewrite utf8_single by done. specialize (IH Ht). rewrite length_app. cbn [length].
    assert (0 < length (point_bytes (unit_point u)) <= 3); [|lia].
    unfold unit_point. destruct (is_surrogate u); [cbn; lia|]. unfold point_bytes.
    destruct (N.ltb_spec u 128); [cbn; lia|]. destruct (N.ltb_spec u 2048); [cbn; lia|].
    destruct (N.ltb_spec u 65536); [cbn; lia|lia].
  - apply Forall_cons in Hu as [Hu Hv]. apply Forall_cons in Hv as [Hv Ht]. rewrite utf8_pair by done. specialize (IH Ht).
    rewrite length_app, (pair_bytes u v Hp). cbn [length]. lia.
Qed.

(** ** The round trip *)

(** A code point that is no surrogate. *)
Definition scalar (p : N) : Prop := (p < 1114112)%N /\ is_surrogate p = false.

Ltac n_div := zify; Z.to_euclidean_division_equations; lia.

Lemma decode_point p bs : scalar p -> utf8_decode (point_bytes p ++ bs) = app (point_units p) <$> utf8_decode bs.
Proof.
  intros [Hp Hs]. unfold point_bytes.
  destruct (N.ltb_spec p 128) as [H|H].
  { cbn [app utf8_decode]. rewrite (proj2 (N.ltb_lt _ _) H). unfold point_units.
    by rewrite (proj2 (N.ltb_lt p 65536)) by lia. }
  destruct (N.ltb_spec p 2048) as [H1|H1].
  { cbn [app utf8_decode]. unfold is_continuation.
    assert (p / 64 < 32 /\ 2 <= p / 64 /\ p mod 64 < 64 /\ p = p / 64 * 64 + p mod 64)%N as (A1 & A2 & A3 & A4) by n_div.
    set (q := (p / 64)%N) in *. set (r := (p mod 64)%N) in *. 
    rewrite (proj2 (N.ltb_ge _ _)) by lia. rewrite (proj2 (N.leb_le _ _)) by lia. rewrite (proj2 (N.ltb_lt _ _)) by lia.
    rewrite (proj2 (N.leb_le _ _)) by lia. rewrite (proj2 (N.ltb_lt _ _)) by lia. cbn [andb].
    by replace ((192 + q - 192) * 64 + (128 + r - 128))%N with p by lia. }
  destruct (N.ltb_spec p 65536) as [H2|H2].
  { cbn [app utf8_decode]. unfold is_continuation.
    assert (p / 4096 < 16 /\ p / 64 mod 64 < 64 /\ p mod 64 < 64 /\ p = p / 4096 * 4096 + p / 64 mod 64 * 64 + p mod 64)%N
      as (A1 & A2 & A3 & A4) by n_div.
    set (q := (p / 4096)%N) in *. set (r := (p / 64 mod 64)%N) in *. set (s := (p mod 64)%N) in *.
    rewrite (proj2 (N.ltb_ge (224 + q) 128)), (proj2 (N.ltb_ge (224 + q) 224)), andb_false_r by lia.
    rewrite (proj2 (N.leb_le 224 (224 + q))), (proj2 (N.ltb_lt (224 + q) 240)) by lia.
    rewrite (proj2 (N.leb_le 128 (128 + r))), (proj2 (N.ltb_lt (128 + r) 192)) by lia.
    rewrite (proj2 (N.leb_le 128 (128 + s))), (proj2 (N.ltb_lt (128 + s) 192)) by lia. cbn [andb].
    replace ((224 + q - 224) * 4096 + (128 + r - 128) * 64 + (128 + s - 128))%N with p by lia.
    rewrite (proj2 (N.leb_le 2048 p)) by lia. by rewrite Hs. }
  cbn [app utf8_decode]. unfold is_continuation.
  assert (p / 262144 < 5 /\ p / 4096 mod 64 < 64 /\ p / 64 mod 64 < 64 /\ p mod 64 < 64 /\
          p = p / 262144 * 262144 + p / 4096 mod 64 * 4096 + p / 64 mod 64 * 64 + p mod 64)%N as (A1 & A2 & A3 & A4 & A5) by n_div.
  set (q := (p / 262144)%N) in *. set (r := (p / 4096 mod 64)%N) in *. set (s := (p / 64 mod 64)%N) in *. set (t := (p mod 64)%N) in *.
  rewrite (proj2 (N.ltb_ge (240 + q) 128)), (proj2 (N.ltb_ge (240 + q) 224)), (proj2 (N.ltb_ge (240 + q) 240)), !andb_false_r by lia.
  rewrite (proj2 (N.leb_le 240 (240 + q))), (proj2 (N.ltb_lt (240 + q) 245)) by lia.
  rewrite (proj2 (N.leb_le 128 (128 + r))), (proj2 (N.ltb_lt (128 + r) 192)) by lia.
  rewrite (proj2 (N.leb_le 128 (128 + s))), (proj2 (N.ltb_lt (128 + s) 192)) by lia.
  rewrite (proj2 (N.leb_le 128 (128 + t))), (proj2 (N.ltb_lt (128 + t) 192)) by lia. cbn [andb].
  replace ((240 + q - 240) * 262144 + (128 + r - 128) * 4096 + (128 + s - 128) * 64 + (128 + t - 128))%N with p by lia.
  by rewrite (proj2 (N.leb_le 65536 p)), (proj2 (N.ltb_lt p 1114112)) by lia.
Qed.

Lemma pair_units u v : is_high u && is_low v = true -> scalar (pair_point u v) /\ point_units (pair_point u v) = [u; v].
Proof.
  unfold is_high, is_low, scalar, is_surrogate, point_units, pair_point. rewrite !andb_true_iff, !N.leb_le, !N.ltb_lt.
  intros [[H1 H2] [H3 H4]]. set (p := (65536 + (u - 55296) * 1024 + (v - 56320))%N).
  assert (Hq : ((p - 65536) / 1024 = u - 55296 /\ (p - 65536) mod 1024 = v - 56320)%N) by (subst p; n_div).
  destruct Hq as [-> ->]. split; [split; [subst p; lia|]|].
  - apply andb_false_iff. right. apply N.ltb_ge. subst p. lia.
  - rewrite (proj2 (N.ltb_ge p 65536)) by (subst p; lia). f_equal; [lia|]. f_equal. lia.
Qed.

Lemma utf8_round_trip t : well_formed t = true -> utf8_decode (utf8 t) = Some t.
Proof.
  induction t as [|u t Hs IH|u v t Hp IH] using text_pairs_ind; intros Hw; [done| |].
  - assert (Hu : unit_ok u = true /\ is_surrogate u = false /\ well_formed t = true).
    { revert Hs Hw. destruct t as [|v t]; cbn [well_formed starts_pair].
      - rewrite andb_true_iff, negb_true_iff. tauto.
      - intros -> Hw. rewrite !andb_true_iff, negb_true_iff in Hw. tauto. }
    destruct Hu as (Hu & Hns & Ht). rewrite utf8_single by done. unfold unit_point. rewrite Hns.
    apply N.ltb_lt in Hu. rewrite decode_point by (split; [lia|done]). rewrite (IH Ht). cbn.
    unfold point_units. by rewrite (proj2 (N.ltb_lt _ _) Hu).
  - cbn [well_formed] in Hw. rewrite Hp in Hw. destruct (pair_units u v Hp) as [Hsc Hpu].
    by rewrite utf8_pair, decode_point, (IH Hw), Hpu by done.
Qed.

Lemma well_formed_units t : well_formed t = true -> units t.
Proof.
  induction t as [|u t Hs IH|u v t Hp IH] using text_pairs_ind; intros Hw; [constructor| |].
  - assert (Hu : unit_ok u = true /\ well_formed t = true).
    { revert Hs Hw. destruct t as [|v t]; cbn [well_formed starts_pair].
      - rewrite andb_true_iff. tauto.
      - intros -> Hw. rewrite !andb_true_iff in Hw. tauto. }
    destruct Hu as [Hu Ht]. constructor; [by apply N.ltb_lt|by apply IH].
  - cbn [well_formed] in Hw. rewrite Hp in Hw. unfold is_high, is_low in Hp.
    rewrite !andb_true_iff, !N.ltb_lt in Hp. constructor; [lia|]. constructor; [lia|by apply IH].
Qed.

(** ** JSON text *)

(** [JSON.stringify], [None] for a value that has no JSON text, and [JSON.parse], [None]
    for a text that is no JSON. *)
Class JsonText (V : Type) : Type := {
  stringify : V -> option text;
  parse : text -> option V;
}.

(** What the link relies on: the text of a value has no lone surrogate (JSON.stringify
    escapes them) and parses to the value. *)
Class JsonTextLaws (V : Type) `{JsonText V} : Prop := {
  stringify_well_formed (v : V) t : stringify v = Some t -> well_formed t = true;
  parse_stringify (v : V) t : stringify v = Some t -> parse t = Some v;
}.

(** ** Parts *)

Inductive Part : Type :=
| PText (json : text)
| PBytes (b : bytes)
| PDeflated (b : bytes).

(** ** Messages *)

Definition CHAIN : N := 32.
Definition RETRY_HOPS : N := 16.

Inductive CauseKind : Type := Transient | Broken | Waiting.
Definition CAUSE_KINDS : list CauseKind := [Transient; Broken; Waiting].

Section Messages.
Context (V : Type).

(** A member of a hold that failed; the error is a wire error's JSON. *)
Record FailedMember : Type := { fm_member : N; fm_error : V }.

Record BoundEntry : Type := {
  be_hold : N;
  be_variant : N;
  be_members : list (N * Part);
  be_failed : list FailedMember;
}.

Record StateEntry : Type := {
  se_hold : N;
  se_members : list (N * Part);
  se_failed : list FailedMember;
  se_retired : list N;
}.

Record HoldFields : Type := {
  h_hold : N;
  h_type : text;
  h_version : N;
  h_fingerprint : text;
  h_params : Part;
  h_addressKind : text;
  h_addressParams : V;
  h_principal : option V;
  h_incarnation : option text;
  h_chain : option (list text);
  h_limit : option N;
}.

Inductive Body : Type :=
| MHello (protocol : N) (incarnation : text) (calls : N)
| MHold (fields : HoldFields)
| MRelease (hold : N)
| MCall (call hold method : N) (args : option Part) (segments : option (list bytes))
| MAbort (call : N)
| MBound (holds : list BoundEntry)
| MState (holds : list StateEntry)
| MFailed (hold : N) (cause : CauseKind) (error : V) (retryIn : option N)
| MResult (call : N) (value : option Part) (segments : option (list bytes))
| MError (call : N) (error : V)
| MGone (hold : N) (error : V)
| MRetry (hold hops : N)
| MLoading (hold : N)
| MAck
| MClosed
| MPing
| MPong
| MRevoke (revocation : V).

(** The origin is a field of every kind here; the schema refuses it on [hello], [revoke],
    [ping] and [pong] and asks for it on [closed]. *)
Record Message : Type := { m_origin : option N; m_body : Body }.
End Messages.

Arguments fm_member {V}.
Arguments fm_error {V}.
Arguments be_hold {V}.
Arguments be_variant {V}.
Arguments be_members {V}.
Arguments be_failed {V}.
Arguments se_hold {V}.
Arguments se_members {V}.
Arguments se_failed {V}.
Arguments se_retired {V}.
Arguments h_hold {V}.
Arguments h_type {V}.
Arguments h_version {V}.
Arguments h_fingerprint {V}.
Arguments h_params {V}.
Arguments h_addressKind {V}.
Arguments h_addressParams {V}.
Arguments h_principal {V}.
Arguments h_incarnation {V}.
Arguments h_chain {V}.
Arguments h_limit {V}.
Arguments m_origin {V}.
Arguments m_body {V}.
Arguments MHello {V}.
Arguments MRelease {V}.
Arguments MCall {V}.
Arguments MAbort {V}.
Arguments MResult {V}.
Arguments MRetry {V}.
Arguments MLoading {V}.
Arguments MAck {V}.
Arguments MClosed {V}.
Arguments MPing {V}.
Arguments MPong {V}.
Arguments MHold {V}.
Arguments MBound {V}.
Arguments MState {V}.
Arguments MFailed {V}.
Arguments MError {V}.
Arguments MGone {V}.
Arguments MRevoke {V}.

(** Unicode and hexadecimal text of IDs. *)
Definition is_hex (u : N) : bool := ((48 <=? u) && (u <? 58) || (97 <=? u) && (u <? 103))%N.

Definition dash : N := 45.
(** [replaceAll("-", "")]. *)
Definition undash (t : text) : text := filter (fun u => u <> dash) t.

(** The 32 digits of a UUID with its dashes. *)
Definition dashed (t : text) : text :=
  take 8 t ++ [dash] ++ slice 8 12 t ++ [dash] ++ slice 12 16 t ++ [dash] ++ slice 16 20 t ++ [dash] ++ drop 20 t.

(** The pattern of an incarnation. *)
Definition is_incarnation (t : text) : bool :=
  let h := undash t in
  (length h =? 32) && forallb is_hex h && bool_decide (dashed h = t).

(** The pattern of a fingerprint. *)
Definition is_fingerprint (t : text) : bool := (length t =? 16) && forallb is_hex t.
