(* ===== verification/LinkWriter.v ===== *)
(** The writer of packets (chord/src/link/binary.ts), and what it writes. *)
From S2P Require Import Prelude JsString EditText LinkMessage.

Inductive binary_error : Type :=
| Lost
| NotHex (length_ : nat)
| EndsEarly
| VarintTooLarge
| CountTooLarge
| UnknownKind
| UnknownHoldFlags
| UnknownFailureKind
| UnknownPayloadFlags
| BytesAfter
| BadUtf8
| BadJson.

Abbreviation bres := (res binary_error).

Definition blen (bs : bytes) : N := N.of_nat (length bs).

(** ** The buffer *)

(** The capacity of [#buffer], and the bytes written: [#length] is their number. *)
Record Writer : Type := { w_capacity : N; w_written : bytes }.

Abbreviation wop := (Writer -> bres Writer).

Definition writer_new : Writer := {| w_capacity := 256; w_written := [] |}.

Definition SHORT : nat := 42.
Definition LONG : N := 4096.
Definition LENGTH_SLOT : nat := 5.
Definition SPARE : N := 4096.

Definition reserve (n : N) (w : Writer) : Writer :=
  if (blen (w_written w) + n <=? w_capacity w)%N then w
  else {| w_capacity := N.max (w_capacity w * 2) (blen (w_written w) + n + SPARE); w_written := w_written w |}.

(** Bytes put at the end without making room. *)
Definition put_bytes (bs : bytes) : wop := fun w =>
  if (blen (w_written w) + blen bs <=? w_capacity w)%N
  then Ok {| w_capacity := w_capacity w; w_written := w_written w ++ bs |}
  else Throw Lost.

Definition write_byte (b : N) : wop := fun w => put_bytes [b] (reserve 1 w).

(** The loop of [varint]; the fuel bounds the digits. *)
Fixpoint varint_bytes (fuel : nat) (rest : N) : bytes :=
  match fuel with
  | S fuel' => if (128 <=? rest)%N then N.lor (rest mod 128) 128 :: varint_bytes fuel' (rest / 128) else [rest]
  | O => [rest]
  end.

Definition varint_of (value : N) : bytes := varint_bytes (N.to_nat (N.log2 value)) value.

Definition write_varint (value : N) : wop := fun w => put_bytes (varint_of value) (reserve 8 w).

Definition write_raw (bs : bytes) : wop := fun w => put_bytes bs (reserve (blen bs) w).

(** ** Text *)

(** The loop of a long text; the fuel bounds the rounds. *)
Fixpoint write_rounds (fuel : nat) (t : text) (read : nat) : wop := fun w =>
  if length t <=? read then Ok w
  else
    match fuel with
    | O => Throw Lost
    | S fuel' =>
        let room := N.to_nat (w_capacity w - blen (w_written w)) in
        let '(more, written) := encodeInto (drop read t) room in
        w' ← put_bytes written w;
        let read' := read + more in
        write_rounds fuel' t read'
          (if read' <? length t then reserve (N.max (N.of_nat (length t - read') * 2) 4) w' else w')
    end.

(** The five bytes of a length behind which a long text stands. *)
Fixpoint slot_bytes (n : nat) (length_ : N) : bytes :=
  match n with
  | O => []
  | S O => [(length_ mod 128)%N]
  | S n' => N.lor (length_ mod 128) 128 :: slot_bytes n' (length_ / 128)
  end.

(** [#text]; the scale is 1 or 2. *)
Definition write_text (t : text) (scale : N) : wop := fun w =>
  if length t <=? SHORT / N.to_nat scale then
    let w1 := reserve (1 + N.of_nat (length t) * 3) w in
    let room := N.to_nat (w_capacity w1 - (blen (w_written w1) + 1)) in
    let '(_, written) := encodeInto t room in
    put_bytes ((blen written * scale)%N :: written) w1
  else if (N.of_nat (length t) <? LONG)%N then
    let bs := utf8 t in
    w1 ← write_varint (blen bs * scale) w;
    write_raw bs w1
  else
    let slot := length (w_written w) in
    w1 ← put_bytes (replicate LENGTH_SLOT 0%N) (reserve (N.of_nat LENGTH_SLOT + N.of_nat (length t)) w);
    w2 ← write_rounds (length t) t 0 w1;
    let length_ := ((blen (w_written w2) - N.of_nat slot - N.of_nat LENGTH_SLOT) * scale)%N in
    Ok {| w_capacity := w_capacity w2;
          w_written := take slot (w_written w2) ++ slot_bytes LENGTH_SLOT length_
                       ++ drop (slot + LENGTH_SLOT) (w_written w2) |}.

Definition write_string (t : text) : wop := write_text t 1.

Definition DEFLATED : N := 1.

Definition write_part (p : Part) : wop := fun w =>
  match p with
  | PText t => write_text t 2 w
  | PBytes bs => w1 ← write_varint (blen bs * 2 + 0) w; write_raw bs w1
  | PDeflated bs => w1 ← write_varint (blen bs * 2 + DEFLATED) w; write_raw bs w1
  end.

(** Writes one after the other. *)
Fixpoint write_all (ops : list wop) : wop := fun w =>
  match ops with
  | [] => Ok w
  | op :: ops' => w' ← op w; write_all ops' w'
  end.

(** [finish]: the message is a view of the buffer, or a copy when the buffer has much room
    left; the size of what is kept and the bytes. *)
Definition finish (w : Writer) : N * bytes :=
  let spare := (w_capacity w - blen (w_written w))%N in
  if ((64 <=? spare) && (blen (w_written w) <? spare * 8))%N then (blen (w_written w), w_written w)
  else (w_capacity w, w_written w).

(** The text [null]. *)
Definition null_text : text := [110; 117; 108; 108]%N.

Section Json.
Context {V : Type} `{JsonText V}.

Definition write_json (v : V) : wop := write_string (default null_text (stringify v)).
End Json.

Definition writer_wf (w : Writer) : Prop := (blen (w_written w) <= w_capacity w)%N.

(** The operation appends the bytes. *)
Definition writes (op : wop) (bs : bytes) : Prop :=
  forall w, writer_wf w -> exists w', op w = Ok w' /\ writer_wf w' /\ w_written w' = w_written w ++ bs.

Lemma blen_app a b : blen (a ++ b) = (blen a + blen b)%N.
Proof. unfold blen. rewrite length_app. lia. Qed.

Lemma reserve_spec n w :
  writer_wf w -> w_written (reserve n w) = w_written w /\ (blen (w_written w) + n <= w_capacity (reserve n w))%N.
Proof.
  unfold reserve, writer_wf. intros Hw. destruct (N.leb_spec (blen (w_written w) + n) (w_capacity w)); [done|].
  cbn. split; [done|]. lia.
Qed.

Lemma put_spec bs w :
  (blen (w_written w) + blen bs <= w_capacity w)%N ->
  exists w', put_bytes bs w = Ok w' /\ writer_wf w' /\ w_written w' = w_written w ++ bs /\ w_capacity w' = w_capacity w.
Proof.
  intros H. unfold put_bytes. rewrite (proj2 (N.leb_le _ _) H). eexists. split; [done|]. unfold writer_wf. cbn.
  rewrite blen_app. done.
Qed.

(** Making room for at least the bytes, and putting them. *)
Lemma writes_reserved n bs : (blen bs <= n)%N -> writes (fun w => put_bytes bs (reserve n w)) bs.
Proof.
  intros Hn w Hw. destruct (reserve_spec n w Hw) as [H1 H2].
  destruct (put_spec bs (reserve n w)) as (w' & H3 & H4 & H5 & _); [rewrite H1; lia|]. rewrite H1 in H5. by exists w'.
Qed.

Lemma writes_byte b : writes (write_byte b) [b].
Proof. by apply writes_reserved. Qed.

Lemma writes_raw bs : writes (write_raw bs) bs.
Proof. by apply writes_reserved. Qed.

Lemma varint_length fuel k v : (v < 128 ^ N.of_nat (S k))%N -> length (varint_bytes fuel v) <= S k.
Proof.
  revert k v; induction fuel as [|fuel IH]; intros k v Hv; cbn [varint_bytes]; [cbn; lia|].
  destruct (N.leb_spec 128 v) as [H|H]; [|cbn; lia]. destruct k as [|k]; [cbn in Hv; lia|].
  cbn [length]. apply le_n_S, IH. apply N.Div0.div_lt_upper_bound.
  rewrite <- N.pow_succ_r'. by replace (N.succ (N.of_nat (S k))) with (N.of_nat (S (S k))) by lia.
Qed.

(** The largest integer that is safe. *)
Definition MAX_SAFE : N := 9007199254740991.

Lemma writes_varint v : (v <= MAX_SAFE)%N -> writes (write_varint v) (varint_of v).
Proof.
  intros Hv. apply writes_reserved. unfold blen, varint_of.
  assert (length (varint_bytes (N.to_nat (N.log2 v)) v) <= 8); [|lia]. apply varint_length.
  eapply N.le_lt_trans; [exact Hv|]. by vm_compute.
Qed.

Lemma writes_seq op1 op2 b1 b2 : writes op1 b1 -> writes op2 b2 -> writes (fun w => w' ← op1 w; op2 w') (b1 ++ b2).
Proof.
  intros H1 H2 w Hw. destruct (H1 w Hw) as (w1 & E1 & Hw1 & B1). destruct (H2 w1 Hw1) as (w2 & E2 & Hw2 & B2).
  exists w2. cbn. rewrite E1. cbn. split; [done|]. split; [done|]. by rewrite B2, B1, app_assoc.
Qed.

Lemma writes_all ops bss : Forall2 writes ops bss -> writes (write_all ops) (concat bss).
Proof.
  induction 1 as [|op bs ops bss Hop _ IH]; [|by apply writes_seq].
  intros w Hw. exists w. by rewrite app_nil_r.
Qed.

(** ** Text *)

Lemma rounds_spec t : forall fuel read w,
  writer_wf w -> read <= length t -> length t - read <= fuel ->
  (read < length t -> (blen (w_written w) + 4 <= w_capacity w)%N) ->
  exists w', write_rounds fuel t read w = Ok w' /\ writer_wf w' /\ w_written w' = w_written w ++ utf8 (drop read t).
Proof.
  induction fuel as [|fuel IH]; intros read w Hw Hr Hf Hroom; cbn [write_rounds].
  - destruct (Nat.leb_spec (length t) read); [|lia]. exists w. rewrite drop_ge by lia. by rewrite app_nil_r.
  - destruct (Nat.leb_spec (length t) read) as [Hd|Hd].
    { exists w. rewrite drop_ge by lia. by rewrite app_nil_r. }
    specialize (Hroom Hd). set (room := N.to_nat (w_capacity w - blen (w_written w))).
    destruct (encodeInto (drop read t) room) as [more written] eqn:E.
    destruct (encodeInto_spec _ _ _ _ E) as (H1 & H2 & H3 & _ & H5). rewrite length_drop in H1. rewrite drop_drop in H3.
    assert (Hpos : 0 < more).
    { apply H5; [|unfold room; lia]. intros Hn%(f_equal length). rewrite length_drop in Hn. cbn in Hn. lia. }
    destruct (put_spec written w) as (w1 & P1 & P2 & P3 & P4); [unfold blen in *; lia|].
    rewrite P1. cbn [mbind res_bind].
    destruct (IH (read + more) (if read + more <? length t then reserve (N.max (N.of_nat (length t - (read + more)) * 2) 4) w1 else w1))
      as (w2 & W1 & W2 & W3).
    + destruct (read + more <? length t); [|done]. destruct (reserve_spec (N.max (N.of_nat (length t - (read + more)) * 2) 4) w1 P2) as [A1 A2].
      unfold writer_wf. rewrite A1. lia.
    + lia.
    + lia.
    + intros Hlt. rewrite (proj2 (Nat.ltb_lt _ _) Hlt).
      destruct (reserve_spec (N.max (N.of_nat (length t - (read + more)) * 2) 4) w1 P2) as [A1 A2]. rewrite A1. lia.
    + exists w2. split; [exact W1|]. split; [exact W2|]. rewrite W3.
      assert (Hsame : w_written (if read + more <? length t then reserve (N.max (N.of_nat (length t - (read + more)) * 2) 4) w1 else w1) = w_written w1).
      { destruct (read + more <? length t); [|done]. by apply reserve_spec. }
      rewrite Hsame, P3, H3, <- app_assoc. done.
Qed.

(** The bytes of a text with its length. *)
Definition text_bytes (t : text) (scale : N) : bytes :=
  (if (N.of_nat (length t) <? LONG)%N then varint_of (blen (utf8 t) * scale) else slot_bytes LENGTH_SLOT (blen (utf8 t) * scale))
  ++ utf8 t.

Lemma slot_length n v : length (slot_bytes n v) = n.
Proof. revert v; induction n as [|n IH]; intros v; [done|]. cbn [slot_bytes]. destruct n; [done|]. cbn [length]. by rewrite IH. Qed.

Lemma varint_small v : (v < 128)%N -> varint_of v = [v].
Proof.
  intros Hv. unfold varint_of. destruct (N.to_nat (N.log2 v)) as [|n]; [done|]. cbn [varint_bytes].
  by rewrite (proj2 (N.leb_gt 128 v)).
Qed.

Lemma writes_text t scale :
  units t -> scale = 1%N \/ scale = 2%N -> (blen (utf8 t) * scale <= MAX_SAFE)%N ->
  writes (write_text t scale) (text_bytes t scale).
Proof.
  intros Hu Hs Hlen. pose proof (utf8_length t Hu) as [Hl1 Hl2]. unfold write_text, text_bytes.
  destruct (Nat.leb_spec (length t) (SHORT / N.to_nat scale)) as [Hshort|Hshort].
  - assert (Hcase : (scale = 1%N /\ length t <= 42) \/ (scale = 2%N /\ length t <= 21)).
    { destruct Hs as [-> | ->]; [left|right]; done. }
    assert (Hb : (blen (utf8 t) * scale < 128)%N) by (unfold blen; lia).
    assert (Hlong : (N.of_nat (length t) < LONG)%N) by (unfold LONG; lia).
    rewrite (proj2 (N.ltb_lt _ _) Hlong), varint_small by done. intros w Hw.
    destruct (reserve_spec (1 + N.of_nat (length t) * 3) w Hw) as [R1 R2].
    rewrite encodeInto_all by (rewrite R1; unfold blen in *; lia).
    destruct (put_spec ((blen (utf8 t) * scale)%N :: utf8 t) (reserve (1 + N.of_nat (length t) * 3) w)) as (w' & P1 & P2 & P3 & _).
    { rewrite R1. unfold blen in *. cbn [length]. lia. }
    exists w'. rewrite R1 in P3. done.
  - destruct (N.ltb_spec (N.of_nat (length t)) LONG) as [Hm|Hlong].
    + apply writes_seq; [by apply writes_varint|apply writes_raw].
    + intros w Hw. destruct (reserve_spec (N.of_nat LENGTH_SLOT + N.of_nat (length t)) w Hw) as [R1 R2].
      destruct (put_spec (replicate LENGTH_SLOT 0%N) (reserve (N.of_nat LENGTH_SLOT + N.of_nat (length t)) w))
        as (w1 & P1 & P2 & P3 & P4).
      { rewrite R1. unfold blen in *. rewrite length_replicate. lia. }
      rewrite P1. cbn [mbind res_bind]. rewrite R1 in P3.
      destruct (rounds_spec t (length t) 0 w1 P2) as (w2 & Q1 & Q2 & Q3); [lia|lia| |].
      { intros _. rewrite P4, P3. rewrite blen_app. unfold blen at 2. rewrite length_replicate. unfold LONG in Hlong. lia. }
      rewrite Q1. cbn [mbind res_bind]. eexists. split; [done|]. rewrite P3 in Q3. cbn [drop] in Q3.
      rewrite <- app_assoc in Q3.
      assert (Hw2 : w_written w2 = w_written w ++ replicate LENGTH_SLOT 0%N ++ utf8 t) by exact Q3.
      assert (Hn : (blen (w_written w2) - N.of_nat (length (w_written w)) - N.of_nat LENGTH_SLOT = blen (utf8 t))%N).
      { rewrite Hw2. unfold blen. rewrite !length_app, length_replicate. lia. }
      assert (Hout : take (length (w_written w)) (w_written w2) ++ slot_bytes LENGTH_SLOT (blen (utf8 t) * scale)
        ++ drop (length (w_written w) + LENGTH_SLOT) (w_written w2)
        = w_written w ++ slot_bytes LENGTH_SLOT (blen (utf8 t) * scale) ++ utf8 t).
      { rewrite Hw2, take_app_length, <- drop_drop, drop_app_length.
        by rewrite drop_app_length' by by rewrite length_replicate. }
      rewrite Hn. cbn [w_written]. rewrite Hout.
      split; [|done]. unfold writer_wf in *. cbn [w_written w_capacity]. rewrite Hw2 in Q2. unfold blen in *.
      rewrite !length_app, ?slot_length, ?length_replicate in Q2. rewrite !length_app, slot_length. lia.
Qed.

Lemma writes_string t : units t -> (blen (utf8 t) <= MAX_SAFE)%N -> writes (write_string t) (text_bytes t 1).
Proof. intros Hu Hl. apply writes_text; [done|by left|lia]. Qed.
