(* ===== verification/LinkBinary.v ===== *)
(** The binary codec of chord/src/link/binary.ts: its [Reader], each read of which takes its
    bytes from the front of those that are left or fails, and messages to bytes and back. *)
From S2P Require Import Prelude JsString EditText LinkMessage LinkWriter.

(** A read: its value and the bytes left. *)
Definition reader (A : Type) : Type := bytes -> bres (A * bytes).

#[export] Instance reader_ret : MRet reader := fun A a left => Ok (a, left).
#[export] Instance reader_bind : MBind reader := fun A B f r left =>
  match r left with Ok (a, left') => f a left' | Throw e => Throw e end.

Definition fail {A} (e : binary_error) : reader A := fun _ => Throw e.

Definition read_byte : reader N := fun left =>
  match left with b :: left' => Ok (b, left') | [] => Throw EndsEarly end.

Definition MAX_SAFE_INTEGER_N : N := 9007199254740991.

(** The loop of [varint]: at most [fuel] bytes more. *)
Fixpoint read_digits (fuel : nat) (value scale : N) : reader N :=
  match fuel with
  | O => fail VarintTooLarge
  | S fuel' =>
      byte ← read_byte;
      let value' := (value + N.land byte 127 * scale)%N in
      if (MAX_SAFE_INTEGER_N <? value')%N then fail VarintTooLarge
      else if (byte <? 128)%N then mret value' else read_digits fuel' value' (scale * 128)%N
  end.

Definition read_varint : reader N := read_digits 8 0 1.

Definition read_raw (length_ : N) : reader bytes := fun left =>
  if (blen left <? length_)%N then Throw EndsEarly
  else Ok (take (N.to_nat length_) left, drop (N.to_nat length_) left).

(** [readUtf8] (chord/src/link/values.ts). *)
Definition readUtf8 (bs : bytes) : bres text := res_of BadUtf8 (utf8_decode bs).

Definition lift {A} (r : bres A) : reader A := fun left =>
  match r with Ok a => Ok (a, left) | Throw e => Throw e end.

Definition read_string : reader text :=
  length_ ← read_varint; bs ← read_raw length_; lift (readUtf8 bs).

(** A part as a view of the message. *)
Definition read_part : reader Part :=
  prefix ← read_varint;
  bs ← read_raw (prefix / 2);
  mret (if (prefix mod 2 =? DEFLATED)%N then PDeflated bs else PBytes bs).

(** [count] reads. *)
Fixpoint repeat_read {A} (count : nat) (r : reader A) : reader (list A) :=
  match count with
  | O => mret []
  | S count' => a ← r; l ← repeat_read count' r; mret (a :: l)
  end.

(** A count that cannot pass the end, as each element takes a byte, then the elements. *)
Definition read_counted {A} (count : N) (r : reader A) : reader (list A) := fun left =>
  if (blen left <? count)%N then Throw CountTooLarge else repeat_read (N.to_nat count) r left.

Definition read_list {A} (r : reader A) : reader (list A) :=
  count ← read_varint; read_counted count r.

Definition PRESENT : N := 1.
Definition SEGMENTS : N := 2.

(** The raw segments of the lengths. *)
Fixpoint read_segments (lengths : list N) : reader (list bytes) :=
  match lengths with
  | [] => mret []
  | l :: lengths' => s ← read_raw l; ss ← read_segments lengths'; mret (s :: ss)
  end.

Definition read_payload : reader (option Part * option (list bytes)) :=
  flags ← read_varint;
  if (flags =? 0)%N then mret (None, None)
  else if negb ((flags =? PRESENT)%N || (flags =? N.lor PRESENT SEGMENTS)%N) then fail UnknownPayloadFlags
  else
    part ← read_part;
    if (flags =? PRESENT)%N then mret (Some part, None)
    else
      lengths ← read_list read_varint;
      segments ← read_segments lengths;
      mret (Some part, Some segments).

(** The message is consumed exactly. *)
Definition read_end : reader unit := fun left =>
  match left with [] => Ok (tt, []) | _ => Throw BytesAfter end.

Section Json.
Context {V : Type} `{JsonText V}.

(** [parseJson] (chord/src/link/values.ts). *)
Definition parseJson (bs : bytes) : bres V := t ← readUtf8 bs; res_of BadJson (parse t).

Definition read_json : reader V := length_ ← read_varint; bs ← read_raw length_; lift (parseJson bs).

Definition read_failed_entry : reader (FailedMember V) :=
  member ← read_varint; error ← read_json; mret {| fm_member := member; fm_error := error |}.

Definition read_failed : reader (list (FailedMember V)) :=
  count ← read_varint; read_counted count read_failed_entry.
End Json.

(** ** Kinds *)

Inductive Kind : Type :=
| KHello | KHold | KRelease | KCall | KAbort | KBound | KState | KFailed | KResult | KError | KGone
| KRetry | KLoading | KAck | KClosed | KPing | KPong | KRevoke.

#[export] Instance Kind_eq_dec : EqDecision Kind.
Proof. solve_decision. Defined.

Definition KINDS : list Kind :=
  [KHello; KHold; KRelease; KCall; KAbort; KBound; KState; KFailed; KResult; KError; KGone;
   KRetry; KLoading; KAck; KClosed; KPing; KPong; KRevoke].

(** [KIND_BYTES.get(kind)], from the index of the kind. *)
Definition kind_byte (k : Kind) : N := N.of_nat (default 0 (fst <$> list_find (fun k' => k' = k) KINDS)).

Definition kind_of {V} (b : Body V) : Kind :=
  match b with
  | MHello _ _ _ => KHello
  | MHold _ => KHold
  | MRelease _ => KRelease
  | MCall _ _ _ _ _ => KCall
  | MAbort _ => KAbort
  | MBound _ => KBound
  | MState _ => KState
  | MFailed _ _ _ _ => KFailed
  | MResult _ _ _ => KResult
  | MError _ _ => KError
  | MGone _ _ => KGone
  | MRetry _ _ => KRetry
  | MLoading _ => KLoading
  | MAck => KAck
  | MClosed => KClosed
  | MPing => KPing
  | MPong => KPong
  | MRevoke _ => KRevoke
  end.

Definition ORIGIN : N := 128.
Definition PRINCIPAL : N := 1.
Definition INCARNATION : N := 2.
Definition CHAIN_FLAG : N := 4.
Definition LIMIT : N := 8.

(** ** IDs *)

Definition hex_value (u : N) : N := if (u <? 58)%N then u - 48 else u - 87.
Definition hex_char (v : N) : N := if (v <? 10)%N then 48 + v else 87 + v.

(** The bytes of pairs of digits. *)
Fixpoint hex_pairs (t : text) : bytes :=
  match t with a :: b :: t' => (hex_value a * 16 + hex_value b)%N :: hex_pairs t' | _ => [] end.

(** [hex]: [length_] bytes of lowercase hexadecimal. *)
Definition hex (t : text) (length_ : nat) : bres bytes :=
  if (length t =? 2 * length_) && forallb is_hex t then Ok (hex_pairs t) else Throw (NotHex length_).

Definition hexText (bs : bytes) : text := concat ((fun b => [hex_char (b / 16); hex_char (b mod 16)]%N) <$> bs).

(** [uuid]. *)
Definition uuid (bs : bytes) : text := dashed (hexText bs).

Definition write_hex (t : text) (length_ : nat) : wop := fun w => bs ← hex t length_; write_raw bs w.
Definition write_id (t : text) : wop := write_hex (undash t) 16.

Section Codec.
Context {V : Type} `{JsonText V}.

(** ** Encoding *)

Definition opt_op {A} (f : A -> wop) (o : option A) : list wop := match o with Some a => [f a] | None => [] end.
Definition opt_flag {A} (o : option A) (flag : N) : N := match o with Some _ => flag | None => 0 end.

Definition write_payload (part : option Part) (segments : option (list bytes)) : wop :=
  match part with
  | None => write_varint 0
  | Some p =>
      write_all
        ([write_varint (match segments with None => PRESENT | Some _ => N.lor PRESENT SEGMENTS end); write_part p]
         ++ match segments with
            | None => []
            | Some ss => write_varint (N.of_nat (length ss)) :: ((fun s => write_varint (blen s)) <$> ss)
            end
         ++ match segments with None => [] | Some ss => write_raw <$> ss end)
  end.

Definition write_failed_entry (f : FailedMember V) : wop :=
  write_all [write_varint (fm_member f); write_json (fm_error f)].

Definition write_failed (failed : list (FailedMember V)) : wop :=
  write_all (write_varint (N.of_nat (length failed)) :: (write_failed_entry <$> failed)).

Definition write_failed_and_retired (failed : list (FailedMember V)) (retired : list N) : wop :=
  write_all
    ([write_varint (N.of_nat (length failed) * 2 + (if 0 <? length retired then 1 else 0))]
     ++ (write_failed_entry <$> failed)
     ++ (if length retired =? 0 then [] else write_varint (N.of_nat (length retired)) :: (write_varint <$> retired))).

Definition write_member (m : N * Part) : wop := write_all [write_varint m.1; write_part m.2].
Definition write_members (ms : list (N * Part)) : wop :=
  write_all (write_varint (N.of_nat (length ms)) :: (write_member <$> ms)).

Definition write_bound (e : BoundEntry V) : wop :=
  write_all [write_varint (be_hold e); write_varint (be_variant e); write_members (be_members e); write_failed (be_failed e)].

Definition write_state (e : StateEntry V) : wop :=
  write_all [write_varint (se_hold e); write_members (se_members e); write_failed_and_retired (se_failed e) (se_retired e)].

Definition cause_byte (c : CauseKind) : N := match c with Transient => 0 | Broken => 1 | Waiting => 2 end.

Definition write_hold (h : HoldFields V) : wop :=
  write_all
    ([write_varint (h_hold h); write_string (h_type h); write_varint (h_version h); write_hex (h_fingerprint h) 8;
      write_part (h_params h); write_string (h_addressKind h); write_json (h_addressParams h);
      write_byte (N.lor (N.lor (N.lor (opt_flag (h_principal h) PRINCIPAL) (opt_flag (h_incarnation h) INCARNATION))
                           (opt_flag (h_chain h) CHAIN_FLAG)) (opt_flag (h_limit h) LIMIT))]
     ++ opt_op write_json (h_principal h)
     ++ opt_op write_id (h_incarnation h)
     ++ opt_op (fun chain => write_all (write_varint (N.of_nat (length chain)) :: (write_id <$> chain))) (h_chain h)
     ++ opt_op write_varint (h_limit h)).

Definition encodeFields (b : Body V) : wop :=
  match b with
  | MHello protocol incarnation calls => write_all [write_varint protocol; write_id incarnation; write_varint calls]
  | MHold h => write_hold h
  | MRelease hold | MLoading hold => write_varint hold
  | MRetry hold hops => write_all [write_varint hold; write_varint hops]
  | MCall call hold method args segments =>
      write_all [write_varint call; write_varint hold; write_varint method; write_payload args segments]
  | MAbort call => write_varint call
  | MBound holds => write_all (write_varint (N.of_nat (length holds)) :: (write_bound <$> holds))
  | MState holds => write_all (write_varint (N.of_nat (length holds)) :: (write_state <$> holds))
  | MFailed hold cause error retryIn =>
      write_all [write_varint hold; write_byte (cause_byte cause); write_json error;
                 write_varint (match retryIn with None => 0 | Some d => d + 1 end)]
  | MResult call value segments => write_all [write_varint call; write_payload value segments]
  | MError call error => write_all [write_varint call; write_json error]
  | MGone hold error => write_all [write_varint hold; write_json error]
  | MRevoke revocation => write_json revocation
  | MAck | MClosed | MPing | MPong => fun w => Ok w
  end.

Definition write_message (m : Message V) : wop :=
  let byte := kind_byte (kind_of (m_body m)) in
  write_all
    (match m_origin m with
     | None => [write_byte byte]
     | Some origin => [write_byte (N.lor byte ORIGIN); write_varint origin]
     end ++ [encodeFields (m_body m)]).

(** The size of the buffer kept with the message, and the message. *)
Definition encode (m : Message V) : bres (N * bytes) := w ← write_message m writer_new; Ok (finish w).

(** ** Decoding *)

Definition has_flag (flags flag : N) : bool := negb (N.land flags flag =? 0)%N.

Definition opt_read {A} (b : bool) (r : reader A) : reader (option A) :=
  if b then a ← r; mret (Some a) else mret None.

Definition read_id : reader text := bs ← read_raw 16; mret (uuid bs).

Definition read_fingerprint : reader text := bs ← read_raw 8; mret (hexText bs).

Definition read_hold : reader (Body V) :=
  hold ← read_varint;
  type ← read_string;
  version ← read_varint;
  fingerprint ← read_fingerprint;
  params ← read_part;
  address_kind ← read_string;
  address_params ← read_json;
  flags ← read_byte;
  if (N.lor (N.lor (N.lor PRINCIPAL INCARNATION) CHAIN_FLAG) LIMIT <? flags)%N then fail UnknownHoldFlags
  else
    principal ← opt_read (has_flag flags PRINCIPAL) read_json;
    incarnation ← opt_read (has_flag flags INCARNATION) read_id;
    chain ← opt_read (has_flag flags CHAIN_FLAG) (read_list read_id);
    limit ← opt_read (has_flag flags LIMIT) read_varint;
    mret (MHold
      {| h_hold := hold; h_type := type; h_version := version; h_fingerprint := fingerprint;
         h_params := params; h_addressKind := address_kind; h_addressParams := address_params;
         h_principal := principal; h_incarnation := incarnation; h_chain := chain; h_limit := limit |}).

Definition read_member : reader (N * Part) := member ← read_varint; value ← read_part; mret (member, value).

Definition read_bound : reader (BoundEntry V) :=
  hold ← read_varint;
  variant ← read_varint;
  members ← read_list read_member;
  failed ← read_failed;
  mret {| be_hold := hold; be_variant := variant; be_members := members; be_failed := failed |}.

Definition read_state : reader (StateEntry V) :=
  hold ← read_varint;
  members ← read_list read_member;
  flags ← read_varint;
  failed ← read_counted (flags / 2) read_failed_entry;
  retired ← (if (flags mod 2 =? 0)%N then mret [] else read_list read_varint);
  mret {| se_hold := hold; se_members := members; se_failed := failed; se_retired := retired |}.

Definition decodeFields (k : Kind) : reader (Body V) :=
  match k with
  | KHello =>
      protocol ← read_varint; incarnation ← read_id; calls ← read_varint; mret (MHello protocol incarnation calls)
  | KHold => read_hold
  | KRelease => hold ← read_varint; mret (MRelease hold)
  | KLoading => hold ← read_varint; mret (MLoading hold)
  | KRetry => hold ← read_varint; hops ← read_varint; mret (MRetry hold hops)
  | KCall =>
      call ← read_varint; hold ← read_varint; method ← read_varint; payload ← read_payload;
      mret (MCall call hold method payload.1 payload.2)
  | KAbort => call ← read_varint; mret (MAbort call)
  | KBound => holds ← read_list read_bound; mret (MBound holds)
  | KState => holds ← read_list read_state; mret (MState holds)
  | KFailed =>
      hold ← read_varint;
      kind ← read_byte;
      match CAUSE_KINDS !! N.to_nat kind with
      | None => fail UnknownFailureKind
      | Some cause =>
          error ← read_json;
          retryIn ← read_varint;
          mret (MFailed hold cause error (if (retryIn =? 0)%N then None else Some (retryIn - 1)%N))
      end
  | KResult => call ← read_varint; payload ← read_payload; mret (MResult call payload.1 payload.2)
  | KError => call ← read_varint; error ← read_json; mret (MError call error)
  | KGone => hold ← read_varint; error ← read_json; mret (MGone hold error)
  | KRevoke => revocation ← read_json; mret (MRevoke revocation)
  | KAck => mret MAck
  | KPing => mret MPing
  | KPong => mret MPong
  | KClosed => mret MClosed
  end.

Definition read_message : reader (Message V) :=
  byte ← read_byte;
  origin ← opt_read (has_flag byte ORIGIN) read_varint;
  match KINDS !! N.to_nat (N.land byte 127) with
  | None => fail UnknownKind
  | Some kind =>
      body ← decodeFields kind;
      _ ← read_end;
      mret {| m_origin := match origin with
                          | Some o => Some o
                          | None => match kind with KClosed => Some 0%N | _ => None end
                          end;
              m_body := body |}
  end.

Definition decode (bs : bytes) : bres (Message V) := p ← read_message bs; Ok p.1.
End Codec.
