(* ===== verification/LinkFacts.v ===== *)
(** What the writer writes, the reader reads: each pair of operations of the binary codec
    carries its values, and so does a message made of them. *)
From S2P Require Import Prelude JsString EditText LinkMessage LinkWriter LinkBinary.

(** [op] writes at least [n] bytes from which [r] reads [a], whatever follows. *)
Definition carries {A} (n : nat) (op : wop) (r : reader A) (a : A) : Prop :=
  exists bs, writes op bs /\ (forall rest, r (bs ++ rest) = Ok (a, rest)) /\ n <= length bs.

Lemma carries_weaken {A} n m op (r : reader A) a : m <= n -> carries n op r a -> carries m op r a.
Proof. intros Hle (bs & H1 & H2 & H3). exists bs. split_and!; [done|done|lia]. Qed.

Lemma writes_ext op op' bs : (forall w, op w = op' w) -> writes op bs -> writes op' bs.
Proof. intros He H w Hw. destruct (H w Hw) as (w' & H1 & H2). exists w'. by rewrite <- He. Qed.

Lemma carries_ret {A} (a : A) : carries 0 (write_all []) (mret a) a.
Proof. exists []. split_and!; [apply (writes_all [] []); constructor|done|done]. Qed.

Lemma carries_bind {A B} n m op ops (r : reader A) (f : A -> reader B) a b :
  carries n op r a -> carries m (write_all ops) (f a) b -> carries (n + m) (write_all (op :: ops)) (r ≫= f) b.
Proof.
  intros (bs1 & W1 & R1 & L1) (bs2 & W2 & R2 & L2). exists (bs1 ++ bs2). split; [by apply writes_seq|]. split.
  - intros rest. unfold mbind, reader_bind. by rewrite <- app_assoc, R1.
  - rewrite length_app. lia.
Qed.

(** The last of several. *)
Lemma carries_last {A B} n op (r : reader A) (f : A -> reader B) a b :
  carries n op r a -> (forall left, f a left = Ok (b, left)) -> carries n (write_all [op]) (r ≫= f) b.
Proof.
  intros H Hf. rewrite <- (Nat.add_0_r n). eapply carries_bind; [exact H|].
  exists []. split_and!; [apply (writes_all [] []); constructor|done|done].
Qed.

(** One operation instead of a list of one. *)
Lemma carries_one {A} n op (r : reader A) a : carries n (write_all [op]) r a -> carries n op r a.
Proof.
  intros (bs & W & R & L). exists bs. split; [|done]. eapply writes_ext; [|exact W]. intros w. cbn.
  unfold mbind, res_bind. by destruct (op w).
Qed.

Lemma write_all_app ops1 ops2 w : write_all (ops1 ++ ops2) w = w' ← write_all ops1 w; write_all ops2 w'.
Proof.
  revert w; induction ops1 as [|op ops1 IH]; intros w; [done|]. cbn. unfold mbind, res_bind.
  destruct (op w); [apply IH|done].
Qed.

Lemma carries_app {A B} n m ops1 ops2 (r : reader A) (f : A -> reader B) a b :
  carries n (write_all ops1) r a -> carries m (write_all ops2) (f a) b -> carries (n + m) (write_all (ops1 ++ ops2)) (r ≫= f) b.
Proof.
  intros H1 H2. destruct (carries_bind n m _ _ _ _ _ _ H1 H2) as (bs & W & R & L). exists bs. split; [|done].
  eapply writes_ext; [|exact W]. intros w. by rewrite write_all_app.
Qed.

(** ** Numbers *)

Lemma digit_bits x : (x < 128)%N -> N.land (N.lor x 128) 127 = x /\ (128 <= N.lor x 128)%N /\ N.land x 127 = x.
Proof.
  intros Hx.
  assert (H : forallb (fun n => let x := N.of_nat n in
    (N.land (N.lor x 128) 127 =? x)%N && (128 <=? N.lor x 128)%N && (N.land x 127 =? x)%N) (seq 0 128) = true) by by vm_compute.
  rewrite forallb_forall in H. specialize (H (N.to_nat x)). rewrite N2Nat.id in H.
  assert (Hin : In (N.to_nat x) (seq 0 128)) by (apply in_seq; lia). apply H in Hin.
  rewrite !andb_true_iff, !N.eqb_eq, N.leb_le in Hin. tauto.
Qed.

Lemma read_last fuel value scale v rest :
  (v < 128)%N -> (value + v * scale <= MAX_SAFE)%N -> read_digits (S fuel) value scale (v :: rest) = Ok ((value + v * scale)%N, rest).
Proof.
  intros Hv Hs. cbn [read_digits]. unfold mbind, reader_bind, read_byte. destruct (digit_bits v Hv) as (_ & _ & ->).
  change MAX_SAFE_INTEGER_N with MAX_SAFE. rewrite (proj2 (N.ltb_ge _ _) Hs), (proj2 (N.ltb_lt _ _) Hv). done.
Qed.

Lemma read_more fuel value scale d rest :
  (d < 128)%N -> (value + d * scale <= MAX_SAFE)%N ->
  read_digits (S fuel) value scale (N.lor d 128 :: rest) = read_digits fuel (value + d * scale) (scale * 128) rest.
Proof.
  intros Hd Hs. cbn [read_digits]. unfold mbind at 1, reader_bind, read_byte. destruct (digit_bits d Hd) as (-> & Hge & _).
  change MAX_SAFE_INTEGER_N with MAX_SAFE. rewrite (proj2 (N.ltb_ge _ _) Hs), (proj2 (N.ltb_ge _ _) Hge). done.
Qed.

Lemma digits_split v : (v = v mod 128 + v / 128 * 128)%N /\ (v mod 128 < 128)%N.
Proof. n_div. Qed.

Lemma read_varint_bytes n f fuel value scale v rest :
  (v < 128 ^ N.of_nat (S n))%N -> n <= f -> n < fuel -> (value + v * scale <= MAX_SAFE)%N ->
  read_digits fuel value scale (varint_bytes f v ++ rest) = Ok ((value + v * scale)%N, rest).
Proof.
  revert f fuel value scale v; induction n as [|n IH]; intros f fuel value scale v Hv Hf Hfuel Hs;
    (destruct fuel as [|fuel]; [lia|]).
  - assert (Hsmall : varint_bytes f v = [v]).
    { destruct f; [done|]. cbn [varint_bytes]. rewrite (proj2 (N.leb_gt 128 v)); [done|]. cbn in Hv. lia. }
    rewrite Hsmall. apply read_last; [cbn in Hv; lia|done].
  - destruct f as [|f]; [lia|]. cbn [varint_bytes]. destruct (N.leb_spec 128 v) as [Hge|Hlt]; [|by apply read_last].
    destruct (digits_split v) as [Hsplit Hd]. cbn [app]. rewrite read_more by (done || nia).
    rewrite IH; [do 2 f_equal; nia| |lia|lia|nia].
    apply N.Div0.div_lt_upper_bound. rewrite <- N.pow_succ_r'.
    by replace (N.succ (N.of_nat (S n))) with (N.of_nat (S (S n))) by lia.
Qed.

Lemma varint_fuel v : (v < 128 ^ N.of_nat (S (N.to_nat (N.log2 v))))%N.
Proof.
  rewrite Nat2N.inj_succ, N2Nat.id. destruct (N.eq_dec v 0) as [->|Hv]; [by vm_compute|].
  destruct (N.log2_spec v) as [_ H]; [lia|]. eapply N.lt_le_trans; [exact H|]. by apply N.pow_le_mono_l.
Qed.

Lemma read_varint_of v rest : (v <= MAX_SAFE)%N -> read_varint (varint_of v ++ rest) = Ok (v, rest).
Proof.
  intros Hv. unfold read_varint, varint_of. destruct (Nat.le_gt_cases (N.to_nat (N.log2 v)) 7) as [Hs|Hs].
  - rewrite (read_varint_bytes (N.to_nat (N.log2 v))); [by rewrite N.add_0_l, N.mul_1_r|apply varint_fuel|lia|lia|lia].
  - rewrite (read_varint_bytes 7); [by rewrite N.add_0_l, N.mul_1_r| |lia|lia|lia].
    eapply N.le_lt_trans; [exact Hv|by vm_compute].
Qed.

Lemma varint_nonempty v : 1 <= length (varint_of v).
Proof. unfold varint_of. destruct (N.to_nat (N.log2 v)); cbn [varint_bytes]; [cbn; lia|]. destruct (128 <=? v)%N; cbn; lia. Qed.

Lemma carries_varint v : (v <= MAX_SAFE)%N -> carries 1 (write_varint v) read_varint v.
Proof.
  intros Hv. exists (varint_of v). split_and!; [by apply writes_varint|intros; by apply read_varint_of|apply varint_nonempty].
Qed.

Lemma carries_byte b : carries 1 (write_byte b) read_byte b.
Proof. exists [b]. split_and!; [apply writes_byte|done|done]. Qed.

Lemma carries_raw bs : carries (length bs) (write_raw bs) (read_raw (blen bs)) bs.
Proof.
  exists bs. split_and!; [apply writes_raw| |done]. intros rest. unfold read_raw.
  rewrite (proj2 (N.ltb_ge _ _)) by (rewrite blen_app; lia). unfold blen. rewrite Nat2N.id.
  by rewrite take_app_length, drop_app_length.
Qed.

Lemma read_slot n fuel value scale v rest :
  0 < n -> n <= fuel -> (v < 128 ^ N.of_nat n)%N -> (value + v * scale <= MAX_SAFE)%N ->
  read_digits fuel value scale (slot_bytes n v ++ rest) = Ok ((value + v * scale)%N, rest).
Proof.
  revert fuel value scale v; induction n as [|n IH]; intros fuel value scale v Hn Hf Hv Hs; [lia|].
  destruct fuel as [|fuel]; [lia|]. cbn [slot_bytes]. destruct (digits_split v) as [Hsplit Hd]. destruct n as [|n].
  - rewrite N.mod_small by (cbn in Hv; lia). apply read_last; [cbn in Hv; lia|done].
  - assert (Hle : (v mod 128 * scale <= v * scale)%N) by (apply N.mul_le_mono_r; lia).
    cbn [app]. rewrite read_more by (done || lia). rewrite IH; [do 2 f_equal; nia|lia|lia| |nia].
    apply N.Div0.div_lt_upper_bound. rewrite <- N.pow_succ_r'.
    by replace (N.succ (N.of_nat (S n))) with (N.of_nat (S (S n))) by lia.
Qed.

(** ** Texts and parts *)

(** A text whose length fits its five bytes, also doubled. *)
Definition text_fits (t : text) : Prop := units t /\ (blen (utf8 t) < 17179869184)%N.

Lemma read_text_prefix t scale rest :
  text_fits t -> scale = 1%N \/ scale = 2%N ->
  read_varint (text_bytes t scale ++ rest) = Ok ((blen (utf8 t) * scale)%N, utf8 t ++ rest).
Proof.
  intros [Hu Hl] Hs. unfold text_bytes. rewrite <- app_assoc.
  assert (Hsafe : (blen (utf8 t) * scale <= MAX_SAFE)%N) by (unfold MAX_SAFE; lia).
  destruct (N.of_nat (length t) <? LONG)%N; [by apply read_varint_of|]. unfold read_varint.
  rewrite read_slot; [by rewrite N.add_0_l, N.mul_1_r|unfold LENGTH_SLOT; lia|unfold LENGTH_SLOT; lia| |lia].
  change (128 ^ N.of_nat LENGTH_SLOT)%N with 34359738368%N. lia.
Qed.

Lemma text_writes t scale : text_fits t -> scale = 1%N \/ scale = 2%N -> writes (write_text t scale) (text_bytes t scale).
Proof. intros [Hu Hl] Hs. apply writes_text; [done|done|]. unfold MAX_SAFE. lia. Qed.

Lemma text_bytes_nonempty t scale : 1 <= length (text_bytes t scale).
Proof.
  unfold text_bytes. rewrite length_app. destruct (_ <? _)%N; [pose proof (varint_nonempty (blen (utf8 t) * scale)); lia|].
  rewrite slot_length. unfold LENGTH_SLOT. lia.
Qed.

Lemma read_raw_app bs rest : read_raw (blen bs) (bs ++ rest) = Ok (bs, rest).
Proof.
  unfold read_raw. rewrite (proj2 (N.ltb_ge (blen (bs ++ rest)) (blen bs))) by (rewrite blen_app; lia).
  unfold blen. rewrite Nat2N.id. by rewrite take_app_length, drop_app_length.
Qed.

Lemma carries_string t : text_fits t -> well_formed t = true -> carries 1 (write_string t) read_string t.
Proof.
  intros Hf Hw. exists (text_bytes t 1). split; [apply text_writes; [done|by left]|]. split; [|apply text_bytes_nonempty].
  intros rest. unfold read_string, mbind, reader_bind. rewrite read_text_prefix by (done || by left).
  rewrite N.mul_1_r, read_raw_app. unfold lift, readUtf8. by rewrite utf8_round_trip.
Qed.

(** A part as it is received. *)
Definition received_part (p : Part) : Part := match p with PText t => PBytes (utf8 t) | _ => p end.

Definition part_fits (p : Part) : Prop :=
  match p with
  | PText t => text_fits t
  | PBytes bs | PDeflated bs => (blen bs * 2 + 1 <= MAX_SAFE)%N
  end.

Lemma double_parts n d : (d < 2)%N -> ((n * 2 + d) / 2 = n /\ (n * 2 + d) mod 2 = d)%N.
Proof. n_div. Qed.

Lemma carries_part p : part_fits p -> carries 1 (write_part p) read_part (received_part p).
Proof.
  assert (Hread : forall pre bs d rest, (d < 2)%N -> read_varint (pre ++ bs ++ rest) = Ok ((blen bs * 2 + d)%N, bs ++ rest) ->
    read_part ((pre ++ bs) ++ rest) = Ok (if (d =? DEFLATED)%N then PDeflated bs else PBytes bs, rest)).
  { intros pre bs d rest Hd Hp. unfold read_part, mbind, reader_bind. rewrite <- app_assoc, Hp.
    destruct (double_parts (blen bs) d Hd) as [-> ->]. by rewrite read_raw_app. }
  destruct p as [t|bs|bs]; cbn [part_fits received_part write_part]; intros Hf.
  - exists (text_bytes t 2). split; [apply text_writes; [done|by right]|]. split; [|apply text_bytes_nonempty].
    intros rest. pose proof (read_text_prefix t 2 rest Hf ltac:(by right)) as Hp. unfold text_bytes in *. rewrite <- app_assoc in Hp.
    apply (Hread _ _ 0%N); [lia|]. by rewrite N.add_0_r.
  - exists (varint_of (blen bs * 2 + 0) ++ bs). split; [apply writes_seq; [apply writes_varint; lia|apply writes_raw]|].
    split; [|rewrite length_app; pose proof (varint_nonempty (blen bs * 2 + 0)); lia].
    intros rest. apply (Hread _ _ 0%N); [lia|]. apply read_varint_of. lia.
  - exists (varint_of (blen bs * 2 + DEFLATED) ++ bs).
    split; [apply writes_seq; [apply writes_varint; unfold DEFLATED; lia|apply writes_raw]|].
    split; [|rewrite length_app; pose proof (varint_nonempty (blen bs * 2 + DEFLATED)); lia].
    intros rest. apply (Hread _ _ 1%N); [lia|]. apply read_varint_of. unfold DEFLATED. lia.
Qed.

(** ** Lists *)

Lemma carries_repeat {A B} n (op : A -> wop) (r : reader B) (g : A -> B) l :
  Forall (fun a => carries n (op a) r (g a)) l ->
  carries (length l * n) (write_all (op <$> l)) (repeat_read (length l) r) (g <$> l).
Proof.
  induction 1 as [|a l Ha _ IH]; [apply carries_ret|]. cbn [length fmap list_fmap repeat_read Nat.mul].
  eapply carries_bind; [exact Ha|]. destruct IH as (bs & W & R & L). exists bs. split; [done|]. split; [|done].
  intros rest. unfold mbind, reader_bind. by rewrite R.
Qed.

(** Elements behind their count, wherever the count was read. *)
Lemma carries_counted {A B} (op : A -> wop) (r : reader B) (g : A -> B) l :
  Forall (fun a => carries 1 (op a) r (g a)) l ->
  carries (length l) (write_all (op <$> l)) (read_counted (N.of_nat (length l)) r) (g <$> l).
Proof.
  intros Hl. destruct (carries_repeat 1 op r g l Hl) as (bs & W & R & L). exists bs. split; [done|]. split; [|lia].
  intros rest. unfold read_counted. rewrite (proj2 (N.ltb_ge (blen (bs ++ rest)) (N.of_nat (length l)))).
  - rewrite Nat2N.id. apply R.
  - unfold blen. rewrite length_app. lia.
Qed.

Lemma carries_list {A B} (op : A -> wop) (r : reader B) (g : A -> B) l :
  (N.of_nat (length l) <= MAX_SAFE)%N -> Forall (fun a => carries 1 (op a) r (g a)) l ->
  carries 1 (write_all (write_varint (N.of_nat (length l)) :: (op <$> l))) (read_list r) (g <$> l).
Proof.
  intros Hn Hl. eapply (carries_weaken (1 + length l)); [lia|].
  eapply carries_bind; [by apply carries_varint|by apply carries_counted].
Qed.

Lemma carries_end {A B} n op (r : reader A) (f : A -> reader B) a b :
  carries n op r a -> (forall left, f a left = Ok (b, left)) -> carries n op (r ≫= f) b.
Proof.
  intros (bs & W & R & L) Hf. exists bs. split; [done|]. split; [|done].
  intros rest. unfold mbind, reader_bind. rewrite R. apply Hf.
Qed.

Lemma carries_opt {A B} (op : A -> wop) (r : reader B) (g : A -> B) o :
  (forall a, o = Some a -> carries 1 (op a) r (g a)) ->
  carries 0 (write_all (opt_op op o)) (opt_read (is_some o) r) (g <$> o).
Proof.
  intros H. destruct o as [a|]; [|apply carries_ret]. eapply (carries_weaken 1); [lia|].
  cbn [opt_op opt_read is_some]. eapply carries_last; [by apply H|done].
Qed.

Lemma carries_same {A} n op (r : reader (list A)) l : carries n op r (id <$> l) -> carries n op r l.
Proof. by rewrite list_fmap_id. Qed.

(** A list of one operation. *)
Lemma carries_single {A} n op (r : reader A) a : carries n op r a -> carries n (write_all [op]) r a.
Proof.
  intros (bs & W & R & L). exists bs. split; [|done]. eapply writes_ext; [|exact W]. intros w. cbn.
  unfold mbind, res_bind. by destruct (op w).
Qed.

(** ** IDs *)

Lemma hex_digit u : is_hex u = true -> (hex_value u < 16)%N /\ hex_char (hex_value u) = u.
Proof.
  unfold is_hex, hex_value, hex_char. rewrite orb_true_iff, !andb_true_iff, !N.leb_le, !N.ltb_lt. intros H.
  destruct (N.ltb_spec u 58).
  - rewrite (proj2 (N.ltb_lt (u - 48) 10)) by lia. lia.
  - rewrite (proj2 (N.ltb_ge (u - 87) 10)) by lia. lia.
Qed.

Lemma hex_pairs_text n t :
  length t = 2 * n -> forallb is_hex t = true -> length (hex_pairs t) = n /\ hexText (hex_pairs t) = t.
Proof.
  revert t; induction n as [|n IH]; intros t Hl Hh; [by destruct t|].
  destruct t as [|a [|b t]]; [done|cbn in Hl; lia|]. cbn [forallb] in Hh. rewrite !andb_true_iff in Hh.
  destruct Hh as (Ha & Hb & Ht). destruct (IH t) as [I1 I2]; [cbn in Hl; lia|done|].
  cbn [hex_pairs length]. rewrite I1. split; [done|]. unfold hexText in *. cbn [fmap list_fmap concat]. rewrite I2.
  destruct (hex_digit a Ha) as [A1 A2], (hex_digit b Hb) as [B1 B2].
  assert (((hex_value a * 16 + hex_value b) / 16 = hex_value a /\ (hex_value a * 16 + hex_value b) mod 16 = hex_value b)%N) as [-> ->] by n_div.
  by rewrite A2, B2.
Qed.

Lemma carries_hex t n :
  (length t =? 2 * n) && forallb is_hex t = true -> carries n (write_hex t n) (bs ← read_raw (N.of_nat n); mret (hexText bs)) t.
Proof.
  intros H. pose proof H as Hb. apply andb_true_iff in Hb as [Hl Hh]. apply Nat.eqb_eq in Hl.
  destruct (hex_pairs_text n t Hl Hh) as [H1 H2]. eapply (carries_end _ _ _ _ (hex_pairs t)); [|intros left; by rewrite H2].
  destruct (carries_raw (hex_pairs t)) as (bs & W & R & L). unfold blen in R. rewrite H1 in R, L.
  exists bs. split; [|done]. eapply writes_ext; [|exact W]. intros w. unfold write_hex, hex. by rewrite H.
Qed.

Lemma carries_id t : is_incarnation t = true -> carries 1 (write_id t) read_id t.
Proof.
  unfold is_incarnation. rewrite !andb_true_iff, bool_decide_eq_true. intros [[Hl Hh] Hd]. eapply (carries_weaken 16); [lia|].
  destruct (carries_hex (undash t) 16) as (bs & W & R & L); [change (2 * 16) with 32; by rewrite Hl, Hh|]. exists bs. split; [done|]. split; [|done].
  intros rest. specialize (R rest). unfold read_id, uuid, mbind, reader_bind, mret, reader_ret in *.
  change (N.of_nat 16) with 16%N in R. destruct (read_raw 16 (bs ++ rest)) as [[x left]|]; [|done].
  injection R as R1 R2. by rewrite R1, R2, Hd.
Qed.

(** ** Payloads *)

Definition num_ok (v : N) : Prop := (v <= MAX_SAFE)%N.
Definition list_ok {A} (P : A -> Prop) (l : list A) : Prop := num_ok (N.of_nat (length l)) /\ Forall P l.

(** A payload with segments has a part. *)
Definition payload_ok (part : option Part) (segments : option (list bytes)) : Prop :=
  match part, segments with
  | None, None => True
  | None, Some _ => False
  | Some p, None => part_fits p
  | Some p, Some ss => part_fits p /\ list_ok (fun s => num_ok (blen s)) ss
  end.

Lemma carries_segments ss : carries 0 (write_all (write_raw <$> ss)) (read_segments (blen <$> ss)) ss.
Proof.
  induction ss as [|s ss IH]; [apply carries_ret|]. cbn [fmap list_fmap read_segments].
  eapply (carries_weaken (length s + 0)); [lia|]. eapply carries_bind; [apply carries_raw|].
  eapply carries_end; [exact IH|done].
Qed.

Lemma carries_payload part segments :
  payload_ok part segments -> carries 1 (write_payload part segments) read_payload (received_part <$> part, segments).
Proof.
  destruct part as [p|], segments as [ss|]; cbn [payload_ok write_payload]; intros H; [| |done|].
  - destruct H as (Hp & Hn & Hs). cbn [app]. eapply (carries_weaken (1 + (1 + (1 + 0)))); [lia|].
    eapply carries_bind; [by apply (carries_varint 3)|]. change (N.lor PRESENT SEGMENTS) with 3%N. cbn [N.eqb Pos.eqb PRESENT orb negb].
    eapply carries_bind; [by apply carries_part|]. cbn [N.eqb Pos.eqb PRESENT]. rewrite app_comm_cons.
    eapply carries_app; [eapply (carries_list _ _ blen)|].
    + done.
    + eapply Forall_impl; [exact Hs|]. intros s. apply carries_varint.
    + eapply carries_end; [apply carries_segments|done].
  - cbn [app]. eapply (carries_weaken (1 + 1)); [lia|].
    eapply carries_bind; [by apply (carries_varint 1)|]. change (N.lor PRESENT SEGMENTS) with 3%N. cbn [N.eqb Pos.eqb PRESENT orb negb].
    eapply carries_last; [by apply carries_part|]. done.
  - eapply carries_end; [by apply carries_varint|done].
Qed.

(** ** Messages *)

Section Messages.
Context {V : Type} `{JsonTextLaws V}.

(** A value that has a JSON text, which fits. *)
Definition json_ok (v : V) : Prop := exists t, stringify v = Some t /\ (blen (utf8 t) < 17179869184)%N.

Definition string_ok (t : text) : Prop := well_formed t = true /\ (blen (utf8 t) < 17179869184)%N.

Lemma string_fits t : string_ok t -> text_fits t.
Proof. intros [Hw Hl]. split; [by apply well_formed_units|done]. Qed.

Lemma carries_json v : json_ok v -> carries 1 (write_json v) read_json v.
Proof.
  intros (t & Ht & Hl). pose proof (stringify_well_formed v t Ht) as Hw.
  destruct (carries_string t) as (bs & W & R & L); [by apply string_fits|done|].
  exists bs. unfold write_json. rewrite Ht. split; [done|]. split; [|done]. intros rest. specialize (R rest).
  unfold read_string, read_json, mbind, reader_bind in *. destruct (read_varint (bs ++ rest)) as [[n left]|]; [|done].
  destruct (read_raw n left) as [[raw left']|]; [|done]. unfold lift, parseJson, mbind, res_bind in *.
  destruct (readUtf8 raw) as [t'|]; [|done]. injection R as -> ->. by rewrite (parse_stringify v t Ht).
Qed.

Definition failed_ok (f : FailedMember V) : Prop := num_ok (fm_member f) /\ json_ok (fm_error f).

Lemma carries_failed_entry f : failed_ok f -> carries 1 (write_failed_entry f) read_failed_entry f.
Proof.
  intros [H1 H2]. eapply (carries_weaken 2); [lia|]. unfold read_failed_entry.
  eapply (carries_bind 1 1); [by apply carries_varint|]. eapply carries_last; [by apply carries_json|]. by destruct f.
Qed.

Lemma failed_carried l : Forall failed_ok l -> Forall (fun f => carries 1 (write_failed_entry f) read_failed_entry (id f)) l.
Proof. intros Hl. eapply Forall_impl; [exact Hl|]. apply carries_failed_entry. Qed.

Lemma carries_failed l : list_ok failed_ok l -> carries 1 (write_failed l) read_failed l.
Proof.
  intros [Hn Hl]. apply carries_same. by apply carries_list; [|apply failed_carried].
Qed.

Definition member_ok (m : N * Part) : Prop := num_ok m.1 /\ part_fits m.2.
Definition received_member (m : N * Part) : N * Part := (m.1, received_part m.2).

Lemma carries_member m : member_ok m -> carries 1 (write_member m) read_member (received_member m).
Proof.
  intros [H1 H2]. eapply (carries_weaken 2); [lia|]. eapply (carries_bind 1 1); [by apply carries_varint|].
  eapply carries_last; [by apply carries_part|done].
Qed.

Lemma carries_members ms :
  list_ok member_ok ms -> carries 1 (write_members ms) (read_list read_member) (received_member <$> ms).
Proof. intros [Hn Hl]. apply carries_list; [done|]. eapply Forall_impl; [exact Hl|]. apply carries_member. Qed.

Definition bound_ok (e : BoundEntry V) : Prop :=
  num_ok (be_hold e) /\ num_ok (be_variant e) /\ list_ok member_ok (be_members e) /\ list_ok failed_ok (be_failed e).

Definition received_bound (e : BoundEntry V) : BoundEntry V :=
  {| be_hold := be_hold e; be_variant := be_variant e; be_members := received_member <$> be_members e; be_failed := be_failed e |}.

Lemma carries_bound e : bound_ok e -> carries 1 (write_bound e) read_bound (received_bound e).
Proof.
  intros (H1 & H2 & H3 & H4). eapply (carries_weaken (1 + (1 + (1 + 1)))); [lia|].
  eapply carries_bind; [by apply carries_varint|]. eapply carries_bind; [by apply carries_varint|].
  eapply carries_bind; [by apply carries_members|]. eapply carries_last; [by apply carries_failed|done].
Qed.

Definition state_ok (e : StateEntry V) : Prop :=
  num_ok (se_hold e) /\ list_ok member_ok (se_members e) /\
  num_ok (N.of_nat (length (se_failed e)) * 2 + 1) /\ Forall failed_ok (se_failed e) /\ list_ok num_ok (se_retired e).

Definition received_state (e : StateEntry V) : StateEntry V :=
  {| se_hold := se_hold e; se_members := received_member <$> se_members e; se_failed := se_failed e; se_retired := se_retired e |}.

Lemma carries_numbers l : list_ok num_ok l ->
  carries 1 (write_all (write_varint (N.of_nat (length l)) :: (write_varint <$> l))) (read_list read_varint) l.
Proof.
  intros [Hn Hl]. apply carries_same, carries_list; [done|].
  eapply Forall_impl; [exact Hl|]. intros v. apply carries_varint.
Qed.

Lemma carries_state e : state_ok e -> carries 1 (write_state e) read_state (received_state e).
Proof.
  intros (H1 & H2 & H3 & H4 & H5). unfold write_state, read_state.
  set (d := if 0 <? length (se_retired e) then 1%N else 0%N).
  assert (Hd : (d < 2)%N) by (unfold d; destruct (0 <? _); lia).
  destruct (double_parts (N.of_nat (length (se_failed e))) d Hd) as [Hdiv Hmod].
  assert (Hflags : num_ok (N.of_nat (length (se_failed e)) * 2 + d)) by (unfold num_ok in *; lia).
  eapply (carries_weaken (1 + (1 + 0))); [lia|]. eapply carries_bind; [by apply carries_varint|].
  eapply carries_bind; [by apply carries_members|].
  apply carries_single. unfold write_failed_and_retired. fold d.
  eapply (carries_weaken (1 + (length (se_failed e) + 0))); [lia|].
  eapply carries_bind; [by apply carries_varint|]. rewrite Hdiv, Hmod.
  eapply (carries_app _ 0 _ _ _ _ (se_failed e)); [apply carries_same; by apply carries_counted, failed_carried|].
  unfold d, received_state. destruct (se_retired e) as [|x l]; cbn [length Nat.ltb Nat.leb Nat.eqb N.eqb]; [apply carries_ret|].
  eapply (carries_weaken 1); [lia|]. eapply carries_end; [by apply carries_numbers|done].
Qed.

(** ** Holds *)

Definition opt_ok {A} (P : A -> Prop) (o : option A) : Prop := forall a, o = Some a -> P a.

Definition hold_ok (h : HoldFields V) : Prop :=
  num_ok (h_hold h) /\ string_ok (h_type h) /\ num_ok (h_version h) /\ is_fingerprint (h_fingerprint h) = true /\
  part_fits (h_params h) /\ string_ok (h_addressKind h) /\ json_ok (h_addressParams h) /\
  opt_ok json_ok (h_principal h) /\ opt_ok (fun t => is_incarnation t = true) (h_incarnation h) /\
  opt_ok (list_ok (fun t => is_incarnation t = true)) (h_chain h) /\ opt_ok num_ok (h_limit h).

Definition received_hold (h : HoldFields V) : HoldFields V :=
  {| h_hold := h_hold h; h_type := h_type h; h_version := h_version h; h_fingerprint := h_fingerprint h;
     h_params := received_part (h_params h); h_addressKind := h_addressKind h; h_addressParams := h_addressParams h;
     h_principal := h_principal h; h_incarnation := h_incarnation h; h_chain := h_chain h; h_limit := h_limit h |}.

(** The flags tell which optional fields follow. *)
Lemma flags_read {A B C D} (a : option A) (b : option B) (c : option C) (d : option D) :
  let flags := N.lor (N.lor (N.lor (opt_flag a PRINCIPAL) (opt_flag b INCARNATION)) (opt_flag c CHAIN_FLAG)) (opt_flag d LIMIT) in
  (N.lor (N.lor (N.lor PRINCIPAL INCARNATION) CHAIN_FLAG) LIMIT <? flags)%N = false /\
  has_flag flags PRINCIPAL = is_some a /\ has_flag flags INCARNATION = is_some b /\
  has_flag flags CHAIN_FLAG = is_some c /\ has_flag flags LIMIT = is_some d.
Proof. by destruct a, b, c, d. Qed.

Lemma opt_same {A} (o : option A) : id <$> o = o.
Proof. by destruct o. Qed.

Lemma carries_chain chain :
  list_ok (fun t => is_incarnation t = true) chain ->
  carries 1 (write_all (write_varint (N.of_nat (length chain)) :: (write_id <$> chain))) (read_list read_id) chain.
Proof.
  intros [Hn Hl]. apply carries_same, carries_list; [done|]. eapply Forall_impl; [exact Hl|]. intros t. apply carries_id.
Qed.

Lemma carries_opt_same {A} (op : A -> wop) (r : reader A) o :
  opt_ok (fun a => carries 1 (op a) r a) o -> carries 0 (write_all (opt_op op o)) (opt_read (is_some o) r) o.
Proof. intros H1. rewrite <- (opt_same o) at 3. by apply carries_opt. Qed.

Lemma carries_options (h : HoldFields V) (f : option V -> option text -> option (list text) -> option N -> Body V) :
  hold_ok h ->
  carries 0
    (write_all (opt_op write_json (h_principal h) ++ opt_op write_id (h_incarnation h)
       ++ opt_op (fun chain => write_all (write_varint (N.of_nat (length chain)) :: (write_id <$> chain))) (h_chain h)
       ++ opt_op write_varint (h_limit h)))
    (principal ← opt_read (is_some (h_principal h)) read_json;
     incarnation ← opt_read (is_some (h_incarnation h)) read_id;
     chain ← opt_read (is_some (h_chain h)) (read_list read_id);
     limit ← opt_read (is_some (h_limit h)) read_varint;
     mret (f principal incarnation chain limit))
    (f (h_principal h) (h_incarnation h) (h_chain h) (h_limit h)).
Proof.
  intros (_ & _ & _ & _ & _ & _ & _ & H1 & H2 & H3 & H4).
  eapply (carries_app 0 0); [apply carries_opt_same; intros a Ha; by apply carries_json, H1|].
  eapply (carries_app 0 0); [apply carries_opt_same; intros a Ha; by apply carries_id, H2|].
  eapply (carries_app 0 0); [apply carries_opt_same; intros a Ha; by apply carries_chain, H3|].
  eapply (carries_end 0); [apply carries_opt_same; intros a Ha; by apply carries_varint, H4|done].
Qed.

Lemma carries_fingerprint t : is_fingerprint t = true -> carries 1 (write_hex t 8) read_fingerprint t.
Proof. intros Ht. eapply (carries_weaken 8); [lia|]. apply (carries_hex t 8 Ht). Qed.

Lemma carries_hold h : hold_ok h -> carries 1 (write_hold h) read_hold (MHold (received_hold h)).
Proof.
  intros Hok. pose proof Hok as (H1 & H2 & H3 & H4 & H5 & H6 & H7 & _). unfold write_hold, read_hold. cbn [app].
  destruct (flags_read (h_principal h) (h_incarnation h) (h_chain h) (h_limit h)) as (F0 & F1 & F2 & F3 & F4).
  set (flags := N.lor _ (opt_flag (h_limit h) LIMIT)) in *.
  eapply (carries_weaken (1 + (1 + (1 + (1 + (1 + (1 + (1 + (1 + 0))))))))); [lia|].
  eapply carries_bind; [by apply carries_varint|].
  eapply carries_bind; [apply carries_string; [by apply string_fits|by apply H2]|].
  eapply carries_bind; [by apply carries_varint|].
  eapply carries_bind; [by apply carries_fingerprint|].
  eapply carries_bind; [by apply carries_part|].
  eapply carries_bind; [apply carries_string; [by apply string_fits|by apply H6]|].
  eapply carries_bind; [by apply carries_json|].
  eapply carries_bind; [apply carries_byte|]. rewrite F0, F1, F2, F3, F4.
  by apply (carries_options h (fun principal incarnation chain limit => MHold
    {| h_hold := h_hold h; h_type := h_type h; h_version := h_version h; h_fingerprint := h_fingerprint h;
       h_params := received_part (h_params h); h_addressKind := h_addressKind h; h_addressParams := h_addressParams h;
       h_principal := principal; h_incarnation := incarnation; h_chain := chain; h_limit := limit |})).
Qed.

(** ** Whole messages *)

(** What the schema and the memory of a host grant: numbers are safe integers, IDs have
    their patterns, texts have no lone surrogates and fit their length, and a payload with
    segments has a part. *)
Definition body_ok (b : Body V) : Prop :=
  match b with
  | MHello protocol incarnation calls => num_ok protocol /\ is_incarnation incarnation = true /\ num_ok calls
  | MHold h => hold_ok h
  | MRelease v | MLoading v | MAbort v => num_ok v
  | MRetry hold hops => num_ok hold /\ num_ok hops
  | MCall call hold method args segments => num_ok call /\ num_ok hold /\ num_ok method /\ payload_ok args segments
  | MBound holds => list_ok bound_ok holds
  | MState holds => list_ok state_ok holds
  | MFailed hold _ error retryIn => num_ok hold /\ json_ok error /\ opt_ok (fun d => num_ok (d + 1)) retryIn
  | MResult call value segments => num_ok call /\ payload_ok value segments
  | MError v error | MGone v error => num_ok v /\ json_ok error
  | MRevoke revocation => json_ok revocation
  | MAck | MClosed | MPing | MPong => True
  end.

(** The message as it is received: texts of parts are their bytes. *)
Definition received_body (b : Body V) : Body V :=
  match b with
  | MHold h => MHold (received_hold h)
  | MCall call hold method args segments => MCall call hold method (received_part <$> args) segments
  | MBound holds => MBound (received_bound <$> holds)
  | MState holds => MState (received_state <$> holds)
  | MResult call value segments => MResult call (received_part <$> value) segments
  | _ => b
  end.

Lemma carries_retry retryIn (f : option N -> Body V) :
  opt_ok (fun d => num_ok (d + 1)) retryIn ->
  carries 1 (write_varint (match retryIn with None => 0 | Some d => d + 1 end)%N)
    (retryIn ← read_varint; mret (f (if (retryIn =? 0)%N then None else Some (retryIn - 1)%N))) (f retryIn).
Proof.
  intros Hr. destruct retryIn as [d|].
  - eapply carries_end; [apply carries_varint; by apply Hr|]. intros left. rewrite (proj2 (N.eqb_neq (d + 1) 0)) by lia.
    by replace (d + 1 - 1)%N with d by lia.
  - eapply carries_end; [by apply carries_varint|done].
Qed.

Lemma carries_failure hold cause error retryIn :
  body_ok (MFailed hold cause error retryIn) ->
  carries 0 (encodeFields (MFailed hold cause error retryIn)) (decodeFields KFailed) (MFailed hold cause error retryIn).
Proof.
  intros (H1 & H2 & H3). cbn [encodeFields decodeFields]. eapply (carries_weaken (1 + (1 + (1 + 1)))); [lia|].
  eapply carries_bind; [by apply carries_varint|]. eapply carries_bind; [apply carries_byte|].
  assert (Hc : CAUSE_KINDS !! N.to_nat (cause_byte cause) = Some cause) by by destruct cause. rewrite Hc.
  eapply carries_bind; [by apply carries_json|]. apply carries_single.
  by apply (carries_retry retryIn (MFailed hold cause error)).
Qed.

Lemma carries_body b : body_ok b -> carries 0 (encodeFields b) (decodeFields (kind_of b)) (received_body b).
Proof.
  destruct b; cbn [body_ok]; intros Hb; cbn [encodeFields decodeFields kind_of received_body].
  - destruct Hb as (H1 & H2 & H3). eapply (carries_weaken (1 + (1 + 1))); [lia|].
    eapply carries_bind; [by apply carries_varint|]. eapply carries_bind; [by apply carries_id|].
    eapply carries_last; [by apply carries_varint|done].
  - eapply (carries_weaken 1); [lia|]. by apply carries_hold.
  - eapply (carries_weaken 1); [lia|]. eapply carries_end; [by apply carries_varint|done].
  - destruct Hb as (H1 & H2 & H3 & H4). eapply (carries_weaken (1 + (1 + (1 + 1)))); [lia|].
    eapply carries_bind; [by apply carries_varint|]. eapply carries_bind; [by apply carries_varint|].
    eapply carries_bind; [by apply carries_varint|]. eapply carries_last; [by apply carries_payload|done].
  - eapply (carries_weaken 1); [lia|]. eapply carries_end; [by apply carries_varint|done].
  - destruct Hb as [Hn Hl]. eapply (carries_weaken 1); [lia|]. eapply carries_end; [apply carries_list|done]; [done|].
    eapply Forall_impl; [exact Hl|]. apply carries_bound.
  - destruct Hb as [Hn Hl]. eapply (carries_weaken 1); [lia|]. eapply carries_end; [apply carries_list|done]; [done|].
    eapply Forall_impl; [exact Hl|]. apply carries_state.
  - by apply carries_failure.
  - destruct Hb as (H1 & H2). eapply (carries_weaken (1 + 1)); [lia|].
    eapply carries_bind; [by apply carries_varint|]. eapply carries_last; [by apply carries_payload|done].
  - destruct Hb as (H1 & H2). eapply (carries_weaken (1 + 1)); [lia|].
    eapply carries_bind; [by apply carries_varint|]. eapply carries_last; [by apply carries_json|done].
  - destruct Hb as (H1 & H2). eapply (carries_weaken (1 + 1)); [lia|].
    eapply carries_bind; [by apply carries_varint|]. eapply carries_last; [by apply carries_json|done].
  - destruct Hb as (H1 & H2). eapply (carries_weaken (1 + 1)); [lia|].
    eapply carries_bind; [by apply carries_varint|]. eapply carries_last; [by apply carries_varint|done].
  - eapply (carries_weaken 1); [lia|]. eapply carries_end; [by apply carries_varint|done].
  - apply carries_ret.
  - apply carries_ret.
  - apply carries_ret.
  - apply carries_ret.
  - eapply (carries_weaken 1); [lia|]. eapply carries_end; [by apply carries_json|done].
Qed.

Definition message_ok (m : Message V) : Prop :=
  opt_ok num_ok (m_origin m) /\ body_ok (m_body m) /\ (kind_of (m_body m) = KClosed -> is_Some (m_origin m)).

Definition received (m : Message V) : Message V := {| m_origin := m_origin m; m_body := received_body (m_body m) |}.

Lemma kind_bits k :
  has_flag (kind_byte k) ORIGIN = false /\ has_flag (N.lor (kind_byte k) ORIGIN) ORIGIN = true /\
  KINDS !! N.to_nat (N.land (kind_byte k) 127) = Some k /\ KINDS !! N.to_nat (N.land (N.lor (kind_byte k) ORIGIN) 127) = Some k.
Proof. by destruct k. Qed.

(** The fields, then the end, of the message of a kind and an origin. *)
Definition read_rest (origin : option N) (kind : Kind) : reader (Message V) :=
  body ← decodeFields kind;
  _ ← read_end;
  mret {| m_origin := match origin with
                      | Some o => Some o
                      | None => match kind with KClosed => Some 0%N | _ => None end
                      end;
          m_body := body |}.

Lemma message_carried m : message_ok m -> exists bs, writes (write_message m) bs /\ read_message bs = Ok (received m, []).
Proof.
  intros (Ho & Hb & Hc). destruct (kind_bits (kind_of (m_body m))) as (K1 & K2 & K3 & K4).
  destruct (carries_body (m_body m) Hb) as (bs & W & R & _). specialize (R []). rewrite app_nil_r in R.
  assert (Hrest : read_rest (m_origin m) (kind_of (m_body m)) bs = Ok (received m, [])).
  { unfold read_rest, mbind, reader_bind. rewrite R. cbn. unfold received.
    destruct (m_origin m) as [o|]; [done|]. destruct (kind_of (m_body m)) eqn:Ek; try done.
    destruct (Hc eq_refl) as [? ?]. done. }
  unfold write_message. destruct (m_origin m) as [o|] eqn:E.
  - specialize (Ho o eq_refl).
    exists ([N.lor (kind_byte (kind_of (m_body m))) ORIGIN] ++ varint_of o ++ bs ++ []). split.
    + apply writes_seq; [apply writes_byte|]. apply writes_seq; [by apply writes_varint|].
      apply (writes_all [_] [bs]). by repeat constructor.
    + rewrite app_nil_r. unfold read_message, mbind, reader_bind. cbn [app read_byte]. rewrite K2.
      cbn [opt_read]. unfold mbind, reader_bind, mret, reader_ret. rewrite read_varint_of by done. rewrite K4. exact Hrest.
  - exists ([kind_byte (kind_of (m_body m))] ++ bs ++ []). split.
    + apply writes_seq; [apply writes_byte|]. apply (writes_all [_] [bs]). by repeat constructor.
    + rewrite app_nil_r. unfold read_message, mbind, reader_bind. cbn [app read_byte]. rewrite K1.
      cbn [opt_read]. unfold mret, reader_ret. rewrite K3. exact Hrest.
Qed.

(** What is kept of the buffer. *)
Lemma finish_spec w :
  writer_wf w -> (finish w).2 = w_written w /\
  (blen (w_written w) <= (finish w).1)%N /\
  ((finish w).1 < blen (w_written w) + 64 \/ ((finish w).1 - blen (w_written w)) * 8 <= blen (w_written w))%N.
Proof.
  unfold writer_wf, finish. intros Hw.
  destruct (N.leb_spec 64 (w_capacity w - blen (w_written w))), (N.ltb_spec (blen (w_written w)) ((w_capacity w - blen (w_written w)) * 8));
    cbn [andb fst snd]; (split; [done|]; split; [lia|]; lia).
Qed.

Lemma message_round_trip m :
  message_ok m -> exists kept bs, encode m = Ok (kept, bs) /\ decode bs = Ok (received m) /\
    (blen bs <= kept)%N /\ (kept < blen bs + 64 \/ (kept - blen bs) * 8 <= blen bs)%N.
Proof.
  intros (bs & W & R)%message_carried. destruct (W writer_new) as (w' & E & Hw & B); [by vm_compute|].
  cbn [writer_new w_written app] in B. destruct (finish_spec w' Hw) as (F1 & F2 & F3).
  exists (finish w').1, bs. unfold encode. rewrite E. cbn. rewrite <- B in *. split; [by destruct (finish w'); cbn in *; subst|].
  split; [|done]. unfold decode. by rewrite R.
Qed.
End Messages.
