(* ===== verification/LinkPart.v ===== *)
(** Parts on links (chord/src/link/part.ts): their size on the wire, compression where they
    originate, and opening them within the limits of the link. The compressor is a
    parameter: it is the platform's. *)
From S2P Require Import Prelude JsString EditText LinkMessage LinkWriter.

(** ** Limits *)

(** A number of bytes, or [Infinity]. *)
Inductive limit : Type := Infinity | Limit (n : N).

Definition above (size : N) (l : limit) : bool := match l with Infinity => false | Limit n => (n <? size)%N end.

(** [PartLimits]: a field may be absent. *)
Record PartLimits : Type := { set_part : option limit; set_decoded : option limit }.

Record Limits : Type := { l_part : limit; l_decoded : limit }.

Definition MiB : N := 1024 * 1024.

Definition UNTRUSTED : Limits := {| l_part := Limit (16 * MiB); l_decoded := Limit (64 * MiB) |}.
Definition NONE : Limits := {| l_part := Infinity; l_decoded := Infinity |}.

Definition linkLimits (trusted : bool) (limits : PartLimits) : Limits :=
  let defaults := if trusted then NONE else UNTRUSTED in
  {| l_part := default (l_part defaults) (set_part limits); l_decoded := default (l_decoded defaults) (set_decoded limits) |}.

(** ** Sizes *)

(** What the UTF-8 bytes of a text are more than its units; the loop of [sizeOf]. *)
Fixpoint extra_bytes (t : text) : N :=
  match t with
  | [] => 0
  | u :: t' =>
      if (u <? 128)%N then extra_bytes t'
      else if (u <? 2048)%N then 1 + extra_bytes t'
      else
        match t' with
        | v :: t'' =>
            if ((55296 <=? u) && (u <? 56320))%N && (N.land v 64512 =? 56320)%N then 2 + extra_bytes t''
            else 2 + extra_bytes t'
        | [] => 2
        end
  end.

Definition sizeOf (p : Part) : N :=
  match p with
  | PText t => N.of_nat (length t) + extra_bytes t
  | PBytes bs | PDeflated bs => blen bs
  end.

(** The error [too_large/part], and the errors of a deflated part. *)
Inductive measure : Type := Wire | Decoded.

Inductive part_error : Type :=
| TooLarge (size : option N) (over : limit) (m : measure)
| NotInflated
| NoDeflateStream.

Definition oversized (p : Part) (l : limit) : option part_error :=
  match l with
  | Infinity => None
  | Limit n => let size := sizeOf p in if (n <? size)%N then Some (TooLarge (Some size) l Wire) else None
  end.

(** ** Compression *)

Inductive Inflated : Type := InflatedBytes (bs : bytes) | InflatedTooLarge | InflatedCorrupt.

Record Compression : Type := { deflate : bytes -> bytes; inflate : bytes -> limit -> Inflated }.

Definition COMPRESS_ABOVE : N := 16 * 1024.

(** The part, and the deflates counted. *)
Definition originPart (json : text) (compression : option Compression) : Part * N :=
  match compression with
  | None => (PText json, 0%N)
  | Some c =>
      if (N.of_nat (length json) * 3 <=? COMPRESS_ABOVE)%N then (PText json, 0%N)
      else
        let bs := utf8 json in
        if (blen bs <=? COMPRESS_ABOVE)%N then (PBytes bs, 0%N)
        else
          let deflated := deflate c bs in
          ((if (blen deflated <? blen bs)%N then PDeflated deflated else PBytes bs), 1%N)
  end.

(** The JSON of a part as it was opened. *)
Inductive Opened : Type := OpenText (t : text) | OpenBytes (bs : bytes).

Definition open_inflated (i : Inflated) (limits : Limits) : res part_error Opened :=
  match i with
  | InflatedBytes bs => Ok (OpenBytes bs)
  | InflatedTooLarge => Throw (TooLarge None (l_decoded limits) Decoded)
  | InflatedCorrupt => Throw NoDeflateStream
  end.

(** What opening gives, and the synchronous inflates counted; [inflated] is the outcome of
    an asynchronous inflate, which the part keeps. *)
Definition openPart (p : Part) (inflated : option Inflated) (limits : Limits) (compression : option Compression) :
    res part_error Opened * N :=
  match oversized p (l_part limits) with
  | Some wire => (Throw wire, 0%N)
  | None =>
      match p with
      | PDeflated bs =>
          match inflated with
          | Some i => (open_inflated i limits, 0%N)
          | None =>
              match compression with
              | None => (Throw NotInflated, 0%N)
              | Some c => (open_inflated (inflate c bs (l_decoded limits)) limits, 1%N)
              end
          end
      | PText _ | PBytes _ =>
          let size := match l_decoded limits with Infinity => 0%N | Limit _ => sizeOf p end in
          if above size (l_decoded limits) then (Throw (TooLarge (Some size) (l_decoded limits) Decoded), 0%N)
          else (Ok (match p with PText t => OpenText t | PBytes bs | PDeflated bs => OpenBytes bs end), 0%N)
      end
  end.

(** ** The asynchronous inflate *)

(** How a read of the decompressed stream settles: with a chunk, at the end, with an error,
    or in any way once the signal is aborted. *)
Inductive StreamRead : Type := Chunk (bs : bytes) | StreamDone | StreamError | Aborted.

(** The outcome kept on the part; none while reads are pending and when it was aborted. *)
Fixpoint inflate_loop (reads : list StreamRead) (l : limit) (chunks : list bytes) (length_ : N) : option Inflated :=
  match reads with
  | [] => None
  | Chunk bs :: reads' =>
      let length' := (length_ + blen bs)%N in
      if above length' l then Some InflatedTooLarge else inflate_loop reads' l (chunks ++ [bs]) length'
  | StreamDone :: _ => Some (InflatedBytes (concat chunks))
  | StreamError :: _ => Some InflatedCorrupt
  | Aborted :: _ => None
  end.

Definition inflateAsync (reads : list StreamRead) (l : limit) : option Inflated := inflate_loop reads l [] 0.
