(* ===== verification/LinkTheorems.v ===== *)
(** What holds of the binary codec of chord's links (chord/src/link/binary.ts): a message is
    read back as it was written, by a writer that loses no byte and keeps little more than
    the message; and a message is never the front of another. The witnesses take for JSON
    values the texts of plain characters, whose JSON text is the text in quotes.
    What holds of parts: the size counted for a text is that of its UTF-8 bytes, what an
    origin makes of a JSON text opens as that text at every end whose limits it keeps, and
    inflating with or without a synchronous compressor gives the same. The witnesses
    compress by leaving out zeros. *)
From S2P Require Import Prelude JsString EditText LinkMessage LinkWriter LinkBinary LinkFacts LinkPart.

(** ** Reads that do not look past their bytes *)

Definition stable {A} (r : reader A) : Prop :=
  forall bs a left x, r bs = Ok (a, left) -> r (bs ++ x) = Ok (a, left ++ x).

Lemma stable_ret {A} (a : A) : stable (mret a).
Proof. by intros bs b left x [= -> ->]. Qed.

Lemma stable_fail {A} e : stable (fail e : reader A).
Proof. by intros bs b left x. Qed.

Lemma stable_bind {A B} (r : reader A) (f : A -> reader B) : stable r -> (forall a, stable (f a)) -> stable (r ≫= f).
Proof.
  intros Hr Hf bs b left x. unfold mbind, reader_bind. destruct (r bs) as [[a left1]|] eqn:E; [|done].
  intros H. rewrite (Hr _ _ _ x E). by apply Hf.
Qed.

Lemma stable_byte : stable read_byte.
Proof. intros [|b bs] a left x; [done|]. by intros [= <- <-]. Qed.

Lemma stable_lift {A} (r : bres A) : stable (lift r).
Proof. intros bs a left x. unfold lift. destruct r; [|done]. by intros [= <- <-]. Qed.

Lemma stable_raw n : stable (read_raw n).
Proof.
  intros bs a left x. unfold read_raw. destruct (N.ltb_spec (blen bs) n) as [|Hn]; [done|]. intros [= <- <-].
  rewrite (proj2 (N.ltb_ge (blen (bs ++ x)) n)) by (rewrite blen_app; lia). unfold blen in Hn.
  by rewrite take_app_le, drop_app_le by lia.
Qed.

Create HintDb stable.
#[export] Hint Resolve stable_ret stable_fail stable_byte stable_lift stable_raw : stable.

(** Binds and conditions, down to reads that are known. *)
Ltac stable :=
  first
    [ solve [auto with stable]
    | match goal with
      | |- stable (_ ≫= _) => apply stable_bind; [stable|intros ?; stable]
      | |- stable (if ?b then _ else _) => destruct b; stable
      | _ => idtac
      end ].

Lemma stable_digits fuel value scale : stable (read_digits fuel value scale).
Proof.
  revert value scale; induction fuel as [|fuel IH]; intros value scale; cbn [read_digits]; stable.
Qed.
#[export] Hint Resolve stable_digits : stable.

Lemma stable_varint : stable read_varint.
Proof. apply stable_digits. Qed.
#[export] Hint Resolve stable_varint : stable.

Lemma stable_string : stable read_string.
Proof. unfold read_string. stable. Qed.

Lemma stable_part : stable read_part.
Proof. unfold read_part. stable. Qed.

Lemma stable_repeat {A} n (r : reader A) : stable r -> stable (repeat_read n r).
Proof. intros Hr. induction n as [|n IH]; cbn [repeat_read]; stable. Qed.

Lemma stable_counted {A} n (r : reader A) : stable r -> stable (read_counted n r).
Proof.
  intros Hr bs a left x. unfold read_counted. destruct (N.ltb_spec (blen bs) n) as [|Hn]; [done|]. intros H.
  rewrite (proj2 (N.ltb_ge (blen (bs ++ x)) n)) by (rewrite blen_app; lia). by apply stable_repeat.
Qed.

Lemma stable_list {A} (r : reader A) : stable r -> stable (read_list r).
Proof. intros Hr. unfold read_list. stable. by apply stable_counted. Qed.

Lemma stable_segments lengths : stable (read_segments lengths).
Proof. induction lengths as [|l ls IH]; cbn [read_segments]; stable. Qed.

Lemma stable_opt {A} b (r : reader A) : stable r -> stable (opt_read b r).
Proof. intros Hr. unfold opt_read. destruct b; stable. Qed.

Lemma stable_id : stable read_id.
Proof. unfold read_id. stable. Qed.

Lemma stable_fingerprint : stable read_fingerprint.
Proof. unfold read_fingerprint. stable. Qed.
#[export] Hint Resolve stable_string stable_part stable_counted stable_list stable_segments stable_opt stable_id
  stable_fingerprint : stable.

Lemma stable_payload : stable read_payload.
Proof. unfold read_payload. stable. Qed.

Section Json.
Context {V : Type} `{JsonText V}.

Lemma stable_json : stable (read_json (V := V)).
Proof. unfold read_json. stable. Qed.

Lemma stable_failed_entry : stable (read_failed_entry (V := V)).
Proof. unfold read_failed_entry. stable. apply stable_json. Qed.

Lemma stable_member : stable read_member.
Proof. unfold read_member. stable. Qed.

#[local] Hint Resolve stable_json stable_failed_entry stable_member stable_payload : stable.

Lemma stable_failed : stable (read_failed (V := V)).
Proof. unfold read_failed. stable. Qed.
#[local] Hint Resolve stable_failed : stable.

Lemma stable_bound : stable (read_bound (V := V)).
Proof. unfold read_bound. stable. Qed.

Lemma stable_state : stable (read_state (V := V)).
Proof. unfold read_state. stable. Qed.

Lemma stable_hold : stable (read_hold (V := V)).
Proof. unfold read_hold. stable. Qed.
#[local] Hint Resolve stable_bound stable_state stable_hold : stable.

Lemma stable_fields k : stable (decodeFields (V := V) k).
Proof. destruct k; cbn [decodeFields]; stable. destruct (CAUSE_KINDS !! _); stable. Qed.
End Json.

(** ** A message, and no more *)

Section Messages.
Context {V : Type} `{JsonText V}.

Lemma stable_origin b : stable (opt_read b read_varint).
Proof. auto with stable. Qed.

(** Each step before the end is unmoved by the bytes that follow, and the end refuses them. *)
Lemma end_refuses {A B} (r : reader A) (f : A -> reader B) bs x m left :
  stable r -> (forall a left', f a left' = Ok (m, left) -> f a (left' ++ x) = Throw BytesAfter) ->
  (r ≫= f) bs = Ok (m, left) -> (r ≫= f) (bs ++ x) = Throw BytesAfter.
Proof.
  intros Hr Hf. unfold mbind, reader_bind. destruct (r bs) as [[a left1]|] eqn:E; [|done].
  intros Hm. rewrite (Hr _ _ _ x E). by apply Hf.
Qed.

Lemma read_end_refuses {B} (f : unit -> reader B) bs x m left :
  x <> [] -> (read_end ≫= f) bs = Ok (m, left) -> (read_end ≫= f) (bs ++ x) = Throw BytesAfter.
Proof. intros Hx. unfold mbind, reader_bind. destruct bs; [|done]. by destruct x. Qed.

(** C37. No message is the front of another: bytes that decode to a message are refused, as
    bytes after the message, when anything follows them (chord/src/link/binary.ts,
    [decode]: every read takes its bytes from the front, whatever follows, and [end] is
    the last). So a link that delivers more or less than one whole message is an error and
    never another message. *)
Theorem decode_prefix_free (bs x : bytes) (m : Message V) :
  decode bs = Ok m -> x <> [] -> decode (bs ++ x) = Throw BytesAfter.
Proof.
  unfold decode, mbind, res_bind. intros Hd Hx. destruct (read_message bs) as [[m' left]|] eqn:E; [|done].
  enough (read_message (V := V) (bs ++ x) = Throw BytesAfter) as -> by done. revert E. unfold read_message.
  apply end_refuses; [auto with stable|]. intros byte left1.
  apply end_refuses; [apply stable_origin|]. intros origin left2. destruct (KINDS !! _) as [kind|]; [|done].
  apply end_refuses; [apply stable_fields|]. intros body left3. by apply read_end_refuses.
Qed.

(** C35. What is encoded is decoded as it was: for every message whose numbers are safe
    integers, whose IDs have their patterns, whose texts have no lone surrogates and
    lengths that fit, [encode] writes bytes without losing any, and [decode] of those
    bytes is the message, where a part that was text is its UTF-8 bytes. What the writer
    keeps for the message is the bytes and less than 64 more or at most an eighth more
    (chord/src/link/binary.ts, all of it, on every kind). *)
Theorem binary_round_trip `{!JsonTextLaws V} (m : Message V) :
  message_ok m ->
  exists kept bs, encode m = Ok (kept, bs) /\ decode bs = Ok (received m) /\
    (blen bs <= kept)%N /\ (kept < blen bs + 64 \/ (kept - blen bs) * 8 <= blen bs)%N.
Proof. apply message_round_trip. Qed.
End Messages.

(** ** A JSON text to evaluate with *)

(** A text of plain characters: no quote, backslash, control character or surrogate. *)
Definition is_plain (u : N) : bool := ((32 <=? u) && (u <? 128) && negb (u =? 34) && negb (u =? 92))%N.

Definition plain_text : Type := { t : text | forallb is_plain t = true }.

Definition quote : N := 34.

(** The text between quotes. *)
Definition unquote (t : text) : option text :=
  match t with
  | q :: t' =>
      if (q =? quote)%N && bool_decide (last t' = Some quote) then Some (take (length t' - 1) t') else None
  | [] => None
  end.

Definition plain_of (t : text) : option plain_text :=
  match decide (forallb is_plain t = true) with left H => Some (exist _ t H) | right _ => None end.

#[export] Instance plain_json : JsonText plain_text := {|
  stringify v := Some (quote :: `v ++ [quote]);
  parse t := unquote t ≫= plain_of;
|}.

(** A unit that is no surrogate. *)
Definition ordinary (u : N) : bool := unit_ok u && negb (is_surrogate u).

Lemma ordinary_well_formed t : forallb ordinary t = true -> well_formed t = true.
Proof.
  induction t as [|u t IH]; [done|]. cbn [forallb]. rewrite andb_true_iff. intros [Hu Ht].
  assert (Hh : is_high u = false).
  { unfold ordinary, is_surrogate, is_high in *. rewrite !andb_true_iff, negb_true_iff, andb_false_iff, N.leb_gt, N.ltb_ge in Hu.
    rewrite andb_false_iff, N.leb_gt, N.ltb_ge. lia. }
  cbn [well_formed]. unfold ordinary in Hu. destruct t as [|v t]; [done|]. rewrite Hh, Hu. by apply IH.
Qed.

Lemma plain_ordinary u : is_plain u = true -> ordinary u = true.
Proof.
  unfold is_plain, ordinary, unit_ok, is_surrogate. rewrite !andb_true_iff, !negb_true_iff, andb_false_iff.
  rewrite !N.leb_le, !N.ltb_lt, N.leb_gt. lia.
Qed.

#[export] Instance plain_laws : JsonTextLaws plain_text.
Proof.
  split.
  - intros [t Ht] t' [= <-]. apply (ordinary_well_formed (quote :: t ++ [quote])). cbn [forallb].
    rewrite forallb_app, !andb_true_iff. split_and!; [done| |done]. revert Ht. rewrite !forallb_forall. eauto using plain_ordinary.
  - intros [t Ht] t' [= <-]. cbn [parse plain_json proj1_sig]. unfold unquote.
    rewrite N.eqb_refl, bool_decide_true by (by rewrite last_snoc). cbn [andb].
    rewrite length_app, Nat.add_sub, take_app_length. cbn. unfold plain_of.
    destruct (decide _) as [H|H]; [|done]. f_equal. by apply (sig_eq_pi _).
Qed.

(** The texts [0190a1b2-c3d4-7e5f-8a9b-0c1d2e3f4a5b], [00ff00ff12345678], and a [plain_text] value. *)
Definition sample_incarnation : text :=
  [48; 49; 57; 48; 97; 49; 98; 50; 45;
   99; 51; 100; 52; 45; 55; 101; 53; 102; 45;
   56; 97; 57; 98; 45; 48; 99; 49; 100; 50; 101; 51; 102; 52; 97; 53; 98]%N.

Definition sample_fingerprint : text := [48; 48; 102; 102; 48; 48; 102; 102; 49; 50; 51; 52; 53; 54; 55; 56]%N.

Definition sample_value : plain_text := exist _ [111; 107]%N eq_refl.

(** A hold with a text of a character of two bytes and a surrogate pair as its part, on
    behalf of an origin. *)
Definition sample_message : Message plain_text :=
  {| m_origin := Some 300%N;
     m_body := MHold
       {| h_hold := 70000; h_type := [100; 111; 99; 233]%N; h_version := 2; h_fingerprint := sample_fingerprint;
          h_params := PText [34; 55357; 56832; 34]%N; h_addressKind := [104; 111; 115; 116]%N; h_addressParams := sample_value;
          h_principal := None; h_incarnation := Some sample_incarnation;
          h_chain := Some [sample_incarnation; sample_incarnation]; h_limit := Some 1048576%N |} |}.

Definition sample_bytes : bytes :=
  match encode sample_message with Ok p => p.2 | Throw _ => [] end.

Lemma sample_message_ok : message_ok sample_message.
Proof.
  assert (Hu : forall l, forallb (fun u => u <? 65536)%N l = true -> units l).
  { intros l. unfold units. rewrite forallb_forall, Forall_forall. intros H u Hu%list_elem_of_In. by apply N.ltb_lt, H. }
  assert (Hs : forall n, (n <=? MAX_SAFE)%N = true -> num_ok n) by (intros n; apply N.leb_le).
  split; [intros ? [= <-]; apply Hs; reflexivity|]. split; [|intros Hk; discriminate Hk].
  split; [apply Hs; reflexivity|]. split; [split; reflexivity|]. split; [apply Hs; reflexivity|].
  split; [reflexivity|]. split; [split; [apply Hu; reflexivity|reflexivity]|]. split; [split; reflexivity|].
  split; [eexists; split; reflexivity|]. split; [intros ? E; discriminate E|].
  split; [intros ? [= <-]; reflexivity|]. split; [|intros ? [= <-]; apply Hs; reflexivity].
  intros ? [= <-]. split; [apply Hs; reflexivity|]. constructor; [reflexivity|]. constructor; [reflexivity|constructor].
Qed.

Lemma binary_round_trip_witness :
  message_ok sample_message /\
  exists kept bs, encode sample_message = Ok (kept, bs) /\ decode bs = Ok (received sample_message) /\
    (blen bs <= kept)%N /\ (kept < blen bs + 64 \/ (kept - blen bs) * 8 <= blen bs)%N.
Proof. split; [exact sample_message_ok | exact (binary_round_trip sample_message sample_message_ok)]. Defined.

Lemma decode_prefix_free_witness :
  decode (sample_bytes ++ [0%N]) = (Throw BytesAfter : bres (Message plain_text)).
Proof. refine (decode_prefix_free sample_bytes [0%N] (received sample_message) _ _); [by vm_compute|done]. Defined.

(** ** Sizes *)

(** The mask tells the low surrogates. *)
Lemma low_mask v : (v < 65536)%N -> (N.land v 64512 =? 56320)%N = is_low v.
Proof.
  intros Hv. unfold is_low. apply eq_true_iff_eq. rewrite N.eqb_eq, andb_true_iff, N.leb_le, N.ltb_lt.
  assert (Hland : N.land v 64512 = (v / 1024 * 1024)%N).
  { change 1024%N with (2 ^ 10)%N. rewrite <- N.shiftr_div_pow2, <- N.shiftl_mul_pow2, <- N.ldiff_ones_r.
    apply N.bits_inj. intros i. rewrite N.land_spec, N.ldiff_spec. change 64512%N with (N.ldiff (N.ones 16) (N.ones 10)).
    rewrite N.ldiff_spec. destruct (N.lt_ge_cases i 16) as [Hi|Hi]; [by rewrite (N.ones_spec_low 16)|].
    rewrite (N.bits_above_log2 v i); [done|]. destruct (N.eq_dec v 0) as [->|Hv0]; [cbn; lia|].
    apply N.log2_lt_pow2; [lia|]. eapply N.lt_le_trans; [exact Hv|].
    change 65536%N with (2 ^ 16)%N. by apply N.pow_le_mono_r. }
  rewrite Hland. n_div.
Qed.

Lemma sizeOf_text t : units t -> sizeOf (PText t) = blen (utf8 t).
Proof.
  cbn [sizeOf]. unfold blen. induction t as [|u t Hs IH|u v t Hp IH] using text_pairs_ind; intros Hu; [done| |].
  - apply Forall_cons in Hu as [Hu Ht]. rewrite utf8_single by done. specialize (IH Ht). rewrite length_app.
    assert (Hx : extra_bytes (u :: t) = (N.of_nat (length (point_bytes (unit_point u))) - 1 + extra_bytes t)%N).
    { cbn [extra_bytes]. unfold unit_point, is_surrogate, point_bytes.
      destruct (N.ltb_spec u 128); [rewrite (proj2 (N.leb_gt 55296 u)) by lia; cbn [andb];
        rewrite (proj2 (N.ltb_lt u 128)) by lia; cbn; lia|].
      destruct (N.ltb_spec u 2048); [rewrite (proj2 (N.leb_gt 55296 u)) by lia; cbn [andb];
        rewrite (proj2 (N.ltb_ge u 128)), (proj2 (N.ltb_lt u 2048)) by lia; cbn; lia|].
      assert (Hlen : length (point_bytes (if ((55296 <=? u) && (u <? 57344))%N then 65533%N else u)) = 3).
      { destruct ((55296 <=? u) && (u <? 57344))%N; [done|]. unfold point_bytes.
        by rewrite (proj2 (N.ltb_ge u 128)), (proj2 (N.ltb_ge u 2048)), (proj2 (N.ltb_lt u 65536)) by lia. }
      unfold point_bytes in Hlen. rewrite Hlen. destruct t as [|v t]; [done|].
      apply Forall_cons in Ht as [Hv _]. rewrite (low_mask v Hv). cbn [starts_pair] in Hs. unfold is_high in Hs. by rewrite Hs. }
    rewrite Hx. cbn [length]. pose proof (point_bytes_length (unit_point u)). lia.
  - apply Forall_cons in Hu as [Hu Hv]. apply Forall_cons in Hv as [Hv Ht]. rewrite utf8_pair by done. specialize (IH Ht).
    rewrite length_app, (pair_bytes u v Hp). cbn [extra_bytes length]. rewrite (low_mask v Hv).
    pose proof Hp as Hp'. unfold is_high in Hp'. apply andb_true_iff in Hp' as [Hh Hl].
    rewrite Hh, Hl. cbn [andb]. apply andb_true_iff in Hh as [Hh%N.leb_le _].
    rewrite (proj2 (N.ltb_ge u 128)), (proj2 (N.ltb_ge u 2048)) by lia. lia.
Qed.

(** ** Inflating *)

(** The outcome of inflating what was deflated from the bytes. *)
Definition outcome (bs : bytes) (l : limit) : Inflated := if above (blen bs) l then InflatedTooLarge else InflatedBytes bs.

Lemma above_mono m n l : (m <= n)%N -> above m l = true -> above n l = true.
Proof. destruct l as [|k]; [done|]. cbn. rewrite !N.ltb_lt. lia. Qed.

Lemma inflate_loop_outcome l cs chunks length_ :
  length_ = blen (concat chunks) -> above length_ l = false ->
  inflate_loop ((Chunk <$> cs) ++ [StreamDone]) l chunks length_ = Some (outcome (concat (chunks ++ cs)) l).
Proof.
  revert chunks length_; induction cs as [|bs cs IH]; intros chunks n -> Ha; unfold outcome.
  - rewrite app_nil_r. cbn. by rewrite Ha.
  - cbn [fmap list_fmap app inflate_loop].
    assert (Hlen : (blen (concat chunks) + blen bs)%N = blen (concat (chunks ++ [bs]))).
    { rewrite concat_app, blen_app. cbn. by rewrite app_nil_r. }
    destruct (above (blen (concat chunks) + blen bs) l) eqn:E.
    + rewrite (above_mono (blen (concat chunks) + blen bs) (blen (concat (chunks ++ bs :: cs))) l); [done| |done].
      rewrite concat_app, blen_app. cbn. rewrite blen_app. lia.
    + rewrite (IH (chunks ++ [bs])) by done. by rewrite <- app_assoc.
Qed.

(** However the stream is cut into chunks, the asynchronous inflate stops past the limit
    exactly when the bytes are more than it. *)
Lemma inflateAsync_outcome cs l : inflateAsync ((Chunk <$> cs) ++ [StreamDone]) l = Some (outcome (concat cs) l).
Proof. apply (inflate_loop_outcome l cs [] 0); [done|]. by destruct l as [|[]]. Qed.

(** ** Opening *)

(** The text of JSON as it was opened. *)
Definition opened_text (o : Opened) : option text := match o with OpenText t => Some t | OpenBytes bs => utf8_decode bs end.

(** How a part is inflated at the end that opens it: there and then, by a compressor that
    inflates what the origin's deflates, or ahead, by a stream of those bytes. *)
Definition inflates (co cr : Compression) : Prop := forall bs l, inflate cr (deflate co bs) l = outcome bs l.

Definition inflated_by (origin compression : option Compression) (inflated : option Inflated) (bs : bytes) (l : limit) : Prop :=
  (exists co, origin = Some co /\ exists cr, compression = Some cr /\ inflated = None /\ inflates co cr) \/
  origin = None \/
  exists chunks, concat chunks = bs /\ inflated = inflateAsync ((Chunk <$> chunks) ++ [StreamDone]) l.

Lemma originPart_cases t origin :
  units t ->
  (originPart t origin).1 = PText t \/ (originPart t origin).1 = PBytes (utf8 t) \/
  exists co, origin = Some co /\ (originPart t origin).1 = PDeflated (deflate co (utf8 t)) /\
    (blen (deflate co (utf8 t)) < blen (utf8 t))%N /\ (COMPRESS_ABOVE < blen (utf8 t))%N.
Proof.
  intros Hu. unfold originPart. destruct origin as [co|]; [|by left].
  destruct (N.leb_spec (N.of_nat (length t) * 3) COMPRESS_ABOVE); [by left|].
  destruct (N.leb_spec (blen (utf8 t)) COMPRESS_ABOVE); [by right; left|].
  destruct (N.ltb_spec (blen (deflate co (utf8 t))) (blen (utf8 t))); [|by right; left].
  right; right. by exists co.
Qed.

Definition deflated_part (p : Part) : bool := match p with PDeflated _ => true | _ => false end.

Lemma sizeOf_received p : match p with PText t => units t | _ => True end -> sizeOf (received_part p) = sizeOf p.
Proof. destruct p as [t| |]; [|done|done]. intros Ht. by rewrite sizeOf_text. Qed.

(** What opening a part gives, from the bytes of its text. *)
Definition opens_as (t : text) (p : Part) (limits : Limits) (r : res part_error Opened) : Prop :=
  if above (sizeOf p) (l_part limits) then r = Throw (TooLarge (Some (sizeOf p)) (l_part limits) Wire)
  else if above (blen (utf8 t)) (l_decoded limits)
       then r = Throw (TooLarge (if deflated_part p then None else Some (blen (utf8 t))) (l_decoded limits) Decoded)
       else exists o, r = Ok o /\ opened_text o = Some t.

Lemma oversized_above p l :
  oversized p l = if above (sizeOf p) l then Some (TooLarge (Some (sizeOf p)) l Wire) else None.
Proof. by destruct l. Qed.

Lemma open_plain t p i limits c :
  well_formed t = true -> p = PText t \/ p = PBytes (utf8 t) -> opens_as t p limits (openPart p i limits c).1.
Proof.
  intros Hw Hp. pose proof (well_formed_units t Hw) as Hu. pose proof (utf8_round_trip t Hw) as Hd.
  assert (Hs : sizeOf p = blen (utf8 t)) by (destruct Hp as [->| ->]; [by apply sizeOf_text|done]).
  assert (Hn : deflated_part p = false) by by destruct Hp as [->| ->].
  unfold opens_as, openPart. rewrite oversized_above, Hn. destruct (above (sizeOf p) (l_part limits)); [done|].
  rewrite Hs. destruct Hp as [->| ->]; cbn [sizeOf] in *; rewrite ?Hs;
    (destruct (l_decoded limits) as [|n]; cbn [above]; [|destruct (n <? blen (utf8 t))%N]; cbn; eauto).
Qed.

(** C36. A part opens as what it was made of. From a JSON text, an origin makes a part no
    larger on the wire than the UTF-8 bytes of the text, whatever its compressor does; and
    at the end that opens it, in the part as it was made or as the binary codec received
    it, the text comes out, or the error of the first limit it passes: that of its size on
    the wire before anything is inflated, then that of the text's bytes. It makes no
    difference whether a deflated part is inflated by a compressor there or by a stream
    that ran ahead, in whatever chunks (chord/src/link/part.ts, [originPart], [openPart],
    [inflateAsync]; that inflating gives what was deflated, or tells that it is over the
    limit, is the documented behaviour of the compressors). *)
Theorem part_opens (t : text) (origin compression : option Compression) (inflated : option Inflated) (limits : Limits) :
  well_formed t = true -> inflated_by origin compression inflated (utf8 t) (l_decoded limits) ->
  let p := (originPart t origin).1 in
  (sizeOf p <= blen (utf8 t))%N /\ sizeOf (received_part p) = sizeOf p /\
  opens_as t p limits (openPart p inflated limits compression).1 /\
  opens_as t (received_part p) limits (openPart (received_part p) inflated limits compression).1.
Proof.
  intros Hw Hi p. pose proof (well_formed_units t Hw) as Hu.
  destruct (originPart_cases t origin Hu) as [E|[E|(co & -> & E & Hlt & _)]]; subst p; rewrite E; cbn [received_part].
  - split_and!; [by rewrite sizeOf_text|by rewrite sizeOf_text|apply open_plain; auto..].
  - split_and!; [done|done|apply open_plain; auto..].
  - split; [cbn; lia|]. split; [done|]. enough (opens_as t (PDeflated (deflate co (utf8 t))) limits
      (openPart (PDeflated (deflate co (utf8 t))) inflated limits compression).1) as Ho by by split.
    unfold opens_as, openPart. rewrite oversized_above. destruct (above (sizeOf _) (l_part limits)); [done|].
    assert (Hopen : match inflated with
      | Some i => (open_inflated i limits, 0%N)
      | None => match compression with
                | None => (Throw NotInflated, 0%N)
                | Some c => (open_inflated (inflate c (deflate co (utf8 t)) (l_decoded limits)) limits, 1%N)
                end end.1 = open_inflated (outcome (utf8 t) (l_decoded limits)) limits).
    { destruct Hi as [(co' & [= <-] & cr & -> & -> & Hcr)|[[=]|(chunks & Hc & ->)]].
      - cbn. by rewrite Hcr.
      - rewrite inflateAsync_outcome, Hc. done. }
    rewrite Hopen. unfold outcome. cbn [deflated_part].
    destruct (above (blen (utf8 t)) (l_decoded limits)); cbn; [done|]. exists (OpenBytes (utf8 t)).
    split; [done|]. by apply utf8_round_trip.
Qed.

(** ** A compressor to evaluate with *)

(** Runs of one byte as their number and the byte. *)
Fixpoint runs (bs : bytes) : bytes :=
  match bs with
  | [] => []
  | b :: bs' =>
      match runs bs' with
      | n :: c :: r => if (c =? b)%N then (n + 1)%N :: c :: r else 1%N :: b :: n :: c :: r
      | r => 1%N :: b :: r
      end
  end.

Fixpoint of_runs (bs : bytes) : bytes :=
  match bs with n :: b :: r => replicate (N.to_nat n) b ++ of_runs r | _ => [] end.

Definition run_length : Compression :=
  {| deflate := runs; inflate bs l := outcome (of_runs bs) l |}.

Lemma of_runs_runs bs : of_runs (runs bs) = bs.
Proof.
  induction bs as [|b bs IH]; [done|]. cbn [runs]. destruct (runs bs) as [|n [|c r]] eqn:E; cbn [of_runs] in *.
  - by rewrite <- IH.
  - by rewrite <- IH.
  - destruct (N.eqb_spec c b) as [->|_]; rewrite <- IH.
    + cbn [of_runs]. by rewrite N2Nat.inj_add, Nat.add_comm.
    + done.
Qed.

Lemma run_length_inflates : inflates run_length run_length.
Proof. intros bs l. cbn. by rewrite of_runs_runs. Qed.

(** 20,000 times the letter a. *)
Definition sample_json : text := replicate 20000 97%N.

Definition sample_limits : Limits := linkLimits false {| set_part := Some (Limit 100); set_decoded := None |}.

Lemma part_opens_witness :
  let p := (originPart sample_json (Some run_length)).1 in
  deflated_part p = true /\ (sizeOf p <= blen (utf8 sample_json))%N /\ sizeOf (received_part p) = sizeOf p /\
  opens_as sample_json p sample_limits (openPart p None sample_limits (Some run_length)).1 /\
  opens_as sample_json (received_part p) sample_limits (openPart (received_part p) None sample_limits (Some run_length)).1.
Proof.
  split; [vm_compute; reflexivity|]. apply (part_opens sample_json (Some run_length) (Some run_length) None sample_limits).
  - vm_compute. reflexivity.
  - left. exists run_length. split; [reflexivity|]. exists run_length. split; [reflexivity|]. split; [reflexivity|].
    exact run_length_inflates.
Defined.
