(* ===== verification/StreamValue.v ===== *)
(** The values of the streaming parser of the ai package (ai/src/utils/streaming-json.ts):
    JavaScript values over a heap of containers, the trees they stand for, slots and
    paths, and the tokens of numbers, literals and escapes. *)
From S2P Require Import Prelude EditText.

Definition QUOTE : N := 34.
Definition BACKSLASH : N := 92.

(** ** Slots and paths *)

(** Where a value sits in its parent; [Slot | undefined] is an option. *)
Inductive Slot : Type := SRoot | SMember (key : text) | SElement (index : nat).

#[export] Instance Slot_eq_dec : EqDecision Slot.
Proof. solve_decision. Defined.

(** An element of a [JsonPath]: a member key or an array index. *)
Inductive PathStep : Type := PKey (key : text) | PIndex (index : nat).
Abbreviation JsonPath := (list PathStep).

(** [slot.kind === "member" ? slot.key : slot.index]; a root has no step. *)
Definition slot_step (slot : Slot) : option PathStep :=
  match slot with SRoot => None | SMember k => Some (PKey k) | SElement i => Some (PIndex i) end.

(** ** Arrays and members *)

Section Entries.
Context {A : Type}.

(** [elements[index] = value], for an index at most the length. *)
Definition array_set (i : nat) (v : A) (l : list A) : list A := if i <? length l then <[i := v]> l else l ++ [v].

(** [Object.hasOwn(members, key)], and the member. *)
Fixpoint member_get (k : text) (ms : list (text * A)) : option A :=
  match ms with
  | [] => None
  | (k', v) :: ms' => if bool_decide (k = k') then Some v else member_get k ms'
  end.

(** [setMember]: an own member, whatever the key; a new one comes last. *)
Fixpoint setMember (k : text) (v : A) (ms : list (text * A)) : list (text * A) :=
  match ms with
  | [] => [(k, v)]
  | (k', v') :: ms' => if bool_decide (k = k') then (k', v) :: ms' else (k', v') :: setMember k v ms'
  end.
End Entries.

(** ** Values *)

(** The numbers are those of [Number(token)], which stays a parameter. *)
Section Values.
Context (Num : Type).

(** A JSON value as a JavaScript value: containers are references to the heap. *)
Inductive value : Type :=
| VNull
| VBool (b : bool)
| VNum (n : Num)
| VStr (t : text)
| VRef (l : nat).

(** [JsonContainer]; the members in the order they were created. *)
Inductive Container : Type :=
| CObject (members : list (text * value))
| CArray (elements : list value).

(** The value that a JavaScript value stands for. *)
Unset Elimination Schemes.
Inductive tree : Type :=
| TNull
| TBool (b : bool)
| TNum (n : Num)
| TStr (t : text)
| TArr (elements : list tree)
| TObj (members : list (text * tree)).
Set Elimination Schemes.
End Values.

Arguments VNull {Num}.
Arguments VBool {Num} b.
Arguments VNum {Num} n.
Arguments VStr {Num} t.
Arguments VRef {Num} l.
Arguments CObject {Num} members.
Arguments CArray {Num} elements.
Arguments TNull {Num}.
Arguments TBool {Num} b.
Arguments TNum {Num} n.
Arguments TStr {Num} t.
Arguments TArr {Num} elements.
Arguments TObj {Num} members.

(** The objects there are; a new one comes last. *)
Abbreviation heap Num := (list (Container Num)).

Section tree_ind.
Context {Num : Type} (P : tree Num -> Prop).
Hypothesis (Hnull : P TNull) (Hbool : forall b, P (TBool b)) (Hnum : forall n, P (TNum n)) (Hstr : forall t, P (TStr t)).
Hypothesis (Harr : forall ts, Forall P ts -> P (TArr ts)).
Hypothesis (Hobj : forall ms, Forall (fun m => P m.2) ms -> P (TObj ms)).

Fixpoint tree_ind (t : tree Num) : P t :=
  match t with
  | TNull => Hnull
  | TBool b => Hbool b
  | TNum n => Hnum n
  | TStr s => Hstr s
  | TArr ts => Harr ts ((fix go l : Forall P l := match l with [] => Forall_nil_2 _ | t :: l' => Forall_cons_2 _ _ _ (tree_ind t) (go l') end) ts)
  | TObj ms => Hobj ms ((fix go l : Forall (fun m => P m.2) l :=
      match l with [] => Forall_nil_2 _ | m :: l' => Forall_cons_2 _ _ _ (tree_ind m.2) (go l') end) ms)
  end.
End tree_ind.

Section Containers.
Context {Num : Type}.
Implicit Types (c : Container Num) (t : tree Num).

(** [setSlot]; a slot is of the kind of its container. *)
Definition setSlot (c : Container Num) (slot : Slot) (v : value Num) : Container Num :=
  match c, slot with
  | CArray es, SElement i => CArray (array_set i v es)
  | CObject ms, SMember k => CObject (setMember k v ms)
  | _, _ => c
  end.

(** Members or elements. *)
Definition container_size c : nat := match c with CObject ms => length ms | CArray es => length es end.

(** Setting the slot adds an entry. *)
Definition slot_grows c (slot : Slot) : bool :=
  match c, slot with
  | CArray es, SElement i => i =? length es
  | CObject ms, SMember k => negb (is_some (member_get k ms))
  | _, _ => false
  end.

(** The same of trees. *)
Definition tree_set t (slot : Slot) (v : tree Num) : tree Num :=
  match t, slot with
  | TArr ts, SElement i => TArr (array_set i v ts)
  | TObj ms, SMember k => TObj (setMember k v ms)
  | _, _ => t
  end.

Definition tree_get t (slot : Slot) : option (tree Num) :=
  match t, slot with
  | TArr ts, SElement i => ts !! i
  | TObj ms, SMember k => member_get k ms
  | _, _ => None
  end.
End Containers.

(** ** Tokens *)

Definition is_digit (u : N) : bool := ((48 <=? u) && (u <? 58))%N.
Definition isHexDigit (u : N) : bool := (is_digit u || (97 <=? u) && (u <? 103) || (65 <=? u) && (u <? 71))%N.

(** [isDelimiter]: white space, structural characters and quotes. *)
Definition isDelimiter (u : N) : bool := bool_decide (u ∈ [32; 9; 10; 13; 44; 58; 123; 125; 91; 93; 34]%N).

(** [SIMPLE_ESCAPES]. *)
Definition simple_escape (u : N) : option N :=
  match u with
  | 34 => Some 34 | 92 => Some 92 | 47 => Some 47
  | 98 => Some 8 | 102 => Some 12 | 110 => Some 10 | 114 => Some 13 | 116 => Some 9
  | _ => None
  end%N.

(** [Number.parseInt(digits, 16)] of hexadecimal digits. *)
Definition hex_digit_value (u : N) : N := (if is_digit u then u - 48 else if u <? 97 then u - 55 else u - 87)%N.
Definition parse_hex (digits : text) : N := fold_left (fun n u => n * 16 + hex_digit_value u)%N digits 0%N.

Fixpoint skip_digits (t : text) : text :=
  match t with u :: t' => if is_digit u then skip_digits t' else t | [] => [] end.

(** What is left after the sign and the integer digits, which have no leading zero. *)
Definition skip_integer (t : text) : option text :=
  match (match t with 45%N :: t' => t' | _ => t end) with
  | 48%N :: t' => Some t'
  | u :: t' => if is_digit u then Some (skip_digits t') else None
  | [] => None
  end.

(** What is left after a point and digits, if they are there. *)
Definition skip_fraction (t : text) : text :=
  match t with
  | 46%N :: u :: t' => if is_digit u then skip_digits t' else t
  | _ => t
  end.

(** What is left after the letter and the sign of an exponent, if they are there. *)
Definition skip_exponent (t : text) : option text :=
  match t with
  | u :: t' =>
      if ((u =? 101) || (u =? 69))%N then
        Some (match t' with s :: t'' => if ((s =? 43) || (s =? 45))%N then t'' else t' | [] => [] end)
      else None
  | [] => None
  end.

(** [NUMBER.test(token)]. *)
Definition is_number (t : text) : bool :=
  match skip_integer t with
  | None => false
  | Some rest =>
      match skip_fraction rest with
      | [] => true
      | rest' =>
          match skip_exponent rest' with
          | Some (u :: ds) => is_digit u && (length (skip_digits ds) =? 0)
          | _ => false
          end
      end
  end.

(** The mantissa of [NUMBER_WITHOUT_EXPONENT_DIGITS.exec(token)]. *)
Definition number_mantissa (t : text) : option text :=
  match skip_integer t with
  | None => None
  | Some rest =>
      let rest' := skip_fraction rest in
      match skip_exponent rest' with
      | Some [] => Some (take (length t - length rest') t)
      | _ => None
      end
  end.

(** [LITERALS]. *)
Definition LITERALS {Num} : list (text * value Num) :=
  [([116; 114; 117; 101]%N, VBool true); ([102; 97; 108; 115; 101]%N, VBool false); ([110; 117; 108; 108]%N, VNull)].

Definition find_literal {Num} (P : text -> bool) : option (value Num) :=
  snd <$> head (filter (fun l => P l.1 = true) LITERALS).

Section Scalars.
Context {Num : Type} (Number : text -> Num).

(** [None] is [undefined]: the token is dropped. *)
Definition scalarValue (token : text) : option (value Num) :=
  match find_literal (fun literal => bool_decide (token = literal)) with
  | Some v => Some v
  | None => if is_number token then Some (VNum (Number token)) else None
  end.

Definition pendingScalarValue (token : text) : option (value Num) :=
  match find_literal (starts_with token) with
  | Some v => Some v
  | None =>
      if is_number token then Some (VNum (Number token))
      else (fun mantissa => VNum (Number mantissa)) <$> number_mantissa token
  end.
End Scalars.
