(* ===== verification/StreamParser.v ===== *)
(** [StreamingJsonParser] (ai/src/utils/streaming-json.ts) with its objects in a heap: the
    containers of open frames are mutated where they are, and a snapshot shares the
    containers that are closed. [None] is an exception; the parser has none. *)
From S2P Require Import Prelude EditText StreamValue.

(** ** State *)

Inductive Phase : Type := PhaseKey | PhaseColon | PhaseValue | PhaseComma.
Inductive Target : Type := ForKey | ForValue.

(** [OpenChange] and [JsonChange]. *)
Inductive Change {Num : Type} : Type :=
| CSet (path : JsonPath) (v : value Num)
| CAppend (path : JsonPath) (t : text).
Arguments Change : clear implicits.

Record Frame : Type := {
  f_container : nat;
  f_slot : option Slot;
  f_path : option JsonPath;
  f_reportsInside : bool;
  f_size : nat;
  f_key : option text;
  f_phase : Phase;
}.

(** [change] is the place in [#changes] of the change that the string extends. *)
Record OpenString : Type := {
  os_target : Target;
  os_slot : option Slot;
  os_text : text;
  os_escape : text;
  os_path : option JsonPath;
  os_change : option nat;
}.

Definition MAX_REPORTED_DEPTH : nat := 32.
Definition CREDIT_PER_APPEND : Z := 256.
Definition CREDIT_PER_CHARACTER : Z := 8.
Definition MAX_PENDING_SCALAR_LENGTH : nat := 64.

Section Parser.
Context {Num : Type} (Number : text -> Num).

(** The fields of the class, and the heap. The stack has the innermost frame first. *)
Record Parser : Type := {
  p_heap : heap Num;
  p_root : option (value Num);
  p_done : bool;
  p_stack : list Frame;
  p_string : option OpenString;
  p_scalar : text;
  p_scalarSlot : option Slot;
  p_pathCost : Z;
  p_credit : Z;
  p_dirty : bool;
  p_snapshot : option (value Num);
  p_changes : list (Change Num);
}.

Definition parser_new : Parser :=
  {| p_heap := []; p_root := None; p_done := false; p_stack := []; p_string := None; p_scalar := [];
     p_scalarSlot := None; p_pathCost := 0; p_credit := 0; p_dirty := false; p_snapshot := None; p_changes := [] |}.

(** Assignments of the fields. *)
Definition with_heap (h : heap Num) (s : Parser) : Parser :=
  {| p_heap := h; p_root := p_root s; p_done := p_done s; p_stack := p_stack s; p_string := p_string s;
     p_scalar := p_scalar s; p_scalarSlot := p_scalarSlot s; p_pathCost := p_pathCost s; p_credit := p_credit s;
     p_dirty := p_dirty s; p_snapshot := p_snapshot s; p_changes := p_changes s |}.
Definition with_root (root : option (value Num)) (s : Parser) : Parser :=
  {| p_heap := p_heap s; p_root := root; p_done := p_done s; p_stack := p_stack s; p_string := p_string s;
     p_scalar := p_scalar s; p_scalarSlot := p_scalarSlot s; p_pathCost := p_pathCost s; p_credit := p_credit s;
     p_dirty := p_dirty s; p_snapshot := p_snapshot s; p_changes := p_changes s |}.
Definition with_done (done : bool) (s : Parser) : Parser :=
  {| p_heap := p_heap s; p_root := p_root s; p_done := done; p_stack := p_stack s; p_string := p_string s;
     p_scalar := p_scalar s; p_scalarSlot := p_scalarSlot s; p_pathCost := p_pathCost s; p_credit := p_credit s;
     p_dirty := p_dirty s; p_snapshot := p_snapshot s; p_changes := p_changes s |}.
Definition with_stack (stack : list Frame) (cost : Z) (s : Parser) : Parser :=
  {| p_heap := p_heap s; p_root := p_root s; p_done := p_done s; p_stack := stack; p_string := p_string s;
     p_scalar := p_scalar s; p_scalarSlot := p_scalarSlot s; p_pathCost := cost; p_credit := p_credit s;
     p_dirty := p_dirty s; p_snapshot := p_snapshot s; p_changes := p_changes s |}.
Definition with_string (os : option OpenString) (s : Parser) : Parser :=
  {| p_heap := p_heap s; p_root := p_root s; p_done := p_done s; p_stack := p_stack s; p_string := os;
     p_scalar := p_scalar s; p_scalarSlot := p_scalarSlot s; p_pathCost := p_pathCost s; p_credit := p_credit s;
     p_dirty := p_dirty s; p_snapshot := p_snapshot s; p_changes := p_changes s |}.
Definition with_scalar (token : text) (slot : option Slot) (s : Parser) : Parser :=
  {| p_heap := p_heap s; p_root := p_root s; p_done := p_done s; p_stack := p_stack s; p_string := p_string s;
     p_scalar := token; p_scalarSlot := slot; p_pathCost := p_pathCost s; p_credit := p_credit s;
     p_dirty := p_dirty s; p_snapshot := p_snapshot s; p_changes := p_changes s |}.
Definition with_credit (credit : Z) (s : Parser) : Parser :=
  {| p_heap := p_heap s; p_root := p_root s; p_done := p_done s; p_stack := p_stack s; p_string := p_string s;
     p_scalar := p_scalar s; p_scalarSlot := p_scalarSlot s; p_pathCost := p_pathCost s; p_credit := credit;
     p_dirty := p_dirty s; p_snapshot := p_snapshot s; p_changes := p_changes s |}.
Definition with_dirty (dirty : bool) (s : Parser) : Parser :=
  {| p_heap := p_heap s; p_root := p_root s; p_done := p_done s; p_stack := p_stack s; p_string := p_string s;
     p_scalar := p_scalar s; p_scalarSlot := p_scalarSlot s; p_pathCost := p_pathCost s; p_credit := p_credit s;
     p_dirty := dirty; p_snapshot := p_snapshot s; p_changes := p_changes s |}.
Definition with_snapshot (snapshot : option (value Num)) (s : Parser) : Parser :=
  {| p_heap := p_heap s; p_root := p_root s; p_done := p_done s; p_stack := p_stack s; p_string := p_string s;
     p_scalar := p_scalar s; p_scalarSlot := p_scalarSlot s; p_pathCost := p_pathCost s; p_credit := p_credit s;
     p_dirty := p_dirty s; p_snapshot := snapshot; p_changes := p_changes s |}.
Definition with_changes (changes : list (Change Num)) (s : Parser) : Parser :=
  {| p_heap := p_heap s; p_root := p_root s; p_done := p_done s; p_stack := p_stack s; p_string := p_string s;
     p_scalar := p_scalar s; p_scalarSlot := p_scalarSlot s; p_pathCost := p_pathCost s; p_credit := p_credit s;
     p_dirty := p_dirty s; p_snapshot := p_snapshot s; p_changes := changes |}.

Definition with_phase (phase : Phase) (f : Frame) : Frame :=
  {| f_container := f_container f; f_slot := f_slot f; f_path := f_path f; f_reportsInside := f_reportsInside f;
     f_size := f_size f; f_key := f_key f; f_phase := phase |}.
Definition with_key (key : text) (phase : Phase) (f : Frame) : Frame :=
  {| f_container := f_container f; f_slot := f_slot f; f_path := f_path f; f_reportsInside := f_reportsInside f;
     f_size := f_size f; f_key := Some key; f_phase := phase |}.
Definition with_size (size : nat) (f : Frame) : Frame :=
  {| f_container := f_container f; f_slot := f_slot f; f_path := f_path f; f_reportsInside := f_reportsInside f;
     f_size := size; f_key := f_key f; f_phase := f_phase f |}.
Definition with_escape (escape : text) (o : OpenString) : OpenString :=
  {| os_target := os_target o; os_slot := os_slot o; os_text := os_text o; os_escape := escape;
     os_path := os_path o; os_change := os_change o |}.
Definition with_text (t : text) (o : OpenString) : OpenString :=
  {| os_target := os_target o; os_slot := os_slot o; os_text := t; os_escape := os_escape o;
     os_path := os_path o; os_change := os_change o |}.
Definition with_change (change : option nat) (o : OpenString) : OpenString :=
  {| os_target := os_target o; os_slot := os_slot o; os_text := os_text o; os_escape := os_escape o;
     os_path := os_path o; os_change := change |}.

(** ** Slots *)

(** A frame in place of the innermost one. *)
Definition set_top (f : Frame) (s : Parser) : Parser := with_stack (f :: tail (p_stack s)) (p_pathCost s) s.

(** [Array.isArray(frame.container)]. *)
Definition frame_is_array (s : Parser) (f : Frame) : bool :=
  match p_heap s !! f_container f with Some (CArray _) => true | _ => false end.

Definition valueSlot (s : Parser) : option Slot :=
  match p_stack s with
  | [] => match p_root s with None => Some SRoot | Some _ => None end
  | f :: _ =>
      match p_heap s !! f_container f with
      | Some (CArray es) => Some (SElement (length es))
      | _ =>
          match f_phase f, f_key f with
          | PhaseValue, Some key | PhaseColon, Some key => Some (SMember key)
          | _, _ => None
          end
      end
  end.

(** [#place]: the frame counts an element at the end and a member that is new. *)
Definition place (slot : option Slot) (v : value Num) (s : Parser) : option Parser :=
  match slot with
  | None => Some s
  | Some SRoot => Some (with_root (Some v) (with_dirty true s))
  | Some slot =>
      match p_stack s with
      | [] => None
      | f :: rest =>
          c ← p_heap s !! f_container f;
          let grows := slot_grows c slot in
          Some (with_heap (<[f_container f := setSlot c slot v]> (p_heap s))
            (with_stack ((if grows then with_size (S (f_size f)) f else f) :: rest) (p_pathCost s + (if grows then 1 else 0))
              (with_dirty true s)))
      end
  end.

(** [#reportedPath]. *)
Definition reportedPath (slot : option Slot) (s : Parser) : option (option JsonPath) :=
  match slot with
  | None => Some None
  | Some SRoot => Some (Some [])
  | Some slot =>
      match p_stack s with
      | [] => None
      | f :: _ =>
          if negb (f_reportsInside f) then Some None
          else
            match f_path f, slot_step slot with
            | Some path, Some step => Some (Some (path ++ [step]))
            | _, _ => None
            end
      end
  end.

Definition report (c : Change Num) (s : Parser) : Parser := with_changes (p_changes s ++ [c]) s.

(** [#valueEnded] in the innermost frame, if there is one. *)
Definition valueEnded (s : Parser) : Parser :=
  match p_stack s with
  | [] => match p_root s with Some _ => with_done true s | None => s end
  | f :: _ => set_top (with_phase PhaseComma f) s
  end.

(** ** Strings *)

(** The newest change with the text added to it. *)
Definition extend_change (t : text) (c : Change Num) : option (Change Num) :=
  match c with
  | CSet path (VStr t0) => Some (CSet path (VStr (t0 ++ t)))
  | CSet _ _ => None
  | CAppend path t0 => Some (CAppend path (t0 ++ t))
  end.

Definition appendString (t : text) (s : Parser) : option Parser :=
  match p_string s with
  | None => None
  | Some o =>
      let o1 := with_text (os_text o ++ t) o in
      let s1 := with_string (Some o1) s in
      match os_target o with
      | ForKey => Some s1
      | ForValue =>
          s2 ← place (os_slot o) (VStr (os_text o1)) s1;
          match os_path o with
          | None => Some s2
          | Some path =>
              let newest := length (p_changes s2) - 1 in
              match os_change o, p_changes s2 !! newest with
              | Some change, Some c =>
                  if change =? newest then
                    c' ← extend_change t c;
                    Some (with_changes (<[newest := c']> (p_changes s2)) s2)
                  else Some (with_string (Some (with_change (Some (length (p_changes s2))) o1)) (report (CAppend path t) s2))
              | _, _ => Some (with_string (Some (with_change (Some (length (p_changes s2))) o1)) (report (CAppend path t) s2))
              end
          end
      end
  end.

Definition set_escape (escape : text) (s : Parser) : Parser := with_string (with_escape escape <$> p_string s) s.

Definition startString (s : Parser) : option Parser :=
  let for_key :=
    match p_stack s with
    | f :: _ => negb (frame_is_array s f) && match f_phase f with PhaseKey | PhaseComma => true | _ => false end
    | [] => false
    end in
  if for_key then
    Some (with_string (Some {| os_target := ForKey; os_slot := None; os_text := []; os_escape := []; os_path := None;
                               os_change := None |}) s)
  else
    let slot := valueSlot s in
    path ← reportedPath slot s;
    let o := {| os_target := ForValue; os_slot := slot; os_text := []; os_escape := []; os_path := path; os_change := None |} in
    s1 ← place slot (VStr []) (with_string (Some o) s);
    match path with
    | None => Some s1
    | Some path => Some (with_string (Some (with_change (Some (length (p_changes s1))) o)) (report (CSet path (VStr [])) s1))
    end.

(** [#continueEscape]: whether the character is part of the escape. *)
Definition continueEscape (escape : text) (char : N) (s : Parser) : option (Parser * bool) :=
  if bool_decide (escape = [BACKSLASH]) then
    match simple_escape char with
    | Some decoded => s' ← appendString [decoded] (set_escape [] s); Some (s', true)
    | None =>
        if (char =? 117)%N then Some (set_escape [BACKSLASH; 117%N] s, true)
        else s' ← appendString [BACKSLASH] (set_escape [] s); Some (s', false)
    end
  else if isHexDigit char then
    let escape' := escape ++ [char] in
    if length escape' <? 6 then Some (set_escape escape' s, true)
    else s' ← appendString [parse_hex (drop 2 escape')] (set_escape [] s); Some (s', true)
  else s' ← appendString escape (set_escape [] s); Some (s', false).

Definition endString (s : Parser) : Parser :=
  match p_string s with
  | None => s
  | Some o =>
      let s1 := with_string None s in
      match os_target o with
      | ForKey => match p_stack s with [] => s1 | f :: _ => set_top (with_key (os_text o) PhaseColon f) s1 end
      | ForValue => valueEnded s1
      end
  end.

(** The run of characters read, when it is not empty. *)
Definition flush (run : text) (s : Parser) : option Parser := match run with [] => Some s | _ => appendString run s end.

Definition open_escape (s : Parser) : text := match p_string s with Some o => os_escape o | None => [] end.

(** [#readString]: [run] is the text between [runStart] and [index], and [rest] that from
    [index]. Gives the text after the string. *)
Fixpoint readString (run rest : text) (s : Parser) : option (Parser * text) :=
  match rest with
  | [] => s' ← flush run s; Some (s', [])
  | char :: rest' =>
      '(s1, run1, used) ←
        match open_escape s with
        | [] => Some (s, run, false)
        | escape => '(s1, used) ← continueEscape escape char s; Some (s1, [], used)
        end;
      if (used : bool) then readString [] rest' s1
      else if (char =? QUOTE)%N then s2 ← flush run1 s1; Some (endString s2, rest')
      else if (char =? BACKSLASH)%N then s2 ← flush run1 s1; readString [] rest' (set_escape [BACKSLASH] s2)
      else readString (run1 ++ [char]) rest' s1
  end.

(** ** Numbers, literals and containers *)

Definition endScalar (s : Parser) : option Parser :=
  let token := p_scalar s in
  let slot := p_scalarSlot s in
  let s1 := with_scalar [] None s in
  s2 ← match scalarValue Number token with
       | Some v =>
           s' ← place slot v s1;
           path ← reportedPath slot s';
           Some (match path with Some path => report (CSet path v) s' | None => s' end)
       | None => Some s1
       end;
  Some (valueEnded s2).

(** The characters up to the next delimiter, and the text from it. *)
Fixpoint span_scalar (t : text) : text * text :=
  match t with
  | u :: t' => if isDelimiter u then ([], t) else let '(a, b) := span_scalar t' in (u :: a, b)
  | [] => ([], [])
  end.

Definition readScalar (rest : text) (s : Parser) : option (Parser * text) :=
  let '(more, rest') := span_scalar rest in
  let s1 :=
    match more with
    | [] => s
    | _ =>
        let s' := with_scalar (p_scalar s ++ more) (p_scalarSlot s) s in
        match p_scalarSlot s with Some _ => with_dirty true s' | None => s' end
    end in
  match rest' with
  | [] => Some (s1, [])
  | _ => s2 ← endScalar s1; Some (s2, rest')
  end.

(** The container and the empty one that is reported are new objects. *)
Definition openContainer (array : bool) (s : Parser) : option Parser :=
  let empty := if array then CArray [] else CObject [] in
  let slot := valueSlot s in
  path ← reportedPath slot s;
  let container := length (p_heap s) in
  s1 ← place slot (VRef container) (with_heap (p_heap s ++ [empty]) s);
  let f := {| f_container := container; f_slot := slot; f_path := path;
              f_reportsInside := match path with Some p => length p <? MAX_REPORTED_DEPTH | None => false end;
              f_size := 0; f_key := None; f_phase := if array then PhaseValue else PhaseKey |} in
  let s2 := with_dirty true (with_stack (f :: p_stack s1) (p_pathCost s1 + 1) s1) in
  match path with
  | None => Some s2
  | Some path => Some (report (CSet path (VRef (length (p_heap s2)))) (with_heap (p_heap s2 ++ [empty]) s2))
  end.

Definition closeContainer (s : Parser) : Parser :=
  match p_stack s with
  | [] => s
  | f :: rest =>
      let s1 := with_dirty true (with_stack rest (p_pathCost s - (Z.of_nat (f_size f) + 1)) s) in
      let s2 :=
        match f_path f with
        | Some path => if f_reportsInside f then s1 else report (CSet path (VRef (f_container f))) s1
        | None => s1
        end in
      valueEnded s2
  end.

(** ** Pieces *)

Definition structural (char : N) (s : Parser) : option Parser :=
  if bool_decide (char ∈ [32; 9; 10; 13]%N) then Some s
  else if (char =? QUOTE)%N then startString s
  else if (char =? 123)%N then openContainer false s
  else if (char =? 91)%N then openContainer true s
  else if ((char =? 125) || (char =? 93))%N then Some (closeContainer s)
  else if (char =? 58)%N then
    Some (match p_stack s with
          | f :: _ =>
              if negb (frame_is_array s f) && match f_phase f with PhaseColon => true | _ => false end
              then set_top (with_phase PhaseValue f) s else s
          | [] => s
          end)
  else if (char =? 44)%N then
    Some (match p_stack s with
          | f :: _ => set_top (with_phase (if frame_is_array s f then PhaseValue else PhaseKey) f) s
          | [] => s
          end)
  else
    let slot := valueSlot s in
    let s1 := with_scalar [char] slot s in
    Some (match slot with Some _ => with_dirty true s1 | None => s1 end).

(** The loop of [append]; each round reads a character or ends a scalar. *)
Fixpoint append_loop (fuel : nat) (rest : text) (s : Parser) : option Parser :=
  match rest with
  | [] => Some s
  | char :: rest' =>
      if p_done s then Some s
      else
        match fuel with
        | O => None
        | S fuel' =>
            match p_string s, p_scalar s with
            | Some _, _ => '(s', rest'') ← readString [] rest s; append_loop fuel' rest'' s'
            | None, _ :: _ => '(s', rest'') ← readScalar rest s; append_loop fuel' rest'' s'
            | None, [] => s' ← structural char s; append_loop fuel' rest' s'
            end
        end
  end.

(** [append]: the changes are those of the state afterwards. *)
Definition append (t : text) (s : Parser) : option Parser :=
  let s1 := with_credit (p_credit s + (CREDIT_PER_APPEND + CREDIT_PER_CHARACTER * Z.of_nat (length t))) s in
  let s2 := with_changes [] s1 in
  append_loop (2 * length t) t (with_string (with_change None <$> p_string s2) s2).

(** ** Snapshots *)

Definition pendingScalar (s : Parser) : option (Slot * value Num) :=
  match p_scalarSlot s with
  | None => None
  | Some slot =>
      if (length (p_scalar s) =? 0) || (MAX_PENDING_SCALAR_LENGTH <? length (p_scalar s)) then None
      else (fun v => (slot, v)) <$> pendingScalarValue Number (p_scalar s)
  end.

(** The copies of the open containers, innermost first; a copy holds the pending scalar or
    the copy made before it. *)
Fixpoint copy_frames (pending : option (Slot * value Num)) (child : option (value Num * option Slot)) (stack : list Frame)
    (h : heap Num) : option (heap Num * option (value Num * option Slot)) :=
  match stack with
  | [] => Some (h, child)
  | f :: rest =>
      c ← h !! f_container f;
      let c1 := match pending with Some (slot, v) => setSlot c slot v | None => c end in
      let c2 := match child with Some (v, Some slot) => setSlot c1 slot v | _ => c1 end in
      copy_frames None (Some (VRef (length h), f_slot f)) rest (h ++ [c2])
  end.

Definition copyOpenPath (pending : option (Slot * value Num)) (s : Parser) : option (Parser * option (value Num)) :=
  match p_stack s with
  | [] => Some (s, match pending with Some (SRoot, v) => Some v | _ => p_root s end)
  | stack =>
      '(h, child) ← copy_frames pending None stack (p_heap s);
      Some (with_heap h s, match child with Some (v, Some SRoot) => Some v | _ => p_root s end)
  end.

Definition snapshot (s : Parser) : option (Parser * option (value Num)) :=
  if negb (p_dirty s) then Some (s, p_snapshot s)
  else
    let pending := pendingScalar s in
    let cost := (p_pathCost s + match pending with Some _ => 1 | None => 0 end)%Z in
    if (p_credit s <? cost)%Z then Some (s, p_snapshot s)
    else
      '(s', v) ← copyOpenPath pending (with_dirty false (with_credit (p_credit s - cost) s));
      Some (with_snapshot v s', v).
End Parser.

Arguments Parser : clear implicits.
