(* ===== verification/StreamSpec.v ===== *)
(** What the streaming parser does, without pieces, objects and costs: a machine that reads
    one character after the other and holds the open containers as trees. [shown] is the
    value of the text read so far, [pending_value] with the unterminated scalar, and
    [reported] the value without what is not reported yet. *)
From S2P Require Import Prelude EditText StreamValue StreamParser.

Record SpecFrame {Num : Type} : Type := {
  sf_tree : tree Num;
  sf_slot : option Slot;
  sf_key : option text;
  sf_phase : Phase;
}.
Arguments SpecFrame : clear implicits.

Record SpecString : Type := {
  ss_target : Target;
  ss_slot : option Slot;
  ss_text : text;
  ss_escape : text;
}.

(** [sp_drops] counts the tokens that are no value. *)
Record Spec {Num : Type} : Type := {
  sp_root : option (tree Num);
  sp_done : bool;
  sp_stack : list (SpecFrame Num);
  sp_string : option SpecString;
  sp_scalar : text;
  sp_slot : option Slot;
  sp_drops : nat;
}.
Arguments Spec : clear implicits.

Section Spec.
Context {Num : Type} (Number : text -> Num).
Implicit Types (p : Spec Num) (f : SpecFrame Num).

Definition spec_new : Spec Num :=
  {| sp_root := None; sp_done := false; sp_stack := []; sp_string := None; sp_scalar := []; sp_slot := None; sp_drops := 0 |}.

Definition sp_with_root r p : Spec Num :=
  {| sp_root := r; sp_done := sp_done p; sp_stack := sp_stack p; sp_string := sp_string p; sp_scalar := sp_scalar p;
     sp_slot := sp_slot p; sp_drops := sp_drops p |}.
Definition sp_with_done d p : Spec Num :=
  {| sp_root := sp_root p; sp_done := d; sp_stack := sp_stack p; sp_string := sp_string p; sp_scalar := sp_scalar p;
     sp_slot := sp_slot p; sp_drops := sp_drops p |}.
Definition sp_with_stack st p : Spec Num :=
  {| sp_root := sp_root p; sp_done := sp_done p; sp_stack := st; sp_string := sp_string p; sp_scalar := sp_scalar p;
     sp_slot := sp_slot p; sp_drops := sp_drops p |}.
Definition sp_with_string o p : Spec Num :=
  {| sp_root := sp_root p; sp_done := sp_done p; sp_stack := sp_stack p; sp_string := o; sp_scalar := sp_scalar p;
     sp_slot := sp_slot p; sp_drops := sp_drops p |}.
Definition sp_with_scalar t slot p : Spec Num :=
  {| sp_root := sp_root p; sp_done := sp_done p; sp_stack := sp_stack p; sp_string := sp_string p; sp_scalar := t;
     sp_slot := slot; sp_drops := sp_drops p |}.
Definition sp_drop p : Spec Num :=
  {| sp_root := sp_root p; sp_done := sp_done p; sp_stack := sp_stack p; sp_string := sp_string p; sp_scalar := sp_scalar p;
     sp_slot := sp_slot p; sp_drops := S (sp_drops p) |}.

Definition sf_with_tree t f : SpecFrame Num :=
  {| sf_tree := t; sf_slot := sf_slot f; sf_key := sf_key f; sf_phase := sf_phase f |}.
Definition sf_with_phase ph f : SpecFrame Num :=
  {| sf_tree := sf_tree f; sf_slot := sf_slot f; sf_key := sf_key f; sf_phase := ph |}.
Definition sf_with_key k ph f : SpecFrame Num :=
  {| sf_tree := sf_tree f; sf_slot := sf_slot f; sf_key := Some k; sf_phase := ph |}.

Definition sp_set_top f p : Spec Num := sp_with_stack (f :: tail (sp_stack p)) p.

Definition tree_is_array (t : tree Num) : bool := match t with TArr _ => true | _ => false end.
Definition sf_is_array f : bool := tree_is_array (sf_tree f).

Definition sp_valueSlot p : option Slot :=
  match sp_stack p with
  | [] => match sp_root p with None => Some SRoot | Some _ => None end
  | f :: _ =>
      match sf_tree f with
      | TArr ts => Some (SElement (length ts))
      | _ =>
          match sf_phase f, sf_key f with
          | PhaseValue, Some key | PhaseColon, Some key => Some (SMember key)
          | _, _ => None
          end
      end
  end.

Definition sp_place (slot : option Slot) (t : tree Num) p : Spec Num :=
  match slot with
  | None => p
  | Some SRoot => sp_with_root (Some t) p
  | Some slot =>
      match sp_stack p with
      | [] => p
      | f :: _ => sp_set_top (sf_with_tree (tree_set (sf_tree f) slot t) f) p
      end
  end.

Definition sp_valueEnded p : Spec Num :=
  match sp_stack p with
  | [] => match sp_root p with Some _ => sp_with_done true p | None => p end
  | f :: _ => sp_set_top (sf_with_phase PhaseComma f) p
  end.

(** ** Strings *)

Definition ss_add (t : text) (o : SpecString) : SpecString :=
  {| ss_target := ss_target o; ss_slot := ss_slot o; ss_text := ss_text o ++ t; ss_escape := ss_escape o |}.
Definition ss_with_escape (e : text) (o : SpecString) : SpecString :=
  {| ss_target := ss_target o; ss_slot := ss_slot o; ss_text := ss_text o; ss_escape := e |}.

Definition sp_append (t : text) p : Spec Num :=
  match sp_string p with
  | None => p
  | Some o =>
      let p' := sp_with_string (Some (ss_add t o)) p in
      match ss_target o with ForKey => p' | ForValue => sp_place (ss_slot o) (TStr (ss_text o ++ t)) p' end
  end.

Definition sp_set_escape (e : text) p : Spec Num := sp_with_string (ss_with_escape e <$> sp_string p) p.

Definition sp_startString p : Spec Num :=
  let for_key :=
    match sp_stack p with
    | f :: _ => negb (sf_is_array f) && match sf_phase f with PhaseKey | PhaseComma => true | _ => false end
    | [] => false
    end in
  if for_key then sp_with_string (Some {| ss_target := ForKey; ss_slot := None; ss_text := []; ss_escape := [] |}) p
  else
    let slot := sp_valueSlot p in
    sp_place slot (TStr []) (sp_with_string (Some {| ss_target := ForValue; ss_slot := slot; ss_text := []; ss_escape := [] |}) p).

Definition sp_endString p : Spec Num :=
  match sp_string p with
  | None => p
  | Some o =>
      let p1 := sp_with_string None p in
      match ss_target o with
      | ForKey => match sp_stack p with [] => p1 | f :: _ => sp_set_top (sf_with_key (ss_text o) PhaseColon f) p1 end
      | ForValue => sp_valueEnded p1
      end
  end.

Definition sp_escape_step (escape : text) (char : N) p : Spec Num * bool :=
  if bool_decide (escape = [BACKSLASH]) then
    match simple_escape char with
    | Some decoded => (sp_append [decoded] (sp_set_escape [] p), true)
    | None =>
        if (char =? 117)%N then (sp_set_escape [BACKSLASH; 117%N] p, true)
        else (sp_append [BACKSLASH] (sp_set_escape [] p), false)
    end
  else if isHexDigit char then
    let escape' := escape ++ [char] in
    if length escape' <? 6 then (sp_set_escape escape' p, true)
    else (sp_append [parse_hex (drop 2 escape')] (sp_set_escape [] p), true)
  else (sp_append escape (sp_set_escape [] p), false).

(** A character of a string outside escapes. *)
Definition sp_char (char : N) p : Spec Num :=
  if (char =? QUOTE)%N then sp_endString p
  else if (char =? BACKSLASH)%N then sp_set_escape [BACKSLASH] p
  else sp_append [char] p.

Definition sp_escape p : text := match sp_string p with Some o => ss_escape o | None => [] end.

Definition sp_string_step (char : N) p : Spec Num :=
  match sp_escape p with
  | [] => sp_char char p
  | escape => let '(p', used) := sp_escape_step escape char p in if used : bool then p' else sp_char char p'
  end.

(** ** Scalars and containers *)

(** A literal or a number as a tree. *)
Definition scalar_tree (v : value Num) : tree Num :=
  match v with VNull => TNull | VBool b => TBool b | VNum n => TNum n | VStr t => TStr t | VRef _ => TNull end.

Definition sp_endScalar p : Spec Num :=
  let p1 := sp_with_scalar [] None p in
  sp_valueEnded
    (match scalarValue Number (sp_scalar p) with
     | Some v => sp_place (sp_slot p) (scalar_tree v) p1
     | None => sp_drop p1
     end).

Definition empty_tree (array : bool) : tree Num := if array then TArr [] else TObj [].

(** The container's place is taken until it closes. *)
Definition sp_openContainer (array : bool) p : Spec Num :=
  let slot := sp_valueSlot p in
  let p1 := sp_place slot TNull p in
  sp_with_stack
    ({| sf_tree := empty_tree array; sf_slot := slot; sf_key := None; sf_phase := if array then PhaseValue else PhaseKey |}
     :: sp_stack p1) p1.

Definition sp_closeContainer p : Spec Num :=
  match sp_stack p with
  | [] => p
  | f :: rest => sp_valueEnded (sp_place (sf_slot f) (sf_tree f) (sp_with_stack rest p))
  end.

Definition sp_structural (char : N) p : Spec Num :=
  if bool_decide (char ∈ [32; 9; 10; 13]%N) then p
  else if (char =? QUOTE)%N then sp_startString p
  else if (char =? 123)%N then sp_openContainer false p
  else if (char =? 91)%N then sp_openContainer true p
  else if ((char =? 125) || (char =? 93))%N then sp_closeContainer p
  else if (char =? 58)%N then
    match sp_stack p with
    | f :: _ =>
        if negb (sf_is_array f) && match sf_phase f with PhaseColon => true | _ => false end
        then sp_set_top (sf_with_phase PhaseValue f) p else p
    | [] => p
    end
  else if (char =? 44)%N then
    match sp_stack p with
    | f :: _ => sp_set_top (sf_with_phase (if sf_is_array f then PhaseValue else PhaseKey) f) p
    | [] => p
    end
  else sp_with_scalar [char] (sp_valueSlot p) p.

(** ** Reading *)

Definition sp_step (char : N) p : Spec Num :=
  if sp_done p then p
  else
    match sp_string p with
    | Some _ => sp_string_step char p
    | None =>
        match sp_scalar p with
        | [] => sp_structural char p
        | token =>
            if isDelimiter char then
              let p1 := sp_endScalar p in if sp_done p1 then p1 else sp_structural char p1
            else sp_with_scalar (token ++ [char]) (sp_slot p) p
        end
    end.

Definition sp_read (t : text) p : Spec Num := fold_left (fun p char => sp_step char p) t p.

(** ** What is shown *)

Definition tree_set_opt (slot : option Slot) (t : tree Num) (parent : tree Num) : tree Num :=
  match slot with Some slot => tree_set parent slot t | None => parent end.

(** The value whose open containers are these, the innermost with a child. *)
Fixpoint plug (stack : list (SpecFrame Num)) (child : tree Num) (slot : option Slot) (root : option (tree Num)) : option (tree Num) :=
  match stack with
  | [] => match slot with Some SRoot => Some child | _ => root end
  | f :: rest => plug rest (tree_set_opt slot child (sf_tree f)) (sf_slot f) root
  end.

Definition shown_stack (stack : list (SpecFrame Num)) (root : option (tree Num)) : option (tree Num) :=
  match stack with [] => root | f :: rest => plug rest (sf_tree f) (sf_slot f) root end.

Definition shown p : option (tree Num) := shown_stack (sp_stack p) (sp_root p).

Definition sp_pending p : option (Slot * tree Num) :=
  match sp_slot p with
  | None => None
  | Some slot =>
      if (length (sp_scalar p) =? 0) || (MAX_PENDING_SCALAR_LENGTH <? length (sp_scalar p)) then None
      else (fun v => (slot, scalar_tree v)) <$> pendingScalarValue Number (sp_scalar p)
  end.

(** With the unterminated number or literal, if it shows. *)
Definition pending_value p : option (tree Num) :=
  match sp_pending p with
  | Some (slot, t) => shown (sp_place (Some slot) t p)
  | None => shown p
  end.

(** Inside a container at the depth, nothing is reported before it closes. *)
Definition reports (rest : list (SpecFrame Num)) : bool := length rest <? MAX_REPORTED_DEPTH.

Fixpoint report_plug (stack : list (SpecFrame Num)) (child : tree Num) (slot : option Slot) (root : option (tree Num)) : option (tree Num) :=
  match stack with
  | [] => match slot with Some SRoot => Some child | _ => root end
  | f :: rest =>
      report_plug rest (if reports rest then tree_set_opt slot child (sf_tree f) else empty_tree (sf_is_array f)) (sf_slot f) root
  end.

Definition reported_stack (stack : list (SpecFrame Num)) (root : option (tree Num)) : option (tree Num) :=
  match stack with
  | [] => root
  | f :: rest => report_plug rest (if reports rest then sf_tree f else empty_tree (sf_is_array f)) (sf_slot f) root
  end.

Definition reported p : option (tree Num) := reported_stack (sp_stack p) (sp_root p).
End Spec.
