(* ===== verification/StreamRel.v ===== *)
(** Values of the heap as trees: [denotes] relates a JavaScript value to the tree it stands
    for, avoiding the containers that may still be mutated; a heap that [evolves] from
    another keeps what avoids them. The relation between the parser and the machine of
    [StreamSpec]: open containers hold what the machine's trees hold and a reference to the
    next one in its slot, closed ones are frozen, and the costs are the sizes. *)
From S2P Require Import Prelude EditText StreamValue StreamParser StreamSpec.

Section Heap.
Context {Num : Type}.
Implicit Types (h : heap Num) (t : tree Num) (v : value Num) (c : Container Num) (open : list nat).

Inductive denotes h open : tree Num -> value Num -> Prop :=
| denotes_null : denotes h open TNull VNull
| denotes_bool b : denotes h open (TBool b) (VBool b)
| denotes_num n : denotes h open (TNum n) (VNum n)
| denotes_str s : denotes h open (TStr s) (VStr s)
| denotes_arr l ts vs :
    l ∉ open -> h !! l = Some (CArray vs) -> Forall2 (denotes h open) ts vs -> denotes h open (TArr ts) (VRef l)
| denotes_obj l fs ms :
    l ∉ open -> h !! l = Some (CObject ms) -> Forall2 (fun f m => f.1 = m.1 /\ denotes h open f.2 m.2) fs ms ->
    denotes h open (TObj fs) (VRef l).

Definition container_denotes h open t c : Prop :=
  match t, c with
  | TArr ts, CArray vs => Forall2 (denotes h open) ts vs
  | TObj fs, CObject ms => Forall2 (fun f m => f.1 = m.1 /\ denotes h open f.2 m.2) fs ms
  | _, _ => False
  end.

Lemma denotes_container h open t c l :
  l ∉ open -> h !! l = Some c -> container_denotes h open t c -> denotes h open t (VRef l).
Proof. intros Hl Hc Hd. destruct t, c; try done; econstructor; eauto. Qed.

(** What is not open stays as it is, and is not opened. *)
Definition evolves h open h' open' : Prop :=
  forall l, l ∉ open -> l < length h -> h' !! l = h !! l /\ l ∉ open'.

Lemma evolves_refl h open : evolves h open h open.
Proof. by intros l. Qed.

Lemma evolves_trans h1 o1 h2 o2 h3 o3 : length h1 <= length h2 -> evolves h1 o1 h2 o2 -> evolves h2 o2 h3 o3 -> evolves h1 o1 h3 o3.
Proof. intros Hl H1 H2 l Hn Hlt. destruct (H1 l Hn Hlt) as [E1 N1]. destruct (H2 l N1) as [E2 N2]; [lia|]. by rewrite E2. Qed.

Lemma denotes_evolves h o h' o' t v : evolves h o h' o' -> denotes h o t v -> denotes h' o' t v.
Proof.
  intros He. revert v. induction t as [|b|n|s|ts IH|fs IH] using tree_ind; intros v Hd; inversion Hd as [| | | |l ? vs Hl Hc Hf|l ? ms Hl Hc Hf]; subst.
  1-4: constructor.
  - destruct (He l Hl) as [E N]; [by eapply lookup_lt_Some|]. econstructor; [done|by rewrite E|].
    clear Hc Hd E. induction Hf; decompose_Forall_hyps; constructor; eauto.
  - destruct (He l Hl) as [E N]; [by eapply lookup_lt_Some|]. econstructor; [done|by rewrite E|].
    clear Hc Hd E. induction Hf as [|? ? ? ? []]; decompose_Forall_hyps; constructor; eauto.
Qed.

Lemma container_evolves h o h' o' t c : evolves h o h' o' -> container_denotes h o t c -> container_denotes h' o' t c.
Proof.
  intros He. destruct t, c; cbn; try done; intros Hf; eapply Forall2_impl; try exact Hf; intros ??; cbn.
  - by apply denotes_evolves.
  - intros [? ?]. split; [done|]. by eapply denotes_evolves.
Qed.

(** ** Setting slots *)

Lemma array_set_length {A} i (v : A) l : length (array_set i v l) = if i <? length l then length l else S (length l).
Proof. unfold array_set. destruct (Nat.ltb_spec i (length l)); rewrite ?length_insert, ?length_app; cbn; lia. Qed.

Lemma array_set_set {A} i (v w : A) l : i <= length l -> array_set i w (array_set i v l) = array_set i w l.
Proof.
  intros Hi. unfold array_set at 1 3. rewrite array_set_length. unfold array_set.
  destruct (Nat.ltb_spec i (length l)) as [H|H].
  - rewrite (proj2 (Nat.ltb_lt i (length l))) by done. by rewrite list_insert_insert_eq.
  - rewrite (proj2 (Nat.ltb_lt i (S (length l)))) by lia. assert (i = length l) as -> by lia.
    by rewrite insert_app_r_alt, Nat.sub_diag by lia.
Qed.

Lemma setMember_set {A} k (v w : A) ms : setMember k w (setMember k v ms) = setMember k w ms.
Proof.
  induction ms as [|[k' v'] ms IH]; cbn; [by rewrite bool_decide_true|].
  destruct (bool_decide (k = k')) eqn:E; cbn; rewrite E; [done|]. by rewrite IH.
Qed.

Lemma setMember_length {A} k (v : A) ms : length (setMember k v ms) = if is_some (member_get k ms) then length ms else S (length ms).
Proof.
  induction ms as [|[k' v'] ms IH]; cbn; [done|]. destruct (bool_decide (k = k')); cbn; [done|]. rewrite IH. by destruct (is_some _).
Qed.

Lemma member_get_set {A} k (v : A) ms : member_get k (setMember k v ms) = Some v.
Proof. induction ms as [|[k' v'] ms IH]; cbn; [by rewrite bool_decide_true|]. destruct (bool_decide (k = k')) eqn:E; cbn; by rewrite E. Qed.

Lemma array_set_get {A} i (v : A) l : i <= length l -> array_set i v l !! i = Some v.
Proof.
  intros Hi. unfold array_set. destruct (Nat.ltb_spec i (length l)); [by apply list_lookup_insert_eq|].
  rewrite lookup_app_r by lia. by replace (i - length l) with 0 by lia.
Qed.

(** The slots that a container takes: an index at most its length. *)
Definition slot_fits c (slot : Slot) : Prop :=
  match c, slot with
  | CArray es, SElement i => i <= length es
  | CObject ms, SMember k => True
  | _, _ => False
  end.

Definition tree_fits t (slot : Slot) : Prop :=
  match t, slot with
  | TArr ts, SElement i => i <= length ts
  | TObj ms, SMember k => True
  | _, _ => False
  end.

Lemma setSlot_set c slot v w : slot_fits c slot -> setSlot (setSlot c slot v) slot w = setSlot c slot w.
Proof. destruct c, slot; cbn; try done; intros; f_equal; [apply setMember_set|by apply array_set_set]. Qed.

Lemma tree_set_set t slot (v w : tree Num) : tree_fits t slot -> tree_set (tree_set t slot v) slot w = tree_set t slot w.
Proof. destruct t, slot; cbn; try done; intros; f_equal; [by apply array_set_set|apply setMember_set]. Qed.

Lemma tree_get_set t slot (v : tree Num) : tree_fits t slot -> tree_get (tree_set t slot v) slot = Some v.
Proof. destruct t, slot; cbn; try done; intros; [by apply array_set_get|apply member_get_set]. Qed.

Lemma setSlot_fits c slot v : slot_fits c slot -> slot_fits (setSlot c slot v) slot.
Proof. destruct c, slot; cbn; try done. rewrite array_set_length. destruct (_ <? _); lia. Qed.

Lemma tree_set_fits t slot (v : tree Num) : tree_fits t slot -> tree_fits (tree_set t slot v) slot.
Proof. destruct t, slot; cbn; try done. rewrite array_set_length. destruct (_ <? _); lia. Qed.

Lemma setSlot_size c slot v :
  slot_fits c slot -> container_size (setSlot c slot v) = container_size c + (if slot_grows c slot then 1 else 0).
Proof.
  destruct c, slot; cbn; try done; intros Hf.
  - rewrite setMember_length. destruct (is_some _); cbn; lia.
  - rewrite array_set_length. destruct (Nat.ltb_spec index (length elements)), (Nat.eqb_spec index (length elements)); lia.
Qed.

Lemma setSlot_taken c slot v : slot_fits c slot -> slot_grows (setSlot c slot v) slot = false.
Proof.
  destruct c, slot; cbn; try done; intros Hf; [by rewrite member_get_set|]. rewrite array_set_length.
  destruct (Nat.ltb_spec index (length elements)); apply Nat.eqb_neq; lia.
Qed.

Lemma denotes_fits h o t c slot : container_denotes h o t c -> slot_fits c slot <-> tree_fits t slot.
Proof. destruct t, c, slot; cbn; try done. intros H%Forall2_length. by rewrite H. Qed.

Lemma container_set h o t c slot tv v :
  container_denotes h o t c -> denotes h o tv v -> container_denotes h o (tree_set t slot tv) (setSlot c slot v).
Proof.
  intros Hc Hv. destruct t as [| | | |ts|fs], c as [ms|es], slot as [|k|i]; cbn in *; try done.
  - unfold array_set. rewrite (Forall2_length _ _ _ Hc). destruct (i <? length es).
    + by apply Forall2_insert.
    + apply Forall2_app; [done|]. by constructor.
  - induction Hc as [|[k1 t1] [k2 v2] fs ms [E Hd] Hc IH]; cbn in *; [by repeat constructor|]. subst.
    destruct (bool_decide (k = k2)); constructor; done.
Qed.

Lemma container_array h o t c : container_denotes h o t c -> match c with CArray _ => true | CObject _ => false end = tree_is_array t.
Proof. by destruct t, c. Qed.
End Heap.

Section Rel.
Context {Num : Type} (Number : text -> Num).
Implicit Types (h : heap Num) (t : tree Num) (v : value Num) (c : Container Num) (open : list nat).
Implicit Types (s : Parser Num) (p : Spec Num) (f : Frame) (pf : SpecFrame Num) (st : list Frame).

Definition opt_denotes h open (t : option (tree Num)) (v : option (value Num)) : Prop :=
  match t, v with Some t, Some v => denotes h open t v | None, None => True | _, _ => False end.

(** The open containers of a parser. *)
Definition locs (st : list Frame) : list nat := f_container <$> st.

(** ** Frames *)

(** A container with a reference to the open one in its slot. *)
Definition fill (child : option (nat * option Slot)) c : Container Num :=
  match child with Some (l, Some slot) => setSlot c slot (VRef l) | _ => c end.

Definition child_fits (child : option (nat * option Slot)) c : Prop :=
  match child with Some (_, Some slot) => slot_fits c slot /\ slot_grows c slot = false | _ => True end.

Definition frame_rel h open (child : option (nat * option Slot)) f pf : Prop :=
  (exists c, container_denotes h open (sf_tree pf) c /\ h !! f_container f = Some (fill child c) /\
    f_size f = container_size c /\ child_fits child c) /\
  f_slot f = sf_slot pf /\ f_key f = sf_key pf /\ f_phase f = sf_phase pf.

(** The path that [reportedPath] gives. *)
Definition path_in st (slot : option Slot) : option JsonPath :=
  match slot with
  | None => None
  | Some SRoot => Some []
  | Some slot =>
      match st with
      | f :: _ =>
          if f_reportsInside f then
            match f_path f, slot_step slot with Some path, Some step => Some (path ++ [step]) | _, _ => None end
          else None
      | [] => None
      end
  end.

(** A container is reported inside when it has a path that is not too long. *)
Definition path_ok f st : Prop :=
  f_path f = path_in st (f_slot f) /\
  f_reportsInside f = match f_path f with Some path => length path <? MAX_REPORTED_DEPTH | None => false end /\
  (forall path, f_path f = Some path -> length path = length st).

Fixpoint frames_rel h open (root : option (value Num)) (sroot : option (tree Num)) (child : option (nat * option Slot))
    st (ps : list (SpecFrame Num)) : Prop :=
  match st, ps with
  | [], [] =>
      match child with
      | None => opt_denotes h open sroot root
      | Some (l, slot) => slot = Some SRoot /\ root = Some (VRef l) /\ is_Some sroot
      end
  | f :: st', pf :: ps' =>
      frame_rel h open child f pf /\ path_ok f st' /\ frames_rel h open root sroot (Some (f_container f, f_slot f)) st' ps'
  | _, _ => False
  end.

(** A slot where a value may go: the root when nothing is open, or one of the innermost
    container. *)
Definition slot_ok h st (slot : option Slot) : Prop :=
  match slot with
  | None => True
  | Some SRoot => st = []
  | Some slot => match st with f :: _ => exists c, h !! f_container f = Some c /\ slot_fits c slot | [] => False end
  end.

(** ** States *)

(** An open value is its text so far. *)
Definition string_placed p (so : SpecString) : Prop :=
  match ss_slot so with
  | None => True
  | Some SRoot => sp_root p = Some (TStr (ss_text so))
  | Some slot =>
      match sp_stack p with pf :: _ => tree_get (sf_tree pf) slot = Some (TStr (ss_text so)) | [] => False end
  end.

Definition string_rel s p : Prop :=
  match p_string s, sp_string p with
  | None, None => True
  | Some o, Some so =>
      os_target o = ss_target so /\ os_slot o = ss_slot so /\ os_text o = ss_text so /\ os_escape o = ss_escape so /\
      slot_ok (p_heap s) (p_stack s) (os_slot o) /\ os_path o = path_in (p_stack s) (os_slot o) /\ string_placed p so /\ (os_target o = ForKey -> os_slot o = None)
  | _, _ => False
  end.

Definition stack_cost st : Z := foldr (fun f n => Z.of_nat (f_size f) + 1 + n)%Z 0%Z st.

(** The last snapshot is that of the text, when nothing changed since and no token was
    dropped. *)
Definition snapshot_rel s p : Prop :=
  exists drops snap, drops <= sp_drops p /\ opt_denotes (p_heap s) (locs (p_stack s)) snap (p_snapshot s) /\
    (p_dirty s = false -> sp_drops p = drops -> snap = pending_value Number p).

Record rel s p : Prop := {
  rel_frames : frames_rel (p_heap s) (locs (p_stack s)) (p_root s) (sp_root p) None (p_stack s) (sp_stack p);
  rel_nodup : NoDup (locs (p_stack s));
  rel_done : p_done s = sp_done p;
  rel_scalar : p_scalar s = sp_scalar p;
  rel_slot : p_scalarSlot s = sp_slot p;
  rel_slot_ok : slot_ok (p_heap s) (p_stack s) (p_scalarSlot s);
  rel_cost : p_pathCost s = stack_cost (p_stack s);
  rel_credit : (0 <= p_credit s)%Z;
  rel_snapshot : snapshot_rel s p;
}.

(** A parser later: no closed container has changed. *)
Definition later s s' : Prop :=
  length (p_heap s) <= length (p_heap s') /\ evolves (p_heap s) (locs (p_stack s)) (p_heap s') (locs (p_stack s')).

Lemma later_refl s : later s s.
Proof. split; [done|apply evolves_refl]. Qed.

Lemma later_same s s' : p_heap s' = p_heap s -> locs (p_stack s') = locs (p_stack s) -> later s s'.
Proof. intros E1 E2. unfold later. rewrite E1, E2. apply later_refl. Qed.

Lemma later_trans s1 s2 s3 : later s1 s2 -> later s2 s3 -> later s1 s3.
Proof. intros [L1 E1] [L2 E2]. split; [lia|]. by eapply evolves_trans. Qed.

(** ** Frames in a later heap *)

Lemma opt_denotes_evolves h o h' o' (t : option (tree Num)) (v : option (value Num)) : evolves h o h' o' -> opt_denotes h o t v -> opt_denotes h' o' t v.
Proof. intros He. destruct t, v; try done. by apply denotes_evolves. Qed.

Lemma frames_evolves h o h' o' root sroot child st ps :
  evolves h o h' o' -> Forall (fun f => h' !! f_container f = h !! f_container f) st ->
  frames_rel h o root sroot child st ps -> frames_rel h' o' root sroot child st ps.
Proof.
  intros He. revert child ps. induction st as [|f st IH]; intros child [|pf ps]; cbn; try done.
  - intros _. destruct child as [[l slot]|]; [done|]. by apply opt_denotes_evolves.
  - intros [Hf Hst]%Forall_cons (((c & H1 & H2 & H3) & H4) & Hp & Hr). split; [|split; [done|by apply IH]].
    split; [|done]. exists c. rewrite Hf. split; [by eapply container_evolves|done].
Qed.

Lemma frames_length h o root sroot child st ps : frames_rel h o root sroot child st ps -> length st = length ps.
Proof. revert child ps. induction st as [|f st IH]; intros child [|pf ps]; cbn; try done. intros (_ & _ & H). f_equal. by eapply IH. Qed.

Lemma frames_alive h o root sroot child st ps : frames_rel h o root sroot child st ps -> Forall (fun l => l < length h) (locs st).
Proof.
  revert child ps. induction st as [|f st IH]; intros child [|pf ps]; cbn; try done; intros H.
  destruct H as (((c & _ & H & _) & _) & _ & Hr). constructor; [by eapply lookup_lt_Some|by eapply IH].
Qed.

(** A write to the innermost container. *)
Lemma write_evolves h st f c : evolves h (locs (f :: st)) (<[f_container f := c]> h) (locs (f :: st)).
Proof. intros l Hl _. split; [|done]. apply list_lookup_insert_ne. intros E. apply Hl. rewrite <- E. by left. Qed.

Lemma others_kept h st f c :
  NoDup (locs (f :: st)) -> Forall (fun g => <[f_container f := c]> h !! f_container g = h !! f_container g) st.
Proof.
  cbn. intros [Hn _]%NoDup_cons. apply Forall_forall. intros g Hg. apply list_lookup_insert_ne. intros E. apply Hn.
  rewrite E. by apply list_elem_of_fmap_2.
Qed.

(** ** Placing *)

Definition grown c slot f : Frame := if slot_grows c slot then with_size (S (f_size f)) f else f.

Lemma place_eq s f st c slot v :
  slot <> SRoot -> p_stack s = f :: st -> p_heap s !! f_container f = Some c ->
  place (Some slot) v s =
  Some (with_heap (<[f_container f := setSlot c slot v]> (p_heap s))
    (with_stack (grown c slot f :: st) (p_pathCost s + (if slot_grows c slot then 1 else 0)) (with_dirty true s))).
Proof. intros Hs Hst Hc. unfold place. rewrite Hst, Hc. by destruct slot. Qed.

Lemma grown_same c slot f :
  f_container (grown c slot f) = f_container f /\ f_slot (grown c slot f) = f_slot f /\ f_key (grown c slot f) = f_key f /\
  f_phase (grown c slot f) = f_phase f /\ f_path (grown c slot f) = f_path f /\
  f_reportsInside (grown c slot f) = f_reportsInside f /\
  f_size (grown c slot f) = f_size f + (if slot_grows c slot then 1 else 0).
Proof. unfold grown. destruct (slot_grows c slot); cbn; split_and!; lia || done. Qed.

(** The innermost container with a value in one of its slots; [w] is what the heap holds
    there, [tv] what the machine does, and [v] a value that stands for it. *)
Lemma top_set h root sroot f st pf ps c slot tv v :
  frames_rel h (locs (f :: st)) root sroot None (f :: st) (pf :: ps) -> NoDup (locs (f :: st)) ->
  h !! f_container f = Some c -> slot_fits c slot -> denotes h (locs (f :: st)) tv v ->
  let h' := <[f_container f := setSlot c slot v]> h in
  frames_rel h' (locs (grown c slot f :: st)) root sroot None (grown c slot f :: st)
    (sf_with_tree (tree_set (sf_tree pf) slot tv) pf :: ps).
Proof.
  intros (((c' & Hd & Hc' & Hsz & _) & Hs & Hk & Hph) & Hp & Hr) Hn Hc Hf Hv h'.
  cbn [fill] in Hc'. assert (c' = c) as -> by congruence. clear Hc'. destruct (grown_same c slot f) as (G1 & G2 & G3 & G4 & G5 & G6 & G7).
  assert (Hl : locs (grown c slot f :: st) = locs (f :: st)) by (cbn; by rewrite G1). rewrite Hl.
  pose proof (write_evolves h st f (setSlot c slot v)) as He. pose proof (others_kept h st f (setSlot c slot v) Hn) as Ho.
  cbn [frames_rel]. split; [split|split].
  - exists (setSlot c slot v). split; [|split; [|split]].
    + eapply container_evolves; [exact He|]. by apply container_set.
    + rewrite G1. cbn [fill]. unfold h'. apply list_lookup_insert_eq. by eapply lookup_lt_Some.
    + rewrite G7, Hsz. by rewrite setSlot_size.
    + done.
  - rewrite G2, G3, G4. done.
  - unfold path_ok in *. by rewrite G2, G5, G6.
  - rewrite G1, G2. by eapply frames_evolves.
Qed.

Lemma slot_ok_set h f st c slot v slot' :
  h !! f_container f = Some c -> slot_fits c slot ->
  slot_ok h (f :: st) slot' -> slot_ok (<[f_container f := setSlot c slot v]> h) (grown c slot f :: st) slot'.
Proof.
  intros Hc Hf. destruct slot' as [[|k|i]|]; try done; cbn; intros (c' & Hc' & Hf'); assert (c' = c) as -> by congruence;
    destruct (grown_same c slot f) as (-> & _); exists (setSlot c slot v);
    (split; [apply list_lookup_insert_eq; by eapply lookup_lt_Some|]).
  - destruct c, slot; done.
  - destruct c, slot; try done. cbn in *. rewrite array_set_length. destruct (_ <? _); lia.
Qed.

Lemma path_in_grown c slot f st slot' : path_in (grown c slot f :: st) slot' = path_in (f :: st) slot'.
Proof. destruct slot' as [[|k|i]|]; try done; cbn; destruct (grown_same c slot f) as (_ & _ & _ & _ & -> & -> & _); done. Qed.

Lemma cost_grown c slot f st : stack_cost (grown c slot f :: st) = (stack_cost (f :: st) + (if slot_grows c slot then 1 else 0))%Z.
Proof. cbn. destruct (grown_same c slot f) as (_ & _ & _ & _ & _ & _ & ->). destruct (slot_grows c slot); lia. Qed.

(** ** Containers that open and close *)

(** A new object leaves the others as they are. *)
Lemma alloc_evolves h o c : evolves h o (h ++ [c]) (length h :: o).
Proof. intros l Hl Hlt. split; [by apply lookup_app_l|]. intros [->|?]%elem_of_cons; [lia|done]. Qed.

(** The innermost frames with an open child in the slot. *)
Definition with_child h st (slot : option Slot) (l : nat) : heap Num :=
  match slot, st with
  | Some slot, f :: _ =>
      match h !! f_container f with Some c => <[f_container f := setSlot c slot (VRef l)]> h | None => h end
  | _, _ => h
  end.

Lemma with_child_length h st slot l : length (with_child h st slot l) = length h.
Proof. unfold with_child. destruct slot, st as [|f st]; try done. destruct (h !! f_container f); [apply length_insert|done]. Qed.

Lemma with_child_evolves h st slot l : evolves h (locs st) (with_child h st slot l) (locs st).
Proof.
  unfold with_child. destruct slot, st as [|f st]; try apply evolves_refl. destruct (h !! f_container f); [|apply evolves_refl].
  apply write_evolves.
Qed.

(** The slot is taken by a value of the innermost container. *)
Definition slot_set h st (slot : option Slot) : Prop :=
  match slot with
  | None => st <> []
  | Some SRoot => st = []
  | Some slot =>
      match st with f :: _ => exists c, h !! f_container f = Some c /\ slot_fits c slot /\ slot_grows c slot = false | [] => False end
  end.

Lemma frames_child h root root' sroot st ps slot l :
  frames_rel h (locs st) root sroot None st ps -> NoDup (locs st) -> slot_set h st slot ->
  match slot with Some SRoot => root' = Some (VRef l) /\ is_Some sroot | _ => root' = root end ->
  frames_rel (with_child h st slot l) (locs st) root' sroot (Some (l, slot)) st ps.
Proof.
  intros Hf Hn Hs Hroot. destruct slot as [slot|]; [destruct (decide (slot = SRoot)) as [->|Hne]|].
  - cbn in Hs. subst. destruct ps; [|done]. by destruct Hroot.
  - assert (root' = root) as -> by by destruct slot. destruct st as [|f st]; [by destruct slot|]. destruct ps as [|pf ps]; [done|].
    assert (exists c, h !! f_container f = Some c /\ slot_fits c slot /\ slot_grows c slot = false) as (c & Hc & Hfit & Hg) by by destruct slot.
    destruct Hf as (((c' & Hd & Hc' & Hsz & _) & Hkeys) & Hp & Hr). cbn in Hc'. assert (c' = c) as -> by congruence. clear Hc'.
    unfold with_child. rewrite Hc. pose proof (write_evolves h st f (setSlot c slot (VRef l))) as He. split; [split|split].
    + exists c. split; [by eapply container_evolves|]. cbn. split; [apply list_lookup_insert_eq; by eapply lookup_lt_Some|done].
    + done.
    + done.
    + eapply frames_evolves; [exact He|by apply others_kept|done].
  - subst root'. destruct st as [|f st]; [done|]. destruct ps as [|pf ps]; [done|]. exact Hf.
Qed.

(** The innermost frames with the closed child in its slot. *)
Lemma frames_plug h root sroot st ps slot l t :
  frames_rel h (locs st) root sroot (Some (l, slot)) st ps -> denotes h (locs st) t (VRef l) ->
  match slot, ps with
  | None, _ => frames_rel h (locs st) root sroot None st ps
  | Some SRoot, _ => st = [] /\ ps = [] /\ root = Some (VRef l)
  | Some slot, pf :: ps' => frames_rel h (locs st) root sroot None st (sf_with_tree (tree_set (sf_tree pf) slot t) pf :: ps')
  | Some _, [] => False
  end.
Proof.
  intros Hf Hd. destruct st as [|f st], ps as [|pf ps]; try done.
  - by destruct Hf as (-> & -> & _).
  - destruct slot as [slot|]; [|exact Hf].
    destruct Hf as (((c & Hc & Hl & Hsz & Hfit & Hg) & Hkeys) & Hp & Hr).
    assert (Hres : frames_rel h (locs (f :: st)) root sroot None (f :: st) (sf_with_tree (tree_set (sf_tree pf) slot t) pf :: ps)).
    { split; [split|split]; try done. exists (setSlot c slot (VRef l)). split; [by apply container_set|]. split; [exact Hl|].
      split; [|done]. rewrite setSlot_size, Hg by done. lia. }
    destruct slot; [by destruct c|done|done].
Qed.

(** ** Slots of values *)

Lemma top_array h o root sroot f st pf ps :
  frames_rel h o root sroot None (f :: st) (pf :: ps) ->
  match h !! f_container f with Some (CArray _) => true | _ => false end = sf_is_array pf.
Proof. intros (((c & Hd & Hc & _) & _) & _). cbn in Hc. rewrite Hc. unfold sf_is_array. rewrite <- (container_array _ _ _ _ Hd). by destruct c. Qed.

Lemma valueSlot_rel s p : rel s p -> valueSlot s = sp_valueSlot p.
Proof.
  intros H. pose proof (rel_frames _ _ H) as Hf. unfold valueSlot, sp_valueSlot.
  destruct (p_stack s) as [|f st], (sp_stack p) as [|pf ps]; try done.
  - cbn in Hf. by destruct (p_root s), (sp_root p).
  - destruct Hf as (((c & Hd & Hc & _) & _ & Hk & Hp) & _). cbn in Hc. rewrite Hc, Hk, Hp.
    destruct (sf_tree pf), c; try done. cbn in Hd. by rewrite (Forall2_length _ _ _ Hd).
Qed.

Lemma valueSlot_ok s p : rel s p -> slot_ok (p_heap s) (p_stack s) (valueSlot s).
Proof.
  intros H. pose proof (rel_frames _ _ H) as Hf. unfold valueSlot.
  destruct (p_stack s) as [|f st], (sp_stack p) as [|pf ps]; try done.
  - by destruct (p_root s).
  - destruct Hf as (((c & Hd & Hc & _) & _) & _). cbn in Hc. rewrite Hc. destruct c as [ms|es].
    + destruct (f_phase f), (f_key f); cbn; try done; by exists (CObject ms).
    + exists (CArray es). split; [done|cbn; lia].
Qed.

Lemma reportedPath_eq s slot : slot_ok (p_heap s) (p_stack s) slot -> (forall f st, p_stack s = f :: st -> path_ok f st) ->
  reportedPath slot s = Some (path_in (p_stack s) slot).
Proof.
  intros Hok Hp. destruct slot as [[|k|i]|]; try done; cbn in *; (destruct (p_stack s) as [|f st]; [done|]);
    destruct (Hp f st eq_refl) as (_ & Hr & _); destruct (f_reportsInside f); try done; by destruct (f_path f).
Qed.
End Rel.
