(* ===== verification/StreamChanges.v ===== *)
(** The changes that the streaming parser reports: applied by a writer that keeps its own
    copy of the value, and what those of a piece do to the value that is reported. *)
From S2P Require Import Prelude EditText StreamValue StreamParser StreamSpec StreamRel.

(** A [JsonChange] with its value as a tree. *)
Inductive TChange {Num : Type} : Type :=
| TSet (path : JsonPath) (t : tree Num)
| TAppend (path : JsonPath) (u : text).
Arguments TChange : clear implicits.

Definition step_slot (step : PathStep) : Slot := match step with PKey k => SMember k | PIndex i => SElement i end.

Section Replay.
Context {Num : Type}.
Implicit Types (t : tree Num) (path : JsonPath) (ps : list (SpecFrame Num)).

(** The slot may be set: a member of an object, an element of an array or the next one. *)
Definition tree_takes t (slot : Slot) : bool :=
  match t, slot with TArr ts, SElement i => i <=? length ts | TObj _, SMember _ => true | _, _ => false end.

Fixpoint tree_modify path (g : tree Num -> option (tree Num)) t : option (tree Num) :=
  match path with
  | [] => g t
  | step :: path' =>
      child ← tree_get t (step_slot step);
      child' ← tree_modify path' g child;
      Some (tree_set t (step_slot step) child')
  end.

Fixpoint tree_put path (v : tree Num) t : option (tree Num) :=
  match path with
  | [] => Some v
  | [step] => if tree_takes t (step_slot step) then Some (tree_set t (step_slot step) v) else None
  | step :: path' =>
      child ← tree_get t (step_slot step);
      child' ← tree_put path' v child;
      Some (tree_set t (step_slot step) child')
  end.

Definition append_text (u : text) t : option (tree Num) := match t with TStr s => Some (TStr (s ++ u)) | _ => None end.

(** A change of the writer's copy; [None] when it cannot be made. *)
Definition apply_change (c : TChange Num) (copy : option (tree Num)) : option (tree Num) :=
  match c with
  | TSet [] v => Some v
  | TSet path v => t ← copy; tree_put path v t
  | TAppend path u => t ← copy; tree_modify path (append_text u) t
  end.

(** All of them, in order. *)
Fixpoint replay_changes (cs : list (TChange Num)) (copy : option (tree Num)) : option (option (tree Num)) :=
  match cs with
  | [] => Some copy
  | c :: cs' => t ← apply_change c copy; replay_changes cs' (Some t)
  end.

Lemma replay_snoc cs c start copy copy' :
  replay_changes cs start = Some copy -> apply_change c copy = Some copy' -> replay_changes (cs ++ [c]) start = Some (Some copy').
Proof.
  revert start. induction cs as [|d cs IH]; intros start; cbn.
  - intros [= ->] ->. done.
  - destruct (apply_change d start); [|done]. cbn. apply IH.
Qed.

Lemma replay_snoc_inv cs c start copy' :
  replay_changes (cs ++ [c]) start = Some copy' -> exists copy t, replay_changes cs start = Some copy /\ apply_change c copy = Some t /\ copy' = Some t.
Proof.
  revert start. induction cs as [|d cs IH]; intros start; cbn.
  - destruct (apply_change c start) as [t|] eqn:E; [|done]. cbn. intros [= <-]. by exists start, t.
  - destruct (apply_change d start); [|done]. cbn. apply IH.
Qed.

(** ** Paths in pieces *)

Lemma modify_app path1 path2 g t : tree_modify (path1 ++ path2) g t = tree_modify path1 (tree_modify path2 g) t.
Proof.
  revert t. induction path1 as [|step path1 IH]; intros t; [done|]. cbn. destruct (tree_get t (step_slot step)); [|done].
  cbn. by rewrite IH.
Qed.

Lemma tree_put_cons step path v t :
  path <> [] -> tree_put (step :: path) v t =
    child ← tree_get t (step_slot step); child' ← tree_put path v child; Some (tree_set t (step_slot step) child').
Proof. by destruct path. Qed.

Lemma tree_put_snoc path step v t :
  tree_put (path ++ [step]) v t = tree_modify path (tree_put [step] v) t.
Proof.
  revert t. induction path as [|step' path IH]; intros t; [done|]. cbn [app tree_modify]. rewrite tree_put_cons by (by destruct path).
  destruct (tree_get t (step_slot step')); [|done]. cbn. by rewrite IH.
Qed.

Lemma get_takes t slot v : tree_get t slot = Some v -> tree_takes t slot = true.
Proof. destruct t, slot; cbn; try done. intros H%lookup_lt_Some. apply Nat.leb_le. lia. Qed.

Lemma modify_weaken path g g' t t' :
  (forall x y, g x = Some y -> g' x = Some y) -> tree_modify path g t = Some t' -> tree_modify path g' t = Some t'.
Proof.
  intros Hg. revert t t'. induction path as [|step path IH]; intros t t'; [apply Hg|]. cbn [tree_modify].
  destruct (tree_get t (step_slot step)) as [child|]; [|done]. cbn.
  destruct (tree_modify path g child) as [child'|] eqn:E; [|done]. by rewrite (IH _ _ E).
Qed.

(** What is replaced may be set. *)
Lemma modify_put path v t t' : tree_modify path (fun _ => Some v) t = Some t' -> tree_put path v t = Some t'.
Proof.
  destruct path as [|step path _] using rev_ind; [done|]. rewrite modify_app, tree_put_snoc. apply modify_weaken. intros x y. cbn.
  destruct (tree_get x (step_slot step)) eqn:E; [|done]. cbn. by rewrite (get_takes _ _ _ E).
Qed.

Lemma get_fits t slot v : tree_get t slot = Some v -> tree_fits t slot.
Proof. destruct t, slot; cbn; try done. intros H%lookup_lt_Some. lia. Qed.

(** One modification after another at one path. *)
Lemma modify_modify path g g' t t1 t2 :
  tree_modify path g t = Some t1 -> tree_modify path g' t1 = Some t2 -> tree_modify path (fun x => y ← g x; g' y) t = Some t2.
Proof.
  revert t t1 t2. induction path as [|step path IH]; intros t t1 t2; cbn [tree_modify].
  - by intros ->.
  - destruct (tree_get t (step_slot step)) as [child|] eqn:E; [|done]. cbn.
    destruct (tree_modify path g child) as [child1|] eqn:E1; [|done]. cbn. intros [= <-].
    pose proof (get_fits _ _ _ E) as Hf. rewrite tree_get_set by done. cbn.
    destruct (tree_modify path g' child1) as [child2|] eqn:E2; [|done]. cbn. rewrite tree_set_set by done. intros [= <-].
    by rewrite (IH _ _ _ E1 E2).
Qed.

Lemma append_append (u u' : text) t t1 t2 : append_text u t = Some t1 -> append_text u' t1 = Some t2 -> append_text (u ++ u') t = Some t2.
Proof. destruct t; try done. intros [= <-] [= <-]. cbn. by rewrite app_assoc. Qed.

Lemma apply_set_snoc path step (v : tree Num) copy :
  apply_change (TSet (path ++ [step]) v) copy = t ← copy; tree_modify path (tree_put [step] v) t.
Proof. cbn. destruct (path ++ [step]) as [|? ?] eqn:E; [by destruct path|]. rewrite <- E. destruct copy; [|done]. cbn. by rewrite tree_put_snoc. Qed.

(** A change that is extended does what the change and an append do. *)
Lemma extend_set path (t0 u : text) copy T0 T1 :
  apply_change (TSet path (TStr t0)) copy = Some T0 -> apply_change (TAppend path u) (Some T0) = Some T1 ->
  apply_change (TSet path (TStr (t0 ++ u))) copy = Some T1.
Proof.
  destruct path as [|step path _] using rev_ind.
  - cbn. intros [= <-] [= <-]. done.
  - rewrite !apply_set_snoc. destruct copy as [t|]; [|done]. cbn [apply_change mbind option_bind]. intros H1 H2. rewrite modify_app in H2.
    pose proof (modify_modify _ _ _ _ _ _ H1 H2) as H. eapply modify_weaken; [|exact H]. intros x y. cbn.
    destruct (tree_takes x (step_slot step)) eqn:Et; [|done]. cbn.
    assert (Hf : tree_fits x (step_slot step)) by (destruct x, (step_slot step); try done; by apply Nat.leb_le).
    rewrite tree_get_set by done. cbn. by rewrite tree_set_set.
Qed.

Lemma extend_append path u u' copy T0 T1 :
  apply_change (TAppend path u) copy = Some T0 -> apply_change (TAppend path u') (Some T0) = Some T1 ->
  apply_change (TAppend path (u ++ u')) copy = Some T1.
Proof.
  cbn. destruct copy as [t|]; [|done]. cbn. intros H1 H2. pose proof (modify_modify _ _ _ _ _ _ H1 H2) as H.
  eapply modify_weaken; [|exact H]. intros x y. cbn. destruct (append_text u x) eqn:E; [|done]. cbn. intros E'. by eapply append_append.
Qed.

Lemma fits_takes t slot : tree_fits t slot -> tree_takes t slot = true.
Proof. destruct t, slot; cbn; try done. apply Nat.leb_le. Qed.

Lemma step_of_slot slot step : slot_step slot = Some step -> step_slot step = slot.
Proof. destruct slot; cbn; intros; by simplify_eq. Qed.

(** ** Along the open containers *)

Section Frames.
Context (h : heap Num) (open : list nat) (root : option (value Num)) (sroot : option (tree Num)).

Lemma child_slot l slot f st pf ps :
  frames_rel h open root sroot (Some (l, Some slot)) (f :: st) (pf :: ps) ->
  slot <> SRoot /\ tree_fits (sf_tree pf) slot.
Proof.
  intros (((c & Hd & _ & _ & Hf & _) & _) & _). split; [intros ->; by destruct c|]. by apply (denotes_fits _ _ _ _ slot Hd).
Qed.

Lemma inside_reports l slot f st pf ps :
  frames_rel h open root sroot (Some (l, slot)) (f :: st) (pf :: ps) ->
  f_reportsInside f = match f_path f with Some _ => reports ps | None => false end.
Proof.
  intros (_ & (_ & Hr & Hl) & Hst). rewrite Hr. destruct (f_path f) as [path|]; [|done].
  unfold reports. by rewrite (Hl path eq_refl), (frames_length _ _ _ _ _ _ _ Hst).
Qed.

(** At the path of a container, the value that is reported can be modified. *)
Lemma report_plug_modify l slot st ps x x' path g :
  frames_rel h open root sroot (Some (l, slot)) st ps -> path_in st slot = Some path -> g x = Some x' ->
  exists T T', report_plug ps x slot sroot = Some T /\ tree_modify path g T = Some T' /\ report_plug ps x' slot sroot = Some T'.
Proof.
  revert l slot ps x x' path g. induction st as [|f st IH]; intros l slot [|pf ps] x x' path g Hr Hp Hg; try done.
  - destruct Hr as (-> & _ & _). injection Hp as <-. cbn. by exists x, x'.
  - destruct slot as [slot|]; [|done]. destruct (child_slot _ _ _ _ _ _ Hr) as [Hne Hfit].
    pose proof (inside_reports _ _ _ _ _ _ Hr) as Hin. destruct Hr as (((c & _) & Hs & _) & (Hpath & _) & Hr).
    assert (E : path_in (f :: st) (Some slot) = if f_reportsInside f then
      match f_path f, slot_step slot with Some path, Some step => Some (path ++ [step]) | _, _ => None end else None)
      by by destruct slot.
    rewrite E in Hp. rewrite Hin in *. destruct (f_path f) as [path'|] eqn:Ep; [|done].
    destruct (reports ps) eqn:Er; [|done]. destruct (slot_step slot) as [step|] eqn:Es; [|done]. injection Hp as <-.
    pose proof (step_of_slot _ _ Es) as Hss. cbn [report_plug tree_set_opt]. rewrite Er. rewrite Hs in *.
    destruct (IH _ _ _ (tree_set (sf_tree pf) slot x) (tree_set (sf_tree pf) slot x') path' (tree_modify [step] g) Hr) as (T & T' & HT & HT' & HT'').
    + by rewrite <- Hpath.
    + cbn. rewrite Hss, tree_get_set by done. cbn. rewrite Hg. cbn. by rewrite tree_set_set.
    + exists T, T'. split_and!; [done| |done]. by rewrite modify_app.
Qed.

(** Where there is no path, nothing shows. *)
Lemma report_plug_hidden l slot st ps x x' :
  frames_rel h open root sroot (Some (l, slot)) st ps -> path_in st slot = None ->
  report_plug ps x slot sroot = report_plug ps x' slot sroot.
Proof.
  revert l slot ps x x'. induction st as [|f st IH]; intros l slot [|pf ps] x x' Hr Hp; try done.
  - by destruct Hr as (-> & _ & _).
  - destruct slot as [slot|]; [|done]. destruct (child_slot _ _ _ _ _ _ Hr) as [Hne Hfit].
    pose proof (inside_reports _ _ _ _ _ _ Hr) as Hin. destruct Hr as (((c & _) & Hs & _) & (Hpath & _) & Hr).
    cbn [report_plug tree_set_opt]. destruct (reports ps) eqn:Er; [|done]. rewrite <- Hs. apply (IH _ _ _ _ _ Hr).
    rewrite <- Hpath. destruct (f_path f) as [path'|] eqn:Ep; [|done]. exfalso. revert Hp.
    destruct slot as [|k|i]; [done| |]; cbn; by rewrite Hin, Ep.
Qed.
End Frames.
End Replay.

Section Changes.
Context {Num : Type} (Number : text -> Num).
Implicit Types (h : heap Num) (s : Parser Num) (p : Spec Num).

Abbreviation rel := (rel Number).

Definition change_rel h (open : list nat) (c : Change Num) (tc : TChange Num) : Prop :=
  match c, tc with
  | CSet path v, TSet path' t => path = path' /\ denotes h open t v
  | CAppend path u, TAppend path' u' => path = path' /\ u = u'
  | _, _ => False
  end.

(** The change that an open string extends is of its path and its text. *)
Definition newest_ok s : Prop :=
  forall o i, p_string s = Some o -> os_change o = Some i ->
    i < length (p_changes s) /\
    (S i = length (p_changes s) ->
      exists path t0, os_path o = Some path /\
        (p_changes s !! i = Some (CSet path (VStr t0)) \/ p_changes s !! i = Some (CAppend path t0))).

(** From the copy before the piece, the changes make what is reported. *)
Definition changes_rel (start : option (tree Num)) s p : Prop :=
  (exists tcs, Forall2 (change_rel (p_heap s) (locs (p_stack s))) (p_changes s) tcs /\ replay_changes tcs start = Some (reported p)) /\
  newest_ok s.

Definition sim (start : option (tree Num)) s p : Prop := rel s p /\ string_rel s p /\ changes_rel start s p.

Lemma change_evolves h o h' o' c tc : evolves h o h' o' -> change_rel h o c tc -> change_rel h' o' c tc.
Proof. intros He. destruct c, tc; cbn; try done. intros [? ?]. split; [done|]. by eapply denotes_evolves. Qed.

Lemma changes_evolve h o h' o' cs tcs : evolves h o h' o' -> Forall2 (change_rel h o) cs tcs -> Forall2 (change_rel h' o') cs tcs.
Proof. intros He Hf. eapply Forall2_impl; [exact Hf|]. intros c tc. by apply change_evolves. Qed.

(** ** The innermost container *)

Lemma rel_top s p f st :
  rel s p -> p_stack s = f :: st ->
  exists pf ps, sp_stack p = pf :: ps /\ f_slot f = sf_slot pf /\ path_ok f st /\
    f_reportsInside f = match f_path f with Some _ => reports ps | None => false end /\
    frames_rel (p_heap s) (locs (p_stack s)) (p_root s) (sp_root p) (Some (f_container f, f_slot f)) st ps /\
    exists c, p_heap s !! f_container f = Some c /\ container_denotes (p_heap s) (locs (p_stack s)) (sf_tree pf) c.
Proof.
  intros H Hst. pose proof (rel_frames _ _ _ H) as Hf. rewrite Hst in *. destruct (sp_stack p) as [|pf ps]; [done|].
  destruct Hf as (((c & Hd & Hc & _) & Hs & _) & Hp & Hr). exists pf, ps. split_and!; try done; [|by exists c].
  destruct Hp as (_ & Hrep & Hl). rewrite Hrep. destruct (f_path f) as [path|]; [|done].
  unfold reports. by rewrite (Hl path eq_refl), (frames_length _ _ _ _ _ _ _ Hr).
Qed.

Lemma rel_empty s p : rel s p -> p_stack s = [] -> sp_stack p = [].
Proof. intros H Hst. pose proof (rel_frames _ _ _ H) as Hf. rewrite Hst in *. by destruct (sp_stack p). Qed.

Lemma path_in_cons f st slot :
  slot <> SRoot -> path_in (f :: st) (Some slot) =
    if f_reportsInside f then match f_path f, slot_step slot with Some path, Some step => Some (path ++ [step]) | _, _ => None end
    else None.
Proof. by destruct slot. Qed.

Lemma reported_cons p pf ps :
  sp_stack p = pf :: ps ->
  reported p = report_plug ps (if reports ps then sf_tree pf else empty_tree (sf_is_array pf)) (sf_slot pf) (sp_root p).
Proof. unfold reported. by intros ->. Qed.

(** A modification at a slot of the innermost container. *)
Lemma reported_modify s p f st pf ps slot path step g t' :
  rel s p -> p_stack s = f :: st -> sp_stack p = pf :: ps ->
  slot <> SRoot -> slot_step slot = Some step -> path_in (f :: st) (Some slot) = Some (path ++ [step]) ->
  g (sf_tree pf) = Some t' ->
  exists T T', reported p = Some T /\ tree_modify path g T = Some T' /\
    reported (sp_set_top (sf_with_tree t' pf) p) = Some T'.
Proof.
  intros H Hst Hps Hne Hstep Hp Hg. destruct (rel_top _ _ _ _ H Hst) as (pf' & ps' & E & Hs & (Hpath & _) & Hin & Hfr & _).
  rewrite Hps in E. injection E as <- <-. rewrite (path_in_cons _ _ _ Hne), Hin, Hstep in Hp.
  destruct (f_path f) as [path'|] eqn:Ep; [|done]. destruct (reports ps) eqn:Er; [|done].
  injection Hp as Hp. apply app_inj_tail in Hp as [-> _].
  rewrite Hs in *. destruct (report_plug_modify _ _ _ _ _ _ _ _ _ _ _ g Hfr (eq_sym Hpath) Hg) as (T & T' & HT & HT' & HT'').
  exists T, T'. rewrite (reported_cons p pf ps Hps), Er. split_and!; [exact HT|exact HT'|].
  rewrite (reported_cons (sp_set_top (sf_with_tree t' pf) p) (sf_with_tree t' pf) ps) by (cbn; by rewrite Hps). by rewrite Er.
Qed.

(** Setting a slot, as it is reported. *)
Lemma reported_set s p slot path v :
  rel s p -> slot_ok (p_heap s) (p_stack s) slot -> path_in (p_stack s) slot = Some path ->
  exists T, apply_change (TSet path v) (reported p) = Some T /\ reported (sp_place slot v p) = Some T.
Proof.
  intros H Hok Hp. destruct slot as [slot|]; [|done]. destruct (decide (slot = SRoot)) as [->|Hne].
  - cbn in Hok, Hp. injection Hp as <-. exists v. split; [done|]. unfold reported. cbn. by rewrite (rel_empty _ _ H Hok).
  - destruct (p_stack s) as [|f st] eqn:Hst; [by destruct slot|].
    assert (Hok' : exists c, p_heap s !! f_container f = Some c /\ slot_fits c slot) by by destruct slot. clear Hok.
    destruct Hok' as (c & Hc & Hfit). destruct (rel_top _ _ _ _ H Hst) as (pf & ps & Hps & _ & _ & _ & _ & (c' & Hc' & Hd)).
    assert (c' = c) as -> by congruence. pose proof (proj1 (denotes_fits _ _ _ _ slot Hd) Hfit) as Hft.
    destruct (slot_step slot) as [step|] eqn:Es; [|by destruct slot].
    assert (exists path', path = path' ++ [step]) as [path' ->].
    { rewrite (path_in_cons _ _ _ Hne), Es in Hp. destruct (f_reportsInside f), (f_path f); simplify_eq. eauto. }
    pose proof (step_of_slot _ _ Es) as Hss.
    destruct (reported_modify s p f st pf ps slot path' step (tree_put [step] v) (tree_set (sf_tree pf) slot v))
      as (T & T' & HT & HT' & HT''); try done.
    { cbn. by rewrite Hss, (fits_takes _ _ Hft). }
    exists T'. rewrite apply_set_snoc, HT. split; [exact HT'|]. rewrite <- HT''. unfold sp_place. rewrite Hps. by destruct slot.
Qed.

Lemma is_array_set (t : tree Num) slot v : tree_is_array (tree_set t slot v) = tree_is_array t.
Proof. by destruct t, slot. Qed.

(** Where there is no path, setting a slot does not show. *)
Lemma reported_hidden s p slot v :
  rel s p -> slot_ok (p_heap s) (p_stack s) slot -> path_in (p_stack s) slot = None ->
  reported (sp_place slot v p) = reported p.
Proof.
  intros H Hok Hp. destruct slot as [slot|]; [|done]. destruct (decide (slot = SRoot)) as [->|Hne]; [done|].
  destruct (p_stack s) as [|f st] eqn:Hst; [by destruct slot|].
  destruct (rel_top _ _ _ _ H Hst) as (pf & ps & Hps & Hs & (Hpath & _) & Hin & Hfr & _).
  rewrite (path_in_cons _ _ _ Hne) in Hp. unfold sp_place. rewrite Hps.
  assert (E : match slot with SRoot => sp_with_root (Some v) p | _ => sp_set_top (sf_with_tree (tree_set (sf_tree pf) slot v) pf) p end
    = sp_set_top (sf_with_tree (tree_set (sf_tree pf) slot v) pf) p) by by destruct slot.
  rewrite E, (reported_cons p pf ps Hps).
  rewrite (reported_cons _ (sf_with_tree (tree_set (sf_tree pf) slot v) pf) ps) by (cbn; by rewrite Hps).
  unfold sf_is_array. cbn [sf_tree sf_slot sf_with_tree sp_root sp_set_top sp_with_stack]. rewrite is_array_set.
  destruct (reports ps) eqn:Er; [|done]. rewrite <- Hs. eapply report_plug_hidden; [exact Hfr|]. rewrite <- Hpath.
  rewrite Hin in Hp. destruct (f_path f); [|done]. by destruct slot.
Qed.

(** An open string with more text, as it is reported. *)
Lemma reported_text s p slot path t u :
  rel s p -> slot_ok (p_heap s) (p_stack s) slot -> path_in (p_stack s) slot = Some path ->
  match slot with
  | None => True
  | Some SRoot => sp_root p = Some (TStr t)
  | Some slot => match sp_stack p with pf :: _ => tree_get (sf_tree pf) slot = Some (TStr t) | [] => False end
  end ->
  exists T, apply_change (TAppend path u) (reported p) = Some T /\ reported (sp_place slot (TStr (t ++ u)) p) = Some T.
Proof.
  intros H Hok Hp Ht. destruct slot as [slot|]; [|done]. destruct (decide (slot = SRoot)) as [->|Hne].
  - cbn in Hok, Hp. injection Hp as <-. exists (TStr (t ++ u)). unfold reported. cbn.
    rewrite (rel_empty _ _ H Hok). cbn. by rewrite Ht.
  - destruct (p_stack s) as [|f st] eqn:Hst; [by destruct slot|].
    destruct (rel_top _ _ _ _ H Hst) as (pf & ps & Hps & _ & _ & _ & _).
    assert (Ht' : tree_get (sf_tree pf) slot = Some (TStr t)) by (rewrite Hps in Ht; by destruct slot).
    destruct (slot_step slot) as [step|] eqn:Es; [|by destruct slot].
    assert (exists path', path = path' ++ [step]) as [path' ->].
    { rewrite (path_in_cons _ _ _ Hne), Es in Hp. destruct (f_reportsInside f), (f_path f); simplify_eq. eauto. }
    pose proof (step_of_slot _ _ Es) as Hss.
    destruct (reported_modify s p f st pf ps slot path' step (tree_modify [step] (append_text u)) (tree_set (sf_tree pf) slot (TStr (t ++ u))))
      as (T & T' & HT & HT' & HT''); try done.
    { cbn. by rewrite Hss, Ht'. }
    exists T'. cbn [apply_change]. rewrite HT. cbn. rewrite modify_app. split; [exact HT'|].
    rewrite <- HT''. unfold sp_place. rewrite Hps. by destruct slot.
Qed.

(** ** Adding a change *)

Lemma changes_report start s p c tc p' :
  (exists tcs, Forall2 (change_rel (p_heap s) (locs (p_stack s))) (p_changes s) tcs /\ replay_changes tcs start = Some (reported p)) ->
  change_rel (p_heap s) (locs (p_stack s)) c tc ->
  (exists T, apply_change tc (reported p) = Some T /\ reported p' = Some T) ->
  exists tcs, Forall2 (change_rel (p_heap s) (locs (p_stack s))) (p_changes s ++ [c]) tcs /\ replay_changes tcs start = Some (reported p').
Proof.
  intros (tcs & Hf & Hr) Hc (T & HT & HT'). exists (tcs ++ [tc]). split; [apply Forall2_app; [done|by constructor]|].
  rewrite HT'. by eapply replay_snoc.
Qed.
End Changes.
