(* ===== verification/StreamRefine.v ===== *)
(** Every operation of the parser does what the machine does, raises nothing, leaves closed
    containers as they are and reports what changes. *)
From S2P Require Import Prelude EditText StreamValue StreamParser StreamSpec StreamRel StreamChanges.

Section Refine.
Context {Num : Type} (Number : text -> Num).
Implicit Types (h : heap Num) (s : Parser Num) (p : Spec Num) (f : Frame) (st : list Frame).

Abbreviation rel := (rel Number).
Abbreviation sim := (sim Number).

(** ** Placing *)

(** What placing leaves as it is. *)
Record keeps s s' : Prop := {
  keeps_locs : locs (p_stack s') = locs (p_stack s);
  keeps_string : p_string s' = p_string s;
  keeps_changes : p_changes s' = p_changes s;
  keeps_path : forall slot, path_in (p_stack s') slot = path_in (p_stack s) slot;
  keeps_slot : forall slot, slot_ok (p_heap s) (p_stack s) slot -> slot_ok (p_heap s') (p_stack s') slot;
  keeps_later : later s s';
  keeps_credit : p_credit s' = p_credit s;
  keeps_length : length (p_heap s') = length (p_heap s);
}.

Lemma keeps_refl s : keeps s s.
Proof. by split; try apply later_refl. Qed.

Lemma snapshot_dirty s s' p p' :
  snapshot_rel Number s p -> later s s' -> p_snapshot s' = p_snapshot s -> p_dirty s' = true -> sp_drops p <= sp_drops p' ->
  snapshot_rel Number s' p'.
Proof.
  intros (d & snap & Hd & Hs & _) [_ He] E1 E2 Hle. exists d, snap. rewrite E1, E2. split_and!; [lia| |done].
  by eapply opt_denotes_evolves.
Qed.

Lemma sp_place_same slot (t : tree Num) p :
  sp_done (sp_place slot t p) = sp_done p /\ sp_scalar (sp_place slot t p) = sp_scalar p /\
  sp_slot (sp_place slot t p) = sp_slot p /\ sp_drops (sp_place slot t p) = sp_drops p /\
  sp_string (sp_place slot t p) = sp_string p.
Proof. destruct slot as [[| |]|]; cbn; try done; by destruct (sp_stack p). Qed.

Lemma place_rel s p slot (t : tree Num) v :
  rel s p -> slot_ok (p_heap s) (p_stack s) slot -> denotes (p_heap s) (locs (p_stack s)) t v ->
  exists s', place slot v s = Some s' /\ rel s' (sp_place slot t p) /\ keeps s s'.
Proof.
  intros H Hok Hv. destruct slot as [slot|]; [|by exists s; split_and!; [|done|apply keeps_refl]].
  destruct (sp_place_same (Some slot) t p) as (P1 & P2 & P3 & P4 & P5).
  destruct (decide (slot = SRoot)) as [->|Hne].
  - cbn in Hok. pose proof (rel_frames _ _ _ H) as Hf. rewrite Hok in Hf. destruct (sp_stack p) eqn:Eps; [|done].
    eexists. split; [done|]. split; [|by split; try apply later_same].
    destruct H. split; cbn; rewrite ?Hok, ?Eps in *; try done.
    eapply snapshot_dirty; [eassumption|by apply later_same|done..].
  - destruct (p_stack s) as [|f st] eqn:Hst; [by destruct slot|].
    assert (Hok' : exists c, p_heap s !! f_container f = Some c /\ slot_fits c slot) by by destruct slot. clear Hok.
    destruct Hok' as (c & Hc & Hfit). pose proof (rel_frames _ _ _ H) as Hf. rewrite Hst in Hf.
    destruct (sp_stack p) as [|pf ps] eqn:Eps; [done|]. pose proof (rel_nodup _ _ _ H) as Hn. rewrite Hst in Hn.
    rewrite (place_eq _ _ _ _ _ _ Hne Hst Hc). eexists. split; [done|].
    pose proof (top_set _ _ _ _ _ _ _ _ _ _ _ Hf Hn Hc Hfit Hv) as Hset.
    assert (Hloc : locs (grown c slot f :: st) = locs (f :: st)) by by cbn; destruct (grown_same c slot f) as (-> & _).
    assert (Epl : sp_place (Some slot) t p = sp_set_top (sf_with_tree (tree_set (sf_tree pf) slot t) pf) p).
    { unfold sp_place. rewrite Eps. by destruct slot. }
    assert (Hlater : later s (with_heap (<[f_container f := setSlot c slot v]> (p_heap s))
      (with_stack (grown c slot f :: st) (p_pathCost s + (if slot_grows c slot then 1 else 0)) (with_dirty true s)))).
    { split; cbn; [by rewrite length_insert|]. rewrite Hst. cbn in Hloc. rewrite Hloc. apply write_evolves. }
    split.
    + destruct H. rewrite Epl in *. split; cbn [p_heap p_stack p_root p_done p_scalar p_scalarSlot p_pathCost p_credit with_heap with_stack with_dirty]; try congruence.
      * cbn. rewrite Eps. exact Hset.
      * rewrite Hst in rel_slot_ok. by apply slot_ok_set.
      * rewrite cost_grown, rel_cost. by rewrite Hst.
      * eapply snapshot_dirty; [eassumption|exact Hlater|done..].
    + split; cbn; rewrite ?Hst; try done.
      * intros slot'. apply path_in_grown.
      * intros slot'. by apply slot_ok_set.
      * by rewrite length_insert.
Qed.

(** ** What is shown and reported *)

(** The trees and slots of the open containers. *)
Definition skel (ps : list (SpecFrame Num)) : list (tree Num * option Slot) := (fun pf => (sf_tree pf, sf_slot pf)) <$> ps.

Lemma skel_length ps ps' : skel ps = skel ps' -> length ps = length ps'.
Proof. intros H%(f_equal length). unfold skel in H. by rewrite !length_fmap in H. Qed.

Lemma plug_ext ps ps' child slot root : skel ps = skel ps' -> plug ps child slot root = plug ps' child slot root.
Proof.
  revert ps' child slot. induction ps as [|pf ps IH]; intros [|pf' ps'] child slot; try done.
  intros [= E1 E2 E3]. cbn. rewrite E1, E2. by apply IH.
Qed.

Lemma report_plug_ext ps ps' child slot root : skel ps = skel ps' -> report_plug ps child slot root = report_plug ps' child slot root.
Proof.
  revert ps' child slot. induction ps as [|pf ps IH]; intros [|pf' ps'] child slot; try done.
  intros [= E1 E2 E3]. cbn. unfold reports, sf_is_array. rewrite E1, E2, (skel_length _ _ E3). by apply IH.
Qed.

Lemma shown_ext p p' : sp_root p = sp_root p' -> skel (sp_stack p) = skel (sp_stack p') -> shown p = shown p'.
Proof.
  unfold shown. intros -> E. destruct (sp_stack p) as [|f ps], (sp_stack p') as [|f' ps']; try done.
  injection E as E1 E2 E3. cbn. rewrite E1, E2. by apply plug_ext.
Qed.

Lemma reported_ext p p' : sp_root p = sp_root p' -> skel (sp_stack p) = skel (sp_stack p') -> reported p = reported p'.
Proof.
  unfold reported. intros -> E. destruct (sp_stack p) as [|f ps], (sp_stack p') as [|f' ps']; try done.
  injection E as E1 E2 E3. cbn. unfold reports, sf_is_array. rewrite E1, E2, (skel_length _ _ E3). by apply report_plug_ext.
Qed.

Lemma place_ext slot (t : tree Num) p p' :
  sp_root p = sp_root p' -> skel (sp_stack p) = skel (sp_stack p') -> shown (sp_place slot t p) = shown (sp_place slot t p').
Proof.
  intros Er E. destruct slot as [[| |]|]; cbn; try by apply shown_ext.
  all: destruct (sp_stack p) as [|f ps] eqn:E1, (sp_stack p') as [|f' ps'] eqn:E2; try done; apply shown_ext; cbn; rewrite ?E1, ?E2; try done.
  all: injection E as E3 E4 E5; cbn; rewrite E3, E4; f_equal; exact E5.
Qed.

Lemma pending_ext p p' :
  sp_root p = sp_root p' -> skel (sp_stack p) = skel (sp_stack p') -> sp_scalar p = sp_scalar p' -> sp_slot p = sp_slot p' ->
  pending_value Number p = pending_value Number p'.
Proof.
  intros Er E E1 E2. unfold pending_value, sp_pending. rewrite E1, E2. destruct (sp_slot p') as [slot|]; [|by apply shown_ext].
  destruct (_ || _); [by apply shown_ext|]. destruct (pendingScalarValue Number (sp_scalar p')); [|by apply shown_ext].
  by apply place_ext.
Qed.

Lemma snapshot_same s s' p p' :
  snapshot_rel Number s p -> later s s' -> p_snapshot s' = p_snapshot s -> p_dirty s' = p_dirty s -> sp_drops p' = sp_drops p ->
  pending_value Number p' = pending_value Number p -> snapshot_rel Number s' p'.
Proof.
  intros (d & snap & Hd & Hs & Hc) [_ He] E1 E2 E3 E4. exists d, snap. rewrite E1, E2, E3, E4. split_and!; [done| |done].
  by eapply opt_denotes_evolves.
Qed.

(** ** The phase of the innermost container *)

Lemma top_phase s p f st pf ps f' pf' :
  rel s p -> p_stack s = f :: st -> sp_stack p = pf :: ps ->
  f_container f' = f_container f -> f_slot f' = f_slot f -> f_path f' = f_path f -> f_reportsInside f' = f_reportsInside f ->
  f_size f' = f_size f -> sf_tree pf' = sf_tree pf -> sf_slot pf' = sf_slot pf -> f_key f' = sf_key pf' -> f_phase f' = sf_phase pf' ->
  rel (set_top f' s) (sp_set_top pf' p) /\ keeps s (set_top f' s).
Proof.
  intros H Hst Hps E1 E2 E3 E4 E5 E6 E7 E8 E9. pose proof H as [Hf Hn Hd Hsc Hsl Hok Hcost Hcr Hsnap]. rewrite Hst, Hps in Hf.
  assert (Hl : locs (p_stack (set_top f' s)) = locs (p_stack s)) by (cbn; rewrite Hst; cbn; by rewrite E1).
  assert (Hso : forall slot, slot_ok (p_heap s) (p_stack s) slot -> slot_ok (p_heap s) (p_stack (set_top f' s)) slot).
  { intros [[| |]|]; cbn; try done; rewrite Hst; try done; by rewrite E1. }
  split.
  - split; cbn [set_top with_stack p_heap p_root p_done p_scalar p_scalarSlot p_pathCost p_credit sp_set_top sp_with_stack
      sp_root sp_done sp_stack sp_scalar sp_slot]; try done.
    + rewrite Hl. cbn [set_top with_stack p_stack]. rewrite Hst, Hps. cbn [tail frames_rel]. destruct Hf as ((Hc & Hf1 & Hf2 & Hf3) & Hp & Hr).
      split; [|split].
      * unfold frame_rel. rewrite E1, E2, E5, E6, E7. done.
      * unfold path_ok in *. by rewrite E2, E3, E4.
      * by rewrite E1, E2.
    + by rewrite Hl.
    + by apply Hso.
    + rewrite Hcost. cbn [set_top with_stack p_stack]. rewrite Hst. cbn. by rewrite E5.
    + eapply snapshot_same; [eassumption|by apply later_same|done..|]. apply pending_ext; cbn; try done. rewrite Hps. cbn. by rewrite E6, E7.
  - split; try done.
    + intros [[| |]|]; cbn; try done; rewrite Hst; try done; by rewrite E3, E4.
    + by apply later_same.
Qed.

Lemma valueEnded_rel s p : rel s p -> rel (valueEnded s) (sp_valueEnded p) /\ keeps s (valueEnded s).
Proof.
  intros H. unfold valueEnded, sp_valueEnded. destruct (p_stack s) as [|f st] eqn:Hst.
  - rewrite (rel_empty _ _ _ H Hst). pose proof (rel_frames _ _ _ H) as Hf. rewrite Hst, (rel_empty _ _ _ H Hst) in Hf. cbn in Hf.
    destruct (p_root s) eqn:Er, (sp_root p) eqn:Esr; try done; try (split; [done|apply keeps_refl]).
    split; [|by split; try apply later_same]. destruct H. split; cbn; try done.
    eapply snapshot_same; [eassumption|by apply later_same|done..|by apply pending_ext].
  - destruct (rel_top _ _ _ _ _ H Hst) as (pf & ps & Hps & _). rewrite Hps. pose proof (rel_frames _ _ _ H) as Hf.
    rewrite Hst, Hps in Hf. destruct Hf as ((_ & Hf1 & Hf2 & Hf3) & _). by eapply top_phase.
Qed.

Lemma valueEnded_reported p : reported (sp_valueEnded p) = reported p.
Proof.
  apply reported_ext; unfold sp_valueEnded; destruct (sp_stack p) as [|pf ps] eqn:E; cbn; rewrite ?E; try done.
  all: destruct (sp_root p) eqn:Er; cbn; by rewrite ?E, ?Er.
Qed.

(** ** New objects *)

Lemma slot_ok_extend h cs st slot : slot_ok h st slot -> slot_ok (h ++ cs) st slot.
Proof.
  destruct slot as [[| |]|]; cbn; try done; destruct st as [|f st]; try done; intros (c & Hc & Hf); exists c; (split; [by apply lookup_app_l_Some|done]).
Qed.

Lemma extend_evolves h o cs : evolves h o (h ++ cs) o.
Proof. intros l Hl Hlt. split; [by apply lookup_app_l|done]. Qed.

Lemma rel_extend s p cs : rel s p -> rel (with_heap (p_heap s ++ cs) s) p /\ later s (with_heap (p_heap s ++ cs) s).
Proof.
  intros H. assert (Hl : later s (with_heap (p_heap s ++ cs) s)).
  { split; cbn; [rewrite length_app; lia|apply extend_evolves]. }
  split; [|done]. pose proof H as [Hf Hn Hd Hsc Hsl Hok Hcost Hcr Hsnap]. split; try done; cbn.
  - eapply frames_evolves; [apply extend_evolves| |done]. apply frames_alive in Hf. unfold locs in Hf. rewrite Forall_fmap in Hf.
    eapply Forall_impl; [exact Hf|]. intros f Hlt. by apply lookup_app_l.
  - by apply slot_ok_extend.
  - eapply snapshot_same; [eassumption|done..].
Qed.
End Refine.
