(* ===== verification/StreamStrings.v ===== *)
(** The strings of the streaming parser: runs of characters, escapes and the changes they
    extend. *)
From S2P Require Import Prelude EditText StreamValue StreamParser StreamSpec StreamRel StreamChanges StreamRefine.

Section Strings.
Context {Num : Type} (Number : text -> Num).
Implicit Types (h : heap Num) (s : Parser Num) (p : Spec Num) (f : Frame) (st : list Frame).

Abbreviation rel := (rel Number).
Abbreviation sim := (sim Number).

(** ** Steps that report nothing or one change *)

Definition changed start s p : Prop :=
  exists tcs, Forall2 (change_rel (p_heap s) (locs (p_stack s))) (p_changes s) tcs /\ replay_changes tcs start = Some (reported p).

Lemma changed_later start s p s' p' :
  changed start s p -> later s s' -> p_changes s' = p_changes s -> reported p' = reported p -> changed start s' p'.
Proof. intros (tcs & Hf & Hr) [_ He] E1 E2. exists tcs. rewrite E1, E2. split; [by eapply changes_evolve|done]. Qed.

Lemma string_none s p : string_rel s p -> p_string s = None -> sp_string p = None.
Proof. unfold string_rel. intros H E. rewrite E in H. by destruct (sp_string p). Qed.

(** The relation does not depend on the strings. *)
Lemma rel_strings s p o so : rel s p -> rel (with_string o s) (sp_with_string so p).
Proof.
  intros []. split; try done. eapply snapshot_same; [eassumption|by apply later_same|done..|by apply pending_ext].
Qed.

Lemma rel_string s p o : rel s p -> rel (with_string o s) p.
Proof. intros []. by split. Qed.

Lemma rel_changes s p cs : rel s p -> rel (with_changes cs s) p.
Proof. intros []. by split. Qed.

Lemma sim_quiet start s p s' p' :
  sim start s p -> p_string s = None -> rel s' p' -> keeps s s' -> reported p' = reported p -> sp_string p' = sp_string p -> sim start s' p'.
Proof.
  intros (H & Hs & Hc & Hn) Es H' Hk Er Es'. pose proof (string_none _ _ Hs Es) as Eps. split; [done|]. split; [|split].
  - unfold string_rel. by rewrite (keeps_string _ _ Hk), Es, Es', Eps.
  - eapply changed_later; [exact Hc|apply Hk|apply Hk|done].
  - intros o i E. by rewrite (keeps_string _ _ Hk), Es in E.
Qed.

Lemma sim_report start s p s' p' c tc :
  sim start s p -> p_string s = None -> rel s' p' -> keeps s s' -> sp_string p' = sp_string p ->
  change_rel (p_heap s') (locs (p_stack s')) c tc ->
  (exists T, apply_change tc (reported p) = Some T /\ reported p' = Some T) -> sim start (report c s') p'.
Proof.
  intros (H & Hs & Hc & Hn) Es H' Hk Es' Hcr HT. pose proof (string_none _ _ Hs Es) as Eps. split; [|split; [|split]].
  - by apply rel_changes.
  - unfold string_rel. cbn. by rewrite (keeps_string _ _ Hk), Es, Es', Eps.
  - cbn. rewrite (keeps_changes _ _ Hk). destruct (changed_later start s p s' p Hc) as (tcs & Hf & Hr); [apply Hk|apply Hk|done|].
    rewrite (keeps_changes _ _ Hk) in Hf. rewrite <- (keeps_changes _ _ Hk) in Hf |- *.
    eapply changes_report; [|exact Hcr|exact HT]. by exists tcs.
  - intros o i E. cbn in E. by rewrite (keeps_string _ _ Hk), Es in E.
Qed.

(** ** Text *)

Lemma top_fits s p f st slot :
  rel s p -> slot <> SRoot -> p_stack s = f :: st -> slot_ok (p_heap s) (p_stack s) (Some slot) ->
  exists pf ps, sp_stack p = pf :: ps /\ tree_fits (sf_tree pf) slot.
Proof.
  intros H Hne Hst Hok. destruct (rel_top _ _ _ _ _ H Hst) as (pf & ps & Hps & _ & _ & _ & _ & (c & Hc & Hd)).
  exists pf, ps. split; [done|]. rewrite Hst in Hok.
  assert (exists c, p_heap s !! f_container f = Some c /\ slot_fits c slot) as (c' & Hc' & Hf) by by destruct slot.
  apply (denotes_fits _ _ _ _ slot Hd). by replace c with c' by congruence.
Qed.

Lemma placed s p slot target escape u :
  rel s p -> slot_ok (p_heap s) (p_stack s) slot ->
  string_placed (sp_place slot (TStr u) p) {| ss_target := target; ss_slot := slot; ss_text := u; ss_escape := escape |}.
Proof.
  intros H Hok. destruct slot as [slot|]; [|done]. destruct (decide (slot = SRoot)) as [->|Hne]; [done|].
  destruct (p_stack s) as [|f st] eqn:Hst; [by destruct slot|]. rewrite <- Hst in Hok.
  destruct (top_fits _ _ _ _ _ H Hne Hst Hok) as (pf & ps & Hps & Hf).
  unfold string_placed, sp_place. cbn [ss_slot ss_text]. rewrite Hps.
  destruct slot as [|k|i]; [done|cbn; by apply (tree_get_set (sf_tree pf) (SMember k))|cbn; by apply (tree_get_set (sf_tree pf) (SElement i))].
Qed.

(** The newest change extended. *)
Lemma changed_extend start s p s' p' c c' t path t0 i :
  changed start s p -> later s s' -> p_changes s' = p_changes s -> S i = length (p_changes s) ->
  p_changes s !! i = Some c -> c = CSet path (VStr t0) \/ c = CAppend path t0 -> extend_change t c = Some c' ->
  (exists T, apply_change (TAppend path t) (reported p) = Some T /\ reported p' = Some T) ->
  changed start (with_changes (<[i := c']> (p_changes s')) s') p'.
Proof.
  intros (tcs & Hf & Hr) [_ He] E Hi Hc Hcase Hext (T & HT & HT'). pose proof (changes_evolve _ _ _ _ _ _ He Hf) as Hf'.
  destruct (p_changes s) as [|c0 cs _] eqn:Ecs using rev_ind; [done|]. rewrite length_app in Hi. cbn in Hi.
  assert (i = length cs) as -> by lia. rewrite lookup_app_r, Nat.sub_diag in Hc by done. injection Hc as ->.
  apply Forall2_app_inv_l in Hf' as (tcs1 & tcs2 & Hf1 & Hf2 & ->). apply Forall2_cons_inv_l in Hf2 as (tc & tl & Htc & Hnil & ->).
  apply Forall2_nil_inv_l in Hnil as ->. apply replay_snoc_inv in Hr as (copy & T0 & Hr1 & Ha & HT0). rewrite HT0 in HT.
  assert (exists tc', change_rel (p_heap s') (locs (p_stack s')) c' tc' /\ apply_change tc' copy = Some T) as (tc' & Htc' & Ha').
  { destruct Hcase as [-> | ->]; cbn in Hext; injection Hext as <-; destruct tc as [path' v|path' u]; try done; cbn in Htc; destruct Htc as [<- Hv].
    - inversion Hv; subst. exists (TSet path (TStr (t0 ++ t))). split; [split; [done|constructor]|]. by eapply extend_set.
    - subst u. exists (TAppend path (t0 ++ t)). split; [done|]. by eapply extend_append. }
  exists (tcs1 ++ [tc']). cbn. rewrite E, insert_app_r_alt, Nat.sub_diag by done. split; [apply Forall2_app; [done|by repeat constructor]|].
  rewrite HT'. by eapply replay_snoc.
Qed.

Lemma appendString_sim start s p o t :
  sim start s p -> p_string s = Some o ->
  exists s', appendString t s = Some s' /\ sim start s' (sp_append t p) /\ later s s' /\ p_credit s' = p_credit s.
Proof.
  intros (H & Hs & Hc & Hn) Eo. unfold string_rel in Hs. rewrite Eo in Hs. destruct (sp_string p) as [so|] eqn:Eso; [|done].
  destruct Hs as (E1 & E2 & E3 & E4 & Hok & Hpath & Hpl & Hkey). unfold appendString, sp_append. rewrite Eo, Eso.
  rewrite <- E1. set (o1 := with_text (os_text o ++ t) o). set (s1 := with_string (Some o1) s).
  set (p1 := sp_with_string (Some (ss_add t so)) p).
  assert (H1 : rel s1 p1) by by apply rel_strings.
  assert (Hl1 : later s s1) by by apply later_same.
  destruct (os_target o) eqn:Et.
  - exists s1. split; [done|]. split; [|done]. split; [done|]. split; [|split].
    + unfold string_rel. cbn. rewrite <- E1, <- E3, E2 in *. specialize (Hkey eq_refl). split_and!; try done; [congruence..|].
      unfold string_placed. cbn. by rewrite Hkey.
    + by eapply changed_later.
    + intros o' i [= <-] Hi. by apply (Hn o i).
  - destruct (place_rel Number s1 p1 (os_slot o) (TStr (os_text o ++ t)) (VStr (os_text o ++ t)) H1 Hok ltac:(constructor)) as (s2 & Ep & H2 & Hk).
    cbn [os_text o1 with_text]. rewrite Ep. cbn [mbind option_bind].
    rewrite <- E2, <- E3. set (p2 := sp_place (os_slot o) (TStr (os_text o ++ t)) p1) in *.
    pose proof (later_trans _ _ _ Hl1 (keeps_later _ _ Hk)) as Hl2.
    assert (Hcr2 : p_credit s2 = p_credit s) by by rewrite (keeps_credit _ _ Hk).
    assert (Hc2 : p_changes s2 = p_changes s) by by rewrite (keeps_changes _ _ Hk).
    assert (Hstr : forall ch s3, p_heap s3 = p_heap s2 -> p_stack s3 = p_stack s2 -> p_string s3 = Some (with_change ch o1) -> string_rel s3 p2).
    { intros ch s3 A1 A2 A3. unfold string_rel. rewrite A3. unfold p2. destruct (sp_place_same (os_slot o) (TStr (os_text o ++ t)) p1) as (_ & _ & _ & _ & ->).
      cbn [p1 sp_with_string sp_string]. cbn. rewrite A1, A2. split_and!; try congruence.
      - by apply Hk.
      - by rewrite (keeps_path _ _ Hk).
      - pose proof (placed s1 p1 (os_slot o) (ss_target so) (ss_escape so) (os_text o ++ t) H1 Hok) as Hp.
        unfold string_placed in *. cbn [ss_slot ss_text ss_add] in *. by rewrite <- E2, <- E3. }
    assert (Hpath1 : path_in (p_stack s1) (os_slot o) = os_path o) by done.
    destruct (os_path o) as [path|] eqn:Epath.
    + destruct (reported_text Number s1 p1 (os_slot o) path (os_text o) t H1 Hok Hpath1) as (T & HT & HT').
      { unfold string_placed in Hpl. by rewrite <- E2, <- E3 in Hpl. }
      assert (Hnew : changed start (report (CAppend path t) s2) p2).
      { apply (changes_report start s2 p (CAppend path t) (TAppend path t) p2); [by eapply (changed_later start s p s2 p)|done|by exists T]. }
      assert (Hrep : exists s', Some (with_string (Some (with_change (Some (length (p_changes s2))) o1)) (report (CAppend path t) s2)) = Some s' /\
        sim start s' p2 /\ later s s' /\ p_credit s' = p_credit s).
      { eexists. split; [done|]. split; [|split; [eapply later_trans; [exact Hl2|by apply later_same]|done]].
        split; [by apply rel_string, rel_changes|]. split; [by eapply Hstr|]. split; [exact Hnew|].
        intros o' i [= <-] [= <-]. cbn. rewrite length_app. cbn. split; [lia|]. intros _. exists path, t. split; [done|]. right.
        by rewrite lookup_app_r, Nat.sub_diag. }
      destruct (os_change o) as [ch|] eqn:Ech; [|exact Hrep]. destruct (p_changes s2 !! _) as [c|] eqn:Ec; [|exact Hrep].
      destruct (Nat.eqb_spec ch (length (p_changes s2) - 1)) as [->|_]; [|exact Hrep]. rewrite Hc2 in *.
      destruct (Hn o _ Eo Ech) as [Hlt Hlast]. destruct Hlast as (path' & t0 & Hp' & Hcase); [lia|].
      rewrite Epath in Hp'. injection Hp' as <-.
      assert (Hcase' : c = CSet path (VStr t0) \/ c = CAppend path t0) by (destruct Hcase; [left|right]; congruence).
      assert (exists c', extend_change t c = Some c' /\ (c' = CSet path (VStr (t0 ++ t)) \/ c' = CAppend path (t0 ++ t))) as (c' & Hext & Hc'shape).
      { destruct Hcase' as [-> | ->]; cbn; eauto. }
      rewrite Hext. cbn [mbind option_bind]. eexists. split; [done|].
      split; [|split; [eapply later_trans; [exact Hl2|by apply later_same]|done]].
      split; [by apply rel_changes|]. split.
      { eapply (Hstr (os_change o)); try done. cbn. rewrite (keeps_string _ _ Hk). done. }
      split.
      * assert (Hx : changed start (with_changes (<[length (p_changes s) - 1 := c']> (p_changes s2)) s2) p2);
          [|by rewrite Hc2 in Hx].
        apply (changed_extend start s p s2 p2 c c' t path t0); try done; [lia|by exists T].
      * intros o' i. cbn. rewrite (keeps_string _ _ Hk). cbn. intros [= <-] Hi. cbn in Hi. rewrite Ech in Hi. injection Hi as <-.
        rewrite length_insert. split; [lia|]. intros _. exists path, (t0 ++ t). split; [done|].
        rewrite list_lookup_insert_eq by lia. destruct Hc'shape as [-> | ->]; auto.
    + exists s2. split; [done|]. split; [|done]. split; [done|]. split; [|split].
      * eapply (Hstr (os_change o)); try done. rewrite (keeps_string _ _ Hk). done.
      * eapply changed_later; [exact Hc|done|done|]. change (reported p) with (reported p1). unfold p2.
        by eapply (reported_hidden Number s1).
      * intros o' i. rewrite (keeps_string _ _ Hk), Hc2. cbn. intros [= <-] Hi. by apply (Hn o i).
Qed.

(** ** Escapes and the end *)

(** What every step keeps: closed containers and the credit. *)
Definition onward s s' : Prop := later s s' /\ p_credit s' = p_credit s.

Lemma onward_trans s1 s2 s3 : onward s1 s2 -> onward s2 s3 -> onward s1 s3.
Proof. intros [L1 C1] [L2 C2]. split; [by eapply later_trans|congruence]. Qed.

Lemma onward_same s s' : p_heap s' = p_heap s -> locs (p_stack s') = locs (p_stack s) -> p_credit s' = p_credit s -> onward s s'.
Proof. intros. split; [by apply later_same|done]. Qed.

Lemma sim_escape start s p : sim start s p -> open_escape s = sp_escape p.
Proof. intros (_ & Hs & _). unfold string_rel, open_escape, sp_escape in *. destruct (p_string s), (sp_string p); try done. apply Hs. Qed.

Lemma sim_string start s p : sim start s p -> is_Some (sp_string p) -> exists o, p_string s = Some o.
Proof. intros (_ & Hs & _) [so E]. unfold string_rel in Hs. rewrite E in Hs. destruct (p_string s); [by eexists|done]. Qed.

Lemma sp_append_keeps t p :
  sp_done (sp_append t p) = sp_done p /\ sp_escape (sp_append t p) = sp_escape p /\
  (is_Some (sp_string p) -> is_Some (sp_string (sp_append t p))).
Proof.
  unfold sp_append, sp_escape. destruct (sp_string p) as [so|] eqn:E; [|by rewrite E].
  destruct (ss_target so); cbn; [done|].
  destruct (sp_place_same (ss_slot so) (TStr (ss_text so ++ t)) (sp_with_string (Some (ss_add t so)) p)) as (-> & _ & _ & _ & ->). done.
Qed.

Lemma append_sim start s p t :
  sim start s p -> is_Some (sp_string p) ->
  exists s', appendString t s = Some s' /\ sim start s' (sp_append t p) /\ onward s s'.
Proof.
  intros H Hp. destruct (sim_string _ _ _ H Hp) as [o Ho]. destruct (appendString_sim start s p o t H Ho) as (s' & E & H' & Hl & Hc).
  by exists s'.
Qed.

Lemma escape_sim start s p e : sim start s p -> sim start (set_escape e s) (sp_set_escape e p) /\ onward s (set_escape e s).
Proof.
  intros (H & Hs & Hc & Hn). split; [|by apply onward_same]. split; [by apply rel_strings|]. split; [|split; [exact Hc|]].
  - unfold string_rel in *. cbn. destruct (p_string s) as [o|], (sp_string p) as [so|]; try done. cbn. tauto.
  - intros o' i E. cbn in E. destruct (p_string s) as [o|] eqn:Eo; [|done]. injection E as <-. cbn. by apply Hn.
Qed.

Lemma end_sim start s p :
  sim start s p -> is_Some (sp_string p) ->
  sim start (endString s) (sp_endString p) /\ onward s (endString s) /\ p_string (endString s) = None.
Proof.
  intros Hsim Hp. destruct (sim_string _ _ _ Hsim Hp) as [o Eo]. destruct Hsim as (H & Hs & Hc & Hn).
  unfold string_rel in Hs. rewrite Eo in Hs. destruct (sp_string p) as [so|] eqn:Eso; [|done].
  destruct Hs as (E1 & _ & E3 & _). unfold endString, sp_endString. rewrite Eo, Eso, <- E1, <- E3.
  set (s1 := with_string None s). set (p1 := sp_with_string None p).
  assert (H1 : sim start s1 p1).
  { split; [by apply rel_strings|]. split; [done|]. split; [exact Hc|]. by intros o' i. }
  assert (Hl1 : onward s s1) by by apply onward_same.
  destruct (os_target o).
  - destruct (p_stack s) as [|f st] eqn:Hst; [by rewrite (rel_empty _ _ _ H Hst)|].
    destruct (rel_top _ _ _ _ _ H Hst) as (pf & ps & Hps & Hslot & _). rewrite Hps.
    destruct (top_phase Number s1 p1 f st pf ps (with_key (os_text o) PhaseColon f) (sf_with_key (os_text o) PhaseColon pf)) as [H2 Hk];
      try done; [apply H1|].
    split; [|split; [|done]].
    + eapply sim_quiet; [exact H1|done|exact H2|exact Hk| |done]. apply reported_ext; cbn; [done|]. by rewrite Hps.
    + eapply onward_trans; [exact Hl1|]. split; apply Hk.
  - destruct (valueEnded_rel Number s1 p1) as [H2 Hk]; [apply H1|]. split; [|split].
    + eapply sim_quiet; [exact H1|done|exact H2|exact Hk|apply valueEnded_reported|].
      unfold sp_valueEnded. destruct (sp_stack p1); [|done]. by destruct (sp_root p1).
    + eapply onward_trans; [exact Hl1|]. split; apply Hk.
    + by rewrite (keeps_string _ _ Hk).
Qed.

(** ** Escape characters *)

Lemma sp_set_escape_facts e p :
  sp_done (sp_set_escape e p) = sp_done p /\ (is_Some (sp_string p) -> is_Some (sp_string (sp_set_escape e p)) /\ sp_escape (sp_set_escape e p) = e).
Proof. unfold sp_set_escape, sp_escape. split; [done|]. intros [so E]. cbn. by rewrite E. Qed.

(** A string is being read, with an escape so far. *)
Record reading start s p (escape : text) : Prop := {
  reading_sim : sim start s p;
  reading_string : is_Some (sp_string p);
  reading_done : sp_done p = false;
  reading_escape : sp_escape p = escape;
}.

Lemma reading_append start s p escape t :
  reading start s p escape -> exists s', appendString t s = Some s' /\ reading start s' (sp_append t p) escape /\ onward s s'.
Proof.
  intros [H1 H2 H3 H4]. destruct (append_sim start s p t H1 H2) as (s' & E & H' & Ho). exists s'. split; [done|]. split; [|done].
  destruct (sp_append_keeps t p) as (K1 & K2 & K3). split; [done|by apply K3|by rewrite K1|by rewrite K2].
Qed.

Lemma reading_set start s p escape e :
  reading start s p escape -> reading start (set_escape e s) (sp_set_escape e p) e /\ onward s (set_escape e s).
Proof.
  intros [H1 H2 H3 H4]. destruct (escape_sim start s p e H1) as [H' Ho]. destruct (sp_set_escape_facts e p) as [K1 K2].
  split; [|done]. split; [done|by apply K2|by rewrite K1|by apply K2].
Qed.

Lemma reading_literal start s p escape t :
  reading start s p escape ->
  exists s', appendString t (set_escape [] s) = Some s' /\ reading start s' (sp_append t (sp_set_escape [] p)) [] /\ onward s s'.
Proof.
  intros H. destruct (reading_set start s p escape [] H) as [H1 O1]. destruct (reading_append _ _ _ _ t H1) as (s' & E & H2 & O2).
  exists s'. split; [done|]. split; [done|]. by eapply onward_trans.
Qed.

Lemma continue_sim start s p char escape :
  reading start s p escape ->
  exists s' p' used escape', continueEscape escape char s = Some (s', used) /\ sp_escape_step escape char p = (p', used) /\
    reading start s' p' escape' /\ onward s s' /\ (used = false -> escape' = []).
Proof.
  intros H. unfold continueEscape, sp_escape_step.
  assert (Hlit : forall t used, exists s' p' used' escape',
    (s' ← appendString t (set_escape [] s); Some (s', used)) = Some (s', used') /\
    (sp_append t (sp_set_escape [] p), used) = (p', used') /\ reading start s' p' escape' /\ onward s s' /\ (used' = false -> escape' = [])).
  { intros t used. destruct (reading_literal start s p escape t H) as (s' & E & H' & O). rewrite E. by exists s', (sp_append t (sp_set_escape [] p)), used, []. }
  assert (Hset : forall e, exists s' p' used' escape',
    Some (set_escape e s, true) = Some (s', used') /\ (sp_set_escape e p, true) = (p', used') /\ reading start s' p' escape' /\ onward s s' /\
    (used' = false -> escape' = [])).
  { intros e. destruct (reading_set start s p escape e H) as [H' O]. by exists (set_escape e s), (sp_set_escape e p), true, e. }
  destruct (bool_decide (escape = [BACKSLASH])).
  - destruct (simple_escape char) as [d|]; [apply Hlit|]. destruct (char =? 117)%N; [apply Hset|apply Hlit].
  - destruct (isHexDigit char); [|apply Hlit]. destruct (length (escape ++ [char]) <? 6); [apply Hset|apply Hlit].
Qed.

(** ** Runs *)

Definition sp_flush (run : text) p : Spec Num := match run with [] => p | _ => sp_append run p end.

Lemma reading_flush start s p escape run :
  reading start s p escape -> exists s', flush run s = Some s' /\ reading start s' (sp_flush run p) escape /\ onward s s'.
Proof.
  intros H. destruct run as [|u run]; [exists s; split; [done|split; [done|by apply onward_same]]|]. by apply reading_append.
Qed.

Lemma set_top_twice pf pf' p ps : sp_stack p = pf :: ps -> sp_set_top pf' (sp_set_top pf p) = sp_set_top pf' p.
Proof. intros E. unfold sp_set_top, sp_with_stack. cbn. by rewrite E. Qed.

(** Text in two pieces. *)
Lemma sp_append_app start s p escape a b :
  reading start s p escape -> sp_append (a ++ b) p = sp_append b (sp_append a p).
Proof.
  intros [Hsim [so Eso] _ _]. destruct (sim_string _ _ _ Hsim) as [o Eo]; [by exists so|]. destruct Hsim as (H & Hs & _).
  unfold string_rel in Hs. rewrite Eo, Eso in Hs. destruct Hs as (_ & E2 & _ & _ & Hok & _).
  unfold sp_append at 1 3. rewrite Eso. destruct (ss_target so) eqn:Et.
  - cbn. rewrite Et. unfold ss_add. cbn. by rewrite app_assoc.
  - destruct (sp_place_same (ss_slot so) (TStr (ss_text so ++ a)) (sp_with_string (Some (ss_add a so)) p)) as (_ & _ & _ & _ & Hst).
    unfold sp_append. rewrite Hst. cbn [sp_with_string sp_string]. cbn [ss_add ss_target ss_slot ss_text]. rewrite Et.
    rewrite E2 in Hok. rewrite app_assoc.
    destruct (ss_slot so) as [slot|]; [|unfold ss_add; cbn; by rewrite app_assoc].
    destruct (decide (slot = SRoot)) as [->|Hne]; [unfold ss_add; cbn; by rewrite app_assoc|].
    destruct (p_stack s) as [|f st] eqn:Hstk; [by destruct slot|]. rewrite <- Hstk in Hok.
    destruct (top_fits _ _ _ _ _ H Hne Hstk Hok) as (pf & ps & Hps & Hf). unfold ss_add. cbn [ss_target ss_slot ss_text ss_escape].
    rewrite app_assoc. destruct slot; [done| |]; cbn; rewrite Hps; cbn; unfold sp_set_top, sp_with_stack, sf_with_tree; cbn; by rewrite tree_set_set.
Qed.

Lemma sp_flush_snoc start s p escape run u :
  reading start s p escape -> sp_flush (run ++ [u]) p = sp_append [u] (sp_flush run p).
Proof.
  intros H. destruct run as [|v run]; [done|]. change (sp_append ((v :: run) ++ [u]) p = sp_append [u] (sp_append (v :: run) p)).
  by eapply sp_append_app.
Qed.

(** ** Reading a string *)

(** The text was read up to what is left, and nothing is left where the string goes on. *)
Definition read_to start s p (t : text) (r : option (Parser Num * text)) : Prop :=
  exists s' rest consumed, r = Some (s', rest) /\ t = consumed ++ rest /\ sim start s' (sp_read Number consumed p) /\ onward s s' /\
    (p_string s' = None \/ rest = []) /\ (t <> [] -> consumed <> []).

Lemma read_to_more start s p s' p' u t r :
  onward s s' -> sp_step Number u p = p' -> read_to start s' p' t r -> read_to start s p (u :: t) r.
Proof.
  intros Ho <- (s2 & rest & consumed & -> & -> & Hs & Ho2 & Hr & _). exists s2, rest, (u :: consumed). split_and!; try done.
  by eapply onward_trans.
Qed.

Lemma step_reading start s p u : reading start s p [] -> sp_step Number u p = sp_char u p.
Proof.
  intros [_ [so E] H3 H4]. unfold sp_step, sp_string_step. by rewrite H3, E, H4.
Qed.

Lemma readString_sim start run t s p escape :
  reading start s p escape -> (escape <> [] -> run = []) -> read_to start s (sp_flush run p) t (readString run t s).
Proof.
  revert run s p escape. induction t as [|char t IH]; intros run s p escape H Hrun.
  { destruct (reading_flush _ _ _ _ run H) as (s' & E & H' & O). exists s', [], []. cbn. rewrite E. split_and!; try done; [apply H'|by right]. }
  (* the character read as one of the text *)
  assert (Hplain : forall run s p, reading start s p [] ->
    read_to start s (sp_flush run p) (char :: t)
      (if (char =? QUOTE)%N then s2 ← flush run s; Some (endString s2, t)
       else if (char =? BACKSLASH)%N then s2 ← flush run s; readString [] t (set_escape [BACKSLASH] s2)
       else readString (run ++ [char]) t s)).
  { clear run s p escape H Hrun. intros run s p H. destruct (reading_flush _ _ _ _ run H) as (s2 & E & H2 & O2).
    pose proof (step_reading _ _ _ char H2) as Hstep. unfold sp_char in Hstep.
    destruct (char =? QUOTE)%N.
    - rewrite E. cbn [mbind option_bind]. destruct (end_sim start s2 (sp_flush run p)) as (H3 & O3 & Hn); [apply H2|apply H2|].
      exists (endString s2), t, [char]. cbn [sp_read fold_left]. unfold sp_read. cbn [fold_left]. rewrite Hstep.
      split_and!; try done; [by eapply onward_trans|by left].
    - destruct (char =? BACKSLASH)%N.
      + rewrite E. cbn [mbind option_bind]. destruct (reading_set _ _ _ _ [BACKSLASH] H2) as [H3 O3].
        eapply read_to_more; [by eapply onward_trans|exact Hstep|]. by apply (IH [] _ _ _ H3).
      + eapply read_to_more; [by apply onward_same|exact Hstep|]. rewrite <- (sp_flush_snoc _ _ _ _ _ _ H). by eapply IH. }
  cbn [readString]. rewrite (sim_escape _ _ _ (reading_sim _ _ _ _ H)), (reading_escape _ _ _ _ H). destruct escape as [|e escape].
  { cbn [mbind option_bind]. by apply Hplain. }
  rewrite (Hrun ltac:(done)) in *. destruct (continue_sim _ _ _ char _ H) as (s1 & p1 & used & escape' & E1 & E2 & H1 & O1 & Hu).
  rewrite E1. cbn [mbind option_bind sp_flush].
  assert (Hstep : sp_step Number char p = if used then p1 else sp_char char p1).
  { destruct H as [_ [so Eso] Hd He]. unfold sp_step, sp_string_step. rewrite Hd, Eso, He, E2. done. }
  destruct used.
  - eapply read_to_more; [exact O1|exact Hstep|]. by apply (IH [] _ _ _ H1).
  - rewrite (Hu eq_refl) in H1. destruct (Hplain [] s1 p1 H1) as (s' & rest & consumed & Er & Ec & Hs & O & Hr & Hne).
    exists s', rest, consumed. split; [exact Er|]. split; [done|]. split; [|split; [by eapply onward_trans|done]].
    destruct consumed as [|c consumed]; [exfalso; by apply Hne|].
    injection Ec as <- Ec. unfold sp_read in *. cbn [fold_left sp_flush] in *. by rewrite Hstep, <- (step_reading _ _ _ char H1).
Qed.
End Strings.
