(* ===== verification/StreamInvariant.v ===== *)
(** What holds of every state of the machine: a value at the root that is not being read
    ends the text, and a string and a scalar are not read at once. *)
From S2P Require Import Prelude EditText StreamValue StreamParser StreamSpec StreamRefine.

Section Invariant.
Context {Num : Type} (Number : text -> Num).
Implicit Types (p : Spec Num) (t : tree Num).

Record sp_ok p : Prop := {
  ok_root : sp_stack p = [] -> is_Some (sp_root p) -> sp_done p = true \/ is_Some (sp_string p);
  ok_scalar : sp_scalar p = [] -> sp_slot p = None;
  ok_string : is_Some (sp_string p) -> sp_scalar p = [];
  ok_key : forall so, sp_string p = Some so -> ss_target so = ForKey -> sp_stack p <> [];
}.

Lemma ok_new : sp_ok spec_new.
Proof. split; cbn; try done; by intros [? ?]. Qed.

Lemma place_string slot t p : sp_string (sp_place slot t p) = sp_string p.
Proof. apply sp_place_same. Qed.
Lemma place_scalar slot t p : sp_scalar (sp_place slot t p) = sp_scalar p.
Proof. apply sp_place_same. Qed.
Lemma place_slot slot t p : sp_slot (sp_place slot t p) = sp_slot p.
Proof. apply sp_place_same. Qed.
Lemma place_done slot t p : sp_done (sp_place slot t p) = sp_done p.
Proof. apply sp_place_same. Qed.
Lemma place_stack slot t p : sp_stack (sp_place slot t p) = [] <-> sp_stack p = [].
Proof. destruct slot as [[| |]|]; cbn; try done; destruct (sp_stack p) eqn:E; cbn; by rewrite ?E. Qed.

Lemma ended_string p : sp_string (sp_valueEnded p) = sp_string p.
Proof. unfold sp_valueEnded. destruct (sp_stack p); [by destruct (sp_root p)|done]. Qed.
Lemma ended_scalar p : sp_scalar (sp_valueEnded p) = sp_scalar p.
Proof. unfold sp_valueEnded. destruct (sp_stack p); [by destruct (sp_root p)|done]. Qed.
Lemma ended_slot p : sp_slot (sp_valueEnded p) = sp_slot p.
Proof. unfold sp_valueEnded. destruct (sp_stack p); [by destruct (sp_root p)|done]. Qed.

(** At the end of a value. *)
Lemma ok_ended p : sp_string p = None -> sp_scalar p = [] -> sp_slot p = None -> sp_ok (sp_valueEnded p).
Proof.
  intros Hs Hsc Hsl. split; rewrite ?ended_string, ?ended_scalar, ?ended_slot, ?Hs; try done.
  unfold sp_valueEnded. destruct (sp_stack p) as [|pf ps] eqn:E; [|done]. destruct (sp_root p) eqn:Er; [by left|].
  intros _ [? ?]. congruence.
Qed.

Lemma ok_endScalar p : sp_string p = None -> sp_ok (sp_endScalar Number p).
Proof. intros Hs. apply ok_ended; destruct (scalarValue Number (sp_scalar p)); by rewrite ?place_string, ?place_scalar, ?place_slot. Qed.

Lemma endScalar_string p : sp_string p = None -> sp_string (sp_endScalar Number p) = None /\ sp_scalar (sp_endScalar Number p) = [].
Proof.
  intros Hs. unfold sp_endScalar. rewrite ended_string, ended_scalar.
  destruct (scalarValue Number (sp_scalar p)); by rewrite ?place_string, ?place_scalar.
Qed.

(** With something open, or nothing at the root. *)
Lemma ok_open p :
  (sp_stack p = [] -> sp_root p = None) -> (sp_scalar p = [] -> sp_slot p = None) -> sp_string p = None -> sp_ok p.
Proof. intros H1 H2 H3. split; rewrite ?H3; try done. intros E. rewrite (H1 E). by intros [? ?]. Qed.

Lemma ok_startString p :
  sp_scalar p = [] -> sp_slot p = None -> sp_ok (sp_startString p).
Proof.
  intros Hsc Hsl. unfold sp_startString. destruct (sp_stack p) as [|pf ps] eqn:E; [|destruct (negb _ && _)].
  - split; rewrite ?place_string, ?place_scalar, ?place_slot; cbn; try done; [by right|]. by intros so [= <-].
  - split; cbn; rewrite ?E; try done.
  - split; rewrite ?place_string, ?place_scalar, ?place_slot; cbn; try done; [by right|]. by intros so [= <-].
Qed.

Lemma ok_structural char p : sp_ok p -> sp_done p = false -> sp_string p = None -> sp_scalar p = [] -> sp_ok (sp_structural char p).
Proof.
  intros Hok Hd Hs Hsc. pose proof (ok_scalar _ Hok Hsc) as Hsl. unfold sp_structural.
  assert (Hroot : sp_stack p = [] -> sp_root p = None).
  { intros E. destruct (sp_root p) eqn:Er; [|done]. destruct (ok_root _ Hok E) as [?|[? ?]]; [by rewrite Er|congruence|congruence]. }
  assert (Htop : forall pf ps, sp_stack p = pf :: ps -> forall pf', sp_ok (sp_set_top pf' p)) by (intros; apply ok_open; done).
  destruct (bool_decide _); [done|]. destruct (char =? QUOTE)%N; [by apply ok_startString|].
  assert (Hopen : forall array, sp_ok (sp_openContainer array p)).
  { intros array. apply ok_open; cbn; [done|by rewrite place_slot|by rewrite place_string]. }
  destruct (char =? 123)%N; [done|]. destruct (char =? 91)%N; [done|]. destruct (_ || _)%N.
  { unfold sp_closeContainer. destruct (sp_stack p); [done|]. apply ok_ended; by rewrite ?place_string, ?place_scalar, ?place_slot. }
  destruct (char =? 58)%N; [|destruct (char =? 44)%N].
  - destruct (sp_stack p) eqn:E; [done|]. destruct (negb _ && _); [by eapply Htop|done].
  - destruct (sp_stack p) eqn:E; [done|]. by eapply Htop.
  - by apply ok_open.
Qed.

Lemma append_facts u p :
  sp_scalar (sp_append u p) = sp_scalar p /\ sp_slot (sp_append u p) = sp_slot p /\ (sp_stack (sp_append u p) = [] <-> sp_stack p = []) /\
  match sp_string (sp_append u p), sp_string p with
  | Some so', Some so => ss_target so' = ss_target so
  | None, None => True
  | _, _ => False
  end.
Proof.
  unfold sp_append. destruct (sp_string p) as [so|] eqn:E; [|by rewrite E].
  destruct (ss_target so) eqn:Et; [by cbn|]. rewrite place_scalar, place_slot, place_string, place_stack. by cbn.
Qed.

Lemma ok_reading p so p' so' :
  sp_ok p -> sp_string p = Some so -> sp_string p' = Some so' -> ss_target so' = ss_target so ->
  sp_scalar p' = sp_scalar p -> sp_slot p' = sp_slot p -> (sp_stack p' = [] <-> sp_stack p = []) -> sp_ok p'.
Proof.
  intros [H1 H2 H3 H4] E E' Et Esc Esl Est. split.
  - intros _ _. right. by eexists.
  - by rewrite Esc, Esl.
  - intros _. rewrite Esc. apply H3. by eexists.
  - rewrite E'. intros so2 [= <-] Ht. rewrite Est. apply (H4 so E). congruence.
Qed.

Lemma ok_append u p : sp_ok p -> sp_ok (sp_append u p).
Proof.
  intros Hok. destruct (append_facts u p) as (F1 & F2 & F3 & F4). destruct (sp_string p) as [so|] eqn:E.
  - destruct (sp_string (sp_append u p)) as [so'|] eqn:E'; [|done]. by eapply ok_reading.
  - unfold sp_append in *. by rewrite E in *.
Qed.

Lemma ok_escape e p : sp_ok p -> sp_ok (sp_set_escape e p).
Proof.
  intros Hok. unfold sp_set_escape. destruct (sp_string p) as [so|] eqn:E; [|].
  - eapply (ok_reading p so _ (ss_with_escape e so)); done.
  - destruct Hok as [H1 H2 H3 H4]. rewrite E in *. by split.
Qed.

Lemma ok_endString p : sp_ok p -> sp_ok (sp_endString p).
Proof.
  intros Hok. unfold sp_endString. destruct (sp_string p) as [so|] eqn:E; [|done].
  pose proof (ok_string _ Hok ltac:(by rewrite E)) as Hsc. pose proof (ok_scalar _ Hok Hsc) as Hsl.
  destruct (ss_target so) eqn:Et; [|by apply ok_ended]. pose proof (ok_key _ Hok so E Et) as Hst.
  destruct (sp_stack p) as [|pf ps] eqn:Eps; [done|]. by apply ok_open.
Qed.

Lemma ok_char char p : sp_ok p -> sp_ok (sp_char char p).
Proof.
  intros Hok. unfold sp_char. destruct (char =? QUOTE)%N; [by apply ok_endString|].
  destruct (char =? BACKSLASH)%N; [by apply ok_escape|by apply ok_append].
Qed.

Lemma ok_string_step char p : sp_ok p -> sp_ok (sp_string_step char p).
Proof.
  intros Hok. unfold sp_string_step. destruct (sp_escape p) as [|e escape]; [by apply ok_char|].
  assert (H : sp_ok (sp_escape_step (e :: escape) char p).1).
  { unfold sp_escape_step. repeat case_match; cbn; auto using ok_append, ok_escape. }
  destruct (sp_escape_step (e :: escape) char p) as [p' used]. destruct used; [done|by apply ok_char].
Qed.

Lemma ok_step char p : sp_ok p -> sp_ok (sp_step Number char p).
Proof.
  intros Hok. unfold sp_step. destruct (sp_done p) eqn:Hd; [done|]. destruct (sp_string p) eqn:Hs; [by apply ok_string_step|].
  destruct (sp_scalar p) as [|u token] eqn:Hsc; [by apply ok_structural|]. destruct (isDelimiter char).
  - pose proof (ok_endScalar p Hs) as Hok'. destruct (endScalar_string p Hs) as [Es Esc].
    destruct (sp_done (sp_endScalar Number p)) eqn:Hd'; [done|]. by apply ok_structural.
  - destruct Hok as [H1 H2 H3 H4]. rewrite Hs in *. split; cbn; rewrite ?Hs; try done.
Qed.

Lemma ok_read (t : text) p : sp_ok p -> sp_ok (sp_read Number t p).
Proof. unfold sp_read. revert p. induction t as [|char t IH]; intros p Hok; [done|]. cbn. by apply IH, ok_step. Qed.

(** Nothing more is read after the root value. *)
Lemma read_done (t : text) p : sp_done p = true -> sp_read Number t p = p.
Proof. intros Hd. unfold sp_read. induction t as [|char t IH]; [done|]. cbn. unfold sp_step at 2. by rewrite Hd. Qed.

Lemma read_app (t t' : text) p : sp_read Number (t ++ t') p = sp_read Number t' (sp_read Number t p).
Proof. apply fold_left_app. Qed.
End Invariant.
