(* ===== verification/StreamContainers.v ===== *)
(** The rest of the streaming parser does what the machine does: strings that start,
    scalars, containers, which are frozen when they close, and whole pieces of text. *)
From S2P Require Import Prelude EditText StreamValue StreamParser StreamSpec StreamRel StreamChanges StreamRefine StreamStrings StreamInvariant.

Section Pieces.
Context {Num : Type} (Number : text -> Num).
Implicit Types (h : heap Num) (s : Parser Num) (p : Spec Num) (f : Frame) (st : list Frame).

Abbreviation rel := (rel Number).
Abbreviation sim := (sim Number).

(** ** Small facts *)

Lemma rel_path s p slot : rel s p -> slot_ok (p_heap s) (p_stack s) slot -> reportedPath slot s = Some (path_in (p_stack s) slot).
Proof.
  intros H Hok. apply reportedPath_eq; [done|]. intros f st Hst.
  by destruct (rel_top _ _ _ _ _ H Hst) as (pf & ps & _ & _ & Hp & _).
Qed.

Lemma keeps_onward s s' : keeps s s' -> onward s s'.
Proof. intros Hk. split; apply Hk. Qed.

Lemma set_top_same pf pf' p ps :
  sp_stack p = pf :: ps -> sf_tree pf' = sf_tree pf -> sf_slot pf' = sf_slot pf -> reported (sp_set_top pf' p) = reported p.
Proof. intros E E1 E2. apply reported_ext; cbn; [done|]. rewrite E. cbn. by rewrite E1, E2. Qed.

(** ** Strings that start *)

Lemma start_sim start s p :
  sim start s p -> p_string s = None -> exists s', startString s = Some s' /\ sim start s' (sp_startString p) /\ onward s s'.
Proof.
  intros Hsim Es. pose proof Hsim as (H & Hs & Hc & Hn). unfold startString, sp_startString.
  assert (Hkey : (match p_stack s with
    | f :: _ => negb (frame_is_array s f) && match f_phase f with PhaseKey | PhaseComma => true | _ => false end
    | [] => false end) = match sp_stack p with
    | pf :: _ => negb (sf_is_array pf) && match sf_phase pf with PhaseKey | PhaseComma => true | _ => false end
    | [] => false end).
  { destruct (p_stack s) as [|f st] eqn:Hst; [by rewrite (rel_empty _ _ _ H Hst)|].
    destruct (rel_top _ _ _ _ _ H Hst) as (pf & ps & Hps & _). rewrite Hps. pose proof (rel_frames _ _ _ H) as Hf.
    rewrite Hst, Hps in Hf. unfold frame_is_array. rewrite (top_array _ _ _ _ _ _ _ _ Hf). by destruct Hf as ((_ & _ & _ & ->) & _). }
  rewrite <- Hkey. destruct (match p_stack s with [] => false | f :: _ => _ end) eqn:Ek.
  - eexists. split; [done|]. split; [|by apply onward_same]. split; [by apply rel_strings|]. split; [|split; [exact Hc|]].
    + unfold string_rel. cbn. done.
    + by intros o i [= <-].
  - rewrite <- (valueSlot_rel _ _ _ H). pose proof (valueSlot_ok _ _ _ H) as Hok. set (slot := valueSlot s) in *.
    rewrite (rel_path _ _ _ H Hok). cbn [mbind option_bind].
    remember (path_in (p_stack s) slot) as path eqn:Hpath.
    set (o := {| os_target := ForValue; os_slot := slot; os_text := []; os_escape := []; os_path := path; os_change := None |}).
    set (so := {| ss_target := ForValue; ss_slot := slot; ss_text := []; ss_escape := [] |}).
    set (s0 := with_string (Some o) s). set (p0 := sp_with_string (Some so) p).
    assert (H0 : rel s0 p0) by by apply rel_strings.
    destruct (place_rel Number s0 p0 slot (TStr []) (VStr []) H0 Hok ltac:(constructor)) as (s1 & E1 & H1 & Hk). rewrite E1. cbn [mbind option_bind].
    pose proof (keeps_onward _ _ Hk) as Ho. assert (Ho' : onward s s1) by (eapply onward_trans; [|exact Ho]; by apply onward_same).
    assert (Hstr : forall ch s3, p_heap s3 = p_heap s1 -> p_stack s3 = p_stack s1 -> p_string s3 = Some (with_change ch o) ->
      string_rel s3 (sp_place slot (TStr []) p0)).
    { intros ch s3 A1 A2 A3. unfold string_rel. rewrite A3, place_string. cbn. rewrite A1, A2. split_and!; try done.
      - by apply Hk.
      - by rewrite (keeps_path _ _ Hk), Hpath.
      - by apply (placed Number s0 p0 slot ForValue [] []). }
    assert (Hc1 : p_changes s1 = p_changes s) by by rewrite (keeps_changes _ _ Hk).
    assert (Hc0 : changed start s1 p) by (eapply changed_later; [exact Hc|apply Ho'|done|done]).
    destruct path as [path|].
    + eexists. split; [done|]. split; [|eapply onward_trans; [exact Ho'|by apply onward_same]].
      split; [by apply rel_string, rel_changes|]. split; [by apply (Hstr (Some (length (p_changes s1))))|]. split.
      * apply (changes_report start s1 p (CSet path (VStr [])) (TSet path (TStr [])) _ Hc0); [split; [done|constructor]|].
        by apply (reported_set Number s0 p0 slot path (TStr []) H0 Hok).
      * intros o' i [= <-] [= <-]. cbn. rewrite length_app. cbn. split; [lia|]. intros _. exists path, []. split; [done|]. left.
        by rewrite lookup_app_r, Nat.sub_diag.
    + exists s1. split; [done|]. split; [|done]. split; [done|]. split; [|split].
      * apply (Hstr None); try done. by rewrite (keeps_string _ _ Hk).
      * eapply changed_later; [exact Hc0|apply later_refl|done|]. by apply (reported_hidden Number s0 p0 slot (TStr []) H0 Hok).
      * intros o' i. rewrite (keeps_string _ _ Hk). by intros [= <-].
Qed.

(** ** Scalars *)

Lemma literal_denotes h o (P : text -> bool) v : find_literal P = Some v -> denotes h o (scalar_tree v) v.
Proof.
  unfold find_literal, LITERALS. rewrite !filter_cons, filter_nil. repeat destruct (decide _); cbn; intros [= <-]; constructor.
Qed.

Lemma scalar_denotes h o token v : scalarValue Number token = Some v -> denotes h o (scalar_tree v) v.
Proof.
  unfold scalarValue. destruct (find_literal _) as [w|] eqn:E; [intros [= ->]; by apply (literal_denotes h o) in E|].
  destruct (is_number token); [|done]. intros [= <-]. constructor.
Qed.

Lemma place_dirty slot v s : slot <> None -> place slot v (with_dirty true s) = place slot v s.
Proof. intros Hs. destruct slot as [[| |]|]; [done| | |done]; cbn; by destruct (p_stack s). Qed.

Lemma rel_dirty s p p' :
  rel s p -> sp_root p' = sp_root p -> sp_done p' = sp_done p -> sp_stack p' = sp_stack p -> sp_scalar p' = [] -> sp_slot p' = None ->
  sp_drops p <= sp_drops p' -> rel (with_dirty true (with_scalar [] None s)) p'.
Proof.
  intros [] E1 E2 E3 E4 E5 E6. split; cbn; rewrite ?E1, ?E2, ?E3; try done. eapply snapshot_dirty; [eassumption|by apply later_same|done..].
Qed.

Lemma rel_clean s p p' :
  rel s p -> sp_root p' = sp_root p -> sp_done p' = sp_done p -> sp_stack p' = sp_stack p -> sp_scalar p' = [] -> sp_slot p' = None ->
  (sp_drops p < sp_drops p' \/ sp_drops p' = sp_drops p /\ sp_slot p = None) -> rel (with_scalar [] None s) p'.
Proof.
  intros H E1 E2 E3 E4 E5 E6. pose proof H as []. split; cbn; rewrite ?E1, ?E2, ?E3; try done.
  destruct rel_snapshot as (d & snap & Hd & Hs & Hc). exists d, snap. cbn. split_and!; [lia|done|].
  intros Hdirty Hdrops. destruct E6 as [?|[E6 E7]]; [lia|]. rewrite (Hc Hdirty ltac:(lia)).
  unfold pending_value, sp_pending. rewrite E5, E7. by apply shown_ext; rewrite ?E1, ?E3.
Qed.

Lemma sim_none start s p s' p' :
  sim start s p -> p_string s = None -> rel s' p' -> later s s' -> p_string s' = None -> p_changes s' = p_changes s ->
  reported p' = reported p -> sp_string p' = None -> sim start s' p'.
Proof.
  intros (H & Hs & Hc & Hn) Es H' Hl Es' Ec Er Esp. split; [done|]. split; [|split].
  - unfold string_rel. by rewrite Es', Esp.
  - by eapply changed_later.
  - intros o i. by rewrite Es'.
Qed.

Lemma endScalar_sim start s p :
  sim start s p -> p_string s = None ->
  exists s', endScalar Number s = Some s' /\ sim start s' (sp_endScalar Number p) /\ onward s s' /\ p_string s' = None /\ p_scalar s' = [].
Proof.
  intros Hsim Es. pose proof Hsim as (H & Hs & Hc & Hn). pose proof (string_none _ _ Hs Es) as Eps.
  unfold endScalar, sp_endScalar. rewrite (rel_scalar _ _ _ H), (rel_slot _ _ _ H).
  set (s1 := with_scalar [] None s). set (p1 := sp_with_scalar [] None p).
  assert (Hfin : forall s2 p2, sim start s2 p2 -> onward s s2 -> p_string s2 = None -> p_scalar s2 = [] -> sp_string p2 = None ->
    exists s', Some (valueEnded s2) = Some s' /\ sim start s' (sp_valueEnded p2) /\ onward s s' /\ p_string s' = None /\ p_scalar s' = []).
  { intros s2 p2 Hsim2 Ho2 Es2 Esc2 Ep2. destruct (valueEnded_rel Number s2 p2 ltac:(apply Hsim2)) as [H3 Hk3].
    eexists. split; [done|]. split; [|split; [|split]].
    - eapply sim_quiet; [exact Hsim2|done|exact H3|exact Hk3|apply valueEnded_reported|by rewrite ended_string].
    - eapply onward_trans; [exact Ho2|by apply keeps_onward].
    - by rewrite (keeps_string _ _ Hk3).
    - unfold valueEnded. destruct (p_stack s2); [by destruct (p_root s2)|done]. }
  destruct (scalarValue Number (sp_scalar p)) as [v|] eqn:Ev.
  - pose proof (rel_slot_ok _ _ _ H) as Hok. rewrite (rel_slot _ _ _ H) in Hok.
    pose proof (scalar_denotes (p_heap s) (locs (p_stack s)) _ _ Ev) as Hv.
    assert (exists s2, place (sp_slot p) v s1 = Some s2 /\ rel s2 (sp_place (sp_slot p) (scalar_tree v) p1) /\ keeps s1 s2 /\ p_scalar s2 = [])
      as (s2 & E2 & H2 & Hk & Esc).
    { destruct (sp_slot p) as [slot|] eqn:Eslot.
      - destruct (place_rel Number (with_dirty true s1) p1 (Some slot) (scalar_tree v) v) as (s2 & E2 & H2 & Hk);
          [by apply (rel_dirty s p)|done|done|]. rewrite place_dirty in E2 by done. exists s2. split_and!; try done.
        + destruct Hk. by split.
        + by rewrite (rel_scalar _ _ _ H2), place_scalar.
      - exists s1. split; [done|]. split; [apply (rel_clean s p); try done; by right|]. split; [apply keeps_refl|done]. }
    rewrite E2. cbn [mbind option_bind].
    assert (Ho : onward s s2) by (eapply onward_trans; [|by apply keeps_onward]; by apply onward_same).
    assert (Es2 : p_string s2 = None) by by rewrite (keeps_string _ _ Hk).
    assert (Hok2 : slot_ok (p_heap s2) (p_stack s2) (sp_slot p)) by by apply Hk.
    rewrite (rel_path s2 _ _ H2 Hok2), (keeps_path _ _ Hk). cbn [mbind option_bind].
    change (path_in (p_stack s1) (sp_slot p)) with (path_in (p_stack s) (sp_slot p)).
    assert (Hplace : forall T, reported (sp_place (sp_slot p) (scalar_tree v) p) = T -> reported (sp_place (sp_slot p) (scalar_tree v) p1) = T).
    { intros T <-. apply reported_ext; destruct (sp_slot p) as [[| |]|]; cbn; try done; by destruct (sp_stack p). }
    destruct (path_in (p_stack s) (sp_slot p)) as [path|] eqn:Ep.
    + destruct (reported_set Number s p (sp_slot p) path (scalar_tree v) H Hok Ep) as (T & HT & HT').
      apply Hfin; [|eapply onward_trans; [exact Ho|by apply onward_same]|done|done|by rewrite place_string].
      split; [by apply rel_changes|]. split; [|split].
      * unfold string_rel. rewrite place_string. cbn. by rewrite Es2, Eps.
      * apply (changes_report start s2 p (CSet path v) (TSet path (scalar_tree v))); [|split; [done|]|].
        -- eapply changed_later; [exact Hc|apply Ho|by rewrite (keeps_changes _ _ Hk)|done].
        -- by eapply scalar_denotes.
        -- exists T. split; [done|]. by apply Hplace.
      * intros o i E. cbn in E. congruence.
    + apply Hfin; [|exact Ho|done|done|by rewrite place_string].
      eapply sim_none; [exact Hsim|done|exact H2|apply Ho|done|by rewrite (keeps_changes _ _ Hk)| |by rewrite place_string].
      apply Hplace. by eapply reported_hidden.
  - apply Hfin; try done.
    eapply sim_none; [exact Hsim|done|apply (rel_clean s p); try done; left; cbn; lia|by apply later_same|done..].
Qed.
End Pieces.

Section Containers.
Context {Num : Type} (Number : text -> Num).
Implicit Types (h : heap Num) (s : Parser Num) (p : Spec Num) (f : Frame) (st : list Frame).

Abbreviation rel := (rel Number).
Abbreviation sim := (sim Number).

(** ** Opening *)

Lemma slot_cases (slot : option Slot) : slot = None \/ slot = Some SRoot \/ exists sl, slot = Some sl /\ sl <> SRoot.
Proof. destruct slot as [[| |]|]; eauto 10. Qed.

Lemma top_of h st sl : sl <> SRoot -> slot_ok h st (Some sl) ->
  exists f st' c, st = f :: st' /\ h !! f_container f = Some c /\ slot_fits c sl.
Proof. intros Hne Hok. destruct sl; [done| |]; destruct st as [|f st']; try done; destruct Hok as (c & ? & ?); by exists f, st', c. Qed.

Definition root_ref (slot : option Slot) (l : nat) (root : option (value Num)) : option (value Num) :=
  match slot with Some SRoot => Some (VRef l) | _ => root end.

(** A reference to a new object is placed where a value would be. *)
Lemma place_ref s slot e sN :
  slot_ok (p_heap s) (p_stack s) slot -> place slot VNull s = Some sN ->
  exists s1, place slot (VRef (length (p_heap s))) (with_heap (p_heap s ++ [e]) s) = Some s1 /\
    p_pathCost s1 = p_pathCost sN /\ p_stack s1 = p_stack sN /\
    forall stack cost, with_dirty true (with_stack stack cost s1) =
      with_dirty true (with_stack stack cost (with_root (root_ref slot (length (p_heap s)) (p_root s))
        (with_heap (with_child (p_heap sN) (p_stack sN) slot (length (p_heap s)) ++ [e]) sN))).
Proof.
  intros Hok HN. destruct (slot_cases slot) as [->|[->|(sl & -> & Hne)]].
  - injection HN as <-. eexists. split; [reflexivity|]. split; [reflexivity|]. split; [reflexivity|]. intros; reflexivity.
  - injection HN as <-. eexists. split; [reflexivity|]. split; [reflexivity|]. split; [reflexivity|]. intros. unfold with_child. cbn in *. by rewrite Hok.
  - destruct (top_of _ _ _ Hne Hok) as (f & st & c & Hst & Hc & Hf). rewrite (place_eq _ _ _ _ _ _ Hne Hst Hc) in HN. injection HN as <-.
    assert (Hc' : p_heap (with_heap (p_heap s ++ [e]) s) !! f_container f = Some c) by by apply lookup_app_l_Some.
    rewrite (place_eq (with_heap (p_heap s ++ [e]) s) f st c sl _ Hne Hst Hc'). eexists. split; [done|]. split; [done|]. split; [done|].
    intros stack cost. unfold with_child. cbn [p_heap p_stack with_heap with_stack with_dirty].
    destruct (grown_same c sl f) as (-> & _). pose proof (lookup_lt_Some _ _ _ Hc) as Hlt.
    rewrite list_lookup_insert_eq by done. rewrite list_insert_insert_eq, setSlot_set by done. rewrite insert_app_l by done. by destruct sl.
Qed.

Lemma placed_slot s p slot sN (t : tree Num) :
  rel s p -> slot_ok (p_heap s) (p_stack s) slot -> place slot VNull s = Some sN -> (slot = None -> p_stack s <> []) ->
  slot_set (p_heap sN) (p_stack sN) slot.
Proof.
  intros H Hok HN Hne0. destruct (slot_cases slot) as [->|[->|(sl & -> & Hne)]].
  - injection HN as <-. by apply Hne0.
  - by injection HN as <-.
  - destruct (top_of _ _ _ Hne Hok) as (f & st & c & Hst & Hc & Hf). rewrite (place_eq _ _ _ _ _ _ Hne Hst Hc) in HN. injection HN as <-.
    assert (Hex : exists c', <[f_container f := setSlot c sl VNull]> (p_heap s) !! f_container (grown c sl f) = Some c' /\ slot_fits c' sl /\ slot_grows c' sl = false).
    { exists (setSlot c sl VNull). destruct (grown_same c sl f) as (-> & _).
      split; [apply list_lookup_insert_eq; by eapply lookup_lt_Some|]. split; [by apply setSlot_fits|by apply setSlot_taken]. }
    by destruct sl.
Qed.

Lemma path_length s p slot path :
  rel s p -> slot_ok (p_heap s) (p_stack s) slot -> path_in (p_stack s) slot = Some path -> length path = length (p_stack s).
Proof.
  intros H Hok Hp. destruct (slot_cases slot) as [->|[->|(sl & -> & Hne)]]; [done| |].
  - injection Hp as <-. cbn in Hok. by rewrite Hok.
  - destruct (top_of _ _ _ Hne Hok) as (f & st & c & Hst & _). destruct (rel_top _ _ _ _ _ H Hst) as (pf & ps & _ & _ & (_ & _ & Hl) & _).
    rewrite Hst in *. rewrite path_in_cons in Hp by done. destruct (f_reportsInside f), (f_path f) as [path'|], (slot_step sl); try done.
    injection Hp as <-. rewrite length_app, (Hl path') by done. cbn. lia.
Qed.

(** Opening shows what placing an empty container would. *)
Lemma reported_open s p array :
  rel s p -> (valueSlot s = None -> p_stack s <> []) ->
  reported (sp_openContainer array p) = reported (sp_place (sp_valueSlot p) (empty_tree array) p).
Proof.
  intros H Hne0. pose proof (valueSlot_ok _ _ _ H) as Hok. rewrite (valueSlot_rel _ _ _ H) in *. unfold sp_openContainer.
  set (slot := sp_valueSlot p) in *.
  assert (Hnew : forall p1 ps, sp_stack p1 = ps -> forall ph, reported (sp_with_stack ({| sf_tree := empty_tree array; sf_slot := slot; sf_key := None;
      sf_phase := ph |} :: ps) p1) = report_plug ps (empty_tree array) slot (sp_root p1)).
  { intros p1 ps E ph. unfold reported, reported_stack. cbn [sp_stack sp_with_stack sf_tree sf_slot sp_root]. unfold sf_is_array. cbn [sf_tree].
    by destruct (reports ps), array. }
  rewrite (Hnew _ _ eq_refl). destruct (slot_cases slot) as [->|[->|(sl & -> & Hne)]].
  - cbn [sp_place]. unfold reported. destruct (sp_stack p) as [|pf ps] eqn:E; [done|]. done.
  - cbn in Hok. unfold reported. cbn. by rewrite (rel_empty _ _ _ H Hok).
  - destruct (top_of _ _ _ Hne Hok) as (f & st & c & Hst & Hc & _). destruct (top_fits _ _ _ _ _ _ H Hne Hst Hok) as (pf & ps & Hps & Hf).
    assert (Epl : forall t, sp_place (Some sl) t p = sp_set_top (sf_with_tree (tree_set (sf_tree pf) sl t) pf) p).
    { intros t. unfold sp_place. rewrite Hps. by destruct sl. }
    rewrite !Epl. cbn [sp_stack sp_set_top sp_with_stack sp_root]. rewrite Hps. cbn [tail report_plug].
    rewrite (reported_cons _ (sf_with_tree (tree_set (sf_tree pf) sl (empty_tree array)) pf) ps) by (cbn; by rewrite Hps).
    unfold sf_is_array. cbn [sf_tree sf_with_tree sf_slot tree_set_opt sp_root sp_set_top sp_with_stack]. rewrite !is_array_set, tree_set_set by done.
    done.
Qed.

(** The state with a container opened, before it is reported. *)
Lemma open_rel s p (array : bool) :
  rel s p -> p_scalarSlot s = None -> (valueSlot s = None -> p_stack s <> []) ->
  let slot := valueSlot s in
  let f := {| f_container := length (p_heap s); f_slot := slot; f_path := path_in (p_stack s) slot;
              f_reportsInside := match path_in (p_stack s) slot with Some path => length path <? MAX_REPORTED_DEPTH | None => false end;
              f_size := 0; f_key := None; f_phase := if array then PhaseValue else PhaseKey |} in
  let empty : Container Num := if array then CArray [] else CObject [] in
  exists s1, place slot (VRef (length (p_heap s))) (with_heap (p_heap s ++ [empty]) s) = Some s1 /\
    let s2 := with_dirty true (with_stack (f :: p_stack s1) (p_pathCost s1 + 1) s1) in
    rel s2 (sp_openContainer array p) /\ onward s s2 /\ p_string s2 = p_string s /\ p_changes s2 = p_changes s.
Proof.
  intros H Hsc Hne0 slot f empty. pose proof (valueSlot_ok _ _ _ H) as Hok. fold slot in Hok.
  destruct (place_rel Number s p slot TNull VNull H Hok ltac:(constructor)) as (sN & EN & HN & Hk).
  destruct (place_ref s slot empty sN Hok EN) as (s1 & E1 & Ecost & Estack & Erec).
  exists s1. split; [done|]. rewrite Erec. clear Erec. rewrite Estack, Ecost.
  pose proof (placed_slot s p slot sN TNull H Hok EN Hne0) as Hset. pose proof (rel_frames _ _ _ HN) as Hfr. pose proof (rel_nodup _ _ _ HN) as Hnd.
  unfold sp_openContainer. rewrite <- (valueSlot_rel _ _ _ H). fold slot. set (pN := sp_place slot TNull p) in *.
  set (l := length (p_heap s)) in *. assert (El : length (p_heap sN) = l) by by rewrite (keeps_length _ _ Hk).
  set (hN := with_child (p_heap sN) (p_stack sN) slot l) in *. assert (EhN : length hN = l) by by rewrite <- El; apply with_child_length.
  assert (Halive : Forall (fun g => f_container g < l) (p_stack sN)).
  { pose proof (frames_alive _ _ _ _ _ _ _ Hfr) as Ha. unfold locs in Ha. by rewrite Forall_fmap, El in Ha. }
  assert (Hlater : evolves (p_heap sN) (locs (p_stack sN)) (hN ++ [empty]) (l :: locs (p_stack sN))).
  { eapply evolves_trans; [|apply with_child_evolves|rewrite <- EhN; apply alloc_evolves]. by rewrite with_child_length. }
  assert (Hon : later s (with_dirty true (with_stack (f :: p_stack sN) (p_pathCost sN + 1)
      (with_root (root_ref slot l (p_root s)) (with_heap (hN ++ [empty]) sN))))).
  { eapply later_trans; [apply Hk|]. split; [cbn; rewrite length_app, El, EhN; lia|exact Hlater]. }
  split; [|split; [split; [exact Hon|apply Hk]|split; [apply Hk|apply Hk]]].
  assert (Hroot : sp_root pN = sp_root p /\ p_root sN = p_root s \/ slot = Some SRoot /\ sp_root pN = Some TNull).
  { destruct (slot_cases slot) as [E|[E|(sl & E & Hne)]]; unfold pN; rewrite E in *; [injection EN as <-; by left|by right|].
    left. destruct (top_of _ _ _ Hne Hok) as (g & st & c & Hst & Hc & _). rewrite (place_eq _ _ _ _ _ _ Hne Hst Hc) in EN. injection EN as <-.
    split; [|done]. destruct sl; [done| |]; cbn; by destruct (sp_stack p). }
  split; cbn [p_heap p_stack p_root p_done p_scalar p_scalarSlot p_pathCost p_credit with_heap with_stack with_dirty with_root
    sp_with_stack sp_root sp_done sp_stack sp_scalar sp_slot].
  - split; [split|split].
    + exists empty. split; [by destruct array; constructor|]. split; [cbn; by rewrite lookup_app_r, EhN, Nat.sub_diag by lia|]. by destruct array.
    + done.
    + split; [|split]; cbn; [by rewrite (keeps_path _ _ Hk)|done|]. intros path Hp.
      rewrite (path_length _ _ _ _ H Hok Hp). pose proof (f_equal length (keeps_locs _ _ Hk)) as Hll. unfold locs in Hll. by rewrite !length_fmap in Hll.
    + cbn [f_container f f_slot]. pose proof (alloc_evolves hN (locs (p_stack sN)) empty) as Halloc. rewrite EhN in Halloc.
      eapply frames_evolves; [exact Halloc| |apply (frames_child _ (p_root sN)); try done].
      * eapply Forall_impl; [exact Halive|]. intros g Hg. apply lookup_app_l. by rewrite EhN.
      * destruct Hroot as [[E1' E2']|[E1' E2']]; [|rewrite E1', E2'; by split]. destruct (slot_cases slot) as [E|[E|(sl & E & Hne)]]; rewrite E in *; cbn; try done.
        -- split; [done|]. unfold pN. by rewrite E.
        -- by destruct sl.
  - apply NoDup_cons. split; [|done]. intros Hin. unfold locs in Hin. apply list_elem_of_fmap in Hin as (g & Eg & Hg).
    rewrite Forall_forall in Halive. specialize (Halive g Hg). cbn in Eg. fold l in Eg. lia.
  - apply HN.
  - apply HN.
  - apply HN.
  - assert (p_scalarSlot sN = None) as -> by by rewrite (rel_slot _ _ _ HN); unfold pN; rewrite place_slot, <- (rel_slot _ _ _ H). done.
  - rewrite (rel_cost _ _ _ HN). change (stack_cost (f :: p_stack sN)) with (0 + 1 + stack_cost (p_stack sN))%Z. lia.
  - apply HN.
  - eapply snapshot_dirty; [apply HN|split; [cbn; rewrite length_app, El, EhN; lia|exact Hlater]|done..].
Qed.

Lemma open_string array p : sp_string (sp_openContainer array p) = sp_string p.
Proof. unfold sp_openContainer. cbn. apply place_string. Qed.

Lemma open_sim start s p array :
  sim start s p -> p_string s = None -> p_scalarSlot s = None -> (valueSlot s = None -> p_stack s <> []) ->
  exists s', openContainer array s = Some s' /\ sim start s' (sp_openContainer array p) /\ onward s s'.
Proof.
  intros Hsim Es Esc Hne0. pose proof Hsim as (H & Hs & Hc & Hn). pose proof (valueSlot_ok _ _ _ H) as Hok.
  pose proof (string_none _ _ Hs Es) as Eps. destruct (open_rel s p array H Esc Hne0) as (s1 & E1 & H2 & Ho & Es2 & Ec2).
  unfold openContainer. rewrite (rel_path _ _ _ _ H Hok). cbn [mbind option_bind]. rewrite E1. cbn [mbind option_bind].
  set (s2 := with_dirty true _) in *. rewrite Es in Es2. pose proof (reported_open s p array H Hne0) as Hrep.
  assert (Hc2 : changed start s2 p) by (eapply changed_later; [exact Hc|apply Ho|done|done]).
  destruct (path_in (p_stack s) (valueSlot s)) as [path|] eqn:Ep.
  - set (empty := if array then CArray [] else CObject []). destruct (rel_extend Number s2 _ [empty] H2) as [H3 Hl3].
    set (s3 := with_heap (p_heap s2 ++ [empty]) s2) in *. eexists. split; [done|].
    assert (Ho3 : onward s s3) by (eapply onward_trans; [exact Ho|by split]).
    split; [|eapply onward_trans; [exact Ho3|by apply onward_same]]. split; [by apply rel_changes|]. split; [|split].
    + unfold string_rel. rewrite open_string. change (p_string (report _ s3)) with (p_string s2). by rewrite Es2, Eps.
    + apply (changes_report start s3 p (CSet path (VRef (length (p_heap s2)))) (TSet path (empty_tree array))).
      * by eapply (changed_later start s2 p s3 p).
      * split; [done|]. apply (denotes_container _ _ _ empty).
        -- intros Hin. pose proof (frames_alive _ _ _ _ _ _ _ (rel_frames _ _ _ H2)) as Ha. rewrite Forall_forall in Ha.
           specialize (Ha _ Hin). lia.
        -- cbn. by rewrite lookup_app_r, Nat.sub_diag.
        -- by destruct array; constructor.
      * rewrite Hrep, <- (valueSlot_rel _ _ _ H). by apply (reported_set Number s).
    + intros o i E. change (p_string s2 = Some o) in E. congruence.
  - exists s2. split; [done|]. split; [|done]. split; [done|]. split; [|split].
    + unfold string_rel. rewrite open_string. by rewrite Es2, Eps.
    + eapply changed_later; [exact Hc2|apply later_refl|done|]. rewrite Hrep, <- (valueSlot_rel _ _ _ H). by apply (reported_hidden Number s).
    + intros o i. by rewrite Es2.
Qed.

(** ** Closing *)

(** The innermost container, as the next one shows it. *)
Lemma reported_close s p f st pf ps :
  rel s p -> p_stack s = f :: st -> sp_stack p = pf :: ps ->
  reported (sp_place (sf_slot pf) (sf_tree pf) (sp_with_stack ps p)) = report_plug ps (sf_tree pf) (sf_slot pf) (sp_root p).
Proof.
  intros H Hst Hps. destruct (rel_top _ _ _ _ _ H Hst) as (pf' & ps' & E & Hs & _ & _ & Hfr & _). rewrite Hps in E. injection E as <- <-.
  rewrite Hs in Hfr. destruct ps as [|pf2 ps].
  - destruct st; [|done]. destruct Hfr as (-> & _). done.
  - destruct st as [|f2 st]; [done|]. destruct (sf_slot pf) as [slot|]; [|done].
    destruct (child_slot _ _ _ _ _ _ _ _ _ _ Hfr) as [Hne _]. unfold sp_place. cbn [sp_stack sp_with_stack].
    assert (Hgoal : reported (sp_set_top (sf_with_tree (tree_set (sf_tree pf2) slot (sf_tree pf)) pf2) (sp_with_stack (pf2 :: ps) p)) =
      report_plug (pf2 :: ps) (sf_tree pf) (Some slot) (sp_root p)); [|by destruct slot].
    unfold reported. cbn. unfold sf_is_array. cbn. by rewrite is_array_set.
Qed.

Lemma apply_set path (v : tree Num) copy T T' : copy = Some T -> tree_put path v T = Some T' -> apply_change (TSet path v) copy = Some T'.
Proof. intros -> H. by destruct path. Qed.

Lemma close_rel s p f st pf ps :
  rel s p -> p_scalarSlot s = None -> p_stack s = f :: st -> sp_stack p = pf :: ps ->
  let s1 := with_dirty true (with_stack st (p_pathCost s - (Z.of_nat (f_size f) + 1)) s) in
  rel s1 (sp_place (sf_slot pf) (sf_tree pf) (sp_with_stack ps p)) /\ later s s1 /\
  denotes (p_heap s1) (locs (p_stack s1)) (sf_tree pf) (VRef (f_container f)).
Proof.
  intros H Esc Hst Hps s1. destruct (rel_top _ _ _ _ _ H Hst) as (pf' & ps' & E & Hs & _ & _ & Hfr & (c & Hc & Hd)).
  rewrite Hps in E. injection E as <- <-. pose proof (rel_nodup _ _ _ H) as Hnd. rewrite Hst in *. cbn in Hnd.
  apply NoDup_cons in Hnd as [Hnin Hnd].
  assert (He : evolves (p_heap s) (locs (f :: st)) (p_heap s) (locs st)).
  { intros l Hl _. split; [done|]. intros Hin. apply Hl. by right. }
  assert (Hden : denotes (p_heap s) (locs st) (sf_tree pf) (VRef (f_container f))).
  { eapply denotes_container; [exact Hnin|exact Hc|by eapply container_evolves]. }
  assert (Hlater : later s s1) by (split; [done|by rewrite Hst]).
  split; [|done]. apply (frames_evolves _ _ (p_heap s) (locs st)) in Hfr; [|done|by apply Forall_true].
  pose proof (frames_plug _ _ _ _ _ _ _ (sf_tree pf) Hfr Hden) as Hplug. rewrite Hs in Hplug.
  split.
  - cbn [p_heap p_stack p_root s1 with_dirty with_stack]. destruct (slot_cases (sf_slot pf)) as [Esl|[Esl|(sl & Esl & Hne)]]; rewrite Esl in *.
    + exact Hplug.
    + destruct Hplug as (-> & -> & Er). cbn. by rewrite Er.
    + destruct ps as [|pf2 ps]; [by destruct sl|]. by destruct sl.
  - done.
  - rewrite place_done. apply H.
  - rewrite place_scalar. apply H.
  - rewrite place_slot. apply H.
  - cbn. by rewrite Esc.
  - cbn. rewrite (rel_cost _ _ _ H), Hst. cbn. lia.
  - apply H.
  - eapply snapshot_dirty; [apply H|exact Hlater|done|done|]. by destruct (sp_place_same (sf_slot pf) (sf_tree pf) (sp_with_stack ps p)) as (_ & _ & _ & -> & _).
Qed.

Lemma close_sim start s p :
  sim start s p -> p_string s = None -> p_scalarSlot s = None ->
  sim start (closeContainer s) (sp_closeContainer p) /\ onward s (closeContainer s).
Proof.
  intros Hsim Es Esc. pose proof Hsim as (H & Hs & Hc & Hn). pose proof (string_none _ _ Hs Es) as Eps.
  unfold closeContainer, sp_closeContainer. destruct (p_stack s) as [|f st] eqn:Hst.
  { rewrite (rel_empty _ _ _ H Hst). split; [done|by apply onward_same]. }
  destruct (rel_top _ _ _ _ _ H Hst) as (pf & ps & Hps & Hslot & (Hpath & _) & Hin & Hfr & _). rewrite Hps, Hin.
  destruct (close_rel s p f st pf ps H Esc Hst Hps) as (H1 & Hl & Hden). set (s1 := with_dirty true _) in *.
  set (p1 := sp_place (sf_slot pf) (sf_tree pf) (sp_with_stack ps p)) in *.
  assert (Ep1 : sp_string p1 = None) by by unfold p1; rewrite place_string.
  pose proof (reported_close s p f st pf ps H Hst Hps) as Hrep. fold p1 in Hrep.
  assert (Hold : reported p = report_plug ps (if reports ps then sf_tree pf else empty_tree (sf_is_array pf)) (sf_slot pf) (sp_root p))
    by by apply reported_cons.
  rewrite Hslot in *.
  assert (Hmid : exists s2, (match f_path f with
      | Some path => if match f_path f with Some _ => reports ps | None => false end then s1 else report (CSet path (VRef (f_container f))) s1
      | None => s1 end) = s2 /\ sim start s2 p1 /\ onward s s2 /\ p_string s2 = None).
  { eexists. split; [reflexivity|]. destruct (f_path f) as [path|] eqn:Ep; [destruct (reports ps) eqn:Er|].
    - split; [|done]. eapply sim_none; [exact Hsim|done|exact H1|done|done|done|by rewrite Hrep, Hold|done].
    - split; [|split; [by eapply onward_trans; [|by apply onward_same]|done]]. split; [by apply rel_changes|]. split; [|split].
      + unfold string_rel. cbn. by rewrite Es, Ep1.
      + apply (changes_report start s1 p (CSet path (VRef (f_container f))) (TSet path (sf_tree pf)));
          [eapply (changed_later start s p s1 p); [exact (proj1 (proj2 (proj2 Hsim)))|exact Hl|reflexivity|reflexivity]|split; [reflexivity|exact Hden]|].
        destruct (report_plug_modify _ _ _ _ _ _ _ _ (empty_tree (sf_is_array pf)) (sf_tree pf) path (fun _ => Some (sf_tree pf)) Hfr (eq_sym Hpath) eq_refl)
          as (T & T' & HT & HT' & HT''). exists T'. rewrite Hrep. split; [|done]. eapply apply_set; [by rewrite Hold|by apply modify_put].
      + intros o i E. cbn in E. congruence.
    - split; [|done]. eapply sim_none; [exact Hsim|done|exact H1|done|done|done| |done]. rewrite Hrep, Hold.
      by eapply report_plug_hidden. }
  destruct Hmid as (s2 & -> & H2 & Ho2 & Es2). destruct (valueEnded_rel Number s2 p1 ltac:(apply H2)) as [H3 Hk3]. split.
  - eapply sim_quiet; [exact H2|done|exact H3|exact Hk3|apply valueEnded_reported|by rewrite ended_string].
  - eapply onward_trans; [exact Ho2|by apply keeps_onward].
Qed.
End Containers.
