(* ===== verification/StreamAppend.v ===== *)
(** A piece of text read by the parser is the text read by the machine: [append] raises
    nothing, ends, and the pieces do not matter. Snapshots are never written again. *)
From S2P Require Import Prelude EditText StreamValue StreamParser StreamSpec StreamRel StreamChanges StreamRefine StreamStrings StreamInvariant StreamContainers.

Section Append.
Context {Num : Type} (Number : text -> Num).
Implicit Types (h : heap Num) (s : Parser Num) (p : Spec Num) (f : Frame) (st : list Frame).

Abbreviation rel := (rel Number).
Abbreviation sim := (sim Number).
Abbreviation sp_read := (sp_read Number).
Abbreviation sp_step := (sp_step Number).

(** ** Scalars that start and grow *)

(** The scalar of a state, where it shows if it has a slot. *)
Lemma scalar_rel s p token slot :
  rel s p -> slot_ok (p_heap s) (p_stack s) slot -> (slot = None -> sp_slot p = None) ->
  rel (match slot with Some _ => with_dirty true (with_scalar token slot s) | None => with_scalar token slot s end)
    (sp_with_scalar token slot p).
Proof.
  intros H Hok Hsl. pose proof H as [Hf Hn Hd Hsc Hslot Hso Hcost Hcr Hsnap]. destruct slot as [slot|].
  - split; try done. eapply snapshot_dirty; [exact Hsnap|by apply later_same|done..].
  - split; try done. eapply snapshot_same; [exact Hsnap|by apply later_same|done..|].
    unfold pending_value, sp_pending. cbn. rewrite (Hsl eq_refl). by apply shown_ext.
Qed.

Lemma scalar_sim start s p token slot :
  sim start s p -> p_string s = None -> slot_ok (p_heap s) (p_stack s) slot -> (slot = None -> sp_slot p = None) ->
  let s' := match slot with Some _ => with_dirty true (with_scalar token slot s) | None => with_scalar token slot s end in
  sim start s' (sp_with_scalar token slot p) /\ onward s s' /\ p_string s' = None /\ p_scalar s' = token /\ p_scalarSlot s' = slot.
Proof.
  intros Hsim Es Hok Hsl s'. assert (Ho : onward s s') by (unfold s'; destruct slot; by apply onward_same).
  assert (Es' : p_string s' = None) by (unfold s'; by destruct slot).
  split; [|split; [done|split; [done|unfold s'; by destruct slot]]].
  eapply sim_none; [exact Hsim|done|apply scalar_rel; [apply Hsim|done|done]|apply Ho|done|unfold s'; by destruct slot|done|].
  eapply string_none; [apply Hsim|done].
Qed.

(** ** Characters outside strings *)

Lemma structural_sim start s p char :
  sim start s p -> p_string s = None -> p_scalarSlot s = None -> (sp_stack p = [] -> sp_root p = None) ->
  exists s', structural char s = Some s' /\ sim start s' (sp_structural char p) /\ onward s s'.
Proof.
  intros Hsim Es Esl Hroot. pose proof Hsim as (H & Hs & _).
  assert (Hne0 : valueSlot s = None -> p_stack s <> []).
  { intros Hv Hst. rewrite (valueSlot_rel _ _ _ H) in Hv. unfold sp_valueSlot in Hv. pose proof (rel_empty _ _ _ H Hst) as E.
    rewrite E, (Hroot E) in Hv. done. }
  assert (Hid : exists s', Some s = Some s' /\ sim start s' p /\ onward s s') by (exists s; split_and!; [done|done|by apply onward_same]).
  assert (Hphase : forall f st pf ps ph, p_stack s = f :: st -> sp_stack p = pf :: ps ->
    exists s', Some (set_top (with_phase ph f) s) = Some s' /\ sim start s' (sp_set_top (sf_with_phase ph pf) p) /\ onward s s').
  { intros f st pf ps ph Hst Hps. pose proof (rel_frames _ _ _ H) as Hf. rewrite Hst, Hps in Hf. destruct Hf as ((_ & F1 & F2 & F3) & _).
    destruct (top_phase Number s p f st pf ps (with_phase ph f) (sf_with_phase ph pf)) as [H' Hk]; try done.
    eexists. split; [done|]. split; [|by apply keeps_onward]. eapply sim_quiet; [exact Hsim|done|exact H'|exact Hk| |done].
    by eapply set_top_same. }
  unfold structural, sp_structural. destruct (bool_decide _); [exact Hid|]. destruct (char =? QUOTE)%N; [by apply start_sim|].
  destruct (char =? 123)%N; [by apply open_sim|]. destruct (char =? 91)%N; [by apply open_sim|].
  destruct (_ || _)%N; [eexists; split; [done|]; by apply close_sim|].
  destruct (char =? 58)%N; [|destruct (char =? 44)%N].
  - destruct (p_stack s) as [|f st] eqn:Hst; [by rewrite (rel_empty _ _ _ H Hst)|].
    destruct (rel_top _ _ _ _ _ H Hst) as (pf & ps & Hps & _). rewrite Hps. pose proof (rel_frames _ _ _ H) as Hf. rewrite Hst, Hps in Hf.
    unfold frame_is_array. rewrite (top_array _ _ _ _ _ _ _ _ Hf). destruct Hf as ((_ & _ & _ & ->) & _).
    destruct (negb _ && _); [by eapply Hphase|exact Hid].
  - destruct (p_stack s) as [|f st] eqn:Hst; [by rewrite (rel_empty _ _ _ H Hst)|].
    destruct (rel_top _ _ _ _ _ H Hst) as (pf & ps & Hps & _). rewrite Hps. pose proof (rel_frames _ _ _ H) as Hf. rewrite Hst, Hps in Hf.
    unfold frame_is_array. rewrite (top_array _ _ _ _ _ _ _ _ Hf). by eapply Hphase.
  - rewrite <- (valueSlot_rel _ _ _ H). eexists. split; [done|].
    destruct (scalar_sim start s p [char] (valueSlot s)) as (H' & Ho & _); try done; [by eapply valueSlot_ok|].
    intros _. by rewrite <- (rel_slot _ _ _ H).
Qed.

(** ** Numbers and literals *)

Lemma span_spec t : let '(a, b) := span_scalar t in t = a ++ b /\ Forall (fun u => isDelimiter u = false) a /\ (forall u b', b = u :: b' -> isDelimiter u = true).
Proof.
  induction t as [|u t IH]; cbn [span_scalar]; [by split_and!|]. destruct (isDelimiter u) eqn:E.
  - split_and!; [done|constructor|]. by intros ?? [= <- <-].
  - destruct (span_scalar t) as [a b]. destruct IH as (-> & Ha & Hb). split_and!; [done|by constructor|done].
Qed.

Lemma sp_eta p : sp_with_scalar (sp_scalar p) (sp_slot p) p = p.
Proof. by destruct p. Qed.

Lemma read_scalar more p :
  sp_done p = false -> sp_string p = None -> sp_scalar p <> [] -> Forall (fun u => isDelimiter u = false) more ->
  sp_read more p = sp_with_scalar (sp_scalar p ++ more) (sp_slot p) p.
Proof.
  intros Hd Hs Hsc Hm. revert p Hd Hs Hsc. induction Hm as [|u more Hu _ IH]; intros p Hd Hs Hsc.
  - cbn. by rewrite app_nil_r, sp_eta.
  - cbn [fold_left StreamSpec.sp_read]. unfold StreamSpec.sp_read in *. cbn [fold_left].
    assert (E : sp_step u p = sp_with_scalar (sp_scalar p ++ [u]) (sp_slot p) p).
    { unfold StreamSpec.sp_step. rewrite Hd, Hs. destruct (sp_scalar p); [done|]. by rewrite Hu. }
    rewrite E, IH by (done || (cbn; by destruct (sp_scalar p))). cbn. by rewrite <- app_assoc.
Qed.

(** At a delimiter, the scalar ends before the delimiter is read. *)
Lemma read_delimiter u t p :
  sp_done p = false -> sp_string p = None -> sp_scalar p <> [] -> isDelimiter u = true ->
  sp_read (u :: t) p = sp_read (u :: t) (sp_endScalar Number p).
Proof.
  intros Hd Hs Hsc Hu. unfold StreamSpec.sp_read. cbn [fold_left]. f_equal. destruct (endScalar_string Number p Hs) as [Es Esc].
  unfold StreamSpec.sp_step. rewrite Hd, Hs, Es, Esc. destruct (sp_scalar p) eqn:E; [done|]. by rewrite Hu.
Qed.

Lemma readScalar_sim start s p t :
  sim start s p -> sp_ok p -> p_string s = None -> sp_done p = false -> sp_scalar p <> [] ->
  exists s' rest q, readScalar Number t s = Some (s', rest) /\ sim start s' q /\ sp_read t p = sp_read rest q /\ sp_ok q /\ onward s s' /\
    length rest <= length t /\ (rest <> [] -> p_scalar s' = []).
Proof.
  intros Hsim Hokp Es Hd Hsc. pose proof Hsim as (H & Hs & _). pose proof (string_none _ _ Hs Es) as Eps.
  pose proof (span_spec t) as Hspan. unfold readScalar. destruct (span_scalar t) as [more rest] eqn:Esp. destruct Hspan as (-> & Hm & Hdel).
  set (s1 := match more with [] => s | _ => _ end).
  pose proof (read_scalar more p Hd Eps Hsc Hm) as Hread. set (p1 := sp_with_scalar (sp_scalar p ++ more) (sp_slot p) p) in *.
  assert (Hok1 : sp_ok p1) by (rewrite <- Hread; by apply ok_read).
  assert (H1 : sim start s1 p1 /\ onward s s1 /\ p_string s1 = None).
  { unfold s1, p1. destruct more as [|u more]; [rewrite app_nil_r, sp_eta; split_and!; [done|by apply onward_same|done]|].
    pose proof (rel_slot_ok _ _ _ H) as Hok. rewrite <- (rel_scalar _ _ _ H), <- (rel_slot _ _ _ H).
    destruct (scalar_sim start s p (p_scalar s ++ u :: more) (p_scalarSlot s)) as (A & B & C & _); try done. by rewrite (rel_slot _ _ _ H). }
  destruct H1 as (H1 & Ho1 & Es1). destruct rest as [|u rest].
  - exists s1, [], p1. rewrite app_nil_r. split_and!; try done. cbn. lia.
  - destruct (endScalar_sim Number start s1 p1 H1 Es1) as (s2 & E2 & H2 & Ho2 & Es2 & Esc2). rewrite E2. cbn [mbind option_bind].
    exists s2, (u :: rest), (sp_endScalar Number p1). split_and!; try done.
    + rewrite read_app, Hread. apply read_delimiter; try done; [|by eapply Hdel]. cbn. by destruct (sp_scalar p).
    + by apply ok_endScalar.
    + by eapply onward_trans.
    + rewrite length_app. lia.
Qed.

(** ** Pieces *)

Lemma append_loop_sim start fuel t s p :
  sim start s p -> sp_ok p -> 2 * length t <= fuel + (if bool_decide (p_scalar s = []) then 1 else 0) ->
  exists s', append_loop Number fuel t s = Some s' /\ sim start s' (sp_read t p) /\ onward s s'.
Proof.
  revert t s p. induction fuel as [|fuel IH]; intros t s p Hsim Hokp Hfuel; pose proof Hsim as (H & Hs & _).
  all: destruct t as [|char t]; [exists s; split_and!; [done|done|by apply onward_same]|].
  { cbn in Hfuel. destruct (bool_decide _); lia. }
  cbn [append_loop]. rewrite (rel_done _ _ _ H). destruct (sp_done p) eqn:Hd.
  { exists s. rewrite read_done by done. split_and!; [done|done|by apply onward_same]. }
  destruct (p_string s) as [o|] eqn:Es.
  - assert (Hso : is_Some (sp_string p)) by (unfold string_rel in Hs; rewrite Es in Hs; destruct (sp_string p); [by eexists|done]).
    assert (Hread : reading Number start s p (sp_escape p)) by by split.
    destruct (readString_sim Number start [] (char :: t) s p _ Hread ltac:(done)) as (s1 & rest & consumed & -> & Et & H1 & Ho1 & _ & Hne).
    cbn [mbind option_bind sp_flush] in *. assert (Hlen : length rest <= length t).
    { apply (f_equal length) in Et. rewrite length_app in Et. cbn in Et. destruct consumed; [by destruct Hne|]. cbn in Et. lia. }
    destruct (IH rest s1 (sp_read consumed p) H1) as (s2 & E2 & H2 & Ho2); [by apply ok_read| |].
    { rewrite bool_decide_true in Hfuel; [cbn in Hfuel; lia|]. rewrite (rel_scalar _ _ _ H). by apply (ok_string _ Hokp). }
    exists s2. split; [done|]. split; [|by eapply onward_trans]. by rewrite Et, read_app.
  - pose proof (string_none _ _ Hs Es) as Eps. destruct (p_scalar s) as [|u token] eqn:Esc.
    + assert (Esc' : sp_scalar p = []) by by rewrite <- (rel_scalar _ _ _ H).
      destruct (structural_sim start s p char Hsim Es) as (s1 & E1 & H1 & Ho1).
      { rewrite (rel_slot _ _ _ H). by apply (ok_scalar _ Hokp). }
      { intros Hst. destruct (sp_root p) eqn:Er; [|done]. destruct (ok_root _ Hokp Hst) as [?|[? ?]]; [by rewrite Er|congruence|congruence]. }
      rewrite E1. cbn [mbind option_bind]. destruct (IH t s1 (sp_structural char p) H1) as (s2 & E2 & H2 & Ho2);
        [by apply ok_structural|cbn in Hfuel; destruct (bool_decide (p_scalar s1 = [])); lia|].
      exists s2. split; [done|]. split; [|by eapply onward_trans].
      unfold StreamSpec.sp_read in *. cbn [fold_left]. unfold StreamSpec.sp_step at 2. by rewrite Hd, Eps, Esc'.
    + destruct (readScalar_sim start s p (char :: t) Hsim Hokp Es Hd) as (s1 & rest & q & -> & H1 & Eread & Hok1 & Ho1 & Hlen & Hsc1).
      { rewrite <- (rel_scalar _ _ _ H), Esc. done. }
      cbn [mbind option_bind]. rewrite bool_decide_false in Hfuel by done.
      destruct rest as [|v rest].
      * exists s1. split; [by destruct fuel|]. rewrite Eread. done.
      * destruct (IH (v :: rest) s1 q H1 Hok1) as (s2 & E2 & H2 & Ho2).
        { rewrite bool_decide_true by by apply Hsc1. cbn in *. lia. }
        exists s2. split; [done|]. rewrite Eread. split; [done|by eapply onward_trans].
Qed.

(** A piece: from what was reported, its changes make what is reported. *)
Lemma append_sim_piece start s p t :
  sim start s p -> sp_ok p ->
  exists s', append Number t s = Some s' /\ sim (reported p) s' (sp_read t p) /\ sp_ok (sp_read t p) /\ later s s' /\
    p_credit s' = (p_credit s + 256 + 8 * Z.of_nat (length t))%Z.
Proof.
  intros (H & Hs & Hc & Hn) Hok. unfold append. set (s0 := with_string _ _).
  assert (H0 : sim (reported p) s0 p).
  { split; [|split; [|split]].
    - pose proof H as [Hf Hnd Hd Hsc Hslot Hso Hcost Hcr Hsnap]. split; try done. cbn. unfold CREDIT_PER_APPEND, CREDIT_PER_CHARACTER. lia.
    - unfold string_rel in *. cbn. destruct (p_string s), (sp_string p); done.
    - exists []. split; [constructor|done].
    - intros o i E. cbn in E. destruct (p_string s) as [o'|]; [|done]. by injection E as <-. }
  destruct (append_loop_sim (reported p) (2 * length t) t s0 p H0 Hok) as (s' & E & H' & [Hl Hcr]); [lia|].
  exists s'. split; [exact E|]. split; [done|]. split; [by apply ok_read|]. split; [exact Hl|]. rewrite Hcr.
  cbn. unfold CREDIT_PER_APPEND, CREDIT_PER_CHARACTER. lia.
Qed.
End Append.

Section Snapshot.
Context {Num : Type} (Number : text -> Num).
Implicit Types (h : heap Num) (s : Parser Num) (p : Spec Num) (f : Frame) (st : list Frame) (c : Container Num).

Abbreviation rel := (rel Number).
Abbreviation sim := (sim Number).

(** ** Copies *)

(** What containers cost: themselves and their entries. *)
Definition cells (cs : list (Container Num)) : Z := foldr (fun c n => Z.of_nat (container_size c) + 1 + n)%Z 0%Z cs.

Lemma cells_cons c cs : cells (c :: cs) = (Z.of_nat (container_size c) + 1 + cells cs)%Z.
Proof. done. Qed.

Lemma cost_cons f st : stack_cost (f :: st) = (Z.of_nat (f_size f) + 1 + stack_cost st)%Z.
Proof. done. Qed.

Lemma cells_app cs cs' : cells (cs ++ cs') = (cells cs + cells cs')%Z.
Proof. unfold cells. induction cs as [|c cs IH]; cbn; [done|]. lia. Qed.

Lemma set_opt_denotes h open t c slot l tv v :
  container_denotes h open t c -> denotes h open tv v ->
  match slot with Some slot => slot_fits c slot /\ slot_grows c slot = false | None => True end ->
  let c2 := match slot with Some slot => setSlot (fill (Some (l, Some slot)) c) slot v | None => c end in
  container_denotes h open (tree_set_opt slot tv t) c2 /\ container_size c2 = container_size c.
Proof.
  intros Hc Hv Hf. destruct slot as [slot|]; [|done]. destruct Hf as [Hf Hg]. cbn. rewrite setSlot_set by done.
  split; [by apply container_set|]. rewrite setSlot_size, Hg by done. lia.
Qed.

(** The open containers around a child, copied. *)
Lemma copy_outer h open root sroot l slot st ps cs tv v :
  frames_rel h open root sroot (Some (l, slot)) st ps -> Forall (fun l => l < length h) open -> denotes (h ++ cs) open tv v ->
  exists cs' v' T, copy_frames None (Some (v, slot)) st (h ++ cs) = Some (h ++ cs ++ cs', Some (v', Some SRoot)) /\
    plug ps tv slot sroot = Some T /\ denotes (h ++ cs ++ cs') open T v' /\ cells cs' = stack_cost st.
Proof.
  revert l slot ps cs tv v. induction st as [|f st IH]; intros l slot [|pf ps] cs tv v Hf Ho Hv; try done.
  - destruct Hf as (-> & _). exists [], v, tv. by rewrite app_nil_r.
  - destruct Hf as (((c & Hd & Hc & Hsz & Hfit) & Hs & _) & _ & Hr).
    assert (Hc' : (h ++ cs) !! f_container f = Some (fill (Some (l, slot)) c)) by by apply lookup_app_l_Some.
    pose proof (container_evolves _ _ _ _ _ _ (extend_evolves h open cs) Hd) as Hd'.
    destruct (set_opt_denotes (h ++ cs) open _ c slot l tv v Hd' Hv) as [H2 Hsize]; [by destruct slot|].
    set (c2 := match slot with Some slot => setSlot (fill (Some (l, Some slot)) c) slot v | None => c end) in *.
    assert (Hv2 : denotes (h ++ cs ++ [c2]) open (tree_set_opt slot tv (sf_tree pf)) (VRef (length (h ++ cs)))).
    { rewrite app_assoc. apply (denotes_container _ _ _ c2).
      - intros Hin. rewrite Forall_forall in Ho. specialize (Ho _ Hin). rewrite length_app in Ho. lia.
      - by rewrite lookup_app_r, Nat.sub_diag.
      - eapply container_evolves; [apply extend_evolves|done]. }
    destruct (IH _ _ _ (cs ++ [c2]) _ _ Hr Ho Hv2) as (cs' & v' & T & E & HT & HD & Hcost).
    exists (c2 :: cs'), v', T. cbn [copy_frames]. rewrite Hc'. cbn [mbind option_bind].
    assert (Ec2 : match slot with Some slot0 => setSlot (fill (Some (l, slot)) c) slot0 v | None => fill (Some (l, slot)) c end = c2) by by destruct slot.
    rewrite Ec2. rewrite <- (app_assoc h). rewrite <- !app_assoc in *. cbn [app] in *. rewrite Hs in *. split; [exact E|]. split; [exact HT|]. split; [exact HD|].
    rewrite cells_cons, cost_cons. lia.
Qed.

Lemma pending_rel s p :
  rel s p -> match pendingScalar Number s with
  | Some (slot, v) => sp_pending Number p = Some (slot, scalar_tree v) /\ sp_slot p = Some slot /\ forall h o, denotes h o (scalar_tree v) v
  | None => sp_pending Number p = None
  end.
Proof.
  intros H. unfold pendingScalar, sp_pending. rewrite (rel_slot _ _ _ H), (rel_scalar _ _ _ H). destruct (sp_slot p) as [slot|]; [|done].
  destruct (_ || _); [done|]. destruct (pendingScalarValue Number (sp_scalar p)) as [v|] eqn:E; [|done]. cbn. split; [done|]. split; [done|].
  intros h o. revert E. unfold pendingScalarValue. destruct (find_literal _) as [w|] eqn:El; [intros [= ->]; by eapply literal_denotes|].
  destruct (is_number _); [intros [= <-]; constructor|]. destruct (number_mantissa _); [|done]. intros [= <-]. constructor.
Qed.

(** A copy stands for the value of the text, and costs what the path does. *)
Lemma copy_rel s p :
  rel s p ->
  exists cs v, copyOpenPath (pendingScalar Number s) s = Some (with_heap (p_heap s ++ cs) s, v) /\
    opt_denotes (p_heap s ++ cs) (locs (p_stack s)) (pending_value Number p) v /\
    (cells cs <= p_pathCost s + match pendingScalar Number s with Some _ => 1 | None => 0 end)%Z.
Proof.
  intros H. pose proof (pending_rel s p H) as Hp. pose proof (rel_slot_ok _ _ _ H) as Hok. rewrite (rel_slot _ _ _ H) in Hok.
  rewrite (rel_cost _ _ _ H). unfold copyOpenPath, pending_value. destruct (p_stack s) as [|f st] eqn:Hst.
  - pose proof (rel_empty _ _ _ H Hst) as Eps. pose proof (rel_frames _ _ _ H) as Hf. rewrite Hst, Eps in Hf. cbn in Hf.
    exists [], (match pendingScalar Number s with Some (SRoot, v) => Some v | _ => p_root s end).
    rewrite app_nil_r. split; [by destruct s|]. destruct (pendingScalar Number s) as [[slot v]|].
    + destruct Hp as (-> & Esl & Hv). rewrite Esl in Hok. destruct slot; [|done|done]. unfold shown. cbn. rewrite Eps. cbn. split; [apply Hv|lia].
    + rewrite Hp. unfold shown. rewrite Eps. split; [exact Hf|cbn; lia].
  - destruct (rel_top _ _ _ _ _ H Hst) as (pf & ps & Hps & Hs & _ & _ & Hfr & _). pose proof (rel_frames _ _ _ H) as Hf.
    pose proof (frames_alive _ _ _ _ _ _ _ Hf) as Ha. rewrite Hst, Hps in *. destruct Hf as (((c & Hd & Hc & Hsz & _) & _) & _). cbn in Hc.
    set (open := locs (f :: st)) in *.
    assert (Htop : exists c2, (match pendingScalar Number s with Some (slot, v) => setSlot c slot v | None => c end) = c2 /\
      container_denotes (p_heap s) open (match sp_pending Number p with Some (slot, t) => tree_set (sf_tree pf) slot t | None => sf_tree pf end) c2 /\
      (Z.of_nat (container_size c2) <= Z.of_nat (f_size f) + match pendingScalar Number s with Some _ => 1 | None => 0 end)%Z).
    { eexists. split; [reflexivity|]. destruct (pendingScalar Number s) as [[slot v]|].
      - destruct Hp as (-> & Esl & Hv). split; [by apply container_set|]. rewrite Esl in Hok.
        assert (Hfit : slot_fits c slot) by (destruct slot; [done| |]; destruct Hok as (c' & Hc' & ?); by replace c with c' by congruence).
        rewrite setSlot_size, Hsz by done. destruct (slot_grows c slot); lia.
      - rewrite Hp. split; [done|]. lia. }
    destruct Htop as (c2 & Ec2 & Hd2 & Hsz2).
    set (t2 := match sp_pending Number p with Some (slot, t) => tree_set (sf_tree pf) slot t | None => sf_tree pf end) in *.
    assert (Hv2 : denotes (p_heap s ++ [c2]) open t2 (VRef (length (p_heap s)))).
    { apply (denotes_container _ _ _ c2).
      - intros Hin. rewrite Forall_forall in Ha. specialize (Ha _ Hin). lia.
      - by rewrite lookup_app_r, Nat.sub_diag.
      - eapply container_evolves; [apply extend_evolves|done]. }
    destruct (copy_outer _ _ _ _ _ _ _ _ [c2] _ _ Hfr Ha Hv2) as (cs' & v' & T & E & HT & HD & Hcost).
    exists (c2 :: cs'), (Some v'). cbn [copy_frames]. rewrite Hc. cbn [mbind option_bind]. rewrite Ec2, E. cbn [mbind option_bind app].
    split; [done|]. split; [|rewrite cells_cons, cost_cons; lia]. cbn [app] in HD. rewrite Hs in HT.
    assert (Hshown : match sp_pending Number p with Some (slot, t) => shown (sp_place (Some slot) t p) | None => shown p end = Some T); [|by rewrite Hshown].
    rewrite <- HT. unfold t2. destruct (pendingScalar Number s) as [[slot v]|].
    + destruct Hp as (-> & Esl & _). rewrite Esl in Hok. unfold shown, sp_place. destruct slot; [done| |]; rewrite Hps; cbn; by rewrite Hps || done.
    + rewrite Hp. unfold shown. by rewrite Hps.
Qed.

(** ** Taking a snapshot *)

Lemma string_extend s s' p cs :
  string_rel s p -> p_heap s' = p_heap s ++ cs -> p_stack s' = p_stack s -> p_string s' = p_string s -> string_rel s' p.
Proof.
  unfold string_rel. intros H E1 E2 E3. rewrite E3. destruct (p_string s) as [o|], (sp_string p) as [so|]; try done.
  destruct H as (A1 & A2 & A3 & A4 & A5 & A6 & A7). rewrite E1, E2. split_and!; try done; try apply A7. by apply slot_ok_extend.
Qed.

(** A snapshot is affordable when the credit pays for the open path. *)
Definition snapshot_cost s : Z := (p_pathCost s + match pendingScalar Number s with Some _ => 1 | None => 0 end)%Z.
Definition affordable s : bool := (snapshot_cost s <=? p_credit s)%Z.

Lemma snapshot_sim start s p :
  sim start s p ->
  exists s' v cs, snapshot Number s = Some (s', v) /\ sim start s' p /\ p_snapshot s' = v /\ p_heap s' = p_heap s ++ cs /\ p_stack s' = p_stack s /\
    (p_dirty s && affordable s = true -> opt_denotes (p_heap s') (locs (p_stack s')) (pending_value Number p) v) /\
    (p_dirty s && affordable s = false -> v = p_snapshot s) /\
    (cells cs <= p_credit s - p_credit s')%Z.
Proof.
  intros Hsim. pose proof Hsim as (H & Hs & Hc & Hn). unfold snapshot. destruct (p_dirty s) eqn:Hd; cbn [negb andb].
  2: { exists s, (p_snapshot s), []. rewrite app_nil_r. split_and!; try done. cbn. lia. }
  fold (snapshot_cost s). unfold affordable. destruct (Z.ltb_spec (p_credit s) (snapshot_cost s)) as [Hlt|Hge].
  { exists s, (p_snapshot s), []. rewrite app_nil_r, (proj2 (Z.leb_gt _ _) Hlt). split_and!; try done. cbn. lia. }
  rewrite (proj2 (Z.leb_le _ _) Hge). set (s1 := with_dirty false (with_credit (p_credit s - snapshot_cost s) s)).
  destruct (copy_rel s p H) as (cs & v & E & Hden & Hcells).
  assert (E1 : copyOpenPath (pendingScalar Number s) s1 = Some (with_heap (p_heap s ++ cs) s1, v)).
  { revert E. unfold copyOpenPath. change (p_stack s1) with (p_stack s). change (p_heap s1) with (p_heap s). change (p_root s1) with (p_root s).
    destruct (p_stack s) as [|f st].
    - intros [= Eh Ev]. apply (f_equal p_heap) in Eh. cbn in Eh. rewrite <- Eh, Ev. done.
    - destruct (copy_frames _ _ _ _) as [[h child]|]; [|done]. cbn. intros [= Eh Ev]. by rewrite Eh, Ev. }
  rewrite E1. cbn [mbind option_bind]. eexists _, v, cs. split; [reflexivity|].
  destruct (rel_extend Number s p cs H) as [[Hf Hnd Hdn Hsc Hslot Hso Hcost Hcr _] Hl].
  split; [|split_and!; try done; cbn; unfold snapshot_cost; lia].
  split; [|split; [|split]].
  - split; try done; [cbn; lia|]. exists (sp_drops p), (pending_value Number p). split_and!; done.
  - by eapply string_extend.
  - by eapply (changed_later start s p).
  - exact Hn.
Qed.
End Snapshot.
