(* ===== verification/StreamGrammar.v ===== *)
(** The JSON grammar, and the machine on its texts: it reads every JSON text as its value. *)
From S2P Require Import Prelude EditText StreamValue StreamParser StreamSpec StreamRel StreamRefine StreamInvariant.

(** ** JSON texts *)

Definition is_space (u : N) : bool := bool_decide (u ∈ [32; 9; 10; 13]%N).
Definition space (w : text) : Prop := Forall (fun u => is_space u = true) w.

(** The characters between the quotes of a string. *)
Inductive string_text : text -> text -> Prop :=
| str_nil : string_text [] []
| str_plain u body t :
    (32 <=? u)%N = true -> (u =? QUOTE)%N = false -> (u =? BACKSLASH)%N = false -> string_text body t -> string_text (u :: body) (u :: t)
| str_escape e d body t : simple_escape e = Some d -> string_text body t -> string_text (BACKSLASH :: e :: body) (d :: t)
| str_unicode a b c d body t :
    isHexDigit a = true -> isHexDigit b = true -> isHexDigit c = true -> isHexDigit d = true -> string_text body t ->
    string_text (BACKSLASH :: 117%N :: a :: b :: c :: d :: body) (parse_hex [a; b; c; d] :: t).

Section Grammar.
Context {Num : Type} (Number : text -> Num).

(** The members in their order; of two with one key the last counts, in the place of the first. *)
Definition object_of (ms : list (text * tree Num)) : tree Num := TObj (fold_left (fun acc m => setMember m.1 m.2 acc) ms []).

(** The texts of a value; of elements and of members with the commas between them. *)
Inductive json_text : text -> tree Num -> Prop :=
| json_null : json_text [110; 117; 108; 108]%N TNull
| json_true : json_text [116; 114; 117; 101]%N (TBool true)
| json_false : json_text [102; 97; 108; 115; 101]%N (TBool false)
| json_number token : is_number token = true -> json_text token (TNum (Number token))
| json_string body t : string_text body t -> json_text (QUOTE :: body ++ [QUOTE]) (TStr t)
| json_empty_array w : space w -> json_text (91%N :: w ++ [93%N]) (TArr [])
| json_array b ts : elements_text b ts -> json_text (91%N :: b ++ [93%N]) (TArr ts)
| json_empty_object w : space w -> json_text (123%N :: w ++ [125%N]) (TObj [])
| json_object b ms : members_text b ms -> json_text (123%N :: b ++ [125%N]) (object_of ms)
with elements_text : text -> list (tree Num) -> Prop :=
| elements_one w v t w' : space w -> json_text v t -> space w' -> elements_text (w ++ v ++ w') [t]
| elements_more w v t w' b ts :
    space w -> json_text v t -> space w' -> elements_text b ts -> elements_text (w ++ v ++ w' ++ 44%N :: b) (t :: ts)
with members_text : text -> list (text * tree Num) -> Prop :=
| members_one w body k w1 w2 v t w' :
    space w -> string_text body k -> space w1 -> space w2 -> json_text v t -> space w' ->
    members_text (w ++ QUOTE :: body ++ QUOTE :: w1 ++ 58%N :: w2 ++ v ++ w') [(k, t)]
| members_more w body k w1 w2 v t w' b ms :
    space w -> string_text body k -> space w1 -> space w2 -> json_text v t -> space w' -> members_text b ms ->
    members_text (w ++ QUOTE :: body ++ QUOTE :: w1 ++ 58%N :: w2 ++ v ++ w' ++ 44%N :: b) ((k, t) :: ms).

Scheme json_text_mut := Minimality for json_text Sort Prop
with elements_text_mut := Minimality for elements_text Sort Prop
with members_text_mut := Minimality for members_text Sort Prop.
Combined Scheme json_mutind from json_text_mut, elements_text_mut, members_text_mut.

Implicit Types (p q : Spec Num) (pf : SpecFrame Num).

Abbreviation sp_read := (sp_read Number).
Abbreviation sp_step := (sp_step Number).

(** ** States between values *)

(** Nothing is being read. *)
Record idle p : Prop := {
  idle_done : sp_done p = false;
  idle_string : sp_string p = None;
  idle_scalar : sp_scalar p = [];
  idle_slot : sp_slot p = None;
}.

Lemma idle_step p u : idle p -> sp_step u p = sp_structural u p.
Proof. intros [H1 H2 H3 H4]. unfold StreamSpec.sp_step. by rewrite H1, H2, H3. Qed.

Lemma read_cons u t p : sp_read (u :: t) p = sp_read t (sp_step u p).
Proof. done. Qed.

Lemma idle_space p w t : idle p -> space w -> sp_read (w ++ t) p = sp_read t p.
Proof.
  intros Hp Hw. induction Hw as [|u w Hu _ IH]; [done|]. cbn [app]. rewrite read_cons, (idle_step _ _ Hp).
  unfold sp_structural. unfold is_space in Hu. by rewrite Hu.
Qed.

(** The innermost container of a state. *)
Lemma valueSlot_fits p sl pf ps : sp_valueSlot p = Some sl -> sp_stack p = pf :: ps -> tree_is_array (sf_tree pf) = true \/ (exists ms, sf_tree pf = TObj ms) ->
  tree_fits (sf_tree pf) sl /\ sl <> SRoot.
Proof.
  unfold sp_valueSlot. intros Hv E Hk. rewrite E in Hv. destruct Hk as [Ha|[ms Em]].
  - destruct (sf_tree pf); try done. injection Hv as <-. cbn. split; [lia|done].
  - rewrite Em in *. destruct (sf_phase pf), (sf_key pf); try done; by injection Hv as <-.
Qed.

(** A value goes into a container, or to the root. *)
Definition takes p (slot : Slot) : Prop :=
  match sp_stack p with [] => slot = SRoot | pf :: _ => tree_fits (sf_tree pf) slot end.

Lemma takes_root p pf ps slot : sp_stack p = pf :: ps -> takes p slot -> slot <> SRoot.
Proof. unfold takes. intros -> H ->. by destruct (sf_tree pf). Qed.

Lemma place_twice p slot (t u : tree Num) : takes p slot -> sp_place (Some slot) t (sp_place (Some slot) u p) = sp_place (Some slot) t p.
Proof.
  unfold takes. destruct (sp_stack p) as [|pf ps] eqn:E; [by intros ->|]. intros Hf.
  destruct slot; [by destruct (sf_tree pf)| |]; cbn; rewrite E; cbn; unfold sp_set_top, sp_with_stack, sf_with_tree; cbn; by rewrite tree_set_set.
Qed.

(** ** Strings *)

(** In the middle of a string, with its text and escape so far. *)
Definition in_string p (target : Target) (slot : option Slot) (t escape : text) : Spec Num :=
  let p' := sp_with_string (Some {| ss_target := target; ss_slot := slot; ss_text := t; ss_escape := escape |}) p in
  match target with ForKey => p' | ForValue => sp_place slot (TStr t) p' end.

Definition string_takes p (target : Target) (slot : option Slot) : Prop :=
  match target with ForKey => True | ForValue => exists sl, slot = Some sl /\ takes p sl end.

Lemma in_string_string p target slot t e :
  sp_string (in_string p target slot t e) = Some {| ss_target := target; ss_slot := slot; ss_text := t; ss_escape := e |}.
Proof. destruct target; [done|]. cbn. by rewrite place_string. Qed.

Lemma in_string_done p target slot t e : sp_done (in_string p target slot t e) = sp_done p.
Proof. destruct target; [done|]. cbn. by rewrite place_done. Qed.

Lemma with_string_place o slot t p : sp_with_string o (sp_place slot t p) = sp_place slot t (sp_with_string o p).
Proof. destruct slot as [[| |]|]; cbn; try done; by destruct (sp_stack p). Qed.

Lemma in_string_append p target slot t e u :
  string_takes p target slot -> sp_append u (in_string p target slot t e) = in_string p target slot (t ++ u) e.
Proof.
  intros Ht. unfold sp_append. rewrite in_string_string. cbn [ss_target]. destruct target; [done|].
  destruct Ht as (sl & -> & Ht). unfold in_string. rewrite with_string_place. cbn [ss_slot ss_text].
  by rewrite place_twice.
Qed.

Lemma in_string_escape p target slot t e e' : sp_set_escape e' (in_string p target slot t e) = in_string p target slot t e'.
Proof.
  unfold sp_set_escape. rewrite in_string_string. destruct target; [done|]. unfold in_string. by rewrite with_string_place.
Qed.

Lemma string_read_step p target slot t e u :
  sp_done p = false -> sp_step u (in_string p target slot t e) = sp_string_step u (in_string p target slot t e).
Proof. intros Hd. unfold StreamSpec.sp_step. by rewrite in_string_done, Hd, in_string_string. Qed.

Lemma in_string_esc p target slot t e : sp_escape (in_string p target slot t e) = e.
Proof. unfold sp_escape. by rewrite in_string_string. Qed.

Lemma escape_start p target slot t :
  sp_done p = false -> sp_step BACKSLASH (in_string p target slot t []) = in_string p target slot t [BACKSLASH].
Proof. intros Hd. rewrite string_read_step by done. unfold sp_string_step. rewrite in_string_esc. unfold sp_char.
  change (BACKSLASH =? QUOTE)%N with false. change (BACKSLASH =? BACKSLASH)%N with true. apply in_string_escape. Qed.

Lemma hex_step p target slot t e u :
  sp_done p = false -> e <> [BACKSLASH] -> e <> [] -> isHexDigit u = true ->
  sp_step u (in_string p target slot t e) =
  if length (e ++ [u]) <? 6 then in_string p target slot t (e ++ [u])
  else sp_append [parse_hex (drop 2 (e ++ [u]))] (in_string p target slot t []).
Proof.
  intros Hd H1 H2 Hu. rewrite string_read_step by done. unfold sp_string_step. rewrite in_string_esc. destruct e as [|e0 e]; [done|].
  unfold sp_escape_step. rewrite bool_decide_false, Hu by done. rewrite !in_string_escape. by destruct (length ((e0 :: e) ++ [u]) <? 6).
Qed.

Lemma string_read p target slot body t acc rest :
  sp_done p = false -> string_takes p target slot -> string_text body t ->
  sp_read (body ++ rest) (in_string p target slot acc []) = sp_read rest (in_string p target slot (acc ++ t) []).
Proof.
  intros Hd Ht Hb. revert acc. induction Hb as [|u body t _ Hq Hbs _ IH|e d body t He _ IH|a b c d body t Ha Hb Hc Hdd _ IH]; intros acc.
  - by rewrite app_nil_r.
  - cbn [app]. rewrite read_cons, string_read_step by done. unfold sp_string_step. rewrite in_string_esc. unfold sp_char. rewrite Hq, Hbs.
    rewrite in_string_append by done. by rewrite IH, <- app_assoc.
  - cbn [app]. rewrite !read_cons, escape_start, string_read_step by done. unfold sp_string_step. rewrite in_string_esc.
    unfold sp_escape_step. rewrite bool_decide_true by done. rewrite He, in_string_escape, in_string_append by done. by rewrite IH, <- app_assoc.
  - cbn [app]. rewrite !read_cons, escape_start by done.
    assert (Eu : sp_step 117 (in_string p target slot acc [BACKSLASH]) = in_string p target slot acc [BACKSLASH; 117%N]).
    { rewrite string_read_step by done. unfold sp_string_step. rewrite in_string_esc. unfold sp_escape_step.
      rewrite bool_decide_true by done. change (simple_escape 117) with (@None N). change (117 =? 117)%N with true. cbv iota. by rewrite in_string_escape. }
    rewrite Eu. rewrite (hex_step _ _ _ _ _ a) by done. cbn [length app Nat.ltb Nat.leb]. rewrite (hex_step _ _ _ _ _ b) by done.
    cbn [length app Nat.ltb Nat.leb]. rewrite (hex_step _ _ _ _ _ c) by done. cbn [length app Nat.ltb Nat.leb].
    rewrite (hex_step _ _ _ _ _ d) by done. cbn [length app Nat.ltb Nat.leb drop]. rewrite in_string_append by done. by rewrite IH, <- app_assoc.
Qed.

(** The closing quote. *)
Lemma string_end p target slot t rest :
  sp_done p = false ->
  sp_read (QUOTE :: rest) (in_string p target slot t []) = sp_read rest (sp_endString (in_string p target slot t [])).
Proof. intros Hd. rewrite read_cons, string_read_step by done. unfold sp_string_step. by rewrite in_string_esc. Qed.

(** ** Numbers *)

Definition num_char (u : N) : bool := is_digit u || bool_decide (u ∈ [45; 46; 43; 101; 69]%N).
Definition num_text (t : text) : Prop := Forall (fun u => num_char u = true) t.

Lemma digit_char u : is_digit u = true -> num_char u = true.
Proof. unfold num_char. by intros ->. Qed.

Lemma skip_digits_text t : num_text (skip_digits t) -> num_text t.
Proof.
  induction t as [|u t IH]; [done|]. cbn. destruct (is_digit u) eqn:E; [|done]. intros H. constructor; [by apply digit_char|by apply IH].
Qed.

Lemma num_cons u t : num_char u = true -> num_text t -> num_text (u :: t).
Proof. intros; by constructor. Qed.

Lemma skip_integer_text t rest : skip_integer t = Some rest -> num_text rest -> num_text t /\ t <> [].
Proof.
  assert (Hint : forall t', match t' with 48%N :: r => Some r | u :: r => if is_digit u then Some (skip_digits r) else None | [] => None end = Some rest ->
    num_text rest -> num_text t' /\ t' <> []).
  { intros [|u r] H Hr; [done|]. split; [|done]. destruct (decide (u = 48%N)) as [->|Hne].
    - injection H as ->. by apply num_cons.
    - assert (H' : (if is_digit u then Some (skip_digits r) else None) = Some rest).
      { revert H. clear -Hne. destruct u as [|u]; [done|]; do 6 (destruct u as [u|u|]; try done). }
      destruct (is_digit u) eqn:E; [|done]. injection H' as <-. apply num_cons; [by apply digit_char|by apply skip_digits_text]. }
  unfold skip_integer. destruct t as [|u t]; [done|]. destruct (decide (u = 45%N)) as [->|Hne].
  - intros H Hr. destruct (Hint t H Hr). split; [by apply num_cons|done].
  - intros H. apply Hint. revert H. clear -Hne. destruct u as [|u]; [done|]; do 6 (destruct u as [u|u|]; try done).
Qed.
(** A prefix that holds only such characters. *)
Lemma skip_fraction_text t : num_text (skip_fraction t) -> num_text t.
Proof.
  unfold skip_fraction. destruct t as [|u [|d r]]; [done| |].
  - destruct (decide (u = 46%N)) as [->|Hne]; [done|]. destruct u as [|u]; [done|]; do 6 (destruct u as [u|u|]; try done).
  - destruct (decide (u = 46%N)) as [->|Hne].
    + destruct (is_digit d) eqn:E; [|done]. intros H. apply num_cons; [done|]. apply num_cons; [by apply digit_char|by apply skip_digits_text].
    + destruct u as [|u]; [done|]; do 6 (destruct u as [u|u|]; try done).
Qed.

Lemma number_text token : is_number token = true -> num_text token /\ token <> [].
Proof.
  unfold is_number. destruct (skip_integer token) as [rest|] eqn:Ei; [|done]. intros H. apply (skip_integer_text _ _ Ei).
  apply skip_fraction_text. destruct (skip_fraction rest) as [|e t]; [constructor|]. unfold skip_exponent in H.
  destruct ((e =? 101) || (e =? 69))%N eqn:Ee; [|done].
  assert (He : num_char e = true) by (apply orb_true_iff in Ee as [->%N.eqb_eq| ->%N.eqb_eq]; done). apply num_cons; [done|].
  assert (Hd : forall l, match l with u :: ds => is_digit u && (length (skip_digits ds) =? 0) | [] => false end = true -> num_text l).
  { intros [|u ds] Hl; [done|]. apply andb_true_iff in Hl as [Hu Hl]. apply num_cons; [by apply digit_char|].
    apply skip_digits_text. apply Nat.eqb_eq, nil_length_inv in Hl. rewrite Hl. constructor. }
  destruct t as [|s t]; [constructor|]. destruct ((s =? 43) || (s =? 45))%N eqn:Es; [|by apply Hd].
  apply num_cons; [by apply orb_true_iff in Es as [->%N.eqb_eq| ->%N.eqb_eq]|]. apply Hd. by destruct t.
Qed.

Lemma num_char_plain u : num_char u = true -> isDelimiter u = false.
Proof.
  unfold num_char, isDelimiter. intros H. apply bool_decide_eq_false. intros Hin. repeat (apply elem_of_cons in Hin as [->|Hin]; [done|]). by apply elem_of_nil in Hin.
Qed.

Lemma num_char_start token l : num_text token -> token <> [] -> In l [[116; 114; 117; 101]; [102; 97; 108; 115; 101]; [110; 117; 108; 108]]%N -> starts_with token l = false.
Proof.
  intros Ht Hne Hl. destruct token as [|u token]; [done|]. pose proof (Forall_inv Ht) as Hu. cbn in Hu.
  destruct Hl as [<-|[<-|[<-|[]]]]; unfold starts_with; apply andb_false_iff; left; apply N.eqb_neq; intros ->; done.
Qed.
End Grammar.
