(* ===== verification/StreamReading.v ===== *)
(** The machine reads every JSON text as its value, wherever a value may stand. *)
From S2P Require Import Prelude EditText StreamValue StreamParser StreamSpec StreamRel StreamRefine StreamInvariant StreamAppend StreamGrammar.

Section Reading.
Context {Num : Type} (Number : text -> Num).
Implicit Types (p q : Spec Num) (f : SpecFrame Num) (ps : list (SpecFrame Num)).

Abbreviation sp_read := (sp_read Number).
Abbreviation sp_step := (sp_step Number).
Abbreviation json_text := (json_text Number).
Abbreviation elements_text := (elements_text Number).
Abbreviation members_text := (members_text Number).

(** ** Idle states *)

Lemma idle_place slot (t : tree Num) p : idle p -> idle (sp_place slot t p).
Proof. intros [H1 H2 H3 H4]. split; by rewrite ?place_done, ?place_string, ?place_scalar, ?place_slot. Qed.

Lemma idle_stack ps p : idle p -> idle (sp_with_stack ps p).
Proof. intros [H1 H2 H3 H4]. by split. Qed.

Lemma idle_top f p : idle p -> idle (sp_set_top f p).
Proof. apply idle_stack. Qed.

Lemma idle_open array p : idle p -> idle (sp_openContainer array p).
Proof. intros H. by apply idle_stack, idle_place. Qed.

Lemma idle_ended p f ps : idle p -> sp_stack p = f :: ps -> idle (sp_valueEnded p).
Proof. intros H E. unfold sp_valueEnded. rewrite E. by apply idle_top. Qed.

Lemma idle_scalar_eta p slot token : idle p -> sp_with_scalar [] None (sp_with_scalar token slot p) = p.
Proof. intros [H1 H2 H3 H4]. destruct p. cbn in *. by subst. Qed.

Lemma idle_string_eta p o : idle p -> sp_with_string None (sp_with_string o p) = p.
Proof. intros [H1 H2 H3 H4]. destruct p. cbn in *. by subst. Qed.

(** ** Scalars *)

Definition is_scalar (t : tree Num) : bool := match t with TNull | TBool _ | TNum _ => true | _ => false end.

Definition delimited (rest : text) : Prop := exists u r, rest = u :: r /\ isDelimiter u = true.

Lemma delimited_space w rest : space w -> delimited rest -> delimited (w ++ rest).
Proof.
  intros Hw Hr. destruct Hw as [|u w Hu _]; [done|]. exists u, (w ++ rest). split; [done|]. revert Hu. unfold is_space, isDelimiter.
  intros Hin%bool_decide_eq_true. apply bool_decide_eq_true. set_solver.
Qed.

(** A character of a number or a word, where a value may start. *)
Lemma start_scalar u p : isDelimiter u = false -> sp_structural u p = sp_with_scalar [u] (sp_valueSlot p) p.
Proof.
  unfold isDelimiter. intros Hn%bool_decide_eq_false. rewrite !not_elem_of_cons in Hn. destruct_and! Hn. unfold sp_structural.
  rewrite bool_decide_false by (rewrite !not_elem_of_cons; split_and!; try done; apply not_elem_of_nil).
  repeat match goal with |- context [(u =? ?n)%N] => destruct (N.eqb_spec u n); [done|] end. cbn.
  repeat match goal with |- context [(u =? ?n)%N] => destruct (N.eqb_spec u n); [done|] end. done.
Qed.

(** The token of a scalar. *)
Record scalar_token (token : text) (v : value Num) : Prop := {
  token_plain : Forall (fun u => isDelimiter u = false) token;
  token_some : token <> [];
  token_value : scalarValue Number token = Some v;
  token_pending : pendingScalarValue Number token = Some v;
}.

Lemma number_token token : is_number token = true -> scalar_token token (VNum (Number token)).
Proof.
  intros H. destruct (number_text token H) as [Ht Hne]. split; [|done| |].
  - eapply Forall_impl; [exact Ht|]. intros u. apply num_char_plain.
  - unfold scalarValue, find_literal, LITERALS. cbn [filter_cons]. rewrite !filter_cons, filter_nil.
    repeat (rewrite decide_False; [|intros E%bool_decide_eq_true; subst token; by cbn in H]). cbn. by rewrite H.
  - unfold pendingScalarValue, find_literal, LITERALS. rewrite !filter_cons, filter_nil.
    repeat (rewrite decide_False; [|cbn [fst]; rewrite num_char_start by (done || cbn; tauto); done]). cbn. by rewrite H.
Qed.

Lemma read_token p slot token v rest :
  idle p -> sp_valueSlot p = Some slot -> scalar_token token v -> delimited rest ->
  sp_read (token ++ rest) p = sp_read rest (sp_valueEnded (sp_place (Some slot) (scalar_tree v) p)).
Proof.
  intros Hp Hs [Hpl Hne Hv _] (u & r & -> & Hu). destruct token as [|a token]; [done|]. inversion Hpl as [|? ? Ha Hpl']; subst.
  cbn [app]. rewrite read_cons, (idle_step _ _ _ Hp), start_scalar, Hs, read_app by done.
  rewrite (read_scalar Number token) by (done || apply Hp). cbn [sp_scalar sp_slot sp_with_scalar app].
  rewrite (read_delimiter Number u r) by (done || apply Hp). unfold sp_endScalar. cbn [sp_scalar sp_with_scalar sp_slot].
  rewrite Hv. change (sp_with_scalar (a :: token) (Some slot) (sp_with_scalar [a] (Some slot) p)) with (sp_with_scalar (a :: token) (Some slot) p).
  by rewrite idle_scalar_eta.
Qed.

(** ** Strings *)

(** In the innermost container a value has a place. *)
Definition is_container (t : tree Num) : bool := match t with TArr _ | TObj _ => true | _ => false end.

Definition takes_value p (slot : Slot) : Prop := sp_valueSlot p = Some slot /\ takes p slot.

Lemma start_value_string p slot :
  idle p -> sp_valueSlot p = Some slot -> sp_startString p = in_string p ForValue (Some slot) [] [].
Proof.
  intros Hp Hs. unfold sp_startString. rewrite Hs. pose proof Hs as Hs'. unfold sp_valueSlot in Hs'. destruct (sp_stack p) as [|f ps]; [done|].
  unfold sf_is_array, tree_is_array. destruct (sf_tree f); cbn [negb andb]; destruct (sf_phase f), (sf_key f); done.
Qed.

Lemma end_value_string p slot t :
  idle p -> sp_endString (in_string p ForValue (Some slot) t []) = sp_valueEnded (sp_place (Some slot) (TStr t) p).
Proof.
  intros Hp. unfold sp_endString. rewrite in_string_string. cbn [ss_target]. unfold in_string. by rewrite with_string_place, idle_string_eta.
Qed.

Lemma quote_step p rest : idle p -> sp_read (QUOTE :: rest) p = sp_read rest (sp_startString p).
Proof. intros Hp. rewrite read_cons, idle_step by done. done. Qed.

Lemma read_value_string p slot body t rest :
  idle p -> takes_value p slot -> string_text body t ->
  sp_read ((QUOTE :: body ++ [QUOTE]) ++ rest) p = sp_read rest (sp_valueEnded (sp_place (Some slot) (TStr t) p)).
Proof.
  intros Hp [Hs Ht] Hb. cbn [app]. rewrite <- app_assoc, quote_step, (start_value_string _ _ Hp Hs) by done.
  rewrite (string_read Number p ForValue (Some slot) body t [] _ (idle_done _ Hp)); [|by exists slot|exact Hb]. cbn [app].
  by rewrite string_end, end_value_string by (done || apply Hp).
Qed.

Lemma read_key p f ps ms body k rest :
  idle p -> sp_stack p = f :: ps -> sf_tree f = TObj ms -> sf_phase f = PhaseKey -> string_text body k ->
  sp_read (QUOTE :: body ++ QUOTE :: rest) p = sp_read rest (sp_set_top (sf_with_key k PhaseColon f) p).
Proof.
  intros Hp E Et Eph Hb. rewrite quote_step by done.
  assert (Es : sp_startString p = in_string p ForKey None [] []) by (unfold sp_startString, sf_is_array; by rewrite E, Et, Eph).
  rewrite Es, (string_read Number p ForKey None body k [] _ (idle_done _ Hp) I Hb). cbn [app]. rewrite string_end by apply Hp. f_equal.
  unfold sp_endString. rewrite in_string_string. cbn. rewrite E. unfold sp_set_top, sp_with_stack. cbn. rewrite E.
  destruct p, Hp. cbn in *. by subst.
Qed.

Lemma read_colon p f ps ms rest :
  idle p -> sp_stack p = f :: ps -> sf_tree f = TObj ms -> sf_phase f = PhaseColon ->
  sp_read (58%N :: rest) p = sp_read rest (sp_set_top (sf_with_phase PhaseValue f) p).
Proof.
  intros Hp E Et Eph. rewrite read_cons, idle_step by done. unfold sp_structural. change (bool_decide (58 ∈ _))%N with false. cbn. by rewrite E, Eph; unfold sf_is_array; rewrite Et.
Qed.

Lemma read_comma p f ps rest :
  idle p -> sp_stack p = f :: ps ->
  sp_read (44%N :: rest) p = sp_read rest (sp_set_top (sf_with_phase (if sf_is_array f then PhaseValue else PhaseKey) f) p).
Proof. intros Hp E. rewrite read_cons, idle_step by done. unfold sp_structural. change (bool_decide (44 ∈ _))%N with false. cbn. by rewrite E. Qed.

(** ** Containers *)

Lemma read_open array p rest :
  idle p -> sp_read ((if array : bool then 91%N else 123%N) :: rest) p = sp_read rest (sp_openContainer array p).
Proof. intros Hp. rewrite read_cons, idle_step by done. by destruct array. Qed.

Lemma read_close array p f ps rest :
  idle p -> sp_stack p = f :: ps ->
  sp_read ((if array : bool then 93%N else 125%N) :: rest) p = sp_read rest (sp_valueEnded (sp_place (sf_slot f) (sf_tree f) (sp_with_stack ps p))).
Proof.
  intros Hp E. rewrite read_cons, idle_step by done. f_equal. assert (Hc : sp_closeContainer p = sp_valueEnded (sp_place (sf_slot f) (sf_tree f) (sp_with_stack ps p))).
  { unfold sp_closeContainer. by rewrite E. }
  rewrite <- Hc. by destruct array.
Qed.

(** A container that was opened and closed again is a value in its slot. *)
Lemma close_opened array p slot t :
  takes_value p slot ->
  sp_valueEnded (sp_place (Some slot) t (sp_with_stack (sp_stack (sp_place (Some slot) TNull p)) (sp_openContainer array p))) =
  sp_valueEnded (sp_place (Some slot) t p).
Proof.
  intros [Hs Ht]. unfold sp_openContainer. rewrite Hs.
  assert (Eta : forall q st, sp_with_stack (sp_stack q) (sp_with_stack st q) = q) by by intros [].
  by rewrite Eta, place_twice.
Qed.

(** The innermost container with a value, after it. *)
Definition with_value (f : SpecFrame Num) (t : tree Num) : SpecFrame Num := sf_with_phase PhaseComma (sf_with_tree t f).

Lemma ended_place p f ps slot t :
  sp_stack p = f :: ps -> slot <> SRoot ->
  sp_valueEnded (sp_place (Some slot) t p) = sp_set_top (with_value f (tree_set (sf_tree f) slot t)) p.
Proof. intros E Hne. destruct slot; [done| |]; cbn; rewrite E; unfold sp_valueEnded; cbn; by rewrite ?E. Qed.

Lemma set_top_stack f p : sp_stack (sp_set_top f p) = f :: tail (sp_stack p).
Proof. done. Qed.
Lemma stack_set_top f ps p : sp_with_stack ps (sp_set_top f p) = sp_with_stack ps p.
Proof. done. Qed.

(** ** Every JSON text *)

Definition reads_value (v : text) (t : tree Num) : Prop :=
  forall p slot rest, idle p -> takes_value p slot -> (is_scalar t = true -> delimited rest) ->
    sp_read (v ++ rest) p = sp_read rest (sp_valueEnded (sp_place (Some slot) t p)).

Definition reads_elements (b : text) (ts : list (tree Num)) : Prop :=
  forall p f ps acc rest, idle p -> sp_stack p = f :: ps -> sf_tree f = TArr acc ->
    sp_read (b ++ 93%N :: rest) p = sp_read rest (sp_valueEnded (sp_place (sf_slot f) (TArr (acc ++ ts)) (sp_with_stack ps p))).

Definition set_members (ms : list (text * tree Num)) (acc : list (text * tree Num)) : list (text * tree Num) :=
  fold_left (fun acc m => setMember m.1 m.2 acc) ms acc.

Definition reads_members (b : text) (ms : list (text * tree Num)) : Prop :=
  forall p f ps acc rest, idle p -> sp_stack p = f :: ps -> sf_tree f = TObj acc -> sf_phase f = PhaseKey ->
    sp_read (b ++ 125%N :: rest) p = sp_read rest (sp_valueEnded (sp_place (sf_slot f) (TObj (set_members ms acc)) (sp_with_stack ps p))).

(** A value with white space around it, in the innermost container. *)
Lemma read_spaced p f ps slot w v t w' rest :
  idle p -> sp_stack p = f :: ps -> takes_value p slot -> slot <> SRoot -> space w -> space w' -> reads_value v t -> delimited rest ->
  sp_read (w ++ v ++ w' ++ rest) p = sp_read rest (sp_set_top (with_value f (tree_set (sf_tree f) slot t)) p).
Proof.
  intros Hp E Hs Hne Hw Hw' Hv Hr. rewrite idle_space by done. rewrite (Hv _ slot) by (done || by intros _; apply delimited_space).
  rewrite (ended_place _ f ps) by done. rewrite idle_space; [done|by apply idle_top|done].
Qed.

Lemma read_element p f ps acc w v t w' rest :
  idle p -> sp_stack p = f :: ps -> sf_tree f = TArr acc -> space w -> space w' -> reads_value v t -> delimited rest ->
  sp_read (w ++ v ++ w' ++ rest) p = sp_read rest (sp_set_top (with_value f (TArr (acc ++ [t]))) p).
Proof.
  intros Hp E Et Hw Hw' Hv Hr. rewrite (read_spaced p f ps (SElement (length acc)) w v t); try done.
  - rewrite Et. cbn. unfold array_set. by rewrite Nat.ltb_irrefl.
  - unfold takes_value, sp_valueSlot, takes. rewrite E, Et. split; [done|]. cbn. lia.
Qed.

Lemma read_member p f ps acc w body k w1 w2 v t w' rest :
  idle p -> sp_stack p = f :: ps -> sf_tree f = TObj acc -> sf_phase f = PhaseKey ->
  space w -> string_text body k -> space w1 -> space w2 -> space w' -> reads_value v t -> delimited rest ->
  sp_read (w ++ QUOTE :: body ++ QUOTE :: w1 ++ 58%N :: w2 ++ v ++ w' ++ rest) p =
  sp_read rest (sp_set_top (with_value (sf_with_key k PhaseColon f) (TObj (setMember k t acc))) p).
Proof.
  intros Hp E Et Eph Hw Hb Hw1 Hw2 Hw' Hv Hr. rewrite idle_space, (read_key p f ps acc body k) by done.
  set (p1 := sp_set_top (sf_with_key k PhaseColon f) p). assert (Hp1 : idle p1) by by apply idle_top.
  rewrite idle_space by done. rewrite (read_colon p1 (sf_with_key k PhaseColon f) ps acc); [|done|by unfold p1; cbn; rewrite E|done|done].
  set (f2 := sf_with_phase PhaseValue (sf_with_key k PhaseColon f)). set (p2 := sp_set_top f2 p1).
  assert (E2 : sp_stack p2 = f2 :: ps) by by unfold p2, p1; cbn; rewrite E.
  rewrite (read_spaced p2 f2 ps (SMember k) w2 v t); try done.
  - cbn. rewrite Et. done.
  - by apply idle_top.
  - unfold takes_value, sp_valueSlot, takes. rewrite E2. cbn. by rewrite Et.
Qed.

Lemma delimited_cons u rest : isDelimiter u = true -> delimited (u :: rest).
Proof. intros H. by exists u, rest. Qed.

(** The end of the elements or members. *)
Lemma read_end array p f ps f' rest :
  idle p -> sp_stack p = f :: ps -> sf_slot f' = sf_slot f ->
  sp_read ((if array : bool then 93%N else 125%N) :: rest) (sp_set_top f' p) =
  sp_read rest (sp_valueEnded (sp_place (sf_slot f) (sf_tree f') (sp_with_stack ps p))).
Proof. intros Hp E Es. rewrite (read_close _ _ f' ps) by (by apply idle_top || (cbn; by rewrite E)). by rewrite stack_set_top, Es. Qed.

Lemma reads_container array p slot b t rest :
  idle p -> takes_value p slot ->
  (forall q f ps, idle q -> sp_stack q = f :: ps -> sf_tree f = empty_tree array -> sf_phase f = (if array then PhaseValue else PhaseKey) ->
    sp_read (b ++ (if array then 93%N else 125%N) :: rest) q = sp_read rest (sp_valueEnded (sp_place (sf_slot f) t (sp_with_stack ps q)))) ->
  sp_read (((if array : bool then 91%N else 123%N) :: b ++ [if array then 93%N else 125%N]) ++ rest) p =
  sp_read rest (sp_valueEnded (sp_place (Some slot) t p)).
Proof.
  intros Hp Ht Hb. cbn [app]. rewrite <- app_assoc. cbn [app]. rewrite read_open by done.
  erewrite Hb; [|by apply idle_open|reflexivity|reflexivity|by destruct array]. cbn [sf_slot].
  rewrite (proj1 Ht). f_equal. by apply close_opened.
Qed.

Lemma reads_nothing array p f ps w rest :
  idle p -> sp_stack p = f :: ps -> space w ->
  sp_read (w ++ (if array : bool then 93%N else 125%N) :: rest) p =
  sp_read rest (sp_valueEnded (sp_place (sf_slot f) (sf_tree f) (sp_with_stack ps p))).
Proof. intros Hp E Hw. rewrite idle_space by done. by apply read_close. Qed.

Lemma reads_json :
  (forall v t, json_text v t -> reads_value v t) /\ (forall b ts, elements_text b ts -> reads_elements b ts) /\
  (forall b ms, members_text b ms -> reads_members b ms).
Proof.
  apply json_mutind.
  - intros p slot rest Hp [Hs _] Hr. by apply (read_token _ _ _ VNull); [..|by split; [repeat constructor|done|done|done]|apply Hr].
  - intros p slot rest Hp [Hs _] Hr. by apply (read_token _ _ _ (VBool true)); [..|by split; [repeat constructor|done|done|done]|apply Hr].
  - intros p slot rest Hp [Hs _] Hr. by apply (read_token _ _ _ (VBool false)); [..|by split; [repeat constructor|done|done|done]|apply Hr].
  - intros token H p slot rest Hp [Hs _] Hr. by apply (read_token _ _ _ (VNum (Number token))); [..|by apply number_token|apply Hr].
  - intros body t Hb p slot rest Hp Hs _. by apply read_value_string.
  - intros w Hw p slot rest Hp Hs _. apply (reads_container true); [done|done|]. intros q f ps Hq E Et _.
    rewrite (reads_nothing true q f ps) by done. by rewrite Et.
  - intros b ts _ IH p slot rest Hp Hs _. apply (reads_container true); [done|done|]. intros q f ps Hq E Et _. by apply (IH q f ps []).
  - intros w Hw p slot rest Hp Hs _. apply (reads_container false); [done|done|]. intros q f ps Hq E Et _.
    rewrite (reads_nothing false q f ps) by done. by rewrite Et.
  - intros b ms _ IH p slot rest Hp Hs _. apply (reads_container false); [done|done|]. intros q f ps Hq E Et Eph. by apply (IH q f ps []).
  - intros w v t w' Hw _ Hv Hw' p f ps acc rest Hp E Et. rewrite <- !app_assoc.
    rewrite (read_element p f ps acc w v t w') by (done || by apply delimited_cons). by apply (read_end true).
  - intros w v t w' b ts Hw _ Hv Hw' _ IH p f ps acc rest Hp E Et. rewrite <- !app_assoc. cbn [app].
    rewrite (read_element p f ps acc w v t w') by (done || by apply delimited_cons).
    erewrite (read_comma _ _ ps); [|by apply idle_top|cbn; by rewrite E]. erewrite (IH _ _ ps (acc ++ [t])); [|by apply idle_top, idle_top|cbn; by rewrite E|done].
    by rewrite <- app_assoc.
  - intros w body k w1 w2 v t w' Hw Hb Hw1 Hw2 _ Hv Hw' p f ps acc rest Hp E Et Eph. rewrite <- !app_assoc. cbn [app].
    rewrite <- !app_assoc. cbn [app]. rewrite <- !app_assoc. cbn [app]. rewrite <- !app_assoc.
    rewrite (read_member p f ps acc w body k w1 w2 v t w') by (done || by apply delimited_cons). by apply (read_end false).
  - intros w body k w1 w2 v t w' b ms Hw Hb Hw1 Hw2 _ Hv Hw' _ IH p f ps acc rest Hp E Et Eph. rewrite <- !app_assoc. cbn [app].
    rewrite <- !app_assoc. cbn [app]. rewrite <- !app_assoc. cbn [app]. rewrite <- !app_assoc. cbn [app].
    rewrite (read_member p f ps acc w body k w1 w2 v t w') by (done || by apply delimited_cons).
    erewrite (read_comma _ _ ps); [|by apply idle_top|cbn; by rewrite E].
    erewrite (IH _ _ ps (setMember k t acc)); [|by apply idle_top, idle_top|cbn; by rewrite E|done|done]. done.
Qed.

(** ** Documents *)

Definition ended_with (t : tree Num) : Spec Num := sp_with_done true (sp_with_root (Some t) spec_new).

Lemma new_idle : idle (@spec_new Num).
Proof. by split. Qed.

Lemma read_ended w v w' t :
  space w -> space w' -> json_text v t -> (is_scalar t = true -> w' <> []) -> sp_read (w ++ v ++ w') spec_new = ended_with t.
Proof.
  intros Hw Hw' Hv Hne. rewrite idle_space by (done || by apply new_idle). rewrite (proj1 reads_json v t Hv spec_new SRoot); [..|].
  - by apply read_done.
  - by apply new_idle.
  - done.
  - intros Hs. destruct Hw' as [|u w' Hu Hw']; [by destruct (Hne Hs)|]. exists u, w'. split; [done|]. revert Hu. unfold is_space, isDelimiter.
    intros Hin%bool_decide_eq_true. apply bool_decide_eq_true. set_solver.
Qed.

Lemma scalar_text v t : json_text v t -> is_scalar t = true -> exists x, scalar_token v x /\ scalar_tree x = t.
Proof.
  assert (Hword : forall (token : text) x, Forall (fun u => isDelimiter u = false) token -> token <> [] -> scalarValue Number token = Some x ->
    pendingScalarValue Number token = Some x -> exists x', scalar_token token x' /\ scalar_tree x' = scalar_tree x) by (intros token x; by exists x).
  intros H Hs. inversion H; subst; try done.
  - by apply (Hword _ VNull); [repeat constructor|..].
  - by apply (Hword _ (VBool true)); [repeat constructor|..].
  - by apply (Hword _ (VBool false)); [repeat constructor|..].
  - exists (VNum (Number v)). split; [by apply number_token|done].
Qed.

Lemma read_unended w v t :
  space w -> json_text v t -> is_scalar t = true ->
  sp_read (w ++ v) spec_new = sp_with_scalar v (Some SRoot) spec_new.
Proof.
  intros Hw Hv Hs. destruct (scalar_text v t Hv Hs) as (x & [Hpl Hne _ _] & _). rewrite idle_space by (done || by apply new_idle).
  destruct v as [|u v]; [done|]. inversion Hpl; subst. rewrite read_cons, (idle_step _ _ _ new_idle), start_scalar by done.
  by rewrite (read_scalar Number v).
Qed.

(** White space, a value and white space; of a number or a word at the very end, 64
    characters are read ahead of the end. *)
Record json_document (doc : text) (t : tree Num) : Prop := {
  doc_parts : exists w v w', doc = w ++ v ++ w' /\ space w /\ space w' /\ json_text v t /\
    (is_scalar t = true -> w' = [] -> length v <= MAX_PENDING_SCALAR_LENGTH);
}.

Lemma read_document doc t :
  json_document doc t ->
  sp_stack (sp_read doc spec_new) = [] /\ sp_drops (sp_read doc spec_new) = 0 /\ pending_value Number (sp_read doc spec_new) = Some t.
Proof.
  intros [(w & v & w' & -> & Hw & Hw' & Hv & Hlen)].
  destruct (is_scalar t && bool_decide (w' = [])) eqn:E.
  - apply andb_true_iff in E as [Es ->%bool_decide_eq_true]. rewrite app_nil_r, (read_unended w v t) by done.
    destruct (scalar_text v t Hv Es) as (x & [_ Hne _ Hp] & <-). split; [done|]. split; [done|].
    unfold pending_value, sp_pending. cbn [sp_slot sp_scalar sp_with_scalar]. rewrite Hp.
    assert (El : (length v =? 0) || (MAX_PENDING_SCALAR_LENGTH <? length v) = false).
    { apply orb_false_iff. split; [apply Nat.eqb_neq; by destruct v|apply Nat.ltb_ge; by apply Hlen]. }
    by rewrite El.
  - rewrite (read_ended w v w' t); [done..|]. intros Hs ->. by rewrite Hs in E.
Qed.

(** A document that is no number and no word has ended. *)
Lemma read_closed doc t : json_document doc t -> is_scalar t = false -> sp_slot (sp_read doc spec_new) = None.
Proof.
  intros [(w & v & w' & -> & Hw & Hw' & Hv & _)] Hs. rewrite (read_ended w v w' t); [done..|]. by rewrite Hs.
Qed.
End Reading.
