(* ===== verification/StreamArguments.v ===== *)
(** Sequences of calls of the streaming parser. Pieces and snapshots in any order: every
    sequence runs, keeps the relation to the machine and leaves what earlier calls returned as
    it was. [ToolCallArgumentsStream] (ai/src/utils/streaming-json.ts): the text of one tool
    call, its parser, and the arguments shown while it streams, whose objects are those of the
    parser's heap; a parser that starts over allocates in the same heap. *)
From S2P Require Import Prelude EditText StreamValue StreamParser StreamSpec StreamRel StreamChanges StreamRefine StreamInvariant StreamAppend StreamGrammar StreamReading.

(** The calls of a writer: [append] and [snapshot]. *)
Inductive StreamOp : Type := Piece (t : text) | Take.

(** What a call returns. *)
Inductive Out {Num : Type} : Type :=
| OutChanges (cs : list (Change Num))
| OutSnapshot (v : option (value Num)).
Arguments Out : clear implicits.

Section Run.
Context {Num : Type} (Number : text -> Num).
Implicit Types (s : Parser Num) (p : Spec Num) (h : heap Num).

Abbreviation rel := (rel Number).
Abbreviation sim := (sim Number).
Abbreviation sp_read := (sp_read Number).

Definition run_op (op : StreamOp) s : option (Parser Num * Out Num) :=
  match op with
  | Piece t => s' ← append Number t s; Some (s', OutChanges (p_changes s'))
  | Take => '(s', v) ← snapshot Number s; Some (s', OutSnapshot v)
  end.

Fixpoint run (ops : list StreamOp) s : option (Parser Num * list (Out Num)) :=
  match ops with
  | [] => Some (s, [])
  | op :: ops' =>
      '(s1, out) ← run_op op s;
      '(s2, outs) ← run ops' s1;
      Some (s2, out :: outs)
  end.

Definition op_text (op : StreamOp) : text := match op with Piece t => t | Take => [] end.
Definition text_of (ops : list StreamOp) : text := concat (op_text <$> ops).

Definition out_changes (out : Out Num) : list (Change Num) := match out with OutChanges cs => cs | OutSnapshot _ => [] end.
Definition all_changes (outs : list (Out Num)) : list (Change Num) := concat (out_changes <$> outs).

(** ** One call *)

(** A new parser, when there are other objects. *)
Definition parser_at h : Parser Num := with_heap h parser_new.

Lemma new_sim h : sim None (parser_at h) spec_new.
Proof.
  split; [|split; [done|]].
  - split; try done; [by constructor|]. exists 0, None. by split_and!.
  - split; [by exists []|by intros o i E].
Qed.

Lemma extended_later s s' cs : p_heap s' = p_heap s ++ cs -> p_stack s' = p_stack s -> later s s'.
Proof. intros Eh Es. unfold later. rewrite Eh, Es, length_app. split; [lia|apply extend_evolves]. Qed.

(** From a call on, the changes of the calls make the value that is reported. *)
Definition made s' (cs : list (Change Num)) (copy copy' : option (tree Num)) : Prop :=
  exists tcs, Forall2 (change_rel (p_heap s') (locs (p_stack s'))) cs tcs /\ replay_changes tcs copy = Some copy'.

Lemma replay_changes_app (cs cs' : list (TChange Num)) copy copy' :
  replay_changes cs copy = Some copy' -> replay_changes (cs ++ cs') copy = replay_changes cs' copy'.
Proof.
  revert copy. induction cs as [|c cs IH]; intros copy; cbn; [by intros [= ->]|]. destruct (apply_change c copy); [|done]. cbn. apply IH.
Qed.

Lemma made_app s s' cs cs' c0 c1 c2 :
  later s s' -> made s cs c0 c1 -> made s' cs' c1 c2 -> made s' (cs ++ cs') c0 c2.
Proof.
  intros [_ He] (t1 & F1 & R1) (t2 & F2 & R2). exists (t1 ++ t2). split; [apply Forall2_app; [by eapply changes_evolve|done]|].
  by rewrite (replay_changes_app _ _ _ _ R1).
Qed.

Lemma op_sim op start s p :
  sim start s p -> sp_ok p ->
  exists s' out start', run_op op s = Some (s', out) /\ sim start' s' (sp_read (op_text op) p) /\ sp_ok (sp_read (op_text op) p) /\
    later s s' /\ made s' (out_changes out) (reported p) (reported (sp_read (op_text op) p)).
Proof.
  intros Hs Hok. destruct op as [t|]; unfold run_op; cbn [op_text].
  - destruct (append_sim_piece Number start s p t Hs Hok) as (s' & -> & Hs' & Hok' & Hl & _).
    exists s', (OutChanges (p_changes s')), (reported p). split; [done|]. split; [done|]. split; [done|]. split; [done|]. apply Hs'.
  - destruct (snapshot_sim Number start s p Hs) as (s' & v & cs & -> & Hs' & _ & Eh & Es & _).
    exists s', (OutSnapshot v), start. split; [done|]. split; [done|]. split; [done|]. split; [by eapply extended_later|]. by exists [].
Qed.

(** ** All calls *)

Lemma run_sim ops start s p :
  sim start s p -> sp_ok p ->
  exists s' outs start', run ops s = Some (s', outs) /\ sim start' s' (sp_read (text_of ops) p) /\ sp_ok (sp_read (text_of ops) p) /\
    later s s' /\ made s' (all_changes outs) (reported p) (reported (sp_read (text_of ops) p)).
Proof.
  revert start s p. induction ops as [|op ops IH]; intros start s p Hs Hok.
  - exists s, [], start. split; [done|]. split; [done|]. split; [done|]. split; [apply later_refl|]. by exists [].
  - destruct (op_sim op start s p Hs Hok) as (s1 & out & start1 & E1 & Hs1 & Hok1 & Hl1 & Hc1). cbn [run]. rewrite E1. cbn [mbind option_bind].
    destruct (IH start1 s1 _ Hs1 Hok1) as (s2 & outs & start2 & E2 & Hs2 & Hok2 & Hl2 & Hc2). rewrite E2. cbn [mbind option_bind].
    assert (Er : sp_read (text_of (op :: ops)) p = sp_read (text_of ops) (sp_read (op_text op) p)) by apply read_app.
    exists s2, (out :: outs), start2. rewrite Er. split; [done|]. split; [done|]. split; [done|].
    split; [by eapply later_trans|]. by eapply made_app.
Qed.

Lemma run_calls_app ops ops' s s1 outs : run ops s = Some (s1, outs) -> run (ops ++ ops') s = ('(s2, outs') ← run ops' s1; Some (s2, outs ++ outs')).
Proof.
  revert s outs. induction ops as [|op ops IH]; intros s outs; cbn [run app].
  - intros [= -> <-]. by destruct (run ops' s1) as [[? ?]|].
  - destruct (run_op op s) as [[s0 out]|]; [|done]. cbn [mbind option_bind]. destruct (run ops s0) as [[s2 outs2]|] eqn:E; [|done]. cbn [mbind option_bind].
    intros [= -> <-]. rewrite (IH _ _ E). by destruct (run ops' s1) as [[? ?]|].
Qed.

(** ** What a snapshot is *)

(** A snapshot that can be paid for is the value of the text, if no token was dropped. *)
Lemma snapshot_value start s p :
  sim start s p -> sp_drops p = 0 -> affordable Number s = true ->
  exists s' v cs, snapshot Number s = Some (s', v) /\ p_heap s' = p_heap s ++ cs /\ p_stack s' = p_stack s /\
    opt_denotes (p_heap s') (locs (p_stack s')) (pending_value Number p) v.
Proof.
  intros Hs Hd Ha. destruct (snapshot_sim Number start s p Hs) as (s' & v & cs & E & _ & _ & Eh & Es & H1 & H2 & _).
  exists s', v, cs. split; [done|]. split; [done|]. split; [done|]. rewrite Ha, andb_true_r in *. destruct (p_dirty s) eqn:Edirty; [by apply H1|].
  rewrite H2 by done. destruct Hs as (H & _). destruct (rel_snapshot _ _ _ H) as (d & snap & Hle & Hden & Hsame).
  rewrite <- (Hsame Edirty) by lia. eapply opt_denotes_evolves; [|exact Hden]. by eapply extended_later.
Qed.

(** A snapshot stands for some value: that of the text, when it is current. *)
Lemma snapshot_tree start s p :
  sim start s p ->
  exists s' v cs T, snapshot Number s = Some (s', v) /\ sim start s' p /\ p_heap s' = p_heap s ++ cs /\ p_stack s' = p_stack s /\
    opt_denotes (p_heap s') (locs (p_stack s')) T v /\ (affordable Number s = true -> sp_drops p = 0 -> T = pending_value Number p) /\
    (affordable Number s = false -> v = p_snapshot s).
Proof.
  intros Hs. destruct (snapshot_sim Number start s p Hs) as (s' & v & cs & E & Hs' & Ev & Eh & Est & _ & H2 & _).
  assert (Hlag : affordable Number s = false -> v = p_snapshot s) by (intros Ha; apply H2; by rewrite Ha, andb_false_r).
  destruct (decide (affordable Number s = true /\ sp_drops p = 0)) as [[Ha Hd]|Hn].
  - destruct (snapshot_value start s p Hs Hd Ha) as (s0 & v0 & cs0 & E0 & _ & _ & Hden). rewrite E in E0. injection E0 as <- <-.
    exists s', v, cs, (pending_value Number p). by split_and!.
  - destruct (rel_snapshot _ _ _ (proj1 Hs')) as (d & snap & _ & Hden & _). rewrite Ev in Hden.
    exists s', v, cs, snap. split_and!; try done. by intros; destruct Hn.
Qed.

(** What costs nothing can be paid for. *)
Lemma affordable_free start s p : sim start s p -> sp_stack p = [] -> sp_slot p = None -> affordable Number s = true.
Proof.
  intros (H & _) Hst Hsl. unfold affordable, snapshot_cost, pendingScalar. rewrite (rel_slot _ _ _ H), Hsl, (rel_cost _ _ _ H).
  pose proof (rel_frames _ _ _ H) as Hf. rewrite Hst in Hf. destruct (p_stack s); [|done]. pose proof (rel_credit _ _ _ H). apply Z.leb_le. cbn. lia.
Qed.
End Run.

Section Arguments.
Context {Num : Type} (Number : text -> Num) (num_eqb : Num -> Num -> bool).

(** [===] of snapshots; [num_eqb] is that of numbers. *)
Definition same_value (v w : value Num) : bool :=
  match v, w with
  | VNull, VNull => true
  | VBool a, VBool b => Bool.eqb a b
  | VNum a, VNum b => num_eqb a b
  | VStr a, VStr b => bool_decide (a = b)
  | VRef a, VRef b => a =? b
  | _, _ => false
  end.

Definition same_snapshot (v w : option (value Num)) : bool :=
  match v, w with Some v, Some w => same_value v w | None, None => true | _, _ => false end.

Record ArgumentsStream : Type := {
  as_text : text;
  as_parser : Parser Num;
  as_snapshot : option (value Num);
  as_arguments : value Num;
}.
Implicit Types (a : ArgumentsStream).

(** The arguments start as a new empty object. *)
Definition arguments_new : ArgumentsStream :=
  {| as_text := []; as_parser := parser_at [CObject []]; as_snapshot := None; as_arguments := VRef 0 |}.

(** [#partial]: an object shows as the arguments, anything else as a new empty object. *)
Definition partial a : option ArgumentsStream :=
  '(p, snap) ← snapshot Number (as_parser a);
  if same_snapshot snap (as_snapshot a) then
    Some {| as_text := as_text a; as_parser := p; as_snapshot := as_snapshot a; as_arguments := as_arguments a |}
  else
    let empty := {| as_text := as_text a; as_parser := with_heap (p_heap p ++ [CObject []]) p; as_snapshot := snap;
                    as_arguments := VRef (length (p_heap p)) |} in
    Some (match snap with
          | Some (VRef l) =>
              match p_heap p !! l with
              | Some (CObject _) => {| as_text := as_text a; as_parser := p; as_snapshot := snap; as_arguments := VRef l |}
              | _ => empty
              end
          | _ => empty
          end).

Definition as_append (delta : text) a : option ArgumentsStream :=
  p ← append Number delta (as_parser a);
  partial {| as_text := as_text a ++ delta; as_parser := p; as_snapshot := as_snapshot a; as_arguments := as_arguments a |}.

(** [replace]: the missing piece, when the text continues; otherwise a new parser. *)
Definition as_replace (t : text) a : option (ArgumentsStream * option text) :=
  if starts_with (as_text a) t then
    let delta := drop (length (as_text a)) t in
    a' ← (match delta with [] => partial a | _ => as_append delta a end);
    Some (a', Some delta)
  else
    a' ← as_append t {| as_text := []; as_parser := parser_at (p_heap (as_parser a)); as_snapshot := as_snapshot a;
                        as_arguments := as_arguments a |};
    Some (a', None).

(** [finish]; [parseToolCallArguments] is a parameter. *)
Definition as_finish {Result : Type} (parseToolCallArguments : text -> Result) a : Result := parseToolCallArguments (as_text a).

(** The calls of a provider, and the text after them. *)
Inductive Call : Type := CallAppend (delta : text) | CallReplace (t : text).

Definition call (c : Call) a : option ArgumentsStream :=
  match c with CallAppend delta => as_append delta a | CallReplace t => fst <$> as_replace t a end.

Fixpoint calls (cs : list Call) a : option ArgumentsStream :=
  match cs with [] => Some a | c :: cs' => a' ← call c a; calls cs' a' end.

Definition call_text (t : text) (c : Call) : text := match c with CallAppend delta => t ++ delta | CallReplace t' => t' end.
Definition calls_text (t : text) (cs : list Call) : text := fold_left call_text cs t.

(** ** What the arguments are *)

Definition arguments_of (T : option (tree Num)) : tree Num := match T with Some (TObj ms) => TObj ms | _ => TObj [] end.

Lemma denotes_functional (h : heap Num) open t t' v : denotes h open t v -> denotes h open t' v -> t = t'.
Proof.
  revert t' v. induction t as [|b|n|s|ts IH|ms IH] using tree_ind; intros t' v H H'; inversion H; subst; inversion H'; subst; try done; try congruence.
  - match goal with H1 : h !! l = Some (CArray ?x), H2 : h !! l = Some (CArray ?y) |- _ => assert (x = y) by congruence; subst x end.
    f_equal. match goal with F1 : Forall2 _ ts ?vs, F2 : Forall2 _ ?us ?vs |- _ => clear -IH F1 F2; revert us F2; rename F1 into F end.
    induction F; intros us F2; inversion F2; subst; [done|]. decompose_Forall_hyps. f_equal; eauto.
  - match goal with H1 : h !! l = Some (CObject ?x), H2 : h !! l = Some (CObject ?y) |- _ => assert (x = y) by congruence; subst x end.
    f_equal. match goal with F1 : Forall2 _ ms ?vs, F2 : Forall2 _ ?us ?vs |- _ => clear -IH F1 F2; revert us F2; rename F1 into F end.
    induction F as [|[k t] [k' v] ms vs [Ek Hd] F IHF]; intros us F2; inversion F2 as [|[k2 t2] ? ? ? [Ek2 Hd2] F2']; subst; [done|].
    inversion IH as [|? ? IHt IHms]; subst. cbn in *. subst. f_equal; [f_equal|]; eauto.
Qed.

(** Equal snapshots show as equal arguments. *)
Lemma same_arguments (h : heap Num) open v w T T' :
  same_snapshot v w = true -> opt_denotes h open T v -> opt_denotes h open T' w -> arguments_of T = arguments_of T'.
Proof.
  unfold same_snapshot. destruct v as [v|], w as [w|], T as [T|], T' as [T'|]; cbn; try done. intros E Hv Hw.
  destruct v, w; try done; try (by inversion Hv; subst; inversion Hw; subst).
  cbn in E. apply Nat.eqb_eq in E as ->. by rewrite (denotes_functional _ _ _ _ _ Hv Hw).
Qed.

(** ** The invariant of a stream *)

(** The parser has read the text, and the arguments stand for those of its last snapshot. *)
Record stream_ok a (ms : list (text * tree Num)) : Prop := {
  so_parser : exists start, sim Number start (as_parser a) (sp_read Number (as_text a) spec_new);
  so_ok : sp_ok (sp_read Number (as_text a) spec_new);
  so_shown : exists T, opt_denotes (p_heap (as_parser a)) (locs (p_stack (as_parser a))) T (as_snapshot a) /\ arguments_of T = TObj ms;
  so_arguments : denotes (p_heap (as_parser a)) (locs (p_stack (as_parser a))) (TObj ms) (as_arguments a);
}.

Lemma new_ok : stream_ok arguments_new [].
Proof.
  split; cbn.
  - exists None. apply new_sim.
  - apply ok_new.
  - by exists None.
  - eapply denotes_obj; [|reflexivity|constructor]. apply not_elem_of_nil.
Qed.

Lemma arguments_object T : exists ms, arguments_of T = TObj ms.
Proof. destruct T as [[]|]; by eexists. Qed.

(** The arguments after [#partial]: of the machine's value when the snapshot is current. *)
Definition current (t : text) (ms : list (text * tree Num)) : Prop :=
  sp_drops (sp_read Number t spec_new) = 0 -> sp_stack (sp_read Number t spec_new) = [] -> sp_slot (sp_read Number t spec_new) = None ->
  arguments_of (pending_value Number (sp_read Number t spec_new)) = TObj ms.

Lemma alloc_later (q : Parser Num) c : later q (with_heap (p_heap q ++ [c]) q).
Proof. split; cbn; [rewrite length_app; lia|apply extend_evolves]. Qed.

Lemma sim_alloc start q p c : sim Number start q p -> sim Number start (with_heap (p_heap q ++ [c]) q) p.
Proof.
  intros (H & Hs & Hc & Hn). split; [by apply rel_extend|]. split; [by eapply string_extend|]. split; [|exact Hn].
  destruct Hc as (tcs & F & R). exists tcs. split; [|exact R]. eapply changes_evolve; [|exact F]. apply extend_evolves.
Qed.

Lemma partial_ok a ms :
  stream_ok a ms -> exists a' ms', partial a = Some a' /\ stream_ok a' ms' /\ as_text a' = as_text a /\ later (as_parser a) (as_parser a') /\ current (as_text a) ms'.
Proof.
  intros [[start Hsim] Hok (T0 & HT0 & ET0) Harg]. destruct (snapshot_tree Number start _ _ Hsim) as (p' & v & cs & T & E & Hsim' & Eh & Est & HT & Hcur & _).
  pose proof (extended_later (as_parser a) p' cs Eh Est) as Hl. pose proof Hl as [_ He].
  assert (Hc : forall ms', arguments_of T = TObj ms' -> current (as_text a) ms').
  { intros ms' ET Hd Hst Hsl. rewrite <- ET, <- Hcur; [done| |done]. by eapply affordable_free. }
  unfold partial. rewrite E. cbn [mbind option_bind]. destruct (same_snapshot v (as_snapshot a)) eqn:Esame.
  - eexists _, ms. split; [reflexivity|]. split; [|split; [done|split; [exact Hl|]]].
    + split; cbn; [by exists start|done| |by eapply denotes_evolves]. exists T0. split; [by eapply opt_denotes_evolves|done].
    + apply Hc. rewrite <- ET0. eapply same_arguments; [exact Esame|exact HT|by eapply opt_denotes_evolves].
  - set (empty := {| as_text := as_text a |}).
    assert (Hempty : arguments_of T = TObj [] -> exists a' ms', Some empty = Some a' /\ stream_ok a' ms' /\ as_text a' = as_text a /\ later (as_parser a) (as_parser a') /\ current (as_text a) ms').
    { intros ET. exists empty, []. split; [done|]. split; [|split; [done|split; [eapply later_trans; [exact Hl|apply alloc_later]|by apply Hc]]].
      split; cbn; [exists start; by apply sim_alloc|done| |].
      - exists T. split; [|done]. eapply opt_denotes_evolves; [|exact HT]. apply extend_evolves.
      - eapply denotes_obj; [|by rewrite lookup_app_r, Nat.sub_diag|constructor]. intros Hin.
        pose proof (frames_alive _ _ _ _ _ _ _ (rel_frames _ _ _ (proj1 Hsim'))) as Ha. rewrite Forall_forall in Ha. specialize (Ha _ Hin). lia. }
    destruct v as [v|]; [|destruct T; [done|by apply Hempty]]. destruct T as [T|]; [|done]. cbn in HT.
    destruct v as [| | | |l]; try (by apply Hempty; inversion HT).
    destruct (p_heap p' !! l) as [[ms'|es]|] eqn:El; [|by apply Hempty; inversion HT; subst; try done; congruence..].
    inversion HT as [| | | |? ? ? ? Hcl|? fs ? ? Hcl]; subst; [congruence|]. eexists _, fs. split; [reflexivity|].
    split; [|split; [done|split; [exact Hl|by apply Hc]]]. split; cbn; [by exists start|done|by exists (Some (TObj fs))|done].
Qed.

(** ** Calls *)

Lemma append_ok delta a ms :
  stream_ok a ms -> exists a' ms', as_append delta a = Some a' /\ stream_ok a' ms' /\ as_text a' = as_text a ++ delta /\ later (as_parser a) (as_parser a') /\ current (as_text a') ms'.
Proof.
  intros [[start Hsim] Hok (T0 & HT0 & ET0) Harg]. unfold as_append.
  destruct (append_sim_piece Number start _ _ delta Hsim Hok) as (p' & -> & Hsim' & Hok' & Hl & _). cbn [mbind option_bind].
  rewrite <- read_app in Hsim', Hok'. pose proof Hl as [_ He].
  destruct (partial_ok {| as_text := as_text a ++ delta; as_parser := p'; as_snapshot := as_snapshot a; as_arguments := as_arguments a |} ms) as (a' & ms' & E & H' & Et & Hl' & Hc).
  - split; cbn; [by eexists|done| |by eapply denotes_evolves]. exists T0. split; [by eapply opt_denotes_evolves|done].
  - exists a', ms'. rewrite Et. split_and!; try done. by eapply later_trans.
Qed.

(** Starting over leaves the objects as they are. *)
Lemma restart_ok a ms :
  stream_ok a ms ->
  stream_ok {| as_text := []; as_parser := parser_at (p_heap (as_parser a)); as_snapshot := as_snapshot a; as_arguments := as_arguments a |} ms /\
  later (as_parser a) (@parser_at Num (p_heap (as_parser a))).
Proof.
  intros [_ _ (T0 & HT0 & ET0) Harg]. assert (Hl : later (as_parser a) (@parser_at Num (p_heap (as_parser a)))).
  { split; [done|]. intros l Hl Hlt. split; [done|]. apply not_elem_of_nil. }
  split; [|exact Hl]. pose proof Hl as [_ He].
  split; cbn; [exists None; apply new_sim|apply ok_new| |by eapply denotes_evolves]. exists T0. split; [by eapply opt_denotes_evolves|done].
Qed.

Lemma call_ok c a ms :
  stream_ok a ms -> exists a' ms', call c a = Some a' /\ stream_ok a' ms' /\ as_text a' = call_text (as_text a) c /\ later (as_parser a) (as_parser a') /\ current (as_text a') ms'.
Proof.
  intros Ha. destruct c as [delta|t]; cbn [call call_text]; [by eapply append_ok|]. unfold as_replace.
  destruct (starts_with (as_text a) t) eqn:Es.
  - apply starts_with_app in Es as [delta ->]. rewrite drop_app_length. destruct delta as [|u delta].
    + destruct (partial_ok a ms Ha) as (a' & ms' & E & H' & Et & Hl & Hc). exists a', ms'. rewrite E, app_nil_r, Et. by split_and!.
    + destruct (append_ok (u :: delta) a ms Ha) as (a' & ms' & E & H' & Et & Hl & Hc). exists a', ms'. rewrite E. by split_and!.
  - destruct (restart_ok a ms Ha) as [Hr Hlr]. destruct (append_ok t _ ms Hr) as (a' & ms' & E & H' & Et & Hl & Hc).
    exists a', ms'. rewrite E. split_and!; try done. by eapply later_trans.
Qed.

Lemma calls_ok cs a ms :
  stream_ok a ms -> current (as_text a) ms ->
  exists a' ms', calls cs a = Some a' /\ stream_ok a' ms' /\ as_text a' = calls_text (as_text a) cs /\ later (as_parser a) (as_parser a') /\
    current (as_text a') ms'.
Proof.
  revert a ms. induction cs as [|c cs IH]; intros a ms Ha Hc; cbn [calls].
  - exists a, ms. split; [done|]. split; [done|]. split; [done|]. split; [apply later_refl|done].
  - destruct (call_ok c a ms Ha) as (a1 & ms1 & E1 & H1 & Et1 & Hl1 & Hc1). rewrite E1. cbn [mbind option_bind].
    destruct (IH a1 ms1 H1 Hc1) as (a2 & ms2 & E2 & H2 & Et2 & Hl2 & Hc2). exists a2, ms2. split; [done|]. split; [done|].
    split; [by rewrite Et2, Et1|]. split; [by eapply later_trans|done].
Qed.
End Arguments.
