(* ===== verification/StreamTheorems.v ===== *)
(** The theorems of the streaming parser: pieces of text in any cut, with snapshots taken
    in between. *)
From S2P Require Import Prelude EditText StreamValue StreamParser StreamSpec StreamRel StreamChanges StreamRefine StreamInvariant StreamAppend StreamGrammar StreamReading StreamArguments.

(** ** Reports and costs *)

Section Facts.
Context {Num : Type} (Number : text -> Num).
Implicit Types (s : Parser Num) (p : Spec Num) (ps : list (SpecFrame Num)).

Lemma report_plug_shallow ps child slot root :
  length ps <= MAX_REPORTED_DEPTH -> report_plug ps child slot root = plug ps child slot root.
Proof.
  revert child slot. induction ps as [|f ps IH]; intros child slot Hl; [done|]. cbn [report_plug plug length] in *.
  rewrite IH by lia. unfold reports. by rewrite (proj2 (Nat.ltb_lt _ _)) by lia.
Qed.

Lemma reported_shallow p : length (sp_stack p) <= MAX_REPORTED_DEPTH -> reported p = shown p.
Proof.
  unfold reported, shown, reported_stack, shown_stack. destruct (sp_stack p) as [|f ps]; [done|]. cbn [length]. intros Hl.
  rewrite report_plug_shallow by lia. unfold reports. by rewrite (proj2 (Nat.ltb_lt _ _)) by lia.
Qed.

(** The members and elements that the snapshots of the calls copy, and the copies. *)
Fixpoint copied (ops : list StreamOp) s : Z :=
  match ops with
  | [] => 0
  | op :: ops' =>
      match run_op Number op s with
      | Some (s', _) =>
          (match op with Take => cells (drop (length (p_heap s)) (p_heap s')) | Piece _ => 0 end + copied ops' s')%Z
      | None => 0%Z
      end
  end.

Fixpoint pieces (ops : list StreamOp) : nat := match ops with [] => 0 | Piece _ :: ops' => S (pieces ops') | Take :: ops' => pieces ops' end.

Lemma copied_credit ops start s p :
  sim Number start s p -> sp_ok p ->
  (copied ops s <= p_credit s + 256 * Z.of_nat (pieces ops) + 8 * Z.of_nat (length (text_of ops)))%Z.
Proof.
  revert start s p. induction ops as [|op ops IH]; intros start s p Hs Hok.
  { pose proof (rel_credit _ _ _ (proj1 Hs)). cbn. lia. }
  assert (Et : length (text_of (op :: ops)) = length (op_text op) + length (text_of ops)) by apply length_app. rewrite Et.
  cbn [copied]. destruct op as [t|]; unfold run_op; cbn [op_text length].
  - destruct (append_sim_piece Number start s p t Hs Hok) as (s' & -> & Hs' & Hok' & _ & Hcr). cbn [mbind option_bind].
    specialize (IH _ _ _ Hs' Hok'). rewrite Hcr in IH. cbn [pieces]. lia.
  - destruct (snapshot_sim Number start s p Hs) as (s' & v & cs & -> & Hs' & _ & Eh & Es & _ & _ & Hc). cbn [mbind option_bind].
    rewrite Eh, drop_app_length. specialize (IH _ _ _ Hs' Hok). cbn [pieces]. lia.
Qed.

(** With nothing open, 256 credits pay for a snapshot. *)
Lemma affordable_flat start s p : sim Number start s p -> sp_stack p = [] -> (1 <= p_credit s)%Z -> affordable Number s = true.
Proof.
  intros (H & _) Hst Hcr. unfold affordable, snapshot_cost. rewrite (rel_cost _ _ _ H). pose proof (rel_frames _ _ _ H) as Hf. rewrite Hst in Hf.
  destruct (p_stack s); [|done]. apply Z.leb_le. cbn. destruct (pendingScalar Number s); lia.
Qed.
End Facts.

Section Theorems.
Context {Num : Type} (Number : text -> Num).

(** However the text is cut into pieces and wherever snapshots are taken, no call of the
    parser raises, every [append] ends, and the state is that of the machine that reads the
    text one character after the other: its open containers, keys, phases, pending token,
    open string with its escape, and the costs kept for snapshots. *)
Lemma stream_pieces (ops : list StreamOp) :
  exists s outs, run Number ops parser_new = Some (s, outs) /\
    rel Number s (sp_read Number (text_of ops) spec_new) /\ string_rel s (sp_read Number (text_of ops) spec_new).
Proof.
  destruct (run_sim Number ops None (parser_at []) spec_new (new_sim _ []) ok_new) as (s & outs & start & E & Hs & _).
  exists s, outs. split; [exact E|]. split; apply Hs.
Qed.

(** C25. A JSON document that arrives in any pieces, with snapshots taken anywhere, is in the
    snapshot after the last piece: a value that stands for the document's, numbers by
    [Number], members in their order with the last of two with one key. *)
Theorem stream_parses (ops : list StreamOp) (u doc : text) (t : tree Num) (Hdoc : json_document Number doc t) (Htext : text_of ops ++ u = doc) :
  exists s outs v, run Number (ops ++ [Piece u; Take]) parser_new = Some (s, outs ++ [OutSnapshot (Some v)]) /\
    denotes (p_heap s) (locs (p_stack s)) t v.
Proof.
  destruct (run_sim Number ops None (parser_at []) spec_new (new_sim _ []) ok_new) as (s & outs & start & E & Hs & Hok & _).
  destruct (append_sim_piece Number _ _ _ u Hs Hok) as (s1 & E1 & Hs1 & _ & _ & Hcr).
  rewrite <- read_app, Htext in Hs1. destruct (read_document Number doc t Hdoc) as (Hst & Hdr & Hv).
  destruct (snapshot_value Number _ s1 _ Hs1 Hdr) as (s2 & v & cs & E2 & _ & _ & Hden).
  { apply (affordable_flat _ _ _ _ Hs1 Hst). pose proof (rel_credit _ _ _ (proj1 Hs)). lia. }
  rewrite Hv in Hden. destruct v as [v|]; [|done]. exists s2, (outs ++ [OutChanges (p_changes s1)]), v. split; [|exact Hden].
  change (@parser_new Num) with (@parser_at Num []). rewrite (run_calls_app Number _ _ _ _ _ E). cbn [run run_op]. rewrite E1. cbn [mbind option_bind]. rewrite E2.
  cbn. by rewrite <- app_assoc.
Qed.

(** C26. A writer that applies the changes of all pieces, in order, to its own copy of the
    value holds what the text so far reports: every change applies, and down to 32 open
    containers the copy is the value shown, without the unfinished number or word. *)
Theorem stream_changes (ops : list StreamOp) :
  exists s outs tcs, run Number ops parser_new = Some (s, outs) /\
    Forall2 (change_rel (p_heap s) (locs (p_stack s))) (all_changes outs) tcs /\
    replay_changes tcs None = Some (reported (sp_read Number (text_of ops) spec_new)) /\
    (length (sp_stack (sp_read Number (text_of ops) spec_new)) <= MAX_REPORTED_DEPTH ->
      reported (sp_read Number (text_of ops) spec_new) = shown (sp_read Number (text_of ops) spec_new)).
Proof.
  destruct (run_sim Number ops None (parser_at []) spec_new (new_sim _ []) ok_new) as (s & outs & start & E & Hs & _ & _ & tcs & F & R).
  exists s, outs, tcs. split; [exact E|]. split; [exact F|]. split; [exact R|]. apply reported_shallow.
Qed.

(** When a JSON text has ended, however deep it is and however it was cut, the replayed
    changes are its value. *)
Lemma stream_changes_complete (ops : list StreamOp) (w v w' : text) (t : tree Num)
    (Hw : space w) (Hw' : space w') (Hv : json_text Number v t) (Hend : is_scalar t = true -> w' <> []) (Htext : text_of ops = w ++ v ++ w') :
  exists s outs tcs, run Number ops parser_new = Some (s, outs) /\
    Forall2 (change_rel (p_heap s) (locs (p_stack s))) (all_changes outs) tcs /\ replay_changes tcs None = Some (Some t).
Proof.
  destruct (run_sim Number ops None (parser_at []) spec_new (new_sim _ []) ok_new) as (s & outs & start & E & Hs & _ & _ & tcs & F & R).
  exists s, outs, tcs. split; [exact E|]. split; [exact F|].
  change (replay_changes tcs None = Some (reported (sp_read Number (text_of ops) spec_new))) in R. rewrite R, Htext, (read_ended Number w v w' t) by done. done.
Qed.

(** A snapshot never changes: it stands for the same value after any later pieces and
    snapshots. When the credit pays for it and no token was dropped, that is the value of
    the text so far with the unfinished number or word; when the credit does not, it is the
    previous snapshot. *)
Lemma snapshot_frozen (ops ops' : list StreamOp) :
  exists s outs s1 v s2 outs' T, run Number ops parser_new = Some (s, outs) /\ snapshot Number s = Some (s1, v) /\
    run Number ops' s1 = Some (s2, outs') /\
    opt_denotes (p_heap s1) (locs (p_stack s1)) T v /\ opt_denotes (p_heap s2) (locs (p_stack s2)) T v /\
    (affordable Number s = true -> sp_drops (sp_read Number (text_of ops) spec_new) = 0 ->
      T = pending_value Number (sp_read Number (text_of ops) spec_new)) /\
    (affordable Number s = false -> v = p_snapshot s).
Proof.
  destruct (run_sim Number ops None (parser_at []) spec_new (new_sim _ []) ok_new) as (s & outs & start & E & Hs & Hok & _).
  set (p := sp_read Number (text_of ops) spec_new) in *.
  destruct (snapshot_tree Number start s p Hs) as (s1 & v & cs & T & E1 & Hs1 & Eh & Est & HT & Hcur & Hlag).
  destruct (run_sim Number ops' start s1 p Hs1 Hok) as (s2 & outs' & start2 & E2 & _ & _ & [_ Hl] & _).
  exists s, outs, s1, v, s2, outs', T. split; [exact E|]. split; [exact E1|]. split; [exact E2|].
  split; [exact HT|]. split; [by eapply opt_denotes_evolves|]. split; [exact Hcur|exact Hlag].
Qed.

(** C34. The work of snapshots grows no faster than the text: all that the snapshots of any
    calls copy, the containers and their entries, is at most 256 for each piece and 8 for
    each character. *)
Theorem snapshot_work (ops : list StreamOp) :
  (copied Number ops parser_new <= 256 * Z.of_nat (pieces ops) + 8 * Z.of_nat (length (text_of ops)))%Z.
Proof. apply (copied_credit Number ops None (parser_at []) spec_new (new_sim _ []) ok_new). Qed.
End Theorems.

(** ** Tool call arguments *)

Section ToolCalls.
Context {Num : Type} (Number : text -> Num) (num_eqb : Num -> Num -> bool).

(** Through all appended and replaced texts of a tool call, no call raises, the text
    kept is the complete text, and the arguments shown are an object that never changes
    afterwards, whatever is appended or replaced later; for the text of an object they are
    that object, and for that of an array or a string empty. *)
Lemma tool_arguments (cs cs' : list Call) :
  exists a a' ms, calls Number num_eqb cs arguments_new = Some a /\ calls Number num_eqb cs' a = Some a' /\
    as_text a = calls_text [] cs /\ as_text a' = calls_text [] (cs ++ cs') /\
    denotes (p_heap (as_parser a)) (locs (p_stack (as_parser a))) (TObj ms) (as_arguments a) /\
    denotes (p_heap (as_parser a')) (locs (p_stack (as_parser a'))) (TObj ms) (as_arguments a) /\
    (forall t, json_document Number (calls_text [] cs) t -> is_scalar t = false -> arguments_of (Some t) = TObj ms).
Proof.
  destruct (calls_ok Number num_eqb cs arguments_new [] (new_ok Number)) as (a & ms & E & Ha & Et & _ & Hc); [done|].
  destruct (calls_ok Number num_eqb cs' a ms Ha Hc) as (a' & ms' & E' & _ & Et' & [_ Hl] & _).
  exists a, a', ms. split; [done|]. split; [done|]. split; [exact Et|].
  split; [rewrite Et', Et; unfold calls_text; by rewrite fold_left_app|]. split; [apply Ha|]. split; [eapply denotes_evolves; [exact Hl|apply Ha]|].
  intros t Hdoc Hs. change (as_text arguments_new) with (@nil N) in Et. rewrite Et in Hc.
  destruct (read_document Number _ t Hdoc) as (Hst & Hdr & Hv). rewrite <- Hv. apply Hc; [done|done|]. by eapply read_closed.
Qed.
End ToolCalls.

(** ** Sample *)

Definition sample_key : text := [107]%N.
(** [{"k": [7]}], and the same in pieces. *)
Definition sample_doc : text := [123; 34; 107; 34; 58; 32; 91; 55; 93; 125]%N.
Definition sample_ops : list StreamOp := [Piece [123; 34; 107]%N; Take; Piece []; Piece [34; 58; 32; 91; 55]%N; Take].
Definition sample_tree : tree text := object_of [(sample_key, TArr [TNum [55]%N])].

Lemma sample_json : json_text (fun t => t) sample_doc sample_tree.
Proof.
  pose proof (members_one (fun t => t) [] sample_key sample_key [] [32]%N [91; 55; 93]%N (TArr [TNum [55]%N]) []) as H.
  apply (json_object _ [34; 107; 34; 58; 32; 91; 55; 93]%N [(sample_key, TArr [TNum [55]%N])]), H; try (by repeat constructor).
  apply (json_array _ [55]%N [TNum [55]%N]), (elements_one _ [] [55]%N (TNum [55]%N) []); [by constructor| |by constructor].
  by apply (json_number (fun t => t) [55]%N).
Qed.

Lemma sample_document : json_document (fun t => t) sample_doc sample_tree.
Proof. split. exists [], sample_doc, []. split; [done|]. split; [by constructor|]. split; [by constructor|]. split; [apply sample_json|]. done. Qed.

Lemma stream_parses_witness :
  exists s outs v, run (fun t => t) (sample_ops ++ [Piece [93; 125]%N; Take]) parser_new = Some (s, outs ++ [OutSnapshot (Some v)]) /\
    denotes (p_heap s) (locs (p_stack s)) sample_tree v.
Proof. apply (stream_parses (fun t => t) sample_ops [93; 125]%N sample_doc sample_tree); [exact sample_document|reflexivity]. Defined.

Lemma stream_changes_complete_witness :
  exists s outs tcs, run (fun t => t) (sample_ops ++ [Piece [93; 125]%N]) parser_new = Some (s, outs) /\
    Forall2 (change_rel (p_heap s) (locs (p_stack s))) (all_changes outs) tcs /\ replay_changes tcs None = Some (Some sample_tree).
Proof.
  apply (stream_changes_complete (fun t => t) (sample_ops ++ [Piece [93; 125]%N]) [] sample_doc [] sample_tree).
  - constructor.
  - constructor.
  - exact sample_json.
  - intros H. discriminate H.
  - reflexivity.
Defined.

(** A word that is shown and then dropped: after [[tru] the snapshot is [[true]], and it
    stays after the comma, where the text has no element. *)
Definition dropped_ops : list StreamOp := [Piece [91; 116; 114; 117]%N; Take; Piece [44]%N; Take].

Lemma dropped_word_stays :
  exists s c1 c2, run (fun t => t) dropped_ops parser_new = Some (s, [c1; OutSnapshot (Some (VRef 2)); c2; OutSnapshot (Some (VRef 2))]) /\
    p_heap s !! 2 = Some (CArray [VBool true]) /\
    pending_value (fun t => t) (sp_read (fun t => t) (text_of dropped_ops) spec_new) = Some (TArr []).
Proof. vm_compute. eexists _, _, _. split; [reflexivity|]. split; reflexivity. Qed.
