(* ===== verification/ContextModel.v ===== *)
(** The model context of a conversation (durable/src/harness/context.ts): what a provider is
    sent, derived from the visible entries after the newest head marker, and kept as a range
    that later reads and commits extend. *)
From S2P Require Import Prelude JsString Json StorageTypes SortedIds.

(** ** Messages *)

(** A message as an object: [mg_origin] says which object it is, that at a place of the
    model of an entry. The messages of edits and those made here are other objects. *)
Record Message : Type := { mg_origin : option (N * nat); mg_value : json }.

Definition field (k : string) (v : json) : option json := match v with JObj _ fs => obj_get k fs | _ => None end.
Definition text_field (k : string) (v : json) : option string :=
  match field k v with Some (JStr s) => Some s | _ => None end.

Definition has_role (r : string) (m : Message) : bool := bool_decide (text_field "role" (mg_value m) = Some r).

(** [===] of messages. *)
Definition same_message (m n : Message) : bool :=
  match mg_origin m, mg_origin n with Some a, Some b => bool_decide (a = b) | _, _ => false end.

Definition EXCLUDED_STOP_REASONS : list string := ["aborted"; "error"; "deferred"].
Definition MISSING_RESULT_TEXT : string := "Tool result unavailable: history ends before this call completed.".

Definition stop_excluded (m : Message) : bool :=
  match text_field "stopReason" (mg_value m) with Some s => bool_decide (s ∈ EXCLUDED_STOP_REASONS) | None => false end.

(** The tool calls in the content of an assistant message. *)
Definition tool_calls (m : Message) : list json :=
  match field "content" (mg_value m) with
  | Some (JArr _ items) => filter (fun c => text_field "type" c = Some "toolCall") items
  | _ => []
  end.

Definition value_or_null (v : option json) : json := default JNull v.

Definition missingResult (call : json) (timestamp : option json) : Message :=
  {| mg_origin := None;
     mg_value := jobj
       [("role", JStr "toolResult"); ("toolCallId", value_or_null (field "id" call)); ("toolName", value_or_null (field "name" call));
        ("content", jarr [jobj [("type", JStr "text"); ("text", JStr MISSING_RESULT_TEXT)]]); ("isError", JBool true);
        ("details", jobj [("reason", JStr "missing_result")]); ("timestamp", value_or_null timestamp)] |}.

(** ** Tool results after their calls *)

(** The messages before the next assistant message. *)
Fixpoint before_assistant (messages : list Message) : list Message :=
  match messages with
  | [] => []
  | m :: rest => if has_role "assistant" m then [] else m :: before_assistant rest
  end.

(** The first result of each call. *)
Definition collect_results (messages : list Message) : gmap (option string) Message :=
  foldl (fun results m =>
    if has_role "toolResult" m && negb (is_some (results !! text_field "toolCallId" (mg_value m)))
    then <[text_field "toolCallId" (mg_value m) := m]> results else results) ∅ messages.

Definition results_of (message : Message) (rest : list Message) : list Message :=
  let results := collect_results (before_assistant rest) in
  (fun call =>
     match results !! text_field "id" call with
     | Some m => m
     | None => missingResult call (field "timestamp" (mg_value message))
     end) <$> tool_calls message.

Fixpoint orderToolResults (messages : list Message) : list Message :=
  match messages with
  | [] => []
  | m :: rest =>
      if has_role "toolResult" m then orderToolResults rest
      else m :: (if has_role "assistant" m then results_of m rest else []) ++ orderToolResults rest
  end.

(** ** Ranges *)

Record ContextBounds : Type := { cb_head : option EntryRecord; cb_tail : N }.

Record ContextView : Type := {
  cv_head : option EntryRecord;
  cv_entries : list EntryRecord;
  cv_contributions : list (list Message);
  cv_messages : list Message;
}.

(** The inner [None] is [null]: the range cannot have a baseline. *)
Abbreviation Baseline := (option (option Message)).

Record ContextRange : Type := {
  cr_bounds : ContextBounds;
  cr_entries : list EntryRecord;
  cr_view : ContextView;
  cr_edited : gset N;
  cr_settled : list Message;
  cr_open : list Message;
  cr_baseline : Baseline;
  cr_current : bool;
}.

(** The messages of an entry's model. *)
Definition entry_model (e : EntryRecord) : option (list Message) :=
  (imap (fun i v => {| mg_origin := Some (e_id e, i); mg_value := v |})) <$> e_model e.

Definition edit_messages (messages : list json) : list Message :=
  (fun v => {| mg_origin := None; mg_value := v |}) <$> messages.

(** [contribute]; an edit with messages replaces, one without omits. *)
Definition contribute (e : EntryRecord) (edit : option ContextEdit) : list Message :=
  match edit with
  | Some {| ce_messages := None |} => []
  | _ =>
      let contributed :=
        match edit with
        | Some {| ce_messages := Some messages |} => edit_messages messages
        | _ => default [] (entry_model e)
        end in
      filter (fun m => negb (has_role "assistant" m) || negb (stop_excluded m) = true) contributed
  end.

Fixpoint findLastIndex {A} (P : A -> bool) (l : list A) : option nat :=
  match l with
  | [] => None
  | x :: l' => match findLastIndex P l' with Some i => Some (S i) | None => if P x then Some 0 else None end
  end.

Fixpoint findIndex {A} (P : A -> bool) (l : list A) : option nat :=
  match l with [] => None | x :: l' => if P x then Some 0 else S <$> findIndex P l' end.

(** [settle]: the settled and the open messages. *)
Definition settle (settled open : list Message) : list Message * list Message :=
  match findLastIndex (has_role "assistant") open with
  | None | Some 0 => (settled, open)
  | Some last => (settled ++ orderToolResults (take last open), drop last open)
  end.

Definition is_system_entry (e : EntryRecord) : bool := bool_decide (e_kind e = "pi.system").

Definition carriesSystemMessage (e : EntryRecord) : bool :=
  existsb (has_role "system") (default [] (entry_model e)) ||
  existsb (fun edit => match ce_messages edit with Some messages => existsb (has_role "system") (edit_messages messages) | None => false end)
    (default [] (e_edits e)).

Fixpoint findBaseline (head : option EntryRecord) (entries : list EntryRecord) : Baseline :=
  match entries with
  | [] => None
  | e :: rest =>
      if match head with Some h => (e_id e <=? e_id h)%N | None => false end then findBaseline head rest
      else if is_system_entry e then Some (find (has_role "system") (default [] (entry_model e)))
      else if negb (is_some head) && carriesSystemMessage e then Some None
      else findBaseline head rest
  end.

(** [system !== baseline]. *)
Definition is_baseline (system : Message) (baseline : Baseline) : bool :=
  match baseline with Some (Some m) => same_message system m | _ => false end.

Definition leadWithSystem (messages : list Message) (baseline : Baseline) : list Message :=
  match findIndex (has_role "system") messages with
  | None | Some 0 => messages
  | Some index =>
      match messages !! index with
      | None => messages
      | Some system =>
          if negb (is_baseline system baseline) && existsb (fun m => negb (has_role "user" m)) (take index messages) then messages
          else system :: take index messages ++ drop (S index) messages
      end
  end.

(** The head marker and the entries without a head, or all of them. *)
Definition selectActive (head : option EntryRecord) (range : list EntryRecord) : list EntryRecord :=
  match head with None => range | Some h => h :: filter (fun e => e_head e = None) range end.

(** The newest edit of each target. *)
Definition edits_of (entries : list EntryRecord) : gmap N ContextEdit :=
  foldl (fun edits edit => <[ce_target edit := edit]> edits) ∅ (concat ((fun e => default [] (e_edits e)) <$> entries)).

Definition deriveRange (bounds : ContextBounds) (entries : list EntryRecord) (current : bool) : ContextRange :=
  let edits := edits_of entries in
  let active := selectActive (cb_head bounds) entries in
  let contributions := (fun e => contribute e (edits !! e_id e)) <$> active in
  let '(settled, open) := settle [] (concat contributions) in
  let baseline := findBaseline (cb_head bounds) active in
  let messages := leadWithSystem (settled ++ orderToolResults open) baseline in
  {| cr_bounds := bounds; cr_entries := entries;
     cr_view := {| cv_head := cb_head bounds; cv_entries := active; cv_contributions := contributions; cv_messages := messages |};
     cr_edited := dom edits; cr_settled := settled; cr_open := open; cr_baseline := baseline; cr_current := current |}.

Definition extendRange (previous : ContextRange) (bounds : ContextBounds) (added : list EntryRecord) (current : bool) : ContextRange :=
  let entries := cr_entries previous ++ added in
  if existsb (fun e => is_some (e_edits e) || is_some (e_head e) || bool_decide (e_id e ∈ cr_edited previous)) added
  then deriveRange bounds entries current
  else
    let contributions := (fun e => contribute e None) <$> added in
    let '(settled, open) := settle (cr_settled previous) (cr_open previous ++ concat contributions) in
    let baseline := match cr_baseline previous with Some b => Some b | None => findBaseline (cb_head bounds) added end in
    {| cr_bounds := bounds; cr_entries := entries;
       cr_view :=
         {| cv_head := cb_head bounds; cv_entries := cv_entries (cr_view previous) ++ added;
            cv_contributions := cv_contributions (cr_view previous) ++ contributions;
            cv_messages := leadWithSystem (settled ++ orderToolResults open) baseline |};
       cr_edited := cr_edited previous; cr_settled := settled; cr_open := open; cr_baseline := baseline; cr_current := current |}.

Definition with_current (current : bool) (r : ContextRange) : ContextRange :=
  {| cr_bounds := cr_bounds r; cr_entries := cr_entries r; cr_view := cr_view r; cr_edited := cr_edited r;
     cr_settled := cr_settled r; cr_open := cr_open r; cr_baseline := cr_baseline r; cr_current := current |}.

(** [a?.id === b?.id]. *)
Definition same_head (a b : option EntryRecord) : bool := bool_decide (e_id <$> a = e_id <$> b).

(** [advanceRange]: [None] drops the range. *)
Definition advanceRange (range : ContextRange) (appended : list EntryRecord) : option ContextRange :=
  match last appended with
  | None => Some range
  | Some newest =>
      if negb (cr_current range) then Some range
      else
        let head := foldl (fun head e => if is_some (e_head e) then Some e else head) (cb_head (cr_bounds range)) appended in
        let bounds := {| cb_head := head; cb_tail := e_id newest |} in
        if same_head head (cb_head (cr_bounds range)) then Some (extendRange range bounds appended true)
        else
          let start := default 0%N (head ≫= e_head) in
          if match cb_head (cr_bounds range) with Some h => (start <? default 0 (e_head h))%N | None => false end then None
          else Some (deriveRange bounds (filter (fun e => (start <=? e_id e)%N = true) (cr_entries range ++ appended)) true)
  end.

(** ** One entry of a range *)

(** [rangeEntry]; [low] and [high] are numbers, [high] may become -1. *)
Fixpoint rangeEntry_loop (fuel : nat) (entries : list EntryRecord) (id : N) (low high : Z) : option (option EntryRecord) :=
  match fuel with
  | 0 => None
  | S fuel' =>
      if (high <? low)%Z then Some None
      else
        let middle := Z.shiftr (low + high) 1 in
        match entries !! Z.to_nat middle with
        | None => Some None
        | Some e =>
            if (e_id e =? id)%N then Some (Some e)
            else if (e_id e <? id)%N then rangeEntry_loop fuel' entries id (middle + 1) high
            else rangeEntry_loop fuel' entries id low (middle - 1)
        end
  end.

Definition rangeEntry (range : ContextRange) (id : N) : option (option EntryRecord) :=
  rangeEntry_loop (S (length (cr_entries range))) (cr_entries range) id 0 (Z.of_nat (length (cr_entries range)) - 1).

(** ** Reading *)

Inductive ContextError : Type :=
| NotVisible (at_ conversationId : N)
| SourceError (e : storage_error).

Abbreviation cres := (res ContextError).

Definition from_source {A} (r : sres A) : cres A := match r with Ok a => Ok a | Throw e => Throw (SourceError e) end.

(** What a Session answers about a conversation at one moment. *)
Class ConversationSource (S : Type) : Type := {
  latestEntryId : S -> N -> sres (option N);
  latestHeadMarker : S -> N -> N -> sres (option EntryRecord);
  visibleEntry : S -> N -> N -> sres bool;
  entryPage : S -> EntryQuery -> nat -> option Cursor -> sres (Page EntryRecord);
}.

Definition SCAN_PAGE_SIZE : nat := 256.

Section Reading.
Context {S : Type} `{ConversationSource S}.

(** [captureContextBounds]. *)
Definition captureContextBounds (s : S) (conversationId : N) (at_ : option N) (visible : bool) : cres (option ContextBounds) :=
  tail ← match at_ with
         | None => from_source (latestEntryId s conversationId)
         | Some a =>
             seen ← (if visible then Ok true else from_source (visibleEntry s conversationId a));
             if seen : bool then Ok (Some a) else Throw (NotVisible a conversationId)
         end;
  match tail with
  | None => Ok None
  | Some tail =>
      head ← from_source (latestHeadMarker s conversationId tail);
      Ok (Some {| cb_head := head; cb_tail := tail |})
  end.

Definition rangeQuery (bounds : ContextBounds) : option N * N := (cb_head bounds ≫= e_head, cb_tail bounds).

Definition range_query (conversationId : N) (range : option N * N) : EntryQuery :=
  {| eq_conversationId := conversationId; eq_minEntryId := range.1; eq_maxEntryId := Some range.2; eq_order := None |}.

(** [scanRange]: the pages, newest first, and then oldest first. The fuel bounds the pages. *)
Definition scanRange (fuel : nat) (s : S) (conversationId : N) (range : option N * N) : option (cres (list EntryRecord)) :=
  (fun r => from_source (r' ← r; Ok (rev r'))) <$>
  scanAll fuel (entryPage s (range_query conversationId range) SCAN_PAGE_SIZE) None [].

Definition emptyView : ContextView := {| cv_head := None; cv_entries := []; cv_contributions := []; cv_messages := [] |}.

(** [deriveContext]. *)
Definition deriveContext (fuel : nat) (s : S) (conversationId : N) (bounds : option ContextBounds) : option (cres ContextView) :=
  match bounds with
  | None => Some (Ok emptyView)
  | Some bounds =>
      (fun r => entries ← r; Ok (cr_view (deriveRange bounds entries false))) <$> scanRange fuel s conversationId (rangeQuery bounds)
  end.

(** [readContext]: the bounds on the Session's line, the entries off it, at a later moment. *)
Definition readContext (fuel : nat) (line later : S) (conversationId : N) (at_ : option N) : option (cres ContextView) :=
  match captureContextBounds line conversationId at_ false with
  | Throw e => Some (Throw e)
  | Ok bounds => deriveContext fuel later conversationId bounds
  end.

(** The part of [readContextFrom] on the line. *)
Definition readBounds (s : S) (conversationId : N) (at_ : option N) (previous : option ContextRange) : cres (option ContextBounds) :=
  let visible :=
    match at_, previous with
    | Some a, Some r => match rangeEntry r a with Some (Some _) => true | _ => false end
    | _, _ => false
    end in
  captureContextBounds s conversationId at_ visible.

(** The part off the line; [known] is [knownLatestEntryId] after the scan. *)
Definition readRange (fuel : nat) (s : S) (conversationId : N) (current : bool) (previous : option ContextRange)
    (bounds : ContextBounds) (known : option (option N)) : option (cres ContextRange) :=
  let fresh :=
    (fun r => entries ← r; Ok (deriveRange bounds entries current)) <$> scanRange fuel s conversationId (rangeQuery bounds) in
  range ← match previous with
          | None => fresh
          | Some p =>
              if negb (same_head (cb_head (cr_bounds p)) (cb_head bounds)) then fresh
              else if (cb_tail bounds =? cb_tail (cr_bounds p))%N then Some (Ok p)
              else if (cb_tail bounds <? cb_tail (cr_bounds p))%N then
                Some (Ok (deriveRange bounds (filter (fun e => (e_id e <=? cb_tail bounds)%N = true) (cr_entries p)) false))
              else
                (fun r => added ← r; Ok (extendRange p bounds added current)) <$>
                scanRange fuel s conversationId (Some (cb_tail (cr_bounds p) + 1)%N, cb_tail bounds)
          end;
  Some (r ← (range : cres ContextRange);
        Ok (if cr_current r && negb (bool_decide (known = Some (Some (cb_tail (cr_bounds r))))) then with_current false r else r)).

(** [readContextFrom]: the view, and the range to keep. *)
Definition readContextFrom (fuel : nat) (line later : S) (conversationId : N) (at_ : option N) (previous : option ContextRange)
    (known : option (option N)) : option (cres (ContextView * option ContextRange)) :=
  match readBounds line conversationId at_ previous with
  | Throw e => Some (Throw e)
  | Ok None => Some (Ok (emptyView, None))
  | Ok (Some bounds) =>
      (fun r => range ← r; Ok (cr_view range, Some range)) <$>
      readRange fuel later conversationId (negb (is_some at_)) previous bounds known
  end.
End Reading.
