(* ===== verification/ContextReads.v ===== *)
(** Kept ranges show the conversation: a range read or extended is the one derived from the
    entries that are visible, whatever was committed while it was read. What a provider is
    sent: every tool call is followed by its result. *)
From S2P Require Import Prelude JsString Json StorageTypes SortedIds ContextModel.
From Stdlib Require Import Sorted.

Implicit Types (messages : list Message) (m : Message) (e : EntryRecord) (b : ContextBounds).

(** ** Ordering in parts *)

(** A part that starts with an assistant message, or nothing. *)
Definition starts_part messages : Prop := match messages with [] => True | m :: _ => has_role "assistant" m = true end.

Lemma before_assistant_app l l' : starts_part l' -> before_assistant (l ++ l') = before_assistant l.
Proof.
  intros Hs. induction l as [|m l IH]; cbn.
  - destruct l' as [|m l']; [done|]. cbn in Hs |- *. by rewrite Hs.
  - destruct (has_role "assistant" m); [done|]. by rewrite IH.
Qed.

Lemma order_app l l' : starts_part l' -> orderToolResults (l ++ l') = orderToolResults l ++ orderToolResults l'.
Proof.
  intros Hs. induction l as [|m l IH]; [done|]. cbn [app orderToolResults]. rewrite IH. destruct (has_role "toolResult" m); [done|].
  unfold results_of. rewrite before_assistant_app by done. cbn [app]. by rewrite app_assoc.
Qed.

(** ** Settling in parts *)

Section LastIndex.
Context {A : Type} (P : A -> bool).

Lemma findLastIndex_app (l l' : list A) :
  findLastIndex P (l ++ l') = match findLastIndex P l' with Some i => Some (length l + i) | None => findLastIndex P l end.
Proof.
  induction l as [|x l IH]; cbn; [by destruct (findLastIndex P l')|]. rewrite IH. by destruct (findLastIndex P l').
Qed.

Lemma findLastIndex_spec (l : list A) i : findLastIndex P l = Some i -> exists x, l !! i = Some x /\ P x = true.
Proof.
  revert i. induction l as [|x l IH]; intros i; cbn; [done|]. destruct (findLastIndex P l) as [j|] eqn:E.
  - intros [= <-]. by apply IH.
  - destruct (P x) eqn:Ex; [|done]. intros [= <-]. by exists x.
Qed.

Lemma findLastIndex_drop (l : list A) i : findLastIndex P l = Some i -> findLastIndex P (drop i l) = Some 0.
Proof.
  revert i. induction l as [|x l IH]; intros i; cbn; [done|]. destruct (findLastIndex P l) as [j|] eqn:E.
  - intros [= <-]. cbn. by apply IH.
  - destruct (P x) eqn:Ex; [|done]. intros [= <-]. cbn. by rewrite E, Ex.
Qed.
End LastIndex.

Lemma drop_starts (l : list Message) i : findLastIndex (has_role "assistant") l = Some i -> starts_part (drop i l).
Proof.
  intros Hi. destruct (findLastIndex_spec _ _ _ Hi) as (x & Hx & Ha). by rewrite (drop_S _ _ _ Hx).
Qed.

(** What is settled and what is open together are the messages. *)
Lemma settle_order s o s' o' : settle s o = (s', o') -> s' ++ orderToolResults o' = s ++ orderToolResults o.
Proof.
  unfold settle. destruct (findLastIndex _ o) as [[|i]|] eqn:E; try by intros [= <- <-]. intros [= <- <-].
  rewrite <- app_assoc. f_equal. rewrite <- order_app by by apply drop_starts. by rewrite take_drop.
Qed.

Lemma settle_app l l' s o : settle [] l = (s, o) -> settle s (o ++ l') = settle [] (l ++ l').
Proof.
  unfold settle at 1. destruct (findLastIndex (has_role "assistant") l) as [[|i]|] eqn:E; try by intros [= <- <-].
  intros [= <- <-]. pose proof (findLastIndex_drop _ _ _ E) as E0. pose proof (drop_starts _ _ E) as Hst.
  unfold settle. cbn [app]. rewrite !findLastIndex_app, E, E0. destruct (findLastIndex (has_role "assistant") l') as [j|].
  - assert (HR : drop (S i) l <> []) by (intros Hn; by rewrite Hn in E0).
    set (A := take (S i) l). set (R := drop (S i) l) in *.
    transitivity (orderToolResults A ++ orderToolResults (R ++ take j l'), drop j l').
    + destruct (length R + j) as [|k] eqn:Ek; [by destruct R|]. by rewrite <- Ek, take_app_add, drop_app_add.
    + destruct (length l + j) as [|k] eqn:Ek; [by destruct l|]. rewrite <- Ek, take_app_add, drop_app_add. f_equal.
      rewrite <- order_app by by destruct R. by rewrite app_assoc; unfold A, R; rewrite take_drop.
  - destruct (findLastIndex_spec _ _ _ E) as (x & Hx & _). pose proof (lookup_lt_Some _ _ _ Hx).
    by rewrite take_app_le, drop_app_le by lia.
Qed.

(** ** The baseline in parts *)

Lemma findBaseline_app head l l' :
  findBaseline head (l ++ l') = match findBaseline head l with Some b => Some b | None => findBaseline head l' end.
Proof.
  induction l as [|e l IH]; cbn; [done|]. destruct (match head with Some h => _ | None => false end); [done|].
  destruct (is_system_entry e); [done|]. by destruct (_ && carriesSystemMessage e).
Qed.

(** ** Edits *)

Lemma edits_of_app l l' : Forall (fun e => e_edits e = None) l' -> edits_of (l ++ l') = edits_of l.
Proof.
  intros Hn. unfold edits_of. rewrite fmap_app, concat_app, foldl_app.
  assert (E : concat ((fun e => default [] (e_edits e)) <$> l') = []); [|by rewrite E].
  induction Hn as [|e l' He _ IH]; [done|]. cbn. by rewrite He.
Qed.

(** ** Extending a range *)

Lemma derive_entries b entries c : cr_entries (deriveRange b entries c) = entries.
Proof. unfold deriveRange. by destruct (settle [] _). Qed.
Lemma derive_bounds b entries c : cr_bounds (deriveRange b entries c) = b.
Proof. unfold deriveRange. by destruct (settle [] _). Qed.
Lemma derive_edited b entries c : cr_edited (deriveRange b entries c) = dom (edits_of entries).
Proof. unfold deriveRange. by destruct (settle [] _). Qed.
Lemma derive_current b entries c : cr_current (deriveRange b entries c) = c.
Proof. unfold deriveRange. by destruct (settle [] _). Qed.
Lemma derive_with b entries c c' : with_current c' (deriveRange b entries c) = deriveRange b entries c'.
Proof. unfold deriveRange. by destruct (settle [] _). Qed.

(** A range extended by later entries under the same head marker is the range derived from
    all of them. *)
Lemma extend_derive b b' entries added c0 c :
  cb_head b' = cb_head b -> extendRange (deriveRange b entries c0) b' added c = deriveRange b' (entries ++ added) c.
Proof.
  intros Hh. unfold extendRange.
  rewrite derive_entries, derive_edited. destruct (existsb _ added) eqn:Hx; [done|].
  assert (Hadd : Forall (fun e => e_edits e = None /\ e_head e = None /\ edits_of entries !! e_id e = None) added).
  { apply Forall_forall. intros e He. rewrite <- not_true_iff_false, existsb_exists in Hx.
    assert (Hn : ~ (is_some (e_edits e) || is_some (e_head e) || bool_decide (e_id e ∈ dom (edits_of entries)) = true)).
    { intros Ht. apply Hx. exists e. by rewrite <- list_elem_of_In. }
    rewrite !orb_true_iff, bool_decide_eq_true, elem_of_dom in Hn.
    destruct (e_edits e), (e_head e), (edits_of entries !! e_id e) eqn:Ed; cbn in Hn; try tauto. destruct Hn. right. by eexists. }
  assert (He : edits_of (entries ++ added) = edits_of entries) by (apply edits_of_app; eapply Forall_impl; [exact Hadd|]; by intros ? (? & _)).
  assert (Hact : selectActive (cb_head b') (entries ++ added) = selectActive (cb_head b) entries ++ added).
  { rewrite Hh. unfold selectActive. destruct (cb_head b); [|done]. cbn. rewrite filter_app. f_equal. f_equal.
    apply filter_id. intros x Hin. rewrite Forall_forall in Hadd. by apply Hadd. }
  assert (Hcon : (fun e => contribute e (edits_of entries !! e_id e)) <$> added = (fun e => contribute e None) <$> added).
  { apply list_fmap_ext. intros i e Hi. eapply Forall_lookup_1 in Hadd as (_ & _ & ->); done. }
  unfold deriveRange. rewrite He, Hact, fmap_app, concat_app, Hcon, findBaseline_app.
  set (contributions := (fun e => contribute e (edits_of entries !! e_id e)) <$> selectActive (cb_head b) entries).
  destruct (settle [] (concat contributions)) as [s o] eqn:Es. cbn [cr_settled cr_open cr_baseline cr_view cr_entries cr_edited cv_entries cv_contributions].
  rewrite (settle_app _ _ _ _ Es). rewrite Hh. by destruct (settle [] (concat contributions ++ _)).
Qed.

Implicit Types (V W : list EntryRecord) (r : ContextRange).

(** ** What a context is *)

(** The visible entries of a conversation, oldest first; a head is never after its marker. *)
Record visible_history V : Prop := {
  vh_sorted : StronglySorted N.lt (e_id <$> V);
  vh_clone : Forall (fun e => clone e = e) V;
  vh_heads : Forall (fun e => forall h, e_head e = Some h -> (h <= e_id e)%N) V;
}.

Definition up_to (tail : N) V : list EntryRecord := filter (fun e => (e_id e <= tail)%N) V.

(** The newest entry with a head. *)
Definition newest_head V : option EntryRecord := last (filter (fun e => is_some (e_head e) = true) V).

Definition bounds_at (tail : N) V : ContextBounds := {| cb_head := newest_head (up_to tail V); cb_tail := tail |}.

Definition between (range : option N * N) V : list EntryRecord :=
  filter (fun e => (default 0 range.1 <= e_id e)%N /\ (e_id e <= range.2)%N) V.

(** The context of a conversation up to an entry. *)
Definition range_at (tail : N) V (current : bool) : ContextRange :=
  deriveRange (bounds_at tail V) (between (rangeQuery (bounds_at tail V)) V) current.

Definition context_at (tail : N) V : ContextView := cr_view (range_at tail V false).

Definition tail_of r : N := cb_tail (cr_bounds r).

(** A range that shows the conversation up to its tail. *)
Record shows r V : Prop := {
  sh_tail : tail_of r ∈ e_id <$> V;
  sh_range : r = range_at (tail_of r) V (cr_current r);
}.

(** A range taken for current reaches the newest entry. *)
Definition reaches r V : Prop := cr_current r = true -> e_id <$> last V = Some (tail_of r).

(** ** What a source answers *)

Class SourceLaws (S : Type) `{ConversationSource S} : Type := {
  source_shows : S -> N -> list EntryRecord -> Prop;
  source_history s c V : source_shows s c V -> visible_history V;
  source_latest s c V : source_shows s c V -> latestEntryId s c = Ok (e_id <$> last V);
  source_marker s c V tail : source_shows s c V -> latestHeadMarker s c tail = Ok (newest_head (up_to tail V));
  source_visible s c V id : source_shows s c V -> visibleEntry s c id = Ok (bool_decide (id ∈ e_id <$> V));
  source_pages s c V range : source_shows s c V ->
    PagedScan e_id (entryPage s (range_query c range) SCAN_PAGE_SIZE) SCAN_PAGE_SIZE descending (rev (between range V));
}.

(** ** Histories that grow *)

Lemma history_app V W : visible_history (V ++ W) -> visible_history V /\ visible_history W /\ forall v w, v ∈ V -> w ∈ W -> (e_id v < e_id w)%N.
Proof.
  intros [Hs Hc Hh]. rewrite fmap_app in Hs. apply Forall_app in Hc as [? ?], Hh as [? ?]. apply StronglySorted_app_lt in Hs as (? & ? & H3).
  split; [by split|]. split; [by split|]. intros v w Hv Hw. apply H3; by apply list_elem_of_fmap_2.
Qed.

Lemma history_id V e e' : visible_history V -> e ∈ V -> e' ∈ V -> e_id e = e_id e' -> e = e'.
Proof.
  intros [Hs _ _]. induction V as [|x V IH]; [by intros ?%elem_of_nil|]. inversion Hs as [|? ? Hs' Hlt]; subst.
  rewrite Forall_fmap, Forall_forall in Hlt. cbn in Hlt.
  intros [->|H1]%elem_of_cons [->|H2]%elem_of_cons E; [done| | |by apply IH].
  - specialize (Hlt _ H2). lia.
  - specialize (Hlt _ H1). lia.
Qed.

Lemma filter_history (P : EntryRecord -> Prop) `{forall e, Decision (P e)} V : visible_history V -> visible_history (filter P V).
Proof.
  intros [Hs Hc Hh]. rewrite Forall_forall in Hc, Hh. split; [|apply Forall_forall; intros e [_ He]%list_elem_of_filter; by apply Hc|
    apply Forall_forall; intros e [_ He]%list_elem_of_filter; by apply Hh].
  clear Hc Hh. induction V as [|e V IH]; [constructor|]. inversion Hs as [|? ? Hs' Hlt]; subst. rewrite filter_cons.
  destruct (decide _); [|by apply IH]. cbn. constructor; [by apply IH|]. rewrite Forall_fmap, Forall_forall in Hlt |- *.
  intros x [_ Hx]%list_elem_of_filter. by apply Hlt.
Qed.

Lemma newest_id V : visible_history V -> forall e tail, e_id <$> last V = Some tail -> e ∈ V -> (e_id e <= tail)%N.
Proof.
  intros Hh e tail Hl He. destruct (last V) as [x|] eqn:E; [|done]. injection Hl as <-. apply last_Some in E as [V' ->].
  apply elem_of_app in He as [He|He]; [|by apply list_elem_of_singleton in He as ->].
  apply history_app in Hh as (_ & _ & H). apply N.lt_le_incl, H; [done|]. by apply list_elem_of_singleton.
Qed.

(** Entries above the tail change nothing. *)
Lemma up_to_grows tail V W : visible_history (V ++ W) -> tail ∈ e_id <$> V -> up_to tail (V ++ W) = up_to tail V.
Proof.
  intros Hh (e & -> & He)%list_elem_of_fmap. apply history_app in Hh as (_ & _ & H). unfold up_to. rewrite filter_app.
  rewrite (filter_none _ W); [by rewrite app_nil_r|]. intros w Hw. specialize (H e w He Hw). lia.
Qed.

Lemma between_grows range V W : visible_history (V ++ W) -> range.2 ∈ e_id <$> V -> between range (V ++ W) = between range V.
Proof.
  intros Hh (e & E & He)%list_elem_of_fmap. apply history_app in Hh as (_ & _ & H). unfold between. rewrite filter_app.
  rewrite (filter_none _ W); [by rewrite app_nil_r|]. intros w Hw. specialize (H e w He Hw). lia.
Qed.

Lemma range_grows tail V W c : visible_history (V ++ W) -> tail ∈ e_id <$> V ->
  bounds_at tail (V ++ W) = bounds_at tail V /\ range_at tail (V ++ W) c = range_at tail V c.
Proof.
  intros Hh Ht. assert (E : bounds_at tail (V ++ W) = bounds_at tail V) by (unfold bounds_at; by rewrite up_to_grows).
  split; [done|]. unfold range_at. by rewrite E, between_grows.
Qed.

(** A range still shows a conversation that grew. *)
Lemma shows_grows r V W : visible_history (V ++ W) -> shows r V -> shows r (V ++ W).
Proof.
  intros Hh [Ht E]. split; [rewrite fmap_app; set_solver|]. by destruct (range_grows _ V W (cr_current r) Hh Ht) as [_ ->].
Qed.

(** ** Reading *)

Lemma newest_some V tail : e_id <$> last V = Some tail -> tail ∈ e_id <$> V.
Proof.
  destruct (last V) as [e|] eqn:E; [|done]. intros [= <-]. apply last_Some in E as [V' ->]. rewrite fmap_app. set_solver.
Qed.

Lemma between_sub range V e : e ∈ between range V -> e ∈ V.
Proof. unfold between. by intros [_ ?]%list_elem_of_filter. Qed.

Lemma range_entries tail V c : cr_entries (range_at tail V c) = between (rangeQuery (bounds_at tail V)) V.
Proof. apply derive_entries. Qed.

Lemma range_tail tail V c : tail_of (range_at tail V c) = tail.
Proof. unfold tail_of, range_at. by rewrite derive_bounds. Qed.

Lemma range_head tail V c : cb_head (cr_bounds (range_at tail V c)) = newest_head (up_to tail V).
Proof. unfold range_at. by rewrite derive_bounds. Qed.

Lemma range_current tail V c : cr_current (range_at tail V c) = c.
Proof. apply derive_current. Qed.

Lemma range_with tail V c c' : with_current c' (range_at tail V c) = range_at tail V c'.
Proof. apply derive_with. Qed.

Lemma range_view tail V c : cr_view (range_at tail V c) = context_at tail V.
Proof. unfold context_at. by rewrite <- (range_with tail V c false). Qed.

Lemma range_shows tail V c : tail ∈ e_id <$> V -> shows (range_at tail V c) V.
Proof. intros Ht. split; by rewrite range_tail, ?range_current. Qed.

(** Under the same head marker, a range is split where an earlier one ends. *)
Lemma between_split lo mid hi V :
  visible_history V -> (mid <= hi)%N -> (default 0 lo <= mid)%N -> between (lo, hi) V = between (lo, mid) V ++ between (Some (mid + 1)%N, hi) V.
Proof.
  intros [Hs _ _] Hm Hlo. unfold between. cbn [fst snd].
  change (default 0%N (Some (mid + 1)%N)) with (mid + 1)%N. induction V as [|e V IH]; [done|]. inversion Hs as [|? ? Hs' Hlt]; subst.
  rewrite !filter_cons. specialize (IH Hs').
  destruct (decide (e_id e <= mid)%N) as [Hle|Hgt].
  - rewrite (decide_False (P := (mid + 1 <= e_id e)%N /\ (e_id e <= hi)%N)) by lia.
    destruct (decide (default 0 lo <= e_id e /\ e_id e <= hi)%N) as [H1|H1], (decide (default 0 lo <= e_id e /\ e_id e <= mid)%N) as [H2|H2]; try lia.
    + cbn. by rewrite IH.
    + done.
  - rewrite (decide_False (P := (default 0 lo <= e_id e)%N /\ (e_id e <= mid)%N)) by lia.
    rewrite (filter_none (fun e0 => (default 0 lo <= e_id e0)%N /\ (e_id e0 <= mid)%N) V) in *.
    + cbn [app] in *. rewrite IH.
      destruct (decide (default 0 lo <= e_id e /\ e_id e <= hi)%N) as [H1|H1], (decide (mid + 1 <= e_id e /\ e_id e <= hi)%N) as [H2|H2]; done || lia.
    + intros x Hx. rewrite Forall_fmap, Forall_forall in Hlt. specialize (Hlt x Hx). cbn in Hlt. lia.
    + intros x Hx. rewrite Forall_fmap, Forall_forall in Hlt. specialize (Hlt x Hx). cbn in Hlt. lia.
Qed.

Lemma newest_head_in V h : newest_head V = Some h -> h ∈ V /\ is_Some (e_head h).
Proof.
  unfold newest_head. intros H. apply last_Some in H as [V' H]. assert (Hin : h ∈ filter (fun e => is_some (e_head e) = true) V) by (rewrite H; set_solver).
  apply list_elem_of_filter in Hin as [Hh Hin]. split; [done|]. by destruct (e_head h).
Qed.

Lemma up_to_elem tail V e : e ∈ up_to tail V <-> (e_id e <= tail)%N /\ e ∈ V.
Proof. unfold up_to. by rewrite list_elem_of_filter. Qed.

(** The head of a range is not after its tail. *)
Lemma head_before tail V : visible_history V -> (default 0 (newest_head (up_to tail V) ≫= e_head) <= tail)%N.
Proof.
  intros Hh. destruct (newest_head (up_to tail V)) as [h|] eqn:E; [|cbn; lia]. apply newest_head_in in E as [[Hle Hin]%up_to_elem [x Hx]].
  cbn. rewrite Hx. cbn. pose proof (vh_heads _ Hh) as Hf. rewrite Forall_forall in Hf. specialize (Hf h Hin x Hx). lia.
Qed.

Lemma same_newest t t' V :
  visible_history V -> same_head (newest_head (up_to t V)) (newest_head (up_to t' V)) = true -> newest_head (up_to t V) = newest_head (up_to t' V).
Proof.
  intros Hh Hs%bool_decide_eq_true. destruct (newest_head (up_to t V)) as [h|] eqn:E, (newest_head (up_to t' V)) as [h'|] eqn:E'; try done.
  apply newest_head_in in E as [[_ E]%up_to_elem _], E' as [[_ E']%up_to_elem _]. injection Hs as Hs. f_equal. by eapply history_id.
Qed.

(** A range cut off at an earlier entry. *)
Lemma between_cut lo mid hi V :
  (mid <= hi)%N -> filter (fun e => (e_id e <=? mid)%N = true) (between (lo, hi) V) = between (lo, mid) V.
Proof.
  intros Hm. unfold between. rewrite list_filter_filter. apply list_filter_iff. intros e. cbn. rewrite N.leb_le. lia.
Qed.

(** A range extended by what follows it, under the same head marker. *)
Lemma extend_range t tail V c c' :
  visible_history V -> newest_head (up_to t V) = newest_head (up_to tail V) -> (t <= tail)%N ->
  extendRange (range_at t V c) (bounds_at tail V) (between (Some (t + 1)%N, tail) V) c' = range_at tail V c'.
Proof.
  intros Hh E Hle. unfold range_at. rewrite extend_derive by (cbn; by rewrite E). unfold rangeQuery. cbn [cb_head cb_tail bounds_at]. rewrite <- E.
  rewrite <- between_split; [done|done|lia|by apply head_before].
Qed.

Section Source.
Context {S : Type} `{SourceLaws S}.
Implicit Types (s : S) (c : N).

Lemma scanRange_spec fuel s c V range :
  source_shows s c V -> length V < fuel -> scanRange fuel s c range = Some (Ok (between range V)).
Proof.
  intros Hs Hf. pose proof (source_history s c V Hs) as Hh. unfold scanRange.
  rewrite (scanAll_spec e_id _ SCAN_PAGE_SIZE descending (rev (between range V))).
  - cbn. do 2 f_equal. unfold clone, Clone_list. rewrite fmap_rev, rev_involutive. rewrite <- (list_fmap_id (between range V)) at 2.
    apply Forall_fmap_ext. pose proof (vh_clone _ Hh) as Hc. rewrite Forall_forall in Hc |- *. intros e He. by apply Hc, (between_sub range).
  - by apply source_pages.
  - unfold SCAN_PAGE_SIZE. lia.
  - rewrite length_rev. pose proof (length_filter (fun e => (default 0 range.1 <= e_id e)%N /\ (e_id e <= range.2)%N) V). unfold between. lia.
Qed.

(** The entry a read ends at. *)
Definition read_tail (at_ : option N) V : option N := match at_ with None => e_id <$> last V | Some a => Some a end.

Definition may_read (at_ : option N) V : bool := match at_ with None => true | Some a => bool_decide (a ∈ e_id <$> V) end.

Lemma capture_spec s c V at_ visible :
  source_shows s c V -> (visible = true -> may_read at_ V = true) ->
  captureContextBounds s c at_ visible =
    if may_read at_ V then Ok ((fun tail => bounds_at tail V) <$> read_tail at_ V) else Throw (NotVisible (default 0%N at_) c).
Proof.
  intros Hs Hv. unfold captureContextBounds. destruct at_ as [a|]; cbn [may_read read_tail default from_option] in *.
  - destruct visible; cbn [mbind res_bind].
    + rewrite Hv by done. rewrite (source_marker s c V) by done. done.
    + rewrite (source_visible s c V) by done. cbn [from_source mbind res_bind]. destruct (bool_decide _); [|done].
      cbn [mbind res_bind]. by rewrite (source_marker s c V).
  - rewrite (source_latest s c V) by done. cbn [from_source mbind res_bind]. destruct (last V) as [e|]; [|done]. cbn.
    by rewrite (source_marker s c V).
Qed.

Lemma read_tail_in at_ V tail : may_read at_ V = true -> read_tail at_ V = Some tail -> tail ∈ e_id <$> V.
Proof. destruct at_; cbn; [by intros ?%bool_decide_eq_true [= <-]|]. intros _. apply newest_some. Qed.

(** The range read off the line, at a later moment, from a range kept before. *)
Lemma readRange_spec fuel s c V V0 W previous current tail known :
  source_shows s c V -> length V < fuel -> V = V0 ++ W -> tail ∈ e_id <$> V0 ->
  (forall p, previous = Some p -> shows p V) ->
  exists cur, readRange fuel s c current previous (bounds_at tail V0) known = Some (Ok (range_at tail V cur)) /\
    (cur = true -> known = Some (Some tail)).
Proof.
  intros Hs Hf HV Ht Hp. pose proof (source_history s c V Hs) as Hh.
  assert (HtV : tail ∈ e_id <$> V) by (rewrite HV, fmap_app; set_solver).
  assert (Hb : bounds_at tail V0 = bounds_at tail V) by (rewrite HV in *; by destruct (range_grows tail V0 W true Hh Ht) as [-> _]).
  assert (Hfinish : forall cur : bool, exists cur', Some (r ← Ok (range_at tail V cur) : cres ContextRange;
      Ok (if cr_current r && negb (bool_decide (known = Some (Some (cb_tail (cr_bounds r))))) then with_current false r else r)) =
      Some (Ok (range_at tail V cur')) /\ (cur' = true -> known = Some (Some tail))).
  { intros cur. cbn [mbind res_bind]. rewrite range_current. fold (tail_of (range_at tail V cur)). rewrite range_tail.
    destruct cur; [|by exists false]. destruct (bool_decide_reflect (known = Some (Some tail))) as [->|]; [by exists true|].
    exists false. by rewrite range_with. }
  assert (Hscan : forall range, scanRange fuel s c range = Some (Ok (between range V))) by (intros; by apply scanRange_spec).
  unfold readRange. rewrite Hb, Hscan. cbn [fmap option_fmap option_map mbind res_bind option_bind].
  destruct previous as [p|]; [|apply Hfinish]. specialize (Hp p eq_refl) as [Hpt Hpr].
  set (t := tail_of p) in *. set (pc := cr_current p) in *. rewrite Hpr. rewrite range_head. cbn [cb_head cb_tail bounds_at].
  destruct (same_head (newest_head (up_to t V)) (newest_head (up_to tail V))) eqn:Esame; [|apply Hfinish]. cbn [negb].
  pose proof (same_newest _ _ _ Hh Esame) as Enew. fold (tail_of (range_at t V pc)). rewrite range_tail, range_entries.
  destruct (N.eqb_spec tail t) as [->|Hne]; [apply Hfinish|]. destruct (N.ltb_spec tail t) as [Hlt|Hge].
  - assert (Ecut : filter (fun e => (e_id e <=? tail)%N = true) (between (rangeQuery (bounds_at t V)) V) = between (rangeQuery (bounds_at tail V)) V).
    { unfold rangeQuery. cbn. rewrite Enew. apply between_cut. lia. }
    rewrite Ecut. apply (Hfinish false).
  - rewrite Hscan. cbn [fmap option_fmap option_map mbind res_bind option_bind]. rewrite extend_range by (done || lia). apply (Hfinish current).
Qed.
End Source.

(** ** Advancing *)

Lemma filter_agree {A} (P Q : A -> Prop) `{forall x, Decision (P x)} `{forall x, Decision (Q x)} (l : list A) :
  (forall x, x ∈ l -> P x <-> Q x) -> filter P l = filter Q l.
Proof.
  induction l as [|x l IH]; intros Hl; [done|]. rewrite !filter_cons, IH by (intros; apply Hl; by right).
  destruct (Hl x ltac:(by left)). by destruct (decide (P x)), (decide (Q x)); try tauto.
Qed.

Lemma newest_head_app V W : newest_head (V ++ W) = match newest_head W with Some h => Some h | None => newest_head V end.
Proof. unfold newest_head. rewrite filter_app, last_app. by destruct (last (filter _ W)). Qed.

Lemma fold_head head W :
  foldl (fun head e => if is_some (e_head e) then Some e else head) head W = match newest_head W with Some h => Some h | None => head end.
Proof.
  induction W as [|e W IH] using rev_ind; [done|]. rewrite foldl_app, newest_head_app. cbn [foldl]. rewrite IH.
  unfold newest_head at 2. cbn. by destruct (is_some (e_head e)).
Qed.

Lemma up_to_all V tail : visible_history V -> e_id <$> last V = Some tail -> up_to tail V = V.
Proof. intros Hh Hl. apply filter_id. intros e He. by eapply newest_id. Qed.

Lemma last_app_some V W newest : last W = Some newest -> last (V ++ W) = Some newest.
Proof. intros H. by rewrite last_app, H. Qed.

(** The appended entries are those after the old tail. *)
Lemma appended_between V W t newest :
  visible_history (V ++ W) -> e_id <$> last V = Some t -> last W = Some newest -> between (Some (t + 1)%N, e_id newest) (V ++ W) = W.
Proof.
  intros Hh Hl Hw. pose proof (history_app V W Hh) as (HV & _ & Hlt). unfold between. cbn [fst snd].
  change (default 0%N (Some (t + 1)%N)) with (t + 1)%N. rewrite filter_app, (filter_none _ V), (filter_id _ W); [done| |].
  - intros w Hin. pose proof (newest_some V t Hl) as (v & -> & Hv)%list_elem_of_fmap. pose proof (Hlt v w Hv Hin).
    assert (e_id w <= e_id newest)%N; [|lia]. eapply (newest_id (V ++ W)); [done|by rewrite (last_app_some V W newest)|set_solver].
  - intros v Hin. pose proof (newest_id V HV v t Hl Hin). lia.
Qed.

(** The entries from a later head on. *)
Lemma later_head lo t V start W newest :
  visible_history (V ++ W) -> e_id <$> last V = Some t -> last W = Some newest -> (default 0 lo <= start)%N ->
  filter (fun e => (start <=? e_id e)%N = true) (between (lo, t) V ++ W) = between (Some start, e_id newest) (V ++ W).
Proof.
  intros Hh Hl Hw Hlo. pose proof (history_app V W Hh) as (HV & _ & Hlt). unfold between. cbn [fst snd].
  change (default 0%N (Some start)) with start. rewrite !filter_app, list_filter_filter.
  assert (Hmax : forall x, x ∈ V ++ W -> (e_id x <= e_id newest)%N).
  { intros x Hx. eapply (newest_id (V ++ W)); [done|by rewrite (last_app_some V W newest)|done]. }
  f_equal; apply filter_agree; intros e He.
  - pose proof (newest_id V HV e t Hl He). pose proof (Hmax e ltac:(set_solver)). cbn. rewrite N.leb_le. lia.
  - pose proof (Hmax e ltac:(set_solver)). rewrite N.leb_le. lia.
Qed.

(** Entries appended to a current range: it shows the conversation with them, or is dropped
    when they move the head back. *)
Lemma advance_shows r V W :
  visible_history (V ++ W) -> shows r V -> reaches r V ->
  match advanceRange r W with Some r' => shows r' (V ++ W) /\ reaches r' (V ++ W) | None => True end.
Proof.
  intros Hh Hs Hreach. unfold advanceRange. destruct (last W) as [newest|] eqn:Hw.
  2: { apply last_None in Hw as ->. by rewrite app_nil_r in *. }
  destruct (cr_current r) eqn:Hc; cbn [negb].
  2: { split; [by apply shows_grows|]. intros Hc'. congruence. }
  destruct Hs as [Ht Hr]. specialize (Hreach Hc). rewrite Hc in Hr. set (t := tail_of r) in *.
  pose proof (history_app V W Hh) as (HV & _ & _). pose proof (last_app_some V W newest Hw) as Hlast.
  assert (Hlast' : e_id <$> last (V ++ W) = Some (e_id newest)) by by rewrite Hlast.
  assert (Hnew : e_id newest ∈ e_id <$> V ++ W) by by apply newest_some.
  assert (Hb : {| cb_head := match newest_head W with Some h => Some h | None => newest_head V end; cb_tail := e_id newest |} = bounds_at (e_id newest) (V ++ W)).
  { unfold bounds_at. by rewrite up_to_all, newest_head_app. }
  assert (Hall : newest_head (up_to t V) = newest_head V) by by rewrite up_to_all.
  rewrite fold_head, Hr, range_head, Hall, Hb.
  assert (Hdone : shows (range_at (e_id newest) (V ++ W) true) (V ++ W) /\ reaches (range_at (e_id newest) (V ++ W) true) (V ++ W)).
  { split; [by apply range_shows|]. intros _. by rewrite range_tail. }
  destruct (range_grows t V W true Hh Ht) as [Eb Er].
  destruct (same_head _ (newest_head V)) eqn:Esame.
  - assert (Eh : newest_head (up_to t (V ++ W)) = newest_head (up_to (e_id newest) (V ++ W))).
    { rewrite up_to_grows, Hall, (up_to_all (V ++ W)) by done. rewrite newest_head_app. destruct (newest_head W) as [h|] eqn:EW; [|done].
      apply bool_decide_eq_true in Esame. destruct (newest_head V) as [h'|] eqn:EV; [|done]. injection Esame as Esame. f_equal. symmetry.
      apply newest_head_in in EW as [EW _], EV as [EV _]. eapply (history_id (V ++ W)); [done|set_solver..|done]. }
    assert (Hle : (t <= e_id newest)%N).
    { pose proof Ht as (e & -> & He)%list_elem_of_fmap. eapply (newest_id (V ++ W)); [done|done|]. apply elem_of_app. by left. }
    pose proof (extend_range t (e_id newest) (V ++ W) true true Hh Eh Hle) as E.
    rewrite (appended_between V W t newest), Er in E by done. rewrite E. exact Hdone.
  - destruct (newest_head W) as [h|] eqn:EW; [|by unfold same_head in Esame; rewrite bool_decide_true in Esame].
    destruct (newest_head_in W h EW) as [Hin [start Hstart]]. cbn [mbind option_bind]. rewrite Hstart. cbn [default from_option].
    destruct (match newest_head V with Some h0 => _ | None => false end) eqn:Eback; [done|].
    rewrite range_entries. unfold rangeQuery. cbn [cb_head cb_tail bounds_at]. rewrite Hall, (later_head _ t V start W newest); [|done..|].
    + unfold range_at in Hdone. unfold rangeQuery in Hdone. cbn [cb_head cb_tail bounds_at] in Hdone.
      rewrite (up_to_all (V ++ W)), newest_head_app, EW in Hdone by done. cbn [mbind option_bind] in Hdone. rewrite Hstart in Hdone. exact Hdone.
    + destruct (newest_head V) as [h0|]; [|cbn; lia]. cbn. apply N.ltb_ge in Eback. exact Eback.
Qed.

(** ** One entry of a range *)

Lemma rangeEntry_loop_spec entries id fuel low high :
  StronglySorted N.lt (e_id <$> entries) -> (0 <= low)%Z -> (high < Z.of_nat (length entries))%Z -> (high - low + 1 < Z.of_nat fuel)%Z -> 0 < fuel ->
  (forall i e, entries !! i = Some e -> e_id e = id -> (low <= Z.of_nat i <= high)%Z) ->
  exists o, rangeEntry_loop fuel entries id low high = Some o /\ forall e, o = Some e <-> e ∈ entries /\ e_id e = id.
Proof.
  intros Hs. revert low high. induction fuel as [|fuel IH]; intros low high Hl Hh Hf Hpos Hin; [lia|]. cbn [rangeEntry_loop].
  assert (Hlt : forall i j x y, entries !! i = Some x -> entries !! j = Some y -> i < j -> (e_id x < e_id y)%N).
  { intros i j x y Hx Hy Hij. eapply (StronglySorted_lookup (e_id <$> entries) i j); [exact Hs|by rewrite list_lookup_fmap, Hx|by rewrite list_lookup_fmap, Hy|done]. }
  destruct (Z.ltb_spec high low) as [Hend|Hmore].
  { exists None. split; [done|]. intros e. split; [done|]. intros [[i Hi]%list_elem_of_lookup He]. specialize (Hin i e Hi He). lia. }
  set (middle := Z.shiftr (low + high) 1). assert (Hm : (low <= middle <= high)%Z).
  { unfold middle. rewrite Z.shiftr_div_pow2 by lia. change (2 ^ 1)%Z with 2%Z.
    pose proof (Z.div_le_lower_bound (low + high) 2 low). pose proof (Z.div_le_upper_bound (low + high) 2 high). lia. }
  destruct (lookup_lt_is_Some_2 entries (Z.to_nat middle)) as [x Hx]; [lia|]. rewrite Hx.
  destruct (N.eqb_spec (e_id x) id) as [Heq|Hne].
  { exists (Some x). split; [done|]. intros e. split; [intros [= <-]; split; [by eapply list_elem_of_lookup_2|done]|].
    intros [[i Hi]%list_elem_of_lookup He]. f_equal. destruct (Nat.lt_trichotomy i (Z.to_nat middle)) as [Hc|[->|Hc]]; [|congruence|].
    - pose proof (Hlt _ _ _ _ Hi Hx Hc). lia.
    - pose proof (Hlt _ _ _ _ Hx Hi Hc). lia. }
  destruct (N.ltb_spec (e_id x) id) as [Hless|Hmoreid]; apply IH; try lia.
  - intros i e Hi He. pose proof (Hin i e Hi He). destruct (Nat.lt_trichotomy i (Z.to_nat middle)) as [Hc|[->|Hc]]; [|congruence|lia].
    pose proof (Hlt _ _ _ _ Hi Hx Hc). lia.
  - intros i e Hi He. pose proof (Hin i e Hi He). destruct (Nat.lt_trichotomy i (Z.to_nat middle)) as [Hc|[->|Hc]]; [lia|congruence|].
    pose proof (Hlt _ _ _ _ Hx Hi Hc). lia.
Qed.

Lemma between_history range V : visible_history V -> StronglySorted N.lt (e_id <$> between range V).
Proof. intros Hh. apply vh_sorted. by apply filter_history. Qed.

(** The binary search finds the entry of the ID, if the range has it. *)
Lemma rangeEntry_spec r V id :
  visible_history V -> shows r V -> exists o, rangeEntry r id = Some o /\ forall e, o = Some e <-> e ∈ cr_entries r /\ e_id e = id.
Proof.
  intros Hh [_ E]. assert (Hs : StronglySorted N.lt (e_id <$> cr_entries r)) by (rewrite E, range_entries; by apply between_history).
  unfold rangeEntry. apply rangeEntry_loop_spec; [done|lia..|]. intros i e Hi _. pose proof (lookup_lt_Some _ _ _ Hi). lia.
Qed.

(** An entry of a kept range is visible. *)
Lemma kept_visible at_ kept V :
  visible_history V -> (forall r, kept = Some r -> shows r V) ->
  match at_, kept with Some a, Some r => match rangeEntry r a with Some (Some _) => true | _ => false end | _, _ => false end = true ->
  may_read at_ V = true.
Proof.
  intros Hh Hk. destruct at_ as [a|]; [|done]. destruct kept as [r|]; [|done]. intros Hv. cbn. apply bool_decide_eq_true.
  destruct (rangeEntry_spec r V a Hh (Hk r eq_refl)) as (o & E & Ho). rewrite E in Hv. destruct o as [e|]; [|done].
  destruct (proj1 (Ho e) eq_refl) as [Hin <-]. apply list_elem_of_fmap_2. destruct (Hk r eq_refl) as [_ Er].
  rewrite Er, range_entries in Hin. by eapply between_sub.
Qed.

Definition is_result m : bool := has_role "toolResult" m.
Definition result_id m : option string := text_field "toolCallId" (mg_value m).
Definition call_id (call : json) : option string := text_field "id" call.

(** A result answers a call. *)
Definition answers (call : json) m : Prop := is_result m = true /\ result_id m = call_id call.

(** Every assistant message is followed by one result for each of its calls, in their
    order, and there are no other results. *)
Inductive answered : list Message -> Prop :=
| answered_nil : answered []
| answered_other m l : has_role "assistant" m = false -> is_result m = false -> answered l -> answered (m :: l)
| answered_calls m rs l : has_role "assistant" m = true -> Forall2 answers (tool_calls m) rs -> answered l -> answered (m :: rs ++ l).

(** ** Roles *)

Lemma role_one (r r' : string) m : has_role r m = true -> has_role r' m = true -> r = r'.
Proof. unfold has_role. intros E%bool_decide_eq_true E'%bool_decide_eq_true. congruence. Qed.

Lemma role_other (r r' : string) m : r <> r' -> has_role r m = true -> has_role r' m = false.
Proof. intros Hne H. destruct (has_role r' m) eqn:H'; [|done]. by destruct (Hne (role_one _ _ _ H H')). Qed.

Lemma missing_answers call t : answers call (missingResult call t).
Proof.
  split; [done|]. unfold result_id, call_id, text_field, missingResult. cbn. unfold value_or_null. by destruct (field "id" call) as [[]|].
Qed.

(** ** Results *)

(** The first result of a call among messages. *)
Definition first_result (call : json) messages : option Message :=
  find (fun m => is_result m && bool_decide (result_id m = call_id call)) messages.

Lemma first_answers call messages m : first_result call messages = Some m -> answers call m.
Proof. intros [_ [H1 H2%bool_decide_eq_true]%andb_true_iff]%find_some. by split. Qed.

Lemma collect_first call messages : collect_results messages !! call_id call = first_result call messages.
Proof.
  unfold collect_results.
  assert (Hgen : forall acc : gmap (option string) Message,
    foldl (fun results m => if has_role "toolResult" m && negb (is_some (results !! text_field "toolCallId" (mg_value m)))
      then <[text_field "toolCallId" (mg_value m) := m]> results else results) acc messages !! call_id call =
    match acc !! call_id call with Some m => Some m | None => first_result call messages end).
  { induction messages as [|m l IH]; intros acc; [cbn; by destruct (acc !! call_id call)|]. cbn [foldl]. rewrite IH. unfold first_result. cbn [find].
    fold (is_result m). fold (result_id m). destruct (is_result m) eqn:Er; cbn [andb].
    - destruct (acc !! result_id m) as [x|] eqn:Ex; cbn [is_some negb].
      + case_bool_decide as Ei; [by rewrite <- Ei, Ex|done].
      + case_bool_decide as Ei; [by rewrite Ei, lookup_insert_eq, <- Ei, Ex|by rewrite lookup_insert_ne].
    - done. }
  rewrite Hgen. by rewrite lookup_empty.
Qed.

Lemma results_eq m rest :
  results_of m rest = (fun call => default (missingResult call (field "timestamp" (mg_value m))) (first_result call (before_assistant rest))) <$> tool_calls m.
Proof. unfold results_of. apply list_fmap_ext. intros i call _. fold (call_id call). rewrite collect_first. by destruct (first_result _ _). Qed.

Lemma results_answer m rest : Forall2 answers (tool_calls m) (results_of m rest).
Proof.
  rewrite results_eq. induction (tool_calls m) as [|call l IH]; cbn; constructor; [|done].
  destruct (first_result call (before_assistant rest)) as [x|] eqn:E; [eapply first_answers; exact E|apply missing_answers].
Qed.

Lemma answers_results cs rs : Forall2 answers cs rs -> Forall (fun m => is_result m = true) rs.
Proof. induction 1 as [|c r cs rs [H _] _ IH]; by constructor. Qed.

(** ** Ordering *)

Lemma order_answered messages : answered (orderToolResults messages).
Proof.
  induction messages as [|m l IH]; cbn [orderToolResults]; [constructor|]. fold (is_result m). destruct (is_result m) eqn:Er; [done|].
  destruct (has_role "assistant" m) eqn:Ea; [|by constructor]. apply answered_calls; [done|apply results_answer|done].
Qed.

(** The other messages stay, in their order. *)
Lemma order_others messages : filter (fun m => is_result m = false) (orderToolResults messages) = filter (fun m => is_result m = false) messages.
Proof.
  induction messages as [|m l IH]; [done|]. cbn [orderToolResults]. fold (is_result m). rewrite (filter_cons _ m l). destruct (is_result m) eqn:Er.
  - by rewrite decide_False.
  - rewrite decide_True, filter_cons_True by done. f_equal. rewrite filter_app, IH. rewrite (filter_none _ (if has_role "assistant" m then results_of m l else [])); [done|].
    intros x Hx. destruct (has_role "assistant" m); [|by apply elem_of_nil in Hx].
    pose proof (answers_results _ _ (results_answer m l)) as Hf. rewrite Forall_forall in Hf. by rewrite (Hf x Hx).
Qed.

(** Answered messages with distinct calls are left as they are. *)
Definition distinct_calls messages : Prop := Forall (fun m => NoDup (call_id <$> tool_calls m)) messages.

Lemma order_results rs l : Forall (fun m => is_result m = true) rs -> orderToolResults (rs ++ l) = orderToolResults l.
Proof. induction 1 as [|r rs Hr _ IH]; [done|]. cbn [app orderToolResults]. fold (is_result r). by rewrite Hr. Qed.

Lemma before_results rs l : Forall (fun m => is_result m = true) rs -> before_assistant (rs ++ l) = rs ++ before_assistant l.
Proof.
  induction 1 as [|r rs Hr _ IH]; [done|]. cbn [app before_assistant]. rewrite (role_other "toolResult" "assistant" r) by done. by rewrite IH.
Qed.

Lemma first_of_answers cs rs rest :
  Forall2 answers cs rs -> NoDup (call_id <$> cs) -> (fun call => first_result call (rs ++ rest)) <$> cs = Some <$> rs.
Proof.
  induction 1 as [|c r cs rs [Hr Hi] Hf IH]; [done|]. cbn. intros [Hni Hnd]%NoDup_cons. f_equal.
  - unfold first_result. cbn. by rewrite Hr, bool_decide_true.
  - rewrite <- IH by done. apply list_fmap_ext. intros i c' Hc'. unfold first_result. cbn. rewrite Hr, bool_decide_false; [done|].
    rewrite Hi. intros E. apply Hni. rewrite E. apply list_elem_of_fmap_2. by eapply list_elem_of_lookup_2.
Qed.

Lemma defaults {A B} (f : A -> option B) (d : A -> B) (cs : list A) (rs : list B) : f <$> cs = Some <$> rs -> (fun c => default (d c) (f c)) <$> cs = rs.
Proof.
  revert rs. induction cs as [|c cs IH]; intros [|r rs]; cbn; try done. intros [= E1 E2]. rewrite E1. cbn. by rewrite (IH rs E2).
Qed.

Lemma order_answered_id messages : answered messages -> distinct_calls messages -> orderToolResults messages = messages.
Proof.
  induction 1 as [|m l Ha Hr _ IH|m rs l Ha Hf _ IH]; [done| |]; intros Hd; inversion Hd as [|? ? Hm Hd']; subst.
  - cbn [orderToolResults]. fold (is_result m). rewrite Hr, Ha. cbn. by rewrite IH.
  - cbn [orderToolResults]. rewrite (role_other "assistant" "toolResult" m), Ha by done. pose proof (answers_results _ _ Hf) as Hres.
    apply Forall_app in Hd' as [_ Hd']. rewrite order_results, IH by done. f_equal. f_equal. rewrite results_eq, before_results by done.
    by apply defaults, first_of_answers.
Qed.

(** ** The system message *)

Lemma answered_remove messages index m :
  answered messages -> messages !! index = Some m -> is_result m = false -> has_role "assistant" m = false ->
  answered (take index messages ++ drop (S index) messages).
Proof.
  intros Hans. revert index. induction Hans as [|x l Ha Hr Hl IH|x rs l Ha Hf Hl IH]; intros index Hi Hnr Hna; [done| |]; destruct index as [|i].
  - done.
  - cbn. apply answered_other; [done|done|]. by apply IH.
  - cbn in Hi. injection Hi as ->. congruence.
  - cbn [lookup list_lookup] in Hi. cbn [take drop app]. pose proof (answers_results _ _ Hf) as Hres.
    apply lookup_app_Some in Hi as [Hi|[Hle Hi]]; [eapply Forall_lookup_1 in Hres; [|done]; cbn in Hres; congruence|].
    rewrite take_app_ge, (drop_app_ge rs l (S i)), <- app_assoc by lia. replace (S i - length rs) with (S (i - length rs)) by lia.
    apply answered_calls; [done|done|]. by apply IH.
Qed.

Lemma findIndex_spec {A} (P : A -> bool) l i : findIndex P l = Some i -> exists x, l !! i = Some x /\ P x = true.
Proof.
  revert i. induction l as [|x l IH]; intros i; cbn; [done|]. destruct (P x) eqn:E; [intros [= <-]; by exists x|].
  destruct (findIndex P l); [|done]. intros [= <-]. by apply IH.
Qed.

Lemma lead_answered messages baseline : answered messages -> answered (leadWithSystem messages baseline).
Proof.
  intros Ha. unfold leadWithSystem. destruct (findIndex _ messages) as [[|i]|] eqn:Ei; try done.
  destruct (findIndex_spec _ _ _ Ei) as (m & Hm & Hr). rewrite Hm. destruct (_ && _); [done|].
  assert (Hother : is_result m = false /\ has_role "assistant" m = false) by (split; by apply (role_other "system")).
  destruct Hother as [H1 H2]. apply answered_other; [done|done|]. by eapply answered_remove.
Qed.

Lemma lead_permutation messages baseline : leadWithSystem messages baseline ≡ₚ messages.
Proof.
  unfold leadWithSystem. destruct (findIndex _ messages) as [[|i]|]; try done. destruct (messages !! S i) as [m|] eqn:Hm; [|done].
  destruct (_ && _); [done|]. rewrite <- (take_drop_middle messages (S i) m) at 3 by done. by rewrite Permutation_middle.
Qed.
