(* ===== verification/ContextCache.v ===== *)
(** What contexts are read from. [MemoryStorage] as their source: its reads are those of a
    Session without tails, and they show the entries visible from the conversation. The range
    that a scheduler keeps for a conversation (durable/src/harness/scheduler.ts): commits
    advance it, reads extend and replace it, and both interleave, since a read waits for the
    storage between its bounds and its entries. *)
From S2P Require Import Prelude JsString Json DeltaOp DeltaApply StorageTypes SortedIds MemoryCommit DocumentFacts TableFacts MemoryFacts MemoryRead ReadFacts VisibleFacts ContextModel ContextReads.
From Stdlib Require Import Sorted.

(** ** The reads of a Session *)

Definition storage_page (m : MemoryStorage) (query : EntryQuery) (limit : nat) (cursor : option Cursor) : sres (Page EntryRecord) :=
  ran (scanEntries (chain_fuel (eq_conversationId query)) m query limit cursor).

Definition newest_query (conversationId : N) : EntryQuery :=
  {| eq_conversationId := conversationId; eq_minEntryId := None; eq_maxEntryId := None; eq_order := None |}.

#[export] Instance storage_source : ConversationSource MemoryStorage := {
  latestEntryId m c := p ← storage_page m (newest_query c) 1 None; Ok (e_id <$> head (page_items p));
  latestHeadMarker m c at_ := ran (findLatestHeadMarker (chain_fuel c) m c (Some at_));
  visibleEntry m c id := r ← ran (entry_visible (chain_fuel c) m c id); Ok (is_some r);
  entryPage := storage_page;
}.

(** ** Clones *)

Lemma clone_entry_idem (e : EntryRecord) : clone (clone e) = clone e.
Proof.
  assert (Hl : forall l : list json, clone (clone l) = clone l).
  { intros l. unfold clone, Clone_list. rewrite <- list_fmap_compose. apply list_fmap_ext. intros ? ? _. apply clone_json_idem. }
  assert (He : forall x : ContextEdit, clone (clone x) = clone x).
  { intros [t [l|]]; unfold clone, Clone_edit, clone; cbn; [|done]. do 2 f_equal. apply Hl. }
  destruct e as [id c k model data h edits t]. unfold clone at 1, Clone_entry, clone. cbn. f_equal.
  - destruct model; cbn; [|done]. f_equal. apply Hl.
  - destruct data; cbn; [|done]. f_equal. apply clone_json_idem.
  - destruct edits; cbn; [|done]. f_equal. unfold clone, Clone_list. rewrite <- list_fmap_compose. apply list_fmap_ext. intros ? x _. apply He.
Qed.

(** ** The history of a conversation *)

(** The visible entries as the reads return them. *)
Record storage_history (m : MemoryStorage) (c : N) (V : list EntryRecord) : Prop := {
  hs_usable : usable m;
  hs_ancestry : ancestry_ok (state m);
  hs_forks : forks_ok (state m);
  hs_known : is_Some (conversations (conversation_tables (state m)) !! c);
  hs_history : visible_history V;
  hs_entries : forall e, e ∈ V <-> exists e0, entries (entry_tables (state m)) !! e_id e0 = Some e0 /\ visible (state m) c (e_id e0) /\ e = clone e0;
}.

Lemma sorted_same (L L' : list EntryRecord) :
  StronglySorted N.lt (e_id <$> L) -> StronglySorted N.lt (e_id <$> L') -> (forall e, e ∈ L <-> e ∈ L') -> L = L'.
Proof.
  revert L'. induction L as [|e L IH]; intros [|e' L'] H1 H2 Hin; [done| | |].
  - destruct (Hin e') as [_ H]. by specialize (H ltac:(by left)) as ?%elem_of_nil.
  - destruct (Hin e) as [H _]. by specialize (H ltac:(by left)) as ?%elem_of_nil.
  - inversion H1 as [|? ? H1' F1]; inversion H2 as [|? ? H2' F2]; subst. rewrite Forall_fmap, Forall_forall in F1, F2. cbn in F1, F2.
    assert (e = e') as ->.
    { destruct (Hin e) as [Ha _]. destruct (Hin e') as [_ Hb]. specialize (Ha ltac:(by left)). specialize (Hb ltac:(by left)).
      apply elem_of_cons in Ha as [->|Ha]; [done|]. apply elem_of_cons in Hb as [->|Hb]; [done|]. specialize (F1 _ Hb). specialize (F2 _ Ha). lia. }
    f_equal. apply IH; [done|done|]. intros x. specialize (Hin x). rewrite !elem_of_cons in Hin. split; intros Hx.
    + destruct Hin as [[->|?] _]; [by right|specialize (F1 _ Hx); lia|done].
    + destruct Hin as [_ [->|?]]; [by right|specialize (F2 _ Hx); lia|done].
Qed.

Lemma clone_ids (L : list EntryRecord) : e_id <$> clone L = e_id <$> L.
Proof. unfold clone, Clone_list. rewrite <- list_fmap_compose. by apply list_fmap_ext. Qed.

(** Pages of entries are pages of their clones. *)
Lemma paged_clone scan limit order (L : list EntryRecord) : PagedScan e_id scan limit order L -> PagedScan e_id scan limit order (clone L).
Proof.
  assert (Hpage : forall L : list EntryRecord, page_of e_id limit order (clone L) = page_of e_id limit order L).
  { intros L0. unfold page_of. f_equal.
    - unfold clone, Clone_list. rewrite <- fmap_take, <- list_fmap_compose. apply list_fmap_ext. intros ? e _. apply clone_entry_idem.
    - unfold clone, Clone_list. rewrite length_fmap. destruct (_ <=? _); [done|]. rewrite <- fmap_take, fmap_last. by destruct (last (take limit L0)). }
  intros [Hf Hn]. split; [by rewrite Hpage|]. intros A r B E. unfold clone, Clone_list in E.
  apply fmap_app_inv in E as (A0 & L1 & -> & E & ->). symmetry in E. apply fmap_cons_inv in E as (r0 & B0 & -> & -> & ->).
  change (e_id (clone r0)) with (e_id r0). rewrite (Hn A0 r0 B0 eq_refl). f_equal. symmetry. apply (Hpage B0).
Qed.

Section Storage.
Variables (m : MemoryStorage) (c : N) (V : list EntryRecord).
Hypothesis (Hs : storage_history m c V).

Lemma history_elem e0 : entries (entry_tables (state m)) !! e_id e0 = Some e0 -> visible (state m) c (e_id e0) -> clone e0 ∈ V.
Proof using Hs. intros H1 H2. apply (hs_entries _ _ _ Hs). by exists e0. Qed.

(** The entries of a query are those of the history in its bounds. *)
Lemma query_history query L :
  eq_conversationId query = c -> eq_order query = None -> query_entries m query L ->
  clone L = rev (filter (fun e => in_range (opt_bound NegInf (eq_minEntryId query)) (opt_bound PosInf (eq_maxEntryId query)) (e_id e) = true) V).
Proof using Hs.
  intros Hc Ho [Hord Hin]. rewrite Ho in Hord. cbn in Hord. rewrite Hc in Hin.
  rewrite <- (rev_involutive (clone L)). f_equal. apply sorted_same.
  - rewrite fmap_rev, clone_ids. exact Hord.
  - apply vh_sorted, filter_history, (hs_history _ _ _ Hs).
  - intros e. rewrite list_elem_of_In, <- in_rev, <- list_elem_of_In. unfold clone, Clone_list. rewrite list_elem_of_fmap, list_elem_of_filter. split.
    + intros (e0 & -> & (H1 & H2 & H3)%Hin). split; [done|by apply history_elem].
    + intros [Hr (e0 & H1 & H2 & ->)%(hs_entries _ _ _ Hs)]. exists e0. split; [done|]. by apply Hin.
Qed.

Lemma storage_pages query limit :
  eq_conversationId query = c -> eq_order query = None -> 0 < limit ->
  PagedScan e_id (storage_page m query limit) limit descending
    (rev (filter (fun e => in_range (opt_bound NegInf (eq_minEntryId query)) (opt_bound PosInf (eq_maxEntryId query)) (e_id e) = true) V)).
Proof using Hs.
  intros Hc Ho Hl. destruct (scanEntries_paged m (hs_usable _ _ _ Hs) (hs_ancestry _ _ _ Hs) (hs_forks _ _ _ Hs) (chain_fuel (eq_conversationId query)) query limit) as (run & L & Hrun & Hq & Hp).
  - done.
  - unfold valid_order. by rewrite Ho.
  - rewrite Hc. apply (hs_known _ _ _ Hs).
  - unfold chain_fuel. lia.
  - rewrite <- (query_history query L Hc Ho Hq). rewrite Ho in Hp. apply paged_clone in Hp. destruct Hp as [Hf Hn].
    split; [unfold storage_page; by rewrite Hrun|]. intros A r B E. unfold storage_page. rewrite Hrun. by eapply Hn.
Qed.

(** ** The laws *)

Lemma range_filter range :
  filter (fun e => in_range (opt_bound NegInf range.1) (opt_bound PosInf (Some range.2)) (e_id e) = true) V = between range V.
Proof.
  unfold between. apply list_filter_iff. intros e. destruct range as [[lo|] hi]; unfold in_range; cbn [fst snd opt_bound default from_option id_lt id_le];
    rewrite ?andb_true_iff, ?negb_true_iff; cbn; lia.
Qed.

Lemma page_first query limit : 0 < limit -> eq_conversationId query = c -> eq_order query = None ->
  exists p, storage_page m query limit None = Ok p /\
  page_items p = clone (take limit (rev (filter (fun e => in_range (opt_bound NegInf (eq_minEntryId query)) (opt_bound PosInf (eq_maxEntryId query)) (e_id e) = true) V))).
Proof using Hs. intros Hl Hc Ho. destruct (storage_pages query limit Hc Ho Hl) as [Hf _]. by eexists. Qed.

Lemma storage_latest : latestEntryId m c = Ok (e_id <$> last V).
Proof using Hs.
  unfold latestEntryId, storage_source. destruct (page_first (newest_query c) 1) as (p & -> & E); [lia|done|done|]. cbn [mbind res_bind]. rewrite E.
  rewrite filter_id by done. rewrite <- head_reverse. unfold clone, Clone_list.
  assert (Hr : reverse V = rev V) by (by rewrite rev_alt). rewrite Hr. by destruct (rev V).
Qed.

Lemma storage_visible id : visibleEntry m c id = Ok (bool_decide (id ∈ e_id <$> V)).
Proof using Hs.
  unfold visibleEntry, storage_source. destruct (entry_visible_spec m (chain_fuel c) c id (hs_usable _ _ _ Hs) (hs_ancestry _ _ _ Hs) (hs_known _ _ _ Hs)) as (r & -> & H1 & H2).
  { unfold chain_fuel. lia. }
  cbn. f_equal. pose proof (si_entries _ _ _ _ (us_inv _ (hs_usable _ _ _ Hs))) as Hi. case_bool_decide as Hin.
  - apply list_elem_of_fmap in Hin as (e & -> & (e0 & He & Hv & ->)%(hs_entries _ _ _ Hs)). change (e_id (clone e0)) with (e_id e0) in *.
    destruct (H1 Hv) as (? & ? & -> & _). done.
  - destruct r as [[e s]|]; [|done]. exfalso. assert (Hn : ~ visible (state m) c id); [|by specialize (H2 Hn)].
    intros Hv. destruct (H1 Hv) as (e0 & s0 & _ & He & _). pose proof (en_id _ _ Hi id e0 He) as Eid. apply Hin, list_elem_of_fmap.
    exists (clone e0). split; [done|]. apply history_elem; by rewrite Eid.
Qed.

Lemma marker_clone tail e0 : is_marker (state m) c (fin tail) e0 -> clone e0 ∈ filter (fun e => is_some (e_head e) = true) (up_to tail V).
Proof using Hs.
  intros (H1 & H2 & H3 & H4). rewrite list_elem_of_filter. split; [change (e_head (clone e0)) with (e_head e0); by destruct (e_head e0)|].
  apply up_to_elem. change (e_id (clone e0)) with (e_id e0). split; [|by apply history_elem]. revert H4. unfold id_le, fin. intros ?%Z.leb_le. lia.
Qed.

Lemma storage_marker tail : latestHeadMarker m c tail = Ok (newest_head (up_to tail V)).
Proof using Hs.
  unfold latestHeadMarker, storage_source.
  destruct (findLatestHeadMarker_spec m (chain_fuel c) c (Some tail) (hs_usable _ _ _ Hs) (hs_ancestry _ _ _ Hs) (hs_forks _ _ _ Hs) (hs_known _ _ _ Hs)) as (r & -> & Hr); [unfold chain_fuel; lia|].
  cbn [ran default from_option id]. f_equal. set (heads := filter (fun e => is_some (e_head e) = true) (up_to tail V)).
  assert (Hel : forall e, e ∈ heads -> exists e0, e = clone e0 /\ is_marker (state m) c (fin tail) e0).
  { intros e [Hh [Hle Hin]%up_to_elem]%list_elem_of_filter. apply (hs_entries _ _ _ Hs) in Hin as (e0 & H1 & H2 & ->). exists e0. split; [done|].
    change (e_head (clone e0)) with (e_head e0) in Hh. repeat split; [done|by destruct (e_head e0)|done|]. unfold id_le, fin. apply Z.leb_le. change (e_id (clone e0)) with (e_id e0) in Hle. lia. }
  unfold newest_head. fold heads. destruct r as [e|].
  - destruct Hr as [Hm Hmax]. pose proof (marker_clone tail e Hm) as Hin. fold heads in Hin.
    destruct (last heads) as [h|] eqn:El; [|by apply last_None in El; rewrite El in Hin; apply elem_of_nil in Hin].
    assert (Hh : h ∈ heads) by (apply last_Some in El as [l ->]; set_solver).
    destruct (Hel h Hh) as (h0 & -> & Hm0). specialize (Hmax h0 Hm0). change (clone (Some e)) with (Some (clone e)). f_equal.
    assert (Hsub : forall x, x ∈ heads -> x ∈ V) by (by intros x [_ [_ ?]%up_to_elem]%list_elem_of_filter).
    eapply (history_id V); [apply (hs_history _ _ _ Hs)|by apply Hsub|by apply Hsub|].
    change (e_id (clone e)) with (e_id e). change (e_id (clone h0)) with (e_id h0).
    assert (e_id (clone e) <= e_id (clone h0))%N; [|change (e_id (clone e)) with (e_id e) in *; change (e_id (clone h0)) with (e_id h0) in *; lia].
    apply (newest_id heads); [|by rewrite El|done]. by apply filter_history, filter_history, (hs_history _ _ _ Hs).
  - destruct heads as [|e heads'] eqn:Eh; [done|]. destruct (Hel e ltac:(by left)) as (e0 & -> & Hm). by destruct (Hr e0).
Qed.
End Storage.

Lemma storage_entry_pages m c V range : storage_history m c V ->
  PagedScan e_id (entryPage m (range_query c range) SCAN_PAGE_SIZE) SCAN_PAGE_SIZE descending (rev (between range V)).
Proof.
  intros Hs. rewrite <- (range_filter V range). apply (storage_pages m c V Hs (range_query c range) SCAN_PAGE_SIZE); [done|done|]. unfold SCAN_PAGE_SIZE. lia.
Qed.

(** A storage keeps what a source of contexts promises. *)
#[export] Instance storage_laws : SourceLaws MemoryStorage := {
  source_shows := storage_history;
  source_history m c V Hs := hs_history m c V Hs;
  source_latest := storage_latest;
  source_marker m c V tail Hs := storage_marker m c V Hs tail;
  source_visible m c V id Hs := storage_visible m c V Hs id;
  source_pages m c V range Hs := storage_entry_pages m c V range Hs;
}.

(** Every known conversation of a storage in use has a history, where heads are not after
    their markers. *)
Lemma storage_has_history m c :
  usable m -> ancestry_ok (state m) -> forks_ok (state m) -> is_Some (conversations (conversation_tables (state m)) !! c) ->
  (forall id e h, entries (entry_tables (state m)) !! id = Some e -> e_head e = Some h -> (h <= e_id e)%N) ->
  exists V, storage_history m c V.
Proof.
  intros Hu Ha Hf Hk Hh.
  destruct (scanEntries_paged m Hu Ha Hf (chain_fuel c) (newest_query c) 1) as (run & L & _ & [Hord Hin] & _); [lia|done|done|unfold chain_fuel; cbn; lia|].
  assert (Hel : forall e, e ∈ rev (clone L) <-> exists e0, entries (entry_tables (state m)) !! e_id e0 = Some e0 /\ visible (state m) c (e_id e0) /\ e = clone e0).
  { intros e. rewrite list_elem_of_In, <- in_rev, <- list_elem_of_In. unfold clone, Clone_list. rewrite list_elem_of_fmap. split.
    - intros (e0 & -> & (H1 & H2 & _)%Hin). by exists e0.
    - intros (e0 & H1 & H2 & ->). exists e0. split; [done|]. by apply Hin. }
  exists (rev (clone L)). split; try done. split.
  - rewrite fmap_rev, clone_ids. exact Hord.
  - apply Forall_forall. intros e (e0 & _ & _ & ->)%Hel. apply clone_entry_idem.
  - apply Forall_forall. intros e (e0 & H1 & _ & ->)%Hel h Hx. exact (Hh (e_id e0) e0 h H1 Hx).
Qed.

Implicit Types (V W : list EntryRecord) (r : ContextRange).

(** A read of [runtime.context]: called, with the range kept then, after its bounds, and
    after its entries. *)
Inductive Pending : Type :=
| Called (at_ : option N) (previous : option ContextRange)
| Begun (at_ : option N) (previous : option ContextRange) (bounds : ContextBounds)
| Scanned (range : ContextRange).

(** The conversation, the kept range and the reads that are waiting. *)
Record Contexts : Type := { cx_history : list EntryRecord; cx_kept : option ContextRange; cx_pending : list Pending }.

(** [#advanceContexts]: the entries that a commit appended to the conversation. *)
Definition advance_kept (kept : option ContextRange) (appended : list EntryRecord) : option ContextRange :=
  r ← kept; match appended with [] => Some r | _ => advanceRange r appended end.

(** The check of [currentness] where the range is installed. *)
Definition recheck (known : option (option N)) r : ContextRange :=
  if cr_current r && negb (bool_decide (known = Some (Some (cb_tail (cr_bounds r))))) then with_current false r else r.

(** A concurrent read may have kept a newer range. *)
Definition install (kept : option ContextRange) r : option ContextRange :=
  match kept with
  | None => Some r
  | Some k => if (cb_tail (cr_bounds k) <=? cb_tail (cr_bounds r))%N then Some r else Some k
  end.

(** [knownLatestEntryId]: nothing, or the newest entry. *)
Definition knows (known : option (option N)) V : Prop := known = None \/ known = Some (e_id <$> last V).

Section Steps.
Context {S : Type} `{SourceLaws S} (c : N).

Inductive context_step : Contexts -> Contexts -> Prop :=
| step_commit V kept pending W :
    visible_history (V ++ W) ->
    context_step {| cx_history := V; cx_kept := kept; cx_pending := pending |}
      {| cx_history := V ++ W; cx_kept := advance_kept kept W; cx_pending := pending |}
| step_drop V kept pending :
    context_step {| cx_history := V; cx_kept := kept; cx_pending := pending |} {| cx_history := V; cx_kept := None; cx_pending := pending |}
| step_call V kept pending at_ :
    context_step {| cx_history := V; cx_kept := kept; cx_pending := pending |}
      {| cx_history := V; cx_kept := kept; cx_pending := pending ++ [Called at_ kept] |}
| step_bounds V kept pending i s at_ previous b :
    pending !! i = Some (Called at_ previous) -> source_shows s c V -> readBounds s c at_ previous = Ok (Some b) ->
    context_step {| cx_history := V; cx_kept := kept; cx_pending := pending |}
      {| cx_history := V; cx_kept := kept; cx_pending := <[i := Begun at_ previous b]> pending |}
| step_scan V kept pending i s at_ previous b fuel known r :
    pending !! i = Some (Begun at_ previous b) -> source_shows s c V -> length V < fuel -> knows known V ->
    readRange fuel s c (negb (is_some at_)) previous b known = Some (Ok r) ->
    context_step {| cx_history := V; cx_kept := kept; cx_pending := pending |}
      {| cx_history := V; cx_kept := kept; cx_pending := <[i := Scanned r]> pending |}
| step_install V kept pending i known r :
    pending !! i = Some (Scanned r) -> knows known V ->
    context_step {| cx_history := V; cx_kept := kept; cx_pending := pending |}
      {| cx_history := V; cx_kept := install kept (recheck known r); cx_pending := pending |}.

Definition contexts_new V : Contexts := {| cx_history := V; cx_kept := None; cx_pending := [] |}.

(** Reachable from a conversation that nothing is kept of. *)
Inductive context_run : Contexts -> Prop :=
| run_start V : visible_history V -> context_run (contexts_new V)
| run_next x y : context_run x -> context_step x y -> context_run y.

(** ** The invariant *)

Definition pending_ok V (p : Pending) : Prop :=
  match p with
  | Called _ previous => forall r, previous = Some r -> shows r V
  | Begun _ previous b => b = bounds_at (cb_tail b) V /\ cb_tail b ∈ e_id <$> V /\ forall r, previous = Some r -> shows r V
  | Scanned r => shows r V
  end.

Record contexts_ok (x : Contexts) : Prop := {
  cx_ok : visible_history (cx_history x);
  cx_kept_ok : forall r, cx_kept x = Some r -> shows r (cx_history x) /\ reaches r (cx_history x);
  cx_pending_ok : Forall (pending_ok (cx_history x)) (cx_pending x);
}.

Lemma pending_grows V W p : visible_history (V ++ W) -> pending_ok V p -> pending_ok (V ++ W) p.
Proof.
  intros Hh. destruct p as [at_ previous|at_ previous b|r]; [intros Hp r Hr; by apply shows_grows, Hp| |by apply shows_grows]. intros (Hb & Ht & Hp).
  split; [by destruct (range_grows _ V W true Hh Ht) as [-> _]|]. split; [rewrite fmap_app; set_solver|]. intros r Hr. by apply shows_grows, Hp.
Qed.

Lemma recheck_ok known r V : shows r V -> knows known V -> shows (recheck known r) V /\ reaches (recheck known r) V.
Proof.
  intros [Ht Hr] Hk. unfold recheck. destruct (cr_current r) eqn:Ec; cbn [andb].
  - case_bool_decide as Hknown; cbn [negb].
    + split; [split; [done|by rewrite Ec]|]. intros _. destruct Hk as [->| ->]; [done|]. by injection Hknown.
    + rewrite Hr, range_with. split; [by apply range_shows|]. intros Hc. by rewrite range_current in Hc.
  - split; [split; [done|by rewrite Ec]|]. intros Hc. congruence.
Qed.

Lemma read_bounds_ok s V at_ kept b :
  source_shows s c V -> (forall r, kept = Some r -> shows r V) -> readBounds s c at_ kept = Ok (Some b) ->
  b = bounds_at (cb_tail b) V /\ cb_tail b ∈ e_id <$> V.
Proof.
  intros Hs Hk. unfold readBounds.
  set (visible := match at_, kept with Some a, Some r => _ | _, _ => false end).
  assert (Hv : visible = true -> may_read at_ V = true) by (by apply kept_visible; [eapply source_history|]).
  rewrite (capture_spec s c V at_ visible Hs Hv). destruct (may_read at_ V) eqn:Hm; [|done]. intros [= E].
  destruct (read_tail at_ V) as [tail|] eqn:Et; [|done]. injection E as <-. cbn. split; [done|]. by eapply read_tail_in.
Qed.

Lemma context_step_ok x y : contexts_ok x -> context_step x y -> contexts_ok y.
Proof.
  intros [Hh Hk Hp] Hstep. destruct Hstep as [V kept pending W HW|V kept pending|V kept pending at_|V kept pending i s at_ previous b Hi Hs Hb|V kept pending i s at_ previous b fuel known r Hi Hs Hf Hkn Hr|V kept pending i known r Hi Hkn];
    cbn in *; split; cbn; try done.
  - intros r Hr. destruct kept as [k|]; [|done]. destruct (Hk k eq_refl) as [Hs Hre]. cbn in Hr. destruct W as [|w W].
    + injection Hr as <-. by rewrite app_nil_r.
    + pose proof (advance_shows k V (w :: W) HW Hs Hre) as Ha. by rewrite Hr in Ha.
  - eapply Forall_impl; [exact Hp|]. intros p. by apply pending_grows.
  - apply Forall_app. split; [done|]. constructor; [|done]. intros r Hr. by apply Hk.
  - apply Forall_insert; [done|]. pose proof (Forall_lookup_1 _ _ _ _ Hp Hi) as Hprev. cbn in Hprev.
    destruct (read_bounds_ok s V at_ previous b Hs Hprev Hb) as [H1 H2]. by split.
  - apply Forall_insert; [done|]. pose proof (Forall_lookup_1 _ _ _ _ Hp Hi) as (Hb & Ht & Hprev). cbn.
    rewrite Hb in Hr.
    destruct (readRange_spec fuel s c V V [] previous (negb (is_some at_)) (cb_tail b) known Hs Hf ltac:(by rewrite app_nil_r) Ht Hprev) as (cur & E & _).
    rewrite E in Hr. injection Hr as <-. by apply range_shows.
  - intros r' Hr'. pose proof (Forall_lookup_1 _ _ _ _ Hp Hi) as Hsc. cbn in Hsc. destruct (recheck_ok known r V Hsc Hkn) as [H1 H2].
    unfold install in Hr'. destruct kept as [k|]; [|by injection Hr' as <-]. destruct (_ <=? _)%N; injection Hr' as <-; [done|by apply Hk].
Qed.

Lemma context_run_ok x : context_run x -> contexts_ok x.
Proof. induction 1 as [V Hh|x y _ IH Hstep]; [by split|by eapply context_step_ok]. Qed.
End Steps.
