(* ===== verification/ContextTheorems.v ===== *)
(** The theorems of the model context: ranges that grow, kept ranges, what a provider is
    sent. *)
From S2P Require Import Prelude JsString Json StorageTypes SortedIds MemoryCommit MemoryFacts MemoryRead ReadFacts VisibleFacts MemoryHistory StorageTheorems ContextModel ContextReads ContextCache.
From Stdlib Require Import Sorted.

Section Theorems.
Context {S : Type} `{SourceLaws S}.

(** C27. A range that is extended by the entries after its tail is, in every field, the range
    derived from all its entries: settled and open messages, the baseline, contributions
    and the messages for the provider. *)
Theorem extended_range_derived (b b' : ContextBounds) (entries added : list EntryRecord) (c c' : bool) (Hhead : cb_head b' = cb_head b) :
  extendRange (deriveRange b entries c) b' added c' = deriveRange b' (entries ++ added) c'.
Proof. by apply extend_derive. Qed.

(** C28. Reading a context with a range that was kept before answers as reading it from the
    storage alone: the same view or the same error, while entries are committed between
    the bounds and the scan; it ends, and the range to keep shows the conversation. *)
Theorem kept_range_read (line later : S) (c : N) (V W : list EntryRecord) (at_ : option N) (previous : option ContextRange) (known : option (option N)) (fuel : nat)
    (Hline : source_shows line c V) (Hlater : source_shows later c (V ++ W)) (Hprevious : forall r, previous = Some r -> shows r V)
    (Hfuel : length (V ++ W) < fuel) :
  exists answer : cres (ContextView * option ContextRange),
    readContextFrom fuel line later c at_ previous known = Some answer /\
    readContext fuel line later c at_ = Some (r ← answer; Ok r.1) /\
    forall view r, answer = Ok (view, Some r) -> shows r (V ++ W) /\ (cr_current r = true -> known = Some (Some (tail_of r))).
Proof.
  unfold readContextFrom, readContext, readBounds. set (visible := match at_, previous with Some a, Some r => _ | _, _ => false end).
  pose proof (source_history line c V Hline) as Hh.
  assert (Hv : visible = true -> may_read at_ V = true) by by apply kept_visible.
  rewrite (capture_spec line c V at_ visible Hline Hv), (capture_spec line c V at_ false Hline) by done.
  destruct (may_read at_ V) eqn:Hm; [|by eexists]. destruct (read_tail at_ V) as [tail|] eqn:Et; cbn [fmap option_fmap option_map].
  2: { eexists. split; [done|]. split; [done|]. intros view r [=]. }
  pose proof (read_tail_in at_ V tail Hm Et) as Hin. pose proof (source_history later c (V ++ W) Hlater) as Hh'.
  destruct (readRange_spec fuel later c (V ++ W) V W previous (negb (is_some at_)) tail known Hlater Hfuel eq_refl Hin) as (cur & -> & Hcur).
  { intros p Hp. by apply shows_grows, Hprevious. }
  cbn [fmap option_fmap option_map]. eexists. split; [reflexivity|]. destruct (range_grows tail V W false Hh' Hin) as [Eb _]. split.
  - unfold deriveContext. rewrite (scanRange_spec fuel later c (V ++ W)) by done. cbn. rewrite range_view. unfold context_at, range_at. by rewrite Eb.
  - cbn. intros view r [= <- <-]. rewrite range_tail, range_current. split; [|done]. apply range_shows. rewrite fmap_app. set_solver.
Qed.


(** C30. In every context each assistant message is followed by exactly one result for each
    of its calls, in their order, and there are no other results; ordering keeps the other
    messages in their order and changes nothing that is answered already. *)
Theorem contexts_answered (tail : N) (V : list EntryRecord) (messages : list Message) :
  answered (cv_messages (context_at tail V)) /\ answered (orderToolResults messages) /\
  filter (fun m => is_result m = false) (orderToolResults messages) = filter (fun m => is_result m = false) messages /\
  (distinct_calls messages -> answered messages -> orderToolResults messages = messages).
Proof.
  split; [|split; [apply order_answered|split; [apply order_others|intros; by apply order_answered_id]]].
  unfold context_at, range_at, deriveRange. destruct (settle [] _) as [settled open] eqn:E. cbn. apply lead_answered.
  rewrite (settle_order _ _ _ _ E). apply order_answered.
Qed.
End Theorems.

(** ** Sample

    The storage of [StorageTheorems]: the conversation 4 is a fork of 1 at the entry 2, a
    head marker, and has the entry 5. *)
Lemma sample_heads id e h : entries (entry_tables (state sample)) !! id = Some e -> e_head e = Some h -> (h <= e_id e)%N.
Proof.
  assert (Hall : map_Forall (fun _ e => match e_head e with Some h => (h <= e_id e)%N | None => True end) (entries (entry_tables (state sample)))).
  { apply map_Forall_to_list. vm_compute. repeat (constructor; [done|]). constructor. }
  intros He Hh. specialize (Hall id e He). cbn in Hall. by rewrite Hh in Hall.
Qed.

Lemma sample_history : exists V, storage_history sample 4 V /\ 5%N ∈ e_id <$> V.
Proof.
  destruct (storage_has_history sample 4) as [V HV]; [exact sample_usable|apply sample_forks|apply sample_forks|vm_compute; by eexists|exact sample_heads|].
  exists V. split; [exact HV|]. apply list_elem_of_fmap. exists (clone (sample_entry 5 4 None)). split; [done|].
  apply (hs_entries _ _ _ HV). exists (sample_entry 5 4 None). split; [by vm_compute|]. split; [|done]. apply visible_own. by vm_compute; left.
Qed.

(** A call, its result and the next question. *)
Definition message_entry (id : N) (message : json) : EntryRecord :=
  {| e_id := id; e_conversationId := 1; e_kind := "message"; e_model := Some [message]; e_data := None; e_head := None; e_edits := None; e_byTaskId := None |}.

Definition call_entry : EntryRecord :=
  message_entry 2 (jobj [("role", JStr "assistant"); ("content", jarr [jobj [("type", JStr "toolCall"); ("id", JStr "a"); ("name", JStr "read")]]);
    ("stopReason", JStr "toolUse")]).
Definition result_entry : EntryRecord := message_entry 3 (jobj [("role", JStr "toolResult"); ("toolCallId", JStr "a")]).
Definition question_entry : EntryRecord := message_entry 4 (jobj [("role", JStr "user")]).

Definition no_head (tail : N) : ContextBounds := {| cb_head := None; cb_tail := tail |}.

Lemma extended_range_derived_witness :
  extendRange (deriveRange (no_head 2) [call_entry] true) (no_head 4) [question_entry; result_entry] true =
  deriveRange (no_head 4) [call_entry; question_entry; result_entry] true.
Proof. apply (extended_range_derived (no_head 2) (no_head 4) [call_entry] [question_entry; result_entry]). reflexivity. Defined.

Lemma kept_range_read_witness :
  exists V fuel (answer : cres (ContextView * option ContextRange)),
    readContextFrom fuel sample sample 4 None (Some (range_at 5 V true)) (Some (Some 5%N)) = Some answer /\
    readContext fuel sample sample 4 None = Some (r ← answer; Ok r.1).
Proof.
  destruct sample_history as (V & HV & H5). exists V, (Datatypes.S (length (V ++ []))).
  destruct (kept_range_read sample sample 4 V [] None (Some (range_at 5 V true)) (Some (Some 5%N)) (Datatypes.S (length (V ++ [])))) as (answer & H1 & H2 & _).
  - exact HV.
  - rewrite app_nil_r. exact HV.
  - intros r Hr. injection Hr as <-. apply range_shows. exact H5.
  - lia.
  - exists answer. split; [exact H1|exact H2].
Defined.

