(* ===== verification/SessionTypes.v ===== *)
(** What a Session keeps of its documents (durable/src/documents.ts, session/session.ts,
    session/transaction.ts and session/forks.ts): definitions, loaded documents, held
    changes, and the transaction of one commit; loading and storing documents; which
    documents a fork copies. *)
From S2P Require Import Prelude JsString Json DeltaOp DeltaApply DeltaPending StorageTypes SortedIds MemoryCommit MemoryRead.

(** ** Definitions of documents *)

Inductive ScopeKind : Type := session_scope | conversation_scope | task_scope.

#[export] Instance ScopeKind_eq_dec : EqDecision ScopeKind.
Proof. solve_decision. Defined.

Definition scope_kind (s : Scope) : ScopeKind :=
  match s with ScopeSession => session_scope | ScopeConversation _ => conversation_scope | ScopeTask _ => task_scope end.

(** The functions are the application's. *)
Record AnyDocDefinition : Type := {
  df_kind : string;
  df_scope : ScopeKind;
  df_history : option History;
  df_fork : option ForkMode;
  df_version : N;
  df_family : bool;
  df_initial : option json -> json;
  df_migrate : option (json -> N -> json);
  df_checkpointWhen : json -> list Op -> nat -> bool;
}.

(** ** Errors *)

Inductive tx_error : Type :=
| StorageError (e : storage_error)
| NoOwnerId (kind : string)
| SemanticsMismatch (id : N)
| NewerVersion (id version : N)
| NeedsMigration (id version : N)
| ReadAfterWrite
| NotVisibleFrom (entry conversation : N)
| SeveralSources (kind : string) (key : option string)
| UnknownTxConversation (id : N)
| UnknownTask (id : N)
| TaskIsTerminal (id : N)
| TerminalCandidate (id : N)
| TaskMoves (id : N)
| OwnerNotLive (id : N) (status : TaskStatus)
| OwnerAborted (id : N)
| BackgroundChild
| ChildElsewhere (conversation : N)
| NoConversation
| UnknownSubmission (id : N)
| NotQueued (id : N)
| NotPlaced (id : N)
| SourceUnread (id : N)
| SourceDiffers (id : N)
| CurrentUnread (id : N)
| SourceDocumentChanges (id : N)
| SourceConversationChanges (id : N).

Abbreviation tres := (res tx_error).

Definition of_storage {A} (r : sres A) : tres A := match r with Ok a => Ok a | Throw e => Throw (StorageError e) end.

(** ** Addresses *)

(** The owner and the key among the arguments. *)
Definition resolveAddress (definition : AnyDocDefinition) (owner : option N) (key : option string) : tres DocumentAddress :=
  scope ← match df_scope definition with
          | session_scope => Ok ScopeSession
          | conversation_scope => ScopeConversation <$> res_of (NoOwnerId (df_kind definition)) owner
          | task_scope => ScopeTask <$> res_of (NoOwnerId (df_kind definition)) owner
          end;
  Ok {| da_kind := df_kind definition; da_scope := scope; da_key := if df_family definition then key else None |}.

Definition scope_text (s : Scope) : string * string :=
  match s with
  | ScopeSession => (json_quote "session", "null")
  | ScopeConversation id => (json_quote "conversation", int_to_string id)
  | ScopeTask id => (json_quote "task", int_to_string id)
  end.

Definition addressId (address : DocumentAddress) : string :=
  json_array
    [json_quote (da_kind address); (scope_text (da_scope address)).1; (scope_text (da_scope address)).2;
     match da_key address with Some key => json_quote key | None => "null" end].

#[global] Arguments addressId : simpl never.

Definition documentCreate (definition : AnyDocDefinition) (address : DocumentAddress) (id : N) : DocumentCreate :=
  let conversation := is_conversation_scope (da_scope address) in
  {| dc_id := id; dc_kind := da_kind address; dc_key := da_key address; dc_scope := da_scope address;
     dc_history := if conversation then df_history definition else None;
     dc_fork := if conversation then df_fork definition else None |}.

Definition checkRecordScope (definition : AnyDocDefinition) (record : DocumentCreate) : tres unit :=
  check (bool_decide (scope_kind (dc_scope record) = df_scope definition) &&
         (negb (is_conversation_scope (dc_scope record)) ||
          bool_decide (dc_history record = df_history definition) && bool_decide (dc_fork record = df_fork definition)))
    (SemanticsMismatch (dc_id record)).

Definition checkRecordVersion (definition : AnyDocDefinition) (record : DocumentCreate) (version : N) : tres unit :=
  _ ← check (negb (df_version definition <? version)%N) (NewerVersion (dc_id record) version);
  check (negb ((version <? df_version definition)%N && negb (is_some (df_migrate definition)))) (NeedsMigration (dc_id record) version).

Definition materializeDocumentValue (definition : AnyDocDefinition) (record : DocumentCreate) (version : N) (value : json) : tres json :=
  _ ← checkRecordScope definition record;
  _ ← checkRecordVersion definition record version;
  if (version =? df_version definition)%N then Ok value
  else match df_migrate definition with Some migrate => Ok (clone (migrate value version)) | None => Throw (NeedsMigration (dc_id record) version) end.

(** ** Loaded documents and held changes *)

(** [ld_value] is the tracker's value. *)
Record LoadedDocument : Type := {
  ld_addressId : string;
  ld_record : DocumentRecord;
  ld_storedVersion : N;
  ld_valueVersion : N;
  ld_deltasSinceBase : nat;
  ld_value : json;
}.

Definition ld_id (d : LoadedDocument) : N := dc_id (d_create (ld_record d)).

(** The held changes of the document at [h_addressId]. *)
Record HeldDocument : Type := { h_addressId : string; h_pending : DeltaPending.State; h_base : bool }.

(** ** Publications *)

Inductive DocumentCommitChange : Type :=
| DocumentChanged (record : DocumentRecord) (conversationId : option N) (version : N) (value : json) (ops : list Op)
| DocumentRetired_ (record : DocumentRecord) (conversationId : option N)
| DocumentCopied (record : DocumentRecord) (conversationId : option N) (source : DocumentCopySource).

(** The Session's documents, over its storage. [ss_taskDocuments] has the documents of the
    live tasks that the Session created; [ss_published] is what it told the observers of
    [observeCommits] about documents, in order. *)
Record SessionState : Type := {
  ss_storage : MemoryStorage;
  ss_documents : gmap string LoadedDocument;
  ss_holds : gmap N HeldDocument;
  ss_taskDocuments : gmap N (list DocumentRecord);
  ss_published : list DocumentCommitChange;
}.

Definition session_new (m : MemoryStorage) : SessionState :=
  {| ss_storage := m; ss_documents := ∅; ss_holds := ∅; ss_taskDocuments := ∅; ss_published := [] |}.

Definition with_storage (m : MemoryStorage) (s : SessionState) : SessionState :=
  {| ss_storage := m; ss_documents := ss_documents s; ss_holds := ss_holds s; ss_taskDocuments := ss_taskDocuments s;
     ss_published := ss_published s |}.
Definition with_documents (d : gmap string LoadedDocument) (s : SessionState) : SessionState :=
  {| ss_storage := ss_storage s; ss_documents := d; ss_holds := ss_holds s; ss_taskDocuments := ss_taskDocuments s;
     ss_published := ss_published s |}.
Definition with_holds (h : gmap N HeldDocument) (s : SessionState) : SessionState :=
  {| ss_storage := ss_storage s; ss_documents := ss_documents s; ss_holds := h; ss_taskDocuments := ss_taskDocuments s;
     ss_published := ss_published s |}.
Definition with_taskDocuments (t : gmap N (list DocumentRecord)) (s : SessionState) : SessionState :=
  {| ss_storage := ss_storage s; ss_documents := ss_documents s; ss_holds := ss_holds s; ss_taskDocuments := t;
     ss_published := ss_published s |}.
Definition publish (changes : list DocumentCommitChange) (s : SessionState) : SessionState :=
  {| ss_storage := ss_storage s; ss_documents := ss_documents s; ss_holds := ss_holds s; ss_taskDocuments := ss_taskDocuments s;
     ss_published := ss_published s ++ changes |}.

(** ** The transaction of one commit *)

(** What a change of a draft prepares: the operations recorded and the value they make. *)
Record Prepared : Type := { pr_value : json; pr_ops : list Op }.

Inductive DocumentTarget : Type :=
| TLoaded (document : LoadedDocument)
| TCreated (record : DocumentCreate) (version : N) (value : json)
| TForkCopy (record : DocumentCreate) (source : DocumentCopySource)
| TRetireOnly (record : DocumentRecord).

Record DocumentEntry : Type := {
  de_addressId : string;
  de_address : DocumentAddress;
  de_definition : option AnyDocDefinition;
  de_target : option DocumentTarget;
  de_change : option Prepared;
  de_retireOnCommit : bool;
}.

Inductive SubmissionChange : Type :=
| ChangeDone (answer : N)
| ChangeUnanswered (reason : string) (detail : option json)
| ChangePlaced (entry : N).

(** [#tasksById] is an association list in insertion order, with whether a task is created. *)
Record Transaction : Type := {
  tx_conversationId : option N;
  tx_taskId : option N;
  tx_carrier : option json;
  tx_hasTableWrite : bool;
  tx_writes : list StorageWrite;
  tx_createdConversations : gset N;
  tx_forkConversations : gset N;
  tx_forkDocuments : gset N;
  tx_tasks : list (N * option (bool * TaskRecord));
  tx_submissions : list (N * SubmissionRecord);
  tx_submissionChanges : list (N * SubmissionChange);
  tx_documents : list DocumentEntry;
  tx_latest : gmap string nat;
}.

Definition transaction_new (conversationId taskId : option N) (carrier : option json) : Transaction :=
  {| tx_conversationId := conversationId; tx_taskId := taskId; tx_carrier := carrier; tx_hasTableWrite := false;
     tx_writes := []; tx_createdConversations := ∅; tx_forkConversations := ∅; tx_forkDocuments := ∅; tx_tasks := [];
     tx_submissions := []; tx_submissionChanges := []; tx_documents := []; tx_latest := ∅ |}.

(** One batch, stored or refused. *)
Definition store_batch (m : MemoryStorage) (writes : list StorageWrite) : tres (MemoryStorage * N) :=
  r ← of_storage (commit m [writes]);
  match r with
  | (m', receipts, Some result) =>
      match refused result, receipts with
      | Some e, _ => Throw (StorageError e)
      | None, [(_, seq)] => Ok (m', seq)
      | None, _ => Throw (StorageError UndefinedValue)
      end
  | (_, _, None) => Throw (StorageError UndefinedValue)
  end.

(** [storeHeld] of transaction.ts: the held changes followed by [ops], as the content to
    store and the operations that readers of the stored state apply. *)
Definition storeHeld (hold : HeldDocument) (ops : list Op) (value : json) (version : N) : DocumentContent * list Op :=
  let base := {| dcn_version := version; dcn_content := CBase value |} in
  match (take_pending (push (h_pending hold) ops)).2 with
  | TakeReplace => (base, [OpR value])
  | TakeOps taken =>
      if h_base hold then (base, taken)
      else ({| dcn_version := version; dcn_content := CDelta taken |}, taken)
  end.

Definition with_deltas (n : nat) (d : LoadedDocument) : LoadedDocument :=
  {| ld_addressId := ld_addressId d; ld_record := ld_record d; ld_storedVersion := ld_storedVersion d;
     ld_valueVersion := ld_valueVersion d; ld_deltasSinceBase := n; ld_value := ld_value d |}.

(** The count of deltas after [content] is stored. *)
Definition count_delta (content : Content) (n : nat) : nat := if is_base content then 0 else S n.

Definition conversation_of (scope : Scope) : option N :=
  match scope with ScopeConversation id => Some id | _ => None end.

(** A hold with its document and what is stored of it. *)
Definition stored_hold (s : SessionState) (x : N * HeldDocument) : tres (LoadedDocument * (DocumentContent * list Op)) :=
  d ← res_of (StorageError UndefinedValue) (ss_documents s !! h_addressId x.2);
  Ok (d, storeHeld x.2 [] (ld_value d) (ld_valueVersion d)).

Definition stored_write (x : LoadedDocument * (DocumentContent * list Op)) : StorageWrite :=
  WDocumentChange (ld_id x.1) x.2.1.

Definition stored_change (x : LoadedDocument * (DocumentContent * list Op)) : DocumentCommitChange :=
  let d := x.1 in
  DocumentChanged (ld_record d) (conversation_of (dc_scope (d_create (ld_record d)))) (ld_valueVersion d) (ld_value d) x.2.2.

Definition count_stored (documents : gmap string LoadedDocument) (x : LoadedDocument * (DocumentContent * list Op))
    : gmap string LoadedDocument :=
  <[ld_addressId x.1 := with_deltas (count_delta (dcn_content x.2.1) (ld_deltasSinceBase x.1)) x.1]> documents.

(** [#release]. *)
Definition release (ids : list N) (s : SessionState) : SessionState := with_holds (foldr delete (ss_holds s) ids) s.

(** [#storeHolds]. *)
Definition storeHolds (s : SessionState) (select : N -> bool) : tres SessionState :=
  let holds := filter (fun x => select x.1 = true) (map_to_list (ss_holds s)) in
  match holds with
  | [] => Ok s
  | _ =>
      stored ← res_mapM (stored_hold s) holds;
      r ← store_batch (ss_storage s) (stored_write <$> stored);
      Ok (release (holds.*1)
            (publish (stored_change <$> stored)
               (with_documents (foldl count_stored (ss_documents s) stored) (with_storage r.1 s))))
  end.

(** The part of [#loadDocument] that reads the storage. *)
Definition coldLoad (s : SessionState) (definition : AnyDocDefinition) (id : string) (address : DocumentAddress)
    : tres (SessionState * option LoadedDocument) :=
  found ← of_storage (findDocument (ss_storage s) address PCurrent);
  match found with
  | None => Ok (s, None)
  | Some record =>
      read ← of_storage (document (ss_storage s) (dc_id (d_create record)) PCurrent);
      stored ← res_of (CurrentUnread (dc_id (d_create record))) read;
      value ← materializeDocumentValue definition (d_create (sd_record stored)) (sd_version stored) (sd_value stored);
      let loaded :=
        {| ld_addressId := id; ld_record := sd_record stored; ld_storedVersion := sd_version stored;
           ld_valueVersion := df_version definition; ld_deltasSinceBase := sd_deltasSinceBase stored; ld_value := value |} in
      Ok (with_documents (<[id := loaded]> (ss_documents s)) s, Some loaded)
  end.

(** [#loadDocument]: a cached value serves the definitions of its version; for another one
    its held changes are stored first. *)
Definition loadDocument (s : SessionState) (definition : AnyDocDefinition) (id : string) (address : DocumentAddress)
    : tres (SessionState * option LoadedDocument) :=
  match ss_documents s !! id with
  | None => coldLoad s definition id address
  | Some cached =>
      if (ld_valueVersion cached =? df_version definition)%N then Ok (s, Some cached)
      else
        s' ← storeHolds s (fun i => (i =? ld_id cached)%N);
        coldLoad (with_documents (delete id (ss_documents s')) s') definition id address
  end.

Definition mint (s : SessionState) : tres (SessionState * N) :=
  r ← of_storage (mintId (ss_storage s)); Ok (with_storage r.1 s, r.2).

Definition SCAN_PAGE_SIZE : nat := 256.

(** All pages of a scan; there are fewer documents than IDs. *)
Definition all_documents (m : MemoryStorage) (query : DocumentQuery) : tres (list DocumentRecord) :=
  of_storage (ran (scanAll (S (N.to_nat (nextId m))) (scanDocuments m query SCAN_PAGE_SIZE) None [])).

Record ForkDocumentCopy : Type := { fc_record : DocumentCreate; fc_source : DocumentCopySource }.

(** The record of a copy: the source's, in the child. *)
Definition copy_record (id child : N) (source : DocumentCreate) : DocumentCreate :=
  {| dc_id := id; dc_kind := dc_kind source; dc_key := dc_key source; dc_scope := ScopeConversation child;
     dc_history := if bool_decide (dc_history source = Some HLatest) then Some HLatest else Some HRewindable;
     dc_fork := dc_fork source |}.

(** One page's sources; the copies so far determine the copied addresses. *)
Fixpoint collect_sources (s : SessionState) (at_ : DocumentPoint) (policy : ForkMode) (child : N) (copies : list ForkDocumentCopy)
    (sources : list DocumentRecord) : tres (SessionState * list ForkDocumentCopy) :=
  match sources with
  | [] => Ok (s, copies)
  | source :: sources' =>
      let from := d_create source in
      if negb (is_conversation_scope (dc_scope from)) || negb (bool_decide (dc_fork from = Some policy))
      then collect_sources s at_ policy child copies sources'
      else
        r ← mint s;
        let record := copy_record r.2 child from in
        let copyAddress := addressId (create_address record) in
        _ ← check (negb (bool_decide (copyAddress ∈ (fun c => addressId (create_address (fc_record c))) <$> copies)))
              (SeveralSources (dc_kind record) (dc_key record));
        collect_sources r.1 at_ policy child
          (copies ++ [{| fc_record := record; fc_source := {| cs_id := dc_id from; cs_at := at_ |} |}]) sources'
  end.

Definition collectCopies (s : SessionState) (conversationId : N) (at_ : DocumentPoint) (policy : ForkMode) (child : N)
    (copies : list ForkDocumentCopy) : tres (SessionState * list ForkDocumentCopy) :=
  sources ← all_documents (ss_storage s) {| dq_scope := ScopeConversation conversationId; dq_at := at_; dq_kind := None |};
  collect_sources s at_ policy child copies sources.

Definition prepareForkDocumentCopies (s : SessionState) (parent at_ child : N) : tres (SessionState * list ForkDocumentCopy) :=
  found ← of_storage (ran (entry_visible (chain_fuel parent) (ss_storage s) parent at_));
  e ← res_of (NotVisibleFrom at_ parent) found;
  r ← collectCopies s (e_conversationId e.1) (PSeq e.2) ForkAsOf child [];
  collectCopies r.1 parent PCurrent ForkCurrent child r.2.
