(* ===== verification/SessionTransaction.v ===== *)
(** The operations of a transaction (durable/src/session/transaction.ts): reads are
    refused after a table write; writes and drafts are staged. Operations run one after the
    other; one that throws ends the transaction. *)
From S2P Require Import Prelude JsString Json DeltaOp DeltaApply DeltaPending StorageTypes SortedIds MemoryCommit MemoryRead SessionTypes.

(** ** Maps in insertion order *)

Fixpoint alist_get {A} (id : N) (l : list (N * A)) : option A :=
  match l with [] => None | (i, a) :: l' => if (id =? i)%N then Some a else alist_get id l' end.

Fixpoint alist_set {A} (id : N) (a : A) (l : list (N * A)) : list (N * A) :=
  match l with
  | [] => [(id, a)]
  | (i, b) :: l' => if (id =? i)%N then (i, a) :: l' else (i, b) :: alist_set id a l'
  end.

(** ** Changing one field *)

Definition table_write (tx : Transaction) : Transaction :=
  {| tx_conversationId := tx_conversationId tx; tx_taskId := tx_taskId tx; tx_carrier := tx_carrier tx; tx_hasTableWrite := true;
     tx_writes := tx_writes tx; tx_createdConversations := tx_createdConversations tx;
     tx_forkConversations := tx_forkConversations tx; tx_forkDocuments := tx_forkDocuments tx; tx_tasks := tx_tasks tx;
     tx_submissions := tx_submissions tx; tx_submissionChanges := tx_submissionChanges tx; tx_documents := tx_documents tx;
     tx_latest := tx_latest tx |}.
Definition add_write (w : StorageWrite) (tx : Transaction) : Transaction :=
  {| tx_conversationId := tx_conversationId tx; tx_taskId := tx_taskId tx; tx_carrier := tx_carrier tx;
     tx_hasTableWrite := tx_hasTableWrite tx; tx_writes := tx_writes tx ++ [w];
     tx_createdConversations := tx_createdConversations tx; tx_forkConversations := tx_forkConversations tx;
     tx_forkDocuments := tx_forkDocuments tx; tx_tasks := tx_tasks tx; tx_submissions := tx_submissions tx;
     tx_submissionChanges := tx_submissionChanges tx; tx_documents := tx_documents tx; tx_latest := tx_latest tx |}.
Definition with_sets (created forked : gset N) (sources : gset N) (tx : Transaction) : Transaction :=
  {| tx_conversationId := tx_conversationId tx; tx_taskId := tx_taskId tx; tx_carrier := tx_carrier tx;
     tx_hasTableWrite := tx_hasTableWrite tx; tx_writes := tx_writes tx; tx_createdConversations := created;
     tx_forkConversations := forked; tx_forkDocuments := sources; tx_tasks := tx_tasks tx; tx_submissions := tx_submissions tx;
     tx_submissionChanges := tx_submissionChanges tx; tx_documents := tx_documents tx; tx_latest := tx_latest tx |}.
Definition with_tasks (tasks : list (N * option (bool * TaskRecord))) (tx : Transaction) : Transaction :=
  {| tx_conversationId := tx_conversationId tx; tx_taskId := tx_taskId tx; tx_carrier := tx_carrier tx;
     tx_hasTableWrite := tx_hasTableWrite tx; tx_writes := tx_writes tx; tx_createdConversations := tx_createdConversations tx;
     tx_forkConversations := tx_forkConversations tx; tx_forkDocuments := tx_forkDocuments tx; tx_tasks := tasks;
     tx_submissions := tx_submissions tx; tx_submissionChanges := tx_submissionChanges tx; tx_documents := tx_documents tx;
     tx_latest := tx_latest tx |}.
Definition with_submissions (submissions : list (N * SubmissionRecord)) (changes : list (N * SubmissionChange)) (tx : Transaction)
    : Transaction :=
  {| tx_conversationId := tx_conversationId tx; tx_taskId := tx_taskId tx; tx_carrier := tx_carrier tx;
     tx_hasTableWrite := tx_hasTableWrite tx; tx_writes := tx_writes tx; tx_createdConversations := tx_createdConversations tx;
     tx_forkConversations := tx_forkConversations tx; tx_forkDocuments := tx_forkDocuments tx; tx_tasks := tx_tasks tx;
     tx_submissions := submissions; tx_submissionChanges := changes; tx_documents := tx_documents tx; tx_latest := tx_latest tx |}.
Definition with_entries (documents : list DocumentEntry) (latest : gmap string nat) (tx : Transaction) : Transaction :=
  {| tx_conversationId := tx_conversationId tx; tx_taskId := tx_taskId tx; tx_carrier := tx_carrier tx;
     tx_hasTableWrite := tx_hasTableWrite tx; tx_writes := tx_writes tx; tx_createdConversations := tx_createdConversations tx;
     tx_forkConversations := tx_forkConversations tx; tx_forkDocuments := tx_forkDocuments tx; tx_tasks := tx_tasks tx;
     tx_submissions := tx_submissions tx; tx_submissionChanges := tx_submissionChanges tx; tx_documents := documents;
     tx_latest := latest |}.

(** [#documents.push] and [#latestDocumentByAddress.set]. *)
Definition push_entry (e : DocumentEntry) (tx : Transaction) : Transaction :=
  with_entries (tx_documents tx ++ [e]) (<[de_addressId e := length (tx_documents tx)]> (tx_latest tx)) tx.

Definition set_entry (i : nat) (e : DocumentEntry) (tx : Transaction) : Transaction :=
  with_entries (<[i := e]> (tx_documents tx)) (tx_latest tx) tx.

(** ** Reads *)

(** A public table read, and what it answers. *)
Definition tx_read {A} (tx : Transaction) (read : tres A) : tres A :=
  _ ← check (negb (tx_hasTableWrite tx)) ReadAfterWrite; read.

Definition committedTask (s : SessionState) (id : N) : tres (option TaskRecord) := of_storage (task (ss_storage s) id).

Definition task_write (tx : Transaction) (id : N) : option (bool * TaskRecord) := alist_get id (tx_tasks tx) ≫= fun w => w.

(** [#taskEntry]: an entry of a task that was only read has no write. *)
Definition touch_task (id : N) (tx : Transaction) : Transaction :=
  match alist_get id (tx_tasks tx) with Some _ => tx | None => with_tasks (alist_set id None (tx_tasks tx)) tx end.

(** [#currentTask]: the candidate, or the committed record. *)
Definition currentTask (s : SessionState) (tx : Transaction) (id : N) : tres (option TaskRecord) :=
  match task_write tx id with Some (_, r) => Ok (Some r) | None => committedTask s id end.

Definition requireConversation (s : SessionState) (tx : Transaction) (id : N) : tres unit :=
  if bool_decide (id ∈ tx_createdConversations tx) then Ok tt
  else
    found ← of_storage (conversation (ss_storage s) id);
    check (is_some found) (UnknownTxConversation id).

(** ** Conversations and entries *)

Definition copy_entry (c : ForkDocumentCopy) : DocumentEntry :=
  let address := create_address (fc_record c) in
  {| de_addressId := addressId address; de_address := address; de_definition := None;
     de_target := Some (TForkCopy (fc_record c) (fc_source c)); de_change := None; de_retireOnCommit := false |}.

Definition stageConversation (s : SessionState) (tx : Transaction) (parent : option ParentLink) (ownerTaskId : option N)
    (reservedId : option N) : tres (SessionState * Transaction * ConversationRecord) :=
  minted ← match reservedId with Some id => Ok (s, id) | None => mint s end;
  let '(s1, id) := minted in
  owned ← match ownerTaskId with
          | None => Ok (tx, None)
          | Some taskId =>
              found ← currentTask s1 tx taskId;
              t ← res_of (UnknownTask taskId) found;
              Ok (touch_task taskId tx, Some {| ol_conversationId := t_conversationId t; ol_taskId := taskId |})
          end;
  let '(tx1, owner) := owned in
  let record := {| c_id := id; c_parent := parent; c_owner := owner |} in
  copied ← match parent with
           | None => Ok (s1, [])
           | Some p => prepareForkDocumentCopies s1 (pl_conversationId p) (pl_at p) id
           end;
  let '(s2, copies) := copied in
  let tx2 := foldl (fun tx c => push_entry (copy_entry c) tx) tx1 copies in
  let tx3 := with_sets ({[ id ]} ∪ tx_createdConversations tx2)
               (match parent with Some p => {[ pl_conversationId p ]} | None => ∅ end ∪ tx_forkConversations tx2)
               (list_to_set ((fun c => cs_id (fc_source c)) <$> copies) ∪ tx_forkDocuments tx2) tx2 in
  Ok (s2, add_write (WConversation record) tx3, record).

Definition createConversation (s : SessionState) (tx : Transaction) (owner : option N) : tres (SessionState * Transaction) :=
  r ← stageConversation s (table_write tx) None owner None; Ok r.1.

Definition forkConversation (s : SessionState) (tx : Transaction) (parent at_ : N) (owner : option N)
    : tres (SessionState * Transaction) :=
  r ← stageConversation s (table_write tx) (Some {| pl_conversationId := parent; pl_at := at_ |}) owner None; Ok r.1.

(** The inner [None] of [ed_head] is ["self"]. *)
Record EntryDraft : Type := {
  ed_kind : string;
  ed_model : option (list json);
  ed_data : option json;
  ed_head : option (option N);
  ed_edits : option (list ContextEdit);
}.

Definition appendEntry (s : SessionState) (tx : Transaction) (conversationId : N) (value : EntryDraft)
    : tres (SessionState * Transaction) :=
  let tx1 := table_write tx in
  _ ← requireConversation s tx1 conversationId;
  r ← mint s;
  let id := r.2 in
  let record :=
    clone {| e_id := id; e_conversationId := conversationId; e_kind := ed_kind value; e_model := ed_model value;
             e_data := ed_data value;
             e_head := match ed_head value with Some None => Some id | Some (Some h) => Some h | None => None end;
             e_edits := ed_edits value; e_byTaskId := tx_taskId tx |} in
  Ok (r.1, add_write (WEntry record) tx1).

(** ** Tasks *)

Inductive TraceOption : Type := TraceInherit | TraceRoot | TraceCarrier (carrier : json).

(** What a task definition gives for an input, and the options. *)
Record TaskCreation : Type := {
  tc_kind : string;
  tc_version : N;
  tc_input : json;
  tc_checkpoint : json;
  tc_trace : TraceOption;
  tc_links : option (list json);
  tc_owner : option N;
  tc_conversationId : option N;
  tc_background : option bool;
  tc_abandonOnRestart : bool;
  tc_submissionIds : option (list N);
}.

Definition currentSubmission (s : SessionState) (tx : Transaction) (id : N) : tres (option SubmissionRecord) :=
  match alist_get id (tx_submissions tx) with Some r => Ok (Some r) | None => of_storage (submission (ss_storage s) id) end.

(** The carrier of the first submission is the parent, those of the others are links. *)
Definition submission_trace (s : SessionState) (tx : Transaction) (ids : list N) : tres (TraceOption * option (list json)) :=
  found ← res_mapM (currentSubmission s tx) ids;
  let carriers := (fun r => r ≫= s_trace) <$> found in
  Ok (match carriers with [] => TraceInherit | Some c :: _ => TraceCarrier c | None :: _ => TraceRoot end,
      match omap (fun c => c) (tail carriers) with [] => None | links => Some links end).

Definition createTask (s : SessionState) (tx : Transaction) (o : TaskCreation) : tres (SessionState * Transaction) :=
  let tx1 := table_write tx in
  traced ← match tc_submissionIds o with
           | None => Ok (tc_trace o, tc_links o)
           | Some ids => submission_trace s tx1 ids
           end;
  owned ← match tc_owner o with
          | None => Ok (tx1, None)
          | Some taskId =>
              found ← currentTask s tx1 taskId;
              owner ← res_of (UnknownTask taskId) found;
              _ ← check (negb (bool_decide (tc_background o = Some true))) BackgroundChild;
              _ ← check (match tc_conversationId o with Some c => (c =? t_conversationId owner)%N | None => true end)
                    (ChildElsewhere (t_conversationId owner));
              Ok (touch_task taskId tx1, Some owner)
          end;
  let '(tx2, owner) := owned in
  conversationId ← res_of NoConversation
    match owner, tc_conversationId o with
    | Some t, _ => Some (t_conversationId t)
    | None, Some c => Some c
    | None, None => tx_conversationId tx
    end;
  _ ← requireConversation s tx2 conversationId;
  r ← mint s;
  let record :=
    clone {| t_trace := match traced.1 with TraceRoot => None | TraceCarrier c => Some c | TraceInherit => tx_carrier tx end;
             t_links := traced.2; t_id := r.2; t_conversationId := conversationId; t_kind := tc_kind o; t_version := tc_version o;
             t_input := tc_input o; t_owner := t_id <$> owner; t_background := default false (tc_background o);
             t_abortRequested := false; t_abortReason := false; t_abandonOnRestart := tc_abandonOnRestart o; t_startedAt := None;
             t_endedAt := None; t_restarts := None; t_state := TPending (tc_checkpoint o); t_memos := None |} in
  Ok (r.1, with_tasks (alist_set r.2 (Some (true, record)) (tx_tasks tx2)) tx2).

(** [#stampTimes]: when the task was first running and when it ended. *)
Definition stampTimes (now : num) (value : TaskRecord) (candidate : option TaskRecord) : TaskRecord :=
  let stamp (previous own : option num) (status : TaskStatus) :=
    match previous, own with
    | Some t, _ | None, Some t => Some t
    | None, None => if bool_decide (t_status value = status) then Some now else None
    end in
  {| t_trace := t_trace value; t_links := t_links value; t_id := t_id value; t_conversationId := t_conversationId value;
     t_kind := t_kind value; t_version := t_version value; t_input := t_input value; t_owner := t_owner value;
     t_background := t_background value; t_abortRequested := t_abortRequested value; t_abortReason := t_abortReason value;
     t_abandonOnRestart := t_abandonOnRestart value;
     t_startedAt := stamp (candidate ≫= t_startedAt) (t_startedAt value) running;
     t_endedAt := stamp (candidate ≫= t_endedAt) (t_endedAt value) terminal;
     t_restarts := t_restarts value; t_state := t_state value; t_memos := t_memos value |}.

Definition setTask (now : num) (tx : Transaction) (value : TaskRecord) : tres Transaction :=
  let tx1 := touch_task (t_id value) (table_write tx) in
  let write := task_write tx (t_id value) in
  _ ← match write with
      | Some (_, candidate) =>
          _ ← check (negb (bool_decide (t_status candidate = terminal))) (TerminalCandidate (t_id value));
          check (t_conversationId candidate =? t_conversationId value)%N (TaskMoves (t_id value))
      | None => Ok tt
      end;
  let created := match write with Some (created, _) => created | None => false end in
  Ok (with_tasks (alist_set (t_id value) (Some (created, clone (stampTimes now value (snd <$> write)))) (tx_tasks tx1)) tx1).

(** ** Submissions *)

(** A submission without an ID. *)
Record SubmissionCreate : Type := {
  sc_trace : option json;
  sc_conversationId : N;
  sc_requestId : option string;
  sc_state : SubmissionState;
}.

Definition createSubmission (s : SessionState) (tx : Transaction) (create : SubmissionCreate) : tres (SessionState * Transaction) :=
  let tx1 := table_write tx in
  _ ← requireConversation s tx1 (sc_conversationId create);
  r ← mint s;
  let record :=
    clone {| s_trace := sc_trace create; s_id := r.2; s_conversationId := sc_conversationId create;
             s_requestId := sc_requestId create; s_state := sc_state create |} in
  Ok (r.1, with_submissions (alist_set r.2 record (tx_submissions tx1)) (tx_submissionChanges tx1) tx1).

(** [settleSubmission] and [placeSubmission]. *)
Definition changeSubmission (tx : Transaction) (id : N) (change : SubmissionChange) : Transaction :=
  let tx1 := table_write tx in
  with_submissions (tx_submissions tx1) (tx_submissionChanges tx1 ++ [(id, change)]) tx1.

Definition with_state (st : SubmissionState) (r : SubmissionRecord) : SubmissionRecord :=
  {| s_trace := s_trace r; s_id := s_id r; s_conversationId := s_conversationId r; s_requestId := s_requestId r; s_state := st |}.

(** [applySubmissionChange]. *)
Definition applySubmissionChange (current : SubmissionRecord) (change : SubmissionChange) : tres SubmissionRecord :=
  match submission_status (s_state current), change with
  | done_, _ | unanswered, _ => Ok current
  | _, ChangePlaced entry =>
      match s_state current with
      | InputQueued => Ok (with_state (InputPlaced entry) current)
      | WriteQueued => Ok (with_state (WriteDone entry) current)
      | _ => Throw (NotQueued (s_id current))
      end
  | _, ChangeDone answer =>
      match s_state current with
      | InputPlaced entry => Ok (with_state (InputDone entry answer) current)
      | ContinuePlaced => Ok (with_state (ContinueDone answer) current)
      | _ => Throw (NotPlaced (s_id current))
      end
  | _, ChangeUnanswered reason detail =>
      Ok (with_state
            match s_state current with
            | InputPlaced entry => InputUnanswered (Some entry) reason detail
            | WriteQueued => WriteUnanswered reason detail
            | ContinuePlaced => ContinueUnanswered reason detail
            | _ => InputUnanswered None reason detail
            end current)
  end.

(** ** Documents *)

Definition latest_entry (tx : Transaction) (id : string) : option (nat * DocumentEntry) :=
  i ← tx_latest tx !! id; e ← tx_documents tx !! i; Some (i, e).

Definition assertTaskDocumentsOpen (tx : Transaction) (address : DocumentAddress) : tres unit :=
  match da_scope address with
  | ScopeTask taskId =>
      check (match task_write tx taskId with Some (_, r) => negb (bool_decide (t_status r = terminal)) | None => true end)
        (TaskIsTerminal taskId)
  | _ => Ok tt
  end.

(** [Tracker.beginChange]: nothing is recorded yet. *)
Definition beginChange (value : json) : Prepared := {| pr_value := value; pr_ops := [] |}.

Definition with_target (target : DocumentTarget) (change : option Prepared) (e : DocumentEntry) : DocumentEntry :=
  {| de_addressId := de_addressId e; de_address := de_address e; de_definition := de_definition e; de_target := Some target;
     de_change := change; de_retireOnCommit := de_retireOnCommit e |}.

Definition new_entry (id : string) (address : DocumentAddress) (definition : AnyDocDefinition) (retire : bool) : DocumentEntry :=
  {| de_addressId := id; de_address := address; de_definition := Some definition; de_target := None; de_change := None;
     de_retireOnCommit := retire |}.

Definition retired (e : DocumentEntry) : DocumentEntry :=
  {| de_addressId := de_addressId e; de_address := de_address e; de_definition := de_definition e; de_target := de_target e;
     de_change := de_change e; de_retireOnCommit := true |}.

(** The owner of a new document exists and, if it is a task, has not ended. *)
Definition requireOwner (s : SessionState) (tx : Transaction) (scope : Scope) : tres Transaction :=
  match scope with
  | ScopeSession => Ok tx
  | ScopeConversation id => _ ← requireConversation s tx id; Ok tx
  | ScopeTask id =>
      found ← currentTask s tx id;
      t ← res_of (UnknownTask id) found;
      _ ← check (negb (bool_decide (t_status t = terminal))) (TaskIsTerminal id);
      Ok (touch_task id tx)
  end.

(** [#acquire]: the target and the change of a new entry. *)
Definition acquire (s : SessionState) (tx : Transaction) (definition : AnyDocDefinition) (id : string) (address : DocumentAddress)
    (seed : option json) (skipLoad : bool) : tres (SessionState * Transaction * (DocumentTarget * Prepared)) :=
  r ← (if skipLoad then Ok (s, None) else loadDocument s definition id address);
  let '(s1, loaded) := r in
  match loaded with
  | Some d =>
      _ ← checkRecordScope definition (d_create (ld_record d));
      _ ← checkRecordVersion definition (d_create (ld_record d)) (ld_storedVersion d);
      Ok (s1, tx, (TLoaded d, beginChange (ld_value d)))
  | None =>
      tx1 ← requireOwner s1 tx (da_scope address);
      let value := clone (df_initial definition (if df_family definition then seed else None)) in
      m ← mint s1;
      Ok (m.1, tx1, (TCreated (documentCreate definition address m.2) (df_version definition) value, beginChange value))
  end.

(** [#acquireForkCopy]. *)
Definition acquireForkCopy (s : SessionState) (definition : AnyDocDefinition) (record : DocumentCreate) (source : DocumentCopySource)
    : tres (DocumentTarget * Prepared) :=
  read ← of_storage (document (ss_storage s) (cs_id source) (cs_at source));
  stored ← res_of (SourceUnread (cs_id source)) read;
  let from := d_create (sd_record stored) in
  _ ← check (is_conversation_scope (dc_scope from) && bool_decide (dc_kind from = dc_kind record) &&
             bool_decide (dc_key from = dc_key record) && bool_decide (dc_history from = dc_history record) &&
             bool_decide (dc_fork from = dc_fork record)) (SourceDiffers (cs_id source));
  value ← materializeDocumentValue definition record (sd_version stored) (sd_value stored);
  Ok (TCreated record (df_version definition) value, beginChange value).

(** [Tx.doc]: the index of the entry whose draft it returns. *)
Definition doc (s : SessionState) (tx : Transaction) (definition : AnyDocDefinition) (owner : option N) (key : option string)
    (seed : option json) : tres (SessionState * Transaction * nat) :=
  address ← resolveAddress definition owner key;
  let id := addressId address in
  _ ← assertTaskDocumentsOpen tx address;
  let fresh skipLoad :=
    let n := length (tx_documents tx) in
    let tx1 := push_entry (new_entry id address definition false) tx in
    r ← acquire s tx1 definition id address (clone seed) skipLoad;
    let '(s2, tx2, (target, change)) := r in
    Ok (s2, set_entry n (with_target target (Some change) (new_entry id address definition false)) tx2, n) in
  match latest_entry tx id with
  | Some (i, e) =>
      if de_retireOnCommit e then fresh true
      else match de_change e, de_target e with
           | Some _, _ => Ok (s, tx, i)
           | None, Some (TForkCopy record source) =>
               r ← acquireForkCopy s definition record source;
               Ok (s, set_entry i (with_target r.1 (Some r.2)
                     {| de_addressId := de_addressId e; de_address := de_address e; de_definition := Some definition;
                        de_target := de_target e; de_change := de_change e; de_retireOnCommit := de_retireOnCommit e |}) tx, i)
           | None, _ => fresh false
           end
  | None => fresh false
  end.

(** [Tx.retireDoc]. *)
Definition retireDoc (s : SessionState) (tx : Transaction) (definition : AnyDocDefinition) (owner : option N) (key : option string)
    : tres Transaction :=
  address ← resolveAddress definition owner key;
  let id := addressId address in
  let lookup :=
    found ← match ss_documents s !! id with
            | Some d => Ok (Some (ld_record d))
            | None => of_storage (findDocument (ss_storage s) address PCurrent)
            end;
    match found with
    | None => Ok (push_entry (new_entry id address definition true) tx)
    | Some record =>
        _ ← checkRecordScope definition (d_create record);
        Ok (push_entry (with_target (TRetireOnly record) None (new_entry id address definition true)) tx)
    end in
  match latest_entry tx id with
  | Some (i, e) =>
      if de_retireOnCommit e then Ok tx
      else match de_target e, de_change e with
           | Some (TForkCopy record _), _ => _ ← checkRecordScope definition record; Ok (set_entry i (retired e) tx)
           | _, Some _ => Ok (set_entry i (retired e) tx)
           | _, None => lookup
           end
  | None => lookup
  end.
