(* ===== verification/SessionCommit.v ===== *)
(** Commits of a Session (durable/src/session/session.ts and transaction.ts): the settlement
    of a transaction, storing or holding it, and the steps of a Session and of the
    callbacks of its commits. *)
From S2P Require Import Prelude JsString Json DeltaOp DeltaApply DeltaPending StorageTypes SortedIds MemoryCommit MemoryRead SessionTypes SessionTransaction.

(** ** Plans *)

Record PlanChange : Type := {
  pc_prepared : Prepared;
  pc_version : N;
  pc_loaded : option LoadedDocument;
  pc_definition : option AnyDocDefinition;
}.

(** The record is a new one or a committed one. [dp_held] is set when held changes are
    stored too: what readers of the stored state apply, and whether the plan has a change of
    its own. *)
Record DocumentPlan : Type := {
  dp_addressId : string;
  dp_record : DocumentCreate + DocumentRecord;
  dp_retire : bool;
  dp_content : option StorageWrite;
  dp_change : option PlanChange;
  dp_conversationId : option N;
  dp_held : option (list Op * bool);
}.

Definition plan_create (p : DocumentPlan) : DocumentCreate :=
  match dp_record p with inl c => c | inr r => d_create r end.
Definition plan_id (p : DocumentPlan) : N := dc_id (plan_create p).

Definition with_content (content : option StorageWrite) (p : DocumentPlan) : DocumentPlan :=
  {| dp_addressId := dp_addressId p; dp_record := dp_record p; dp_retire := dp_retire p; dp_content := content;
     dp_change := dp_change p; dp_conversationId := dp_conversationId p; dp_held := dp_held p |}.
Definition with_retire (p : DocumentPlan) : DocumentPlan :=
  {| dp_addressId := dp_addressId p; dp_record := dp_record p; dp_retire := true; dp_content := dp_content p;
     dp_change := dp_change p; dp_conversationId := dp_conversationId p; dp_held := dp_held p |}.
Definition with_conversation (c : option N) (p : DocumentPlan) : DocumentPlan :=
  {| dp_addressId := dp_addressId p; dp_record := dp_record p; dp_retire := dp_retire p; dp_content := dp_content p;
     dp_change := dp_change p; dp_conversationId := c; dp_held := dp_held p |}.
Definition with_held (held : option (list Op * bool)) (p : DocumentPlan) : DocumentPlan :=
  {| dp_addressId := dp_addressId p; dp_record := dp_record p; dp_retire := dp_retire p; dp_content := dp_content p;
     dp_change := dp_change p; dp_conversationId := dp_conversationId p; dp_held := held |}.

(** The content that a prepared change of a loaded document stores: a base when the version
    changes, and otherwise a delta of its operations. *)
Definition loaded_content (d : LoadedDocument) (version : N) (prepared : Prepared) : option StorageWrite :=
  if (ld_storedVersion d <? version)%N
  then Some (WDocumentChange (ld_id d) {| dcn_version := version; dcn_content := CBase (pr_value prepared) |})
  else match pr_ops prepared with
       | [] => None
       | ops => Some (WDocumentChange (ld_id d) {| dcn_version := version; dcn_content := CDelta ops |})
       end.

Definition planDocument (e : DocumentEntry) : option DocumentPlan :=
  let plan record content change :=
    {| dp_addressId := de_addressId e; dp_record := record; dp_retire := de_retireOnCommit e; dp_content := content;
       dp_change := change; dp_conversationId := None; dp_held := None |} in
  match de_target e with
  | None => None
  | Some (TCreated record version _) =>
      prepared ← de_change e;
      Some (plan (inl record) (Some (WDocumentCreate record version (pr_value prepared)))
              (Some {| pc_prepared := prepared; pc_version := version; pc_loaded := None; pc_definition := None |}))
  | Some (TForkCopy record source) => Some (plan (inl record) (Some (WDocumentCopy record source)) None)
  | Some (TRetireOnly record) => Some (plan (inr record) None None)
  | Some (TLoaded d) =>
      definition ← de_definition e;
      prepared ← de_change e;
      let version := df_version definition in
      Some (plan (inr (ld_record d)) (loaded_content d version prepared)
              (Some {| pc_prepared := prepared; pc_version := version; pc_loaded := Some d; pc_definition := Some definition |}))
  end.

(** The plan writes something. *)
Definition plan_writes (p : DocumentPlan) : bool := is_some (dp_content p) || dp_retire p.

Definition publishes (p : DocumentPlan) : bool :=
  dp_retire p || negb (is_some (dp_change p ≫= pc_loaded)) || is_some (dp_content p).

(** ** Checks *)

Definition rejectForkSourceWrites (tx : Transaction) (plans : list DocumentPlan) : tres unit :=
  res_foldl (fun _ p =>
    if negb (plan_writes p) then Ok tt
    else
      let record := plan_create p in
      _ ← check (negb (bool_decide (dc_id record ∈ tx_forkDocuments tx))) (SourceDocumentChanges (dc_id record));
      match dc_scope record with
      | ScopeConversation c =>
          check (negb (bool_decide (c ∈ tx_forkConversations tx) && bool_decide (dc_fork record = Some ForkCurrent)))
            (SourceConversationChanges c)
      | _ => Ok tt
      end) tt plans.

(** The owners of the new conversations and tasks. *)
Definition new_owners (tx : Transaction) : list N :=
  omap (fun w => match w with WConversation c => ol_taskId <$> c_owner c | _ => None end) (tx_writes tx) ++
  omap (fun x => match x.2 with Some (true, r) => t_owner r | _ => None end) (tx_tasks tx).

Definition validateOwners (s : SessionState) (tx : Transaction) : tres unit :=
  res_foldl (fun _ id =>
    found ← currentTask s tx id;
    t ← res_of (UnknownTask id) found;
    _ ← check (negb (bool_decide (t_status t = terminal)) && negb (bool_decide (t_status t = completing)))
          (OwnerNotLive id (t_status t));
    check (negb (t_abortRequested t)) (OwnerAborted id)) tt (new_owners tx).

(** A replaced task is committed, has not ended and stays in its conversation. *)
Definition check_replacements (s : SessionState) (tx : Transaction) : tres unit :=
  res_foldl (fun _ (x : N * option (bool * TaskRecord)) =>
    match x.2 with
    | Some (false, record) =>
        found ← committedTask s x.1;
        committed ← res_of (UnknownTask x.1) found;
        _ ← check (negb (bool_decide (t_status committed = terminal))) (TaskIsTerminal x.1);
        check (t_conversationId committed =? t_conversationId record)%N (TaskMoves x.1)
    | _ => Ok tt
    end) tt (tx_tasks tx).

(** ** Documents of ended tasks *)

(** The tasks that end, and whether the transaction creates them. *)
Definition ending_tasks (tx : Transaction) : list (N * bool) :=
  omap (fun x => match x.2 with
                 | Some (created, r) => if decide (t_status r = terminal) then Some (t_id r, created) else None
                 | None => None
                 end) (tx_tasks tx).

Definition in_ending (ending : list (N * bool)) (scope : Scope) : bool :=
  match scope with ScopeTask id => bool_decide (id ∈ ending.*1) | _ => false end.

Definition retire_plan (record : DocumentRecord) : DocumentPlan :=
  {| dp_addressId := addressId (create_address (d_create record)); dp_record := inr record; dp_retire := true;
     dp_content := None; dp_change := None; dp_conversationId := None; dp_held := None |}.

(** A plan to retire each record that has none. *)
Definition retire_records (acc : list DocumentPlan * gset N) (records : list DocumentRecord) : list DocumentPlan * gset N :=
  foldl (fun acc record =>
    let id := dc_id (d_create record) in
    if bool_decide (id ∈ acc.2) then acc else (acc.1 ++ [retire_plan record], {[ id ]} ∪ acc.2)) acc records.

Definition retire_ending (s : SessionState) (ending : list (N * bool)) (plans : list DocumentPlan) : tres (list DocumentPlan) :=
  let marked := (fun p => if in_ending ending (dc_scope (plan_create p)) then with_retire p else p) <$> plans in
  let retiring := list_to_set (plan_id <$> filter (fun p => in_ending ending (dc_scope (plan_create p)) = true) plans) in
  r ← res_foldl (fun (acc : list DocumentPlan * gset N) (x : N * bool) =>
        if x.2 then Ok acc
        else
          records ← match ss_taskDocuments s !! x.1 with
                    | Some known => Ok known
                    | None => all_documents (ss_storage s) {| dq_scope := ScopeTask x.1; dq_at := PCurrent; dq_kind := None |}
                    end;
          Ok (retire_records acc records)) (marked, retiring) ending;
  Ok r.1.

(** ** The batch *)

(** Who a publication belongs to. *)
Definition resolve_conversation (s : SessionState) (tx : Transaction) (p : DocumentPlan) : tres DocumentPlan :=
  if negb (publishes p) then Ok p
  else
    match dc_scope (plan_create p) with
    | ScopeSession => Ok p
    | ScopeConversation c => Ok (with_conversation (Some c) p)
    | ScopeTask id => found ← currentTask s tx id; Ok (with_conversation (t_conversationId <$> found) p)
    end.

Definition change_submissions (s : SessionState) (tx : Transaction) : tres (list (N * SubmissionRecord)) :=
  res_foldl (fun submissions (x : N * SubmissionChange) =>
    found ← match alist_get x.1 submissions with
            | Some r => Ok (Some r)
            | None => of_storage (submission (ss_storage s) x.1)
            end;
    current ← res_of (UnknownSubmission x.1) found;
    next ← applySubmissionChange current x.2;
    Ok (match submission_status (s_state current) with
        | done_ | unanswered => submissions
        | _ => alist_set x.1 next submissions
        end)) (tx_submissions tx) (tx_submissionChanges tx).

(** The checkpoint of a delta. *)
Definition checkpoint (p : DocumentPlan) : DocumentPlan :=
  match dp_content p, dp_change p with
  | Some (WDocumentChange id {| dcn_content := CDelta _ |}), Some {| pc_prepared := prepared; pc_version := version; pc_loaded := Some d;
      pc_definition := Some definition |} =>
      if df_checkpointWhen definition (pr_value prepared) (pr_ops prepared) (ld_deltasSinceBase d)
      then with_content (Some (WDocumentChange id {| dcn_version := version; dcn_content := CBase (pr_value prepared) |})) p
      else p
  | _, _ => p
  end.

Definition write_plan (p : DocumentPlan) : list StorageWrite :=
  match dp_content p with Some w => [w] | None => [] end ++ if dp_retire p then [WDocumentRetire (plan_id p)] else [].

(** [#assemble]: the final plans and the writes. *)
Definition assemble (s : SessionState) (tx : Transaction) : tres (list DocumentPlan * list StorageWrite) :=
  let staged := omap planDocument (tx_documents tx) in
  _ ← rejectForkSourceWrites tx staged;
  _ ← validateOwners s tx;
  _ ← check_replacements s tx;
  retired ← retire_ending s (ending_tasks tx) staged;
  resolved ← res_mapM (resolve_conversation s tx) retired;
  submissions ← change_submissions s tx;
  let plans := checkpoint <$> resolved in
  Ok (plans,
      tx_writes tx ++ ((fun x => WSubmission x.2) <$> submissions) ++
      omap (fun x : N * option (bool * TaskRecord) => (fun w => WTask w.2) <$> x.2) (tx_tasks tx) ++
      concat (write_plan <$> plans)).

(** ** Storing held changes with a commit *)

Definition is_change_of (id : N) (w : StorageWrite) : bool := match w with WDocumentChange i _ => (i =? id)%N | _ => false end.
Definition is_retire_of (id : N) (w : StorageWrite) : bool := match w with WDocumentRetire i => (i =? id)%N | _ => false end.

(** The commit's own change of a document. *)
Fixpoint replace_own (id : N) (write : StorageWrite) (writes : list StorageWrite) : list StorageWrite :=
  match writes with
  | [] => []
  | w :: writes' => if is_change_of id w then write :: writes' else w :: replace_own id write writes'
  end.

Fixpoint insertBeforeRetirement (id : N) (write : StorageWrite) (writes : list StorageWrite) : list StorageWrite :=
  match writes with
  | [] => [write]
  | w :: writes' => if is_retire_of id w then write :: w :: writes' else w :: insertBeforeRetirement id write writes'
  end.

(** The content of the plan's own change, if it has one. *)
Definition own_content (p : DocumentPlan) : option DocumentContent :=
  match dp_content p with Some (WDocumentChange _ content) => Some content | _ => None end.

Record Taking : Type := { tk_plans : list DocumentPlan; tk_writes : list StorageWrite; tk_taken : list N }.

Definition take_plan (s : SessionState) (acc : Taking) (p : DocumentPlan) : tres Taking :=
  let keep := {| tk_plans := tk_plans acc ++ [p]; tk_writes := tk_writes acc; tk_taken := tk_taken acc |} in
  match dp_record p with
  | inl _ => Ok keep
  | inr record =>
      let id := dc_id (d_create record) in
      match ss_holds s !! id with
      | None => Ok keep
      | Some hold =>
          d ← res_of (StorageError UndefinedValue) (ss_documents s !! h_addressId hold);
          let own := own_content p in
          let value := match dp_change p with Some c => pr_value (pc_prepared c) | None => ld_value d end in
          let ops := match dp_change p with Some c => pr_ops (pc_prepared c) | None => [] end in
          let '(stored, taken) := storeHeld hold ops value (ld_valueVersion d) in
          let content := match own with
                         | Some c => if is_base (dcn_content c) then c else stored
                         | None => stored
                         end in
          let write := WDocumentChange id content in
          let p1 := with_content (Some write) (if dp_retire p then p else with_held (Some (taken, is_some own)) p) in
          let p2 := match dc_scope (d_create record) with ScopeConversation c => with_conversation (Some c) p1 | _ => p1 end in
          Ok {| tk_plans := tk_plans acc ++ [p2];
                tk_writes := if is_some own then replace_own id write (tk_writes acc)
                             else insertBeforeRetirement id write (tk_writes acc);
                tk_taken := tk_taken acc ++ [id] |}
      end
  end.

(** [takeHeld]. *)
Definition takeHeld (s : SessionState) (plans : list DocumentPlan) (writes : list StorageWrite) : tres Taking :=
  res_foldl (take_plan s) {| tk_plans := []; tk_writes := writes; tk_taken := [] |} plans.

(** ** Adoption *)

(** The record as committed. *)
Definition committed_record (seq : N) (p : DocumentPlan) : DocumentRecord :=
  let record := match dp_record p with
                | inl c => {| d_create := c; d_createdAt := seq; d_retiredAt := None |}
                | inr r => r
                end in
  if dp_retire p then {| d_create := d_create record; d_createdAt := d_createdAt record; d_retiredAt := Some seq |} else record.

(** [describe]. *)
Definition describe (p : DocumentPlan) (record : DocumentRecord) : option DocumentCommitChange :=
  if dp_retire p then Some (DocumentRetired_ record (dp_conversationId p))
  else match dp_content p with
       | Some (WDocumentCopy _ source) => Some (DocumentCopied record (dp_conversationId p) source)
       | _ =>
           match dp_change p with
           | Some c =>
               if publishes p
               then Some (DocumentChanged record (dp_conversationId p) (pc_version c) (pr_value (pc_prepared c))
                            (if is_some (pc_loaded c) then pr_ops (pc_prepared c) else []))
               else None
           | None => None
           end
       end.

(** A loaded document after its change is adopted. *)
Definition adopt_loaded (d : LoadedDocument) (c : PlanChange) (content : option StorageWrite) : LoadedDocument :=
  {| ld_addressId := ld_addressId d; ld_record := ld_record d;
     ld_storedVersion := N.max (ld_storedVersion d) (pc_version c);
     ld_valueVersion := ld_valueVersion d;
     ld_deltasSinceBase := match content with
                           | Some (WDocumentChange _ w) => count_delta (dcn_content w) (ld_deltasSinceBase d)
                           | _ => ld_deltasSinceBase d
                           end;
     ld_value := match pr_ops (pc_prepared c) with [] => ld_value d | _ => pr_value (pc_prepared c) end |}.

(** The cache after one plan is adopted. *)
Definition adopt_document (seq : N) (documents : gmap string LoadedDocument) (p : DocumentPlan) : gmap string LoadedDocument :=
  let record := committed_record seq p in
  let adopted :=
    match dp_change p with
    | None => documents
    | Some c =>
        match pc_loaded c with
        | Some d => <[ld_addressId d := adopt_loaded d c (dp_content p)]> documents
        | None =>
            if dp_retire p then documents
            else <[dp_addressId p :=
                     {| ld_addressId := dp_addressId p; ld_record := record; ld_storedVersion := pc_version c;
                        ld_valueVersion := pc_version c; ld_deltasSinceBase := 0; ld_value := pr_value (pc_prepared c) |}]> documents
        end
    end in
  match dp_record p with
  | inr r =>
      if dp_retire p && bool_decide (ld_id <$> adopted !! dp_addressId p = Some (dc_id (d_create r)))
      then delete (dp_addressId p) adopted else adopted
  | inl _ => adopted
  end.

(** What memory shows its own observers, and what those of the stored commits get. *)
Definition observed_change (seq : N) (p : DocumentPlan) : option DocumentCommitChange :=
  match dp_held p with
  | Some (_, false) => None
  | _ => describe p (committed_record seq p)
  end.

Definition published_change (seq : N) (p : DocumentPlan) : option DocumentCommitChange :=
  match describe p (committed_record seq p), dp_held p with
  | Some (DocumentChanged record conversation version value _), Some (ops, _) =>
      Some (DocumentChanged record conversation version value ops)
  | change, _ => change
  end.

(** [#indexTaskDocuments]. *)
Definition index_change (seq : N) (index : gmap N (list DocumentRecord)) (change : DocumentCommitChange) : gmap N (list DocumentRecord) :=
  let record := match change with DocumentChanged r _ _ _ _ | DocumentRetired_ r _ | DocumentCopied r _ _ => r end in
  match dc_scope (d_create record), change with
  | ScopeTask id, DocumentRetired_ _ _ =>
      match index !! id with
      | Some known => <[id := filter (fun r => dc_id (d_create r) <> dc_id (d_create record)) known]> index
      | None => index
      end
  | ScopeTask id, DocumentChanged _ _ _ _ _ =>
      match index !! id with
      | Some known => if (d_createdAt record =? seq)%N then <[id := known ++ [record]]> index else index
      | None => index
      end
  | _, _ => index
  end.

Definition indexTaskDocuments (tx : Transaction) (changes : list DocumentCommitChange) (seq : N)
    (index : gmap N (list DocumentRecord)) : gmap N (list DocumentRecord) :=
  let created := omap (fun x => match x.2 with Some (true, _) => Some x.1 | _ => None end) (tx_tasks tx) in
  let index1 := foldl (fun index id => <[id := []]> index) index created in
  let index2 := foldl (index_change seq) index1 changes in
  foldl (fun index id => delete id index) index2 ((ending_tasks tx).*1).

(** ** Held commits *)

(** [holdable]: the changes, with whether they selected a base. *)
Definition hold_plan (p : DocumentPlan) : option (option (LoadedDocument * list Op * bool)) :=
  match dp_content p, dp_change p with
  | None, _ => if dp_retire p then None else Some None
  | Some (WDocumentChange _ content), Some {| pc_prepared := prepared; pc_version := version; pc_loaded := Some d |} =>
      let record := d_create (ld_record d) in
      if dp_retire p || negb (is_conversation_scope (dc_scope record) && bool_decide (dc_history record = Some HLatest) &&
                              bool_decide (dc_fork record = Some ForkInitial)) || negb (ld_storedVersion d =? version)%N
      then None
      else Some (Some (d, pr_ops prepared, is_base (dcn_content content)))
  | Some _, _ => None
  end.

Definition is_change (w : StorageWrite) : bool := match w with WDocumentChange _ _ => true | _ => false end.

Definition holdable (plans : list DocumentPlan) (writes : list StorageWrite) : option (list (LoadedDocument * list Op * bool)) :=
  if existsb (fun w => negb (is_change w)) writes then None
  else
    held ← mapM hold_plan plans;
    Some (omap (fun x => x) held).

(** [adoptHeld]: memory advances, and nothing is stored. *)
Definition adopt_held (documents : gmap string LoadedDocument) (p : DocumentPlan) : gmap string LoadedDocument :=
  match dp_change p with
  | Some {| pc_prepared := prepared; pc_loaded := Some d |} =>
      match pr_ops prepared with
      | [] => documents
      | _ => <[ld_addressId d :=
                 {| ld_addressId := ld_addressId d; ld_record := ld_record d; ld_storedVersion := ld_storedVersion d;
                    ld_valueVersion := ld_valueVersion d; ld_deltasSinceBase := ld_deltasSinceBase d;
                    ld_value := pr_value prepared |}]> documents
      end
  | _ => documents
  end.

Definition hold_change (holds : gmap N HeldDocument) (x : LoadedDocument * list Op * bool) : gmap N HeldDocument :=
  let '(d, ops, base) := x in
  let hold := default {| h_addressId := ld_addressId d; h_pending := Empty; h_base := false |} (holds !! ld_id d) in
  <[ld_id d := {| h_addressId := h_addressId hold; h_pending := push (h_pending hold) ops; h_base := h_base hold || base |}]> holds.

(** [#hold]. *)
Definition hold_commit (s : SessionState) (plans : list DocumentPlan) (held : list (LoadedDocument * list Op * bool)) : SessionState :=
  with_holds (foldl hold_change (ss_holds s) held) (with_documents (foldl adopt_held (ss_documents s) plans) s).

(** ** Commits *)

Definition store_commit (s : SessionState) (tx : Transaction) (plans : list DocumentPlan) (writes : list StorageWrite) : tres SessionState :=
  taking ← takeHeld s plans writes;
  r ← store_batch (ss_storage s) (tk_writes taking);
  let '(m, seq) := r in
  let changes := omap (published_change seq) (tk_plans taking) in
  Ok (release (tk_taken taking)
        (publish changes
           (with_taskDocuments (indexTaskDocuments tx changes seq (ss_taskDocuments s))
              (with_documents (foldl (adopt_document seq) (ss_documents s) (tk_plans taking)) (with_storage m s))))).

(** [#runCommit] from the settlement on. *)
Definition settle_commit (s : SessionState) (tx : Transaction) (deferred : bool) : tres SessionState :=
  settled ← assemble s tx;
  let '(plans, writes) := settled in
  match writes with
  | [] => Ok s
  | _ =>
      match (if deferred then holdable plans writes else None) with
      | Some held => Ok (hold_commit s plans held)
      | None => store_commit s tx plans writes
      end
  end.

(** ** Drafts

    What a tracker records is not modelled: any well-formed operations that turn the value
    of the draft's document into its new value. Values here are plain JSON, without the
    identity of containers. *)
Definition plain {A} `{Clone A} (a : A) : Prop := clone a = a.

Record performs (v : json) (ops : list Op) (v' : json) : Prop := {
  pf_ok : Forall op_ok ops;
  pf_plain : Forall plain ops;
  pf_typed : typed_run (Some v) ops;
  pf_apply : apply (Some v) (tuples ops) = Ok (Some v');
  pf_value : plain v';
}.

(** The value that the draft of an entry began with. *)
Definition draft_base (e : DocumentEntry) : option json :=
  match de_target e with
  | Some (TLoaded d) => Some (ld_value d)
  | Some (TCreated _ _ value) => Some value
  | _ => None
  end.

Definition with_change (p : Prepared) (e : DocumentEntry) : DocumentEntry :=
  {| de_addressId := de_addressId e; de_address := de_address e; de_definition := de_definition e; de_target := de_target e;
     de_change := Some p; de_retireOnCommit := de_retireOnCommit e |}.

(** What the types say of a definition: only conversation documents have a history and a
    fork mode, and copies as of an entry need the history. *)
Definition semantics_ok (scope : ScopeKind) (history : option History) (fork : option ForkMode) : Prop :=
  match scope with
  | conversation_scope => is_Some history /\ is_Some fork /\ (fork = Some ForkAsOf -> history = Some HRewindable)
  | _ => history = None /\ fork = None
  end.

Definition definition_ok (d : AnyDocDefinition) : Prop := semantics_ok (df_scope d) (df_history d) (df_fork d).

(** ** One step of a callback *)

Inductive tx_step : SessionState * Transaction -> SessionState * Transaction -> Prop :=
| step_createConversation s tx owner s' tx' :
    createConversation s tx owner = Ok (s', tx') -> tx_step (s, tx) (s', tx')
| step_forkConversation s tx parent at_ owner s' tx' :
    forkConversation s tx parent at_ owner = Ok (s', tx') -> tx_step (s, tx) (s', tx')
| step_appendEntry s tx conversationId value s' tx' :
    appendEntry s tx conversationId value = Ok (s', tx') -> tx_step (s, tx) (s', tx')
| step_createTask s tx creation s' tx' :
    createTask s tx creation = Ok (s', tx') -> tx_step (s, tx) (s', tx')
| step_setTask s tx now value tx' :
    setTask now tx value = Ok tx' -> tx_step (s, tx) (s, tx')
| step_createSubmission s tx create s' tx' :
    createSubmission s tx create = Ok (s', tx') -> tx_step (s, tx) (s', tx')
| step_changeSubmission s tx id change :
    tx_step (s, tx) (s, changeSubmission tx id change)
| step_doc s tx definition owner key seed s' tx' i :
    definition_ok definition -> doc s tx definition owner key seed = Ok (s', tx', i) -> tx_step (s, tx) (s', tx')
| step_edit s tx i e v p :
    tx_documents tx !! i = Some e -> draft_base e = Some v -> performs v (pr_ops p) (pr_value p) ->
    tx_step (s, tx) (s, set_entry i (with_change p e) tx)
| step_retireDoc s tx definition owner key tx' :
    definition_ok definition -> retireDoc s tx definition owner key = Ok tx' -> tx_step (s, tx) (s, tx').

Definition callback (s : SessionState) (scope : Transaction) : SessionState -> Transaction -> Prop :=
  fun s' tx => rtc tx_step (s, scope) (s', tx).

(** ** One step of a Session *)

Definition no_hold (s : SessionState) (id : string) : Prop := forall i h, ss_holds s !! i = Some h -> h_addressId h <> id.

Inductive session_step : SessionState -> SessionState -> Prop :=
| session_commit s conversationId taskId carrier s1 tx deferred s2 :
    callback s (transaction_new conversationId taskId carrier) s1 tx -> settle_commit s1 tx deferred = Ok s2 -> session_step s s2
| session_abandon s conversationId taskId carrier s1 tx :
    callback s (transaction_new conversationId taskId carrier) s1 tx -> session_step s s1
| session_mint s s' id :
    mint s = Ok (s', id) -> session_step s s'
| session_load s definition address s' d :
    definition_ok definition -> loadDocument s definition (addressId address) address = Ok (s', d) -> session_step s s'
| session_store s select s' :
    storeHolds s select = Ok s' -> session_step s s'
| session_drop s id :
    no_hold s id -> session_step s (with_documents (delete id (ss_documents s)) s).

Definition session_run : SessionState -> SessionState -> Prop := rtc session_step.
