(* ===== verification/BatchFacts.v ===== *)
(** Which batches of writes [MemoryStorage] (durable/src/storage/memory.ts) accepts, in
    terms of the writes: a batch whose IDs are new, that gives a document one content and
    retires it once, and leaves one incarnation at an address. *)
From S2P Require Import Prelude JsString Json DeltaOp DeltaApply StorageTypes SortedIds MemoryCommit DocumentFacts TableFacts MemoryFacts MemoryHistory.

(** ** What a batch does *)

Definition created_record (w : StorageWrite) : option DocumentCreate :=
  match w with WDocumentCreate record _ _ | WDocumentCopy record _ => Some record | _ => None end.

(** A change: the document, the version and whether it is a delta. *)
Definition change_of (w : StorageWrite) : option (N * N * bool) :=
  match w with WDocumentChange id c => Some (id, dcn_version c, negb (is_base (dcn_content c))) | _ => None end.

Definition content_id (w : StorageWrite) : option N :=
  match w with WDocumentCreate r _ _ | WDocumentCopy r _ => Some (dc_id r) | WDocumentChange id _ => Some id | _ => None end.

Definition retire_id (w : StorageWrite) : option N := match w with WDocumentRetire id => Some id | _ => None end.

Abbreviation created ws := (omap created_record ws).
Abbreviation retires_of ws := (omap retire_id ws).

(** The source of a copy can be read and has the record's semantics. *)
Definition copy_fits (t : DocumentTables) (record : DocumentCreate) (source : DocumentCopySource) : Prop :=
  exists stored, materializeDocument t (cs_id source) (cs_at source) = Ok (Some stored) /\
    let from := d_create (sd_record stored) in
    is_conversation_scope (dc_scope from) = true /\ is_conversation_scope (dc_scope record) = true /\
    dc_kind from = dc_kind record /\ dc_key from = dc_key record /\ dc_history from = dc_history record /\ dc_fork from = dc_fork record.

Definition copies_fit (t : DocumentTables) (ws : list StorageWrite) : Prop :=
  forall record source, WDocumentCopy record source ∈ ws ->
    cs_id source ∉ omap changed_document ws /\ copy_fits t record source.

Record batch_fits (types : gmap N TableName) (t : DocumentTables) (ws : list StorageWrite) : Prop := {
  bf_ids : NoDup ((claims ws).*1);
  bf_fresh : forall id table, (id, table) ∈ claims ws -> types !! id = None \/ (once table = false /\ types !! id = Some table);
  bf_contents : NoDup (omap content_id ws);
  bf_retires : NoDup (retires_of ws);
  bf_created : forall record, record ∈ created ws -> documents t !! dc_id record = None;
  bf_changes : forall id version delta, (id, version, delta) ∈ omap change_of ws ->
    exists o, documents t !! id = Some o /\ live o /\ (delta = true -> exists r, last (st_revisions o) = Some r /\ rv_version r = version);
  bf_retired : forall id, id ∈ retires_of ws -> id ∈ dc_id <$> created ws \/ exists o, documents t !! id = Some o /\ live o;
  bf_address : forall r1 r2, r1 ∈ created ws -> r2 ∈ created ws -> dc_id r1 ∉ retires_of ws -> dc_id r2 ∉ retires_of ws ->
    recordAddressKey r1 = recordAddressKey r2 -> dc_id r1 = dc_id r2;
  bf_vacant : forall r id o, r ∈ created ws -> dc_id r ∉ retires_of ws -> documents t !! id = Some o -> live o ->
    key_of o = recordAddressKey r -> id ∈ retires_of ws;
}.

(** ** IDs *)

Lemma checkGlobalIds_fits types ws : forall claimed,
  NoDup ((claims ws).*1) ->
  (forall id table, (id, table) ∈ claims ws -> types !! id = None \/ (once table = false /\ types !! id = Some table)) ->
  (forall id, id ∈ (claims ws).*1 -> claimed !! id = None) ->
  checkGlobalIds types claimed ws = Ok tt.
Proof.
  unfold claims. induction ws as [|w ws IH]; intros claimed Hnd Hfresh Hnew; [done|]. cbn [checkGlobalIds]. cbn [omap list_omap] in *.
  destruct (claim w) as [[id table]|] eqn:Ec; [|by apply IH].
  cbn [fmap list_fmap fst] in *. apply NoDup_cons in Hnd as [Hid Hnd].
  assert (Hc : check_claim types claimed id table = Ok tt).
  { unfold check_claim. rewrite (Hnew id) by by left.
    destruct (Hfresh id table) as [->|[Ho ->]]; [by left|by destruct (once table)|]. rewrite Ho. cbn. by rewrite bool_decide_true. }
  rewrite Hc. cbn [mbind res_bind]. apply IH; [done|intros i tb Hi; apply Hfresh; by right|].
  intros i Hi. rewrite lookup_insert_ne; [apply Hnew; by right|]. by intros ->.
Qed.

(** ** Actions *)

Definition create_of (id : N) (w : StorageWrite) : option DocumentCreate :=
  match w with WDocumentCreate record _ _ => if decide (dc_id record = id) then Some record else None | _ => None end.

Definition action_for (ws : list StorageWrite) (id : N) : DocumentAction :=
  {| a_create := head (omap (create_of id) ws); a_content := batch_content id ws; a_retire := batch_retires id ws |}.

Lemma head_app {A} (l l' : list A) : head (l ++ l') = match head l with Some x => Some x | None => head l' end.
Proof. by destruct l. Qed.

Lemma action_for_snoc ws w id :
  action_for (ws ++ [w]) id =
  {| a_create := match a_create (action_for ws id) with Some c => Some c | None => create_of id w end;
     a_content := match a_content (action_for ws id) with Some c => Some c | None => content_write id w end;
     a_retire := a_retire (action_for ws id) || retire_write id w |}.
Proof.
  unfold action_for, batch_content, batch_retires. rewrite !omap_app, !head_app, existsb_app. cbn. f_equal.
  - by destruct (head _), (create_of id w).
  - by destruct (head (omap (content_write id) ws)), (content_write id w).
  - by rewrite orb_false_r.
Qed.

Lemma action_for_other ws w id :
  create_of id w = None -> content_write id w = None -> retire_write id w = false -> action_for (ws ++ [w]) id = action_for ws id.
Proof.
  intros H1 H2 H3. rewrite action_for_snoc, H1, H2, H3, orb_false_r. unfold action_for. cbn.
  by destruct (head (omap (create_of id) ws)), (batch_content id ws).
Qed.

Lemma content_none ws id : id ∉ omap content_id ws -> a_content (action_for ws id) = None /\ a_create (action_for ws id) = None.
Proof.
  intros Hn. cbn. unfold batch_content. induction ws as [|w ws IH]; [done|]. cbn [omap list_omap] in *.
  assert (Hw : content_id w <> Some id) by (intros E; rewrite E in Hn; apply Hn; left).
  assert (Hws : id ∉ omap content_id ws) by (destruct (content_id w); set_solver).
  destruct w; cbn in *; try by apply IH.
  - rewrite !decide_False by congruence. by apply IH.
  - rewrite decide_False by congruence. by apply IH.
Qed.

Lemma retire_none ws id : id ∉ retires_of ws -> a_retire (action_for ws id) = false.
Proof.
  intros Hn. cbn. unfold batch_retires. induction ws as [|w ws IH]; [done|]. cbn [omap list_omap existsb] in *.
  destruct w; cbn in *; try by apply IH. rewrite bool_decide_false by set_solver. apply IH. set_solver.
Qed.

(** No copies: they are resolved. *)
Definition resolved (ws : list StorageWrite) : Prop := existsb is_copy ws = false.

Lemma prepare_fits ws :
  resolved ws -> NoDup (omap content_id ws) -> NoDup (retires_of ws) ->
  exists actions, prepareDocumentActions ws = Ok actions /\ NoDup (actions.*1) /\
    (forall id, id ∈ actions.*1 <-> id ∈ omap content_id ws \/ id ∈ retires_of ws) /\
    forall id, action_at id actions = action_for ws id.
Proof.
  unfold resolved, prepareDocumentActions. induction ws as [|w ws IH] using rev_ind.
  { intros _ _ _. exists []. split_and!; [done|constructor|set_solver|done]. }
  rewrite existsb_app, !omap_app. intros [Hc Hw]%orb_false_iff (Hnc & Hxc & _)%NoDup_app (Hnr & Hxr & _)%NoDup_app.
  destruct (IH Hc Hnc Hnr) as (actions & E & Hnd & Hkeys & Hat). rewrite res_foldl_app, E. cbn [mbind res_bind res_foldl].
  assert (Hset : forall id a, a = action_for (ws ++ [w]) id -> (forall i, i <> id -> action_for (ws ++ [w]) i = action_for ws i) ->
    (forall i, i ∈ omap content_id [w] \/ i ∈ retires_of [w] <-> i = id) ->
    exists actions', (Ok (action_set id a actions) : sres Actions) = Ok actions' /\ NoDup (actions'.*1) /\
      (forall i, i ∈ actions'.*1 <-> i ∈ omap content_id ws ++ omap content_id [w] \/ i ∈ retires_of ws ++ retires_of [w]) /\
      forall i, action_at i actions' = action_for (ws ++ [w]) i).
  { intros id a -> Hother Hids. exists (action_set id (action_for (ws ++ [w]) id) actions). split; [done|].
    rewrite action_set_keys. split; [|split].
    - apply NoDup_app. split; [done|]. split; [|case_decide; repeat constructor; set_solver].
      intros i Hi. case_decide; set_solver.
    - intros i. rewrite !elem_of_app, Hkeys. specialize (Hids i). case_decide as Hd; rewrite ?list_elem_of_singleton.
      + rewrite elem_of_nil. split; [tauto|]. intros [[]|[]]; try tauto; assert (i = id) as -> by tauto; left; by apply Hkeys.
      + tauto.
    - intros i. unfold action_at. rewrite action_get_set. case_decide as Hd; [by subst|]. rewrite Hother by done. apply Hat. }
  pose proof (action_for_snoc ws w) as Hs.
  destruct w as [c|c|c|c|record version base|record source|i content|i]; cbn [prepare_action]; try done;
    try (exists actions; split; [done|]; split; [done|]; split; [intros i; cbn; rewrite !app_nil_r; apply Hkeys|];
         intros i; rewrite Hat; symmetry; by apply action_for_other).
  - assert (Hx : dc_id record ∉ omap content_id ws) by (intros Hi; apply (Hxc _ Hi); cbn; left).
    pose proof (content_none ws _ Hx) as [Hn1 Hn2].
    change (default new_action (action_get (dc_id record) actions)) with (action_at (dc_id record) actions).
    rewrite Hat, Hn1, Hn2. cbn [mbind res_bind check is_some negb]. rewrite bool_decide_true by done. cbn [andb check mbind res_bind].
    apply Hset.
    + rewrite Hs, Hn1, Hn2. cbn. by rewrite !decide_True, orb_false_r by done.
    + intros i Hi. apply action_for_other; cbn; by rewrite ?decide_False by done.
    + intros i. cbn. set_solver.
  - assert (Hx : i ∉ omap content_id ws) by (intros Hi; apply (Hxc _ Hi); cbn; left).
    pose proof (content_none ws _ Hx) as [Hn1 Hn2]. change (default new_action (action_get i actions)) with (action_at i actions).
    rewrite Hat, Hn1. cbn [mbind res_bind check is_some negb]. apply Hset.
    + rewrite Hs, Hn1, Hn2. cbn. by rewrite decide_True, orb_false_r by done.
    + intros j Hj. apply action_for_other; cbn; by rewrite ?decide_False by done.
    + intros j. cbn. set_solver.
  - assert (Hx : i ∉ retires_of ws) by (intros Hi; apply (Hxr _ Hi); cbn; left).
    pose proof (retire_none ws _ Hx) as Hn. change (default new_action (action_get i actions)) with (action_at i actions).
    rewrite Hat, Hn. cbn [mbind res_bind check negb]. apply Hset.
    + rewrite Hs, Hn. cbn. rewrite bool_decide_true by done. by destruct (head _), (batch_content _ _).
    + intros j Hj. apply action_for_other; cbn; by rewrite ?bool_decide_false by done.
    + intros j. cbn. set_solver.
Qed.

Lemma retire_for ws id : a_retire (action_for ws id) = true <-> id ∈ retires_of ws.
Proof.
  cbn. unfold batch_retires. rewrite existsb_exists. split.
  - intros (w & Hw%list_elem_of_In & Hr). destruct w; try done. cbn in Hr. bool_to_prop. subst. apply list_elem_of_omap. by eexists.
  - intros (w & Hw & Hr)%list_elem_of_omap. exists w. split; [by apply list_elem_of_In|]. destruct w; try done. cbn in *.
    injection Hr as ->. by apply bool_decide_true.
Qed.

Lemma create_for ws id c : a_create (action_for ws id) = Some c -> c ∈ created ws /\ dc_id c = id.
Proof.
  cbn. intros H. assert (Hc : c ∈ omap (create_of id) ws) by (destruct (omap (create_of id) ws); simplify_eq/=; left).
  apply list_elem_of_omap in Hc as (w & Hw & Hc). destruct w; try done. cbn in Hc. case_decide; [|done]. injection Hc as ->.
  split; [|done]. apply list_elem_of_omap. by exists (WDocumentCreate c version base).
Qed.

Lemma created_content ws c : resolved ws -> c ∈ created ws -> exists version base, WDocumentCreate c version base ∈ ws.
Proof.
  intros Hr (w & Hw & Hc)%list_elem_of_omap. destruct w; try done; cbn in Hc; injection Hc as ->; [by eexists _, _|].
  exfalso. unfold resolved in Hr. apply not_true_iff_false in Hr. apply Hr, existsb_exists. exists (WDocumentCopy c source).
  split; [by apply list_elem_of_In|done].
Qed.

(** With one content for each document, the action of a document has it. *)
Lemma content_for ws id w content :
  NoDup (omap content_id ws) -> w ∈ ws -> content_write id w = Some content ->
  a_content (action_for ws id) = Some content /\ a_create (action_for ws id) = create_of id w.
Proof.
  intros Hnd (l1 & l2 & ->)%list_elem_of_split Hc.
  assert (Hid : content_id w = Some id) by (destruct w; try done; cbn in *; case_decide; simplify_eq; done).
  rewrite omap_app in Hnd. cbn in Hnd. rewrite Hid in Hnd. apply NoDup_app in Hnd as (_ & Hx & [Hn2 _]%NoDup_cons).
  destruct (content_none l1 id) as [H1 H2]; [intros Hi; apply (Hx _ Hi); left|]. destruct (content_none l2 id Hn2) as [H3 H4].
  cbn in *. unfold batch_content in *. rewrite !omap_app, !head_app, H1, H2. cbn. rewrite Hc. split; [done|].
  by destruct (create_of id w).
Qed.

(** ** The checks of the actions *)

Section Fits.
Context (types : gmap N TableName) (t : DocumentTables) (ws : list StorageWrite).
Context (Hfits : batch_fits types t ws) (Hres : resolved ws).

Lemma fits_create (id : N) (c : DocumentCreate) : a_create (action_for ws id) = Some c ->
  c ∈ created ws /\ dc_id c = id /\ documents t !! id = None /\ exists version base, a_content (action_for ws id) = Some {| dcn_version := version; dcn_content := CBase base |}.
Proof.
  intros Hc. destruct (create_for ws id c Hc) as [Hin <-]. split; [done|]. split; [done|]. split; [by apply (bf_created _ _ _ Hfits)|].
  destruct (created_content ws c Hres Hin) as (version & base & Hw). exists version, base.
  apply (content_for ws (dc_id c) _ _ (bf_contents _ _ _ Hfits) Hw). cbn. by rewrite decide_True.
Qed.

Lemma created_action c : c ∈ created ws -> a_create (action_for ws (dc_id c)) = Some c.
Proof.
  intros Hin. destruct (created_content ws c Hres Hin) as (version & base & Hw).
  destruct (content_for ws (dc_id c) _ {| dcn_version := version; dcn_content := CBase base |} (bf_contents _ _ _ Hfits) Hw) as [_ ->].
  - cbn. by rewrite decide_True.
  - cbn. by rewrite decide_True.
Qed.

Lemma fits_change (id : N) : a_create (action_for ws id) = None -> id ∈ omap content_id ws ->
  exists content o, a_content (action_for ws id) = Some content /\ documents t !! id = Some o /\ live o /\
    (negb (is_base (dcn_content content)) = true -> exists r, last (st_revisions o) = Some r /\ rv_version r = dcn_version content).
Proof.
  intros Hn (w & Hw & Hi)%list_elem_of_omap. destruct w as [| | | |c| c|i content|]; try done; cbn in Hi; injection Hi as <-.
  - rewrite created_action in Hn; [done|]. apply list_elem_of_omap. by exists (WDocumentCreate c version base).
  - rewrite created_action in Hn; [done|]. apply list_elem_of_omap. by exists (WDocumentCopy c source).
  - assert (Hcw : content_write i (WDocumentChange i content) = Some content) by (cbn; by rewrite decide_True).
    destruct (content_for ws i _ _ (bf_contents _ _ _ Hfits) Hw Hcw) as [Hc _]. 
    destruct (bf_changes _ _ _ Hfits i (dcn_version content) (negb (is_base (dcn_content content)))) as (o & Ho & Hl & Hd).
    { apply list_elem_of_omap. by exists (WDocumentChange i content). }
    by exists content, o.
Qed.

(** An existing document of the batch is live. *)
Lemma fits_existing (id : N) : a_create (action_for ws id) = None -> id ∈ omap content_id ws \/ id ∈ retires_of ws ->
  exists o, documents t !! id = Some o /\ live o.
Proof.
  intros Hn [Hc|Hr]; [by destruct (fits_change id Hn Hc) as (_ & o & _ & Ho & Hl & _); exists o|].
  destruct (bf_retired _ _ _ Hfits id Hr) as [(c & -> & Hc)%list_elem_of_fmap|He]; [|done]. by rewrite created_action in Hn.
Qed.

Lemma check_fits (id : N) counts : id ∈ omap content_id ws \/ id ∈ retires_of ws ->
  exists counts', check_action t counts id (action_for ws id) = Ok counts'.
Proof.
  intros Hid. unfold check_action. destruct (a_create (action_for ws id)) as [c|] eqn:Ec.
  - destruct (fits_create id c Ec) as (_ & _ & -> & version & base & ->). cbn. by eexists.
  - destruct (fits_existing id Ec Hid) as (o & Ho & Hl). rewrite Ho. cbn [is_some negb andb check mbind res_bind option_bind].
    unfold live in Hl. rewrite Hl. cbn [is_some negb check mbind res_bind].
    destruct (a_content (action_for ws id)) as [content|] eqn:Econ; [|cbn; by eexists].
    assert (Hin : id ∈ omap content_id ws).
    { destruct (decide (id ∈ omap content_id ws)) as [|Hn]; [done|]. destruct (content_none ws id Hn). congruence. }
    destruct (fits_change id Ec Hin) as (content' & o' & Hc' & Ho' & _ & Hd). assert (content' = content) as -> by congruence.
    assert (o' = o) as -> by congruence. destruct content as [version [base|ops]]; cbn; [by eexists|].
    destruct (Hd eq_refl) as (r & Hr & Hv). cbn in Hv. cbn. rewrite Hr. cbn. rewrite Hv, N.eqb_refl. cbn. by eexists.
Qed.

Lemma check_actions_fits actions : forall counts,
  (forall id a, (id, a) ∈ actions -> a = action_for ws id /\ (id ∈ omap content_id ws \/ id ∈ retires_of ws)) ->
  exists counts', check_actions t counts actions = Ok counts'.
Proof.
  induction actions as [|[id a] actions IH]; intros counts Hall; [by eexists|].
  destruct (Hall id a) as [-> Hid]; [left|]. destruct (check_fits id counts Hid) as [c1 E]. cbn [check_actions]. rewrite E. cbn.
  apply IH. intros i b Hi. apply Hall. by right.
Qed.
End Fits.

(** ** One incarnation at an address *)

Lemma NoDup_filter_one {A} (P : A -> Prop) `{forall x, Decision (P x)} (f : A -> N) (l : list A) :
  NoDup (f <$> l) -> (forall x y, x ∈ l -> y ∈ l -> P x -> P y -> f x = f y) -> length (filter P l) <= 1.
Proof.
  intros Hnd Hone. destruct (filter P l) as [|x [|y r]] eqn:E; cbn; [lia|lia|exfalso].
  assert (Hs : x :: y :: r `sublist_of` l) by (rewrite <- E; apply sublist_filter).
  assert (Hx : x ∈ filter P l) by (rewrite E; left). assert (Hy : y ∈ filter P l) by (rewrite E; right; left).
  apply list_elem_of_filter in Hx as [Px Hx], Hy as [Py Hy]. apply (fmap_sublist f) in Hs. apply (sublist_NoDup _ _ Hnd) in Hs.
  cbn in Hs. apply NoDup_cons in Hs as [Hn _]. apply Hn. rewrite (Hone x y) by done. left.
Qed.

Lemma filter_nonempty {A} (P : A -> Prop) `{forall x, Decision (P x)} (l : list A) x : x ∈ l -> P x -> 1 <= length (filter P l).
Proof.
  intros Hx Px. assert (Hin : x ∈ filter P l) by (by apply list_elem_of_filter). destruct (filter P l); [by apply elem_of_nil in Hin|cbn; lia].
Qed.

Lemma resolved_checked types t ws :
  doc_current_ok t -> batch_fits types t ws -> resolved ws ->
  exists actions, prepareDocumentActions ws = Ok actions /\ checkDocumentActions t actions = Ok tt.
Proof.
  intros Hcur Hf Hr. destruct (prepare_fits ws Hr (bf_contents _ _ _ Hf) (bf_retires _ _ _ Hf)) as (actions & E & Hnd & Hkeys & Hat).
  exists actions. split; [done|].
  assert (Hall : forall id a, (id, a) ∈ actions -> a = action_for ws id /\ (id ∈ omap content_id ws \/ id ∈ retires_of ws)).
  { intros id a Hin. split; [|apply Hkeys, list_elem_of_fmap; by exists (id, a)].
    rewrite <- Hat. unfold action_at. by rewrite (action_get_elem id a actions Hnd Hin). }
  unfold checkDocumentActions. destruct (check_actions_fits types t ws Hf Hr actions ∅ Hall) as [counts Ec]. rewrite Ec. cbn [mbind res_bind].
  unfold check. rewrite bool_decide_true; [done|]. intros key n Hn.
  pose proof (check_actions_counts t key actions ∅ counts Ec) as Hc. rewrite Hn, lookup_empty in Hc.
  change (default (live_before t key) (Some n)) with n in Hc. change (default (live_before t key) None) with (live_before t key) in Hc.
  assert (Hkey : forall x, x ∈ actions -> creates t key x = true ->
    exists c, c ∈ created ws /\ dc_id c = x.1 /\ dc_id c ∉ retires_of ws /\ recordAddressKey c = key).
  { intros [id a] Hx Hcr. destruct (Hall id a Hx) as [-> _]. unfold creates in Hcr. cbn [fst snd] in Hcr. bool_to_prop.
    destruct (a_create (action_for ws id)) as [c|] eqn:Ea; [|done]. destruct (fits_create types t ws Hf Hr id c Ea) as (Hin & Hid & _).
    exists c. split; [done|]. split; [done|]. split; [rewrite Hid, <- retire_for; by destruct (a_retire _)|].
    unfold action_key in *. rewrite Ea in *. by simplify_eq. }
  assert (H1 : length (filter (fun x => creates t key x = true) actions) <= 1).
  { apply (NoDup_filter_one _ fst); [done|]. intros x y Hx Hy Cx Cy.
    destruct (Hkey x Hx Cx) as (c & Hc1 & <- & Hc3 & Hc4), (Hkey y Hy Cy) as (d & Hd1 & <- & Hd3 & Hd4).
    by apply (bf_address _ _ _ Hf); [..|congruence]. }
  destruct (decide (filter (fun x => creates t key x = true) actions = [])) as [E0|Hne].
  { rewrite E0 in Hc. cbn in Hc. unfold live_before in *. destruct (cur t key); lia. }
  unfold live_before in Hc. destruct (cur t key) as [id|] eqn:Ecur; [|lia].
  assert (H2 : 1 <= length (filter (fun x => retires t key x = true) actions)).
  { destruct (filter (fun x => creates t key x = true) actions) as [|x l] eqn:Ef; [done|].
    assert (Hx : x ∈ filter (fun x => creates t key x = true) actions) by (rewrite Ef; left).
    apply list_elem_of_filter in Hx as [Cx Hx]. destruct (Hkey x Hx Cx) as (c & Hc1 & Hc2 & Hc3 & Hc4).
    apply Hcur in Ecur as (o & Ho & Hk & Hl).
    assert (Hret : id ∈ retires_of ws) by (apply (bf_vacant _ _ _ Hf c id o Hc1 Hc3 Ho Hl); congruence).
    assert (Hin : id ∈ actions.*1) by (apply Hkeys; by right). apply list_elem_of_fmap in Hin as ([i a] & -> & Hin).
    apply (filter_nonempty _ _ (i, a)); [done|]. destruct (Hall i a Hin) as [-> _]. unfold retires. cbn [fst snd].
    rewrite (proj2 (retire_for ws i) Hret). cbn [fst] in *. rewrite bool_decide_true; [|apply Hcur; by exists o].
    apply bool_decide_true. unfold action_key. destruct (a_create (action_for ws i)) as [c'|] eqn:Ea.
    - destruct (fits_create types t ws Hf Hr i c' Ea) as (_ & _ & Hno & _). congruence.
    - rewrite Ho. cbn. congruence. }
  lia.
Qed.

(** ** Copies *)

(** A copy as the creation it stands for. *)
Definition resolve_write (t : DocumentTables) (w : StorageWrite) : StorageWrite :=
  match w with
  | WDocumentCopy record source =>
      match materializeDocument t (cs_id source) (cs_at source) with
      | Ok (Some stored) => WDocumentCreate record (sd_version stored) (sd_value stored)
      | _ => w
      end
  | _ => w
  end.

Definition prepared_write (t : DocumentTables) (w : StorageWrite) : StorageWrite := resolve_write t (clone w).

Lemma prepared_shape t w :
  claim (prepared_write t w) = claim w /\ created_record (prepared_write t w) = created_record w /\
  change_of (prepared_write t w) = change_of w /\ content_id (prepared_write t w) = content_id w /\
  retire_id (prepared_write t w) = retire_id w /\ changed_document (clone w) = changed_document w.
Proof.
  unfold prepared_write. destruct w as [| | | | |record source|id [version [base|ops]]|]; try done; cbn.
  - destruct (materializeDocument _ _ _) as [[stored|]|]; done.
Qed.

Lemma omap_shape {A B} (f : A -> option B) (g : A -> A) (l : list A) : (forall x, f (g x) = f x) -> omap f (g <$> l) = omap f l.
Proof. intros H. induction l as [|x l IH]; [done|]. cbn. by rewrite H, IH. Qed.

Lemma prepared_fits types t ws : batch_fits types t ws -> batch_fits types t (prepared_write t <$> ws).
Proof.
  assert (E1 : claims (prepared_write t <$> ws) = claims ws) by (apply omap_shape; intros w; apply prepared_shape).
  assert (E2 : created (prepared_write t <$> ws) = created ws) by (apply omap_shape; intros w; apply prepared_shape).
  assert (E3 : omap change_of (prepared_write t <$> ws) = omap change_of ws) by (apply omap_shape; intros w; apply prepared_shape).
  assert (E4 : omap content_id (prepared_write t <$> ws) = omap content_id ws) by (apply omap_shape; intros w; apply prepared_shape).
  assert (E5 : retires_of (prepared_write t <$> ws) = retires_of ws) by (apply omap_shape; intros w; apply prepared_shape).
  intros []. constructor; rewrite ?E1, ?E2, ?E3, ?E4, ?E5; done.
Qed.

Lemma res_mapM_all {E A B} (f : A -> res E B) (g : A -> B) l : (forall x, x ∈ l -> f x = Ok (g x)) -> res_mapM f l = Ok (g <$> l).
Proof.
  induction l as [|x l IH]; intros H; [done|]. cbn [res_mapM]. rewrite (H x) by left. cbn [mbind res_bind]. rewrite IH; [done|].
  intros y Hy. apply H. by right.
Qed.

Lemma copies_resolve t ws : copies_fit t ws -> resolveDocumentCopies t (clone ws) = Ok (prepared_write t <$> ws).
Proof.
  intros Hfit. unfold resolveDocumentCopies.
  assert (Ec : omap changed_document (clone ws) = omap changed_document ws).
  { unfold clone, Clone_list. apply omap_shape. intros w. apply (prepared_shape t). }
  rewrite Ec. transitivity (Ok (E := storage_error) (resolve_write t <$> clone ws)); [|f_equal; unfold clone, Clone_list; by rewrite <- list_fmap_compose].
  apply res_mapM_all. intros w (w0 & -> & Hw)%list_elem_of_fmap. destruct w0 as [| | | | |record source| |]; try done. cbn.
  destruct (Hfit record source Hw) as (Hn & stored & Hm & H1 & H2 & H3 & H4 & H5 & H6). unfold resolve_copy.
  rewrite bool_decide_true by done. cbn [check mbind res_bind]. rewrite Hm. cbn [mbind res_bind res_of].
  rewrite H1, H2, !bool_decide_true by done. cbn. done.
Qed.

Lemma prepared_resolved t ws : copies_fit t ws -> resolved (prepared_write t <$> ws).
Proof. intros Hfit. eapply resolved_no_copy. by apply copies_resolve. Qed.

(** The storage accepts the batch. *)
Lemma batch_accepted m ws :
  storage_inv m -> closed m = false -> (Z.of_N (nextSeq m) <= MAX_SAFE_INTEGER)%Z ->
  copies_fit (document_tables (state m)) ws -> batch_fits (recordTypes (state m)) (document_tables (state m)) ws ->
  exists p m', prepareCommit m ws None = Ok p /\ p_seq p = nextSeq m /\ p_writes p = prepared_write (document_tables (state m)) <$> ws /\
    applyPreparedCommit m p = Some m' /\ storage_inv m' /\ committed m p m' /\
    commit m [ws] = Ok (m', [(0, nextSeq m)], Some {| stored := 1; refused := None |}).
Proof.
  intros Hi Ho Hs Hc Hf. set (t := document_tables (state m)) in *.
  pose proof (prepared_fits _ t ws Hf) as Hf'. pose proof (prepared_resolved t ws Hc) as Hr.
  destruct (resolved_checked _ t _ (doc_current _ _ (si_documents _ _ _ _ Hi)) Hf' Hr) as (actions & Ea & Ek).
  assert (Ep : prepareCommit m ws None = Ok {| p_seq := nextSeq m; p_writes := prepared_write t <$> ws; p_actions := actions |}).
  { unfold prepareCommit, assertOpen. rewrite Ho. cbn [negb check mbind res_bind].
    change (default (nextSeq m) None) with (nextSeq m).
    assert ((Z.of_N (nextSeq m) <=? MAX_SAFE_INTEGER)%Z && negb (nextSeq m <? nextSeq m)%N = true) as ->.
    { rewrite N.ltb_irrefl, andb_true_r. by apply Z.leb_le. }
    cbn [check mbind res_bind]. fold t. rewrite (copies_resolve t ws Hc). cbn [mbind res_bind].
    rewrite checkGlobalIds_fits; [|apply Hf'|apply Hf'|done]. cbn [mbind res_bind]. rewrite Ea. cbn [mbind res_bind]. rewrite Ek. done. }
  destruct (prepared_applies m ws None _ Hi Ep) as (m' & Em & Hi' & Hco).
  exists {| p_seq := nextSeq m; p_writes := prepared_write t <$> ws; p_actions := actions |}, m'.
  split_and!; try done. unfold commit, assertOpen. rewrite Ho. cbn [negb check mbind res_bind commit_loop]. rewrite Ep, Em. done.
Qed.

(** A batch of minted IDs keeps the next ID. *)
Lemma apply_writes_next seq n ws : forall st,
  (forall id, id ∈ (claims ws).*1 -> (id < n)%N) -> (foldl (apply_write seq) (st, n) ws).2 = n.
Proof.
  unfold claims. induction ws as [|w ws IH]; intros st Hlt; [done|]. cbn [foldl omap list_omap] in *.
  assert (Hw : exists st', apply_write seq (st, n) w = (st', n)).
  { destruct w as [v|v|v|v| | | |]; cbn [apply_write claim] in *; [..|by eexists|by eexists|by eexists|by eexists];
      rewrite N.max_l; [by eexists|specialize (Hlt _ (list_elem_of_here _ _)); cbn in Hlt; lia|by eexists|specialize (Hlt _ (list_elem_of_here _ _)); cbn in Hlt; lia
        |by eexists|specialize (Hlt _ (list_elem_of_here _ _)); cbn in Hlt; lia|by eexists|specialize (Hlt _ (list_elem_of_here _ _)); cbn in Hlt; lia]. }
  destruct Hw as [st' ->]. apply IH. intros id Hid. apply Hlt. destruct (claim w); [by right|done].
Qed.

Lemma max_next (n : N) ids : (forall id, id ∈ ids -> (id < n)%N) -> foldl (fun n id => N.max n (id + 1)) n ids = n.
Proof.
  induction ids as [|id ids IH]; intros Hlt; [done|]. cbn. rewrite N.max_l; [apply IH; intros i Hi; apply Hlt; by right|].
  specialize (Hlt id (list_elem_of_here _ _)). lia.
Qed.

Lemma applied_next m p m' : applyPreparedCommit m p = Some m' ->
  (forall id, id ∈ (claims (p_writes p)).*1 -> (id < nextId m)%N) -> (forall id, id ∈ created_ids (p_actions p) -> (id < nextId m)%N) ->
  nextId m' = nextId m.
Proof.
  unfold applyPreparedCommit. destruct (existsb _ _); [done|]. intros H H1 H2.
  pose proof (apply_writes_next (p_seq p) (nextId m) (p_writes p) (state m) H1) as E.
  destruct (foldl _ _ (p_writes p)) as [st next]. cbn in E. subst next.
  destruct (applyDocumentActions _ _ _); [|done]. cbn in H. injection H as <-. cbn. by apply max_next.
Qed.
