(* ===== verification/SessionInvariant.v ===== *)
(** What a Session relies on in its storage, and the invariant of its documents
    (durable/src/session/session.ts): what is stored with what is held is what memory shows;
    loading and storing held changes keep it. *)
From S2P Require Import Prelude JsString Json DeltaOp DeltaApply DeltaCodec DeltaPending StorageTypes SortedIds MemoryCommit DocumentFacts TableFacts MemoryFacts MemoryRead MemoryHistory SessionTypes SessionTransaction SessionCommit BatchFacts.

Abbreviation docs m := (documents (document_tables (state m))).
Abbreviation content m id := (content_at (document_tables (state m)) id PCurrent).

(** ** A batch and one document *)

Definition retires_in (ws : list StorageWrite) (id : N) : bool := bool_decide (id ∈ retires_of ws).

Record batch_effect (m : MemoryStorage) (ws : list StorageWrite) (m' : MemoryStorage) : Prop := {
  be_inv : storage_inv m';
  be_open : closed m' = false;
  be_seq : nextSeq m' = (nextSeq m + 1)%N;
  be_next : (nextId m <= nextId m')%N;
  be_minted : (forall id, id ∈ (claims ws).*1 -> (id < nextId m)%N) -> nextId m' = nextId m;
  be_document : forall id, docs m' !! id =
    if decide (id ∈ omap content_id ws \/ id ∈ retires_of ws)
    then doc_after (action_for (prepared_write (document_tables (state m)) <$> ws) id) (nextSeq m) (docs m !! id)
    else docs m !! id;
  be_action : forall id, id ∈ omap content_id ws \/ id ∈ retires_of ws ->
    action_ok id (action_for (prepared_write (document_tables (state m)) <$> ws) id) (docs m !! id);
  be_content : forall id, content m' id =
    if retires_in ws id then Ok None
    else match batch_content id (prepared_write (document_tables (state m)) <$> ws) with
         | Some c => content_step c (content m id)
         | None => content m id
         end;
  be_later : later m m';
  be_records : forall id, let ws' := prepared_write (document_tables (state m)) <$> ws in
    conversations_of (state m') !! id = or_old (written c_id pick_conversation id ws') (conversations_of (state m) !! id) /\
    entries_of (state m') !! id = or_old (written e_id pick_entry id ws') (entries_of (state m) !! id) /\
    tasks_of (state m') !! id = or_old (written t_id pick_task id ws') (tasks_of (state m) !! id) /\
    submissions_of (state m') !! id = or_old (written s_id pick_submission id ws') (submissions_of (state m) !! id);
}.

Lemma retires_in_prepared t ws id : batch_retires id (prepared_write t <$> ws) = retires_in ws id.
Proof.
  pose proof (retire_for (prepared_write t <$> ws) id) as H. cbn in H.
  rewrite (omap_shape retire_id (prepared_write t)) in H by (intros w; apply prepared_shape). unfold retires_in.
  destruct (batch_retires _ _); [by rewrite bool_decide_true by by apply H|]. rewrite bool_decide_false; [done|]. intros Hn. by apply H in Hn.
Qed.

Lemma batch_effects m ws :
  storage_inv m -> closed m = false -> (Z.of_N (nextSeq m) <= MAX_SAFE_INTEGER)%Z ->
  copies_fit (document_tables (state m)) ws -> batch_fits (recordTypes (state m)) (document_tables (state m)) ws ->
  exists m', store_batch m ws = Ok (m', nextSeq m) /\ batch_effect m ws m'.
Proof.
  intros Hi Ho Hs Hc Hf. destruct (batch_accepted m ws Hi Ho Hs Hc Hf) as (p & m' & Ep & Eseq & Ews & Em & Hi' & Hco & Ecom).
  exists m'. split; [unfold store_batch; by rewrite Ecom|]. set (t := document_tables (state m)) in *.
  assert (Hact : exists actions, prepareDocumentActions (prepared_write t <$> ws) = Ok actions /\ NoDup (actions.*1) /\
     (forall id, id ∈ actions.*1 <-> id ∈ omap content_id ws \/ id ∈ retires_of ws) /\
     forall id, action_at id actions = action_for (prepared_write t <$> ws) id).
  { pose proof (prepared_fits _ t ws Hf) as Hf'.
    destruct (prepare_fits _ (prepared_resolved t ws Hc) (bf_contents _ _ _ Hf') (bf_retires _ _ _ Hf')) as (actions & E & Hnd & Hk & Hat).
    exists actions. split_and!; try done. intros id. rewrite Hk.
    by rewrite (omap_shape content_id (prepared_write t)), (omap_shape retire_id (prepared_write t)) by (intros w; apply prepared_shape). }
  destruct Hact as (actions & Ea & Hnd & Hkeys & Hat).
  assert (Epa : p_actions p = actions).
  { unfold prepareCommit in Ep. cbn in Ep. inv_res. change (v1 = prepared_write t <$> ws) in Ews. rewrite Ews in *. change (v3 = actions). congruence. }
  assert (Hget : forall id, id ∈ omap content_id ws \/ id ∈ retires_of ws -> action_get id actions = Some (action_for (prepared_write t <$> ws) id)).
  { intros id Hid%Hkeys. rewrite <- Hat. unfold action_at. destruct (action_get id actions) eqn:E; [done|].
    by apply action_get_None in E. }
  constructor; try done.
  - rewrite (co_closed _ _ _ Hco). done.
  - destruct (co_seq _ _ _ Hco) as [_ ->]. by rewrite Eseq.
  - apply (co_next _ _ _ Hco).
  - intros Hlt. apply (applied_next m p m' Em).
    + rewrite Ews. intros id. unfold claims. rewrite omap_shape; [apply Hlt|]. intros w. apply prepared_shape.
    + intros id Hid. apply Hlt. rewrite Epa in Hid. apply list_elem_of_omap in Hid as ([i a] & Hin & Hc2).
      destruct (a_create a) as [c|] eqn:Ec; [|done]. injection Hc2 as <-. apply (action_get_elem _ _ _ Hnd) in Hin.
      pose proof (Hat i) as Ha. unfold action_at in Ha. rewrite Hin in Ha. cbn in Ha. rewrite Ha in Ec.
      destruct (create_for _ _ _ Ec) as [Hcr <-]. rewrite omap_shape in Hcr by (intros w; apply prepared_shape).
      apply list_elem_of_fmap. exists (dc_id c, TDocument). split; [done|]. apply list_elem_of_omap in Hcr as (w & Hw & Hcw).
      apply list_elem_of_omap. exists w. split; [done|]. destruct w; try done; cbn in *; by simplify_eq.
  - intros id. rewrite (co_documents _ _ _ Hco), Epa, Eseq. case_decide as Hd; [by rewrite Hget|].
    destruct (action_get id actions) eqn:E; [|done]. exfalso. apply Hd, Hkeys, list_elem_of_fmap. eexists. by split; [|apply action_get_Some].
  - intros id Hid. apply (co_actions _ _ _ Hco). rewrite Epa. by apply action_get_Some, Hget.
  - intros id. rewrite (current_content m ws p m' id Hi Ep Em), Ews. by rewrite retires_in_prepared.
  - apply rtc_once. eapply step_commit. exact Ecom.
  - intros id. cbn zeta. fold t. rewrite <- Ews. by apply committed_records.
Qed.

Lemma store_batch_seq m ws r : store_batch m ws = Ok r -> closed m = false -> (Z.of_N (nextSeq m) <= MAX_SAFE_INTEGER)%Z.
Proof.
  unfold store_batch, commit, assertOpen. intros H Ho. rewrite Ho in H. cbn [negb check mbind res_bind commit_loop] in H.
  destruct (prepareCommit m ws None) as [p|e] eqn:Ep; [|done].
  unfold prepareCommit, assertOpen in Ep. rewrite Ho in Ep. cbn [negb check mbind res_bind] in Ep.
  change (default (nextSeq m) None) with (nextSeq m) in Ep.
  destruct ((Z.of_N (nextSeq m) <=? MAX_SAFE_INTEGER)%Z && negb (nextSeq m <? nextSeq m)%N) eqn:E; [|done]. bool_to_prop. lia.
Qed.

(** The effect of a batch that fits and was stored. *)
Lemma stored_effect m ws r : storage_inv m -> closed m = false ->
  copies_fit (document_tables (state m)) ws -> batch_fits (recordTypes (state m)) (document_tables (state m)) ws ->
  store_batch m ws = Ok r -> r.2 = nextSeq m /\ batch_effect m ws r.1.
Proof.
  intros Hi Ho Hc Hf Hr. pose proof (store_batch_seq m ws r Hr Ho) as Hs.
  destruct (batch_effects m ws Hi Ho Hs Hc Hf) as (m' & E & He). rewrite E in Hr. by injection Hr as <-.
Qed.

Section Effect.
Context (m : MemoryStorage) (ws : list StorageWrite) (m' : MemoryStorage) (Hi : storage_inv m).
Context (Hf : batch_fits (recordTypes (state m)) (document_tables (state m)) ws) (Hc : copies_fit (document_tables (state m)) ws).
Context (He : batch_effect m ws m').

Let ws' := prepared_write (document_tables (state m)) <$> ws.

Lemma effect_fits : batch_fits (recordTypes (state m)) (document_tables (state m)) ws'.
Proof. by apply prepared_fits. Qed.

Lemma effect_other (id : N) : id ∉ omap content_id ws -> id ∉ retires_of ws -> docs m' !! id = docs m !! id.
Proof. intros H1 H2. rewrite (be_document _ _ _ He). by rewrite decide_False by tauto. Qed.

(** The record of a document that the batch changes or retires. *)
Lemma effect_record (id : N) o : docs m !! id = Some o ->
  exists o', docs m' !! id = Some o' /\ d_create (st_record o') = d_create (st_record o) /\
    d_createdAt (st_record o') = d_createdAt (st_record o) /\
    (id ∉ retires_of ws -> st_record o' = st_record o) /\ (id ∈ retires_of ws -> d_retiredAt (st_record o') = Some (nextSeq m)).
Proof.
  intros Ho. rewrite (be_document _ _ _ He). case_decide as Hd; [|rewrite Ho; exists o; split_and!; tauto].
  pose proof (be_action _ _ _ He id Hd) as Hok. rewrite Ho in *.
  pose proof (si_documents _ _ _ _ Hi) as Hdi. destruct (doc_after _ _ _) as [o'|] eqn:Ha.
  2: { exfalso. unfold doc_after, doc_content in Ha. destruct (a_create _) as [c|] eqn:Hcr.
       - by destruct (ok_create _ _ _ Hok c Hcr) as (_ & ? & _).
       - by destruct (a_content _). }
  destruct (doc_after_ok (nextSeq m) id _ (Some o) o' (nextSeq m) ltac:(lia) Hok) as (_ & Hr & Hsame); [|done|].
  { intros o0 [= <-]. by apply (doc_incarnations _ _ Hdi). }
  destruct (Hsame o eq_refl) as [E1 E2]. exists o'. split_and!; try done.
  - intros Hn. assert (Hret : a_retire (action_for ws' id) = false).
    { apply retire_none. unfold ws'. rewrite omap_shape; [done|]. intros w. apply prepared_shape. }
    unfold ws' in Hret. rewrite Hret in Hr. pose proof (ok_live _ _ _ Hok o eq_refl) as Hl. unfold live in Hl.
    destruct (st_record o'), (st_record o); cbn in *; congruence.
  - intros Hn. rewrite Hr. assert (a_retire (action_for ws' id) = true) as E; [|unfold ws' in E; by rewrite E].
    apply retire_for. unfold ws'. rewrite omap_shape; [done|]. intros w. apply prepared_shape.
Qed.

Lemma effect_created (c : DocumentCreate) : c ∈ created ws ->
  exists o', docs m' !! dc_id c = Some o' /\
    st_record o' = {| d_create := c; d_createdAt := nextSeq m; d_retiredAt := if retires_in ws (dc_id c) then Some (nextSeq m) else None |}.
Proof.
  intros Hin. assert (Hcon : dc_id c ∈ omap content_id ws).
  { apply list_elem_of_omap in Hin as (w & Hw & Hcw). apply list_elem_of_omap. exists w. split; [done|].
    destruct w; try done; cbn in *; by simplify_eq. }
  rewrite (be_document _ _ _ He). rewrite decide_True by by left.
  assert (Hin' : c ∈ created ws') by (unfold ws'; rewrite omap_shape; [done|]; intros w; apply prepared_shape).
  pose proof (created_action _ _ _ effect_fits (prepared_resolved _ _ Hc) c Hin') as Ea.
  destruct (fits_create _ _ _ effect_fits (prepared_resolved _ _ Hc) _ _ Ea) as (_ & _ & Hno & v & b & Econ).
  fold ws'. unfold doc_after, doc_content. rewrite Ea, Econ. cbn [mbind option_bind].
  eexists. split; [reflexivity|]. assert (a_retire (action_for ws' (dc_id c)) = retires_in ws (dc_id c)) as -> by apply retires_in_prepared.
  by destruct (retires_in ws (dc_id c)).
Qed.

(** Where a document of the storage after the batch comes from. *)
Lemma effect_known (id : N) o' : docs m' !! id = Some o' ->
  (exists o, docs m !! id = Some o) \/ exists c, c ∈ created ws /\ dc_id c = id.
Proof.
  rewrite (be_document _ _ _ He). case_decide as Hd; [|by left; eexists]. intros Ha. fold ws' in Ha.
  destruct (docs m !! id) as [o|] eqn:Ho; [by left; eexists|right].
  pose proof (be_action _ _ _ He id Hd) as Hok. rewrite Ho in Hok. fold ws' in Hok.
  destruct (a_create (action_for ws' id)) as [c|] eqn:Ea.
  - destruct (create_for _ _ _ Ea) as [Hin <-]. exists c. split; [|done].
    unfold ws' in Hin. rewrite omap_shape in Hin; [done|]. intros w. apply prepared_shape.
  - destruct (ok_existing _ _ _ Hok Ea) as [? [=]].
Qed.

(** The content after a change, a creation or a copy that the batch does not retire. *)
Lemma effect_content (id : N) w c : w ∈ ws -> content_write id (prepared_write (document_tables (state m)) w) = Some c ->
  id ∉ retires_of ws -> content m' id = content_step c (content m id).
Proof.
  intros Hw Hcw Hn. rewrite (be_content _ _ _ He). unfold retires_in. rewrite bool_decide_false by done. fold ws'.
  assert (Hin : prepared_write (document_tables (state m)) w ∈ ws') by (by apply list_elem_of_fmap_2).
  destruct (content_for ws' id _ c (bf_contents _ _ _ effect_fits) Hin Hcw) as [E _]. cbn in E. by rewrite E.
Qed.

Lemma effect_untouched (id : N) : id ∉ omap content_id ws -> id ∉ retires_of ws -> content m' id = content m id.
Proof.
  intros H1 H2. rewrite (be_content _ _ _ He). unfold retires_in. rewrite bool_decide_false by done. fold ws'.
  assert (Hn : id ∉ omap content_id ws') by (unfold ws'; rewrite omap_shape; [done|]; intros w; apply prepared_shape).
  destruct (content_none ws' id Hn) as [E _]. cbn in E. by rewrite E.
Qed.
End Effect.

(** A record that is there after a batch was there or was written. *)
Lemma written_claim {R} (id_of : R -> N) (pick : StorageWrite -> option R) table id t ws :
  (forall w v, pick w = Some v -> claim w = Some (id_of v, table)) ->
  is_Some (written id_of pick id (prepared_write t <$> ws)) -> (id, table) ∈ claims ws.
Proof.
  intros Hp [v Hv]. unfold written in Hv. apply last_Some in Hv as [l' Hl].
  assert (Hin : v ∈ filter (fun v => id_of v = id) (omap pick (prepared_write t <$> ws))) by (rewrite Hl; set_solver).
  apply list_elem_of_filter in Hin as [<- (w & (w0 & -> & Hw)%list_elem_of_fmap & Hpw)%list_elem_of_omap].
  apply list_elem_of_omap. exists w0. split; [done|]. apply Hp in Hpw. by rewrite (proj1 (prepared_shape t w0)) in Hpw.
Qed.

Lemma or_old_Some {R} (new old : option R) : is_Some (or_old new old) -> is_Some new \/ is_Some old.
Proof. destruct new; cbn; [by left|by right]. Qed.

Lemma effect_types m ws m' (id : N) : storage_inv m -> batch_effect m ws m' ->
  recordTypes (state m) !! id = None -> id ∉ (claims ws).*1 -> recordTypes (state m') !! id = None.
Proof.
  intros Hi He Hn Hcl. destruct (recordTypes (state m') !! id) as [table|] eqn:E; [exfalso|done].
  apply (si_types _ _ _ _ (be_inv _ _ _ He)) in E.
  assert (Hno : forall table, ~ in_table (state m) table id) by (intros tb; by eapply not_in_table).
  assert (Hw : forall table, (id, table) ∈ claims ws -> False) by (intros tb Hin; apply Hcl, list_elem_of_fmap; by exists (id, tb)).
  destruct (be_records _ _ _ He id) as (E1 & E2 & E3 & E4).
  destruct table; cbn in E.
  - unfold conversations_of in E1. rewrite E1 in E. apply or_old_Some in E as [E|E]; [|by apply (Hno TConversation)].
    eapply Hw, (written_claim _ pick_conversation); [|exact E]. by intros [] v [= ->].
  - unfold entries_of in E2. rewrite E2 in E. apply or_old_Some in E as [E|E]; [|by apply (Hno TEntry)].
    eapply Hw, (written_claim _ pick_entry); [|exact E]. by intros [] v [= ->].
  - unfold tasks_of in E3. rewrite E3 in E. apply or_old_Some in E as [E|E]; [|by apply (Hno TTask)].
    eapply Hw, (written_claim _ pick_task); [|exact E]. by intros [] v [= ->].
  - unfold submissions_of in E4. rewrite E4 in E. apply or_old_Some in E as [E|E]; [|by apply (Hno TSubmission)].
    eapply Hw, (written_claim _ pick_submission); [|exact E]. by intros [] v [= ->].
  - destruct E as [o' Ho']. destruct (effect_known m ws m' He id o' Ho') as [[o Ho]|(c & Hin & <-)].
    + apply (Hno TDocument). by eexists.
    + apply (Hw TDocument). apply list_elem_of_omap in Hin as (w & Hin & Hcw). apply list_elem_of_omap. exists w. split; [done|].
      destruct w; try done; cbn in *; by simplify_eq.
Qed.

(** ** The storage of a Session *)

(** The owner of a document: a conversation, or a task that has not ended. *)
Definition owner_stored (st : State) (scope : Scope) : Prop :=
  match scope with
  | ScopeSession => True
  | ScopeConversation c => is_Some (conversations_of st !! c)
  | ScopeTask id => exists r, tasks_of st !! id = Some r /\ t_status r <> terminal
  end.

Definition create_ok (c : DocumentCreate) : Prop := semantics_ok (scope_kind (dc_scope c)) (dc_history c) (dc_fork c).

Definition readable (m : MemoryStorage) (id : N) : Prop := exists v x n, content m id = Ok (Some (v, x, n)) /\ plain x.

(** The answer to a read: its value is plain. *)
Definition reads_plain (r : sres (option (N * json * nat))) : Prop :=
  exists a, r = Ok a /\ forall v x k, a = Some (v, x, k) -> plain x.

Record storage_ok (m : MemoryStorage) : Prop := {
  so_inv : storage_inv m;
  so_open : closed m = false;
  so_safe : (Z.of_N (nextId m) <= MAX_SAFE_INTEGER + 1)%Z;
  so_readable : forall id o, docs m !! id = Some o -> live o -> readable m id;
  so_past : forall id o n, docs m !! id = Some o -> isCurrentOnly (st_record o) = false ->
    reads_plain (content_at (document_tables (state m)) id (PSeq n));
  so_semantics : forall id o, docs m !! id = Some o -> create_ok (d_create (st_record o));
  so_owner : forall id o, docs m !! id = Some o -> live o -> owner_stored (state m) (dc_scope (d_create (st_record o)));
}.

Lemma revisions_all next id o n : incarnation_ok next id o -> (next <= n + 1)%N -> revisions_at o (PSeq n) = st_revisions o.
Proof.
  intros Hi Hn. unfold revisions_at. apply list_filter_all || idtac.
  pose proof (inc_seqs _ _ _ Hi) as Hs. induction Hs as [|r l Hr _ IH]; [done|]. rewrite filter_cons_True by lia. by rewrite IH.
Qed.

Lemma current_or_past m id o n : storage_inv m -> docs m !! id = Some o -> isCurrentOnly (st_record o) = false ->
  (nextSeq m <= n + 1)%N -> (live o -> readable m id) ->
  reads_plain (content_at (document_tables (state m)) id (PSeq n)).
Proof.
  intros Hi Ho Hc Hn Hr. rewrite (content_at_eq _ _ _ _ Ho), Hc. cbn [needs_history andb].
  destruct (isAliveAt (st_record o) (PSeq n)) eqn:Ea; [|by exists None].
  pose proof (doc_incarnations _ _ (si_documents _ _ _ _ Hi) _ _ Ho) as Hinc.
  assert (Hl : live o).
  { unfold live. unfold isAliveAt in Ea. destruct (d_retiredAt (st_record o)) as [s|] eqn:Er; [|done].
    pose proof (inc_retired _ _ _ Hinc s Er). bool_to_prop. lia. }
  destruct (Hr Hl) as (v & x & k & Econ & Hp). rewrite (content_at_eq _ _ _ _ Ho) in Econ. cbn [needs_history andb] in Econ.
  unfold isAliveAt in Econ. rewrite Hl in Econ. rewrite bool_decide_true in Econ by done. cbn [revisions_at] in Econ.
  rewrite (revisions_all (nextSeq m) id) by done. rewrite Econ. eexists. split; [done|]. by intros ? ? ? [= <- <- <-].
Qed.

(** What a batch must satisfy besides being accepted: its deltas apply, and its documents
    have owners. *)
Record batch_sound (m : MemoryStorage) (ws : list StorageWrite) (m' : MemoryStorage) : Prop := {
  bs_minted : forall id, id ∈ (claims ws).*1 -> (id < nextId m)%N;
  bs_deltas : forall id v ops, WDocumentChange id {| dcn_version := v; dcn_content := CDelta ops |} ∈ ws -> id ∉ retires_of ws ->
    Forall plain ops /\ forall v0 x n, content m id = Ok (Some (v0, x, n)) -> exists x', apply (Some x) (tuples ops) = Ok (Some x') /\ plain x';
  bs_semantics : forall c, c ∈ created ws -> create_ok c;
  bs_owner : forall c, c ∈ created ws -> dc_id c ∉ retires_of ws -> owner_stored (state m') (dc_scope c);
  bs_kept : forall id o, docs m !! id = Some o -> live o -> id ∉ retires_of ws -> owner_stored (state m') (dc_scope (d_create (st_record o)));
}.

Lemma clone_plain {A} `{Clone A} (l : list A) : Forall plain l -> clone l = l.
Proof. induction 1 as [|x l Hx _ IH]; [done|]. unfold clone, Clone_list in *. cbn. by rewrite Hx, IH. Qed.

Lemma clone_plain_json (v : json) : plain (clone v).
Proof. apply clone_json_idem. Qed.

Lemma copy_plain m source stored : storage_ok m ->
  materializeDocument (document_tables (state m)) (cs_id source) (cs_at source) = Ok (Some stored) -> plain (sd_value stored).
Proof.
  intros [Hi Hop Hsafe Hread Hpast Hsem Hown] Em.
  assert (Ec : content_at (document_tables (state m)) (cs_id source) (cs_at source)
               = Ok (Some (sd_version stored, sd_value stored, sd_deltasSinceBase stored))) by (unfold content_at; by rewrite Em).
  unfold materializeDocument in Em. destruct (docs m !! cs_id source) as [o|] eqn:Ho; [|done].
  rewrite (content_at_eq _ _ _ _ Ho) in Ec. destruct (cs_at source) as [|n] eqn:Ea; cbn [needs_history andb] in Ec.
  - destruct (isAliveAt (st_record o) PCurrent) eqn:Eal; [|done]. cbn in Eal. bool_to_prop.
    destruct (Hread _ o Ho Eal) as (v & x & k & Econ & Hp). rewrite (content_at_eq _ _ _ _ Ho) in Econ. cbn [needs_history andb] in Econ.
    unfold isAliveAt in Econ. rewrite bool_decide_true in Econ by done. rewrite Econ in Ec. injection Ec as _ Hx _. by rewrite <- Hx.
  - destruct (isCurrentOnly (st_record o)) eqn:Ecur; [done|].
    destruct (Hpast _ o n Ho Ecur) as (r & Econ & Hp). rewrite (content_at_eq _ _ _ _ Ho), Ecur in Econ. cbn [needs_history andb] in Econ.
    destruct (isAliveAt (st_record o) (PSeq n)); [|done]. rewrite Econ in Ec. injection Ec as ->. by eapply Hp.
Qed.

(** The content of a document after the batch is plain and can be read. *)
Lemma batch_readable m ws m' id o' :
  storage_ok m -> batch_fits (recordTypes (state m)) (document_tables (state m)) ws -> copies_fit (document_tables (state m)) ws ->
  batch_effect m ws m' -> batch_sound m ws m' -> docs m' !! id = Some o' -> live o' -> readable m' id.
Proof.
  intros Hok. pose proof Hok as [Hi Hop Hsafe Hread Hpast Hsem Hown]. intros Hf Hc He Hs Ho' Hl'.
  assert (Hn : id ∉ retires_of ws).
  { intros Hr. destruct (effect_known m ws m' He id o' Ho') as [[o Ho]|(c & Hin & <-)].
    - destruct (effect_record m ws m' Hi He id o Ho) as (o1 & Ho1 & _ & _ & _ & Hret). specialize (Hret Hr). unfold live in Hl'. congruence.
    - destruct (effect_created m ws m' Hf Hc He c Hin) as (o1 & Ho1 & Er). unfold retires_in in Er. rewrite bool_decide_true in Er by done.
      unfold live in Hl'. rewrite Ho1 in Ho'. injection Ho' as ->. rewrite Er in Hl'. done. }
  destruct (decide (id ∈ omap content_id ws)) as [(w & Hw & Hid)%list_elem_of_omap|Hnc].
  2: { destruct (effect_known m ws m' He id o' Ho') as [[o Ho]|(c & Hin & <-)].
       - unfold readable. rewrite (effect_untouched m ws m' He) by done. apply (Hread id o Ho).
         destruct (effect_record m ws m' Hi He id o Ho) as (o1 & Ho1 & _ & _ & Hsame & _). specialize (Hsame Hn).
         unfold live in *. congruence.
       - exfalso. apply Hnc. apply list_elem_of_omap in Hin as (w & Hw & Hcw). apply list_elem_of_omap. exists w. split; [done|].
         destruct w; try done; cbn in *; by simplify_eq. }
  unfold readable. destruct w as [| | | |c v b|c source|i [v [b|ops]]|]; try done; cbn in Hid; injection Hid as <-.
  - rewrite (effect_content m ws m' Hf He (dc_id c) _ {| dcn_version := v; dcn_content := CBase (clone b) |} Hw); [|cbn; by rewrite decide_True|done].
    cbn. do 3 eexists. split; [done|]. apply clone_plain_json.
  - destruct (Hc c source Hw) as (_ & stored & Em & _).
    rewrite (effect_content m ws m' Hf He (dc_id c) _ {| dcn_version := sd_version stored; dcn_content := CBase (sd_value stored) |} Hw);
      [|unfold prepared_write; cbn; rewrite Em; cbn; by rewrite decide_True|done].
    cbn. do 3 eexists. split; [done|]. by eapply copy_plain.
  - rewrite (effect_content m ws m' Hf He i _ {| dcn_version := v; dcn_content := CBase (clone b) |} Hw); [|cbn; by rewrite decide_True|done].
    cbn. do 3 eexists. split; [done|]. apply clone_plain_json.
  - destruct (bs_deltas _ _ _ Hs i v ops Hw Hn) as [Hp Hap].
    rewrite (effect_content m ws m' Hf He i _ {| dcn_version := v; dcn_content := CDelta (clone ops) |} Hw); [|cbn; by rewrite decide_True|done].
    rewrite (clone_plain ops Hp). destruct (bf_changes _ _ _ Hf i v true) as (o & Ho & Hl & _).
    { apply list_elem_of_omap. by exists (WDocumentChange i {| dcn_version := v; dcn_content := CDelta ops |}). }
    destruct (Hread i o Ho Hl) as (v0 & x & n & Econ & _). rewrite Econ. destruct (Hap v0 x n Econ) as (x' & Ex & Hx').
    unfold content_step. cbn [dcn_content]. rewrite Ex. do 3 eexists. split; [done|exact Hx'].
Qed.

Lemma storage_ok_batch m ws m' :
  storage_ok m -> batch_fits (recordTypes (state m)) (document_tables (state m)) ws -> copies_fit (document_tables (state m)) ws ->
  batch_effect m ws m' -> batch_sound m ws m' -> storage_ok m'.
Proof.
  intros Hok Hf Hc He Hs. pose proof Hok as [Hi Hop Hsafe Hread Hpast Hsem Hown].
  assert (Hr : forall id o', docs m' !! id = Some o' -> live o' -> readable m' id) by (intros id o'; by apply (batch_readable m ws)).
  constructor; [apply He|apply He|rewrite (be_minted _ _ _ He (bs_minted _ _ _ Hs)); done|exact Hr|..].
  - intros id o' n Ho' Hcur. destruct (N.lt_ge_cases n (nextSeq m)) as [Hn|Hn].
    2: { apply (current_or_past m' id o'); [apply He|done..| |by apply Hr]. rewrite (be_seq _ _ _ He). lia. }
    destruct (effect_known m ws m' He id o' Ho') as [[o Ho]|(c & Hin & <-)].
    + rewrite (later_content m m' id n o) by (done || apply He).
      apply (Hpast id o n Ho). destruct (effect_record m ws m' Hi He id o Ho) as (o1 & Ho1 & E & _).
      assert (o1 = o') as -> by congruence. unfold isCurrentOnly in *. by rewrite <- E.
    + destruct (effect_created m ws m' Hf Hc He c Hin) as (o1 & Ho1 & E). assert (o1 = o') as -> by congruence.
      exists None. split; [|done]. rewrite (content_at_eq _ _ _ _ Ho'), Hcur. cbn [needs_history andb]. unfold isAliveAt. rewrite E. cbn.
      rewrite (proj2 (N.leb_gt _ _)) by lia. done.
  - intros id o' Ho'. destruct (effect_known m ws m' He id o' Ho') as [[o Ho]|(c & Hin & <-)].
    + destruct (effect_record m ws m' Hi He id o Ho) as (o1 & Ho1 & E & _). assert (o1 = o') as -> by congruence. rewrite E. by apply (Hsem id).
    + destruct (effect_created m ws m' Hf Hc He c Hin) as (o1 & Ho1 & E). assert (o1 = o') as -> by congruence. rewrite E. cbn.
      by apply (bs_semantics _ _ _ Hs).
  - intros id o' Ho' Hl'. destruct (effect_known m ws m' He id o' Ho') as [[o Ho]|(c & Hin & <-)].
    + destruct (effect_record m ws m' Hi He id o Ho) as (o1 & Ho1 & E & _ & Hsame & Hret). assert (o1 = o') as -> by congruence.
      rewrite E. destruct (decide (id ∈ retires_of ws)) as [Hin|Hn]; [specialize (Hret Hin); unfold live in Hl'; congruence|].
      apply (bs_kept _ _ _ Hs id o Ho); [|done]. unfold live in *. by rewrite <- (Hsame Hn).
    + destruct (effect_created m ws m' Hf Hc He c Hin) as (o1 & Ho1 & E). assert (o1 = o') as -> by congruence. rewrite E. cbn.
      apply (bs_owner _ _ _ Hs c Hin). intros Hn. unfold live in Hl'. rewrite E in Hl'. unfold retires_in in Hl'.
      by rewrite bool_decide_true in Hl'.
Qed.

(** ** Operations held *)

Lemma performs_run v ops v' : performs v ops v' -> run (Some v) ops = Some (Some v').
Proof. intros [H1 _ H3 H4 _]. by apply applyOps_run. Qed.

Lemma performs_nil v : plain v -> performs v [] v.
Proof. intros Hv. by constructor. Qed.

Lemma performs_same v v' : performs v [] v' -> v' = v.
Proof. intros [_ _ _ [= ->] _]. done. Qed.

Lemma merge_plain previous next m : plain previous -> plain next -> merge previous next = Some m -> plain m.
Proof.
  destruct next as [| | |p s| | |]; try done; [intros; by simplify_eq/=|].
  destruct previous as [|q v| |q t| | |]; try done; cbn; [|intros; by simplify_eq].
  destruct v; try done. intros; by simplify_eq.
Qed.

(** The hold stands for changes that lead from [x] to [v]. *)
Definition held_ok (x : json) (h : HeldDocument) (v : json) : Prop :=
  state_ok op_ok (h_pending h) /\ state_ok plain (h_pending h) /\
  exists history, represents (h_pending h) history /\ run (Some x) history = Some (Some v).

Lemma held_none id b x : held_ok x {| h_addressId := id; h_pending := Empty; h_base := b |} x.
Proof. split; [done|]. split; [done|]. exists []. split; [|done]. by intros root r [= ->]. Qed.

Lemma held_push x h v ops v' id b : held_ok x h v -> performs v ops v' ->
  held_ok x {| h_addressId := id; h_pending := push (h_pending h) ops; h_base := b |} v'.
Proof.
  intros (H1 & H2 & hist & Hr & Hrun) Hp. split; [|split]; cbn.
  - apply push_ok; [done|apply Hp].
  - apply push_every; [exact merge_plain|done|apply Hp].
  - exists (hist ++ ops). split; [by apply push_represents|]. rewrite run_app, Hrun. cbn. by apply performs_run.
Qed.

Lemma held_taken x h v ops : held_ok x h v -> (take_pending (h_pending h)).2 = TakeOps ops ->
  Forall op_ok ops /\ Forall plain ops /\ apply (Some x) (tuples ops) = Ok (Some v).
Proof.
  intros (H1 & H2 & hist & Hr & Hrun). specialize (Hr _ _ Hrun).
  destruct (h_pending h) as [|b|f|]; cbn in *; intros [= <-].
  - split_and!; [constructor..|]. rewrite Hr. done.
  - split_and!; [done..|]. by apply run_applyOps.
  - split_and!; [done..|]. apply run_applyOps; [done|apply Hr].
Qed.

(** What [storeHeld] stores leads from the stored value to the new one, and so do the
    operations it publishes. *)
Lemma storeHeld_spec x h v ops v' version content taken :
  held_ok x h v -> performs v ops v' -> storeHeld h ops v' version = (content, taken) ->
  dcn_version content = version /\ (dcn_content content = CBase v' \/ dcn_content content = CDelta taken) /\
  Forall op_ok taken /\ Forall plain taken /\ apply (Some x) (tuples taken) = Ok (Some v').
Proof.
  intros Hh Hp. pose proof (held_push x h v ops v' (h_addressId h) (h_base h) Hh Hp) as Hh'.
  unfold storeHeld. destruct (take_pending (push (h_pending h) ops)).2 as [t|] eqn:Et.
  - destruct (held_taken _ _ _ t Hh' Et) as (H1 & H2 & H3). destruct (h_base h); intros [= <- <-]; cbn; split_and!; try done; [by left|by right].
  - intros [= <- <-]. cbn. split_and!; [done|by left|by repeat constructor| |].
    + repeat constructor. unfold plain, clone, Clone_op. f_equal. apply Hp.
    + reflexivity.
Qed.

(** ** Addresses *)

Lemma owner_text_cut (n m : N) r1 r2 : int_to_string n +:+ "," +:+ r1 = int_to_string m +:+ "," +:+ r2 -> n = m /\ r1 = r2.
Proof.
  intros H. apply (str_cut is_num_char) in H as [H1 H2]; auto using int_to_string_chars.
  - split; [by apply int_to_string_inj|]. by injection H2.
  - intros Hc%num_char_not. naive_solver.
  - intros Hc%num_char_not. naive_solver.
Qed.

Lemma key_text_inj (o1 o2 : option string) :
  match o1 with Some key => json_quote key | None => "null" end +:+ "]" = match o2 with Some key => json_quote key | None => "null" end +:+ "]" ->
  o1 = o2.
Proof. destruct o1 as [k1|], o2 as [k2|]; try done. intros H. by apply json_quote_app_inj in H as [-> _]. Qed.

Lemma addressId_inj a b : addressId a = addressId b -> a = b.
Proof.
  destruct a as [k1 s1 o1], b as [k2 s2 o2]. unfold addressId, json_array. cbn [da_kind da_scope da_key json_items]. intros H.
  apply str_app_inj_r in H. apply json_quote_app_inj in H as [-> H]. apply str_app_inj_r in H.
  destruct s1 as [|n|n], s2 as [|m|m]; cbn [scope_text fst snd] in H; apply json_quote_app_inj in H as [Hk H]; try done; clear Hk;
    apply str_app_inj_r in H.
  - apply str_app_inj_r in H. apply str_app_inj_r in H. by apply key_text_inj in H as ->.
  - apply owner_text_cut in H as [-> H]. by apply key_text_inj in H as ->.
  - apply owner_text_cut in H as [-> H]. by apply key_text_inj in H as ->.
Qed.

Definition held_semantics (c : DocumentCreate) : Prop :=
  is_conversation_scope (dc_scope c) = true /\ dc_history c = Some HLatest /\ dc_fork c = Some ForkInitial.

Abbreviation address_of c := (create_address c).

(** The stored value [x] of a loaded document, with what is held of it. *)
Definition stored_value_ok (s : SessionState) (id : string) (d : LoadedDocument) (x : json) : Prop :=
  match ss_holds s !! ld_id d with
  | None => ld_storedVersion d = ld_valueVersion d -> x = ld_value d
  | Some h => h_addressId h = id /\ ld_storedVersion d = ld_valueVersion d /\ held_semantics (d_create (ld_record d)) /\
              held_ok x h (ld_value d)
  end.

Record loaded_ok (s : SessionState) (id : string) (d : LoadedDocument) : Prop := {
  lo_id : ld_addressId d = id;
  lo_address : id = addressId (address_of (d_create (ld_record d)));
  lo_stored : exists o, docs (ss_storage s) !! ld_id d = Some o /\ live o /\ st_record o = ld_record d;
  lo_versions : (ld_storedVersion d <= ld_valueVersion d)%N;
  lo_plain : plain (ld_value d);
  lo_content : exists x, content (ss_storage s) (ld_id d) = Ok (Some (ld_storedVersion d, x, ld_deltasSinceBase d)) /\
    plain x /\ stored_value_ok s id d x;
}.

(** The live documents of a task. *)
Definition indexed (m : MemoryStorage) (t : N) (known : list DocumentRecord) : Prop :=
  NoDup ((fun r => dc_id (d_create r)) <$> known) /\
  forall r, r ∈ known <-> exists o, docs m !! dc_id (d_create r) = Some o /\ live o /\ st_record o = r /\ dc_scope (d_create r) = ScopeTask t.

Record session_ok (s : SessionState) : Prop := {
  se_storage : storage_ok (ss_storage s);
  se_documents : forall id d, ss_documents s !! id = Some d -> loaded_ok s id d;
  se_holds : forall i h, ss_holds s !! i = Some h -> exists d, ss_documents s !! h_addressId h = Some d /\ ld_id d = i;
  se_tasks : forall t known, ss_taskDocuments s !! t = Some known -> indexed (ss_storage s) t known;
}.

(** ** Documents of the storage *)

Lemma stored_id m (id : N) o : storage_inv m -> docs m !! id = Some o -> dc_id (d_create (st_record o)) = id.
Proof. intros Hi Ho. apply (inc_id _ _ _ (doc_incarnations _ _ (si_documents _ _ _ _ Hi) _ _ Ho)). Qed.

Lemma live_unique m (i j : N) o o' : storage_inv m -> docs m !! i = Some o -> docs m !! j = Some o' -> live o -> live o' ->
  address_of (d_create (st_record o)) = address_of (d_create (st_record o')) -> i = j.
Proof.
  intros Hi Ho Ho' Hl Hl' E. pose proof (doc_current _ _ (si_documents _ _ _ _ Hi)) as Hc.
  assert (H1 : cur (document_tables (state m)) (key_of o) = Some i) by (apply Hc; by exists o).
  assert (H2 : cur (document_tables (state m)) (key_of o) = Some j).
  { apply Hc. exists o'. split_and!; [done| |done]. unfold key_of, recordAddressKey. by rewrite E. }
  congruence.
Qed.

Lemma document_read m id o v x n : closed m = false -> docs m !! id = Some o -> content m id = Ok (Some (v, x, n)) -> plain x ->
  document m id PCurrent = Ok (Some {| sd_record := st_record o; sd_version := v; sd_value := x; sd_deltasSinceBase := n |}).
Proof.
  intros Hop Ho Hc Hp. unfold document, assertOpen. rewrite Hop. cbn [negb check mbind res_bind]. unfold content_at in Hc.
  destruct (materializeDocument _ id PCurrent) as [[sd|]|e] eqn:Em; try done. injection Hc as <- <- <-. cbn [mbind res_bind].
  assert (Er : sd_record sd = st_record o).
  { unfold materializeDocument in Em. rewrite Ho in Em. cbn in Em. destruct (bool_decide _); [|done].
    destruct (base_index _ _) as [b|]; [|done]. destruct (st_revisions o !! b) as [[v [x|]]|]; try done. inv_res. done. }
  rewrite Er. unfold clone at 1, Clone_document_record. by rewrite Hp.
Qed.

(** ** Loading *)

Lemma materialized definition record version value v : plain value ->
  materializeDocumentValue definition record version value = Ok v ->
  checkRecordScope definition record = Ok tt /\ (version <= df_version definition)%N /\ plain v /\
  (version = df_version definition -> v = value).
Proof.
  intros Hp H. unfold materializeDocumentValue, checkRecordVersion in H. inv_res. bool_to_prop.
  destruct v0. split; [done|]. split; [lia|]. destruct (N.eqb_spec version (df_version definition)) as [->|Hne].
  - by injection H as <-.
  - destruct (df_migrate definition); [|done]. injection H as <-. split; [apply clone_plain_json|done].
Qed.

Lemma loaded_stable s s' id d :
  loaded_ok s id d -> docs (ss_storage s') !! ld_id d = docs (ss_storage s) !! ld_id d ->
  content (ss_storage s') (ld_id d) = content (ss_storage s) (ld_id d) -> ss_holds s' !! ld_id d = ss_holds s !! ld_id d ->
  loaded_ok s' id d.
Proof. intros [H1 H2 H3 H4 H5 H6] E1 E2 E3. constructor; try done; [by rewrite E1|]. unfold stored_value_ok in *. by rewrite E2, E3. Qed.

(** A cached document is the live one at its address. *)
Lemma cached_live s id d address : session_ok s -> ss_documents s !! id = Some d -> id = addressId address ->
  address = address_of (d_create (ld_record d)).
Proof. intros Hs Hd ->. apply addressId_inj. by rewrite <- (lo_address _ _ _ (se_documents _ Hs _ _ Hd)). Qed.

Lemma not_held s id address (i : N) o : session_ok s -> ss_documents s !! id = None -> id = addressId address ->
  docs (ss_storage s) !! i = Some o -> address_of (d_create (st_record o)) = address -> ss_holds s !! i = None.
Proof.
  intros Hs Hn -> Ho <-. destruct (ss_holds s !! i) as [h|] eqn:Eh; [exfalso|done].
  destruct (se_holds _ Hs i h Eh) as (d & Hd & Hi). pose proof (se_documents _ Hs _ _ Hd) as Hl.
  destruct (lo_stored _ _ _ Hl) as (o' & Ho' & _ & Er). rewrite Hi, Ho in Ho'. injection Ho' as <-.
  rewrite (lo_address _ _ _ Hl), <- Er in Hd. congruence.
Qed.

Lemma coldLoad_ok s definition id address s' r : session_ok s -> ss_documents s !! id = None -> id = addressId address ->
  coldLoad s definition id address = Ok (s', r) ->
  match r with
  | None => s' = s /\ forall i o, docs (ss_storage s) !! i = Some o -> live o -> address_of (d_create (st_record o)) <> address
  | Some d => s' = with_documents (<[id := d]> (ss_documents s)) s /\ session_ok s' /\ ld_valueVersion d = df_version definition /\
              address_of (d_create (ld_record d)) = address /\ checkRecordScope definition (d_create (ld_record d)) = Ok tt
  end.
Proof.
  intros Hs Hn Hid H. pose proof (se_storage _ Hs) as Hst. unfold coldLoad in H. 
  destruct (findDocument_current (ss_storage s) address (so_inv _ Hst) (so_open _ Hst)) as (found & Ef & Hf).
  rewrite Ef in H. cbn [of_storage mbind res_bind] in H. destruct found as [record|].
  2: { injection H as <- <-. split; [done|]. intros i o Ho Hl E. 
       assert (None = Some (st_record o)) as [=]. apply Hf. exists o. rewrite (stored_id _ i o (so_inv _ Hst) Ho). done. }
  destruct (proj1 (Hf record) eq_refl) as (o & Ho & -> & Ha & Hl).
  destruct (so_readable _ Hst _ o Ho Hl) as (v & x & n & Ec & Hp).
  rewrite (document_read _ _ _ _ _ _ (so_open _ Hst) Ho Ec Hp) in H. cbn [of_storage mbind res_bind res_of sd_record sd_version sd_value sd_deltasSinceBase] in H.
  destruct (materializeDocumentValue definition (d_create (st_record o)) v x) as [value|] eqn:Em; [|done]. cbn [mbind res_bind] in H.
  injection H as <- <-. destruct (materialized _ _ _ _ _ Hp Em) as (Hsc & Hv & Hpv & Hsame). split; [done|].
  split; [|done]. set (d := {| ld_addressId := id; ld_record := st_record o; ld_storedVersion := v; ld_valueVersion := df_version definition;
                 ld_deltasSinceBase := n; ld_value := value |}).
  assert (Hnh : ss_holds s !! ld_id d = None) by (by apply (not_held s id address _ o)).
  constructor; [done| | |apply Hs].
  - intros id' d'. cbn. intros [[<- <-]|[Hne Hd']]%lookup_insert_Some.
    + constructor; cbn; [done|by rewrite Hid, Ha|by exists o|lia|done|]. exists x. split; [done|]. split; [done|].
      unfold stored_value_ok. cbn. fold d. rewrite Hnh. cbn. intros ->. by rewrite Hsame.
    + apply (loaded_stable s); [by apply Hs|done..].
  - intros i h Hh. destruct (se_holds _ Hs i h Hh) as (d' & Hd' & Hi). exists d'. split; [|done]. cbn. rewrite lookup_insert_ne; [done|]. congruence.
Qed.

(** ** Storing held changes *)

(** The version of a document's content is that of its last revision. *)
Lemma content_version m (id : N) o v x n : storage_inv m -> docs m !! id = Some o -> live o -> content m id = Ok (Some (v, x, n)) ->
  exists r, last (st_revisions o) = Some r /\ rv_version r = v.
Proof.
  intros Hi Ho Hl Hc. rewrite (content_at_eq _ _ _ _ Ho) in Hc. cbn [needs_history andb revisions_at] in Hc.
  unfold isAliveAt in Hc. rewrite Hl in Hc. rewrite bool_decide_true in Hc by done.
  pose proof (doc_incarnations _ _ (si_documents _ _ _ _ Hi) _ _ Ho) as Hinc.
  destruct (newest_base _ (current_only_live o Hl (inc_revisions _ _ _ Hinc))) as (pre & v' & b & q & ds & El & Hd).
  rewrite El, (replay_from_split id pre v' b q ds Hd) in Hc. rewrite El.
  destruct (replay id v' ds (Some b)) as [[y|]|]; try done. injection Hc as <- _ _.
  destruct ds as [|d ds' _] using rev_ind.
  - exists {| rv_version := v'; rv_content := CBase b; rv_seq := q |}. by rewrite last_app.
  - exists d. rewrite app_comm_cons, app_assoc, last_snoc. split; [done|].
    unfold deltas_of in Hd. apply Forall_app in Hd as [_ Hd]. by inversion_clear Hd as [|? ? [? ?]].
Qed.

Lemma res_mapM_Forall2 {E A B} (f : A -> res E B) l l' : res_mapM f l = Ok l' -> Forall2 (fun a b => f a = Ok b) l l'.
Proof.
  revert l'; induction l as [|a l IH]; intros l' H; cbn in H; [by injection H as <-|].
  destruct (f a) as [b|] eqn:E1; [|done]. cbn in H. destruct (res_mapM f l) as [bs|]; [|done]. cbn in H. injection H as <-.
  constructor; [done|by apply IH].
Qed.

(** A stored hold: its document and what is stored. *)
Definition stored_of (s : SessionState) (x : N * HeldDocument) (k : LoadedDocument * (DocumentContent * list Op)) : Prop :=
  ss_holds s !! x.1 = Some x.2 /\ ss_documents s !! h_addressId x.2 = Some k.1 /\ ld_id k.1 = x.1 /\
  storeHeld x.2 [] (ld_value k.1) (ld_valueVersion k.1) = k.2.

Abbreviation stored_ids K := ((fun k : LoadedDocument * (DocumentContent * list Op) => ld_id k.1) <$> K).

Lemma stored_value s x k : session_ok s -> stored_of s x k ->
  exists x0, content (ss_storage s) (ld_id k.1) = Ok (Some (ld_valueVersion k.1, x0, ld_deltasSinceBase k.1)) /\ plain x0 /\
    ld_storedVersion k.1 = ld_valueVersion k.1 /\ dcn_version k.2.1 = ld_valueVersion k.1 /\
    (dcn_content k.2.1 = CBase (ld_value k.1) \/ dcn_content k.2.1 = CDelta k.2.2) /\
    Forall op_ok k.2.2 /\ Forall plain k.2.2 /\ apply (Some x0) (tuples k.2.2) = Ok (Some (ld_value k.1)) /\
    ld_addressId k.1 = h_addressId x.2.
Proof.
  intros Hs (Hh & Hd & Hi & Hk). pose proof (se_documents _ Hs _ _ Hd) as Hl.
  destruct (lo_content _ _ _ Hl) as (x0 & Hc & Hp & Hv). unfold stored_value_ok in Hv. rewrite Hi, Hh in Hv.
  destruct Hv as (_ & Ev & _ & Hheld). exists x0. rewrite <- Ev at 1.
  destruct k as [d [c taken]]. cbn in *.
  destruct (storeHeld_spec x0 x.2 (ld_value d) [] (ld_value d) (ld_valueVersion d) c taken Hheld) as (H1 & H2 & H3 & H4 & H5);
    [apply performs_nil, (lo_plain _ _ _ Hl)|done|].
  split_and!; try done. apply (lo_id _ _ _ Hl).
Qed.

Lemma stored_ids_eq s L K : Forall2 (stored_of s) L K -> stored_ids K = L.*1.
Proof. induction 1 as [|x k L K (_ & _ & Hi & _) _ IH]; [done|]. cbn. by rewrite Hi, IH. Qed.

Lemma stored_writes_shape (K : list (LoadedDocument * (DocumentContent * list Op))) :
  claims (stored_write <$> K) = [] /\ omap content_id (stored_write <$> K) = stored_ids K /\
  retires_of (stored_write <$> K) = [] /\ created (stored_write <$> K) = [].
Proof. induction K as [|k K (H1 & H2 & H3 & H4)]; [done|]. unfold claims in *. cbn. by rewrite H1, H2, H3, H4. Qed.

Lemma elem_stored s L K k : Forall2 (stored_of s) L K -> k ∈ K -> exists x, x ∈ L /\ stored_of s x k.
Proof.
  intros H Hk. apply list_elem_of_lookup in Hk as [i Hi]. destruct (Forall2_lookup_r _ _ _ _ _ H Hi) as (x & Hx & Hr).
  exists x. split; [by eapply list_elem_of_lookup_2|done].
Qed.

Lemma stored_fits s L K : session_ok s -> Forall2 (stored_of s) L K -> NoDup (L.*1) ->
  batch_fits (recordTypes (state (ss_storage s))) (document_tables (state (ss_storage s))) (stored_write <$> K) /\
  copies_fit (document_tables (state (ss_storage s))) (stored_write <$> K).
Proof.
  intros Hs HK Hnd. destruct (stored_writes_shape K) as (E1 & E2 & E3 & E4). split.
  - constructor; rewrite ?E1, ?E2, ?E3, ?E4; try (by constructor || set_solver).
    + by intros id table []%elem_of_nil.
    + by rewrite (stored_ids_eq s L).
    + intros id version delta (w & (k & -> & Hk)%list_elem_of_fmap & Hw)%list_elem_of_omap. cbn in Hw. injection Hw as <- <- <-.
      destruct (elem_stored _ _ _ _ HK Hk) as (x & _ & Hx). destruct (stored_value s x k Hs Hx) as (x0 & Hc & _ & _ & Ev & _).
      destruct Hx as (_ & Hd & _). destruct (lo_stored _ _ _ (se_documents _ Hs _ _ Hd)) as (o & Ho & Hl & _).
      exists o. split; [done|]. split; [done|]. intros _. rewrite Ev.
      apply (content_version (ss_storage s) (ld_id k.1) o _ x0 _ (so_inv _ (se_storage _ Hs)) Ho Hl Hc).
  - intros record source (k & E & _)%list_elem_of_fmap. done.
Qed.

(** ** The cache after held changes are stored *)

Lemma counted_lookup (K : list (LoadedDocument * (DocumentContent * list Op))) : forall documents id,
  NoDup ((fun k => ld_addressId k.1) <$> K) ->
  (forall k, k ∈ K -> ld_addressId k.1 = id ->
     foldl count_stored documents K !! id = Some (with_deltas (count_delta (dcn_content k.2.1) (ld_deltasSinceBase k.1)) k.1)) /\
  (id ∉ (fun k => ld_addressId k.1) <$> K -> foldl count_stored documents K !! id = documents !! id).
Proof.
  induction K as [|k K IH] using rev_ind; intros documents id Hnd.
  { split; [by intros k Hk%elem_of_nil|done]. }
  rewrite fmap_app in Hnd. apply NoDup_app in Hnd as (Hnd & Hx & _). destruct (IH documents id Hnd) as [IH1 IH2].
  rewrite foldl_app. cbn [foldl]. unfold count_stored at 1 3. split.
  - intros k' [Hk | ->%list_elem_of_singleton]%elem_of_app Ek.
    + rewrite lookup_insert_ne; [by apply IH1|]. intros E.
      apply (Hx id); apply list_elem_of_fmap; [by exists k'|exists k; split; [done|left]].
    + rewrite Ek. by rewrite lookup_insert_eq.
  - intros Hn. rewrite fmap_app in Hn. rewrite lookup_insert_ne; [apply IH2; set_solver|]. cbn in Hn. set_solver.
Qed.

Lemma deleted_lookup (ids : list N) (holds : gmap N HeldDocument) (i : N) :
  foldr delete holds ids !! i = if decide (i ∈ ids) then None else holds !! i.
Proof.
  induction ids as [|j ids IH]; [by rewrite decide_False by by intros []%elem_of_nil|]. cbn.
  destruct (decide (i = j)) as [->|Hne]; [rewrite lookup_delete_eq, decide_True; [done|left]|].
  rewrite lookup_delete_ne by done. rewrite IH. repeat case_decide; set_solver.
Qed.

Lemma stored_addresses s L K : session_ok s -> Forall2 (stored_of s) L K -> NoDup (L.*1) ->
  NoDup ((fun k => ld_addressId k.1) <$> K).
Proof.
  intros Hs HK Hnd. rewrite <- (stored_ids_eq _ _ _ HK) in Hnd. apply NoDup_fmap_2_strong; [|by eapply NoDup_fmap_1].
  intros k k' Hk Hk' E. destruct (elem_stored _ _ _ _ HK Hk) as (x & _ & Hx), (elem_stored _ _ _ _ HK Hk') as (x' & _ & Hx').
  destruct (stored_value s x k Hs Hx) as (_ & _ & _ & _ & _ & _ & _ & _ & _ & E1), (stored_value s x' k' Hs Hx') as (_ & _ & _ & _ & _ & _ & _ & _ & _ & E2).
  destruct Hx as (Hh & Hd & Hi & Hst), Hx' as (Hh' & Hd' & Hi' & Hst').
  assert (Ed : k.1 = k'.1) by congruence. assert (x.1 = x'.1) as Ex by congruence. rewrite Ex, Hh' in Hh.
  destruct k, k'; cbn in *. congruence.
Qed.

(** The content after a change, from its operations or its base. *)
Lemma content_step_value c x v v0 n taken : dcn_content c = CBase v \/ dcn_content c = CDelta taken ->
  plain v -> Forall plain taken -> apply (Some x) (tuples taken) = Ok (Some v) -> (v0 = dcn_version c \/ is_base (dcn_content c) = true) ->
  content_step (clone c) (Ok (Some (v0, x, n))) = Ok (Some (dcn_version c, v, count_delta (dcn_content c) n)).
Proof.
  intros Hc Hv Ht Ha Hver. unfold content_step, clone, Clone_content. cbn [dcn_content dcn_version].
  destruct Hc as [E|E]; rewrite E in *; cbn [is_base count_delta] in *; [by rewrite Hv|].
  rewrite (clone_plain taken Ht), Ha. destruct Hver as [->|[=]]. done.
Qed.

(** Records that no write of a batch of documents touches. *)
Lemma written_none {R} (id_of : R -> N) (pick : StorageWrite -> option R) id t ws :
  omap pick (prepared_write t <$> ws) = [] -> written id_of pick id (prepared_write t <$> ws) = None.
Proof. intros E. unfold written. by rewrite E. Qed.

Lemma owner_kept m ws m' scope : batch_effect m ws m' -> claims ws = [] -> owner_stored (state m) scope -> owner_stored (state m') scope.
Proof.
  intros He Hcl Hown.
  assert (Hno : forall {R} (id_of : R -> N) (pick : StorageWrite -> option R) table id,
    (forall w v, pick w = Some v -> claim w = Some (id_of v, table)) ->
    written id_of pick id (prepared_write (document_tables (state m)) <$> ws) = None).
  { intros R id_of pick table id Hp. destruct (written _ _ _ _) as [v|] eqn:E; [exfalso|done].
    assert (Hin : (id, table) ∈ claims ws) by (eapply written_claim; [exact Hp|by eexists]). rewrite Hcl in Hin. by apply elem_of_nil in Hin. }
  destruct scope as [|c|t]; [done| |]; cbn in *.
  - destruct (be_records _ _ _ He c) as (E & _). rewrite E, (Hno _ _ _ TConversation); [done|]. by intros [] v [= ->].
  - destruct (be_records _ _ _ He t) as (_ & _ & E & _). rewrite E, (Hno _ _ _ TTask); [done|]. by intros [] v [= ->].
Qed.

Record holds_stored (s : SessionState) (select : N -> bool) (K : list (LoadedDocument * (DocumentContent * list Op))) (s' : SessionState) : Prop := {
  ht_stored : exists L : list (N * HeldDocument), Forall2 (stored_of s) L K /\ NoDup (L.*1) /\
    forall i h, (i, h) ∈ L <-> ss_holds s !! i = Some h /\ select i = true;
  ht_effect : batch_effect (ss_storage s) (stored_write <$> K) (ss_storage s');
  ht_fits : batch_fits (recordTypes (state (ss_storage s))) (document_tables (state (ss_storage s))) (stored_write <$> K);
  ht_documents : ss_documents s' = foldl count_stored (ss_documents s) K;
  ht_holds : forall i, ss_holds s' !! i = if decide (i ∈ stored_ids K) then None else ss_holds s !! i;
  ht_tasks : ss_taskDocuments s' = ss_taskDocuments s;
  ht_published : ss_published s' = ss_published s ++ (stored_change <$> K);
}.

Lemma stored_holds_exist s (L : list (N * HeldDocument)) : session_ok s -> (forall x, x ∈ L -> ss_holds s !! x.1 = Some x.2) ->
  exists K, res_mapM (stored_hold s) L = Ok K /\ Forall2 (stored_of s) L K.
Proof.
  intros Hs. induction L as [|[i h] L IH]; intros HL; [by exists []|].
  destruct IH as (K & E & HK); [intros x Hx; apply HL; by right|].
  assert (Hh : ss_holds s !! i = Some h) by (apply (HL (i, h)); left). destruct (se_holds _ Hs i h Hh) as (d & Hd & Hi).
  exists ((d, storeHeld h [] (ld_value d) (ld_valueVersion d)) :: K).
  assert (E1 : stored_hold s (i, h) = Ok (d, storeHeld h [] (ld_value d) (ld_valueVersion d))) by (unfold stored_hold; cbn; by rewrite Hd).
  cbn [res_mapM]. rewrite E1. cbn [mbind res_bind]. rewrite E. split; [done|].
  constructor; [|done]. by split_and!.
Qed.

Lemma storeHolds_stored s select s' : session_ok s -> storeHolds s select = Ok s' ->
  (s' = s /\ forall i h, ss_holds s !! i = Some h -> select i = false) \/ exists K, holds_stored s select K s'.
Proof.
  intros Hs H. unfold storeHolds in H.
  set (L := filter (fun x => select x.1 = true) (map_to_list (ss_holds s))) in *.
  assert (HL : forall i h, (i, h) ∈ L <-> ss_holds s !! i = Some h /\ select i = true).
  { intros i h. unfold L. rewrite list_elem_of_filter, elem_of_map_to_list. cbn. tauto. }
  assert (Hnd : NoDup (L.*1)).
  { unfold L. eapply sublist_NoDup; [apply (NoDup_fst_map_to_list (ss_holds s))|]. apply fmap_sublist, sublist_filter. }
  destruct (stored_holds_exist s L Hs) as (K & E & HK); [intros [i h] Hx; by apply HL|].
  destruct (decide (L = [])) as [E0|Hne]; [left|right].
  { rewrite E0 in H. split; [by injection H|]. intros i h Hh. destruct (select i) eqn:Esel; [exfalso|done].
    assert (Hin : (i, h) ∈ L) by (by apply HL). rewrite E0 in Hin. by apply elem_of_nil in Hin. }
  assert (H' : (stored ← Ok K; r ← store_batch (ss_storage s) (stored_write <$> stored);
     Ok (release (L.*1) (publish (stored_change <$> stored) (with_documents (foldl count_stored (ss_documents s) stored) (with_storage r.1 s)))) : tres SessionState) = Ok s').
  { rewrite <- E. destruct L; [done|exact H]. }
  clear H. cbn [mbind res_bind] in H'. destruct (store_batch _ _) as [r|] eqn:Er; [|done]. cbn [mbind res_bind] in H'. injection H' as <-.
  destruct (stored_fits s L K Hs HK Hnd) as [Hf Hc]. pose proof (se_storage _ Hs) as Hst.
  destruct (stored_effect _ _ r (so_inv _ Hst) (so_open _ Hst) Hc Hf Er) as [_ He].
  exists K. constructor; try done; [by exists L|].
  intros i. cbn. rewrite deleted_lookup. by rewrite (stored_ids_eq s L K HK).
Qed.

Section Stored.
Context (s s' : SessionState) (select : N -> bool) (K : list (LoadedDocument * (DocumentContent * list Op))).
Context (Hs : session_ok s) (Ht : holds_stored s select K s').

Let m := ss_storage s.
Let m' := ss_storage s'.

Lemma held_elem k : k ∈ K -> exists x, stored_of s x k.
Proof. intros Hk. destruct (ht_stored _ _ _ _ Ht) as (L & HK & _ & _). destruct (elem_stored _ _ _ _ HK Hk) as (x & _ & Hx). by exists x. Qed.

Lemma held_by_address k k' : k ∈ K -> k' ∈ K -> ld_addressId k.1 = ld_addressId k'.1 -> ld_id k.1 = ld_id k'.1.
Proof.
  intros Hk Hk' E. destruct (held_elem k Hk) as (x & Hx), (held_elem k' Hk') as (x' & Hx').
  destruct (stored_value s x k Hs Hx) as (_ & _ & _ & _ & _ & _ & _ & _ & _ & E1), (stored_value s x' k' Hs Hx') as (_ & _ & _ & _ & _ & _ & _ & _ & _ & E2).
  destruct Hx as (_ & Hd & _), Hx' as (_ & Hd' & _). congruence.
Qed.

Lemma stored_sound : batch_sound m (stored_write <$> K) m'.
Proof.
  destruct (stored_writes_shape K) as (E1 & E2 & E3 & E4). pose proof (se_storage _ Hs) as Hst. constructor.
  - rewrite E1. by intros id []%elem_of_nil.
  - intros id v ops (k & [= -> Ek] & Hk)%list_elem_of_fmap _. destruct (held_elem k Hk) as (x & Hx).
    destruct (stored_value s x k Hs Hx) as (x0 & Hc & _ & _ & _ & Hcc & _ & Hp & Ha & _). rewrite <- Ek in Hcc. cbn in Hcc.
    destruct Hcc as [[=]|[= ->]]. split; [done|]. intros v0 x1 n E. fold m in Hc. rewrite Hc in E. injection E as <- <- <-.
    exists (ld_value k.1). split; [done|]. destruct Hx as (_ & Hd & _). apply (lo_plain _ _ _ (se_documents _ Hs _ _ Hd)).
  - rewrite E4. by intros c []%elem_of_nil.
  - rewrite E4. by intros c []%elem_of_nil.
  - intros id o Ho Hl _. eapply owner_kept; [apply (ht_effect _ _ _ _ Ht)|done|]. by apply (so_owner _ Hst id).
Qed.

(** The stored content of a document that was held. *)
Lemma stored_content k : k ∈ K ->
  content m' (ld_id k.1) = Ok (Some (ld_valueVersion k.1, ld_value k.1, count_delta (dcn_content k.2.1) (ld_deltasSinceBase k.1))).
Proof.
  intros Hk. destruct (held_elem k Hk) as (x & Hx). destruct (stored_value s x k Hs Hx) as (x0 & Hc & _ & _ & Ev & Hcc & _ & Hp & Ha & _).
  assert (Hpv : plain (ld_value k.1)) by (destruct Hx as (_ & Hd & _); apply (lo_plain _ _ _ (se_documents _ Hs _ _ Hd))).
  destruct (stored_writes_shape K) as (_ & _ & E3 & _). unfold m'.
  rewrite (effect_content _ _ _ (ht_fits _ _ _ _ Ht) (ht_effect _ _ _ _ Ht) (ld_id k.1) (stored_write k) (clone k.2.1)).
  - rewrite Hc, (content_step_value k.2.1 x0 (ld_value k.1) (ld_valueVersion k.1) _ k.2.2) by (done || by left). by rewrite Ev.
  - by apply list_elem_of_fmap_2.
  - unfold prepared_write, stored_write. cbn. by rewrite decide_True.
  - rewrite E3. by intros []%elem_of_nil.
Qed.

Lemma untouched_content (id : N) : id ∉ stored_ids K -> content m' id = content m id.
Proof.
  intros Hn. destruct (stored_writes_shape K) as (E1 & E2 & E3 & E4). apply (effect_untouched _ _ _ (ht_effect _ _ _ _ Ht)).
  - by rewrite E2.
  - rewrite E3. by intros []%elem_of_nil.
Qed.

Lemma stored_record (id : N) o : docs m !! id = Some o -> exists o', docs m' !! id = Some o' /\ st_record o' = st_record o.
Proof.
  intros Ho. destruct (stored_writes_shape K) as (E1 & E2 & E3 & E4).
  destruct (effect_record _ _ _ (so_inv _ (se_storage _ Hs)) (ht_effect _ _ _ _ Ht) id o Ho) as (o' & Ho' & _ & _ & Hsame & _).
  exists o'. split; [done|]. apply Hsame. rewrite E3. by intros []%elem_of_nil.
Qed.

Lemma stored_record_back (id : N) o' : docs m' !! id = Some o' -> exists o, docs m !! id = Some o /\ st_record o = st_record o'.
Proof.
  intros Ho'. destruct (stored_writes_shape K) as (E1 & E2 & E3 & E4).
  destruct (effect_known _ _ _ (ht_effect _ _ _ _ Ht) id o' Ho') as [[o Ho]|(c & Hc & _)].
  - destruct (stored_record id o Ho) as (o1 & Ho1 & E). exists o. split; [done|]. unfold m' in *. congruence.
  - rewrite E4 in Hc. by apply elem_of_nil in Hc.
Qed.

Lemma stored_documents id d' : ss_documents s' !! id = Some d' ->
  (exists k, k ∈ K /\ ld_addressId k.1 = id /\ d' = with_deltas (count_delta (dcn_content k.2.1) (ld_deltasSinceBase k.1)) k.1) \/
  (ss_documents s !! id = Some d' /\ id ∉ (fun k => ld_addressId k.1) <$> K).
Proof.
  intros Hd. rewrite (ht_documents _ _ _ _ Ht) in Hd. destruct (ht_stored _ _ _ _ Ht) as (L & HK & Hnd & _).
  destruct (counted_lookup K (ss_documents s) id (stored_addresses s L K Hs HK Hnd)) as [H1 H2].
  destruct (decide (id ∈ (fun k => ld_addressId k.1) <$> K)) as [Hin|Hn].
  - apply list_elem_of_fmap in Hin as (k & Ek & Hk). left. exists k. rewrite (H1 k Hk (eq_sym Ek)) in Hd. by injection Hd as <-.
  - right. by rewrite H2 in Hd.
Qed.

Lemma storeHolds_ok : session_ok s'.
Proof.
  pose proof (se_storage _ Hs) as Hst. destruct (ht_stored _ _ _ _ Ht) as (L & HK & Hnd & HL).
  assert (Hcf : copies_fit (document_tables (state m)) (stored_write <$> K)) by (by apply (stored_fits s L K)).
  constructor.
  - apply (storage_ok_batch m (stored_write <$> K)); [done|apply Ht|done|apply Ht|apply stored_sound].
  - intros id d' [(k & Hk & <- & ->)|[Hd Hn]]%stored_documents.
    + destruct (held_elem k Hk) as (x & Hx). destruct (stored_value s x k Hs Hx) as (x0 & Hc & _ & Ev & _ & _ & _ & _ & _ & Ea).
      destruct Hx as (_ & Hd & _). pose proof (se_documents _ Hs _ _ Hd) as Hl.
      constructor; cbn.
      * done.
      * rewrite Ea. apply Hl.
      * destruct (lo_stored _ _ _ Hl) as (o & Ho & Hlv & Er). destruct (stored_record _ o Ho) as (o' & Ho' & Er'). exists o'.
        unfold live in *. split_and!; [exact Ho'|congruence..].
      * apply Hl.
      * apply Hl.
      * exists (ld_value k.1). rewrite Ev. split; [by apply (stored_content k)|]. split; [apply Hl|].
        unfold stored_value_ok. rewrite (ht_holds _ _ _ _ Ht). rewrite decide_True; [done|]. apply list_elem_of_fmap. by exists k.
    + pose proof (se_documents _ Hs _ _ Hd) as Hl.
      assert (Hni : ld_id d' ∉ stored_ids K).
      { intros (k & Ek & Hk)%list_elem_of_fmap. apply Hn, list_elem_of_fmap. exists k. split; [|done].
        destruct (held_elem k Hk) as (x & Hx). destruct (stored_value s x k Hs Hx) as (_ & _ & _ & _ & _ & _ & _ & _ & _ & Ea).
        destruct Hx as (_ & Hdk & _). pose proof (se_documents _ Hs _ _ Hdk) as Hlk.
        destruct (lo_stored _ _ _ Hl) as (o & Ho & _ & Er), (lo_stored _ _ _ Hlk) as (o2 & Ho2 & _ & Er2).
        rewrite Ea, (lo_address _ _ _ Hl), (lo_address _ _ _ Hlk). rewrite Ek in Ho. congruence. }
      destruct (stored_writes_shape K) as (E1 & E2 & E3 & E4).
      apply (loaded_stable s); [done| |by apply untouched_content|].
      * apply (effect_other _ _ _ (ht_effect _ _ _ _ Ht)); [by rewrite E2|rewrite E3; by intros []%elem_of_nil].
      * rewrite (ht_holds _ _ _ _ Ht). by rewrite decide_False.
  - intros i h Hh. rewrite (ht_holds _ _ _ _ Ht) in Hh. case_decide as Hd; [done|].
    destruct (se_holds _ Hs i h Hh) as (d & Hdd & Hi). exists d. split; [|done].
    rewrite (ht_documents _ _ _ _ Ht). destruct (counted_lookup K (ss_documents s) (h_addressId h) (stored_addresses s L K Hs HK Hnd)) as [_ H2].
    rewrite H2; [done|]. intros (k & Ek & Hk)%list_elem_of_fmap. apply Hd, list_elem_of_fmap. exists k. split; [|done].
    destruct (held_elem k Hk) as (x & Hx). destruct (stored_value s x k Hs Hx) as (_ & _ & _ & _ & _ & _ & _ & _ & _ & Ea).
    destruct Hx as (_ & Hdk & _). congruence.
  - intros t known Hk. rewrite (ht_tasks _ _ _ _ Ht) in Hk. destruct (se_tasks _ Hs t known Hk) as [Hn Hr]. split; [done|].
    intros r. rewrite Hr. split.
    + intros (o & Ho & Hl & Er & Esc). destruct (stored_record _ o Ho) as (o' & Ho' & E). exists o'. unfold live in *. split_and!; [exact Ho'|congruence..].
    + intros (o' & Ho' & Hl & Er & Esc). destruct (stored_record_back _ o' Ho') as (o & Ho & E). exists o. unfold live in *. split_and!; [exact Ho|congruence..].
Qed.
End Stored.

(** A cached document is known by its ID. *)
Lemma cached_by_id s id id' d d' : session_ok s -> ss_documents s !! id = Some d -> ss_documents s !! id' = Some d' -> ld_id d = ld_id d' -> id = id'.
Proof.
  intros Hs Hd Hd' E. pose proof (se_documents _ Hs _ _ Hd) as Hl. pose proof (se_documents _ Hs _ _ Hd') as Hl'.
  destruct (lo_stored _ _ _ Hl) as (o & Ho & _ & Er), (lo_stored _ _ _ Hl') as (o' & Ho' & _ & Er').
  rewrite (lo_address _ _ _ Hl), (lo_address _ _ _ Hl'). rewrite E in Ho. congruence.
Qed.

Lemma held_cached s s' select K k : session_ok s -> holds_stored s select K s' -> k ∈ K ->
  ss_documents s !! ld_addressId k.1 = Some k.1 /\ is_Some (ss_holds s !! ld_id k.1) /\ select (ld_id k.1) = true.
Proof.
  intros Hs Ht Hk. destruct (ht_stored _ _ _ _ Ht) as (L & HK & _ & HL). destruct (elem_stored _ _ _ _ HK Hk) as ([i h] & Hi & Hx).
  destruct (stored_value s _ k Hs Hx) as (_ & _ & _ & _ & _ & _ & _ & _ & _ & Ea). destruct Hx as (Hh & Hd & Eid & _). cbn in *.
  rewrite Ea, Eid. split; [done|]. split; [by eexists|]. by apply (HL i h).
Qed.
