(* ===== verification/TransactionFacts.v ===== *)
(** The invariant of a transaction (durable/src/session/transaction.ts), which the Session
    may go on under. *)
From S2P Require Import Prelude JsString Json DeltaOp DeltaApply DeltaPending StorageTypes SortedIds MemoryCommit DocumentFacts TableFacts MemoryFacts MemoryRead MemoryHistory SessionTypes SessionTransaction SessionCommit BatchFacts SessionInvariant.

Abbreviation stored_state s := (state (ss_storage s)).
Abbreviation stored_docs s := (documents (document_tables (state (ss_storage s)))).

Definition entry_created (e : DocumentEntry) : option DocumentCreate :=
  match de_target e with Some (TCreated c _ _) | Some (TForkCopy c _) => Some c | _ => None end.

Definition entry_existing (e : DocumentEntry) : option N :=
  match de_target e with Some (TLoaded d) => Some (ld_id d) | Some (TRetireOnly r) => Some (dc_id (d_create r)) | _ => None end.

Definition created_tasks (tasks : list (N * option (bool * TaskRecord))) : list N :=
  omap (fun x => match x.2 with Some (true, _) => Some x.1 | _ => None end) tasks.

(** The IDs that the transaction minted for records. *)
Definition tx_ids (tx : Transaction) : list N :=
  (claims (tx_writes tx)).*1 ++ created_tasks (tx_tasks tx) ++ (tx_submissions tx).*1 ++
  (dc_id <$> omap entry_created (tx_documents tx)).

Definition fresh_id (s : SessionState) (id : N) : Prop := recordTypes (stored_state s) !! id = None /\ (id < nextId (ss_storage s))%N.

Definition owner_staged (s : SessionState) (tx : Transaction) (scope : Scope) : Prop :=
  match scope with
  | ScopeSession => True
  | ScopeConversation c => c ∈ tx_createdConversations tx \/ is_Some (conversations_of (stored_state s) !! c)
  | ScopeTask id => is_Some (task_write tx id) \/ exists r, tasks_of (stored_state s) !! id = Some r /\ t_status r <> terminal
  end.

Definition target_ok (s : SessionState) (tx : Transaction) (e : DocumentEntry) : Prop :=
  match de_target e with
  | None => de_retireOnCommit e = true /\ de_change e = None
  | Some (TLoaded d) =>
      ss_documents s !! de_addressId e = Some d /\
      exists definition p, de_definition e = Some definition /\ de_change e = Some p /\
        performs (ld_value d) (pr_ops p) (pr_value p) /\ ld_valueVersion d = df_version definition
  | Some (TCreated c _ value) =>
      address_of c = de_address e /\ create_ok c /\ owner_staged s tx (dc_scope c) /\
      exists p, de_change e = Some p /\ performs value (pr_ops p) (pr_value p)
  | Some (TForkCopy c source) =>
      address_of c = de_address e /\ create_ok c /\ owner_staged s tx (dc_scope c) /\ dc_fork c <> Some ForkInitial /\
      copy_fits (document_tables (stored_state s)) c source /\ cs_id source ∈ tx_forkDocuments tx /\ de_change e = None
  | Some (TRetireOnly r) =>
      de_retireOnCommit e = true /\ de_change e = None /\ address_of (d_create r) = de_address e /\
      exists o, stored_docs s !! dc_id (d_create r) = Some o /\ live o /\ st_record o = r
  end.

Definition entry_ok (s : SessionState) (tx : Transaction) (e : DocumentEntry) : Prop :=
  de_addressId e = addressId (de_address e) /\ target_ok s tx e.

(** The live document at the address of an entry has an entry. *)
Definition covered (s : SessionState) (entries : list DocumentEntry) (address : DocumentAddress) : Prop :=
  forall id o, stored_docs s !! id = Some o -> live o -> address_of (d_create (st_record o)) = address ->
    exists e, e ∈ entries /\ entry_existing e = Some id.

Record tx_ok (s : SessionState) (tx : Transaction) : Prop := {
  to_ids : NoDup (tx_ids tx);
  to_fresh : Forall (fresh_id s) (tx_ids tx);
  to_writes : forall w, w ∈ tx_writes tx -> (exists c, w = WConversation c) \/ exists e, w = WEntry e;
  to_created : forall c, c ∈ tx_createdConversations tx <-> exists r, WConversation r ∈ tx_writes tx /\ c_id r = c;
  to_keys : NoDup ((tx_tasks tx).*1);
  to_tasks : forall id created r, (id, Some (created, r)) ∈ tx_tasks tx -> t_id r = id;
  to_submissions : forall id r, (id, r) ∈ tx_submissions tx -> s_id r = id;
  to_entries : forall e, e ∈ tx_documents tx -> entry_ok s tx e;
  to_latest : forall id j, tx_latest tx !! id = Some j -> exists e, tx_documents tx !! j = Some e /\ de_addressId e = id;
  to_last : forall i e, tx_documents tx !! i = Some e ->
    exists j, tx_latest tx !! de_addressId e = Some j /\ i <= j /\ (i < j -> de_retireOnCommit e = true);
  to_existing : NoDup (omap entry_existing (tx_documents tx));
  to_covered : forall e, e ∈ tx_documents tx -> covered s (tx_documents tx) (de_address e);
}.

(** ** Sessions that go on under a transaction *)

Definition same_tables (st st' : State) : Prop := forall id : N,
  conversations_of st' !! id = conversations_of st !! id /\ entries_of st' !! id = entries_of st !! id /\
  tasks_of st' !! id = tasks_of st !! id /\ submissions_of st' !! id = submissions_of st !! id.

(** A batch without records keeps the tables. *)
Lemma tables_kept m ws m' : batch_effect m ws m' -> claims ws = [] -> same_tables (state m) (state m').
Proof.
  intros He Hcl id.
  assert (Hno : forall {R} (id_of : R -> N) (pick : StorageWrite -> option R) table,
    (forall w v, pick w = Some v -> claim w = Some (id_of v, table)) ->
    written id_of pick id (prepared_write (document_tables (state m)) <$> ws) = None).
  { intros R id_of pick table Hp. destruct (written _ _ _ _) as [v|] eqn:E; [exfalso|done].
    assert (Hin : (id, table) ∈ claims ws) by (eapply written_claim; [exact Hp|by eexists]). rewrite Hcl in Hin. by apply elem_of_nil in Hin. }
  destruct (be_records _ _ _ He id) as (E1 & E2 & E3 & E4).
  rewrite E1, E2, E3, E4, (Hno _ _ _ TConversation), (Hno _ _ _ TEntry), (Hno _ _ _ TTask), (Hno _ _ _ TSubmission); [done|..]; by intros [] v [= ->].
Qed.

Record continues (s s' : SessionState) (entries : list DocumentEntry) : Prop := {
  cn_ok : session_ok s';
  cn_types : forall id : N, recordTypes (stored_state s) !! id = None -> recordTypes (stored_state s') !! id = None;
  cn_next : (nextId (ss_storage s) <= nextId (ss_storage s'))%N;
  cn_record : forall (id : N) o, stored_docs s !! id = Some o -> exists o', stored_docs s' !! id = Some o' /\ st_record o' = st_record o;
  cn_back : forall (id : N) o', stored_docs s' !! id = Some o' -> exists o, stored_docs s !! id = Some o /\ st_record o = st_record o';
  cn_owner : forall scope, owner_stored (stored_state s) scope -> owner_stored (stored_state s') scope;
  cn_tables : same_tables (stored_state s) (stored_state s');
  cn_cached : forall e, e ∈ entries -> ss_documents s' !! de_addressId e = ss_documents s !! de_addressId e;
  cn_copies : forall c source, dc_fork c <> Some ForkInitial -> copy_fits (document_tables (stored_state s)) c source ->
    copy_fits (document_tables (stored_state s')) c source;
}.

Lemma continues_refl s entries : session_ok s -> continues s s entries.
Proof. intros Hs. constructor; try done; eauto. Qed.

Lemma fresh_continues s s' entries id : continues s s' entries -> fresh_id s id -> fresh_id s' id.
Proof. intros Hc [H1 H2]. split; [by apply (cn_types _ _ _ Hc)|]. pose proof (cn_next _ _ _ Hc). lia. Qed.

Lemma staged_continues s s' entries tx scope : continues s s' entries -> owner_staged s tx scope -> owner_staged s' tx scope.
Proof.
  intros Hc. destruct scope as [|c|t]; cbn; [done| |].
  - intros [|H]; [by left|right]. by apply (cn_owner _ _ _ Hc (ScopeConversation c)).
  - intros [|H]; [by left|right]. by apply (cn_owner _ _ _ Hc (ScopeTask t)).
Qed.

Lemma entry_continues s s' entries tx e : continues s s' entries -> e ∈ entries -> entry_ok s tx e -> entry_ok s' tx e.
Proof.
  intros Hc He [Ha Ht]. split; [done|]. unfold target_ok in *. destruct (de_target e) as [[d|c v value|c source|r]|]; [| | | |done].
  - by rewrite (cn_cached _ _ _ Hc e He).
  - destruct Ht as (H1 & H2 & H3 & H4). split_and!; try done. by eapply staged_continues.
  - destruct Ht as (H1 & H2 & H3 & H4 & H5 & H6). split_and!; try done; [by eapply staged_continues|by apply (cn_copies _ _ _ Hc)|apply H6..].
  - destruct Ht as (H1 & H2 & H3 & o & Ho & Hl & Er). split_and!; try done. destruct (cn_record _ _ _ Hc _ o Ho) as (o' & Ho' & E).
    exists o'. unfold live in *. split_and!; [done|congruence..].
Qed.

Lemma covered_continues s s' entries address es : continues s s' entries -> covered s es address -> covered s' es address.
Proof.
  intros Hc Hcov id o' Ho' Hl Ha. destruct (cn_back _ _ _ Hc id o' Ho') as (o & Ho & E). apply (Hcov id o Ho).
  - unfold live in *. congruence.
  - congruence.
Qed.

Lemma tx_continues s s' tx : continues s s' (tx_documents tx) -> tx_ok s tx -> tx_ok s' tx.
Proof.
  intros Hc []. constructor; try done.
  - eapply Forall_impl; [done|]. intros id. by eapply fresh_continues.
  - intros e He. eapply entry_continues; [done..|by auto].
  - intros e He. eapply covered_continues; [done|by auto].
Qed.

Lemma of_storage_Ok {A} (r : sres A) a : of_storage r = Ok a <-> r = Ok a.
Proof. destruct r; cbn; [|done]. split; by intros [= ->]. Qed.

Lemma mint_spec s s' id : mint s = Ok (s', id) -> 
  ss_storage s' = {| state := stored_state s; nextId := id + 1; nextSeq := nextSeq (ss_storage s); closed := closed (ss_storage s) |} /\
  id = nextId (ss_storage s) /\ s' = with_storage (ss_storage s') s.
Proof. unfold mint. intros H. inv_res. apply of_storage_Ok in Hv. unfold mintId in Hv. inv_res. done. Qed.

Lemma session_mint_ok s s' id : session_ok s -> mint s = Ok (s', id) -> session_ok s'.
Proof.
  intros Hs Hm. pose proof Hm as (Em & -> & Es)%mint_spec. destruct (se_storage _ Hs) as [H1 H2 H3 H4 H5 H6 H7].
  assert (Hst : storage_ok (ss_storage s')).
  { unfold mint in Hm. inv_res. apply of_storage_Ok in Hv. destruct v as [m1 i].
    pose proof (mint_inv _ _ _ Hv H1) as Hi. cbn in Em. rewrite Em in Hi.
    assert (Hsafe : (Z.of_N (nextId (ss_storage s)) <= MAX_SAFE_INTEGER)%Z).
    { unfold mintId in Hv. destruct (assertOpen _); [|done]. cbn in Hv. by destruct (Z.leb_spec (Z.of_N (nextId (ss_storage s))) MAX_SAFE_INTEGER). }
    constructor; rewrite Em; try done. cbn. lia. }
  rewrite Es. constructor; cbn [with_storage ss_storage ss_documents ss_holds ss_taskDocuments]; [done| |apply Hs|].
  - intros id d Hd. apply (loaded_stable s); [by apply Hs|by rewrite <- Es, Em..|done].
  - intros t known Hk. pose proof (se_tasks _ Hs t known Hk). unfold indexed in *. by rewrite Em.
Qed.

Lemma mint_continues s s' id entries : session_ok s -> mint s = Ok (s', id) -> continues s s' entries.
Proof.
  intros Hs Hm. pose proof (session_mint_ok _ _ _ Hs Hm) as Hs'. apply mint_spec in Hm as (Em & -> & Es).
  constructor; rewrite ?Em; cbn; try done; eauto; [lia|]. intros e _. by rewrite Es.
Qed.

(** The minted ID is new. *)
Lemma mint_new s s' id ids : session_ok s -> mint s = Ok (s', id) -> Forall (fresh_id s) ids -> fresh_id s' id /\ id ∉ ids.
Proof.
  intros Hs Hm Hf. apply mint_spec in Hm as (Em & -> & Es). split.
  - unfold fresh_id. rewrite Em. cbn. split; [|lia].
    destruct (recordTypes (stored_state s) !! nextId (ss_storage s)) as [t|] eqn:E; [|done].
    apply (si_next _ _ _ _ (so_inv _ (se_storage _ Hs))) in E. lia.
  - intros Hin. rewrite Forall_forall in Hf. destruct (Hf _ Hin) as [_ Hlt]. lia.
Qed.

(** ** Loading *)

Lemma copy_fits_same t t' c source : documents t' !! cs_id source = documents t !! cs_id source -> copy_fits t c source -> copy_fits t' c source.
Proof. intros E (stored & Hm & H). exists stored. split; [|done]. unfold materializeDocument in *. by rewrite E. Qed.

Lemma stored_continues s select K s' entries : session_ok s -> holds_stored s select K s' ->
  (forall k e, k ∈ K -> e ∈ entries -> de_addressId e <> ld_addressId k.1) -> continues s s' entries.
Proof.
  intros Hs Ht Hne. destruct (stored_writes_shape K) as (E1 & E2 & E3 & E4). pose proof (se_storage _ Hs) as Hst.
  pose proof (ht_effect _ _ _ _ Ht) as He. constructor.
  - by eapply storeHolds_ok.
  - intros id Hn. apply (effect_types _ _ _ id (so_inv _ Hst) He Hn). rewrite E1. by intros []%elem_of_nil.
  - apply (be_next _ _ _ He).
  - intros id o Ho. by eapply stored_record.
  - intros id o' Ho'. by eapply stored_record_back.
  - intros scope. by apply (owner_kept _ _ _ _ He).
  - by apply (tables_kept _ _ _ He).
  - intros e Hin. rewrite (ht_documents _ _ _ _ Ht). destruct (ht_stored _ _ _ _ Ht) as (L & HK & Hnd & _).
    apply (counted_lookup K (ss_documents s) (de_addressId e) (stored_addresses s L K Hs HK Hnd)).
    intros (k & Ek & Hk)%list_elem_of_fmap. by apply (Hne k e Hk Hin).
  - intros c source Hf Hc. eapply copy_fits_same; [|exact Hc]. apply (effect_other _ _ _ He); [|rewrite E3; by intros []%elem_of_nil].
    rewrite E2. intros (k & Ek & Hk)%list_elem_of_fmap. destruct (held_elem s s' select K Ht k Hk) as (x & Hx).
    destruct Hx as (Hh & Hd & Hi & _). pose proof (se_documents _ Hs _ _ Hd) as Hl. destruct (lo_content _ _ _ Hl) as (x0 & _ & _ & Hv).
    unfold stored_value_ok in Hv. rewrite Hi, Hh in Hv. destruct Hv as (_ & _ & (_ & _ & Hfork) & _).
    destruct Hc as (stored & Hm & _ & _ & _ & _ & _ & Ef). apply Hf. rewrite <- Ef, <- Hfork.
    destruct (lo_stored _ _ _ Hl) as (o & Ho & _ & Er). unfold materializeDocument in Hm. rewrite Ek, Ho in Hm.
    inv_res. destruct (isAliveAt _ _); [|done]. destruct (base_index _ _) as [b|]; [|done].
    destruct (_ !! b) as [[vv [y|]]|]; try done. inv_res. cbn. by rewrite Er.
Qed.

Lemma continues_trans s1 s2 s3 entries : continues s1 s2 entries -> continues s2 s3 entries -> continues s1 s3 entries.
Proof.
  intros [A1 A2 A3 A4 A5 A6 A9 A7 A8] [B1 B2 B3 B4 B5 B6 B9 B7 B8]. constructor; try done; eauto; [lia|..].
  - intros id o Ho. destruct (A4 id o Ho) as (o2 & H2 & E2). destruct (B4 id o2 H2) as (o3 & H3 & E3). exists o3. by rewrite E3.
  - intros id o Ho. destruct (B5 id o Ho) as (o2 & H2 & E2). destruct (A5 id o2 H2) as (o3 & H3 & E3). exists o3. by rewrite E3.
  - intros id. destruct (A9 id) as (<- & <- & <- & <-). apply B9.
  - intros e He. by rewrite B7, A7.
Qed.

Lemma documents_continues s documents entries : session_ok s -> session_ok (with_documents documents s) ->
  (forall e, e ∈ entries -> documents !! de_addressId e = ss_documents s !! de_addressId e) -> continues s (with_documents documents s) entries.
Proof. intros Hs Hs' Hd. constructor; try done; eauto. Qed.

Lemma drop_ok s id : session_ok s -> no_hold s id -> session_ok (with_documents (delete id (ss_documents s)) s).
Proof.
  intros Hs Hn. constructor; [apply Hs| | |apply Hs].
  - intros i d. cbn. intros [Hne Hd]%lookup_delete_Some. apply (loaded_stable s); [by apply Hs|done..].
  - intros i h Hh. cbn. destruct (se_holds _ Hs i h Hh) as (d & Hd & Hi). exists d. split; [|done].
    rewrite lookup_delete_ne; [done|]. intros E. by apply (Hn i h).
Qed.


Lemma loadDocument_ok s definition id address s' r entries : session_ok s -> id = addressId address ->
  (forall e, e ∈ entries -> de_addressId e <> id) ->
  loadDocument s definition id address = Ok (s', r) ->
  continues s s' entries /\
  match r with
  | None => forall i o, stored_docs s' !! i = Some o -> live o -> address_of (d_create (st_record o)) <> address
  | Some d => ss_documents s' !! id = Some d /\ ld_valueVersion d = df_version definition /\ address_of (d_create (ld_record d)) = address
  end.
Proof.
  intros Hs Hid Hne H. unfold loadDocument in H.
  assert (Hcold : forall s1, session_ok s1 -> continues s s1 entries -> ss_documents s1 !! id = None ->
    coldLoad s1 definition id address = Ok (s', r) ->
    continues s s' entries /\
    match r with
    | None => forall i o, stored_docs s' !! i = Some o -> live o -> address_of (d_create (st_record o)) <> address
    | Some d => ss_documents s' !! id = Some d /\ ld_valueVersion d = df_version definition /\ address_of (d_create (ld_record d)) = address
    end).
  { intros s1 Hs1 Hc1 Hn Hcold. pose proof (coldLoad_ok s1 definition id address s' r Hs1 Hn Hid Hcold) as Hok. destruct r as [d|].
    - destruct Hok as (E & Hs' & Hv & Ha & _). split; [|split_and!; [rewrite E; cbn; by rewrite lookup_insert_eq|done..]].
      eapply continues_trans; [exact Hc1|]. rewrite E. apply documents_continues; [done|by rewrite <- E|].
      intros e He. rewrite lookup_insert_ne; [done|]. intros E'. by apply (Hne e He).
    - by destruct Hok as [-> Hno]. }
  destruct (ss_documents s !! id) as [cached|] eqn:Ed; [|by apply (Hcold s); [..|apply continues_refl|done|]].
  destruct (N.eqb_spec (ld_valueVersion cached) (df_version definition)) as [Ev|Hv].
  { injection H as <- <-. split; [by apply continues_refl|]. split_and!; [done..|]. symmetry. by eapply cached_live. }
  destruct (storeHolds s (fun i => (i =? ld_id cached)%N)) as [s1|] eqn:Es; [|done]. cbn [mbind res_bind] in H.
  assert (Hs1 : session_ok s1 /\ continues s s1 entries /\ no_hold s1 id).
  { assert (Hown : forall i h, ss_holds s !! i = Some h -> h_addressId h = id -> i = ld_id cached).
    { intros i h Hh Eh. destruct (se_holds _ Hs i h Hh) as (d & Hd & <-). congruence. }
    destruct (storeHolds_stored s _ s1 Hs Es) as [[-> Hsel]|(K & Ht)].
    - split_and!; [done|by apply continues_refl|]. intros i h Hh Eh. pose proof (Hown i h Hh Eh) as ->.
      specialize (Hsel _ h Hh). by rewrite N.eqb_refl in Hsel.
    - split; [by eapply storeHolds_ok|]. split.
      + apply (stored_continues s (fun i => (i =? ld_id cached)%N) K); [done..|]. intros k e Hk He E. destruct (held_cached _ _ _ _ k Hs Ht Hk) as (Hd & _ & Hsel%N.eqb_eq).
        apply (Hne e He). rewrite E. by eapply cached_by_id.
      + intros i h Hh Eh. rewrite (ht_holds _ _ _ _ Ht) in Hh. case_decide as Hn; [done|]. pose proof (Hown i h Hh Eh) as ->.
        apply Hn. destruct (ht_stored _ _ _ _ Ht) as (L & HK & _ & HL). rewrite (stored_ids_eq _ _ _ HK). apply list_elem_of_fmap.
        exists (ld_id cached, h). split; [done|]. apply HL. by rewrite N.eqb_refl. }
  destruct Hs1 as (Hs1 & Hc1 & Hnh). pose proof (drop_ok s1 id Hs1 Hnh) as Hs2.
  apply (Hcold _ Hs2); [|by cbn; rewrite lookup_delete_eq|done].
  eapply continues_trans; [exact Hc1|]. apply documents_continues; [done..|]. intros e He. rewrite lookup_delete_ne; [done|].
  intros E. by apply (Hne e He).
Qed.
