(* ===== verification/TransactionDocuments.v ===== *)
(** The operations of a transaction (durable/src/session/transaction.ts and forks.ts): those
    on tables, drafts and retirements keep its invariant; a fork copies the parent's
    documents, with new IDs at addresses of the child, and which ones. *)
From S2P Require Import Prelude JsString Json DeltaOp DeltaApply DeltaPending StorageTypes SortedIds MemoryCommit DocumentFacts TableFacts MemoryFacts MemoryRead ReadFacts MemoryHistory SessionTypes SessionTransaction SessionCommit BatchFacts SessionInvariant TransactionFacts.
From Stdlib Require Import Sorted.

(** ** Maps in insertion order *)

Section Alist.
Context {A : Type}.
Implicit Types (l : list (N * A)).

Lemma alist_get_None id l : alist_get id l = None <-> id ∉ l.*1.
Proof.
  induction l as [|[i a] l IH]; cbn; [split; [by intros _ []%elem_of_nil|done]|].
  destruct (N.eqb_spec id i) as [->|Hne]; [split; [done|intros H; destruct H; left]|]. rewrite IH. set_solver.
Qed.

Lemma alist_get_elem id a l : alist_get id l = Some a -> (id, a) ∈ l.
Proof. induction l as [|[i b] l IH]; cbn; [done|]. destruct (N.eqb_spec id i) as [->|]; [intros [= ->]; left|right; by apply IH]. Qed.

Lemma alist_elem_get id a l : NoDup (l.*1) -> (id, a) ∈ l -> alist_get id l = Some a.
Proof.
  induction l as [|[i b] l IH]; cbn; [by intros _ []%elem_of_nil|]. intros [Hn Hnd]%NoDup_cons [[= -> ->]|Hin]%elem_of_cons.
  - by rewrite N.eqb_refl.
  - destruct (N.eqb_spec id i) as [->|]; [|by apply IH]. exfalso. apply Hn, list_elem_of_fmap. by exists (i, a).
Qed.

Lemma alist_set_new id a l : id ∉ l.*1 -> alist_set id a l = l ++ [(id, a)].
Proof.
  induction l as [|[i b] l IH]; cbn; [done|]. intros Hn. destruct (N.eqb_spec id i) as [->|]; [set_solver|]. rewrite IH; [done|set_solver].
Qed.

Lemma alist_set_keys id a l : (alist_set id a l).*1 = l.*1 ++ (if decide (id ∈ l.*1) then [] else [id]).
Proof.
  destruct (decide (id ∈ l.*1)) as [Hin|Hn]; [|by rewrite alist_set_new, fmap_app by done].
  rewrite app_nil_r. induction l as [|[i b] l IH]; [by apply elem_of_nil in Hin|]. cbn in *. destruct (N.eqb_spec id i) as [->|]; [done|].
  cbn. f_equal. apply IH. set_solver.
Qed.

Lemma alist_set_elem id a l x : NoDup (l.*1) -> x ∈ alist_set id a l -> x = (id, a) \/ (x ∈ l /\ x.1 <> id).
Proof.
  intros Hnd. induction l as [|[i b] l IH]; cbn; [intros ->%list_elem_of_singleton; by left|]. cbn in Hnd. apply NoDup_cons in Hnd as [Hn Hnd].
  destruct (N.eqb_spec id i) as [->|Hne].
  - intros [->|Hx]%elem_of_cons; [by left|right]. split; [by right|]. intros <-. apply Hn. by apply list_elem_of_fmap_2.
  - intros [->|Hx]%elem_of_cons; [right; split; [left|done]|]. destruct (IH Hnd Hx) as [|[? ?]]; [by left|right; split; [by right|done]].
Qed.

Lemma alist_get_set id a l i : alist_get i (alist_set id a l) = if decide (i = id) then Some a else alist_get i l.
Proof.
  induction l as [|[j b] l IH]; cbn.
  - destruct (N.eqb_spec i id); by case_decide.
  - destruct (N.eqb_spec id j) as [->|Hne]; cbn.
    + destruct (N.eqb_spec i j); by case_decide.
    + destruct (N.eqb_spec i j) as [->|]; [by rewrite decide_False by done|done].
Qed.
End Alist.

(** ** Changing a transaction *)

Lemma entry_change s tx tx' e : (forall scope, owner_staged s tx scope -> owner_staged s tx' scope) ->
  tx_forkDocuments tx ⊆ tx_forkDocuments tx' -> entry_ok s tx e -> entry_ok s tx' e.
Proof.
  intros Ho Hf [Ha Ht]. split; [done|]. unfold target_ok in *. destruct (de_target e) as [[d|c v value|c source|r]|]; try done.
  - destruct Ht as (H1 & H2 & H3 & H4). split_and!; auto.
  - destruct Ht as (H1 & H2 & H3 & H4 & H5 & H6 & H7). split_and!; auto.
Qed.

(** Tables are staged, and documents stay. *)
Lemma tx_tables s tx tx' :
  tx_ok s tx -> NoDup (tx_ids tx') -> Forall (fresh_id s) (tx_ids tx') ->
  (forall w, w ∈ tx_writes tx' -> (exists c, w = WConversation c) \/ exists e, w = WEntry e) ->
  (forall c, c ∈ tx_createdConversations tx' <-> exists r, WConversation r ∈ tx_writes tx' /\ c_id r = c) ->
  NoDup ((tx_tasks tx').*1) -> (forall id created r, (id, Some (created, r)) ∈ tx_tasks tx' -> t_id r = id) ->
  (forall id r, (id, r) ∈ tx_submissions tx' -> s_id r = id) ->
  (forall scope, owner_staged s tx scope -> owner_staged s tx' scope) -> tx_forkDocuments tx ⊆ tx_forkDocuments tx' ->
  tx_documents tx' = tx_documents tx -> tx_latest tx' = tx_latest tx -> tx_ok s tx'.
Proof.
  intros [] H1 H2 H3 H4 H5 H6 H7 H8 H9 E1 E2. constructor; rewrite ?E1, ?E2; try done.
  intros e He. eapply entry_change; [done..|by auto].
Qed.

Lemma table_write_ok s tx : tx_ok s tx -> tx_ok s (table_write tx).
Proof. intros H. pose proof H as []. by apply (tx_tables s tx). Qed.

Lemma created_tasks_set id w (tasks : list (N * option (bool * TaskRecord))) :
  NoDup (tasks.*1) ->
  match w with
  | Some (true, _) => id ∉ created_tasks tasks -> created_tasks (alist_set id w tasks) ≡ₚ id :: created_tasks tasks
  | _ => (forall r, alist_get id tasks <> Some (Some (true, r))) -> created_tasks (alist_set id w tasks) = created_tasks tasks
  end.
Proof.
  intros Hnd. induction tasks as [|[i b] tasks IH]; cbn.
  { destruct w as [[[] r]|]; done. }
  cbn in Hnd. apply NoDup_cons in Hnd as [Hn Hnd]. specialize (IH Hnd). destruct (N.eqb_spec id i) as [->|Hne].
  - unfold created_tasks. destruct w as [[[] r]|]; destruct b as [[[] r']|]; cbn; try done.
    + intros H. destruct H. left.
    + intros H. by destruct (H r').
    + intros H. by destruct (H r').
  - unfold created_tasks in *. cbn. destruct w as [[[] r]|]; destruct b as [[[] r']|]; cbn; intros H; try (by rewrite IH).
    rewrite IH by set_solver. by rewrite Permutation_swap.
Qed.

(** ** Reading and creating *)

Lemma claims_app ws ws' : claims (ws ++ ws') = claims ws ++ claims ws'.
Proof. apply omap_app. Qed.

Lemma touch_task_spec id tx :
  (forall i, task_write (touch_task id tx) i = task_write tx i) /\ tx_ids (touch_task id tx) = tx_ids tx \/ ~ NoDup ((tx_tasks tx).*1).
Proof.
  destruct (decide (NoDup ((tx_tasks tx).*1))) as [Hnd|]; [left|by right]. unfold touch_task.
  destruct (alist_get id (tx_tasks tx)) as [w|] eqn:E; [done|]. split.
  - intros i. unfold task_write. cbn. rewrite alist_get_set. case_decide as Hd; [subst; by rewrite E|done].
  - pose proof (created_tasks_set id None (tx_tasks tx) Hnd) as H. cbv iota beta in H. unfold tx_ids. cbn [tx_tasks with_tasks tx_writes tx_submissions tx_documents].
    rewrite H by congruence. done.
Qed.

Lemma touch_task_ok s tx id : tx_ok s tx -> tx_ok s (touch_task id tx).
Proof.
  intros Htx. pose proof Htx as []. destruct (touch_task_spec id tx) as [[Hw Hids]|Hn]; [|by destruct Hn].
  apply (tx_tables s tx); rewrite ?Hids; try done; unfold touch_task in *; destruct (alist_get id (tx_tasks tx)) as [w|] eqn:E; try done; cbn in *.
  - rewrite alist_set_keys. apply alist_get_None in E. rewrite decide_False by done. apply NoDup_app. split; [done|].
    split; [|apply NoDup_singleton]. intros i Hi ->%list_elem_of_singleton. done.
  - intros i c r Hin. apply alist_set_elem in Hin as [[=]|[Hin _]]; [|done]. by apply (to_tasks i c r).
  - intros [|c|t]; cbn; [done..|]. intros [Ht|Ht]; [left|by right]. unfold task_write in *. cbn. by rewrite Hw.
Qed.

Lemma touch_documents id tx : tx_documents (touch_task id tx) = tx_documents tx /\ tx_latest (touch_task id tx) = tx_latest tx /\
  tx_writes (touch_task id tx) = tx_writes tx /\ tx_createdConversations (touch_task id tx) = tx_createdConversations tx /\
  tx_forkDocuments (touch_task id tx) = tx_forkDocuments tx.
Proof. unfold touch_task. by destruct (alist_get _ _). Qed.

Lemma ids_add (id : N) (ids ids' : list N) s : ids' ≡ₚ id :: ids -> NoDup ids -> Forall (fresh_id s) ids -> fresh_id s id -> id ∉ ids ->
  NoDup ids' /\ Forall (fresh_id s) ids'.
Proof. intros -> H1 H2 H3 H4. split; by constructor. Qed.

(** A transaction under a minted ID. *)
Lemma mint_tx s s' id tx : session_ok s -> tx_ok s tx -> mint s = Ok (s', id) ->
  tx_ok s' tx /\ continues s s' (tx_documents tx) /\ fresh_id s' id /\ id ∉ tx_ids tx.
Proof.
  intros Hs Htx Hm. pose proof (mint_continues _ _ _ (tx_documents tx) Hs Hm) as Hc.
  split; [by eapply tx_continues|]. split; [done|]. eapply mint_new; [done..|]. apply Htx.
Qed.

(** [appendEntry] *)
Lemma add_entry_ok s tx r : tx_ok s tx -> fresh_id s (e_id r) -> e_id r ∉ tx_ids tx -> tx_ok s (add_write (WEntry r) tx).
Proof.
  intros Htx Hf Hn. pose proof Htx as [].
  destruct (ids_add (e_id r) (tx_ids tx) (tx_ids (add_write (WEntry r) tx)) s) as [H1 H2]; try done.
  { unfold tx_ids. cbn. rewrite claims_app, fmap_app. cbn. rewrite <- app_assoc. symmetry. apply Permutation_middle. }
  apply (tx_tables s tx); try done; cbn.
  - intros w [Hw| ->%list_elem_of_singleton]%elem_of_app; [by auto|right; by eexists].
  - intros c. rewrite to_created. split; intros (x & Hx & Hc); exists x; split; try done; [apply elem_of_app; by left|].
    apply elem_of_app in Hx as [|[=]%list_elem_of_singleton]; done.
Qed.

Lemma appendEntry_ok s tx conversationId value s' tx' : session_ok s -> tx_ok s tx ->
  appendEntry s tx conversationId value = Ok (s', tx') -> tx_ok s' tx' /\ continues s s' (tx_documents tx).
Proof.
  intros Hs Htx%table_write_ok H. unfold appendEntry in H. inv_res. destruct v0 as [s1 id].
  destruct (mint_tx s s1 id _ Hs Htx Hv0) as (Htx1 & Hc & Hf & Hn). split; [|done]. by apply add_entry_ok.
Qed.

(** [createSubmission] *)
Lemma createSubmission_ok s tx create s' tx' : session_ok s -> tx_ok s tx ->
  createSubmission s tx create = Ok (s', tx') -> tx_ok s' tx' /\ continues s s' (tx_documents tx).
Proof.
  intros Hs Htx%table_write_ok H. unfold createSubmission in H. inv_res. destruct v0 as [s1 id].
  destruct (mint_tx s s1 id _ Hs Htx Hv0) as (Htx1 & Hc & Hf & Hn). split; [|done]. pose proof Htx1 as [].
  assert (Hk : id ∉ (tx_submissions tx).*1) by (intros Hi; apply Hn; unfold tx_ids; cbn; set_solver).
  cbn [fst snd]. match goal with |- tx_ok s1 ?t => destruct (ids_add id (tx_ids (table_write tx)) (tx_ids t) s1) as [H1 H2] end; try done.
  { unfold tx_ids. cbn. rewrite alist_set_new, fmap_app by done. cbn. 
    rewrite !app_assoc. rewrite <- (app_assoc _ [id]). symmetry. apply Permutation_middle. }
  apply (tx_tables s1 (table_write tx)); try done; cbn.
  rewrite alist_set_new by done. intros i r [Hi|[= -> ->]%list_elem_of_singleton]%elem_of_app; [by eapply to_submissions|done].
Qed.

Lemma changeSubmission_ok s tx id change : tx_ok s tx -> tx_ok s (changeSubmission tx id change).
Proof. intros Htx%table_write_ok. pose proof Htx as []. by apply (tx_tables s (table_write tx)). Qed.

(** ** Tasks *)

Lemma set_task_ok s tx id created r : tx_ok s tx -> t_id r = id ->
  (forall ids, ids = tx_ids (with_tasks (alist_set id (Some (created, r)) (tx_tasks tx)) tx) -> NoDup ids /\ Forall (fresh_id s) ids) ->
  tx_ok s (with_tasks (alist_set id (Some (created, r)) (tx_tasks tx)) tx).
Proof.
  intros Htx Hr Hids. pose proof Htx as []. destruct (Hids _ eq_refl) as [H1 H2]. apply (tx_tables s tx); try done; cbn.
  - rewrite alist_set_keys. apply NoDup_app. split; [done|]. case_decide; split; [by intros ? ? []%elem_of_nil|constructor| |apply NoDup_singleton].
    by intros i Hi ->%list_elem_of_singleton.
  - intros i c r' Hin. apply alist_set_elem in Hin as [[= -> -> ->]|[Hin _]]; [done|by apply (to_tasks i c r')|done].
  - intros [|c|t]; cbn; [done..|]. intros [Ht|Ht]; [left|by right]. unfold task_write in *. cbn. rewrite alist_get_set.
    case_decide; [by eexists|done].
Qed.

Lemma tx_ids_tasks tasks tx : created_tasks tasks ≡ₚ created_tasks (tx_tasks tx) -> tx_ids (with_tasks tasks tx) ≡ₚ tx_ids tx.
Proof. intros H. unfold tx_ids. cbn [tx_tasks with_tasks tx_writes tx_submissions tx_documents]. by rewrite H. Qed.

Lemma new_task_ok s tx id r : tx_ok s tx -> t_id r = id -> fresh_id s id -> id ∉ tx_ids tx ->
  tx_ok s (with_tasks (alist_set id (Some (true, r)) (tx_tasks tx)) tx).
Proof.
  intros Htx Hr Hf Hn. apply set_task_ok; [done..|]. intros ids ->. apply (ids_add id (tx_ids tx)); [|apply Htx|apply Htx|done..].
  pose proof (created_tasks_set id (Some (true, r)) (tx_tasks tx) (to_keys _ _ Htx)) as H. cbv iota beta in H.
  unfold tx_ids in *. cbn [tx_tasks with_tasks tx_writes tx_submissions tx_documents]. rewrite H by set_solver.
  rewrite <- app_comm_cons. symmetry. apply Permutation_middle.
Qed.

Lemma createTask_ok s tx creation s' tx' : session_ok s -> tx_ok s tx ->
  createTask s tx creation = Ok (s', tx') -> tx_ok s' tx' /\ continues s s' (tx_documents tx).
Proof.
  intros Hs Htx%table_write_ok H. unfold createTask in H.
  destruct (match tc_submissionIds creation with Some _ => _ | None => _ end) as [traced|]; [|done]. cbn [mbind res_bind] in H.
  assert (Hown : exists tx2, tx_ok s tx2 /\ tx_documents tx2 = tx_documents tx /\
     exists conversationId v r record, requireConversation s tx2 conversationId = Ok v /\ mint s = Ok r /\
       s' = r.1 /\ tx' = with_tasks (alist_set r.2 (Some (true, record)) (tx_tasks tx2)) tx2 /\ t_id record = r.2).
  { destruct (tc_owner creation) as [n|]; inv_res.
    - exists (touch_task n (table_write tx)). split; [by apply touch_task_ok|]. destruct (touch_documents n (table_write tx)) as (-> & _).
      split; [done|]. do 4 eexists. split; [exact Hv1|]. split; [exact Hv4|]. split; [reflexivity|]. split; reflexivity.
    - exists (table_write tx). split; [done|]. split; [done|]. do 4 eexists. split; [eassumption|]. split; [eassumption|]. split; [reflexivity|]. split; reflexivity. }
  destruct Hown as (tx2 & Htx2 & E2 & c & v & [s1 id] & r & _ & Hm & -> & -> & Hr). cbn [fst snd] in *.
  destruct (mint_tx s s1 id _ Hs Htx2 Hm) as (Htx3 & Hc & Hf & Hn). rewrite <- E2. split; [|done]. by apply new_task_ok.
Qed.

Lemma created_tasks_again id r r' (tasks : list (N * option (bool * TaskRecord))) :
  alist_get id tasks = Some (Some (true, r')) -> created_tasks (alist_set id (Some (true, r)) tasks) = created_tasks tasks.
Proof.
  unfold created_tasks. induction tasks as [|[i b] tasks IH]; cbn; [done|]. destruct (N.eqb_spec id i) as [->|Hne].
  - intros [= ->]. done.
  - intros E. cbn. by rewrite (IH E).
Qed.

Lemma setTask_ok s tx now value tx' : tx_ok s tx -> setTask now tx value = Ok tx' ->
  tx_ok s tx' /\ tx_documents tx' = tx_documents tx.
Proof.
  intros Htx H. unfold setTask in H. inv_res. clear Hv v. pose proof (table_write_ok _ _ Htx) as Htx1.
  set (tx1 := touch_task (t_id value) (table_write tx)). assert (Htx2 : tx_ok s tx1) by by apply touch_task_ok.
  split; [|change (tx_documents tx1 = tx_documents tx); unfold tx1; by destruct (touch_documents (t_id value) (table_write tx)) as (-> & _)]. apply set_task_ok; [done..|]. intros ids ->.
  assert (Hw : task_write tx1 (t_id value) = task_write tx (t_id value)).
  { destruct (touch_task_spec (t_id value) (table_write tx)) as [[Hw _]|Hn]; [apply Hw|]. destruct Hn. apply Htx1. }
  rewrite <- Hw. set (r := clone _).
  assert (Hp : tx_ids (with_tasks (alist_set (t_id value)
      (Some (match task_write tx1 (t_id value) with Some (created, _) => created | None => false end, r)) (tx_tasks tx1)) tx1) ≡ₚ tx_ids tx1).
  { apply tx_ids_tasks. unfold task_write. destruct (alist_get (t_id value) (tx_tasks tx1)) as [[[[] r']|]|] eqn:E; cbn [mbind option_bind].
    - by rewrite (created_tasks_again _ _ r').
    - pose proof (created_tasks_set (t_id value) (Some (false, r)) (tx_tasks tx1) (to_keys _ _ Htx2)) as H. cbv iota beta in H. rewrite H; [done|]. congruence.
    - pose proof (created_tasks_set (t_id value) (Some (false, r)) (tx_tasks tx1) (to_keys _ _ Htx2)) as H. cbv iota beta in H. rewrite H; [done|]. congruence.
    - pose proof (created_tasks_set (t_id value) (Some (false, r)) (tx_tasks tx1) (to_keys _ _ Htx2)) as H. cbv iota beta in H. rewrite H; [done|]. congruence. }
  split; [rewrite Hp; apply Htx2|]. rewrite Hp. apply Htx2.
Qed.

(** ** Entries *)

Lemma set_push e e' tx : de_addressId e' = de_addressId e ->
  set_entry (length (tx_documents tx)) e' (push_entry e tx) = push_entry e' tx.
Proof.
  intros E. unfold set_entry, push_entry, with_entries. cbn. rewrite E. f_equal. rewrite insert_app_r_alt by lia. by rewrite Nat.sub_diag.
Qed.

Lemma touch_push id e tx : touch_task id (push_entry e tx) = push_entry e (touch_task id tx).
Proof. unfold touch_task. cbn. by destruct (alist_get id (tx_tasks tx)). Qed.

(** No entry at the address stays. *)
Definition vacated (tx : Transaction) (id : string) : Prop :=
  forall e, e ∈ tx_documents tx -> de_addressId e = id -> de_retireOnCommit e = true.

Lemma no_latest s tx id : tx_ok s tx -> tx_latest tx !! id = None -> forall e, e ∈ tx_documents tx -> de_addressId e <> id.
Proof.
  intros Htx Hn e [i Hi]%list_elem_of_lookup <-. destruct (to_last _ _ Htx i e Hi) as (j & Hj & _). congruence.
Qed.

Lemma latest_entry_Some s tx id i e : tx_ok s tx -> latest_entry tx id = Some (i, e) ->
  tx_documents tx !! i = Some e /\ de_addressId e = id /\ tx_latest tx !! id = Some i.
Proof.
  intros Htx H. unfold latest_entry in H. destruct (tx_latest tx !! id) as [j|] eqn:Ej; [|done]. cbn in H.
  destruct (to_latest _ _ Htx id j Ej) as (e' & He & E). rewrite He in H. cbn in H. injection H as <- <-. done.
Qed.

Lemma latest_entry_None s tx id : tx_ok s tx -> latest_entry tx id = None -> tx_latest tx !! id = None.
Proof.
  intros Htx H. unfold latest_entry in H. destruct (tx_latest tx !! id) as [j|] eqn:Ej; [|done]. cbn in H.
  destruct (to_latest _ _ Htx id j Ej) as (e' & He & E). by rewrite He in H.
Qed.

Lemma latest_vacated s tx id i e : tx_ok s tx -> latest_entry tx id = Some (i, e) -> de_retireOnCommit e = true -> vacated tx id.
Proof.
  intros Htx He Hr. destruct (latest_entry_Some _ _ _ _ _ Htx He) as (Hi & Eid & El). intros e' [k Hk]%list_elem_of_lookup E.
  destruct (to_last _ _ Htx k e' Hk) as (j & Hj & Hle & Hlt). rewrite E, El in Hj. injection Hj as <-.
  destruct (decide (k = i)) as [->|]; [congruence|apply Hlt; lia].
Qed.

(** The document of an entry is live, at the address of the entry. *)
Lemma existing_address s tx e i : session_ok s -> entry_ok s tx e -> entry_existing e = Some i ->
  exists o, stored_docs s !! i = Some o /\ live o /\ address_of (d_create (st_record o)) = de_address e.
Proof.
  intros Hs [Ha Ht] Hi. unfold entry_existing in Hi. unfold target_ok in Ht. destruct (de_target e) as [[d|c v value|c source|r]|]; try done; injection Hi as <-.
  - destruct Ht as (Hd & _). destruct (lo_stored _ _ _ (se_documents _ Hs _ _ Hd)) as (o & Ho & Hl & E). exists o. split; [done|]. split; [done|].
    rewrite E. symmetry. by eapply cached_live.
  - destruct Ht as (_ & _ & E & o & Ho & Hl & <-). by exists o.
Qed.

(** A further entry. *)
Lemma push_entry_ok s tx e : tx_ok s tx -> entry_ok s tx e -> vacated tx (de_addressId e) ->
  (forall c, entry_created e = Some c -> fresh_id s (dc_id c) /\ dc_id c ∉ tx_ids tx) ->
  (forall i, entry_existing e = Some i -> i ∉ omap entry_existing (tx_documents tx)) ->
  covered s (tx_documents tx ++ [e]) (de_address e) -> tx_ok s (push_entry e tx).
Proof.
  intros Htx He Hv Hc Hx Hcov. pose proof Htx as [].
  assert (Hids : NoDup (tx_ids (push_entry e tx)) /\ Forall (fresh_id s) (tx_ids (push_entry e tx))).
  { assert (E : tx_ids (push_entry e tx) = tx_ids tx ++ match entry_created e with Some c => [dc_id c] | None => [] end).
    { unfold tx_ids. cbn. rewrite omap_app, fmap_app, !app_assoc. f_equal. cbn. by destruct (entry_created e). }
    rewrite E. destruct (entry_created e) as [c|]; [|by rewrite app_nil_r]. destruct (Hc c eq_refl) as [Hf Hn].
    apply (ids_add (dc_id c) (tx_ids tx)); try done. symmetry. apply Permutation_cons_append. }
  destruct Hids as [H1 H2]. constructor; cbn; try done.
  - intros e' [He'| ->%list_elem_of_singleton]%elem_of_app; (apply (entry_change s tx); [by intros ?|done|]); by auto.
  - intros id j [[<- <-]|[Hne Hj]]%lookup_insert_Some.
    + exists e. rewrite lookup_app_r, Nat.sub_diag by lia. done.
    + destruct (to_latest id j Hj) as (e' & He' & E). exists e'. split; [|done]. by apply lookup_app_l_Some.
  - intros i e' [Hi|[Hle Hi]]%lookup_app_Some.
    + pose proof (lookup_lt_Some _ _ _ Hi). destruct (decide (de_addressId e' = de_addressId e)) as [E|Hne].
      * exists (length (tx_documents tx)). rewrite E, lookup_insert_eq. split; [done|]. split; [lia|]. intros _. apply Hv; [|done].
        by eapply list_elem_of_lookup_2.
      * rewrite lookup_insert_ne by done. by apply to_last.
    + apply list_lookup_singleton_Some in Hi as [Hz <-]. exists (length (tx_documents tx)). rewrite lookup_insert_eq. split; [done|]. lia.
  - rewrite omap_app. cbn. destruct (entry_existing e) as [i|]; [|by rewrite app_nil_r]. apply NoDup_app. split; [done|].
    split; [|apply NoDup_singleton]. intros j Hj ->%list_elem_of_singleton. by apply (Hx i).
  - intros e' [He'| ->%list_elem_of_singleton]%elem_of_app; [|done]. intros id o Ho Hl Ea.
    destruct (to_covered e' He' id o Ho Hl Ea) as (x & Hx' & Ex). exists x. split; [set_solver|done].
Qed.

(** An entry changes, for the same document. *)
Lemma set_entry_ok s tx i e e' : tx_ok s tx -> tx_documents tx !! i = Some e -> entry_ok s tx e' ->
  de_addressId e' = de_addressId e -> de_address e' = de_address e ->
  dc_id <$> entry_created e' = dc_id <$> entry_created e -> entry_existing e' = entry_existing e ->
  (de_retireOnCommit e = true -> de_retireOnCommit e' = true) -> tx_ok s (set_entry i e' tx).
Proof.
  intros Htx Hi He' E1 E2 E3 E4 Hr. pose proof Htx as [].
  assert (Hom : forall {B} (f : DocumentEntry -> option B), f e' = f e -> omap f (<[i := e']> (tx_documents tx)) = omap f (tx_documents tx)).
  { intros B f E. rewrite <- (take_drop_middle _ _ _ Hi) at 2. rewrite (insert_take_drop _ i) by (by eapply lookup_lt_Some).
    rewrite !omap_app. cbn. by rewrite E. }
  assert (Hids : tx_ids (set_entry i e' tx) = tx_ids tx).
  { unfold tx_ids. cbn. do 3 f_equal. 
    assert (Hf : forall l : list DocumentEntry, dc_id <$> omap entry_created l = omap (fun e : DocumentEntry => dc_id <$> entry_created e) l).
    { induction l as [|x l IH]; [done|]. cbn. destruct (entry_created x); cbn; by rewrite IH. }
    by rewrite !Hf, Hom. }
  assert (Hsplit : forall j x, <[i := e']> (tx_documents tx) !! j = Some x ->
     (j = i /\ x = e') \/ (j <> i /\ tx_documents tx !! j = Some x)).
  { intros j x Hj. apply list_lookup_insert_Some in Hj as [(-> & -> & _)|[Hne Hj]]; [by left|by right]. }
  constructor; rewrite ?Hids; cbn; try done.
  - intros x [j Hj]%list_elem_of_lookup. apply (entry_change s tx); [by intros ?|done|].
    destruct (Hsplit j x Hj) as [[-> ->]|[_ Hj']]; [done|]. apply to_entries. by eapply list_elem_of_lookup_2.
  - intros id j Hj. destruct (to_latest id j Hj) as (x & Hx & E). destruct (decide (i = j)) as [<-|Hne].
    + exists e'. rewrite list_lookup_insert_eq by (by eapply lookup_lt_Some). split; [done|]. congruence.
    + exists x. by rewrite list_lookup_insert_ne.
  - intros j x Hj. destruct (Hsplit j x Hj) as [[-> ->]|[_ Hj']]; [|by apply to_last].
    destruct (to_last i e Hi) as (k & Hk & Hle & Hlt). exists k. rewrite E1. by auto.
  - by rewrite Hom.
  - intros x [j Hj]%list_elem_of_lookup id o Ho Hl Ea.
    assert (Hc : covered s (tx_documents tx) (de_address x)).
    { destruct (Hsplit j x Hj) as [[-> ->]|[_ Hj']]; [rewrite E2|]; apply to_covered; by eapply list_elem_of_lookup_2. }
    destruct (Hc id o Ho Hl Ea) as (y & [k Hk]%list_elem_of_lookup & Ey). destruct (decide (i = k)) as [<-|Hne].
    + exists e'. split; [|congruence]. eapply list_elem_of_lookup_2, list_lookup_insert_eq. by eapply lookup_lt_Some.
    + exists y. split; [|done]. apply (list_elem_of_lookup_2 _ k). by rewrite list_lookup_insert_ne.
Qed.

(** ** Drafts *)

Lemma resolved_scope definition owner key address : resolveAddress definition owner key = Ok address ->
  scope_kind (da_scope address) = df_scope definition.
Proof. unfold resolveAddress. intros H. destruct (df_scope definition); inv_res; try done; destruct owner; by simplify_eq/=. Qed.

Lemma conversation_read m id r : conversation m id = Ok r -> is_some r = true -> is_Some (conversations_of (state m) !! id).
Proof. unfold conversation, conversations_of. intros H Hr. inv_res. by destruct (conversations _ !! id). Qed.

Lemma requireConversation_ok s tx id u : requireConversation s tx id = Ok u -> owner_staged s tx (ScopeConversation id).
Proof.
  unfold requireConversation. case_bool_decide as Hd; [by left|]. intros H. inv_res. right.
  apply of_storage_Ok in Hv. by eapply conversation_read.
Qed.

Lemma currentTask_ok s tx id t : currentTask s tx id = Ok (Some t) -> t_status t <> terminal -> owner_staged s tx (ScopeTask id).
Proof.
  unfold currentTask, committedTask. destruct (task_write tx id) as [[c r]|] eqn:Ew; [intros _ _; left; by eexists|].
  intros H Ht. right. unfold task in H. cbn. unfold tasks_of. destruct (assertOpen _); [|done]. cbn in H.
  destruct (tasks _ !! id) as [r|] eqn:E; [|done]. injection H as <-. exists r. split; [done|]. revert Ht. unfold t_status. cbn. by destruct (t_state r).
Qed.

Lemma requireOwner_ok s tx scope tx' : tx_ok s tx -> requireOwner s tx scope = Ok tx' ->
  tx_ok s tx' /\ owner_staged s tx' scope /\ (tx' = tx \/ exists id, tx' = touch_task id tx).
Proof.
  intros Htx H. unfold requireOwner in H. destruct scope as [|c|t].
  - injection H as <-. split; [done|]. split; [done|by left].
  - inv_res. split; [done|]. split; [by eapply requireConversation_ok|by left].
  - inv_res. assert (Ho : owner_staged s tx (ScopeTask t)).
    { apply (currentTask_ok s tx t v0); [done|]. intros E. rewrite E in *. done. }
    split; [by apply touch_task_ok|]. split; [|right; by eexists].
    destruct (touch_task_spec t tx) as [[Hw _]|Hn]; [|by destruct Hn; apply Htx].
    cbn in *. by rewrite Hw.
Qed.

Lemma requireOwner_push s tx e scope tx' : requireOwner s (push_entry e tx) scope = Ok tx' ->
  exists tx1, requireOwner s tx scope = Ok tx1 /\ tx' = push_entry e tx1.
Proof.
  unfold requireOwner. destruct scope as [|c|t]; [intros [= <-]; by eexists| |].
  - change (requireConversation s (push_entry e tx) c) with (requireConversation s tx c). destruct (requireConversation s tx c); [|done].
    intros [= <-]. by eexists.
  - change (currentTask s (push_entry e tx) t) with (currentTask s tx t). destruct (currentTask s tx t) as [[r|]|]; [|done..]. cbn [mbind res_bind res_of].
    destruct (check _ _); [|done]. intros [= <-]. rewrite touch_push. by eexists.
Qed.

Lemma create_facts definition owner key address id : definition_ok definition -> resolveAddress definition owner key = Ok address ->
  address_of (documentCreate definition address id) = address /\ create_ok (documentCreate definition address id).
Proof.
  intros Hd H%resolved_scope. split; [by destruct address|]. unfold create_ok, documentCreate, definition_ok in *. cbn. rewrite <- H in Hd.
  by destruct (da_scope address) as [|c|t]; cbn in *.
Qed.

(** The new entry of a draft. *)
Definition draft_of (id : string) (address : DocumentAddress) (definition : AnyDocDefinition) (target : DocumentTarget) (change : Prepared)
    : DocumentEntry := with_target target (Some change) (new_entry id address definition false).

Lemma loaded_entry_ok s tx definition id address d : session_ok s -> tx_ok s tx -> id = addressId address ->
  (forall e, e ∈ tx_documents tx -> de_addressId e <> id) ->
  ss_documents s !! id = Some d -> ld_valueVersion d = df_version definition -> address_of (d_create (ld_record d)) = address ->
  tx_ok s (push_entry (draft_of id address definition (TLoaded d) (beginChange (ld_value d))) tx).
Proof.
  intros Hs Htx Hid Hno Hd Hv Ha. pose proof (se_documents _ Hs _ _ Hd) as Hl. apply push_entry_ok; [done| | | | |].
  - split; [done|]. cbn. split; [done|]. eexists _, _. split_and!; [done..| |done]. apply performs_nil, Hl.
  - intros e He E. by destruct (Hno e He).
  - done.
  - intros i [= <-] (e & He & Ei)%list_elem_of_omap.
    destruct (existing_address s tx e _ Hs (to_entries _ _ Htx e He) Ei) as (o & Ho & _ & Ea).
    destruct (lo_stored _ _ _ Hl) as (o' & Ho' & _ & Er). destruct (to_entries _ _ Htx e He) as [E _].
    apply (Hno e He). rewrite E, Hid, <- Ea, <- Ha. congruence.
  - intros i o Ho Hlv Ea. exists (draft_of id address definition (TLoaded d) (beginChange (ld_value d))). split; [set_solver|].
    cbn. f_equal. destruct (lo_stored _ _ _ Hl) as (o' & Ho' & Hlv' & Er).
    apply (live_unique (ss_storage s) (ld_id d) i o' o); [apply (so_inv _ (se_storage _ Hs))|done..|]. rewrite Er, Ea. exact Ha.
Qed.

Lemma created_entry_ok s tx definition owner key address id new value e : tx_ok s tx ->
  definition_ok definition -> resolveAddress definition owner key = Ok address -> id = addressId address ->
  vacated tx id -> covered s (tx_documents tx) address -> owner_staged s tx (da_scope address) -> plain value ->
  fresh_id s new -> new ∉ tx_ids tx ->
  e = draft_of id address definition (TCreated (documentCreate definition address new) (df_version definition) value) (beginChange value) ->
  tx_ok s (push_entry e tx).
Proof.
  intros Htx Hdef Hres Hid Hv Hcov Ho Hp Hf Hn ->. destruct (create_facts _ _ _ _ new Hdef Hres) as [E1 E2].
  apply push_entry_ok; [done| |done| |done|].
  - split; [done|]. cbn. split_and!; [done..|]. eexists. split; [done|]. by apply performs_nil.
  - by intros c [= <-].
  - intros i o H1 H2 H3. destruct (Hcov i o H1 H2 H3) as (x & Hx & Ex). exists x. split; [set_solver|done].
Qed.

Lemma acquire_ok s tx definition owner key address id seed (skip : bool) s' tx' target change :
  session_ok s -> tx_ok s tx -> definition_ok definition -> resolveAddress definition owner key = Ok address -> id = addressId address ->
  vacated tx id -> (if skip then covered s (tx_documents tx) address else forall e : DocumentEntry, e ∈ tx_documents tx -> de_addressId e <> id) ->
  acquire s (push_entry (new_entry id address definition false) tx) definition id address seed skip = Ok (s', tx', (target, change)) ->
  exists tx1, tx' = push_entry (new_entry id address definition false) tx1 /\ tx_documents tx1 = tx_documents tx /\
    tx_ok s' (push_entry (draft_of id address definition target change) tx1) /\ continues s s' (tx_documents tx).
Proof.
  intros Hs Htx Hdef Hres Hid Hvac Hskip H. unfold acquire in H.
  destruct (if skip then Ok (s, None) else loadDocument s definition id address) as [[s1 loaded]|] eqn:El; [|done].
  assert (Hload : continues s s1 (tx_documents tx) /\
    match loaded with
    | Some d => skip = false /\ ss_documents s1 !! id = Some d /\ ld_valueVersion d = df_version definition /\ address_of (d_create (ld_record d)) = address
    | None => covered s1 (tx_documents tx) address
    end).
  { destruct skip.
    - injection El as <- <-. split; [by apply continues_refl|done].
    - destruct (loadDocument_ok s definition id address s1 loaded (tx_documents tx) Hs Hid Hskip El) as [Hc Hr]. split; [done|].
      destruct loaded; [done|]. intros i o Ho Hl Ea. by destruct (Hr i o Ho Hl). }
  destruct Hload as [Hc Hload]. pose proof (tx_continues _ _ _ Hc Htx) as Htx1. pose proof (cn_ok _ _ _ Hc) as Hs1.
  cbn [mbind res_bind] in H. destruct loaded as [d|].
  - inv_res. destruct Hload as (-> & Hd & Hver & Ha). exists tx. split_and!; try done. by apply loaded_entry_ok.
  - destruct (requireOwner s1 _ (da_scope address)) as [tx2|] eqn:Eo; [|done]. cbn [mbind res_bind] in H.
    destruct (requireOwner_push _ _ _ _ _ Eo) as (tx3 & Eo' & ->). clear Eo.
    destruct (requireOwner_ok _ _ _ _ Htx1 Eo') as (Htx3 & Hown & Hsame).
    assert (Edoc : tx_documents tx3 = tx_documents tx) by (destruct Hsame as [->|[i ->]]; [done|by destruct (touch_documents i tx)]).
    destruct (mint s1) as [[s2 new]|] eqn:Em; [|done]. cbn [mbind res_bind] in H. injection H as <- <- <- <-.
    destruct (mint_tx s1 s2 new tx3 Hs1 Htx3 Em) as (Htx4 & Hc2 & Hf & Hn). exists tx3. split; [done|]. split; [done|].
    rewrite Edoc in Hc2. split; [|by eapply continues_trans]. eapply created_entry_ok; [done..| | | | |done|done|reflexivity].
    + intros e. rewrite Edoc. apply Hvac.
    + rewrite Edoc. by eapply covered_continues.
    + by eapply staged_continues.
    + apply clone_plain_json.
Qed.

Lemma entry_address s tx e id address : tx_ok s tx -> e ∈ tx_documents tx -> de_addressId e = id -> id = addressId address -> de_address e = address.
Proof. intros Htx He E Hid. destruct (to_entries _ _ Htx e He) as [Ha _]. apply addressId_inj. congruence. Qed.

(** The draft of a copy. *)
Lemma fork_draft_ok s tx definition i e record source target change : tx_ok s tx ->
  tx_documents tx !! i = Some e -> de_target e = Some (TForkCopy record source) ->
  acquireForkCopy s definition record source = Ok (target, change) ->
  tx_ok s (set_entry i (with_target target (Some change)
    {| de_addressId := de_addressId e; de_address := de_address e; de_definition := Some definition;
       de_target := de_target e; de_change := de_change e; de_retireOnCommit := de_retireOnCommit e |}) tx).
Proof.
  intros Htx Hi Et H. unfold acquireForkCopy in H. inv_res. bool_to_prop.
  destruct (to_entries _ _ Htx e (list_elem_of_lookup_2 _ _ _ Hi)) as [Ha Hok]. unfold target_ok in Hok. rewrite Et in Hok.
  destruct Hok as (Had & Hcr & Hos & _). apply of_storage_Ok in Hv. unfold document in Hv.
  assert (Hp : plain (sd_value v0)).
  { destruct (assertOpen _); [|done]. cbn [mbind res_bind] in Hv. destruct (materializeDocument _ _ _) as [[sd|]|]; [|done..].
    cbn [mbind res_bind] in Hv. injection Hv as <-. apply clone_plain_json. }
  eapply materialized in Hp as (_ & _ & Hp & _); [|done].
  apply (set_entry_ok _ _ _ e); cbn; try done; [|unfold entry_created, entry_existing; by rewrite Et..].
  split; [done|]. cbn. split_and!; try done. eexists. split; [done|]. by apply performs_nil.
Qed.

Lemma fresh_ok s tx definition owner key address id seed (skip : bool) s' tx' i :
  session_ok s -> tx_ok s tx -> definition_ok definition -> resolveAddress definition owner key = Ok address -> id = addressId address ->
  vacated tx id -> (if skip then covered s (tx_documents tx) address else forall e, e ∈ tx_documents tx -> de_addressId e <> id) ->
  (let n := length (tx_documents tx) in
   let tx1 := push_entry (new_entry id address definition false) tx in
   r ← acquire s tx1 definition id address seed skip;
   let '(s2, tx2, (target, change)) := r in
   Ok (s2, set_entry n (with_target target (Some change) (new_entry id address definition false)) tx2, n)) = Ok (s', tx', i) ->
  tx_ok s' tx' /\ continues s s' (tx_documents tx).
Proof.
  intros Hs Htx Hdef Hres Hid Hvac Hskip H. cbn zeta in H.
  destruct (acquire s _ definition id address seed skip) as [[[s2 tx2] [target change]]|] eqn:Ea; [|done].
  cbn [mbind res_bind] in H. injection H as <- <- <-.
  destruct (acquire_ok _ _ _ _ _ _ _ _ _ _ _ _ _ Hs Htx Hdef Hres Hid Hvac Hskip Ea) as (tx1 & -> & E & Hok & Hc).
  split; [|done]. rewrite <- E. by rewrite set_push.
Qed.

Lemma doc_ok s tx definition owner key seed s' tx' i : session_ok s -> tx_ok s tx -> definition_ok definition ->
  doc s tx definition owner key seed = Ok (s', tx', i) -> tx_ok s' tx' /\ continues s s' (tx_documents tx).
Proof.
  intros Hs Htx Hdef H. unfold doc in H. destruct (resolveAddress definition owner key) as [address|] eqn:Er; [|done]. cbn [mbind res_bind] in H.
  destruct (assertTaskDocumentsOpen tx address); [|done]. cbn [mbind res_bind] in H.
  assert (Hnone : tx_latest tx !! addressId address = None -> vacated tx (addressId address) /\ (forall e : DocumentEntry, e ∈ tx_documents tx -> de_addressId e <> addressId address)).
  { intros Hn. pose proof (no_latest s tx _ Htx Hn) as Hno. split; [|done]. intros e He E. by destruct (Hno e He). }
  destruct (latest_entry tx (addressId address)) as [[j e]|] eqn:El.
  2: { apply (latest_entry_None s) in El as [Hvac Hno]%Hnone; [|done]. by apply (fresh_ok s tx definition owner key address (addressId address) (clone seed) false s' tx' i). }
  destruct (latest_entry_Some _ _ _ _ _ Htx El) as (Hj & Eid & Ell). pose proof (list_elem_of_lookup_2 _ _ _ Hj) as Hin.
  destruct (de_retireOnCommit e) eqn:Eret.
  { apply (fresh_ok s tx definition owner key address (addressId address) (clone seed) true s' tx' i); try done; [by eapply latest_vacated|].
    rewrite <- (entry_address s tx e _ address Htx Hin Eid eq_refl). by apply Htx. }
  destruct (to_entries _ _ Htx e Hin) as [_ Hok]. unfold target_ok in Hok. destruct (de_change e) as [p|] eqn:Ech.
  { injection H as <- <- <-. split; [done|by apply continues_refl]. }
  destruct (de_target e) as [[d|c v value|c source|r]|] eqn:Et.
  - destruct Hok as (_ & ? & ? & _ & [=] & _).
  - destruct Hok as (_ & _ & _ & ? & [=] & _).
  - destruct (acquireForkCopy s definition c source) as [[target change]|] eqn:Ef; [|done]. cbn [mbind res_bind] in H. injection H as <- <- <-.
    split; [|by apply continues_refl]. pose proof (fork_draft_ok s tx definition j e c source target change Htx Hj Et Ef) as Hr. rewrite Et, Ech, Eret in Hr. exact Hr.
  - destruct Hok as (? & _). congruence.
  - destruct Hok as (? & _). congruence.
Qed.

(** A change of a draft. *)
Lemma edit_ok s tx i e v p : tx_ok s tx -> tx_documents tx !! i = Some e -> draft_base e = Some v ->
  performs v (pr_ops p) (pr_value p) -> tx_ok s (set_entry i (with_change p e) tx).
Proof.
  intros Htx Hi Hb Hp. destruct (to_entries _ _ Htx e (list_elem_of_lookup_2 _ _ _ Hi)) as [Ha Hok].
  apply (set_entry_ok _ _ _ e); try done. split; [done|]. unfold target_ok, draft_base in *. cbn.
  destruct (de_target e) as [[d|c version value|c source|r]|]; try done; injection Hb as ->.
  - destruct Hok as (H1 & definition & q & H2 & H3 & H4 & H5). split; [done|]. by exists definition, p.
  - destruct Hok as (H1 & H2 & H3 & q & H4 & H5). split_and!; try done. by exists p.
Qed.

(** ** Retirement *)

Lemma retired_ok s tx i e : tx_ok s tx -> tx_documents tx !! i = Some e -> tx_ok s (set_entry i (retired e) tx).
Proof.
  intros Htx Hi. destruct (to_entries _ _ Htx e (list_elem_of_lookup_2 _ _ _ Hi)) as [Ha Hok]. apply (set_entry_ok _ _ _ e); try done.
  split; [done|]. unfold target_ok in *. cbn. destruct (de_target e) as [[d|c version value|c source|r]|]; try done.
  - destruct Hok as (_ & H). by split.
  - by destruct Hok.
Qed.

Lemma retire_entry_ok s tx definition address id (e : DocumentEntry) (found : option DocumentRecord) : session_ok s -> tx_ok s tx ->
  id = addressId address -> (forall e, e ∈ tx_documents tx -> de_addressId e <> id) ->
  (forall i o, stored_docs s !! i = Some o -> live o -> address_of (d_create (st_record o)) = address -> found = Some (st_record o)) ->
  (forall r, found = Some r -> exists o, stored_docs s !! dc_id (d_create r) = Some o /\ live o /\ st_record o = r /\ address_of (d_create r) = address) ->
  e = match found with Some r => with_target (TRetireOnly r) None (new_entry id address definition true) | None => new_entry id address definition true end ->
  tx_ok s (push_entry e tx).
Proof.
  intros Hs Htx Hid Hno Hall Hfound ->. apply push_entry_ok; [done| | | | |].
  - destruct found as [r|]; (split; [done|]); [|done]. destruct (Hfound r eq_refl) as (o & Ho & Hl & Er & Ea). cbn.
    split_and!; try done. by exists o.
  - intros e He E. destruct (Hno e He). destruct found; done.
  - by destruct found.
  - intros i Hi (e & He & Ei)%list_elem_of_omap. destruct found as [r|]; [|done]. injection Hi as <-.
    destruct (existing_address s tx e _ Hs (to_entries _ _ Htx e He) Ei) as (o & Ho & _ & Ea).
    destruct (Hfound r eq_refl) as (o' & Ho' & _ & Er & Ea'). destruct (to_entries _ _ Htx e He) as [E _]. apply (Hno e He). congruence.
  - intros i o Ho Hl Ea. destruct found as [r|].
    + specialize (Hall i o Ho Hl Ea) as [= ->]. eexists. split; [apply elem_of_app; right; left|]. cbn.
      f_equal. by apply (stored_id (ss_storage s)); [apply (so_inv _ (se_storage _ Hs))|].
    + by specialize (Hall i o Ho Hl Ea).
Qed.

Lemma retireDoc_ok s tx definition owner key tx' : session_ok s -> tx_ok s tx -> retireDoc s tx definition owner key = Ok tx' -> tx_ok s tx'.
Proof.
  intros Hs Htx H. unfold retireDoc in H. destruct (resolveAddress definition owner key) as [address|]; [|done]. cbn [mbind res_bind] in H.
  set (lookup := found ← _; _) in H.
  assert (Hlookup : lookup = Ok tx' -> (forall e : DocumentEntry, e ∈ tx_documents tx -> de_addressId e <> addressId address) -> tx_ok s tx').
  { intros Hl Hno. unfold lookup in Hl. pose proof (se_storage _ Hs) as Hst.
    destruct (ss_documents s !! addressId address) as [d|] eqn:Ed.
    - cbn [mbind res_bind] in Hl. inv_res. apply (retire_entry_ok s tx definition address (addressId address) _ (Some (ld_record d))); try done.
      + pose proof (se_documents _ Hs _ _ Ed) as Hld. destruct (lo_stored _ _ _ Hld) as (o' & Ho' & Hl' & Er). intros i o Ho Hlv Ea.
        rewrite (live_unique (ss_storage s) i (ld_id d) o o') in Ho; [congruence|apply Hst|done..|].
        rewrite Er, Ea. by eapply cached_live.
      + intros r [= <-]. destruct (lo_stored _ _ _ (se_documents _ Hs _ _ Ed)) as (o & Ho & Hl & Er). exists o. split_and!; try done.
        symmetry. by eapply cached_live.
    - destruct (findDocument_current (ss_storage s) address (so_inv _ Hst) (so_open _ Hst)) as (found & Ef & Hf). rewrite Ef in Hl.
      cbn [of_storage mbind res_bind] in Hl. apply (retire_entry_ok s tx definition address (addressId address)
         match found with Some r => with_target (TRetireOnly r) None (new_entry (addressId address) address definition true) | None => new_entry (addressId address) address definition true end found) in Htx; try done.
      + destruct found; inv_res; done.
      + intros i o Ho Hlv Ea. apply Hf. exists o. by rewrite (stored_id _ i o (so_inv _ Hst) Ho).
      + intros r ->. destruct (proj1 (Hf r) eq_refl) as (o & Ho & -> & Ea & Hlv). by exists o. }
  destruct (latest_entry tx (addressId address)) as [[j e]|] eqn:El.
  2: { apply Hlookup; [done|]. apply (no_latest s tx _ Htx). by eapply latest_entry_None. }
  destruct (latest_entry_Some _ _ _ _ _ Htx El) as (Hj & Eid & Ell). pose proof (list_elem_of_lookup_2 _ _ _ Hj) as Hin.
  destruct (de_retireOnCommit e) eqn:Eret; [by injection H as <-|].
  destruct (to_entries _ _ Htx e Hin) as [_ Hok]. unfold target_ok in Hok.
  destruct (de_target e) as [[d|c v value|c source|r]|]; destruct (de_change e) as [p|]; try (by destruct Hok as (? & ?); congruence);
    try (injection H as <-; by apply retired_ok); try (inv_res; by apply retired_ok).
  - by destruct Hok as (_ & ? & ? & _ & [=] & _).
  - by destruct Hok as (_ & _ & _ & ? & [=] & _).
Qed.

(** ** Minting several IDs *)

Record mints (s s' : SessionState) (ids : list N) : Prop := {
  mi_ok : session_ok s';
  mi_session : s' = with_storage (ss_storage s') s;
  mi_state : stored_state s' = stored_state s;
  mi_next : (nextId (ss_storage s) <= nextId (ss_storage s'))%N;
  mi_range : forall id, id ∈ ids -> (nextId (ss_storage s) <= id < nextId (ss_storage s'))%N;
  mi_unique : NoDup ids;
}.

Lemma mints_nil s : session_ok s -> mints s s [].
Proof. intros Hs. constructor; try done; [by destruct s|by intros ? []%elem_of_nil|constructor]. Qed.

Lemma mints_cons s s1 s' id ids : session_ok s -> mint s = Ok (s1, id) -> mints s1 s' ids -> mints s s' (id :: ids).
Proof.
  intros Hs (Em & -> & Es)%mint_spec [H1 H2 H3 H4 H5 H6]. rewrite Em in *. cbn in *. constructor; cbn in *; try done.
  - rewrite H2 at 1. by rewrite Es.
  - lia.
  - intros id [->|Hid]%elem_of_cons; [lia|]. specialize (H5 id Hid). lia.
  - constructor; [|done]. intros Hid. specialize (H5 _ Hid). lia.
Qed.

Lemma mints_app s s1 s' ids ids' : mints s s1 ids -> mints s1 s' ids' -> mints s s' (ids ++ ids').
Proof.
  intros [H1 H2 H3 H4 H5 H6] [J1 J2 J3 J4 J5 J6]. constructor; try done; [|congruence|lia|..].
  - rewrite J2 at 1. by rewrite H2.
  - intros id [Hid|Hid]%elem_of_app; [specialize (H5 id Hid)|specialize (J5 id Hid)]; lia.
  - apply NoDup_app. split; [done|]. split; [|done]. intros id Hid Hid'. specialize (H5 id Hid). specialize (J5 id Hid'). lia.
Qed.

Lemma mints_continues s s' ids entries : mints s s' ids -> continues s s' entries.
Proof. intros [H1 H2 H3 H4 _ _]. constructor; rewrite ?H3; try done; eauto. intros e _. by rewrite H2. Qed.

Lemma mints_fresh s s' ids old : session_ok s -> mints s s' ids -> Forall (fresh_id s) old ->
  Forall (fresh_id s') ids /\ forall id, id ∈ ids -> id ∉ old.
Proof.
  intros Hs Hm Ho. split.
  - apply Forall_forall. intros id Hid. pose proof (mi_range _ _ _ Hm id Hid) as Hr. split; [|lia]. rewrite (mi_state _ _ _ Hm).
    destruct (recordTypes (stored_state s) !! id) as [t|] eqn:E; [|done]. apply (si_next _ _ _ _ (so_inv _ (se_storage _ Hs))) in E. lia.
  - intros id Hid Hin. pose proof (mi_range _ _ _ Hm id Hid). rewrite Forall_forall in Ho. destruct (Ho id Hin). lia.
Qed.

(** ** Sources *)

Lemma session_usable s : session_ok s -> usable (ss_storage s).
Proof. intros Hs. pose proof (se_storage _ Hs) as Hst. constructor; apply Hst. Qed.

Lemma sorted_below (l : list N) (n : N) : StronglySorted N.lt l -> (forall i, i ∈ l -> (i < n)%N) -> length l <= N.to_nat n.
Proof.
  intros Hs Hlt. assert (Hnd : NoDup l).
  { clear Hlt. induction Hs as [|x l Hl IH Hx]; [constructor|]. constructor; [|done]. intros Hin. rewrite Forall_forall in Hx.
    specialize (Hx x Hin). lia. }
  assert (Hnd' : NoDup (N.to_nat <$> l)) by (apply NoDup_fmap_2; [intros a b; lia|done]).
  rewrite <- (length_fmap N.to_nat l). transitivity (length (seq 0 (N.to_nat n))); [|by rewrite length_seq]. apply submseteq_length, NoDup_submseteq; [done|].
  intros x (i & -> & Hi)%list_elem_of_fmap. apply elem_of_seq. specialize (Hlt i Hi). lia.
Qed.

(** All pages of a scan of documents: each one of the scope that is alive at the point, once. *)
Lemma all_documents_ok s query : session_ok s ->
  exists L, all_documents (ss_storage s) query = Ok L /\ NoDup (record_id <$> L) /\
    forall r, r ∈ L <-> record_at (ss_storage s) (record_id r) = Some r /\ dc_scope (d_create r) = dq_scope query /\ keep_record query r = true.
Proof.
  intros Hs. pose proof (session_usable s Hs) as Hu. destruct (scanDocuments_all (ss_storage s) query SCAN_PAGE_SIZE Hu) as (L & Hall & Hsort & HL).
  { unfold SCAN_PAGE_SIZE. lia. }
  exists L. split; [|split; [|done]].
  - unfold all_documents. rewrite Hall; [cbn; f_equal; apply clone_plain, Forall_true; done|]. rewrite <- (length_fmap record_id L).
    apply Nat.lt_succ_r, sorted_below; [done|]. intros i (r & -> & (Hr & _)%HL)%list_elem_of_fmap.
    destruct (stored_docs s !! record_id r) as [o|] eqn:Ho; [|done].
    apply (si_next _ _ _ _ (so_inv _ (se_storage _ Hs)) _ TDocument), (si_types _ _ _ _ (so_inv _ (se_storage _ Hs)) _ TDocument). by eexists.
  - clear Hall HL. induction Hsort as [|x l Hl IH Hx]; [constructor|]. constructor; [|done]. intros Hin. rewrite Forall_forall in Hx.
    specialize (Hx x Hin). lia.
Qed.

(** A document that is alive at a point can be read there. *)
Lemma alive_readable s id o at_ : session_ok s -> stored_docs s !! id = Some o -> isAliveAt (st_record o) at_ = true ->
  needs_history at_ && isCurrentOnly (st_record o) = false ->
  exists stored, materializeDocument (document_tables (stored_state s)) id at_ = Ok (Some stored) /\ sd_record stored = st_record o /\ plain (sd_value stored).
Proof.
  intros Hs Ho Ha Hn. pose proof (se_storage _ Hs) as Hst.
  assert (Hr : reads_plain (content_at (document_tables (stored_state s)) id at_)).
  { destruct at_ as [|n]; [|by apply (so_past _ Hst id o n)]. cbn in Ha. bool_to_prop. destruct (so_readable _ Hst id o Ho Ha) as (v & x & k & E & Hp).
    exists (Some (v, x, k)). split; [done|]. by intros ? ? ? [= <- <- <-]. }
  destruct Hr as (a & Ea & Hp). unfold content_at in Ea.
  destruct (materializeDocument _ id at_) as [[sd|]|] eqn:Em; try done.
  - injection Ea as <-. exists sd. split; [done|]. split; [|by eapply Hp]. unfold materializeDocument in Em. rewrite Ho in Em.
    destruct (check _ _); [|done]. cbn [mbind res_bind] in Em. rewrite Ha in Em. destruct (base_index _ _) as [b|]; [|done].
    destruct (_ !! b) as [[vv [y|]]|]; try done. destruct (replay _ _ _ _) as [[w|]|]; try done. by injection Em as <-.
  - exfalso. unfold materializeDocument in Em. rewrite Ho in Em. destruct (check _ _); [|done]. cbn [mbind res_bind] in Em. rewrite Ha in Em.
    destruct (base_index _ _) as [b|]; [|done]. destruct (_ !! b) as [[vv [y|]]|]; try done. destruct (replay _ _ _ _) as [[w|]|]; try done.
Qed.

(** ** Copies *)

Abbreviation copy_id := (fun c : ForkDocumentCopy => dc_id (fc_record c)).
Abbreviation copy_address := (fun c : ForkDocumentCopy => addressId (address_of (fc_record c))).

Definition copy_of (policy : ForkMode) (child : N) (at_ : DocumentPoint) (sources : list DocumentRecord) (c : ForkDocumentCopy) : Prop :=
  exists source, source ∈ sources /\ is_conversation_scope (dc_scope (d_create source)) = true /\ dc_fork (d_create source) = Some policy /\
    fc_record c = copy_record (dc_id (fc_record c)) child (d_create source) /\
    fc_source c = {| cs_id := dc_id (d_create source); cs_at := at_ |}.

Lemma collect_sources_ok at_ policy child sources : forall s copies s' copies', session_ok s ->
  collect_sources s at_ policy child copies sources = Ok (s', copies') ->
  exists added, copies' = copies ++ added /\ mints s s' (copy_id <$> added) /\
    (forall c, c ∈ added -> copy_of policy child at_ sources c) /\ (NoDup (copy_address <$> copies) -> NoDup (copy_address <$> copies')).
Proof.
  induction sources as [|source sources IH]; intros s copies s' copies' Hs H.
  { injection H as <- <-. exists []. rewrite app_nil_r. split_and!; [done|by apply mints_nil|by intros ? []%elem_of_nil|done]. }
  cbn [collect_sources] in H. destruct (negb _ || negb _) eqn:Ek.
  { destruct (IH _ _ _ _ Hs H) as (added & -> & Hm & Hall & Hnd). exists added. split_and!; try done.
    intros c Hc. destruct (Hall c Hc) as (x & Hx & Hr). exists x. split; [by right|done]. }
  apply orb_false_iff in Ek as [Ek1 Ek2]. bool_to_prop.
  destruct (mint s) as [[s1 id]|] eqn:Em; [|done]. cbn [mbind res_bind fst snd] in H.
  destruct (check _ _) as [u|] eqn:Ec; [|done]. cbn [mbind res_bind] in H.
  assert (Hnew : addressId (address_of (copy_record id child (d_create source))) ∉ copy_address <$> copies).
  { destruct (bool_decide (addressId _ ∈ _)) eqn:Eb; [done|]. by apply bool_decide_eq_false in Eb. }
  pose proof (session_mint_ok _ _ _ Hs Em) as Hs1. destruct (IH _ _ _ _ Hs1 H) as (added & -> & Hm & Hall & Hnd).
  exists ({| fc_record := copy_record id child (d_create source); fc_source := {| cs_id := dc_id (d_create source); cs_at := at_ |} |} :: added).
  split; [by rewrite <- app_assoc|]. split; [by eapply mints_cons|]. split.
  - intros c [->|Hc]%elem_of_cons; [exists source; cbn; split_and!; try done; left|]. destruct (Hall c Hc) as (x & Hx & Hr). exists x. split; [by right|done].
  - intros Hc. apply Hnd. rewrite fmap_app. apply NoDup_app. split; [done|]. split; [|apply NoDup_singleton].
    intros a Ha ->%list_elem_of_singleton. by apply Hnew.
Qed.

(** A copy of a document that is alive at the point. *)
Lemma copy_of_fits s child policy at_ query L c : session_ok s ->
  (forall r, r ∈ L -> record_at (ss_storage s) (record_id r) = Some r /\ keep_record query r = true) -> dq_at query = at_ ->
  (at_ = PCurrent \/ policy = ForkAsOf) -> copy_of policy child at_ L c ->
  copy_fits (document_tables (stored_state s)) (fc_record c) (fc_source c) /\ dc_fork (fc_record c) = Some policy /\
  create_ok (fc_record c) /\ dc_scope (fc_record c) = ScopeConversation child.
Proof.
  intros Hs HL <- Hpol (source & Hsrc & Hconv & Hfork & Er & Esrc). destruct (HL source Hsrc) as [Hat Hkeep].
  destruct (stored_docs s !! record_id source) as [o|] eqn:Ho; [|done]. injection Hat as Eo.
  pose proof (so_semantics _ (se_storage _ Hs) _ o Ho) as Hsem. rewrite Eo in Hsem. unfold create_ok in Hsem.
  destruct (dc_scope (d_create source)) as [|cc|] eqn:Esc; try done. cbn in Hsem. destruct Hsem as ([h Hh] & _ & Has). rewrite Hh in *.
  apply andb_true_iff in Hkeep as [_ Hal].
  destruct (alive_readable s (record_id source) o (dq_at query) Hs Ho) as (stored & Em & Erec & Hp).
  { by rewrite Eo. }
  { rewrite Eo. unfold isCurrentOnly. rewrite Esc, Hh. destruct Hpol as [->| ->]; [done|]. specialize (Has Hfork). injection Has as ->. apply andb_false_r. }
  rewrite Er. cbn. rewrite Esrc, Hfork. split; [|split; [done|split; [|done]]].
  - exists stored. rewrite Erec, Eo. cbn. rewrite Esc, Hh, Hfork. split_and!; try done. by destruct h.
  - unfold create_ok. cbn. rewrite Hh. split; [by destruct h|]. split; [by eexists|]. intros [= ->]. specialize (Has Hfork). by injection Has as ->.
Qed.

Lemma collectCopies_ok s conversationId at_ policy child copies s' copies' : session_ok s ->
  (at_ = PCurrent \/ policy = ForkAsOf) ->
  collectCopies s conversationId at_ policy child copies = Ok (s', copies') ->
  exists added, copies' = copies ++ added /\ mints s s' (copy_id <$> added) /\
    (NoDup (copy_address <$> copies) -> NoDup (copy_address <$> copies')) /\
    forall c, c ∈ added -> copy_fits (document_tables (stored_state s)) (fc_record c) (fc_source c) /\ dc_fork (fc_record c) = Some policy /\
      create_ok (fc_record c) /\ dc_scope (fc_record c) = ScopeConversation child.
Proof.
  intros Hs Hpol H. unfold collectCopies in H.
  destruct (all_documents_ok s {| dq_scope := ScopeConversation conversationId; dq_at := at_; dq_kind := None |} Hs) as (L & EL & _ & HL).
  rewrite EL in H. cbn [mbind res_bind] in H. destruct (collect_sources_ok _ _ _ _ _ _ _ _ Hs H) as (added & -> & Hm & Hall & Hnd).
  exists added. split_and!; try done. intros c Hc. apply (copy_of_fits s child policy at_ {| dq_scope := ScopeConversation conversationId; dq_at := at_; dq_kind := None |} L c Hs); [|done|done|by apply Hall]. intros r Hr. by apply HL in Hr as (? & _ & ?).
Qed.

Lemma prepareForkDocumentCopies_ok s parent at_ child s' copies : session_ok s ->
  prepareForkDocumentCopies s parent at_ child = Ok (s', copies) ->
  mints s s' (copy_id <$> copies) /\ NoDup (copy_address <$> copies) /\
  forall c, c ∈ copies -> copy_fits (document_tables (stored_state s)) (fc_record c) (fc_source c) /\ dc_fork (fc_record c) <> Some ForkInitial /\
    create_ok (fc_record c) /\ dc_scope (fc_record c) = ScopeConversation child.
Proof.
  intros Hs H. unfold prepareForkDocumentCopies in H. inv_res. destruct v1 as [s1 copies1]. cbn [fst snd] in *.
  destruct (collectCopies_ok _ _ _ _ _ _ _ _ Hs (or_intror eq_refl) Hv1) as (added & -> & Hm & Hnd & Hall).
  destruct (collectCopies_ok _ _ _ _ _ _ _ _ (mi_ok _ _ _ Hm) (or_introl eq_refl) H) as (added' & -> & Hm' & Hnd' & Hall').
  split; [rewrite fmap_app; by eapply mints_app|]. split; [apply Hnd', Hnd; constructor|].
  intros c [Hc|Hc]%elem_of_app.
  - destruct (Hall c Hc) as (H1 & H2 & H3 & H4). rewrite H2. done.
  - destruct (Hall' c Hc) as (H1 & H2 & H3 & H4). rewrite (mi_state _ _ _ Hm) in H1. rewrite H2. done.
Qed.

(** ** Staging a conversation *)

Definition push_copies (tx : Transaction) (copies : list ForkDocumentCopy) : Transaction :=
  foldl (fun tx c => push_entry (copy_entry c) tx) tx copies.

Lemma push_copies_base copies : forall tx base, tx_documents base = tx_documents tx -> tx_latest base = tx_latest tx ->
  push_copies base copies = with_entries (tx_documents (push_copies tx copies)) (tx_latest (push_copies tx copies)) base.
Proof.
  unfold push_copies. induction copies as [|c copies IH]; intros tx base E1 E2; cbn [foldl]; [by destruct base; cbn in *; subst|].
  rewrite (IH (push_entry (copy_entry c) tx) (push_entry (copy_entry c) base)); [done|cbn; by rewrite E1|cbn; by rewrite E1, E2].
Qed.

(** A copy to stage: it fits, and its ID and address are free. *)
Record copy_ok (s : SessionState) (tx : Transaction) (c : ForkDocumentCopy) : Prop := {
  cc_fits : copy_fits (document_tables (stored_state s)) (fc_record c) (fc_source c);
  cc_fork : dc_fork (fc_record c) <> Some ForkInitial;
  cc_create : create_ok (fc_record c);
  cc_owner : owner_staged s tx (dc_scope (fc_record c));
  cc_source : cs_id (fc_source c) ∈ tx_forkDocuments tx;
  cc_fresh : fresh_id s (dc_id (fc_record c));
  cc_new : dc_id (fc_record c) ∉ tx_ids tx;
  cc_vacated : vacated tx (copy_address c);
  cc_free : forall id o, stored_docs s !! id = Some o -> live o -> address_of (d_create (st_record o)) <> address_of (fc_record c);
}.

Lemma push_copies_ok s copies : forall tx, tx_ok s tx -> (forall c, c ∈ copies -> copy_ok s tx c) ->
  NoDup (copy_id <$> copies) -> NoDup (copy_address <$> copies) -> tx_ok s (push_copies tx copies).
Proof.
  induction copies as [|c copies IH]; intros tx Htx Hall Hids Had; [done|]. cbn [fmap list_fmap] in Hids, Had.
  apply NoDup_cons in Hids as [Hid Hids], Had as [Ha Had]. pose proof (Hall c (list_elem_of_here _ _)) as []. 
  assert (Htx' : tx_ok s (push_entry (copy_entry c) tx)).
  { apply push_entry_ok; [done| |done|by intros ? [= <-]|done|].
    - split; [done|]. cbn. by split_and!.
    - intros id o Ho Hl Ea. by destruct (cc_free0 id o Ho Hl). }
  apply IH; [done| |done..]. intros x Hx. pose proof (Hall x (list_elem_of_further _ _ _ Hx)) as []. constructor; try done.
  - unfold tx_ids. cbn. rewrite omap_app, fmap_app, !app_assoc. cbn. intros [Hin|E%list_elem_of_singleton]%elem_of_app.
    + apply cc_new1. unfold tx_ids. by rewrite !app_assoc.
    + apply Hid, list_elem_of_fmap. by exists x.
  - intros e [He| ->%list_elem_of_singleton]%elem_of_app E; [by apply cc_vacated1|]. exfalso. apply Ha, list_elem_of_fmap.
    by exists x.
Qed.

(** Nothing is at the addresses of a new conversation. *)
Lemma new_conversation_free s tx child : session_ok s -> tx_ok s tx -> fresh_id s child -> child ∉ tx_ids tx ->
  (forall id o, stored_docs s !! id = Some o -> live o -> dc_scope (d_create (st_record o)) <> ScopeConversation child) /\
  forall e, e ∈ tx_documents tx -> da_scope (de_address e) = ScopeConversation child -> de_retireOnCommit e = true.
Proof.
  intros Hs Htx [Hf Hlt] Hn. pose proof (se_storage _ Hs) as Hst.
  assert (Hno : ~ is_Some (conversations_of (stored_state s) !! child)).
  { intros H. assert (in_table (stored_state s) TConversation child) as Hin by exact H. apply (si_types _ _ _ _ (so_inv _ Hst)) in Hin. congruence. }
  assert (Hlive : forall id o, stored_docs s !! id = Some o -> live o -> dc_scope (d_create (st_record o)) <> ScopeConversation child).
  { intros id o Ho Hl E. pose proof (so_owner _ Hst id o Ho Hl) as Hown. rewrite E in Hown. done. }
  assert (Hst' : ~ owner_staged s tx (ScopeConversation child)).
  { intros [H|H]; [|done]. apply (to_created _ _ Htx) in H as (r & Hr & Er). apply Hn. unfold tx_ids. apply elem_of_app. left.
    apply list_elem_of_fmap. exists (child, TConversation). split; [done|]. apply list_elem_of_omap. exists (WConversation r). by rewrite <- Er. }
  split; [done|]. intros e He Esc. pose proof (to_entries _ _ Htx e He) as [Ha Hok].
  destruct (entry_existing e) as [i|] eqn:Ex.
  { destruct (existing_address s tx e i Hs (to_entries _ _ Htx e He) Ex) as (o & Ho & Hl & Ea). exfalso. apply (Hlive i o Ho Hl).
    rewrite <- Esc, <- Ea. done. }
  unfold entry_existing in Ex. unfold target_ok in Hok. destruct (de_target e) as [[d|c v value|c source|r]|]; try done.
  - destruct Hok as (Ea & _ & Hown & _). exfalso. apply Hst'. by rewrite <- Esc, <- Ea.
  - destruct Hok as (Ea & _ & Hown & _). exfalso. apply Hst'. by rewrite <- Esc, <- Ea.
  - by destruct Hok.
Qed.

Lemma add_conversation_ok s tx r forked sources : tx_ok s tx -> fresh_id s (c_id r) -> c_id r ∉ tx_ids tx ->
  tx_ok s (add_write (WConversation r) (with_sets ({[c_id r]} ∪ tx_createdConversations tx) forked (sources ∪ tx_forkDocuments tx) tx)).
Proof.
  intros Htx Hf Hn. pose proof Htx as [].
  match goal with |- tx_ok s ?t => destruct (ids_add (c_id r) (tx_ids tx) (tx_ids t) s) as [H1 H2] end; try done.
  { unfold tx_ids. cbn. rewrite claims_app, fmap_app. cbn. rewrite <- app_assoc. symmetry. apply Permutation_middle. }
  apply (tx_tables s tx); try done; cbn.
  - intros w [Hw| ->%list_elem_of_singleton]%elem_of_app; [by auto|left; by eexists].
  - intros c. rewrite elem_of_union, to_created, elem_of_singleton. split.
    + intros [->|(x & Hx & Hc)]; [exists r|exists x]; (split; [apply elem_of_app|done]); [right; left|by left].
    + intros (x & [Hx|[= ->]%list_elem_of_singleton]%elem_of_app & Hc); [right; by exists x|by left].
  - intros [|c|t]; cbn; [done| |done]. intros [Hc|Hc]; [left; set_solver|by right].
  - set_solver.
Qed.

Lemma push_copies_sets copies tx created forked sources w :
  add_write w (with_sets created forked sources (push_copies tx copies)) = push_copies (add_write w (with_sets created forked sources tx)) copies.
Proof.
  rewrite (push_copies_base copies tx tx) by done. symmetry. by rewrite (push_copies_base copies tx).
Qed.

Lemma push_copies_fields copies tx :
  tx_createdConversations (push_copies tx copies) = tx_createdConversations tx /\ tx_forkDocuments (push_copies tx copies) = tx_forkDocuments tx.
Proof. by rewrite (push_copies_base copies tx tx). Qed.

(** The work of [stageConversation] after the ID is minted. *)
Lemma stage_ok s tx record copies s2 forked : session_ok s -> tx_ok s tx -> fresh_id s (c_id record) -> c_id record ∉ tx_ids tx ->
  mints s s2 (copy_id <$> copies) -> NoDup (copy_address <$> copies) ->
  (forall c, c ∈ copies -> copy_fits (document_tables (stored_state s)) (fc_record c) (fc_source c) /\ dc_fork (fc_record c) <> Some ForkInitial /\
      create_ok (fc_record c) /\ dc_scope (fc_record c) = ScopeConversation (c_id record)) ->
  tx_ok s2 (add_write (WConversation record) (with_sets ({[c_id record]} ∪ tx_createdConversations (push_copies tx copies)) forked
     (list_to_set ((fun c => cs_id (fc_source c)) <$> copies) ∪ tx_forkDocuments (push_copies tx copies)) (push_copies tx copies))).
Proof.
  intros Hs Htx Hf Hn Hm Had Hall. destruct (push_copies_fields copies tx) as [-> ->]. rewrite push_copies_sets.
  set (base := add_write _ (with_sets _ _ _ tx)).
  pose proof (mints_continues _ _ _ (tx_documents tx) Hm) as Hc. pose proof (tx_continues _ _ _ Hc Htx) as Htx2.
  assert (Hbase : tx_ok s2 base) by (apply add_conversation_ok; [done|by eapply fresh_continues|done]).
  destruct (mints_fresh s s2 _ (c_id record :: tx_ids tx) Hs Hm) as [Hfr Hnew]; [by constructor; [|apply Htx]|].
  destruct (new_conversation_free s tx (c_id record) Hs Htx Hf Hn) as [Hfree Hvac].
  apply push_copies_ok; [done| |apply Hm|done]. intros c Hin. destruct (Hall c Hin) as (H1 & H2 & H3 & H4).
  assert (Hid : copy_id c ∈ copy_id <$> copies) by (by apply list_elem_of_fmap; exists c). cbn in Hid. constructor; try done.
  - by rewrite (mi_state _ _ _ Hm).
  - rewrite H4. cbn. left. set_solver.
  - cbn. apply elem_of_union. left. apply elem_of_list_to_set, list_elem_of_fmap. by exists c.
  - rewrite Forall_forall in Hfr. by apply Hfr.
  - intros Hx. apply (Hnew _ Hid). 
    assert (Hp : tx_ids base ≡ₚ c_id record :: tx_ids tx); [|by rewrite Hp in Hx].
    unfold tx_ids, base. cbn. rewrite claims_app, fmap_app. cbn. rewrite <- app_assoc. symmetry. apply Permutation_middle.
  - intros e He E. apply (Hvac e He). destruct (to_entries _ _ Htx e He) as [Ha _]. rewrite Ha in E. apply addressId_inj in E. rewrite E. exact H4.
  - intros id o Ho Hl E. rewrite (mi_state _ _ _ Hm) in Ho. apply (Hfree id o Ho Hl). transitivity (da_scope (address_of (d_create (st_record o)))); [done|].
    rewrite E. exact H4.
Qed.

Lemma stageConversation_ok s tx parent owner s' tx' record : session_ok s -> tx_ok s tx ->
  stageConversation s tx parent owner None = Ok (s', tx', record) -> tx_ok s' tx' /\ continues s s' (tx_documents tx).
Proof.
  intros Hs Htx H. unfold stageConversation in H. destruct (mint s) as [[s1 id]|] eqn:Em; [|done]. cbn [mbind res_bind] in H.
  destruct (mint_tx s s1 id tx Hs Htx Em) as (Htx1 & Hc1 & Hf & Hn). pose proof (cn_ok _ _ _ Hc1) as Hs1.
  match type of H with (?r ≫= _) = _ => destruct r as [[tx1 link]|] eqn:Eo end; [|done]. cbn [mbind res_bind] in H.
  assert (Ht : tx_ok s1 tx1 /\ tx_ids tx1 = tx_ids tx /\ tx_documents tx1 = tx_documents tx).
  { destruct owner as [taskId|]; [|by injection Eo as <- _].
    assert (tx1 = touch_task taskId tx) as ->.
    { destruct (currentTask s1 tx taskId) as [[t|]|]; try done. by injection Eo as <- _. }
    split; [by apply touch_task_ok|]. split; [|by destruct (touch_documents taskId tx)].
    destruct (touch_task_spec taskId tx) as [[_ E]|Hd]; [done|]. destruct Hd. apply Htx. }
  destruct Ht as (Ht1 & Eids & Edocs). rewrite <- Eids in Hn.
  match type of H with (?r ≫= _) = _ => destruct r as [[s2 copies]|] eqn:Ecopy end; [|done]. cbn [mbind res_bind] in H.
  injection H as <- <- _. fold (push_copies tx1 copies).
  assert (Hcopies : mints s1 s2 (copy_id <$> copies) /\ NoDup (copy_address <$> copies) /\
    forall c, c ∈ copies -> copy_fits (document_tables (stored_state s1)) (fc_record c) (fc_source c) /\ dc_fork (fc_record c) <> Some ForkInitial /\
      create_ok (fc_record c) /\ dc_scope (fc_record c) = ScopeConversation id).
  { destruct parent as [p|]; [by eapply prepareForkDocumentCopies_ok|]. injection Ecopy as <- <-.
    split; [by apply mints_nil|]. split; [constructor|]. by intros c []%elem_of_nil. }
  destruct Hcopies as (Hm & Had & Hall). split; [by apply (stage_ok s1 tx1 {| c_id := id; c_parent := parent; c_owner := link |})|].
  eapply continues_trans; [exact Hc1|by eapply mints_continues].
Qed.

Lemma createConversation_ok s tx owner s' tx' : session_ok s -> tx_ok s tx ->
  createConversation s tx owner = Ok (s', tx') -> tx_ok s' tx' /\ continues s s' (tx_documents tx).
Proof.
  intros Hs Htx%table_write_ok H. unfold createConversation in H. inv_res. destruct v as [[s1 tx1] r]. cbn in H. injection H as -> ->.
  by apply (stageConversation_ok s (table_write tx) _ _ _ _ _ Hs Htx Hv).
Qed.

Lemma forkConversation_ok s tx parent at_ owner s' tx' : session_ok s -> tx_ok s tx ->
  forkConversation s tx parent at_ owner = Ok (s', tx') -> tx_ok s' tx' /\ continues s s' (tx_documents tx).
Proof.
  intros Hs Htx%table_write_ok H. unfold forkConversation in H. inv_res. destruct v as [[s1 tx1] r]. cbn in H. injection H as -> ->.
  by apply (stageConversation_ok s (table_write tx) _ _ _ _ _ Hs Htx Hv).
Qed.

(** ** Callbacks *)

Lemma tx_step_ok x y : tx_step x y -> session_ok x.1 -> tx_ok x.1 x.2 ->
  tx_ok y.1 y.2 /\ continues x.1 y.1 (tx_documents x.2).
Proof.
  destruct 1; cbn [fst snd]; intros Hs Htx.
  - by eapply createConversation_ok.
  - by eapply forkConversation_ok.
  - by eapply appendEntry_ok.
  - by eapply createTask_ok.
  - split; [by eapply setTask_ok|by apply continues_refl].
  - by eapply createSubmission_ok.
  - split; [by apply changeSubmission_ok|by apply continues_refl].
  - by eapply doc_ok.
  - split; [by eapply edit_ok|by apply continues_refl].
  - split; [by eapply retireDoc_ok|by apply continues_refl].
Qed.

Lemma new_transaction_ok s conversationId taskId carrier : tx_ok s (transaction_new conversationId taskId carrier).
Proof.
  constructor; cbn; try first [done|apply NoDup_nil_2|by intros ? []%elem_of_nil|by intros ? ? []%elem_of_nil|by intros ? ? ? []%elem_of_nil].
  intros c. split; [by intros []%elem_of_empty|]. by intros (r & []%elem_of_nil & _).
Qed.

(** A callback leaves a Session and a transaction in order. *)
Lemma callback_ok s tx s' tx' : session_ok s -> tx_ok s tx -> callback s tx s' tx' ->
  session_ok s' /\ tx_ok s' tx' /\ continues s s' [].
Proof.
  intros Hs Htx Hcb.
  assert (Hgo : forall x y, rtc tx_step x y -> session_ok x.1 -> tx_ok x.1 x.2 -> session_ok y.1 /\ tx_ok y.1 y.2 /\ continues x.1 y.1 []).
  { clear. intros x y H. induction H as [x|x z y Hxz _ IH]; intros Hs Htx; [split_and!; [done..|by apply continues_refl]|].
    destruct (tx_step_ok x z Hxz Hs Htx) as [Htz Hc]. destruct (IH (cn_ok _ _ _ Hc) Htz) as (H1 & H2 & H3). split_and!; [done..|].
    eapply continues_trans; [|exact H3]. destruct Hc as [C1 C2 C3 C4 C5 C6 C9 C7 C8]. constructor; try done. by intros e []%elem_of_nil. }
  by apply (Hgo (s, tx) (s', tx')).
Qed.

(** A document that a fork copies, in the state that the copy begins with. *)
Definition forked (entryConversation seq parent : N) (r : DocumentRecord) (p : DocumentPoint) : Prop :=
  isAliveAt r p = true /\
  match p with
  | PSeq n => n = seq /\ dc_scope (d_create r) = ScopeConversation entryConversation /\ dc_fork (d_create r) = Some ForkAsOf
  | PCurrent => dc_scope (d_create r) = ScopeConversation parent /\ dc_fork (d_create r) = Some ForkCurrent
  end.

Definition source_at (p : DocumentPoint) (r : DocumentRecord) : DocumentCopySource := {| cs_id := record_id r; cs_at := p |}.

Definition picked (policy : ForkMode) (r : DocumentRecord) : Prop :=
  is_conversation_scope (dc_scope (d_create r)) = true /\ dc_fork (d_create r) = Some policy.

#[export] Instance picked_dec policy r : Decision (picked policy r).
Proof. unfold picked. solve_decision. Defined.

Lemma collect_sources_exact at_ policy child sources : forall s copies s' copies',
  collect_sources s at_ policy child copies sources = Ok (s', copies') ->
  fc_source <$> copies' = (fc_source <$> copies) ++ (source_at at_ <$> filter (picked policy) sources).
Proof.
  induction sources as [|source sources IH]; intros s copies s' copies' H.
  { injection H as _ <-. by rewrite app_nil_r. }
  cbn [collect_sources] in H. rewrite filter_cons. destruct (negb _ || negb _) eqn:Ek.
  - rewrite decide_False; [by eapply IH|]. intros [E1 E2]. rewrite E1, E2, bool_decide_true in Ek by done. done.
  - apply orb_false_iff in Ek as [Ek1 Ek2]. bool_to_prop. rewrite decide_True by done.
    destruct (mint s) as [[s1 id]|]; [|done]. cbn [mbind res_bind] in H. destruct (check _ _); [|done]. cbn [mbind res_bind] in H.
    rewrite (IH _ _ _ _ H), fmap_app, <- app_assoc. done.
Qed.

(** One scan's sources. *)
Lemma collect_exact s conversationId at_ policy child copies s' copies' : session_ok s ->
  collectCopies s conversationId at_ policy child copies = Ok (s', copies') ->
  exists added, fc_source <$> copies' = (fc_source <$> copies) ++ added /\ NoDup added /\
    forall source, source ∈ added <-> exists r, record_at (ss_storage s) (record_id r) = Some r /\ source = source_at at_ r /\
      dc_scope (d_create r) = ScopeConversation conversationId /\ dc_fork (d_create r) = Some policy /\ isAliveAt r at_ = true.
Proof.
  intros Hs H. unfold collectCopies in H.
  destruct (all_documents_ok s {| dq_scope := ScopeConversation conversationId; dq_at := at_; dq_kind := None |} Hs) as (L & EL & Hnd & HL).
  rewrite EL in H. cbn [mbind res_bind] in H. exists (source_at at_ <$> filter (picked policy) L). split; [by eapply collect_sources_exact|]. split.
  - apply NoDup_fmap_2_strong; [|apply NoDup_filter; by eapply NoDup_fmap_1]. intros r r' (_ & Hr)%list_elem_of_filter (_ & Hr')%list_elem_of_filter [= E].
    apply HL in Hr as (Hr & _), Hr' as (Hr' & _). unfold source_at in *. congruence.
  - intros source. rewrite list_elem_of_fmap. split.
    + intros (r & -> & ([Hc Hf] & (H1 & H2 & H3)%HL)%list_elem_of_filter). exists r. split_and!; try done.
    + intros (r & H1 & -> & H2 & H3 & H4). exists r. split; [done|]. apply list_elem_of_filter. split; [unfold picked; by rewrite H2|].
      apply HL. split; [done|]. split; [done|]. unfold keep_record. cbn. by rewrite H4.
Qed.

Lemma fork_copies_sources s parent at_ child s' copies : session_ok s -> prepareForkDocumentCopies s parent at_ child = Ok (s', copies) ->
  exists e, ran (entry_visible (chain_fuel parent) (ss_storage s) parent at_) = Ok (Some e) /\
    NoDup (fc_source <$> copies) /\
    (forall id p, {| cs_id := id; cs_at := p |} ∈ fc_source <$> copies <->
       exists r, record_at (ss_storage s) id = Some r /\ forked (e_conversationId e.1) e.2 parent r p) /\
    NoDup (copy_address <$> copies).
Proof.
  intros Hs H. destruct (prepareForkDocumentCopies_ok _ _ _ _ _ _ Hs H) as (_ & Haddr & _). unfold prepareForkDocumentCopies in H.
  destruct (ran (entry_visible (chain_fuel parent) (ss_storage s) parent at_)) as [[e|]|] eqn:Ev; try done. cbn [of_storage res_of mbind res_bind] in H.
  exists e. split; [done|]. destruct (collectCopies s _ _ _ _ _) as [[s1 c1]|] eqn:E1; [|done]. cbn [mbind res_bind fst snd] in H.
  destruct (collectCopies_ok _ _ _ _ _ _ _ _ Hs (or_intror eq_refl) E1) as (copies1 & _ & Hm & _).
  destruct (collect_exact _ _ _ _ _ _ _ _ Hs E1) as (a1 & X1 & N1 & A1), (collect_exact _ _ _ _ _ _ _ _ (mi_ok _ _ _ Hm) H) as (a2 & X2 & N2 & A2).
  rewrite X1 in X2. cbn in X2. rewrite X2. split; [|split; [|done]].
  - apply NoDup_app. split; [done|]. split; [|done]. intros source (r & _ & -> & _)%A1 (r' & _ & E & _)%A2. by injection E.
  - intros id p. rewrite elem_of_app, A1, A2. unfold source_at. 
    assert (Est : forall i : N, record_at (ss_storage s1) i = record_at (ss_storage s) i) by (intros i; by rewrite (mi_state _ _ _ Hm)). split.
    + intros [(r & H1 & [= -> ->] & H2 & H3 & H4)|(r & H1 & [= -> ->] & H2 & H3 & H4)]; exists r; rewrite ?Est in H1; (split; [done|]); by split.
    + intros (r & Hr & Hal & Hp). assert (record_id r = id) as <-.
      { destruct (stored_docs s !! id) as [o|] eqn:Ho; [|done]. injection Hr as <-. by eapply stored_id; [apply Hs|]. }
      destruct p as [|n]; [right|left]; exists r; rewrite ?Est; [by destruct Hp|]. destruct Hp as (-> & ? & ?). done.
Qed.
