(* ===== verification/BatchPlans.v ===== *)
(** What settlement assembles (durable/src/session/transaction.ts, session.ts): the plan of
    each document, and the held changes that are stored with it. *)
From S2P Require Import Prelude JsString Json DeltaOp DeltaApply DeltaPending StorageTypes SortedIds MemoryCommit DocumentFacts TableFacts MemoryFacts MemoryRead ReadFacts MemoryHistory SessionTypes SessionTransaction SessionCommit BatchFacts SessionInvariant TransactionFacts TransactionDocuments.

Lemma res_foldl_unit {E A} (f : A -> res E unit) l u : res_foldl (fun _ x => f x) tt l = Ok u -> forall x, x ∈ l -> f x = Ok tt.
Proof.
  induction l as [|x l IH]; cbn; [by intros _ ? []%elem_of_nil|]. destruct (f x) as [[]|] eqn:E0; [|done]. cbn.
  intros H y [->|Hy]%elem_of_cons; [done|by apply IH].
Qed.

(** ** One plan *)

(** The content of a prepared change of a loaded document. *)
Inductive own_change (d : LoadedDocument) (prepared : Prepared) (version : N) : option StorageWrite -> Prop :=
| own_none : ld_storedVersion d = version -> pr_ops prepared = [] -> own_change d prepared version None
| own_base : own_change d prepared version
    (Some (WDocumentChange (ld_id d) {| dcn_version := version; dcn_content := CBase (pr_value prepared) |}))
| own_delta : ld_storedVersion d = version -> pr_ops prepared <> [] -> own_change d prepared version
    (Some (WDocumentChange (ld_id d) {| dcn_version := version; dcn_content := CDelta (pr_ops prepared) |})).

(** A plan whose content fits what the Session shows. *)
Definition plan_content_ok (s : SessionState) (tx : Transaction) (p : DocumentPlan) : Prop :=
  match dp_record p, dp_change p with
  | inl c, Some ch =>
      pc_loaded ch = None /\ dp_content p = Some (WDocumentCreate c (pc_version ch) (pr_value (pc_prepared ch))) /\ plain (pr_value (pc_prepared ch))
  | inl c, None =>
      exists source, dp_content p = Some (WDocumentCopy c source) /\ dc_fork c <> Some ForkInitial /\
        copy_fits (document_tables (stored_state s)) c source /\ cs_id source ∈ tx_forkDocuments tx
  | inr r, Some ch =>
      exists d, pc_loaded ch = Some d /\ r = ld_record d /\ ss_documents s !! dp_addressId p = Some d /\ pc_version ch = ld_valueVersion d /\
        performs (ld_value d) (pr_ops (pc_prepared ch)) (pr_value (pc_prepared ch)) /\
        own_change d (pc_prepared ch) (pc_version ch) (dp_content p)
  | inr r, None => dp_content p = None /\ dp_retire p = true
  end.

Record plan_ok (s : SessionState) (tx : Transaction) (p : DocumentPlan) : Prop := {
  pk_address : dp_addressId p = addressId (address_of (plan_create p));
  pk_held : dp_held p = None;
  pk_content : plan_content_ok s tx p;
  pk_new : forall c, dp_record p = inl c -> create_ok c /\ owner_staged s tx (dc_scope c) /\ dc_id c ∈ tx_ids tx;
  pk_stored : forall r, dp_record p = inr r -> exists o, stored_docs s !! dc_id (d_create r) = Some o /\ live o /\ st_record o = r;
}.

(** What leaves the content, the change and the record of a plan. *)
Definition same_plan (p q : DocumentPlan) : Prop :=
  dp_addressId q = dp_addressId p /\ dp_record q = dp_record p /\ dp_content q = dp_content p /\ dp_change q = dp_change p /\
  dp_held q = dp_held p /\ (dp_retire p = true -> dp_retire q = true).

Lemma same_plan_ok s tx p q : same_plan p q -> plan_ok s tx p -> plan_ok s tx q.
Proof.
  intros (E1 & E2 & E3 & E4 & E5 & E6) [H1 H2 H3 H4 H5]. assert (E7 : plan_create q = plan_create p) by (unfold plan_create; by rewrite E2).
  constructor; rewrite ?E1, ?E2, ?E5, ?E7; try done. unfold plan_content_ok in *. rewrite E1, E2, E3, E4.
  destruct (dp_record p), (dp_change p); try done. destruct H3 as [H3 H3']. split; [done|by apply E6].
Qed.

Lemma loaded_content_own s d version prepared : loaded_ok s (ld_addressId d) d -> version = ld_valueVersion d ->
  own_change d prepared version (loaded_content d version prepared).
Proof.
  intros Hl ->. unfold loaded_content. pose proof (lo_versions _ _ _ Hl). destruct (N.ltb_spec (ld_storedVersion d) (ld_valueVersion d)); [constructor|].
  destruct (pr_ops prepared) as [|op ops] eqn:E; [constructor; [lia|done]|]. rewrite <- E. constructor; [lia|by rewrite E].
Qed.

(** ** The plan of an entry *)

Lemma planDocument_ok s tx e p : session_ok s -> tx_ok s tx -> e ∈ tx_documents tx -> planDocument e = Some p ->
  plan_ok s tx p /\ dp_addressId p = de_addressId e /\ dp_retire p = de_retireOnCommit e /\
  match dp_record p with
  | inl c => entry_created e = Some c /\ entry_existing e = None
  | inr r => entry_created e = None /\ entry_existing e = Some (dc_id (d_create r))
  end.
Proof.
  intros Hs Htx He H. destruct (to_entries _ _ Htx e He) as [Ha Hok]. unfold planDocument in H. unfold target_ok in Hok.
  assert (Hid : forall c, entry_created e = Some c -> dc_id c ∈ tx_ids tx).
  { intros c Hc. unfold tx_ids. rewrite !elem_of_app. do 3 right. apply list_elem_of_fmap. exists c. split; [done|]. apply list_elem_of_omap. by exists e. }
  unfold entry_created, entry_existing in *. destruct (de_target e) as [[d|c v value|c source|r]|] eqn:Et; [| | | |done].
  - destruct Hok as (Hd & definition & pr & Edef & Ech & Hperf & Ever). rewrite Edef, Ech in H. cbn in H. injection H as <-.
    pose proof (se_documents _ Hs _ _ Hd) as Hl. split; [|done]. constructor; cbn; [|done| |done|].
    + apply Hl.
    + exists d. split_and!; try done. apply (loaded_content_own s); [by rewrite (lo_id _ _ _ Hl)|done].
    + intros r [= <-]. apply Hl.
  - destruct Hok as (Ead & Hcr & Hown & pr & Ech & Hperf). rewrite Ech in H. cbn in H. injection H as <-. split; [|done]. constructor; cbn; [|done| | |done].
    + by rewrite Ead.
    + split; [done|]. split; [done|apply Hperf].
    + intros c' [= <-]. split_and!; [done..|]. by apply Hid.
  - destruct Hok as (Ead & Hcr & Hown & Hfork & Hfit & Hsrc & Ech). injection H as <-. split; [|done]. constructor; cbn; [|done| | |done].
    + by rewrite Ead.
    + by exists source.
    + intros c' [= <-]. split_and!; [done..|]. by apply Hid.
  - destruct Hok as (Eret & Ech & Ead & o & Ho & Hl & Er). injection H as <-. split; [|done]. constructor; cbn; [|done| |done|].
    + by rewrite Ead.
    + done.
    + intros r' [= <-]. by exists o.
Qed.

(** Every entry with a target has a plan. *)
Lemma entry_plan s tx e : session_ok s -> tx_ok s tx -> e ∈ tx_documents tx -> is_Some (entry_created e) \/ is_Some (entry_existing e) ->
  is_Some (planDocument e).
Proof.
  intros Hs Htx He. destruct (to_entries _ _ Htx e He) as [_ Hok]. unfold planDocument, entry_created, entry_existing, target_ok in *.
  destruct (de_target e) as [[d|c v value|c source|r]|]; intros H; try (by eexists).
  - destruct Hok as (_ & definition & pr & -> & -> & _). by eexists.
  - destruct Hok as (_ & _ & _ & pr & -> & _). by eexists.
  - by destruct H as [[]|[]].
Qed.

(** ** All plans *)

Definition plan_new (p : DocumentPlan) : option DocumentCreate := match dp_record p with inl c => Some c | inr _ => None end.

Record plans_ok (s : SessionState) (tx : Transaction) (plans : list DocumentPlan) : Prop := {
  pl_plans : forall p, p ∈ plans -> plan_ok s tx p;
  pl_ids : NoDup (plan_id <$> plans);
  pl_new : omap plan_new plans = omap entry_created (tx_documents tx);
  pl_address : forall p q, p ∈ plans -> q ∈ plans -> dp_retire p = false -> dp_retire q = false ->
    dp_addressId p = dp_addressId q -> plan_id p = plan_id q;
  pl_covered : forall p c, p ∈ plans -> dp_record p = inl c -> dp_retire p = false ->
    forall id o, stored_docs s !! id = Some o -> live o -> address_of (d_create (st_record o)) = address_of c ->
    exists q, q ∈ plans /\ plan_id q = id /\ dp_retire q = true;
}.

Definition entry_id (e : DocumentEntry) : option N :=
  match entry_created e with Some c => Some (dc_id c) | None => entry_existing e end.

Lemma entry_ids_unique l :
  NoDup (dc_id <$> omap entry_created l) -> NoDup (omap entry_existing l) ->
  (forall e e' c i, e ∈ l -> e' ∈ l -> entry_created e = Some c -> entry_existing e' = Some i -> dc_id c <> i) ->
  NoDup (omap entry_id l).
Proof.
  induction l as [|e l IH]; intros H1 H2 Hd; [constructor|]. cbn [omap list_omap] in *.
  assert (IH' : NoDup (dc_id <$> omap entry_created l) -> NoDup (omap entry_existing l) -> NoDup (omap entry_id l)).
  { intros A B. apply IH; [done..|]. intros x x' c i Hx Hx'. apply Hd; by right. }
  assert (Hin : forall i, i ∈ omap entry_id l -> i ∈ dc_id <$> omap entry_created l \/ i ∈ omap entry_existing l).
  { intros i (x & Hx & E)%list_elem_of_omap. unfold entry_id in E. destruct (entry_created x) as [c|] eqn:Ec; [left|right].
    - injection E as <-. apply list_elem_of_fmap. exists c. split; [done|]. apply list_elem_of_omap. by exists x.
    - apply list_elem_of_omap. by exists x. }
  unfold entry_id at 1. destruct (entry_created e) as [c|] eqn:Ec.
  - cbn [fmap list_fmap] in H1. apply NoDup_cons in H1 as [Hn H1]. apply NoDup_cons. split.
    + intros [Hi|(x & Hx & Ex)%list_elem_of_omap]%Hin; [done|]. by apply (Hd e x c (dc_id c)); [left|right|..].
    + apply IH'; [done|]. by destruct (entry_existing e); [apply NoDup_cons in H2 as []|].
  - destruct (entry_existing e) as [i|] eqn:Ex; [|by apply IH']. apply NoDup_cons in H2 as [Hn H2]. apply NoDup_cons. split; [|by apply IH'].
    intros [(c & E & (x & Hx & Ec')%list_elem_of_omap)%list_elem_of_fmap|Hi]%Hin; [|done]. by apply (Hd x e c i); [right|left|..].
Qed.

(** A created document and a stored one. *)
Lemma created_not_stored s tx (id : N) o : session_ok s -> tx_ok s tx -> id ∈ tx_ids tx -> stored_docs s !! id = Some o -> False.
Proof.
  intros Hs Htx Hin Ho. pose proof (to_fresh _ _ Htx) as Hf. rewrite Forall_forall in Hf. destruct (Hf _ Hin) as [Hn _].
  assert (in_table (stored_state s) TDocument id) as Ht by by eexists. apply (si_types _ _ _ _ (so_inv _ (se_storage _ Hs))) in Ht. congruence.
Qed.

Lemma created_id s tx e c : tx_ok s tx -> e ∈ tx_documents tx -> entry_created e = Some c -> dc_id c ∈ tx_ids tx.
Proof.
  intros Htx He Hc. unfold tx_ids. rewrite !elem_of_app. do 3 right. apply list_elem_of_fmap. exists c. split; [done|].
  apply list_elem_of_omap. by exists e.
Qed.

Lemma staged_elem tx p : p ∈ omap planDocument (tx_documents tx) -> exists e, e ∈ tx_documents tx /\ planDocument e = Some p.
Proof. by intros H%list_elem_of_omap. Qed.

Lemma planned_id s tx e p : session_ok s -> tx_ok s tx -> e ∈ tx_documents tx -> planDocument e = Some p -> entry_id e = Some (plan_id p) /\ plan_new p = entry_created e.
Proof.
  intros Hs Htx He Hp. destruct (planDocument_ok s tx e p Hs Htx He Hp) as (_ & _ & _ & H). unfold entry_id, plan_id, plan_create, plan_new.
  destruct (dp_record p) as [c|r]; destruct H as [E1 E2]; by rewrite E1, ?E2.
Qed.

Lemma staged_ok s tx : session_ok s -> tx_ok s tx -> plans_ok s tx (omap planDocument (tx_documents tx)).
Proof.
  intros Hs Htx. constructor.
  - intros p (e & He & Hp)%staged_elem. by eapply planDocument_ok.
  - assert (E : plan_id <$> omap planDocument (tx_documents tx) = omap entry_id (tx_documents tx)).
    { assert (Hsub : forall l : list DocumentEntry, (forall e, e ∈ l -> e ∈ tx_documents tx) -> plan_id <$> omap planDocument l = omap entry_id l).
      { induction l as [|e l IH]; intros Hl; [done|]. cbn [omap list_omap]. specialize (IH (fun x Hx => Hl x (list_elem_of_further _ _ _ Hx))).
        pose proof (Hl e (list_elem_of_here _ _)) as He.
        destruct (planDocument e) as [p|] eqn:Hp.
        - destruct (planned_id s tx e p Hs Htx He Hp) as [-> _]. cbn. by rewrite IH.
        - rewrite IH. unfold entry_id. destruct (entry_created e) as [c|] eqn:Ec.
          + destruct (entry_plan s tx e Hs Htx He); [left; by eexists|congruence].
          + destruct (entry_existing e) as [i|] eqn:Ex; [|done]. destruct (entry_plan s tx e Hs Htx He); [right; by eexists|congruence]. }
      by apply Hsub. }
    rewrite E. apply entry_ids_unique.
    + pose proof (to_ids _ _ Htx) as H. unfold tx_ids in H. rewrite !app_assoc in H. by apply NoDup_app in H as (_ & _ & H).
    + apply Htx.
    + intros e e' c i He He' Hc Hx <-. destruct (existing_address s tx e' _ Hs (to_entries _ _ Htx e' He') Hx) as (o & Ho & _).
      exact (created_not_stored s tx (dc_id c) o Hs Htx (created_id s tx e c Htx He Hc) Ho).
  - assert (Hsub : forall l : list DocumentEntry, (forall e, e ∈ l -> e ∈ tx_documents tx) -> omap plan_new (omap planDocument l) = omap entry_created l).
    { induction l as [|e l IH]; intros Hl; [done|]. cbn [omap list_omap]. specialize (IH (fun x Hx => Hl x (list_elem_of_further _ _ _ Hx))).
      pose proof (Hl e (list_elem_of_here _ _)) as He. destruct (planDocument e) as [p|] eqn:Hp.
      - cbn [omap list_omap]. destruct (planned_id s tx e p Hs Htx He Hp) as [_ ->]. by rewrite IH.
      - rewrite IH. destruct (entry_created e) as [c|] eqn:Ec; [|done]. destruct (entry_plan s tx e Hs Htx He); [left; by eexists|congruence]. }
    by apply Hsub.
  - intros p q (e & He & Hp)%staged_elem (e' & He' & Hq)%staged_elem Rp Rq E.
    destruct (planDocument_ok s tx e p Hs Htx He Hp) as (_ & E1 & E2 & _), (planDocument_ok s tx e' q Hs Htx He' Hq) as (_ & E3 & E4 & _).
    apply list_elem_of_lookup in He as [i Hi], He' as [j Hj].
    destruct (to_last _ _ Htx i e Hi) as (k & Hk & Hik & Hri), (to_last _ _ Htx j e' Hj) as (k' & Hk' & Hjk & Hrj).
    assert (k' = k) as -> by congruence. assert (i = k) by (destruct (decide (i = k)); [done|]; rewrite Hri in E2; [congruence|lia]).
    assert (j = k) by (destruct (decide (j = k)); [done|]; rewrite Hrj in E4; [congruence|lia]). subst. congruence.
  - intros p c (e & He & Hp)%staged_elem Ec Rp id o Ho Hl Ea.
    destruct (planDocument_ok s tx e p Hs Htx He Hp) as (Hok & E1 & E2 & Hm). rewrite Ec in Hm. destruct Hm as [Hcr Hnx].
    destruct (to_entries _ _ Htx e He) as [Hid _]. 
    assert (Eaddr : de_address e = address_of c).
    { apply addressId_inj. rewrite <- Hid, <- E1, (pk_address _ _ _ Hok). unfold plan_create. by rewrite Ec. }
    destruct (to_covered _ _ Htx e He id o Ho Hl) as (e' & He' & Ex); [congruence|].
    destruct (entry_plan s tx e' Hs Htx He') as [q Hq]; [right; by eexists|].
    destruct (planDocument_ok s tx e' q Hs Htx He' Hq) as (_ & F1 & F2 & Hm'). exists q. split; [apply list_elem_of_omap; by exists e'|].
    destruct (planned_id s tx e' q Hs Htx He' Hq) as [Eid _].
    assert (entry_created e' = None) as En by (destruct (dp_record q); destruct Hm'; congruence).
    unfold entry_id in Eid. rewrite En, Ex in Eid. injection Eid as ->. split; [done|]. rewrite F2.
    destruct (existing_address s tx e' _ Hs (to_entries _ _ Htx e' He') Ex) as (o' & Ho' & _ & Ea').
    destruct (to_entries _ _ Htx e' He') as [Hid' _].
    apply list_elem_of_lookup in He as [i Hi], He' as [j Hj].
    destruct (to_last _ _ Htx i e Hi) as (k & Hk & Hik & Hri), (to_last _ _ Htx j e' Hj) as (k' & Hk' & Hjk & Hrj).
    assert (de_addressId e' = de_addressId e) as Ead by congruence. rewrite Ead in Hk'. assert (k' = k) as -> by congruence.
    assert (i = k) by (destruct (decide (i = k)); [done|]; rewrite Hri in E2; [congruence|lia]). subst i.
    apply Hrj. destruct (decide (j = k)) as [->|]; [|lia]. congruence.
Qed.

(** ** Steps of the assembly *)

Record plan_step (s : SessionState) (tx : Transaction) (p q : DocumentPlan) : Prop := {
  ps_address : dp_addressId q = dp_addressId p;
  ps_record : dp_record q = dp_record p;
  ps_retire : dp_retire p = true -> dp_retire q = true;
  ps_ok : plan_ok s tx p -> plan_ok s tx q;
}.

Lemma plan_step_id s tx p q : plan_step s tx p q -> plan_id q = plan_id p /\ plan_new q = plan_new p /\ plan_create q = plan_create p.
Proof. intros [_ E _ _]. unfold plan_id, plan_new, plan_create. by rewrite E. Qed.

Lemma same_plan_step s tx p q : same_plan p q -> plan_step s tx p q.
Proof. intros H. pose proof H as (E1 & E2 & _ & _ & _ & E6). constructor; try done. by apply same_plan_ok. Qed.

Lemma plans_step s tx plans plans' : plans_ok s tx plans -> Forall2 (plan_step s tx) plans plans' -> plans_ok s tx plans'.
Proof.
  intros [H1 H2 H3 H4 H5] Hst.
  assert (Hback : forall q, q ∈ plans' -> exists p, p ∈ plans /\ plan_step s tx p q).
  { intros q [i Hi]%list_elem_of_lookup. destruct (Forall2_lookup_r _ _ _ _ _ Hst Hi) as (p & Hp & Hpq). exists p.
    split; [by eapply list_elem_of_lookup_2|done]. }
  assert (Hfwd : forall p, p ∈ plans -> exists q, q ∈ plans' /\ plan_step s tx p q).
  { intros p [i Hi]%list_elem_of_lookup. destruct (Forall2_lookup_l _ _ _ _ _ Hst Hi) as (q & Hq & Hpq). exists q.
    split; [by eapply list_elem_of_lookup_2|done]. }
  assert (Eids : plan_id <$> plans' = plan_id <$> plans).
  { clear -Hst. induction Hst as [|p q l l' Hpq _ IH]; [done|]. cbn. destruct (plan_step_id _ _ _ _ Hpq) as (-> & _). by rewrite IH. }
  assert (Enew : omap plan_new plans' = omap plan_new plans).
  { clear -Hst. induction Hst as [|p q l l' Hpq _ IH]; [done|]. cbn. destruct (plan_step_id _ _ _ _ Hpq) as (_ & -> & _). by rewrite IH. }
  assert (Hret : forall p q, plan_step s tx p q -> dp_retire q = false -> dp_retire p = false).
  { intros p q Hpq Hq. destruct (dp_retire p) eqn:E; [|done]. apply (ps_retire _ _ _ _ Hpq) in E. congruence. }
  constructor; rewrite ?Eids, ?Enew; try done.
  - intros q (p & Hp & Hpq)%Hback. apply (ps_ok _ _ _ _ Hpq). by apply H1.
  - intros q q' (p & Hp & Hpq)%Hback (p' & Hp' & Hpq')%Hback R R' E.
    destruct (plan_step_id _ _ _ _ Hpq) as (-> & _), (plan_step_id _ _ _ _ Hpq') as (-> & _).
    apply H4; [done|done|by eapply Hret|by eapply Hret|]. by rewrite <- (ps_address _ _ _ _ Hpq), <- (ps_address _ _ _ _ Hpq').
  - intros q c (p & Hp & Hpq)%Hback Ec R id o Ho Hl Ea. rewrite (ps_record _ _ _ _ Hpq) in Ec.
    destruct (H5 p c Hp Ec (Hret _ _ Hpq R) id o Ho Hl Ea) as (x & Hx & Eid & Rx). destruct (Hfwd x Hx) as (y & Hy & Hxy).
    exists y. split; [done|]. destruct (plan_step_id _ _ _ _ Hxy) as (-> & _). split; [done|]. by apply (ps_retire _ _ _ _ Hxy).
Qed.

Definition stored_live (s : SessionState) (r : DocumentRecord) : Prop :=
  exists o, stored_docs s !! record_id r = Some o /\ live o /\ st_record o = r.

Lemma plans_retire s tx plans records : session_ok s -> tx_ok s tx -> plans_ok s tx plans ->
  (forall r, r ∈ records -> stored_live s r) -> NoDup (record_id <$> records) ->
  (forall r, r ∈ records -> record_id r ∉ plan_id <$> plans) -> plans_ok s tx (plans ++ (retire_plan <$> records)).
Proof.
  intros Hs Htx [H1 H2 H3 H4 H5] Hl Hnd Hn. constructor.
  - intros p [Hp|(r & -> & Hr)%list_elem_of_fmap]%elem_of_app; [by apply H1|]. constructor; try done. intros r' [= <-]. by apply Hl.
  - assert (E : plan_id <$> (retire_plan <$> records) = record_id <$> records) by by rewrite <- list_fmap_compose.
    rewrite fmap_app, E. apply NoDup_app. split; [done|]. split; [|done]. intros i Hi (r & -> & Hr)%list_elem_of_fmap. by apply (Hn r).
  - rewrite omap_app, H3. assert (E : omap plan_new (retire_plan <$> records) = []) by (clear; induction records; done). by rewrite E, app_nil_r.
  - intros p q [Hp|(r & -> & Hr)%list_elem_of_fmap]%elem_of_app [Hq|(r' & -> & Hr')%list_elem_of_fmap]%elem_of_app Rp Rq; try done. by apply H4.
  - intros p c [Hp|(r & -> & Hr)%list_elem_of_fmap]%elem_of_app; [|done]. intros Ec Rp id o Ho Hlo Ea.
    destruct (H5 p c Hp Ec Rp id o Ho Hlo Ea) as (q & Hq & E). exists q. split; [apply elem_of_app; by left|done].
Qed.

(** ** Documents of ended tasks *)

Lemma retire_records_spec records : forall plans retiring,
  exists added, (retire_records (plans, retiring) records).1 = plans ++ (retire_plan <$> added) /\
    NoDup (record_id <$> added) /\ (forall r, r ∈ added -> r ∈ records /\ record_id r ∉ retiring) /\
    (forall i : N, i ∈ (retire_records (plans, retiring) records).2 <-> i ∈ retiring \/ i ∈ record_id <$> added) /\
    (forall r, r ∈ records -> record_id r ∈ retiring \/ record_id r ∈ record_id <$> added).
Proof.
  unfold retire_records. induction records as [|r records IH]; intros plans retiring.
  { exists []. rewrite app_nil_r. split_and!; try done; [constructor|by intros ? []%elem_of_nil| |by intros ? []%elem_of_nil]. intros i. cbn. set_solver. }
  cbn [foldl fst snd]. case_bool_decide as Hd.
  - destruct (IH plans retiring) as (added & E1 & H1 & H2 & H3 & H4). exists added. split_and!; try done.
    + intros x Hx. destruct (H2 x Hx). split; [by right|done].
    + intros x [->|Hx]%elem_of_cons; [by left|by apply H4].
  - destruct (IH (plans ++ [retire_plan r]) ({[record_id r]} ∪ retiring)) as (added & E1 & H1 & H2 & H3 & H4). exists (r :: added).
    split; [by rewrite E1, <- app_assoc|]. split; [|split; [|split]].
    + cbn. constructor; [|done]. intros (x & E & Hx)%list_elem_of_fmap. destruct (H2 x Hx) as [_ Hx']. apply Hx'. rewrite <- E. set_solver.
    + intros x [->|Hx]%elem_of_cons; [split; [left|done]|]. destruct (H2 x Hx) as [Hin Hnx]. split; [by right|]. set_solver.
    + intros i. rewrite H3. cbn. set_solver.
    + intros x [->|Hx]%elem_of_cons; [right; cbn; left|]. destruct (H4 x Hx) as [Hin|Hin]; [|right; cbn; by right].
      apply elem_of_union in Hin as [E%elem_of_singleton|Hin]; [right; cbn; rewrite E; left|by left].
Qed.

(** Every plan of an ending task retires, and so does every document of it. *)
Record ending_ok (s : SessionState) (ending : list (N * bool)) (done : list (N * bool)) (plans : list DocumentPlan) (retiring : gset N) : Prop := {
  en_marked : forall p, p ∈ plans -> in_ending ending (dc_scope (plan_create p)) = true -> dp_retire p = true /\ plan_id p ∈ retiring;
  en_retiring : forall id, id ∈ retiring -> exists p, p ∈ plans /\ plan_id p = id /\ dp_retire p = true;
  en_all : forall t r, (t, false) ∈ done -> stored_live s r -> dc_scope (d_create r) = ScopeTask t ->
    exists p, p ∈ plans /\ plan_id p = record_id r /\ dp_retire p = true;
}.

(** The live documents of a task. *)
Lemma task_records s t records : session_ok s ->
  match ss_taskDocuments s !! t with
  | Some known => Ok known
  | None => all_documents (ss_storage s) {| dq_scope := ScopeTask t; dq_at := PCurrent; dq_kind := None |}
  end = Ok records ->
  forall r, r ∈ records <-> stored_live s r /\ dc_scope (d_create r) = ScopeTask t.
Proof.
  intros Hs H r. destruct (ss_taskDocuments s !! t) as [known|] eqn:Ek.
  - injection H as <-. destruct (se_tasks _ Hs t known Ek) as [_ Hr]. rewrite Hr. unfold stored_live. naive_solver.
  - destruct (all_documents_ok s {| dq_scope := ScopeTask t; dq_at := PCurrent; dq_kind := None |} Hs) as (L & EL & _ & HL).
    assert (L = records) as -> by congruence. rewrite HL. unfold stored_live, keep_record. cbn. split.
    + intros (Hr & Esc & Hk). split; [|done]. destruct (stored_docs s !! record_id r) as [o|]; [|done]. injection Hr as <-. exists o. bool_to_prop. done.
    + intros [(o & -> & Hl & <-) Esc]. split; [done|]. split; [done|]. by apply bool_decide_true.
Qed.

Lemma end_task s tx ending d t created acc acc' : session_ok s -> tx_ok s tx -> (t, created) ∈ ending ->
  plans_ok s tx acc.1 -> ending_ok s ending d acc.1 acc.2 ->
  (if created : bool then Ok acc
   else
     records ← match ss_taskDocuments s !! t with
               | Some known => Ok known
               | None => all_documents (ss_storage s) {| dq_scope := ScopeTask t; dq_at := PCurrent; dq_kind := None |}
               end;
     Ok (retire_records acc records)) = Ok acc' ->
  plans_ok s tx acc'.1 /\ ending_ok s ending (d ++ [(t, created)]) acc'.1 acc'.2.
Proof.
  intros Hs Htx Hin Hp [H1 H2 H3] H. destruct created.
  { injection H as <-. split; [done|]. constructor; [done..|]. intros t' r [Hd|[=]%list_elem_of_singleton]%elem_of_app. by apply H3. }
  destruct (match ss_taskDocuments s !! t with Some _ => _ | None => _ end) as [records|] eqn:Er; [|done]. cbn [mbind res_bind] in H. injection H as <-.
  pose proof (task_records s t records Hs Er) as Hrec. destruct acc as [plans retiring]. cbn [fst snd] in *.
  destruct (retire_records_spec records plans retiring) as (added & E & Hnd & Ha & Hr & Hall). rewrite E.
  assert (Hend : forall r, r ∈ added -> in_ending ending (dc_scope (d_create r)) = true).
  { intros r Hr'. destruct (Ha r Hr') as [[_ ->]%Hrec _]. cbn. apply bool_decide_true, list_elem_of_fmap. by exists (t, false). }
  split.
  - apply plans_retire; [done..| |done|].
    + intros r Hr'. by destruct (Ha r Hr') as [[? _]%Hrec _].
    + intros r Hr' (p & Ep & Hp')%list_elem_of_fmap. destruct (Ha r Hr') as [[Hl Esc]%Hrec Hn]. destruct Hl as (o & Ho & Hlo & Eo).
      destruct (dp_record p) as [c|r'] eqn:Erec.
      * destruct (pk_new _ _ _ (pl_plans _ _ _ Hp p Hp') c Erec) as (_ & _ & Hc). apply (created_not_stored s tx (dc_id c) o Hs Htx Hc).
        unfold plan_id, plan_create in Ep. rewrite Erec in Ep. by rewrite <- Ep.
      * destruct (pk_stored _ _ _ (pl_plans _ _ _ Hp p Hp') r' Erec) as (o' & Ho' & _ & Eo').
        assert (E' : plan_create p = d_create r') by (unfold plan_create; by rewrite Erec). unfold plan_id in Ep. rewrite E' in Ep.
        assert (r' = r) as -> by congruence. apply Hn. rewrite <- E'. apply (H1 p Hp'). rewrite E'. by apply Hend.
  - constructor.
    + intros p [Hp'|(r & -> & Hr')%list_elem_of_fmap]%elem_of_app Hm.
      * destruct (H1 p Hp' Hm). split; [done|]. apply Hr. by left.
      * split; [done|]. apply Hr. right. apply list_elem_of_fmap. by exists r.
    + intros id [Hid|(r & -> & Hr')%list_elem_of_fmap]%Hr.
      * destruct (H2 id Hid) as (p & Hp' & Eid). exists p. split; [apply elem_of_app; by left|done].
      * exists (retire_plan r). split; [apply elem_of_app; right; by apply list_elem_of_fmap_2|done].
    + intros t' r [Hd|[= ->]%list_elem_of_singleton]%elem_of_app Hl Esc.
      * destruct (H3 t' r Hd Hl Esc) as (p & Hp' & Eid). exists p. split; [apply elem_of_app; by left|done].
      * destruct (Hall r) as [Hin'|(x & Ex & Hx)%list_elem_of_fmap]; [by apply Hrec| |].
        -- destruct (H2 _ Hin') as (p & Hp' & Eid). exists p. split; [apply elem_of_app; by left|done].
        -- exists (retire_plan x). split; [apply elem_of_app; right; by apply list_elem_of_fmap_2|]. by rewrite Ex.
Qed.

Lemma end_tasks s tx ending : session_ok s -> tx_ok s tx -> forall todo d acc acc', (forall x, x ∈ todo -> x ∈ ending) ->
  plans_ok s tx acc.1 -> ending_ok s ending d acc.1 acc.2 ->
  res_foldl (fun (acc : list DocumentPlan * gset N) (x : N * bool) =>
        if x.2 then Ok acc
        else
          records ← match ss_taskDocuments s !! x.1 with
                    | Some known => Ok known
                    | None => all_documents (ss_storage s) {| dq_scope := ScopeTask x.1; dq_at := PCurrent; dq_kind := None |}
                    end;
          Ok (retire_records acc records)) acc todo = Ok acc' ->
  plans_ok s tx acc'.1 /\ ending_ok s ending (d ++ todo) acc'.1 acc'.2.
Proof.
  intros Hs Htx. induction todo as [|[t created] todo IH]; intros d acc acc' Hin Hp He H.
  { injection H as <-. by rewrite app_nil_r. }
  cbn [res_foldl] in H. match type of H with (?r ≫= _) = _ => destruct r as [acc1|] eqn:E1 end; [|done]. cbn [mbind res_bind] in H.
  destruct (end_task s tx ending d t created acc acc1 Hs Htx (Hin _ (list_elem_of_here _ _)) Hp He E1) as [Hp1 He1].
  destruct (IH (d ++ [(t, created)]) acc1 acc') as [Hp2 He2]; [intros x Hx; apply Hin; by right|done..|].
  rewrite <- app_assoc in He2. done.
Qed.

(** Conversation documents of plans that write are not read by the copies. *)
Definition source_free (tx : Transaction) (p : DocumentPlan) : Prop :=
  is_conversation_scope (dc_scope (plan_create p)) = true -> plan_writes p = true -> plan_id p ∉ tx_forkDocuments tx.

Lemma marked_in (mark : DocumentPlan -> bool) (plans : list DocumentPlan) p :
  p ∈ (fun p => if mark p then with_retire p else p) <$> plans -> exists p0, p0 ∈ plans /\ p = (if mark p0 then with_retire p0 else p0).
Proof. intros (p0 & -> & Hp)%list_elem_of_fmap. by exists p0. Qed.

Lemma retire_ending_ok s tx ending plans plans' : session_ok s -> tx_ok s tx -> plans_ok s tx plans ->
  retire_ending s ending plans = Ok plans' ->
  plans_ok s tx plans' /\ (exists retiring, ending_ok s ending ending plans' retiring) /\
  ((forall p, p ∈ plans -> source_free tx p) -> forall p, p ∈ plans' -> source_free tx p).
Proof.
  intros Hs Htx Hp H. unfold retire_ending in H.
  set (mark := fun p : DocumentPlan => in_ending ending (dc_scope (plan_create p))) in *.
  match type of H with (?r ≫= _) = _ => destruct r as [acc'|] eqn:E1 end; [|done]. cbn [mbind res_bind] in H. injection H as <-.
  set (marked := (fun p => if mark p then with_retire p else p) <$> plans) in *.
  assert (Hstep : Forall2 (plan_step s tx) plans marked).
  { unfold marked. apply Forall2_fmap_r, Forall_Forall2_diag, Forall_true. intros p. apply same_plan_step. unfold same_plan. by destruct (mark p). }
  pose proof (plans_step _ _ _ _ Hp Hstep) as Hm.
  assert (Hinit : ending_ok s ending [] marked (list_to_set (plan_id <$> filter (fun p => mark p = true) plans))).
  { constructor; [| |by intros t r []%elem_of_nil].
    - intros p (p0 & Hp0 & ->)%marked_in Hin. assert (E : mark p0 = true).
      { unfold mark. destruct (mark p0) eqn:Em; [by unfold mark in Em|]. exact Hin. }
      rewrite E. split; [done|]. apply elem_of_list_to_set, list_elem_of_fmap. exists p0. split; [done|]. by apply list_elem_of_filter.
    - intros id (p0 & -> & [E Hp0]%list_elem_of_filter)%elem_of_list_to_set%list_elem_of_fmap. exists (with_retire p0). split; [|done].
      apply list_elem_of_fmap. exists p0. by rewrite E. }
  destruct (end_tasks s tx ending Hs Htx ending [] (marked, list_to_set (plan_id <$> filter (fun p => mark p = true) plans)) _ (fun x Hx => Hx) Hm Hinit E1) as [Hp' He']. split; [done|]. split; [by eexists|].
  (* No plan of a conversation document is added. *)
  assert (Hgo : forall todo acc acc', (forall x, x ∈ todo -> x ∈ ending) ->
     res_foldl (fun (acc : list DocumentPlan * gset N) (x : N * bool) =>
        if x.2 then Ok acc
        else
          records ← match ss_taskDocuments s !! x.1 with
                    | Some known => Ok known
                    | None => all_documents (ss_storage s) {| dq_scope := ScopeTask x.1; dq_at := PCurrent; dq_kind := None |}
                    end;
          Ok (retire_records acc records)) acc todo = Ok acc' ->
     (forall p, p ∈ acc.1 -> source_free tx p) -> forall p, p ∈ acc'.1 -> source_free tx p).
  { clear - Hs. induction todo as [|[t created] todo IH]; intros acc acc' Hin H Hall; [by injection H as <-|].
    cbn [res_foldl] in H. match type of H with (?r ≫= _) = _ => destruct r as [acc1|] eqn:E1 end; [|done]. cbn [mbind res_bind fst snd] in *.
    apply (IH acc1 acc'); [intros x Hx; apply Hin; by right|done|]. destruct created; [by injection E1 as <-|].
    destruct (match ss_taskDocuments s !! t with Some _ => _ | None => _ end) as [records|] eqn:Er; [|done]. cbn [mbind res_bind] in E1. injection E1 as <-.
    destruct acc as [ps rs]. destruct (retire_records_spec records ps rs) as (added & E & _ & Ha & _). rewrite E.
    intros p [Hp|(r & -> & Hr)%list_elem_of_fmap]%elem_of_app; [by apply Hall|]. destruct (Ha r Hr) as [[_ Esc]%(task_records s t records Hs Er) _].
    unfold source_free, plan_create. cbn. by rewrite Esc. }
  intros Hall. apply (Hgo _ _ _ (fun x Hx => Hx) E1). cbn [fst]. intros p (p0 & Hp0 & ->)%(marked_in mark).
  destruct (mark p0) eqn:Em; [|by apply Hall]. unfold source_free. intros Hc. exfalso. unfold mark in Em. cbn in Hc, Em.
  change (plan_create (with_retire p0)) with (plan_create p0) in Hc. by destruct (dc_scope (plan_create p0)).
Qed.

Lemma resolve_step s tx p q : resolve_conversation s tx p = Ok q -> exists c, q = p \/ q = with_conversation c p.
Proof.
  unfold resolve_conversation. destruct (negb (publishes p)); [intros [= <-]; exists None; by left|].
  destruct (dc_scope (plan_create p)); [intros [= <-]; exists None; by left|intros [= <-]; eexists; right; reflexivity|].
  intros H. inv_res. eexists. right. reflexivity.
Qed.

Lemma checkpoint_step s tx p : plan_step s tx p (checkpoint p).
Proof.
  unfold checkpoint. destruct (dp_content p) as [[| | | | | |id [v [b|ops]]|]|] eqn:Ec; try by apply same_plan_step.
  destruct (dp_change p) as [[prepared version [d|] [definition|]]|] eqn:Ech; try by apply same_plan_step.
  destruct (df_checkpointWhen _ _ _ _); [|by apply same_plan_step]. constructor; try done.
  intros [H1 H2 H3 H4 H5]. constructor; try done. unfold plan_content_ok in *. cbn. rewrite Ech, Ec in H3.
  destruct (dp_record p) as [c|r]; [by destruct H3 as ([=] & _)|]. rewrite Ech. cbn in *.
  destruct H3 as (d' & [= <-] & Er & Hd & Ev & Hperf & Hown). exists d. split_and!; try done. inversion Hown; subst. constructor.
Qed.

Lemma checkpoint_writes p : plan_writes (checkpoint p) = plan_writes p /\ plan_create (checkpoint p) = plan_create p /\
  dp_retire (checkpoint p) = dp_retire p.
Proof.
  unfold checkpoint. destruct (dp_content p) as [[| | | | | |id [v [b|ops]]|]|] eqn:Ec; try done.
  destruct (dp_change p) as [[prepared version [d|] [definition|]]|]; try done. destruct (df_checkpointWhen _ _ _ _); [|done].
  unfold plan_writes. cbn. by rewrite Ec.
Qed.

(** ** Submissions *)

Definition settled (r : SubmissionRecord) : bool :=
  match submission_status (s_state r) with done_ | unanswered => true | _ => false end.

Lemma settled_clone r : settled (clone r) = settled r.
Proof. unfold settled. cbn. by destruct (s_state r). Qed.

Record submissions_ok (s : SessionState) (tx : Transaction) (submissions : list (N * SubmissionRecord)) : Prop := {
  sb_keys : exists added, submissions.*1 = (tx_submissions tx).*1 ++ added /\ NoDup (submissions.*1) /\
    forall id, id ∈ added -> is_Some (submissions_of (stored_state s) !! id);
  sb_ids : forall id r, (id, r) ∈ submissions -> s_id r = id;
  sb_open : forall id r, submissions_of (stored_state s) !! id = Some r -> settled r = true -> id ∉ submissions.*1;
}.

Lemma submission_ids_unique s tx : tx_ok s tx -> NoDup ((tx_submissions tx).*1).
Proof.
  intros Htx. pose proof (to_ids _ _ Htx) as H. unfold tx_ids in H. apply NoDup_app in H as (_ & _ & H). apply NoDup_app in H as (_ & _ & H).
  by apply NoDup_app in H as (H & _).
Qed.

Lemma change_submissions_ok s tx submissions : session_ok s -> tx_ok s tx -> change_submissions s tx = Ok submissions -> submissions_ok s tx submissions.
Proof.
  intros Hs Htx. unfold change_submissions.
  assert (Hinit : submissions_ok s tx (tx_submissions tx)).
  { constructor; [|by apply Htx|].
    2: { intros id r Hr _ Hin. pose proof (to_fresh _ _ Htx) as Hfr. rewrite Forall_forall in Hfr.
         destruct (Hfr id) as [Hn _]; [unfold tx_ids; rewrite !elem_of_app; tauto|].
         assert (in_table (stored_state s) TSubmission id) as Ht by (unfold submissions_of in Hr; by eexists).
         apply (si_types _ _ _ _ (so_inv _ (se_storage _ Hs))) in Ht. congruence. }
    exists []. rewrite app_nil_r. split; [done|]. split; [by eapply submission_ids_unique|by intros ? []%elem_of_nil]. }
  revert Hinit. generalize (tx_submissions tx) as acc. induction (tx_submissionChanges tx) as [|[id change] changes IH]; intros acc Hacc H; [by injection H as <-|].
  cbn [res_foldl fst snd] in H. match type of H with (?r ≫= _) = _ => destruct r as [acc1|] eqn:E1 end; [|done]. cbn [mbind res_bind] in H.
  apply (IH acc1); [|done]. clear IH H. destruct Hacc as [(added & E & Hnd & Hadd) Hids Hopen]. inv_res.
  assert (Hcur : s_id v0 = id /\ (id ∈ acc.*1 \/ exists r0, submissions_of (stored_state s) !! id = Some r0 /\ settled v0 = settled r0)).
  { destruct (alist_get id acc) as [r|] eqn:Eg.
    - inv_res. apply alist_get_elem in Eg. split; [by apply Hids|left]. apply list_elem_of_fmap. by exists (id, v0).
    - apply of_storage_Ok in Hv. unfold submission in Hv. destruct (assertOpen _); [|done]. cbn in Hv.
      unfold submissions_of. destruct (MemoryCommit.submissions _ !! id) as [r|] eqn:Er; [|done]. injection Hv as <-. split; [|right; exists r; split; [reflexivity|apply settled_clone]].
      pose proof (si_submissions _ _ _ _ (so_inv _ (se_storage _ Hs))) as [Hid _ _ _]. by apply (Hid id r). }
  destruct Hcur as [Eid Hin].
  assert (Hnext : s_id v1 = id).
  { unfold applySubmissionChange in Hv1. destruct (submission_status (s_state v0)), change; destruct (s_state v0); inv_res; done. }
  assert (Hset : settled v0 = false -> submissions_ok s tx (alist_set id v1 acc)).
  { intros Hun. constructor.
    - destruct (decide (id ∈ acc.*1)) as [Hd|Hd].
      + exists added. rewrite alist_set_keys, decide_True, app_nil_r by done. done.
      + exists (added ++ [id]). rewrite alist_set_keys, decide_False, E, <- app_assoc by done. split; [done|]. rewrite app_assoc, <- E. split.
        * apply NoDup_app. split; [done|]. split; [|apply NoDup_singleton]. by intros i Hi ->%list_elem_of_singleton.
        * intros i [Hi| ->%list_elem_of_singleton]%elem_of_app; [by apply Hadd|]. destruct Hin as [|(r0 & Hr0 & _)]; [done|by eexists].
    - intros i r Hr. apply alist_set_elem in Hr as [[= -> ->]|[Hr _]]; [done|by apply Hids|done].
    - intros i r Hr Hst. rewrite alist_set_keys. intros [Hi|Hi]%elem_of_app; [by apply (Hopen i r)|].
      destruct (decide (id ∈ acc.*1)); [by apply elem_of_nil in Hi|]. apply list_elem_of_singleton in Hi as ->.
      destruct Hin as [|(r0 & Hr0 & Es)]; [done|]. assert (r0 = r) as -> by congruence. congruence. }
  unfold settled in Hset. destruct (submission_status (s_state v0)); try (by apply Hset); constructor; try done; by exists added.
Qed.

(** ** The assembly *)

Record assembled (s : SessionState) (tx : Transaction) (plans : list DocumentPlan) (writes : list StorageWrite) : Prop := {
  as_plans : plans_ok s tx plans;
  as_ending : exists retiring, ending_ok s (ending_tasks tx) (ending_tasks tx) plans retiring;
  as_sources : forall p, p ∈ plans -> source_free tx p;
  as_replaced : forall id r, (id, Some (false, r)) ∈ tx_tasks tx ->
    exists committed, tasks_of (stored_state s) !! id = Some committed /\ t_status committed <> terminal /\ t_conversationId committed = t_conversationId r;
  as_owners : forall id, id ∈ new_owners tx -> exists t, currentTask s tx id = Ok (Some t) /\ t_status t <> terminal /\ t_status t <> completing /\
    t_abortRequested t = false;
  as_submissions : exists submissions, submissions_ok s tx submissions /\
    writes = tx_writes tx ++ ((fun x => WSubmission x.2) <$> submissions) ++
             omap (fun x : N * option (bool * TaskRecord) => (fun w => WTask w.2) <$> x.2) (tx_tasks tx) ++ concat (write_plan <$> plans);
}.

Lemma ending_step s tx ending d plans plans' retiring : Forall2 (plan_step s tx) plans plans' ->
  ending_ok s ending d plans retiring -> ending_ok s ending d plans' retiring.
Proof.
  intros Hst [H1 H2 H3].
  assert (Hfwd : forall p, p ∈ plans -> exists q, q ∈ plans' /\ plan_id q = plan_id p /\ (dp_retire p = true -> dp_retire q = true)).
  { intros p [i Hi]%list_elem_of_lookup. destruct (Forall2_lookup_l _ _ _ _ _ Hst Hi) as (q & Hq & Hpq). exists q.
    split; [by eapply list_elem_of_lookup_2|]. split; [by apply (plan_step_id _ _ _ _ Hpq)|apply Hpq]. }
  constructor.
  - intros q [i Hi]%list_elem_of_lookup Hm. destruct (Forall2_lookup_r _ _ _ _ _ Hst Hi) as (p & Hp & Hpq).
    destruct (plan_step_id _ _ _ _ Hpq) as (Eid & _ & Ec). rewrite Ec in Hm. destruct (H1 p (list_elem_of_lookup_2 _ _ _ Hp) Hm) as [Hr Hin].
    rewrite Eid. split; [by apply (ps_retire _ _ _ _ Hpq)|done].
  - intros id Hid. destruct (H2 id Hid) as (p & Hp & <- & Hr). destruct (Hfwd p Hp) as (q & Hq & Eq & Rq). exists q. auto.
  - intros t r Hd Hl Esc. destruct (H3 t r Hd Hl Esc) as (p & Hp & <- & Hr). destruct (Hfwd p Hp) as (q & Hq & Eq & Rq). exists q. auto.
Qed.

Lemma task_read m id r : task m id = Ok (Some r) -> exists r0, tasks_of (state m) !! id = Some r0 /\ r = clone r0.
Proof.
  unfold task, tasks_of. destruct (assertOpen m); [|done]. cbn. destruct (tasks _ !! id) as [r0|]; [|done]. intros [= <-]. by exists r0.
Qed.

Lemma clone_status r : t_status (clone r) = t_status r.
Proof. unfold t_status. cbn. by destruct (t_state r). Qed.

Lemma assemble_ok s tx plans writes : session_ok s -> tx_ok s tx -> assemble s tx = Ok (plans, writes) -> assembled s tx plans writes.
Proof.
  intros Hs Htx H. unfold assemble in H.
  destruct (rejectForkSourceWrites _ _) as [u1|] eqn:E1; [|done]. cbn [mbind res_bind] in H.
  destruct (validateOwners s tx) as [u2|] eqn:E2; [|done]. cbn [mbind res_bind] in H.
  destruct (check_replacements s tx) as [u3|] eqn:E3; [|done]. cbn [mbind res_bind] in H.
  destruct (retire_ending s _ _) as [retired|] eqn:E4; [|done]. cbn [mbind res_bind] in H.
  destruct (res_mapM _ retired) as [resolved|] eqn:E5; [|done]. cbn [mbind res_bind] in H.
  destruct (change_submissions s tx) as [submissions|] eqn:E6; [|done]. cbn [mbind res_bind] in H. injection H as <- <-.
  destruct (retire_ending_ok _ _ _ _ _ Hs Htx (staged_ok s tx Hs Htx) E4) as (Hp & (retiring & He) & Hsrc).
  apply res_mapM_Forall2 in E5.
  assert (Hres : forall p q, resolve_conversation s tx p = Ok q -> exists c, q = p \/ q = with_conversation c p) by (intros p q; apply resolve_step).
  assert (Hst1 : Forall2 (plan_step s tx) retired resolved).
  { eapply Forall2_impl; [exact E5|]. intros p q Hq. destruct (Hres p q Hq) as (c & [->| ->]); by apply same_plan_step. }
  assert (Hst2 : Forall2 (plan_step s tx) resolved (checkpoint <$> resolved)).
  { apply Forall2_fmap_r, Forall_Forall2_diag, Forall_true. intros p. apply checkpoint_step. }
  constructor.
  - eapply plans_step; [|exact Hst2]. by eapply plans_step.
  - exists retiring. eapply ending_step; [exact Hst2|]. by eapply ending_step.
  - intros q (p & -> & Hp0)%list_elem_of_fmap. destruct (checkpoint_writes p) as (W & C & _). unfold source_free, plan_id. rewrite W, C.
    apply list_elem_of_lookup in Hp0 as [i Hi]. destruct (Forall2_lookup_r _ _ _ _ _ E5 Hi) as (p0 & Hp0%list_elem_of_lookup_2 & Hr).
    assert (Hfree : source_free tx p0).
    { apply Hsrc; [|done]. intros x Hx Hc Hw. unfold rejectForkSourceWrites in E1. pose proof (res_foldl_unit _ _ _ E1 x Hx) as Hx1. cbn beta in Hx1.
      rewrite Hw in Hx1. cbn [negb] in Hx1. destruct (bool_decide (dc_id (plan_create x) ∈ tx_forkDocuments tx)) eqn:Eb; [done|].
      by apply bool_decide_eq_false in Eb. }
    destruct (Hres p0 p Hr) as (c & [->| ->]); exact Hfree.
  - intros id r Hin. unfold check_replacements in E3. pose proof (res_foldl_unit _ _ _ E3 _ Hin) as Hx. cbn in Hx.
    destruct (committedTask s id) as [[t|]|] eqn:Et; try done. cbn [mbind res_bind res_of] in Hx. apply of_storage_Ok, task_read in Et as (t0 & Et & ->).
    exists t0. split; [done|]. rewrite clone_status in Hx. destruct (decide (t_status t0 = terminal)) as [Ht|Ht]; [by rewrite Ht in Hx|]. split; [done|].
    destruct (check (negb _) _); [|done]. cbn [mbind res_bind] in Hx. unfold check in Hx. destruct (N.eqb_spec (t_conversationId (clone t0)) (t_conversationId r)) as [Ec|]; [exact Ec|done].
  - intros id Hin. unfold validateOwners in E2. pose proof (res_foldl_unit _ _ _ E2 id Hin) as Hx. cbn beta in Hx.
    destruct (currentTask s tx id) as [[t|]|]; try done. cbn [mbind res_bind res_of] in Hx. exists t. split; [done|].
    destruct (bool_decide (t_status t = terminal)) eqn:B1, (bool_decide (t_status t = completing)) eqn:B2, (t_abortRequested t); try done.
    apply bool_decide_eq_false in B1, B2. done.
  - exists submissions. split; [by apply change_submissions_ok|done].
Qed.

(** ** Writes *)

Lemma no_change_of id l : existsb (is_change_of id) l = false -> forall w, replace_own id w l = l.
Proof. induction l as [|x l IH]; [done|]. cbn. intros [-> H]%orb_false_iff w. by rewrite IH. Qed.

Lemma replace_own_perm id w w' l rest : l ≡ₚ w :: rest -> is_change_of id w = true -> existsb (is_change_of id) rest = false ->
  replace_own id w' l ≡ₚ w' :: rest.
Proof.
  intros Hp Hw Hr. assert (Hin : w ∈ l) by (rewrite Hp; left). apply list_elem_of_split in Hin as (l1 & l2 & ->).
  assert (Hrest : l1 ++ l2 ≡ₚ rest) by (apply (Permutation_cons_inv (a := w)); by rewrite Permutation_middle).
  assert (Hn : existsb (is_change_of id) l1 = false).
  { apply not_true_iff_false. intros (x & Hx%list_elem_of_In & Ex)%existsb_exists. apply not_true_iff_false in Hr. apply Hr, existsb_exists.
    exists x. split; [|done]. apply list_elem_of_In. rewrite <- Hrest. apply elem_of_app. by left. }
  assert (E : replace_own id w' (l1 ++ w :: l2) = l1 ++ w' :: l2).
  { clear -Hw Hn. induction l1 as [|x l1 IH]; cbn in *; [by rewrite Hw|]. apply orb_false_iff in Hn as [-> Hn]. by rewrite IH. }
  rewrite E, <- Permutation_middle. by rewrite Hrest.
Qed.

Lemma insert_perm id w l : insertBeforeRetirement id w l ≡ₚ w :: l.
Proof.
  induction l as [|x l IH]; [done|]. cbn. destruct (is_retire_of id x); [done|]. rewrite IH. apply Permutation_swap.
Qed.

(** The changes among a plan's writes are of its document. *)
Definition change_own (p : DocumentPlan) : Prop := forall w i, w ∈ write_plan p -> is_change_of i w = true -> i = plan_id p.

Lemma plan_change_own s tx p : plan_ok s tx p -> change_own p.
Proof.
  intros [_ _ Hc _ _] w i Hw Hi. unfold write_plan in Hw. apply elem_of_app in Hw as [Hw|Hw].
  - unfold plan_content_ok in Hc. unfold plan_id, plan_create. destruct (dp_record p) as [c|r], (dp_change p) as [ch|].
    + destruct Hc as (_ & E & _). rewrite E in Hw. by apply list_elem_of_singleton in Hw as ->.
    + destruct Hc as (source & E & _). rewrite E in Hw. by apply list_elem_of_singleton in Hw as ->.
    + destruct Hc as (d & _ & -> & _ & _ & _ & Hown). inversion Hown as [? ? E|E|? ? E]; rewrite <- E in Hw.
      * by apply elem_of_nil in Hw.
      * apply list_elem_of_singleton in Hw as ->. by apply N.eqb_eq in Hi.
      * apply list_elem_of_singleton in Hw as ->. by apply N.eqb_eq in Hi.
    + destruct Hc as [E _]. rewrite E in Hw. by apply elem_of_nil in Hw.
  - destruct (dp_retire p); [by apply list_elem_of_singleton in Hw as ->|by apply elem_of_nil in Hw].
Qed.

(** ** One plan *)

(** What is stored for a document that was held: it leads from the stored value [x] to the
    document's new value [v]. *)
Record stores (s : SessionState) (d : LoadedDocument) (v : json) (content : DocumentContent) (ops : list Op) : Prop := {
  st_version : dcn_version content = ld_valueVersion d;
  st_content : dcn_content content = CBase v \/ dcn_content content = CDelta ops;
  st_plain : Forall plain ops;
  st_ok : Forall op_ok ops;
  st_reads : exists x, SessionInvariant.content (ss_storage s) (ld_id d) = Ok (Some (ld_valueVersion d, x, ld_deltasSinceBase d)) /\ plain x /\
    apply (Some x) (tuples ops) = Ok (Some v);
}.

(** The document's value after the plan. *)
Definition plan_value (d : LoadedDocument) (p : DocumentPlan) : json :=
  match dp_change p with Some c => pr_value (pc_prepared c) | None => ld_value d end.

(** The plan of a held document with what was held. *)
Record plan_taken (s : SessionState) (p q : DocumentPlan) (d : LoadedDocument) (ops : list Op) (content : DocumentContent) : Prop := {
  pt_address : dp_addressId q = dp_addressId p;
  pt_record : dp_record q = dp_record p;
  pt_retire : dp_retire q = dp_retire p;
  pt_change : dp_change q = dp_change p;
  pt_loaded : dp_record p = inr (ld_record d) /\ ss_documents s !! dp_addressId p = Some d /\ is_Some (ss_holds s !! ld_id d) /\
    held_semantics (d_create (ld_record d)) /\ ld_storedVersion d = ld_valueVersion d;
  pt_content : dp_content q = Some (WDocumentChange (ld_id d) content);
  pt_stores : stores s d (plan_value d p) content ops;
  pt_own : dp_content p = None \/ exists own, dp_content p = Some (WDocumentChange (ld_id d) own);
  pt_held : dp_held q = if dp_retire p then None else Some (ops, is_some (own_content p));
}.

Definition held_plan (s : SessionState) (p : DocumentPlan) : option N :=
  match dp_record p with
  | inl _ => None
  | inr r => match ss_holds s !! record_id r with Some _ => Some (record_id r) | None => None end
  end.

Definition plan_became (s : SessionState) (p q : DocumentPlan) : Prop :=
  match held_plan s p with Some _ => exists d ops content, plan_taken s p q d ops content | None => q = p end.

Lemma became_same s p q : plan_became s p q -> dp_addressId q = dp_addressId p /\ dp_record q = dp_record p /\ dp_retire q = dp_retire p /\
  dp_change q = dp_change p /\ plan_id q = plan_id p.
Proof.
  unfold plan_became. destruct (held_plan s p); [|by intros ->]. intros (d & ops & content & [H1 H2 H3 H4]). unfold plan_id, plan_create. by rewrite H2.
Qed.

Lemma plan_became_own s tx p q : plan_ok s tx p -> plan_became s p q -> change_own q.
Proof.
  unfold plan_became. intros Hp. destruct (held_plan s p); [|intros ->; by eapply plan_change_own].
  intros (d & ops & content & [_ H2 H3 _ (Er & _) Hc _ _ _]) w i Hw Hi. unfold write_plan in Hw. rewrite Hc in Hw.
  unfold plan_id, plan_create. rewrite H2, Er. apply elem_of_app in Hw as [->%list_elem_of_singleton|Hw]; [by apply N.eqb_eq in Hi|].
  destruct (dp_retire q); [by apply list_elem_of_singleton in Hw as ->|by apply elem_of_nil in Hw].
Qed.

(** The held document of a plan. *)
Lemma held_document s tx p r hold : session_ok s -> plan_ok s tx p -> dp_record p = inr r -> ss_holds s !! record_id r = Some hold ->
  exists d, ss_documents s !! h_addressId hold = Some d /\ r = ld_record d /\ dp_addressId p = h_addressId hold /\
    ld_storedVersion d = ld_valueVersion d /\ held_semantics (d_create (ld_record d)) /\
    exists x, content (ss_storage s) (ld_id d) = Ok (Some (ld_valueVersion d, x, ld_deltasSinceBase d)) /\ plain x /\ held_ok x hold (ld_value d).
Proof.
  intros Hs Hp Er Hh. destruct (se_holds _ Hs _ _ Hh) as (d & Hd & Hi). exists d. split; [done|].
  pose proof (se_documents _ Hs _ _ Hd) as Hl. destruct (lo_stored _ _ _ Hl) as (o & Ho & _ & Eo).
  destruct (pk_stored _ _ _ Hp r Er) as (o' & Ho' & _ & Eo'). rewrite Hi, Ho' in Ho. injection Ho as <-.
  assert (E : r = ld_record d) by congruence. split; [done|]. split.
  { rewrite (pk_address _ _ _ Hp), (lo_address _ _ _ Hl). unfold plan_create. by rewrite Er, E. }
  destruct (lo_content _ _ _ Hl) as (x & Hc & Hpx & Hv). unfold stored_value_ok in Hv. rewrite Hi, Hh in Hv. destruct Hv as (_ & Ev & Hsem & Hheld).
  split; [done|]. split; [done|]. exists x. by rewrite <- Ev.
Qed.

Lemma take_plan_ok s tx acc p acc' : session_ok s -> plan_ok s tx p -> take_plan s acc p = Ok acc' ->
  exists q, plan_became s p q /\ tk_plans acc' = tk_plans acc ++ [q] /\
    tk_taken acc' = tk_taken acc ++ match held_plan s p with Some i => [i] | None => [] end /\
    (forall rest, tk_writes acc ≡ₚ write_plan p ++ rest -> (forall w, w ∈ rest -> is_change_of (plan_id p) w = false) ->
       tk_writes acc' ≡ₚ write_plan q ++ rest).
Proof.
  intros Hs Hp H. unfold take_plan in H. unfold plan_became, held_plan.
  assert (Hkeep : acc' = {| tk_plans := tk_plans acc ++ [p]; tk_writes := tk_writes acc; tk_taken := tk_taken acc |} ->
    exists q, q = p /\ tk_plans acc' = tk_plans acc ++ [q] /\ tk_taken acc' = tk_taken acc ++ [] /\
    (forall rest, tk_writes acc ≡ₚ write_plan p ++ rest -> (forall w, w ∈ rest -> is_change_of (plan_id p) w = false) ->
       tk_writes acc' ≡ₚ write_plan q ++ rest)).
  { intros ->. exists p. by rewrite app_nil_r. }
  destruct (dp_record p) as [c|r] eqn:Er; [injection H as <-; by apply Hkeep|]. cbn zeta in H.
  destruct (ss_holds s !! record_id r) as [hold|] eqn:Eh; [|injection H as <-; by apply Hkeep]. clear Hkeep.
  destruct (held_document s tx p r hold Hs Hp Er Eh) as (d & Hd & -> & Ea & Ev & Hsem & x & Hc & Hpx & Hheld).
  rewrite Hd in H. cbn [res_of mbind res_bind] in H. fold (plan_value d p) in H.
  set (ops := match dp_change p with Some c => pr_ops (pc_prepared c) | None => [] end) in H.
  assert (Hperf : performs (ld_value d) ops (plan_value d p) /\
     match own_content p with Some c => dcn_version c = ld_valueVersion d /\ (is_base (dcn_content c) = true -> dcn_content c = CBase (plan_value d p)) | None => True end /\
     (dp_content p = None \/ exists own, dp_content p = Some (WDocumentChange (ld_id d) own))).
  { pose proof (pk_content _ _ _ Hp) as Hcon. unfold plan_content_ok in Hcon. rewrite Er in Hcon. unfold ops, plan_value, own_content. destruct (dp_change p) as [ch|].
    - destruct Hcon as (d' & _ & _ & Hd' & Ever & Hperf & Hown). rewrite Ea, Hd in Hd'. injection Hd' as <-. split; [done|].
      inversion Hown as [? ? E|E|? ? E]; split; eauto; done || (cbn; by rewrite Ever).
    - destruct Hcon as [-> _]. split; [|by split; [|left]]. apply performs_nil. apply (lo_plain _ _ _ (se_documents _ Hs _ _ Hd)). }
  destruct Hperf as (Hperf & Hown & Hshape).
  destruct (storeHeld hold ops (plan_value d p) (ld_valueVersion d)) as [stored taken] eqn:Est.
  destruct (storeHeld_spec x hold (ld_value d) ops (plan_value d p) _ stored taken Hheld Hperf Est) as (S1 & S2 & S3 & S4 & S5).
  set (con := match own_content p with Some c => if is_base (dcn_content c) then c else stored | None => stored end) in H.
  assert (Hst : stores s d (plan_value d p) con taken).
  { constructor; [..|done|done|by exists x].
    - unfold con. destruct (own_content p) as [c|]; [|done]. destruct Hown as [Hown _]. by destruct (is_base _).
    - unfold con. destruct (own_content p) as [c|]; [|done]. destruct Hown as [_ Hown]. destruct (is_base (dcn_content c)); [left; by apply Hown|done]. }
  destruct Hsem as (Hconv & Hsem). destruct (dc_scope (d_create (ld_record d))) as [|cid|] eqn:Esc; try done. injection H as <-.
  match goal with |- exists q, _ /\ ?l = _ /\ _ => match l with context [tk_plans acc ++ [?q0]] => exists q0 end end.
  split; [|split; [done|split; [done|]]].
  - exists d, taken, con. constructor; cbn; try done.
    + destruct (dp_retire p); done.
    + by destruct (dp_retire p).
    + destruct (dp_retire p) eqn:R; cbn; by rewrite R.
    + destruct (dp_retire p); done.
    + split; [done|]. split; [by rewrite Ea|]. split; [by eexists|]. split; [|done]. by split; [rewrite Esc|].
    + destruct (dp_retire p); cbn; [apply (pk_held _ _ _ Hp)|done].
  - cbn [tk_writes]. intros rest Hperm Hno.
    match goal with |- _ ≡ₚ write_plan ?q ++ rest => assert (Eq : write_plan q = WDocumentChange (ld_id d) con :: (if dp_retire p then [WDocumentRetire (plan_id p)] else [])) end.
    { unfold write_plan, plan_id, plan_create. cbn. destruct (dp_retire p) eqn:R; cbn; by rewrite R, ?Er. }
    rewrite Eq. clear Eq. unfold write_plan in Hperm.
    assert (Eid : plan_id p = ld_id d) by (unfold plan_id, plan_create; by rewrite Er). rewrite Eid in *.
    destruct Hshape as [E|[own E]].
    + unfold own_content. rewrite E in *. cbn [is_some] in *. rewrite insert_perm. by rewrite Hperm.
    + unfold own_content. rewrite E in *. cbn [is_some] in *. cbn [app] in *. eapply replace_own_perm; [exact Hperm|cbn; by apply N.eqb_refl|].
      rewrite existsb_app. apply orb_false_iff. split; [by destruct (dp_retire p)|]. apply not_true_iff_false.
      intros (w & Hw%list_elem_of_In & Ew)%existsb_exists. specialize (Hno w Hw). unfold ld_id in *. congruence.
Qed.

(** ** All plans *)

Definition base_writes (B : list StorageWrite) : Prop := forall w i, w ∈ B -> is_change_of i w = false.

Lemma takeHeld_plans s tx B : session_ok s -> base_writes B -> forall todo acc res,
  (forall p, p ∈ todo -> plan_ok s tx p) -> (forall q, q ∈ tk_plans acc -> change_own q) ->
  NoDup (plan_id <$> tk_plans acc ++ todo) ->
  tk_writes acc ≡ₚ B ++ concat (write_plan <$> tk_plans acc ++ todo) -> res_foldl (take_plan s) acc todo = Ok res ->
  exists qs, tk_plans res = tk_plans acc ++ qs /\ Forall2 (plan_became s) todo qs /\ tk_taken res = tk_taken acc ++ omap (held_plan s) todo /\
    tk_writes res ≡ₚ B ++ concat (write_plan <$> tk_plans res).
Proof.
  intros Hs HB. induction todo as [|p todo IH]; intros acc res Hok Hown Hnd Hperm H.
  { injection H as <-. exists []. rewrite !app_nil_r in *. done. }
  cbn [res_foldl] in H. destruct (take_plan s acc p) as [acc1|] eqn:E1; [|done]. cbn [mbind res_bind] in H.
  assert (Hp : plan_ok s tx p) by (apply Hok; left).
  destruct (take_plan_ok s tx acc p acc1 Hs Hp E1) as (q & Hq & Epl & Etk & Hw).
  destruct (became_same s p q Hq) as (_ & _ & _ & _ & Eid).
  assert (Hrest : tk_writes acc1 ≡ₚ write_plan q ++ (B ++ concat (write_plan <$> tk_plans acc ++ todo))).
  { apply Hw.
    - rewrite Hperm, !fmap_app. cbn. rewrite !concat_app. cbn. rewrite (Permutation_app_swap_app (concat (write_plan <$> tk_plans acc)) (write_plan p)).
      by rewrite (Permutation_app_swap_app B (write_plan p)).
    - intros w [Hwb|Hwc]%elem_of_app; [by apply HB|]. apply list_elem_of_In, in_concat in Hwc as (l & Hl%list_elem_of_In & Hwl%list_elem_of_In).
      apply list_elem_of_fmap in Hl as (x & -> & Hx). destruct (is_change_of (plan_id p) w) eqn:Ew; [exfalso|done].
      assert (Hxo : change_own x) by (apply elem_of_app in Hx as [Hx|Hx]; [by apply Hown|]; eapply plan_change_own, Hok; by right).
      pose proof (Hxo w _ Hwl Ew) as E. rewrite fmap_app in Hnd. cbn in Hnd. rewrite <- Permutation_middle in Hnd.
      apply NoDup_cons in Hnd as [Hn _]. apply Hn. rewrite E, <- fmap_app. by apply (list_elem_of_fmap_2 plan_id). }
  destruct (IH acc1 res) as (qs & Eq & Hqs & Etk' & Hw').
  - intros x Hx. apply Hok. by right.
  - rewrite Epl. intros x [Hx| ->%list_elem_of_singleton]%elem_of_app; [by apply Hown|]. by eapply plan_became_own.
  - rewrite Epl, <- app_assoc. cbn. rewrite fmap_app in *. cbn in *. by rewrite Eid.
  - rewrite Hrest, Epl, <- app_assoc, !fmap_app. cbn. rewrite !concat_app. cbn.
    rewrite (Permutation_app_swap_app (concat (write_plan <$> tk_plans acc)) (write_plan q)). by rewrite (Permutation_app_swap_app B (write_plan q)).
  - done.
  - exists (q :: qs). rewrite Eq, Epl, <- app_assoc. split; [done|]. split; [by constructor|]. split; [|by rewrite Hw', Eq, Epl, <- app_assoc].
    rewrite Etk', Etk, <- app_assoc. cbn. by destruct (held_plan s p).
Qed.

(** The writes of a commit and its final plans. *)
Lemma takeHeld_ok s tx B plans writes res : session_ok s -> base_writes B -> plans_ok s tx plans -> writes = B ++ concat (write_plan <$> plans) ->
  takeHeld s plans writes = Ok res ->
  Forall2 (plan_became s) plans (tk_plans res) /\ tk_taken res = omap (held_plan s) plans /\
  tk_writes res ≡ₚ B ++ concat (write_plan <$> tk_plans res).
Proof.
  intros Hs HB Hp -> H.
  destruct (takeHeld_plans s tx B Hs HB plans {| tk_plans := []; tk_writes := B ++ concat (write_plan <$> plans); tk_taken := [] |} res)
    as (qs & Eq & Hqs & Etk & Hw); [apply Hp|by intros q []%elem_of_nil|apply Hp|done|exact H|].
  cbn in Eq, Etk. rewrite Etk. by rewrite Eq in *.
Qed.
