(* ===== verification/BatchCommit.v ===== *)
(** The batch of a commit (durable/src/session): the storage accepts it, its deltas apply to
    the stored values, and every document it leaves has an owner. *)
From S2P Require Import Prelude JsString Json DeltaOp DeltaApply DeltaPending StorageTypes SortedIds MemoryCommit DocumentFacts TableFacts MemoryFacts MemoryRead ReadFacts MemoryHistory BatchFacts SessionTypes SessionTransaction SessionCommit SessionInvariant TransactionFacts TransactionDocuments BatchPlans.

(** ** Final plans *)

(** A delta applies to the stored value. *)
Definition content_fits (s : SessionState) (id : N) (c : DocumentContent) : Prop :=
  exists v x n, content (ss_storage s) id = Ok (Some (v, x, n)) /\ plain x /\
    forall ops, dcn_content c = CDelta ops -> dcn_version c = v /\ Forall plain ops /\ exists x', apply (Some x) (tuples ops) = Ok (Some x') /\ plain x'.

Definition final_content (s : SessionState) (tx : Transaction) (q : DocumentPlan) : Prop :=
  match dp_record q with
  | inl c =>
      (exists v b, dp_content q = Some (WDocumentCreate c v b)) \/
      exists source, dp_content q = Some (WDocumentCopy c source) /\ dc_fork c <> Some ForkInitial /\
        copy_fits (document_tables (stored_state s)) c source /\ cs_id source ∈ tx_forkDocuments tx
  | inr r =>
      (exists o, stored_docs s !! record_id r = Some o /\ live o /\ st_record o = r) /\
      (dp_content q = None \/ exists c, dp_content q = Some (WDocumentChange (record_id r) c) /\ content_fits s (record_id r) c)
  end.

Lemma final_plan s tx p q : session_ok s -> plan_ok s tx p -> plan_became s p q -> final_content s tx q.
Proof.
  intros Hs Hp Hq. unfold plan_became in Hq. unfold final_content. destruct (held_plan s p) as [i|] eqn:Eh.
  - destruct Hq as (d & ops & c & [_ H2 _ _ (Er & Hd & _) Hc Hst _ _]). rewrite H2, Er. split; [by apply (pk_stored _ _ _ Hp)|]. right.
    exists c. split; [done|]. destruct (st_reads _ _ _ _ _ Hst) as (x & Ex & Hx & Ha). eexists _, x, _. split; [exact Ex|]. split; [done|].
    intros ops' E. destruct (st_content _ _ _ _ _ Hst) as [E'|E']; [congruence|]. assert (ops' = ops) as -> by congruence.
    split; [apply Hst|]. split; [apply Hst|]. exists (plan_value d p). split; [done|]. unfold plan_value.
    pose proof (pk_content _ _ _ Hp) as Hcon. unfold plan_content_ok in Hcon. rewrite Er in Hcon. destruct (dp_change p) as [ch|].
    + destruct Hcon as (d' & _ & _ & _ & _ & Hperf & _). apply Hperf.
    + apply (lo_plain _ _ _ (se_documents _ Hs _ _ Hd)).
  - subst q. pose proof (pk_content _ _ _ Hp) as Hcon. unfold plan_content_ok in Hcon. unfold held_plan in Eh. destruct (dp_record p) as [c|r] eqn:Er, (dp_change p) as [ch|] eqn:Ec.
    + destruct Hcon as (_ & E & _). left. by eexists _, _.
    + destruct Hcon as (source & E). right. by exists source.
    + split; [by apply (pk_stored _ _ _ Hp)|]. destruct Hcon as (d & _ & -> & Hd & Ev & Hperf & Hown).
      destruct (ss_holds s !! record_id (ld_record d)) eqn:Ehold; [done|].
      pose proof (se_documents _ Hs _ _ Hd) as Hl. destruct (lo_content _ _ _ Hl) as (x & Ex & Hx & Hv). unfold stored_value_ok, ld_id in Hv. rewrite Ehold in Hv.
      inversion Hown as [? ? E|E|Hsv Hne E]; [by left|right..]; eexists; (split; [reflexivity|]); eexists _, x, _; (split; [exact Ex|]); (split; [done|]); cbn; intros ops; [done|].
      intros [= <-]. split; [done|]. split; [apply Hperf|]. exists (pr_value (pc_prepared ch)). split; [|apply Hperf]. rewrite Hv by congruence. apply Hperf.
    + split; [by apply (pk_stored _ _ _ Hp)|]. left. apply Hcon.
Qed.

(** ** What the writes of the plans are *)

Definition opt_list {A} (o : option A) : list A := match o with Some a => [a] | None => [] end.

Lemma omap_concat {A B C} (f : B -> option C) (g : A -> list B) (h : A -> option C) (l : list A) :
  (forall x, x ∈ l -> omap f (g x) = opt_list (h x)) -> omap f (concat (g <$> l)) = omap h l.
Proof.
  induction l as [|x l IH]; intros Hx; [done|]. cbn. rewrite omap_app, Hx by left. rewrite IH by (intros y Hy; apply Hx; by right).
  by destruct (h x).
Qed.

Definition plan_retire (q : DocumentPlan) : option N := if dp_retire q then Some (plan_id q) else None.
Definition plan_content_id (q : DocumentPlan) : option N := (fun _ => plan_id q) <$> dp_content q.

Lemma final_shape s tx q : final_content s tx q ->
  omap content_id (write_plan q) = opt_list (plan_content_id q) /\ retires_of (write_plan q) = opt_list (plan_retire q) /\
  created (write_plan q) = opt_list (plan_new q) /\ omap claim (write_plan q) = opt_list ((fun c => (dc_id c, TDocument)) <$> plan_new q).
Proof.
  unfold final_content, write_plan, plan_content_id, plan_retire, plan_new, plan_id, plan_create. destruct (dp_record q) as [c|r].
  - intros [(v & b & ->)|(source & -> & _)]; destruct (dp_retire q); done.
  - intros [_ [->|(c & -> & _)]]; destruct (dp_retire q); done.
Qed.

Lemma omap_sublist_map {A B} (f : A -> B) (g : A -> option B) (l : list A) : (forall x y, g x = Some y -> y = f x) -> omap g l `sublist_of` (f <$> l).
Proof.
  intros H. induction l as [|x l IH]; [done|]. cbn. destruct (g x) as [y|] eqn:E; [|by apply sublist_cons]. rewrite (H x y E). by apply sublist_skip.
Qed.

(** ** The final plans of a commit *)

Record final_ok (s : SessionState) (tx : Transaction) (qs : list DocumentPlan) : Prop := {
  fo_content : forall q, q ∈ qs -> final_content s tx q;
  fo_ids : NoDup (plan_id <$> qs);
  fo_new : omap plan_new qs = omap entry_created (tx_documents tx);
  fo_address : forall p q, p ∈ qs -> q ∈ qs -> dp_retire p = false -> dp_retire q = false -> dp_addressId p = dp_addressId q -> plan_id p = plan_id q;
  fo_covered : forall p c, p ∈ qs -> dp_record p = inl c -> dp_retire p = false ->
    forall id o, stored_docs s !! id = Some o -> live o -> address_of (d_create (st_record o)) = address_of c ->
    exists q, q ∈ qs /\ plan_id q = id /\ dp_retire q = true;
  fo_created : forall p c, p ∈ qs -> dp_record p = inl c ->
    dp_addressId p = addressId (address_of c) /\ create_ok c /\ owner_staged s tx (dc_scope c) /\ dc_id c ∈ tx_ids tx;
  fo_ending : exists retiring, ending_ok s (ending_tasks tx) (ending_tasks tx) qs retiring;
  fo_sources : forall q (i : N) o, q ∈ qs -> is_Some (dp_content q) \/ dp_retire q = true -> stored_docs s !! i = Some o ->
    is_conversation_scope (dc_scope (d_create (st_record o))) = true -> dc_fork (d_create (st_record o)) <> Some ForkInitial ->
    i ∈ tx_forkDocuments tx -> plan_id q <> i;
}.

Lemma final_plans s tx plans qs writes : session_ok s -> tx_ok s tx -> assembled s tx plans writes -> Forall2 (plan_became s) plans qs -> final_ok s tx qs.
Proof.
  intros Hs Htx [Hp (retiring & He) Hsrc _ _ _] Hqs.
  assert (Hback : forall q, q ∈ qs -> exists p, p ∈ plans /\ plan_became s p q).
  { intros q [i Hi]%list_elem_of_lookup. destruct (Forall2_lookup_r _ _ _ _ _ Hqs Hi) as (p & Hpi & Hpq). exists p.
    split; [by eapply list_elem_of_lookup_2|done]. }
  assert (Hfwd : forall p, p ∈ plans -> exists q, q ∈ qs /\ plan_id q = plan_id p /\ dp_retire q = dp_retire p).
  { intros p [i Hi]%list_elem_of_lookup. destruct (Forall2_lookup_l _ _ _ _ _ Hqs Hi) as (q & Hq & Hpq). exists q.
    split; [by eapply list_elem_of_lookup_2|]. by destruct (became_same _ _ _ Hpq) as (_ & _ & ? & _ & ?). }
  constructor.
  - intros q (p & Hpi & Hpq)%Hback. eapply final_plan; [done| |exact Hpq]. by apply Hp.
  - assert (E : plan_id <$> qs = plan_id <$> plans).
    { clear -Hqs. induction Hqs as [|p q l l' Hpq _ IH]; [done|]. cbn. destruct (became_same _ _ _ Hpq) as (_ & _ & _ & _ & ->). by rewrite IH. }
    rewrite E. apply Hp.
  - rewrite <- (pl_new _ _ _ Hp). clear -Hqs. induction Hqs as [|p q l l' Hpq _ IH]; [done|]. cbn. destruct (became_same _ _ _ Hpq) as (_ & E & _).
    assert (plan_new q = plan_new p) as -> by (unfold plan_new; by rewrite E). by rewrite IH.
  - intros q q' (p & Hpi & Hpq)%Hback (p' & Hpi' & Hpq')%Hback. destruct (became_same _ _ _ Hpq) as (-> & _ & -> & _ & ->).
    destruct (became_same _ _ _ Hpq') as (-> & _ & -> & _ & ->). by apply Hp.
  - intros q c (p & Hpi & Hpq)%Hback. destruct (became_same _ _ _ Hpq) as (_ & -> & -> & _). intros Ec R id o Ho Hl Ea.
    destruct (pl_covered _ _ _ Hp p c Hpi Ec R id o Ho Hl Ea) as (x & Hx & <- & Rx). destruct (Hfwd x Hx) as (y & Hy & Ey & Ry). exists y. by rewrite Ry.
  - intros q c (p & Hpi & Hpq)%Hback. destruct (became_same _ _ _ Hpq) as (-> & -> & _). intros Ec. pose proof (pl_plans _ _ _ Hp p Hpi) as Hok.
    split; [|by apply (pk_new _ _ _ Hok)]. rewrite (pk_address _ _ _ Hok). unfold plan_create. by rewrite Ec.
  - exists retiring. destruct He as [H1 H2 H3]. constructor.
    + intros q (p & Hpi & Hpq)%Hback. destruct (became_same _ _ _ Hpq) as (_ & E & -> & _ & ->). unfold plan_create. rewrite E. by apply H1.
    + intros id Hid. destruct (H2 id Hid) as (p & Hpi & <- & R). destruct (Hfwd p Hpi) as (q & Hq & Eq & Rq). exists q. by rewrite Rq.
    + intros t r Hd Hl Esc. destruct (H3 t r Hd Hl Esc) as (p & Hpi & <- & R). destruct (Hfwd p Hpi) as (q & Hq & Eq & Rq). exists q. by rewrite Rq.
  - intros q i o (p & Hpi & Hpq)%Hback Hw Ho Hconv Hfork Hi Ei. destruct (became_same _ _ _ Hpq) as (_ & E & R & _ & Eid). rewrite R in Hw. rewrite Eid in Ei. subst i.
    pose proof (pl_plans _ _ _ Hp p Hpi) as Hok.
    assert (Hrec : plan_create p = d_create (st_record o)).
    { unfold plan_id, plan_create in *. destruct (dp_record p) as [c|r] eqn:Er.
      - destruct (pk_new _ _ _ Hok c Er) as (_ & _ & Hc). by destruct (created_not_stored s tx (dc_id c) o Hs Htx Hc).
      - destruct (pk_stored _ _ _ Hok r Er) as (o' & Ho' & _ & <-). congruence. }
    unfold plan_became in Hpq. destruct (held_plan s p).
    + destruct Hpq as (d & ops & c & [_ _ _ _ (Er & _ & _ & (_ & _ & Hf) & _) _ _ _ _]). apply Hfork. rewrite <- Hrec. unfold plan_create. by rewrite Er.
    + subst q. apply (Hsrc p Hpi); [by rewrite Hrec| |done]. unfold plan_writes. destruct Hw as [[? ->]| ->]; [done|]. apply orb_true_r.
Qed.

Definition task_writes (tx : Transaction) : list StorageWrite :=
  omap (fun x : N * option (bool * TaskRecord) => (fun w => WTask w.2) <$> x.2) (tx_tasks tx).

Definition table_writes (tx : Transaction) (submissions : list (N * SubmissionRecord)) : list StorageWrite :=
  tx_writes tx ++ ((fun x => WSubmission x.2) <$> submissions) ++ task_writes tx.

Lemma NoDup_parts {A} (a b c d : list A) : NoDup (a ++ b ++ c ++ d) ->
  NoDup a /\ NoDup d /\ (forall x, x ∈ a -> x ∉ b /\ x ∉ c /\ x ∉ d) /\ (forall x, x ∈ b -> x ∉ c /\ x ∉ d) /\ forall x, x ∈ c -> x ∉ d.
Proof.
  intros (Ha & Hax & (Hb & Hbx & (Hc & Hcx & Hd)%NoDup_app)%NoDup_app)%NoDup_app. split_and!; try done.
  - intros x Hx. specialize (Hax x Hx). rewrite !elem_of_app in Hax. tauto.
  - intros x Hx. specialize (Hbx x Hx). rewrite !elem_of_app in Hbx. tauto.
Qed.

Section Batch.
Context (s : SessionState) (tx : Transaction) (qs : list DocumentPlan) (submissions : list (N * SubmissionRecord)) (W : list StorageWrite).
Context (Hs : session_ok s) (Htx : tx_ok s tx) (Hf : final_ok s tx qs) (Hsub : submissions_ok s tx submissions).
Context (Hrep : forall id r, (id, Some (false, r)) ∈ tx_tasks tx ->
    exists committed, tasks_of (stored_state s) !! id = Some committed /\ t_status committed <> terminal /\ t_conversationId committed = t_conversationId r).
Context (HW : W ≡ₚ table_writes tx submissions ++ concat (write_plan <$> qs)).

Let types := recordTypes (stored_state s).

Definition task_claim (x : N * option (bool * TaskRecord)) : option (N * TableName) := match x.2 with Some _ => Some (x.1, TTask) | None => None end.

Lemma batch_claims : claims W ≡ₚ claims (tx_writes tx) ++ omap task_claim (tx_tasks tx) ++ ((fun i => (i, TSubmission)) <$> submissions.*1) ++
  ((fun c => (dc_id c, TDocument)) <$> omap entry_created (tx_documents tx)).
Proof.
  assert (E1 : claims ((fun x : N * SubmissionRecord => WSubmission x.2) <$> submissions) = (fun i => (i, TSubmission)) <$> submissions.*1).
  { assert (Hl : forall l, (forall x, x ∈ l -> x ∈ submissions) -> claims ((fun x : N * SubmissionRecord => WSubmission x.2) <$> l) = (fun i => (i, TSubmission)) <$> l.*1).
    { induction l as [|[i r] l IH]; intros Hl; [done|]. unfold claims in *. cbn. rewrite (sb_ids _ _ _ Hsub i r) by (apply Hl; left).
      f_equal. apply IH. intros x Hx. apply Hl. by right. }
    by apply Hl. }
  assert (E2 : claims (task_writes tx) = omap task_claim (tx_tasks tx)).
  { assert (Hl : forall l : list (N * option (bool * TaskRecord)), (forall x, x ∈ l -> x ∈ tx_tasks tx) ->
        claims (omap (fun x : N * option (bool * TaskRecord) => (fun w => WTask w.2) <$> x.2) l) = omap task_claim l).
    { induction l as [|[i w] l IH]; intros Hl; [done|]. unfold claims in *. cbn. destruct w as [[c r]|]; cbn.
      - rewrite (to_tasks _ _ Htx i c r) by (apply Hl; left). f_equal. apply IH. intros x Hx. apply Hl. by right.
      - apply IH. intros x Hx. apply Hl. by right. }
    by apply Hl. }
  assert (E3 : claims (concat (write_plan <$> qs)) = (fun c => (dc_id c, TDocument)) <$> omap entry_created (tx_documents tx)).
  { unfold claims. rewrite (omap_concat claim write_plan (fun q => (fun c => (dc_id c, TDocument)) <$> plan_new q)).
    - rewrite <- (fo_new _ _ _ Hf). clear. induction qs as [|q l IH]; [done|]. cbn. destruct (plan_new q); cbn; by rewrite IH.
    - intros q Hq. by apply (final_shape s tx q), Hf. }
  unfold claims in *. rewrite HW. unfold table_writes. rewrite !omap_app, E1, E2, E3, <- !app_assoc.
  apply Permutation_app_head. rewrite !app_assoc. apply Permutation_app_tail, Permutation_app_comm.
Qed.

Lemma stored_type (id : N) table : in_table (stored_state s) table id -> types !! id = Some table.
Proof. apply (si_types _ _ _ _ (so_inv _ (se_storage _ Hs))). Qed.

(** What is claimed is new, or replaces a record of its table. *)
Lemma claim_kinds (id : N) table : (id, table) ∈ claims W ->
  (id ∈ tx_ids tx /\ types !! id = None) \/ (once table = false /\ types !! id = Some table).
Proof.
  pose proof (to_fresh _ _ Htx) as Hfr. rewrite Forall_forall in Hfr.
  assert (Hnew : id ∈ (claims (tx_writes tx)).*1 \/ id ∈ created_tasks (tx_tasks tx) \/ id ∈ (tx_submissions tx).*1 \/
      id ∈ dc_id <$> omap entry_created (tx_documents tx) ->
      (id ∈ tx_ids tx /\ types !! id = None) \/ (once table = false /\ types !! id = Some table)).
  { intros Hin. left. assert (id ∈ tx_ids tx) as Hx by (unfold tx_ids; by rewrite !elem_of_app). split; [done|]. apply Hfr, Hx. }
  rewrite batch_claims, !elem_of_app. intros [H|[H|[H|H]]].
  - apply Hnew. left. apply list_elem_of_fmap. by exists (id, table).
  - apply list_elem_of_omap in H as ([i w] & Hin & Hc). unfold task_claim in Hc. cbn in Hc. destruct w as [[[] r]|]; [| |done]; injection Hc as -> <-.
    + apply Hnew. right. left. apply list_elem_of_omap. by exists (id, Some (true, r)).
    + right. split; [done|]. apply stored_type. destruct (Hrep id r Hin) as (t & Ht & _). unfold tasks_of in Ht. by eexists.
  - apply list_elem_of_fmap in H as (i & [= -> ->] & Hi). destruct (sb_keys _ _ _ Hsub) as (added & E & _ & Hadd). rewrite E in Hi.
    apply elem_of_app in Hi as [Hi|Hi]; [apply Hnew; tauto|]. right. split; [done|]. apply stored_type. by apply Hadd.
  - apply list_elem_of_fmap in H as (c & [= -> ->] & Hc). apply Hnew. right. right. right. by apply list_elem_of_fmap_2.
Qed.

Lemma batch_ids : NoDup ((claims W).*1).
Proof.
  pose proof (to_ids _ _ Htx) as Hnd. pose proof (to_fresh _ _ Htx) as Hfr. rewrite Forall_forall in Hfr.
  unfold tx_ids in Hnd, Hfr. apply NoDup_parts in Hnd as (N1 & N4 & D1 & D2 & D3).
  rewrite batch_claims, !fmap_app.
  assert (E4 : ((fun c => (dc_id c, TDocument)) <$> omap entry_created (tx_documents tx)).*1 = dc_id <$> omap entry_created (tx_documents tx)) by by rewrite <- list_fmap_compose.
  assert (E3 : ((fun i => (i, TSubmission)) <$> submissions.*1).*1 = submissions.*1) by (rewrite <- list_fmap_compose; apply list_fmap_id).
  rewrite E3, E4.
  assert (K1 : forall i, i ∈ (claims (tx_writes tx)).*1 -> types !! i = None) by (intros i Hi; apply Hfr; rewrite !elem_of_app; tauto).
  assert (K4 : forall i, i ∈ dc_id <$> omap entry_created (tx_documents tx) -> types !! i = None) by (intros i Hi; apply Hfr; rewrite !elem_of_app; tauto).
  assert (K2 : forall i, i ∈ (omap task_claim (tx_tasks tx)).*1 -> (i ∈ created_tasks (tx_tasks tx) /\ types !! i = None) \/ types !! i = Some TTask).
  { intros i ([i' tb] & -> & ([k w] & Hin & Hc)%list_elem_of_omap)%list_elem_of_fmap. unfold task_claim in Hc. cbn in *.
    destruct w as [[[] r]|]; [| |done]; injection Hc as <- <-.
    - left. assert (Hin' : k ∈ created_tasks (tx_tasks tx)) by (apply list_elem_of_omap; by exists (k, Some (true, r))). split; [done|].
      apply Hfr. rewrite !elem_of_app. tauto.
    - right. apply stored_type. destruct (Hrep k r Hin) as (t & Ht & _). by eexists. }
  destruct (sb_keys _ _ _ Hsub) as (added & E & Nsub & Hadd).
  assert (K3 : forall i, i ∈ submissions.*1 -> (i ∈ (tx_submissions tx).*1 /\ types !! i = None) \/ types !! i = Some TSubmission).
  { intros i Hi. rewrite E in Hi. apply elem_of_app in Hi as [Hi|Hi]; [left; split; [done|]; apply Hfr; rewrite !elem_of_app; tauto|right].
    apply stored_type. by apply Hadd. }
  apply NoDup_app. split; [done|]. split.
  { intros i Hi Hin. pose proof (K1 i Hi). destruct (D1 i Hi) as (A & B & C). rewrite !elem_of_app in Hin. destruct Hin as [Hin|[Hin|Hin]]; [| |done].
    - destruct (K2 i Hin) as [[? _]|]; [done|congruence].
    - destruct (K3 i Hin) as [[? _]|]; [done|congruence]. }
  apply NoDup_app. split.
  { apply (sublist_NoDup ((omap task_claim (tx_tasks tx)).*1) ((tx_tasks tx).*1)); [apply (to_keys _ _ Htx)|].
    assert (E2 : (omap task_claim (tx_tasks tx)).*1 = omap (fun x => match x.2 with Some _ => Some x.1 | None => None end) (tx_tasks tx)).
    { clear. induction (tx_tasks tx) as [|[i [[c r]|]] l IH]; [done|..]; cbn; by rewrite IH. }
    rewrite E2. apply omap_sublist_map. intros [i [w|]] y; cbn; congruence. }
  split.
  { intros i Hi Hin. apply elem_of_app in Hin as [Hin|Hin].
    - destruct (K2 i Hi) as [[A ?]|A], (K3 i Hin) as [[B ?]|B]; try congruence. by destruct (D2 i A).
    - pose proof (K4 i Hin). destruct (K2 i Hi) as [[A ?]|A]; [by destruct (D2 i A)|congruence]. }
  apply NoDup_app. split; [done|]. split; [|done]. intros i Hi Hin. pose proof (K4 i Hin). destruct (K3 i Hi) as [[A ?]|A]; [by destruct (D3 i A)|congruence].
Qed.

(** Writes of tables do not touch documents. *)
Lemma table_write_shape w : w ∈ table_writes tx submissions ->
  content_id w = None /\ retire_id w = None /\ created_record w = None /\ change_of w = None /\ changed_document w = None.
Proof.
  unfold table_writes, task_writes. rewrite !elem_of_app. intros [H|[H|H]].
  - destruct (to_writes _ _ Htx w H) as [[c ->]|[e ->]]; done.
  - by apply list_elem_of_fmap in H as (x & -> & _).
  - apply list_elem_of_omap in H as ([i [[c r]|]] & _ & Hw); [|done]. by injection Hw as <-.
Qed.

Lemma omap_none {A B} (f : A -> option B) (l : list A) : (forall x, x ∈ l -> f x = None) -> omap f l = [].
Proof. induction l as [|x l IH]; intros Hx; [done|]. cbn. rewrite Hx by left. apply IH. intros y Hy. apply Hx. by right. Qed.

Lemma batch_parts :
  omap content_id W ≡ₚ omap plan_content_id qs /\ retires_of W ≡ₚ omap plan_retire qs /\ created W ≡ₚ omap plan_new qs.
Proof.
  rewrite !HW, !omap_app.
  rewrite (omap_none content_id (table_writes tx submissions)) by (intros w Hw; by apply table_write_shape in Hw as (? & ? & ? & ? & ?)).
  rewrite (omap_none retire_id (table_writes tx submissions)) by (intros w Hw; by apply table_write_shape in Hw as (? & ? & ? & ? & ?)).
  rewrite (omap_none created_record (table_writes tx submissions)) by (intros w Hw; by apply table_write_shape in Hw as (? & ? & ? & ? & ?)).
  rewrite (omap_concat content_id write_plan plan_content_id), (omap_concat retire_id write_plan plan_retire), (omap_concat created_record write_plan plan_new); [done|..];
    intros q Hq; by destruct (final_shape s tx q (fo_content _ _ _ Hf q Hq)) as (? & ? & ? & ?).
Qed.

(** A write of a document is that of a plan. *)
Lemma document_write w : w ∈ W -> changed_document w <> None -> exists q, q ∈ qs /\ w ∈ write_plan q.
Proof.
  rewrite HW. intros [H|H]%elem_of_app Hc; [by apply table_write_shape in H as (_ & _ & _ & _ & ?)|].
  apply list_elem_of_In, in_concat in H as (l & Hl%list_elem_of_In & Hwl%list_elem_of_In). apply list_elem_of_fmap in Hl as (q & -> & Hq). by exists q.
Qed.

Lemma plan_write_elem q w : w ∈ write_plan q -> dp_content q = Some w \/ (dp_retire q = true /\ w = WDocumentRetire (plan_id q)).
Proof.
  unfold write_plan. intros [H|H]%elem_of_app.
  - left. destruct (dp_content q); [|by apply elem_of_nil in H]. by apply list_elem_of_singleton in H as ->.
  - right. destruct (dp_retire q); [|by apply elem_of_nil in H]. by apply list_elem_of_singleton in H as ->.
Qed.

Lemma plan_write_document q w id : q ∈ qs -> w ∈ write_plan q -> changed_document w = Some id ->
  plan_id q = id /\ (is_Some (dp_content q) \/ dp_retire q = true).
Proof.
  intros Hq Hw Ew. apply plan_write_elem in Hw as [Ec|[R ->]]; [|by injection Ew as <-; split; [|right]].
  split; [|left; by eexists]. pose proof (fo_content _ _ _ Hf q Hq) as Hc. unfold final_content in Hc. unfold plan_id, plan_create.
  destruct (dp_record q) as [c|r].
  - destruct Hc as [(v & b & E)|(source & E & _)]; rewrite Ec in E; injection E as ->; by injection Ew as <-.
  - destruct Hc as [_ [E|(c & E & _)]]; rewrite Ec in E; [done|]. injection E as ->. by injection Ew as <-.
Qed.

Lemma change_plan id c : WDocumentChange id c ∈ W -> exists q r, q ∈ qs /\ dp_record q = inr r /\ id = record_id r /\
  dp_content q = Some (WDocumentChange id c) /\ stored_live s r /\ content_fits s id c.
Proof.
  intros H. destruct (document_write _ H) as (q & Hq & [E|[_ [=]]]%plan_write_elem); [done|].
  pose proof (fo_content _ _ _ Hf q Hq) as Hc. unfold final_content in Hc. destruct (dp_record q) as [cr|r] eqn:Er.
  - destruct Hc as [(v & b & E')|(source & E' & _)]; congruence.
  - destruct Hc as [Hl [E'|(c' & E' & Hfit)]]; [congruence|]. rewrite E in E'. injection E' as -> <-. exists q, r. done.
Qed.

Lemma retired_plan id : id ∈ retires_of W <-> exists q, q ∈ qs /\ plan_id q = id /\ dp_retire q = true.
Proof.
  destruct batch_parts as (_ & -> & _). rewrite list_elem_of_omap. unfold plan_retire. split.
  - intros (q & Hq & E). exists q. destruct (dp_retire q); [by injection E as <-|done].
  - intros (q & Hq & <- & R). exists q. by rewrite R.
Qed.

Lemma created_plan c : c ∈ created W <-> exists q, q ∈ qs /\ dp_record q = inl c.
Proof.
  destruct batch_parts as (_ & _ & ->). rewrite list_elem_of_omap. unfold plan_new. split.
  - intros (q & Hq & E). exists q. destruct (dp_record q); [by injection E as ->|done].
  - intros (q & Hq & E). exists q. by rewrite E.
Qed.

(** The plan of a document. *)
Lemma plan_unique p q : p ∈ qs -> q ∈ qs -> plan_id p = plan_id q -> p = q.
Proof.
  intros [i Hi]%list_elem_of_lookup [j Hj]%list_elem_of_lookup E. assert (i = j) as <-; [|congruence].
  apply (NoDup_lookup (plan_id <$> qs) i j (plan_id p)); [apply Hf|by rewrite list_lookup_fmap, Hi|by rewrite list_lookup_fmap, Hj, E].
Qed.

Lemma new_not_stored q c (id : N) o : q ∈ qs -> dp_record q = inl c -> stored_docs s !! id = Some o -> plan_id q <> id.
Proof.
  intros Hq Ec Ho E. destruct (fo_created _ _ _ Hf q c Hq Ec) as (_ & _ & _ & Hin). unfold plan_id, plan_create in E. rewrite Ec in E.
  apply (created_not_stored s tx (dc_id c) o Hs Htx Hin). by rewrite E.
Qed.

Lemma commit_batch_fits : batch_fits types (document_tables (stored_state s)) W.
Proof.
  destruct batch_parts as (P1 & P2 & P3). constructor.
  - apply batch_ids.
  - intros id table H. destruct (claim_kinds id table H) as [[_ ?]|?]; [by left|by right].
  - rewrite P1. apply (sublist_NoDup _ (plan_id <$> qs)); [apply Hf|]. apply omap_sublist_map. intros q y. unfold plan_content_id.
    destruct (dp_content q); [by intros [= <-]|done].
  - rewrite P2. apply (sublist_NoDup _ (plan_id <$> qs)); [apply Hf|]. apply omap_sublist_map. intros q y. unfold plan_retire.
    destruct (dp_retire q); [by intros [= <-]|done].
  - intros c (q & Hq & Ec)%created_plan. destruct (stored_docs s !! dc_id c) as [o|] eqn:Ho; [exfalso|done].
    apply (new_not_stored q c _ o Hq Ec Ho). unfold plan_id, plan_create. by rewrite Ec.
  - intros id version delta (w & Hw & E)%list_elem_of_omap. destruct w as [| | | | | |i c|]; try done. injection E as -> <- <-.
    destruct (change_plan id c Hw) as (q & r & Hq & Er & -> & _ & (o & Ho & Hl & _) & (v & x & n & Ec & _ & Hd)).
    exists o. split; [done|]. split; [done|]. intros Hb. destruct (dcn_content c) as [b|ops] eqn:Econ; [done|].
    destruct (Hd ops eq_refl) as (-> & _). by apply (content_version (ss_storage s) (record_id r) o v x n (so_inv _ (se_storage _ Hs)) Ho Hl).
  - intros id (q & Hq & <- & R)%retired_plan. pose proof (fo_content _ _ _ Hf q Hq) as Hc. unfold final_content in Hc.
    unfold plan_id, plan_create. destruct (dp_record q) as [c|r] eqn:Er.
    + left. apply list_elem_of_fmap. exists c. split; [done|]. apply created_plan. by exists q.
    + right. destruct Hc as [(o & Ho & Hl & _) _]. by exists o.
  - intros c1 c2 (q1 & Hq1 & E1)%created_plan (q2 & Hq2 & E2)%created_plan N1 N2 Ek.
    assert (I1 : plan_id q1 = dc_id c1) by (unfold plan_id, plan_create; by rewrite E1).
    assert (I2 : plan_id q2 = dc_id c2) by (unfold plan_id, plan_create; by rewrite E2).
    rewrite <- I1, <- I2. apply (fo_address _ _ _ Hf q1 q2 Hq1 Hq2).
    + apply not_true_iff_false. intros R. apply N1, retired_plan. by exists q1.
    + apply not_true_iff_false. intros R. apply N2, retired_plan. by exists q2.
    + destruct (fo_created _ _ _ Hf q1 c1 Hq1 E1) as (-> & _), (fo_created _ _ _ Hf q2 c2 Hq2 E2) as (-> & _).
      f_equal. by apply addressKey_inj.
  - intros c id o (q & Hq & Ec)%created_plan Hn Ho Hl Ek. apply retired_plan.
    apply (fo_covered _ _ _ Hf q c Hq Ec) with (o := o); [|done..|by apply addressKey_inj].
    apply not_true_iff_false. intros R. apply Hn, retired_plan. exists q. split; [done|]. split; [|done]. unfold plan_id, plan_create. by rewrite Ec.
Qed.

Lemma commit_copies_fit : copies_fit (document_tables (stored_state s)) W.
Proof.
  intros c source Hw. destruct (document_write _ Hw) as (q & Hq & [E|[_ [=]]]%plan_write_elem); [done|].
  pose proof (fo_content _ _ _ Hf q Hq) as Hc. unfold final_content in Hc. destruct (dp_record q) as [c'|r] eqn:Er.
  2: { destruct Hc as [_ [E'|(c' & E' & _)]]; congruence. }
  destruct Hc as [(v & b & E')|(source' & E' & Hfork & Hfit & Hsrc)]; [congruence|]. rewrite E in E'. injection E' as <- <-. split; [|done].
  destruct Hfit as (stored & Hm & H1 & _ & _ & _ & _ & H6).
  assert (Ho : exists o, stored_docs s !! cs_id source = Some o /\ sd_record stored = st_record o).
  { unfold materializeDocument in Hm. destruct (stored_docs s !! cs_id source) as [o|]; [|done]. exists o. split; [done|].
    destruct (check _ _); [|done]. cbn [mbind res_bind] in Hm. destruct (isAliveAt _ _); [|done]. destruct (base_index _ _) as [b|]; [|done].
    destruct (_ !! b) as [[vv [y|]]|]; try done. destruct (replay _ _ _ _) as [[w|]|]; try done. by injection Hm as <-. }
  destruct Ho as (o & Ho & Er').
  intros (w & Hw' & Ew)%list_elem_of_omap. destruct (document_write w Hw') as (q' & Hq' & Hwq); [congruence|].
  destruct (plan_write_document q' w (cs_id source) Hq' Hwq Ew) as [Epl Hwr].
apply (fo_sources _ _ _ Hf q' (cs_id source) o Hq' Hwr Ho); [by rewrite <- Er'| |done|done]. rewrite <- Er', H6. done.
Qed.

(** ** Owners after the commit *)

Section Owners.
Context (m' : MemoryStorage) (He : batch_effect (ss_storage s) W m').

Let ws' := prepared_write (document_tables (stored_state s)) <$> W.

Lemma written_in {R} (id_of : R -> N) (pick : StorageWrite -> option R) (id : N) v :
  written id_of pick id ws' = Some v -> exists w, w ∈ W /\ pick (prepared_write (document_tables (stored_state s)) w) = Some v /\ id_of v = id.
Proof.
  unfold written. intros H. apply last_Some in H as [l' Hl].
  assert (Hin : v ∈ filter (fun v => id_of v = id) (omap pick ws')) by (rewrite Hl; set_solver).
  apply list_elem_of_filter in Hin as [E (w & (w0 & -> & Hw)%list_elem_of_fmap & Hp)%list_elem_of_omap]. by exists w0.
Qed.

Lemma written_some {R} (id_of : R -> N) (pick : StorageWrite -> option R) w v : w ∈ W ->
  pick (prepared_write (document_tables (stored_state s)) w) = Some v -> is_Some (written id_of pick (id_of v) ws').
Proof.
  intros Hw Hp. unfold written.
  assert (Hin : v ∈ filter (fun v' => id_of v' = id_of v) (omap pick ws')).
  { apply list_elem_of_filter. split; [done|]. apply list_elem_of_omap. exists (prepared_write (document_tables (stored_state s)) w).
    split; [by apply list_elem_of_fmap_2|done]. }
  destruct (last _) eqn:E; [by eexists|]. apply last_None in E. rewrite E in Hin. by apply elem_of_nil in Hin.
Qed.

(** The tasks that the batch writes. *)
Lemma written_task (id : N) v : written t_id pick_task id ws' = Some v -> exists created r, (id, Some (created, r)) ∈ tx_tasks tx /\ v = clone r.
Proof.
  intros (w & Hw & Hp & Eid)%written_in. rewrite HW in Hw. apply elem_of_app in Hw as [Hw|Hw].
  - unfold table_writes, task_writes in Hw. rewrite !elem_of_app in Hw. destruct Hw as [Hw|[Hw|Hw]].
    + by destruct (to_writes _ _ Htx w Hw) as [[c ->]|[e ->]].
    + by apply list_elem_of_fmap in Hw as (x & -> & _).
    + apply list_elem_of_omap in Hw as ([i [[c r]|]] & Hin & Ew); [|done]. injection Ew as <-. cbn in Hp. injection Hp as <-.
      pose proof (to_tasks _ _ Htx i c r Hin) as Er. assert (i = id) as -> by (rewrite <- Eid, <- Er; done). by exists c, r.
  - apply list_elem_of_In, in_concat in Hw as (l & Hl%list_elem_of_In & Hwl%list_elem_of_In). apply list_elem_of_fmap in Hl as (q & -> & Hq).
    exfalso. pose proof (fo_content _ _ _ Hf q Hq) as Hc. unfold final_content in Hc. apply plan_write_elem in Hwl as [E|[_ ->]]; [|done].
    destruct (dp_record q).
    + destruct Hc as [(v' & b & E')|(source & E' & _)]; rewrite E in E'; injection E' as ->; [done|]. unfold prepared_write in Hp. cbn in Hp.
      by destruct (materializeDocument _ _ _) as [[]|].
    + destruct Hc as [_ [E'|(c & E' & _)]]; rewrite E in E'; [done|]. injection E' as ->. done.
Qed.

Lemma task_after (id : N) : tasks_of (state m') !! id =
  match task_write tx id with Some (_, r) => Some (clone r) | None => tasks_of (stored_state s) !! id end.
Proof.
  destruct (be_records _ _ _ He id) as (_ & _ & E & _). fold ws' in E. rewrite E. unfold task_write.
  destruct (alist_get id (tx_tasks tx)) as [[[c r]|]|] eqn:Eg; cbn [mbind option_bind].
  - apply alist_get_elem in Eg.
    assert (Hw : WTask r ∈ W).
    { rewrite HW. apply elem_of_app. left. unfold table_writes, task_writes. rewrite !elem_of_app. right. right. apply list_elem_of_omap.
      by exists (id, Some (c, r)). }
    destruct (written_some t_id pick_task (WTask r) (clone r) Hw eq_refl) as [v Hv].
    assert (Eid : t_id (clone r) = id) by (by apply (to_tasks _ _ Htx id c r)). rewrite Eid in Hv. rewrite Hv. cbn.
    destruct (written_task id v Hv) as (c' & r' & Hin & ->).
    apply (alist_elem_get _ _ _ (to_keys _ _ Htx)) in Eg, Hin. rewrite Eg in Hin. by injection Hin as _ ->.
  - destruct (written t_id pick_task id ws') as [v|] eqn:Ev; [exfalso|done]. destruct (written_task id v Ev) as (c & r & Hin & _).
    apply (alist_elem_get _ _ _ (to_keys _ _ Htx)) in Hin. congruence.
  - destruct (written t_id pick_task id ws') as [v|] eqn:Ev; [exfalso|done]. destruct (written_task id v Ev) as (c & r & Hin & _).
    apply (alist_elem_get _ _ _ (to_keys _ _ Htx)) in Hin. congruence.
Qed.

Lemma in_ending_spec t : in_ending (ending_tasks tx) (ScopeTask t) = true <-> exists created r, (t, Some (created, r)) ∈ tx_tasks tx /\ t_status r = terminal /\ (t, created) ∈ ending_tasks tx.
Proof.
  cbn. rewrite bool_decide_eq_true, list_elem_of_fmap. split.
  - intros ([i c] & -> & Hin). pose proof Hin as Hin2. apply list_elem_of_omap in Hin as ([k [[c' r]|]] & Hin & E); [|done]. cbn in E.
    destruct (decide (t_status r = terminal)); [|done]. injection E as <- <-. cbn in *. pose proof (to_tasks _ _ Htx _ _ _ Hin) as Ek. rewrite Ek in *.
    by exists c', r.
  - intros (c & r & _ & _ & H). by exists (t, c).
Qed.

Lemma owner_after scope : owner_staged s tx scope -> in_ending (ending_tasks tx) scope = false -> owner_stored (state m') scope.
Proof.
  destruct scope as [|c|t]; [done| |]; intros Hown Hend.
  - destruct (be_records _ _ _ He c) as (E & _). cbn. fold ws' in E. rewrite E. destruct Hown as [Hc|Hc].
    + apply (to_created _ _ Htx) in Hc as (r & Hr & <-).
      assert (Hw : WConversation r ∈ W) by (rewrite HW; apply elem_of_app; left; apply elem_of_app; by left).
      destruct (written_some c_id pick_conversation (WConversation r) (clone r) Hw eq_refl) as [v Hv]. 
      change (c_id (clone r)) with (c_id r) in Hv. rewrite Hv. by eexists.
    + by destruct (written _ _ _ _).
  - cbn. rewrite task_after. destruct (task_write tx t) as [[c r]|] eqn:Ew.
    + exists (clone r). split; [done|]. rewrite clone_status. intros Ht. apply not_true_iff_false in Hend. apply Hend. apply in_ending_spec.
      unfold task_write in Ew. destruct (alist_get t (tx_tasks tx)) as [[w|]|] eqn:Eg; [|done..]. cbn in Ew. injection Ew as ->. apply alist_get_elem in Eg.
      exists c, r. split; [done|]. split; [done|]. apply list_elem_of_omap. exists (t, Some (c, r)). split; [done|]. cbn.
      rewrite decide_True by done. by rewrite (to_tasks _ _ Htx t c r Eg).
    + destruct Hown as [[x Hx]|Hown]; [congruence|done].
Qed.

Lemma commit_batch_sound : batch_sound (ss_storage s) W m'.
Proof.
  destruct (fo_ending _ _ _ Hf) as [retiring Hen]. constructor.
  - intros id ([i table] & -> & Hin)%list_elem_of_fmap. cbn. destruct (claim_kinds i table Hin) as [[Hi _]|[_ Ht]].
    + pose proof (to_fresh _ _ Htx) as Hfr. rewrite Forall_forall in Hfr. apply (Hfr i Hi).
    + by apply (si_next _ _ _ _ (so_inv _ (se_storage _ Hs)) i table).
  - intros id v ops Hw _. destruct (change_plan _ _ Hw) as (q & r & _ & _ & _ & _ & _ & (v0 & x & n & Ec & Hx & Hd)).
    destruct (Hd ops eq_refl) as (_ & Hp & x' & Ha & Hx'). split; [done|]. intros v1 x1 n1 E1. rewrite Ec in E1. injection E1 as <- <- <-. by exists x'.
  - intros c (q & Hq & Ec)%created_plan. by destruct (fo_created _ _ _ Hf q c Hq Ec) as (_ & ? & _).
  - intros c (q & Hq & Ec)%created_plan Hn. destruct (fo_created _ _ _ Hf q c Hq Ec) as (_ & _ & Hown & _).
    apply owner_after; [done|]. apply not_true_iff_false. intros Hend. apply Hn, retired_plan. exists q. split; [done|].
    split; [unfold plan_id, plan_create; by rewrite Ec|]. apply (en_marked _ _ _ _ _ Hen q Hq). unfold plan_create. by rewrite Ec.
  - intros id o Ho Hl Hn. pose proof (so_owner _ (se_storage _ Hs) id o Ho Hl) as Hown. apply owner_after.
    + destruct (dc_scope _) as [|c|t]; [done|by right|by right].
    + apply not_true_iff_false. intros Hend. destruct (dc_scope (d_create (st_record o))) as [|c|t] eqn:Esc; [done..|].
      apply in_ending_spec in Hend as (created & r & Hin & Ht & Hend). destruct created.
      * destruct Hown as (t0 & Ht0 & _). pose proof (to_fresh _ _ Htx) as Hfr. rewrite Forall_forall in Hfr.
        assert (Hid : t ∈ tx_ids tx).
        { unfold tx_ids. rewrite !elem_of_app. right. left. apply list_elem_of_omap. by exists (t, Some (true, r)). }
        destruct (Hfr t Hid) as [Hno _]. assert (Htt : recordTypes (stored_state s) !! t = Some TTask) by (apply stored_type; by eexists). congruence.
      * apply Hn, retired_plan. pose proof (stored_id _ _ _ (so_inv _ (se_storage _ Hs)) Ho) as Eid.
        destruct (en_all _ _ _ _ _ Hen t (st_record o) Hend) as (q & Hq & Eq & R); [exists o; by rewrite Eid|done|].
        exists q. split; [done|]. split; [congruence|done].
Qed.
End Owners.
End Batch.
