(* ===== verification/CommitInvariant.v ===== *)
(** A commit keeps the invariant of the Session (durable/src/session/session.ts): a stored
    one, whose batch memory adopts, and a held one, which changes memory only. *)
From S2P Require Import Prelude JsString Json DeltaOp DeltaApply DeltaPending StorageTypes SortedIds MemoryCommit DocumentFacts TableFacts MemoryFacts MemoryRead ReadFacts MemoryHistory SessionTypes SessionTransaction SessionCommit BatchFacts SessionInvariant TransactionFacts TransactionDocuments BatchPlans BatchCommit.

Record stored_commit (s : SessionState) (tx : Transaction) (plans qs : list DocumentPlan) (submissions : list (N * SubmissionRecord))
    (W : list StorageWrite) (s' : SessionState) : Prop := {
  sc_session : session_ok s;
  sc_tx : tx_ok s tx;
  sc_plans : plans_ok s tx plans;
  sc_became : Forall2 (plan_became s) plans qs;
  sc_final : final_ok s tx qs;
  sc_submissions : submissions_ok s tx submissions;
  sc_replaced : forall id r, (id, Some (false, r)) ∈ tx_tasks tx ->
    exists committed, tasks_of (stored_state s) !! id = Some committed /\ t_status committed <> terminal /\ t_conversationId committed = t_conversationId r;
  sc_writes : W ≡ₚ table_writes tx submissions ++ concat (write_plan <$> qs);
  sc_effect : batch_effect (ss_storage s) W (ss_storage s');
  sc_documents : ss_documents s' = foldl (adopt_document (nextSeq (ss_storage s))) (ss_documents s) qs;
  sc_holds : forall i : N, ss_holds s' !! i = if decide (i ∈ omap (held_plan s) plans) then None else ss_holds s !! i;
  sc_tasks : ss_taskDocuments s' =
    indexTaskDocuments tx (omap (published_change (nextSeq (ss_storage s))) qs) (nextSeq (ss_storage s)) (ss_taskDocuments s);
  sc_published : ss_published s' = ss_published s ++ omap (published_change (nextSeq (ss_storage s))) qs;
}.

Lemma table_base s tx submissions : tx_ok s tx -> base_writes (table_writes tx submissions).
Proof.
  intros Htx w i Hw. destruct (table_write_shape s tx submissions Htx w Hw) as (_ & _ & _ & H & _). by destruct w.
Qed.

(** A settled commit is never refused by the storage. *)
Lemma settled_batch s tx plans writes : session_ok s -> tx_ok s tx -> assembled s tx plans writes ->
  exists taking submissions, takeHeld s plans writes = Ok taking /\ Forall2 (plan_became s) plans (tk_plans taking) /\
    tk_taken taking = omap (held_plan s) plans /\ submissions_ok s tx submissions /\
    tk_writes taking ≡ₚ table_writes tx submissions ++ concat (write_plan <$> tk_plans taking) /\ final_ok s tx (tk_plans taking) /\
    batch_fits (recordTypes (stored_state s)) (document_tables (stored_state s)) (tk_writes taking) /\
    copies_fit (document_tables (stored_state s)) (tk_writes taking).
Proof.
  intros Hs Htx Has. destruct (as_submissions _ _ _ _ Has) as (submissions & Hsub & Ew).
  assert (Ew' : writes = table_writes tx submissions ++ concat (write_plan <$> plans)) by (rewrite Ew; unfold table_writes, task_writes; by rewrite <- !app_assoc).
  assert (Ht : exists taking, takeHeld s plans writes = Ok taking).
  { unfold takeHeld. assert (Hgo : forall todo acc, (forall p, p ∈ todo -> plan_ok s tx p) -> exists res, res_foldl (take_plan s) acc todo = Ok res).
    { induction todo as [|p todo IH]; intros acc Hok; [by eexists|]. cbn [res_foldl].
      assert (Hone : exists acc1, take_plan s acc p = Ok acc1).
      { unfold take_plan. destruct (dp_record p) as [c|r] eqn:Er; [by eexists|]. destruct (ss_holds s !! record_id r) as [hold|] eqn:Eh; [|by eexists].
        destruct (held_document s tx p r hold Hs (Hok p (list_elem_of_here _ _)) Er Eh) as (d & Hd & _). rewrite Hd. cbn [res_of mbind res_bind].
        destruct (storeHeld _ _ _ _). by eexists. }
      destruct Hone as [acc1 ->]. cbn [mbind res_bind]. apply IH. intros x Hx. apply Hok. by right. }
    apply Hgo. apply Has. }
  destruct Ht as [taking Et]. exists taking, submissions.
  destruct (takeHeld_ok s tx _ plans writes taking Hs (table_base s tx submissions Htx) (as_plans _ _ _ _ Has) Ew' Et) as (H1 & H2 & H3).
  pose proof (final_plans s tx plans _ writes Hs Htx Has H1) as Hf. pose proof (as_replaced _ _ _ _ Has) as Hrep.
  split_and!; try done.
  - by apply (commit_batch_fits s tx (tk_plans taking) submissions).
  - by apply (commit_copies_fit s tx (tk_plans taking) submissions).
Qed.

Lemma store_commit_ok s tx plans writes s' : session_ok s -> tx_ok s tx -> assembled s tx plans writes -> store_commit s tx plans writes = Ok s' ->
  exists qs submissions W, stored_commit s tx plans qs submissions W s'.
Proof.
  intros Hs Htx Has H. destruct (settled_batch s tx plans writes Hs Htx Has) as (taking & submissions & Et & Hq & Etk & Hsub & Hw & Hf & Hfit & Hcf).
  unfold store_commit in H. rewrite Et in H. cbn [mbind res_bind] in H. destruct (store_batch _ _) as [r|] eqn:Er; [|done]. cbn [mbind res_bind] in H.
  pose proof (se_storage _ Hs) as Hst. destruct (stored_effect _ _ r (so_inv _ Hst) (so_open _ Hst) Hcf Hfit Er) as [Eseq He].
  destruct r as [m seq]. cbn in Eseq. subst seq. injection H as <-. exists (tk_plans taking), submissions, (tk_writes taking).
  constructor; try done; [apply Has|apply Has|]. intros i. cbn. rewrite deleted_lookup. by rewrite Etk.
Qed.

Section Commit.
Context (s : SessionState) (tx : Transaction) (plans qs : list DocumentPlan) (submissions : list (N * SubmissionRecord))
    (W : list StorageWrite) (s' : SessionState).
Context (Hc : stored_commit s tx plans qs submissions W s').

Let Hs := sc_session _ _ _ _ _ _ _ Hc.
Let Htx := sc_tx _ _ _ _ _ _ _ Hc.
Let Hf := sc_final _ _ _ _ _ _ _ Hc.
Let He := sc_effect _ _ _ _ _ _ _ Hc.
Let Hsub := sc_submissions _ _ _ _ _ _ _ Hc.
Let Hrep := sc_replaced _ _ _ _ _ _ _ Hc.
Let HW := sc_writes _ _ _ _ _ _ _ Hc.
Let m := ss_storage s.
Let m' := ss_storage s'.

Lemma commit_fits : batch_fits (recordTypes (stored_state s)) (document_tables (stored_state s)) W.
Proof. by apply (commit_batch_fits s tx qs submissions). Qed.

Lemma commit_copies : copies_fit (document_tables (stored_state s)) W.
Proof. by apply (commit_copies_fit s tx qs submissions). Qed.

Lemma commit_storage_ok : storage_ok m'.
Proof.
  apply (storage_ok_batch m W); [apply Hs|apply commit_fits|apply commit_copies|apply He|]. by apply (commit_batch_sound s tx qs submissions).
Qed.

(** The plan before held changes were added. *)
Lemma plan_before q : q ∈ qs -> exists p, p ∈ plans /\ plan_ok s tx p /\ plan_became s p q.
Proof.
  intros [i Hi]%list_elem_of_lookup. destruct (Forall2_lookup_r _ _ _ _ _ (sc_became _ _ _ _ _ _ _ Hc) Hi) as (p & Hp%list_elem_of_lookup_2 & Hpq).
  exists p. split; [done|]. split; [|done]. by apply (sc_plans _ _ _ _ _ _ _ Hc).
Qed.

Lemma plan_after p : p ∈ plans -> exists q, q ∈ qs /\ plan_became s p q.
Proof.
  intros [i Hi]%list_elem_of_lookup. destruct (Forall2_lookup_l _ _ _ _ _ (sc_became _ _ _ _ _ _ _ Hc) Hi) as (q & Hq%list_elem_of_lookup_2 & Hpq).
  by exists q.
Qed.

(** A plan of a loaded document. *)
Record loaded_plan (q : DocumentPlan) (d : LoadedDocument) (c : PlanChange) : Prop := {
  lp_change : dp_change q = Some c;
  lp_loaded : pc_loaded c = Some d;
  lp_record : dp_record q = inr (ld_record d);
  lp_cached : ss_documents s !! dp_addressId q = Some d;
  lp_version : pc_version c = ld_valueVersion d;
  lp_performs : performs (ld_value d) (pr_ops (pc_prepared c)) (pr_value (pc_prepared c));
}.

Lemma change_loaded q c : q ∈ qs -> dp_change q = Some c ->
  match dp_record q with
  | inl _ => pc_loaded c = None /\ plain (pr_value (pc_prepared c)) /\
             dp_content q = Some (WDocumentCreate (plan_create q) (pc_version c) (pr_value (pc_prepared c)))
  | inr r => exists d, loaded_plan q d c
  end.
Proof.
  intros (p & _ & Hok & Hpq)%plan_before Ec. destruct (became_same _ _ _ Hpq) as (Ea & Er & Eret & Ech & _).
  pose proof (pk_content _ _ _ Hok) as Hcon. unfold plan_content_ok in Hcon. rewrite <- Er, <- Ech, Ec in Hcon. unfold plan_create.
  destruct (dp_record q) as [cr|r] eqn:Eq.
  - destruct Hcon as (H1 & H2 & H3). split; [done|]. split; [done|]. unfold plan_became, held_plan in Hpq. rewrite <- Er in Hpq. by subst q.
  - destruct Hcon as (d & H1 & -> & H2 & H3 & H4 & _). exists d. by constructor; rewrite ?Ea.
Qed.

Lemma no_change q : q ∈ qs -> dp_change q = None ->
  match dp_record q with
  | inl c => exists source, dp_content q = Some (WDocumentCopy c source) /\ is_conversation_scope (dc_scope c) = true
  | inr r => dp_retire q = true
  end.
Proof.
  intros (p & _ & Hok & Hpq)%plan_before Ec. destruct (became_same _ _ _ Hpq) as (Ea & Er & Eret & Ech & _).
  pose proof (pk_content _ _ _ Hok) as Hcon. unfold plan_content_ok in Hcon. rewrite <- Er, <- Ech, Ec in Hcon.
  destruct (dp_record q) as [cr|r] eqn:Eq.
  - destruct Hcon as (source & H1 & _ & H2 & _). exists source. unfold plan_became, held_plan in Hpq. rewrite <- Er in Hpq. subst q. split; [done|].
    by destruct H2 as (? & _ & _ & ? & _).
  - destruct Hcon as [_ H2]. by rewrite Eret.
Qed.

(** The plan of an existing document. *)
Lemma plan_stored q r : q ∈ qs -> dp_record q = inr r -> stored_live s r /\ dp_addressId q = addressId (address_of (d_create r)) /\ plan_id q = record_id r.
Proof.
  intros (p & _ & Hok & Hpq)%plan_before Er. destruct (became_same _ _ _ Hpq) as (Ea & Erq & _). rewrite Erq in Er.
  split; [by apply (pk_stored _ _ _ Hok)|]. rewrite Ea, (pk_address _ _ _ Hok). unfold plan_id, plan_create. by rewrite Erq, Er.
Qed.

Lemma plan_new_facts q c : q ∈ qs -> dp_record q = inl c -> plan_id q = dc_id c /\ dp_addressId q = addressId (address_of c) /\
  forall (i : N) o, stored_docs s !! i = Some o -> plan_id q <> i.
Proof.
  intros Hq Er. split; [unfold plan_id, plan_create; by rewrite Er|]. split; [by apply (fo_created _ _ _ Hf q c)|].
  intros i o. by apply (new_not_stored s tx qs Hs Htx Hf q c).
Qed.

(** A document without a plan is as before. *)
Lemma unplanned (id : N) : (forall q, q ∈ qs -> plan_id q <> id) ->
  docs m' !! id = docs m !! id /\ content m' id = content m id /\ ss_holds s' !! id = ss_holds s !! id.
Proof.
  intros Hn. destruct (batch_parts s tx qs submissions W Htx Hf HW) as (P1 & P2 & _).
  assert (N1 : id ∉ omap content_id W).
  { rewrite P1. intros (q & Hq & E)%list_elem_of_omap. unfold plan_content_id in E. apply (Hn q Hq). destruct (dp_content q); [by injection E|done]. }
  assert (N2 : id ∉ retires_of W).
  { rewrite P2. intros (q & Hq & E)%list_elem_of_omap. unfold plan_retire in E. apply (Hn q Hq). destruct (dp_retire q); [by injection E|done]. }
  split; [by apply (effect_other m W)|]. split; [by apply (effect_untouched m W)|].
  rewrite (sc_holds _ _ _ _ _ _ _ Hc). rewrite decide_False; [done|].
  intros (p & Hp & E)%list_elem_of_omap. destruct (plan_after p Hp) as (q & Hq & Hpq). apply (Hn q Hq).
  destruct (became_same _ _ _ Hpq) as (_ & _ & _ & _ & ->). unfold held_plan, plan_id, plan_create in *. destruct (dp_record p) as [c|r]; [done|].
  destruct (ss_holds s !! record_id r); [by injection E|done].
Qed.

(** What was held of a planned document is released. *)
Lemma planned_hold q : q ∈ qs -> ss_holds s' !! plan_id q = None.
Proof.
  intros Hq. rewrite (sc_holds _ _ _ _ _ _ _ Hc). case_decide as Hd; [done|]. destruct (ss_holds s !! plan_id q) as [h|] eqn:Eh; [exfalso|done].
  destruct (plan_before q Hq) as (p & Hp & Hok & Hpq). destruct (became_same _ _ _ Hpq) as (_ & _ & _ & _ & Eid). rewrite Eid in *.
  apply Hd, list_elem_of_omap. exists p. split; [done|]. unfold held_plan. unfold plan_id, plan_create in *.
  destruct (dp_record p) as [c|r] eqn:Er; [|by rewrite Eh].
  destruct (se_holds _ Hs _ _ Eh) as (d & Hd' & Hi). destruct (lo_stored _ _ _ (se_documents _ Hs _ _ Hd')) as (o & Ho & _). rewrite Hi in Ho.
  destruct (pk_new _ _ _ Hok c Er) as (_ & _ & Hin). exfalso. by apply (created_not_stored s tx (dc_id c) o Hs Htx).
Qed.

(** ** Documents after the commit *)

Let Heff := be_inv _ _ _ He.

Lemma plan_written q w : q ∈ qs -> dp_content q = Some w -> w ∈ W.
Proof.
  intros Hq E. rewrite HW. apply elem_of_app. right. apply list_elem_of_In, in_concat. exists (write_plan q).
  split; apply list_elem_of_In; [by apply list_elem_of_fmap_2|]. unfold write_plan. rewrite E. left.
Qed.

Lemma kept_plan q : q ∈ qs -> dp_retire q = false -> plan_id q ∉ retires_of W.
Proof.
  intros Hq R (q' & Hq' & E & R')%(retired_plan s tx qs submissions W Htx Hf HW). assert (q' = q) as -> by by apply (plan_unique s tx qs Hf).
  congruence.
Qed.

Lemma kept_record q r : q ∈ qs -> dp_record q = inr r -> dp_retire q = false ->
  exists o', docs m' !! record_id r = Some o' /\ live o' /\ st_record o' = r.
Proof.
  intros Hq Er R. destruct (plan_stored q r Hq Er) as ((o & Ho & Hl & Eo) & _ & Eid).
  destruct (effect_record m W m' (so_inv _ (se_storage _ Hs)) He _ o Ho) as (o' & Ho' & _ & _ & Hsame & _).
  rewrite <- Eid in Hsame. specialize (Hsame (kept_plan q Hq R)). exists o'. unfold live in *. split; [done|]. split; congruence.
Qed.

Lemma new_record q c : q ∈ qs -> dp_record q = inl c ->
  exists o', docs m' !! dc_id c = Some o' /\ st_record o' = committed_record (nextSeq m) q.
Proof.
  intros Hq Er. assert (Hin : c ∈ created W) by (apply (created_plan s tx qs submissions W Htx Hf HW); by exists q).
  destruct (effect_created m W m' commit_fits commit_copies He c Hin) as (o' & Ho' & E). exists o'. split; [done|]. rewrite E.
  unfold committed_record. rewrite Er. unfold retires_in. destruct (dp_retire q) eqn:R.
  - rewrite bool_decide_true; [done|]. apply (retired_plan s tx qs submissions W Htx Hf HW). exists q. split; [done|]. split; [|done].
    unfold plan_id, plan_create. by rewrite Er.
  - rewrite bool_decide_false; [done|]. pose proof (kept_plan q Hq R) as Hn. unfold plan_id, plan_create in Hn. by rewrite Er in Hn.
Qed.

Lemma written_content id con q : q ∈ qs -> dp_content q = Some (WDocumentChange id con) -> plan_id q = id -> dp_retire q = false ->
  content m' id = content_step (clone con) (content m id).
Proof.
  intros Hq E Eid R. apply (effect_content m W m' commit_fits He id (WDocumentChange id con)).
  - by eapply plan_written.
  - unfold prepared_write. cbn. by rewrite decide_True.
  - rewrite <- Eid. by apply kept_plan.
Qed.

(** A changed document is stored with the value of its change. *)
Lemma changed_content q d c : q ∈ qs -> loaded_plan q d c -> dp_retire q = false ->
  content m' (ld_id d) = Ok (Some (pc_version c, pr_value (pc_prepared c),
    match dp_content q with Some (WDocumentChange _ w) => count_delta (dcn_content w) (ld_deltasSinceBase d) | _ => ld_deltasSinceBase d end)).
Proof.
  intros Hq Hl R. destruct (plan_before q Hq) as (p & _ & Hok & Hpq). destruct (became_same _ _ _ Hpq) as (Ea & Er & _ & Ech & _).
  pose proof (pk_content _ _ _ Hok) as Hcon. unfold plan_content_ok in Hcon. rewrite <- Er, <- Ech in Hcon.
  rewrite (lp_record _ _ _ Hl), (lp_change _ _ _ Hl) in Hcon. destruct Hcon as (d' & El & _ & _ & Ev & Hperf & Hown).
  rewrite (lp_loaded _ _ _ Hl) in El. injection El as <-.
  assert (Eid : plan_id q = ld_id d) by (apply (plan_stored q (ld_record d) Hq (lp_record _ _ _ Hl))).
  unfold plan_became in Hpq. destruct (held_plan s p) as [i|] eqn:Eh.
  - destruct Hpq as (d' & ops & con & Ht). destruct (pt_loaded _ _ _ _ _ _ Ht) as (_ & Hd' & _). rewrite <- Ea, (lp_cached _ _ _ Hl) in Hd'. injection Hd' as <-.
    rewrite (pt_content _ _ _ _ _ _ Ht). rewrite (written_content _ con q Hq (pt_content _ _ _ _ _ _ Ht) Eid R).
    pose proof (pt_stores _ _ _ _ _ _ Ht) as [S1 S2 S3 S4 (x & S5 & S6 & S7)]. unfold m. rewrite S5.
    assert (Evalue : plan_value d p = pr_value (pc_prepared c)) by (unfold plan_value; by rewrite <- Ech, (lp_change _ _ _ Hl)).
    rewrite Evalue in *. rewrite (content_step_value con x (pr_value (pc_prepared c)) _ _ ops); [by rewrite S1, Ev|done|apply Hperf|done|done|by left].
  - subst q. destruct (lo_content _ _ _ (se_documents _ Hs _ _ (lp_cached _ _ _ Hl))) as (x & Ex & Hx & Hv). unfold stored_value_ok in Hv.
    assert (Enh : ss_holds s !! ld_id d = None).
    { unfold held_plan in Eh. rewrite (lp_record _ _ _ Hl) in Eh. unfold ld_id. by destruct (ss_holds s !! record_id (ld_record d)). }
    rewrite Enh in Hv. inversion Hown as [Hsv He0 E|E|Hsv Hne E].
    + assert (Hun : content m' (ld_id d) = content m (ld_id d)).
      { apply (effect_untouched m W m' He).
        - destruct (batch_parts s tx qs submissions W Htx Hf HW) as (-> & _ & _). intros (q' & Hq' & E')%list_elem_of_omap.
          unfold plan_content_id in E'. destruct (dp_content q') eqn:Ec'; [|done]. injection E' as E'.
          assert (q' = p) as -> by (apply (plan_unique s tx qs Hf); [done..|congruence]). congruence.
        - rewrite <- Eid. by apply kept_plan. }
      rewrite Hun. unfold m. rewrite Ex, Hsv. rewrite Hv by congruence. rewrite He0 in Hperf. by rewrite (performs_same _ _ Hperf).
    + rewrite (written_content _ _ p Hq (eq_sym E) Eid R). unfold m. rewrite Ex.
      rewrite (content_step_value _ x (pr_value (pc_prepared c)) _ _ [OpR (pr_value (pc_prepared c))]); [done|by left|apply Hperf| |done|by right].
      repeat constructor. unfold plain, clone, Clone_op. f_equal. apply Hperf.
    + rewrite (written_content _ _ p Hq (eq_sym E) Eid R). unfold m. rewrite Ex. rewrite Hv by congruence.
      rewrite (content_step_value _ (ld_value d) (pr_value (pc_prepared c)) _ _ (pr_ops (pc_prepared c))); [done|by right|apply Hperf..|].
      left. by rewrite Hsv.
Qed.

Lemma new_content q c ch : q ∈ qs -> dp_record q = inl c -> dp_change q = Some ch -> dp_retire q = false ->
  content m' (dc_id c) = Ok (Some (pc_version ch, pr_value (pc_prepared ch), 0)).
Proof.
  intros Hq Er Ech R. pose proof (change_loaded q ch Hq Ech) as H. rewrite Er in H. destruct H as (_ & Hp & Econ).
  assert (Ecr : plan_create q = c) by (unfold plan_create; by rewrite Er). rewrite Ecr in Econ.
  rewrite (effect_content m W m' commit_fits He (dc_id c) _ {| dcn_version := pc_version ch; dcn_content := CBase (clone (pr_value (pc_prepared ch))) |}
    (plan_written q _ Hq Econ)).
  - cbn. by rewrite Hp.
  - unfold prepared_write. cbn. by rewrite decide_True.
  - pose proof (kept_plan q Hq R) as Hn. unfold plan_id in Hn. by rewrite Ecr in Hn.
Qed.

(** ** The cache after the commit *)

Lemma adopted_loaded q d c : q ∈ qs -> loaded_plan q d c -> dp_retire q = false ->
  loaded_ok s' (dp_addressId q) (adopt_loaded d c (dp_content q)).
Proof.
  intros Hq Hl R. pose proof (se_documents _ Hs _ _ (lp_cached _ _ _ Hl)) as Hd.
  assert (Ev : (if pr_ops (pc_prepared c) then ld_value d else pr_value (pc_prepared c)) = pr_value (pc_prepared c)).
  { pose proof (lp_performs _ _ _ Hl) as Hp. destruct (pr_ops (pc_prepared c)); [|done]. symmetry. by apply performs_same. }
  pose proof (lp_version _ _ _ Hl) as Ever. pose proof (lo_versions _ _ _ Hd).
  assert (Emax : N.max (ld_storedVersion d) (pc_version c) = ld_valueVersion d) by lia.
  destruct (plan_stored q _ Hq (lp_record _ _ _ Hl)) as (_ & Eaddr & Eid).
  constructor; cbn.
  - apply Hd.
  - exact Eaddr.
  - destruct (kept_record q _ Hq (lp_record _ _ _ Hl) R) as (o' & Ho' & Hlo & Eo). by exists o'.
  - lia.
  - pose proof (lp_performs _ _ _ Hl) as Hp. destruct (pr_ops (pc_prepared c)); [apply Hd|apply Hp].
  - exists (pr_value (pc_prepared c)). rewrite Emax.
    assert (Ec : content m' (ld_id d) = Ok (Some (ld_valueVersion d, pr_value (pc_prepared c),
        match dp_content q with Some (WDocumentChange _ w) => count_delta (dcn_content w) (ld_deltasSinceBase d) | _ => ld_deltasSinceBase d end))).
    { rewrite <- Ever. by apply changed_content. }
    split; [exact Ec|]. split; [apply (lp_performs _ _ _ Hl)|]. unfold stored_value_ok. cbn.
    pose proof (planned_hold q Hq) as Hh. rewrite Eid in Hh. unfold ld_id. cbn. rewrite Hh. intros _. symmetry. exact Ev.
Qed.

Definition new_loaded (q : DocumentPlan) (c : PlanChange) : LoadedDocument :=
  {| ld_addressId := dp_addressId q; ld_record := committed_record (nextSeq (ss_storage s)) q; ld_storedVersion := pc_version c;
     ld_valueVersion := pc_version c; ld_deltasSinceBase := 0; ld_value := pr_value (pc_prepared c) |}.

Lemma adopted_new q c ch : q ∈ qs -> dp_record q = inl c -> dp_change q = Some ch -> dp_retire q = false ->
  loaded_ok s' (dp_addressId q) (new_loaded q ch).
Proof.
  intros Hq Er Ech R. pose proof (change_loaded q ch Hq Ech) as H. rewrite Er in H. destruct H as (_ & Hp & _).
  assert (Ecom : committed_record (nextSeq (ss_storage s)) q = {| d_create := c; d_createdAt := nextSeq (ss_storage s); d_retiredAt := None |}).
  { unfold committed_record. by rewrite Er, R. }
  destruct (plan_new_facts q c Hq Er) as (Eid & Eaddr & _).
  constructor; cbn; rewrite ?Ecom; cbn; try done.
  - destruct (new_record q c Hq Er) as (o' & Ho' & Eo). unfold m in Eo. exists o'. unfold ld_id. cbn. rewrite Ecom. cbn. split; [done|]. unfold live. by rewrite Eo, Ecom.
  - exists (pr_value (pc_prepared ch)). split; [|split; [done|]].
    + unfold ld_id. cbn. rewrite Ecom. cbn. by apply (new_content q c ch).
    + unfold stored_value_ok, ld_id. cbn. rewrite Ecom. cbn. pose proof (planned_hold q Hq) as Hh. rewrite Eid in Hh. by rewrite Hh.
Qed.
End Commit.

Section Commit.
Context (s : SessionState) (tx : Transaction) (plans qs : list DocumentPlan) (submissions : list (N * SubmissionRecord))
    (W : list StorageWrite) (s' : SessionState).
Context (Hc : stored_commit s tx plans qs submissions W s').

Let Hs := sc_session _ _ _ _ _ _ _ Hc.
Let Htx := sc_tx _ _ _ _ _ _ _ Hc.
Let Hf := sc_final _ _ _ _ _ _ _ Hc.
Let He := sc_effect _ _ _ _ _ _ _ Hc.
Let Hsub := sc_submissions _ _ _ _ _ _ _ Hc.
Let Hrep := sc_replaced _ _ _ _ _ _ _ Hc.
Let HW := sc_writes _ _ _ _ _ _ _ Hc.
Let m := ss_storage s.
Let m' := ss_storage s'.
Let seq := nextSeq (ss_storage s).

(** ** The cache *)

Lemma adopt_elsewhere D q k : q ∈ qs -> k <> dp_addressId q -> adopt_document seq D q !! k = D !! k.
Proof.
  intros Hq Hk. unfold adopt_document. destruct (dp_change q) as [ch|] eqn:Ech.
  - pose proof (change_loaded _ _ _ _ _ _ _ Hc q ch Hq Ech) as H. destruct (dp_record q) as [c|r] eqn:Er.
    + destruct H as (-> & _). destruct (dp_retire q); [done|]. by rewrite lookup_insert_ne.
    + destruct H as (d & Hl). rewrite (lp_loaded _ _ _ _ Hl).
      assert (Ek : ld_addressId d = dp_addressId q) by apply (lo_id _ _ _ (se_documents _ Hs _ _ (lp_cached _ _ _ _ Hl))).
      destruct (dp_retire q && _); rewrite ?lookup_delete_ne, lookup_insert_ne by congruence; done.
  - destruct (dp_record q) as [c|r] eqn:Er; [done|]. destruct (dp_retire q && _); [by rewrite lookup_delete_ne|done].
Qed.

Lemma adopt_here D q d : q ∈ qs -> adopt_document seq D q !! dp_addressId q = Some d ->
  loaded_ok s' (dp_addressId q) d \/ (D !! dp_addressId q = Some d /\ (plan_new q = None -> ld_id d <> plan_id q)).
Proof.
  intros Hq. unfold adopt_document. destruct (dp_change q) as [ch|] eqn:Ech.
  - pose proof (change_loaded _ _ _ _ _ _ _ Hc q ch Hq Ech) as H. unfold plan_new. destruct (dp_record q) as [c|r] eqn:Er.
    + destruct H as (-> & _). destruct (dp_retire q) eqn:R; [by right|]. rewrite lookup_insert_eq. intros [= <-]. left.
      by apply (adopted_new _ _ _ _ _ _ _ Hc q c ch).
    + destruct H as (d0 & Hl). rewrite (lp_loaded _ _ _ _ Hl).
      assert (Ek : ld_addressId d0 = dp_addressId q) by apply (lo_id _ _ _ (se_documents _ Hs _ _ (lp_cached _ _ _ _ Hl))).
      rewrite Ek, lookup_insert_eq. pose proof (lp_record _ _ _ _ Hl) as Er'. rewrite Er in Er'. injection Er' as ->.
      destruct (dp_retire q) eqn:R; cbn [andb].
      * rewrite bool_decide_true by done. by rewrite lookup_delete_eq.
      * rewrite lookup_insert_eq. intros [= <-]. left. by apply (adopted_loaded _ _ _ _ _ _ _ Hc).
  - unfold plan_new. pose proof (no_change _ _ _ _ _ _ _ Hc q Hq Ech) as Hn. destruct (dp_record q) as [c|r] eqn:Er; [by right|]. rewrite Hn. cbn [andb].
    case_bool_decide as Hd; [by rewrite lookup_delete_eq|]. intros Ed. right. split; [done|]. intros _ Eid. apply Hd. rewrite Ed. cbn.
    destruct (plan_stored _ _ _ _ _ _ _ Hc q r Hq Er) as (_ & _ & Ep). by rewrite Eid, Ep.
Qed.

(** A cached document that no plan is about. *)
Definition unplanned_at (done : list DocumentPlan) (k : string) (d : LoadedDocument) : Prop :=
  ss_documents s !! k = Some d /\ forall q, q ∈ done -> plan_id q <> ld_id d.

Lemma plan_elsewhere q k d : q ∈ qs -> ss_documents s !! k = Some d -> k <> dp_addressId q -> plan_id q <> ld_id d.
Proof.
  intros Hq Hd Hk E. pose proof (se_documents _ Hs _ _ Hd) as Hl. destruct (lo_stored _ _ _ Hl) as (o & Ho & _ & Eo).
  destruct (dp_record q) as [c|r] eqn:Er.
  - destruct (plan_new_facts _ _ _ _ _ _ _ Hc q c Hq Er) as (_ & _ & Hn). by apply (Hn (ld_id d) o).
  - destruct (plan_stored _ _ _ _ _ _ _ Hc q r Hq Er) as ((o' & Ho' & _ & Eo') & Ea & Eid). apply Hk. rewrite (lo_address _ _ _ Hl), Ea.
    rewrite <- Eid, E in Ho'. congruence.
Qed.

Lemma adopted_documents todo : forall done D, (forall q, q ∈ done ++ todo -> q ∈ qs) ->
  (forall k d, D !! k = Some d -> loaded_ok s' k d \/ unplanned_at done k d) ->
  forall k d, foldl (adopt_document seq) D todo !! k = Some d -> loaded_ok s' k d \/ unplanned_at (done ++ todo) k d.
Proof.
  induction todo as [|q todo IH]; intros done D Hin HD; [by rewrite app_nil_r|].
  rewrite cons_middle, app_assoc. cbn [foldl]. apply IH; [by rewrite <- app_assoc|]. intros k d Hd.
  assert (Hq : q ∈ qs) by (apply Hin; apply elem_of_app; right; left).
  destruct (decide (k = dp_addressId q)) as [->|Hk].
  - destruct (adopt_here D q d Hq Hd) as [|[Hold Hne]]; [by left|]. destruct (HD _ _ Hold) as [|[Hsd Hun]]; [by left|right]. split; [done|].
    intros x [Hx| ->%list_elem_of_singleton]%elem_of_app; [by apply Hun|]. unfold plan_new in Hne. destruct (dp_record q) as [c|r] eqn:Er.
    + destruct (lo_stored _ _ _ (se_documents _ Hs _ _ Hsd)) as (o & Ho & _). by apply (plan_new_facts _ _ _ _ _ _ _ Hc q c Hq Er) in Ho.
    + intros E. by apply Hne.
  - rewrite adopt_elsewhere in Hd by done. destruct (HD k d Hd) as [|[Hsd Hun]]; [by left|right]. split; [done|].
    intros x [Hx| ->%list_elem_of_singleton]%elem_of_app; [by apply Hun|]. by apply (plan_elsewhere q k d).
Qed.

Lemma commit_documents_ok k d : ss_documents s' !! k = Some d -> loaded_ok s' k d.
Proof.
  rewrite (sc_documents _ _ _ _ _ _ _ Hc). intros Hd. destruct (adopted_documents qs [] (ss_documents s) (fun q Hq => Hq)) with (2 := Hd) as [|[Hsd Hun]]; [|done|].
  - intros k0 d0 H0. right. split; [done|]. by intros q []%elem_of_nil.
  - destruct (unplanned _ _ _ _ _ _ _ Hc (ld_id d) Hun) as (E1 & E2 & E3). apply (loaded_stable s); [by apply Hs|done..].
Qed.

(** ** The holds *)

(** A held document that stays held. *)
Lemma adopt_keeps q d D k : q ∈ qs -> ss_documents s !! k = Some d -> plan_id q <> ld_id d -> (forall x, x ∈ qs -> plan_id x <> ld_id d) ->
  D !! k = Some d -> adopt_document seq D q !! k = Some d.
Proof.
  intros Hq Hd Hne Hall HD. destruct (decide (k = dp_addressId q)) as [Hk|Hk]; [|by rewrite adopt_elsewhere].
  pose proof (se_documents _ Hs _ _ Hd) as Hl. destruct (lo_stored _ _ _ Hl) as (o & Ho & Hlo & Eo).
  destruct (dp_record q) as [c|r] eqn:Er.
  - unfold adopt_document. rewrite Er. destruct (plan_new_facts _ _ _ _ _ _ _ Hc q c Hq Er) as (_ & Ea & _).
    assert (R : dp_retire q = true).
    { destruct (dp_retire q) eqn:R; [done|exfalso].
      destruct (fo_covered _ _ _ Hf q c Hq Er R (ld_id d) o Ho Hlo) as (x & Hx & Ex & _); [|by apply (Hall x)].
      rewrite Eo. apply addressId_inj. rewrite <- Ea, <- Hk. symmetry. apply Hl. }
    destruct (dp_change q) as [ch|] eqn:Ech; [|done]. pose proof (change_loaded _ _ _ _ _ _ _ Hc q ch Hq Ech) as H. rewrite Er in H. destruct H as (-> & _).
    by rewrite R.
  - destruct (plan_stored _ _ _ _ _ _ _ Hc q r Hq Er) as ((o' & Ho' & Hlo' & Eo') & Ea & Eid). exfalso. apply Hne. rewrite Eid.
    apply (live_unique m _ _ o' o (so_inv _ (se_storage _ Hs)) Ho' Ho Hlo' Hlo). apply addressId_inj. rewrite Eo', Eo, <- Ea, <- Hk. apply Hl.
Qed.

Lemma adopted_keeps d k : ss_documents s !! k = Some d -> (forall x, x ∈ qs -> plan_id x <> ld_id d) ->
  ss_documents s' !! k = Some d.
Proof.
  intros Hd Hall. rewrite (sc_documents _ _ _ _ _ _ _ Hc).
  assert (Hgo : forall todo D, (forall q, q ∈ todo -> q ∈ qs) -> D !! k = Some d -> foldl (adopt_document seq) D todo !! k = Some d).
  { induction todo as [|q todo IH]; intros D Hin HD; [done|]. cbn [foldl]. apply IH; [intros x Hx; apply Hin; by right|].
    assert (Hq : q ∈ qs) by (apply Hin; left). apply adopt_keeps; [done..|by apply Hall|done|done]. }
  by apply Hgo.
Qed.

Lemma commit_holds_ok (i : N) h : ss_holds s' !! i = Some h -> exists d, ss_documents s' !! h_addressId h = Some d /\ ld_id d = i.
Proof.
  intros Hh. assert (Hn : forall q, q ∈ qs -> plan_id q <> i).
  { intros q Hq <-. pose proof (planned_hold _ _ _ _ _ _ _ Hc q Hq). congruence. }
  destruct (unplanned _ _ _ _ _ _ _ Hc i Hn) as (_ & _ & E). rewrite E in Hh. destruct (se_holds _ Hs i h Hh) as (d & Hd & Hi). exists d.
  split; [|done]. apply adopted_keeps; [done|]. by rewrite Hi.
Qed.

(** ** The index of task documents *)

Record index_ok (done : list DocumentPlan) (t : N) (known : list DocumentRecord) : Prop := {
  ix_unique : NoDup (record_id <$> known);
  ix_records : forall r, r ∈ known <->
    (stored_live s r /\ dc_scope (d_create r) = ScopeTask t /\ forall q, q ∈ done -> plan_id q = record_id r -> dp_retire q = false) \/
    (exists q c, q ∈ done /\ dp_record q = inl c /\ dp_retire q = false /\ dc_scope c = ScopeTask t /\ r = committed_record seq q);
}.

Lemma committed_create q : d_create (committed_record seq q) = plan_create q.
Proof. unfold committed_record, plan_create. by destruct (dp_record q), (dp_retire q). Qed.

Lemma record_unplanned q r : q ∈ qs -> stored_live s r -> plan_id q = record_id r -> dp_record q = inr r.
Proof.
  intros Hq (o & Ho & Hlo & Eo) E. destruct (dp_record q) as [c|r'] eqn:Er.
  - destruct (plan_new_facts _ _ _ _ _ _ _ Hc q c Hq Er) as (_ & _ & Hn). by destruct (Hn _ _ Ho).
  - destruct (plan_stored _ _ _ _ _ _ _ Hc q r' Hq Er) as ((o' & Ho' & _ & Eo') & _ & Eid). rewrite <- Eid, E in Ho'. congruence.
Qed.

(** A plan that neither retires a document of the task nor creates one. *)
Lemma index_same done t known q : q ∈ qs -> index_ok done t known ->
  (forall r, dp_record q = inr r -> dc_scope (d_create r) = ScopeTask t -> dp_retire q = false) ->
  (forall c, dp_record q = inl c -> dc_scope c = ScopeTask t -> dp_retire q = true) ->
  index_ok (done ++ [q]) t known.
Proof.
  intros Hq [H1 H2] Hold Hnew. constructor; [done|]. intros r. rewrite H2. split.
  - intros [(Hl & Esc & Hd)|(x & c & Hx & H)]; [left|right].
    + split; [done|]. split; [done|]. intros x [Hx| ->%list_elem_of_singleton]%elem_of_app; [by apply Hd|]. intros E.
      apply (Hold r); [|done]. by apply record_unplanned.
    + exists x, c. split; [apply elem_of_app; by left|done].
  - intros [(Hl & Esc & Hd)|(x & c & [Hx| ->%list_elem_of_singleton]%elem_of_app & Er & R & Esc & E)]; [left|right|].
    + split; [done|]. split; [done|]. intros x Hx. apply Hd. apply elem_of_app. by left.
    + by exists x, c.
    + specialize (Hnew c Er Esc). congruence.
Qed.

Lemma index_retired done t known q : q ∈ qs -> (forall x, x ∈ done -> x ∈ qs /\ plan_id x <> plan_id q) -> index_ok done t known -> dp_retire q = true ->
  index_ok (done ++ [q]) t (filter (fun r => dc_id (d_create r) <> plan_id q) known).
Proof.
  intros Hq Hin [H1 H2] R. constructor.
  - eapply sublist_NoDup; [exact H1|]. apply fmap_sublist, sublist_filter.
  - intros r. rewrite list_elem_of_filter, H2. split.
    + intros [Hne [(Hl & Esc & Hd)|(x & c & Hx & H)]]; [left|right].
      * split; [done|]. split; [done|]. intros x [Hx| ->%list_elem_of_singleton]%elem_of_app; [by apply Hd|]. intros E. by destruct Hne.
      * exists x, c. split; [apply elem_of_app; by left|done].
    + intros [(Hl & Esc & Hd)|(x & c & [Hx| ->%list_elem_of_singleton]%elem_of_app & Er & Rx & Esc & E)]; [| |congruence].
      * split; [|left; split; [done|]; split; [done|]; intros x Hx; apply Hd; apply elem_of_app; by left].
        intros E. rewrite (Hd q) in R; [done|apply elem_of_app; right; left|done].
      * split; [|right; by exists x, c]. rewrite E, committed_create. by apply Hin.
Qed.

Lemma index_created done t known q c : q ∈ qs -> (forall x, x ∈ done -> x ∈ qs /\ plan_id x <> plan_id q) -> index_ok done t known ->
  dp_record q = inl c -> dp_retire q = false -> dc_scope c = ScopeTask t ->
  index_ok (done ++ [q]) t (known ++ [committed_record seq q]).
Proof.
  intros Hq Hin [H1 H2] Er R Esc. destruct (plan_new_facts _ _ _ _ _ _ _ Hc q c Hq Er) as (Eid & _ & Hn).
  assert (Ecr : record_id (committed_record seq q) = plan_id q) by (by rewrite committed_create).
  constructor.
  - rewrite fmap_app. apply NoDup_app. split; [done|]. split; [|apply NoDup_singleton].
    intros i (r & -> & Hr)%list_elem_of_fmap Hi%list_elem_of_singleton. rewrite Ecr in Hi.
    apply H2 in Hr as [((o & Ho & _) & _)|(x & cx & Hx & _ & _ & _ & ->)].
    + by apply (Hn _ _ Ho).
    + rewrite committed_create in Hi. by destruct (Hin x Hx) as [_ []].
  - intros r. rewrite elem_of_app, list_elem_of_singleton, H2. split.
    + intros [[(Hl & Es & Hd)|(x & cx & Hx & H)]| ->]; [left|right|right].
      * split; [done|]. split; [done|]. intros x [Hx| ->%list_elem_of_singleton]%elem_of_app; [by apply Hd|done].
      * exists x, cx. split; [apply elem_of_app; by left|done].
      * exists q, c. split; [apply elem_of_app; right; left|done].
    + intros [(Hl & Es & Hd)|(x & cx & [Hx| ->%list_elem_of_singleton]%elem_of_app & H)]; [left; left|left; right|].
      * split; [done|]. split; [done|]. intros x Hx. apply Hd. apply elem_of_app. by left.
      * by exists x, cx.
      * right. apply H.
Qed.

(** What one plan's publication does to the index. *)
Definition index_plan (index : gmap N (list DocumentRecord)) (q : DocumentPlan) : gmap N (list DocumentRecord) :=
  match published_change seq q with Some change => index_change seq index change | None => index end.

Lemma created_earlier q r : q ∈ qs -> dp_record q = inr r -> (d_createdAt r =? seq)%N = false.
Proof.
  intros Hq Er. destruct (plan_stored _ _ _ _ _ _ _ Hc q r Hq Er) as ((o & Ho & _ & <-) & _ & _).
  pose proof (inc_created _ _ _ (doc_incarnations _ _ (si_documents _ _ _ _ (so_inv _ (se_storage _ Hs))) _ _ Ho)) as H. unfold seq.
  apply N.eqb_neq. lia.
Qed.

Lemma index_plan_ok done index q : q ∈ qs -> (forall x, x ∈ done -> x ∈ qs /\ plan_id x <> plan_id q) ->
  (forall t known, index !! t = Some known -> index_ok done t known) ->
  forall t known, index_plan index q !! t = Some known -> index_ok (done ++ [q]) t known.
Proof.
  intros Hq Hin Hix t known. unfold index_plan, published_change, describe. destruct (dp_retire q) eqn:R.
  - assert (Ech : match dp_held q with Some (ops, _) => Some (DocumentRetired_ (committed_record seq q) (dp_conversationId q)) | None => Some (DocumentRetired_ (committed_record seq q) (dp_conversationId q)) end
        = Some (DocumentRetired_ (committed_record seq q) (dp_conversationId q))) by (by destruct (dp_held q) as [[]|]).
    cbn. unfold index_change. rewrite committed_create. destruct (dc_scope (plan_create q)) as [|c|id] eqn:Esc.
    1-2: intros Hk; apply index_same; [done|by apply Hix| |]; [intros r Er Et; unfold plan_create in Esc; rewrite Er in Esc; congruence|done].
    assert (Hother : t <> id -> index !! t = Some known -> index_ok (done ++ [q]) t known).
    { intros Ht Hk. apply index_same; [done|by apply Hix| |done]. intros r Er Et. unfold plan_create in Esc. rewrite Er in Esc. congruence. }
    destruct (index !! id) as [known0|] eqn:Ek.
    + intros [[<- <-]|[Hne Hk]]%lookup_insert_Some; [|by apply Hother].
      apply (index_retired done id known0 q Hq Hin); [by apply Hix|done].
    + intros Hk. apply Hother; [|done]. intros ->. congruence.
  - destruct (dp_change q) as [ch|] eqn:Ech.
    + pose proof (change_loaded _ _ _ _ _ _ _ Hc q ch Hq Ech) as H. destruct (dp_record q) as [c|r] eqn:Er.
      * destruct H as (El & _ & Econ). rewrite Econ. assert (Hpub : publishes q = true).
        { unfold publishes. rewrite Ech. cbn. rewrite El. apply orb_true_iff. left. apply orb_true_r. }
        rewrite Hpub. assert (Ecr : committed_record seq q = {| d_create := c; d_createdAt := seq; d_retiredAt := None |}) by (unfold committed_record; by rewrite Er, R).
        assert (Eseq : (d_createdAt (committed_record seq q) =? seq)%N = true) by (rewrite Ecr; apply N.eqb_refl).
        assert (Hix' : forall change, (exists conv v x ops, change = DocumentChanged (committed_record seq q) conv v x ops) ->
           index_change seq index change !! t = Some known -> index_ok (done ++ [q]) t known).
        { intros change (conv & v & x & ops & ->). unfold index_change. rewrite committed_create. rewrite Eseq.
          unfold plan_create. rewrite Er. destruct (dc_scope c) as [|cc|id] eqn:Esc.
          1-2: intros Hk; apply index_same; [done|by apply Hix|congruence|]; intros c' E' Et; assert (c' = c) as -> by congruence; congruence.
          assert (Hother : t <> id -> index !! t = Some known -> index_ok (done ++ [q]) t known).
          { intros Ht Hk. apply index_same; [done|by apply Hix|congruence|]. intros c' E' Et. assert (c' = c) as -> by congruence. congruence. }
          destruct (index !! id) as [known0|] eqn:Ek.
          - intros [[<- <-]|[Hne Hk]]%lookup_insert_Some; [|by apply Hother].
            apply (index_created done id known0 q c Hq Hin); [by apply Hix|done..].
          - intros Hk. apply Hother; [|done]. intros ->. congruence. }
        destruct (dp_held q) as [[ops own]|]; apply Hix'; by eexists _, _, _, _.
      * destruct H as (d & Hl).
        assert (Hsame : index !! t = Some known -> index_ok (done ++ [q]) t known) by (intros Hk; apply index_same; [done|by apply Hix|done|congruence]).
        assert (Ecr : committed_record seq q = r) by (unfold committed_record; by rewrite Er, R).
        assert (Hix' : forall change, (exists conv v x ops, change = DocumentChanged (committed_record seq q) conv v x ops) ->
           index_change seq index change !! t = Some known -> index_ok (done ++ [q]) t known).
        { intros change (conv & v & x & ops & ->). unfold index_change. rewrite Ecr. rewrite (created_earlier q r Hq Er).
          destruct (dc_scope (d_create r)) as [|cc|id]; [done..|]. by destruct (index !! id). }
        destruct (dp_content q) as [[| | | | | |id w|]|] eqn:Econ;
          try (destruct (publishes q); [destruct (dp_held q) as [[ops own]|]; apply Hix'; by eexists _, _, _, _|by destruct (dp_held q) as [[]|]]).
        pose proof (fo_content _ _ _ Hf q Hq) as Hcon. unfold final_content in Hcon. rewrite Er, Econ in Hcon. by destruct Hcon as [_ [[=]|(c & [=] & _)]].
    + pose proof (no_change _ _ _ _ _ _ _ Hc q Hq Ech) as H. destruct (dp_record q) as [c|r] eqn:Er; [|congruence].
      destruct H as (source & Econ & Hconv). rewrite Econ.
      assert (Hsame : index !! t = Some known -> index_ok (done ++ [q]) t known).
      { intros Hk. apply index_same; [done|by apply Hix|congruence|]. intros c' E' Et. assert (c' = c) as -> by congruence. by rewrite Et in Hconv. }
      assert (Hix' : index_change seq index (DocumentCopied (committed_record seq q) (dp_conversationId q) source) = index).
      { unfold index_change. cbn. by destruct (dc_scope (d_create (committed_record seq q))). }
      destruct (dp_held q) as [[ops own]|]; by rewrite Hix'.
Qed.

Lemma index_plans todo : forall done index, done ++ todo = qs ->
  (forall t known, index !! t = Some known -> index_ok done t known) ->
  forall t known, foldl index_plan index todo !! t = Some known -> index_ok qs t known.
Proof.
  induction todo as [|q todo IH]; intros done index Hdone Hix; [by rewrite app_nil_r in Hdone; subst|].
  cbn [foldl]. assert (Hq : q ∈ qs) by (rewrite <- Hdone; apply elem_of_app; right; left).
  apply (IH (done ++ [q])); [by rewrite <- app_assoc|]. intros t known. apply index_plan_ok; [done| |exact Hix].
  intros x Hx. split; [rewrite <- Hdone; apply elem_of_app; by left|]. intros E.
  pose proof (fo_ids _ _ _ Hf) as Hnd. rewrite <- Hdone, fmap_app in Hnd. apply NoDup_app in Hnd as (_ & Hnd & _).
  apply (Hnd (plan_id x)); [by apply list_elem_of_fmap_2|]. rewrite E. left.
Qed.

Lemma index_published todo : forall index, foldl (index_change seq) index (omap (published_change seq) todo) = foldl index_plan index todo.
Proof.
  induction todo as [|q todo IH]; intros index; [done|]. cbn [omap list_omap foldl]. unfold index_plan at 2.
  destruct (published_change seq q) as [change|]; cbn [foldl]; by rewrite IH.
Qed.

Lemma inserted_lookup (ids : list N) (index : gmap N (list DocumentRecord)) t known :
  foldl (fun index id => <[id := []]> index) index ids !! t = Some known -> (t ∈ ids /\ known = []) \/ (t ∉ ids /\ index !! t = Some known).
Proof.
  revert index. induction ids as [|i ids IH]; intros index H; [right; split; [by intros []%elem_of_nil|done]|]. cbn [foldl] in H.
  destruct (IH _ H) as [[Hin ->]|[Hn Hk]]; [left; split; [by right|done]|]. apply lookup_insert_Some in Hk as [[<- <-]|[Hne Hk]].
  - left. split; [left|done].
  - right. split; [set_solver|done].
Qed.

Lemma removed_lookup (ids : list N) (index : gmap N (list DocumentRecord)) t known :
  foldl (fun index id => delete id index) index ids !! t = Some known -> t ∉ ids /\ index !! t = Some known.
Proof.
  revert index. induction ids as [|i ids IH]; intros index H; [split; [by intros []%elem_of_nil|done]|]. cbn [foldl] in H.
  destruct (IH _ H) as [Hn [Hne Hk]%lookup_delete_Some]. split; [set_solver|done].
Qed.

Lemma new_task_empty t r : t ∈ created_tasks (tx_tasks tx) -> stored_live s r -> dc_scope (d_create r) <> ScopeTask t.
Proof.
  intros Ht (o & Ho & Hlo & <-) Esc. pose proof (so_owner _ (se_storage _ Hs) _ o Ho Hlo) as Hown. rewrite Esc in Hown. destruct Hown as (x & Hx & _).
  pose proof (to_fresh _ _ Htx) as Hfr. rewrite Forall_forall in Hfr. destruct (Hfr t) as [Hno _]; [unfold tx_ids; rewrite !elem_of_app; tauto|].
  assert (Hin : in_table (stored_state s) TTask t) by by eexists. apply (si_types _ _ _ _ (so_inv _ (se_storage _ Hs))) in Hin. congruence.
Qed.

Lemma final_index t known : index_ok qs t known -> indexed m' t known.
Proof.
  intros [H1 H2]. split; [done|]. intros r. rewrite H2. split.
  - intros [(Hl & Esc & Hd)|(q & c & Hq & Er & R & Esc & ->)].
    + destruct Hl as (o & Ho & Hlo & Eo).
      destruct (effect_record m W m' (so_inv _ (se_storage _ Hs)) He _ o Ho) as (o' & Ho' & _ & _ & Hsame & _).
      assert (Hn : record_id r ∉ retires_of W).
      { intros (q & Hq & Eid & R)%(retired_plan s tx qs submissions W Htx Hf HW). specialize (Hd q Hq Eid). congruence. }
      specialize (Hsame Hn). exists o'. unfold live in *. split; [done|]. split_and!; congruence.
    + destruct (new_record _ _ _ _ _ _ _ Hc q c Hq Er) as (o' & Ho' & Eo). exists o'. rewrite committed_create. unfold plan_create. rewrite Er.
      split; [done|]. split; [|by split]. unfold live. rewrite Eo. unfold committed_record. by rewrite Er, R.
  - intros (o' & Ho' & Hlo & Eo & Esc). destruct (effect_known m W m' He _ o' Ho') as [[o Ho]|(c & Hin & Eid)].
    + destruct (effect_record m W m' (so_inv _ (se_storage _ Hs)) He _ o Ho) as (o1 & Ho1 & _ & _ & Hsame & Hret). assert (o1 = o') as -> by congruence.
      assert (Hn : record_id r ∉ retires_of W) by (intros Hr; specialize (Hret Hr); unfold live in Hlo; congruence).
      specialize (Hsame Hn). left. split; [exists o; unfold live in *; split; [done|]; split; congruence|]. split; [done|]. intros q Hq E.
      destruct (dp_retire q) eqn:R; [exfalso|done]. apply Hn, (retired_plan s tx qs submissions W Htx Hf HW). by exists q.
    + apply (created_plan s tx qs submissions W Htx Hf HW) in Hin as (q & Hq & Er). right. exists q, c.
      destruct (new_record _ _ _ _ _ _ _ Hc q c Hq Er) as (o1 & Ho1 & Eo1). rewrite <- Eid in Ho'. unfold m' in Ho'. assert (o1 = o') as -> by congruence.
      assert (E : r = committed_record seq q) by (unfold seq; congruence). split; [done|]. split; [done|]. split.
      * destruct (dp_retire q) eqn:R; [exfalso|done]. unfold live in Hlo. rewrite Eo, E in Hlo. unfold committed_record in Hlo. by rewrite Er, R in Hlo.
      * split; [|done]. rewrite E, committed_create in Esc. unfold plan_create in Esc. by rewrite Er in Esc.
Qed.

Lemma commit_tasks_ok t known : ss_taskDocuments s' !! t = Some known -> indexed m' t known.
Proof.
  rewrite (sc_tasks _ _ _ _ _ _ _ Hc). fold seq. unfold indexTaskDocuments. intros [_ H]%removed_lookup. rewrite index_published in H.
  apply final_index. eapply (index_plans qs []); [done| |exact H]. clear t known H. intros t known [[Ht ->]|[Ht Hk]]%inserted_lookup.
  - constructor; [constructor|]. intros r. split; [by intros []%elem_of_nil|]. intros [(Hl & Esc & _)|(q & c & []%elem_of_nil & _)].
    by destruct (new_task_empty t r Ht Hl).
  - destruct (se_tasks _ Hs t known Hk) as [Hnd Hr]. constructor; [done|]. intros r. rewrite Hr. split.
    + intros (o & Ho & Hlo & Eo & Esc). left. split; [by exists o|]. split; [done|]. by intros q []%elem_of_nil.
    + intros [((o & Ho & Hlo & Eo) & Esc & _)|(q & c & []%elem_of_nil & _)]. by exists o.
Qed.

Lemma stored_commit_ok : session_ok s'.
Proof.
  constructor.
  - by apply (commit_storage_ok s tx plans qs submissions W).
  - apply commit_documents_ok.
  - apply commit_holds_ok.
  - apply commit_tasks_ok.
Qed.
End Commit.

(** ** One plan that is held *)

Definition hold_one (s : SessionState) (p : DocumentPlan) : SessionState :=
  with_holds (match hold_plan p with Some (Some x) => hold_change (ss_holds s) x | _ => ss_holds s end)
    (with_documents (adopt_held (ss_documents s) p) s).

(** A plan of a cached document that stays. *)
Record holds_plan (s : SessionState) (p : DocumentPlan) (d : LoadedDocument) (c : PlanChange) : Prop := {
  hp_change : dp_change p = Some c;
  hp_loaded : pc_loaded c = Some d;
  hp_cached : ss_documents s !! dp_addressId p = Some d;
  hp_version : pc_version c = ld_valueVersion d;
  hp_performs : performs (ld_value d) (pr_ops (pc_prepared c)) (pr_value (pc_prepared c));
  hp_own : own_change d (pc_prepared c) (pc_version c) (dp_content p);
}.

(** The document after the plan. *)
Definition held_loaded (d : LoadedDocument) (v : json) : LoadedDocument :=
  {| ld_addressId := ld_addressId d; ld_record := ld_record d; ld_storedVersion := ld_storedVersion d;
     ld_valueVersion := ld_valueVersion d; ld_deltasSinceBase := ld_deltasSinceBase d; ld_value := v |}.

Lemma held_loaded_same d : held_loaded d (ld_value d) = d.
Proof. by destruct d. Qed.

Lemma adopt_held_eq s p d c : session_ok s -> holds_plan s p d c ->
  adopt_held (ss_documents s) p = <[dp_addressId p := held_loaded d (pr_value (pc_prepared c))]> (ss_documents s).
Proof.
  intros Hs [H1 H2 H3 H4 H5 _]. unfold adopt_held. rewrite H1. destruct c as [prepared version loaded definition]. cbn in *. subst loaded.
  destruct (pr_ops prepared) as [|op ops] eqn:E.
  - rewrite (performs_same _ _ H5), held_loaded_same. symmetry. by apply insert_id.
  - unfold held_loaded. by rewrite (lo_id _ _ _ (se_documents _ Hs _ _ H3)).
Qed.

Lemma hold_one_ok s p d c x : session_ok s -> holds_plan s p d c -> hold_plan p = Some x ->
  session_ok (hold_one s p) /\ (forall k, k <> dp_addressId p -> ss_documents (hold_one s p) !! k = ss_documents s !! k).
Proof.
  intros Hs Hp Hx. pose proof Hp as [H1 H2 H3 H4 H5 H6]. pose proof (se_documents _ Hs _ _ H3) as Hl.
  unfold hold_one. rewrite (adopt_held_eq s p d c Hs Hp), Hx.
  split; [|intros k Hk; cbn; by rewrite lookup_insert_ne].
  destruct (lo_content _ _ _ Hl) as (x0 & Ex0 & Px0 & Hv). unfold stored_value_ok in Hv.
  destruct (dp_content p) as [w|] eqn:Econ.
  2: { (* Nothing changed. *)
    inversion H6 as [Hsv Hops E| |]. unfold hold_plan in Hx. rewrite Econ in Hx. destruct (dp_retire p); [done|]. injection Hx as <-.
    rewrite Hops in H5. rewrite (performs_same _ _ H5), held_loaded_same, insert_id by done. by destruct s. }
  assert (Hw : exists con, w = WDocumentChange (ld_id d) con) by (inversion H6; by eexists). destruct Hw as [con ->].
  unfold hold_plan in Hx. rewrite Econ, H1 in Hx. destruct c as [prepared version loaded definition]. cbn in *. subst loaded.
  destruct (dp_retire p); [done|]. cbn [orb] in Hx.
  destruct (negb _ || negb _) eqn:Ehold; [done|]. apply orb_false_iff in Ehold as [Es Ev]. injection Hx as <-.
  apply negb_false_iff in Es, Ev. apply andb_true_iff in Es as [Es Es3]. apply andb_true_iff in Es as [Es1 Es2]. apply bool_decide_eq_true in Es2, Es3.
  apply N.eqb_eq in Ev. subst version.
  set (hold := default {| h_addressId := ld_addressId d; h_pending := Empty; h_base := false |} (ss_holds s !! ld_id d)).
  assert (Hhold : h_addressId hold = dp_addressId p /\ held_ok x0 hold (ld_value d)).
  { unfold hold. destruct (ss_holds s !! ld_id d) as [h|] eqn:Eh; [by destruct Hv as (? & _ & _ & ?)|]. cbn. split; [apply Hl|].
    rewrite Hv by congruence. apply held_none. }
  destruct Hhold as [Ha Hheld].
  assert (Hother : forall k d2, k <> dp_addressId p -> ss_documents s !! k = Some d2 -> ld_id d2 <> ld_id d).
  { intros k d2 Hk Hd2 E. apply Hk. by apply (cached_by_id s k (dp_addressId p) d2 d). }
  constructor; cbn [with_holds with_documents ss_storage ss_documents ss_holds ss_taskDocuments hold_change].
  - apply Hs.
  - intros k d2 [[<- <-]|[Hk Hd2]]%lookup_insert_Some.
    + constructor; cbn; [apply Hl..| |].
      * apply H5.
      * exists x0. split; [exact Ex0|]. split; [done|]. unfold stored_value_ok. unfold ld_id at 1. cbn.
        rewrite lookup_insert_eq. fold hold. cbn. split; [done|]. split; [congruence|]. split; [done|]. by eapply held_push.
    + apply (loaded_stable s); [by apply Hs|done..|]. cbn. rewrite lookup_insert_ne; [done|]. intros E. by apply (Hother k d2 (not_eq_sym Hk) Hd2).
  - intros i h [[<- <-]|[Hi Hh]]%lookup_insert_Some.
    + fold hold. cbn. rewrite Ha, lookup_insert_eq. by eexists.
    + destruct (se_holds _ Hs i h Hh) as (d2 & Hd2 & E2). exists d2. split; [|done]. rewrite lookup_insert_ne; [done|].
      intros E. rewrite <- E, H3 in Hd2. injection Hd2 as <-. by apply Hi.
  - apply Hs.
Qed.

(** ** All plans *)

Lemma hold_commit_eq plans : forall s held, mapM hold_plan plans = Some held ->
  hold_commit s plans (omap (fun x => x) held) = foldl hold_one s plans.
Proof.
  induction plans as [|p plans IH]; intros s held H; [injection H as <-; by destruct s|].
  cbn in H. destruct (hold_plan p) as [x|] eqn:Ex; [|done]. cbn in H. destruct (mapM hold_plan plans) as [xs|] eqn:Exs; [|done]. cbn in H. injection H as <-.
  cbn [foldl]. rewrite <- (IH _ xs eq_refl). unfold hold_commit, hold_one. rewrite Ex. by destruct x.
Qed.

Lemma hold_plans_ok plans : forall s, session_ok s -> (forall p, p ∈ plans -> exists d c x, holds_plan s p d c /\ hold_plan p = Some x) ->
  NoDup (dp_addressId <$> plans) -> session_ok (foldl hold_one s plans).
Proof.
  induction plans as [|p plans IH]; intros s Hs Hall Hnd; [done|]. cbn [foldl fmap list_fmap] in *. apply NoDup_cons in Hnd as [Hn Hnd].
  destruct (Hall p (list_elem_of_here _ _)) as (d & c & x & Hp & Hx). destruct (hold_one_ok s p d c x Hs Hp Hx) as [Hs1 Hk].
  apply IH; [done| |done]. intros p' Hp'. destruct (Hall p' (list_elem_of_further _ _ _ Hp')) as (d' & c' & x' & Hh' & Hx'). exists d', c', x'.
  split; [|done]. destruct Hh'. constructor; try done. rewrite Hk; [done|]. intros E. apply Hn. rewrite <- E. by apply list_elem_of_fmap_2.
Qed.

Lemma mapM_elem {A B} (f : A -> option B) l l' x : mapM f l = Some l' -> x ∈ l -> is_Some (f x).
Proof.
  revert l'. induction l as [|y l IH]; intros l' H Hx; [by apply elem_of_nil in Hx|]. cbn in H. destruct (f y) as [b|] eqn:E; [|done]. cbn in H.
  destruct (mapM f l) as [bs|]; [|done]. apply elem_of_cons in Hx as [->|Hx]; [by eexists|by eapply IH].
Qed.

Lemma hold_commit_ok s tx plans writes held : session_ok s -> tx_ok s tx -> assembled s tx plans writes -> holdable plans writes = Some held ->
  session_ok (hold_commit s plans held).
Proof.
  intros Hs Htx Has H. unfold holdable in H. destruct (existsb _ _); [done|]. destruct (mapM hold_plan plans) as [xs|] eqn:Exs; [|done]. cbn in H. injection H as <-.
  rewrite (hold_commit_eq plans s xs Exs). pose proof (as_plans _ _ _ _ Has) as Hpl.
  assert (Hall : forall p, p ∈ plans -> exists d c x, holds_plan s p d c /\ hold_plan p = Some x /\ dp_record p = inr (ld_record d)).
  { intros p Hp. destruct (mapM_elem _ _ _ p Exs Hp) as [x Hx]. pose proof (pl_plans _ _ _ Hpl p Hp) as Hok.
    pose proof (pk_content _ _ _ Hok) as Hcon. unfold plan_content_ok in Hcon. unfold hold_plan in Hx.
    destruct (dp_record p) as [c|r] eqn:Er, (dp_change p) as [ch|] eqn:Ech.
    - destruct Hcon as (_ & E & _). by rewrite E in Hx.
    - destruct Hcon as (source & E & _). by rewrite E in Hx.
    - destruct Hcon as (d & E1 & -> & E2 & E3 & E4 & E5). exists d, ch, x. split; [by constructor|]. split; [|done]. unfold hold_plan. by rewrite Ech.
    - destruct Hcon as [E R]. by rewrite E, R in Hx. }
  apply hold_plans_ok; [done| |].
  - intros p Hp. destruct (Hall p Hp) as (d & c & x & H1 & H2 & _). by exists d, c, x.
  - apply (NoDup_fmap_2_strong); [|eapply NoDup_fmap_1, (pl_ids _ _ _ Hpl)]. intros p q Hp Hq E.
    destruct (Hall p Hp) as (d & c & x & [_ _ Hd _ _ _] & _ & Er), (Hall q Hq) as (d' & c' & x' & [_ _ Hd' _ _ _] & _ & Er').
    rewrite E, Hd' in Hd. injection Hd as ->.
    apply list_elem_of_lookup in Hp as [i Hi], Hq as [j Hj]. assert (i = j) as <-; [|congruence].
    apply (NoDup_lookup (plan_id <$> plans) i j (plan_id p)); [apply Hpl|by rewrite list_lookup_fmap, Hi|rewrite list_lookup_fmap, Hj; cbn].
    unfold plan_id, plan_create. by rewrite Er, Er'.
Qed.

(** ** Every step of a Session *)

Lemma settle_commit_ok s tx deferred s' : session_ok s -> tx_ok s tx -> settle_commit s tx deferred = Ok s' -> session_ok s'.
Proof.
  intros Hs Htx H. unfold settle_commit in H. destruct (assemble s tx) as [[plans writes]|] eqn:Ea; [|done]. cbn [mbind res_bind] in H.
  pose proof (assemble_ok s tx plans writes Hs Htx Ea) as Has.
  assert (Hcase : s' = s \/ (exists held, holdable plans writes = Some held /\ s' = hold_commit s plans held) \/ store_commit s tx plans writes = Ok s').
  { destruct writes as [|w ws]; [injection H as <-; by left|right]. destruct deferred; [|by right].
    destruct (holdable plans (w :: ws)) as [held|] eqn:Eh; [|by right]. left. exists held. by injection H as <-. }
  destruct Hcase as [->|[(held & Hh & ->)|Hst]]; [done| |].
  - by eapply hold_commit_ok.
  - destruct (store_commit_ok s tx plans writes s' Hs Htx Has Hst) as (qs & submissions & W & Hc). by eapply stored_commit_ok.
Qed.

Lemma storeHolds_keeps s select s' : session_ok s -> storeHolds s select = Ok s' -> session_ok s'.
Proof. intros Hs H. destruct (storeHolds_stored s select s' Hs H) as [[-> _]|(K & Ht)]; [done|by eapply storeHolds_ok]. Qed.

Lemma session_step_ok s s' : session_step s s' -> session_ok s -> session_ok s'.
Proof.
  destruct 1 as [s conversationId taskId carrier s1 tx deferred s2 Hcb H|s conversationId taskId carrier s1 tx Hcb|s s' id H|s definition address s' d _ H|s select s' H|s id Hn]; intros Hs.
  - destruct (callback_ok _ _ _ _ Hs (new_transaction_ok s conversationId taskId carrier) Hcb) as (Hs1 & Htx & _). by eapply settle_commit_ok.
  - by destruct (callback_ok _ _ _ _ Hs (new_transaction_ok s conversationId taskId carrier) Hcb) as (Hs1 & _ & _).
  - by eapply session_mint_ok.
  - destruct (loadDocument_ok s definition _ address s' d [] Hs eq_refl) with (2 := H) as [Hc _]; [by intros e []%elem_of_nil|apply Hc].
  - by eapply storeHolds_keeps.
  - by apply drop_ok.
Qed.

Lemma session_run_ok s s' : session_run s s' -> session_ok s -> session_ok s'.
Proof. induction 1 as [|s s1 s' H _ IH]; [done|]. intros Hs. apply IH. by eapply session_step_ok. Qed.
