(* ===== verification/CommitReplicas.v ===== *)
(** Commits of a Session and its observers (durable/src/session/session.ts,
    durable/src/types.ts): what commits never do, which is to change a finished record, move
    a task to another conversation or be refused by the storage; what a callback does to the
    Session; and a replica that follows the publications, the abstract view of the stored
    documents. *)
From S2P Require Import Prelude JsString Json DeltaOp DeltaApply DeltaPending StorageTypes SortedIds MemoryCommit DocumentFacts TableFacts MemoryFacts MemoryRead ReadFacts MemoryHistory SessionTypes SessionTransaction SessionCommit BatchFacts SessionInvariant TransactionFacts TransactionDocuments BatchPlans BatchCommit CommitInvariant.

(** ** The first Session *)

Lemma memory_new_ok : storage_ok memory_new.
Proof.
  constructor; try done.
  - apply empty_inv.
Qed.

Lemma session_new_ok m : storage_ok m -> session_ok (session_new m).
Proof. intros Hm. by constructor. Qed.

Lemma reachable_ok s : session_run (session_new memory_new) s -> session_ok s.
Proof. intros H. eapply session_run_ok; [exact H|]. apply session_new_ok, memory_new_ok. Qed.

(** ** Finished records *)

(** Tasks stay in their conversations, and what has ended or is settled stays as it is. *)
Record records_kept (st st' : State) : Prop := {
  rk_tasks : forall (id : N) r, tasks_of st !! id = Some r ->
    exists r', tasks_of st' !! id = Some r' /\ t_conversationId r' = t_conversationId r /\ (t_status r = terminal -> r' = r);
  rk_submissions : forall (id : N) r, submissions_of st !! id = Some r ->
    exists r', submissions_of st' !! id = Some r' /\ (settled r = true -> r' = r);
}.

Lemma tables_records st st' : same_tables st st' -> records_kept st st'.
Proof.
  intros H. constructor; intros id r Hr; destruct (H id) as (_ & _ & E1 & E2).
  - exists r. by rewrite E1.
  - exists r. by rewrite E2.
Qed.

Lemma records_kept_trans st1 st2 st3 : records_kept st1 st2 -> records_kept st2 st3 -> records_kept st1 st3.
Proof.
  intros [A1 A2] [B1 B2]. constructor; intros id r Hr.
  - destruct (A1 id r Hr) as (r2 & H2 & E2 & F2). destruct (B1 id r2 H2) as (r3 & H3 & E3 & F3). exists r3. split; [done|]. split; [congruence|].
    intros Ht. specialize (F2 Ht). subst r2. by apply F3.
  - destruct (A2 id r Hr) as (r2 & H2 & F2). destruct (B2 id r2 H2) as (r3 & H3 & F3). exists r3. split; [done|].
    intros Ht. specialize (F2 Ht). subst r2. by apply F3.
Qed.

Lemma written_submission s tx plans qs submissions W s' (id : N) v : stored_commit s tx plans qs submissions W s' ->
  written s_id pick_submission id (prepared_write (document_tables (stored_state s)) <$> W) = Some v -> id ∈ submissions.*1.
Proof.
  intros Hc Hv. assert (Hin : (id, TSubmission) ∈ claims W).
  { eapply (written_claim s_id pick_submission); [|by eexists]. by intros [] x [= ->]. }
  rewrite (batch_claims s tx qs submissions W (sc_tx _ _ _ _ _ _ _ Hc) (sc_final _ _ _ _ _ _ _ Hc) (sc_submissions _ _ _ _ _ _ _ Hc) (sc_writes _ _ _ _ _ _ _ Hc)) in Hin.
  rewrite !elem_of_app in Hin. destruct Hin as [H|[H|[H|H]]].
  - apply list_elem_of_omap in H as (w & Hw & E). destruct (to_writes _ _ (sc_tx _ _ _ _ _ _ _ Hc) w Hw) as [[c ->]|[e ->]]; done.
  - apply list_elem_of_omap in H as ([i [w|]] & _ & E); done.
  - by apply list_elem_of_fmap in H as (i & [= ->] & Hi).
  - by apply list_elem_of_fmap in H as (c & [=] & _).
Qed.

Lemma commit_records_kept s tx plans qs submissions W s' : stored_commit s tx plans qs submissions W s' ->
  records_kept (stored_state s) (stored_state s').
Proof.
  intros Hc. pose proof (sc_effect _ _ _ _ _ _ _ Hc) as He. constructor; intros id r Hr.
  - rewrite (task_after s tx qs submissions W (sc_session _ _ _ _ _ _ _ Hc) (sc_tx _ _ _ _ _ _ _ Hc) (sc_final _ _ _ _ _ _ _ Hc) (sc_submissions _ _ _ _ _ _ _ Hc) (sc_replaced _ _ _ _ _ _ _ Hc) (sc_writes _ _ _ _ _ _ _ Hc) (ss_storage s') He id).
    destruct (task_write tx id) as [[created r']|] eqn:Ew; [|by exists r].
    unfold task_write in Ew. destruct (alist_get id (tx_tasks tx)) as [[w|]|] eqn:Eg; [|done..]. cbn in Ew. injection Ew as ->. apply alist_get_elem in Eg.
    exists (clone r'). split; [done|]. destruct created.
    + exfalso. pose proof (to_fresh _ _ (sc_tx _ _ _ _ _ _ _ Hc)) as Hfr. rewrite Forall_forall in Hfr.
      destruct (Hfr id) as [Hn _].
      { unfold tx_ids. rewrite !elem_of_app. right. left. apply list_elem_of_omap. by exists (id, Some (true, r')). }
      assert (Hin : in_table (stored_state s) TTask id) by (by eexists).
      apply (si_types _ _ _ _ (so_inv _ (se_storage _ (sc_session _ _ _ _ _ _ _ Hc)))) in Hin. congruence.
    + destruct (sc_replaced _ _ _ _ _ _ _ Hc id r' Eg) as (t & Ht & Hnt & Econv). rewrite Hr in Ht. injection Ht as <-. split; [by symmetry|done].
  - destruct (be_records _ _ _ He id) as (_ & _ & _ & E). rewrite E.
    destruct (written s_id pick_submission id _) as [v|] eqn:Ev; [|by exists r]. exists v. split; [done|]. intros Hst.
    destruct (sb_open _ _ _ (sc_submissions _ _ _ _ _ _ _ Hc) id r Hr Hst). by eapply written_submission.
Qed.

Lemma storeHolds_tables s select s' : session_ok s -> storeHolds s select = Ok s' -> same_tables (stored_state s) (stored_state s').
Proof.
  intros Hs H. destruct (storeHolds_stored s select s' Hs H) as [[-> _]|(K & Ht)]; [done|].
  apply (tables_kept _ _ _ (ht_effect _ _ _ _ Ht)). apply stored_writes_shape.
Qed.

Lemma settle_records s tx deferred s' : session_ok s -> tx_ok s tx -> settle_commit s tx deferred = Ok s' ->
  records_kept (stored_state s) (stored_state s').
Proof.
  intros Hs Htx H. unfold settle_commit in H. destruct (assemble s tx) as [[plans writes]|] eqn:Ea; [|done]. cbn [mbind res_bind] in H.
  pose proof (assemble_ok s tx plans writes Hs Htx Ea) as Has.
  assert (Hcase : stored_state s' = stored_state s \/ store_commit s tx plans writes = Ok s').
  { destruct writes as [|w ws]; [injection H as <-; by left|]. destruct deferred; [|by right].
    destruct (holdable plans (w :: ws)) as [held|] eqn:Eh; [|by right]. left. by injection H as <-. }
  destruct Hcase as [->|Hst]; [by apply tables_records|].
  destruct (store_commit_ok s tx plans writes s' Hs Htx Has Hst) as (qs & submissions & W & Hc). by eapply commit_records_kept.
Qed.

Lemma step_records s s' : session_ok s -> session_step s s' -> records_kept (stored_state s) (stored_state s').
Proof.
  intros Hs H. destruct H as [s conversationId taskId carrier s1 tx deferred s2 Hcb H|s conversationId taskId carrier s1 tx Hcb|s s' id H|s definition address s' d _ H|s select s' H|s id Hn].
  - destruct (callback_ok _ _ _ _ Hs (new_transaction_ok s conversationId taskId carrier) Hcb) as (Hs1 & Htx & Hc).
    eapply records_kept_trans; [apply tables_records, (cn_tables _ _ _ Hc)|by eapply settle_records].
  - destruct (callback_ok _ _ _ _ Hs (new_transaction_ok s conversationId taskId carrier) Hcb) as (_ & _ & Hc). apply tables_records, Hc.
  - apply tables_records. by apply (cn_tables _ _ _ (mint_continues s s' id [] Hs H)).
  - apply tables_records. destruct (loadDocument_ok s definition _ address s' d [] Hs eq_refl) with (2 := H) as [Hc _]; [by intros e []%elem_of_nil|apply Hc].
  - apply tables_records. by eapply storeHolds_tables.
  - by apply tables_records.
Qed.

Lemma run_records s s' : session_ok s -> session_run s s' -> records_kept (stored_state s) (stored_state s').
Proof.
  intros Hs H. induction H as [s|s1 s2 s3 H _ IH]; [by apply tables_records|].
  eapply records_kept_trans; [by apply step_records|]. apply IH. by eapply session_step_ok.
Qed.

(** ** Settled commits are stored *)

Lemma settled_stored s tx plans writes : session_ok s -> tx_ok s tx -> assemble s tx = Ok (plans, writes) ->
  (Z.of_N (nextSeq (ss_storage s)) <= MAX_SAFE_INTEGER)%Z -> exists s', store_commit s tx plans writes = Ok s'.
Proof.
  intros Hs Htx Ha Hseq. pose proof (assemble_ok s tx plans writes Hs Htx Ha) as Has.
  destruct (settled_batch s tx plans writes Hs Htx Has) as (taking & submissions & Et & _ & _ & _ & _ & _ & Hfit & Hcf).
  pose proof (se_storage _ Hs) as Hst. destruct (batch_effects _ _ (so_inv _ Hst) (so_open _ Hst) Hseq Hcf Hfit) as (m' & Em & _).
  unfold store_commit. rewrite Et. cbn [mbind res_bind]. rewrite Em. by eexists.
Qed.

Inductive quiet_step : SessionState -> SessionState -> Prop :=
| quiet_mint s s' id :
    mint s = Ok (s', id) -> quiet_step s s'
| quiet_load s definition address s' d :
    definition_ok definition -> loadDocument s definition (addressId address) address = Ok (s', d) -> quiet_step s s'.

Abbreviation quiet := (rtc quiet_step).

Lemma mint_quiet s s' id : mint s = Ok (s', id) -> quiet s s'.
Proof. intros H. apply rtc_once. by eapply quiet_mint. Qed.

Lemma collect_quiet at_ policy child sources : forall s copies s' copies',
  collect_sources s at_ policy child copies sources = Ok (s', copies') -> quiet s s'.
Proof.
  induction sources as [|source sources IH]; intros s copies s' copies' H; cbn in H; [by injection H as <- _|].
  destruct (_ || _); [by eapply IH|]. destruct (mint s) as [[s1 id]|] eqn:Em; [|done]. cbn in H. destruct (check _ _); [|done]. cbn in H.
  etrans; [by eapply mint_quiet|by eapply IH].
Qed.

Lemma fork_copies_quiet s parent at_ child s' copies : prepareForkDocumentCopies s parent at_ child = Ok (s', copies) -> quiet s s'.
Proof.
  unfold prepareForkDocumentCopies, collectCopies. intros H. destruct (of_storage (ran (entry_visible _ _ _ _))) as [found|]; [|done]. cbn in H.
  destruct (res_of _ found) as [e|]; [|done]. cbn in H. destruct (all_documents _ _) as [l1|]; [|done]. cbn in H.
  destruct (collect_sources s _ _ _ _ l1) as [[s1 c1]|] eqn:E1; [|done]. cbn in H. destruct (all_documents _ _) as [l2|]; [|done]. cbn in H.
  etrans; eapply collect_quiet; eassumption.
Qed.

Lemma stage_quiet s tx parent owner reserved s' tx' r : stageConversation s tx parent owner reserved = Ok (s', tx', r) -> quiet s s'.
Proof.
  unfold stageConversation. intros H.
  match type of H with (?r0 ≫= _) = _ => assert (H0 : forall s1 id, r0 = Ok (s1, id) -> quiet s s1) end.
  { intros s1 id E. destruct reserved as [i|]; [by injection E as <- _|by eapply mint_quiet]. }
  match type of H with (?r0 ≫= _) = _ => destruct r0 as [[s1 id]|]; [|done] end. cbn [mbind res_bind] in H. specialize (H0 s1 id eq_refl).
  match type of H with (?r0 ≫= _) = _ => destruct r0 as [[tx1 o]|]; [|done] end. cbn [mbind res_bind] in H.
  match type of H with (?r0 ≫= _) = _ => destruct r0 as [[s2 copies]|] eqn:E2; [|done] end. cbn [mbind res_bind] in H. injection H as <- _ _.
  etrans; [exact H0|]. destruct parent as [p|]; [by eapply fork_copies_quiet|by injection E2 as -> _].
Qed.

Lemma acquire_quiet s tx definition address seed skip s' tx' r : definition_ok definition ->
  acquire s tx definition (addressId address) address seed skip = Ok (s', tx', r) -> quiet s s'.
Proof.
  unfold acquire. intros Hd H.
  match type of H with (?r0 ≫= _) = _ => assert (H0 : forall s1 l, r0 = Ok (s1, l) -> quiet s s1) end.
  { intros s1 l E. destruct skip; [by injection E as -> _|]. apply rtc_once. by eapply quiet_load. }
  match type of H with (?r0 ≫= _) = _ => destruct r0 as [[s1 loaded]|]; [|done] end. cbn [mbind res_bind] in H. specialize (H0 s1 loaded eq_refl).
  destruct loaded as [d|].
  - destruct (checkRecordScope _ _); [|done]. cbn in H. destruct (checkRecordVersion _ _ _); [|done]. cbn in H. by injection H as <- _ _.
  - destruct (requireOwner s1 tx _); [|done]. cbn in H. destruct (mint s1) as [[s2 id]|] eqn:Em; [|done]. cbn in H. injection H as <- _ _.
    etrans; [exact H0|by eapply mint_quiet].
Qed.

Lemma doc_quiet s tx definition owner key seed s' tx' i : definition_ok definition ->
  doc s tx definition owner key seed = Ok (s', tx', i) -> quiet s s'.
Proof.
  unfold doc. intros Hd H. destruct (resolveAddress _ _ _) as [address|]; [|done]. cbn [mbind res_bind] in H.
  destruct (assertTaskDocumentsOpen _ _); [|done]. cbn [mbind res_bind] in H.
  assert (Hfresh : forall tx1 n e skip, (r ← acquire s tx1 definition (addressId address) address (clone seed) skip;
      let '(s2, tx2, (target, change)) := r in Ok (s2, set_entry n (with_target target (Some change) e) tx2, n)) = Ok (s', tx', i) -> quiet s s').
  { clear H. intros tx1 n e skip E. destruct (acquire _ _ _ _ _ _ _) as [[[s2 tx2] [target change]]|] eqn:Ea; [|done]. cbn in E. injection E as <- _ _. by apply (acquire_quiet _ _ _ _ _ _ _ _ _ Hd Ea). }
  destruct (latest_entry tx _) as [[j e]|]; [|by eapply Hfresh]. destruct (de_retireOnCommit e); [by eapply Hfresh|].
  destruct (de_change e); [by injection H as <- _ _|]. destruct (de_target e) as [[]|]; try (by eapply Hfresh).
  destruct (acquireForkCopy _ _ _ _); [|done]. cbn in H. by injection H as <- _ _.
Qed.

Lemma createTask_quiet s tx o s' tx' : createTask s tx o = Ok (s', tx') -> quiet s s'.
Proof.
  unfold createTask. intros H.
  match type of H with (?r0 ≫= _) = _ => destruct r0 as [traced|]; [|done] end. cbn [mbind res_bind] in H.
  match type of H with (?r0 ≫= _) = _ => destruct r0 as [[tx2 owner]|]; [|done] end. cbn [mbind res_bind] in H.
  destruct (res_of NoConversation _) as [c|]; [|done]. cbn [mbind res_bind] in H. destruct (requireConversation _ _ _); [|done]. cbn [mbind res_bind] in H.
  destruct (mint s) as [[s1 id]|] eqn:Em; [|done]. injection H as <- _. by eapply mint_quiet.
Qed.

Lemma tx_step_quiet x y : tx_step x y -> quiet x.1 y.1.
Proof.
  destruct 1 as [s tx owner s' tx' H|s tx parent at_ owner s' tx' H|s tx c v s' tx' H|s tx o s' tx' H|s tx now v tx' H|s tx o s' tx' H|s tx id change|
    s tx definition owner key seed s' tx' i Hd H|s tx i e v p He Hb Hp|s tx definition owner key tx' Hd H]; cbn [fst]; try done.
  - unfold createConversation in H. destruct (stageConversation _ _ _ _ _) as [[[s1 tx1] r]|] eqn:E; [|done]. injection H as <- _. by eapply stage_quiet.
  - unfold forkConversation in H. destruct (stageConversation _ _ _ _ _) as [[[s1 tx1] r]|] eqn:E; [|done]. injection H as <- _. by eapply stage_quiet.
  - unfold appendEntry in H. destruct (requireConversation _ _ _); [|done]. cbn [mbind res_bind] in H.
    destruct (mint s) as [[s1 id]|] eqn:Em; [|done]. injection H as <- _. by eapply mint_quiet.
  - by eapply createTask_quiet.
  - unfold createSubmission in H. destruct (requireConversation _ _ _); [|done]. cbn [mbind res_bind] in H.
    destruct (mint s) as [[s1 id]|] eqn:Em; [|done]. injection H as <- _. by eapply mint_quiet.
  - by eapply doc_quiet.
Qed.

Lemma callback_quiet s tx s' tx' : callback s tx s' tx' -> quiet s s'.
Proof.
  intros H. change s with (s, tx).1. change s' with (s', tx').1. unfold callback in H.
  induction H as [x|x y z Hxy _ IH]; [done|]. etrans; [by apply tx_step_quiet|done].
Qed.

(** ** Replicas *)

(** The version and the value of a stored document. *)
Definition stored_at (m : MemoryStorage) (id : N) (at_ : DocumentPoint) : option (N * json) :=
  match content_at (document_tables (state m)) id at_ with Ok (Some (v, x, _)) => Some (v, x) | _ => None end.

Abbreviation Replica := (gmap N (N * json)).

Definition change_id (c : DocumentCommitChange) : N :=
  record_id match c with DocumentChanged r _ _ _ _ | DocumentRetired_ r _ | DocumentCopied r _ _ => r end.

(** What an observer knows of a document after a publication: operations are applied to the
    value it has in the same version, and a copy is read in the storage. *)
Definition followed (m : MemoryStorage) (c : DocumentCommitChange) (known : option (N * json)) : option (N * json) :=
  match c, known with
  | DocumentChanged _ _ version value ops, Some (v, x) =>
      if (v =? version)%N then match apply (Some x) (tuples ops) with Ok (Some y) => Some (version, y) | _ => None end
      else Some (version, value)
  | DocumentChanged _ _ version value _, None => Some (version, value)
  | DocumentRetired_ _ _, _ => None
  | DocumentCopied _ _ source, _ => stored_at m (cs_id source) (cs_at source)
  end.

Definition follow (m : MemoryStorage) (replica : Replica) (c : DocumentCommitChange) : Replica :=
  partial_alter (followed m c) (change_id c) replica.

Definition agrees (replica : Replica) (m : MemoryStorage) : Prop := forall id : N, replica !! id = stored_at m id PCurrent.

(** A Session's step and its observer's. *)
Definition observed_step (x y : SessionState * Replica) : Prop :=
  session_step x.1 y.1 /\ exists changes, ss_published y.1 = ss_published x.1 ++ changes /\ y.2 = foldl (follow (ss_storage y.1)) x.2 changes.

(** ** Publications of one batch *)

Record publishes_batch (m m' : MemoryStorage) (changes : list DocumentCommitChange) : Prop := {
  pb_ids : NoDup (change_id <$> changes);
  pb_changed : forall c, c ∈ changes -> followed m' c (stored_at m (change_id c) PCurrent) = stored_at m' (change_id c) PCurrent;
  pb_same : forall id, id ∉ change_id <$> changes -> stored_at m' id PCurrent = stored_at m id PCurrent;
}.

Lemma follow_lookup m' changes : forall (replica : Replica) (id : N), NoDup (change_id <$> changes) ->
  (id ∉ change_id <$> changes -> foldl (follow m') replica changes !! id = replica !! id) /\
  forall c, c ∈ changes -> change_id c = id -> foldl (follow m') replica changes !! id = followed m' c (replica !! id).
Proof.
  induction changes as [|c changes IH]; intros replica id Hnd; cbn [foldl]; [split; [done|by intros c []%elem_of_nil]|].
  cbn in Hnd. apply NoDup_cons in Hnd as [Hn Hnd]. destruct (IH (follow m' replica c) id Hnd) as [IH1 IH2]. split.
  - cbn. rewrite not_elem_of_cons. intros [Hne Hid]. rewrite IH1 by done. unfold follow. by rewrite lookup_partial_alter_ne.
  - intros c' [->|Hc']%elem_of_cons Ec.
    + rewrite IH1 by by rewrite <- Ec. unfold follow. by rewrite Ec, lookup_partial_alter_eq.
    + rewrite (IH2 c' Hc' Ec). unfold follow. rewrite lookup_partial_alter_ne; [done|]. intros E. apply Hn. rewrite E, <- Ec. by apply list_elem_of_fmap_2.
Qed.

Lemma publishes_agree m m' changes replica : publishes_batch m m' changes -> agrees replica m -> agrees (foldl (follow m') replica changes) m'.
Proof.
  intros [H1 H2 H3] Ha id. destruct (follow_lookup m' changes replica id H1) as [F1 F2].
  destruct (decide (id ∈ change_id <$> changes)) as [Hin|Hn]; [|by rewrite F1, H3].
  apply list_elem_of_fmap in Hin as (c & Ec & Hc). rewrite (F2 c Hc (eq_sym Ec)), Ha, Ec. by apply H2.
Qed.

Lemma publishes_nothing m m' : (forall id, content m' id = content m id) -> publishes_batch m m' [].
Proof.
  intros H. constructor; [constructor|by intros c []%elem_of_nil|]. intros id _. unfold stored_at. by rewrite H.
Qed.

(** ** Stored holds *)

Lemma stored_publishes s s' select K : session_ok s -> holds_stored s select K s' ->
  publishes_batch (ss_storage s) (ss_storage s') (stored_change <$> K).
Proof.
  intros Hs Ht. destruct (ht_stored _ _ _ _ Ht) as (L & HK & Hnd & _).
  assert (Eids : change_id <$> (stored_change <$> K) = stored_ids K) by (by rewrite <- list_fmap_compose).
  constructor.
  - rewrite Eids, (stored_ids_eq _ _ _ HK). done.
  - intros c (k & -> & Hk)%list_elem_of_fmap. destruct (elem_stored _ _ _ _ HK Hk) as (x & _ & Hx).
    destruct (stored_value s x k Hs Hx) as (x0 & Hc & _ & _ & _ & _ & _ & _ & Ha & _). change (change_id (stored_change k)) with (ld_id k.1).
    unfold stored_at. rewrite Hc, (stored_content s s' select K Hs Ht k Hk). cbn. by rewrite N.eqb_refl, Ha.
  - intros id. rewrite Eids. intros Hn. unfold stored_at. by rewrite (untouched_content s s' select K Ht id Hn).
Qed.

(** ** Stored commits *)

Section Commit.
Context (s : SessionState) (tx : Transaction) (plans qs : list DocumentPlan) (submissions : list (N * SubmissionRecord))
    (W : list StorageWrite) (s' : SessionState).
Context (Hc : stored_commit s tx plans qs submissions W s').

Let seq := nextSeq (ss_storage s).
Let Hs := sc_session _ _ _ _ _ _ _ Hc.
Let Hf := sc_final _ _ _ _ _ _ _ Hc.
Let Htx := sc_tx _ _ _ _ _ _ _ Hc.
Let HW := sc_writes _ _ _ _ _ _ _ Hc.
Let He := sc_effect _ _ _ _ _ _ _ Hc.

Lemma published_id q c : published_change seq q = Some c -> change_id c = plan_id q.
Proof.
  assert (Hd : forall c, describe q (committed_record seq q) = Some c -> change_id c = plan_id q).
  { intros c0. unfold describe, plan_id. rewrite <- (committed_create s q). destruct (dp_retire q); [by intros [= <-]|].
    destruct (dp_content q) as [[]|]; try (by intros [= <-]); destruct (dp_change q); try done; destruct (publishes q); try done; by intros [= <-]. }
  unfold published_change. destruct (describe _ _) as [c0|]; [|by destruct (dp_held q) as [[]|]]. specialize (Hd c0 eq_refl).
  destruct c0; destruct (dp_held q) as [[]|]; intros [= <-]; exact Hd.
Qed.

(** What a published plan describes. *)
Lemma published_kind q c : q ∈ qs -> published_change seq q = Some c ->
  (dp_retire q = true /\ exists r conversation, c = DocumentRetired_ r conversation) \/
  (dp_retire q = false /\ (exists record source r conversation, dp_content q = Some (WDocumentCopy record source) /\ c = DocumentCopied r conversation source)) \/
  (dp_retire q = false /\ exists ch r conversation, dp_change q = Some ch /\
     c = DocumentChanged r conversation (pc_version ch) (pr_value (pc_prepared ch))
           (match dp_held q with Some (ops, _) => ops | None => if is_some (pc_loaded ch) then pr_ops (pc_prepared ch) else [] end)).
Proof.
  intros Hq. unfold published_change, describe. destruct (dp_retire q).
  { destruct (dp_held q) as [[]|]; intros [= <-]; left; split; by eauto. }
  destruct (dp_content q) as [[]|] eqn:Econ; try (destruct (dp_change q) as [ch|]; [destruct (publishes q)|]; destruct (dp_held q) as [[]|];
    try done; intros [= <-]; right; right; (split; [done|]); eexists _, _, _; split; reflexivity).
  destruct (dp_held q) as [[]|]; intros [= <-]; right; left; (split; [done|]); eexists _, _, _, _; split; reflexivity.
Qed.

Lemma copied_content q record source : q ∈ qs -> dp_content q = Some (WDocumentCopy record source) -> dp_retire q = false ->
  stored_at (ss_storage s') (plan_id q) PCurrent = stored_at (ss_storage s') (cs_id source) (cs_at source).
Proof.
  intros Hq Econ R. assert (HinW : WDocumentCopy record source ∈ W) by (eapply plan_written; [exact Hc|exact Hq|done]).
  destruct (commit_copies_fit s tx qs submissions W Htx Hf HW record source HinW) as (Hn & stored & Em & _).
  assert (Eid : plan_id q = dc_id record).
  { pose proof (fo_content _ _ _ Hf q Hq) as H. unfold final_content in H. unfold plan_id, plan_create. destruct (dp_record q) as [cr|r].
    - destruct H as [(v & b & E)|(src & E & _)]; rewrite Econ in E; [done|]. by injection E as ->.
    - destruct H as [_ [E|(con & E & _)]]; rewrite Econ in E; done. }
  assert (Esrc : docs (ss_storage s') !! cs_id source = stored_docs s !! cs_id source).
  { apply (effect_other _ W _ He); intros Hin; apply Hn; apply list_elem_of_omap in Hin as (w & Hw & E); apply list_elem_of_omap; exists w;
      (split; [done|]); destruct w; done. }
  pose proof (effect_content _ W _ (commit_fits _ _ _ _ _ _ _ Hc) He (plan_id q) (WDocumentCopy record source)
    {| dcn_version := sd_version stored; dcn_content := CBase (sd_value stored) |} HinW) as Ecopy.
  unfold stored_at. rewrite Ecopy.
  - unfold content_at at 2. unfold materializeDocument in Em |- *. rewrite Esrc, Em. done.
  - unfold prepared_write. cbn. rewrite Em. cbn. by rewrite Eid, decide_True.
  - by apply (kept_plan _ _ _ _ _ _ _ Hc).
Qed.

Lemma changed_follows q ch r conversation : q ∈ qs -> dp_retire q = false -> dp_change q = Some ch ->
  followed (ss_storage s') (DocumentChanged r conversation (pc_version ch) (pr_value (pc_prepared ch))
      (match dp_held q with Some (ops, _) => ops | None => if is_some (pc_loaded ch) then pr_ops (pc_prepared ch) else [] end))
    (stored_at (ss_storage s) (plan_id q) PCurrent) = Some (pc_version ch, pr_value (pc_prepared ch)).
Proof.
  intros Hq R Ech. pose proof (change_loaded _ _ _ _ _ _ _ Hc q ch Hq Ech) as H. destruct (dp_record q) as [c|rec] eqn:Er.
  - destruct (plan_new_facts _ _ _ _ _ _ _ Hc q c Hq Er) as (_ & _ & Hn).
    assert (E : stored_at (ss_storage s) (plan_id q) PCurrent = None); [|by rewrite E].
    unfold stored_at, content_at, materializeDocument. destruct (stored_docs s !! plan_id q) as [o|] eqn:Eo; [|done]. by destruct (Hn _ _ Eo).
  - destruct H as (d & Hl). assert (Eid : plan_id q = ld_id d) by (apply (plan_stored _ _ _ _ _ _ _ Hc q (ld_record d) Hq (lp_record _ _ _ _ Hl))).
    destruct (plan_before _ _ _ _ _ _ _ Hc q Hq) as (p & _ & Hok & Hpq). destruct (became_same _ _ _ Hpq) as (Ea & Erp & Rp & Ecp & _).
    rewrite Eid. unfold stored_at. unfold plan_became in Hpq. destruct (held_plan s p) as [i|] eqn:Eh.
    + destruct Hpq as (d' & ops & con & Ht). destruct (pt_loaded _ _ _ _ _ _ Ht) as (_ & Hd' & _). rewrite <- Ea, (lp_cached _ _ _ _ Hl) in Hd'. injection Hd' as <-.
      destruct (st_reads _ _ _ _ _ (pt_stores _ _ _ _ _ _ Ht)) as (x & Ex & _ & Hap). rewrite Ex, (pt_held _ _ _ _ _ _ Ht), <- Rp, R. cbn.
      unfold plan_value in Hap. rewrite <- Ecp, Ech in Hap. by rewrite (lp_version _ _ _ _ Hl), N.eqb_refl, Hap.
    + subst q. rewrite (pk_held _ _ _ Hok), (lp_loaded _ _ _ _ Hl). cbn [is_some].
      destruct (lo_content _ _ _ (se_documents _ Hs _ _ (lp_cached _ _ _ _ Hl))) as (x & Ex & _ & Hv). rewrite Ex. cbn.
      destruct (N.eqb_spec (ld_storedVersion d) (pc_version ch)) as [Ev|]; [|done]. unfold stored_value_ok in Hv.
      unfold held_plan in Eh. rewrite (lp_record _ _ _ _ Hl) in Eh. unfold ld_id in Hv.
      destruct (ss_holds s !! record_id (ld_record d)); [done|]. rewrite Hv by (rewrite Ev; apply Hl). by rewrite (pf_apply _ _ _ (lp_performs _ _ _ _ Hl)).
Qed.

Lemma unpublished q : q ∈ qs -> published_change seq q = None -> content (ss_storage s') (plan_id q) = content (ss_storage s) (plan_id q).
Proof.
  intros Hq E. assert (R : dp_retire q = false /\ dp_content q = None).
  { unfold published_change, describe in E. destruct (dp_retire q) eqn:R; [by destruct (dp_held q) as [[]|]|]. split; [done|].
    destruct (dp_change q) as [ch|] eqn:Ech.
    - destruct (dp_content q) as [w|] eqn:Econ; [exfalso|done]. assert (Ep : publishes q = true) by (unfold publishes; rewrite Econ; apply orb_true_r).
      rewrite Ep in E. destruct w; by destruct (dp_held q) as [[]|].
    - pose proof (no_change _ _ _ _ _ _ _ Hc q Hq Ech) as Hn. destruct (dp_record q) as [c|r]; [|congruence].
      destruct Hn as (source & Econ & _). rewrite Econ in E. by destruct (dp_held q) as [[]|]. }
  destruct R as [R Econ]. destruct (batch_parts s tx qs submissions W Htx Hf HW) as (P1 & _). apply (effect_untouched _ W _ He).
  - rewrite P1. intros (q' & Hq' & E')%list_elem_of_omap. unfold plan_content_id in E'. destruct (dp_content q') eqn:Ec'; [|done]. injection E' as E'.
    assert (q' = q) as -> by by apply (plan_unique s tx qs Hf). congruence.
  - by apply (kept_plan _ _ _ _ _ _ _ Hc).
Qed.

Lemma commit_publishes : publishes_batch (ss_storage s) (ss_storage s') (omap (published_change seq) qs).
Proof.
  assert (Esub : change_id <$> omap (published_change seq) qs = omap (fun q => change_id <$> published_change seq q) qs).
  { clear. induction qs as [|q l IH]; [done|]. cbn. destruct (published_change seq q); cbn; by rewrite IH. }
  constructor.
  - rewrite Esub. apply (sublist_NoDup _ (plan_id <$> qs)); [apply Hf|]. apply omap_sublist_map. intros q y.
    destruct (published_change seq q) as [c|] eqn:E; [|done]. intros [= <-]. by apply published_id.
  - intros c (q & Hq & E)%list_elem_of_omap. rewrite (published_id q c E).
    destruct (published_kind q c Hq E) as [(R & r & conv & ->)|[(R & record & source & r & conv & Econ & ->)|(R & ch & r & conv & Ech & ->)]].
    + cbn [followed]. unfold stored_at. rewrite (be_content _ _ _ He). unfold retires_in. rewrite bool_decide_true; [done|].
      apply (retired_plan s tx qs submissions W Htx Hf HW). by exists q.
    + cbn [followed]. symmetry. by eapply copied_content.
    + rewrite (changed_follows q ch r conv Hq R Ech). pose proof (change_loaded _ _ _ _ _ _ _ Hc q ch Hq Ech) as H. unfold stored_at.
      destruct (dp_record q) as [cr|rec] eqn:Er.
      * destruct (plan_new_facts _ _ _ _ _ _ _ Hc q cr Hq Er) as (-> & _). by rewrite (new_content _ _ _ _ _ _ _ Hc q cr ch Hq Er Ech R).
      * destruct H as (d & Hl). assert (Eid : plan_id q = ld_id d) by (apply (plan_stored _ _ _ _ _ _ _ Hc q (ld_record d) Hq (lp_record _ _ _ _ Hl))).
        rewrite Eid. by rewrite (changed_content _ _ _ _ _ _ _ Hc q d ch Hq Hl R).
  - intros id Hn. rewrite Esub in Hn. unfold stored_at. destruct (decide (Exists (fun q => plan_id q = id) qs)) as [Hex|Hno].
    + apply Exists_exists in Hex as (q & Hq & <-). rewrite (unpublished q Hq); [done|]. destruct (published_change seq q) as [c|] eqn:E; [exfalso|done].
      apply Hn, list_elem_of_omap. exists q. split; [done|]. rewrite E. cbn. by rewrite (published_id q c E).
    + destruct (unplanned _ _ _ _ _ _ _ Hc id) as (_ & -> & _); [|done]. intros q Hq E. apply Hno, Exists_exists. by exists q.
Qed.
End Commit.

(** ** Steps *)

Definition is_changed (c : DocumentCommitChange) : Prop := match c with DocumentChanged _ _ _ _ _ => True | _ => False end.

(** What a step publishes brings every replica up to date. *)
Definition keeps_replicas (kind : DocumentCommitChange -> Prop) (s s' : SessionState) : Prop :=
  exists changes, ss_published s' = ss_published s ++ changes /\ Forall kind changes /\
    forall replica, agrees replica (ss_storage s) -> agrees (foldl (follow (ss_storage s')) replica changes) (ss_storage s').

(** Publications of changes do not need the storage. *)
Lemma follow_changed m m' changes : Forall is_changed changes -> forall replica, foldl (follow m) replica changes = foldl (follow m') replica changes.
Proof.
  induction 1 as [|c changes Hc _ IH]; intros replica; [done|]. cbn [foldl]. rewrite IH. f_equal. unfold follow. by destruct c.
Qed.

Lemma keeps_trans kind s1 s2 s3 : keeps_replicas is_changed s1 s2 -> keeps_replicas kind s2 s3 -> (forall c, is_changed c -> kind c) -> keeps_replicas kind s1 s3.
Proof.
  intros (l1 & E1 & F1 & A1) (l2 & E2 & F2 & A2) Hk. exists (l1 ++ l2). split; [by rewrite E2, E1, app_assoc|]. split.
  - apply Forall_app. split; [|done]. by eapply Forall_impl.
  - intros replica Ha. rewrite foldl_app. apply A2. rewrite (follow_changed _ (ss_storage s2) l1 F1). by apply A1.
Qed.

Lemma keeps_same kind s s' : ss_published s' = ss_published s -> (forall id, content (ss_storage s') id = content (ss_storage s) id) -> keeps_replicas kind s s'.
Proof.
  intros E Hc. exists []. split; [by rewrite E, app_nil_r|]. split; [constructor|]. intros replica Ha id. cbn. rewrite Ha. unfold stored_at. by rewrite Hc.
Qed.

Lemma keeps_batch kind s s' changes : ss_published s' = ss_published s ++ changes -> Forall kind changes ->
  publishes_batch (ss_storage s) (ss_storage s') changes -> keeps_replicas kind s s'.
Proof. intros E Hk Hp. exists changes. split; [done|]. split; [done|]. intros replica. by apply publishes_agree. Qed.

Lemma holds_keep s select s' : session_ok s -> storeHolds s select = Ok s' -> keeps_replicas is_changed s s'.
Proof.
  intros Hs H. destruct (storeHolds_stored s select s' Hs H) as [[-> _]|(K & Ht)]; [by apply keeps_same|].
  eapply keeps_batch; [apply (ht_published _ _ _ _ Ht)| |by eapply stored_publishes]. apply Forall_forall.
  by intros c (k & -> & _)%list_elem_of_fmap.
Qed.

Lemma cold_keeps s definition id address s' d : coldLoad s definition id address = Ok (s', d) -> ss_storage s' = ss_storage s /\ ss_published s' = ss_published s.
Proof.
  unfold coldLoad. intros H. destruct (of_storage (findDocument _ _ _)) as [[record|]|]; [| |done]; cbn [mbind res_bind] in H; [|by injection H as <- _].
  destruct (of_storage (document _ _ _)) as [read|]; [|done]. cbn [mbind res_bind] in H. destruct (res_of _ read) as [stored|]; [|done]. cbn [mbind res_bind] in H.
  destruct (materializeDocumentValue _ _ _ _); [|done]. cbn [mbind res_bind] in H. by injection H as <- _.
Qed.

Lemma quiet_keeps s s' : session_ok s -> quiet_step s s' -> keeps_replicas is_changed s s'.
Proof.
  intros Hs Hq. destruct Hq as [s s' id Hm|s definition address s' d _ H].
  - apply mint_spec in Hm as (Em & _ & Es). apply keeps_same; [by rewrite Es|]. intros i. by rewrite Em.
  - unfold loadDocument in H.
    assert (Hcold : forall s2, coldLoad s2 definition (addressId address) address = Ok (s', d) -> keeps_replicas is_changed s2 s').
    { intros s2 [E1 E2]%cold_keeps. apply keeps_same; [done|]. by rewrite E1. }
    destruct (ss_documents s !! _) as [cached|]; [|by apply Hcold]. destruct (_ =? _)%N; [injection H as <- _; by apply keeps_same|].
    destruct (storeHolds s _) as [s2|] eqn:E2; [|done]. cbn [mbind res_bind] in H.
    eapply keeps_trans; [exact (holds_keep _ _ _ Hs E2)| |done]. destruct (cold_keeps _ _ _ _ _ _ H) as [E3 E4]. by apply keeps_same; rewrite ?E3, ?E4.
Qed.

Lemma quiet_ok s s' : session_ok s -> quiet_step s s' -> session_ok s'.
Proof. intros Hs H. eapply session_step_ok; [|exact Hs]. destruct H; [by eapply session_mint|by eapply session_load]. Qed.

Lemma quiet_run_keeps s s' : session_ok s -> quiet s s' -> keeps_replicas is_changed s s'.
Proof.
  intros Hs H. induction H as [s|s1 s2 s3 H _ IH]; [by apply keeps_same|].
  eapply keeps_trans; [by apply quiet_keeps| |done]. apply IH. by eapply quiet_ok.
Qed.

Lemma keeps_any s s' : keeps_replicas is_changed s s' -> keeps_replicas (fun _ => True) s s'.
Proof. intros (l & E & F & A). exists l. split; [done|]. split; [by eapply Forall_impl|done]. Qed.

Lemma settle_keeps s tx deferred s' : session_ok s -> tx_ok s tx -> settle_commit s tx deferred = Ok s' -> keeps_replicas (fun _ => True) s s'.
Proof.
  intros Hs Htx H. unfold settle_commit in H. destruct (assemble s tx) as [[plans writes]|] eqn:Ea; [|done]. cbn [mbind res_bind] in H.
  pose proof (assemble_ok s tx plans writes Hs Htx Ea) as Has.
  assert (Hstored : store_commit s tx plans writes = Ok s' -> keeps_replicas (fun _ => True) s s').
  { intros Hst. destruct (store_commit_ok s tx plans writes s' Hs Htx Has Hst) as (qs & submissions & W & Hc).
    eapply keeps_batch; [apply (sc_published _ _ _ _ _ _ _ Hc)|by apply Forall_true|by eapply commit_publishes]. }
  destruct writes as [|w ws]; [injection H as <-; by apply keeps_same|]. destruct deferred; [|by apply Hstored].
  destruct (holdable plans (w :: ws)) as [held|]; [|by apply Hstored]. injection H as <-. by apply keeps_same.
Qed.

Lemma step_keeps s s' : session_ok s -> session_step s s' -> keeps_replicas (fun _ => True) s s'.
Proof.
  intros Hs H. destruct H as [s conversationId taskId carrier s1 tx deferred s2 Hcb H|s conversationId taskId carrier s1 tx Hcb|s s' id H|s definition address s' d Hd H|s select s' H|s id Hn].
  - destruct (callback_ok _ _ _ _ Hs (new_transaction_ok s conversationId taskId carrier) Hcb) as (Hs1 & Htx & _).
    eapply keeps_trans; [|by eapply settle_keeps|done]. apply (quiet_run_keeps _ _ Hs). by eapply callback_quiet.
  - apply keeps_any, (quiet_run_keeps _ _ Hs). by eapply callback_quiet.
  - apply keeps_any, (quiet_keeps _ _ Hs). by eapply quiet_mint.
  - apply keeps_any, (quiet_keeps _ _ Hs). by eapply quiet_load.
  - apply keeps_any. by eapply holds_keep.
  - by apply keeps_same.
Qed.

Lemma observed_run s0 r0 s r : session_ok s0 -> agrees r0 (ss_storage s0) -> rtc observed_step (s0, r0) (s, r) -> agrees r (ss_storage s).
Proof.
  intros Hs Ha H. remember (s0, r0) as x eqn:Ex. remember (s, r) as y eqn:Ey. revert s0 r0 Hs Ha Ex Ey.
  induction H as [x|x [s1 r1] y [Hst (changes & Ep & Er)] _ IH]; intros s0 r0 Hs Ha -> Ey; [congruence|]. cbn in *.
  destruct (step_keeps _ _ Hs Hst) as (changes' & Ep' & _ & Hk). rewrite Ep' in Ep. apply app_inv_head in Ep as ->.
  apply (IH s1 r1); [by eapply session_step_ok| |done..]. rewrite Er. by apply Hk.
Qed.

Lemma run_observed s0 r0 s : session_ok s0 -> session_run s0 s -> exists r, rtc observed_step (s0, r0) (s, r).
Proof.
  intros Hs H. revert r0. induction H as [s|s1 s2 s3 H _ IH]; intros r0; [by exists r0|].
  destruct (step_keeps _ _ Hs H) as (changes & Ep & _ & _). destruct (IH (session_step_ok _ _ H Hs) (foldl (follow (ss_storage s2)) r0 changes)) as (r & Hr).
  exists r. eapply rtc_l; [|exact Hr]. split; [done|]. by exists changes.
Qed.
