(* ===== verification/SessionKeys.v ===== *)
(** The keys of a Session's line (durable/src/session/keys.ts): what a commit writes and a
    read touches; the reads of [GatedStorage]. A commit that has none of a read's keys does
    not change what the read answers. *)
From S2P Require Import Prelude JsString Json DeltaOp StorageTypes SortedIds MemoryCommit DocumentFacts TableFacts MemoryFacts MemoryRead ReadFacts VisibleFacts MemoryHistory SessionTypes SessionCommit.

(** ** Keys *)

Definition taskKey (id : N) : string := "task:" +:+ int_to_string id.
Definition conversationKey (id : N) : string := "conv:" +:+ int_to_string id.
Definition entryKey (id : N) : string := "entry:" +:+ int_to_string id.
Definition appendKey (id : N) : string := "entry-append:" +:+ int_to_string id.
Definition submissionKey (id : N) : string := "sub:" +:+ int_to_string id.
Definition requestKey (conversationId : N) (requestId : string) : string :=
  "req:" +:+ int_to_string conversationId +:+ ":" +:+ requestId.
Definition documentKey (address : string) : string := "doc:" +:+ address.
Definition incarnationKey (id : N) : string := "docid:" +:+ int_to_string id.

Definition scopeKey (scope : Scope) : string :=
  match scope with
  | ScopeSession => "docscope:session"
  | ScopeConversation id => "docscope:c" +:+ int_to_string id
  | ScopeTask id => "docscope:t" +:+ int_to_string id
  end.

(** Every unpublished write. *)
Definition ALL_KEYS : string := "*".

(** The keys of one record. *)
Definition write_keys (w : StorageWrite) : list string :=
  match w with
  | WConversation v => [conversationKey (c_id v)]
  | WEntry v => [entryKey (e_id v); appendKey (e_conversationId v)]
  | WTask v => [taskKey (t_id v)]
  | WSubmission v =>
      submissionKey (s_id v) ::
      match s_requestId v with Some request => [requestKey (s_conversationId v) request] | None => [] end
  | _ => []
  end.

Definition tableKeys (writes : list StorageWrite) (keys : list string) : list string :=
  keys ++ concat (write_keys <$> writes).

(** [Transaction.writeKeys]. *)
Definition plan_keys (p : DocumentPlan) : list string :=
  if plan_writes p then
    [documentKey (dp_addressId p); incarnationKey (plan_id p)] ++
    match dp_record p with
    | inl _ => [scopeKey (dc_scope (plan_create p))]
    | inr _ => if dp_retire p then [scopeKey (dc_scope (plan_create p))] else []
    end
  else [].

Definition writeKeys (plans : list DocumentPlan) (writes : list StorageWrite) : list string :=
  tableKeys writes [] ++ concat (plan_keys <$> plans).

(** ** Reads *)

(** The reads of a [Storage]. *)
Inductive Read : Type :=
| GConversation (id : N)
| GScanConversations (query : ConversationQuery) (limit : nat) (cursor : option Cursor)
| GEntry (id : N)
| GEntryVisible (conversationId id : N)
| GFindLatestHeadMarker (conversationId : N) (atOrBefore : option N)
| GScanEntries (query : EntryQuery) (limit : nat) (cursor : option Cursor)
| GTask (id : N)
| GScanTasks (query : TaskQuery) (limit : nat) (cursor : option Cursor)
| GSubmission (id : N)
| GScanSubmissions (query : SubmissionQuery) (limit : nat) (cursor : option Cursor)
| GSubmissionByRequest (conversationId : N) (requestId : string)
| GFindDocument (address : DocumentAddress) (at_ : DocumentPoint)
| GDocument (id : N) (at_ : DocumentPoint)
| GScanDocuments (query : DocumentQuery) (limit : nat) (cursor : option Cursor).

(** The keys that [GatedStorage] touches before it reads, in order. *)
Definition touches (r : Read) : list string :=
  match r with
  | GConversation id => [conversationKey id]
  | GScanConversations _ _ _ | GScanTasks _ _ _ | GScanSubmissions _ _ _ => [ALL_KEYS]
  | GEntry id => [entryKey id]
  | GEntryVisible c id => [conversationKey c; entryKey id]
  | GFindLatestHeadMarker c _ => [conversationKey c; appendKey c]
  | GScanEntries query _ _ => [conversationKey (eq_conversationId query); appendKey (eq_conversationId query)]
  | GTask id => [taskKey id]
  | GSubmission id => [submissionKey id]
  | GSubmissionByRequest c request => [requestKey c request]
  | GFindDocument address _ => [documentKey (addressId address)]
  | GDocument id _ => [incarnationKey id]
  | GScanDocuments query _ _ => [scopeKey (dq_scope query)]
  end.

(** What a read returns. *)
Inductive Reading : Type :=
| RConversation (r : sres (option ConversationRecord))
| RConversations (r : sres (Page ConversationRecord))
| REntry (r : sres (option (EntryRecord * N)))
| RMarker (r : sres (option EntryRecord))
| REntries (r : sres (Page EntryRecord))
| RTask (r : sres (option TaskRecord))
| RTasks (r : sres (Page TaskRecord))
| RSubmission (r : sres (option SubmissionRecord))
| RSubmissions (r : sres (Page SubmissionRecord))
| RDocumentRecord (r : sres (option DocumentRecord))
| RDocument (r : sres (option StoredDocument))
| RDocuments (r : sres (Page DocumentRecord)).

Definition reading (r : Read) (m : MemoryStorage) : Reading :=
  match r with
  | GConversation id => RConversation (conversation m id)
  | GScanConversations query limit cursor => RConversations (scanConversations m query limit cursor)
  | GEntry id => REntry (entry m id)
  | GEntryVisible c id => REntry (ran (entry_visible (chain_fuel c) m c id))
  | GFindLatestHeadMarker c at_ => RMarker (ran (findLatestHeadMarker (chain_fuel c) m c at_))
  | GScanEntries query limit cursor =>
      REntries (ran (scanEntries (chain_fuel (eq_conversationId query)) m query limit cursor))
  | GTask id => RTask (task m id)
  | GScanTasks query limit cursor => RTasks (scanTasks m query limit cursor)
  | GSubmission id => RSubmission (submission m id)
  | GScanSubmissions query limit cursor => RSubmissions (scanSubmissions m query limit cursor)
  | GSubmissionByRequest c request => RSubmission (submissionByRequest m c request)
  | GFindDocument address at_ => RDocumentRecord (findDocument m address at_)
  | GDocument id at_ => RDocument (document m id at_)
  | GScanDocuments query limit cursor => RDocuments (scanDocuments m query limit cursor)
  end.

(** ** What a batch does to other records *)

(** The keys of a batch's records and documents. *)
Definition batch_keys (writes : list StorageWrite) : list string :=
  tableKeys writes [] ++ (incarnationKey <$> omap changed_document writes).

Lemma batch_key w writes key : w ∈ writes -> key ∈ write_keys w -> key ∈ batch_keys writes.
Proof.
  intros Hw Hk. unfold batch_keys, tableKeys. apply elem_of_app. left. cbn.
  apply list_elem_of_In, in_concat. exists (write_keys w). split; apply list_elem_of_In; [|done].
  apply list_elem_of_fmap. by exists w.
Qed.

Lemma changed_key w writes id : w ∈ writes -> changed_document w = Some id -> incarnationKey id ∈ batch_keys writes.
Proof.
  intros Hw Hc. apply elem_of_app. right. apply list_elem_of_fmap. exists id. split; [done|].
  apply list_elem_of_omap. by exists w.
Qed.

(** A prepared write is one of the batch, detached: it has its keys and its document. *)
Definition like (w w' : StorageWrite) : Prop :=
  write_keys w' = write_keys w /\ changed_document w' = changed_document w /\
  (forall e, w' = WEntry e -> exists e', w = WEntry e' /\ e_id e' = e_id e).

Lemma clone_like w : like w (clone w).
Proof. unfold like. destruct w; cbn; split_and!; try done. intros e [= <-]. by eexists. Qed.

Lemma resolve_like t changed writes : forall l w',
  res_mapM (fun w =>
    match w with
    | WDocumentCopy record source =>
        match resolve_copy t changed record source with
        | Ok w' => Ok w'
        | Throw e => Throw (CopyRejected (dc_id record) e)
        end
    | _ => Ok w
    end) (clone writes) = Ok l -> w' ∈ l -> exists w, w ∈ writes /\ like w w'.
Proof.
  unfold clone, Clone_list. induction writes as [|w writes IH]; intros l w' Hl Hw'; cbn [fmap list_fmap res_mapM] in Hl.
  { injection Hl as <-. by apply elem_of_nil in Hw'. }
  inv_res. apply elem_of_cons in Hw' as [->|Hw'].
  - exists w. split; [left|]. destruct w; cbn in Hv; try (injection Hv as <-; apply clone_like).
    destruct (resolve_copy _ _ _ _) as [x|] eqn:Hr; [|done]. injection Hv as <-. unfold resolve_copy in Hr. inv_res. done.
  - destruct (IH _ _ Hv0 Hw') as (w1 & ? & ?). exists w1. split; [by right|done].
Qed.

Lemma prepared_like m writes seq p w' :
  prepareCommit m writes seq = Ok p -> w' ∈ p_writes p -> exists w, w ∈ writes /\ like w w'.
Proof. unfold prepareCommit. intros H Hw'. inv_res. by eapply resolve_like. Qed.

Section Untouched.
Context (m : MemoryStorage) (writes : list StorageWrite) (p : PreparedMemoryCommit) (m' : MemoryStorage).
Context (Hi : storage_inv m) (Hp : prepareCommit m writes None = Ok p) (Ha : applyPreparedCommit m p = Some m').

Lemma untouched_committed : committed m p m'.
Proof. destruct (prepared_applies m writes None p Hi Hp) as (m1 & Hm & _ & Hc). rewrite Ha in Hm. by injection Hm as <-. Qed.

Lemma not_written {R} (id_of : R -> N) (pick : StorageWrite -> option R) (key : N -> string) id :
  (forall w v, pick w = Some v -> key (id_of v) ∈ write_keys w) -> key id ∉ batch_keys writes ->
  written id_of pick id (p_writes p) = None.
Proof.
  intros Hk Hn. unfold written. rewrite filter_none; [done|]. intros v (w' & Hw' & Hv)%list_elem_of_omap <-.
  destruct (prepared_like _ _ _ _ _ Hp Hw') as (w & Hw & Hl & _). apply Hn. eapply batch_key; [exact Hw|]. rewrite <- Hl. by apply Hk.
Qed.

Lemma untouched_conversation id : conversationKey id ∉ batch_keys writes ->
  conversations_of (state m') !! id = conversations_of (state m) !! id.
Proof.
  intros Hn. destruct (committed_records m p m' id untouched_committed) as (-> & _).
  erewrite (not_written c_id pick_conversation conversationKey); [done| |done].
  intros [] v; cbn; try done. intros [= <-]. left.
Qed.

Lemma untouched_entry id : entryKey id ∉ batch_keys writes ->
  entries_of (state m') !! id = entries_of (state m) !! id.
Proof.
  intros Hn. destruct (committed_records m p m' id untouched_committed) as (_ & -> & _).
  erewrite (not_written e_id pick_entry entryKey); [done| |done].
  intros [] v; cbn; try done. intros [= <-]. left.
Qed.

Lemma untouched_task id : taskKey id ∉ batch_keys writes -> tasks_of (state m') !! id = tasks_of (state m) !! id.
Proof.
  intros Hn. destruct (committed_records m p m' id untouched_committed) as (_ & _ & -> & _).
  erewrite (not_written t_id pick_task taskKey); [done| |done].
  intros [] v; cbn; try done. intros [= <-]. left.
Qed.

Lemma untouched_submission id : submissionKey id ∉ batch_keys writes ->
  submissions_of (state m') !! id = submissions_of (state m) !! id.
Proof.
  intros Hn. destruct (committed_records m p m' id untouched_committed) as (_ & _ & _ & ->).
  erewrite (not_written s_id pick_submission submissionKey); [done| |done].
  intros [] v; cbn; try done. intros [= <-]. left.
Qed.

Lemma untouched_ids c : appendKey c ∉ batch_keys writes -> own_ids (state m') c = own_ids (state m) c.
Proof.
  intros Hn. destruct (prepared_applies m writes None p Hi Hp) as (m1 & Hm & Hi' & _). rewrite Ha in Hm. injection Hm as <-.
  pose proof (en_ids _ _ (si_entries _ _ _ _ Hi) c) as H1. pose proof (en_ids _ _ (si_entries _ _ _ _ Hi') c) as H2.
  eapply indexes_unique; [exact H2|]. destruct H1 as [Hs H1]. split; [exact Hs|]. intros id. rewrite H1.
  destruct (committed_records m p m' id untouched_committed) as (_ & He & _). unfold entries_of in He. rewrite He.
  destruct (written e_id pick_entry id (p_writes p)) as [e|] eqn:Hw; cbn; [|done].
  unfold written in Hw. apply last_Some_elem_of, list_elem_of_filter in Hw as [Hid (w' & Hw' & Hv)%list_elem_of_omap].
  assert (Hc : e_conversationId e <> c).
  { intros <-. destruct (prepared_like _ _ _ _ _ Hp Hw') as (w & Hin & Hl & _). apply Hn. eapply batch_key; [exact Hin|].
    rewrite <- Hl. destruct w'; try done. injection Hv as ->. right. left. }
  split; [|by intros (e0 & [= <-] & ?)]. intros (e0 & He0 & _). exfalso.
  assert (Hn' : written e_id pick_entry id (p_writes p) = None).
  { eapply (written_once e_id pick_entry (recordTypes (state m)) _ TEntry); [by intros [] v; cbn; try done; intros [= <-]|done|apply untouched_committed|].
    exists TEntry. apply (si_types _ _ _ _ Hi). by exists e0. }
  unfold written in Hn'. rewrite last_None in Hn'.
  assert (Hin : e ∈ filter (fun v => e_id v = id) (omap pick_entry (p_writes p))).
  { apply list_elem_of_filter. split; [done|]. apply list_elem_of_omap. by exists w'. }
  rewrite Hn' in Hin. by apply elem_of_nil in Hin.
Qed.

Lemma fold_seqs seq ws id : (forall e, WEntry e ∈ ws -> e_id e <> id) -> forall st next,
  entryCommitSeqs (entry_tables (foldl (apply_write seq) (st, next) ws).1) !! id = entryCommitSeqs (entry_tables st) !! id.
Proof.
  induction ws as [|w ws IH]; intros Hn st next; [done|]. cbn [foldl].
  destruct (apply_write seq (st, next) w) as [st1 next1] eqn:E. rewrite IH by (intros e He; apply Hn; by right).
  destruct w; cbn in E; injection E as <- _; try done. cbn. apply lookup_insert_ne. apply Hn. left.
Qed.

Lemma untouched_seq id : entryKey id ∉ batch_keys writes ->
  entryCommitSeqs (entry_tables (state m')) !! id = entryCommitSeqs (entry_tables (state m)) !! id.
Proof.
  intros Hn. destruct (co_tables _ _ _ untouched_committed) as (st & next & Hf & _ & -> & _).
  pose proof (fold_seqs (p_seq p) (p_writes p) id) as H. specialize (H ltac:(intros e He <-;
    destruct (prepared_like _ _ _ _ _ Hp He) as (w & Hw & Hl & _); apply Hn; eapply batch_key; [exact Hw|]; rewrite <- Hl; left)
    (state m) (nextId m)). by rewrite Hf in H.
Qed.

Lemma untouched_document id : incarnationKey id ∉ batch_keys writes ->
  documents (document_tables (state m')) !! id = documents (document_tables (state m)) !! id.
Proof.
  intros Hn. rewrite (co_documents _ _ _ untouched_committed).
  destruct (action_get id (p_actions p)) as [a|] eqn:Hg; [|done]. exfalso.
  assert (Hact : prepareDocumentActions (p_writes p) = Ok (p_actions p)) by (unfold prepareCommit in Hp; by inv_res).
  assert (Hin : exists w', w' ∈ p_writes p /\ changed_document w' = Some id).
  { clear -Hact Hg. unfold prepareDocumentActions in Hact. revert Hact Hg.
    assert (Hgen : forall ws acts acts', res_foldl prepare_action acts ws = Ok acts' -> is_Some (action_get id acts') ->
      is_Some (action_get id acts) \/ exists w', w' ∈ ws /\ changed_document w' = Some id).
    { induction ws as [|w ws IH]; intros acts acts' H Hs; cbn in H; [injection H as <-; by left|]. inv_res.
      destruct (IH _ _ H Hs) as [Hs'|(w' & ? & ?)]; [|right; exists w'; split; [by right|done]].
      destruct w; cbn in Hv; try (injection Hv as <-; by left); inv_res; rewrite action_get_set in Hs'; case_decide; subst;
        first [by left|right; eexists; split; [left|done]]. }
    intros H Hg. by destruct (Hgen _ _ _ H ltac:(by eexists)) as [[x Hx]|?]. }
  destruct Hin as (w' & Hw' & Hc). destruct (prepared_like _ _ _ _ _ Hp Hw') as (w & Hw & _ & Hl & _).
  apply Hn. eapply changed_key; [exact Hw|]. by rewrite <- Hl.
Qed.
End Untouched.

(** ** Storages that agree on keys *)

(** The storages have the same records and documents for the keys in [K]. *)
Record same_for (K : string -> Prop) (m m' : MemoryStorage) : Prop := {
  sf_closed : closed m' = closed m;
  sf_conversation : forall id, K (conversationKey id) -> conversations_of (state m') !! id = conversations_of (state m) !! id;
  sf_entry : forall id, K (entryKey id) -> entries_of (state m') !! id = entries_of (state m) !! id;
  sf_seq : forall id, K (entryKey id) ->
    entryCommitSeqs (entry_tables (state m')) !! id = entryCommitSeqs (entry_tables (state m)) !! id;
  sf_ids : forall c, K (appendKey c) -> own_ids (state m') c = own_ids (state m) c;
  sf_task : forall id, K (taskKey id) -> tasks_of (state m') !! id = tasks_of (state m) !! id;
  sf_submission : forall id, K (submissionKey id) -> submissions_of (state m') !! id = submissions_of (state m) !! id;
  sf_document : forall id, K (incarnationKey id) ->
    documents (document_tables (state m')) !! id = documents (document_tables (state m)) !! id;
}.

Lemma same_for_state K m m' : state m' = state m -> closed m' = closed m -> same_for K m m'.
Proof. intros Hs Hc. split; try intros id _; by rewrite ?Hs. Qed.

Lemma same_for_trans K m1 m2 m3 : same_for K m1 m2 -> same_for K m2 m3 -> same_for K m1 m3.
Proof.
  intros [] []. split; [congruence|..]; intros id Hk.
  - rewrite sf_conversation1, sf_conversation0; done.
  - rewrite sf_entry1, sf_entry0; done.
  - rewrite sf_seq1, sf_seq0; done.
  - rewrite sf_ids1, sf_ids0; done.
  - rewrite sf_task1, sf_task0; done.
  - rewrite sf_submission1, sf_submission0; done.
  - rewrite sf_document1, sf_document0; done.
Qed.

(** A batch without the keys. *)
Lemma batch_same (K : string -> Prop) m writes p m' :
  storage_inv m -> prepareCommit m writes None = Ok p -> applyPreparedCommit m p = Some m' ->
  (forall key, K key -> key ∉ batch_keys writes) -> same_for K m m'.
Proof.
  intros Hi Hp Ha HK. pose proof (untouched_committed m writes p m' Hi Hp Ha) as Hc. split; [apply Hc|..]; intros id Hk%HK.
  - by eapply untouched_conversation.
  - by eapply untouched_entry.
  - by eapply untouched_seq.
  - by eapply untouched_ids.
  - by eapply untouched_task.
  - by eapply untouched_submission.
  - by eapply untouched_document.
Qed.

(** ** Visible entries *)

(** Entries that only [m'] has are newer than where the forks of [m] are. *)
Definition appends_after (m m' : MemoryStorage) : Prop :=
  forall c q id, parent_of (state m) c = Some q -> is_Some (entries_of (state m') !! id) ->
    entries_of (state m) !! id = None -> (pl_at q < id)%N.

(** The chains of forks are as a Session leaves them. *)
Definition chains_ok (m : MemoryStorage) : Prop := ancestry_ok (state m) /\ forks_ok (state m).

Section Visible.
Context (m m' : MemoryStorage) (Hi : storage_inv m) (Hl : later m m') (Hm : chains_ok m) (Hm' : chains_ok m').

Let Hi' : storage_inv m' := later_inv m m' Hl Hi.

Lemma parent_kept c : is_Some (conversations_of (state m) !! c) -> parent_of (state m') c = parent_of (state m) c.
Proof.
  intros [r Hr]. unfold parent_of. destruct (later_records m m' c Hi Hl) as [Hc _]. unfold conversations_of in *. by rewrite Hr, (Hc r Hr).
Qed.

Lemma own_iff st c id : storage_inv st ->
  id ∈ own_ids (state st) c <-> exists e, entries_of (state st) !! id = Some e /\ e_conversationId e = c.
Proof. intros H. apply (en_ids _ _ (si_entries _ _ _ _ H) c). Qed.

(** An entry both have, or neither, is visible in both or in neither. *)
Lemma visible_kept c id :
  is_Some (conversations_of (state m) !! c) -> entries_of (state m') !! id = entries_of (state m) !! id ->
  visible (state m') c id <-> visible (state m) c id.
Proof.
  intros Hc He. split; intros Hv; revert Hc He.
  - induction Hv as [c id Hin|c q id Hq Hv IH Hle]; intros Hc He.
    + apply visible_own, (own_iff m); [done|]. rewrite <- He. by apply own_iff.
    + rewrite parent_kept in Hq by done. eapply visible_fork; [exact Hq| |done]. apply IH; [|done].
      unfold parent_of in Hq. destruct Hc as [r Hr]. unfold conversations_of in Hr. rewrite Hr in Hq. cbn in Hq. by apply (proj1 Hm c r q).
  - induction Hv as [c id Hin|c q id Hq Hv IH Hle]; intros Hc He.
    + apply visible_own, (own_iff m'); [done|]. rewrite He. by apply own_iff.
    + eapply visible_fork; [by rewrite parent_kept| |done]. apply IH; [|done].
      unfold parent_of in Hq. destruct Hc as [r Hr]. unfold conversations_of in Hr. rewrite Hr in Hq. cbn in Hq. by apply (proj1 Hm c r q).
Qed.

(** What is visible from a conversation that nothing is appended to. *)
Lemma visible_steady c id :
  is_Some (conversations_of (state m) !! c) -> own_ids (state m') c = own_ids (state m) c -> appends_after m m' ->
  visible (state m') c id <-> visible (state m) c id.
Proof.
  intros Hc Ho Happ. rewrite !visible_iff, Ho, parent_kept by done.
  assert (Hp : forall q, parent_of (state m) c = Some q -> (id <= pl_at q)%N ->
    visible (state m') (pl_conversationId q) id <-> visible (state m) (pl_conversationId q) id).
  { intros q Hq Hle. apply visible_kept.
    - destruct Hc as [r Hr]. unfold parent_of in Hq. unfold conversations_of in Hr. rewrite Hr in Hq. cbn in Hq. by apply (proj1 Hm c r q).
    - destruct (entries_of (state m) !! id) as [e|] eqn:E; [by apply (later_records m m' id)|].
      destruct (entries_of (state m') !! id) as [e|] eqn:E'; [|done].
      assert (pl_at q < id)%N by (eapply Happ; [exact Hq|by eexists|done]). lia. }
  split; (intros [H|(q & Hq & Hv & Hle)]; [by left|right; exists q; split_and!; [done| |done]]); by apply (Hp q).
Qed.

Lemma visible_ids_same c lower upper :
  is_Some (conversations_of (state m) !! c) ->
  (forall id, in_range lower upper id = true -> visible (state m') c id <-> visible (state m) c id) ->
  visible_ids (chain_fuel c) (state m') c lower upper = visible_ids (chain_fuel c) (state m) c lower upper.
Proof.
  intros Hc Hv. destruct Hc as [r Hr]. destruct (later_records m m' c Hi Hl) as [Hc' _]. pose proof (Hc' r Hr) as Hr'.
  destruct (visible_ids_spec (state m) (chain_fuel c) c lower upper) as (ids & -> & Hin & Hs);
    [by apply storage_entries_sorted|apply Hm|by eexists|unfold chain_fuel; lia|].
  destruct (visible_ids_spec (state m') (chain_fuel c) c lower upper) as (ids' & -> & Hin' & Hs');
    [by apply storage_entries_sorted|apply Hm'|by eexists|unfold chain_fuel; lia|].
  do 2 f_equal. rewrite <- (rev_involutive ids'), <- (rev_involutive ids). f_equal.
  eapply (indexes_unique _ _ (fun id => visible (state m) c id /\ in_range lower upper id = true)).
  - split; [by apply Hs', Hm'|]. intros id. rewrite list_elem_of_In, <- in_rev, <- list_elem_of_In, Hin'. split; intros [? ?]; (split; [by apply Hv|done]).
  - split; [by apply Hs, Hm|]. intros id. by rewrite list_elem_of_In, <- in_rev, <- list_elem_of_In, Hin.
Qed.
End Visible.

(** ** Reads of storages that agree *)

(** Reads do not depend on the counters. *)
Lemma reading_state r m m' : state m' = state m -> closed m' = closed m -> reading r m' = reading r m.
Proof.
  intros Hs Hc. assert (Ho : assertOpen m' = assertOpen m) by (unfold assertOpen; by rewrite Hc).
  destruct r; cbn [reading]; f_equal;
    unfold conversation, scanConversations, entry, entry_visible, findLatestHeadMarker, scanEntries, task, scanTasks,
      submission, scanSubmissions, submissionByRequest, findDocument, document, scanDocuments; by rewrite Hs, Ho.
Qed.

Section Reads.
Context (K : string -> Prop) (m m' : MemoryStorage) (Hi : storage_inv m) (Hl : later m m').
Context (Hm : chains_ok m) (Hm' : chains_ok m') (Hsame : same_for K m m').

Let Hi' : storage_inv m' := later_inv m m' Hl Hi.

Lemma same_open : assertOpen m' = assertOpen m.
Proof. unfold assertOpen. by rewrite (sf_closed _ _ _ Hsame). Qed.

(** What is visible in [m] is stored in both. *)
Lemma visible_record c id : visible (state m) c id -> entries_of (state m') !! id = entries_of (state m) !! id /\ is_Some (entries_of (state m) !! id).
Proof.
  intros Hv. assert (Hs : is_Some (entries_of (state m) !! id)).
  { induction Hv as [c id Hin|]; [|done]. apply (own_iff m c id Hi) in Hin as (e & He & _). by exists e. }
  split; [|done]. destruct Hs as [e He]. rewrite He. by apply (later_records m m' id).
Qed.

Lemma conversation_kept c : K (conversationKey c) ->
  conversations (conversation_tables (state m')) !! c = conversations (conversation_tables (state m)) !! c.
Proof. intros HK. exact (sf_conversation _ _ _ Hsame c HK). Qed.

Lemma visibleEntries_same c lower upper :
  K (conversationKey c) ->
  (forall id, in_range lower upper id = true -> is_Some (conversations_of (state m) !! c) ->
    visible (state m') c id <-> visible (state m) c id) ->
  visibleEntries (chain_fuel c) (state m') c lower upper = visibleEntries (chain_fuel c) (state m) c lower upper.
Proof.
  intros HK Hv. unfold visibleEntries. rewrite conversation_kept by done.
  destruct (conversations (conversation_tables (state m)) !! c) as [r|] eqn:Hr; [|done].
  apply visible_ids_same; [exact Hi|exact Hl|exact Hm|exact Hm'|by exists r|]. intros id Hid. apply Hv; [done|by exists r].
Qed.

Lemma entry_records_same ids :
  (forall id, id ∈ ids -> exists c, visible (state m) c id) ->
  entry_records (entry_tables (state m')) ids = entry_records (entry_tables (state m)) ids.
Proof.
  intros Hids. unfold entry_records. induction ids as [|id ids IH]; [done|]. cbn [res_mapM].
  destruct (Hids id) as [c Hc]; [left|]. destruct (visible_record c id Hc) as [He _]. unfold entries_of in He. rewrite He.
  rewrite IH; [done|]. intros i Hin. apply Hids. by right.
Qed.

Lemma visible_ids_elem c lower upper ids :
  is_Some (conversations_of (state m) !! c) ->
  visible_ids (chain_fuel c) (state m) c lower upper = Some (Ok ids) -> forall id, id ∈ ids -> visible (state m) c id.
Proof.
  intros Hc H id Hid. destruct (visible_ids_spec (state m) (chain_fuel c) c lower upper) as (ids' & E & Hin & _);
    [by apply storage_entries_sorted|apply Hm|done|unfold chain_fuel; lia|].
  rewrite H in E. injection E as <-. by apply Hin.
Qed.

Lemma entry_visible_same c id : K (conversationKey c) -> K (entryKey id) ->
  entry_visible (chain_fuel c) m' c id = entry_visible (chain_fuel c) m c id.
Proof.
  intros Hc Hid. unfold entry_visible. rewrite same_open. destruct (assertOpen m) as [[]|e]; [|done].
  rewrite visibleEntries_same; [|done|].
  2: { intros i Hr Hs. apply visible_kept; try done. assert (i = id) as ->; [|by apply Hsame].
       unfold in_range in Hr. cbn in Hr. apply andb_true_iff in Hr as [H1 H2].
       apply negb_true_iff, Z.ltb_ge in H1. apply Z.leb_le in H2. lia. }
  pose proof (sf_seq _ _ _ Hsame id Hid) as Hseq. unfold visibleEntries.
  destruct (conversations (conversation_tables (state m)) !! c) as [r|] eqn:Hr; [|done].
  destruct (visible_ids _ _ c _ _) as [[ids|e]|] eqn:Hv; cbn; [|done..].
  destruct ids as [|i ids]; [done|]. rewrite Hseq.
  assert (Hi0 : visible (state m) c i) by (eapply visible_ids_elem; [by exists r|exact Hv|left]).
  destruct (visible_record c i Hi0) as [He _]. unfold entries_of in He. by rewrite He.
Qed.

Lemma visible_steady_all c id : K (appendKey c) -> appends_after m m' -> is_Some (conversations_of (state m) !! c) ->
  visible (state m') c id <-> visible (state m) c id.
Proof. intros HK Ha Hc. apply visible_steady; try done. by apply Hsame. Qed.

Lemma scanEntries_same query limit cursor :
  K (conversationKey (eq_conversationId query)) -> K (appendKey (eq_conversationId query)) -> appends_after m m' ->
  scanEntries (chain_fuel (eq_conversationId query)) m' query limit cursor
  = scanEntries (chain_fuel (eq_conversationId query)) m query limit cursor.
Proof.
  intros Hc Ha Happ. unfold scanEntries. rewrite same_open.
  destruct (_ ← assertOpen m; scanStart (eq_order query) cursor descending) as [start|e]; [|done].
  set (lower := match ss_after start with Some after => _ | None => _ end).
  set (upper := match ss_after start with Some after => match ss_order start with _ => _ end | None => _ end).
  assert (Hd : visibleEntries (chain_fuel (eq_conversationId query)) (state m') (eq_conversationId query) lower upper
    = visibleEntries (chain_fuel (eq_conversationId query)) (state m) (eq_conversationId query) lower upper).
  { apply visibleEntries_same; [done|]. intros id _ Hs. by apply visible_steady_all. }
  assert (Hasc : visibleEntriesAscending (chain_fuel (eq_conversationId query)) (state m') (eq_conversationId query) lower upper
    = visibleEntriesAscending (chain_fuel (eq_conversationId query)) (state m) (eq_conversationId query) lower upper).
  { rewrite !visible_ascending, Hd by (by apply storage_entries_sorted). done. }
  set (found' := match ss_order start with ascending => _ | descending => _ end).
  set (found := match ss_order start with ascending => visibleEntriesAscending _ (state m) _ _ _ | descending => _ end).
  assert (found' = found) as -> by (unfold found', found; destruct (ss_order start); done). clear Hd Hasc.
  assert (Hids : forall ids id, found = Some (Ok ids) -> id ∈ ids -> exists c, visible (state m) c id).
  { intros ids id Hf Hin. exists (eq_conversationId query). unfold found in Hf.
    assert (Hv : exists ids', visibleEntries (chain_fuel (eq_conversationId query)) (state m) (eq_conversationId query) lower upper = Some (Ok ids') /\ id ∈ ids').
    { destruct (ss_order start); [|by exists ids]. rewrite visible_ascending in Hf by by apply storage_entries_sorted.
      destruct (visibleEntries _ _ _ _ _) as [[ids'|]|]; [|done..]. injection Hf as <-. exists ids'. split; [done|].
      by rewrite list_elem_of_In, in_rev, <- list_elem_of_In. }
    destruct Hv as (ids' & Hv & Hin'). unfold visibleEntries in Hv.
    destruct (conversations (conversation_tables (state m)) !! eq_conversationId query) as [r|] eqn:Hr; [|done].
    eapply visible_ids_elem; [by exists r|exact Hv|done]. }
  destruct found as [[ids|e]|]; [|done..]. cbn. unfold first_entries.
  rewrite entry_records_same; [done|]. intros id Hin. eapply Hids; [done|]. by eapply elem_of_take in Hin as (j & Hj & _); eapply list_elem_of_lookup_2.
Qed.

Lemma findLatestHeadMarker_same c at_ :
  K (conversationKey c) -> K (appendKey c) -> appends_after m m' ->
  findLatestHeadMarker (chain_fuel c) m' c at_ = findLatestHeadMarker (chain_fuel c) m c at_.
Proof.
  intros Hc Ha Happ. unfold findLatestHeadMarker. rewrite same_open, conversation_kept by done.
  destruct (conversations (conversation_tables (state m)) !! c) as [r|] eqn:Hr; [|by destruct (assertOpen m)].
  destruct (assertOpen m) as [[]|e]; [|done]. cbn [is_some check mbind res_bind].
  assert (Hs : is_Some (conversations_of (state m) !! c)) by (by exists r).
  destruct (visible_ids_spec (state m) (chain_fuel c) c NegInf (opt_bound PosInf at_)) as (ids & Hv & Hin & _);
    [by apply storage_entries_sorted|apply Hm|done|unfold chain_fuel; lia|].
  assert (Hv' : visible_ids (chain_fuel c) (state m') c NegInf (opt_bound PosInf at_) = Some (Ok ids)).
  { rewrite <- Hv. apply visible_ids_same; [exact Hi|exact Hl|exact Hm|exact Hm'|done|]. intros id _. by apply visible_steady_all. }
  rewrite (head_marker_spec _ _ _ _ _ _ (si_entries _ _ _ _ Hi') Hv'), (head_marker_spec _ _ _ _ _ _ (si_entries _ _ _ _ Hi) Hv).
  assert (Hhead : filter (fun id => has_head (state m') id = true) ids = filter (fun id => has_head (state m) id = true) ids).
  { clear Hv Hv'. assert (Hall : forall id, id ∈ ids -> has_head (state m') id = has_head (state m) id).
    { intros id Hid. apply Hin in Hid as [Hid _]. destruct (visible_record c id Hid) as [He _].
      unfold has_head. unfold entries_of in He. by rewrite He. }
    clear Hin. induction ids as [|id ids IH]; [done|]. rewrite !filter_cons, Hall by left.
    rewrite IH by (intros i Hi0; apply Hall; by right). done. }
  rewrite Hhead. cbn [mbind option_bind]. f_equal. cbn [mbind res_bind].
  destruct (head (filter (fun id => has_head (state m) id = true) ids)) as [i|] eqn:Hf; [|done].
  assert (Hi0 : i ∈ filter (fun id => has_head (state m) id = true) ids).
  { by apply head_Some_elem_of. }
  apply list_elem_of_filter in Hi0 as [_ Hi0]. apply Hin in Hi0 as [Hi0 _].
  destruct (visible_record c i Hi0) as [He _]. unfold entries_of in He. by rewrite He.
Qed.

(** The reads whose keys say all that they depend on: not those that look a document up by
    its address or scope, or a submission by its request. *)
Definition by_key (r : Read) : bool :=
  match r with
  | GSubmissionByRequest _ _ | GFindDocument _ _ | GScanDocuments _ _ _
  | GScanConversations _ _ _ | GScanTasks _ _ _ | GScanSubmissions _ _ _ => false
  | _ => true
  end.

Lemma reading_same r :
  by_key r = true -> (forall key, key ∈ touches r -> K key) -> appends_after m m' -> reading r m' = reading r m.
Proof.
  intros Hr Hk Happ. destruct r; try done; cbn [reading touches] in *; f_equal.
  - unfold conversation. rewrite same_open, conversation_kept by (apply Hk; left). done.
  - unfold entry. rewrite same_open. pose proof (sf_entry _ _ _ Hsame id ltac:(apply Hk; left)) as He.
    pose proof (sf_seq _ _ _ Hsame id ltac:(apply Hk; left)) as Hs. unfold entries_of in He. by rewrite He, Hs.
  - f_equal. apply entry_visible_same; apply Hk; [left|right; left].
  - f_equal. apply findLatestHeadMarker_same; [apply Hk; left|apply Hk; right; left|done].
  - f_equal. apply scanEntries_same; [apply Hk; left|apply Hk; right; left|done].
  - unfold task. rewrite same_open. pose proof (sf_task _ _ _ Hsame id ltac:(apply Hk; left)) as He. unfold tasks_of in He. by rewrite He.
  - unfold submission. rewrite same_open. pose proof (sf_submission _ _ _ Hsame id ltac:(apply Hk; left)) as He. unfold submissions_of in He. by rewrite He.
  - unfold document. rewrite same_open. unfold materializeDocument. by rewrite (sf_document _ _ _ Hsame id ltac:(apply Hk; left)).
Qed.
End Reads.
