(* ===== verification/CommitTheorems.v ===== *)
(** The Session and its documents (durable/src/session): along every run of commits, reads
    and stored holds, memory shows what is stored with what is held, observers who follow
    the publications have what is stored, owners live, and finished records stay. *)
From S2P Require Import Prelude JsString Json DeltaOp DeltaApply DeltaPending StorageTypes SortedIds MemoryCommit DocumentFacts TableFacts MemoryFacts MemoryRead ReadFacts MemoryHistory SessionTypes SessionTransaction SessionCommit SessionInvariant TransactionFacts TransactionDocuments BatchFacts BatchPlans BatchCommit CommitInvariant CommitReplicas SessionKeys.

(** ** A small run

    The theorems are evaluated at it: a conversation with documents, an entry and an ended
    task is stored, an edit of a note is held, and then stored. *)

Definition answer {A} (d : A) (r : tres A) : A := match r with Ok a => a | Throw _ => d end.

Definition note : AnyDocDefinition :=
  {| df_kind := "note"; df_scope := conversation_scope; df_history := Some HLatest; df_fork := Some ForkInitial; df_version := 1;
     df_family := false; df_initial := fun _ => JObj None [("text", JStr "a")]; df_migrate := None; df_checkpointWhen := fun _ _ _ => false |}.

Definition mark : AnyDocDefinition :=
  {| df_kind := "mark"; df_scope := conversation_scope; df_history := Some HRewindable; df_fork := Some ForkAsOf; df_version := 1;
     df_family := false; df_initial := fun _ => JNum (num_of_N 1); df_migrate := None; df_checkpointWhen := fun _ _ _ => false |}.

Definition greeting : EntryDraft := {| ed_kind := "user"; ed_model := None; ed_data := None; ed_head := None; ed_edits := None |}.

Definition chore : TaskCreation :=
  {| tc_kind := "chore"; tc_version := 1; tc_input := JNull; tc_checkpoint := JNull; tc_trace := TraceInherit; tc_links := None; tc_owner := None;
     tc_conversationId := Some 2%N; tc_background := None; tc_abandonOnRestart := false; tc_submissionIds := None |}.

Definition session0 : SessionState := session_new memory_new.
Definition scope0 : Transaction := transaction_new None None None.

(** The first commit: conversation 2, note 3, mark 4, entry 5 and task 6, which
    ends. *)
Definition staged1 := answer (session0, scope0) (createConversation session0 scope0 None).
Definition staged2 := answer (session0, scope0, 0) (doc staged1.1 staged1.2 note (Some 2%N) None None).
Definition staged2m := answer (session0, scope0, 0) (doc staged2.1.1 staged2.1.2 mark (Some 2%N) None None).
Definition staged2e := answer (session0, scope0) (appendEntry staged2m.1.1 staged2m.1.2 2%N greeting).
Definition staged3 := answer (session0, scope0) (createTask staged2e.1 staged2e.2 chore).
Definition ended_chore : TaskRecord :=
  match task_write staged3.2 6%N with
  | Some (_, r) =>
      {| t_trace := t_trace r; t_links := t_links r; t_id := t_id r; t_conversationId := t_conversationId r; t_kind := t_kind r;
         t_version := t_version r; t_input := t_input r; t_owner := t_owner r; t_background := t_background r;
         t_abortRequested := false; t_abortReason := false; t_abandonOnRestart := false; t_startedAt := None; t_endedAt := None;
         t_restarts := None; t_state := TTerminal (OCompleted JNull); t_memos := None |}
  | None => {| t_trace := None; t_links := None; t_id := 0; t_conversationId := 0; t_kind := ""; t_version := 0; t_input := JNull;
               t_owner := None; t_background := false; t_abortRequested := false; t_abortReason := false; t_abandonOnRestart := false;
               t_startedAt := None; t_endedAt := None; t_restarts := None; t_state := TPending JNull; t_memos := None |}
  end.
Definition staged4 := answer scope0 (setTask (num_of_N 7) staged3.2 ended_chore).
Definition session1 := answer session0 (settle_commit staged3.1 staged4 false).

(** The second commit edits the note and is held. *)
Definition staged5 := answer (session0, scope0, 0) (doc session1 scope0 note (Some 2%N) None None).
Definition edit : Prepared := {| pr_value := JObj None [("text", JStr "ab")]; pr_ops := [OpA [SStr "text"] "b"] |}.
Definition staged6 := match tx_documents staged5.1.2 !! 0 with Some e => set_entry 0 (with_change edit e) staged5.1.2 | None => scope0 end.
Definition session2 := answer session0 (settle_commit staged5.1.1 staged6 true).

(** The third step stores what is held. *)
Definition session3 := answer session0 (storeHolds session2 (fun _ => true)).

Lemma note_ok : definition_ok note.
Proof. split; [by eexists|]. split; [by eexists|done]. Qed.

Lemma mark_ok : definition_ok mark.
Proof. split; [by eexists|]. by split; [eexists|]. Qed.

Lemma edit_performs : performs (JObj None [("text", JStr "a")]) (pr_ops edit) (pr_value edit).
Proof. constructor; [by repeat constructor|by repeat constructor|by repeat constructor|by vm_compute|done]. Qed.

Lemma callback1 : callback session0 scope0 staged3.1 staged4.
Proof.
  unfold callback. apply (rtc_l _ _ (staged1.1, staged1.2)). { apply (step_createConversation _ _ None). vm_compute. reflexivity. }
  apply (rtc_l _ _ (staged2.1.1, staged2.1.2)).
  { apply (step_doc _ _ note (Some 2%N) None None _ _ staged2.2 note_ok). vm_compute. reflexivity. }
  apply (rtc_l _ _ (staged2m.1.1, staged2m.1.2)).
  { apply (step_doc _ _ mark (Some 2%N) None None _ _ staged2m.2 mark_ok). vm_compute. reflexivity. }
  apply (rtc_l _ _ (staged2e.1, staged2e.2)).
  { apply (step_appendEntry _ _ 2%N greeting). vm_compute. reflexivity. }
  apply (rtc_l _ _ (staged3.1, staged3.2)).
  { apply (step_createTask _ _ chore). vm_compute. reflexivity. }
  apply rtc_once. apply (step_setTask _ _ (num_of_N 7) ended_chore). vm_compute. reflexivity.
Qed.

Lemma settled1 : settle_commit staged3.1 staged4 false = Ok session1.
Proof. vm_compute. reflexivity. Qed.

Lemma callback2 : callback session1 scope0 staged5.1.1 staged6.
Proof.
  unfold callback. apply (rtc_l _ _ (staged5.1.1, staged5.1.2)).
  { apply (step_doc _ _ note (Some 2%N) None None _ _ staged5.2 note_ok). vm_compute. reflexivity. }
  apply rtc_once. unfold staged6. destruct (tx_documents staged5.1.2 !! 0) as [e|] eqn:Ee.
  - apply (step_edit _ _ 0 e (JObj None [("text", JStr "a")]) edit Ee); [|apply edit_performs].
    assert (E : (tx_documents staged5.1.2 !! 0) ≫= draft_base = Some (JObj None [("text", JStr "a")])) by (vm_compute; reflexivity). by rewrite Ee in E.
  - by vm_compute in Ee.
Qed.

Lemma settled2 : settle_commit staged5.1.1 staged6 true = Ok session2.
Proof. vm_compute. reflexivity. Qed.

Lemma run1 : session_run session0 session1.
Proof. apply rtc_once. eapply (session_commit _ None None None); [exact callback1|exact settled1]. Qed.

Lemma run2 : session_run session0 session2.
Proof. eapply rtc_r; [exact run1|]. eapply (session_commit _ None None None); [exact callback2|exact settled2]. Qed.

Lemma stored3 : storeHolds session2 (fun _ => true) = Ok session3.
Proof. vm_compute. reflexivity. Qed.

Lemma run3 : session_run session0 session3.
Proof. eapply rtc_r; [exact run2|]. exact (session_store _ _ _ stored3). Qed.

Lemma run13 : session_run session1 session3.
Proof.
  eapply rtc_l; [eapply (session_commit _ None None None); [exact callback2|exact settled2]|]. apply rtc_once.
  exact (session_store _ _ _ stored3).
Qed.


(** ** Memory and storage *)

(** C6. A cached document is the live one at its address. Its stored value, in the version
    and with the number of deltas that the cache has, and the changes held for it lead to
    the value that memory shows; when nothing is held, they are the same in one version. *)
Theorem memory_over_storage s id d : session_run (session_new memory_new) s -> ss_documents s !! id = Some d ->
  id = addressId (address_of (d_create (ld_record d))) /\
  (exists o, docs (ss_storage s) !! ld_id d = Some o /\ live o /\ st_record o = ld_record d) /\
  exists x, content (ss_storage s) (ld_id d) = Ok (Some (ld_storedVersion d, x, ld_deltasSinceBase d)) /\
    match ss_holds s !! ld_id d with
    | Some h => ld_storedVersion d = ld_valueVersion d /\
                exists history, represents (h_pending h) history /\ run (Some x) history = Some (Some (ld_value d))
    | None => ld_storedVersion d = ld_valueVersion d -> x = ld_value d
    end.
Proof.
  intros Hr%reachable_ok Hd. pose proof (se_documents _ Hr _ _ Hd) as [_ Ha Hs _ _ (x & Hx & _ & Hv)]. split; [done|]. split; [done|].
  exists x. split; [done|]. unfold stored_value_ok in Hv. destruct (ss_holds s !! ld_id d) as [h|]; [|done].
  destruct Hv as (_ & Ev & _ & _ & _ & Hh). by split.
Qed.

Definition note_id : string := addressId {| da_kind := "note"; da_scope := ScopeConversation 2; da_key := None |}.

Lemma memory_over_storage_witness : exists d, ss_documents session2 !! note_id = Some d /\ is_Some (ss_holds session2 !! ld_id d) /\
  exists x, content (ss_storage session2) (ld_id d) = Ok (Some (ld_storedVersion d, x, ld_deltasSinceBase d)).
Proof.
  destruct (ss_documents session2 !! note_id) as [d|] eqn:E; [|by vm_compute in E]. exists d. split; [done|].
  destruct (memory_over_storage session2 note_id d run2 E) as (_ & _ & x & Hx & _). split; [|by exists x].
  assert (H : is_Some (ss_documents session2 !! note_id ≫= fun d => ss_holds session2 !! ld_id d)) by (vm_compute; by eexists). by rewrite E in H.
Defined.

(** ** Observers *)

(** C7. Publications refine the storage: an observer that starts empty with the Session and
    follows what each step publishes can be told of every run, and then has the version and
    the value of each stored document, copies and documents with held changes included. *)
Theorem replicas_follow s : session_run (session_new memory_new) s ->
  (exists replica, rtc observed_step (session_new memory_new, ∅) (s, replica)) /\
  forall replica, rtc observed_step (session_new memory_new, ∅) (s, replica) ->
    forall id, replica !! id = stored_at (ss_storage s) id PCurrent.
Proof.
  intros Hr. pose proof (session_new_ok _ memory_new_ok) as H0. split; [by apply run_observed|].
  intros replica Ho. apply (observed_run _ ∅ _ _ H0); [by intros id|done].
Qed.

Lemma replicas_follow_witness : exists replica, rtc observed_step (session_new memory_new, ∅) (session3, replica) /\
  replica !! 3%N = Some (1%N, JObj None [("text", JStr "ab")]).
Proof.
  destruct (replicas_follow session3 run3) as [(replica & Hr) H]. exists replica. split; [done|]. rewrite (H replica Hr). by vm_compute.
Defined.

(** ** Commits *)

(** C8. A commit that settles is stored: whatever the callback staged, the storage does not
    refuse the batch, with the held changes of the documents it touches. *)
Theorem settled_commit_stored s conversationId taskId carrier s1 tx plans writes : session_run (session_new memory_new) s ->
  callback s (transaction_new conversationId taskId carrier) s1 tx -> assemble s1 tx = Ok (plans, writes) ->
  (Z.of_N (nextSeq (ss_storage s1)) <= MAX_SAFE_INTEGER)%Z ->
  exists s2, store_commit s1 tx plans writes = Ok s2 /\ nextSeq (ss_storage s2) = (nextSeq (ss_storage s1) + 1)%N.
Proof.
  intros Hr%reachable_ok Hcb Ha Hseq.
  destruct (callback_ok _ _ _ _ Hr (new_transaction_ok s conversationId taskId carrier) Hcb) as (Hs1 & Htx & _).
  destruct (settled_stored _ _ _ _ Hs1 Htx Ha Hseq) as (s2 & E). exists s2. split; [done|].
  destruct (store_commit_ok s1 tx plans writes s2 Hs1 Htx (assemble_ok _ _ _ _ Hs1 Htx Ha) E) as (qs & submissions & W & Hc).
  apply (be_seq _ _ _ (sc_effect _ _ _ _ _ _ _ Hc)).
Qed.

Lemma settled_commit_stored_witness : exists s2 plans writes, assemble staged3.1 staged4 = Ok (plans, writes) /\
  store_commit staged3.1 staged4 plans writes = Ok s2.
Proof.
  destruct (assemble staged3.1 staged4) as [[plans writes]|] eqn:E; [|by vm_compute in E].
  destruct (settled_commit_stored session0 None None None staged3.1 staged4 plans writes (rtc_refl _ _) callback1 E) as (s2 & H & _); [by vm_compute|].
  exists s2, plans, writes. split; [reflexivity|exact H].
Defined.

(** Storing all holds leaves none, and then every cached document whose version is the
    stored one is stored with the value that memory shows. *)
Lemma storeHolds_flushes s s' : session_run (session_new memory_new) s -> storeHolds s (fun _ => true) = Ok s' ->
  (forall i, ss_holds s' !! i = None) /\
  forall id d, ss_documents s' !! id = Some d -> ld_storedVersion d = ld_valueVersion d ->
    content (ss_storage s') (ld_id d) = Ok (Some (ld_valueVersion d, ld_value d, ld_deltasSinceBase d)).
Proof.
  intros Hr%reachable_ok H. assert (Hn : forall i, ss_holds s' !! i = None).
  { intros i. destruct (storeHolds_stored s _ s' Hr H) as [[-> Hsel]|(K & Ht)].
    - destruct (ss_holds s !! i) as [h|] eqn:E; [|done]. by specialize (Hsel i h E).
    - rewrite (ht_holds _ _ _ _ Ht). case_decide as Hin; [done|]. destruct (ss_holds s !! i) as [h|] eqn:E; [exfalso|done].
      destruct (ht_stored _ _ _ _ Ht) as (L & HK & _ & HL). apply Hin. rewrite (stored_ids_eq _ _ _ HK). apply list_elem_of_fmap. exists (i, h).
      split; [done|]. by apply HL. }
  split; [done|]. intros id d Hd Ev. destruct (lo_content _ _ _ (se_documents _ (storeHolds_keeps _ _ _ Hr H) _ _ Hd)) as (x & Hx & _ & Hv).
  unfold stored_value_ok in Hv. rewrite Hn in Hv. rewrite Hx, Ev. by rewrite (Hv Ev).
Qed.

Lemma storeHolds_flushes_witness : (forall i, ss_holds session3 !! i = None) /\
  ld_value <$> (ss_documents session3 !! note_id) = Some (JObj None [("text", JStr "ab")]).
Proof. split; [exact (proj1 (storeHolds_flushes session2 session3 run2 stored3))|vm_compute; reflexivity]. Defined.

(** ** Owners and finished records *)

(** The owner of every live document is stored: its conversation, or its task, which has
    not ended. *)
Lemma live_documents_owned s id o : session_run (session_new memory_new) s ->
  docs (ss_storage s) !! id = Some o -> live o ->
  match dc_scope (d_create (st_record o)) with
  | ScopeSession => True
  | ScopeConversation c => is_Some (conversations_of (state (ss_storage s)) !! c)
  | ScopeTask t => exists r, tasks_of (state (ss_storage s)) !! t = Some r /\ t_status r <> terminal
  end.
Proof. intros Hr%reachable_ok Ho Hl. by apply (so_owner _ (se_storage _ Hr) id o). Qed.

Lemma live_documents_owned_witness : is_Some (docs (ss_storage session2) !! 3%N) /\ is_Some (conversations_of (state (ss_storage session2)) !! 2%N).
Proof.
  destruct (docs (ss_storage session2) !! 3%N) as [o|] eqn:E; [|by vm_compute in E]. split; [done|].
  assert (H : (fun o => (d_retiredAt (st_record o), dc_scope (d_create (st_record o)))) <$> (docs (ss_storage session2) !! 3%N) = Some (None, ScopeConversation 2)) by by vm_compute.
  rewrite E in H. injection H as Hl Hsc. pose proof (live_documents_owned session2 3%N o run2 E Hl) as Ho. by rewrite Hsc in Ho.
Defined.

(** C9. What is finished stays: no commit changes a task that has ended or a submission that
    is settled, and no task moves to another conversation. *)
Theorem finished_records_final s s' : session_run (session_new memory_new) s -> session_run s s' ->
  (forall id r, tasks_of (state (ss_storage s)) !! id = Some r ->
     exists r', tasks_of (state (ss_storage s')) !! id = Some r' /\ t_conversationId r' = t_conversationId r /\ (t_status r = terminal -> r' = r)) /\
  forall id r, submissions_of (state (ss_storage s)) !! id = Some r ->
    exists r', submissions_of (state (ss_storage s')) !! id = Some r' /\ (settled r = true -> r' = r).
Proof.
  intros Hr%reachable_ok H. destruct (run_records s s' Hr H) as [H1 H2]. by split.
Qed.

Lemma finished_records_final_witness : exists r, tasks_of (state (ss_storage session1)) !! 6%N = Some r /\ t_status r = terminal /\
  tasks_of (state (ss_storage session3)) !! 6%N = Some r.
Proof.
  destruct (tasks_of (state (ss_storage session1)) !! 6%N) as [r|] eqn:E; [|by vm_compute in E].
  assert (H : t_status <$> (tasks_of (state (ss_storage session1)) !! 6%N) = Some terminal) by by vm_compute. rewrite E in H. injection H as H.
  exists r. split; [done|]. split; [done|]. destruct (finished_records_final session1 session3 run1 run13) as [Ht _].
  destruct (Ht 6%N r E) as (r' & E' & _ & Hr'). by rewrite Hr' in E'.
Defined.

(** ** Forks *)

(** C10. A fork copies each document once: those with the fork mode [asOf] of the entry's
    conversation that were alive at the entry, in their states then, and those with the mode
    [current] of the parent that are alive, in their states now; no two at one address. *)
Theorem fork_copies_exact s parent at_ child s' copies : session_run (session_new memory_new) s ->
  prepareForkDocumentCopies s parent at_ child = Ok (s', copies) ->
  exists e, ran (entry_visible (chain_fuel parent) (ss_storage s) parent at_) = Ok (Some e) /\
    NoDup (fc_source <$> copies) /\ NoDup (copy_address <$> copies) /\
    forall id p, {| cs_id := id; cs_at := p |} ∈ fc_source <$> copies <->
      exists o, docs (ss_storage s) !! id = Some o /\ isAliveAt (st_record o) p = true /\
        match p with
        | PSeq n => n = e.2 /\ dc_scope (d_create (st_record o)) = ScopeConversation (e_conversationId e.1) /\ dc_fork (d_create (st_record o)) = Some ForkAsOf
        | PCurrent => dc_scope (d_create (st_record o)) = ScopeConversation parent /\ dc_fork (d_create (st_record o)) = Some ForkCurrent
        end.
Proof.
  intros Hr%reachable_ok H. destruct (fork_copies_sources _ _ _ _ _ _ Hr H) as (e & Ev & Hnd & Hsrc & Haddr). exists e. split_and!; try done.
  intros id p. rewrite Hsrc. split.
  - intros (r & Hrec & Hal & Hp). destruct (docs (ss_storage s) !! id) as [o|] eqn:Ho; [|done]. injection Hrec as Eo. exists o. by rewrite Eo.
  - intros (o & Ho & Hal & Hp). exists (st_record o). split; [by rewrite Ho|]. by split.
Qed.

Lemma fork_copies_exact_witness : exists s' copies, prepareForkDocumentCopies session1 2 5 7 = Ok (s', copies) /\
  {| cs_id := 4; cs_at := PSeq 1 |} ∈ fc_source <$> copies.
Proof.
  destruct (prepareForkDocumentCopies session1 2 5 7) as [[s' copies]|] eqn:E; [|by vm_compute in E]. exists s', copies. split; [done|].
  destruct (fork_copies_exact session1 2 5 7 s' copies run1 E) as (e & Ev & _ & _ & H). apply H.
  assert (He : e_conversationId e.1 = 2%N /\ e.2 = 1%N).
  { assert (Hv : (fun e => (e_conversationId e.1, e.2)) <$> match ran (entry_visible (chain_fuel 2) (ss_storage session1) 2 5) with Ok f => f | Throw _ => None end = Some (2%N, 1%N)) by by vm_compute.
    rewrite Ev in Hv. clear -Hv. injection Hv as E1 E2. split; [exact E1|exact E2]. }
  destruct He as [-> ->].
  destruct (docs (ss_storage session1) !! 4%N) as [o|] eqn:Eo; [|by vm_compute in Eo]. exists o. split; [done|].
  assert (Hd : (fun o => (isAliveAt (st_record o) (PSeq 1), dc_scope (d_create (st_record o)), dc_fork (d_create (st_record o)))) <$> (docs (ss_storage session1) !! 4%N)
     = Some (true, ScopeConversation 2, Some ForkAsOf)) by by vm_compute.
  rewrite Eo in Hd. injection Hd as E1 E2 E3. split; [exact E1|]. split; [reflexivity|]. split; [exact E2|exact E3].
Defined.

(** ** Keys *)

Lemma plan_named plans writes q key : q ∈ plans -> plan_writes q = true -> key ∈ plan_keys q -> key ∈ writeKeys plans writes.
Proof.
  intros Hq Hw Hk. apply elem_of_app. right. apply list_elem_of_In, in_concat. exists (plan_keys q). split; apply list_elem_of_In; [|done].
  apply list_elem_of_fmap. by exists q.
Qed.

Lemma writing_plan_keys q : plan_writes q = true ->
  incarnationKey (plan_id q) ∈ plan_keys q /\ documentKey (dp_addressId q) ∈ plan_keys q /\
  (dp_retire q = true \/ (exists c, dp_record q = inl c) -> scopeKey (dc_scope (plan_create q)) ∈ plan_keys q).
Proof.
  intros Hw. unfold plan_keys. rewrite Hw. split_and!; [right; left|left|].
  intros [->|[c ->]]; [destruct (dp_record q)|]; apply elem_of_app; right; left.
Qed.

Lemma final_address s tx plans qs q : plans_ok s tx plans -> Forall2 (plan_became s) plans qs -> q ∈ qs ->
  dp_addressId q = addressId (address_of (plan_create q)).
Proof.
  intros Hp Hq [i Hi]%list_elem_of_lookup. destruct (Forall2_lookup_r _ _ _ _ _ Hq Hi) as (p & Hpi & Hb).
  destruct (became_same _ _ _ Hb) as (-> & Er & _). assert (plan_create q = plan_create p) as -> by (unfold plan_create; by rewrite Er).
  apply (pk_address s tx). apply Hp. by eapply list_elem_of_lookup_2.
Qed.

(** C16. A settled commit names the keys of everything it writes: those of its records, the
    incarnation of every document in its batch, with the held changes it takes along, the
    address of every document it creates, changes or retires, and the scope of every one it
    creates or retires. *)
Theorem write_keys_name_the_batch s conversationId taskId carrier s1 tx plans writes taking : session_run (session_new memory_new) s ->
  callback s (transaction_new conversationId taskId carrier) s1 tx -> assemble s1 tx = Ok (plans, writes) ->
  takeHeld s1 plans writes = Ok taking ->
  let keys := writeKeys (tk_plans taking) (tk_writes taking) in
  (forall key, key ∈ batch_keys (tk_writes taking) -> key ∈ keys) /\
  (forall c, c ∈ created (tk_writes taking) -> documentKey (addressId (address_of c)) ∈ keys /\ scopeKey (dc_scope c) ∈ keys) /\
  forall w id o, w ∈ tk_writes taking -> changed_document w = Some id -> stored_docs s1 !! id = Some o ->
    documentKey (addressId (address_of (d_create (st_record o)))) ∈ keys /\
    (w = WDocumentRetire id -> scopeKey (dc_scope (d_create (st_record o))) ∈ keys).
Proof.
  intros Hr%reachable_ok Hcb Ha Ht keys.
  destruct (callback_ok _ _ _ _ Hr (new_transaction_ok s conversationId taskId carrier) Hcb) as (Hs1 & Htx & _).
  pose proof (assemble_ok _ _ _ _ Hs1 Htx Ha) as Has.
  destruct (settled_batch s1 tx plans writes Hs1 Htx Has) as (taking' & submissions & Et & Hq & _ & Hsub & Hw & Hf & _).
  assert (taking' = taking) as -> by congruence. clear Et.
  assert (Hdoc : forall w id, w ∈ tk_writes taking -> changed_document w = Some id ->
    exists q, q ∈ tk_plans taking /\ w ∈ write_plan q /\ plan_id q = id /\ plan_writes q = true).
  { intros w id Hin Hc. destruct (document_write s1 tx (tk_plans taking) submissions (tk_writes taking) Htx Hw w Hin) as (q & Hqq & Hwq); [by rewrite Hc|].
    destruct (plan_write_document s1 tx (tk_plans taking) Hf q w id Hqq Hwq Hc) as [Hid Hor]. exists q. split_and!; [done..|].
    unfold plan_writes. destruct Hor as [[x Hx]|Hx]; rewrite Hx; [done|apply orb_true_r]. }
  pose proof (fun q => final_address s1 tx plans (tk_plans taking) q (as_plans _ _ _ _ Has) Hq) as Hadr. split_and!.
  - intros key [Hk|Hk]%elem_of_app; [by apply elem_of_app; left|].
    apply list_elem_of_fmap in Hk as (id & -> & (w & Hin & Hc)%list_elem_of_omap).
    destruct (Hdoc w id Hin Hc) as (q & Hqq & _ & <- & Hwr). eapply plan_named; [done..|]. by apply writing_plan_keys.
  - intros c (w & Hin & Hc)%list_elem_of_omap. destruct (Hdoc w (dc_id c) Hin) as (q & Hqq & Hwq & Hid & Hwr); [by destruct w; naive_solver|].
    assert (Hrec : dp_record q = inl c).
    { pose proof (fo_content _ _ _ Hf q Hqq) as Hcon. unfold final_content in Hcon. apply plan_write_elem in Hwq as [E|[_ ->]]; [|done].
      destruct (dp_record q) as [c'|r]; [|destruct Hcon as [_ [E'|(c' & E' & _)]]; rewrite E in E'; [done|by injection E' as ->]].
      destruct Hcon as [(v & b & E')|(source & E' & _)]; rewrite E in E'; injection E' as ->; by injection Hc as ->. }
    assert (plan_create q = c) as <- by (unfold plan_create; by rewrite Hrec). rewrite <- Hadr by done.
    split; (eapply plan_named; [done..|]); apply writing_plan_keys; [done|done|right; by eexists].
  - intros w id o Hin Hc Ho. destruct (Hdoc w id Hin Hc) as (q & Hqq & Hwq & Hid & Hwr).
    assert (Hrec : plan_create q = d_create (st_record o)).
    { pose proof (fo_content _ _ _ Hf q Hqq) as Hcon. unfold final_content in Hcon. unfold plan_id, plan_create in *.
      destruct (dp_record q) as [c|r] eqn:Er.
      - destruct (created_not_stored s1 tx id o Hs1 Htx); [|done]. rewrite <- Hid. by apply (fo_created _ _ _ Hf q c Hqq).
      - destruct Hcon as [(o' & Ho' & _ & <-) _]. rewrite Hid, Ho in Ho'. by injection Ho' as ->. }
    rewrite <- Hrec, <- Hadr by done. destruct (writing_plan_keys q Hwr) as (_ & H1 & H2).
    split; [by eapply plan_named|]. intros ->. eapply plan_named; [done..|]. apply H2. left.
    apply plan_write_elem in Hwq as [E|[R _]]; [exfalso|done].
    pose proof (fo_content _ _ _ Hf q Hqq) as Hcon. unfold final_content in Hcon. destruct (dp_record q).
    + destruct Hcon as [(v & b & E')|(source & E' & _)]; congruence.
    + destruct Hcon as [_ [E'|(c' & E' & _)]]; congruence.
Qed.

Lemma write_keys_name_the_batch_witness : exists plans writes taking, assemble staged3.1 staged4 = Ok (plans, writes) /\
  takeHeld staged3.1 plans writes = Ok taking /\
  forall key, key ∈ batch_keys (tk_writes taking) -> key ∈ writeKeys (tk_plans taking) (tk_writes taking).
Proof.
  destruct (takeHeld staged3.1 (answer ([], []) (assemble staged3.1 staged4)).1 (answer ([], []) (assemble staged3.1 staged4)).2)
    as [taking|] eqn:Et; [|by vm_compute in Et].
  destruct (assemble staged3.1 staged4) as [[plans writes]|] eqn:E; [|by vm_compute in E].
  exists plans, writes, taking. split_and!; [reflexivity|exact Et|].
  apply (write_keys_name_the_batch session0 None None None staged3.1 staged4 plans writes taking (rtc_refl _ _) callback1 E Et).
Defined.
