(* ===== verification/SessionWriter.v ===== *)
(** The writer of a Session (durable/src/session/writer.ts): the commits that the line
    admits are parts, sent to the storage in batches and published in line order. One
    definition per stretch of code between two awaits; the steps of a writer choose what
    its host and its storage answer, and when. *)
From S2P Require Import Prelude StorageTypes.

Section Writer.
(** What the host, the storage and observers throw. *)
Context {E : Type}.

(** ** Data *)

(** An error: thrown by another, or the writer's own "Storage committed without adopting
    the batch". *)
Inductive cause : Type := Thrown (e : E) | NotAdopted.

Inductive FailureKind : Type := adoption | listener.

Record PublishFailure : Type := { pf_kind : FailureKind; pf_error : cause }.

(** [context], [publish] and [discard] belong to the admitting job: what publication
    answers is chosen by a step, and both calls are logged. *)
Record PartSpec : Type := {
  ps_index : nat;
  ps_writes : option (list StorageWrite);
  ps_keys : list string;
}.

(** A part is told apart by the number of parts admitted before it. *)
Record AdmittedPart : Type := { a_id : nat; a_spec : PartSpec }.

(** How an outcome rejects: with an error of its own, or [SessionFailed] of one. *)
Inductive rejection : Type := OwnError (c : cause) | SessionFailed (c : cause).

Inductive Outcome : Type := Resolved | Rejected (r : rejection).

Inductive FailedOutcome : Type := FOwn (c : cause) | FFailed.

(** [CommitResult]: the batches stored, and why the next one was refused. *)
Record StorageResult : Type := { sr_stored : nat; sr_refused : option E }.

(** What a storage call came to: the receipts by index, and its result or rejection;
    neither without stored parts. *)
Record Answer : Type := {
  an_seqs : gmap nat N;
  an_result : option StorageResult;
  an_rejected : option E;
}.

Definition no_answer : Answer := {| an_seqs := ∅; an_result := None; an_rejected := None |}.

Record Stop : Type := { st_error : cause; st_at : nat; st_external : bool }.

Record Failing : Type := { fg_part : AdmittedPart; fg_outcome : FailedOutcome; fg_published : bool }.

(** The variables of [#publish]; [lp_todo] are the parts the loop has not come to. *)
Record Loop : Type := {
  lp_todo : list AdmittedPart;
  lp_storedIndex : nat;
  lp_published : nat;
  lp_stop : option Stop;
  lp_failing : list Failing;
}.

(** Where the writer is: no call in flight; at one of the awaits of [#send], [#publish]
    and [#flush]; or about to call [publishing] ([Ready]), or after its callback ran
    ([Ran]; [pending] when the storage's scope has it). *)
Inductive Flight : Type :=
| Landed
| Sending (parts : list AdmittedPart)
| Hopping (parts : list AdmittedPart) (a : Answer) (l : Loop) (p : AdmittedPart) (seq : option N)
| Ready (parts : list AdmittedPart) (a : Answer) (l : Loop) (p : AdmittedPart) (seq : option N)
| Scoped (parts : list AdmittedPart) (a : Answer) (l : Loop) (p : AdmittedPart) (seq : option N)
| Ran (parts : list AdmittedPart) (a : Answer) (l : Loop) (p : AdmittedPart)
    (external : option cause) (failure : option PublishFailure) (pending : bool)
| Dispatching (parts : list AdmittedPart) (a : Answer) (l : Loop)
| Returning (parts : list AdmittedPart).

(** The host's failure: its error, the line index it is the outcome of, and the later
    jobs that keep their own error. *)
Record Failure : Type := { fl_error : cause; fl_at : option nat; fl_own : list nat }.

(** Calls of the writer: [commit], [stored], a part's [publish] and [discard], [report]. *)
Inductive event : Type :=
| Sent (batches : list (list StorageWrite))
| Stored (i : nat) (writes : list StorageWrite)
| Published (i : nat) (seq : option N)
| Discarded (i : nat)
| Reported (c : cause).

(** The writer with its parts' promises and its host's failure; [w_parts] are all parts
    ever admitted, [w_done] the outcomes settled, [w_opened] the gates opened. *)
Record Writer : Type := {
  w_parts : list AdmittedPart;
  w_queue : list AdmittedPart;
  w_flight : Flight;
  w_unpublished : gmap string nat;
  w_newest : option nat;
  w_done : gmap nat Outcome;
  w_opened : gset nat;
  w_failure : option Failure;
  w_log : list event;
}.

Definition writer_new : Writer :=
  {| w_parts := []; w_queue := []; w_flight := Landed; w_unpublished := ∅; w_newest := None;
     w_done := ∅; w_opened := ∅; w_failure := None; w_log := [] |}.

Definition with_flight (f : Flight) (w : Writer) : Writer :=
  {| w_parts := w_parts w; w_queue := w_queue w; w_flight := f; w_unpublished := w_unpublished w;
     w_newest := w_newest w; w_done := w_done w; w_opened := w_opened w; w_failure := w_failure w;
     w_log := w_log w |}.

Definition with_queue (q : list AdmittedPart) (w : Writer) : Writer :=
  {| w_parts := w_parts w; w_queue := q; w_flight := w_flight w; w_unpublished := w_unpublished w;
     w_newest := w_newest w; w_done := w_done w; w_opened := w_opened w; w_failure := w_failure w;
     w_log := w_log w |}.

Definition log_event (v : event) (w : Writer) : Writer :=
  {| w_parts := w_parts w; w_queue := w_queue w; w_flight := w_flight w; w_unpublished := w_unpublished w;
     w_newest := w_newest w; w_done := w_done w; w_opened := w_opened w; w_failure := w_failure w;
     w_log := w_log w ++ [v] |}.

(** [host.fail]: the first failure stays. *)
Definition host_fail (e : cause) (at_index : option nat) (own : list nat) (w : Writer) : Writer :=
  match w_failure w with
  | Some _ => w
  | None =>
      {| w_parts := w_parts w; w_queue := w_queue w; w_flight := w_flight w; w_unpublished := w_unpublished w;
         w_newest := w_newest w; w_done := w_done w; w_opened := w_opened w;
         w_failure := Some {| fl_error := e; fl_at := at_index; fl_own := own |}; w_log := w_log w |}
  end.

(** ** Settling a part *)

(** [settle.resolve] and [settle.reject]: a promise keeps its first outcome. *)
Definition settle (p : AdmittedPart) (o : Outcome) (w : Writer) : Writer :=
  {| w_parts := w_parts w; w_queue := w_queue w; w_flight := w_flight w; w_unpublished := w_unpublished w;
     w_newest := w_newest w;
     w_done := match w_done w !! a_id p with Some _ => w_done w | None => <[a_id p := o]> (w_done w) end;
     w_opened := w_opened w; w_failure := w_failure w; w_log := w_log w |}.

Fixpoint drop_keys (i : nat) (keys : list string) (m : gmap string nat) : gmap string nat :=
  match keys with
  | [] => m
  | key :: keys => drop_keys i keys (if decide (m !! key = Some i) then delete key m else m)
  end.

Definition unregister (p : AdmittedPart) (w : Writer) : Writer :=
  {| w_parts := w_parts w; w_queue := w_queue w; w_flight := w_flight w;
     w_unpublished := drop_keys (a_id p) (ps_keys (a_spec p)) (w_unpublished w);
     w_newest := w_newest w; w_done := w_done w; w_opened := w_opened w; w_failure := w_failure w;
     w_log := w_log w |}.

Definition open (p : AdmittedPart) (w : Writer) : Writer :=
  {| w_parts := w_parts w; w_queue := w_queue w; w_flight := w_flight w; w_unpublished := w_unpublished w;
     w_newest := if decide (w_newest w = Some (a_id p)) then None else w_newest w;
     w_done := w_done w; w_opened := w_opened w ∪ {[a_id p]}; w_failure := w_failure w; w_log := w_log w |}.

Definition unpublish (p : AdmittedPart) (r : rejection) (w : Writer) : Writer :=
  open p (unregister p (settle p (Rejected r) (log_event (Discarded (a_id p)) w))).

Definition unpublish_all (ps : list AdmittedPart) (r : rejection) (w : Writer) : Writer :=
  foldl (fun w p => unpublish p r w) w ps.

(** [#failed]: [SessionFailed] with the Session's failure, or with [e] until there is one. *)
Definition failed (e : cause) (w : Writer) : rejection :=
  SessionFailed (match w_failure w with Some f => fl_error f | None => e end).

(** ** The loop of [#publish] *)

Definition set_stop (s : Stop) (l : Loop) : Loop :=
  {| lp_todo := lp_todo l; lp_storedIndex := lp_storedIndex l; lp_published := lp_published l;
     lp_stop := Some s; lp_failing := lp_failing l |}.

Definition add_failing (p : AdmittedPart) (o : FailedOutcome) (published : bool) (l : Loop) : Loop :=
  {| lp_todo := lp_todo l; lp_storedIndex := lp_storedIndex l; lp_published := lp_published l;
     lp_stop := lp_stop l;
     lp_failing := lp_failing l ++ [{| fg_part := p; fg_outcome := o; fg_published := published |}] |}.

(** Why a sent part has no receipt. *)
Definition missing_error (a : Answer) (index : nat) : cause :=
  match an_rejected a with
  | Some e => Thrown e
  | None =>
      match an_result a with
      | Some {| sr_stored := n; sr_refused := Some e |} => if (index =? n)%nat then Thrown e else NotAdopted
      | _ => NotAdopted
      end
  end.

(** What a part has that comes after the stop. *)
Definition stopped_outcome (a : Answer) (s : Stop) (index : option nat) : FailedOutcome :=
  match an_rejected a, index with
  | Some e, Some _ => if st_external s then FFailed else FOwn (Thrown e)
  | _, _ => FFailed
  end.

(** The parts from [todo] on up to the first that is to be published, with its receipt. *)
Fixpoint advance (a : Answer) (todo : list AdmittedPart) (stored published : nat) (stop : option Stop)
    (failing : list Failing) : Loop * option (AdmittedPart * option N) :=
  match todo with
  | [] =>
      ({| lp_todo := []; lp_storedIndex := stored; lp_published := published; lp_stop := stop;
          lp_failing := failing |}, None)
  | p :: todo =>
      let index := match ps_writes (a_spec p) with None => None | Some _ => Some stored end in
      let stored := match index with None => stored | Some _ => S stored end in
      match stop with
      | Some s =>
          advance a todo stored published stop
            (failing ++ [{| fg_part := p; fg_outcome := stopped_outcome a s index; fg_published := false |}])
      | None =>
          let seq := i ← index; an_seqs a !! i in
          match index, seq with
          | Some i, None =>
              let error := missing_error a i in
              advance a todo stored published
                (Some {| st_error := error; st_at := ps_index (a_spec p); st_external := false |})
                (failing ++ [{| fg_part := p; fg_outcome := FOwn error; fg_published := false |}])
          | _, _ =>
              ({| lp_todo := todo; lp_storedIndex := stored; lp_published := published; lp_stop := None;
                  lp_failing := failing |}, Some (p, seq))
          end
      end
  end.

Definition count_published (l : Loop) : Loop :=
  {| lp_todo := lp_todo l; lp_storedIndex := lp_storedIndex l; lp_published := S (lp_published l);
     lp_stop := lp_stop l; lp_failing := lp_failing l |}.

(** What the failing parts come to once the Session failed; the stop is set when one has
    [FFailed]. *)
Definition failing_rejection (l : Loop) (o : FailedOutcome) (w : Writer) : rejection :=
  match o with
  | FOwn c => OwnError c
  | FFailed => failed (match lp_stop l with Some s => st_error s | None => NotAdopted end) w
  end.

Definition settle_failing (l : Loop) (w : Writer) (f : Failing) : Writer :=
  let r := failing_rejection l (fg_outcome f) w in
  if fg_published f then open (fg_part f) (settle (fg_part f) (Rejected r) w)
  else unpublish (fg_part f) r w.

(** After a failure, what was admitted meanwhile is never sent. *)
Definition drop_queue (w : Writer) : Writer :=
  match w_failure w with
  | None => w
  | Some f => unpublish_all (w_queue w) (SessionFailed (fl_error f)) (with_queue [] w)
  end.

(** The end of [#publish], once the Session failed if it has to. *)
Definition finish (parts : list AdmittedPart) (l : Loop) (w : Writer) : Writer :=
  with_flight (Returning parts) (drop_queue (foldl (settle_failing l) w (lp_failing l))).

Definition own_indices (l : Loop) : list nat :=
  omap (fun f => match fg_outcome f with FOwn _ => Some (ps_index (a_spec (fg_part f))) | FFailed => None end)
    (lp_failing l).

(** After the dispatch of the last part published: fail the Session, settle the rest. *)
Definition conclude (parts : list AdmittedPart) (a : Answer) (l : Loop) (w : Writer) : Writer :=
  let own := own_indices l in
  finish parts l
    match an_rejected a, lp_stop l with
    | Some e, _ => host_fail (Thrown e) (head own) own w
    | None, Some s => host_fail (st_error s) (Some (st_at s)) own w
    | None, None => w
    end.

(** The loop goes on: to the next publication, a macrotask after the last, or to its end. *)
Definition go_on (parts : list AdmittedPart) (a : Answer) (l : Loop) (w : Writer) : Writer :=
  match advance a (lp_todo l) (lp_storedIndex l) (lp_published l) (lp_stop l) (lp_failing l) with
  | (l', Some (p, seq)) =>
      with_flight ((if (0 <? lp_published l')%nat then Hopping else Ready) parts a (count_published l') p seq) w
  | (l', None) =>
      match an_rejected a, lp_stop l' with
      | None, None => finish parts l' w
      | _, _ => with_flight (Dispatching parts a l') w
      end
  end.

(** What a publication answers: whether [stored] throws, and what [publish] returns. *)
Record Reply : Type := {
  rp_stored : option E;
  rp_publish : res E (option PublishFailure);
}.

(** The callback of [publishing]: whether something else failed the Session, and how the
    publication failed. *)
Definition run_publication (p : AdmittedPart) (seq : option N) (r : Reply) (w : Writer)
    : Writer * option cause * option PublishFailure :=
  match w_failure w with
  | Some f => (w, Some (fl_error f), None)
  | None =>
      let w := unregister p w in
      let thrown e := Some {| pf_kind := adoption; pf_error := Thrown e |} in
      let published w :=
        let w := log_event (Published (a_id p) seq) w in
        match rp_publish r with Ok f => (w, None, f) | Throw e => (w, None, thrown e) end in
      match ps_writes (a_spec p) with
      | None => published w
      | Some writes =>
          let w := log_event (Stored (a_id p) writes) w in
          match rp_stored r with Some e => (w, None, thrown e) | None => published w end
      end
  end.

(** The rest of the loop's body, after the publication ran. *)
Definition after (parts : list AdmittedPart) (a : Answer) (l : Loop) (p : AdmittedPart)
    (external : option cause) (failure : option PublishFailure) (w : Writer) : Writer :=
  let stop e ext := set_stop {| st_error := e; st_at := ps_index (a_spec p); st_external := ext |} in
  match external, failure with
  | Some e, _ => go_on parts a (add_failing p FFailed false (stop e true l)) w
  | None, Some {| pf_kind := adoption; pf_error := e |} =>
      go_on parts a (stop e false (add_failing p (FOwn e) true l)) w
  | None, _ =>
      match an_rejected a with
      | Some e =>
          let w := match failure with Some f => log_event (Reported (pf_error f)) w | None => w end in
          go_on parts a (add_failing p (FOwn (Thrown e)) true l) w
      | None =>
          let l := match failure with Some f => stop (pf_error f) false l | None => l end in
          let o := match w_failure w, failure with
                   | Some f, None => Rejected (SessionFailed (fl_error f))
                   | _, _ => Resolved
                   end in
          go_on parts a l (open p (settle p o w))
      end
  end.

(** ** Sending *)

(** [#send] once the storage call settled, and [#publish] up to its first await. *)
Definition received (parts : list AdmittedPart) (a : Answer) (w : Writer) : Writer :=
  match w_failure w with
  | Some f => with_flight (Returning parts) (unpublish_all parts (SessionFailed (fl_error f)) w)
  | None =>
      go_on parts a {| lp_todo := parts; lp_storedIndex := 0; lp_published := 0; lp_stop := None; lp_failing := [] |} w
  end.

Definition batches_of (parts : list AdmittedPart) : list (list StorageWrite) :=
  omap (fun p => ps_writes (a_spec p)) parts.

(** [#send] up to the storage call, which parts without writes do not make. *)
Definition send (parts : list AdmittedPart) (w : Writer) : Writer :=
  match w_failure w with
  | Some f => with_flight (Returning parts) (unpublish_all parts (SessionFailed (fl_error f)) w)
  | None =>
      match batches_of parts with
      | [] => received parts no_answer w
      | batches => with_flight (Sending parts) (log_event (Sent batches) w)
      end
  end.

Definition pump (w : Writer) : Writer :=
  match w_flight w, w_queue w with
  | Landed, _ :: _ => send (w_queue w) (with_queue [] w)
  | _, _ => w
  end.

Definition abandon_part (e : cause) (w : Writer) (p : AdmittedPart) : Writer :=
  let w := match w_done w !! a_id p with Some _ => w | None => unpublish p (failed e w) w end in
  open p (unregister p w).

Definition abandon (parts : list AdmittedPart) (e : cause) (w : Writer) : Writer :=
  foldl (abandon_part e) (host_fail e (ps_index ∘ a_spec <$> head parts) [] w) parts.

(** [#flush] after [#send]: what was admitted meanwhile is sent. *)
Definition flushed (w : Writer) : Writer := pump (with_flight Landed w).

(** ** The methods *)

Definition register (i : nat) (keys : list string) (m : gmap string nat) : gmap string nat :=
  foldl (fun m key => <[key := i]> m) m keys.

Definition admit_part (spec : PartSpec) (w : Writer) : Writer :=
  let i := length (w_parts w) in
  let part := {| a_id := i; a_spec := spec |} in
  pump {| w_parts := w_parts w ++ [part]; w_queue := w_queue w ++ [part]; w_flight := w_flight w;
          w_unpublished := register i (ps_keys spec) (w_unpublished w);
          w_newest := Some i; w_done := w_done w; w_opened := w_opened w; w_failure := w_failure w;
          w_log := w_log w |}.

(** The part whose gate a job that touches [key] waits for. *)
Definition gate (key : string) (w : Writer) : option nat := w_unpublished w !! key.
Definition drained (w : Writer) : option nat := w_newest w.

(** ** Steps *)

(** At an await other code runs. *)
Definition awaiting (f : Flight) : bool :=
  match f with Ready _ _ _ _ _ | Ran _ _ _ _ _ _ false => false | _ => true end.

(** Where a throw the writer does not expect ends [#send]: of [publishing] before it runs
    the callback, and of what follows it. *)
Definition thrower (f : Flight) : option (list AdmittedPart) :=
  match f with Ready parts _ _ _ _ | Ran parts _ _ _ _ _ _ => Some parts | _ => None end.

(** The writer goes on, once what it waits for is there. *)
Inductive moves : Writer -> Writer -> Prop :=
| moves_answer w parts a : w_flight w = Sending parts -> moves w (received parts a w)
| moves_hop w parts a l p seq :
    w_flight w = Hopping parts a l p seq -> moves w (with_flight (Ready parts a l p seq) w)
| moves_scope w parts a l p seq :
    w_flight w = Ready parts a l p seq -> moves w (with_flight (Scoped parts a l p seq) w)
| moves_run w parts a l p seq r pending w' external failure :
    w_flight w = Ready parts a l p seq ->
    run_publication p seq r w = (w', external, failure) ->
    moves w (with_flight (Ran parts a l p external failure pending) w')
| moves_run_scoped w parts a l p seq r w' external failure :
    w_flight w = Scoped parts a l p seq ->
    run_publication p seq r w = (w', external, failure) ->
    moves w (with_flight (Ran parts a l p external failure true) w')
| moves_after w parts a l p external failure pending :
    w_flight w = Ran parts a l p external failure pending ->
    moves w (after parts a l p external failure w)
| moves_dispatched w parts a l :
    w_flight w = Dispatching parts a l -> moves w (conclude parts a l w)
| moves_returned w parts : w_flight w = Returning parts -> moves w (flushed w)
| moves_thrown w parts e :
    thrower (w_flight w) = Some parts -> moves w (flushed (abandon parts (Thrown e) w)).

(** The line admits a part, or anything fails the Session. *)
Inductive writer_step : Writer -> Writer -> Prop :=
| step_admit w spec : awaiting (w_flight w) = true -> writer_step w (admit_part spec w)
| step_fail w e at_index own : writer_step w (host_fail e at_index own w)
| step_moves w w' : moves w w' -> writer_step w w'.

Definition reachable : Writer -> Prop := rtc writer_step writer_new.

End Writer.
