(* ===== verification/WriterInvariant.v ===== *)
(** The invariant of a Session's writer (durable/src/session/writer.ts): two positions of
    the line, before which parts are settled and, from the first on, published or given up,
    say what is in each of its maps, at every await. *)
From S2P Require Import Prelude StorageTypes SessionWriter.

Section Invariant.
Context {E : Type}.
Implicit Types (w : Writer (E := E)) (p : AdmittedPart) (ps : list AdmittedPart) (l : Loop (E := E)).
Implicit Types (f : Failing (E := E)) (a : Answer (E := E)) (o : Outcome (E := E)).

(** The newest part that writes a key. *)
Definition last_writer (key : string) ps : option nat :=
  foldl (fun acc p => if decide (key ∈ ps_keys (a_spec p)) then Some (a_id p) else acc) None ps.

(** Parts before [g] are settled, those before [r] have no keys left. *)
Record shape w (g r : nat) : Prop := {
  sh_ids : a_id <$> w_parts w = seq 0 (length (w_parts w));
  sh_le : g <= r <= length (w_parts w);
  sh_done : forall i, is_Some (w_done w !! i) <-> i < g;
  sh_opened : forall i, i ∈ w_opened w <-> i < g;
  sh_newest : w_newest w = if decide (g < length (w_parts w)) then Some (length (w_parts w) - 1) else None;
  sh_keys : forall key, w_unpublished w !! key = (i ← last_writer key (w_parts w); if decide (r <= i) then Some i else None);
}.

(** What the log says of a part: its publication began, or it was discarded. *)
Definition handled (i : nat) (log : list (event (E := E))) : Prop :=
  (exists writes, Stored i writes ∈ log) \/ (exists seq, Published i seq ∈ log) \/ Discarded i ∈ log.

Definition published_ids (log : list (event (E := E))) : list nat :=
  omap (fun v => match v with Published i _ => Some i | _ => None end) log.

(** ** Keys *)

Lemma last_writer_snoc key ps p :
  last_writer key (ps ++ [p]) = if decide (key ∈ ps_keys (a_spec p)) then Some (a_id p) else last_writer key ps.
Proof. unfold last_writer. by rewrite foldl_app. Qed.

Lemma last_writer_Some key ps i :
  last_writer key ps = Some i -> exists p, p ∈ ps /\ a_id p = i /\ key ∈ ps_keys (a_spec p).
Proof.
  induction ps as [|p ps IH] using rev_ind; [done|]. rewrite last_writer_snoc. case_decide as Hk.
  - intros [= <-]. exists p. set_solver.
  - intros (p' & ? & ? & ?)%IH. exists p'. set_solver.
Qed.

Lemma last_writer_None key ps : last_writer key ps = None -> forall p, p ∈ ps -> key ∉ ps_keys (a_spec p).
Proof.
  induction ps as [|p ps IH] using rev_ind; [set_solver|]. rewrite last_writer_snoc. case_decide as Hk; [done|]. set_solver.
Qed.

(** No part after the newest writer of a key writes it. *)
Lemma last_writer_newest key ps i p :
  a_id <$> ps = seq 0 (length ps) -> last_writer key ps = Some i -> p ∈ ps -> key ∈ ps_keys (a_spec p) -> a_id p <= i.
Proof.
  induction ps as [|p' ps IH] using rev_ind; [set_solver|].
  rewrite fmap_app, length_app, seq_app, last_writer_snoc. cbn.
  intros [Hids [= Hid]]%app_inj_tail. cbn in Hid.
  assert (Hlt : forall p, p ∈ ps -> a_id p < length ps).
  { intros q Hq. assert (Hin : a_id q ∈ (a_id <$> ps)) by (by apply list_elem_of_fmap_2).
    rewrite Hids in Hin. apply elem_of_seq in Hin. lia. }
  case_decide as Hk.
  - intros [= <-] [Hp| ->%list_elem_of_singleton]%elem_of_app _; [|lia]. specialize (Hlt p Hp). lia.
  - intros Hl [Hp| ->%list_elem_of_singleton]%elem_of_app Hkey; [by eapply IH|done].
Qed.

Lemma drop_keys_lookup i keys (m : gmap string nat) key :
  drop_keys i keys m !! key = if decide (key ∈ keys /\ m !! key = Some i) then None else m !! key.
Proof.
  revert m. induction keys as [|k keys IH]; intros m; cbn [drop_keys].
  { rewrite decide_False; [done|]. set_solver. }
  rewrite IH. destruct (decide (k = key)) as [->|Hne].
  - destruct (decide (m !! key = Some i)) as [Hm|Hm].
    + rewrite lookup_delete_eq, decide_False, decide_True by set_solver. done.
    + rewrite !decide_False by (intros [_ ?]; done). done.
  - assert (Hl : (if decide (m !! k = Some i) then delete k m else m) !! key = m !! key).
    { destruct (decide (m !! k = Some i)); [rewrite lookup_delete_ne by done; done|done]. }
    rewrite Hl. apply decide_ext. set_solver.
Qed.

Lemma register_lookup i keys (m : gmap string nat) key :
  register i keys m !! key = if decide (key ∈ keys) then Some i else m !! key.
Proof.
  unfold register. induction keys as [|k keys IH] using rev_ind; cbn; [done|].
  rewrite foldl_app. cbn. destruct (decide (k = key)) as [->|Hne].
  - by rewrite lookup_insert_eq, decide_True by set_solver.
  - rewrite lookup_insert_ne, IH by done. apply decide_ext. set_solver.
Qed.

(** ** Settling keeps the shape *)

Lemma shape_part w g r i p : shape w g r -> w_parts w !! i = Some p -> a_id p = i.
Proof.
  intros Hs Hp. pose proof (sh_ids _ _ _ Hs) as Hids. apply lookup_lt_Some in Hp as Hlt.
  assert (H : (a_id <$> w_parts w) !! i = Some (a_id p)) by (by rewrite list_lookup_fmap, Hp).
  rewrite Hids, lookup_seq_lt in H by done. by injection H.
Qed.

Lemma shape_keys_unregister w g r p :
  shape w g r -> w_parts w !! a_id p = Some p -> a_id p <= r ->
  forall key, drop_keys (a_id p) (ps_keys (a_spec p)) (w_unpublished w) !! key =
    (i ← last_writer key (w_parts w); if decide (max r (S (a_id p)) <= i) then Some i else None).
Proof.
  intros Hs Hp Hle key. rewrite drop_keys_lookup, (sh_keys _ _ _ Hs).
  destruct (last_writer key (w_parts w)) as [i|] eqn:Hl; cbn; [|by case_decide].
  destruct (decide (i = a_id p)) as [->|Hne].
  - destruct (last_writer_Some _ _ _ Hl) as (q & Hq & Hid & Hk).
    apply list_elem_of_lookup in Hq as (j & Hj).
    assert (j = a_id p) as -> by (rewrite <- Hid; symmetry; by eapply shape_part).
    assert (q = p) as -> by congruence.
    rewrite (decide_False (P := max _ _ <= _)) by lia.
    case_decide as H1; [done|]. case_decide as H2; [|done]. destruct H1. done.
  - assert (Hd : (max r (S (a_id p)) <= i) <-> (r <= i)) by lia.
    case_decide as H1.
    + destruct H1 as [_ H1]. case_decide; [congruence|done].
    + case_decide; case_decide; try done; lia.
Qed.

(** Opening the gate of the first part not settled, once it is. *)
Lemma shape_settle w g r r' p o um log' :
  shape w g r -> w_parts w !! g = Some p -> r <= r' -> g < r' -> r' <= length (w_parts w) ->
  (forall key, um !! key = (i ← last_writer key (w_parts w); if decide (r' <= i) then Some i else None)) ->
  forall w', w' = open p {| w_parts := w_parts w; w_queue := w_queue w; w_flight := w_flight w; w_unpublished := um;
    w_newest := w_newest w; w_done := <[g := o]> (w_done w); w_opened := w_opened w; w_failure := w_failure w;
    w_log := log' |} -> shape w' (S g) r'.
Proof.
  intros Hs Hp Hrr Hgr Hrn Hum w' ->. pose proof (shape_part _ _ _ _ _ Hs Hp) as Hid.
  apply lookup_lt_Some in Hp as Hlt. split; cbn; [apply Hs|lia|..|done].
  - intros i. rewrite lookup_insert_is_Some, (sh_done _ _ _ Hs). lia.
  - intros i. rewrite Hid, elem_of_union, elem_of_singleton, (sh_opened _ _ _ Hs). lia.
  - rewrite (sh_newest _ _ _ Hs), Hid, (decide_True (P := g < _)) by done.
    case_decide as H1; case_decide as H2; try done; [injection H1; lia|]. destruct H1. f_equal. lia.
Qed.

Lemma shape_not_done w g r p : shape w g r -> w_parts w !! g = Some p -> w_done w !! a_id p = None.
Proof.
  intros Hs Hp. rewrite (shape_part _ _ _ _ _ Hs Hp). apply eq_None_not_Some. rewrite (sh_done _ _ _ Hs). lia.
Qed.

Lemma settle_open_shape w g r p o :
  shape w g r -> w_parts w !! g = Some p -> g < r -> shape (open p (settle p o w)) (S g) r.
Proof.
  intros Hs Hp Hlt. pose proof (shape_part _ _ _ _ _ Hs Hp) as Hid. eapply shape_settle; [exact Hs|exact Hp|..].
  - done.
  - done.
  - apply Hs.
  - apply Hs.
  - unfold settle. by rewrite (shape_not_done _ _ _ _ Hs Hp), Hid.
Qed.

Lemma unpublish_shape w g r p e :
  shape w g r -> w_parts w !! g = Some p -> shape (unpublish p e w) (S g) (max r (S g)).
Proof.
  intros Hs Hp. pose proof (shape_part _ _ _ _ _ Hs Hp) as Hid. apply lookup_lt_Some in Hp as Hlt.
  pose proof (sh_le _ _ _ Hs) as Hle.
  eapply (shape_settle w g r (max r (S g))); [exact Hs|exact Hp|lia|lia|lia| |].
  - intros key. rewrite <- Hid. apply (shape_keys_unregister w g); [done|by rewrite Hid|lia].
  - unfold unpublish, unregister, settle, log_event. cbn. by rewrite (shape_not_done _ _ _ _ Hs Hp), Hid.
Qed.

(** ** What is logged and settled *)

(** A rejection is the outcome of a failed Session. *)
Definition justified (r : rejection (E := E)) w : Prop :=
  exists x : Failure, w_failure w = Some x /\ match r with SessionFailed c => c = fl_error x | OwnError _ => True end.

(** Parts before [r] are handled, those before [k] published, in the order of the line. *)
Record history w (r k : nat) : Prop := {
  hi_handled : forall i, handled i (w_log w) <-> i < r;
  hi_published : published_ids (w_log w) = seq 0 k;
  hi_le : k <= r;
  hi_resolved : forall i, w_done w !! i = Some Resolved -> i < k;
  hi_rejected : forall i rj, w_done w !! i = Some (Rejected rj) -> justified rj w;
  hi_discarded : forall i, Discarded i ∈ w_log w -> w_failure w <> None;
  hi_stored : forall i sq p writes, Published i sq ∈ w_log w -> w_parts w !! i = Some p ->
    ps_writes (a_spec p) = Some writes -> Stored i writes ∈ w_log w;
}.

(** What settling a part leaves alone. *)
Record frame w w' : Prop := {
  fr_parts : w_parts w' = w_parts w;
  fr_queue : w_queue w' = w_queue w;
  fr_flight : w_flight w' = w_flight w;
  fr_failure : w_failure w' = w_failure w;
}.

#[local] Instance frame_preorder : PreOrder frame.
Proof. split; [by intros w|]. intros w1 w2 w3 [] []. split; congruence. Qed.

Lemma justified_frame r w w' : w_failure w' = w_failure w -> justified r w -> justified r w'.
Proof. unfold justified. by intros ->. Qed.

Lemma handled_snoc i log v :
  handled i (log ++ [v]) <->
  handled i log \/ match v with Stored j _ => i = j | Published j _ => i = j | Discarded j => i = j | _ => False end.
Proof.
  unfold handled. split.
  - intros [[x Hx]|[[x Hx]|Hx]]; apply elem_of_app in Hx as [Hx|Hx%list_elem_of_singleton]; subst; eauto 6.
  - intros [[[x Hx]|[[x Hx]|Hx]]|Hv].
    + left. exists x. set_solver.
    + right. left. exists x. set_solver.
    + right. right. set_solver.
    + destruct v; try done; subst; [left|right; left|right; right]; try eexists; apply elem_of_app; right; by apply list_elem_of_singleton.
Qed.

Lemma published_snoc log v :
  published_ids (log ++ [v]) = published_ids log ++ match v with Published i _ => [i] | _ => [] end.
Proof. unfold published_ids. rewrite omap_app. by destruct v. Qed.

Lemma history_settle w r k p o :
  history w r k -> w_done w !! a_id p = None ->
  match o with Resolved => a_id p < k | Rejected rj => justified rj w end ->
  history (settle p o w) r k.
Proof.
  intros [H1 H2 H3 H4 H5 H6 H7] Hd Ho. split; cbn; try done; rewrite Hd; intros i.
  - intros [(<- & ->)|[_ Hi]]%lookup_insert_Some; [done|by apply H4].
  - intros rj [(<- & ->)|[_ Hi]]%lookup_insert_Some; [by eapply justified_frame|]. eapply justified_frame; [|by eapply H5]. done.
Qed.

(** Only the parts, the log, the outcomes and the failure matter. *)
Lemma history_frame w w' r k :
  w_parts w' = w_parts w -> w_log w' = w_log w -> w_done w' = w_done w -> w_failure w' = w_failure w ->
  history w r k -> history w' r k.
Proof.
  intros Hp Hl Hd Hf [H1 H2 H3 H4 H5 H6 H7]. split; rewrite ?Hl, ?Hd, ?Hp, ?Hf; try done.
  intros i rj Hi. eapply justified_frame; [exact Hf|]. by eapply H5.
Qed.

Lemma history_event v w r k r' k' :
  history w r k ->
  (forall i, (i < r \/ match v with Stored j _ => i = j | Published j _ => i = j | Discarded j => i = j | _ => False end)
    <-> i < r') ->
  seq 0 k ++ match v with Published i _ => [i] | _ => [] end = seq 0 k' -> k <= k' <= r' ->
  match v with
  | Discarded _ => w_failure w <> None
  | Published i _ => forall p writes, w_parts w !! i = Some p -> ps_writes (a_spec p) = Some writes -> Stored i writes ∈ w_log w
  | _ => True
  end ->
  history (log_event v w) r' k'.
Proof.
  intros [H1 H2 H3 H4 H5 H6 H7] Hr Hk Hle Hv. split; cbn; try done; [|by rewrite published_snoc, H2|lia|..].
  - intros i. by rewrite handled_snoc, H1.
  - intros i Hi. apply H4 in Hi. lia.
  - intros i [Hi|Hi%list_elem_of_singleton]%elem_of_app; [by eapply H6|]. by subst v.
  - intros i sq p writes [Hi|Hi%list_elem_of_singleton]%elem_of_app Hp Hw; apply elem_of_app; left; [by eapply H7|].
    subst v. by eapply Hv.
Qed.

(** ** Settling parts *)

Lemma settle_open_ok w g r k p o :
  shape w g r -> history w r k -> w_parts w !! g = Some p -> g < r ->
  match o with Resolved => g < k | Rejected rj => justified rj w end ->
  shape (open p (settle p o w)) (S g) r /\ history (open p (settle p o w)) r k /\ frame w (open p (settle p o w)).
Proof.
  intros Hs Hh Hp Hlt Ho. split_and!; [by apply settle_open_shape| |done].
  pose proof (shape_part _ _ _ _ _ Hs Hp) as Hid. apply (history_frame (settle p o w)); try done.
  apply history_settle; [done|by eapply shape_not_done|by rewrite Hid].
Qed.

Lemma unpublish_ok w g r k p rj :
  shape w g r -> history w r k -> w_parts w !! g = Some p -> justified rj w ->
  shape (unpublish p rj w) (S g) (max r (S g)) /\ history (unpublish p rj w) (max r (S g)) k /\
  frame w (unpublish p rj w).
Proof.
  intros Hs Hh Hp Hj. split_and!; [by apply unpublish_shape| |done].
  pose proof (shape_part _ _ _ _ _ Hs Hp) as Hid.
  apply (history_frame (settle p (Rejected rj) (log_event (Discarded (a_id p)) w))); try done.
  apply history_settle; [|by apply (shape_not_done w g r)|done].
  pose proof (hi_le _ _ _ Hh). pose proof (sh_le _ _ _ Hs).
  eapply history_event; [exact Hh|intros i; cbn; lia|by rewrite app_nil_r|lia|]. cbn. destruct Hj as (x & Hx & _). by rewrite Hx.
Qed.

Lemma rest_lookup {A} (l : list A) g (x : A) (ps q : list A) :
  x :: ps ++ q = drop g l -> l !! g = Some x /\ ps ++ q = drop (S g) l.
Proof.
  intros H. assert (Hx : l !! g = Some x).
  { rewrite <- (Nat.add_0_r g), <- lookup_drop, <- H. done. }
  split; [done|]. rewrite (drop_S _ _ _ Hx) in H. by injection H.
Qed.

Lemma unpublish_all_ok ps rj : forall w g k,
  shape w g g -> history w g k -> ps ++ w_queue w = drop g (w_parts w) -> justified rj w ->
  let w' := unpublish_all ps rj w in
  let g' := g + length ps in
  shape w' g' g' /\ history w' g' k /\ frame w w' /\ w_queue w' = drop g' (w_parts w').
Proof.
  induction ps as [|p ps IH]; intros w g k Hs Hh Hr Hj; cbn; [by rewrite Nat.add_0_r|].
  apply rest_lookup in Hr as [Hp Hr].
  destruct (unpublish_ok w g g k p rj) as (Hs1 & Hh1 & Hf1); [done..|].
  replace (max g (S g)) with (S g) in Hs1, Hh1 by lia.
  destruct (IH _ _ _ Hs1 Hh1) as (Hs2 & Hh2 & Hf2 & Hq2).
  - by rewrite (fr_queue _ _ Hf1), (fr_parts _ _ Hf1).
  - eapply justified_frame; [|exact Hj]. apply Hf1.
  - rewrite <- Nat.add_succ_comm. split_and!; try done. by etrans.
Qed.

(** The failing parts from [g] on: those before [r] were published. *)
Definition marks (g r : nat) (fs : list (Failing (E := E))) : Prop :=
  g <= r <= g + length fs /\ forall j f, fs !! j = Some f -> fg_published f = bool_decide (g + j < r).

Lemma marks_snoc g r fs p fo b :
  marks g r fs -> b = bool_decide (g + length fs < r) ->
  marks g r (fs ++ [{| fg_part := p; fg_outcome := fo; fg_published := b |}]).
Proof.
  intros [Hle Hm] ->. split; [rewrite length_app; cbn; lia|].
  intros j f [Hj|[Hj Hf]]%lookup_app_Some; [by apply Hm|].
  apply list_lookup_singleton_Some in Hf as [Hz <-]. cbn. apply bool_decide_ext. lia.
Qed.

(** One more published. *)
Lemma marks_published g r fs p fo :
  marks g r fs -> r = g + length fs ->
  marks g (S r) (fs ++ [{| fg_part := p; fg_outcome := fo; fg_published := true |}]).
Proof.
  intros [Hle Hm] Hr. split; [rewrite length_app; cbn; lia|].
  intros j f [Hj|[Hj Hf]]%lookup_app_Some.
  - rewrite (Hm _ _ Hj). apply lookup_lt_Some in Hj. apply bool_decide_ext. lia.
  - apply list_lookup_singleton_Some in Hf as [Hz <-]. cbn. symmetry. apply bool_decide_eq_true. lia.
Qed.

Lemma settle_failing_ok l fs : forall w g r k,
  shape w g r -> history w r k -> (fg_part <$> fs) ++ w_queue w = drop g (w_parts w) -> marks g r fs ->
  w_failure w <> None ->
  let w' := foldl (settle_failing l) w fs in
  let g' := g + length fs in
  shape w' g' g' /\ history w' g' k /\ frame w w' /\ w_queue w' = drop g' (w_parts w').
Proof.
  induction fs as [|f fs IH]; intros w g r k Hs Hh Hr [Hle Hm] Hf; cbn in *.
  { assert (r = g) as -> by lia. by rewrite Nat.add_0_r. }
  apply rest_lookup in Hr as [Hp Hr].
  assert (Hj : justified (failing_rejection l (fg_outcome f) w) w).
  { destruct (w_failure w) as [x|] eqn:Hx; [|done]. exists x. split; [done|].
    unfold failing_rejection, failed. rewrite Hx. by destruct (fg_outcome f). }
  set (r' := max r (S g)).
  assert (Hstep : shape (settle_failing l w f) (S g) r' /\ history (settle_failing l w f) r' k /\
    frame w (settle_failing l w f)).
  { unfold settle_failing. specialize (Hm 0 f eq_refl). rewrite Nat.add_0_r in Hm. rewrite Hm. case_bool_decide as Hlt.
    - replace r' with r by lia. by apply settle_open_ok.
    - by apply unpublish_ok. }
  destruct Hstep as (Hs1 & Hh1 & Hf1).
  destruct (IH _ _ _ _ Hs1 Hh1) as (Hs2 & Hh2 & Hf2 & Hq2).
  - by rewrite (fr_queue _ _ Hf1), (fr_parts _ _ Hf1).
  - split; [lia|]. intros j f' Hj'. rewrite (Hm (S j) f' Hj'). apply bool_decide_ext. lia.
  - by rewrite (fr_failure _ _ Hf1).
  - rewrite <- Nat.add_succ_comm. split_and!; try done. by etrans.
Qed.

(** ** The invariant *)

(** A call's parts and the queue are what follows a position of the line. *)
Definition in_call w (g : nat) (parts : list AdmittedPart) : Prop :=
  parts <> [] /\ exists g0, g0 <= g /\ parts ++ w_queue w = drop g0 (w_parts w).

Definition publishing w (g r : nat) (parts : list AdmittedPart) a l p : Prop :=
  in_call w g parts /\ (fg_part <$> lp_failing l) ++ p :: lp_todo l ++ w_queue w = drop g (w_parts w) /\
  marks g r (lp_failing l) /\ r = g + length (lp_failing l) /\ lp_stop l = None /\
  (lp_failing l = [] \/ an_rejected a <> None).

Definition flight_ok w (g r : nat) : Prop :=
  match w_flight w with
  | Landed => w_queue w = [] /\ g = length (w_parts w)
  | Sending parts => parts <> [] /\ parts ++ w_queue w = drop g (w_parts w) /\ r = g
  | Hopping parts a l p _ | Ready parts a l p _ | Scoped parts a l p _ => publishing w g r parts a l p
  | Ran parts a l p external _ _ =>
      exists r', publishing w g r' parts a l p /\ r = match external with Some _ => r' | None => S r' end
  | Dispatching parts a l =>
      in_call w g parts /\ (fg_part <$> lp_failing l) ++ w_queue w = drop g (w_parts w) /\
      marks g r (lp_failing l) /\ (an_rejected a <> None \/ lp_stop l <> None)
  | Returning parts => w_queue w = drop g (w_parts w) /\ r = g
  end.

(** Nothing has kept a part from being published yet. *)
Definition live w : Prop :=
  match w_flight w with
  | Ran _ _ _ _ external failure _ =>
      external = None /\ match failure with Some {| pf_kind := adoption |} => False | _ => True end
  | Dispatching _ _ _ => False
  | _ => w_failure w = None
  end.

Definition writer_ok w : Prop :=
  exists g r k, shape w g r /\ history w r k /\ flight_ok w g r /\ (live w -> k = r).

(** Flights do not matter for the other parts. *)
Lemma shape_flight w g r fl : shape w g r -> shape (with_flight fl w) g r.
Proof. by intros []. Qed.
Lemma history_flight w r k fl : history w r k -> history (with_flight fl w) r k.
Proof. by apply history_frame. Qed.

Lemma writer_new_ok : writer_ok writer_new.
Proof.
  exists 0, 0, 0. split_and!; try done; split; cbn; try done.
  - intros i. rewrite lookup_empty. split; [by intros []|lia].
  - intros i. split; [intros Hi; by apply not_elem_of_empty in Hi|lia].
  - intros i. split; [|lia]. unfold handled. set_solver.
  - intros i Hi. by apply not_elem_of_nil in Hi.
Qed.

(** ** The loop *)

(** The loop stops at the first part to publish, or gives all up after the first missing
    receipt. *)
Lemma advance_ok a ps : forall stored published stop fs g r l' next (q line : list AdmittedPart),
  advance a ps stored published stop fs = (l', next) ->
  (fg_part <$> fs) ++ ps ++ q = drop g line -> marks g r fs -> (stop = None -> r = g + length fs) ->
  match next with
  | Some (p, _) =>
      stop = None /\ lp_failing l' = fs /\ lp_stop l' = None /\ ps = p :: lp_todo l' /\ lp_published l' = published
  | None =>
      (fg_part <$> lp_failing l') ++ q = drop g line /\ marks g r (lp_failing l') /\
      (lp_stop l' = None -> stop = None /\ ps = [] /\ lp_failing l' = fs)
  end.
Proof.
  induction ps as [|p ps IH]; intros stored published stop fs g r l' next q line Ha Hl Hm Hr; cbn [advance] in Ha.
  { injection Ha as <- <-. cbn. split_and!; [done|done|]. by intros ->. }
  assert (Hsnoc : forall st s fo, advance a ps st published (Some s)
      (fs ++ [{| fg_part := p; fg_outcome := fo; fg_published := false |}]) = (l', next) ->
    match next with
    | Some (p', _) => stop = None /\ lp_failing l' = fs /\ lp_stop l' = None /\ p :: ps = p' :: lp_todo l' /\ lp_published l' = published
    | None =>
        (fg_part <$> lp_failing l') ++ q = drop g line /\ marks g r (lp_failing l') /\
        (lp_stop l' = None -> stop = None /\ p :: ps = [] /\ lp_failing l' = fs)
    end).
  { intros st s fo H. eapply (IH _ _ _ _ g r) in H.
    - destruct next as [[p' seq]|]; [by destruct H|]. destruct H as (H1 & H2 & H3). split_and!; [exact H1|done|].
      by intros [? _]%H3.
    - by rewrite fmap_app, <- app_assoc.
    - apply marks_snoc; [done|]. symmetry. apply bool_decide_eq_false. destruct Hm. lia.
    - done. }
  destruct stop as [s|]; [by eapply Hsnoc|].
  destruct (ps_writes (a_spec p)) as [ws|]; cbn in Ha.
  - destruct (an_seqs a !! stored) as [x|] eqn:Hx; [|by eapply Hsnoc]. injection Ha as <- <-. by cbn.
  - injection Ha as <- <-. by cbn.
Qed.

(** What was admitted meanwhile is given up when the Session failed. *)
Lemma drop_queue_ok w g k :
  shape w g g -> history w g k -> w_queue w = drop g (w_parts w) ->
  exists g', shape (drop_queue w) g' g' /\ history (drop_queue w) g' k /\
    w_queue (drop_queue w) = drop g' (w_parts (drop_queue w)) /\ w_failure (drop_queue w) = w_failure w /\
    (w_failure w = None -> g' = g).
Proof.
  intros Hs Hh Hq. unfold drop_queue. destruct (w_failure w) as [x|] eqn:Hx; [|by exists g].
  destruct (unpublish_all_ok (w_queue w) (SessionFailed (fl_error x)) (with_queue [] w) g k)
    as (Hs' & Hh' & Hf' & Hq').
  - by destruct Hs.
  - by eapply history_frame; [..|exact Hh].
  - cbn. by rewrite app_nil_r.
  - exists x. done.
  - eexists. split_and!; [exact Hs'|exact Hh'|exact Hq'| |done]. by rewrite (fr_failure _ _ Hf').
Qed.

Lemma returning_ok parts w g k :
  shape w g g -> history w g k -> w_queue w = drop g (w_parts w) -> (w_failure w = None -> k = g) ->
  writer_ok (with_flight (Returning parts) w).
Proof. intros Hs Hh Hq Hk. exists g, g, k. split_and!; [by apply shape_flight|by apply history_flight|done|done]. Qed.

Lemma finish_ok parts l w g r k :
  shape w g r -> history w r k -> (fg_part <$> lp_failing l) ++ w_queue w = drop g (w_parts w) ->
  marks g r (lp_failing l) -> (w_failure w = None -> lp_failing l = [] /\ k = r) ->
  writer_ok (finish parts l w).
Proof.
  intros Hs Hh Hq Hm Hn. unfold finish.
  assert (Hw : exists g', let w' := foldl (settle_failing l) w (lp_failing l) in
    shape w' g' g' /\ history w' g' k /\ w_queue w' = drop g' (w_parts w') /\ (w_failure w' = None -> k = g')).
  { destruct (w_failure w) as [x|] eqn:Hx.
    - destruct (settle_failing_ok l (lp_failing l) w g r k) as (Hs' & Hh' & Hf' & Hq'); [by rewrite ?Hx..|].
      eexists. split_and!; [exact Hs'|exact Hh'|done|]. by rewrite (fr_failure _ _ Hf'), Hx.
    - destruct Hn as [Hfs ->]; [done|]. rewrite Hfs in *. destruct Hm as [Hm _]. cbn in *.
      assert (r = g) as -> by lia. by exists g. }
  destruct Hw as (g' & Hs' & Hh' & Hq' & Hk').
  destruct (drop_queue_ok _ _ _ Hs' Hh' Hq') as (g2 & Hs2 & Hh2 & Hq2 & Hf2 & Hg2).
  eapply returning_ok; [done..|]. rewrite Hf2. intros Hn'. rewrite Hg2 by done. by apply Hk'.
Qed.

Lemma go_on_ok parts a l w g r k :
  shape w g r -> history w r k -> in_call w g parts ->
  (fg_part <$> lp_failing l) ++ lp_todo l ++ w_queue w = drop g (w_parts w) -> marks g r (lp_failing l) ->
  (lp_stop l = None -> r = g + length (lp_failing l) /\ (lp_failing l = [] \/ an_rejected a <> None)) ->
  (lp_stop l = None -> w_failure w = None -> k = r) ->
  writer_ok (go_on parts a l w).
Proof.
  intros Hs Hh Hc Hq Hm Hst Hk. unfold go_on.
  destruct (advance _ _ _ _ _ _) as [l' next] eqn:Ha. eapply (advance_ok _ _ _ _ _ _ g r) in Ha; [|exact Hq|exact Hm|by intros [? _]%Hst].
  destruct next as [[p seq]|].
  - destruct Ha as (Hn & Hfs & Hs' & Htodo & _). destruct (Hst Hn) as [Hr Hrej]. rewrite Htodo in Hq.
    assert (Hp : publishing w g r parts a (count_published l') p) by (split_and!; cbn; by rewrite ?Hfs).
    exists g, r, k. split_and!; [by apply shape_flight|by apply history_flight| |].
    + by destruct (0 <? lp_published l').
    + intros Hl. apply Hk; [done|]. by destruct (0 <? lp_published l').
  - destruct Ha as (Hq' & Hm' & Hn'). destruct (an_rejected a) as [e|] eqn:Hrej; [|destruct (lp_stop l') as [s|] eqn:Hs'].
    + exists g, r, k. split_and!; [by apply shape_flight|by apply history_flight| |done].
      cbn. split_and!; [done..|]. left. by rewrite Hrej.
    + exists g, r, k. split_and!; [by apply shape_flight|by apply history_flight| |done].
      cbn. split_and!; [done..|]. right. by rewrite Hs'.
    + destruct (Hn' eq_refl) as (Hn & _ & Hfs). destruct (Hst Hn) as [Hr [Hfs'|?]]; [|done].
      eapply finish_ok; [done..|]. intros Hf. split; [congruence|]. by apply Hk.
Qed.

(** ** Sending and publishing *)

Lemma unpublish_all_returning parts ps x w g k :
  shape w g g -> history w g k -> ps ++ w_queue w = drop g (w_parts w) -> w_failure w = Some x ->
  writer_ok (with_flight (Returning parts) (unpublish_all ps (SessionFailed (fl_error x)) w)).
Proof.
  intros Hs Hh Hq Hx. destruct (unpublish_all_ok ps (SessionFailed (fl_error x)) w g k) as (Hs' & Hh' & Hf' & Hq'); [done..|by exists x|].
  eapply returning_ok; [done..|]. by rewrite (fr_failure _ _ Hf'), Hx.
Qed.

Lemma received_ok parts a w g k :
  shape w g g -> history w g k -> parts <> [] -> parts ++ w_queue w = drop g (w_parts w) ->
  (w_failure w = None -> k = g) -> writer_ok (received parts a w).
Proof.
  intros Hs Hh Hne Hq Hk. unfold received. destruct (w_failure w) as [x|] eqn:Hx; [by eapply unpublish_all_returning|].
  eapply go_on_ok; cbn; [exact Hs|exact Hh|..|by intros _ _; apply Hk].
  - split; [done|]. by exists g.
  - done.
  - split; cbn; [lia|done].
  - intros _. split; [lia|by left].
Qed.

Lemma send_ok parts w g k :
  shape w g g -> history w g k -> parts <> [] -> parts ++ w_queue w = drop g (w_parts w) ->
  (w_failure w = None -> k = g) -> writer_ok (send parts w).
Proof.
  intros Hs Hh Hne Hq Hk. unfold send. destruct (w_failure w) as [x|] eqn:Hx; [by eapply unpublish_all_returning|].
  destruct (batches_of parts) as [|b bs] eqn:Hb; [eapply received_ok; try done; by rewrite Hx|].
  exists g, g, k. split_and!; [by destruct Hs| |by cbn|by intros _; apply Hk].
  pose proof (hi_le _ _ _ Hh). apply history_flight. eapply history_event; [exact Hh|intros i; cbn; lia|by rewrite app_nil_r|lia|done].
Qed.

Lemma pump_ok w g k :
  w_flight w = Landed -> shape w g g -> history w g k -> w_queue w = drop g (w_parts w) ->
  (w_failure w = None -> k = g) -> writer_ok (pump w).
Proof.
  intros Hfl Hs Hh Hq Hk. unfold pump. rewrite Hfl. destruct (w_queue w) as [|p q] eqn:Hqu.
  - exists g, g, k. split_and!; [done..| |by unfold live; rewrite Hfl]. unfold flight_ok. rewrite Hfl. split; [done|].
    apply (f_equal length) in Hq. rewrite length_drop in Hq. cbn in Hq. pose proof (sh_le _ _ _ Hs). lia.
  - eapply send_ok; [by destruct Hs|by eapply history_frame; [..|exact Hh]|done| |done]. cbn. by rewrite app_nil_r.
Qed.

Lemma flushed_ok w g k :
  shape w g g -> history w g k -> w_queue w = drop g (w_parts w) -> (w_failure w = None -> k = g) ->
  writer_ok (flushed w).
Proof. intros Hs Hh Hq Hk. eapply pump_ok; [done|by apply shape_flight|by apply history_flight|done|done]. Qed.

(** A failure of the host keeps the rest. *)
Lemma host_fail_frame e at_index own w :
  w_failure (host_fail e at_index own w) <> None /\
  (forall g r, shape w g r -> shape (host_fail e at_index own w) g r) /\
  (forall r k, history w r k -> history (host_fail e at_index own w) r k) /\
  w_parts (host_fail e at_index own w) = w_parts w /\ w_queue (host_fail e at_index own w) = w_queue w /\
  w_flight (host_fail e at_index own w) = w_flight w /\ w_log (host_fail e at_index own w) = w_log w.
Proof.
  unfold host_fail. destruct (w_failure w) as [x|] eqn:Hx; [by rewrite Hx|]. split_and!; try done.
  - by intros g r [].
  - intros r k [H1 H2 H3 H4 H5]. split; try done. intros i rj (y & Hy & _)%H5. congruence.
Qed.

Lemma host_fail_ok e at_index own w : writer_ok w -> writer_ok (host_fail e at_index own w).
Proof.
  intros (g & r & k & Hs & Hh & Hf & Hl).
  destruct (host_fail_frame e at_index own w) as (Hn & Hs' & Hh' & Hp' & Hq' & Hf' & _).
  exists g, r, k. split_and!; [by apply Hs'|by apply Hh'| |].
  - unfold flight_ok, publishing, in_call in *. by rewrite Hf', Hp', Hq'.
  - unfold live in *. rewrite Hf'. by destruct (w_flight w).
Qed.

Lemma conclude_ok parts a l w g r k :
  shape w g r -> history w r k -> (fg_part <$> lp_failing l) ++ w_queue w = drop g (w_parts w) ->
  marks g r (lp_failing l) -> an_rejected a <> None \/ lp_stop l <> None ->
  writer_ok (conclude parts a l w).
Proof.
  intros Hs Hh Hq Hm Hr. unfold conclude.
  assert (Hw : exists e at_index own, match an_rejected a, lp_stop l with
      | Some e, _ => host_fail (Thrown e) (head (own_indices l)) (own_indices l) w
      | None, Some s => host_fail (st_error s) (Some (st_at s)) (own_indices l) w
      | None, None => w end = host_fail e at_index own w).
  { destruct (an_rejected a), (lp_stop l); naive_solver. }
  destruct Hw as (e & at_index & own & ->).
  destruct (host_fail_frame e at_index own w) as (Hn & Hs' & Hh' & Hp' & Hq' & _).
  eapply finish_ok; [by apply Hs'|by apply Hh'|by rewrite Hp', Hq'|done|done].
Qed.

(** ** A publication *)

Lemma publishing_part w g r parts a l p :
  publishing w g r parts a l p -> w_parts w !! r = Some p.
Proof.
  intros (_ & Hq & _ & -> & _). rewrite <- lookup_drop, <- Hq. apply list_lookup_middle. by rewrite length_fmap.
Qed.

Lemma unregister_ok w g r p :
  shape w g r -> w_parts w !! r = Some p -> shape (unregister p w) g (S r).
Proof.
  intros Hs Hp. pose proof (shape_part _ _ _ _ _ Hs Hp) as Hid. apply lookup_lt_Some in Hp as Hlt.
  pose proof (sh_le _ _ _ Hs). split; cbn; try apply Hs; [lia|]. intros key.
  rewrite (shape_keys_unregister w g r p Hs); [|by rewrite Hid|lia]. by rewrite Hid, Nat.max_r by lia.
Qed.

(** A publication begins: the part's keys go, and it is logged; the writer stays live
    unless adoption fails. *)
Lemma run_publication_spec p sq reply w g r w' external failure :
  shape w g r -> history w r r -> w_parts w !! r = Some p -> w_failure w = None ->
  run_publication p sq reply w = (w', external, failure) ->
  external = None /\ shape w' g (S r) /\ frame w w' /\
  exists k, history w' (S r) k /\ (match failure with Some {| pf_kind := adoption |} => False | _ => True end -> k = S r).
Proof.
  intros Hs Hh Hp Hf Hrun. pose proof (shape_part _ _ _ _ _ Hs Hp) as Hid.
  pose proof (unregister_ok _ _ _ _ Hs Hp) as Hs1.
  assert (Hh1 : history (unregister p w) r r) by (by eapply history_frame; [..|exact Hh]).
  assert (Hpub : forall w0 r0, shape w0 g (S r) -> frame w w0 -> history w0 r0 r -> r <= r0 <= S r ->
    (forall writes, ps_writes (a_spec p) = Some writes -> Stored (a_id p) writes ∈ w_log w0) ->
    match rp_publish reply with
    | Ok x => (log_event (Published (a_id p) sq) w0, None, x)
    | Throw e => (log_event (Published (a_id p) sq) w0, None, Some {| pf_kind := adoption; pf_error := Thrown e |})
    end = (w', external, failure) ->
    external = None /\ shape w' g (S r) /\ frame w w' /\
    exists k, history w' (S r) k /\ (match failure with Some {| pf_kind := adoption |} => False | _ => True end -> k = S r)).
  { intros w0 r0 Hs0 Hf0 Hh0 Hr0 Hst0 H.
    assert (w' = log_event (Published (a_id p) sq) w0 /\ external = None) as [-> ->] by (destruct (rp_publish reply); naive_solver).
    split_and!; [done|by destruct Hs0|by destruct Hf0|]. exists (S r). split; [|done].
    eapply history_event; [exact Hh0|intros i; cbn; lia|by rewrite Hid, seq_S|lia|].
    cbn. rewrite (fr_parts _ _ Hf0), Hid, Hp, <- Hid. intros q writes [= <-]. by apply Hst0. }
  unfold run_publication in Hrun. rewrite Hf in Hrun.
  destruct (ps_writes (a_spec p)) as [ws|] eqn:Hw; [|by apply (Hpub (unregister p w) r); try done; lia].
  assert (Hh2 : history (log_event (Stored (a_id p) ws) (unregister p w)) (S r) r).
  { eapply history_event; [exact Hh1|intros i; cbn; lia|by rewrite app_nil_r|lia|done]. }
  destruct (rp_stored reply) as [e|].
  - injection Hrun as <- <- <-. split_and!; [done|by destruct Hs1|done|]. by exists r.
  - eapply (Hpub (log_event (Stored (a_id p) ws) (unregister p w)) (S r)); [by destruct Hs1|done|done|lia| |done].
    intros writes [= <-]. cbn. set_solver.
Qed.

Lemma run_publication_ok p sq reply w g r k w' external failure parts a l pending :
  shape w g r -> history w r k -> publishing w g r parts a l p -> (w_failure w = None -> k = r) ->
  run_publication p sq reply w = (w', external, failure) ->
  writer_ok (with_flight (Ran parts a l p external failure pending) w').
Proof.
  intros Hs Hh Hp Hk Hrun. destruct (w_failure w) as [x|] eqn:Hx.
  { unfold run_publication in Hrun. rewrite Hx in Hrun. injection Hrun as <- <- <-. exists g, r, k.
    split_and!; [by apply shape_flight|by apply history_flight|by exists r|by intros []]. }
  specialize (Hk eq_refl) as ->. pose proof (publishing_part _ _ _ _ _ _ _ Hp) as Hpart.
  destruct (run_publication_spec _ _ _ _ _ _ _ _ _ Hs Hh Hpart Hx Hrun) as (-> & Hs' & Hf' & k & Hh' & Hk').
  exists g, (S r), k. split_and!; [by apply shape_flight|by apply history_flight| |by intros [_ ?]; apply Hk'].
  exists r. split; [|done]. unfold publishing, in_call in *. cbn. by rewrite (fr_parts _ _ Hf'), (fr_queue _ _ Hf').
Qed.

(** The loop goes on with what the part came to: kept for the end, or settled. *)
Lemma go_on_failing parts a l p fo w g r k :
  shape w g (S r) -> history w (S r) k -> publishing w g r parts a l p -> an_rejected a <> None -> k = S r ->
  writer_ok (go_on parts a (add_failing p fo true l) w).
Proof.
  intros Hs Hh (Hc & Hq & Hm & Hr & Hst & Hrej) Ha ->.
  eapply go_on_ok; [exact Hs|exact Hh|done| |by apply marks_published| |done]; cbn.
  - by rewrite fmap_app, <- app_assoc.
  - intros _. split; [rewrite length_app; cbn; lia|by right].
Qed.

Lemma go_on_settled parts a l l' p o w g r k :
  shape w g (S r) -> history w (S r) k -> publishing w g r parts a l p -> an_rejected a = None -> k = S r ->
  match o with Resolved => True | Rejected rj => justified rj w end ->
  lp_todo l' = lp_todo l -> lp_failing l' = lp_failing l ->
  writer_ok (go_on parts a l' (open p (settle p o w))).
Proof.
  intros Hs Hh Hp Ha -> Ho Ht Hf. pose proof (publishing_part _ _ _ _ _ _ _ Hp) as Hpart.
  destruct Hp as ([Hne (g0 & Hg0 & Hc)] & Hq & Hm & Hr & Hst & [Hfl|?]); [|done].
  rewrite Hfl in *. cbn in Hq, Hr. rewrite Nat.add_0_r in Hr. subst r. apply rest_lookup in Hq as [_ Hq].
  destruct (settle_open_ok w g (S g) (S g) p o) as (Hs' & Hh' & Hf'); [done..|lia|destruct o; [lia|done]|].
  eapply go_on_ok; [exact Hs'|exact Hh'|..|done].
  - split; [done|]. exists g0. split; [lia|done].
  - by rewrite Hf, Ht.
  - rewrite Hf. split; cbn; [lia|done].
  - intros _. rewrite Hf. cbn. split; [lia|by left].
Qed.

Lemma after_ok parts a l p external failure w g r r' k :
  shape w g r -> history w r k -> publishing w g r' parts a l p ->
  r = match external with Some _ => r' | None => S r' end ->
  (external = None /\ match failure with Some {| pf_kind := adoption |} => False | _ => True end -> k = r) ->
  writer_ok (after parts a l p external failure w).
Proof.
  intros Hs Hh Hp -> Hk. pose proof (publishing_part _ _ _ _ _ _ _ Hp) as Hpart.
  pose proof Hp as (Hc & Hq & Hm & Hr & Hst & Hrej). unfold after.
  assert (Hq' : forall fo b, (fg_part <$> (lp_failing l ++ [{| fg_part := p; fg_outcome := fo; fg_published := b |}]))
    ++ lp_todo l ++ w_queue w = drop g (w_parts w)) by (intros; rewrite fmap_app, <- app_assoc; exact Hq).
  destruct external as [e|].
  { eapply go_on_ok; [exact Hs|exact Hh|done|apply Hq'|..|done|done]. cbn. apply marks_snoc; [done|].
    symmetry. apply bool_decide_eq_false. lia. }
  destruct failure as [[[] e]|] eqn:Hfail.
  { eapply go_on_ok; [exact Hs|exact Hh|done|apply Hq'|..|done|done]. cbn. by apply marks_published. }
  all: destruct (an_rejected a) as [e'|] eqn:Ha.
  - eapply go_on_failing; [..|by rewrite Ha|by apply Hk]; [by destruct Hs| |done].
    pose proof (hi_le _ _ _ Hh). eapply history_event; [exact Hh|intros i; cbn; lia|by rewrite app_nil_r|lia|done].
  - eapply go_on_settled; [exact Hs|exact Hh|done|done|by apply Hk|by destruct (w_failure w)|done|done].
  - eapply go_on_failing; [exact Hs|exact Hh|done|by rewrite Ha|by apply Hk].
  - eapply go_on_settled; [exact Hs|exact Hh|done|done|by apply Hk| |done|done].
    destruct (w_failure w) as [x|] eqn:Hx; [|done]. by exists x.
Qed.

(** ** A throw that is not expected *)

(** Settling a part again changes nothing. *)
Lemma reopen_ok w g r k i p :
  shape w g r -> history w r k -> w_parts w !! i = Some p -> i < g ->
  shape (open p (unregister p w)) g r /\ history (open p (unregister p w)) r k /\ frame w (open p (unregister p w)).
Proof.
  intros Hs Hh Hp Hlt. pose proof (shape_part _ _ _ _ _ Hs Hp) as Hid. pose proof (sh_le _ _ _ Hs).
  split_and!; [|by eapply history_frame; [..|exact Hh]|done]. split; cbn; try apply Hs.
  - intros j. rewrite elem_of_union, elem_of_singleton, (sh_opened _ _ _ Hs). lia.
  - rewrite (sh_newest _ _ _ Hs), decide_False; [done|]. intros Hn. case_decide; [|done]. injection Hn. lia.
  - intros key. rewrite (shape_keys_unregister w g r p Hs); [|by rewrite Hid|lia]. by rewrite Nat.max_l by lia.
Qed.

Lemma abandon_parts_ok e ps q : forall w i g r k,
  shape w g r -> history w r k -> w_failure w <> None -> ps ++ q = drop i (w_parts w) -> i <= g ->
  let w' := foldl (abandon_part e) w ps in
  shape w' (max g (i + length ps)) (max r (i + length ps)) /\ history w' (max r (i + length ps)) k /\ frame w w'.
Proof.
  induction ps as [|p ps IH]; intros w i g r k Hs Hh Hf Hq Hi; cbn.
  { rewrite Nat.add_0_r. pose proof (sh_le _ _ _ Hs). by rewrite !Nat.max_l by lia. }
  apply rest_lookup in Hq as [Hp Hq]. pose proof (shape_part _ _ _ _ _ Hs Hp) as Hid.
  assert (Hstep : shape (abandon_part e w p) (max g (S i)) (max r (S i)) /\
    history (abandon_part e w p) (max r (S i)) k /\ frame w (abandon_part e w p)).
  { unfold abandon_part. destruct (w_done w !! a_id p) as [o|] eqn:Hd.
    - assert (i < g) by (apply (sh_done _ _ _ Hs); rewrite <- Hid; by exists o).
      pose proof (sh_le _ _ _ Hs). rewrite !Nat.max_l by lia. by eapply reopen_ok.
    - assert (i = g) as ->.
      { destruct (decide (i < g)) as [Hlt|]; [|lia]. apply (sh_done _ _ _ Hs) in Hlt as [o Ho]. congruence. }
      destruct (unpublish_ok w g r k p (failed e w)) as (Hs1 & Hh1 & Hf1); [done..| |].
      { unfold failed. destruct (w_failure w) as [x|] eqn:Hx; [by exists x|done]. }
      rewrite (Nat.max_r g) by lia.
      destruct (reopen_ok (unpublish p (failed e w) w) (S g) (max r (S g)) k g p) as (Hs2 & Hh2 & Hf2); [done..| |lia|].
      { by rewrite (fr_parts _ _ Hf1). }
      split_and!; [done..|]. by etrans. }
  destruct Hstep as (Hs1 & Hh1 & Hf1).
  destruct (IH _ (S i) _ _ _ Hs1 Hh1) as (Hs2 & Hh2 & Hf2); [by rewrite (fr_failure _ _ Hf1)|by rewrite (fr_parts _ _ Hf1)|lia|].
  replace (max g (i + S (length ps))) with (max (max g (S i)) (S i + length ps)) by lia.
  replace (max r (i + S (length ps))) with (max (max r (S i)) (S i + length ps)) by lia.
  split_and!; [done..|]. by etrans.
Qed.

Lemma abandon_ok parts a l p e w g r r0 k :
  shape w g r -> history w r k -> publishing w g r0 parts a l p -> r <= S r0 ->
  writer_ok (flushed (abandon parts e w)).
Proof.
  intros Hs Hh ([Hne (g0 & Hg0 & Hc)] & Hq & Hm & Hr & _) Hr0. unfold abandon.
  destruct (host_fail_frame e (ps_index ∘ a_spec <$> head parts) [] w) as (Hn & Hs' & Hh' & Hp' & Hq' & _).
  destruct (abandon_parts_ok e parts (w_queue w) _ g0 g r k (Hs' _ _ Hs) (Hh' _ _ Hh) Hn) as (Hs2 & Hh2 & Hf2); [by rewrite Hp'|done|].
  pose proof (sh_le _ _ _ Hs).
  assert (Hlen : g + length (lp_failing l) + 1 + length (lp_todo l) = g0 + length parts).
  { apply (f_equal length) in Hq, Hc. revert Hq Hc. rewrite !length_app, length_fmap, !length_drop. cbn. rewrite length_app. lia. }
  rewrite (Nat.max_r g), (Nat.max_r r) in Hs2 by lia. rewrite (Nat.max_r r) in Hh2 by lia.
  eapply flushed_ok; [exact Hs2|exact Hh2| |].
  - rewrite (fr_queue _ _ Hf2), (fr_parts _ _ Hf2), Hq', Hp'. apply (f_equal (drop (length parts))) in Hc.
    by rewrite drop_app_length, drop_drop in Hc.
  - by rewrite (fr_failure _ _ Hf2).
Qed.

(** ** Admission *)

Lemma admit_shape w g r spec fl q :
  shape w g r ->
  shape {| w_parts := w_parts w ++ [{| a_id := length (w_parts w); a_spec := spec |}]; w_queue := q; w_flight := fl;
           w_unpublished := register (length (w_parts w)) (ps_keys spec) (w_unpublished w);
           w_newest := Some (length (w_parts w)); w_done := w_done w; w_opened := w_opened w;
           w_failure := w_failure w; w_log := w_log w |} g r.
Proof.
  intros Hs. pose proof (sh_le _ _ _ Hs). split; cbn; rewrite ?length_app; cbn; try apply Hs.
  - by rewrite fmap_app, seq_app, (sh_ids _ _ _ Hs).
  - lia.
  - rewrite decide_True by lia. f_equal. lia.
  - intros key. fold (last_writer key (w_parts w ++ [{| a_id := length (w_parts w); a_spec := spec |}])).
    rewrite register_lookup, last_writer_snoc, (sh_keys _ _ _ Hs). cbn.
    case_decide; [|done]. cbn. by rewrite decide_True by lia.
Qed.

Lemma drop_snoc {A} (l1 : list A) n (x : A) (ps q : list A) :
  n <= length l1 -> ps ++ q = drop n l1 -> ps ++ (q ++ [x]) = drop n (l1 ++ [x]).
Proof. intros Hn H. by rewrite app_assoc, H, drop_app_le. Qed.

(** A part that is admitted while a call is in flight waits. *)
Lemma flight_admit w w' x g r :
  w_parts w' = w_parts w ++ [x] -> w_queue w' = w_queue w ++ [x] -> w_flight w' = w_flight w ->
  w_flight w <> Landed -> g <= length (w_parts w) -> flight_ok w g r -> flight_ok w' g r.
Proof.
  intros Hp Hq Hf Hne Hg. unfold flight_ok, publishing, in_call. rewrite Hf, Hp, Hq.
  assert (Hc : forall parts, (parts <> [] /\ exists g0, g0 <= g /\ parts ++ w_queue w = drop g0 (w_parts w)) ->
    parts <> [] /\ exists g0, g0 <= g /\ parts ++ w_queue w ++ [x] = drop g0 (w_parts w ++ [x])).
  { intros parts [Hn (g0 & Hg0 & H)]. split; [done|]. exists g0. split; [done|]. apply drop_snoc; [lia|done]. }
  assert (Hd : forall fs p todo, fs ++ p :: todo ++ w_queue w = drop g (w_parts w) ->
    fs ++ p :: todo ++ w_queue w ++ [x] = drop g (w_parts w ++ [x])).
  { intros fs p todo H. pose proof (drop_snoc (w_parts w) g x (fs ++ p :: todo) (w_queue w) Hg) as H'.
    rewrite <- !app_assoc in H'. by apply H'. }
  destruct (w_flight w) eqn:Hfl; try done.
  - intros (Hn & H & Hr). split_and!; [done|by apply drop_snoc|done].
  - intros (H1 & H2 & H3). split; [by apply Hc|]. split; [by apply Hd|done].
  - intros (H1 & H2 & H3). split; [by apply Hc|]. split; [by apply Hd|done].
  - intros (H1 & H2 & H3). split; [by apply Hc|]. split; [by apply Hd|done].
  - intros (r' & (H1 & H2 & H3) & Hr). exists r'. split; [|done]. split; [by apply Hc|]. split; [by apply Hd|done].
  - intros (H1 & H2 & H3). split; [by apply Hc|]. split; [by apply drop_snoc|done].
  - intros (H & Hr). split; [|done]. by apply (drop_snoc _ _ _ []).
Qed.

Lemma admit_history w w' x r k :
  w_parts w' = w_parts w ++ [x] -> w_log w' = w_log w -> w_done w' = w_done w -> w_failure w' = w_failure w ->
  r <= length (w_parts w) -> history w r k -> history w' r k.
Proof.
  intros Hp Hl Hd Hf Hr [H1 H2 H3 H4 H5 H6 H7]. split; rewrite ?Hl, ?Hd, ?Hp, ?Hf; try done.
  - intros i rj Hi. eapply justified_frame; [exact Hf|]. by eapply H5.
  - intros i sq p writes Hi Hpart. eapply H7; [done|].
    assert (Hlt : i < r) by (apply H1; right; left; by exists sq). by rewrite lookup_app_l in Hpart by lia.
Qed.

Lemma admit_ok w spec : writer_ok w -> writer_ok (admit_part spec w).
Proof.
  intros (g & r & k & Hs & Hh & Hf & Hl). unfold admit_part. pose proof (sh_le _ _ _ Hs) as Hle.
  set (x := {| a_id := length (w_parts w); a_spec := spec |}). set (w' := Build_Writer _ _ _ _ _ _ _ _ _).
  assert (Hs' : shape w' g r) by by apply admit_shape.
  assert (Hh' : history w' r k) by (eapply admit_history; [..|exact Hh]; [done..|lia]).
  destruct (w_flight w) eqn:Hfl.
  { unfold flight_ok in Hf. rewrite Hfl in Hf. destruct Hf as [Hq Hg]. assert (r = g) as -> by lia.
    eapply pump_ok; [done|exact Hs'|exact Hh'| |]; cbn.
    - by rewrite Hq, Hg, drop_app_length.
    - intros Hn. apply Hl. unfold live. by rewrite Hfl. }
  all: assert (Hpump : pump w' = w') by done.
  all: rewrite Hpump; exists g, r, k; split_and!; [exact Hs'|exact Hh'| |].
  all: try (eapply (flight_admit w); [done..|by rewrite Hfl|lia|done]).
  all: unfold live in *; cbn; by rewrite Hfl in *.
Qed.

(** ** Every step *)

Lemma moves_ok w w' : writer_ok w -> moves w w' -> writer_ok w'.
Proof.
  intros (g & r & k & Hs & Hh & Hf & Hl) Hm. unfold flight_ok, live in Hf, Hl.
  destruct Hm as [w parts a Hfl|w parts a l p sq Hfl|w parts a l p sq Hfl|w parts a l p sq reply pending w' ex fa Hfl Hrun
    |w parts a l p sq reply w' ex fa Hfl Hrun|w parts a l p ex fa pending Hfl|w parts a l Hfl|w parts Hfl|w parts e Hfl].
  1-8: rewrite Hfl in Hf, Hl.
  - destruct Hf as (Hne & Hq & ->). by eapply received_ok.
  - exists g, r, k. split_and!; [by apply shape_flight|by apply history_flight|done|done].
  - exists g, r, k. split_and!; [by apply shape_flight|by apply history_flight|done|done].
  - by eapply run_publication_ok.
  - by eapply run_publication_ok.
  - destruct Hf as (r' & Hp & Hr). by eapply after_ok.
  - destruct Hf as (Hc & Hq & Hmk & Hr). by eapply conclude_ok.
  - destruct Hf as (Hq & ->). by eapply flushed_ok.
  - destruct (w_flight w) eqn:E'; try done; injection Hfl as ->.
    + eapply abandon_ok; [exact Hs|exact Hh|exact Hf|lia].
    + destruct Hf as (r' & Hp & Hr). eapply abandon_ok; [exact Hs|exact Hh|exact Hp|]. destruct external; lia.
Qed.

Lemma writer_step_ok w w' : writer_ok w -> writer_step w w' -> writer_ok w'.
Proof. intros Hok Hs. revert Hok. destruct Hs; intros Hok; [by apply admit_ok|by apply host_fail_ok|by eapply moves_ok]. Qed.

Lemma writer_reachable_ok w : reachable w -> writer_ok w.
Proof.
  unfold reachable. intros H. apply (rtc_ind_r (R := writer_step) (fun w => writer_ok w) writer_new); [apply writer_new_ok| |done].
  intros x y _ Hs Hok. by eapply writer_step_ok.
Qed.
End Invariant.
