(* ===== verification/WriterLine.v ===== *)
(** The writer of a Session over a [MemoryStorage] (durable/src/session/writer.ts, the host
    that session/session.ts gives it): group commits store what commits of one part each
    would, in the order of the line, and parts are published with their sequence numbers. *)
From S2P Require Import Prelude StorageTypes SortedIds MemoryCommit DocumentFacts TableFacts MemoryFacts MemoryRead ReadFacts VisibleFacts MemoryHistory SessionTypes SessionCommit SessionKeys SessionWriter WriterInvariant.

Section Line.
Context {E : Type} (err : storage_error -> E).
Implicit Types (w : Writer (E := E)) (m : MemoryStorage) (p : AdmittedPart) (ps : list AdmittedPart).
Implicit Types (l : Loop (E := E)) (a : Answer (E := E)).

(** What the storage answers a call: receipts for what it stored, and the result; or a
    rejection, when it is closed or an application threw. *)
Inductive memory_answer m (batches : list (list StorageWrite)) : MemoryStorage -> Answer -> Prop :=
| answer_closed e :
    commit m batches = Throw e ->
    memory_answer m batches m {| an_seqs := ∅; an_result := None; an_rejected := Some (err e) |}
| answer_result m' receipts r :
    commit m batches = Ok (m', receipts, Some r) ->
    memory_answer m batches m'
      {| an_seqs := list_to_map receipts;
         an_result := Some {| sr_stored := stored r; sr_refused := err <$> refused r |}; an_rejected := None |}
| answer_thrown m' receipts e :
    commit m batches = Ok (m', receipts, None) ->
    memory_answer m batches m' {| an_seqs := list_to_map receipts; an_result := None; an_rejected := Some e |}.

(** A Session's line: the writer's storage call settles with what the storage did, and IDs
    are minted at any time. *)
Inductive line_step : Writer * MemoryStorage -> Writer * MemoryStorage -> Prop :=
| line_admit w spec m : awaiting (w_flight w) = true -> line_step (w, m) (admit_part spec w, m)
| line_fail w e at_index own m : line_step (w, m) (host_fail e at_index own w, m)
| line_moves w w' m : (forall parts, w_flight w <> Sending parts) -> moves w w' -> line_step (w, m) (w', m)
| line_commit w parts m m' a :
    w_flight w = Sending parts -> memory_answer m (batches_of parts) m' a -> line_step (w, m) (received parts a w, m')
| line_mint w m m' id : mintId m = Ok (m', id) -> line_step (w, m) (w, m').

Definition line (m0 : MemoryStorage) : Writer * MemoryStorage -> Prop := rtc line_step (writer_new, m0).

(** The specification: one commit after the other, alone, with its sequence number; IDs
    are minted in between. *)
Inductive one_by_one : MemoryStorage -> list (list StorageWrite * N) -> MemoryStorage -> Prop :=
| one_nil m : one_by_one m [] m
| one_mint m m1 m2 id rs : one_by_one m rs m1 -> mintId m1 = Ok (m2, id) -> one_by_one m rs m2
| one_commit m m1 m2 writes prepared rs :
    one_by_one m rs m1 -> prepareCommit m1 writes None = Ok prepared -> applyPreparedCommit m1 prepared = Some m2 ->
    one_by_one m (rs ++ [(writes, p_seq prepared)]) m2.

(** The parts with writes, in order. *)
Definition commits_of ps : list (nat * list StorageWrite) :=
  omap (fun p => (a_id p,.) <$> ps_writes (a_spec p)) ps.

(** What was published with a sequence number. *)
Definition published_commits (log : list (event (E := E))) : list (nat * N) :=
  omap (fun v => match v with Published i (Some sq) => Some (i, sq) | _ => None end) log.

(** What the read caches were given. *)
Definition stored_commits (log : list (event (E := E))) : list (nat * list StorageWrite) :=
  omap (fun v => match v with Stored i writes => Some (i, writes) | _ => None end) log.

Abbreviation receipt := ((nat * list StorageWrite) * N)%type.
Definition id_seq (r : receipt) : nat * N := (r.1.1, r.2).
Definition writes_seq (r : receipt) : list StorageWrite * N := (r.1.2, r.2).

(** ** Group commits *)

Lemma commits_of_app ps ps' : commits_of (ps ++ ps') = commits_of ps ++ commits_of ps'.
Proof. apply omap_app. Qed.

Lemma batches_commits ps : batches_of ps = (commits_of ps).*2.
Proof.
  unfold batches_of, commits_of. induction ps as [|p ps IH]; cbn; [done|].
  destruct (ps_writes (a_spec p)); cbn; by rewrite IH.
Qed.

Lemma commit_loop_line batches : forall m0 rs m seqs m' seqs' r,
  one_by_one m0 rs m -> commit_loop m batches seqs = (m', seqs', r) ->
  exists new, seqs' = seqs ++ new /\ length new <= length batches /\
    one_by_one m0 (rs ++ zip batches new) m'.
Proof.
  induction batches as [|ws batches IH]; intros m0 rs m seqs m' seqs' r Hone H; cbn [commit_loop] in H.
  { injection H as <- <- <-. exists []. rewrite !app_nil_r. by cbn. }
  assert (Hstop : exists new, seqs = seqs ++ new /\ length new <= length (ws :: batches) /\
    one_by_one m0 (rs ++ zip (ws :: batches) new) m).
  { exists []. rewrite app_nil_r. cbn. rewrite app_nil_r. split_and!; [done|lia|done]. }
  destruct (prepareCommit m ws None) as [p|e] eqn:Hp; [|by injection H as <- <- <-].
  destruct (applyPreparedCommit m p) as [m1|] eqn:Ha; [|by injection H as <- <- <-].
  destruct (IH m0 (rs ++ [(ws, p_seq p)]) m1 (seqs ++ [p_seq p]) m' seqs' r) as (new & -> & Hl & Hone'); [|done|].
  { by eapply one_commit. }
  exists (p_seq p :: new). rewrite <- !app_assoc in *. cbn. split_and!; [done|lia|done].
Qed.

Lemma receipts_lookup (seqs : list N) (j : nat) : (list_to_map (imap pair seqs) : gmap nat N) !! j = seqs !! j.
Proof.
  induction seqs as [|x seqs IH] using rev_ind; [done|].
  rewrite imap_app, list_to_map_app. cbn. rewrite Nat.add_0_r. destruct (decide (j < length seqs)) as [Hlt|Hge].
  - rewrite lookup_app_l, <- IH by done. apply lookup_union_l. by rewrite lookup_insert_ne by lia.
  - rewrite lookup_union_r, lookup_app_r by (rewrite ?IH; first [lia|apply lookup_ge_None_2; lia]).
    destruct (decide (j = length seqs)) as [->|Hne]; [by rewrite Nat.sub_diag, lookup_insert_eq|].
    rewrite lookup_insert_ne by lia. rewrite (lookup_ge_None_2 [x]); [done|cbn; lia].
Qed.

(** What a call stores: a prefix of the batches, one by one, with these receipts. *)
Lemma memory_answer_line m0 rs m batches m' a :
  one_by_one m0 rs m -> memory_answer m batches m' a ->
  exists new, length new <= length batches /\ one_by_one m0 (rs ++ zip batches new) m' /\
    forall j, an_seqs a !! j = new !! j.
Proof.
  assert (Hcommit : forall m' receipts o, commit m batches = Ok (m', receipts, o) -> one_by_one m0 rs m ->
    exists new, length new <= length batches /\ one_by_one m0 (rs ++ zip batches new) m' /\
    forall j, (list_to_map receipts : gmap nat N) !! j = new !! j).
  { clear m'. intros m' receipts o H Hone. unfold commit in H. inv_res.
    destruct (commit_loop m batches []) as [[m1 seqs] r] eqn:Hl. injection H as <- <- <-.
    destruct (commit_loop_line _ _ _ _ _ _ _ _ Hone Hl) as (new & -> & Hle & Hone'). exists new. split_and!; [done..|].
    intros j. apply receipts_lookup. }
  intros Hone [e H|m1 receipts r H|m1 receipts e H]; cbn; [|by eapply Hcommit..].
  exists []. cbn. split_and!; [lia| |done]. by rewrite zip_nil_r, app_nil_r.
Qed.

(** ** What does not publish *)

Record quiet w w' : Prop := {
  qu_parts : w_parts w' = w_parts w;
  qu_published : published_commits (w_log w') = published_commits (w_log w);
  qu_stored : stored_commits (w_log w') = stored_commits (w_log w);
  qu_failure : w_failure w' = None -> w_failure w = None;
}.

#[local] Instance quiet_preorder : PreOrder quiet.
Proof. split; [by intros w|]. intros w1 w2 w3 [] []. split; [congruence..|tauto]. Qed.

Lemma published_commits_snoc log v :
  published_commits (log ++ [v]) =
  published_commits log ++ match v with Published i (Some sq) => [(i, sq)] | _ => [] end.
Proof. unfold published_commits. rewrite omap_app. destruct v as [| |i [sq|]| |]; done. Qed.

Lemma stored_commits_snoc log v :
  stored_commits (log ++ [v]) = stored_commits log ++ match v with Stored i writes => [(i, writes)] | _ => [] end.
Proof. unfold stored_commits. rewrite omap_app. by destruct v. Qed.

Lemma log_quiet v w : match v with Stored _ _ | Published _ _ => False | _ => True end -> quiet w (log_event v w).
Proof.
  intros Hv. split; cbn; [done| | |done]; rewrite ?published_commits_snoc, ?stored_commits_snoc; destruct v; by rewrite ?app_nil_r.
Qed.

Lemma unpublish_quiet p rj w : quiet w (unpublish p rj w).
Proof. etrans; [by apply (log_quiet (Discarded (a_id p)))|]. done. Qed.

Lemma unpublish_all_quiet ps rj w : quiet w (unpublish_all ps rj w).
Proof.
  revert w. induction ps as [|p ps IH]; intros w; cbn; [done|]. etrans; [apply (unpublish_quiet p rj)|apply IH].
Qed.

Lemma foldl_quiet {A} (f : Writer (E := E) -> A -> Writer) (xs : list A) w : (forall w x, quiet w (f w x)) -> quiet w (foldl f w xs).
Proof. intros Hf. revert w. induction xs as [|x xs IH]; intros w; cbn; [done|]. etrans; [apply Hf|apply IH]. Qed.

Lemma settle_failing_quiet l w f : quiet w (settle_failing l w f).
Proof. unfold settle_failing. destruct (fg_published f); [done|apply unpublish_quiet]. Qed.

Lemma drop_queue_quiet w : quiet w (drop_queue w).
Proof.
  unfold drop_queue. destruct (w_failure w) as [x|] eqn:Hx; [|done].
  etrans; [|apply unpublish_all_quiet]. done.
Qed.

Lemma finish_quiet parts l w : quiet w (finish parts l w).
Proof.
  unfold finish. etrans; [apply (foldl_quiet (settle_failing l) (lp_failing l)), settle_failing_quiet|].
  etrans; [apply drop_queue_quiet|]. done.
Qed.

Lemma settle_failing_queue l fs w : w_queue (foldl (settle_failing l) w fs) = w_queue w.
Proof.
  revert w. induction fs as [|f fs IH]; intros w; cbn; [done|]. rewrite IH. unfold settle_failing. by destruct (fg_published f).
Qed.

(** Without a failure nothing leaves the queue. *)
Lemma finish_queue parts l w : w_failure (finish parts l w) = None -> w_queue (finish parts l w) = w_queue w.
Proof.
  unfold finish. intros Hf. cbn in *. unfold drop_queue in *.
  destruct (w_failure (foldl _ _ _)) as [x|] eqn:Hx; [|apply settle_failing_queue].
  assert (Hq : quiet (with_queue [] (foldl (settle_failing l) w (lp_failing l)))
    (unpublish_all (w_queue (foldl (settle_failing l) w (lp_failing l))) (SessionFailed (fl_error x))
      (with_queue [] (foldl (settle_failing l) w (lp_failing l))))) by apply unpublish_all_quiet.
  apply (qu_failure _ _ Hq) in Hf. cbn in Hf. congruence.
Qed.

Lemma host_fail_quiet e at_index own w : quiet w (host_fail e at_index own w).
Proof. unfold host_fail. by destruct (w_failure w) eqn:Hx. Qed.

Lemma conclude_quiet parts a l w : quiet w (conclude parts a l w).
Proof.
  unfold conclude. etrans; [|apply finish_quiet].
  destruct (an_rejected a); [apply host_fail_quiet|]. destruct (lp_stop l); [apply host_fail_quiet|done].
Qed.

Lemma abandon_quiet parts e w : quiet w (abandon parts e w) /\ w_failure (abandon parts e w) <> None.
Proof.
  unfold abandon. set (w0 := host_fail _ _ _ w).
  assert (Hq : quiet w0 (foldl (abandon_part e) w0 parts)).
  { apply foldl_quiet. intros w' p. unfold abandon_part. destruct (w_done w' !! a_id p); [done|].
    etrans; [apply (unpublish_quiet p (failed e w'))|]. done. }
  split; [etrans; [apply host_fail_quiet|exact Hq]|]. intros Hn. apply (qu_failure _ _ Hq) in Hn.
  by destruct (host_fail_frame e (ps_index ∘ a_spec <$> head parts) [] w) as [H _].
Qed.

(** ** The invariant of the line *)

(** The commits stored and published are fronts of those admitted and of those stored. *)
Definition fronts w (rs : list receipt) : Prop :=
  rs.*1 `prefix_of` commits_of (w_parts w) /\ published_commits (w_log w) `prefix_of` (id_seq <$> rs) /\
  stored_commits (w_log w) `prefix_of` rs.*1.

(** Exactly these are published, and given to the caches. *)
Definition shown w (rs : list receipt) : Prop :=
  published_commits (w_log w) = id_seq <$> rs /\ stored_commits (w_log w) = rs.*1.

(** A call's parts in the line, of which [new] are stored; those before [todo] are done
    with, among them [i] stored ones. *)
Definition at_call (rs : list receipt) w ps a (todo : list AdmittedPart) (i : nat) (alive : Prop) : Prop :=
  exists rs0 new, rs = rs0 ++ new /\ rs0.*1 ++ commits_of ps ++ commits_of (w_queue w) = commits_of (w_parts w) /\
    new.*1 `prefix_of` commits_of ps /\ (forall j, an_seqs a !! j = new.*2 !! j) /\
    commits_of todo = drop i (commits_of ps) /\ i <= length new /\
    (alive -> shown w (rs0 ++ take i new)).

(** The receipt of the part to publish, and the stored parts before it. *)
Definition stored_before l p : nat :=
  match ps_writes (a_spec p) with Some _ => pred (lp_storedIndex l) | None => lp_storedIndex l end.

Definition its_receipt a l p (sq : option N) : Prop :=
  match ps_writes (a_spec p) with
  | Some _ => lp_storedIndex l = S (stored_before l p) /\ exists s, sq = Some s /\ an_seqs a !! stored_before l p = Some s
  | None => sq = None
  end.

Definition flight_line (rs : list receipt) w : Prop :=
  match w_flight w with
  | Landed | Returning _ =>
      w_failure w = None ->
      rs.*1 ++ commits_of (w_queue w) = commits_of (w_parts w) /\ shown w rs
  | Sending ps =>
      rs.*1 ++ commits_of ps ++ commits_of (w_queue w) = commits_of (w_parts w) /\ shown w rs
  | Hopping ps a l p sq | Ready ps a l p sq | Scoped ps a l p sq =>
      at_call rs w ps a (p :: lp_todo l) (stored_before l p) (w_failure w = None) /\ its_receipt a l p sq
  | Ran ps a l p external failure _ =>
      external = None /\ match failure with Some {| pf_kind := adoption |} => False | _ => True end ->
      at_call rs w ps a (lp_todo l) (lp_storedIndex l) True
  | Dispatching _ _ _ => True
  end.

Definition line_at m0 (rs : list receipt) (s : Writer * MemoryStorage) : Prop :=
  writer_ok s.1 /\ one_by_one m0 (writes_seq <$> rs) s.2 /\ fronts s.1 rs /\ flight_line rs s.1.

Lemma fronts_quiet w w' rs : quiet w w' -> fronts w rs -> fronts w' rs.
Proof. intros [Hp Hl Hs _]. unfold fronts. by rewrite Hp, Hl, Hs. Qed.

Lemma shown_quiet w w' rs : quiet w w' -> shown w rs -> shown w' rs.
Proof. intros [Hp Hl Hs _]. unfold shown. by rewrite Hl, Hs. Qed.

(** After a failure only the fronts matter. *)
Lemma failed_line rs w : w_failure w <> None -> match w_flight w with Landed | Returning _ | Dispatching _ _ _ => True | _ => False end ->
  flight_line rs w.
Proof. unfold flight_line. by destruct (w_flight w). Qed.

Lemma advance_stopped a ps s : forall i n fs, (advance (E := E) a ps i n (Some s) fs).2 = None.
Proof. induction ps as [|p ps IH]; intros i n fs; cbn; [done|apply IH]. Qed.

Lemma advance_receipt a ps i n stop (fs : list (Failing (E := E))) l p sq :
  advance a ps i n stop fs = (l, Some (p, sq)) ->
  stop = None /\ ps = p :: lp_todo l /\ stored_before l p = i /\ its_receipt a l p sq.
Proof.
  destruct ps as [|q ps]; [done|]. cbn. destruct stop as [s|].
  { intros H. match type of H with ?x = _ => assert (Hn : x.2 = None) by apply advance_stopped; by rewrite H in Hn end. }
  unfold stored_before, its_receipt. destruct (ps_writes (a_spec q)) as [ws|] eqn:Hw; cbn.
  - destruct (an_seqs a !! i) as [s|] eqn:Hs.
    + intros [= <- <- <-]. cbn. unfold stored_before. rewrite Hw. cbn. split_and!; eauto.
    + intros H. match type of H with ?x = _ => assert (Hn : x.2 = None) by apply advance_stopped; by rewrite H in Hn end.
  - intros [= <- <- <-]. cbn. by rewrite Hw.
Qed.

Lemma advance_end a ps : forall i n stop (fs : list (Failing (E := E))) l,
  advance a ps i n stop fs = (l, None) -> lp_stop l = None -> stop = None /\ ps = [].
Proof.
  induction ps as [|p ps IH]; intros i n stop fs l; cbn; [by intros [= <-]|].
  intros H Hl. exfalso.
  destruct stop as [s|]; [by apply (IH _ _ _ _ _ H) in Hl as []|].
  destruct (ps_writes (a_spec p)); cbn in H; [|done].
  destruct (an_seqs a !! i); [done|]. by apply (IH _ _ _ _ _ H) in Hl as [].
Qed.

(** ** Steps *)

(** The loop goes on: a part that is published next has its receipt, and when all are
    published all are stored. *)
Lemma go_on_line ps a l w rs :
  fronts w rs -> (lp_stop l = None -> at_call rs w ps a (lp_todo l) (lp_storedIndex l) (w_failure w = None)) ->
  fronts (go_on ps a l w) rs /\ flight_line rs (go_on ps a l w).
Proof.
  intros Hf Hc. unfold go_on. destruct (advance _ _ _ _ _ _) as [l' next] eqn:Ha. destruct next as [[p sq]|].
  - apply advance_receipt in Ha as (Hn & Ht & Hb & Hr). split; [done|].
    destruct (0 <? lp_published l'); cbn; (split; [|exact Hr]).
    all: specialize (Hc Hn); rewrite Ht, <- Hb in Hc; exact Hc.
  - destruct (an_rejected a) as [e|]; [done|]. destruct (lp_stop l') as [s|] eqn:Hs; [done|].
    pose proof (finish_quiet ps l' w) as Hq. split; [by eapply fronts_quiet|]. intros Hn.
    assert (Hl : lp_stop l = None /\ lp_todo l = []).
    { by eapply advance_end. }
    destruct Hl as [Hs' Ht]. destruct (Hc Hs') as (rs0 & new & -> & Hline & Hnew & Hseq & Htodo & Hi & Hpub).
    rewrite (finish_queue _ _ _ Hn), (qu_parts _ _ Hq).
    apply (qu_failure _ _ Hq) in Hn. apply Hpub, (shown_quiet _ _ _ Hq) in Hn. rewrite Ht in Htodo.
    apply (f_equal length) in Htodo. rewrite length_drop in Htodo. apply prefix_length in Hnew as Hl. rewrite length_fmap in Hl. cbn in Htodo.
    assert (Hall : new.*1 = commits_of ps) by (apply prefix_length_eq; [done|rewrite length_fmap; lia]).
    rewrite take_ge in Hn by lia. split; [|done]. by rewrite fmap_app, Hall, <- app_assoc.
Qed.

Lemma received_line ps a w rs0 new :
  fronts w (rs0 ++ new) -> rs0.*1 ++ commits_of ps ++ commits_of (w_queue w) = commits_of (w_parts w) ->
  new.*1 `prefix_of` commits_of ps -> (forall j, an_seqs a !! j = new.*2 !! j) ->
  shown w rs0 ->
  fronts (received ps a w) (rs0 ++ new) /\ flight_line (rs0 ++ new) (received ps a w).
Proof.
  intros Hf Hl Hn Hs Hp. unfold received. destruct (w_failure w) as [x|] eqn:Hx.
  - pose proof (unpublish_all_quiet ps (SessionFailed (fl_error x)) w) as Hq.
    split; [by apply (fronts_quiet _ _ _ Hq)|]. intros Hn'. apply (qu_failure _ _ Hq) in Hn'. congruence.
  - apply go_on_line; [done|]. intros _. exists rs0, new. split_and!; cbn; try done; [lia|]. by rewrite take_0, app_nil_r.
Qed.

Lemma send_line ps w rs :
  fronts w rs ->
  (w_failure w = None -> rs.*1 ++ commits_of ps ++ commits_of (w_queue w) = commits_of (w_parts w) /\ shown w rs) ->
  fronts (send ps w) rs /\ flight_line rs (send ps w).
Proof.
  intros Hf Hl. unfold send. destruct (w_failure w) as [x|] eqn:Hx.
  - pose proof (unpublish_all_quiet ps (SessionFailed (fl_error x)) w) as Hq.
    split; [by apply (fronts_quiet _ _ _ Hq)|]. intros Hn'. apply (qu_failure _ _ Hq) in Hn'. congruence.
  - destruct (Hl eq_refl) as [Hl1 Hl2]. destruct (batches_of ps) as [|b bs] eqn:Hb.
    + rewrite <- (app_nil_r rs) in Hf |- *. apply received_line; [done|done| | |done]; [apply prefix_nil|done].
    + pose proof (log_quiet (Sent (b :: bs)) w I) as Hq. split; [by apply (fronts_quiet _ _ _ Hq)|].
      split; [done|]. by apply (shown_quiet _ _ _ Hq).
Qed.

Lemma pump_line w rs :
  fronts w rs -> flight_line rs w -> fronts (pump w) rs /\ flight_line rs (pump w).
Proof.
  intros Hf Hl. unfold pump. destruct (w_flight w) eqn:Hfl; try done.
  destruct (w_queue w) as [|p q] eqn:Hq; [done|]. apply send_line; [done|].
  unfold flight_line in Hl. rewrite Hfl, Hq in Hl. cbn. intros Hn. destruct (Hl Hn) as [Hl1 Hl2].
  split; [|done]. by rewrite app_nil_r.
Qed.

Lemma flushed_line w rs :
  fronts w rs -> (w_failure w = None -> rs.*1 ++ commits_of (w_queue w) = commits_of (w_parts w) /\ shown w rs) ->
  fronts (flushed w) rs /\ flight_line rs (flushed w).
Proof. intros Hf Hl. by apply pump_line. Qed.

Lemma admit_line w spec rs : fronts w rs -> flight_line rs w -> fronts (admit_part spec w) rs /\ flight_line rs (admit_part spec w).
Proof.
  intros Hf Hl. unfold admit_part. set (x := {| a_id := length (w_parts w); a_spec := spec |}).
  apply pump_line.
  - destruct Hf as [Hp Hl']. split; [|done]. cbn. rewrite commits_of_app. by apply prefix_app_r.
  - assert (Hc : forall (xs : list (nat * list StorageWrite)) q, xs ++ commits_of q = commits_of (w_parts w) ->
      xs ++ commits_of (q ++ [x]) = commits_of (w_parts w ++ [x])).
    { intros xs q H. by rewrite !commits_of_app, app_assoc, H. }
    assert (Ha : forall ps a todo i alive, at_call rs w ps a todo i alive ->
      at_call rs {| w_parts := w_parts w ++ [x]; w_queue := w_queue w ++ [x]; w_flight := w_flight w;
        w_unpublished := register (length (w_parts w)) (ps_keys spec) (w_unpublished w);
        w_newest := Some (length (w_parts w)); w_done := w_done w; w_opened := w_opened w;
        w_failure := w_failure w; w_log := w_log w |} ps a todo i alive).
    { intros ps a todo i alive (rs0 & new & Hrs & Hc' & H). exists rs0, new. split; [done|]. split; [|done]. cbn.
      rewrite app_assoc. apply Hc. by rewrite <- app_assoc. }
    unfold flight_line in *. cbn. destruct (w_flight w) eqn:Hfl; try done.
    + intros Hn. destruct (Hl Hn). split; [by apply Hc|done].
    + destruct Hl as [H1 H2]. split; [|done]. rewrite app_assoc. apply Hc. by rewrite <- app_assoc.
    + destruct Hl as [H1 H2]. split; [by apply Ha|done].
    + destruct Hl as [H1 H2]. split; [by apply Ha|done].
    + destruct Hl as [H1 H2]. split; [by apply Ha|done].
    + intros H. apply Ha. by apply Hl.
    + intros Hn. destruct (Hl Hn). split; [by apply Hc|done].
Qed.

Lemma host_fail_line e at_index own w rs :
  fronts w rs -> flight_line rs w -> fronts (host_fail e at_index own w) rs /\ flight_line rs (host_fail e at_index own w).
Proof.
  intros Hf Hl. split; [eapply fronts_quiet; [apply host_fail_quiet|done]|].
  destruct (host_fail_frame e at_index own w) as (Hn & _ & _ & Hp & Hq & Hfl & Hlog).
  unfold flight_line, at_call, shown in *. rewrite Hfl, Hp, Hq, Hlog. destruct (w_flight w); try done.
  all: destruct Hl as [(rs0 & new & H1 & H2 & H3 & H4 & H5 & H6 & H7) H8]; split; [|done].
  all: exists rs0, new; split_and!; done.
Qed.

(** Where a call is does not depend on settling or on the log, but for publications. *)
Lemma at_call_frame rs w w' ps a todo i (alive alive' : Prop) :
  quiet w w' -> w_queue w' = w_queue w -> (alive' -> alive) ->
  at_call rs w ps a todo i alive -> at_call rs w' ps a todo i alive'.
Proof.
  intros Hw Hq Ha (rs0 & new & H1 & H2 & H3 & H4 & H5 & H6 & H7). exists rs0, new.
  rewrite (qu_parts _ _ Hw), Hq. split_and!; try done. intros H. apply (shown_quiet _ _ _ Hw), H7, Ha, H.
Qed.

(** The next part to publish is the next commit stored. *)
Lemma next_receipt (new : list receipt) ps a l p sq :
  new.*1 `prefix_of` commits_of ps -> (forall j, an_seqs a !! j = new.*2 !! j) ->
  commits_of (p :: lp_todo l) = drop (stored_before l p) (commits_of ps) -> stored_before l p <= length new ->
  its_receipt a l p sq ->
  exists this, take (lp_storedIndex l) new = take (stored_before l p) new ++ this /\ lp_storedIndex l <= length new /\
    commits_of (lp_todo l) = drop (lp_storedIndex l) (commits_of ps) /\
    id_seq <$> this = match sq with Some s => [(a_id p, s)] | None => [] end /\
    this.*1 = match ps_writes (a_spec p) with Some ws => [(a_id p, ws)] | None => [] end.
Proof.
  intros Hnew Hseq. unfold its_receipt, stored_before, commits_of at 1. cbn [omap list_omap].
  destruct (ps_writes (a_spec p)) as [ws|]; cbn; intros Htodo Hi Hr.
  - destruct Hr as (Hsi & s & -> & Hs). rewrite Hsi in *. cbn in *. set (i := pred (lp_storedIndex l)) in *.
    rewrite Hseq, list_lookup_fmap in Hs. destruct (new !! i) as [[[j ws'] s']|] eqn:Hn; [|done]. cbn in Hs. injection Hs as ->.
    assert (Hj : (j, ws') = (a_id p, ws)).
    { assert (H1 : commits_of ps !! i = Some (a_id p, ws)) by (by rewrite <- (Nat.add_0_r i), <- lookup_drop, <- Htodo).
      assert (H2 : new.*1 !! i = Some (j, ws')) by (by rewrite list_lookup_fmap, Hn).
      eapply prefix_lookup_Some in H2; [|exact Hnew]. congruence. }
    injection Hj as -> ->. apply lookup_lt_Some in Hn as Hlt. exists [((a_id p, ws), s)].
    split_and!; [by apply take_S_r|lia| |done|done]. by rewrite <- Nat.add_1_r, <- drop_drop, <- Htodo.
  - subst sq. exists []. by rewrite app_nil_r.
Qed.

Lemma publish_line rs w w' ps a l p sq :
  at_call rs w ps a (p :: lp_todo l) (stored_before l p) True -> its_receipt a l p sq ->
  fronts w rs -> w_parts w' = w_parts w -> w_queue w' = w_queue w ->
  stored_commits (w_log w') =
    stored_commits (w_log w) ++ match ps_writes (a_spec p) with Some ws => [(a_id p, ws)] | None => [] end ->
  (published_commits (w_log w') = published_commits (w_log w) -> fronts w' rs) /\
  (published_commits (w_log w') = published_commits (w_log w) ++ match sq with Some s => [(a_id p, s)] | None => [] end ->
    fronts w' rs /\ at_call rs w' ps a (lp_todo l) (lp_storedIndex l) True).
Proof.
  intros (rs0 & new & -> & Hline & Hnew & Hseq & Htodo & Hi & Hpub) Hr (Hf1 & Hf2 & Hf3) Hp Hq Hs.
  destruct (Hpub I) as [Hpub1 Hpub2]. destruct (next_receipt _ _ _ _ _ _ Hnew Hseq Htodo Hi Hr) as (this & Ht & Hle & Htodo' & Ht1 & Ht2).
  assert (Hst : stored_commits (w_log w') = (rs0 ++ take (lp_storedIndex l) new).*1).
  { by rewrite Hs, Hpub2, <- Ht2, Ht, app_assoc, <- fmap_app. }
  assert (Hst' : stored_commits (w_log w') `prefix_of` (rs0 ++ new).*1).
  { rewrite Hst. exists (drop (lp_storedIndex l) new).*1. by rewrite <- fmap_app, <- app_assoc, take_drop. }
  unfold fronts. rewrite Hp. split; intros Hpu; [by rewrite Hpu|].
  rewrite Hpub1, <- Ht1, <- fmap_app, <- app_assoc, <- Ht in Hpu. split.
  - split_and!; [done| |done]. rewrite Hpu. exists (id_seq <$> drop (lp_storedIndex l) new).
    by rewrite <- fmap_app, <- app_assoc, take_drop.
  - exists rs0, new. unfold shown. rewrite Hp, Hq. by split_and!.
Qed.

Lemma run_publication_line p sq reply w w' external failure rs ps a l :
  fronts w rs -> at_call rs w ps a (p :: lp_todo l) (stored_before l p) (w_failure w = None) -> its_receipt a l p sq ->
  run_publication p sq reply w = (w', external, failure) ->
  fronts w' rs /\
  (external = None /\ match failure with Some {| pf_kind := adoption |} => False | _ => True end ->
    at_call rs w' ps a (lp_todo l) (lp_storedIndex l) True).
Proof.
  intros Hf Hc Hr Hrun. unfold run_publication in Hrun. destruct (w_failure w) as [x|] eqn:Hx.
  { injection Hrun as <- <- <-. split; [done|]. by intros []. }
  assert (Hc' : at_call rs w ps a (p :: lp_todo l) (stored_before l p) True) by (by eapply at_call_frame; [..|exact Hc]).
  assert (Hpub : forall w0, w_parts w0 = w_parts w -> w_queue w0 = w_queue w ->
    published_commits (w_log w0) = published_commits (w_log w) ->
    stored_commits (w_log w0) = stored_commits (w_log w) ++ match ps_writes (a_spec p) with Some ws => [(a_id p, ws)] | None => [] end ->
    match rp_publish reply with
    | Ok x => (log_event (Published (a_id p) sq) w0, None, x)
    | Throw e => (log_event (Published (a_id p) sq) w0, None, Some {| pf_kind := adoption; pf_error := Thrown e |})
    end = (w', external, failure) ->
    fronts w' rs /\ at_call rs w' ps a (lp_todo l) (lp_storedIndex l) True).
  { intros w0 Hp Hq Hl Hs H. assert (w' = log_event (Published (a_id p) sq) w0) as -> by (destruct (rp_publish reply); naive_solver).
    eapply (publish_line _ w); [done..| |]; cbn; rewrite ?published_commits_snoc, ?stored_commits_snoc, ?app_nil_r; [done|].
    by rewrite Hl. }
  destruct (ps_writes (a_spec p)) as [ws|] eqn:Hw; [destruct (rp_stored reply) as [e|]|].
  - injection Hrun as <- <- <-. split; [|by intros []]. 
    destruct (publish_line rs w (log_event (Stored (a_id p) ws) (unregister p w)) ps a l p sq) as [Hfr _]; [done..| |apply Hfr];
      cbn; by rewrite ?published_commits_snoc, ?stored_commits_snoc, ?app_nil_r, ?Hw.
  - apply Hpub in Hrun as [H1 H2]; [done|done|done|..]; cbn; by rewrite ?published_commits_snoc, ?stored_commits_snoc, ?app_nil_r.
  - apply Hpub in Hrun as [H1 H2]; [done|done|done|done|]. cbn. by rewrite app_nil_r.
Qed.

Lemma after_line ps a l p external failure w rs :
  fronts w rs ->
  (external = None /\ match failure with Some {| pf_kind := adoption |} => False | _ => True end ->
    at_call rs w ps a (lp_todo l) (lp_storedIndex l) True) ->
  fronts (after ps a l p external failure w) rs /\ flight_line rs (after ps a l p external failure w).
Proof.
  intros Hf Hc. unfold after. destruct external as [e|]; [by apply go_on_line|].
  assert (Hgo : forall w' l', quiet w w' -> w_queue w' = w_queue w -> lp_todo l' = lp_todo l ->
    lp_storedIndex l' = lp_storedIndex l -> match failure with Some {| pf_kind := adoption |} => False | _ => True end ->
    fronts (go_on ps a l' w') rs /\ flight_line rs (go_on ps a l' w')).
  { intros w' l' Hq Hqu Ht Hs Hfa. apply go_on_line; [by eapply fronts_quiet|]. intros _. rewrite Ht, Hs.
    eapply at_call_frame; [exact Hq|done| |by apply Hc]. done. }
  destruct failure as [[[] e]|]; [by apply go_on_line|..]; destruct (an_rejected a);
    apply Hgo; first [done|by apply log_quiet].
Qed.

Lemma conclude_failed ps a l w :
  an_rejected a <> None \/ lp_stop l <> None -> w_failure (conclude ps a l w) <> None.
Proof.
  intros Hr Hn. unfold conclude in Hn. apply (qu_failure _ _ (finish_quiet _ _ _)) in Hn.
  assert (Hf : forall e at_index own, w_failure (host_fail e at_index own w) <> None) by (intros; apply host_fail_frame).
  destruct (an_rejected a) as [e|]; [by apply Hf in Hn|]. destruct (lp_stop l) as [s|]; [by apply Hf in Hn|]. by destruct Hr.
Qed.

Lemma moves_line w w' rs :
  writer_ok w -> fronts w rs -> flight_line rs w -> (forall ps, w_flight w <> Sending ps) -> moves w w' ->
  fronts w' rs /\ flight_line rs w'.
Proof.
  intros (g & r & k & _ & _ & Hok & _) Hf Hl Hns Hm. unfold flight_line in Hl. unfold flight_ok in Hok.
  destruct Hm as [w ps a Hfl|w ps a l p sq Hfl|w ps a l p sq Hfl|w ps a l p sq reply pending w' ex fa Hfl Hrun
    |w ps a l p sq reply w' ex fa Hfl Hrun|w ps a l p ex fa pending Hfl|w ps a l Hfl|w ps Hfl|w ps e Hfl].
  1-8: rewrite Hfl in Hl, Hok.
  - by destruct (Hns ps).
  - done.
  - done.
  - destruct Hl as [Hc Hr]. by destruct (run_publication_line _ _ _ _ _ _ _ _ _ _ _ Hf Hc Hr Hrun).
  - destruct Hl as [Hc Hr]. by destruct (run_publication_line _ _ _ _ _ _ _ _ _ _ _ Hf Hc Hr Hrun).
  - by apply after_line.
  - split; [eapply fronts_quiet; [apply conclude_quiet|done]|]. intros Hn.
    destruct Hok as (_ & _ & _ & Hr). by apply (conclude_failed ps a l w) in Hr.
  - by apply flushed_line.
  - destruct (abandon_quiet ps (Thrown e) w) as [Hq Hn]. by apply flushed_line; [eapply fronts_quiet|].
Qed.

Lemma zip_receipts (xs : list (nat * list StorageWrite)) (seqs : list N) :
  length seqs <= length xs ->
  (zip xs seqs).*1 = take (length seqs) xs /\ (zip xs seqs).*2 = seqs /\ writes_seq <$> zip xs seqs = zip xs.*2 seqs.
Proof.
  revert xs. induction seqs as [|x seqs IH]; intros [|y xs] Hl; cbn in *; try done; [lia|].
  destruct (IH xs) as (H1 & H2 & H3); [lia|]. by rewrite H1, H2, H3.
Qed.

Lemma one_by_one_app m0 m m' rs rs' : one_by_one m0 rs m -> one_by_one m rs' m' -> one_by_one m0 (rs ++ rs') m'.
Proof.
  intros Hone Hone'. revert Hone. induction Hone' as [m|m m1 m2 id rs' H IH Hm|m m1 m2 ws p rs' H IH Hp Ha]; intros Hone.
  - by rewrite app_nil_r.
  - by eapply one_mint; [apply IH|].
  - rewrite app_assoc. by eapply one_commit; [apply IH| |].
Qed.

(** A step stores commits after those stored. *)
Lemma line_step_at m0 rs s s' : line_at m0 rs s -> line_step s s' ->
  exists new, line_at m0 (rs ++ new) s' /\ one_by_one s.2 (writes_seq <$> new) s'.2.
Proof.
  intros (Hw & Hone & Hf & Hl) Hs. revert Hw Hone Hf Hl. unfold line_at.
  destruct Hs as [w spec m Ha|w e at_index own m|w w' m Hns Hm|w ps m m' a Hfl Ha|w m m' id Hm]; cbn; intros Hw Hone Hf Hl.
  1-3, 5: exists []; rewrite app_nil_r; cbn.
  - split; [|apply one_nil]. split; [by apply admit_ok|]. split; [done|by apply admit_line].
  - split; [|apply one_nil]. split; [by apply host_fail_ok|]. split; [done|by apply host_fail_line].
  - split; [|apply one_nil]. split; [by eapply moves_ok|]. split; [done|by eapply moves_line].
  - split; [|eapply one_mint; [apply one_nil|done]]. split; [done|]. split; [by eapply one_mint|done].
  - unfold flight_line in Hl. rewrite Hfl in Hl. destruct Hl as [Hl Hp].
    destruct (memory_answer_line m [] m (batches_of ps) m' a (one_nil m) Ha) as (seqs & Hle & Hone' & Hseqs).
    cbn [app] in Hone'. rewrite batches_commits in Hle, Hone'. rewrite length_fmap in Hle.
    set (new := zip (commits_of ps) seqs).
    assert (Hnew : new.*1 = take (length seqs) (commits_of ps) /\ new.*2 = seqs /\
      writes_seq <$> new = zip (commits_of ps).*2 seqs) by by apply zip_receipts.
    destruct Hnew as (Hn1 & Hn2 & Hn3). rewrite <- Hn3 in Hone'.
    assert (Hpre : new.*1 `prefix_of` commits_of ps) by (rewrite Hn1; apply prefix_take).
    exists new. split; [|exact Hone']. split; [by eapply moves_ok, moves_answer|].
    split; [rewrite fmap_app; by eapply one_by_one_app|]. apply received_line; [|done..|by rewrite Hn2|done].
    destruct Hf as (_ & Hf1 & Hf2). split; [|rewrite !fmap_app; split; by apply prefix_app_r].
    rewrite fmap_app, <- Hl. apply prefix_app, prefix_app_r, Hpre.
Qed.

Lemma line_run m0 rs s s' : line_at m0 rs s -> rtc line_step s s' ->
  exists new, line_at m0 (rs ++ new) s' /\ one_by_one s.2 (writes_seq <$> new) s'.2.
Proof.
  intros Hs H. apply (rtc_ind_r (R := line_step) (fun s' => exists new, line_at m0 (rs ++ new) s' /\
    one_by_one s.2 (writes_seq <$> new) s'.2) s); [|intros s1 s2 _ H12 (new & Hat & Hone)|done].
  - exists []. rewrite app_nil_r. split; [done|apply one_nil].
  - destruct (line_step_at _ _ _ _ Hat H12) as (new' & Hat' & Hone'). exists (new ++ new').
    rewrite app_assoc, fmap_app. split; [done|by eapply one_by_one_app].
Qed.

Lemma line_reachable_at m0 s : line m0 s -> exists rs, line_at m0 rs s.
Proof.
  intros H. destruct (line_run m0 [] (writer_new, m0) s) as (new & Hat & _); [|exact H|by exists new].
  split; [apply writer_new_ok|]. by split; [apply one_nil|].
Qed.

(** The steps of the line are steps of the writer. *)
Lemma line_reachable m0 s : line m0 s -> reachable s.1.
Proof.
  unfold line, reachable. intros H.
  apply (rtc_ind_r (R := line_step) (fun s => rtc writer_step writer_new s.1) (writer_new, m0)); [done| |done].
  intros s1 s2 _ Hs Hr. destruct Hs; cbn in *; try done.
  - by eapply rtc_r, step_admit.
  - by eapply rtc_r, step_fail.
  - by eapply rtc_r, step_moves.
  - by eapply rtc_r, step_moves, moves_answer.
Qed.

(** ** The log grows *)

(** Nothing is taken back: the log only grows, and the writer adds no parts itself. *)
Record grows w w' : Prop := {
  gr_log : w_log w `prefix_of` w_log w';
  gr_parts : w_parts w' = w_parts w;
}.

#[export] Instance grows_preorder : PreOrder grows.
Proof. split; [by intros w|]. intros w1 w2 w3 [] []. split; [by etrans|congruence]. Qed.

Lemma grows_same w w' : w_log w' = w_log w -> w_parts w' = w_parts w -> grows w w'.
Proof. intros Hl Hp. split; [by rewrite Hl|done]. Qed.

Lemma grows_flight w w' f : grows w w' -> grows w (with_flight f w').
Proof. by intros []. Qed.

Lemma grows_event v w : grows w (log_event v w).
Proof. split; [by apply prefix_app_r|done]. Qed.

Lemma foldl_grows {A} (f : Writer (E := E) -> A -> Writer) (xs : list A) w : (forall w x, grows w (f w x)) -> grows w (foldl f w xs).
Proof. intros Hf. revert w. induction xs as [|x xs IH]; intros w; cbn; [done|]. etrans; [apply Hf|apply IH]. Qed.

Lemma unpublish_grows p rj w : grows w (unpublish p rj w).
Proof. etrans; [apply (grows_event (Discarded (a_id p)))|]. by apply grows_same. Qed.

Lemma unpublish_all_grows ps rj w : grows w (unpublish_all ps rj w).
Proof. apply foldl_grows. intros w' p. apply unpublish_grows. Qed.

Lemma host_fail_grows e at_index own w : grows w (host_fail e at_index own w).
Proof. apply grows_same; by unfold host_fail; destruct (w_failure w). Qed.

Lemma finish_grows ps l w : grows w (finish ps l w).
Proof.
  unfold finish. apply grows_flight. etrans; [apply (foldl_grows (settle_failing l) (lp_failing l))|].
  - intros w' f. unfold settle_failing. destruct (fg_published f); [by apply grows_same|apply unpublish_grows].
  - unfold drop_queue. destruct (w_failure _); [|done].
    etrans; [|apply unpublish_all_grows]. by apply grows_same.
Qed.

Lemma go_on_grows ps a l w : grows w (go_on ps a l w).
Proof.
  unfold go_on. destruct (advance _ _ _ _ _ _) as [l' [[p sq]|]]; [by apply grows_same|].
  destruct (an_rejected a); [by apply grows_same|]. destruct (lp_stop l'); [by apply grows_same|apply finish_grows].
Qed.

Lemma received_grows ps a w : grows w (received ps a w).
Proof.
  unfold received. destruct (w_failure w); [|apply go_on_grows]. apply grows_flight, unpublish_all_grows.
Qed.

Lemma send_grows ps w : grows w (send ps w).
Proof.
  unfold send. destruct (w_failure w); [apply grows_flight, unpublish_all_grows|].
  destruct (batches_of ps); [apply received_grows|]. apply grows_flight, grows_event.
Qed.

Lemma pump_grows w : grows w (pump w).
Proof.
  unfold pump. destruct (w_flight w); try done. destruct (w_queue w); [done|]. etrans; [|apply send_grows]. by apply grows_same.
Qed.

Lemma moves_grows w w' : moves w w' -> grows w w'.
Proof.
  assert (Hrun : forall p sq reply w w' ex fa, run_publication p sq reply w = (w', ex, fa) -> grows w w').
  { clear. intros p sq reply w w' ex fa H. unfold run_publication in H. destruct (w_failure w); [by injection H as <-|].
    assert (Hev : forall v w0, grows w w0 -> grows w (log_event v w0)) by (intros v w0 Hg; etrans; [exact Hg|apply grows_event]).
    assert (Hu : grows w (unregister p w)) by by apply grows_same.
    destruct (ps_writes (a_spec p)) as [ws|]; [destruct (rp_stored reply); [|destruct (rp_publish reply)]|destruct (rp_publish reply)];
      injection H as <- <- <-; auto. }
  assert (Hfl : forall w, grows w (flushed w)) by (intros x; etrans; [|apply pump_grows]; by apply grows_same).
  intros []; try by apply grows_same.
  - apply received_grows.
  - eapply grows_flight, Hrun; done.
  - eapply grows_flight, Hrun; done.
  - unfold after. assert (Hgo : forall lx y z, grows y z -> grows y (go_on parts a lx z)) by (intros lx y z Hg; etrans; [exact Hg|apply go_on_grows]).
    assert (Hso : forall y o, grows y (open p (settle p o y))) by (intros y o; by apply grows_same).
    destruct external; [by apply Hgo|]. destruct failure as [[[] e]|]; [by apply Hgo|..];
      destruct (an_rejected a); apply Hgo; first [apply Hso|done|apply grows_event].
  - unfold conclude. etrans; [|apply finish_grows]. destruct (an_rejected a); [apply host_fail_grows|].
    destruct (lp_stop l); [apply host_fail_grows|done].
  - apply Hfl.
  - etrans; [|apply Hfl]. unfold abandon. etrans; [apply host_fail_grows|apply foldl_grows]. intros x p. unfold abandon_part.
    destruct (w_done x !! a_id p); [by apply grows_same|]. etrans; [apply (unpublish_grows p (failed (Thrown e) x))|by apply grows_same].
Qed.

Lemma line_step_log s s' : line_step s s' -> w_log s.1 `prefix_of` w_log s'.1.
Proof.
  intros []; cbn; [|apply host_fail_grows|by apply moves_grows|apply received_grows|done].
  unfold admit_part. etrans; [|apply pump_grows]. done.
Qed.

(** ** The storage of a line *)

Lemma single_later m writes prepared m' :
  prepareCommit m writes None = Ok prepared -> applyPreparedCommit m prepared = Some m' -> later m m'.
Proof.
  intros Hp Ha. apply rtc_once. apply (step_commit m [writes] m' [(0, p_seq prepared)] (Some {| stored := 1; refused := None |})).
  unfold commit. destruct (assertOpen m) as [u|e] eqn:Ho; [|by unfold prepareCommit in Hp; rewrite Ho in Hp].
  cbn. by rewrite Hp, Ha.
Qed.

Lemma one_by_one_later m rs m' : one_by_one m rs m' -> later m m'.
Proof.
  induction 1 as [m|m m1 m2 id rs H IH Hm|m m1 m2 ws p rs H IH Hp Ha]; [done|..].
  - etrans; [exact IH|]. by eapply rtc_once, step_mint.
  - etrans; [exact IH|]. by eapply single_later.
Qed.

(** Sequence numbers follow each other. *)
Lemma one_by_one_seqs m rs m' : storage_inv m -> one_by_one m rs m' ->
  rs.*2 = (fun i => nextSeq m + N.of_nat i)%N <$> seq 0 (length rs) /\ nextSeq m' = (nextSeq m + N.of_nat (length rs))%N.
Proof.
  intros Hi H. induction H as [m|m m1 m2 id rs H IH Hm|m m1 m2 ws p rs H IH Hp Ha]; [cbn; split; [done|lia]|..];
    destruct (IH Hi) as [IH1 IH2].
  - split; [done|]. rewrite <- IH2. unfold mintId in Hm. by inv_res.
  - assert (Hi1 : storage_inv m1) by (eapply later_inv; [by eapply one_by_one_later|done]).
    pose proof (co_seq _ _ _ (untouched_committed m1 ws p m2 Hi1 Hp Ha)) as [_ Hn]. pose proof (prepared_seq _ _ _ Hp) as Hs.
    rewrite length_app, fmap_app, seq_app, fmap_app, IH1, Hn, Hs, IH2. cbn. split; [done|lia].
Qed.

(** Commits that have none of the keys. *)
Lemma one_by_one_same (K : string -> Prop) m rs m' : storage_inv m -> one_by_one m rs m' ->
  (forall ws sq key, (ws, sq) ∈ rs -> K key -> key ∉ batch_keys ws) -> same_for K m m'.
Proof.
  intros Hi H. induction H as [m|m m1 m2 id rs H IH Hm|m m1 m2 ws p rs H IH Hp Ha]; intros HK.
  - by apply same_for_state.
  - eapply same_for_trans; [by apply IH|]. unfold mintId in Hm. inv_res. by apply same_for_state.
  - assert (Hi1 : storage_inv m1) by (eapply later_inv; [by eapply one_by_one_later|done]).
    eapply same_for_trans; [apply IH; [done|]|].
    + intros ws' sq key Hin. eapply HK. by apply elem_of_app; left.
    + eapply batch_same; [done..|]. intros key Hk. eapply HK; [|done]. apply elem_of_app; right. by left.
Qed.

(** ** What is not stored yet *)

Lemma commits_elem ps i ws : (i, ws) ∈ commits_of ps <-> exists p, p ∈ ps /\ a_id p = i /\ ps_writes (a_spec p) = Some ws.
Proof.
  unfold commits_of. rewrite list_elem_of_omap. split.
  - intros (p & Hp & H). exists p. destruct (ps_writes (a_spec p)); [|done]. injection H as <- <-. done.
  - intros (p & Hp & <- & Hw). exists p. by rewrite Hw.
Qed.

Lemma commits_ids ps : NoDup (a_id <$> ps) -> NoDup (commits_of ps).*1.
Proof.
  induction ps as [|p ps IH]; [done|]. intros [Hn Hd]%NoDup_cons. unfold commits_of in *. cbn.
  destruct (ps_writes (a_spec p)) as [ws|]; cbn; [|by apply IH]. apply NoDup_cons. split; [|by apply IH].
  intros ([i ws'] & Hpi & Hin)%list_elem_of_fmap. apply commits_elem in Hin as (p' & Hp' & Hi & _). apply Hn.
  apply list_elem_of_fmap. exists p'. by rewrite Hi.
Qed.

Lemma stored_elem i ws log : Stored i ws ∈ log -> (i, ws) ∈ stored_commits log.
Proof. intros H. apply list_elem_of_omap. by exists (Stored i ws). Qed.

(** While the Session is well, what was handled is stored. *)
Lemma unstored_unhandled w rs todo i ws :
  writer_ok w -> fronts w rs -> w_failure w = None -> commits_of (w_parts w) = rs.*1 ++ todo ->
  (i, ws) ∈ todo -> ~ handled i (w_log w).
Proof.
  intros (g & r & k & Hs & Hh & _) (_ & _ & Hst) Hf Hc Hin Hhd.
  assert (Hd : NoDup (commits_of (w_parts w)).*1) by (apply commits_ids; rewrite (sh_ids _ _ _ Hs); apply NoDup_seq).
  assert (Hin' : (i, ws) ∈ commits_of (w_parts w)) by (rewrite Hc; by apply elem_of_app; right).
  assert (Hno : forall ws', Stored i ws' ∈ w_log w -> False).
  { intros ws' H%stored_elem. destruct Hst as [tl Hst]. rewrite Hc, fmap_app in Hd. apply NoDup_app in Hd as (_ & Hd & _).
    apply (Hd i); [|apply list_elem_of_fmap; by exists (i, ws)].
    apply list_elem_of_fmap. exists (i, ws'). split; [done|]. rewrite Hst. by apply elem_of_app; left. }
  destruct Hhd as [[ws' H]|[[sq H]|H]]; [by eapply Hno| |by apply (hi_discarded _ _ _ Hh i H)].
  apply commits_elem in Hin' as (p & Hp & Hi & Hw). apply list_elem_of_lookup in Hp as [j Hp].
  pose proof (shape_part _ _ _ _ _ Hs Hp) as Hj. rewrite Hi in Hj. subst j. by eapply Hno, (hi_stored _ _ _ Hh).
Qed.

(** Every part that writes the key is handled, and every part for [ALL_KEYS]. *)
Definition cleared (key : string) w : Prop :=
  forall p, p ∈ w_parts w -> key = ALL_KEYS \/ key ∈ ps_keys (a_spec p) -> handled (a_id p) (w_log w).

Lemma gate_cleared w key : writer_ok w -> gate key w = None ->
  forall p, p ∈ w_parts w -> key ∈ ps_keys (a_spec p) -> handled (a_id p) (w_log w).
Proof.
  intros (g & r & k & Hs & Hh & _) Hg p Hp Hk. unfold gate in Hg. rewrite (sh_keys _ _ _ Hs) in Hg.
  destruct (last_writer key (w_parts w)) as [i|] eqn:Hl; cbn in Hg; [|by apply (last_writer_None _ _ Hl) in Hk].
  case_decide; [done|]. apply (hi_handled _ _ _ Hh). pose proof (last_writer_newest _ _ _ _ (sh_ids _ _ _ Hs) Hl Hp Hk). lia.
Qed.

Lemma part_bound w g r p : shape w g r -> p ∈ w_parts w -> a_id p < length (w_parts w).
Proof.
  intros Hs Hp. apply list_elem_of_lookup in Hp as [j Hp]. rewrite (shape_part _ _ _ _ _ Hs Hp). by eapply lookup_lt_Some.
Qed.

Lemma handled_below w i j : writer_ok w -> i ∈ w_opened w -> j <= i -> handled j (w_log w).
Proof.
  intros (g & r & k & Hs & Hh & _) Ho Hj. apply (hi_handled _ _ _ Hh). apply (sh_opened _ _ _ Hs) in Ho.
  pose proof (sh_le _ _ _ Hs). lia.
Qed.

Lemma drained_cleared w : writer_ok w -> drained w = None -> forall p, p ∈ w_parts w -> handled (a_id p) (w_log w).
Proof.
  intros (g & r & k & Hs & Hh & _) Hd p Hp. apply (hi_handled _ _ _ Hh). pose proof (part_bound _ _ _ _ Hs Hp).
  unfold drained in Hd. rewrite (sh_newest _ _ _ Hs) in Hd. case_decide; [done|]. pose proof (sh_le _ _ _ Hs). lia.
Qed.

Lemma handled_prefix i (log log' : list (event (E := E))) : log `prefix_of` log' -> handled i log -> handled i log'.
Proof. intros [tl ->]. unfold handled. set_solver. Qed.
End Line.
