(* ===== verification/WriterTheorems.v ===== *)
(** The writer of a Session (durable/src/session/writer.ts) and the reads of its line
    (durable/src/session/keys.ts): parts are published in the order of the line, gates open
    when they may, every part settles, group commits store what single commits would, and a
    gated read answers as if all that the line admitted were stored. *)
From S2P Require Import Prelude StorageTypes SortedIds MemoryCommit DocumentFacts TableFacts MemoryFacts MemoryRead ReadFacts VisibleFacts MemoryHistory SessionTypes SessionCommit SessionKeys SessionWriter WriterInvariant WriterLine.

(** ** Reading on the line *)

Section Gated.
Context {E : Type} (err : storage_error -> E).


(** While a job of the line reads, nothing is admitted. *)
Definition calm (s s' : Writer * MemoryStorage) : Prop :=
  line_step err s s' /\ w_parts s'.1 = w_parts s.1.



(** ** Facts *)

Lemma calm_run s s' : rtc calm s s' -> rtc (line_step err) s s' /\ w_parts s'.1 = w_parts s.1 /\ w_log s.1 `prefix_of` w_log s'.1.
Proof.
  intros H. induction H as [s|s s1 s2 [Hs Hp] H (IH1 & IH2 & IH3)]; [by split_and!|].
  split_and!; [by eapply rtc_l|congruence|]. etrans; [by eapply line_step_log|done].
Qed.





End Gated.


(** ** A small run *)

(** A scheduler that lets every await go on, without errors. *)
Definition drive (s : Writer * MemoryStorage) : Writer * MemoryStorage :=
  let '(w, m) := s in
  match w_flight w with
  | Landed => (w, m)
  | Sending parts =>
      match commit m (batches_of parts) with
      | Throw e => (received parts {| an_seqs := ∅; an_result := None; an_rejected := Some e |} w, m)
      | Ok (m', receipts, Some r) =>
          (received parts {| an_seqs := list_to_map receipts;
             an_result := Some {| sr_stored := stored r; sr_refused := refused r |}; an_rejected := None |} w, m')
      | Ok (m', receipts, None) =>
          (received parts {| an_seqs := list_to_map receipts; an_result := None; an_rejected := Some Closed |} w, m')
      end
  | Hopping parts a l p seq => (with_flight (Ready parts a l p seq) w, m)
  | Ready parts a l p seq | Scoped parts a l p seq =>
      let '(w', external, failure) := run_publication p seq {| rp_stored := None; rp_publish := Ok None |} w in
      (with_flight (Ran parts a l p external failure true) w', m)
  | Ran parts a l p external failure _ => (after parts a l p external failure w, m)
  | Dispatching parts a l => (conclude parts a l w, m)
  | Returning _ => (flushed w, m)
  end.

Lemma drive_line s : w_flight s.1 <> Landed -> line_step id s (drive s).
Proof.
  destruct s as [w m]. cbn [fst]. unfold drive. intros Hl. destruct (w_flight w) as [|ps|ps a l p sq|ps a l p sq|ps a l p sq|ps a l p ex fa pe|ps a l|ps] eqn:Hf.
  - done.
  - destruct (commit m (batches_of ps)) as [[[m' receipts] [r|]]|e] eqn:Hc; (eapply line_commit; [exact Hf|]).
    + rewrite <- (option_fmap_id (refused r)). by eapply (answer_result id).
    + by eapply (answer_thrown id).
    + by eapply (answer_closed id).
  - apply line_moves; [by rewrite Hf|by apply moves_hop].
  - destruct (run_publication p sq _ w) as [[w' ex] fa] eqn:Hr. apply line_moves; [by rewrite Hf|by eapply moves_run].
  - destruct (run_publication p sq _ w) as [[w' ex] fa] eqn:Hr. apply line_moves; [by rewrite Hf|by eapply moves_run_scoped].
  - apply line_moves; [by rewrite Hf|by eapply moves_after].
  - apply line_moves; [by rewrite Hf|by apply moves_dispatched].
  - apply line_moves; [by rewrite Hf|by eapply moves_returned].
Qed.

(** Two conversations, each created by a part of its own. *)
Definition creation (id : N) : StorageWrite := WConversation {| c_id := id; c_parent := None; c_owner := None |}.

Definition part (index : nat) (id : N) : PartSpec :=
  {| ps_index := index; ps_writes := Some [creation id]; ps_keys := writeKeys [] [creation id] |}.

Definition run0 : Writer (E := storage_error) * MemoryStorage := (admit_part (part 1 3) (admit_part (part 0 2) writer_new), memory_new).
(** The first part is published; the second waits. *)
Definition run1 := drive (drive run0).
(** All parts are published. *)
Definition run2 := Nat.iter 5 drive (drive run1).

Lemma run0_line : line id memory_new run0.
Proof.
  unfold line, run0. eapply rtc_l; [by apply (line_admit id writer_new (part 0 2))|]. eapply rtc_l; [by apply line_admit|done].
Qed.

Lemma drive_calm n s : forall k, k <= n -> (forall j, j < n -> w_flight (Nat.iter j drive s).1 <> Landed /\
    w_parts (Nat.iter (S j) drive s).1 = w_parts (Nat.iter j drive s).1) ->
  rtc (calm id) s (Nat.iter k drive s).
Proof.
  intros k Hk Hj. induction k as [|k IH]; [done|]. destruct (Hj k) as [Hf Hp]; [lia|].
  eapply rtc_r; [apply IH; lia|]. split; [by apply drive_line|done].
Qed.

Lemma run1_calm : rtc (calm id) run0 (drive run1) /\ rtc (calm id) (drive run1) run2.
Proof.
  split.
  - change (drive run1) with (Nat.iter 3 drive run0). apply (drive_calm 3 run0 3); [lia|]. intros [|[|[|j]]] Hj; [by vm_compute..|lia].
  - unfold run2. apply (drive_calm 5 (drive run1) 5); [lia|]. intros [|[|[|[|[|j]]]]] Hj; [by vm_compute..|lia].
Qed.



(** ** The properties *)



(** C12. Group commits refine single ones: the storage is what commits of one batch each
    would make it, with the parts of the line in its order, sequence numbers that follow
    each other, up to some part. What was published carries those numbers, and it and what
    the caches were given are fronts of these commits. When the writer has landed and the
    Session is well, all parts are stored, published and in the caches. *)
Theorem group_commits_store_the_line {E} (err : storage_error -> E) m0 w m :
  storage_inv m0 -> line err m0 (w, m) -> exists rs,
    one_by_one m0 (writes_seq <$> rs) m /\
    rs.*2 = (fun i => nextSeq m0 + N.of_nat i)%N <$> seq 0 (length rs) /\
    rs.*1 `prefix_of` commits_of (w_parts w) /\
    published_commits (w_log w) `prefix_of` (id_seq <$> rs) /\
    stored_commits (w_log w) `prefix_of` rs.*1 /\
    (w_flight w = Landed -> w_failure w = None ->
      rs.*1 = commits_of (w_parts w) /\ published_commits (w_log w) = id_seq <$> rs /\ stored_commits (w_log w) = rs.*1).
Proof.
  intros Hi Hl. destruct (line_reachable_at _ _ _ Hl) as (rs & Hw & Hone & (H1 & H2 & H3) & Hf). cbn [fst snd] in *.
  destruct (one_by_one_seqs _ _ _ Hi Hone) as [Hseq _]. exists rs. split_and!; [done| |done..|].
  - rewrite <- list_fmap_compose, length_fmap in Hseq. by rewrite <- Hseq.
  - intros Hla Hn. unfold flight_line in Hf. rewrite Hla in Hf. destruct (Hf Hn) as [Hc Hs].
    destruct Hw as (g & r & k & _ & _ & Hok & _). unfold flight_ok in Hok. rewrite Hla in Hok. destruct Hok as [Hq _].
    rewrite Hq in Hc. cbn in Hc. by rewrite app_nil_r in Hc.
Qed.

Lemma run2_line : line id memory_new run2.
Proof. unfold line. etrans; [apply run0_line|]. destruct run1_calm as [H1 H2]. by apply calm_run; etrans. Qed.

Lemma group_commits_store_the_line_witness : w_flight run2.1 = Landed /\ w_failure run2.1 = None /\
  exists rs, one_by_one memory_new (writes_seq <$> rs) run2.2 /\ rs.*1 = [(0, [creation 2]); (1, [creation 3])].
Proof.
  split_and!; [by vm_compute..|].
  destruct (group_commits_store_the_line id memory_new run2.1 run2.2) as (rs & Hone & _ & _ & _ & _ & Hall).
  - apply empty_inv.
  - rewrite <- surjective_pairing. apply run2_line.
  - exists rs. split; [exact Hone|]. destruct Hall as (H & _); [by vm_compute..|]. rewrite H. by vm_compute.
Defined.

(** C13. Parts are published one after the other, from the first on: what is published are
    the first parts of the line, in its order. A part that resolved was published; one that
    was rejected has the Session's failure as [SessionFailed], or an error of its own, and
    only when the Session failed; nothing is given up before that. A part settles, and its
    gate opens, after those before it and at the same time. *)
Theorem parts_publish_in_order {E} (w : Writer (E := E)) :
  reachable w -> exists k, published_ids (w_log w) = seq 0 k /\
    (forall i, w_done w !! i = Some Resolved -> i < k) /\
    (forall i r, w_done w !! i = Some (Rejected r) -> exists f, w_failure w = Some f /\
      match r with SessionFailed c => c = fl_error f | OwnError _ => True end) /\
    (forall i, Discarded i ∈ w_log w -> w_failure w <> None) /\
    (forall i j, is_Some (w_done w !! i) -> j <= i -> is_Some (w_done w !! j)) /\
    (forall i, i ∈ w_opened w <-> is_Some (w_done w !! i)).
Proof.
  intros (g & r & k & Hs & Hh & _)%writer_reachable_ok. exists k. split_and!; try apply Hh.
  - intros i j. rewrite !(sh_done _ _ _ Hs). lia.
  - intros i. by rewrite (sh_opened _ _ _ Hs), (sh_done _ _ _ Hs).
Qed.

Lemma run2_reachable : reachable run2.1.
Proof. eapply line_reachable, run2_line. Qed.

Lemma parts_publish_in_order_witness : w_done run2.1 !! 1 = Some Resolved /\ is_Some (w_done run2.1 !! 0).
Proof.
  destruct (parts_publish_in_order run2.1 run2_reachable) as (k & _ & _ & _ & _ & Hd & _).
  split; [by vm_compute|]. apply (Hd 1); [by vm_compute; eexists|lia].
Defined.

(** C14. The gates of the line are right: the gate of a key is the newest part that writes
    the key and was neither published nor given up, and there is none when every part that
    writes it was. A part opens its gate once all parts up to it are through; the line is
    drained when every gate is open. *)
Theorem gates_open_when_published {E} (w : Writer (E := E)) :
  reachable w ->
  (forall key i, gate key w = Some i -> exists p, p ∈ w_parts w /\ a_id p = i /\ key ∈ ps_keys (a_spec p) /\
    ~ handled i (w_log w) /\ forall q, q ∈ w_parts w -> key ∈ ps_keys (a_spec q) -> a_id q <= i) /\
  (forall key, gate key w = None <->
    forall p, p ∈ w_parts w -> key ∈ ps_keys (a_spec p) -> handled (a_id p) (w_log w)) /\
  (forall i j, i ∈ w_opened w -> j <= i -> handled j (w_log w)) /\
  (drained w = None <-> forall p, p ∈ w_parts w -> a_id p ∈ w_opened w).
Proof.
  intros Hw%writer_reachable_ok. pose proof Hw as (g & r & k & Hs & Hh & _).
  assert (Hg : forall key i, gate key w = Some i -> exists p, p ∈ w_parts w /\ a_id p = i /\ key ∈ ps_keys (a_spec p) /\
    ~ handled i (w_log w) /\ forall q, q ∈ w_parts w -> key ∈ ps_keys (a_spec q) -> a_id q <= i).
  { intros key i Hg. unfold gate in Hg. rewrite (sh_keys _ _ _ Hs) in Hg.
    destruct (last_writer key (w_parts w)) as [j|] eqn:Hl; [|done]. cbn in Hg. case_decide as Hr; [|done]. injection Hg as <-.
    destruct (last_writer_Some _ _ _ Hl) as (p & Hp & Hid & Hk). exists p. split_and!; [done..| |].
    - rewrite (hi_handled _ _ _ Hh). lia.
    - intros q Hq Hkq. by eapply last_writer_newest; [apply (sh_ids _ _ _ Hs)|..]. }
  split_and!; [exact Hg| | |].
  - intros key. split; [by apply gate_cleared|]. intros Hall. destruct (gate key w) as [i|] eqn:Hgk; [|done].
    destruct (Hg _ _ Hgk) as (p & Hp & Hid & Hk & Hn & _). destruct Hn. rewrite <- Hid. by apply Hall.
  - intros i j. by apply handled_below.
  - unfold drained. rewrite (sh_newest _ _ _ Hs). case_decide as Hlt.
    + split; [done|]. intros Hall. exfalso. destruct (lookup_lt_is_Some_2 _ _ Hlt) as [p Hp].
      assert (Hin : a_id p ∈ w_opened w) by (apply Hall; by eapply list_elem_of_lookup_2).
      apply (sh_opened _ _ _ Hs) in Hin. rewrite (shape_part _ _ _ _ _ Hs Hp) in Hin. lia.
    + split; [|done]. intros _ p Hp. apply (sh_opened _ _ _ Hs). pose proof (part_bound _ _ _ _ Hs Hp). lia.
Qed.

Lemma gates_open_when_published_witness : gate "conv:3" run0.1 = Some 1 /\ ~ handled 1 (w_log run0.1).
Proof.
  destruct (gates_open_when_published run0.1) as (Hg & _); [eapply line_reachable, run0_line|].
  split; [by vm_compute|]. destruct (Hg "conv:3"%string 1) as (p & _ & _ & _ & Hn & _); [by vm_compute|done].
Defined.

(** ** Every part settles *)

Section Work.
Context {E : Type}.
Implicit Types (w : Writer (E := E)) (ps : list AdmittedPart) (l : Loop (E := E)) (a : Answer (E := E)).

(** How many steps are left of a call, and of the calls after it. *)
Definition flight_work (f : Flight (E := E)) : nat :=
  match f with
  | Landed => 0
  | Returning _ => 1
  | Dispatching _ _ _ => 2
  | Sending ps => 4 * length ps + 3
  | Ran _ _ l _ _ _ _ => 4 * length (lp_todo l) + 3
  | Scoped _ _ l _ _ => 4 * length (lp_todo l) + 4
  | Ready _ _ l _ _ => 4 * length (lp_todo l) + 5
  | Hopping _ _ l _ _ => 4 * length (lp_todo l) + 6
  end.

Definition work w : nat := 8 * length (w_queue w) + flight_work (w_flight w).

(** What a step leaves of the queue. *)
Lemma unpublish_all_queue ps r w : w_queue (unpublish_all ps r w) = w_queue w.
Proof. revert w. induction ps as [|p ps IH]; intros w; [done|].
  change (w_queue (unpublish_all ps r (unpublish p r w)) = w_queue w). by rewrite IH. Qed.

Lemma drop_queue_length w : length (w_queue (drop_queue w)) <= length (w_queue w).
Proof. unfold drop_queue. destruct (w_failure w); [|done]. rewrite unpublish_all_queue. cbn. lia. Qed.

Lemma host_fail_queue e at_index own w : w_queue (host_fail e at_index own w) = w_queue w.
Proof. unfold host_fail. by destruct (w_failure w). Qed.

Lemma abandon_queue ps e w : w_queue (abandon ps e w) = w_queue w.
Proof.
  unfold abandon. rewrite <- (host_fail_queue e (ps_index ∘ a_spec <$> head ps) [] w). generalize (host_fail e (ps_index ∘ a_spec <$> head ps) [] w).
  induction ps as [|p ps IH]; intros w'; cbn; [done|]. rewrite IH. unfold abandon_part. by destruct (w_done w' !! a_id p).
Qed.

Lemma run_publication_queue p sq r w w' ex fa : run_publication p sq r w = (w', ex, fa) -> w_queue w' = w_queue w.
Proof.
  unfold run_publication. destruct (w_failure w); [by intros [= <- <- <-]|].
  destruct (ps_writes (a_spec p)); [destruct (rp_stored r)|]; try destruct (rp_publish r); by intros [= <- <- <-].
Qed.

(** What is left after each part of a call. *)
Lemma finish_work ps l w : work (finish ps l w) <= 8 * length (w_queue w) + 1.
Proof.
  unfold finish, work. cbn [with_flight w_queue w_flight flight_work].
  pose proof (drop_queue_length (foldl (settle_failing l) w (lp_failing l))) as H. rewrite settle_failing_queue in H. lia.
Qed.

Lemma advance_todo a ps : forall stored published stop fs (l : Loop (E := E)) p sq,
  advance a ps stored published stop fs = (l, Some (p, sq)) -> length (lp_todo l) < length ps.
Proof.
  intros stored published stop fs l p sq H. apply advance_receipt in H as (_ & -> & _). cbn. lia.
Qed.

Lemma go_on_work ps a l w : work (go_on ps a l w) <= 8 * length (w_queue w) + 4 * length (lp_todo l) + 2.
Proof.
  unfold go_on. destruct (advance a (lp_todo l) _ _ _ _) as [l' [[p sq]|]] eqn:Ha.
  - apply advance_todo in Ha. unfold work. cbn [with_flight w_queue w_flight].
    destruct (_ <? _)%nat; cbn [flight_work count_published lp_todo]; lia.
  - pose proof (finish_work ps l' w).
    destruct (an_rejected a), (lp_stop l'); unfold work in *; cbn [with_flight w_queue w_flight flight_work]; lia.
Qed.

Lemma returning_work ps w : work (with_flight (Returning ps) w) = 8 * length (w_queue w) + 1.
Proof. done. Qed.

Lemma received_work ps a w : work (received ps a w) <= 8 * length (w_queue w) + 4 * length ps + 2.
Proof.
  unfold received. destruct (w_failure w); [|apply go_on_work]. rewrite returning_work, unpublish_all_queue. lia.
Qed.

Lemma send_work ps w : work (send ps w) <= 8 * length (w_queue w) + 4 * length ps + 3.
Proof.
  unfold send. destruct (w_failure w); [rewrite returning_work, unpublish_all_queue; lia|].
  destruct (batches_of ps); [|unfold work; cbn; lia]. pose proof (received_work ps no_answer w). lia.
Qed.

Lemma flushed_work w : work (flushed w) <= 8 * length (w_queue w).
Proof.
  unfold flushed, pump. cbn [with_flight w_flight w_queue]. destruct (w_queue w) as [|p q] eqn:Hq.
  - unfold work. cbn. by rewrite Hq.
  - etrans; [apply send_work|]. cbn. lia.
Qed.

Lemma after_work ps a l p ex fa w : work (after ps a l p ex fa w) <= 8 * length (w_queue w) + 4 * length (lp_todo l) + 2.
Proof.
  unfold after. assert (Hgo : forall l' w', lp_todo l' = lp_todo l -> w_queue w' = w_queue w ->
    work (go_on ps a l' w') <= 8 * length (w_queue w) + 4 * length (lp_todo l) + 2).
  { intros l' w' <- <-. apply go_on_work. }
  destruct ex as [e|]; [by apply Hgo|]. destruct fa as [[[] e]|]; [by apply Hgo|..]; destruct (an_rejected a); by apply Hgo.
Qed.

Lemma moves_work w w' : moves w w' -> work w' < work w.
Proof.
  intros [w0 ps a Hf|w0 ps a l p sq Hf|w0 ps a l p sq Hf|w0 ps a l p sq r pe w1 ex fa Hf Hr|w0 ps a l p sq r w1 ex fa Hf Hr
    |w0 ps a l p ex fa pe Hf|w0 ps a l Hf|w0 ps Hf|w0 ps e Hf]; unfold work at 2; [rewrite Hf..|]; cbn [flight_work].
  - pose proof (received_work ps a w0). lia.
  - unfold work. cbn. lia.
  - unfold work. cbn. lia.
  - apply run_publication_queue in Hr. unfold work. cbn. rewrite Hr. lia.
  - apply run_publication_queue in Hr. unfold work. cbn. rewrite Hr. lia.
  - pose proof (after_work ps a l p ex fa w0). lia.
  - unfold conclude. set (w1 := match an_rejected a with Some _ => _ | None => _ end).
    assert (w_queue w1 = w_queue w0) as Hq.
    { unfold w1. destruct (an_rejected a); [apply host_fail_queue|]. destruct (lp_stop l); [apply host_fail_queue|done]. }
    pose proof (finish_work ps l w1). rewrite Hq in *. lia.
  - pose proof (flushed_work w0). lia.
  - pose proof (flushed_work (abandon ps (Thrown e) w0)) as Hle. rewrite abandon_queue in Hle.
    unfold thrower in Hf. destruct (w_flight w0); try done; cbn [flight_work]; lia.
Qed.

(** Moves go on up to where nothing is in flight. *)
Lemma landed_or_moves w : w_flight w = Landed \/ exists w', moves w w'.
Proof.
  destruct (w_flight w) as [|ps|ps a l p sq|ps a l p sq|ps a l p sq|ps a l p ex fa pe|ps a l|ps] eqn:Hf; [by left|right..].
  - eexists. by apply (moves_answer w ps no_answer).
  - eexists. by eapply moves_hop.
  - eexists. by eapply moves_scope.
  - destruct (run_publication p sq {| rp_stored := None; rp_publish := Ok None |} w) as [[w' ex] fa] eqn:Hr.
    eexists. by eapply moves_run_scoped.
  - eexists. by eapply moves_after.
  - eexists. by eapply moves_dispatched.
  - eexists. by eapply moves_returned.
Qed.

Lemma landed_stuck w w' : w_flight w = Landed -> ~ moves w w'.
Proof. intros Hl Hm. destruct Hm; try congruence. by rewrite Hl in *. Qed.

(** So many moves, with failures of the host in between. *)
Inductive drains : nat -> Writer (E := E) -> Writer (E := E) -> Prop :=
| drains_none w : drains 0 w w
| drains_fail n w e at_index own w' : drains n (host_fail e at_index own w) w' -> drains n w w'
| drains_moves n w w1 w' : moves w w1 -> drains n w1 w' -> drains (S n) w w'.

Lemma host_fail_work e at_index own w : work (host_fail e at_index own w) = work w.
Proof. unfold work. destruct (host_fail_frame e at_index own w) as (_ & _ & _ & _ & -> & -> & _). done. Qed.

Lemma drains_bound n w w' : drains n w w' -> n + work w' <= work w.
Proof.
  induction 1 as [w|n w e at_index own w' H IH|n w w1 w' H1 H IH]; [done|by rewrite host_fail_work in IH|].
  apply moves_work in H1. lia.
Qed.

Lemma moves_landed w : exists n w', drains n w w' /\ w_flight w' = Landed.
Proof.
  remember (work w) as n eqn:Hn. revert w Hn. induction (lt_wf n) as [n _ IH]. intros w ->.
  destruct (landed_or_moves w) as [Hl|[w1 Hm]]; [by exists 0, w; split; [constructor|]|].
  destruct (IH (work w1) (moves_work _ _ Hm) w1 eq_refl) as (k & w' & Hr & Hl).
  exists (S k), w'. split; [by eapply drains_moves|done].
Qed.

Lemma drains_kept n w w' : drains n w w' -> (writer_ok w -> writer_ok w') /\ w_parts w' = w_parts w.
Proof.
  induction 1 as [w|n w e at_index own w' H [IH1 IH2]|n w w1 w' H1 H [IH1 IH2]]; [done|split..].
  - intros Hok. by apply IH1, host_fail_ok.
  - rewrite IH2. by destruct (host_fail_frame e at_index own w) as (_ & _ & _ & ? & _).
  - intros Hok. by eapply IH1, moves_ok.
  - rewrite IH2. by apply moves_grows.
Qed.

(** A writer at rest: its parts are settled, no gate is closed. *)
Lemma landed_settled w : writer_ok w -> w_flight w = Landed ->
  (forall p, p ∈ w_parts w -> is_Some (w_done w !! a_id p) /\ a_id p ∈ w_opened w) /\
  drained w = None /\ forall key, gate key w = None.
Proof.
  intros (g & r & k & Hs & _ & Hok & _) Hl. unfold flight_ok in Hok. rewrite Hl in Hok. destruct Hok as [_ ->].
  pose proof (sh_le _ _ _ Hs). split_and!.
  - intros p Hp. pose proof (part_bound _ _ _ _ Hs Hp). by rewrite (sh_done _ _ _ Hs), (sh_opened _ _ _ Hs).
  - unfold drained. rewrite (sh_newest _ _ _ Hs). rewrite decide_False by lia. done.
  - intros key. unfold gate. rewrite (sh_keys _ _ _ Hs). destruct (last_writer key (w_parts w)) as [i|] eqn:Hw; [|done].
    cbn. case_decide; [|done]. apply last_writer_Some in Hw as (p & Hp & <- & _). pose proof (part_bound _ _ _ _ Hs Hp). lia.
Qed.
End Work.

(** C15. Every part settles: once nothing is admitted any more, the writer makes a bounded
    number of moves, however its storage and its observers answer and whenever the Session
    fails; it stops only when nothing is in flight, and then every admitted part resolved or
    rejected, its gate is open, no key is blocked, and the line is drained. *)
Theorem every_part_settles {E} (w : Writer (E := E)) :
  reachable w ->
  (exists n w', drains n w w' /\ w_flight w' = Landed) /\
  forall n w', drains n w w' ->
    n <= work w /\ (w_flight w' = Landed \/ exists w'', moves w' w'') /\
    (w_flight w' = Landed ->
      (forall w'', ~ moves w' w'') /\ w_parts w' = w_parts w /\
      (forall p, p ∈ w_parts w -> is_Some (w_done w' !! a_id p) /\ a_id p ∈ w_opened w') /\
      drained w' = None /\ forall key, gate key w' = None).
Proof.
  intros Hok%writer_reachable_ok. split; [apply moves_landed|]. intros n w' Hr. pose proof (drains_bound _ _ _ Hr).
  split_and!; [lia|apply landed_or_moves|]. intros Hl. destruct (drains_kept _ _ _ Hr) as [Hok' Hp].
  destruct (landed_settled w' (Hok' Hok) Hl) as (H1 & H2 & H3). rewrite Hp in H1.
  split_and!; [|done..]. intros w''. by apply landed_stuck.
Qed.

Lemma every_part_settles_witness : exists n w, n <= 15 /\ drains n run0.1 w /\ is_Some (w_done w !! 0) /\ is_Some (w_done w !! 1).
Proof.
  destruct (every_part_settles run0.1) as ((n & w & Hr & Hl) & Hall); [eapply line_reachable, run0_line|].
  destruct (Hall n w Hr) as (Hn & _ & Hd). destruct (Hd Hl) as (_ & _ & Hs & _). exists n, w.
  split_and!; [revert Hn; vm_compute; lia|done|..].
  - apply (Hs {| a_id := 0; a_spec := part 0 2 |}); vm_compute; left.
  - apply (Hs {| a_id := 1; a_spec := part 1 3 |}); vm_compute; right; left.
Defined.
