(* ===== verification/AgentTranscript.v ===== *)
(** What a transcript says of the prompt and the tools (ai/src/utils/transcript.ts, the text
    of system messages of ai/src/utils/text.ts): system messages patch the prompt and the
    tool set, and the tools in force are those of a replay. *)
From S2P Require Import Prelude JsString Json.

(** ** Maps in the order of insertion *)

(** [Map.set]: an entry keeps its place. *)
Definition map_set {A} (k : string) (v : A) (m : list (string * A)) : list (string * A) :=
  match obj_get k m with Some _ => obj_update k v m | None => m ++ [(k, v)] end.

(** ** Data *)

(** A declaration of a tool. The schemas stand for their JSON texts, by which declarations
    are compared. *)
Record Tool : Type := {
  tl_name : string;
  tl_description : string;
  tl_parameters : string;
  tl_constrainedSampling : option string;
}.

#[export] Instance Tool_eq_dec : EqDecision Tool.
Proof. solve_decision. Defined.

(** [content]: the joined text; [sections] in the order of the object. *)
Record SystemMessage : Type := {
  sm_content : string;
  sm_sections : list (string * option string);
  sm_toolsAdded : list Tool;
  sm_toolsRemoved : list string;
  sm_timestamp : N;
}.

Record ToolStateChanges : Type := { ch_toolsAdded : list Tool; ch_toolsRemoved : list string }.

Inductive TranscriptToolSupport : Type := support_none | support_additions | support_changes.

Record TranscriptTools : Type := { tt_requestTools : list Tool; tt_foldedSystemMessages : nat }.

Definition declarationsEqual (left right : Tool) : bool := bool_decide (left = right).

(** ** Tools *)

(** One system message of [getCurrentTools]. *)
Definition patch_tools (tools : list (string * Tool)) (m : SystemMessage) : list (string * Tool) :=
  foldl (fun tools tool => map_set (tl_name tool) tool tools)
    (foldl (fun tools name => obj_delete name tools) tools (sm_toolsRemoved m)) (sm_toolsAdded m).

Definition replay_tools (ms : list SystemMessage) : list (string * Tool) := foldl patch_tools [] ms.

Section Transcript.
(** Only system messages matter. *)
Context {M : Type} (system : M -> option SystemMessage) (of_system : SystemMessage -> M).
Implicit Types (messages : list M).

Definition system_messages messages : list SystemMessage := omap system messages.

Definition getInitialSystemMessage messages : option SystemMessage :=
  match messages with [] => None | m :: _ => system m end.

Definition withoutInitialSystemMessage messages : list M :=
  match getInitialSystemMessage messages with Some _ => drop 1 messages | None => messages end.

Definition createInitialSystemMessage (systemPrompt : option string) (tools : option (list Tool)) : option SystemMessage :=
  let prompt := default EmptyString systemPrompt in
  let tools := default [] tools in
  if bool_decide (prompt = EmptyString) && bool_decide (tools = []) then None
  else Some {| sm_content := prompt; sm_sections := []; sm_toolsAdded := tools; sm_toolsRemoved := []; sm_timestamp := 0 |}.

Definition normalizeContext (systemPrompt : option string) (tools : option (list Tool)) messages : list M :=
  match createInitialSystemMessage systemPrompt tools with Some m => of_system m :: messages | None => messages end.

Definition getCurrentTools messages : list Tool := (replay_tools (system_messages messages)).*2.

(** One system message of [getCurrentSystemMessage]. *)
Definition patch_sections (sections : list (string * string)) (m : SystemMessage) : list (string * string) :=
  foldl (fun sections kv => match kv.2 with None => obj_delete kv.1 sections | Some v => map_set kv.1 v sections end)
    sections (sm_sections m).

(** [parts.join("\n\n")] of the parts that have text. *)
Definition newlines : string := String (Ascii.ascii_of_nat 10) (String (Ascii.ascii_of_nat 10) EmptyString).

Definition join_texts (parts : list string) : string :=
  String.concat newlines (filter (fun part => part <> EmptyString) parts).

Definition getCurrentSystemMessage messages : option SystemMessage :=
  let ms := system_messages messages in
  let tools := getCurrentTools messages in
  match ms, tools with
  | [], [] => None
  | _, _ =>
      Some {| sm_content := join_texts (sm_content <$> ms);
              sm_sections := (fun kv => (kv.1, Some kv.2)) <$> foldl patch_sections [] ms;
              sm_toolsAdded := tools; sm_toolsRemoved := [];
              sm_timestamp := default 0%N (sm_timestamp <$> head ms) |}
  end.

Definition getSystemMessageText (m : SystemMessage) : string :=
  join_texts (sm_content m :: omap snd (sm_sections m)).

Definition getCurrentSystemPrompt messages : string :=
  match getCurrentSystemMessage messages with Some m => getSystemMessageText m | None => EmptyString end.

Definition collapseSystemMessages messages : list M :=
  let rest := filter (fun m => system m = None) messages in
  match getCurrentSystemMessage messages with Some head => of_system head :: rest | None => rest end.

Definition resolveTranscript messages (supportsMidConvoSystemMessages : bool) : list M :=
  if supportsMidConvoSystemMessages then messages else collapseSystemMessages messages.

(** [new Map(tools.map((tool) => [tool.name, tool])).get(name)]: the last of that name. *)
Definition tool_named (name : string) (tools : list Tool) : option Tool :=
  last (filter (fun tool => tl_name tool = name) tools).

Definition same_declaration (previous : option Tool) (tool : Tool) : bool :=
  match previous with None => false | Some p => declarationsEqual p tool end.

Definition getToolStateChanges (previous current : list Tool) : ToolStateChanges :=
  {| ch_toolsAdded := filter (fun tool => same_declaration (tool_named (tl_name tool) previous) tool = false) current;
     ch_toolsRemoved := tl_name <$> filter (fun tool => same_declaration (tool_named (tl_name tool) current) tool = false) previous |}.

(** ** What a transport can express *)

(** [findLastNonAdditiveToolChange]: the index after it, 0 for none. *)
Fixpoint last_change_loop (ms : list SystemMessage) (index last : nat) (declared : list string) : nat :=
  match ms with
  | [] => last
  | m :: ms =>
      let last := match sm_toolsRemoved m with [] => last | _ => S index end in
      let '(last, declared) :=
        foldl (fun acc tool => (if bool_decide (tl_name tool ∈ acc.2) then S index else acc.1, tl_name tool :: acc.2))
          (last, declared) (sm_toolsAdded m) in
      last_change_loop ms (S index) last declared
  end.

Definition findLastNonAdditiveToolChange (ms : list SystemMessage) : nat := last_change_loop ms 0 0 [].

Definition hasNonAdditiveToolChanges messages : bool := (0 <? findLastNonAdditiveToolChange (system_messages messages))%nat.

Definition resolveTranscriptTools messages (support : TranscriptToolSupport) : TranscriptTools :=
  let ms := system_messages messages in
  match support with
  | support_none => {| tt_requestTools := (replay_tools ms).*2; tt_foldedSystemMessages := length ms |}
  | support_changes => {| tt_requestTools := []; tt_foldedSystemMessages := 0 |}
  | support_additions =>
      let folded := max (match getInitialSystemMessage messages with Some _ => 1 | None => 0 end) (findLastNonAdditiveToolChange ms) in
      {| tt_requestTools := (replay_tools (take folded ms)).*2; tt_foldedSystemMessages := folded |}
  end.

Definition getDeclaredTools messages : list Tool :=
  (foldl (fun tools m => foldl (fun tools tool => map_set (tl_name tool) tool tools) tools (sm_toolsAdded m))
    [] (system_messages messages)).*2.
End Transcript.

(** ** Facts *)

Section MapFacts.
Context {A : Type}.
Implicit Types m : list (string * A).

Lemma map_set_new k (v : A) m : k ∉ obj_keys m -> map_set k v m = m ++ [(k, v)].
Proof. intros Hk%obj_get_None. unfold map_set. by rewrite Hk. Qed.

Lemma map_get_set k (v : A) k' m : obj_get k' (map_set k v m) = if decide (k' = k) then Some v else obj_get k' m.
Proof.
  unfold map_set. destruct (obj_get k m) as [x|] eqn:Hk.
  - rewrite obj_get_update by done. destruct (String.eqb_spec k' k); by case_decide.
  - rewrite obj_get_app. cbn. destruct (String.eqb_spec k' k) as [->|Hne].
    + by rewrite Hk, decide_True.
    + rewrite decide_False by done. by destruct (obj_get k' m).
Qed.

Lemma map_set_keys k (v : A) m : obj_keys (map_set k v m) = if decide (k ∈ obj_keys m) then obj_keys m else obj_keys m ++ [k].
Proof.
  unfold map_set. case_decide as Hk.
  - apply obj_get_is_Some in Hk as [x ->]. apply obj_update_keys.
  - apply obj_get_None in Hk as ->. unfold obj_keys. by rewrite fmap_app.
Qed.

Lemma map_set_NoDup k (v : A) m : NoDup (obj_keys m) -> NoDup (obj_keys (map_set k v m)).
Proof.
  intros Hd. rewrite map_set_keys. case_decide; [done|]. apply NoDup_app. split_and!; [done|set_solver|apply NoDup_singleton].
Qed.

Lemma map_set_elem k (v : A) m kv : kv ∈ map_set k v m -> kv = (k, v) \/ kv ∈ m.
Proof.
  unfold map_set. destruct (obj_get k m) as [x|].
  - induction m as [|[k' v'] m IH]; cbn; [set_solver|]. destruct (String.eqb_spec k k') as [->|Hne]; [set_solver|].
    intros [->|H]%elem_of_cons; [set_solver|]. destruct (IH H); set_solver.
  - set_solver.
Qed.

(** New keys go to the end. *)
Lemma map_set_all {B} (key : B -> string) (val : B -> A) (xs : list B) : forall m,
  NoDup (key <$> xs) -> (forall x, x ∈ xs -> key x ∉ obj_keys m) ->
  foldl (fun m x => map_set (key x) (val x) m) m xs = m ++ ((fun x => (key x, val x)) <$> xs).
Proof.
  induction xs as [|x xs IH]; intros m Hd Hn; cbn; [by rewrite app_nil_r|].
  apply NoDup_cons in Hd as [Hx Hd]. rewrite map_set_new by (apply Hn; left). rewrite IH; [by rewrite <- app_assoc|done|].
  intros y Hy. unfold obj_keys. rewrite fmap_app, elem_of_app. cbn. intros [H|H%list_elem_of_singleton].
  - by apply (Hn y); [right|].
  - apply Hx. rewrite <- H. apply list_elem_of_fmap. by exists y.
Qed.
End MapFacts.

(** The tools of a replay: one of each name, under its name. *)
Record tools_ok (tools : list (string * Tool)) : Prop := {
  to_unique : NoDup (obj_keys tools);
  to_named : forall k tool, (k, tool) ∈ tools -> k = tl_name tool;
}.

Lemma tools_ok_nil : tools_ok [].
Proof. split; [apply NoDup_nil_2|by intros k tool H%elem_of_nil]. Qed.

Lemma delete_tools_ok names : forall tools, tools_ok tools -> tools_ok (foldl (fun tools name => obj_delete name tools) tools names).
Proof.
  induction names as [|name names IH]; intros tools [Hd Hn]; cbn; [done|]. apply IH. split.
  - by apply obj_delete_NoDup.
  - intros k tool H%obj_delete_elem. by apply Hn.
Qed.

Lemma set_tools_ok (added : list Tool) : forall tools, tools_ok tools ->
  tools_ok (foldl (fun tools tool => map_set (tl_name tool) tool tools) tools added).
Proof.
  induction added as [|tool added IH]; intros tools [Hd Hn]; cbn; [done|]. apply IH. split.
  - by apply map_set_NoDup.
  - intros k t [[= -> ->]|H]%map_set_elem; [done|by apply Hn].
Qed.

Lemma patch_tools_ok tools m : tools_ok tools -> tools_ok (patch_tools tools m).
Proof. intros H. by apply set_tools_ok, delete_tools_ok. Qed.

Lemma replay_from_ok ms : forall tools, tools_ok tools -> tools_ok (foldl patch_tools tools ms).
Proof. induction ms as [|m ms IH]; intros tools H; cbn; [done|]. by apply IH, patch_tools_ok. Qed.

Lemma replay_tools_ok ms : tools_ok (replay_tools ms).
Proof. apply replay_from_ok, tools_ok_nil. Qed.

Lemma replay_tools_snoc ms m : replay_tools (ms ++ [m]) = patch_tools (replay_tools ms) m.
Proof. unfold replay_tools. by rewrite foldl_app. Qed.

Lemma tools_ok_pairs tools : tools_ok tools -> (fun tool => (tl_name tool, tool)) <$> tools.*2 = tools.
Proof.
  intros [_ Hn]. rewrite <- list_fmap_compose. rewrite <- (list_fmap_id tools) at 2. apply list_fmap_ext.
  intros i [k tool] H. cbn. rewrite (Hn k tool); [done|]. by eapply list_elem_of_lookup_2.
Qed.

Lemma tool_named_cons name tool tools :
  tool_named name (tool :: tools) =
  match tool_named name tools with Some t => Some t | None => if decide (tl_name tool = name) then Some tool else None end.
Proof.
  unfold tool_named. rewrite filter_cons. case_decide as Hn; [|by destruct (last _)].
  destruct (filter _ tools) as [|t ts] eqn:E; [done|]. change (last (tool :: t :: ts)) with (last (t :: ts)).
  by destruct (last_is_Some (t :: ts)) as [_ [x ->]].
Qed.

(** What a replay has of a name after a message. *)
Lemma patch_tools_get tools m name : tools_ok tools ->
  obj_get name (patch_tools tools m) =
  match tool_named name (sm_toolsAdded m) with
  | Some tool => Some tool
  | None => if decide (name ∈ sm_toolsRemoved m) then None else obj_get name tools
  end.
Proof.
  intros Hok. unfold patch_tools. set (tools1 := foldl _ tools (sm_toolsRemoved m)).
  assert (H1 : obj_get name tools1 = if decide (name ∈ sm_toolsRemoved m) then None else obj_get name tools).
  { subst tools1. revert tools Hok. induction (sm_toolsRemoved m) as [|n ns IH]; intros tools Hok; [done|]. cbn [foldl].
    rewrite IH by (destruct Hok as [Hd Hn]; split; [by apply obj_delete_NoDup|intros k t H%obj_delete_elem; by apply Hn]).
    rewrite obj_get_delete by apply Hok. destruct (String.eqb_spec name n) as [->|Hne].
    - rewrite (decide_True (P := n ∈ n :: ns)) by left. by case_decide.
    - destruct (decide (name ∈ ns)) as [Hin|Hin]; [by rewrite decide_True by by right|]. by rewrite decide_False by set_solver. }
  rewrite <- H1. generalize tools1. clear. induction (sm_toolsAdded m) as [|tool added IH]; intros tools; [done|]. cbn [foldl].
  rewrite IH, tool_named_cons. destruct (tool_named name added) as [t|]; [done|]. rewrite map_get_set.
  destruct (decide (tl_name tool = name)) as [<-|Hne]; [by rewrite decide_True|]. by rewrite decide_False by congruence.
Qed.

(** ** Changes of the tool state *)

Lemma tool_named_Some name tools t : tool_named name tools = Some t -> t ∈ tools /\ tl_name t = name.
Proof. unfold tool_named. intros H%last_Some_elem_of. apply list_elem_of_filter in H as [? ?]. done. Qed.

Lemma tool_named_None name tools : tool_named name tools = None <-> name ∉ tl_name <$> tools.
Proof.
  unfold tool_named. rewrite last_None. split.
  - intros H (t & -> & Ht)%list_elem_of_fmap. by apply (filter_nil_not_elem_of _ _ t H).
  - intros H. induction tools as [|t tools IH]; [done|]. rewrite filter_cons, decide_False; [apply IH|]; set_solver.
Qed.

Lemma tool_named_unique tools t : NoDup (tl_name <$> tools) -> t ∈ tools -> tool_named (tl_name t) tools = Some t.
Proof.
  intros Hd Ht. destruct (tool_named (tl_name t) tools) as [t'|] eqn:E.
  - apply tool_named_Some in E as [Ht' Hn]. f_equal. apply list_elem_of_lookup in Ht as [i Hi], Ht' as [j Hj].
    assert (i = j) as ->; [|congruence]. eapply NoDup_lookup; [exact Hd|..]; rewrite list_lookup_fmap, ?Hi, ?Hj; cbn; [done|by rewrite Hn].
  - apply tool_named_None in E. destruct E. apply list_elem_of_fmap. by exists t.
Qed.

Lemma tools_ok_get tools name : tools_ok tools -> obj_get name tools = tool_named name tools.*2.
Proof.
  intros [Hd Hn]. destruct (obj_get name tools) as [t|] eqn:E.
  - apply obj_get_elem in E. pose proof (Hn _ _ E) as ->. symmetry. apply tool_named_unique.
    + rewrite <- list_fmap_compose. erewrite list_fmap_ext; [exact Hd|]. intros i [k x] Hx. cbn. symmetry. eapply Hn. by eapply list_elem_of_lookup_2.
    + apply list_elem_of_fmap. by exists (tl_name t, t).
  - symmetry. apply tool_named_None. intros (t & -> & ([k x] & -> & Hin)%list_elem_of_fmap)%list_elem_of_fmap. cbn in E.
    apply obj_get_None in E. apply E. pose proof (Hn _ _ Hin) as <-. apply list_elem_of_fmap. by exists (k, x).
Qed.

(** Applying the changes leads to the current tools. *)
Lemma changes_apply tools current content sections timestamp name :
  tools_ok tools -> NoDup (tl_name <$> current) ->
  let ch := getToolStateChanges tools.*2 current in
  obj_get name (patch_tools tools {| sm_content := content; sm_sections := sections; sm_toolsAdded := ch_toolsAdded ch;
    sm_toolsRemoved := ch_toolsRemoved ch; sm_timestamp := timestamp |}) = tool_named name current.
Proof.
  intros Hok Hd ch. rewrite patch_tools_get by done. cbn [sm_toolsAdded sm_toolsRemoved].
  assert (Hadd : tool_named name (ch_toolsAdded ch) =
    t ← tool_named name current; if same_declaration (obj_get name tools) t then None else Some t).
  { destruct (tool_named name (ch_toolsAdded ch)) as [t|] eqn:E.
    - apply tool_named_Some in E as [Ht Hn]. apply list_elem_of_filter in Ht as [Hs Ht]. rewrite <- Hn.
      rewrite (tool_named_unique _ _ Hd Ht). cbn. rewrite (tools_ok_get _ _ Hok). by rewrite Hs.
    - destruct (tool_named name current) as [t|] eqn:E'; [|done]. cbn. destruct (same_declaration (obj_get name tools) t) eqn:Hs; [done|].
      apply tool_named_Some in E' as [Ht Hn]. apply tool_named_None in E. destruct E. rewrite <- Hn. apply list_elem_of_fmap. exists t.
      split; [done|]. apply list_elem_of_filter. split; [|done]. by rewrite <- (tools_ok_get _ _ Hok), Hn. }
  rewrite Hadd. clear Hadd.
  assert (Hrem : name ∈ ch_toolsRemoved ch <-> exists t, obj_get name tools = Some t /\ same_declaration (tool_named name current) t = false).
  { cbn. rewrite list_elem_of_fmap. split.
    - intros (t & -> & [Hs Ht]%list_elem_of_filter). exists t. split; [|done]. rewrite (tools_ok_get _ _ Hok). apply tool_named_unique; [|done].
      destruct Hok as [Hdk Hn]. rewrite <- list_fmap_compose. erewrite list_fmap_ext; [exact Hdk|]. intros i [k x] Hx. cbn. symmetry. eapply Hn.
      by eapply list_elem_of_lookup_2.
    - intros (t & Ht & Hs). rewrite (tools_ok_get _ _ Hok) in Ht. apply tool_named_Some in Ht as [Ht <-]. exists t. split; [done|].
      by apply list_elem_of_filter. }
  destruct (tool_named name current) as [t|] eqn:Ec; cbn.
  - destruct (obj_get name tools) as [p|] eqn:Ep; cbn; [|done]. unfold declarationsEqual. case_bool_decide as He; [|done]. subst p.
    rewrite decide_False; [done|]. intros (p & Hp & Hs)%Hrem. injection Hp as <-. cbn in Hs. unfold declarationsEqual in Hs.
    by case_bool_decide.
  - case_decide as Hin; [done|]. destruct (obj_get name tools) as [p|] eqn:Ep; [|done]. destruct Hin. apply Hrem. by exists p.
Qed.

(** No changes: the tools are the current ones already. *)
Lemma no_changes tools current name : tools_ok tools -> NoDup (tl_name <$> current) ->
  ch_toolsAdded (getToolStateChanges tools.*2 current) = [] -> ch_toolsRemoved (getToolStateChanges tools.*2 current) = [] ->
  obj_get name tools = tool_named name current.
Proof.
  intros Hok Hd Ha Hr. pose proof (changes_apply tools current EmptyString [] 0%N name Hok Hd) as H. cbn zeta in H.
  by rewrite Ha, Hr in H.
Qed.

(** ** Additions in place *)

Definition added_names (ms : list SystemMessage) : list string := concat ((fun m => tl_name <$> sm_toolsAdded m) <$> ms).

(** A message that removes nothing and declares names for the first time. *)
Definition additive (declared : list string) (m : SystemMessage) : Prop :=
  sm_toolsRemoved m = [] /\ NoDup (tl_name <$> sm_toolsAdded m) /\ forall name, name ∈ tl_name <$> sm_toolsAdded m -> name ∉ declared.

Lemma redeclared_loop index added : forall last declared last' declared',
  foldl (fun acc tool => (if bool_decide (tl_name tool ∈ acc.2) then S index else acc.1, tl_name tool :: acc.2)) (last, declared) added
    = (last', declared') ->
  last <= S index -> last <= last' <= S index /\ (forall name, name ∈ declared' <-> name ∈ declared \/ name ∈ tl_name <$> added) /\
  (last' <= index -> last <= index /\ NoDup (tl_name <$> added) /\ forall name, name ∈ tl_name <$> added -> name ∉ declared).
Proof.
  induction added as [|tool added IH]; intros last declared last' declared' H Hle; cbn [foldl] in H.
  { injection H as <- <-. split_and!; [lia..| |]; [set_solver|]. intros Hl. split_and!; [done|apply NoDup_nil_2|set_solver]. }
  cbn [fst snd] in H. apply IH in H as (H1 & H2 & H3); [|case_bool_decide; lia]. case_bool_decide as Hin; cbn [fmap list_fmap].
  - split_and!; [lia..| |lia]. intros name. rewrite H2. set_solver.
  - split_and!; [lia..| |]; [intros name; rewrite H2; set_solver|]. intros Hl. destruct (H3 Hl) as (H4 & H5 & H6).
    split_and!; [done| |].
    + apply NoDup_cons. split; [|done]. intros Hn. apply (H6 _ Hn). left.
    + intros name [->|Hn]%elem_of_cons; [done|]. specialize (H6 _ Hn). set_solver.
Qed.

Lemma last_change_additive ms : forall index last declared, last <= index ->
  last <= last_change_loop ms index last declared /\
  forall pre m post, ms = pre ++ m :: post -> last_change_loop ms index last declared <= index + length pre ->
    additive (declared ++ added_names pre) m.
Proof.
  induction ms as [|m ms IH]; intros index last declared Hle; cbn [last_change_loop].
  { split; [done|]. intros pre m post H. by destruct pre. }
  set (last1 := match sm_toolsRemoved m with [] => last | _ => S index end).
  destruct (foldl _ (last1, declared) (sm_toolsAdded m)) as [last' declared'] eqn:E.
  apply redeclared_loop in E as (H1 & H2 & H3); [|unfold last1; destruct (sm_toolsRemoved m); lia].
  destruct (IH (S index) last' declared') as [IH1 IH2]; [lia|].
  assert (Hl1 : last <= last1) by (unfold last1; destruct (sm_toolsRemoved m); lia). split; [lia|].
  intros [|m' pre] m0 post Hms Hr; cbn [app length] in *; injection Hms as -> ->.
  - destruct H3 as (H3 & H4 & H5); [lia|]. unfold added_names. cbn. rewrite app_nil_r. split; [|done].
    unfold last1 in H3. destruct (sm_toolsRemoved m0); [done|lia].
  - destruct (IH2 pre m0 post eq_refl) as (H4 & H5 & H6); [lia|]. split_and!; [done..|]. intros name Hn.
    specialize (H6 name Hn). unfold added_names in *. cbn. rewrite !elem_of_app in *. rewrite H2 in H6. tauto.
Qed.

Lemma findLast_additive ms pre m post : ms = pre ++ m :: post -> findLastNonAdditiveToolChange ms <= length pre ->
  additive (added_names pre) m.
Proof. intros Hms Hr. destruct (last_change_additive ms 0 0 [] (le_n 0)) as [_ H]. exact (H pre m post Hms Hr). Qed.

Lemma replay_names ms : forall name, name ∈ obj_keys (replay_tools ms) -> name ∈ added_names ms.
Proof.
  induction ms as [|m ms IH] using rev_ind; intros name; [done|]. rewrite replay_tools_snoc. unfold added_names.
  rewrite fmap_app, concat_app. cbn. rewrite app_nil_r, elem_of_app. intros H%obj_get_is_Some.
  rewrite patch_tools_get in H by apply replay_tools_ok. destruct (tool_named name (sm_toolsAdded m)) as [t|] eqn:E.
  - right. apply tool_named_Some in E as [Ht <-]. apply list_elem_of_fmap. by exists t.
  - left. case_decide; [by destruct H|]. apply IH. by apply obj_get_is_Some.
Qed.

(** Messages that only add are replayed by adding their tools. *)
Lemma replay_additions ms post : (forall pre m rest, post = pre ++ m :: rest -> additive (added_names (ms ++ pre)) m) ->
  (replay_tools (ms ++ post)).*2 = (replay_tools ms).*2 ++ concat (sm_toolsAdded <$> post).
Proof.
  induction post as [|m post IH] using rev_ind; intros Hadd; [by rewrite !app_nil_r|].
  destruct (Hadd post m [] eq_refl) as (Hr & Hd & Hn). rewrite app_assoc, replay_tools_snoc. unfold patch_tools. rewrite Hr. cbn [foldl].
  rewrite (map_set_all tl_name (fun tool => tool)); [|done|].
  - rewrite fmap_app, IH, fmap_app, concat_app. 2: { intros pre m' rest ->. apply (Hadd pre m' (rest ++ [m])). by rewrite <- app_assoc. }
    rewrite <- app_assoc, <- list_fmap_compose. cbn. rewrite app_nil_r. by rewrite list_fmap_id.
  - intros t Ht Hk%replay_names. apply (Hn (tl_name t)); [|done]. apply list_elem_of_fmap. by exists t.
Qed.

(** ** Collapsing *)

Section Collapse.
Context {M : Type} (system : M -> option SystemMessage) (of_system : SystemMessage -> M).
Context (Hsystem : forall m, system (of_system m) = Some m).
Implicit Types messages : list M.

Lemma system_messages_rest messages : system_messages system (filter (fun m => system m = None) messages) = [].
Proof.
  unfold system_messages. induction messages as [|m messages IH]; [done|]. rewrite filter_cons. case_decide as Hm; [|done].
  cbn. by rewrite Hm.
Qed.

Lemma system_messages_collapse messages : system_messages system (collapseSystemMessages system of_system messages) =
  match getCurrentSystemMessage system messages with Some m => [m] | None => [] end.
Proof.
  unfold collapseSystemMessages. destruct (getCurrentSystemMessage system messages) as [m|]; [|apply system_messages_rest].
  change (system_messages system (of_system m :: ?l)) with (match system (of_system m) with Some y => y :: system_messages system l | None => system_messages system l end).
  by rewrite Hsystem, system_messages_rest.
Qed.

Lemma replay_declared tools : tools_ok tools ->
  foldl (fun tools tool => map_set (tl_name tool) tool tools) [] tools.*2 = tools.
Proof.
  intros Hok. rewrite (map_set_all tl_name (fun tool => tool)); [by apply tools_ok_pairs| |].
  - destruct Hok as [Hd Hn]. rewrite <- list_fmap_compose. erewrite list_fmap_ext; [exact Hd|].
    intros i [k t] H. cbn. symmetry. eapply Hn. by eapply list_elem_of_lookup_2.
  - intros t _ H. by apply elem_of_nil in H.
Qed.

(** The message that stands for all. *)
Definition replayed messages : SystemMessage :=
  {| sm_content := join_texts (sm_content <$> system_messages system messages);
     sm_sections := (fun kv => (kv.1, Some kv.2)) <$> foldl patch_sections [] (system_messages system messages);
     sm_toolsAdded := getCurrentTools system messages; sm_toolsRemoved := [];
     sm_timestamp := default 0%N (sm_timestamp <$> head (system_messages system messages)) |}.

Lemma current_message messages : getCurrentSystemMessage system messages =
  match system_messages system messages with [] => None | _ => Some (replayed messages) end.
Proof.
  unfold getCurrentSystemMessage, replayed. destruct (system_messages system messages) as [|m ms] eqn:E; [|done].
  unfold getCurrentTools. by rewrite E.
Qed.

Lemma collapse_tools messages : getCurrentTools system (collapseSystemMessages system of_system messages) = getCurrentTools system messages.
Proof.
  unfold getCurrentTools at 1. rewrite system_messages_collapse, current_message.
  destruct (system_messages system messages) as [|m ms] eqn:E; [unfold getCurrentTools; by rewrite E|].
  unfold replay_tools. cbn [foldl]. unfold patch_tools. cbn [sm_toolsRemoved sm_toolsAdded replayed foldl].
  unfold getCurrentTools. by rewrite replay_declared by apply replay_tools_ok.
Qed.

(** The sections of a replay, patched into none. *)
Lemma patch_sections_unique ms : forall sections, NoDup (obj_keys sections) -> NoDup (obj_keys (foldl patch_sections sections ms)).
Proof.
  induction ms as [|m ms IH]; intros sections Hd; [done|]. cbn [foldl]. apply IH. unfold patch_sections. revert sections Hd.
  induction (sm_sections m) as [|[k [v|]] kvs IHk]; intros sections Hd; cbn; [done|..]; apply IHk; cbn; [by apply map_set_NoDup|by apply obj_delete_NoDup].
Qed.

Lemma sections_again (sections : list (string * string)) : NoDup (obj_keys sections) ->
  foldl (fun sections kv => match kv.2 with None => obj_delete kv.1 sections | Some v => map_set kv.1 v sections end) []
    ((fun kv => (kv.1, Some kv.2)) <$> sections) = sections.
Proof.
  intros Hd. transitivity (foldl (fun m (kv : string * string) => map_set kv.1 kv.2 m) [] sections).
  - generalize (@nil (string * string)). clear Hd. induction sections as [|kv sections IH]; intros m; cbn; [done|]. apply IH.
  - rewrite (map_set_all fst snd); [|done|intros x _ H; by apply elem_of_nil in H]. cbn. rewrite <- (list_fmap_id sections) at 2.
    apply list_fmap_ext. by intros i [].
Qed.

Lemma join_one part : join_texts [part] = part.
Proof. unfold join_texts. rewrite filter_cons. case_decide as H; [done|]. by destruct part. Qed.

(** Collapsing keeps the message that the transcript is replayed to. *)
Lemma collapse_current messages :
  getCurrentSystemMessage system (collapseSystemMessages system of_system messages) = getCurrentSystemMessage system messages.
Proof.
  rewrite !current_message. unfold replayed at 1. rewrite system_messages_collapse, collapse_tools, current_message.
  destruct (system_messages system messages) as [|m ms] eqn:E; [done|]. f_equal. cbn [fmap list_fmap head default foldl].
  rewrite join_one. unfold patch_sections at 1. cbn [sm_sections replayed]. rewrite sections_again; [done|].
  apply patch_sections_unique, NoDup_nil_2.
Qed.

Lemma collapse_rest messages :
  filter (fun m => system m = None) (collapseSystemMessages system of_system messages) = filter (fun m => system m = None) messages.
Proof.
  assert (H : forall l : list M, filter (fun m => system m = None) (filter (fun m => system m = None) l) = filter (fun m => system m = None) l).
  { intros l. rewrite list_filter_filter. apply list_filter_iff. tauto. }
  unfold collapseSystemMessages. destruct (getCurrentSystemMessage system messages); [|apply H].
  rewrite filter_cons, decide_False by (by rewrite Hsystem). apply H.
Qed.

(** What follows the first message of a collapsed transcript. *)
Lemma without_collapsed messages :
  withoutInitialSystemMessage system (collapseSystemMessages system of_system messages) = filter (fun m => system m = None) messages.
Proof.
  unfold collapseSystemMessages, withoutInitialSystemMessage, getInitialSystemMessage.
  destruct (getCurrentSystemMessage system messages) as [m|]; [by rewrite Hsystem|].
  destruct (filter _ messages) as [|m rest] eqn:E; [done|].
  assert (Hm : m ∈ filter (fun m => system m = None) messages) by (rewrite E; left).
  apply list_elem_of_filter in Hm as [-> _]. done.
Qed.
End Collapse.

Lemma current_names_unique {M} (system : M -> option SystemMessage) messages : NoDup (tl_name <$> getCurrentTools system messages).
Proof.
  unfold getCurrentTools. destruct (replay_tools_ok (system_messages system messages)) as [Hd Hn].
  rewrite <- list_fmap_compose. erewrite list_fmap_ext; [exact Hd|]. intros i [k t] H. cbn. symmetry. eapply Hn. by eapply list_elem_of_lookup_2.
Qed.
