(* ===== verification/AgentLoop.v ===== *)
(** The agent loop (agent/src/agent-loop.ts): turns of a run, each one request of the model
    and the tool calls it makes. The host and the tools are the functions of [Hooks] over a
    world of their own; every event that the loop emits is logged. *)
From S2P Require Import Prelude JsString Json AgentTranscript.

(** ** Data *)

Inductive StopReason : Type := stop_pending | stop_stop | stop_length | stop_toolUse | stop_error | stop_aborted | stop_deferred.

Record ToolCall : Type := { tc_id : string; tc_name : string; tc_arguments : json }.

(** Text and thinking are other content. *)
Inductive Content : Type := CCall (call : ToolCall) | COther (block : json).

Record AssistantMessage : Type := {
  am_content : list Content;
  am_stopReason : StopReason;
  am_thinkingLevel : option string;
  am_rest : json;
}.

Record ToolResultMessage : Type := {
  tr_toolCallId : string;
  tr_toolName : string;
  tr_content : list json;
  tr_details : option json;
  tr_usage : option json;
  tr_isError : bool;
  tr_durationMs : option N;
  tr_timestamp : N;
}.

(** Messages of other roles, user messages among them, are kept as they are. *)
Inductive AgentMessage : Type :=
| MSystem (m : SystemMessage)
| MAssistant (m : AssistantMessage)
| MToolResult (m : ToolResultMessage)
| MOther (m : json).

Inductive ToolExecutionMode : Type := sequential | parallel.

(** A tool; its functions are hooks. *)
Record AgentTool : Type := { at_tool : Tool; at_executionMode : option ToolExecutionMode }.

Definition at_name (t : AgentTool) : string := tl_name (at_tool t).
Definition toToolDeclaration (t : AgentTool) : Tool := at_tool t.

Record AgentContext : Type := { cx_messages : list AgentMessage; cx_tools : list AgentTool }.

Record AgentToolResult : Type := {
  rs_content : option (list json);
  rs_details : option json;
  rs_structuredContent : option json;
  rs_usage : option json;
  rs_isError : bool;
  rs_terminate : option bool;
}.

Record AgentToolCallOutcome : Type := {
  oc_toolCall : ToolCall;
  oc_result : AgentToolResult;
  oc_isError : bool;
  oc_durationMs : option N;
}.

Record BeforeToolCallResult : Type := { bf_block : bool; bf_reason : option string; bf_terminate : bool }.

Record AfterToolCallResult : Type := {
  af_content : option (list json);
  af_details : option json;
  af_structuredContent : option json;
  af_isError : option bool;
  af_usage : option json;
  af_terminate : option bool;
}.

Record AgentTurnContext : Type := {
  tu_message : AssistantMessage;
  tu_toolResults : list ToolResultMessage;
  tu_context : AgentContext;
  tu_newMessages : list AgentMessage;
}.

Inductive AgentTurnDecision : Type := Continue | End.

(** [AgentLoopTurnUpdate]; an [AgentRequestUpdate] has no messages. *)
Record AgentLoopTurnUpdate : Type := {
  up_context : option AgentContext;
  up_messages : list AgentMessage;
  up_model : option json;
  up_thinkingLevel : option string;
}.

(** The events of a response that the loop looks at. *)
Inductive AssistantMessageEvent : Type :=
| stream_start (partial : AssistantMessage)
| stream_update (partial : AssistantMessage)
| stream_done.

Inductive AgentEvent : Type :=
| agent_start
| agent_end (messages : list AgentMessage)
| turn_start
| turn_end (message : AssistantMessage) (toolResults : list ToolResultMessage)
| message_start (message : AgentMessage)
| message_update (message : AgentMessage)
| message_end (message : AgentMessage)
| tool_execution_start (call : ToolCall)
| tool_execution_update (call : ToolCall) (partialResult : AgentToolResult)
| tool_execution_end (call : ToolCall) (result : AgentToolResult) (isError : bool) (durationMs : option N).

Definition tool_calls (m : AssistantMessage) : list ToolCall :=
  omap (fun c => match c with CCall call => Some call | COther _ => None end) (am_content m).

Definition system_message (m : AgentMessage) : option SystemMessage := match m with MSystem m => Some m | _ => None end.

Definition text_block (message : string) : json := JObj None [("type", JStr "text"); ("text", JStr message)].

Definition createErrorToolResult (message : string) : AgentToolResult :=
  {| rs_content := Some [text_block message]; rs_details := Some (JObj None []); rs_structuredContent := None; rs_usage := None;
     rs_isError := false; rs_terminate := None |}.

Definition with_terminate (r : AgentToolResult) : AgentToolResult :=
  {| rs_content := rs_content r; rs_details := rs_details r; rs_structuredContent := rs_structuredContent r; rs_usage := rs_usage r;
     rs_isError := rs_isError r; rs_terminate := Some true |}.

Definition or_else {A} (a b : option A) : option A := match a with Some _ => a | None => b end.

(** The overrides of [afterToolCall]. *)
Definition override (a : AfterToolCallResult) (r : AgentToolResult) : AgentToolResult :=
  {| rs_content := or_else (af_content a) (rs_content r);
     rs_details := or_else (af_details a) (rs_details r);
     rs_structuredContent := or_else (af_structuredContent a) (match af_content a with Some _ => None | None => rs_structuredContent r end);
     rs_usage := or_else (af_usage a) (rs_usage r);
     rs_isError := rs_isError r;
     rs_terminate := or_else (af_terminate a) (rs_terminate r) |}.

Definition shouldTerminateToolBatch (finalizedCalls : list AgentToolCallOutcome) : bool :=
  (0 <? length finalizedCalls)%nat && forallb (fun o => bool_decide (rs_terminate (oc_result o) = Some true)) finalizedCalls.

(** ** Tool declarations *)

Definition withToolChanges (m : SystemMessage) (ch : ToolStateChanges) : SystemMessage :=
  {| sm_content := sm_content m; sm_sections := sm_sections m; sm_toolsAdded := ch_toolsAdded ch;
     sm_toolsRemoved := ch_toolsRemoved ch; sm_timestamp := sm_timestamp m |}.

Definition NO_CHANGES : ToolStateChanges := {| ch_toolsAdded := []; ch_toolsRemoved := [] |}.

Definition no_change (ch : ToolStateChanges) : bool := bool_decide (ch_toolsAdded ch = []) && bool_decide (ch_toolsRemoved ch = []).

(** The last system message and its index. *)
Fixpoint last_system (pendingMessages : list AgentMessage) : option (nat * SystemMessage) :=
  match pendingMessages with
  | [] => None
  | m :: rest =>
      match last_system rest with
      | Some (i, s) => Some (S i, s)
      | None => match m with MSystem s => Some (0, s) | _ => None end
      end
  end.

Definition declareToolChanges (context : AgentContext) (pendingMessages : list AgentMessage) (now : N) : list AgentMessage :=
  let changes_of baseline :=
    getToolStateChanges (getCurrentTools system_message (cx_messages context ++ baseline)) (toToolDeclaration <$> cx_tools context) in
  match last_system pendingMessages with
  | Some (i, pending) =>
      let baseline := <[i := MSystem (withToolChanges pending NO_CHANGES)]> pendingMessages in
      let changes := changes_of baseline in
      if no_change changes && no_change {| ch_toolsAdded := sm_toolsAdded pending; ch_toolsRemoved := sm_toolsRemoved pending |}
      then pendingMessages
      else <[i := MSystem (withToolChanges pending changes)]> baseline
  | None =>
      let changes := changes_of pendingMessages in
      if no_change changes then pendingMessages
      else
        let update := MSystem (withToolChanges {| sm_content := EmptyString; sm_sections := []; sm_toolsAdded := [];
          sm_toolsRemoved := []; sm_timestamp := now |} changes) in
        let index := match list_find (fun m => system_message m = None) pendingMessages with
                     | Some (i, _) => i | None => length pendingMessages end in
        take index pendingMessages ++ update :: drop index pendingMessages
  end.

(** ** The host *)

Section Loop.
(** The world of the host, the model and the tools: the abort signal, the clock, the queues. *)
Context {W : Type}.

(** [W -> A * W]: what a call answers, and the world after it. Calls that the loop guards
    may throw a message. *)
Record Hooks : Type := {
  h_aborted : W -> bool;
  h_now : W -> N * W;
  h_emit : AgentEvent -> W -> W;
  h_getSteeringMessages : W -> list AgentMessage * W;
  h_getFollowUpMessages : W -> list AgentMessage * W;
  h_prepareNextTurn : AgentTurnContext -> W -> option AgentLoopTurnUpdate * W;
  h_prepareRequest : AgentContext -> json -> string -> W -> option AgentLoopTurnUpdate * W;
  h_finishTurn : AgentTurnContext -> W -> option AgentTurnDecision * W;
  (** [transformContext], [convertToLlm] and the stream function: the events of the response. *)
  h_request : json -> option string -> list AgentMessage -> W -> list AssistantMessageEvent * W;
  h_result : W -> AssistantMessage * W;
  h_toolExecution : ToolExecutionMode;
  (** [prepareArguments] and [validateToolArguments]. *)
  h_validate : AgentTool -> ToolCall -> W -> res string json * W;
  h_beforeToolCall : AssistantMessage -> ToolCall -> json -> AgentContext -> W -> res string (option BeforeToolCallResult) * W;
  h_afterToolCall : AssistantMessage -> ToolCall -> json -> AgentToolResult -> bool -> AgentContext -> W ->
    res string (option AfterToolCallResult) * W;
  (** [execute]: the updates it reports while it is called, and those it will report. *)
  h_execute : AgentTool -> ToolCall -> json -> W -> (list AgentToolResult * list AgentToolResult) * W;
  (** How its promise settles, with the time it took. *)
  h_settle : AgentTool -> ToolCall -> json -> W -> (res string AgentToolResult * N) * W;
  (** Which of the concurrent calls goes on. *)
  h_pick : W -> nat * W;
}.

(** The world, what was emitted, and what the queues delivered. *)
Record St : Type := { st_world : W; st_log : list AgentEvent; st_polled : list AgentMessage }.

Definition act (A : Type) : Type := St -> A * St.

#[export] Instance act_ret : MRet act := fun A a s => (a, s).
#[export] Instance act_bind : MBind act := fun A B f m s => let '(a, s) := m s in f a s.

Definition with_world (w : W) (s : St) : St := {| st_world := w; st_log := st_log s; st_polled := st_polled s |}.

(** A call of the host. *)
Definition call {A} (f : W -> A * W) : act A := fun s => let '(a, w) := f (st_world s) in (a, with_world w s).

Context (h : Hooks).

Definition emit (e : AgentEvent) : act unit := fun s =>
  (tt, {| st_world := h_emit h e (st_world s); st_log := st_log s ++ [e]; st_polled := st_polled s |}).

Definition aborted : act bool := fun s => (h_aborted h (st_world s), s).

Definition poll (queue : W -> list AgentMessage * W) : act (list AgentMessage) := fun s =>
  let '(ms, w) := queue (st_world s) in
  (ms, {| st_world := w; st_log := st_log s; st_polled := st_polled s ++ ms |}).

Fixpoint for_each {A B} (f : A -> act B) (xs : list A) : act (list B) :=
  match xs with
  | [] => mret []
  | x :: xs => b ← f x; bs ← for_each f xs; mret (b :: bs)
  end.

(** ** Tool calls *)

(** [prepareToolCall]: the tool and its arguments, or an outcome. *)
Inductive Preparation : Type := Prepared (tool : AgentTool) (args : json) | Immediate (result : AgentToolResult) (isError : bool).

Definition refused (message : string) : Preparation := Immediate (createErrorToolResult message) true.

Definition find_tool (name : string) (tools : list AgentTool) : option AgentTool :=
  snd <$> list_find (fun t => at_name t = name) tools.

Definition prepareToolCall (context : AgentContext) (m : AssistantMessage) (c : ToolCall) : act Preparation :=
  match find_tool (tc_name c) (cx_tools context) with
  | None => mret (refused ("Tool " +:+ tc_name c +:+ " not found"))
  | Some tool =>
      validated ← call (h_validate h tool c);
      match validated with
      | Throw e => mret (refused e)
      | Ok args =>
          before ← call (h_beforeToolCall h m c args context);
          match before with
          | Throw e => mret (refused e)
          | Ok before =>
              stopped ← aborted;
              if stopped : bool then mret (refused "Operation aborted")
              else
                match before with
                | Some b =>
                    if bf_block b then
                      let r := createErrorToolResult
                        (match bf_reason b with Some (String x y) => String x y | _ => "Tool execution was blocked" end) in
                      mret (Immediate (if bf_terminate b then with_terminate r else r) true)
                    else mret (Prepared tool args)
                | None => mret (Prepared tool args)
                end
          end
      end
  end.

(** The end of [executePreparedToolCall]. *)
Definition settled (r : res string AgentToolResult) : AgentToolResult * bool :=
  match r with Ok result => (result, rs_isError result) | Throw e => (createErrorToolResult e, true) end.

Definition executePreparedToolCall (tool : AgentTool) (c : ToolCall) (args : json) : act (AgentToolResult * bool * N) :=
  '(early, later) ← call (h_execute h tool c args);
  _ ← for_each (fun partial => emit (tool_execution_update c partial)) early;
  _ ← for_each (fun partial => emit (tool_execution_update c partial)) later;
  '(r, durationMs) ← call (h_settle h tool c args);
  mret (settled r, durationMs).

Definition finalizeExecutedToolCall (context : AgentContext) (m : AssistantMessage) (c : ToolCall) (args : json)
    (executed : AgentToolResult * bool * N) : act AgentToolCallOutcome :=
  let '(result, isError, durationMs) := executed in
  after ← call (h_afterToolCall h m c args result isError context);
  mret match after with
       | Ok None => {| oc_toolCall := c; oc_result := result; oc_isError := isError; oc_durationMs := Some durationMs |}
       | Ok (Some a) =>
           {| oc_toolCall := c; oc_result := override a result; oc_isError := default isError (af_isError a);
              oc_durationMs := Some durationMs |}
       | Throw e => {| oc_toolCall := c; oc_result := createErrorToolResult e; oc_isError := true; oc_durationMs := Some durationMs |}
       end.

Definition immediate_outcome (c : ToolCall) (result : AgentToolResult) (isError : bool) : AgentToolCallOutcome :=
  {| oc_toolCall := c; oc_result := result; oc_isError := isError; oc_durationMs := None |}.

Definition emitToolExecutionEnd (o : AgentToolCallOutcome) : act unit :=
  emit (tool_execution_end (oc_toolCall o) (oc_result o) (oc_isError o) (oc_durationMs o)).

Definition createToolResultMessage (o : AgentToolCallOutcome) : act ToolResultMessage :=
  now ← call (h_now h);
  mret {| tr_toolCallId := tc_id (oc_toolCall o); tr_toolName := tc_name (oc_toolCall o);
          tr_content := default [] (rs_content (oc_result o)); tr_details := rs_details (oc_result o);
          tr_usage := rs_usage (oc_result o); tr_isError := oc_isError o; tr_durationMs := oc_durationMs o; tr_timestamp := now |}.

Definition emit_message (m : AgentMessage) : act unit := _ ← emit (message_start m); emit (message_end m).

(** The message of a finalized call. *)
Definition answer (o : AgentToolCallOutcome) : act ToolResultMessage :=
  m ← createToolResultMessage o; _ ← emit_message (MToolResult m); mret m.

Record ExecutedToolCallBatch : Type := { eb_messages : list ToolResultMessage; eb_terminate : bool }.

Definition quote : string := String (Ascii.ascii_of_nat 34) EmptyString.

Definition truncated_message (name : string) : string :=
  "Tool call " +:+ quote +:+ name +:+ quote +:+ " was not executed: the response hit the output token limit, so its arguments may be truncated. Re-issue the tool call with complete arguments.".

Definition failToolCallsFromTruncatedMessage (calls : list ToolCall) : act ExecutedToolCallBatch :=
  messages ← for_each (fun c =>
    _ ← emit (tool_execution_start c);
    let o := immediate_outcome c (createErrorToolResult (truncated_message (tc_name c))) true in
    _ ← emitToolExecutionEnd o; answer o) calls;
  mret {| eb_messages := messages; eb_terminate := false |}.

(** ** One call after the other *)

Definition run_call (context : AgentContext) (m : AssistantMessage) (c : ToolCall) : act AgentToolCallOutcome :=
  preparation ← prepareToolCall context m c;
  match preparation with
  | Immediate result isError => mret (immediate_outcome c result isError)
  | Prepared tool args => executed ← executePreparedToolCall tool c args; finalizeExecutedToolCall context m c args executed
  end.

Fixpoint sequential_calls (context : AgentContext) (m : AssistantMessage) (calls : list ToolCall)
    : act (list (AgentToolCallOutcome * ToolResultMessage)) :=
  match calls with
  | [] => mret []
  | c :: calls =>
      _ ← emit (tool_execution_start c);
      o ← run_call context m c;
      _ ← emitToolExecutionEnd o;
      r ← answer o;
      stopped ← aborted;
      if stopped : bool then mret [(o, r)]
      else rest ← sequential_calls context m calls; mret ((o, r) :: rest)
  end.

Definition executeToolCallsSequential (context : AgentContext) (m : AssistantMessage) (calls : list ToolCall) : act ExecutedToolCallBatch :=
  finalized ← sequential_calls context m calls;
  mret {| eb_messages := finalized.*2; eb_terminate := shouldTerminateToolBatch finalized.*1 |}.

(** ** Concurrent calls *)

(** A finalized call, or one that is to be executed. *)
Inductive FinalizedToolCallEntry : Type := EDone (o : AgentToolCallOutcome) | EThunk (c : ToolCall) (tool : AgentTool) (args : json).

Fixpoint prepare_calls (context : AgentContext) (m : AssistantMessage) (calls : list ToolCall) : act (list FinalizedToolCallEntry) :=
  match calls with
  | [] => mret []
  | c :: calls =>
      _ ← emit (tool_execution_start c);
      preparation ← prepareToolCall context m c;
      entry ← match preparation with
              | Immediate result isError =>
                  let o := immediate_outcome c result isError in
                  _ ← emitToolExecutionEnd o; mret (EDone o)
              | Prepared tool args => mret (EThunk c tool args)
              end;
      stopped ← aborted;
      if stopped : bool then mret [entry] else rest ← prepare_calls context m calls; mret (entry :: rest)
  end.

(** Where a concurrent call is: running, with the updates it will still report; settled;
    finalized; done. *)
Inductive Stage : Type :=
| Running (c : ToolCall) (tool : AgentTool) (args : json) (later : list AgentToolResult)
| Settled (c : ToolCall) (args : json) (executed : AgentToolResult * bool * N)
| Finalized (o : AgentToolCallOutcome)
| Done (o : AgentToolCallOutcome).

(** [entry()] up to its first wait. *)
Definition launch (entry : FinalizedToolCallEntry) : act Stage :=
  match entry with
  | EDone o => mret (Done o)
  | EThunk c tool args =>
      stopped ← aborted;
      if stopped : bool then
        let o := immediate_outcome c (createErrorToolResult "Operation aborted") true in
        _ ← emitToolExecutionEnd o; mret (Done o)
      else
        '(early, later) ← call (h_execute h tool c args);
        _ ← for_each (fun partial => emit (tool_execution_update c partial)) early;
        mret (Running c tool args later)
  end.

(** What a call does next. *)
Definition resume (context : AgentContext) (m : AssistantMessage) (s : Stage) : act Stage :=
  match s with
  | Running c tool args (partial :: later) => _ ← emit (tool_execution_update c partial); mret (Running c tool args later)
  | Running c tool args [] => '(r, durationMs) ← call (h_settle h tool c args); mret (Settled c args (settled r, durationMs))
  | Settled c args executed => o ← finalizeExecutedToolCall context m c args executed; mret (Finalized o)
  | Finalized o => _ ← emitToolExecutionEnd o; mret (Done o)
  | Done o => mret (Done o)
  end.

Definition stage_work (s : Stage) : nat :=
  match s with Running _ _ _ later => 3 + length later | Settled _ _ _ => 2 | Finalized _ => 1 | Done _ => 0 end.

Definition unfinished (stages : list Stage) : list nat :=
  omap (fun ix => match ix.2 with Done _ => None | _ => Some ix.1 end) (imap pair stages).

(** [Promise.all]: the calls go on one at a time, in any order, until all are done. *)
Fixpoint run_together (fuel : nat) (context : AgentContext) (m : AssistantMessage) (stages : list Stage) : act (list Stage) :=
  match fuel, unfinished stages with
  | S fuel, i :: others =>
      k ← call (h_pick h);
      let j := nth (k mod S (length others)) (i :: others) i in
      match stages !! j with
      | Some s => s ← resume context m s; run_together fuel context m (<[j := s]> stages)
      | None => mret stages
      end
  | _, _ => mret stages
  end.

Definition outcome_of (s : Stage) : option AgentToolCallOutcome := match s with Done o => Some o | _ => None end.

Definition executeToolCallsParallel (context : AgentContext) (m : AssistantMessage) (calls : list ToolCall) : act ExecutedToolCallBatch :=
  entries ← prepare_calls context m calls;
  stages ← for_each launch entries;
  stages ← run_together (sum_list_with stage_work stages) context m stages;
  let orderedFinalizedCalls := omap outcome_of stages in
  messages ← for_each answer orderedFinalizedCalls;
  mret {| eb_messages := messages; eb_terminate := shouldTerminateToolBatch orderedFinalizedCalls |}.

Definition executeToolCalls (context : AgentContext) (m : AssistantMessage) : act ExecutedToolCallBatch :=
  let calls := tool_calls m in
  let hasSequentialToolCall := existsb (fun c =>
    match find_tool (tc_name c) (cx_tools context) ≫= at_executionMode with Some sequential => true | _ => false end) calls in
  if match h_toolExecution h with sequential => true | parallel => false end || hasSequentialToolCall
  then executeToolCallsSequential context m calls
  else executeToolCallsParallel context m calls.

(** ** The response of the model *)

Definition push_message (m : AgentMessage) (context : AgentContext) : AgentContext :=
  {| cx_messages := cx_messages context ++ [m]; cx_tools := cx_tools context |}.

Definition replace_last (m : AgentMessage) (context : AgentContext) : AgentContext :=
  {| cx_messages := removelast (cx_messages context) ++ [m]; cx_tools := cx_tools context |}.

(** The loop over the events of a response; [addedPartial] once one started. *)
Fixpoint stream_events (events : list AssistantMessageEvent) (addedPartial : bool) (context : AgentContext) : act (bool * AgentContext) :=
  match events with
  | [] | stream_done :: _ => mret (addedPartial, context)
  | stream_start partial :: events =>
      _ ← emit (message_start (MAssistant partial));
      stream_events events true (push_message (MAssistant partial) context)
  | stream_update partial :: events =>
      if addedPartial then
        _ ← emit (message_update (MAssistant partial));
        stream_events events true (replace_last (MAssistant partial) context)
      else stream_events events false context
  end.

Definition with_thinkingLevel (level : option string) (m : AssistantMessage) : AssistantMessage :=
  {| am_content := am_content m; am_stopReason := am_stopReason m;
     am_thinkingLevel := Some (match level with Some l => l | None => "off" end); am_rest := am_rest m |}.

Definition streamAssistantResponse (context : AgentContext) (model : json) (reasoning : option string)
    : act (AssistantMessage * AgentContext) :=
  events ← call (h_request h model reasoning (cx_messages context));
  '(addedPartial, context) ← stream_events events false context;
  result ← call (h_result h);
  let finalMessage := with_thinkingLevel reasoning result in
  _ ← (if addedPartial : bool then mret tt else emit (message_start (MAssistant finalMessage)));
  _ ← emit (message_end (MAssistant finalMessage));
  let place := if addedPartial : bool then replace_last else push_message in
  mret (finalMessage, place (MAssistant finalMessage) context).

(** ** Turns *)

(** The variables of [runLoop]. *)
Record Run : Type := {
  rn_context : AgentContext;
  rn_newMessages : list AgentMessage;
  rn_model : json;
  rn_reasoning : option string;
  rn_lastCompletedTurn : option AgentTurnContext;
  rn_pendingMessages : list AgentMessage;
  rn_explicitContinuation : bool;
}.

Definition with_pending (ms : list AgentMessage) (r : Run) : Run :=
  {| rn_context := rn_context r; rn_newMessages := rn_newMessages r; rn_model := rn_model r; rn_reasoning := rn_reasoning r;
     rn_lastCompletedTurn := rn_lastCompletedTurn r; rn_pendingMessages := ms; rn_explicitContinuation := rn_explicitContinuation r |}.

Definition with_explicit (b : bool) (r : Run) : Run :=
  {| rn_context := rn_context r; rn_newMessages := rn_newMessages r; rn_model := rn_model r; rn_reasoning := rn_reasoning r;
     rn_lastCompletedTurn := rn_lastCompletedTurn r; rn_pendingMessages := rn_pendingMessages r; rn_explicitContinuation := b |}.

(** The context after a push by the loop, and its new messages. *)
Definition deliver (ms : list AgentMessage) (r : Run) : Run :=
  {| rn_context := {| cx_messages := cx_messages (rn_context r) ++ ms; cx_tools := cx_tools (rn_context r) |};
     rn_newMessages := rn_newMessages r ++ ms; rn_model := rn_model r; rn_reasoning := rn_reasoning r;
     rn_lastCompletedTurn := rn_lastCompletedTurn r; rn_pendingMessages := rn_pendingMessages r;
     rn_explicitContinuation := rn_explicitContinuation r |}.

(** Replacement state of [prepareNextTurn] and [prepareRequest]. *)
Definition update_run (u : AgentLoopTurnUpdate) (r : Run) : Run :=
  {| rn_context := default (rn_context r) (up_context u); rn_newMessages := rn_newMessages r;
     rn_model := default (rn_model r) (up_model u);
     rn_reasoning := match up_thinkingLevel u with
                     | None => rn_reasoning r
                     | Some level => if bool_decide (level = "off") then None else Some level
                     end;
     rn_lastCompletedTurn := rn_lastCompletedTurn r; rn_pendingMessages := rn_pendingMessages r;
     rn_explicitContinuation := rn_explicitContinuation r |}.

(** After the response: the context that was streamed into, and the message. *)
Definition respond (context : AgentContext) (m : AssistantMessage) (r : Run) : Run :=
  {| rn_context := context; rn_newMessages := rn_newMessages r ++ [MAssistant m]; rn_model := rn_model r;
     rn_reasoning := rn_reasoning r; rn_lastCompletedTurn := rn_lastCompletedTurn r; rn_pendingMessages := rn_pendingMessages r;
     rn_explicitContinuation := rn_explicitContinuation r |}.

Definition completed (m : AssistantMessage) (results : list ToolResultMessage) (r : Run) : AgentTurnContext :=
  {| tu_message := m; tu_toolResults := results; tu_context := rn_context r; tu_newMessages := rn_newMessages r |}.

Definition complete (t : AgentTurnContext) (r : Run) : Run :=
  {| rn_context := rn_context r; rn_newMessages := rn_newMessages r; rn_model := rn_model r; rn_reasoning := rn_reasoning r;
     rn_lastCompletedTurn := Some t; rn_pendingMessages := rn_pendingMessages r;
     rn_explicitContinuation := rn_explicitContinuation r |}.

(** What precedes every turn but the first. *)
Definition begin_turn (r : Run) : act (Run * list AgentMessage) :=
  match rn_lastCompletedTurn r with
  | None => mret (r, [])
  | Some t =>
      snapshot ← call (h_prepareNextTurn h t);
      let r := match snapshot with Some u => update_run u r | None => r end in
      let prepared := match snapshot with Some u => up_messages u | None => [] end in
      pending ← match rn_pendingMessages r with [] => poll (h_getSteeringMessages h) | ms => mret ms end;
      _ ← emit turn_start;
      mret (with_pending pending r, prepared)
  end.

(** Prepared and queued messages, before the response. The clock is read whether or not a
    message of its own declares the tools. *)
Definition deliver_pending (prepared : list AgentMessage) (r : Run) : act Run :=
  now ← call (h_now h);
  let ms := declareToolChanges (rn_context r) (prepared ++ rn_pendingMessages r) now in
  _ ← for_each emit_message ms;
  mret (with_pending [] (deliver ms r)).

Definition prepare_request (r : Run) : act Run :=
  update ← call (h_prepareRequest h (rn_context r) (rn_model r) (match rn_reasoning r with Some l => l | None => "off" end));
  mret match update with Some u => update_run u r | None => r end.

Definition is_failed (m : AssistantMessage) : bool :=
  match am_stopReason m with stop_error | stop_aborted => true | _ => false end.

(** The tool calls of a message: their results, and whether more requests follow. *)
Definition run_tools (context : AgentContext) (m : AssistantMessage) : act (list ToolResultMessage * bool) :=
  match tool_calls m with
  | [] => mret ([], false)
  | calls =>
      batch ← match am_stopReason m with
              | stop_length => failToolCallsFromTruncatedMessage calls
              | _ => executeToolCalls context m
              end;
      mret (eb_messages batch, negb (eb_terminate batch))
  end.

(** A round up to the response. *)
Definition ask (r : Run) : act (Run * AssistantMessage) :=
  '(r, prepared) ← begin_turn r;
  r ← deliver_pending prepared r;
  r ← prepare_request r;
  '(m, context) ← streamAssistantResponse (rn_context r) (rn_model r) (rn_reasoning r);
  mret (respond context m r, m).

(** One round of the inner loop; [None] when the run ended in it. *)
Definition turn (r : Run) : act (Run * option bool) :=
  '(r, m) ← ask r;
  if is_failed m then
    let t := completed m [] r in
    _ ← call (h_finishTurn h t);
    _ ← emit (turn_end m []);
    _ ← emit (agent_end (rn_newMessages r));
    mret (complete t r, None)
  else
    '(results, hasMoreToolCalls) ← run_tools (rn_context r) m;
    let r := deliver (MToolResult <$> results) r in
    let t := completed m results r in
    decision ← call (h_finishTurn h t);
    _ ← emit (turn_end m results);
    match decision with
    | Some End => _ ← emit (agent_end (rn_newMessages r)); mret (complete t r, None)
    | _ =>
        pending ← poll (h_getSteeringMessages h);
        let again := (hasMoreToolCalls || negb (bool_decide (length pending = 0)))%bool in
        let explicit := match decision with Some Continue => true | _ => false end in
        mret (with_explicit (if again then false else explicit) (with_pending pending (complete t r)), Some again)
    end.

(** [runLoop] from the top of the inner loop; [None] when it took more turns than [fuel]. *)
Fixpoint runLoop (fuel : nat) (r : Run) : act (option (list AgentMessage)) :=
  match fuel with
  | 0 => mret None
  | S fuel =>
      '(r, more) ← turn r;
      match more with
      | None => mret (Some (rn_newMessages r))
      | Some true => runLoop fuel r
      | Some false =>
          followUpMessages ← poll (h_getFollowUpMessages h);
          match followUpMessages with
          | _ :: _ => runLoop fuel (with_explicit false (with_pending followUpMessages r))
          | [] =>
              if rn_explicitContinuation r then runLoop fuel (with_explicit false r)
              else _ ← emit (agent_end (rn_newMessages r)); mret (Some (rn_newMessages r))
          end
      end
  end.

Definition start_run (context : AgentContext) (new : list AgentMessage) (model : json) (reasoning : option string)
    (pending : list AgentMessage) : Run :=
  {| rn_context := context; rn_newMessages := new; rn_model := model; rn_reasoning := reasoning; rn_lastCompletedTurn := None;
     rn_pendingMessages := pending; rn_explicitContinuation := false |}.

Definition runAgentLoop (fuel : nat) (prompts : list AgentMessage) (context : AgentContext) (model : json) (reasoning : option string)
    : act (option (list AgentMessage)) :=
  now ← call (h_now h);
  let initialMessages := declareToolChanges context prompts now in
  _ ← emit agent_start;
  _ ← emit turn_start;
  _ ← for_each emit_message initialMessages;
  pending ← poll (h_getSteeringMessages h);
  runLoop fuel (start_run {| cx_messages := cx_messages context ++ initialMessages; cx_tools := cx_tools context |}
    initialMessages model reasoning pending).

Definition runAgentLoopContinue (fuel : nat) (context : AgentContext) (model : json) (reasoning : option string)
    : act (res string (option (list AgentMessage))) :=
  match last (cx_messages context) with
  | None => mret (Throw "Cannot continue: no messages in context"%string)
  | Some (MAssistant _) => mret (Throw "Cannot continue from message role: assistant"%string)
  | Some _ =>
      _ ← emit agent_start;
      _ ← emit turn_start;
      pending ← poll (h_getSteeringMessages h);
      new ← runLoop fuel (start_run context [] model reasoning pending);
      mret (Ok new)
  end.
End Loop.
