(* ===== verification/AgentFacts.v ===== *)
(** Facts of the agent loop (agent/src/agent-loop.ts): what an action emits and polls, as a
    triple that composes; the protocol of the events; what the parts of a turn emit. *)
From S2P Require Import Prelude JsString Json AgentTranscript AgentLoop.
From stdpp Require Import gmultiset.

(** ** The protocol of the events *)

(** Before the run; between turns; in a turn; in a message, of the model or not; at the end. *)
Inductive phase : Type := Idle | Between | InTurn | InMessage (m : option AgentMessage) | Ended.

(** The phase, and the tool calls that run. *)
Definition protocol : Type := phase * gmultiset string.

Definition is_assistant (m : AgentMessage) : bool := match m with MAssistant _ => true | _ => false end.

(** A message other than the model's is the same at its start and its end. *)
Definition kept_message (m : AgentMessage) : option AgentMessage := if is_assistant m then None else Some m.

Inductive protocol_step : protocol -> AgentEvent -> protocol -> Prop :=
| on_agent_start : protocol_step (Idle, ∅) agent_start (Between, ∅)
| on_turn_start : protocol_step (Between, ∅) turn_start (InTurn, ∅)
| on_turn_end m results : protocol_step (InTurn, ∅) (turn_end m results) (Between, ∅)
| on_agent_end ms : protocol_step (Between, ∅) (agent_end ms) (Ended, ∅)
| on_message_start m : protocol_step (InTurn, ∅) (message_start m) (InMessage (kept_message m), ∅)
| on_message_restart m : protocol_step (InMessage None, ∅) (message_start (MAssistant m)) (InMessage None, ∅)
| on_message_update m : protocol_step (InMessage None, ∅) (message_update (MAssistant m)) (InMessage None, ∅)
| on_message_end m : protocol_step (InMessage (kept_message m), ∅) (message_end m) (InTurn, ∅)
| on_tool_start X c : protocol_step (InTurn, X) (tool_execution_start c) (InTurn, X ⊎ {[+ tc_id c +]})
| on_tool_update X c partial : tc_id c ∈ X -> protocol_step (InTurn, X) (tool_execution_update c partial) (InTurn, X)
| on_tool_end X c result isError durationMs :
    protocol_step (InTurn, X ⊎ {[+ tc_id c +]}) (tool_execution_end c result isError durationMs) (InTurn, X).

Inductive runs : protocol -> list AgentEvent -> protocol -> Prop :=
| runs_nil p : runs p [] p
| runs_cons p q r e evs : protocol_step p e q -> runs q evs r -> runs p (e :: evs) r.

Lemma runs_app p q r evs evs' : runs p evs q -> runs q evs' r -> runs p (evs ++ evs') r.
Proof. induction 1 as [|p p1 q e evs H1 H IH]; [done|]. intros H'. by eapply runs_cons, IH. Qed.

Lemma runs_one p e q : protocol_step p e q -> runs p [e] q.
Proof. intros H. eapply runs_cons; [exact H|apply runs_nil]. Qed.

Definition ended_messages (evs : list AgentEvent) : list AgentMessage :=
  omap (fun e => match e with message_end m => Some m | _ => None end) evs.

Lemma ended_app evs evs' : ended_messages (evs ++ evs') = ended_messages evs ++ ended_messages evs'.
Proof. apply omap_app. Qed.

(** ** Triples *)

Section Facts.
Context {W : Type} (h : Hooks (W := W)).

(** Whatever the state, the action returns, emits and polls so. *)
Definition spec {A} (a : act (W := W) A) (P : A -> list AgentEvent -> list AgentMessage -> Prop) : Prop :=
  forall s, exists evs polled, st_log (a s).2 = st_log s ++ evs /\ st_polled (a s).2 = st_polled s ++ polled /\ P (a s).1 evs polled.

Lemma spec_ret {A} (x : A) P : P x [] [] -> spec (mret x) P.
Proof. intros H s. exists [], []. by rewrite !app_nil_r. Qed.

Lemma spec_bind {A B} (a : act A) (f : A -> act B) P Q :
  spec a P -> (forall x evs polled, P x evs polled -> spec (f x) (fun y evs' polled' => Q y (evs ++ evs') (polled ++ polled'))) ->
  spec (a ≫= f) Q.
Proof.
  intros Ha Hf s. destruct (Ha s) as (evs & polled & Hl & Hp & HP). unfold mbind, act_bind. destruct (a s) as [x s1]. cbn [fst snd] in *.
  destruct (Hf x evs polled HP s1) as (evs' & polled' & Hl' & Hp' & HQ). exists (evs ++ evs'), (polled ++ polled').
  rewrite Hl', Hp', Hl, Hp, !app_assoc. done.
Qed.

Lemma spec_weaken {A} (a : act A) (P Q : A -> list AgentEvent -> list AgentMessage -> Prop) :
  spec a P -> (forall x evs polled, P x evs polled -> Q x evs polled) -> spec a Q.
Proof. intros Ha Himp s. destruct (Ha s) as (evs & polled & ? & ? & ?). exists evs, polled. auto. Qed.

Lemma spec_call {A} (f : W -> A * W) (P : A -> list AgentEvent -> list AgentMessage -> Prop) : (forall x, P x [] []) -> spec (call f) P.
Proof. intros H s. exists [], []. unfold call. destruct (f (st_world s)) as [x w]. cbn. by rewrite !app_nil_r. Qed.

Lemma spec_called {A} (f : W -> A * W) (P : A -> Prop) : (forall w, P (f w).1) -> spec (call f) (fun x evs polled => evs = [] /\ polled = [] /\ P x).
Proof.
  intros H s. exists [], []. unfold call. specialize (H (st_world s)). destruct (f (st_world s)) as [x w]. cbn in *. by rewrite !app_nil_r.
Qed.

Lemma spec_emit e : spec (emit h e) (fun _ evs polled => evs = [e] /\ polled = []).
Proof. intros s. exists [e], []. cbn. by rewrite app_nil_r. Qed.

Lemma spec_aborted : spec (aborted h) (fun stopped evs polled => evs = [] /\ polled = [] /\ (stopped = true -> exists w, h_aborted h w = true)).
Proof. intros s. exists [], []. cbn. rewrite !app_nil_r. split_and!; [done..|]. intros H. by exists (st_world s). Qed.

Lemma spec_poll queue (P : list AgentMessage -> Prop) : (forall w, P (queue w).1) ->
  spec (poll queue) (fun ms evs polled => evs = [] /\ polled = ms /\ P ms).
Proof.
  intros H s. unfold poll. specialize (H (st_world s)). destruct (queue (st_world s)) as [ms w]. exists [], ms. cbn in *. by rewrite app_nil_r.
Qed.

(** An action after one that emits nothing of interest. *)
Lemma spec_step {A B} (a : act A) (f : A -> act B) (R : A -> Prop) Q :
  spec a (fun x evs polled => evs = [] /\ polled = [] /\ R x) -> (forall x, R x -> spec (f x) Q) -> spec (a ≫= f) Q.
Proof.
  intros Ha Hf. eapply spec_bind; [exact Ha|]. intros x evs polled (-> & -> & Hx). eapply spec_weaken; [by apply Hf|]. done.
Qed.

Lemma spec_after_call {A B} (g : W -> A * W) (f : A -> act B) Q : (forall x, spec (f x) Q) -> spec (call g ≫= f) Q.
Proof. intros Hf. eapply (spec_step _ _ (fun _ => True)); [by apply spec_called|auto]. Qed.

Lemma spec_after_emit {B} e (f : unit -> act B) (Q : B -> list AgentEvent -> list AgentMessage -> Prop) :
  spec (f tt) (fun y evs polled => Q y (e :: evs) polled) -> spec (emit h e ≫= f) Q.
Proof.
  intros Hf. eapply spec_bind; [apply spec_emit|]. intros [] evs polled [-> ->]. exact Hf.
Qed.

Lemma spec_for_each {A B} (f : A -> act B) (xs : list A) (I : list B -> list AgentEvent -> list AgentMessage -> list A -> Prop) :
  I [] [] [] xs ->
  (forall ys evs polled x rest, I ys evs polled (x :: rest) -> spec (f x) (fun y evs' polled' => I (ys ++ [y]) (evs ++ evs') (polled ++ polled') rest)) ->
  spec (for_each f xs) (fun ys evs polled => I ys evs polled []).
Proof.
  intros H0 Hf. cut (forall xs ys evs polled, I ys evs polled xs ->
    spec (for_each f xs) (fun ys' evs' polled' => I (ys ++ ys') (evs ++ evs') (polled ++ polled') [])).
  { intros Hgen. apply (Hgen xs [] [] []), H0. }
  clear H0. intros l. induction l as [|x l IH]; intros ys evs polled HI; cbn [for_each].
  { apply spec_ret. by rewrite !app_nil_r. }
  eapply spec_bind; [apply Hf, HI|]. intros y evs1 polled1 H1. eapply spec_bind; [apply (IH _ _ _ H1)|].
  intros bs evs2 polled2 H2. apply spec_ret. by rewrite !app_nil_r, (app_assoc evs), (app_assoc polled), (cons_middle y), app_assoc.
Qed.

(** ** Messages *)

Lemma runs_message m : runs (InTurn, ∅) [message_start m; message_end m] (InTurn, ∅).
Proof. eapply runs_cons, runs_one; constructor. Qed.

Lemma emit_message_spec m :
  spec (emit_message h m) (fun _ evs polled => evs = [message_start m; message_end m] /\ polled = []).
Proof. apply spec_after_emit. eapply spec_weaken; [apply spec_emit|]. by intros x evs polled [-> ->]. Qed.

Lemma emit_messages_spec ms : spec (for_each (emit_message h) ms) (fun _ evs polled =>
  polled = [] /\ runs (InTurn, ∅) evs (InTurn, ∅) /\ ended_messages evs = ms).
Proof.
  eapply spec_weaken; [apply (spec_for_each _ _ (fun _ evs polled rest =>
    polled = [] /\ runs (InTurn, ∅) evs (InTurn, ∅) /\ ended_messages evs ++ rest = ms))|].
  - split_and!; [done|apply runs_nil|done].
  - intros ys evs polled m rest (-> & Hr & Hm). eapply spec_weaken; [apply emit_message_spec|]. intros _ evs' polled' [-> ->].
    split_and!; [done|by eapply runs_app, runs_message|]. by rewrite ended_app, <- app_assoc.
  - intros _ evs polled (-> & Hr & Hm). by rewrite app_nil_r in Hm.
Qed.

(** ** One tool call *)

(** Only updates of the call. *)
Definition updates (c : ToolCall) (evs : list AgentEvent) : Prop := Forall (fun e => exists partial, e = tool_execution_update c partial) evs.

Lemma updates_run c evs X : updates c evs -> tc_id c ∈ X -> runs (InTurn, X) evs (InTurn, X).
Proof. intros Hu Hc. induction Hu as [|e evs [partial ->] Hu IH]; [apply runs_nil|]. eapply runs_cons; [by constructor|done]. Qed.

Lemma updates_ended c evs : updates c evs -> ended_messages evs = [].
Proof. induction 1 as [|e evs [partial ->] Hu IH]; [done|]. exact IH. Qed.

Lemma updates_app c evs evs' : updates c evs -> updates c evs' -> updates c (evs ++ evs').
Proof. apply Forall_app_2. Qed.

(** What a call emits while it runs, and what it is the outcome of. *)
Definition of_call (c : ToolCall) (o : AgentToolCallOutcome) (evs : list AgentEvent) (polled : list AgentMessage) : Prop :=
  updates c evs /\ polled = [] /\ oc_toolCall o = c.

Lemma prepare_spec context m c : spec (prepareToolCall h context m c) (fun _ evs polled => evs = [] /\ polled = []).
Proof.
  unfold prepareToolCall. destruct (find_tool _ _) as [tool|]; [|by apply spec_ret].
  apply spec_after_call. intros [args|e]; [|by apply spec_ret]. apply spec_after_call. intros [b|e]; [|by apply spec_ret].
  eapply spec_step; [apply spec_aborted|]. intros [] _; [by apply spec_ret|]. destruct b as [b|]; [|by apply spec_ret].
  destruct (bf_block b); by apply spec_ret.
Qed.

Lemma emit_updates_spec c partials : spec (for_each (fun partial => emit h (tool_execution_update c partial)) partials)
  (fun _ evs polled => updates c evs /\ polled = []).
Proof.
  apply (spec_for_each _ _ (fun _ evs polled _ => updates c evs /\ polled = [])); [by split; [apply Forall_nil|]|].
  intros ys evs polled x rest [Hu ->]. eapply spec_weaken; [apply spec_emit|]. intros _ evs' polled' [-> ->].
  split; [|done]. apply updates_app; [done|]. apply Forall_singleton. by eexists.
Qed.

Lemma execute_spec tool c args : spec (executePreparedToolCall h tool c args) (fun _ evs polled => updates c evs /\ polled = []).
Proof.
  unfold executePreparedToolCall. apply spec_after_call. intros [early later].
  eapply spec_bind; [apply emit_updates_spec|]. intros _ evs1 polled1 [H1 ->].
  eapply spec_bind; [apply emit_updates_spec|]. intros _ evs2 polled2 [H2 ->].
  apply spec_after_call. intros [r d]. apply spec_ret. rewrite !app_nil_r. split; [by apply updates_app|done].
Qed.

Lemma finalize_spec context m c args executed :
  spec (finalizeExecutedToolCall h context m c args executed) (fun o evs polled => evs = [] /\ polled = [] /\ oc_toolCall o = c).
Proof.
  unfold finalizeExecutedToolCall. destruct executed as [[result isError] d]. apply spec_after_call. intros [[a|]|e]; by apply spec_ret.
Qed.

Lemma run_call_spec context m c : spec (run_call h context m c) (of_call c).
Proof.
  unfold run_call. eapply spec_bind; [apply prepare_spec|]. intros [tool args|result isError] evs polled [-> ->].
  - eapply spec_bind; [apply execute_spec|]. intros executed evs polled [Hu ->].
    eapply spec_weaken; [apply finalize_spec|]. intros o evs' polled' (-> & -> & Ho). cbn. by rewrite app_nil_r.
  - apply spec_ret. split_and!; [apply Forall_nil|done|done].
Qed.

(** The result message of an outcome. *)
Definition result_of (o : AgentToolCallOutcome) (r : ToolResultMessage) : Prop :=
  tr_toolCallId r = tc_id (oc_toolCall o) /\ tr_toolName r = tc_name (oc_toolCall o) /\ tr_isError r = oc_isError o /\
  tr_content r = default [] (rs_content (oc_result o)).

Lemma answer_spec o : spec (answer h o) (fun r evs polled =>
  evs = [message_start (MToolResult r); message_end (MToolResult r)] /\ polled = [] /\ result_of o r).
Proof.
  unfold answer. eapply (spec_step _ _ (result_of o)).
  - apply spec_after_call. intros now. by apply spec_ret.
  - intros r Hr. eapply spec_bind; [apply emit_message_spec|]. intros _ evs polled [-> ->]. by apply spec_ret.
Qed.

Lemma answers_spec os : spec (for_each (answer h) os) (fun rs evs polled =>
  polled = [] /\ runs (InTurn, ∅) evs (InTurn, ∅) /\ ended_messages evs = MToolResult <$> rs /\ Forall2 result_of os rs).
Proof.
  eapply spec_weaken; [apply (spec_for_each _ _ (fun rs evs polled rest => exists before, before ++ rest = os /\
    polled = [] /\ runs (InTurn, ∅) evs (InTurn, ∅) /\ ended_messages evs = MToolResult <$> rs /\ Forall2 result_of before rs))|].
  - exists []. split_and!; [done..|apply runs_nil|done|constructor].
  - intros rs evs polled o rest (before & <- & -> & Hr & He & Hf). eapply spec_weaken; [apply answer_spec|].
    intros r evs' polled' (-> & -> & Ho). exists (before ++ [o]). split_and!.
    + by rewrite <- app_assoc.
    + done.
    + by eapply runs_app, runs_message.
    + by rewrite ended_app, He, fmap_app.
    + by apply Forall2_app; [|constructor].
  - intros rs evs polled (before & <- & -> & Hr & He & Hf). by rewrite app_nil_r.
Qed.

(** ** Calls one after the other *)

(** The results of the calls of a message, all of them unless the run was aborted. *)
Definition answered (calls : list ToolCall) (os : list AgentToolCallOutcome) : Prop :=
  (oc_toolCall <$> os) `prefix_of` calls /\ ((forall w, h_aborted h w = false) -> oc_toolCall <$> os = calls) /\
  (calls <> [] -> os <> []).

Lemma answered_cons c calls o os : answered calls os -> oc_toolCall o = c -> answered (c :: calls) (o :: os).
Proof.
  intros (H1 & H2 & _) Ho. split_and!; cbn; [|intros Hn; by rewrite Ho, H2|done]. rewrite Ho. by apply prefix_cons.
Qed.

Lemma answered_stop c calls o : (exists w, h_aborted h w = true) -> oc_toolCall o = c -> answered (c :: calls) [o].
Proof.
  intros [w Hw] Ho. split_and!; cbn; [|intros Hn; by rewrite Hn in Hw|done]. rewrite Ho. apply prefix_cons, prefix_nil.
Qed.

Lemma one_call_runs c o evs : updates c evs -> oc_toolCall o = c -> forall X,
  runs (InTurn, X) (tool_execution_start c :: evs ++ [tool_execution_end (oc_toolCall o) (oc_result o) (oc_isError o) (oc_durationMs o)]) (InTurn, X).
Proof.
  intros Hu <- X. eapply runs_cons; [constructor|]. eapply runs_app; [eapply updates_run; [done|multiset_solver]|]. apply runs_one. constructor.
Qed.

Lemma sequential_spec context m calls : spec (sequential_calls h context m calls) (fun l evs polled =>
  polled = [] /\ runs (InTurn, ∅) evs (InTurn, ∅) /\ ended_messages evs = MToolResult <$> l.*2 /\
  answered calls l.*1 /\ Forall2 result_of l.*1 l.*2).
Proof.
  induction calls as [|c calls IH]; cbn [sequential_calls].
  { apply spec_ret. split_and!; [done|apply runs_nil|done| |constructor]. by split_and!. }
  apply spec_after_emit. eapply spec_bind; [apply run_call_spec|]. intros o evs polled (Hu & -> & Ho).
  apply spec_after_emit. eapply spec_bind; [apply answer_spec|]. intros r evs1 polled1 (-> & -> & Hr).
  assert (Hone : forall rest, runs (InTurn, ∅) rest (InTurn, ∅) -> runs (InTurn, ∅) (tool_execution_start c :: evs ++
    tool_execution_end (oc_toolCall o) (oc_result o) (oc_isError o) (oc_durationMs o) :: [message_start (MToolResult r); message_end (MToolResult r)] ++ rest) (InTurn, ∅)).
  { intros rest Hrest. rewrite cons_middle, app_comm_cons, (app_assoc (tool_execution_start c :: evs)). eapply runs_app; [by apply (one_call_runs c o evs)|].
    by eapply runs_app; [apply runs_message|]. }
  assert (Hend : forall rest, ended_messages (tool_execution_start c :: evs ++
    tool_execution_end (oc_toolCall o) (oc_result o) (oc_isError o) (oc_durationMs o) :: [message_start (MToolResult r); message_end (MToolResult r)] ++ rest) =
    MToolResult r :: ended_messages rest).
  { intros rest. cbn. rewrite ended_app, (updates_ended _ _ Hu). done. }
  eapply spec_step; [apply spec_aborted|]. intros [] Hw.
  - apply spec_ret. split_and!; [done|by apply Hone, runs_nil|apply Hend|by apply answered_stop; [apply Hw|]|by apply Forall2_cons].
  - eapply spec_bind; [exact IH|]. intros l evs2 polled2 (-> & H1 & H2 & H3 & H4). apply spec_ret. rewrite !app_nil_r.
    split_and!; [done|by apply Hone|by rewrite Hend, H2|by apply answered_cons|by constructor].
Qed.

(** What a batch of calls emits; its messages are those of [os]. *)
Definition batch_of (calls : list ToolCall) (b : ExecutedToolCallBatch) (evs : list AgentEvent) (polled : list AgentMessage) : Prop :=
  polled = [] /\ runs (InTurn, ∅) evs (InTurn, ∅) /\ ended_messages evs = MToolResult <$> eb_messages b /\
  exists os, answered calls os /\ Forall2 result_of os (eb_messages b).

Lemma executeSequential_spec context m calls : spec (executeToolCallsSequential h context m calls) (batch_of calls).
Proof.
  eapply spec_bind; [apply sequential_spec|]. intros l evs polled (-> & H1 & H2 & H3 & H4). apply spec_ret. rewrite !app_nil_r.
  split_and!; [done..|]. by exists l.*1.
Qed.

(** A truncated message: nothing runs. *)
Lemma truncated_spec calls : spec (failToolCallsFromTruncatedMessage h calls) (fun b evs polled =>
  batch_of calls b evs polled /\ eb_terminate b = false /\ length (eb_messages b) = length calls /\ Forall (fun r => tr_isError r = true) (eb_messages b)).
Proof.
  set (out c := immediate_outcome c (createErrorToolResult (truncated_message (tc_name c))) true).
  eapply spec_bind; [apply (spec_for_each _ _ (fun rs evs polled rest => exists before, before ++ rest = calls /\
    polled = [] /\ runs (InTurn, ∅) evs (InTurn, ∅) /\ ended_messages evs = MToolResult <$> rs /\ Forall2 result_of (out <$> before) rs))|].
  - exists []. split_and!; [done..|apply runs_nil|done|constructor].
  - intros rs evs polled c rest (before & <- & -> & H1 & H2 & H3). apply spec_after_emit, spec_after_emit.
    eapply spec_weaken; [apply (answer_spec (out c))|]. intros r evs' polled' (-> & -> & Hr). exists (before ++ [c]). split_and!.
    + by rewrite <- app_assoc.
    + done.
    + eapply runs_app; [exact H1|]. eapply (runs_app _ _ _ [_; _]); [|apply runs_message].
      by apply (one_call_runs c (out c) []); [apply Forall_nil|].
    + rewrite ended_app, H2, fmap_app. done.
    + rewrite fmap_app. by apply Forall2_app; [|apply Forall2_cons].
  - intros rs evs polled (before & <- & -> & H1 & H2 & H3). apply spec_ret. rewrite !app_nil_r. split_and!; [split_and!; [done..|]| | |].
    + exists (out <$> before). split; [|done].
      assert (Hout : oc_toolCall <$> (out <$> before) = before) by (rewrite <- list_fmap_compose; apply list_fmap_id).
      split_and!; [by rewrite Hout|by rewrite Hout|]. by destruct before.
    + done.
    + apply Forall2_length in H3. by rewrite length_fmap in H3.
    + cbn. apply Forall_lookup. intros i r Hi. destruct (Forall2_lookup_r _ _ _ _ _ H3 Hi) as (o & Ho & (_ & _ & He & _)).
      rewrite He. rewrite list_lookup_fmap in Ho. destruct (before !! i); [|done]. by injection Ho as <-.
Qed.

(** ** Concurrent calls *)

Definition entry_call (e : FinalizedToolCallEntry) : ToolCall := match e with EDone o => oc_toolCall o | EThunk c _ _ => c end.

Definition entry_open (e : FinalizedToolCallEntry) : gmultiset string := match e with EDone _ => ∅ | EThunk c _ _ => {[+ tc_id c +]} end.

Definition stage_call (s : Stage) : ToolCall :=
  match s with Running c _ _ _ => c | Settled c _ _ => c | Finalized o => oc_toolCall o | Done o => oc_toolCall o end.

Definition stage_open (s : Stage) : gmultiset string := match s with Done _ => ∅ | _ => {[+ tc_id (stage_call s) +]} end.

(** The calls that run. *)
Definition open_entries (es : list FinalizedToolCallEntry) : gmultiset string := ⋃+ (entry_open <$> es).
Definition open_stages (ss : list Stage) : gmultiset string := ⋃+ (stage_open <$> ss).

Lemma open_entries_cons e es : open_entries (e :: es) = entry_open e ⊎ open_entries es.
Proof. done. Qed.

Lemma open_stages_app ss ss' : open_stages (ss ++ ss') = open_stages ss ⊎ open_stages ss'.
Proof.
  induction ss as [|s ss IH]; [symmetry; apply (left_id_L ∅ _)|]. change (stage_open s ⊎ open_stages (ss ++ ss') = stage_open s ⊎ open_stages ss ⊎ open_stages ss').
  by rewrite IH, (assoc_L _).
Qed.

Lemma open_stages_cons s ss : open_stages (s :: ss) = stage_open s ⊎ open_stages ss.
Proof. done. Qed.

(** From one set of running calls to another, whatever else runs. *)
Definition moves_calls (X Y : gmultiset string) (evs : list AgentEvent) (polled : list AgentMessage) : Prop :=
  polled = [] /\ ended_messages evs = [] /\ forall Z, runs (InTurn, Z ⊎ X) evs (InTurn, Z ⊎ Y).

Lemma moves_none X : moves_calls X X [] [].
Proof. split_and!; [done..|]. intros Z. apply runs_nil. Qed.

Lemma moves_app X Y Z evs evs' polled polled' :
  moves_calls X Y evs polled -> moves_calls Y Z evs' polled' -> moves_calls X Z (evs ++ evs') (polled ++ polled').
Proof.
  intros (-> & H1 & H2) (-> & H3 & H4). split_and!; [done|by rewrite ended_app, H1, H3|]. intros U. by eapply runs_app.
Qed.

Lemma moves_frame F X Y evs polled : moves_calls X Y evs polled -> moves_calls (F ⊎ X) (F ⊎ Y) evs polled.
Proof. intros (H1 & H2 & H3). split_and!; [done..|]. intros Z. rewrite !(assoc _). apply H3. Qed.

Lemma moves_updates c evs : updates c evs -> moves_calls {[+ tc_id c +]} {[+ tc_id c +]} evs [].
Proof.
  intros Hu. split_and!; [done|by eapply updates_ended|]. intros Z. eapply updates_run; [done|multiset_solver].
Qed.

Lemma moves_start c : moves_calls ∅ {[+ tc_id c +]} [tool_execution_start c] [].
Proof. split_and!; [done..|]. intros Z. rewrite (right_id_L ∅ _). apply runs_one. constructor. Qed.

Lemma moves_end o : moves_calls {[+ tc_id (oc_toolCall o) +]} ∅
  [tool_execution_end (oc_toolCall o) (oc_result o) (oc_isError o) (oc_durationMs o)] [].
Proof. split_and!; [done..|]. intros Z. rewrite (right_id_L ∅ _). apply runs_one. constructor. Qed.

Lemma moves_events X Y Z e evs : moves_calls X Y [e] [] -> moves_calls Y Z evs [] -> moves_calls X Z (e :: evs) [].
Proof. intros H1 H2. apply (moves_app _ _ _ _ _ _ _ H1 H2). Qed.

Lemma prepare_calls_spec context m calls : spec (prepare_calls h context m calls) (fun es evs polled =>
  moves_calls ∅ (open_entries es) evs polled /\ (entry_call <$> es) `prefix_of` calls /\
  ((forall w, h_aborted h w = false) -> entry_call <$> es = calls) /\ (calls <> [] -> es <> [])).
Proof.
  induction calls as [|c calls IH]; cbn [prepare_calls].
  { apply spec_ret. split_and!; [apply moves_none|done..]. }
  apply spec_after_emit. eapply spec_bind; [apply prepare_spec|]. intros preparation evs polled [-> ->].
  eapply (spec_bind _ _ (fun e evs polled => moves_calls {[+ tc_id c +]} (entry_open e) evs polled /\ entry_call e = c)).
  { destruct preparation as [tool args|result isError].
    - apply spec_ret. split; [apply moves_none|done].
    - apply spec_after_emit. apply spec_ret. split; [|done]. apply (moves_end (immediate_outcome c result isError)). }
  intros e evs polled [He Hc]. eapply spec_step; [apply spec_aborted|]. intros [] Hw.
  - apply spec_ret. rewrite !app_nil_r. split_and!; [|cbn; rewrite Hc; apply prefix_cons, prefix_nil| |done].
    + destruct He as (-> & He). rewrite open_entries_cons. change (open_entries []) with (∅ : gmultiset string). rewrite (right_id_L ∅ _).
      eapply moves_events; [apply moves_start|]. by split.
    + intros Hn. destruct (Hw eq_refl) as [w Hw']. by rewrite Hn in Hw'.
  - eapply spec_bind; [exact IH|]. intros es evs1 polled1 (H1 & H2 & H3 & H4). apply spec_ret. rewrite !app_nil_r.
    split_and!; [|cbn; rewrite Hc; by apply prefix_cons|intros Hn; cbn; by rewrite Hc, H3|done].
    pose proof (moves_app ∅ {[+ tc_id c +]} (entry_open e) [tool_execution_start c] evs [] polled (moves_start c) He) as Hone.
    apply (moves_app _ _ _ _ _ _ _ Hone). apply (moves_frame (entry_open e)) in H1. by rewrite (right_id_L ∅ _) in H1.
Qed.

Lemma launch_spec e : spec (launch h e) (fun s evs polled =>
  moves_calls (entry_open e) (stage_open s) evs polled /\ stage_call s = entry_call e).
Proof.
  destruct e as [o|c tool args]; cbn [launch entry_open entry_call]; [by apply spec_ret; split; [apply moves_none|]|].
  eapply spec_step; [apply spec_aborted|]. intros [] _.
  - apply spec_after_emit, spec_ret. split; [|done]. apply (moves_end (immediate_outcome c (createErrorToolResult "Operation aborted") true)).
  - apply spec_after_call. intros [early later]. eapply spec_bind; [apply emit_updates_spec|]. intros _ evs polled [Hu ->].
    apply spec_ret. rewrite app_nil_r. split; [by apply moves_updates|done].
Qed.

Lemma launches_spec es : spec (for_each (launch h) es) (fun ss evs polled =>
  moves_calls (open_entries es) (open_stages ss) evs polled /\ stage_call <$> ss = entry_call <$> es).
Proof.
  eapply spec_weaken; [apply (spec_for_each _ _ (fun ss evs polled rest =>
    moves_calls (open_entries es) (open_stages ss ⊎ open_entries rest) evs polled /\ (stage_call <$> ss) ++ (entry_call <$> rest) = entry_call <$> es))|].
  - split; [|done]. change (open_stages []) with (∅ : gmultiset string). rewrite (left_id_L ∅ _). apply moves_none.
  - intros ss evs polled e rest [H1 H2]. eapply spec_weaken; [apply launch_spec|]. intros s evs' polled' [H3 H4]. split.
    + eapply moves_app; [exact H1|]. apply (moves_frame (open_stages ss ⊎ open_entries rest)) in H3.
      rewrite open_entries_cons, open_stages_app. replace (open_stages [s]) with (stage_open s) by (cbn; multiset_solver).
      replace (open_stages ss ⊎ (entry_open e ⊎ open_entries rest)) with (open_stages ss ⊎ open_entries rest ⊎ entry_open e) by multiset_solver.
      by replace (open_stages ss ⊎ stage_open s ⊎ open_entries rest) with (open_stages ss ⊎ open_entries rest ⊎ stage_open s) by multiset_solver.
    + rewrite fmap_app. cbn. by rewrite <- app_assoc, H4.
  - intros ss evs polled [H1 H2]. change (open_entries []) with (∅ : gmultiset string) in H1. rewrite (right_id_L ∅ _) in H1.
    by rewrite app_nil_r in H2.
Qed.

Lemma resume_spec context m s : spec (resume h context m s) (fun s' evs polled =>
  moves_calls (stage_open s) (stage_open s') evs polled /\ stage_call s' = stage_call s /\ stage_work s' = pred (stage_work s)).
Proof.
  destruct s as [c tool args [|partial later]|c args executed|o|o]; cbn [resume].
  - apply spec_after_call. intros [r d]. apply spec_ret. split_and!; [apply moves_none|done..].
  - apply spec_after_emit, spec_ret. split_and!; [|done|by cbn; lia]. apply moves_updates, Forall_singleton. by eexists.
  - eapply spec_bind; [apply finalize_spec|]. intros o evs polled (-> & -> & <-). apply spec_ret. split_and!; [apply moves_none|done..].
  - apply spec_after_emit, spec_ret. split_and!; [apply moves_end|done..].
  - apply spec_ret. split_and!; [apply moves_none|done..].
Qed.

Definition is_done (s : Stage) : bool := match s with Done _ => true | _ => false end.

Lemma unfinished_elem ss i : i ∈ unfinished ss -> exists s, ss !! i = Some s /\ is_done s = false.
Proof.
  unfold unfinished. intros ([j s] & Hj & Hs)%list_elem_of_omap. apply list_elem_of_lookup in Hj as [k Hk].
  rewrite list_lookup_imap in Hk. destruct (ss !! k) as [s'|] eqn:E; [|done]. injection Hk as -> ->. exists s.
  destruct s; try done; injection Hs as <-; done.
Qed.

Lemma unfinished_nil ss : unfinished ss = [] -> Forall (fun s => is_done s = true) ss.
Proof.
  intros H. apply Forall_lookup. intros i s Hi. destruct (is_done s) eqn:Hd; [done|]. exfalso.
  assert (Hin : i ∈ unfinished ss); [|rewrite H in Hin; by apply elem_of_nil in Hin].
  apply list_elem_of_omap. exists (i, s). split; [|by destruct s]. apply list_elem_of_lookup. exists i. by rewrite list_lookup_imap, Hi.
Qed.

Lemma done_open ss : Forall (fun s => is_done s = true) ss -> open_stages ss = ∅.
Proof.
  induction 1 as [|s ss Hs H IH]; [done|]. rewrite open_stages_cons, IH. destruct s; try done.
Qed.

Lemma work_app ss ss' : sum_list_with stage_work (ss ++ ss') = sum_list_with stage_work ss + sum_list_with stage_work ss'.
Proof. apply sum_list_with_app. Qed.

Lemma not_done_work s : is_done s = false -> 0 < stage_work s.
Proof. destruct s; cbn; [lia|lia|lia|done]. Qed.

(** Whatever the order, all calls end. *)
Lemma run_together_spec context m : forall fuel ss, sum_list_with stage_work ss <= fuel ->
  spec (run_together h fuel context m ss) (fun ss' evs polled =>
    moves_calls (open_stages ss) ∅ evs polled /\ stage_call <$> ss' = stage_call <$> ss /\ Forall (fun s => is_done s = true) ss').
Proof.
  assert (Hend : forall ss, Forall (fun s => is_done s = true) ss -> spec (mret ss) (fun ss' evs polled =>
    moves_calls (open_stages ss) ∅ evs polled /\ stage_call <$> ss' = stage_call <$> ss /\ Forall (fun s => is_done s = true) ss')).
  { intros ss Hd. apply spec_ret. split_and!; [|done..]. rewrite (done_open _ Hd). apply moves_none. }
  induction fuel as [|fuel IH]; intros ss Hw; cbn [run_together].
  { apply Hend, Forall_lookup. intros i s Hi. destruct (is_done s) eqn:Hd; [done|]. apply not_done_work in Hd.
    rewrite <- (take_drop_middle _ _ _ Hi), work_app in Hw. cbn in Hw. lia. }
  destruct (unfinished ss) as [|i others] eqn:Hu; [by apply Hend, unfinished_nil|].
  apply spec_after_call. intros k. set (j := nth _ _ _).
  destruct (unfinished_elem ss j) as (s & Hj & Hd).
  { rewrite Hu. apply list_elem_of_In, nth_In. cbn [length]. apply Nat.mod_upper_bound. lia. }
  rewrite Hj. eapply spec_bind; [apply resume_spec|]. intros s' evs polled (H1 & H2 & H3).
  apply not_done_work in Hd. pose proof (lookup_lt_Some _ _ _ Hj) as Hlt.
  assert (Hins : <[j:=s']> ss = take j ss ++ s' :: drop (S j) ss).
  { rewrite <- (take_drop_middle _ _ _ Hj) at 1. rewrite insert_app_r_alt by (rewrite length_take; lia).
    by rewrite length_take, Nat.min_l, Nat.sub_diag by lia. }
  pose proof (take_drop_middle _ _ _ Hj) as Hss. eapply spec_weaken; [apply IH|].
  - rewrite Hins, work_app. rewrite <- Hss, work_app in Hw. cbn in *. lia.
  - intros ss' evs' polled' (H4 & H5 & H6). split_and!; [|rewrite H5, list_fmap_insert; apply list_insert_id; by rewrite list_lookup_fmap, Hj, H2|done].
    eapply moves_app; [|exact H4]. rewrite Hins. rewrite <- Hss at 1. rewrite !open_stages_app, !open_stages_cons.
    apply (moves_frame (open_stages (take j ss) ⊎ open_stages (drop (S j) ss))) in H1.
    replace (open_stages (take j ss) ⊎ (stage_open s ⊎ open_stages (drop (S j) ss))) with (open_stages (take j ss) ⊎ open_stages (drop (S j) ss) ⊎ stage_open s) by multiset_solver.
    by replace (open_stages (take j ss) ⊎ (stage_open s' ⊎ open_stages (drop (S j) ss))) with (open_stages (take j ss) ⊎ open_stages (drop (S j) ss) ⊎ stage_open s') by multiset_solver.
Qed.

Lemma done_outcomes ss : Forall (fun s => is_done s = true) ss -> oc_toolCall <$> omap outcome_of ss = stage_call <$> ss.
Proof. induction 1 as [|s ss Hs H IH]; [done|]. destruct s; try done. cbn. by rewrite IH. Qed.

Lemma executeParallel_spec context m calls : spec (executeToolCallsParallel h context m calls) (batch_of calls).
Proof.
  unfold executeToolCallsParallel. eapply spec_bind; [apply prepare_calls_spec|]. intros es evs1 polled1 (H1 & Hp & Ha & Hn).
  eapply spec_bind; [apply launches_spec|]. intros ss evs2 polled2 [H2 Hc].
  eapply spec_bind; [apply run_together_spec; lia|]. intros ss' evs3 polled3 (H3 & Hc' & Hd).
  eapply spec_bind; [apply answers_spec|]. intros rs evs4 polled4 (-> & H4 & He & Hf). apply spec_ret. rewrite !app_nil_r.
  pose proof (moves_app _ _ _ _ _ _ _ H1 (moves_app _ _ _ _ _ _ _ H2 H3)) as (Hpol & Hend & Hruns).
  split_and!; [by rewrite Hpol| | |].
  - rewrite !app_assoc. rewrite app_assoc in Hruns. specialize (Hruns ∅). rewrite !(left_id_L ∅ _) in Hruns. by eapply runs_app.
  - rewrite !app_assoc, ended_app. rewrite app_assoc in Hend. by rewrite Hend.
  - exists (omap outcome_of ss'). split; [|done].
    assert (Hoc : oc_toolCall <$> omap outcome_of ss' = entry_call <$> es) by (by rewrite done_outcomes, Hc', Hc).
    split_and!; [by rewrite Hoc|intros Hw; by rewrite Hoc, Ha|]. intros Hne Hnil. rewrite Hnil in Hoc. by destruct es; [apply Hn in Hne|].
Qed.

Lemma executeToolCalls_spec context m : spec (executeToolCalls h context m) (batch_of (tool_calls m)).
Proof. unfold executeToolCalls. destruct (_ || _); [apply executeSequential_spec|apply executeParallel_spec]. Qed.
End Facts.
