(* ===== verification/AgentRun.v ===== *)
(** A run of the agent loop (agent/src/agent-loop.ts): what the response, a turn and the whole
    run emit, deliver and return; why a run ends; when concurrent calls end like calls made
    one after the other. *)
From S2P Require Import Prelude JsString Json AgentTranscript AgentLoop AgentFacts.
From stdpp Require Import gmultiset.

(** ** Declared tools *)

Definition others (ms : list AgentMessage) : list AgentMessage := filter (fun m => system_message m = None) ms.

Lemma others_app ms ms' : others (ms ++ ms') = others ms ++ others ms'.
Proof. apply list.filter_app. Qed.

Lemma others_cons_system p ms : others (MSystem p :: ms) = others ms.
Proof. done. Qed.

Abbreviation systems := (system_messages system_message).

Lemma systems_app ms ms' : systems (ms ++ ms') = systems ms ++ systems ms'.
Proof. apply omap_app. Qed.

Lemma systems_none ms : Forall (fun m => system_message m = None) ms -> systems ms = [].
Proof. induction 1 as [|m ms Hm H IH]; [done|]. unfold system_messages in *. cbn. by rewrite Hm. Qed.

Lemma last_system_none ms : last_system ms = None -> Forall (fun m => system_message m = None) ms.
Proof.
  induction ms as [|m ms IH]; intros H; [constructor|]. cbn in H. destruct (last_system ms) as [[j q]|]; [done|].
  destruct m; [done|..]; (constructor; [done|by apply IH]).
Qed.

(** The last system message, and no other after it. *)
Lemma last_system_split ms i p : last_system ms = Some (i, p) ->
  exists before after, ms = before ++ MSystem p :: after /\ length before = i /\ systems after = [].
Proof.
  revert i. induction ms as [|m ms IH]; intros i H; [done|]. cbn in H. destruct (last_system ms) as [[j q]|] eqn:Hl.
  - injection H as <- ->. destruct (IH j eq_refl) as (before & after & -> & <- & Ha). by exists (m :: before), after.
  - destruct m; try done. injection H as <- ->. exists [], ms. split_and!; [done..|]. by apply systems_none, last_system_none.
Qed.

Lemma insert_at_length {A} (before after : list A) x y : <[length before := y]> (before ++ x :: after) = before ++ y :: after.
Proof. rewrite list.insert_app_r_alt by lia. by rewrite Nat.sub_diag. Qed.

(** Only system messages are touched. *)
Lemma declare_others context ms now : others (declareToolChanges context ms now) = others ms.
Proof.
  unfold declareToolChanges. destruct (last_system ms) as [[i p]|] eqn:Hl.
  - apply last_system_split in Hl as (before & after & -> & <- & _). destruct (_ && _); [done|].
    by rewrite !insert_at_length, !others_app, !others_cons_system.
  - destruct (no_change _); [done|]. set (n := match list_find _ _ with Some _ => _ | None => _ end).
    by rewrite others_app, others_cons_system, <- others_app, take_drop.
Qed.

Lemma systems_place ms before p after : systems after = [] -> systems (ms ++ before ++ MSystem p :: after) = systems (ms ++ before) ++ [p].
Proof. intros Ha. rewrite app_assoc, systems_app. change (systems (MSystem p :: after)) with (p :: systems after). by rewrite Ha. Qed.

Lemma no_change_inv ch : no_change ch = true -> ch_toolsAdded ch = [] /\ ch_toolsRemoved ch = [].
Proof. unfold no_change. intros [H1 H2]%andb_true_iff. by apply bool_decide_eq_true in H1, H2. Qed.

Lemma patch_nothing tools m : sm_toolsAdded m = [] -> sm_toolsRemoved m = [] -> patch_tools tools m = tools.
Proof. unfold patch_tools. by intros -> ->. Qed.

(** The tools of the transcript with the delivered messages are the executable ones. *)
Lemma declared_get context pending now name : NoDup (at_name <$> cx_tools context) ->
  obj_get name (replay_tools (systems (cx_messages context ++ declareToolChanges context pending now))) =
  tool_named name (toToolDeclaration <$> cx_tools context).
Proof.
  intros Hd. assert (Hd' : NoDup (tl_name <$> (toToolDeclaration <$> cx_tools context))) by by rewrite <- list_fmap_compose.
  unfold declareToolChanges. destruct (last_system pending) as [[i p]|] eqn:Hl.
  - apply last_system_split in Hl as (before & after & -> & <- & Ha). rewrite insert_at_length.
    assert (Hb : getCurrentTools system_message (cx_messages context ++ before ++ MSystem (withToolChanges p NO_CHANGES) :: after) =
      (replay_tools (systems (cx_messages context ++ before))).*2).
    { unfold getCurrentTools. by rewrite systems_place, replay_tools_snoc, patch_nothing. }
    rewrite Hb. set (T := replay_tools (systems (cx_messages context ++ before))). assert (HT : tools_ok T) by apply replay_tools_ok.
    destruct (no_change _ && _) eqn:Hn.
    + apply andb_true_iff in Hn as [[Hn1 Hn2]%no_change_inv [Hn3 Hn4]%no_change_inv].
      rewrite systems_place, replay_tools_snoc, patch_nothing by done. by apply no_changes.
    + rewrite insert_at_length, systems_place, replay_tools_snoc by done. by apply changes_apply.
  - pose proof (last_system_none _ Hl) as Hall. pose proof (systems_none _ Hall) as Hs.
    assert (Hb : systems (cx_messages context ++ pending) = systems (cx_messages context)) by (by rewrite systems_app, Hs, app_nil_r).
    unfold getCurrentTools. rewrite Hb. set (T := replay_tools (systems (cx_messages context))). assert (HT : tools_ok T) by apply replay_tools_ok.
    destruct (no_change _) eqn:Hn.
    + apply no_change_inv in Hn as [Hn1 Hn2]. rewrite Hb. by apply no_changes.
    + set (n := match list_find _ _ with Some _ => _ | None => _ end).
      rewrite systems_place, replay_tools_snoc by by apply systems_none, Forall_drop.
      rewrite systems_app, (systems_none (take n pending)), app_nil_r by by apply Forall_take. by apply changes_apply.
Qed.

(** ** The response *)

(** A response starts at most once. *)
Fixpoint starts_once (added : bool) (events : list AssistantMessageEvent) : bool :=
  match events with
  | [] | stream_done :: _ => true
  | stream_start _ :: events => negb added && starts_once true events
  | stream_update _ :: events => starts_once added events
  end.

(** The messages before the partial one. *)
Definition settled_messages (added : bool) (context : AgentContext) : list AgentMessage :=
  if added then removelast (cx_messages context) else cx_messages context.

Definition streaming (added : bool) : protocol := (if added then InMessage None else InTurn, ∅).

Section Run.
Context {W : Type} (h : Hooks (W := W)).

Lemma stream_events_spec events : forall added context, spec (stream_events h events added context) (fun x evs polled =>
  polled = [] /\ ended_messages evs = [] /\ runs (streaming added) evs (streaming x.1) /\ cx_tools x.2 = cx_tools context /\
  (starts_once added events = true -> settled_messages x.1 x.2 = settled_messages added context)).
Proof.
  induction events as [|[partial|partial|] events IH]; intros added context; cbn [stream_events].
  - apply spec_ret. split_and!; [done..|apply runs_nil|done|done].
  - apply spec_after_emit. eapply spec_weaken; [apply IH|]. intros x evs polled (-> & He & Hr & Ht & Hs).
    split_and!; [done|done| |done|].
    + eapply runs_cons; [|exact Hr]. destruct added; [apply on_message_restart|apply (on_message_start (MAssistant partial))].
    + cbn. intros [Ha Ho]%andb_true_iff. destruct added; [done|]. rewrite (Hs Ho). cbn. apply removelast_last.
  - destruct added.
    + apply spec_after_emit. eapply spec_weaken; [apply IH|]. intros x evs polled (-> & He & Hr & Ht & Hs).
      split_and!; [done|done| |done|].
      * eapply runs_cons; [|exact Hr]. apply on_message_update.
      * cbn. intros Ho. rewrite (Hs Ho). cbn. apply removelast_last.
    + eapply spec_weaken; [apply IH|]. done.
  - apply spec_ret. split_and!; [done..|apply runs_nil|done|done].
Qed.

(** The responses of the model start at most once. *)
Definition well_streamed : Prop := forall model reasoning ms w, starts_once false (h_request h model reasoning ms w).1 = true.

Lemma stream_spec context model reasoning : spec (streamAssistantResponse h context model reasoning) (fun x evs polled =>
  polled = [] /\ runs (InTurn, ∅) evs (InTurn, ∅) /\ ended_messages evs = [MAssistant x.1] /\ cx_tools x.2 = cx_tools context /\
  (well_streamed -> cx_messages x.2 = cx_messages context ++ [MAssistant x.1])).
Proof.
  unfold streamAssistantResponse. eapply (spec_step _ _ (fun events => well_streamed -> starts_once false events = true)).
  { apply spec_called. intros w Hs. apply Hs. }
  intros events Hs. eapply spec_bind; [apply (stream_events_spec events false context)|].
  intros [added context'] evs polled (-> & He & Hr & Ht & Hc). cbn [fst snd] in *. apply spec_after_call. intros result.
  set (m := with_thinkingLevel reasoning result). destruct added; cbn.
  - apply (spec_after_emit h). apply spec_ret. rewrite ended_app, He. split_and!; [done| |done|done|].
    + eapply runs_app; [exact Hr|]. apply runs_one. apply (on_message_end (MAssistant m)).
    + intros Hw. specialize (Hc (Hs Hw)). cbn in *. by rewrite Hc.
  - apply (spec_after_emit h), (spec_after_emit h), spec_ret. rewrite ended_app, He. split_and!; [done| |done|done|].
    + eapply runs_app; [exact Hr|]. apply runs_message.
    + intros Hw. specialize (Hc (Hs Hw)). cbn in *. by rewrite Hc.
Qed.

(** ** A turn *)

(** The messages of a turn: those delivered before the request, the response, the results. *)
Record Block : Type := { bk_delivered : list AgentMessage; bk_message : AssistantMessage; bk_results : list ToolResultMessage }.

Definition block_messages (b : Block) : list AgentMessage :=
  bk_delivered b ++ MAssistant (bk_message b) :: (MToolResult <$> bk_results b).

(** The results answer the calls of the message, in their order; all of them unless the run
    was aborted; a truncated message has only errors; a failed one has none. *)
Definition answers_calls (m : AssistantMessage) (rs : list ToolResultMessage) : Prop :=
  (exists os, answered h (tool_calls m) os /\ Forall2 result_of os rs) /\
  (am_stopReason m = stop_length -> length rs = length (tool_calls m) /\ Forall (fun r => tr_isError r = true) rs).

Definition block_ok (b : Block) : Prop :=
  if is_failed (bk_message b) then bk_results b = [] else answers_calls (bk_message b) (bk_results b).

(** The host's preparation leaves the context alone; it adds no messages. *)
Definition keeps_context : Prop :=
  (forall t w u, (h_prepareNextTurn h t w).1 = Some u -> up_context u = None) /\
  (forall c model level w u, (h_prepareRequest h c model level w).1 = Some u -> up_context u = None).

Definition prepares_nothing : Prop := forall t w u, (h_prepareNextTurn h t w).1 = Some u -> up_messages u = [].

Definition turn_phase (r : Run) : phase := match rn_lastCompletedTurn r with Some _ => Between | None => InTurn end.

Lemma run_tools_spec context m : spec (run_tools h context m) (fun x evs polled =>
  polled = [] /\ runs (InTurn, ∅) evs (InTurn, ∅) /\ ended_messages evs = MToolResult <$> x.1 /\ answers_calls m x.1 /\
  (tool_calls m = [] -> x.2 = false)).
Proof.
  unfold run_tools. destruct (tool_calls m) as [|c calls] eqn:Hm.
  { apply spec_ret. split_and!; [done|apply runs_nil|done| |done]. unfold answers_calls. rewrite Hm. split; [|done].
    exists []. split; [by split_and!|constructor]. }
  eapply (spec_bind _ _ (fun b evs polled => batch_of h (tool_calls m) b evs polled /\
    (am_stopReason m = stop_length -> length (eb_messages b) = length (tool_calls m) /\ Forall (fun r => tr_isError r = true) (eb_messages b)))).
  - destruct (am_stopReason m); try (eapply spec_weaken; [apply executeToolCalls_spec|]; done).
    rewrite Hm. eapply spec_weaken; [apply truncated_spec|]. by intros b evs polled (? & ? & ? & ?).
  - intros b evs polled ((-> & H1 & H2 & H3) & H4). apply spec_ret. rewrite !app_nil_r. done.
Qed.

Lemma begin_turn_spec r : spec (begin_turn h r) (fun x evs polled =>
  runs (turn_phase r, ∅) evs (InTurn, ∅) /\ ended_messages evs = [] /\ rn_newMessages x.1 = rn_newMessages r /\
  rn_pendingMessages x.1 = rn_pendingMessages r ++ polled /\ (prepares_nothing -> x.2 = []) /\
  (keeps_context -> rn_context x.1 = rn_context r)).
Proof.
  unfold begin_turn, turn_phase. destruct (rn_lastCompletedTurn r) as [t|].
  2: { apply spec_ret. split_and!; [apply runs_nil|done|done|by rewrite app_nil_r|done|done]. }
  eapply (spec_step _ _ (fun snapshot => (prepares_nothing -> forall u, snapshot = Some u -> up_messages u = []) /\
    (keeps_context -> forall u, snapshot = Some u -> up_context u = None))).
  { apply spec_called. intros w. split; [intros H u; apply H|intros [H _] u; apply H]. }
  intros snapshot [Hm Hc]. set (r1 := match snapshot with Some u => update_run u r | None => r end).
  assert (Hp : rn_pendingMessages r1 = rn_pendingMessages r) by by destruct snapshot.
  eapply (spec_bind _ _ (fun ms evs polled => evs = [] /\ ms = rn_pendingMessages r ++ polled)).
  { rewrite Hp. destruct (rn_pendingMessages r) as [|p ps].
    - eapply spec_weaken; [apply (spec_poll _ (fun _ => True)); done|]. by intros ms evs polled (-> & -> & _).
    - apply spec_ret. by rewrite app_nil_r. }
  intros pending evs polled [-> ->]. apply spec_after_emit, spec_ret. rewrite !app_nil_r. cbn.
  split_and!; [apply runs_one; constructor|done|by subst r1; destruct snapshot|done| |].
  - intros H. destruct snapshot; [|done]. by apply Hm.
  - intros H. destruct snapshot as [u|]; [|done]. cbn. by rewrite (Hc H u).
Qed.

Lemma deliver_spec prepared r : spec (deliver_pending h prepared r) (fun r' evs polled => exists ms,
  polled = [] /\ runs (InTurn, ∅) evs (InTurn, ∅) /\ ended_messages evs = ms /\
  others ms = others (prepared ++ rn_pendingMessages r) /\ r' = with_pending [] (deliver ms r)).
Proof.
  unfold deliver_pending. apply spec_after_call. intros now. eapply spec_bind; [apply emit_messages_spec|].
  intros _ evs polled (-> & Hr & He). apply spec_ret. rewrite !app_nil_r. eexists. split_and!; [done|done|exact He| |done].
  apply declare_others.
Qed.

Lemma prepare_request_spec r : spec (prepare_request h r) (fun r' evs polled => evs = [] /\ polled = [] /\
  (rn_newMessages r' = rn_newMessages r /\ rn_pendingMessages r' = rn_pendingMessages r) /\ (keeps_context -> rn_context r' = rn_context r)).
Proof.
  unfold prepare_request. eapply (spec_step _ _ (fun update => keeps_context -> forall u, update = Some u -> up_context u = None)).
  { apply spec_called. intros w [_ H] u. apply H. }
  intros [u|] Hu; apply spec_ret; split_and!; try done. intros H. cbn. by rewrite (Hu H u).
Qed.

(** The messages so far are those of the run, after what it started from. *)
Definition in_step (base : list AgentMessage) (r : Run) : Prop := cx_messages (rn_context r) = base ++ rn_newMessages r.

Record turn_result (r : Run) (r' : Run) (more : option bool) (evs : list AgentEvent) (polled : list AgentMessage) (b : Block) : Prop := {
  tn_block : block_ok b;
  tn_new : rn_newMessages r' = rn_newMessages r ++ block_messages b;
  tn_ended : ended_messages evs = block_messages b;
  tn_runs : runs (turn_phase r, ∅) evs (match more with None => Ended | Some _ => Between end, ∅);
  tn_last : turn_phase r' = Between;
  tn_over : more = None -> (exists before, evs = before ++ [agent_end (rn_newMessages r')]) /\ rn_pendingMessages r' = [];
  tn_failed : is_failed (bk_message b) = true -> more = None;
  tn_idle : more = Some false -> rn_pendingMessages r' = [];
  tn_queue : exists prepared qs, others (bk_delivered b) = prepared ++ others qs /\
    rn_pendingMessages r ++ polled = qs ++ rn_pendingMessages r' /\ (prepares_nothing -> prepared = []);
  tn_context base : well_streamed -> keeps_context -> in_step base r -> in_step base r';
}.

Lemma deliver_in_step base ms r : in_step base r -> in_step base (deliver ms r).
Proof. unfold in_step. cbn. intros ->. by rewrite app_assoc. Qed.

(** Up to the response. *)
Lemma ask_spec r : spec (ask h r)
  (fun x evs polled => exists ms prepared,
    runs (turn_phase r, ∅) evs (InTurn, ∅) /\ ended_messages evs = ms ++ [MAssistant x.2] /\
    rn_newMessages x.1 = rn_newMessages r ++ ms ++ [MAssistant x.2] /\ rn_pendingMessages x.1 = [] /\
    others ms = prepared ++ others (rn_pendingMessages r ++ polled) /\ (prepares_nothing -> prepared = []) /\
    (forall base, well_streamed -> keeps_context -> in_step base r -> in_step base x.1)).
Proof.
  eapply spec_bind; [apply begin_turn_spec|]. intros [r1 prepared] evs1 polled1 (H1 & H2 & H3 & H4 & H5 & H6). cbn [fst snd] in *.
  eapply spec_bind; [apply deliver_spec|]. intros r2 evs2 polled2 (ms & -> & H7 & H8 & H9 & ->).
  eapply spec_bind; [apply prepare_request_spec|]. intros r3 evs3 polled3 (-> & -> & (H10 & H11) & H12).
  eapply spec_bind; [apply stream_spec|]. intros [m context] evs4 polled4 (-> & H13 & H14 & _ & H15). cbn [fst snd] in *.
  apply spec_ret. exists ms, (others prepared). cbn. rewrite !app_nil_r, !ended_app, H2, H8, H14. cbn in H10, H11.
  split_and!; [|done| |done| | |].
  - eapply runs_app; [exact H1|]. by eapply runs_app.
  - by rewrite H10, H3, app_assoc.
  - by rewrite H9, others_app, H4.
  - intros Hn. by rewrite (H5 Hn).
  - intros base Hw Hk Hr. unfold in_step. cbn. rewrite (H15 Hw), (H12 Hk), H10. cbn. rewrite (H6 Hk), H3. unfold in_step in Hr. rewrite Hr.
    by rewrite !app_assoc.
Qed.

Lemma turn_spec r : spec (turn h r) (fun x evs polled => exists b, turn_result r x.1 x.2 evs polled b).
Proof.
  unfold turn. eapply spec_bind; [apply ask_spec|]. intros [r1 m] evs1 polled1 (ms & prepared & H1 & H2 & H3 & H4 & H5 & H6 & H7).
  cbn [fst snd] in *. destruct (is_failed m) eqn:Hf.
  - apply spec_after_call. intros _. apply spec_after_emit, spec_after_emit, spec_ret.
    exists {| bk_delivered := ms; bk_message := m; bk_results := [] |}. rewrite app_nil_r. split; cbn.
    + unfold block_ok. cbn. by rewrite Hf.
    + by rewrite H3.
    + rewrite ended_app, H2. by rewrite app_nil_r.
    + eapply runs_app; [exact H1|]. eapply runs_cons, runs_one; constructor.
    + done.
    + intros _. split; [|done]. exists (evs1 ++ [turn_end m []]). by rewrite <- app_assoc.
    + done.
    + done.
    + exists prepared, (rn_pendingMessages r ++ polled1). by rewrite H4, app_nil_r.
    + intros base Hw Hk Hr. by apply H7.
  - eapply spec_bind; [apply run_tools_spec|]. intros [results hasMore] evs2 polled2 (-> & H8 & H9 & H10 & _). cbn [fst snd] in *.
    set (r2 := deliver (MToolResult <$> results) r1). apply spec_after_call. intros decision. apply spec_after_emit.
    set (b := {| bk_delivered := ms; bk_message := m; bk_results := results |}).
    assert (Hnew : rn_newMessages r2 = rn_newMessages r ++ block_messages b).
    { unfold block_messages. cbn. by rewrite H3, (app_assoc (rn_newMessages r)), <- !app_assoc. }
    assert (Hb : block_ok b) by (unfold block_ok; cbn; by rewrite Hf).
    assert (He : forall rest, ended_messages rest = [] -> ended_messages (evs1 ++ evs2 ++ turn_end m results :: rest) = block_messages b).
    { intros rest Hrest. rewrite !ended_app, H2, H9. change (ended_messages (turn_end m results :: rest)) with (ended_messages rest).
      rewrite Hrest, app_nil_r, <- app_assoc. done. }
    assert (Hr : runs (turn_phase r, ∅) (evs1 ++ evs2 ++ [turn_end m results]) (Between, ∅)).
    { eapply runs_app; [exact H1|]. eapply runs_app; [exact H8|]. apply runs_one. constructor. }
    assert (Hc : forall base, well_streamed -> keeps_context -> in_step base r -> in_step base r2).
    { intros base Hw Hk Hbase. apply deliver_in_step. auto. }
    assert (Hgo : forall explicit, spec (pending ← poll (h_getSteeringMessages h);
        let again := (hasMore || negb (bool_decide (length pending = 0)))%bool in
        mret (with_explicit (if again then false else explicit) (with_pending pending (complete (completed m results r2) r2)), Some again))
      (fun x evs polled => exists b, turn_result r x.1 x.2 (evs1 ++ evs2 ++ turn_end m results :: evs) (polled1 ++ polled) b)).
    { intros explicit. eapply spec_bind; [apply (spec_poll _ (fun _ => True)); done|]. intros pending evs polled (-> & -> & _).
      apply spec_ret. rewrite !app_nil_r. exists b. split; cbn; try done.
      - by apply He.
      - by rewrite Hf.
      - intros Hn. destruct pending; [done|]. by rewrite orb_true_r in Hn.
      - exists prepared, (rn_pendingMessages r ++ polled1). by rewrite <- app_assoc. }
    destruct decision as [[]|]; [apply Hgo| |apply Hgo].
    apply spec_after_emit, spec_ret. rewrite app_nil_r. exists b. split; cbn; try done.
    + by apply He.
    + rewrite cons_middle, !app_assoc. eapply runs_app; [rewrite <- !app_assoc; exact Hr|]. apply runs_one. constructor.
    + intros _. split; [|by rewrite H4]. exists (evs1 ++ evs2 ++ [turn_end m results]). by rewrite <- !app_assoc.
    + exists prepared, (rn_pendingMessages r ++ polled1). by rewrite H4, !app_nil_r.
Qed.

(** ** The run *)

Definition all_messages (bs : list Block) : list AgentMessage := concat (block_messages <$> bs).
Definition all_delivered (bs : list Block) : list AgentMessage := concat (bk_delivered <$> bs).

(** A failed response ends the run. *)
Definition failed_last (bs : list Block) : Prop := forall i b, bs !! i = Some b -> is_failed (bk_message b) = true -> S i = length bs.

Record run_result (p : phase) (queue new : list AgentMessage) (ms : list AgentMessage) (evs : list AgentEvent)
    (bs : list Block) : Prop := {
  ru_blocks : Forall block_ok bs;
  ru_new : ms = new ++ all_messages bs;
  ru_ended : ended_messages evs = all_messages bs;
  ru_runs : runs (p, ∅) evs (Ended, ∅);
  ru_over : exists before, evs = before ++ [agent_end ms];
  ru_failed : failed_last bs;
  ru_queue : others queue `sublist_of` others (all_delivered bs);
  ru_all : prepares_nothing -> others (all_delivered bs) = others queue;
}.

Lemma failed_last_cons b bs : is_failed (bk_message b) = false -> failed_last bs -> failed_last (b :: bs).
Proof. intros Hb Hbs [|i] b' Hi Hf; cbn in *; [injection Hi as ->; congruence|]. by rewrite (Hbs i b' Hi Hf). Qed.

Lemma all_messages_cons b bs : all_messages (b :: bs) = block_messages b ++ all_messages bs.
Proof. done. Qed.

Lemma others_delivered_cons b bs : others (all_delivered (b :: bs)) = others (bk_delivered b) ++ others (all_delivered bs).
Proof. apply others_app. Qed.

(** The end of a run; a run of one turn; one turn more. *)
Lemma run_end new : run_result Between [] new new [agent_end new] [].
Proof.
  split; try done; [symmetry; apply app_nil_r|apply runs_one; constructor|by exists []].
Qed.

Lemma run_over r r' evs polled b : turn_result r r' None evs polled b ->
  run_result (turn_phase r) (rn_pendingMessages r ++ polled) (rn_newMessages r) (rn_newMessages r') evs [b].
Proof.
  intros []. destruct tn_over0 as [Hover Hp]; [done|]. destruct tn_queue0 as (prepared & qs & H1 & H2 & H3). rewrite Hp, app_nil_r in H2.
  split; rewrite ?all_messages_cons, ?others_delivered_cons, ?app_nil_r; try done.
  - by constructor.
  - by intros [|i] b' Hi Hf.
  - rewrite H1, H2. by apply sublist_inserts_l.
  - intros Hn. by rewrite H1, (H3 Hn), H2.
Qed.

Lemma run_more r r' r'' more evs polled b ms evs' polled' bs : turn_result r r' (Some more) evs polled b ->
  turn_phase r'' = turn_phase r' -> rn_newMessages r'' = rn_newMessages r' ->
  run_result (turn_phase r'') (rn_pendingMessages r' ++ polled') (rn_newMessages r'') ms evs' bs ->
  run_result (turn_phase r) (rn_pendingMessages r ++ polled ++ polled') (rn_newMessages r) ms (evs ++ evs') (b :: bs).
Proof.
  intros [] Hp Hn []. destruct tn_queue0 as (prepared & qs & H1 & H2 & H3). rewrite app_assoc, H2, <- app_assoc. split.
  - by constructor.
  - by rewrite ru_new0, Hn, tn_new0, all_messages_cons, app_assoc.
  - by rewrite ended_app, tn_ended0, ru_ended0, all_messages_cons.
  - eapply runs_app; [exact tn_runs0|]. by rewrite <- tn_last0, <- Hp.
  - destruct ru_over0 as [before ->]. exists (evs ++ before). by rewrite app_assoc.
  - apply failed_last_cons; [|done]. destruct (is_failed (bk_message b)); [by discriminate tn_failed0|done].
  - rewrite others_delivered_cons, H1, others_app, <- app_assoc. by apply sublist_inserts_l, sublist_app.
  - intros Hk. by rewrite others_delivered_cons, H1, (H3 Hk), (ru_all0 Hk), (others_app qs).
Qed.

Lemma runLoop_spec fuel : forall r, spec (runLoop h fuel r) (fun out evs polled => forall ms, out = Some ms -> exists b bs,
  run_result (turn_phase r) (rn_pendingMessages r ++ polled) (rn_newMessages r) ms evs (b :: bs)).
Proof.
  induction fuel as [|fuel IH]; intros r; cbn [runLoop]; [by apply spec_ret|].
  eapply spec_bind; [apply turn_spec|]. intros [r' more] evs polled [b Hb]. cbn [fst snd] in Hb. destruct more as [[]|].
  - eapply spec_weaken; [apply IH|]. intros out evs' polled' H ms Hout. destruct (H ms Hout) as (b' & bs & Hbs). exists b, (b' :: bs).
    by eapply run_more.
  - eapply spec_bind; [apply (spec_poll _ (fun _ => True)); done|]. intros queued evs1 polled1 (-> & -> & _).
    assert (Hp : rn_pendingMessages r' = []) by by eapply tn_idle.
    destruct queued as [|q queued]; [destruct (rn_explicitContinuation r')|].
    + eapply spec_weaken; [apply IH|]. intros out evs' polled' H ms Hout. destruct (H ms Hout) as (b' & bs & Hbs). exists b, (b' :: bs).
      eapply run_more; done.
    + apply spec_after_emit, spec_ret. intros ms Hms. injection Hms as <-. exists b, [].
      apply (run_more r r' r' _ evs polled b (rn_newMessages r') _ _ [] Hb); [done..|]. rewrite Hp, (tn_last _ _ _ _ _ _ Hb). apply run_end.
    + eapply spec_weaken; [apply IH|]. intros out evs' polled' H ms Hout. destruct (H ms Hout) as (b' & bs & Hbs). exists b, (b' :: bs).
      eapply run_more; [done|done|done|]. cbn in Hbs. by rewrite Hp.
  - apply spec_ret. intros ms Hms. injection Hms as <-. exists b, []. rewrite !app_nil_r. by apply run_over.
Qed.
End Run.

(** ** The end of a run *)

Section Ends.
Context {W : Type} (h : Hooks (W := W)) (mu : W -> nat).

Definition one_if (b : bool) : nat := if b then 1 else 0.

Definition some_messages (ms : list AgentMessage) : bool := match ms with [] => false | _ => true end.
Definition calls_tools (m : AssistantMessage) : bool := match tool_calls m with [] => false | _ => true end.
Definition continues (d : option AgentTurnDecision) : bool := match d with Some Continue => true | _ => false end.

(** The host never adds to the measure, and takes from it with each response that calls
    tools, each delivery of a queue and each decision to continue. *)
Record wanes : Prop := {
  wn_now w : mu (h_now h w).2 <= mu w;
  wn_emit e w : mu (h_emit h e w) <= mu w;
  wn_getSteeringMessages w : mu (h_getSteeringMessages h w).2 + one_if (some_messages (h_getSteeringMessages h w).1) <= mu w;
  wn_getFollowUpMessages w : mu (h_getFollowUpMessages h w).2 + one_if (some_messages (h_getFollowUpMessages h w).1) <= mu w;
  wn_prepareNextTurn t w : mu (h_prepareNextTurn h t w).2 <= mu w;
  wn_prepareRequest c model level w : mu (h_prepareRequest h c model level w).2 <= mu w;
  wn_finishTurn t w : mu (h_finishTurn h t w).2 + one_if (continues (h_finishTurn h t w).1) <= mu w;
  wn_request model level ms w : mu (h_request h model level ms w).2 <= mu w;
  wn_result w : mu (h_result h w).2 + one_if (calls_tools (h_result h w).1) <= mu w;
  wn_validate t c w : mu (h_validate h t c w).2 <= mu w;
  wn_beforeToolCall m c args context w : mu (h_beforeToolCall h m c args context w).2 <= mu w;
  wn_afterToolCall m c args r isError context w : mu (h_afterToolCall h m c args r isError context w).2 <= mu w;
  wn_execute t c args w : mu (h_execute h t c args w).2 <= mu w;
  wn_settle t c args w : mu (h_settle h t c args w).2 <= mu w;
  wn_pick w : mu (h_pick h w).2 <= mu w;
}.

Context (Hw : wanes).

(** What the action takes, at least. *)
Definition costs {A} (a : act A) (d : A -> nat) : Prop := forall s, mu (st_world (a s).2) + d (a s).1 <= mu (st_world s).
Abbreviation free a := (costs a (fun _ => 0)).

Lemma costs_ret {A} (x : A) d : d x = 0 -> costs (mret x) d.
Proof. intros H s. cbn. lia. Qed.

Lemma costs_bind {A B} (a : act A) (f : A -> act B) d e :
  costs a d -> (forall x, costs (f x) (fun y => e y - d x)) -> costs (a ≫= f) e.
Proof.
  intros Ha Hf s. specialize (Ha s). unfold mbind, act_bind. destruct (a s) as [x s1]. specialize (Hf x s1). cbn in *. lia.
Qed.

Lemma costs_free {A B} (a : act A) (f : A -> act B) e : free a -> (forall x, costs (f x) e) -> costs (a ≫= f) e.
Proof.
  intros Ha Hf. eapply costs_bind; [exact Ha|]. intros x s. specialize (Hf x s). cbn. lia.
Qed.

Lemma costs_call {A} (f : W -> A * W) d : (forall w, mu (f w).2 + d (f w).1 <= mu w) -> costs (call f) d.
Proof. intros H s. unfold call. specialize (H (st_world s)). destruct (f (st_world s)). done. Qed.

Lemma free_call {A} (f : W -> A * W) : (forall w, mu (f w).2 <= mu w) -> free (call f).
Proof. intros H. apply costs_call. intros w. specialize (H w). lia. Qed.

Lemma free_emit e : free (emit h e).
Proof. intros s. cbn. pose proof (wn_emit Hw e (st_world s)). lia. Qed.

Lemma free_aborted : free (aborted h).
Proof. intros s. cbn. lia. Qed.

Lemma costs_poll queue : (forall w, mu (queue w).2 + one_if (some_messages (queue w).1) <= mu w) ->
  costs (poll queue) (fun ms => one_if (some_messages ms)).
Proof. intros H s. unfold poll. specialize (H (st_world s)). destruct (queue (st_world s)). done. Qed.

Lemma free_each {A B} (f : A -> act B) xs : (forall x, free (f x)) -> free (for_each f xs).
Proof.
  intros Hf. induction xs as [|x xs IH]; cbn [for_each]; [by apply costs_ret|]. apply costs_free; [apply Hf|]. intros b.
  apply costs_free; [exact IH|]. intros bs. by apply costs_ret.
Qed.

(** An action that takes nothing for sure: every step of it. *)
Ltac free_step :=
  match goal with
  | |- costs (mret _) _ => by apply costs_ret
  | |- costs (_ ≫= _) _ => apply costs_free; [|intros ?]
  | |- costs (call _) _ => apply free_call; intros ?; apply Hw
  | |- costs (emit _ _) _ => apply free_emit
  | |- costs (aborted _) _ => apply free_aborted
  | |- costs (for_each _ _) _ => apply free_each; intros ?
  | |- costs (match ?x with _ => _ end) _ => destruct x
  | |- costs (let '(_, _) := ?x in _) _ => destruct x
  end.
Ltac free := repeat free_step.

Lemma free_prepare context m c : free (prepareToolCall h context m c).
Proof. unfold prepareToolCall. free. Qed.

Lemma free_answer o : free (answer h o).
Proof. unfold answer, createToolResultMessage, emit_message. free. Qed.

Lemma free_finalize context m c args executed : free (finalizeExecutedToolCall h context m c args executed).
Proof. unfold finalizeExecutedToolCall. free. Qed.

Lemma free_run_call context m c : free (run_call h context m c).
Proof.
  unfold run_call. apply costs_free; [apply free_prepare|]. intros [tool args|result isError]; [|free].
  apply costs_free; [unfold executePreparedToolCall; free|]. intros executed. apply free_finalize.
Qed.

Lemma free_sequential context m calls : free (sequential_calls h context m calls).
Proof.
  induction calls as [|c calls IH]; cbn [sequential_calls]; [free|]. free_step; [free|]. free_step; [apply free_run_call|].
  free_step; [apply free_emit|]. free_step; [apply free_answer|]. free_step; [free|]. free_step; [free|]. free_step; [exact IH|]. free.
Qed.

Lemma free_prepare_calls context m calls : free (prepare_calls h context m calls).
Proof.
  induction calls as [|c calls IH]; cbn [prepare_calls]; [free|]. free_step; [free|]. free_step; [apply free_prepare|].
  free_step; [unfold emitToolExecutionEnd; free|]. free_step; [free|]. free_step; [free|]. free_step; [exact IH|]. free.
Qed.

Lemma free_resume context m s : free (resume h context m s).
Proof. destruct s as [c tool args [|partial later]|c args executed|o|o]; cbn [resume]; unfold emitToolExecutionEnd; free. apply free_finalize. Qed.

Lemma free_run_together context m fuel : forall ss, free (run_together h fuel context m ss).
Proof.
  induction fuel as [|fuel IH]; intros ss; cbn [run_together]; [free|]. destruct (unfinished ss); [free|]. free_step; [free|].
  destruct (_ !! _); [|free]. free_step; [apply free_resume|]. apply IH.
Qed.

Lemma free_executeToolCalls context m : free (executeToolCalls h context m).
Proof.
  unfold executeToolCalls, executeToolCallsSequential, executeToolCallsParallel. destruct (_ || _).
  - free_step; [apply free_sequential|]. free.
  - free_step; [apply free_prepare_calls|]. free_step; [unfold launch, emitToolExecutionEnd; free|]. free_step; [apply free_run_together|].
    free_step; [free; apply free_answer|]. free.
Qed.

Lemma free_run_tools context m : free (run_tools h context m).
Proof.
  unfold run_tools. destruct (tool_calls m); [free|]. free_step; [|free].
  destruct (am_stopReason m); try apply free_executeToolCalls. unfold failToolCallsFromTruncatedMessage, emitToolExecutionEnd. free. apply free_answer.
Qed.

Lemma free_stream_events events : forall added context, free (stream_events h events added context).
Proof.
  induction events as [|[] events IH]; intros added context; cbn [stream_events]; [free| |destruct added|free]; free; try apply IH.
Qed.

Lemma stream_costs context model level :
  costs (streamAssistantResponse h context model level) (fun x => one_if (calls_tools x.1)).
Proof.
  unfold streamAssistantResponse. free_step; [free|]. free_step; [apply free_stream_events|]. destruct _ as [added context'].
  apply (costs_bind _ _ (fun result => one_if (calls_tools result))); [apply costs_call, (wn_result Hw)|]. intros result.
  destruct added; (apply costs_free; [free|]; intros _; apply costs_free; [free|]; intros _; apply costs_ret, Nat.sub_diag).
Qed.

Lemma begin_turn_free r : free (begin_turn h r).
Proof.
  unfold begin_turn. destruct (rn_lastCompletedTurn r); [|free]. free_step; [free|]. free_step; [|free].
  destruct (rn_pendingMessages _); [|free]. intros s. pose proof (costs_poll _ (wn_getSteeringMessages Hw) s). cbn beta in *. lia.
Qed.

Lemma ask_costs r : costs (ask h r) (fun x => one_if (calls_tools x.2)).
Proof.
  unfold ask. free_step; [apply begin_turn_free|]. destruct _ as [r1 prepared].
  free_step; [unfold deliver_pending, emit_message; free|]. free_step; [unfold prepare_request; free|].
  eapply costs_bind; [apply stream_costs|]. intros [m context]. apply costs_ret. cbn. lia.
Qed.

(** Another turn was paid for. *)
Definition turn_cost (x : Run * option bool) : nat :=
  match x.2 with Some true => 1 | Some false => one_if (rn_explicitContinuation x.1) | None => 0 end.

Lemma turn_costs r : costs (turn h r) turn_cost.
Proof.
  unfold turn. eapply costs_bind; [apply ask_costs|]. intros [r1 m]. cbn [snd]. destruct (is_failed m).
  { apply costs_free; [apply free_call; intros w; pose proof (wn_finishTurn Hw (completed m [] r1) w); lia|]. intros ?. apply costs_free; [free|]. intros ?. apply costs_free; [free|]. intros ?. by apply costs_ret. }
  assert (Htools : costs (run_tools h (rn_context r1) m) (fun x => one_if x.2 - one_if (calls_tools m))).
  { unfold calls_tools. destruct (tool_calls m) eqn:Hm.
    - unfold run_tools. rewrite Hm. by apply costs_ret.
    - intros s. pose proof (free_run_tools (rn_context r1) m s). destruct (run_tools _ _ _ s) as [[rs []] s']; cbn in *; lia. }
  eapply costs_bind; [exact Htools|]. intros [results hasMore]. cbn [snd].
  eapply costs_bind; [apply (costs_call _ (fun d => one_if (continues d))), (wn_finishTurn Hw)|]. intros decision.
  apply costs_free; [free|]. intros ?.
  assert (Hgo : forall explicit, explicit = continues decision -> costs (pending ← poll (h_getSteeringMessages h);
      let again := (hasMore || negb (bool_decide (length pending = 0)))%bool in
      mret (with_explicit (if again then false else explicit) (with_pending pending (complete (completed m results (deliver (MToolResult <$> results) r1)) (deliver (MToolResult <$> results) r1))), Some again))
    (fun x => turn_cost x - one_if (calls_tools m) - (one_if hasMore - one_if (calls_tools m)) - one_if (continues decision))).
  { intros explicit ->. eapply costs_bind; [apply costs_poll, (wn_getSteeringMessages Hw)|]. intros pending. apply costs_ret.
    unfold turn_cost. destruct hasMore, pending, (calls_tools m), decision as [[]|]; done. }
  destruct decision as [[]|]; [by apply Hgo| |by apply Hgo]. apply costs_free; [free|]. intros ?. by apply costs_ret.
Qed.

(** A run ends within as many turns as the measure pays for. *)
Lemma runLoop_ends fuel : forall r s, mu (st_world s) < fuel -> (runLoop h fuel r s).1 <> None.
Proof.
  induction fuel as [|fuel IH]; intros r s Hs; [lia|]. cbn [runLoop]. unfold mbind, act_bind.
  pose proof (turn_costs r s) as Ht. destruct (turn h r s) as [[r' [[]|]] s1]; unfold turn_cost in Ht; cbn in *.
  - apply IH. lia.
  - pose proof (costs_poll _ (wn_getFollowUpMessages Hw) s1) as Hp. destruct (poll _ s1) as [[|q queued] s2]; cbn in *.
    + destruct (rn_explicitContinuation r'); [|done]. cbn in *. apply IH. lia.
    + apply IH. lia.
  - done.
Qed.

Lemma free_messages ms : free (for_each (emit_message h) ms).
Proof. unfold emit_message. free. Qed.

Lemma free_poll queue : (forall w, mu (queue w).2 + one_if (some_messages (queue w).1) <= mu w) -> free (poll queue).
Proof. intros H s. pose proof (costs_poll queue H s). cbn beta in *. lia. Qed.

(** What holds after an action that takes nothing for sure. *)
Lemma after_free {A B} (a : act A) (f : A -> act B) (P : B -> Prop) s :
  free a -> (forall x s', mu (st_world s') <= mu (st_world s) -> P (f x s').1) -> P ((a ≫= f) s).1.
Proof.
  intros Ha Hf. specialize (Ha s). unfold mbind, act_bind. destruct (a s) as [x s']. apply Hf. cbn in Ha. lia.
Qed.
End Ends.
