(* ===== verification/AgentConcurrent.v ===== *)
(** Concurrent and sequential tool calls (agent/src/agent-loop.ts): where the answers of the
    hooks do not depend on the world, the two modes end with the same results, whatever order
    the concurrent calls went on in. *)
From S2P Require Import Prelude JsString Json AgentTranscript AgentLoop AgentFacts.

Section Concurrent.
Context {W : Type} (h : Hooks (W := W)).

(** The answers that decide a call do not depend on the world; the clock and the order do. *)
Record steady : Prop := {
  sy_aborted w : h_aborted h w = false;
  sy_validate t c w w' : (h_validate h t c w).1 = (h_validate h t c w').1;
  sy_beforeToolCall m c args context w w' : (h_beforeToolCall h m c args context w).1 = (h_beforeToolCall h m c args context w').1;
  sy_afterToolCall m c args r isError context w w' :
    (h_afterToolCall h m c args r isError context w).1 = (h_afterToolCall h m c args r isError context w').1;
  sy_settle t c args w w' : (h_settle h t c args w).1.1 = (h_settle h t c args w').1.1;
}.

(** What is left of an outcome and of a message without the times. *)
Definition same_outcome (o o' : AgentToolCallOutcome) : Prop :=
  oc_toolCall o = oc_toolCall o' /\ oc_result o = oc_result o' /\ oc_isError o = oc_isError o'.

Definition without_times (r : ToolResultMessage) : ToolResultMessage :=
  {| tr_toolCallId := tr_toolCallId r; tr_toolName := tr_toolName r; tr_content := tr_content r; tr_details := tr_details r;
     tr_usage := tr_usage r; tr_isError := tr_isError r; tr_durationMs := None; tr_timestamp := 0 |}.

Definition message_of (o : AgentToolCallOutcome) : ToolResultMessage :=
  {| tr_toolCallId := tc_id (oc_toolCall o); tr_toolName := tc_name (oc_toolCall o); tr_content := default [] (rs_content (oc_result o));
     tr_details := rs_details (oc_result o); tr_usage := rs_usage (oc_result o); tr_isError := oc_isError o; tr_durationMs := None;
     tr_timestamp := 0 |}.

Lemma same_message o o' : same_outcome o o' -> message_of o = message_of o'.
Proof. unfold message_of. by intros (-> & -> & ->). Qed.

Lemma same_sym o o' : same_outcome o o' -> same_outcome o' o.
Proof. by intros (? & ? & ?). Qed.

Lemma same_trans o o' o'' : same_outcome o o' -> same_outcome o' o'' -> same_outcome o o''.
Proof. intros (? & ? & ?) (? & ? & ?). split_and!; congruence. Qed.

Lemma same_terminate os os' : Forall2 same_outcome os os' -> shouldTerminateToolBatch os = shouldTerminateToolBatch os'.
Proof.
  intros H. unfold shouldTerminateToolBatch. rewrite (Forall2_length _ _ _ H). f_equal.
  induction H as [|o o' os os' (_ & Ho & _) H IH]; [done|]. cbn. by rewrite Ho, IH.
Qed.

(** ** What an action returns *)

Definition gives {A} (a : act (W := W) A) (P : A -> Prop) : Prop := forall s, P (a s).1.

Lemma gives_ret {A} (x : A) P : P x -> gives (mret x) P.
Proof. by intros H s. Qed.

Lemma gives_bind {A B} (a : act A) (f : A -> act B) P Q : gives a P -> (forall x, P x -> gives (f x) Q) -> gives (a ≫= f) Q.
Proof. intros Ha Hf s. unfold mbind, act_bind. specialize (Ha s). destruct (a s) as [x s1]. by apply Hf. Qed.

Lemma gives_then {A B} (a : act A) (f : A -> act B) Q : (forall x, gives (f x) Q) -> gives (a ≫= f) Q.
Proof. intros Hf. by apply (gives_bind _ _ (fun _ => True)). Qed.

Lemma gives_call {A} (f : W -> A * W) P : (forall w, P (f w).1) -> gives (call f) P.
Proof. intros H s. unfold call. specialize (H (st_world s)). by destruct (f (st_world s)). Qed.

Lemma gives_spec {A} (a : act A) P : spec a P -> gives a (fun x => exists evs polled, P x evs polled).
Proof. intros H s. destruct (H s) as (evs & polled & _ & _ & HP). by exists evs, polled. Qed.

Lemma gives_and {A} (a : act A) P Q : gives a P -> gives a Q -> gives a (fun x => P x /\ Q x).
Proof. intros HP HQ s. by split. Qed.

Lemma gives_each {A B} (f : A -> act B) (R : A -> B -> Prop) xs : (forall x, gives (f x) (R x)) -> gives (for_each f xs) (Forall2 R xs).
Proof.
  intros Hf. induction xs as [|x xs IH]; cbn [for_each]; [by apply gives_ret|]. eapply gives_bind; [apply Hf|]. intros y Hy.
  eapply gives_bind; [exact IH|]. intros ys Hys. apply gives_ret. by constructor.
Qed.

Lemma answer_gives o : gives (answer h o) (fun r => without_times r = message_of o).
Proof.
  unfold answer. apply (gives_bind _ _ (fun r => without_times r = message_of o)).
  - unfold createToolResultMessage. apply gives_then. intros now. by apply gives_ret.
  - intros r Hr. apply gives_then. intros _. by apply gives_ret.
Qed.

Lemma answers_give os : gives (for_each (answer h) os) (Forall2 (fun o r => without_times r = message_of o) os).
Proof. apply gives_each. apply answer_gives. Qed.

(** ** One call *)

Context (Hs : steady) (context : AgentContext) (m : AssistantMessage) (s0 : St (W := W)).

Definition prepared (c : ToolCall) : Preparation := (prepareToolCall h context m c s0).1.

(** How a call ends. *)
Definition expected (c : ToolCall) : AgentToolCallOutcome :=
  match prepared c with
  | Immediate result isError => immediate_outcome c result isError
  | Prepared tool args =>
      (finalizeExecutedToolCall h context m c args (settled (h_settle h tool c args (st_world s0)).1.1, 0%N) s0).1
  end.

Lemma prepare_gives c : gives (prepareToolCall h context m c) (eq (prepared c)).
Proof.
  intros s. unfold prepared, prepareToolCall. destruct (find_tool _ _) as [tool|]; [|done].
  unfold mbind, act_bind, call. pose proof (sy_validate Hs tool c (st_world s0) (st_world s)) as Hv.
  destruct (h_validate h tool c (st_world s0)) as [v w0], (h_validate h tool c (st_world s)) as [v' w]. cbn in Hv. subst v'.
  destruct v as [args|e]; [|done]. cbn. pose proof (sy_beforeToolCall Hs m c args context w0 w) as Hb.
  destruct (h_beforeToolCall h m c args context w0) as [b w0'], (h_beforeToolCall h m c args context w) as [b' w']. cbn in Hb. subst b'.
  destruct b as [b|e]; [|done]. unfold aborted. cbn. rewrite !(sy_aborted Hs). destruct b as [b|]; [|done]. by destruct (bf_block b).
Qed.

Lemma finalize_gives c args r d d' s s' :
  same_outcome (finalizeExecutedToolCall h context m c args (r, d) s).1 (finalizeExecutedToolCall h context m c args (r, d') s').1.
Proof.
  unfold finalizeExecutedToolCall, mbind, act_bind, call. destruct r as [result isError].
  pose proof (sy_afterToolCall Hs m c args result isError context (st_world s) (st_world s')) as Ha.
  destruct (h_afterToolCall h m c args result isError context (st_world s)) as [a w], (h_afterToolCall h m c args result isError context (st_world s')) as [a' w'].
  cbn in Ha. subst a'. by destruct a as [[a|]|e].
Qed.

Lemma finalized_expected c tool args r d : prepared c = Prepared tool args -> r = settled (h_settle h tool c args (st_world s0)).1.1 ->
  gives (finalizeExecutedToolCall h context m c args (r, d)) (same_outcome (expected c)).
Proof. intros Hp -> s. unfold expected. rewrite Hp. apply finalize_gives. Qed.

Lemma settle_gives tool c args : gives (call (h_settle h tool c args)) (fun x => x.1 = (h_settle h tool c args (st_world s0)).1.1).
Proof. apply gives_call. intros w. apply (sy_settle Hs). Qed.

Lemma immediate_expected c result isError : prepared c = Immediate result isError -> same_outcome (expected c) (immediate_outcome c result isError).
Proof. intros Hp. unfold expected. by rewrite Hp. Qed.

Lemma run_call_gives c : gives (run_call h context m c) (same_outcome (expected c)).
Proof.
  unfold run_call. eapply gives_bind; [apply prepare_gives|]. intros p Hp. destruct p as [tool args|result isError].
  - unfold executePreparedToolCall. apply (gives_bind _ _ (fun x => x.1 = settled (h_settle h tool c args (st_world s0)).1.1)).
    + apply gives_then. intros [early later]. apply gives_then. intros _. apply gives_then. intros _.
      eapply gives_bind; [apply settle_gives|]. intros [r d] Hr. cbn in Hr. subst r. by apply gives_ret.
    + intros [r d] Hr. cbn in Hr. by eapply finalized_expected.
  - apply gives_ret. by apply immediate_expected.
Qed.

Lemma sequential_gives calls : gives (sequential_calls h context m calls) (fun l =>
  Forall2 (fun c o => same_outcome (expected c) o) calls l.*1 /\ without_times <$> l.*2 = message_of <$> l.*1).
Proof.
  induction calls as [|c calls IH]; cbn [sequential_calls]; [by apply gives_ret|]. apply gives_then. intros _.
  eapply gives_bind; [apply run_call_gives|]. intros o Ho. apply gives_then. intros _.
  apply (gives_bind _ _ (fun r => without_times r = message_of o)).
  { apply answer_gives. }
  intros r Hr. apply (gives_bind _ _ (fun b => b = false)); [intros s; apply (sy_aborted Hs)|]. intros ? ->.
  eapply gives_bind; [exact IH|]. intros l [H1 H2]. apply gives_ret. cbn. split; [by constructor|]. by rewrite Hr, H2.
Qed.

(** ** Concurrent calls *)

Definition entry_ok (c : ToolCall) (e : FinalizedToolCallEntry) : Prop :=
  match e with EDone o => same_outcome (expected c) o | EThunk c' tool args => c' = c /\ prepared c = Prepared tool args end.

Definition stage_ok (c : ToolCall) (s : Stage) : Prop :=
  match s with
  | Running c' tool args _ => c' = c /\ prepared c = Prepared tool args
  | Settled c' args (r, _) => c' = c /\ exists tool, prepared c = Prepared tool args /\ r = settled (h_settle h tool c args (st_world s0)).1.1
  | Finalized o | Done o => same_outcome (expected c) o
  end.

Lemma prepare_calls_gives calls : gives (prepare_calls h context m calls) (Forall2 entry_ok calls).
Proof.
  induction calls as [|c calls IH]; cbn [prepare_calls]; [by apply gives_ret|]. apply gives_then. intros _.
  eapply gives_bind; [apply prepare_gives|]. intros p Hp. apply (gives_bind _ _ (entry_ok c)).
  { destruct p as [tool args|result isError]; [by apply gives_ret|]. apply gives_then. intros _. apply gives_ret.
    by apply immediate_expected. }
  intros e He. apply (gives_bind _ _ (fun b => b = false)); [intros s; apply (sy_aborted Hs)|]. intros ? ->.
  eapply gives_bind; [exact IH|]. intros es Hes. apply gives_ret. by constructor.
Qed.

Lemma launch_gives c e : entry_ok c e -> gives (launch h e) (stage_ok c).
Proof.
  intros He. destruct e as [o|c' tool args]; cbn [launch]; [by apply gives_ret|].
  apply (gives_bind _ _ (fun b => b = false)); [intros s; apply (sy_aborted Hs)|]. intros ? ->.
  apply gives_then. intros [early later]. apply gives_then. intros _. by apply gives_ret.
Qed.

Lemma launches_give calls es : Forall2 entry_ok calls es -> gives (for_each (launch h) es) (Forall2 stage_ok calls).
Proof.
  induction 1 as [|c e calls es He H IH]; cbn [for_each]; [by apply gives_ret|]. eapply gives_bind; [by apply launch_gives|].
  intros s Hst. eapply gives_bind; [exact IH|]. intros ss Hss. apply gives_ret. by constructor.
Qed.

Lemma resume_gives c s : stage_ok c s -> gives (resume h context m s) (stage_ok c).
Proof.
  destruct s as [c' tool args [|partial later]|c' args [r d]|o|o]; cbn [resume stage_ok].
  - intros [-> Hp]. eapply gives_bind; [apply settle_gives|]. intros [r d] Hr. cbn in Hr. subst r. apply gives_ret. split; [done|]. by exists tool.
  - intros H. apply gives_then. intros _. by apply gives_ret.
  - intros (-> & tool & Hp & Hr). eapply gives_bind; [by eapply finalized_expected|]. intros o Ho. by apply gives_ret.
  - intros H. apply gives_then. intros _. by apply gives_ret.
  - intros H. by apply gives_ret.
Qed.

Lemma run_together_gives calls fuel : forall ss, Forall2 stage_ok calls ss -> gives (run_together h fuel context m ss) (Forall2 stage_ok calls).
Proof.
  induction fuel as [|fuel IH]; intros ss H; cbn [run_together]; [by apply gives_ret|]. destruct (unfinished ss); [by apply gives_ret|].
  apply gives_then. intros k. destruct (ss !! _) as [s|] eqn:Hj; [|by apply gives_ret].
  destruct (Forall2_lookup_r _ _ _ _ _ H Hj) as (c & Hc & Hst). eapply gives_bind; [by apply resume_gives|]. intros s' Hs'. apply IH.
  rewrite <- (list_insert_id _ _ _ Hc). by apply Forall2_insert.
Qed.

Lemma done_expected calls ss : Forall2 stage_ok calls ss -> Forall (fun s => is_done s = true) ss ->
  Forall2 (fun c o => same_outcome (expected c) o) calls (omap outcome_of ss).
Proof.
  induction 1 as [|c s calls ss Hst H IH]; intros Hd; [constructor|]. inversion Hd; subst. destruct s; try done. cbn. constructor; auto.
Qed.

Lemma parallel_gives calls : gives (executeToolCallsParallel h context m calls) (fun b => exists os,
  Forall2 (fun c o => same_outcome (expected c) o) calls os /\ without_times <$> eb_messages b = message_of <$> os /\
  eb_terminate b = shouldTerminateToolBatch os).
Proof.
  unfold executeToolCallsParallel. eapply gives_bind; [apply prepare_calls_gives|]. intros es Hes.
  eapply gives_bind; [by apply launches_give|]. intros ss Hss.
  eapply gives_bind; [apply gives_and; [by apply run_together_gives|apply gives_spec, run_together_spec; lia]|].
  intros ss' (Hok & _ & _ & _ & _ & Hd). eapply gives_bind; [apply answers_give|]. intros rs Hrs. apply gives_ret.
  exists (omap outcome_of ss'). split_and!; [by apply done_expected| |done]. cbn. clear -Hrs.
  induction Hrs as [|o r os rs Hr H IH]; [done|]. cbn. by rewrite Hr, IH.
Qed.

Lemma sequential_batch_gives calls : gives (executeToolCallsSequential h context m calls) (fun b => exists os,
  Forall2 (fun c o => same_outcome (expected c) o) calls os /\ without_times <$> eb_messages b = message_of <$> os /\
  eb_terminate b = shouldTerminateToolBatch os).
Proof. eapply gives_bind; [apply sequential_gives|]. intros l [H1 H2]. apply gives_ret. by exists l.*1. Qed.

Lemma expected_same calls os os' : Forall2 (fun c o => same_outcome (expected c) o) calls os ->
  Forall2 (fun c o => same_outcome (expected c) o) calls os' -> Forall2 same_outcome os os'.
Proof.
  intros H. revert os'. induction H as [|c o calls os Ho H IH]; intros os' H'; inversion H'; subst; constructor; [|by apply IH].
  eapply same_trans; [by apply same_sym|done].
Qed.

Lemma same_messages os os' : Forall2 same_outcome os os' -> message_of <$> os = message_of <$> os'.
Proof. induction 1 as [|o o' os os' Ho H IH]; [done|]. cbn. by rewrite (same_message _ _ Ho), IH. Qed.
End Concurrent.
