(* ===== verification/AgentTheorems.v ===== *)
(** The properties of the agent loop (agent/src/agent-loop.ts) and of the tools and prompt of
    a transcript (ai/src/utils/transcript.ts). *)
From S2P Require Import Prelude JsString Json AgentTranscript AgentLoop AgentFacts AgentRun AgentConcurrent.
From stdpp Require Import gmultiset.

(** ** A host *)

Module Example.

(** The answers of the model, the queues and the clock. *)
Record Script : Type := {
  sc_answers : list AssistantMessage;
  sc_steering : list (list AgentMessage);
  sc_followUps : list (list AgentMessage);
  sc_now : N;
}.

Definition with_answers l w := {| sc_answers := l; sc_steering := sc_steering w; sc_followUps := sc_followUps w; sc_now := sc_now w |}.
Definition with_steering l w := {| sc_answers := sc_answers w; sc_steering := l; sc_followUps := sc_followUps w; sc_now := sc_now w |}.
Definition with_followUps l w := {| sc_answers := sc_answers w; sc_steering := sc_steering w; sc_followUps := l; sc_now := sc_now w |}.
Definition tick w := {| sc_answers := sc_answers w; sc_steering := sc_steering w; sc_followUps := sc_followUps w; sc_now := (sc_now w + 1)%N |}.

Definition says (reason : StopReason) (content : list Content) : AssistantMessage :=
  {| am_content := content; am_stopReason := reason; am_thinkingLevel := None; am_rest := JNull |}.

Definition plain : AssistantMessage := says stop_stop [COther (text_block "done")].

Definition result_for (args : json) : AgentToolResult :=
  {| rs_content := Some [args]; rs_details := None; rs_structuredContent := None; rs_usage := None; rs_isError := false; rs_terminate := None |}.

(** The model reads its answers from the script; tools report an update and return their
    arguments; the calls go on in an order that the clock decides. *)
Definition host : Hooks (W := Script) := {|
  h_aborted _ := false;
  h_now w := (sc_now w, tick w);
  h_emit _ w := w;
  h_getSteeringMessages w := match sc_steering w with [] => ([], w) | ms :: l => (ms, with_steering l w) end;
  h_getFollowUpMessages w := match sc_followUps w with [] => ([], w) | ms :: l => (ms, with_followUps l w) end;
  h_prepareNextTurn _ w := (None, w);
  h_prepareRequest _ _ _ w := (None, w);
  h_finishTurn _ w := (None, w);
  h_request _ _ _ w := ([stream_start plain; stream_update plain; stream_done], w);
  h_result w := match sc_answers w with [] => (plain, w) | m :: l => (m, with_answers l w) end;
  h_toolExecution := parallel;
  h_validate _ c w := (Ok (tc_arguments c), w);
  h_beforeToolCall _ _ _ _ w := (Ok None, w);
  h_afterToolCall _ _ _ _ _ _ w := (Ok None, w);
  h_execute _ _ args w := (([result_for args], [result_for args]), w);
  h_settle _ _ args w := ((Ok (result_for args), sc_now w), tick w);
  h_pick w := (N.to_nat (sc_now w), tick w);
|}.

Definition tool (name : string) : AgentTool :=
  {| at_tool := {| tl_name := name; tl_description := "a tool"; tl_parameters := "{}"; tl_constrainedSampling := None |}; at_executionMode := None |}.

Definition read_call : ToolCall := {| tc_id := "1"; tc_name := "read"; tc_arguments := JStr "a.ts" |}.
Definition edit_call : ToolCall := {| tc_id := "2"; tc_name := "edit"; tc_arguments := JStr "b.ts" |}.
Definition both : AssistantMessage := says stop_toolUse [CCall read_call; CCall edit_call].

Definition user (text : string) : AgentMessage := MOther (JStr text).
Definition context : AgentContext := {| cx_messages := []; cx_tools := [tool "read"; tool "edit"] |}.

(** Two calls, one message while they run, one after the run would have ended. *)
Definition start : St (W := Script) := {|
  st_world := {| sc_answers := [both; plain; says stop_length [CCall read_call]]; sc_steering := [[]; [user "wait"]]; sc_followUps := [[user "more"]]; sc_now := 5 |};
  st_log := []; st_polled := [];
|}.

Abbreviation run := (runAgentLoop host 9 [user "hello"] context JNull None start).

Definition script_left (w : Script) : nat := length (sc_answers w) + length (sc_steering w) + length (sc_followUps w).

Lemma host_steady : steady host.
Proof. by split. Qed.

Lemma host_wanes : wanes host script_left.
Proof.
  split; intros; try done; match goal with w : Script |- _ => destruct w as [[|m ms] [|[|? ?] ?] [|[|? ?] ?] now] end;
    cbn; unfold script_left; cbn; try lia; destruct (calls_tools m); cbn; lia.
Qed.

End Example.

Section Properties.
Context {W : Type} (h : Hooks (W := W)).

(** From the start of a run to its end. *)
Lemma runAgentLoop_spec fuel prompts context model reasoning :
  spec (runAgentLoop h fuel prompts context model reasoning) (fun out evs polled => forall ms, out = Some ms ->
    exists initial evs' evs'' b bs, evs = agent_start :: turn_start :: evs' ++ evs'' /\
      (exists now, initial = declareToolChanges context prompts now) /\
      runs (InTurn, ∅) evs' (InTurn, ∅) /\ ended_messages evs' = initial /\ run_result h InTurn polled initial ms evs'' (b :: bs)).
Proof.
  unfold runAgentLoop. apply spec_after_call. intros now. apply spec_after_emit, spec_after_emit.
  eapply spec_bind; [apply emit_messages_spec|]. intros _ evs polled (-> & Hr & He).
  eapply spec_bind; [apply (spec_poll _ (fun _ => True)); done|]. intros pending evs1 polled1 (-> & -> & _).
  eapply spec_weaken; [apply runLoop_spec|]. intros out evs2 polled2 H ms Hms. destruct (H ms Hms) as (b & bs & Hbs).
  exists (declareToolChanges context prompts now), evs, evs2, b, bs. rewrite app_nil_l. split_and!; [done|by exists now|done|exact He|exact Hbs].
Qed.

(** C18. A run emits its events in the order of the protocol: messages and tool calls inside
    turns, turns inside the run, no message while a call runs, an update only of a call that
    runs, every call ended once. It ends with [agent_end], and the messages that ended are
    those it returns. *)
Theorem run_follows_protocol fuel prompts context model reasoning s ms :
  (runAgentLoop h fuel prompts context model reasoning s).1 = Some ms ->
  exists evs before, st_log (runAgentLoop h fuel prompts context model reasoning s).2 = st_log s ++ evs /\
    runs (Idle, ∅) evs (Ended, ∅) /\ ended_messages evs = ms /\ evs = before ++ [agent_end ms].
Proof.
  intros Hms. destruct (runAgentLoop_spec fuel prompts context model reasoning s) as (evs & polled & Hl & _ & H).
  destruct (H ms Hms) as (initial & evs' & evs'' & b & bs & -> & _ & Hr & He & Hres). destruct Hres. destruct ru_over as [before Hb].
  exists (agent_start :: turn_start :: evs' ++ evs''), (agent_start :: turn_start :: evs' ++ before). split_and!; [done| | |].
  - eapply runs_cons; [constructor|]. eapply runs_cons; [constructor|]. by eapply runs_app.
  - change (ended_messages (agent_start :: turn_start :: evs' ++ evs'')) with (ended_messages (evs' ++ evs'')).
    by rewrite ended_app, He, ru_ended, ru_new.
  - rewrite Hb. cbn. by rewrite app_assoc.
Qed.

(** C17. The messages of a run are the prompts and then its turns, of each what was delivered,
    the response and its tool results. Results answer the calls of their message in order, all
    unless the run was aborted; a truncated response gets errors only, a failed one ends the
    run. What the queues gave is delivered in order, and nothing else unless the host prepares
    messages. *)
Theorem run_answers_calls fuel prompts context model reasoning s ms :
  (runAgentLoop h fuel prompts context model reasoning s).1 = Some ms ->
  exists now bs polled, ms = declareToolChanges context prompts now ++ all_messages bs /\
    Forall (block_ok h) bs /\ failed_last bs /\ bs <> [] /\
    st_polled (runAgentLoop h fuel prompts context model reasoning s).2 = st_polled s ++ polled /\
    others polled `sublist_of` others (all_delivered bs) /\
    (prepares_nothing h -> others (all_delivered bs) = others polled).
Proof.
  intros Hms. destruct (runAgentLoop_spec fuel prompts context model reasoning s) as (evs & polled & _ & Hp & H).
  destruct (H ms Hms) as (initial & evs' & evs'' & b & bs & _ & [now ->] & _ & _ & Hres). destruct Hres.
  exists now, (b :: bs), polled. by split_and!.
Qed.

(** C20. A run whose host runs down a measure (each response that calls tools, each delivery of
    a queue, each decision to continue takes from it) ends within as many turns as the measure
    pays for. *)
Theorem run_ends (mu : W -> nat) fuel prompts context model reasoning s :
  wanes h mu -> mu (st_world s) < fuel -> (runAgentLoop h fuel prompts context model reasoning s).1 <> None.
Proof.
  intros Hw Hs. unfold runAgentLoop. apply (after_free mu); [apply free_call, Hw|]. intros now s1 H1.
  apply (after_free mu); [by apply free_emit|]. intros _ s2 H2. apply (after_free mu); [by apply free_emit|]. intros _ s3 H3.
  apply (after_free mu); [by apply free_messages|]. intros _ s4 H4. apply (after_free mu); [by apply free_poll, Hw|]. intros pending s5 H5.
  eapply runLoop_ends; [exact Hw|lia].
Qed.

(** C19. Where the answers of the hooks do not depend on the world and the run is not aborted,
    concurrent calls give the results of calls made one after the other, in the order of the
    calls and whatever the order in which they went on, and end the turn alike. *)
Theorem parallel_is_sequential context m calls s s' :
  steady h ->
  let p := (executeToolCallsParallel h context m calls s).1 in
  let q := (executeToolCallsSequential h context m calls s').1 in
  without_times <$> eb_messages p = without_times <$> eb_messages q /\ eb_terminate p = eb_terminate q.
Proof.
  intros Hs. destruct (parallel_gives h Hs context m s calls s) as (os & H1 & H2 & H3).
  destruct (sequential_batch_gives h Hs context m s calls s') as (os' & H1' & H2' & H3').
  pose proof (expected_same _ _ _ _ _ _ _ H1 H1') as Hsame. cbn zeta. rewrite H2, H2', H3, H3'. split; [by apply same_messages|by apply same_terminate].
Qed.
End Properties.

(** ** Transcripts *)

(** C21. Whatever system messages are pending, the messages that are delivered leave a transcript
    whose tools are, under each name, those that can be executed; other messages stay. *)
Theorem declared_tools_are_executable context pending now :
  NoDup (at_name <$> cx_tools context) ->
  let delivered := declareToolChanges context pending now in
  others delivered = others pending /\
  forall name, tool_named name (getCurrentTools system_message (cx_messages context ++ delivered)) =
    tool_named name (toToolDeclaration <$> cx_tools context).
Proof.
  intros Hd delivered. split; [apply declare_others|]. intros name. unfold getCurrentTools.
  rewrite <- tools_ok_get by apply replay_tools_ok. by apply declared_get.
Qed.

Section Transcripts.
Context {M : Type} (system : M -> option SystemMessage) (of_system : SystemMessage -> M).

(** C22. A collapsed transcript has one system message at most, in front; the tools, the prompt
    and the message that it is replayed to are those of the transcript, and so are its other
    messages. *)
Theorem collapse_keeps_the_state messages :
  (forall m, system (of_system m) = Some m) ->
  let collapsed := collapseSystemMessages system of_system messages in
  getCurrentTools system collapsed = getCurrentTools system messages /\
  getCurrentSystemMessage system collapsed = getCurrentSystemMessage system messages /\
  getCurrentSystemPrompt system collapsed = getCurrentSystemPrompt system messages /\
  withoutInitialSystemMessage system collapsed = filter (fun m => system m = None) messages.
Proof.
  intros Hs collapsed. split_and!; [by apply collapse_tools|by apply collapse_current|unfold getCurrentSystemPrompt, collapsed; by rewrite collapse_current|].
  by apply without_collapsed.
Qed.

(** C23. For a transport that can add tools in place, the tools of the request followed by those
    of the later system messages are the current tools, in their order, no two of one name;
    the later messages remove nothing. *)
Theorem additions_in_place messages :
  let tools := resolveTranscriptTools system messages support_additions in
  let later := drop (tt_foldedSystemMessages tools) (system_messages system messages) in
  getCurrentTools system messages = tt_requestTools tools ++ concat (sm_toolsAdded <$> later) /\
  Forall (fun m => sm_toolsRemoved m = []) later /\
  NoDup (tl_name <$> getCurrentTools system messages).
Proof.
  cbn zeta. set (f := tt_foldedSystemMessages _). set (ms := system_messages system messages).
  assert (Hf : findLastNonAdditiveToolChange ms <= f) by (subst f ms; cbn; lia).
  assert (Hadd : forall pre m rest, drop f ms = pre ++ m :: rest -> additive (added_names (take f ms ++ pre)) m).
  { intros pre m rest Hd. assert (Hlen : f < length ms) by (apply Nat.nle_gt; intros H%drop_ge; rewrite H in Hd; by destruct pre).
    apply (findLast_additive ms (take f ms ++ pre) m rest).
    - by rewrite <- app_assoc, <- Hd, take_drop.
    - rewrite length_app, length_take. lia. }
  split_and!.
  - unfold getCurrentTools. fold ms. rewrite <- (take_drop f ms) at 1. by apply replay_additions.
  - apply Forall_lookup. intros i m Hi. apply (Hadd (take i (drop f ms)) m (drop (S i) (drop f ms))). by rewrite take_drop_middle.
  - apply current_names_unique.
Qed.
End Transcripts.

(** ** Witnesses *)

Import Example.

Definition messages : list AgentMessage := Eval vm_compute in default [] run.1.

(** The run of [Example]: two turns, one for the message that waited, one for the follow-up
    with a truncated response, and its retry. *)
Lemma run_follows_protocol_witness :
  run.1 = Some messages /\ exists evs before, st_log run.2 = st_log start ++ evs /\ runs (Idle, ∅) evs (Ended, ∅) /\
    ended_messages evs = messages /\ evs = before ++ [agent_end messages].
Proof.
  assert (H : run.1 = Some messages) by (vm_compute; reflexivity).
  split; [exact H|]. exact (run_follows_protocol host 9 [user "hello"] context JNull None start messages H).
Defined.

Lemma run_answers_calls_witness :
  run.1 = Some messages /\ exists now bs polled, messages = declareToolChanges context [user "hello"] now ++ all_messages bs /\
    Forall (block_ok host) bs /\ failed_last bs /\ bs <> [] /\ st_polled run.2 = st_polled start ++ polled /\
    others polled `sublist_of` others (all_delivered bs) /\ (prepares_nothing host -> others (all_delivered bs) = others polled).
Proof.
  assert (H : run.1 = Some messages) by (vm_compute; reflexivity).
  split; [exact H|]. exact (run_answers_calls host 9 [user "hello"] context JNull None start messages H).
Defined.

(** What the run came to. *)
Lemma run_example :
  (fun m => match m with MToolResult r => Some (tr_toolCallId r, tr_isError r) | _ => None end) <$> messages =
    [None; None; None; Some ("1", false); Some ("2", false); None; None; None; None; Some ("1", true); None] /\
  st_polled run.2 = [user "wait"; user "more"].
Proof. vm_compute. split; reflexivity. Qed.

Lemma run_ends_witness : script_left (st_world start) < 9 /\ run.1 <> None.
Proof.
  assert (H : script_left (st_world start) < 9) by (vm_compute; lia).
  split; [exact H|]. exact (run_ends host script_left 9 [user "hello"] context JNull None start host_wanes H).
Defined.

Lemma parallel_is_sequential_witness :
  steady host /\
  without_times <$> eb_messages (executeToolCallsParallel host context both [read_call; edit_call] start).1 =
    without_times <$> eb_messages (executeToolCallsSequential host context both [read_call; edit_call] start).1 /\
  eb_terminate (executeToolCallsParallel host context both [read_call; edit_call] start).1 =
    eb_terminate (executeToolCallsSequential host context both [read_call; edit_call] start).1.
Proof.
  split; [exact host_steady|]. apply (parallel_is_sequential host context both [read_call; edit_call] start start). exact host_steady.
Defined.

Lemma declared_tools_are_executable_witness :
  NoDup (at_name <$> cx_tools context) /\
  others (declareToolChanges context [user "hello"] 0) = [user "hello"] /\
  forall name, tool_named name (getCurrentTools system_message (cx_messages context ++ declareToolChanges context [user "hello"] 0)) =
    tool_named name (toToolDeclaration <$> cx_tools context).
Proof.
  assert (H : NoDup (at_name <$> cx_tools context)) by (repeat constructor; set_solver).
  split; [exact H|]. exact (declared_tools_are_executable context [user "hello"] 0 H).
Defined.

Definition transcript : list AgentMessage := [user "early"; MSystem (withToolChanges {| sm_content := "be brief"; sm_sections := [("date", Some "today")];
  sm_toolsAdded := []; sm_toolsRemoved := []; sm_timestamp := 3 |} {| ch_toolsAdded := [at_tool (tool "read")]; ch_toolsRemoved := [] |}); user "late"].

Lemma collapse_keeps_the_state_witness :
  getCurrentTools system_message (collapseSystemMessages system_message MSystem transcript) = getCurrentTools system_message transcript /\
  getCurrentSystemMessage system_message (collapseSystemMessages system_message MSystem transcript) = getCurrentSystemMessage system_message transcript /\
  getCurrentSystemPrompt system_message (collapseSystemMessages system_message MSystem transcript) = getCurrentSystemPrompt system_message transcript /\
  withoutInitialSystemMessage system_message (collapseSystemMessages system_message MSystem transcript) = [user "early"; user "late"].
Proof. apply (collapse_keeps_the_state system_message MSystem transcript). intros m. reflexivity. Defined.
